(* ===== verification/_CoqProject ===== *)
-Q . S2P
Prelude.v
Limbs.v
Cong.v
Sha.v
ShaSpec.v
Rsa.v
RsaSpec.v
P256.v
P256Spec.v
P256Curve.v
DsaSig.v
Primes.v
P256Prime.v
P256Ec.v
P256Field.v
P256Reduce.v
P256Point.v
P256Mult.v
P256EcSpec.v
Asn1.v
Asn1Spec.v
Verifier.v
VerifierSpec.v
SparseCrc32.v
BackedBlock.v
BackedBlockSpec.v
BackedBlockContent.v
OutputFile.v
SparseFile.v
SparseRead.v
SparseSpec.v
SparseReadSpec.v
CString.v
MkBootImg.v
MkBootImgSpec.v
FsConfig.v
FsConfigSpec.v
MkBootFs.v
MkBootFsSpec.v
Strto.v
Scanf.v
ScanfText.v
ScanfSpec.v
LoadKeys.v
LoadKeysSpec.v
AdbIo.v
FuseSideload.v
SideloadSpec.v
SideloadProviders.v
BsPatch.v
BsPatchSpec.v
QSufSort.v
QSufSortSpec.v
BsDiff.v
ImgPatch.v
ImgPatchSpec.v
BlockDev.v
BlockImg.v
BlockRange.v
BlockLogic.v
BlockText.v
BlockOps.v
BlockSink.v
BlockLoad.v
BlockCmd.v
BlockPlan.v
BlockImgSpec.v
BlockVerify.v
MinzipHash.v
MinzipHashSpec.v
Zip.v
ZipSpec.v
ZipExtract.v
ZipExtractSpec.v
ZipTreeSpec.v
