(* ===== verification/Prelude.v ===== *)
(** * Shield TV boot-image tree: verification library

    The repository builds the boot and recovery images of the Shield TV from a
    subset of the Android sources. This library models the programs and
    libraries on the way of an image from the build host to the device, and
    proves what each hands to the next.

    ** The program and its parts

    On the build host, [mkbootfs] (src/system/core/cpio) packs a directory tree
    into a ramdisk, asking [fs_config] (src/system/core/libcutils) for owners
    and modes; [mkbootimg] (src/system/core/mkbootimg) puts kernel, ramdisk and
    command line into a boot image with a SHA-1 identifier; [libsparse]
    (src/system/core/libsparse) turns partition images into sparse images;
    [DumpPublicKey] (src/system/core/libmincrypt/tools) writes the keys file of
    the recovery; [bsdiff] (src/bootable/recovery/applypatch) makes binary
    patches. On the device, the recovery (src/bootable/recovery) receives a
    package from [adb] (src/system/core/adb) or from the sdcard through a FUSE
    file system ([fuse_sideload]), reads its keys file ([load_keys], over
    bionic's [fscanf] and [strtol]), verifies the signature of the package
    ([verify_file], over the ASN.1 decoder and the SHA, RSA and ECDSA code of
    [libmincrypt]), and applies patches ([bspatch]).

    ** Files, and the sources they model

    Foundations. Prelude.v (this file): outcomes of C code, machine integers,
    arrays, loops, and the tactics and hint databases of the development.
    Limbs.v: word arrays as integers. Cong.v: congruence modulo an integer as a
    setoid. Primes.v: Pocklington certificates. CString.v: C strings.

    libmincrypt. Sha.v (sha.c, sha256.c) and ShaSpec.v; Rsa.v (rsa.c) and
    RsaSpec.v; P256.v (p256.c), P256Spec.v and P256Curve.v; DsaSig.v
    (dsa_sig.c); P256Ec.v (p256_ec.c, p256_ecdsa.c) with P256Field.v,
    P256Reduce.v, P256Point.v, P256Mult.v, P256Prime.v and P256EcSpec.v.

    Recovery. Asn1.v (asn1_decoder.cpp, [read_pkcs7]) and Asn1Spec.v;
    Verifier.v ([verify_file] of verifier.cpp) and VerifierSpec.v; LoadKeys.v
    ([load_keys], DumpPublicKey.java) and LoadKeysSpec.v; FuseSideload.v
    (fuse_sideload.c, fuse_sdcard_provider.c, the adb provider of minadbd) with
    SideloadSpec.v and SideloadProviders.v; BsPatch.v (bspatch.c, bsdiff.c),
    QSufSort.v (the suffix sort of bsdiff.c) with BsPatchSpec.v, QSufSortSpec.v
    and BsDiff.v.

    libsparse. SparseCrc32.v, BackedBlock.v (backed_block.c) with
    BackedBlockSpec.v and BackedBlockContent.v, OutputFile.v (output_file.c),
    SparseFile.v (sparse.c), SparseRead.v (sparse_read.c), SparseSpec.v and
    SparseReadSpec.v.

    Image tools. MkBootImg.v and MkBootImgSpec.v (mkbootimg.c, bootimg.h),
    FsConfig.v and FsConfigSpec.v (fs_config.c, fs_config_generate.c),
    MkBootFs.v and MkBootFsSpec.v (mkbootfs.c).

    C library and adb. Strto.v (strtol.c and its relatives), Scanf.v and
    ScanfSpec.v (vfscanf.c); AdbIo.v (adb_io.cpp, the sideload host of
    commandline.cpp).

    ** How code is modelled

    A C function is a Rocq function of the same name. A function that can
    dereference a null or freed pointer, leave an array, fail an assertion or
    loop for ever returns an [outcome]: [Ret], [Fault] or [Diverge]. Integers
    are [Z], with [u8] to [u64], [i32] and [i64] written where C converts or
    wraps. Arrays are lists, strings lists of bytes without the terminator;
    [rd_mem], [st_mem] and [sub_bytes] fault outside of them. Out parameters
    are results, structures are records, tables of function pointers are
    records of functions ([provider], the sinks of OutputFile.v). System calls
    take their results from scripts, lists that say for each call how much it
    transfers or that it fails, so a theorem over all scripts covers short
    transfers and failures; memory that C leaves uninitialised is an argument.
    BackedBlock.v keeps a heap of nodes, because aliasing and double frees
    matter there. Java's BigInteger is [Z].

    ** What the theorems show

    Cryptography: the digests equal FIPS 180-4 for every way of feeding the
    data; Montgomery arithmetic, exponentiation and the P-256 field and point
    formulas compute what they should, without overflow of their accumulators;
    RSA and ECDSA verification accept what the standards say.

    Trust chain: [read_pkcs7] reads exactly the encodings it should and never
    leaves its buffer; [verify_file] accepts a package if and only if it has
    the layout of a signed package and a key opens its signature; what
    DumpPublicKey writes is read back by [load_keys] to keys that satisfy the
    invariants the verification relies on ([verify_loaded_keys] composes the
    two); the sideload file system shows exactly the package of the host, over
    any sequence of short transfers ([sideload_over_adb]), and with a host that
    may answer anything cannot be made to show two versions of a block.

    Formats: boot images, ramdisks, sparse images, rule files and binary
    patches are read back to what was written ([mkbootimg_roundtrip],
    [mkbootfs_roundtrip], [sparse_roundtrip], [fs_config_roundtrip],
    [bsdiff_roundtrip]); the block lists of libsparse refine sorted lists; the
    suffix sort sorts; [strtol] and [fscanf] do what the C standard says.

    Failures: the inputs on which the code reads or writes outside of its
    buffers, uses a null pointer, or accepts what it should not, are theorems
    as well ([verify_file_underread], [sideload_poisoned], [bspatch_overflow]
    and lemmas named in the findings).

    ** Interfaces

    [AppendSink] (SparseSpec.v) is what a sink promises to the writer of sparse
    images. [Responds] and [Serves] (SideloadSpec.v) are what a provider
    promises to the sideload file system; the adb connection and the sdcard are
    instances. [Bzip2] (BsDiff.v) states of the compressor, which is not in the
    tree, that decompressing gives back what was compressed.

    ** Fuel

    Loops over a counter are structural on its bound or use [for_]. Where the
    bound is not syntactic the definition takes fuel, and the theorems show
    that it is enough: the number of live nodes for block lists, the number of
    bytes left for transfers, formats and control blocks, the length of the
    array for [split] and the number of doublings for [qsufsort]. For
    [p256_modinv_vartime] the fuel is an argument and its theorem says how much
    is needed. A loop of the code that can really run for ever ends in
    [Diverge].

    ** Not modelled

    Log messages, progress bars and usage texts. The command line tools of
    libsparse and fs_config_generate's option parsing. bzip2, zlib and the
    floating point conversions of [fscanf], which are parameters. Of the
    recovery: the main program, user interface, mounting, minzip and edify, the
    updater's script functions and block transfers, and applypatch's handling
    of whole files and zip members: they are mostly sequences of system calls
    around zlib, or are generated by tools outside of the tree; the routines
    they are built on (digests, number conversion, bspatch) are modelled.
    Of the C library only the files named above. adb's transports and sockets,
    init, fs_mgr, healthd and the other libraries of system/core are event
    loops, threads and wrappers of kernel interfaces that no modelled part
    calls. The imported projects under src/external, the headers of frameworks
    and hardware, and the configuration of build, device and vendor are not
    specific to this program. *)

From stdpp Require Export base numbers list gmap strings sorting.
From Stdlib Require Export ZArith Lia.

#[global] Open Scope Z_scope.

(** ** Outcomes of C code

    A C function that stays within the language returns a value; one that
    dereferences a null or a freed pointer, leaves an array, divides by zero,
    shifts by the operand's width or trips an [assert] has a [Fault]; a loop
    that used up the fuel its definition was given is [Diverge]. *)
Inductive fault :=
  | NullDeref
  | UseAfterFree
  | DoubleFree
  | AssertFailed
  | OutOfBounds
  | DivByZero
  | BadShift.

#[global] Instance fault_eq_dec : EqDecision fault.
Proof. solve_decision. Defined.

Inductive outcome (A : Type) :=
  | Ret (a : A)
  | Fault (f : fault)
  | Diverge.
Arguments Ret {A} a.
Arguments Fault {A} f.
Arguments Diverge {A}.

#[global] Instance outcome_ret : MRet outcome := fun A a => Ret a.
#[global] Instance outcome_bind : MBind outcome := fun A B k m =>
  match m with
  | Ret a => k a
  | Fault f => Fault f
  | Diverge => Diverge
  end.

(** A monad in which code that stays in memory can be run. *)
Class Effects (M : Type -> Type) := perform : forall {A}, outcome A -> M A.

Definition returns {A} (m : outcome A) : Prop := exists a, m = Ret a.

(** [assert(b)] of <assert.h>. *)
Definition c_assert (b : bool) : outcome unit :=
  if b then Ret tt else Fault AssertFailed.

Lemma bind_ret {A B} (k : A -> outcome B) a : (Ret a ≫= k) = k a.
Proof. reflexivity. Qed.

Lemma bind_Ret_inv {A B} (m : outcome A) (k : A -> outcome B) b :
  (m ≫= k) = Ret b -> exists a, m = Ret a /\ k a = Ret b.
Proof. destruct m; simpl; [eauto | discriminate | discriminate]. Qed.

Lemma c_assert_true (b : bool) : b = true -> c_assert b = Ret tt.
Proof. intros ->. reflexivity. Qed.

(** Unwind a hypothesis that says a monadic computation returned. *)
Ltac inv_ret :=
  repeat match goal with
  | H : (_ ≫= _) = Ret _ |- _ =>
      let a := fresh "a" in let E := fresh "E" in
      apply bind_Ret_inv in H; destruct H as (a & E & H); simpl in H
  | H : Ret _ = Ret _ |- _ => injection H as H; subst
  | H : mret _ = Ret _ |- _ => unfold mret, outcome_ret in H
  | H : Fault _ = Ret _ |- _ => discriminate H
  | H : Diverge = Ret _ |- _ => discriminate H
  | H : c_assert ?b = Ret _ |- _ =>
      let E := fresh "E" in
      destruct b eqn:E; [clear H | discriminate H]
  end.

(** ** Machine integers

    A value of an unsigned C type of width [w] is a [Z] in [0, 2^w); a signed
    one is in [-2^(w-1), 2^(w-1)). Conversions wrap. *)
Definition wrap (w x : Z) : Z := x mod 2 ^ w.
Definition swrap (w x : Z) : Z := (x + 2 ^ (w - 1)) mod 2 ^ w - 2 ^ (w - 1).

Abbreviation u8 := (wrap 8).
Abbreviation u16 := (wrap 16).
Abbreviation u32 := (wrap 32).
Abbreviation u64 := (wrap 64).
Abbreviation i32 := (swrap 32).
Abbreviation i64 := (swrap 64).

Definition in_range (w x : Z) : Prop := 0 <= x < 2 ^ w.

Definition in_srange (w x : Z) : Prop := - 2 ^ (w - 1) <= x < 2 ^ (w - 1).

#[global] Instance in_range_dec w x : Decision (in_range w x).
Proof. unfold in_range. apply _. Defined.
#[global] Instance in_srange_dec w x : Decision (in_srange w x).
Proof. unfold in_srange. apply _. Defined.

Create HintDb cint.

Lemma wrap_range w x : 0 <= w -> in_range w (wrap w x).
Proof. intros. apply Z.mod_pos_bound. lia. Qed.

Lemma wrap_small w x : in_range w x -> wrap w x = x.
Proof. intros. by apply Z.mod_small. Qed.

Lemma wrap_idemp w x : 0 <= w -> wrap w (wrap w x) = wrap w x.
Proof. intros. by apply wrap_small, wrap_range. Qed.

Lemma wrap_add_l w x y : wrap w (wrap w x + y) = wrap w (x + y).
Proof. unfold wrap. by rewrite Zplus_mod_idemp_l. Qed.

Lemma wrap_add_r w x y : wrap w (x + wrap w y) = wrap w (x + y).
Proof. unfold wrap. by rewrite Zplus_mod_idemp_r. Qed.

Lemma wrap_mul_l w x y : wrap w (wrap w x * y) = wrap w (x * y).
Proof. unfold wrap. by rewrite Zmult_mod_idemp_l. Qed.

Lemma wrap_land_ones w x : 0 <= w -> wrap w x = Z.land x (Z.ones w).
Proof. intros. unfold wrap. by rewrite Z.land_ones. Qed.

Lemma swrap_range w x : 0 < w -> in_srange w (swrap w x).
Proof.
  intros. unfold in_srange, swrap.
  pose proof (Z.mod_pos_bound (x + 2 ^ (w - 1)) (2 ^ w) ltac:(lia)).
  replace (2 ^ w) with (2 * 2 ^ (w - 1)) in * by (rewrite <- Z.pow_succ_r; [f_equal; lia | lia]).
  lia.
Qed.

Lemma swrap_small w x : 0 < w -> in_srange w x -> swrap w x = x.
Proof.
  unfold in_srange, swrap. intros.
  assert (2 ^ w = 2 * 2 ^ (w - 1)) by (rewrite <- Z.pow_succ_r; [f_equal; lia | lia]).
  rewrite Z.mod_small; lia.
Qed.

Lemma wrap_swrap w x : 0 < w -> wrap w (swrap w x) = wrap w x.
Proof.
  intros. unfold wrap, swrap.
  rewrite Zminus_mod_idemp_l. f_equal. lia.
Qed.

#[export] Hint Resolve wrap_range swrap_range wrap_small : cint.

(** Decide boolean comparisons of [Z] that occur in the goal or a hypothesis. *)
Ltac zbool :=
  repeat match goal with
  | H : (_ <? _) = true |- _ => apply Z.ltb_lt in H
  | H : (_ <? _) = false |- _ => apply Z.ltb_ge in H
  | H : (_ <=? _) = true |- _ => apply Z.leb_le in H
  | H : (_ <=? _) = false |- _ => apply Z.leb_gt in H
  | H : (_ =? _) = true |- _ => apply Z.eqb_eq in H
  | H : (_ =? _) = false |- _ => apply Z.eqb_neq in H
  | H : negb _ = true |- _ => apply negb_true_iff in H
  | H : negb _ = false |- _ => apply negb_false_iff in H
  | H : (_ && _)%bool = true |- _ => apply andb_true_iff in H; destruct H
  | H : (_ || _)%bool = false |- _ => apply orb_false_iff in H; destruct H
  end.

(** Split every [if] on a [Z] comparison in the goal. *)
Ltac zcase :=
  repeat match goal with
  | |- context [if ?b then _ else _] =>
      lazymatch type of b with bool => let E := fresh "E" in destruct b eqn:E end
  end; zbool.

(** Linear arithmetic over quotients and remainders. *)
Ltac dmlia := Z.to_euclidean_division_equations; lia.
Ltac dmnia := Z.to_euclidean_division_equations; nia.

(** ** Bitwise reasoning on words *)

Lemma in_range_testbit w x i : 0 <= w -> in_range w x -> w <= i -> Z.testbit x i = false.
Proof.
  intros Hw Hx Hi. rewrite <- (wrap_small w x Hx). unfold wrap.
  by apply Z.mod_pow2_bits_high; lia.
Qed.

Lemma wrap_testbit w x i : 0 <= w ->
  Z.testbit (wrap w x) i = (Z.testbit x i && (i <? w))%bool.
Proof.
  intros Hw. destruct (Z.ltb_spec i w).
  - rewrite andb_true_r. destruct (Z.leb_spec 0 i).
    + unfold wrap. by rewrite Z.mod_pow2_bits_low.
    + by rewrite !Z.testbit_neg_r.
  - rewrite andb_false_r. unfold wrap. apply Z.mod_pow2_bits_high. lia.
Qed.

Lemma in_range_binop w (f : bool -> bool -> bool) (op : Z -> Z -> Z) x y :
  0 <= w -> (forall a b i, Z.testbit (op a b) i = f (Z.testbit a i) (Z.testbit b i)) ->
  f false false = false -> in_range w x -> in_range w y -> in_range w (op x y).
Proof.
  intros Hw Hop Hf Hx Hy.
  assert (E : op x y = wrap w (op x y)).
  { apply Z.bits_inj'. intros i Hi. rewrite wrap_testbit, Hop by lia.
    destruct (Z.ltb_spec i w); [by rewrite andb_true_r |].
    by rewrite (in_range_testbit w x), (in_range_testbit w y), Hf. }
  rewrite E. by apply wrap_range.
Qed.

Lemma land_in_range w x y : 0 <= w -> in_range w x -> in_range w y -> in_range w (Z.land x y).
Proof. intros. apply (in_range_binop w andb); auto using Z.land_spec. Qed.
Lemma lor_in_range w x y : 0 <= w -> in_range w x -> in_range w y -> in_range w (Z.lor x y).
Proof. intros. apply (in_range_binop w orb); auto using Z.lor_spec. Qed.
Lemma lxor_in_range w x y : 0 <= w -> in_range w x -> in_range w y -> in_range w (Z.lxor x y).
Proof. intros. apply (in_range_binop w xorb); auto using Z.lxor_spec. Qed.

Lemma shiftr_in_range w x n : 0 <= n -> in_range w x -> in_range w (Z.shiftr x n).
Proof.
  unfold in_range. intros Hn [H1 H2]. rewrite Z.shiftr_div_pow2 by done.
  split; [by apply Z.div_pos; lia |].
  eapply Z.le_lt_trans; [| exact H2]. apply Z.div_le_upper_bound; nia.
Qed.

#[export] Hint Resolve land_in_range lor_in_range lxor_in_range shiftr_in_range : cint.

(** Shift and mask as quotient and remainder. *)
Lemma land_ones_mod x w : 0 <= w -> Z.land x (2 ^ w - 1) = x mod 2 ^ w.
Proof. intros. rewrite <- Z.land_ones by done. by rewrite Z.ones_equiv, Z.sub_1_r. Qed.

Lemma lor_shiftl_add a b n : 0 <= n -> 0 <= a < 2 ^ n -> Z.lor a (Z.shiftl b n) = a + b * 2 ^ n.
Proof.
  intros Hn Ha. rewrite <- Z.shiftl_mul_pow2 by done.
  rewrite <- Z.add_lor_land.
  enough (Z.land a (Z.shiftl b n) = 0) as -> by lia.
  apply Z.bits_inj'. intros i Hi. rewrite Z.land_spec, Z.bits_0.
  destruct (Z.ltb_spec i n).
  - by rewrite Z.shiftl_spec_low, andb_false_r.
  - by rewrite (in_range_testbit n a i) by (unfold in_range; lia).
Qed.

(** ** Counted loops: [for (i = i0; i < i0 + n; ++i)] *)
Fixpoint for_ {S : Type} (n : nat) (i : Z) (body : Z -> S -> S) (s : S) : S :=
  match n with
  | O => s
  | S n' => for_ n' (i + 1) body (body i s)
  end.

Lemma for_inv {S} (P : Z -> S -> Prop) (body : Z -> S -> S) n i s :
  (forall j s, i <= j < i + Z.of_nat n -> P j s -> P (j + 1) (body j s)) ->
  P i s -> P (i + Z.of_nat n) (for_ n i body s).
Proof.
  revert i s. induction n as [|n IH]; intros i s Hstep Hi; simpl.
  - by rewrite Z.add_0_r.
  - replace (i + Z.of_nat (Datatypes.S n)) with ((i + 1) + Z.of_nat n) by lia.
    apply IH; [intros; apply Hstep; [lia | done] |]. apply Hstep; [lia | done].
Qed.

Lemma for_app {S} (body : Z -> S -> S) n m i s :
  for_ (n + m) i body s = for_ m (i + Z.of_nat n) body (for_ n i body s).
Proof.
  revert i s. induction n as [|n IH]; intros i s; simpl.
  - by rewrite Z.add_0_r.
  - rewrite IH. f_equal. lia.
Qed.

(** ** Bytes, little-endian encodings *)
Abbreviation bytes := (list Z).
Definition bytes_ok (l : bytes) : Prop := Forall (in_range 8) l.

Fixpoint le_encode (n : nat) (x : Z) : bytes :=
  match n with
  | O => []
  | S n' => wrap 8 x :: le_encode n' (Z.shiftr x 8)
  end.

Fixpoint le_decode (l : bytes) : Z :=
  match l with
  | [] => 0
  | b :: l' => b + 256 * le_decode l'
  end.

Lemma le_encode_length n x : length (le_encode n x) = n.
Proof. revert x. induction n; intros; simpl; auto. Qed.

Lemma le_encode_ok n x : bytes_ok (le_encode n x).
Proof.
  revert x. induction n; intros; simpl; constructor; [by apply wrap_range | apply IHn].
Qed.

Lemma le_decode_encode n x : le_decode (le_encode n x) = wrap (8 * Z.of_nat n) x.
Proof.
  revert x. induction n as [|n IH]; intros x; simpl le_encode; simpl le_decode.
  - unfold wrap. by rewrite Z.mod_1_r.
  - rewrite IH, Z.shiftr_div_pow2 by lia. unfold wrap.
    replace (8 * Z.of_nat (S n)) with (8 + 8 * Z.of_nat n) by lia.
    rewrite Z.pow_add_r, Z.rem_mul_r by lia. change (2 ^ 8) with 256. lia.
Qed.

Lemma le_roundtrip n x : in_range (8 * Z.of_nat n) x -> le_decode (le_encode n x) = x.
Proof. intros. rewrite le_decode_encode. by apply wrap_small. Qed.

Lemma le_decode_range l : bytes_ok l -> in_range (8 * Z.of_nat (length l)) (le_decode l).
Proof.
  unfold in_range. induction 1 as [|b l Hb Hl IH]; simpl le_decode; simpl length; [simpl; lia |].
  replace (8 * Z.of_nat (S (length l))) with (8 + 8 * Z.of_nat (length l)) by lia.
  rewrite Z.pow_add_r by lia. unfold in_range in Hb. nia.
Qed.

Lemma le_encode_decode l : bytes_ok l -> le_encode (length l) (le_decode l) = l.
Proof.
  induction 1 as [|b l Hb Hl IH]; simpl; [done |]. unfold in_range in Hb.
  rewrite Z.shiftr_div_pow2 by lia. change (2 ^ 8) with 256.
  f_equal.
  - unfold wrap. change (2 ^ 8) with 256. rewrite (Z.mul_comm 256), Z.mod_add by lia.
    by apply Z.mod_small.
  - rewrite (Z.mul_comm 256), Z.div_add, Z.div_small by lia. by rewrite Z.add_0_l.
Qed.

Lemma bytes_ok_app l1 l2 : bytes_ok (l1 ++ l2) <-> bytes_ok l1 /\ bytes_ok l2.
Proof. apply Forall_app. Qed.

#[export] Hint Resolve le_encode_ok le_encode_length : cint.

(** ** Errno values returned (negated) by the C code *)
Definition ENOMEM : Z := 12.
Definition EINVAL : Z := 22.
Definition EOVERFLOW : Z := 75.

(** ** Lists *)
Lemma take_app_le {A} (l1 l2 : list A) n : (n <= length l1)%nat -> take n (l1 ++ l2) = take n l1.
Proof. intros. rewrite take_app. replace (n - length l1)%nat with 0%nat by lia.
  by rewrite take_0, app_nil_r. Qed.

Lemma drop_app_le' {A} (l1 l2 : list A) n : (n <= length l1)%nat -> drop n (l1 ++ l2) = drop n l1 ++ l2.
Proof. intros. rewrite drop_app. by replace (n - length l1)%nat with 0%nat by lia. Qed.

(** Array reads [a[i]] at an index the code keeps in range. *)
Definition rd (l : list Z) (i : Z) : Z := nth (Z.to_nat i) l 0.

(** [buf[i]] where nothing keeps [i] in range. *)
Definition rd_mem (buf : bytes) (i : Z) : outcome Z :=
  if (0 <=? i) && (i <? Z.of_nat (length buf)) then Ret (rd buf i) else Fault OutOfBounds.

(** Array writes [a[i] = x]. *)
Definition wr (l : list Z) (i x : Z) : list Z := <[Z.to_nat i := x]> l.

Definition st_mem (l : list Z) (i x : Z) : outcome (list Z) :=
  if (0 <=? i) && (i <? Z.of_nat (length l)) then Ret (wr l i x) else Fault OutOfBounds.

(** [n] bytes of a buffer *)
Definition sub_bytes (buf : bytes) (off n : Z) : outcome bytes :=
  if (0 <=? off) && (0 <=? n) && (off + n <=? Z.of_nat (length buf))
  then Ret (take (Z.to_nat n) (drop (Z.to_nat off) buf))
  else Fault OutOfBounds.

(** [*p++ = tmp >> 24; ... >> 0] at word [i] of the output. *)
Definition store_word (buf : bytes) (i tmp : Z) : bytes :=
  let p := Z.to_nat (4 * i) in
  <[(p + 3)%nat := u8 (Z.shiftr tmp 0)]>
  (<[(p + 2)%nat := u8 (Z.shiftr tmp 8)]>
  (<[(p + 1)%nat := u8 (Z.shiftr tmp 16)]>
  (<[p := u8 (Z.shiftr tmp 24)]> buf))).

Definition be_bytes (x : Z) : bytes :=
  [u8 (Z.shiftr x 24); u8 (Z.shiftr x 16); u8 (Z.shiftr x 8); u8 (Z.shiftr x 0)].

Lemma rd_range w (l : list Z) i : 0 <= w -> Forall (in_range w) l -> in_range w (rd l i).
Proof.
  intros Hw Hl. unfold rd. destruct (nth_lookup_or_length l (Z.to_nat i) 0) as [E | E].
  - by apply (Forall_lookup_1 _ _ _ _ Hl E).
  - rewrite nth_overflow by lia. unfold in_range. lia.
Qed.

Lemma take_insert_snoc (l : bytes) i b : (i < length l)%nat ->
  take (S i) (<[i := b]> l) = take i l ++ [b].
Proof.
  intros. rewrite (take_S_r _ i b); [| by rewrite list_lookup_insert_eq].
  by rewrite take_insert_ge by lia.
Qed.

(** Writing the digest words into the buffer, front to back. *)
Lemma store_word_take buf i x : (4 * i + 4 <= length buf)%nat ->
  take (4 * S i) (store_word buf (Z.of_nat i) x) = take (4 * i) buf ++ be_bytes x.
Proof.
  intros Hl. unfold store_word.
  replace (Z.to_nat (4 * Z.of_nat i)) with (4 * i)%nat by lia.
  replace (4 * S i)%nat with (S (4 * i + 3)) by lia.
  rewrite take_insert_snoc by (rewrite !length_insert; lia).
  replace (4 * i + 3)%nat with (S (4 * i + 2)) at 1 by lia.
  rewrite take_insert_snoc by (rewrite !length_insert; lia).
  replace (4 * i + 2)%nat with (S (4 * i + 1)) at 1 by lia.
  rewrite take_insert_snoc by (rewrite !length_insert; lia).
  replace (4 * i + 1)%nat with (S (4 * i)) at 1 by lia.
  rewrite take_insert_snoc by lia.
  by rewrite <- !app_assoc.
Qed.

Lemma store_word_length buf i x : length (store_word buf i x) = length buf.
Proof. unfold store_word. by rewrite !length_insert. Qed.

Lemma rd_lookup (l : list Z) i x : l !! Z.to_nat i = Some x -> rd l i = x.
Proof. apply nth_lookup_Some. Qed.

Lemma rd_replicate_0 n i : rd (replicate n 0) i = 0.
Proof. unfold rd. generalize (Z.to_nat i). induction n; intros [|k]; simpl; auto. Qed.

Lemma rd_wr_eq l i x : 0 <= i < Z.of_nat (length l) -> rd (wr l i x) i = x.
Proof. intros. apply rd_lookup. unfold wr. apply list_lookup_insert_eq. lia. Qed.

Lemma rd_wr_ne l i j x : 0 <= i -> 0 <= j -> i <> j -> rd (wr l i x) j = rd l j.
Proof. intros. unfold rd, wr. rewrite !nth_lookup, list_lookup_insert_ne by lia. done. Qed.

Lemma length_wr l i x : length (wr l i x) = length l.
Proof. apply length_insert. Qed.

Lemma rd_mem_ok buf i : 0 <= i < Z.of_nat (length buf) -> rd_mem buf i = Ret (rd buf i).
Proof. intros H. unfold rd_mem. destruct (Z.leb_spec 0 i), (Z.ltb_spec i (Z.of_nat (length buf))); (done || lia). Qed.

Lemma st_mem_ok l i x : 0 <= i < Z.of_nat (length l) -> st_mem l i x = Ret (wr l i x).
Proof. intros H. unfold st_mem. destruct (Z.leb_spec 0 i), (Z.ltb_spec i (Z.of_nat (length l))); (done || lia). Qed.

Lemma sub_bytes_ok buf off n : 0 <= off -> 0 <= n -> off + n <= Z.of_nat (length buf) ->
  sub_bytes buf off n = Ret (take (Z.to_nat n) (drop (Z.to_nat off) buf)).
Proof.
  intros H1 H2 H3. unfold sub_bytes. destruct (Z.leb_spec 0 off), (Z.leb_spec 0 n), (Z.leb_spec (off + n) (Z.of_nat (length buf))); (done || lia).
Qed.

Lemma Forall_wr (P : Z -> Prop) l i x : Forall P l -> P x -> Forall P (wr l i x).
Proof. intros. by apply Forall_insert. Qed.

#[export] Hint Resolve rd_range Forall_wr : cint.
