(* ===== verification/Limbs.v ===== *)
(** * Multi-precision integers as little-endian arrays of 32-bit words

    Values of word arrays, of their prefixes, and of big-endian byte strings;
    shared by the RSA and P-256 arithmetic of libmincrypt. *)

From S2P Require Import Prelude.

Abbreviation W32 := (2 ^ 32).

Definition words_ok (l : list Z) : Prop := Forall (in_range 32) l.

(** Value of a whole array, and of its first [k] words. *)
Fixpoint dval (l : list Z) : Z :=
  match l with
  | [] => 0
  | d :: l' => d + W32 * dval l'
  end.

Definition pval (l : list Z) (k : Z) : Z := dval (take (Z.to_nat k) l).

(** Value of a big-endian byte string. *)
Definition be_decode (l : bytes) : Z := foldl (fun acc b => acc * 256 + b) 0 l.

Lemma dval_app l1 l2 : dval (l1 ++ l2) = dval l1 + 2 ^ (32 * Z.of_nat (length l1)) * dval l2.
Proof.
  induction l1 as [|d l1 IH]; simpl dval; simpl length; simpl app.
  - simpl. lia.
  - rewrite IH. replace (32 * Z.of_nat (S (length l1))) with (32 + 32 * Z.of_nat (length l1)) by lia.
    rewrite Z.pow_add_r by lia. ring.
Qed.

Lemma dval_range l : words_ok l -> 0 <= dval l < 2 ^ (32 * Z.of_nat (length l)).
Proof.
  induction 1 as [|d l Hd Hl IH]; simpl dval; simpl length; [simpl; lia |].
  replace (32 * Z.of_nat (S (length l))) with (32 + 32 * Z.of_nat (length l)) by lia.
  rewrite Z.pow_add_r by lia. unfold in_range in Hd. nia.
Qed.

Lemma dval_replicate_0 n : dval (replicate n 0) = 0.
Proof. induction n; simpl; lia. Qed.

Lemma dval_inj l1 l2 : words_ok l1 -> words_ok l2 -> length l1 = length l2 ->
  dval l1 = dval l2 -> l1 = l2.
Proof.
  intros H1. revert l2. induction H1 as [|d l1 Hd Hl1 IH]; intros [|e l2] H2 Hlen E;
    simpl in *; try discriminate; [done |].
  apply Forall_cons in H2 as [He Hl2]. unfold in_range in *.
  assert (d = e /\ dval l1 = dval l2) as [-> E'] by (change W32 with 4294967296 in *; lia).
  f_equal. apply IH; [done | lia | done].
Qed.

Lemma pval_0 l : pval l 0 = 0.
Proof. reflexivity. Qed.

Lemma pval_full l k : Z.of_nat (length l) <= k -> pval l k = dval l.
Proof. intros. unfold pval. by rewrite take_ge by lia. Qed.

Lemma pval_succ l i : 0 <= i < Z.of_nat (length l) ->
  pval l (i + 1) = pval l i + 2 ^ (32 * i) * rd l i.
Proof.
  intros Hi. unfold pval. replace (Z.to_nat (i + 1)) with (S (Z.to_nat i)) by lia.
  destruct (lookup_lt_is_Some_2 l (Z.to_nat i) ltac:(lia)) as [x Hx].
  rewrite (take_S_r _ _ x Hx), dval_app, length_take, (rd_lookup _ _ _ Hx). simpl dval.
  replace (Z.of_nat (Z.to_nat i `min` length l)) with i by lia. ring.
Qed.

Lemma pval_1 l : (0 < length l)%nat -> pval l 1 = rd l 0.
Proof. intros. change 1 with (0 + 1). rewrite (pval_succ l 0), pval_0 by lia. change (2 ^ (32 * 0)) with 1. lia. Qed.

Lemma pval_wr_ge l i x k : 0 <= k <= i -> pval (wr l i x) k = pval l k.
Proof. intros. unfold pval, wr. by rewrite take_insert_ge by lia. Qed.

Lemma pval_wr_succ l i x : 0 <= i < Z.of_nat (length l) ->
  pval (wr l i x) (i + 1) = pval l i + 2 ^ (32 * i) * x.
Proof.
  intros. rewrite pval_succ by (rewrite length_wr; lia).
  rewrite rd_wr_eq by done. by rewrite pval_wr_ge by lia.
Qed.

Lemma pval_range l k : 0 <= k -> words_ok l -> 0 <= pval l k < 2 ^ (32 * k).
Proof.
  intros Hk Hl. unfold pval. pose proof (dval_range (take (Z.to_nat k) l) (Forall_take _ _ _ Hl)).
  split; [lia |]. eapply Z.lt_le_trans; [apply H |].
  apply Z.pow_le_mono_r; [lia |]. rewrite length_take. lia.
Qed.

(** Two arrays agree at and above index [i]. *)
Definition same_from (i : Z) (l l' : list Z) : Prop :=
  length l = length l' /\ forall j, i <= j -> 0 <= j -> rd l j = rd l' j.

Lemma same_from_refl i l : same_from i l l.
Proof. done. Qed.

Lemma same_from_wr i k l l' x : 0 <= i -> 0 <= k <= i -> same_from k l l' ->
  same_from (i + 1) (wr l i x) l'.
Proof.
  intros Hi Hk [Hl Hs]. split; [by rewrite length_wr |].
  intros j Hj ?. rewrite rd_wr_ne by lia. apply Hs; lia.
Qed.

(** ** Byte strings *)
Lemma be_decode_acc l : forall acc,
  foldl (fun acc b => acc * 256 + b) acc l = acc * 2 ^ (8 * Z.of_nat (length l)) + be_decode l.
Proof.
  unfold be_decode. induction l as [|b l IH]; intros acc; cbn [foldl length]; [simpl; lia |].
  rewrite IH, (IH (0 * 256 + b)).
  replace (8 * Z.of_nat (S (length l))) with (8 + 8 * Z.of_nat (length l)) by lia.
  rewrite Z.pow_add_r by lia. ring.
Qed.

Lemma be_decode_app l1 l2 :
  be_decode (l1 ++ l2) = be_decode l1 * 2 ^ (8 * Z.of_nat (length l2)) + be_decode l2.
Proof. unfold be_decode at 1. rewrite foldl_app. apply be_decode_acc. Qed.

Lemma be_decode_range l : bytes_ok l -> 0 <= be_decode l < 2 ^ (8 * Z.of_nat (length l)).
Proof.
  induction l as [|b l IH] using rev_ind; intros Hok; [cbn; lia |].
  apply bytes_ok_app in Hok as [Hl Hb]. apply Forall_cons in Hb as [Hb _].
  rewrite be_decode_app, length_app. simpl length.
  replace (8 * Z.of_nat (length l + 1)) with (8 * Z.of_nat (length l) + 8) by lia.
  rewrite Z.pow_add_r by lia. change (be_decode [b]) with b. specialize (IH Hl).
  unfold in_range in Hb. change (8 * Z.of_nat 1) with 8. nia.
Qed.

Lemma be_bytes_decode x : in_range 32 x -> be_decode (be_bytes x) = x.
Proof.
  unfold in_range, be_bytes, be_decode, wrap. intros Hx. simpl foldl.
  rewrite !Z.shiftr_div_pow2 by lia. change (2 ^ 8) with 256.
  change (2 ^ 24) with 16777216. change (2 ^ 16) with 65536. change (2 ^ 0) with 1.
  change (2 ^ 32) with 4294967296 in Hx. dmlia.
Qed.

Lemma be_bytes_ok x : bytes_ok (be_bytes x).
Proof. repeat apply Forall_cons_2; try apply Forall_nil_2; by apply wrap_range. Qed.

(** Four bytes of a buffer read as one word by shifting and or-ing. *)
Lemma or4_value b0 b1 b2 b3 :
  in_range 8 b0 -> in_range 8 b1 -> in_range 8 b2 -> in_range 8 b3 ->
  Z.lor (Z.lor (Z.lor (u32 (Z.shiftl b0 24)) (u32 (Z.shiftl b1 16))) (u32 (Z.shiftl b2 8))) b3
  = be_decode [b0; b1; b2; b3].
Proof.
  unfold in_range. intros. unfold be_decode. simpl foldl.
  rewrite !wrap_small by (unfold in_range; rewrite Z.shiftl_mul_pow2; lia).
  rewrite <- !Z.lor_assoc, (Z.lor_comm (Z.shiftl b2 8)), lor_shiftl_add by lia.
  rewrite (Z.lor_comm (Z.shiftl b1 16)), lor_shiftl_add by lia.
  rewrite (Z.lor_comm (Z.shiftl b0 24)), lor_shiftl_add by lia. lia.
Qed.

Lemma drop_4_rd (l : bytes) k : 0 <= k -> k + 4 <= Z.of_nat (length l) ->
  drop (Z.to_nat k) l =
    [rd l k; rd l (k + 1); rd l (k + 2); rd l (k + 3)] ++ drop (Z.to_nat (k + 4)) l.
Proof.
  intros Hk Hl.
  assert (Hs : forall j, k <= j < k + 4 ->
    drop (Z.to_nat j) l = rd l j :: drop (Z.to_nat (j + 1)) l).
  { intros j Hj. destruct (lookup_lt_is_Some_2 l (Z.to_nat j) ltac:(lia)) as [x Hx].
    rewrite (rd_lookup _ _ _ Hx). replace (Z.to_nat (j + 1)) with (S (Z.to_nat j)) by lia.
    by apply drop_S. }
  rewrite (Hs k), (Hs (k + 1)), (Hs (k + 1 + 1)), (Hs (k + 1 + 1 + 1)) by lia.
  simpl. repeat (f_equal; try lia).
Qed.

Lemma dval_drop_step (l : list Z) i : 0 <= i < Z.of_nat (length l) ->
  dval (drop (Z.to_nat i) l) = rd l i + W32 * dval (drop (Z.to_nat (i + 1)) l).
Proof.
  intros Hi. destruct (lookup_lt_is_Some_2 l (Z.to_nat i) ltac:(lia)) as [x Hx].
  rewrite (drop_S _ _ _ Hx), (rd_lookup _ _ _ Hx).
  by replace (Z.to_nat (i + 1)) with (S (Z.to_nat i)) by lia.
Qed.

Lemma store_word_ok buf i x : bytes_ok buf -> bytes_ok (store_word buf i x).
Proof.
  intros. unfold store_word. repeat apply Forall_insert; try done; by apply wrap_range.
Qed.

(** Big-endian encodings are reversed little-endian ones. *)
Definition be_encode (n : nat) (x : Z) : bytes := rev (le_encode n x).

Lemma be_decode_rev l : be_decode l = le_decode (rev l).
Proof.
  induction l as [|b l IH] using rev_ind; [done |].
  rewrite be_decode_app, rev_app_distr. simpl. rewrite <- IH.
  change (be_decode [b]) with b. change (2 ^ (8 * Z.of_nat 1)) with 256. lia.
Qed.

Lemma be_encode_decode l : bytes_ok l -> be_encode (length l) (be_decode l) = l.
Proof.
  intros Hl. unfold be_encode. rewrite be_decode_rev, <- length_rev, le_encode_decode.
  - apply rev_involutive.
  - apply Forall_rev, Hl.
Qed.

Lemma be_encode_length n x : length (be_encode n x) = n.
Proof. unfold be_encode. by rewrite length_rev, le_encode_length. Qed.

Lemma be_encode_ok n x : bytes_ok (be_encode n x).
Proof. apply Forall_rev, le_encode_ok. Qed.

(** A number as an array of [n] words. *)
Fixpoint to_words (n : nat) (x : Z) : list Z :=
  match n with
  | O => []
  | S n' => u32 x :: to_words n' (Z.shiftr x 32)
  end.
