(* ===== verification/Cong.v ===== *)
(** * Congruence modulo an integer

    An equivalence coarser than equality, with the morphisms that let
    [rewrite] work under sums, differences, products and powers. *)

From S2P Require Import Prelude.
From Stdlib Require Import Zdivisibility.

Definition cong (n x y : Z) : Prop := exists k, x = y + k * n.

Declare Scope cong_scope.
Delimit Scope cong_scope with cong.
Notation "x ≡[ n ] y" := (cong n x y)
  (at level 70, n at level 200, no associativity, format "x  ≡[ n ]  y") : cong_scope.
#[global] Open Scope cong_scope.

#[global] Instance cong_equiv n : Equivalence (cong n).
Proof.
  split.
  - intros x. exists 0. lia.
  - intros x y [k ->]. exists (- k). lia.
  - intros x y z [k ->] [j ->]. exists (j + k). lia.
Qed.

#[global] Instance cong_add n : Proper (cong n ==> cong n ==> cong n) Z.add.
Proof. intros x x' [k ->] y y' [j ->]. exists (k + j). lia. Qed.

#[global] Instance cong_sub n : Proper (cong n ==> cong n ==> cong n) Z.sub.
Proof. intros x x' [k ->] y y' [j ->]. exists (k - j). lia. Qed.

#[global] Instance cong_mul n : Proper (cong n ==> cong n ==> cong n) Z.mul.
Proof. intros x x' [k ->] y y' [j ->]. exists (k * y' + x' * j + k * j * n). lia. Qed.

#[global] Instance cong_opp n : Proper (cong n ==> cong n) Z.opp.
Proof. intros x x' [k ->]. exists (- k). lia. Qed.

Lemma cong_pow n x y e : 0 <= e -> x ≡[n] y -> x ^ e ≡[n] y ^ e.
Proof.
  intros He Hxy. revert e He. apply natlike_ind; [reflexivity |].
  intros e He IH. rewrite !Z.pow_succ_r by done. by rewrite IH, Hxy.
Qed.

Lemma cong_eq n x y : x = y -> x ≡[n] y.
Proof. intros ->. reflexivity. Qed.

Lemma cong_mod n x : n <> 0 -> x mod n ≡[n] x.
Proof. intros. exists (- (x / n)). pose proof (Z.div_mod x n H). lia. Qed.

Lemma cong_mod_eq n x y : n <> 0 -> x ≡[n] y -> x mod n = y mod n.
Proof. intros Hn [k ->]. by rewrite Z.mod_add. Qed.

Lemma mod_eq_cong n x y : n <> 0 -> x mod n = y mod n -> x ≡[n] y.
Proof. intros Hn E. rewrite <- (cong_mod n x), <- (cong_mod n y) by done. by rewrite E. Qed.

Lemma cong_small n x y : x ≡[n] y -> 0 <= x < n -> x = y mod n.
Proof. intros H Hx. rewrite <- (cong_mod_eq n x y) by (lia || done). by rewrite Z.mod_small. Qed.

Lemma cong_mult n x y k : x = y + k * n -> x ≡[n] y.
Proof. intros ->. by exists k. Qed.

Lemma cong_cancel_r n r x y : Z.coprime n r -> x * r ≡[n] y * r -> x ≡[n] y.
Proof.
  intros Hrp [k Hk].
  assert (Hd : (n | r * (x - y))) by (exists k; lia).
  destruct (Z.gauss _ _ _ Hd Hrp) as [q Hq]. exists q. lia.
Qed.

Lemma odd_coprime_pow2 n k : 0 <= k -> n mod 2 = 1 -> Z.coprime n (2 ^ k).
Proof.
  intros Hk Hn. apply Z.coprime_pow_r; [done |]. apply Z.bezout_1_gcd.
  exists 1, (- (n / 2)). pose proof (Z.div_mod n 2). lia.
Qed.
