(* ===== verification/Sha.v ===== *)
(** * SHA-1 and SHA-256 of libmincrypt

    Models src/system/core/libmincrypt/sha.c and sha256.c with the context
    record of include/mincrypt/hash-internal.h. Both files share their
    streaming code line by line, so [Section Stream] holds it once, over the
    block function, and the two modules instantiate it. The reference
    definitions ([md_digest], [sha1_compress], [sha256_compress]) follow
    FIPS 180-4: pad the whole message, then fold the compression function over
    its 64-byte blocks. *)

From S2P Require Import Prelude.

(** ** struct HASH_CTX *)
Inductive HASH_VTAB := SHA_VTAB | SHA256_VTAB.

Record HASH_CTX := mk_HASH_CTX {
  ctx_f : HASH_VTAB;
  ctx_count : Z;
  ctx_buf : bytes;
  ctx_state : list Z;
}.

Definition set_buf (ctx : HASH_CTX) (b : bytes) : HASH_CTX :=
  mk_HASH_CTX (ctx_f ctx) (ctx_count ctx) b (ctx_state ctx).
Definition set_count (ctx : HASH_CTX) (c : Z) : HASH_CTX :=
  mk_HASH_CTX (ctx_f ctx) c (ctx_buf ctx) (ctx_state ctx).
Definition set_state (ctx : HASH_CTX) (s : list Z) : HASH_CTX :=
  mk_HASH_CTX (ctx_f ctx) (ctx_count ctx) (ctx_buf ctx) s.

(** The C arrays are [uint8_t buf[64]] and [uint32_t state[8]]. *)
Record ctx_shape (ctx : HASH_CTX) : Prop := mk_ctx_shape {
  sh_buf_len : length (ctx_buf ctx) = 64%nat;
  sh_buf : bytes_ok (ctx_buf ctx);
  sh_state_len : length (ctx_state ctx) = 8%nat;
  sh_state : Forall (in_range 32) (ctx_state ctx);
}.

(** The first loop of both block functions: 16 big-endian words. *)
Definition load_word (buf : bytes) (t : Z) : Z :=
  let tmp := u32 (Z.shiftl (rd buf (4 * t)) 24) in
  let tmp := Z.lor tmp (u32 (Z.shiftl (rd buf (4 * t + 1)) 16)) in
  let tmp := Z.lor tmp (u32 (Z.shiftl (rd buf (4 * t + 2)) 8)) in
  Z.lor tmp (rd buf (4 * t + 3)).

Definition load_words (buf : bytes) : list Z :=
  for_ 16 0 (fun t W => W ++ [load_word buf t]) [].

Definition rol (bits value : Z) : Z :=
  Z.lor (u32 (Z.shiftl value bits)) (Z.shiftr value (32 - bits)).
Definition ror (value bits : Z) : Z :=
  Z.lor (Z.shiftr value bits) (u32 (Z.shiftl value (32 - bits))).
Definition shr (value bits : Z) : Z := Z.shiftr value bits.

(** ** Streaming, shared by SHA_* and SHA256_* *)
Section Stream.
Context (transform : HASH_CTX -> HASH_CTX).

Fixpoint update_loop (ctx : HASH_CTX) (i : Z) (data : bytes) : HASH_CTX :=
  match data with
  | [] => ctx
  | b :: data' =>
      let ctx := set_buf ctx (<[Z.to_nat i := b]> (ctx_buf ctx)) in
      let i := i + 1 in
      if i =? 64 then update_loop (transform ctx) 0 data'
      else update_loop ctx i data'
  end.

Definition hash_update (ctx : HASH_CTX) (data : bytes) : HASH_CTX :=
  let i := i32 (Z.land (ctx_count ctx) 63) in
  let ctx := set_count ctx (u64 (ctx_count ctx + Z.of_nat (length data))) in
  update_loop ctx i data.

(** [while ((ctx->count & 63) != 56) update(ctx, "\0", 1);] *)
Fixpoint pad_loop (fuel : nat) (ctx : HASH_CTX) : outcome HASH_CTX :=
  if Z.land (ctx_count ctx) 63 =? 56 then Ret ctx
  else match fuel with
       | O => Diverge
       | S fuel' => pad_loop fuel' (hash_update ctx [0])
       end.

Definition hash_final (nwords : nat) (ctx : HASH_CTX) : outcome HASH_CTX :=
  let cnt := u64 (ctx_count ctx * 8) in
  let ctx := hash_update ctx [128] in
  ctx ← pad_loop 64 ctx;
  let ctx := for_ 8 0 (fun i ctx =>
    hash_update ctx [u8 (Z.shiftr cnt ((7 - i) * 8))]) ctx in
  Ret (for_ nwords 0 (fun i ctx =>
    set_buf ctx (store_word (ctx_buf ctx) i (rd (ctx_state ctx) i))) ctx).
End Stream.

(** ** sha.c *)
Definition SHA_DIGEST_SIZE : Z := 20.

(** [for (; t < 80; t++) W[t] = rol(1, W[t-3] ^ W[t-8] ^ W[t-14] ^ W[t-16])] *)
Definition sha1_schedule (buf : bytes) : list Z :=
  for_ 64 16 (fun t W =>
    W ++ [rol 1 (Z.lxor (Z.lxor (Z.lxor (rd W (t - 3)) (rd W (t - 8)))
                                (rd W (t - 14))) (rd W (t - 16)))])
    (load_words buf).

Definition sha1_round (W : list Z) (t : Z) (v : Z * Z * Z * Z * Z) : Z * Z * Z * Z * Z :=
  let '(A, B, C, D, E) := v in
  let tmp := u32 (rol 5 A + E + rd W t) in
  let tmp :=
    if t <? 20 then
      u32 (tmp + (Z.lxor D (Z.land B (Z.lxor C D)) + 0x5A827999))
    else if t <? 40 then
      u32 (tmp + (Z.lxor (Z.lxor B C) D + 0x6ED9EBA1))
    else if t <? 60 then
      u32 (tmp + (Z.lor (Z.land B C) (Z.land D (Z.lor B C)) + 0x8F1BBCDC))
    else
      u32 (tmp + (Z.lxor (Z.lxor B C) D + 0xCA62C1D6)) in
  (tmp, A, rol 30 B, C, D).

Definition SHA1_Transform (ctx : HASH_CTX) : HASH_CTX :=
  let W := sha1_schedule (ctx_buf ctx) in
  let st := ctx_state ctx in
  let '(A, B, C, D, E) :=
    for_ 80 0 (sha1_round W) (rd st 0, rd st 1, rd st 2, rd st 3, rd st 4) in
  set_state ctx
    ([u32 (rd st 0 + A); u32 (rd st 1 + B); u32 (rd st 2 + C); u32 (rd st 3 + D);
      u32 (rd st 4 + E)] ++ drop 5 st).

Definition SHA_init (ctx : HASH_CTX) : HASH_CTX :=
  mk_HASH_CTX SHA_VTAB 0 (ctx_buf ctx)
    ([0x67452301; 0xEFCDAB89; 0x98BADCFE; 0x10325476; 0xC3D2E1F0] ++ drop 5 (ctx_state ctx)).

Definition SHA_update (ctx : HASH_CTX) (data : bytes) : HASH_CTX :=
  hash_update SHA1_Transform ctx data.

Definition SHA_final (ctx : HASH_CTX) : outcome HASH_CTX :=
  hash_final SHA1_Transform 5 ctx.

(** [ctx0]: the uninitialised stack slot of [SHA_CTX ctx]. *)
Definition SHA_hash (ctx0 : HASH_CTX) (data : bytes) : outcome bytes :=
  let ctx := SHA_init ctx0 in
  let ctx := SHA_update ctx data in
  ctx ← SHA_final ctx;
  Ret (take (Z.to_nat SHA_DIGEST_SIZE) (ctx_buf ctx)).

(** ** sha256.c *)
Definition SHA256_DIGEST_SIZE : Z := 32.

(** The four 32-bit words of one row of a table, written as one literal. *)
Definition row4 (r : Z) : list Z :=
  [u32 (Z.shiftr r 96); u32 (Z.shiftr r 64); u32 (Z.shiftr r 32); u32 r].

(** The table [K[64]], a row of the source per literal. *)
Definition K : list Z := Eval vm_compute in concat (map row4 [
    0x428a2f9871374491b5c0fbcfe9b5dba5;
    0x3956c25b59f111f1923f82a4ab1c5ed5;
    0xd807aa9812835b01243185be550c7dc3;
    0x72be5d7480deb1fe9bdc06a7c19bf174;
    0xe49b69c1efbe47860fc19dc6240ca1cc;
    0x2de92c6f4a7484aa5cb0a9dc76f988da;
    0x983e5152a831c66db00327c8bf597fc7;
    0xc6e00bf3d5a7914706ca635114292967;
    0x27b70a852e1b21384d2c6dfc53380d13;
    0x650a7354766a0abb81c2c92e92722c85;
    0xa2bfe8a1a81a664bc24b8b70c76c51a3;
    0xd192e819d6990624f40e3585106aa070;
    0x19a4c1161e376c082748774c34b0bcb5;
    0x391c0cb34ed8aa4a5b9cca4f682e6ff3;
    0x748f82ee78a5636f84c878148cc70208;
    0x90befffaa4506cebbef9a3f7c67178f2 ]).

Definition sha256_schedule (buf : bytes) : list Z :=
  for_ 48 16 (fun t W =>
    let s0 := Z.lxor (Z.lxor (ror (rd W (t - 15)) 7) (ror (rd W (t - 15)) 18))
                     (shr (rd W (t - 15)) 3) in
    let s1 := Z.lxor (Z.lxor (ror (rd W (t - 2)) 17) (ror (rd W (t - 2)) 19))
                     (shr (rd W (t - 2)) 10) in
    W ++ [u32 (rd W (t - 16) + s0 + rd W (t - 7) + s1)])
    (load_words buf).

Definition sha256_round (W : list Z) (t : Z) (v : Z * Z * Z * Z * Z * Z * Z * Z) :=
  let '(A, B, C, D, E, F, G, H) := v in
  let s0 := Z.lxor (Z.lxor (ror A 2) (ror A 13)) (ror A 22) in
  let maj := Z.lxor (Z.lxor (Z.land A B) (Z.land A C)) (Z.land B C) in
  let t2 := u32 (s0 + maj) in
  let s1 := Z.lxor (Z.lxor (ror E 6) (ror E 11)) (ror E 25) in
  let ch := Z.lxor (Z.land E F) (Z.land (u32 (Z.lnot E)) G) in
  let t1 := u32 (H + s1 + ch + rd K t + rd W t) in
  (u32 (t1 + t2), A, B, C, u32 (D + t1), E, F, G).

Definition SHA256_Transform (ctx : HASH_CTX) : HASH_CTX :=
  let W := sha256_schedule (ctx_buf ctx) in
  let st := ctx_state ctx in
  let '(A, B, C, D, E, F, G, H) :=
    for_ 64 0 (sha256_round W)
      (rd st 0, rd st 1, rd st 2, rd st 3, rd st 4, rd st 5, rd st 6, rd st 7) in
  set_state ctx
    [u32 (rd st 0 + A); u32 (rd st 1 + B); u32 (rd st 2 + C); u32 (rd st 3 + D);
     u32 (rd st 4 + E); u32 (rd st 5 + F); u32 (rd st 6 + G); u32 (rd st 7 + H)].

Definition SHA256_init (ctx : HASH_CTX) : HASH_CTX :=
  mk_HASH_CTX SHA256_VTAB 0 (ctx_buf ctx)
    [0x6a09e667; 0xbb67ae85; 0x3c6ef372; 0xa54ff53a;
     0x510e527f; 0x9b05688c; 0x1f83d9ab; 0x5be0cd19].

Definition SHA256_update (ctx : HASH_CTX) (data : bytes) : HASH_CTX :=
  hash_update SHA256_Transform ctx data.

Definition SHA256_final (ctx : HASH_CTX) : outcome HASH_CTX :=
  hash_final SHA256_Transform 8 ctx.

Definition SHA256_hash (ctx0 : HASH_CTX) (data : bytes) : outcome bytes :=
  let ctx := SHA256_init ctx0 in
  let ctx := SHA256_update ctx data in
  ctx ← SHA256_final ctx;
  Ret (take (Z.to_nat SHA256_DIGEST_SIZE) (ctx_buf ctx)).

Definition zero_ctx : HASH_CTX := mk_HASH_CTX SHA_VTAB 0 (replicate 64 0) (replicate 8 0).
