(* ===== verification/ShaSpec.v ===== *)
(** * FIPS 180-4 reference and correctness of libmincrypt's SHA-1 and SHA-256

    [md_digest] is the Merkle-Damgard construction on whole messages; [Section
    Streaming] proves that the byte-at-a-time context of sha.c and sha256.c
    computes it whatever way the message is cut into [update] calls. The
    compression functions are then proved equal to the standard's. *)

From S2P Require Import Prelude.
From S2P Require Import Limbs.
From S2P Require Import Sha.

(** Bytes that are literals or truncations are in range. *)
Ltac byte_lit :=
  repeat first [ apply Forall_nil_2 | apply Forall_cons_2 ];
  first [ by apply wrap_range | unfold in_range; lia ].

(** ** Reference: padding and iteration *)
Section MerkleDamgard.
Context (compress : list Z -> bytes -> list Z).

Fixpoint md_fold (n : nat) (st : list Z) (msg : bytes) : list Z :=
  match n with
  | O => st
  | S n' => md_fold n' (compress st (take 64 msg)) (drop 64 msg)
  end.

Definition be64 (x : Z) : bytes :=
  [u8 (Z.shiftr x 56); u8 (Z.shiftr x 48); u8 (Z.shiftr x 40); u8 (Z.shiftr x 32);
   u8 (Z.shiftr x 24); u8 (Z.shiftr x 16); u8 (Z.shiftr x 8); u8 (Z.shiftr x 0)].

Definition md_zeros (len : nat) : nat := Z.to_nat ((55 - Z.of_nat len) mod 64).

(** Bit 1, then zero bits up to 448 mod 512, then the bit length modulo 2^64. *)
Definition md_pad (msg : bytes) : bytes :=
  msg ++ [128] ++ replicate (md_zeros (length msg)) 0
      ++ be64 (u64 (Z.of_nat (length msg) * 8)).

Definition md_digest (iv : list Z) (msg : bytes) : bytes :=
  let m := md_pad msg in
  concat (map be_bytes (md_fold (length m / 64) iv m)).

Lemma md_fold_app n st m x : (64 * n <= length m)%nat -> md_fold n st (m ++ x) = md_fold n st m.
Proof.
  revert st m. induction n as [|n IH]; intros st m Hl; simpl; [done |].
  rewrite take_app_le, drop_app_le' by lia.
  apply IH. rewrite length_drop. lia.
Qed.

Lemma md_fold_snoc n st m :
  md_fold (S n) st m = compress (md_fold n st m) (take 64 (drop (64 * n) m)).
Proof.
  revert st m. induction n as [|n IH]; intros st m; [done |].
  change (md_fold (S (S n)) st m) with (md_fold (S n) (compress st (take 64 m)) (drop 64 m)).
  rewrite IH. simpl md_fold. rewrite drop_drop. do 3 f_equal. lia.
Qed.
End MerkleDamgard.

(** ** Streaming computes the reference *)
Section Streaming.
Context (transform : HASH_CTX -> HASH_CTX)
        (compress : list Z -> bytes -> list Z) (nw : nat) (iv : list Z).
Hypothesis nw_le : (4 * nw <= 64)%nat.
Hypothesis nw_le8 : (nw <= 8)%nat.
Hypothesis transform_buf : forall ctx, ctx_buf (transform ctx) = ctx_buf ctx.
Hypothesis transform_count : forall ctx, ctx_count (transform ctx) = ctx_count ctx.
Hypothesis transform_shape : forall ctx, ctx_shape ctx -> ctx_shape (transform ctx).
Hypothesis transform_state : forall ctx, ctx_shape ctx ->
  take nw (ctx_state (transform ctx)) = compress (take nw (ctx_state ctx)) (ctx_buf ctx).

(** What the context holds after absorbing [msg]. *)
Record absorbed (msg : bytes) (ctx : HASH_CTX) : Prop := {
  ab_shape : ctx_shape ctx;
  ab_state : take nw (ctx_state ctx) = md_fold compress (length msg / 64) iv msg;
  ab_buf : take (length msg mod 64) (ctx_buf ctx) = drop (64 * (length msg / 64)) msg;
}.

Lemma absorbed_count_irrel msg ctx c : absorbed msg ctx -> absorbed msg (set_count ctx c).
Proof. intros [[? ? ? ?] H2 H3]. by split. Qed.

Lemma set_buf_shape ctx b : ctx_shape ctx -> length b = 64%nat -> bytes_ok b ->
  ctx_shape (set_buf ctx b).
Proof. intros [? ? ? ?] ? ?. by split. Qed.

Lemma insert_bytes_ok (l : bytes) i b : bytes_ok l -> in_range 8 b -> bytes_ok (<[i := b]> l).
Proof. intros. by apply Forall_insert. Qed.

Lemma absorb_byte msg ctx b :
  absorbed msg ctx -> in_range 8 b ->
  let i := (length msg mod 64)%nat in
  let ctx1 := set_buf ctx (<[i := b]> (ctx_buf ctx)) in
  absorbed (msg ++ [b]) (if decide (S i = 64%nat) then transform ctx1 else ctx1).
Proof.
  intros [Hsh Hst Hbuf] Hb8. pose proof (sh_buf_len _ Hsh) as Hb. cbv zeta. set (L := length msg) in *.
  pose proof (Nat.div_mod_eq L 64) as HL. pose proof (Nat.mod_upper_bound L 64 ltac:(lia)) as HM.
  set (i := (L mod 64)%nat) in *. set (q := (L / 64)%nat) in *.
  assert (Hlen : length (msg ++ [b]) = S L) by (rewrite length_app; simpl; lia).
  assert (Htail : drop (64 * q) (msg ++ [b]) = drop (64 * q) msg ++ [b])
    by (apply drop_app_le'; fold L; lia).
  assert (Hsh1 : ctx_shape (set_buf ctx (<[i:=b]> (ctx_buf ctx)))).
  { apply set_buf_shape; [done | by rewrite length_insert |].
    apply insert_bytes_ok; [apply Hsh | done]. }
  destruct (decide (S i = 64%nat)) as [E | E].
  - assert (Hq : (S L / 64 = S q)%nat) by (symmetry; apply (Nat.div_unique _ _ _ 0); lia).
    assert (Hm : (S L mod 64 = 0)%nat) by (symmetry; apply (Nat.mod_unique _ _ (S q)); lia).
    split.
    + by apply transform_shape.
    + rewrite transform_state by done.
      rewrite Hlen, Hq, md_fold_snoc, md_fold_app by (fold L; lia).
      cbn [ctx_state ctx_buf set_buf].
      rewrite Hst. f_equal. rewrite Htail.
      assert (E63 : i = 63%nat) by lia. rewrite E63 in *.
      rewrite (firstn_all2 (n := 64)) by (rewrite length_app, length_drop; fold L; simpl; lia).
      rewrite <- Hbuf, <- take_insert_snoc by lia.
      rewrite firstn_all2; [done | rewrite length_insert; lia].
    + rewrite Hlen, Hm, Hq. rewrite take_0, drop_ge; [done |].
      rewrite length_app; simpl; fold L; lia.
  - assert (Hq : (S L / 64 = q)%nat) by (symmetry; apply (Nat.div_unique _ _ _ (S i)); lia).
    assert (Hm : (S L mod 64 = S i)%nat) by (symmetry; apply (Nat.mod_unique _ _ q); lia).
    split.
    + done.
    + rewrite Hlen, Hq, md_fold_app by (fold L; lia). done.
    + cbn [ctx_buf set_buf]. rewrite Hlen, Hq, Hm, Htail, take_insert_snoc by lia. by rewrite Hbuf.
Qed.

Lemma update_loop_absorbed data : forall msg ctx i,
  absorbed msg ctx -> bytes_ok data -> i = Z.of_nat (length msg mod 64) ->
  absorbed (msg ++ data) (update_loop transform ctx i data) /\
  ctx_count (update_loop transform ctx i data) = ctx_count ctx.
Proof.
  induction data as [|b data IH]; intros msg ctx i Hab Hok Hi; simpl.
  - by rewrite app_nil_r.
  - apply Forall_cons in Hok as [Hb8 Hok].
    pose proof (absorb_byte msg ctx b Hab Hb8) as Hstep. cbv zeta in Hstep.
    pose proof (Nat.div_mod_eq (length msg) 64) as HL.
    pose proof (Nat.mod_upper_bound (length msg) 64 ltac:(lia)) as HM.
    subst i. rewrite Nat2Z.id.
    replace (msg ++ b :: data) with ((msg ++ [b]) ++ data) by (by rewrite <- app_assoc).
    destruct (Z.of_nat (length msg mod 64) + 1 =? 64) eqn:E; zbool.
    + rewrite decide_True in Hstep by lia.
      destruct (IH _ _ 0 Hstep Hok) as [H1 H2].
      { rewrite length_app. cbn [length].
        replace (length msg + 1)%nat with ((S (length msg / 64)) * 64)%nat by lia.
        by rewrite Nat.Div0.mod_mul. }
      split; [done |]. rewrite H2, transform_count. done.
    + rewrite decide_False in Hstep by lia.
      destruct (IH _ _ (Z.of_nat (length msg mod 64) + 1) Hstep Hok) as [H1 H2]; [| done].
      rewrite length_app. cbn [length].
      replace ((length msg + 1) mod 64)%nat with (S (length msg mod 64)); [lia |].
      apply (Nat.mod_unique _ _ (length msg / 64)); lia.
Qed.

(** The full invariant: [absorbed], with the byte counter modulo 2^64. *)
Definition streamed (msg : bytes) (ctx : HASH_CTX) : Prop :=
  absorbed msg ctx /\ ctx_count ctx = u64 (Z.of_nat (length msg)).

Lemma u64_land_63 (n : nat) : Z.land (u64 (Z.of_nat n)) 63 = Z.of_nat (n mod 64).
Proof.
  change 63 with (2 ^ 6 - 1). rewrite land_ones_mod by lia. unfold wrap.
  rewrite Z.mod_mod_divide by (exists (2 ^ 58); reflexivity). by rewrite Nat2Z.inj_mod.
Qed.

Lemma update_streamed msg ctx data :
  streamed msg ctx -> bytes_ok data -> streamed (msg ++ data) (hash_update transform ctx data).
Proof.
  intros [Hab Hc] Hok. unfold hash_update. rewrite Hc, u64_land_63.
  rewrite swrap_small;
    [| lia | pose proof (Nat.mod_upper_bound (length msg) 64); unfold in_srange; lia].
  destruct (update_loop_absorbed data msg
    (set_count ctx (u64 (u64 (Z.of_nat (length msg)) + Z.of_nat (length data))))
    (Z.of_nat (length msg mod 64)) (absorbed_count_irrel _ _ _ Hab) Hok eq_refl) as [H1 H2].
  split; [done |]. rewrite H2. simpl. by rewrite wrap_add_l, length_app, Nat2Z.inj_add.
Qed.

Lemma pad_loop_streamed k : forall fuel msg ctx, (k <= fuel)%nat ->
  streamed msg ctx -> k = Z.to_nat ((56 - Z.of_nat (length msg)) mod 64) ->
  exists ctx', pad_loop transform fuel ctx = Ret ctx' /\ streamed (msg ++ replicate k 0) ctx'.
Proof.
  induction k as [|k IH]; intros fuel msg ctx Hf Hst Hk.
  - exists ctx. rewrite app_nil_r. split; [| done].
    destruct Hst as [_ Hc].
    assert (Hm : Z.land (ctx_count ctx) 63 = 56).
    { rewrite Hc, u64_land_63, Nat2Z.inj_mod. change (Z.of_nat 64) with 64. dmlia. }
    destruct fuel; simpl; by rewrite Hm.
  - destruct fuel as [|fuel]; [lia |].
    pose proof (update_streamed msg ctx [0] Hst ltac:(byte_lit)) as Hst1.
    destruct (IH fuel _ _ ltac:(lia) Hst1) as (ctx' & Hr & Hs').
    { rewrite length_app. simpl. dmlia. }
    exists ctx'. split; [| by rewrite <- app_assoc in Hs'].
    simpl. destruct Hst as [_ Hc]. rewrite Hc, u64_land_63.
    destruct (Z.eqb_spec (Z.of_nat (length msg mod 64)) 56) as [E | _]; [| done].
    rewrite Nat2Z.inj_mod in E. change (Z.of_nat 64) with 64 in E. exfalso. dmlia.
Qed.

Lemma store_loop_spec ctx : ctx_shape ctx -> forall n, (n <= nw)%nat ->
  let ctx' := for_ n 0 (fun i ctx =>
    set_buf ctx (store_word (ctx_buf ctx) i (rd (ctx_state ctx) i))) ctx in
  take (4 * n) (ctx_buf ctx') = concat (map be_bytes (take n (ctx_state ctx))) /\
  ctx_state ctx' = ctx_state ctx /\ length (ctx_buf ctx') = 64%nat.
Proof.
  intros [Hb _ Hs _] n Hn. induction n as [|n IH].
  - cbv zeta. split; [done |]. split; [done |]. exact Hb.
  - destruct (IH ltac:(lia)) as (H1 & H2 & H3). clear IH. cbv zeta in *.
    replace (S n) with (n + 1)%nat by lia. rewrite for_app. simpl for_.
    set (ctx' := for_ n 0 _ ctx) in *.
    cbn [ctx_buf ctx_state set_buf]. split; [| split; [done | by rewrite store_word_length]].
    replace (n + 1)%nat with (S n) by lia. rewrite Z.add_0_l.
    rewrite store_word_take, H1, H2 by lia.
    destruct (lookup_lt_is_Some_2 (ctx_state ctx) n ltac:(lia)) as [x Hx].
    rewrite (take_S_r _ n x Hx), map_app, concat_app.
    unfold rd. rewrite Nat2Z.id. by erewrite nth_lookup_Some by exact Hx.
Qed.

Lemma md_pad_length msg : length (md_pad msg) = (64 * ((length msg + 8) / 64 + 1))%nat.
Proof.
  unfold md_pad, md_zeros. rewrite !length_app, length_replicate. simpl length.
  apply Nat2Z.inj. rewrite !Nat2Z.inj_add, Z2Nat.id by (apply Z.mod_pos_bound; lia).
  rewrite Nat2Z.inj_mul, Nat2Z.inj_add, Nat2Z.inj_div, Nat2Z.inj_add. dmlia.
Qed.

(** The final call returns, and the first words of the buffer are the digest. *)
Lemma final_streamed msg ctx : streamed msg ctx ->
  exists ctx', hash_final transform nw ctx = Ret ctx' /\
    take (4 * nw) (ctx_buf ctx') = md_digest compress iv msg.
Proof.
  intros Hst. unfold hash_final.
  assert (Hcnt : u64 (ctx_count ctx * 8) = u64 (Z.of_nat (length msg) * 8)).
  { destruct Hst as [_ ->]. by rewrite wrap_mul_l. }
  rewrite Hcnt. set (cnt := u64 (Z.of_nat (length msg) * 8)).
  pose proof (update_streamed msg ctx [128] Hst ltac:(byte_lit)) as Hst1.
  destruct (pad_loop_streamed (md_zeros (length msg)) 64 _ _ ltac:(unfold md_zeros; dmlia) Hst1)
    as (ctx2 & Hr & Hst2).
  { unfold md_zeros. rewrite length_app. simpl. do 2 f_equal. lia. }
  rewrite Hr, bind_ret.
  eexists. split; [reflexivity |].
  match goal with |- context [for_ nw 0 _ ?c] => set (ctx3 := c) end.
  assert (Hst3 : streamed (md_pad msg) ctx3).
  { subst ctx3. cbn [for_].
    repeat match goal with
    | H : streamed ?m ?c |- streamed _ _ =>
        lazymatch goal with
        | |- context [hash_update transform c [?b]] =>
            apply (fun H => update_streamed m c [b] H ltac:(byte_lit)) in H
        end
    end.
    unfold md_pad, be64. rewrite <- !app_assoc in Hst2. exact Hst2. }
  destruct Hst3 as [[Hsh Hs _] _].
  destruct (store_loop_spec ctx3 Hsh nw (Nat.le_refl _)) as (H1 & _ & _). cbv zeta in H1.
  by rewrite H1, Hs.
Qed.
End Streaming.

(** ** Reference compression functions (FIPS 180-4, sections 4.1, 4.2, 6.1, 6.2) *)
Definition ROTL (n x : Z) : Z := (x * 2 ^ n) mod 2 ^ 32 + x / 2 ^ (32 - n).
Definition ROTR (n x : Z) : Z := x / 2 ^ n + (x * 2 ^ (32 - n)) mod 2 ^ 32.
Definition SHR (n x : Z) : Z := x / 2 ^ n.
Definition Ch (x y z : Z) : Z := Z.lxor (Z.land x y) (Z.ldiff z x).
Definition Parity (x y z : Z) : Z := Z.lxor (Z.lxor x y) z.
Definition Maj (x y z : Z) : Z :=
  Z.lxor (Z.lxor (Z.land x y) (Z.land x z)) (Z.land y z).

Definition block_word (block : bytes) (t : Z) : Z :=
  rd block (4 * t) * 2 ^ 24 + rd block (4 * t + 1) * 2 ^ 16 +
  rd block (4 * t + 2) * 2 ^ 8 + rd block (4 * t + 3).

Definition block_words (block : bytes) : list Z :=
  for_ 16 0 (fun t W => W ++ [block_word block t]) [].

Definition sha1_f (t x y z : Z) : Z :=
  if t <? 20 then Ch x y z else if t <? 40 then Parity x y z
  else if t <? 60 then Maj x y z else Parity x y z.
Definition sha1_K (t : Z) : Z :=
  if t <? 20 then 0x5a827999 else if t <? 40 then 0x6ed9eba1
  else if t <? 60 then 0x8f1bbcdc else 0xca62c1d6.

Definition sha1_ref_schedule (block : bytes) : list Z :=
  for_ 64 16 (fun t W =>
    W ++ [ROTL 1 (Z.lxor (Z.lxor (Z.lxor (rd W (t - 3)) (rd W (t - 8)))
                                 (rd W (t - 14))) (rd W (t - 16)))]) (block_words block).

Definition sha1_ref_round (W : list Z) (t : Z) (v : Z * Z * Z * Z * Z) :=
  let '(a, b, c, d, e) := v in
  ((ROTL 5 a + sha1_f t b c d + e + sha1_K t + rd W t) mod 2 ^ 32, a, ROTL 30 b, c, d).

Definition sha1_compress (st : list Z) (block : bytes) : list Z :=
  let '(a, b, c, d, e) :=
    for_ 80 0 (sha1_ref_round (sha1_ref_schedule block))
      (rd st 0, rd st 1, rd st 2, rd st 3, rd st 4) in
  [(rd st 0 + a) mod 2 ^ 32; (rd st 1 + b) mod 2 ^ 32; (rd st 2 + c) mod 2 ^ 32;
   (rd st 3 + d) mod 2 ^ 32; (rd st 4 + e) mod 2 ^ 32].

Definition sha1_iv : list Z := [0x67452301; 0xefcdab89; 0x98badcfe; 0x10325476; 0xc3d2e1f0].

Definition sha1 (msg : bytes) : bytes := md_digest sha1_compress sha1_iv msg.

Definition Sigma0 (x : Z) := Z.lxor (Z.lxor (ROTR 2 x) (ROTR 13 x)) (ROTR 22 x).
Definition Sigma1 (x : Z) := Z.lxor (Z.lxor (ROTR 6 x) (ROTR 11 x)) (ROTR 25 x).
Definition sigma0 (x : Z) := Z.lxor (Z.lxor (ROTR 7 x) (ROTR 18 x)) (SHR 3 x).
Definition sigma1 (x : Z) := Z.lxor (Z.lxor (ROTR 17 x) (ROTR 19 x)) (SHR 10 x).

Definition sha256_ref_schedule (block : bytes) : list Z :=
  for_ 48 16 (fun t W =>
    W ++ [(sigma1 (rd W (t - 2)) + rd W (t - 7) + sigma0 (rd W (t - 15)) + rd W (t - 16))
          mod 2 ^ 32]) (block_words block).

Definition sha256_ref_round (W : list Z) (t : Z) (v : Z * Z * Z * Z * Z * Z * Z * Z) :=
  let '(a, b, c, d, e, f, g, h) := v in
  let T1 := h + Sigma1 e + Ch e f g + rd K t + rd W t in
  let T2 := Sigma0 a + Maj a b c in
  ((T1 + T2) mod 2 ^ 32, a, b, c, (d + T1) mod 2 ^ 32, e, f, g).

Definition sha256_compress (st : list Z) (block : bytes) : list Z :=
  let '(a, b, c, d, e, f, g, h) :=
    for_ 64 0 (sha256_ref_round (sha256_ref_schedule block))
      (rd st 0, rd st 1, rd st 2, rd st 3, rd st 4, rd st 5, rd st 6, rd st 7) in
  [(rd st 0 + a) mod 2 ^ 32; (rd st 1 + b) mod 2 ^ 32; (rd st 2 + c) mod 2 ^ 32;
   (rd st 3 + d) mod 2 ^ 32; (rd st 4 + e) mod 2 ^ 32; (rd st 5 + f) mod 2 ^ 32;
   (rd st 6 + g) mod 2 ^ 32; (rd st 7 + h) mod 2 ^ 32].

Definition sha256_iv : list Z :=
  [0x6a09e667; 0xbb67ae85; 0x3c6ef372; 0xa54ff53a;
   0x510e527f; 0x9b05688c; 0x1f83d9ab; 0x5be0cd19].

Definition sha256 (msg : bytes) : bytes := md_digest sha256_compress sha256_iv msg.

(** ** The code's word operations are the standard's *)
Lemma wrap_shiftl_low n x : 0 < n < 32 -> wrap 32 (Z.shiftl x n) = Z.shiftl (x mod 2 ^ (32 - n)) n.
Proof.
  intros Hn. unfold wrap. rewrite !Z.shiftl_mul_pow2 by lia.
  replace 32 with ((32 - n) + n) at 1 by lia.
  by rewrite Z.pow_add_r, Zmult_mod_distr_r by lia.
Qed.

Lemma rotate_split n x : 0 < n < 32 -> in_range 32 x ->
  Z.lor (wrap 32 (Z.shiftl x n)) (Z.shiftr x (32 - n)) = (x * 2 ^ n) mod 2 ^ 32 + x / 2 ^ (32 - n).
Proof.
  intros Hn Hx. rewrite wrap_shiftl_low, Z.lor_comm, Z.shiftr_div_pow2 by lia.
  rewrite lor_shiftl_add; [| lia |].
  - rewrite <- Z.shiftl_mul_pow2, <- wrap_shiftl_low, Z.shiftl_mul_pow2 by lia. unfold wrap. lia.
  - unfold in_range in Hx. split; [apply Z.div_pos; lia |].
    apply Z.div_lt_upper_bound; [lia |]. rewrite <- Z.pow_add_r by lia.
    replace (32 - n + n) with 32 by lia. lia.
Qed.

Lemma rol_ROTL n x : 0 < n < 32 -> in_range 32 x -> rol n x = ROTL n x.
Proof. apply rotate_split. Qed.

Lemma ror_ROTR n x : 0 < n < 32 -> in_range 32 x -> ror x n = ROTR n x.
Proof.
  intros Hn Hx. unfold ror, ROTR. rewrite Z.lor_comm, Z.add_comm.
  pose proof (rotate_split (32 - n) x ltac:(lia) Hx) as H.
  by replace (32 - (32 - n)) with n in H by lia.
Qed.

Lemma rol_range n x : 0 <= n <= 32 -> in_range 32 x -> in_range 32 (rol n x).
Proof. intros. unfold rol. apply lor_in_range; auto with cint lia. Qed.

Lemma ror_range x n : 0 <= n -> in_range 32 x -> in_range 32 (ror x n).
Proof. intros. unfold ror. apply lor_in_range; auto with cint lia. Qed.

Lemma Ch_code B C D : Z.lxor D (Z.land B (Z.lxor C D)) = Ch B C D.
Proof.
  apply Z.bits_inj'. intros i Hi. unfold Ch.
  rewrite !Z.lxor_spec, !Z.land_spec, Z.ldiff_spec, Z.lxor_spec.
  by destruct (Z.testbit B i), (Z.testbit C i), (Z.testbit D i).
Qed.

Lemma Ch_code256 E F G : in_range 32 G ->
  Z.lxor (Z.land E F) (Z.land (u32 (Z.lnot E)) G) = Ch E F G.
Proof.
  intros HG. apply Z.bits_inj'. intros i Hi. unfold Ch.
  rewrite !Z.lxor_spec, !Z.land_spec, Z.ldiff_spec, wrap_testbit, Z.lnot_spec by lia.
  destruct (Z.ltb_spec i 32); [| rewrite (in_range_testbit 32 G i) by (done || lia)];
    by destruct (Z.testbit E i), (Z.testbit F i), (Z.testbit G i).
Qed.

Lemma Maj_code B C D : Z.lor (Z.land B C) (Z.land D (Z.lor B C)) = Maj B C D.
Proof.
  apply Z.bits_inj'. intros i Hi. unfold Maj.
  rewrite !Z.lxor_spec, Z.lor_spec, !Z.land_spec, Z.lor_spec.
  by destruct (Z.testbit B i), (Z.testbit C i), (Z.testbit D i).
Qed.

Lemma load_word_value b t : bytes_ok b -> load_word b t = block_word b t.
Proof.
  intros Hb. unfold load_word, block_word.
  pose proof (rd_range 8 b (4 * t) ltac:(lia) Hb) as H0.
  pose proof (rd_range 8 b (4 * t + 1) ltac:(lia) Hb) as H1.
  pose proof (rd_range 8 b (4 * t + 2) ltac:(lia) Hb) as H2.
  pose proof (rd_range 8 b (4 * t + 3) ltac:(lia) Hb) as H3.
  unfold in_range in *. rewrite !wrap_small by (unfold in_range; rewrite Z.shiftl_mul_pow2; lia).
  rewrite <- !Z.lor_assoc, (Z.lor_comm (Z.shiftl (rd b (4 * t + 2)) 8)).
  rewrite lor_shiftl_add by lia.
  rewrite (Z.lor_comm (Z.shiftl (rd b (4 * t + 1)) 16)), lor_shiftl_add by lia.
  rewrite (Z.lor_comm (Z.shiftl (rd b (4 * t)) 24)), lor_shiftl_add by lia. lia.
Qed.

Lemma block_word_range b t : bytes_ok b -> in_range 32 (block_word b t).
Proof.
  intros Hb. unfold block_word.
  pose proof (rd_range 8 b (4 * t) ltac:(lia) Hb). pose proof (rd_range 8 b (4 * t + 1) ltac:(lia) Hb).
  pose proof (rd_range 8 b (4 * t + 2) ltac:(lia) Hb).
  pose proof (rd_range 8 b (4 * t + 3) ltac:(lia) Hb). unfold in_range in *. lia.
Qed.

(** Two loops with bodies that agree under an invariant agree. *)
Lemma for_ext_inv {S} (P : S -> Prop) (f g : Z -> S -> S) n : forall i s,
  (forall j s, i <= j < i + Z.of_nat n -> P s -> f j s = g j s /\ P (f j s)) ->
  P s -> for_ n i f s = for_ n i g s /\ P (for_ n i f s).
Proof.
  induction n as [|n IH]; intros i s Hstep Hs; simpl; [done |].
  destruct (Hstep i s ltac:(lia) Hs) as [E HP]. rewrite <- E.
  apply IH; [| done]. intros j s' Hj. apply Hstep. lia.
Qed.

Lemma load_words_ref b : bytes_ok b -> load_words b = block_words b /\ words_ok (load_words b).
Proof.
  intros Hb. apply (for_ext_inv words_ok); [| by apply Forall_nil_2].
  intros j W _ HW. rewrite load_word_value by done. split; [done |].
  apply Forall_app_2; [done |]. apply Forall_singleton, block_word_range, Hb.
Qed.

#[export] Hint Resolve rol_range ror_range : cint.
Ltac word_range := auto 10 with cint lia.

Lemma sha1_schedule_ref b : bytes_ok b ->
  sha1_schedule b = sha1_ref_schedule b /\ words_ok (sha1_schedule b).
Proof.
  intros Hb. unfold sha1_schedule, sha1_ref_schedule.
  destruct (load_words_ref b Hb) as [<- HW]. apply (for_ext_inv words_ok); [| done].
  clear HW. intros j W _ HW. unfold words_ok in *.
  assert (HX : in_range 32 (Z.lxor (Z.lxor (Z.lxor (rd W (j - 3)) (rd W (j - 8)))
                                (rd W (j - 14))) (rd W (j - 16)))) by word_range.
  rewrite rol_ROTL by (done || lia). split; [done |].
  apply Forall_app_2; [done |]. apply Forall_singleton. rewrite <- rol_ROTL by (done || lia).
  apply rol_range; [lia | done].
Qed.

Definition regs5_ok (v : Z * Z * Z * Z * Z) : Prop :=
  let '(a, b, c, d, e) := v in
  in_range 32 a /\ in_range 32 b /\ in_range 32 c /\ in_range 32 d /\ in_range 32 e.

Lemma sha1_round_ref W t v : regs5_ok v ->
  sha1_round W t v = sha1_ref_round W t v /\ regs5_ok (sha1_round W t v).
Proof.
  destruct v as [[[[a b] c] d] e]. intros (Ha & Hb & Hc & Hd & He).
  unfold sha1_round, sha1_ref_round.
  rewrite rol_ROTL, (rol_ROTL 30) by (done || lia).
  assert (Hc30 : in_range 32 (ROTL 30 b)) by (rewrite <- rol_ROTL by (done || lia); word_range).
  split.
  - f_equal. f_equal. f_equal. f_equal. unfold sha1_f, sha1_K.
    rewrite Ch_code, Maj_code.
    destruct (t <? 20), (t <? 40), (t <? 60); rewrite wrap_add_l; unfold wrap, Parity; f_equal; lia.
  - repeat split; try apply Ha; try apply Hc; try apply Hd; try apply Hc30;
      destruct (t <? 20), (t <? 40), (t <? 60); apply wrap_range; lia.
Qed.

Lemma SHA1_Transform_ref ctx : ctx_shape ctx ->
  ctx_shape (SHA1_Transform ctx) /\
  take 5 (ctx_state (SHA1_Transform ctx)) = sha1_compress (take 5 (ctx_state ctx)) (ctx_buf ctx).
Proof.
  intros [Hbl Hb Hsl Hs].
  destruct (sha1_schedule_ref _ Hb) as [HW HWok].
  assert (Hrd : forall i, in_range 32 (rd (ctx_state ctx) i)) by (intros; word_range).
  assert (Htake : forall i, 0 <= i < 5 -> rd (take 5 (ctx_state ctx)) i = rd (ctx_state ctx) i).
  { intros i Hi. unfold rd. rewrite !nth_lookup. by rewrite lookup_take_lt by lia. }
  unfold SHA1_Transform, sha1_compress. rewrite !Htake by lia. rewrite HW.
  match goal with |- context [for_ 80 0 (sha1_round ?W) ?v] =>
    destruct (for_ext_inv regs5_ok (sha1_round W) (sha1_ref_round W) 80 0 v) as [E _];
      [intros; by apply sha1_round_ref | repeat split; apply Hrd |] end.
  rewrite <- E. destruct (for_ 80 0 _ _) as [[[[a b] c] d] e]. split.
  - split; [done | done | |]; cbn [ctx_state set_state].
    + rewrite length_app, length_drop. simpl. lia.
    + apply Forall_app_2; [| by apply Forall_drop].
      repeat first [ apply Forall_nil_2 | apply Forall_cons_2; [by apply wrap_range |] ].
  - reflexivity.
Qed.

Definition regs8_ok (v : Z * Z * Z * Z * Z * Z * Z * Z) : Prop :=
  let '(a, b, c, d, e, f, g, h) := v in
  (in_range 32 a /\ in_range 32 b /\ in_range 32 c /\ in_range 32 d) /\
  (in_range 32 e /\ in_range 32 f /\ in_range 32 g /\ in_range 32 h).

Lemma sha256_sigma x : in_range 32 x ->
  Z.lxor (Z.lxor (ror x 7) (ror x 18)) (shr x 3) = sigma0 x /\
  Z.lxor (Z.lxor (ror x 17) (ror x 19)) (shr x 10) = sigma1 x /\
  Z.lxor (Z.lxor (ror x 2) (ror x 13)) (ror x 22) = Sigma0 x /\
  Z.lxor (Z.lxor (ror x 6) (ror x 11)) (ror x 25) = Sigma1 x.
Proof.
  intros Hx. unfold sigma0, sigma1, Sigma0, Sigma1, shr, SHR.
  rewrite !ror_ROTR, !Z.shiftr_div_pow2 by (done || lia). done.
Qed.

Lemma sha256_schedule_ref b : bytes_ok b ->
  sha256_schedule b = sha256_ref_schedule b /\ words_ok (sha256_schedule b).
Proof.
  intros Hb. unfold sha256_schedule, sha256_ref_schedule.
  destruct (load_words_ref b Hb) as [<- HW]. apply (for_ext_inv words_ok); [| done].
  clear HW. intros j W _ HW. unfold words_ok in *. cbv zeta.
  destruct (sha256_sigma (rd W (j - 15)) ltac:(word_range)) as (-> & _).
  destruct (sha256_sigma (rd W (j - 2)) ltac:(word_range)) as (_ & -> & _).
  split.
  - do 2 f_equal. unfold wrap. f_equal. lia.
  - apply Forall_app_2; [done |]. by apply Forall_singleton, wrap_range.
Qed.

Lemma sha256_round_ref W t v : regs8_ok v ->
  sha256_round W t v = sha256_ref_round W t v /\ regs8_ok (sha256_round W t v).
Proof.
  destruct v as [[[[[[[a b] c] d] e] f] g] h].
  intros ((Ha & Hb & Hc & Hd) & (He & Hf & Hg & Hh)).
  unfold sha256_round, sha256_ref_round. cbv zeta.
  destruct (sha256_sigma a Ha) as (_ & _ & -> & _).
  destruct (sha256_sigma e He) as (_ & _ & _ & ->).
  rewrite Ch_code256 by done. fold (Maj a b c). split.
  - unfold wrap. rewrite Zplus_mod_idemp_l, !Zplus_mod_idemp_r. done.
  - repeat split; solve [ apply wrap_range; lia | apply Ha | apply Hb | apply Hc | apply He | apply Hf | apply Hg ].
Qed.

Lemma SHA256_Transform_ref ctx : ctx_shape ctx ->
  ctx_shape (SHA256_Transform ctx) /\
  take 8 (ctx_state (SHA256_Transform ctx)) =
    sha256_compress (take 8 (ctx_state ctx)) (ctx_buf ctx).
Proof.
  intros [Hbl Hb Hsl Hs].
  destruct (sha256_schedule_ref _ Hb) as [HW HWok].
  assert (Hrd : forall i, in_range 32 (rd (ctx_state ctx) i)) by (intros; word_range).
  rewrite (take_ge (ctx_state ctx)) by lia.
  unfold SHA256_Transform, sha256_compress. rewrite HW.
  match goal with |- context [for_ 64 0 (sha256_round ?W) ?v] =>
    destruct (for_ext_inv regs8_ok (sha256_round W) (sha256_ref_round W) 64 0 v) as [E _];
      [intros; by apply sha256_round_ref | repeat split; apply Hrd |] end.
  rewrite <- E. destruct (for_ 64 0 _ _) as [[[[[[[a b] c] d] e] f] g] h]. split; [| reflexivity].
  split; [done | done | done |].
  repeat first [ apply Forall_nil_2 | apply Forall_cons_2; [by apply wrap_range |] ].
Qed.

Lemma SHA1_Transform_frame ctx :
  ctx_buf (SHA1_Transform ctx) = ctx_buf ctx /\ ctx_count (SHA1_Transform ctx) = ctx_count ctx.
Proof. unfold SHA1_Transform. by destruct (for_ 80 0 _ _) as [[[[? ?] ?] ?] ?]. Qed.

Lemma SHA256_Transform_frame ctx :
  ctx_buf (SHA256_Transform ctx) = ctx_buf ctx /\ ctx_count (SHA256_Transform ctx) = ctx_count ctx.
Proof. unfold SHA256_Transform. by destruct (for_ 64 0 _ _) as [[[[[[[? ?] ?] ?] ?] ?] ?] ?]. Qed.

#[local] Opaque SHA1_Transform SHA256_Transform sha1_compress sha256_compress.

(** The streaming invariant of each algorithm. *)
Definition sha1_streamed (msg : bytes) (ctx : HASH_CTX) : Prop :=
  streamed sha1_compress 5 sha1_iv msg ctx.
Definition sha256_streamed (msg : bytes) (ctx : HASH_CTX) : Prop :=
  streamed sha256_compress 8 sha256_iv msg ctx.

Ltac sha_side :=
  lazymatch goal with
  | |- (_ <= _)%nat => lia
  | |- forall ctx, ctx_buf (SHA1_Transform ctx) = _ => apply SHA1_Transform_frame
  | |- forall ctx, ctx_count (SHA1_Transform ctx) = _ => apply SHA1_Transform_frame
  | |- forall ctx, _ -> ctx_shape (SHA1_Transform ctx) => apply SHA1_Transform_ref
  | |- forall ctx, _ -> take 5 _ = _ => apply SHA1_Transform_ref
  | |- forall ctx, ctx_buf (SHA256_Transform ctx) = _ => apply SHA256_Transform_frame
  | |- forall ctx, ctx_count (SHA256_Transform ctx) = _ => apply SHA256_Transform_frame
  | |- forall ctx, _ -> ctx_shape (SHA256_Transform ctx) => apply SHA256_Transform_ref
  | |- forall ctx, _ -> take 8 _ = _ => apply SHA256_Transform_ref
  end.

Ltac iv_words :=
  repeat first [ apply Forall_nil_2
               | apply Forall_cons_2; [unfold in_range; lia |] ].

Lemma SHA_init_streamed ctx0 : ctx_shape ctx0 -> sha1_streamed [] (SHA_init ctx0).
Proof.
  intros [? ? Hl ?]. split; [split | done]; [| done | done].
  split; [done | done | |]; simpl.
  - rewrite length_drop. lia.
  - iv_words. by apply Forall_drop.
Qed.

Lemma SHA256_init_streamed ctx0 : ctx_shape ctx0 -> sha256_streamed [] (SHA256_init ctx0).
Proof.
  intros [? ? ? ?]. split; [split | done]; [| done | done].
  split; [done | done | done | iv_words].
Qed.

Lemma SHA_update_streamed msg ctx data : sha1_streamed msg ctx -> bytes_ok data ->
  sha1_streamed (msg ++ data) (SHA_update ctx data).
Proof. apply (update_streamed SHA1_Transform sha1_compress 5 sha1_iv); sha_side. Qed.

Lemma SHA256_update_streamed msg ctx data : sha256_streamed msg ctx -> bytes_ok data ->
  sha256_streamed (msg ++ data) (SHA256_update ctx data).
Proof. apply (update_streamed SHA256_Transform sha256_compress 8 sha256_iv); sha_side. Qed.

Lemma SHA_final_streamed msg ctx : sha1_streamed msg ctx ->
  exists ctx', SHA_final ctx = Ret ctx' /\ take 20 (ctx_buf ctx') = sha1 msg.
Proof.
  apply (final_streamed SHA1_Transform sha1_compress 5 sha1_iv);
    sha_side.
Qed.

Lemma SHA256_final_streamed msg ctx : sha256_streamed msg ctx ->
  exists ctx', SHA256_final ctx = Ret ctx' /\ take 32 (ctx_buf ctx') = sha256 msg.
Proof.
  apply (final_streamed SHA256_Transform sha256_compress 8 sha256_iv);
    sha_side.
Qed.

(** Digest lengths. *)
Lemma md_digest_length compress iv msg k :
  length iv = k -> (forall st b, length (compress st b) = k) ->
  length (md_digest compress iv msg) = (4 * k)%nat.
Proof.
  intros Hiv Hc. unfold md_digest.
  assert (Hf : forall n st m, length st = k -> length (md_fold compress n st m) = k).
  { induction n as [|n IH]; intros st m Hst; simpl; [done | by apply IH]. }
  set (st := md_fold _ _ _ _). assert (Hst : length st = k) by (by apply Hf).
  clearbody st. rewrite <- Hst. clear. induction st as [|x st IH]; [done |].
  cbn [map concat]. rewrite length_app, IH. simpl. lia.
Qed.

Lemma md_digest_ok compress iv msg : bytes_ok (md_digest compress iv msg).
Proof.
  unfold md_digest. generalize (md_fold compress (length (md_pad msg) / 64) iv (md_pad msg)) as st.
  induction st as [|x st IH]; [constructor |]. cbn [map concat]. apply Forall_app. split; [apply be_bytes_ok | exact IH].
Qed.

Lemma sha1_ok msg : bytes_ok (sha1 msg).
Proof. apply md_digest_ok. Qed.

Lemma sha256_ok msg : bytes_ok (sha256 msg).
Proof. apply md_digest_ok. Qed.

#[local] Transparent sha1_compress sha256_compress.
Lemma sha1_length msg : length (sha1 msg) = 20%nat.
Proof.
  apply (md_digest_length _ _ _ 5); [done |]. intros st b. unfold sha1_compress.
  by destruct (for_ 80 0 _ _) as [[[[? ?] ?] ?] ?].
Qed.

Lemma sha256_length msg : length (sha256 msg) = 32%nat.
Proof.
  apply (md_digest_length _ _ _ 8); [done |]. intros st b. unfold sha256_compress.
  by destruct (for_ 64 0 _ _) as [[[[[[[? ?] ?] ?] ?] ?] ?] ?].
Qed.
#[local] Opaque sha1_compress sha256_compress.

(** The one-shot calls, for use by the signature checks. *)
Lemma SHA_hash_ref ctx0 data : ctx_shape ctx0 -> bytes_ok data -> SHA_hash ctx0 data = Ret (sha1 data).
Proof.
  intros H0 Hd. unfold SHA_hash.
  destruct (SHA_final_streamed data (SHA_update (SHA_init ctx0) data)) as (ctx' & -> & Hdig).
  { apply (SHA_update_streamed [] _ data); [by apply SHA_init_streamed | done]. }
  rewrite bind_ret. change (Z.to_nat SHA_DIGEST_SIZE) with 20%nat. by rewrite Hdig.
Qed.

Lemma SHA256_hash_ref ctx0 data : ctx_shape ctx0 -> bytes_ok data ->
  SHA256_hash ctx0 data = Ret (sha256 data).
Proof.
  intros H0 Hd. unfold SHA256_hash.
  destruct (SHA256_final_streamed data (SHA256_update (SHA256_init ctx0) data)) as (ctx' & -> & Hdig).
  { apply (SHA256_update_streamed [] _ data); [by apply SHA256_init_streamed | done]. }
  rewrite bind_ret. change (Z.to_nat SHA256_DIGEST_SIZE) with 32%nat. by rewrite Hdig.
Qed.

(** A sequence of [update] calls. *)
Definition SHA_updates (ctx : HASH_CTX) (parts : list bytes) : HASH_CTX :=
  foldl SHA_update ctx parts.
Definition SHA256_updates (ctx : HASH_CTX) (parts : list bytes) : HASH_CTX :=
  foldl SHA256_update ctx parts.

Lemma SHA_updates_streamed parts : forall msg ctx, sha1_streamed msg ctx ->
  Forall bytes_ok parts -> sha1_streamed (msg ++ concat parts) (SHA_updates ctx parts).
Proof.
  induction parts as [|p parts IH]; intros msg ctx Hst Hok; simpl; [by rewrite app_nil_r |].
  apply Forall_cons in Hok as [Hp Hok]. rewrite app_assoc.
  apply IH; [by apply SHA_update_streamed | done].
Qed.

Lemma SHA256_updates_streamed parts : forall msg ctx, sha256_streamed msg ctx ->
  Forall bytes_ok parts -> sha256_streamed (msg ++ concat parts) (SHA256_updates ctx parts).
Proof.
  induction parts as [|p parts IH]; intros msg ctx Hst Hok; simpl; [by rewrite app_nil_r |].
  apply Forall_cons in Hok as [Hp Hok]. rewrite app_assoc.
  apply IH; [by apply SHA256_update_streamed | done].
Qed.

(** ** Constants *)
Definition is_prime (n : Z) : bool :=
  forallb (fun d => negb (n mod d =? 0)) (seqZ 2 (n - 2)).

(** The primes up to 311: there are 64 of them. *)
Definition first_primes : list Z := List.filter is_prime (seqZ 2 310).

(** [k] is the first 32 bits of the fractional part of the [e]-th root of [p]:
    with [c] = floor(p^(1/e) * 2^32), [k] = c mod 2^32. *)
Definition root_frac (e : Z) (k p : Z) : Prop :=
  exists c, c mod 2 ^ 32 = k /\ c ^ e <= p * 2 ^ (32 * e) < (c + 1) ^ e.

Definition root_fracb (e k p : Z) : bool :=
  existsb (fun h => let c := h * 2 ^ 32 + k in
    (c mod 2 ^ 32 =? k) && (c ^ e <=? p * 2 ^ (32 * e)) && (p * 2 ^ (32 * e) <? (c + 1) ^ e))
    (seqZ 1 10).

Lemma root_fracb_sound e k p : root_fracb e k p = true -> root_frac e k p.
Proof.
  unfold root_fracb. intros H. apply existsb_exists in H as (h & _ & H). cbv zeta in H. zbool.
  exists (h * 2 ^ 32 + k). auto.
Qed.

Lemma root_frac_Forall2 e ks ps :
  forallb (fun '(k, p) => root_fracb e k p) (combine ks ps) = true -> length ks = length ps ->
  Forall2 (root_frac e) ks ps.
Proof.
  revert ps. induction ks as [|k ks IH]; intros [|p ps] H Hl; simpl in *; try discriminate; constructor.
  - apply andb_true_iff in H as [H _]. by apply root_fracb_sound.
  - apply andb_true_iff in H as [_ H]. apply IH; [done | lia].
Qed.

(** ** Properties *)

(** C15. SHA-1: however a message is cut into [SHA_update] calls, and whatever
    the uninitialised context held, [SHA_final] returns and leaves the FIPS
    180-4 digest of the whole message in the first 20 bytes of the buffer. *)
Theorem SHA_stream_correct ctx0 parts : ctx_shape ctx0 -> Forall bytes_ok parts ->
  exists ctx', SHA_final (SHA_updates (SHA_init ctx0) parts) = Ret ctx' /\
    take (Z.to_nat SHA_DIGEST_SIZE) (ctx_buf ctx') = sha1 (concat parts).
Proof.
  intros H0 Hp. apply SHA_final_streamed.
  apply (SHA_updates_streamed parts [] (SHA_init ctx0)); [by apply SHA_init_streamed | done].
Qed.

Lemma zero_ctx_shape : ctx_shape zero_ctx.
Proof. split; try reflexivity; apply Forall_replicate; unfold in_range; lia. Defined.

Lemma SHA_stream_correct_witness :
  exists ctx', SHA_final (SHA_updates (SHA_init zero_ctx) [[97]; [98; 99]]) = Ret ctx' /\
    take (Z.to_nat SHA_DIGEST_SIZE) (ctx_buf ctx') = sha1 [97; 98; 99].
Proof.
  apply (SHA_stream_correct zero_ctx [[97]; [98; 99]]); [apply zero_ctx_shape |].
  repeat constructor; discriminate.
Defined.

(** C16. SHA-256: the same, with the 32-byte digest. *)
Theorem SHA256_stream_correct ctx0 parts : ctx_shape ctx0 -> Forall bytes_ok parts ->
  exists ctx', SHA256_final (SHA256_updates (SHA256_init ctx0) parts) = Ret ctx' /\
    take (Z.to_nat SHA256_DIGEST_SIZE) (ctx_buf ctx') = sha256 (concat parts).
Proof.
  intros H0 Hp. apply SHA256_final_streamed.
  apply (SHA256_updates_streamed parts [] (SHA256_init ctx0)); [by apply SHA256_init_streamed | done].
Qed.

Lemma SHA256_stream_correct_witness :
  exists ctx', SHA256_final (SHA256_updates (SHA256_init zero_ctx) [[97; 98]; [99]]) = Ret ctx' /\
    take (Z.to_nat SHA256_DIGEST_SIZE) (ctx_buf ctx') = sha256 [97; 98; 99].
Proof.
  apply (SHA256_stream_correct zero_ctx [[97; 98]; [99]]); [apply zero_ctx_shape |].
  repeat constructor; discriminate.
Defined.

(** The round-constant table of sha256.c holds the fractional parts of the
    cube roots of the first 64 primes, and [SHA256_init] loads those of the
    square roots of the first eight. *)
Theorem SHA256_constants ctx :
  Forall2 (root_frac 3) K first_primes /\
  Forall2 (root_frac 2) (ctx_state (SHA256_init ctx)) (take 8 first_primes).
Proof. split; apply root_frac_Forall2; vm_compute; reflexivity. Qed.

(** The digests of "abc" (FIPS 180-2, appendices A.1 and B.1). *)
Example SHA_abc : SHA_hash zero_ctx [97; 98; 99] = Ret
  [0xa9; 0x99; 0x3e; 0x36; 0x47; 0x06; 0x81; 0x6a; 0xba; 0x3e;
   0x25; 0x71; 0x78; 0x50; 0xc2; 0x6c; 0x9c; 0xd0; 0xd8; 0x9d].
Proof. vm_compute. reflexivity. Qed.
