(* ===== verification/Rsa.v ===== *)
(** * RSA signature verification of libmincrypt

    Models src/system/core/libmincrypt/rsa.c: word-array arithmetic modulo the
    key, Montgomery multiplication, the public exponentiation and the PKCS#1
    v1.5 check. Loops keep the code's indices; the arrays are lists of words. *)

From S2P Require Import Prelude.
From S2P Require Import Limbs.
From S2P Require Import Sha.

Definition RSANUMBYTES : Z := 256.
Definition RSANUMWORDS : Z := RSANUMBYTES / 4.

Record RSAPublicKey := mk_RSAPublicKey {
  key_len : Z;
  key_n0inv : Z;
  key_n : list Z;
  key_rr : list Z;
  key_exponent : Z;
}.

(** [a[] -= mod] *)
Definition subM (key : RSAPublicKey) (a : list Z) : list Z :=
  snd (for_ (Z.to_nat (key_len key)) 0 (fun i '(A, a) =>
    let A := i64 (A + u64 (rd a i - rd (key_n key) i)) in
    let a := wr a i (u32 A) in
    (Z.shiftr A 32, a)) (0, a)).

(** [return a[] >= mod]; the loop runs from the top word down. *)
Fixpoint geM_loop (key : RSAPublicKey) (a : list Z) (i : nat) : bool :=
  match i with
  | O => true
  | S i' =>
      if rd a (Z.of_nat i') <? rd (key_n key) (Z.of_nat i') then false
      else if rd (key_n key) (Z.of_nat i') <? rd a (Z.of_nat i') then true
      else geM_loop key a i'
  end.

Definition geM (key : RSAPublicKey) (a : list Z) : bool :=
  geM_loop key a (Z.to_nat (key_len key)).

(** montgomery [c[] += a * b[] / R % mod] *)
Definition montMulAdd (key : RSAPublicKey) (c : list Z) (a : Z) (b : list Z) : list Z :=
  let A := u64 (a * rd b 0 + rd c 0) in
  let d0 := u32 (u32 A * key_n0inv key) in
  let B := u64 (d0 * rd (key_n key) 0 + u32 A) in
  let '(A, B, c) :=
    for_ (Z.to_nat (key_len key - 1)) 1 (fun i '(A, B, c) =>
      let A := u64 (Z.shiftr A 32 + a * rd b i + rd c i) in
      let B := u64 (Z.shiftr B 32 + d0 * rd (key_n key) i + u32 A) in
      (A, B, wr c (i - 1) (u32 B))) (A, B, c) in
  let i := Z.max 1 (key_len key) in
  let A := u64 (Z.shiftr A 32 + Z.shiftr B 32) in
  let c := wr c (i - 1) (u32 A) in
  if negb (Z.shiftr A 32 =? 0) then subM key c else c.

(** montgomery [c[] = a[] * b[] / R % mod] *)
Definition montMul (key : RSAPublicKey) (c a b : list Z) : list Z :=
  let c := for_ (Z.to_nat (key_len key)) 0 (fun i c => wr c i 0) c in
  for_ (Z.to_nat (key_len key)) 0 (fun i c => montMulAdd key c (rd a i) b) c.

(** One big-endian word of the input. *)
Definition get_word (inout : bytes) (k : Z) : Z :=
  Z.lor (Z.lor (Z.lor (u32 (Z.shiftl (rd inout (k + 0)) 24))
                      (u32 (Z.shiftl (rd inout (k + 1)) 16)))
               (u32 (Z.shiftl (rd inout (k + 2)) 8)))
        (Z.shiftl (rd inout (k + 3)) 0).

(** In-place public exponentiation. [junk] is what the uninitialised local
    arrays [a], [aR] and [aaR] hold. *)
Definition modpow (junk : list Z) (key : RSAPublicKey) (inout : bytes) : outcome bytes :=
  let len := key_len key in
  let a := for_ (Z.to_nat len) 0 (fun i a => wr a i (get_word inout ((len - 1 - i) * 4))) junk in
  let aaa :=
    if key_exponent key =? 65537 then
      let aR := montMul key junk a (key_rr key) in
      let '(aR, aaR) := for_ 8 0 (fun _ '(aR, aaR) =>
        let aaR := montMul key aaR aR aR in
        let aR := montMul key aR aaR aaR in
        (aR, aaR)) (aR, junk) in
      Some (montMul key aaR aR a)
    else if key_exponent key =? 3 then
      let aR := montMul key junk a (key_rr key) in
      let aaR := montMul key junk aR aR in
      Some (montMul key aR aaR a)
    else None in
  match aaa with
  | None => Fault NullDeref
  | Some aaa =>
      let aaa := if geM key aaa then subM key aaa else aaa in
      Ret (for_ (Z.to_nat len) 0 (fun k inout => store_word inout k (rd aaa (len - 1 - k))) inout)
  end.

Definition kExpectedPadShaRsa2048 : bytes := [
    0xdc; 0xbd; 0xbe; 0x42; 0xd5; 0xf5; 0xa7; 0x2e;
    0x6e; 0xfc; 0xf5; 0x5d; 0xaf; 0x9d; 0xea; 0x68;
    0x7c; 0xfb; 0xf1; 0x67 ].

Definition kExpectedPadSha256Rsa2048 : bytes := [
    0xab; 0x28; 0x8d; 0x8a; 0xd7; 0xd9; 0x59; 0x92;
    0xba; 0xcc; 0xf8; 0x67; 0x20; 0xe1; 0x15; 0x2e;
    0x39; 0x8d; 0x80; 0x36; 0xd6; 0x6f; 0xf0; 0xfd;
    0x90; 0xe8; 0x7d; 0x8b; 0xe1; 0x7c; 0x87; 0x59 ].

(** [for (i = 0; i < hash_len; ++i) if (buf[i] != padding_hash[i]) return 0;] *)
Fixpoint cmp_loop (buf padding_hash : bytes) (n : nat) (i : Z) : bool :=
  match n with
  | O => true
  | S n' =>
      if negb (rd buf i =? rd padding_hash i) then false
      else cmp_loop buf padding_hash n' (i + 1)
  end.

(** [signature] and [hash] point to [len] and [hash_len] bytes. [SHA_hash(buf,
    len, buf)] writes the digest over the front of [buf]. *)
Definition RSA_verify (junk : list Z) (ctx0 : HASH_CTX) (key : RSAPublicKey)
    (signature : bytes) (len : Z) (hash : bytes) (hash_len : Z) : outcome Z :=
  if negb (key_len key =? RSANUMWORDS) then Ret 0
  else if negb (len =? RSANUMBYTES) then Ret 0
  else if negb (hash_len =? SHA_DIGEST_SIZE) && negb (hash_len =? SHA256_DIGEST_SIZE) then Ret 0
  else if negb (key_exponent key =? 3) && negb (key_exponent key =? 65537) then Ret 0
  else
    let buf := for_ (Z.to_nat len) 0 (fun i buf => buf ++ [rd signature i]) [] in
    buf ← modpow junk key buf;
    let buf := for_ (Z.to_nat hash_len) 0 (fun k buf =>
      let i := len - hash_len + k in
      wr buf i (Z.lxor (rd buf i) (rd hash k))) buf in
    if hash_len =? SHA_DIGEST_SIZE then
      d ← SHA_hash ctx0 buf;
      let buf := d ++ drop (length d) buf in
      Ret (if cmp_loop buf kExpectedPadShaRsa2048 (Z.to_nat hash_len) 0 then 1 else 0)
    else
      d ← SHA256_hash ctx0 buf;
      let buf := d ++ drop (length d) buf in
      Ret (if cmp_loop buf kExpectedPadSha256Rsa2048 (Z.to_nat hash_len) 0 then 1 else 0).
