(* ===== verification/RsaSpec.v ===== *)
(** * Correctness of RSA verification

    [Section Montgomery] proves, for any key whose fields are consistent, that
    the word loops of rsa.c compute differences, comparisons and Montgomery
    products modulo the key; then that [modpow] is exponentiation and that
    [RSA_verify] accepts exactly the blocks the padding digests allow. *)

From S2P Require Import Prelude.
From S2P Require Import Limbs.
From S2P Require Import Cong.
From S2P Require Import Sha.
From S2P Require Import ShaSpec.
From S2P Require Import Rsa.

(** A key's array fields have [len] words, and [n0inv], [rr] are what rsa.h
    says they are: -1/n[0] modulo 2^32 and R^2 modulo n. *)
Record key_ok (key : RSAPublicKey) : Prop := mk_key_ok {
  ko_len : key_len key = Z.of_nat (length (key_n key));
  ko_pos : 0 < key_len key;
  ko_n : words_ok (key_n key);
  ko_rr_len : length (key_rr key) = length (key_n key);
  ko_rr : words_ok (key_rr key);
  ko_n0inv : (key_n0inv key * rd (key_n key) 0) mod 2 ^ 32 = 2 ^ 32 - 1;
  ko_rr_val : dval (key_rr key) ≡[dval (key_n key)] (2 ^ (32 * key_len key)) ^ 2;
}.

Lemma mul_add_range a b c d : in_range 32 a -> in_range 32 b -> in_range 32 c -> in_range 32 d ->
  in_range 64 (c + a * b + d).
Proof. unfold in_range. intros. change (2 ^ 64) with ((2 ^ 32 - 1) * (2 ^ 32 - 1) + 2 * (2 ^ 32 - 1) + 1). nia. Qed.

Lemma shiftr_64_32 A : in_range 64 A -> in_range 32 (Z.shiftr A 32).
Proof. unfold in_range. intros. rewrite Z.shiftr_div_pow2 by lia.
  split; [apply Z.div_pos; lia | apply Z.div_lt_upper_bound; lia]. Qed.

Lemma split_32 A : A = u32 A + W32 * Z.shiftr A 32.
Proof. unfold wrap. rewrite Z.shiftr_div_pow2 by lia. pose proof (Z.div_mod A W32). lia. Qed.

Section Montgomery.
Context (key : RSAPublicKey) (Hkey : key_ok key).

Local Abbreviation len := (key_len key).
Local Abbreviation n := (key_n key).
Local Abbreviation N := (dval (key_n key)).
Local Abbreviation R := (2 ^ (32 * key_len key)).

(** An array of the key's size. *)
Definition num (a : list Z) : Prop := words_ok a /\ length a = length n.

Lemma num_dval a : num a -> pval a len = dval a.
Proof. intros [_ Hl]. apply pval_full. rewrite Hl, (ko_len _ Hkey). lia. Qed.

Lemma num_range a : num a -> 0 <= dval a < R.
Proof.
  intros [Ha Hl]. rewrite (ko_len _ Hkey), <- Hl. by apply dval_range.
Qed.

Lemma n_num : num n.
Proof. split; [apply Hkey | done]. Qed.

Lemma num_rd a i : num a -> in_range 32 (rd a i).
Proof. intros [Ha _]. by apply rd_range. Qed.

Lemma num_wr a i x : num a -> in_range 32 x -> num (wr a i x).
Proof. intros [Ha Hl] Hx. split; [by apply Forall_wr | by rewrite length_wr]. Qed.

Lemma len_nat : Z.of_nat (Z.to_nat len) = len.
Proof. pose proof (ko_pos _ Hkey). lia. Qed.

(** The subtraction loop, with its running borrow. *)
Definition sub_inv (a : list Z) (i : Z) (s : Z * list Z) : Prop :=
  let '(A, a') := s in
  num a' /\ same_from i a' a /\ -1 <= A <= 0 /\
  pval a' i + 2 ^ (32 * i) * A = pval a i - pval n i.

Lemma subM_spec a : num a -> num (subM key a) /\ dval (subM key a) = (dval a - N) mod R.
Proof.
  intros Ha. unfold subM.
  pose proof (for_inv (sub_inv a) (fun i '(A, a) =>
    let A := i64 (A + u64 (rd a i - rd n i)) in
    let a := wr a i (u32 A) in (Z.shiftr A 32, a)) (Z.to_nat len) 0 (0, a)) as Hinv.
  rewrite len_nat, Z.add_0_l in Hinv.
  destruct (for_ _ _ _ _) as [A a'] eqn:E. simpl snd.
  destruct Hinv as (Hnum & _ & HA & Hval).
  - clear E A a'. intros i [A a'] Hi (Hnum & [Hlen Hsame] & HA & Hval). cbv zeta.
    pose proof (num_rd a' i Hnum) as Hx. pose proof (num_rd n i n_num) as Hy.
    pose proof (ko_len _ Hkey) as Hkl. destruct Hnum as [Hok Hl].
    unfold in_range in Hx, Hy.
    assert (Hsum : i64 (A + u64 (rd a' i - rd n i)) = A + (rd a' i - rd n i)).
    { unfold swrap, wrap. rewrite <- Z.add_assoc, (Z.add_comm (_ mod _)), Z.add_assoc.
      rewrite Zplus_mod_idemp_r. rewrite Z.mod_small; lia. }
    rewrite Hsum. set (S := A + (rd a' i - rd n i)).
    assert (HS : - 2 ^ 32 <= S < 2 ^ 32) by (subst S; lia).
    split; [apply num_wr; [done | by apply wrap_range] |].
    split; [apply (same_from_wr i i); [lia | lia | done] |].
    split; [rewrite Z.shiftr_div_pow2 by lia; Z.to_euclidean_division_equations; lia |].
    rewrite pval_wr_succ by lia.
    rewrite (pval_succ a i), (pval_succ n i) by (rewrite ?Hlen in *; lia).
    rewrite <- (Hsame i) by lia.
    replace (32 * (i + 1)) with (32 * i + 32) by lia. rewrite Z.pow_add_r by lia.
    pose proof (split_32 S) as HSs. subst S. nia.
  - split; [done |]. split; [apply same_from_refl |]. split; [lia |]. rewrite !pval_0. lia.
  - split; [done |]. rewrite !num_dval in Hval by (done || apply n_num).
    pose proof (num_range a' Hnum). apply (Z.mod_unique _ _ A); lia.
Qed.

Lemma geM_loop_spec a (i : nat) : num a -> Z.of_nat i <= len ->
  geM_loop key a i = (pval n (Z.of_nat i) <=? pval a (Z.of_nat i)).
Proof.
  intros Ha. induction i as [|i IH]; intros Hi; simpl geM_loop; [done |].
  pose proof (ko_len _ Hkey). destruct Ha as [Hok Hl].
  replace (Z.of_nat (S i)) with (Z.of_nat i + 1) by lia. rewrite !pval_succ by lia.
  pose proof (pval_range a (Z.of_nat i) ltac:(lia) Hok).
  pose proof (pval_range n (Z.of_nat i) ltac:(lia) (ko_n _ Hkey)).
  destruct (rd a (Z.of_nat i) <? rd n (Z.of_nat i)) eqn:E1; zbool;
    [symmetry; apply Z.leb_gt; nia |].
  destruct (rd n (Z.of_nat i) <? rd a (Z.of_nat i)) eqn:E2; zbool;
    [symmetry; apply Z.leb_le; nia |].
  rewrite IH by lia. replace (rd n (Z.of_nat i)) with (rd a (Z.of_nat i)) by lia.
  destruct (Z.leb_spec (pval n (Z.of_nat i)) (pval a (Z.of_nat i))); symmetry;
    [apply Z.leb_le | apply Z.leb_gt]; lia.
Qed.

Lemma geM_spec a : num a -> geM key a = (N <=? dval a).
Proof.
  intros Ha. unfold geM. rewrite geM_loop_spec by (rewrite ?len_nat; done || lia).
  rewrite len_nat, !num_dval by (done || apply n_num). done.
Qed.

Lemma N_odd : N mod 2 = 1.
Proof.
  pose proof (ko_n0inv _ Hkey) as H. pose proof (ko_pos _ Hkey). pose proof (ko_len _ Hkey).
  pose proof (ko_n _ Hkey) as Hok.
  destruct n as [|n0 n'] eqn:En; [simpl in *; lia |]. change (rd (n0 :: n') 0) with n0 in H.
  simpl dval. rewrite <- Zplus_mod_idemp_r, <- Zmult_mod_idemp_l. simpl (W32 mod 2).
  rewrite Z.mul_0_l, Z.mod_0_l, Z.add_0_r by lia.
  apply (f_equal (fun x => x mod 2)) in H.
  rewrite Z.mod_mod_divide in H by (exists (2 ^ 31); reflexivity).
  rewrite <- Zmult_mod_idemp_r in H.
  pose proof (Z.mod_pos_bound n0 2 ltac:(lia)).
  destruct (decide (n0 mod 2 = 0)) as [E | E]; [| lia].
  rewrite E, Z.mul_0_r in H. discriminate H.
Qed.

Lemma N_pos : 0 < N.
Proof. pose proof N_odd. pose proof (num_range n n_num). Z.to_euclidean_division_equations. lia. Qed.

Lemma R_coprime : Z.coprime N R.
Proof. apply odd_coprime_pow2; [pose proof (ko_pos _ Hkey); lia | apply N_odd]. Qed.

(** The accumulation loop: the word products of [a * b] and [d0 * n] are
    summed in the two carries, and the low word, which [d0] makes zero, is
    shifted out. *)
Definition mma_inv (c b : list Z) (a d0 : Z) (i : Z) (s : Z * Z * list Z) : Prop :=
  let '(A, B, c') := s in
  num c' /\ same_from (i - 1) c' c /\ in_range 64 A /\ in_range 64 B /\
  W32 * pval c' (i - 1) + 2 ^ (32 * i) * (Z.shiftr A 32 + Z.shiftr B 32)
    = pval c i + a * pval b i + d0 * pval n i.

Lemma mma_step c b a d0 i s : num c -> num b -> in_range 32 a -> in_range 32 d0 ->
  1 <= i < len -> mma_inv c b a d0 i s ->
  mma_inv c b a d0 (i + 1) (let '(A, B, c) := s in
    let A := u64 (Z.shiftr A 32 + a * rd b i + rd c i) in
    let B := u64 (Z.shiftr B 32 + d0 * rd n i + u32 A) in
    (A, B, wr c (i - 1) (u32 B))).
Proof.
  destruct s as [[A B] c']. intros Hc Hb Ha Hd Hi (Hnum & [Hlen Hsame] & HA & HB & Hval).
  cbv zeta. pose proof (ko_len _ Hkey) as Hkl.
  pose proof (num_rd c' i Hnum) as Hci. pose proof (num_rd b i Hb) as Hbi.
  pose proof (num_rd n i n_num) as Hni.
  pose proof (shiftr_64_32 _ HA) as HA32. pose proof (shiftr_64_32 _ HB) as HB32.
  rewrite (wrap_small 64 (Z.shiftr A 32 + _ + _)) by (by apply mul_add_range).
  set (A' := Z.shiftr A 32 + a * rd b i + rd c' i).
  pose proof (wrap_range 32 A' ltac:(lia)) as HA'.
  rewrite (wrap_small 64 (Z.shiftr B 32 + _ + _)) by (by apply mul_add_range).
  set (B' := Z.shiftr B 32 + d0 * rd n i + u32 A').
  unfold mma_inv. replace (i + 1 - 1) with (i - 1 + 1) by lia.
  split; [apply num_wr; [done | by apply wrap_range] |].
  split; [apply (same_from_wr (i - 1) (i - 1)); [lia | lia | done] |].
  split; [by apply mul_add_range |]. split; [by apply mul_add_range |].
  destruct Hnum as [_ Hl']. destruct Hb as [_ Hlb]. destruct Hc as [_ Hlc].
  rewrite (pval_wr_succ c' (i - 1)) by lia.
  rewrite (pval_succ c i), (pval_succ b i), (pval_succ n i) by lia.
  rewrite <- (Hsame i) by lia.
  pose proof (split_32 A') as HsA. pose proof (split_32 B') as HsB.
  replace (32 * (i + 1)) with (32 * i + 32) by lia.
  assert (Hpow : 2 ^ (32 * i) = W32 * 2 ^ (32 * (i - 1)))
    by (rewrite <- Z.pow_add_r by lia; f_equal; lia).
  rewrite Z.pow_add_r by lia. rewrite Hpow in *. set (P := 2 ^ (32 * (i - 1))) in *.
  assert (HB'' : B' + W32 * Z.shiftr A' 32 =
    Z.shiftr B 32 + d0 * rd n i + Z.shiftr A 32 + a * rd b i + rd c' i) by (subst B' A'; lia).
  clearbody A' B'. clear - Hval HsB HB''. set (w := 2 ^ 32) in *. clearbody w. nia.
Qed.

(** The multiplier [d0] clears the low word. *)
Lemma d0_clears x : let d0 := u32 (u32 x * key_n0inv key) in
  (d0 * rd n 0 + u32 x) mod W32 = 0.
Proof.
  cbv zeta. unfold wrap. rewrite <- Zplus_mod_idemp_l, Zmult_mod_idemp_l, <- Z.mul_assoc.
  rewrite <- Zmult_mod_idemp_r, (ko_n0inv _ Hkey), Zplus_mod_idemp_l.
  replace (x mod W32 * (W32 - 1) + x mod W32) with (x mod W32 * W32) by lia.
  by apply Z.mod_mul.
Qed.

Lemma mma_base c b a : num c -> num b -> in_range 32 a ->
  let A := u64 (a * rd b 0 + rd c 0) in
  let d0 := u32 (u32 A * key_n0inv key) in
  let B := u64 (d0 * rd n 0 + u32 A) in
  in_range 32 d0 /\ mma_inv c b a d0 1 (A, B, c).
Proof.
  intros Hc Hb Ha. cbv zeta. pose proof (ko_len _ Hkey) as Hkl. pose proof (ko_pos _ Hkey) as Hpos.
  pose proof (num_rd c 0 Hc) as Hc0. pose proof (num_rd b 0 Hb) as Hb0.
  pose proof (num_rd n 0 n_num) as Hn0.
  assert (H0 : in_range 32 0) by (unfold in_range; lia).
  pose proof (mul_add_range a _ 0 _ Ha Hb0 H0 Hc0) as HA. rewrite Z.add_0_l in HA.
  rewrite (wrap_small 64 (a * _ + _)) by done. set (A := a * rd b 0 + rd c 0) in *.
  pose proof (wrap_range 32 A ltac:(lia)) as HA32.
  pose proof (d0_clears A) as Hz. cbv zeta in Hz.
  pose proof (wrap_range 32 (u32 A * key_n0inv key) ltac:(lia)) as Hd.
  set (d0 := u32 (u32 A * key_n0inv key)) in *.
  pose proof (mul_add_range d0 _ 0 _ Hd Hn0 H0 HA32) as HB. rewrite Z.add_0_l in HB.
  rewrite wrap_small by done. set (B := d0 * rd n 0 + u32 A) in *.
  split; [done |]. split; [done |]. split; [apply same_from_refl |]. split; [done |]. split; [done |].
  destruct Hc as [_ Hlc]. destruct Hb as [_ Hlb].
  simpl (1 - 1). rewrite pval_0, !pval_1 by lia.
  pose proof (split_32 A) as HsA. pose proof (split_32 B) as HsB.
  replace (u32 B) with 0 in HsB by done. change (2 ^ (32 * 1)) with W32.
  subst A B. lia.
Qed.

Lemma montMulAdd_spec c a b : num c -> num b -> in_range 32 a ->
  num (montMulAdd key c a b) /\ dval (montMulAdd key c a b) * W32 ≡[N] dval c + a * dval b.
Proof.
  intros Hc Hb Ha. unfold montMulAdd. destruct (mma_base c b a Hc Hb Ha) as [Hd Hbase].
  set (A := u64 (a * rd b 0 + rd c 0)) in *.
  set (d0 := u32 (u32 A * key_n0inv key)) in *.
  set (B := u64 (d0 * rd n 0 + u32 A)) in *.
  pose proof (ko_len _ Hkey) as Hkl. pose proof (ko_pos _ Hkey) as Hpos.
  pose proof (for_inv (mma_inv c b a d0) (fun i '(A, B, c) =>
    let A := u64 (Z.shiftr A 32 + a * rd b i + rd c i) in
    let B := u64 (Z.shiftr B 32 + d0 * rd n i + u32 A) in
    (A, B, wr c (i - 1) (u32 B))) (Z.to_nat (len - 1)) 1 (A, B, c)) as Hinv.
  replace (1 + Z.of_nat (Z.to_nat (len - 1))) with len in Hinv by lia.
  specialize (Hinv ltac:(intros j [[A1 B1] c1] Hj; apply (mma_step c b a d0 j (A1, B1, c1)); (done || lia)) Hbase).
  destruct (for_ _ _ _ _) as [[A1 B1] c1]. clear Hbase. clearbody A d0 B.
  destruct Hinv as (Hnum & _ & HA & HB & Hval). rewrite !num_dval in Hval by (done || apply n_num).
  pose proof (shiftr_64_32 _ HA) as HA32. pose proof (shiftr_64_32 _ HB) as HB32.
  rewrite (wrap_small 64) by (unfold in_range in *; lia).
  set (T := Z.shiftr A1 32 + Z.shiftr B1 32) in *.
  assert (HT : 0 <= Z.shiftr T 32 <= 1).
  { unfold in_range in *. rewrite Z.shiftr_div_pow2 by lia. subst T. Z.to_euclidean_division_equations. lia. }
  replace (Z.max 1 len - 1) with (len - 1) by lia.
  assert (Hnum' : num (wr c1 (len - 1) (u32 T))) by (apply num_wr; [done | by apply wrap_range]).
  assert (Hval' : W32 * (dval (wr c1 (len - 1) (u32 T)) + R * Z.shiftr T 32)
                  = dval c + a * dval b + d0 * N).
  { rewrite <- (num_dval _ Hnum'). destruct Hnum as [_ Hl1].
    pose proof (pval_wr_succ c1 (len - 1) (u32 T) ltac:(lia)) as Hp.
    replace (len - 1 + 1) with len in Hp by lia. rewrite Hp, <- Hval.
    assert (HR : R = W32 * 2 ^ (32 * (len - 1))) by (rewrite <- Z.pow_add_r by lia; f_equal; lia).
    pose proof (split_32 T) as HsT. clearbody T. rewrite HR. clear - HsT.
    set (w := 2 ^ 32) in *. clearbody w. nia. }
  set (c2 := wr c1 (len - 1) (u32 T)) in *. clearbody c2.
  pose proof (num_range c Hc) as Hrc. pose proof (num_range b Hb) as Hrb.
  destruct (Z.eqb_spec (Z.shiftr T 32) 0) as [E | E]; simpl negb; cbv iota.
  - split; [done |]. rewrite E in Hval'. apply (cong_mult _ _ _ d0). lia.
  - assert (E1 : Z.shiftr T 32 = 1) by lia. rewrite E1 in Hval'.
    destruct (subM_spec c2 Hnum') as [Hs Hsv]. split; [done |]. rewrite Hsv.
    pose proof (num_range c2 Hnum') as Hr2. pose proof N_pos. pose proof (num_range n n_num) as HrN.
    assert (Hlt : dval c2 < N).
    { unfold in_range in Ha, Hd. clear - Hval' Hrc Hrb Ha Hd HrN Hr2. nia. }
    rewrite <- (Z.mod_unique _ _ (-1) (dval c2 + R - N)) by lia.
    apply (cong_mult _ _ _ (d0 - W32)). lia.
Qed.

Lemma zero_loop c : length c = length n ->
  num (for_ (Z.to_nat len) 0 (fun i c => wr c i 0) c) /\
  dval (for_ (Z.to_nat len) 0 (fun i c => wr c i 0) c) = 0.
Proof.
  intros Hl. pose proof (ko_len _ Hkey) as Hkl.
  pose proof (for_inv (fun i c => length c = length n /\ take (Z.to_nat i) c = replicate (Z.to_nat i) 0)
    (fun i c => wr c i 0) (Z.to_nat len) 0 c) as Hinv.
  destruct Hinv as [H1 H2].
  - intros j c' Hj [Hlc Ht]. split; [by rewrite length_wr |]. unfold wr.
    replace (Z.to_nat (j + 1)) with (S (Z.to_nat j)) by lia.
    rewrite take_insert_snoc by lia. by rewrite Ht, <- replicate_cons_app, replicate_S.
  - done.
  - set (c' := for_ _ _ _ _) in *. rewrite take_ge in H2 by (rewrite H1; lia).
    split; [split; [| done] |]; rewrite H2.
    + apply Forall_replicate. unfold in_range. lia.
    + apply dval_replicate_0.
Qed.

Lemma montMul_spec c a b : length c = length n -> num a -> num b ->
  num (montMul key c a b) /\ dval (montMul key c a b) * R ≡[N] dval a * dval b.
Proof.
  intros Hlc Ha Hb. unfold montMul. destruct (zero_loop c Hlc) as [Hz Hz0].
  set (c0 := for_ (Z.to_nat len) 0 (fun i c => wr c i 0) c) in *. clearbody c0.
  pose proof (ko_len _ Hkey) as Hkl.
  pose proof (for_inv (fun i c => num c /\ dval c * 2 ^ (32 * i) ≡[N] pval a i * dval b)
    (fun i c => montMulAdd key c (rd a i) b) (Z.to_nat len) 0 c0) as Hinv.
  rewrite len_nat, Z.add_0_l in Hinv. rewrite <- (num_dval a Ha). apply Hinv; clear Hinv.
  - intros j c' Hj [Hc' Hv].
    destruct (montMulAdd_spec c' (rd a j) b Hc' Hb (num_rd a j Ha)) as [Hn' Hv'].
    split; [done |]. destruct Ha as [_ Hla]. rewrite pval_succ by lia.
    replace (32 * (j + 1)) with (32 + 32 * j) by lia. rewrite Z.pow_add_r by lia.
    rewrite Z.mul_assoc, Hv', Z.mul_add_distr_r, Hv. apply cong_eq. ring.
  - split; [done |]. rewrite Hz0, pval_0. reflexivity.
Qed.

(** Multiplying two values in Montgomery form, [x * R] and [y * R]. *)
Lemma montMul_mont c a b x y : length c = length n -> num a -> num b ->
  dval a ≡[N] x * R -> dval b ≡[N] y * R ->
  num (montMul key c a b) /\ dval (montMul key c a b) ≡[N] x * y * R.
Proof.
  intros Hc Ha Hb Hx Hy. destruct (montMul_spec c a b Hc Ha Hb) as [Hn Hv]. split; [done |].
  apply (cong_cancel_r N R); [apply R_coprime |]. rewrite Hv, Hx, Hy. apply cong_eq. ring.
Qed.

Lemma rr_num : num (key_rr key).
Proof. split; apply Hkey. Qed.

(** Into Montgomery form, and out of it by a plain factor. *)
Lemma montMul_enter c a : length c = length n -> num a ->
  num (montMul key c a (key_rr key)) /\
  dval (montMul key c a (key_rr key)) ≡[N] dval a * R.
Proof.
  intros Hc Ha. destruct (montMul_spec c a (key_rr key) Hc Ha rr_num) as [Hn Hv]. split; [done |].
  apply (cong_cancel_r N R); [apply R_coprime |]. rewrite Hv, (ko_rr_val _ Hkey). apply cong_eq. ring.
Qed.

Lemma montMul_leave c a b x : length c = length n -> num a -> num b -> dval a ≡[N] x * R ->
  num (montMul key c a b) /\ dval (montMul key c a b) ≡[N] x * dval b.
Proof.
  intros Hc Ha Hb Hx. destruct (montMul_spec c a b Hc Ha Hb) as [Hn Hv]. split; [done |].
  apply (cong_cancel_r N R); [apply R_coprime |]. rewrite Hv, Hx. apply cong_eq. ring.
Qed.

Lemma mont_length c a b : length c = length n -> num a -> num b ->
  length (montMul key c a b) = length n.
Proof. intros. by apply montMul_spec. Qed.

(** Sixteen squarings, two at a time. *)
Lemma square_loop aR aaR x k : length aaR = length n -> num aR -> dval aR ≡[N] x * R ->
  let '(aR', aaR') := for_ k 0 (fun _ '(aR, aaR) =>
      let aaR := montMul key aaR aR aR in
      let aR := montMul key aR aaR aaR in (aR, aaR)) (aR, aaR) in
  length aaR' = length n /\ num aR' /\ dval aR' ≡[N] x ^ (4 ^ Z.of_nat k) * R.
Proof.
  intros Hl Ha Hx.
  pose proof (for_inv (fun i '(aR', aaR') =>
      length aaR' = length n /\ num aR' /\ dval aR' ≡[N] x ^ (4 ^ i) * R)
    (fun _ '(aR, aaR) =>
      let aaR := montMul key aaR aR aR in
      let aR := montMul key aR aaR aaR in (aR, aaR)) k 0 (aR, aaR)) as Hinv.
  rewrite Z.add_0_l in Hinv. apply Hinv; clear Hinv.
  - intros j [b c] Hj (Hlc & Hb & Hv). cbv zeta.
    destruct (montMul_mont c b b _ _ Hlc Hb Hb Hv Hv) as [Hn1 Hv1].
    destruct (montMul_mont b (montMul key c b b) (montMul key c b b) _ _ (proj2 Hb) Hn1 Hn1 Hv1 Hv1)
      as [Hn2 Hv2].
    split; [apply Hn1 |]. split; [done |]. rewrite Hv2. apply cong_eq. f_equal.
    replace (4 ^ (j + 1)) with (4 ^ j * 4) by (rewrite Z.pow_add_r by lia; lia).
    rewrite Z.pow_mul_r by lia. ring.
  - split; [done |]. split; [done |]. change (4 ^ 0) with 1. by rewrite Z.pow_1_r.
Qed.

Lemma get_word_value io k : bytes_ok io ->
  get_word io k = be_decode [rd io k; rd io (k + 1); rd io (k + 2); rd io (k + 3)].
Proof.
  intros Hio. unfold get_word. rewrite Z.add_0_r, Z.shiftl_0_r.
  apply or4_value; by apply rd_range.
Qed.

Lemma load_loop junk io : num junk -> bytes_ok io -> Z.of_nat (length io) = 4 * len ->
  let a := for_ (Z.to_nat len) 0 (fun i a => wr a i (get_word io ((len - 1 - i) * 4))) junk in
  num a /\ dval a = be_decode io.
Proof.
  intros Hj Hio Hl. cbv zeta. pose proof (ko_len _ Hkey) as Hkl.
  pose proof (for_inv (fun i a => num a /\ pval a i = be_decode (drop (Z.to_nat (4 * (len - i))) io))
    (fun i a => wr a i (get_word io ((len - 1 - i) * 4))) (Z.to_nat len) 0 junk) as Hinv.
  rewrite len_nat, Z.add_0_l in Hinv.
  destruct Hinv as [Hn Hv].
  - intros i a Hi [Ha Hv]. destruct Ha as [Hok Hla].
    set (k := (len - 1 - i) * 4). rewrite get_word_value by done.
    assert (Hr : bytes_ok [rd io k; rd io (k + 1); rd io (k + 2); rd io (k + 3)])
      by (repeat apply Forall_cons_2; try apply Forall_nil_2; by apply rd_range).
    split; [apply num_wr; [done | exact (be_decode_range _ Hr)] |].
    rewrite pval_wr_succ, Hv by lia.
    replace (4 * (len - (i + 1))) with k by (subst k; lia).
    rewrite (drop_4_rd io k), be_decode_app, length_drop by (subst k; lia).
    replace (4 * (len - i)) with (k + 4) by (subst k; lia).
    replace (8 * Z.of_nat (length io - Z.to_nat (k + 4))) with (32 * i) by (subst k; lia). ring.
  - split; [done |]. rewrite pval_0, drop_ge by lia. reflexivity.
  - split; [done |]. by rewrite <- num_dval, Hv, Z.sub_diag.
Qed.

Lemma store_loop aaa io : num aaa -> bytes_ok io -> Z.of_nat (length io) = 4 * len ->
  let out := for_ (Z.to_nat len) 0 (fun k io => store_word io k (rd aaa (len - 1 - k))) io in
  length out = length io /\ bytes_ok out /\ be_decode out = dval aaa.
Proof.
  intros Ha Hio Hl. cbv zeta. pose proof (ko_len _ Hkey) as Hkl. destruct Ha as [Hok Hla].
  pose proof (for_inv (fun k io' => length io' = length io /\ bytes_ok io' /\
      be_decode (take (4 * Z.to_nat k) io') = dval (drop (Z.to_nat (len - k)) aaa))
    (fun k io => store_word io k (rd aaa (len - 1 - k))) (Z.to_nat len) 0 io) as Hinv.
  rewrite len_nat, Z.add_0_l in Hinv.
  destruct Hinv as (H1 & H2 & H3).
  - intros k io' Hk (Hl' & Hok' & Hv). split; [by rewrite store_word_length |].
    split; [by apply store_word_ok |].
    replace (Z.to_nat (k + 1)) with (S (Z.to_nat k)) by lia.
    pose proof (store_word_take io' (Z.to_nat k) (rd aaa (len - 1 - k)) ltac:(lia)) as Ht.
    rewrite Z2Nat.id in Ht by lia.
    rewrite Ht, be_decode_app, Hv, be_bytes_decode by (by apply rd_range).
    replace (len - (k + 1)) with (len - 1 - k) by lia.
    rewrite (dval_drop_step aaa (len - 1 - k)) by lia. replace (len - 1 - k + 1) with (len - k) by lia.
    change (8 * Z.of_nat (length (be_bytes _))) with 32. lia.
  - split; [done |]. split; [done |]. rewrite Z.sub_0_r, drop_ge by lia. reflexivity.
  - split; [done |]. split; [done |]. rewrite take_ge in H3 by lia. by rewrite H3, Z.sub_diag.
Qed.

Lemma modpow_spec junk io :
  num junk -> bytes_ok io -> Z.of_nat (length io) = 4 * len -> R <= 2 * N ->
  key_exponent key = 3 \/ key_exponent key = 65537 ->
  exists out, modpow junk key io = Ret out /\ length out = length io /\ bytes_ok out /\
    be_decode out = be_decode io ^ key_exponent key mod N.
Proof.
  intros Hj Hio Hl HRN He. unfold modpow.
  destruct (load_loop junk io Hj Hio Hl) as [Ha Hav].
  set (a := for_ (Z.to_nat len) 0 _ junk) in *. clearbody a.
  destruct (montMul_enter junk a (proj2 Hj) Ha) as [HaR HaRv].
  set (aR := montMul key junk a (key_rr key)) in *. clearbody aR.
  assert (Hfin : forall aaa, num aaa -> dval aaa ≡[N] dval a ^ key_exponent key ->
    exists out, (Ret (for_ (Z.to_nat len) 0 (fun k inout => store_word inout k
        (rd (if geM key aaa then subM key aaa else aaa) (len - 1 - k))) io) : outcome bytes) = Ret out /\
      length out = length io /\ bytes_ok out /\
      be_decode out = be_decode io ^ key_exponent key mod N).
  { intros aaa Hn Hc. eexists. split; [reflexivity |].
    assert (Hr : num (if geM key aaa then subM key aaa else aaa) /\
      dval (if geM key aaa then subM key aaa else aaa) = dval a ^ key_exponent key mod N).
    { rewrite geM_spec by done. pose proof (num_range aaa Hn) as Hra. pose proof N_pos as HN.
      destruct (Z.leb_spec N (dval aaa)).
      - destruct (subM_spec aaa Hn) as [Hs ->]. split; [done |].
        rewrite (Z.mod_small _ R) by lia. apply cong_small; [| lia].
        rewrite <- Hc. apply (cong_mult _ _ _ (-1)). lia.
      - split; [done |]. apply cong_small; [done | lia]. }
    destruct (store_loop _ io (proj1 Hr) Hio Hl) as (H1 & H2 & H3).
    split; [done |]. split; [done |]. by rewrite H3, (proj2 Hr), Hav. }
  destruct He as [He | He].
  - rewrite He in *. simpl (3 =? 65537). simpl (3 =? 3). cbv iota zeta.
    destruct (montMul_mont junk aR aR _ _ (proj2 Hj) HaR HaR HaRv HaRv) as [Hn2 Hv2].
    destruct (montMul_leave aR _ a _ (proj2 HaR) Hn2 Ha Hv2) as [Hn3 Hv3].
    apply Hfin; [done |]. rewrite Hv3. apply cong_eq. ring.
  - rewrite He in *. simpl (65537 =? 65537). cbv iota zeta.
    pose proof (square_loop aR junk (dval a) 8 (proj2 Hj) HaR HaRv) as Hsq.
    destruct (for_ 8 0 _ (aR, junk)) as [aR' aaR']. destruct Hsq as (Hl2 & Hn2 & Hv2).
    destruct (montMul_leave aaR' aR' a _ Hl2 Hn2 Ha Hv2) as [Hn3 Hv3].
    apply Hfin; [done |]. rewrite Hv3. apply cong_eq.
    change (4 ^ Z.of_nat 8) with 65536. replace 65537 with (65536 + 1) by lia.
    by rewrite Z.pow_add_r, Z.pow_1_r by lia.
Qed.
End Montgomery.

(** ** The signature check around the exponentiation *)

Lemma copy_loop (l : bytes) n : (n <= length l)%nat ->
  for_ n 0 (fun i buf => buf ++ [rd l i]) [] = take n l.
Proof.
  induction n as [|n IH]; intros Hn; [done |].
  replace (S n) with (n + 1)%nat by lia. rewrite for_app, IH by lia. cbn [for_].
  rewrite Z.add_0_l. destruct (lookup_lt_is_Some_2 l n ltac:(lia)) as [x Hx].
  replace (n + 1)%nat with (S n) by lia. rewrite (take_S_r _ _ _ Hx). do 2 f_equal.
  apply rd_lookup. by rewrite Nat2Z.id.
Qed.

Lemma zip_with_take_S {A B C} (f : A -> B -> C) l k n x y :
  l !! n = Some x -> k !! n = Some y ->
  zip_with f (take (S n) l) (take (S n) k) = zip_with f (take n l) (take n k) ++ [f x y].
Proof.
  intros Hx Hy. rewrite (take_S_r _ _ _ Hx), (take_S_r _ _ _ Hy).
  rewrite zip_with_app; [done |].
  apply lookup_lt_Some in Hx, Hy. rewrite !length_take. lia.
Qed.

(** The block with its last [length hash] bytes xor-ed with the hash. *)
Definition xor_tail (em hash : bytes) : bytes :=
  let m := (length em - length hash)%nat in
  take m em ++ zip_with Z.lxor (drop m em) hash.

Lemma xor_loop em hash len hl : length em = Z.to_nat len -> length hash = Z.to_nat hl ->
  0 <= hl <= len ->
  for_ (Z.to_nat hl) 0 (fun k buf =>
    wr buf (len - hl + k) (Z.lxor (rd buf (len - hl + k)) (rd hash k))) em = xor_tail em hash.
Proof.
  intros He Hh Hr. unfold xor_tail. set (m := (length em - length hash)%nat).
  set (base := take m em). set (tail := drop m em).
  assert (Hbl : length base = m) by (subst base; rewrite length_take; lia).
  assert (Htl : length tail = length hash) by (subst tail; rewrite length_drop; lia).
  pose proof (for_inv (fun k buf => buf = base ++
      zip_with Z.lxor (take (Z.to_nat k) tail) (take (Z.to_nat k) hash) ++ drop (Z.to_nat k) tail)
    (fun k buf => wr buf (len - hl + k) (Z.lxor (rd buf (len - hl + k)) (rd hash k)))
    (Z.to_nat hl) 0 em) as Hinv.
  rewrite Hinv.
  - rewrite Z.add_0_l, !Z2Nat.id by lia. rewrite !take_ge, drop_ge by lia. by rewrite app_nil_r.
  - intros k buf Hk ->.
    destruct (lookup_lt_is_Some_2 tail (Z.to_nat k) ltac:(lia)) as [x Hx].
    destruct (lookup_lt_is_Some_2 hash (Z.to_nat k) ltac:(lia)) as [y Hy].
    replace (Z.to_nat (k + 1)) with (S (Z.to_nat k)) by lia.
    rewrite (zip_with_take_S _ _ _ _ _ _ Hx Hy), (drop_S _ _ _ Hx).
    set (z := zip_with _ _ _).
    assert (Hz : length z = Z.to_nat k) by (subst z; rewrite length_zip_with, !length_take; lia).
    assert (Hi : Z.to_nat (len - hl + k) = (length (base ++ z) + 0)%nat)
      by (rewrite length_app; lia).
    rewrite app_assoc. rewrite (rd_lookup hash k y Hy).
    rewrite (rd_lookup _ _ x) by (by rewrite Hi, lookup_app_r, Nat.add_sub_swap, Nat.sub_diag by lia).
    unfold wr. rewrite Hi, insert_app_r. simpl. by rewrite <- !app_assoc.
  - change (Z.to_nat 0) with 0%nat. rewrite !take_0, drop_0. symmetry. apply take_drop.
Qed.

Lemma cmp_loop_spec buf pad n : forall i, (i + n <= length buf)%nat -> (i + n <= length pad)%nat ->
  cmp_loop buf pad n (Z.of_nat i) = bool_decide (take n (drop i buf) = take n (drop i pad)).
Proof.
  induction n as [|n IH]; intros i Hb Hp; simpl cmp_loop; [done |].
  destruct (lookup_lt_is_Some_2 buf i ltac:(lia)) as [x Hx].
  destruct (lookup_lt_is_Some_2 pad i ltac:(lia)) as [y Hy].
  rewrite (drop_S _ _ _ Hx), (drop_S _ _ _ Hy), !(rd_lookup _ (Z.of_nat i)) with (x := x)
    by (by rewrite Nat2Z.id).
  rewrite (rd_lookup pad (Z.of_nat i) y) by (by rewrite Nat2Z.id). simpl take.
  destruct (Z.eqb_spec x y) as [-> | Hne]; simpl negb; cbv iota.
  - replace (Z.of_nat i + 1) with (Z.of_nat (S i)) by lia. rewrite IH by lia.
    apply bool_decide_ext. split; [by intros -> | by intros [=]].
  - symmetry. apply bool_decide_eq_false. by intros [=].
Qed.

(** PKCS#1 v1.5 blocks of rsa.c, less the hash bytes. *)
Definition sha_prefix : bytes :=
  [0x00; 0x01] ++ replicate 218 0xff ++
  [0x00; 0x30; 0x21; 0x30; 0x09; 0x06; 0x05; 0x2b; 0x0e; 0x03; 0x02; 0x1a; 0x05; 0x00; 0x04; 0x14].
Definition sha256_prefix : bytes :=
  [0x00; 0x01] ++ replicate 202 0xff ++
  [0x00; 0x30; 0x31; 0x30; 0x0d; 0x06; 0x09; 0x60; 0x86; 0x48; 0x01; 0x65;
   0x03; 0x04; 0x02; 0x01; 0x05; 0x00; 0x04; 0x20].

Definition prefix_of (hash_len : Z) : bytes :=
  if hash_len =? SHA_DIGEST_SIZE then sha_prefix else sha256_prefix.
Definition digest_of (hash_len : Z) : bytes -> bytes :=
  if hash_len =? SHA_DIGEST_SIZE then sha1 else sha256.

(** The block a signature opens to: [signature ^ e mod n] as 256 bytes. *)
Definition opened (key : RSAPublicKey) (signature : bytes) : bytes :=
  be_encode 256 (be_decode signature ^ key_exponent key mod dval (key_n key)).

(** What rsa.c compares the digest of the xor-ed block with is the digest of
    the padding followed by zeros. *)
Lemma expected_pads :
  sha1 (sha_prefix ++ replicate 20 0) = kExpectedPadShaRsa2048 /\
  sha256 (sha256_prefix ++ replicate 32 0) = kExpectedPadSha256Rsa2048.
Proof. split; vm_compute; reflexivity. Qed.

Lemma zip_lxor_zero l h : length l = length h ->
  zip_with Z.lxor l h = replicate (length h) 0 <-> l = h.
Proof.
  revert h. induction l as [|x l IH]; intros [|y h] Hl; simpl in *; try discriminate; [done |].
  split; intros E.
  - injection E as E1 E2. apply Z.lxor_eq in E1. subst y. f_equal. apply IH; [lia | done].
  - injection E as -> E2. rewrite Z.lxor_nilpotent. f_equal. apply IH; [lia | done].
Qed.

Lemma xor_tail_zero em prefix hash : length em = (length prefix + length hash)%nat ->
  xor_tail em hash = prefix ++ replicate (length hash) 0 <-> em = prefix ++ hash.
Proof.
  intros Hl. unfold xor_tail. rewrite Hl, Nat.add_sub.
  assert (H1 : length (take (length prefix) em) = length prefix) by (rewrite length_take; lia).
  assert (H2 : length (drop (length prefix) em) = length hash) by (rewrite length_drop; lia).
  split; intros E.
  - apply (app_inj_1 _ _ _ _ H1) in E as [E1 E2]. apply (zip_lxor_zero _ _ H2) in E2.
    by rewrite <- (take_drop (length prefix) em), E1, E2.
  - assert (E1 : take (length prefix) em = prefix) by (rewrite E; by rewrite take_app_length).
    assert (E2 : drop (length prefix) em = hash) by (rewrite E; by rewrite drop_app_length).
    rewrite E1, E2. f_equal. by apply zip_lxor_zero.
Qed.

Lemma xor_tail_ok em hash : bytes_ok em -> bytes_ok hash -> bytes_ok (xor_tail em hash).
Proof.
  intros He Hh. unfold xor_tail. apply bytes_ok_app. split; [by apply Forall_take |].
  apply (Forall_drop _ (length em - length hash)) in He. revert He.
  generalize (drop (length em - length hash) em) as l. induction Hh as [|y h Hy Hh IH];
    intros [|x l] Hl; simpl; try apply Forall_nil_2.
  apply Forall_cons in Hl as [Hx Hl]. apply Forall_cons_2; [by apply lxor_in_range | by apply IH].
Qed.

Lemma xor_tail_length em hash : (length hash <= length em)%nat ->
  length (xor_tail em hash) = length em.
Proof.
  intros. unfold xor_tail. rewrite length_app, length_take, length_zip_with, length_drop. lia.
Qed.

(** Everything a call to [RSA_verify] that gets past its guards relies on. *)
Record call_ok (junk : list Z) (ctx0 : HASH_CTX) (key : RSAPublicKey)
    (signature hash : bytes) (hash_len : Z) : Prop := mk_call_ok {
  co_key : key_ok key;
  co_len : key_len key = RSANUMWORDS;
  co_top : 2 ^ 2047 <= dval (key_n key);
  co_exp : key_exponent key = 3 \/ key_exponent key = 65537;
  co_junk : words_ok junk;
  co_junk_len : length junk = 64%nat;
  co_ctx : ctx_shape ctx0;
  co_sig : bytes_ok signature;
  co_sig_len : length signature = 256%nat;
  co_hash : bytes_ok hash;
  co_hash_len : hash_len = SHA_DIGEST_SIZE \/ hash_len = SHA256_DIGEST_SIZE;
  co_hash_bytes : length hash = Z.to_nat hash_len;
}.

Lemma RSA_verify_run junk ctx0 key signature hash hl :
  call_ok junk ctx0 key signature hash hl ->
  RSA_verify junk ctx0 key signature RSANUMBYTES hash hl =
  Ret (if bool_decide (digest_of hl (xor_tail (opened key signature) hash) =
         digest_of hl (prefix_of hl ++ replicate (Z.to_nat hl) 0)) then 1 else 0).
Proof.
  intros [Hk Hlen Htop Hexp Hj Hjl Hctx Hs Hsl Hh Hhl Hhb]. unfold RSA_verify.
  assert (Hwords : length (key_n key) = 64%nat).
  { pose proof (ko_len _ Hk) as H. rewrite Hlen in H. change RSANUMWORDS with 64 in H. lia. }
  rewrite Hlen, !Z.eqb_refl. simpl negb. cbv iota.
  replace (negb (hl =? SHA_DIGEST_SIZE) && negb (hl =? SHA256_DIGEST_SIZE)) with false
    by (destruct Hhl as [-> | ->]; reflexivity).
  replace (negb (key_exponent key =? 3) && negb (key_exponent key =? 65537)) with false
    by (destruct Hexp as [-> | ->]; reflexivity).
  rewrite copy_loop, take_ge by (rewrite Hsl; reflexivity).
  destruct (modpow_spec key Hk junk signature) as (em & Hrun & Hel & Heok & Hev); try done.
  { split; [done | by rewrite Hwords]. }
  { rewrite Hsl, Hlen. reflexivity. }
  { rewrite Hlen. change (2 ^ (32 * RSANUMWORDS)) with (2 * 2 ^ 2047). lia. }
  rewrite Hrun, bind_ret. rewrite Hsl in Hel.
  assert (Hem : em = opened key signature).
  { unfold opened. rewrite <- Hev, <- Hel. symmetry. by apply be_encode_decode. }
  rewrite <- Hem. rewrite (xor_loop em hash RSANUMBYTES hl);
    [| by rewrite Hel | done | destruct Hhl as [-> | ->]; split; discriminate].
  assert (Hxok : bytes_ok (xor_tail em hash)) by (by apply xor_tail_ok).
  destruct expected_pads as [Hp1 Hp2]. unfold digest_of, prefix_of.
  assert (Hcmp : forall d pad k rest, length d = k -> length pad = k ->
    cmp_loop (d ++ rest) pad k 0 = bool_decide (d = pad)).
  { intros d pad k rest Hd Hpl. change 0 with (Z.of_nat 0).
    rewrite cmp_loop_spec by (rewrite ?length_app; lia). rewrite !drop_0, take_app_le by lia.
    by rewrite !take_ge by lia. }
  destruct Hhl as [-> | ->].
  - rewrite Z.eqb_refl, SHA_hash_ref, bind_ret by done.
    rewrite (Hcmp _ _ _ _ (sha1_length _)) by reflexivity.
    change (Z.to_nat SHA_DIGEST_SIZE) with 20%nat. by rewrite Hp1.
  - simpl (SHA256_DIGEST_SIZE =? SHA_DIGEST_SIZE). cbv iota.
    rewrite SHA256_hash_ref, bind_ret by done.
    rewrite (Hcmp _ _ _ _ (sha256_length _)) by reflexivity.
    change (Z.to_nat SHA256_DIGEST_SIZE) with 32%nat. by rewrite Hp2.
Qed.

Lemma RSA_verify_valid junk ctx0 key signature hash hl :
  call_ok junk ctx0 key signature hash hl ->
  opened key signature = prefix_of hl ++ hash ->
  RSA_verify junk ctx0 key signature RSANUMBYTES hash hl = Ret 1.
Proof.
  intros Hc Ho. rewrite RSA_verify_run by done. rewrite bool_decide_true; [done |].
  f_equal. rewrite <- (co_hash_bytes _ _ _ _ _ _ Hc). apply xor_tail_zero; [| done].
  by rewrite Ho, length_app.
Qed.

(** ** A concrete key, for the witnesses

    [n = s^3 - m], with [m] the PKCS#1 block of the SHA-1 digest of "abc", has
    2048 bits and opens the signature [s] to [m] under the exponent 3. *)
Definition ex_hash : bytes := Eval vm_compute in sha1 [97; 98; 99].
Definition ex_s : Z :=
  0x50a2f7690ba4803301e93af2783894111ecd00e3dbc91e9d1ce21d9bafb42633417f9e52f9905133df814613772bbc78279359f5be9987af95e009953914e7a733623127f336dc20123f05fcb1a0b387fc70775c1b8.
Definition ex_modulus : Z := Eval vm_compute in ex_s ^ 3 - be_decode (sha_prefix ++ ex_hash).
Definition ex_key : RSAPublicKey := Eval vm_compute in
  mk_RSAPublicKey 64 1348586421 (to_words 64 ex_modulus)
    (to_words 64 ((2 ^ 2048) ^ 2 mod ex_modulus)) 3.
Definition ex_sig : bytes := Eval vm_compute in be_encode 256 ex_s.
Definition ex_junk : list Z := replicate 64 0xdeadbeef.

Definition words_okb (l : list Z) : bool := forallb (fun x => (0 <=? x) && (x <? 2 ^ 32)) l.
Definition bytes_okb (l : list Z) : bool := forallb (fun x => (0 <=? x) && (x <? 2 ^ 8)) l.

Lemma words_okb_sound l : words_okb l = true -> words_ok l.
Proof.
  unfold words_okb. rewrite forallb_forall. intros H. apply Forall_forall. intros x Hx.
  apply list_elem_of_In, H in Hx. zbool. by split.
Qed.

Lemma bytes_okb_sound l : bytes_okb l = true -> bytes_ok l.
Proof.
  unfold bytes_okb. rewrite forallb_forall. intros H. apply Forall_forall. intros x Hx.
  apply list_elem_of_In, H in Hx. zbool. by split.
Qed.

Lemma ex_key_ok : key_ok ex_key.
Proof.
  split.
  - reflexivity.
  - reflexivity.
  - apply words_okb_sound. vm_compute. reflexivity.
  - reflexivity.
  - apply words_okb_sound. vm_compute. reflexivity.
  - vm_compute. reflexivity.
  - apply mod_eq_cong; [vm_compute; discriminate | vm_compute; reflexivity].
Qed.

Lemma ex_call_ok : call_ok ex_junk zero_ctx ex_key ex_sig ex_hash SHA_DIGEST_SIZE.
Proof.
  split.
  - apply ex_key_ok.
  - reflexivity.
  - apply Z.leb_le. vm_compute. reflexivity.
  - by left.
  - apply words_okb_sound. vm_compute. reflexivity.
  - reflexivity.
  - apply zero_ctx_shape.
  - apply bytes_okb_sound. vm_compute. reflexivity.
  - reflexivity.
  - apply bytes_okb_sound. vm_compute. reflexivity.
  - by left.
  - reflexivity.
Qed.

Lemma ex_opened : opened ex_key ex_sig = prefix_of SHA_DIGEST_SIZE ++ ex_hash.
Proof. vm_compute. reflexivity. Qed.

(** ** Properties *)

(** Montgomery multiplication: [montMul] stores in [c] a number of the
    key's size congruent to [a * b / R] modulo the key, whatever [c] held. *)
Theorem montMul_correct key c a b : key_ok key ->
  words_ok a -> words_ok b -> length c = length (key_n key) ->
  length a = length (key_n key) -> length b = length (key_n key) ->
  let r := montMul key c a b in
  words_ok r /\ length r = length (key_n key) /\
  (dval r * 2 ^ (32 * key_len key)) mod dval (key_n key) = (dval a * dval b) mod dval (key_n key).
Proof.
  intros Hk Ha Hb Hlc Hla Hlb. destruct (montMul_spec key Hk c a b Hlc) as [[H1 H2] H3]; [done | done |].
  split; [done |]. split; [done |]. apply cong_mod_eq; [| done]. pose proof (N_pos key Hk). lia.
Qed.

Lemma montMul_correct_witness :
  let r := montMul ex_key ex_junk ex_junk (key_rr ex_key) in
  words_ok r /\ length r = length (key_n ex_key) /\
  (dval r * 2 ^ (32 * key_len ex_key)) mod dval (key_n ex_key) =
    (dval ex_junk * dval (key_rr ex_key)) mod dval (key_n ex_key).
Proof.
  apply (montMul_correct ex_key ex_junk ex_junk (key_rr ex_key)); [apply ex_key_ok | | | reflexivity..];
    apply words_okb_sound; vm_compute; reflexivity.
Defined.

(** C14. Public exponentiation: for a consistent key with the top bit of its
    modulus set and exponent 3 or 65537, [modpow] replaces the big-endian
    number in the buffer by its power modulo the key. *)
Theorem modpow_correct junk key inout : key_ok key -> words_ok junk ->
  length junk = length (key_n key) -> bytes_ok inout ->
  Z.of_nat (length inout) = 4 * key_len key ->
  2 ^ (32 * key_len key) <= 2 * dval (key_n key) ->
  key_exponent key = 3 \/ key_exponent key = 65537 ->
  modpow junk key inout = Ret (be_encode (length inout)
    (be_decode inout ^ key_exponent key mod dval (key_n key))).
Proof.
  intros Hk Hj Hjl Hio Hl HR He.
  destruct (modpow_spec key Hk junk inout) as (out & -> & Hol & Hok & <-);
    [by split | done | done | done | done |].
  by rewrite <- Hol, be_encode_decode.
Qed.

Lemma modpow_correct_witness :
  modpow ex_junk ex_key ex_sig = Ret (be_encode (length ex_sig)
    (be_decode ex_sig ^ key_exponent ex_key mod dval (key_n ex_key))).
Proof.
  apply (modpow_correct ex_junk ex_key ex_sig); [apply ex_key_ok | | reflexivity | | reflexivity | | by left].
  - apply words_okb_sound. vm_compute. reflexivity.
  - apply bytes_okb_sound. vm_compute. reflexivity.
  - apply Z.leb_le. vm_compute. reflexivity.
Defined.

(** Completeness: a signature that opens to the PKCS#1 v1.5 block of the
    hash is accepted. *)
Theorem RSA_verify_accepts junk ctx0 key signature hash hl :
  call_ok junk ctx0 key signature hash hl ->
  opened key signature = prefix_of hl ++ hash ->
  RSA_verify junk ctx0 key signature RSANUMBYTES hash hl = Ret 1.
Proof. apply RSA_verify_valid. Qed.

Lemma RSA_verify_accepts_witness :
  RSA_verify ex_junk zero_ctx ex_key ex_sig RSANUMBYTES ex_hash SHA_DIGEST_SIZE = Ret 1.
Proof.
  apply (RSA_verify_accepts ex_junk zero_ctx ex_key ex_sig ex_hash SHA_DIGEST_SIZE);
    [apply ex_call_ok | apply ex_opened].
Defined.

(** The block with the place of the hash zeroed, whose digest [RSA_verify]
    compares with. *)
Definition pad_block (hl : Z) : bytes := prefix_of hl ++ replicate (Z.to_nat hl) 0.

(** Other bytes of the same length and digest *)
Definition pad_collision (hl : Z) (m : bytes) : Prop :=
  bytes_ok m /\ length m = 256%nat /\ m <> pad_block hl /\ digest_of hl m = digest_of hl (pad_block hl).

(** What equal digests say about the block. *)
Lemma pad_digest_sound key signature hash hl : bytes_ok hash -> length hash = Z.to_nat hl ->
  hl = SHA_DIGEST_SIZE \/ hl = SHA256_DIGEST_SIZE ->
  digest_of hl (xor_tail (opened key signature) hash) = digest_of hl (pad_block hl) ->
  opened key signature = prefix_of hl ++ hash \/ pad_collision hl (xor_tail (opened key signature) hash).
Proof.
  intros Hok Hhash Hhl E.
  assert (Hlen : length (opened key signature) = (length (prefix_of hl) + length hash)%nat).
  { unfold opened. rewrite be_encode_length, Hhash. by destruct Hhl as [-> | ->]. }
  destruct (decide (xor_tail (opened key signature) hash = pad_block hl)) as [Eq | Ne].
  - left. unfold pad_block in Eq. rewrite <- Hhash in Eq. by apply xor_tail_zero.
  - right. split; [apply xor_tail_ok; [apply be_encode_ok | done] |]. split; [| done].
    rewrite xor_tail_length by lia. apply be_encode_length.
Qed.

(** C13. Soundness: if a signature is accepted, either it opens to the PKCS#1
    v1.5 block of the hash, or the very block it opens to, xor-ed with the hash,
    is a string of 256 bytes other than the padding block with the digest of the
    padding block. *)
Theorem RSA_verify_sound junk ctx0 key signature hash hl :
  call_ok junk ctx0 key signature hash hl ->
  RSA_verify junk ctx0 key signature RSANUMBYTES hash hl = Ret 1 ->
  opened key signature = prefix_of hl ++ hash \/ pad_collision hl (xor_tail (opened key signature) hash).
Proof.
  intros Hc Hv. rewrite RSA_verify_run in Hv by done.
  destruct (bool_decide _) eqn:E; [| discriminate Hv]. apply bool_decide_eq_true in E.
  apply pad_digest_sound; [by apply (co_hash _ _ _ _ _ _ Hc) | by apply (co_hash_bytes _ _ _ _ _ _ Hc) |
    by apply (co_hash_len _ _ _ _ _ _ Hc) | done].
Qed.

Lemma RSA_verify_sound_witness :
  let hl := SHA_DIGEST_SIZE in
  opened ex_key ex_sig = prefix_of hl ++ ex_hash \/ pad_collision hl (xor_tail (opened ex_key ex_sig) ex_hash).
Proof.
  apply (RSA_verify_sound ex_junk zero_ctx ex_key ex_sig ex_hash SHA_DIGEST_SIZE);
    [apply ex_call_ok |]. apply RSA_verify_valid; [apply ex_call_ok | apply ex_opened].
Defined.

(** Guards: a key of another size, a signature of another length, a hash
    length other than 20 and 32, or an exponent other than 3 and 65537 is
    rejected, without looking at the buffers. *)
Theorem RSA_verify_guards junk ctx0 key signature len hash hash_len :
  key_len key <> RSANUMWORDS \/ len <> RSANUMBYTES \/
  (hash_len <> SHA_DIGEST_SIZE /\ hash_len <> SHA256_DIGEST_SIZE) \/
  (key_exponent key <> 3 /\ key_exponent key <> 65537) ->
  RSA_verify junk ctx0 key signature len hash hash_len = Ret 0.
Proof.
  intros H. unfold RSA_verify.
  destruct (negb (key_len key =? RSANUMWORDS)) eqn:E1; [done |].
  destruct (negb (len =? RSANUMBYTES)) eqn:E2; [done |].
  destruct (negb (hash_len =? SHA_DIGEST_SIZE) && negb (hash_len =? SHA256_DIGEST_SIZE)) eqn:E3; [done |].
  destruct (negb (key_exponent key =? 3) && negb (key_exponent key =? 65537)) eqn:E4; [done |].
  exfalso. zbool. apply andb_false_iff in E3, E4.
  rewrite !negb_false_iff, !Z.eqb_eq in E3, E4. destruct H as [? | [? | [? | ?]]]; tauto.
Qed.

Lemma RSA_verify_guards_witness :
  RSA_verify ex_junk zero_ctx ex_key ex_sig 255 ex_hash SHA_DIGEST_SIZE = Ret 0.
Proof.
  apply (RSA_verify_guards ex_junk zero_ctx ex_key ex_sig 255 ex_hash SHA_DIGEST_SIZE).
  right; left. discriminate.
Defined.
