(* ===== verification/P256.v ===== *)
(** * 256-bit integers of libmincrypt

    Models src/system/core/libmincrypt/p256.c with include/mincrypt/p256.h. A
    [p256_int] is the list of its eight 32-bit digits, least significant first.
    A digit pointer such as [tmp + i] is the array with an offset. Functions
    that [assert], shift by a variable amount or loop until a condition holds
    return an [outcome]. *)

From S2P Require Import Prelude.
From S2P Require Import Limbs.

Definition P256_NDIGITS : Z := 8.

Abbreviation p256_int := (list Z).

Definition P256_ZERO : p256_int := replicate 8 0.
Definition P256_ONE : p256_int := 1 :: replicate 7 0.

(** Curve order, field size, and the coefficient b; -1 is the digit 2^32 - 1. *)
Definition SECP256r1_n : p256_int :=
  [0xfc632551; 0xf3b9cac2; 0xa7179e84; 0xbce6faad; u32 (-1); u32 (-1); 0; u32 (-1)].
Definition SECP256r1_p : p256_int :=
  [u32 (-1); u32 (-1); u32 (-1); 0; 0; 0; 1; u32 (-1)].
Definition SECP256r1_b : p256_int :=
  [0x27d2604b; 0x3bce3c3e; 0xcc53b0f6; 0x651d06b0; 0x769886bc; 0xb3ebbd55; 0xaa3a93e7; 0x5ac635d8].

Definition p256_init (a : p256_int) : p256_int := replicate (length a) 0.
Definition p256_clear (a : p256_int) : p256_int := p256_init a.

Definition p256_get_bit (scalar : p256_int) (bit : Z) : Z :=
  Z.land (Z.shiftr (rd scalar (Z.quot bit 32)) (Z.land bit 31)) 1.

Definition p256_is_zero (a : p256_int) : bool :=
  let result := for_ 8 0 (fun i result => Z.lor result (rd a i)) 0 in
  result =? 0.

(** [top, c[] += a[] * b]; returns the new top, and the array. *)
Definition mulAdd (a : p256_int) (b top : Z) (c : list Z) (o : Z) : Z * list Z :=
  let '(carry, c) := for_ 8 0 (fun i '(carry, c) =>
    let carry := u64 (carry + rd c (o + i)) in
    let carry := u64 (carry + rd a i * b) in
    let c := wr c (o + i) (u32 carry) in
    (Z.shiftr carry 32, c)) (0, c) in
  (u32 (top + u32 carry), c).

(** [top, c[] -= top_a, a[]] *)
Definition subTop (top_a : Z) (a : list Z) (top_c : Z) (c : list Z) (o : Z) : outcome (Z * list Z) :=
  let '(borrow, c) := for_ 8 0 (fun i '(borrow, c) =>
    let borrow := i64 (borrow + rd c (o + i)) in
    let borrow := i64 (borrow - rd a i) in
    let c := wr c (o + i) (u32 borrow) in
    (Z.shiftr borrow 32, c)) (0, c) in
  let borrow := i64 (borrow + top_c) in
  let borrow := i64 (borrow - top_a) in
  let top_c := u32 borrow in
  c_assert (Z.shiftr borrow 32 =? 0) ≫= fun _ => Ret (top_c, c).

(** [top, c[] -= MOD[] & mask] *)
Definition subM (MOD : p256_int) (top : Z) (c : list Z) (o : Z) (mask : Z) : Z * list Z :=
  let '(borrow, c) := for_ 8 0 (fun i '(borrow, c) =>
    let borrow := i64 (borrow + rd c (o + i)) in
    let borrow := i64 (borrow - Z.land (rd MOD i) mask) in
    let c := wr c (o + i) (u32 borrow) in
    (Z.shiftr borrow 32, c)) (0, c) in
  (u32 (top + u32 borrow), c).

(** [top, c[] += MOD[] & mask] *)
Definition addM (MOD : p256_int) (top : Z) (c : list Z) (o : Z) (mask : Z) : Z * list Z :=
  let '(carry, c) := for_ 8 0 (fun i '(carry, c) =>
    let carry := u64 (carry + rd c (o + i)) in
    let carry := u64 (carry + Z.land (rd MOD i) mask) in
    let c := wr c (o + i) (u32 carry) in
    (Z.shiftr carry 32, c)) (0, c) in
  (u32 (top + u32 carry), c).

(** One turn of the reduction loop, at digit offset [i]. *)
Definition modmul_reduce (MOD : p256_int) (i top : Z) (tmp : list Z) : outcome (Z * list Z) :=
  let '(top_reducer, reducer) := mulAdd MOD top 0 (replicate 8 0) 0 in
  '(top, tmp) ← subTop top_reducer reducer top tmp i;
  c_assert (top <=? 1) ≫= fun _ =>
  let '(top, tmp) := subM MOD top tmp i (u32 (Z.lnot (u32 (top - 1)))) in
  c_assert (top =? 0) ≫= fun _ =>
  Ret (rd tmp (i + P256_NDIGITS - 1), tmp).

(** [for (; i >= 0; --i)] *)
Fixpoint modmul_reduce_loop (MOD : p256_int) (n : nat) (top : Z) (tmp : list Z)
    : outcome (Z * list Z) :=
  '(top, tmp) ← modmul_reduce MOD (Z.of_nat n) top tmp;
  match n with
  | O => Ret (top, tmp)
  | S n' => modmul_reduce_loop MOD n' top tmp
  end.

(** [c = a * (top_b | b) mod MOD] *)
Definition p256_modmul (MOD a : p256_int) (top_b : Z) (b : p256_int) : outcome p256_int :=
  let tmp := replicate 17 0 in
  let '(top, tmp) := for_ 8 0 (fun i '(top, tmp) =>
    let tmp := if negb (i =? 0) then wr tmp (i + P256_NDIGITS - 1) top else tmp in
    mulAdd a (rd b i) 0 tmp i) (0, tmp) in
  let tmp := wr tmp (8 + P256_NDIGITS - 1) top in
  let '(top, tmp) := mulAdd a top_b 0 tmp 8 in
  '(_, tmp) ← modmul_reduce_loop MOD 8 top tmp;
  let '(mask, tmp) := subM MOD 0 tmp 0 (u32 (-1)) in
  let '(_, tmp) := addM MOD 0 tmp 0 mask in
  Ret (take 8 tmp).

Definition p256_is_odd (a : p256_int) : bool := negb (Z.land (rd a 0) 1 =? 0).
Definition p256_is_even (a : p256_int) : bool := Z.land (rd a 0) 1 =? 0.

(** A 32-bit shift by the operand's width is undefined. *)
Definition shl32 (x n : Z) : outcome Z :=
  if (0 <=? n) && (n <? 32) then Ret (u32 (Z.shiftl x n)) else Fault BadShift.
Definition shr32 (x n : Z) : outcome Z :=
  if (0 <=? n) && (n <? 32) then Ret (Z.shiftr x n) else Fault BadShift.

(** [for (i = P256_NDIGITS - 1; i > 0; --i)], writing digit i of [b]. *)
Fixpoint p256_shl_loop (a : p256_int) (n : Z) (i : nat) (b : p256_int) : outcome p256_int :=
  match i with
  | O =>
      x ← shl32 (rd a 0) n;
      Ret (wr b 0 x)
  | S i' =>
      accu ← shl32 (rd a (Z.of_nat i)) n;
      lo ← shr32 (rd a (Z.of_nat i - 1)) (32 - n);
      p256_shl_loop a n i' (wr b (Z.of_nat i) (Z.lor accu lo))
  end.

Definition p256_shl (a : p256_int) (n : Z) (b : p256_int) : outcome (Z * p256_int) :=
  let top := rd a (P256_NDIGITS - 1) in
  let n := Z.rem n 32 in
  b ← p256_shl_loop a n 7 b;
  Ret (u32 (Z.shiftr (u64 (Z.shiftl top n)) 32), b).

(** [for (i = 0; i < P256_NDIGITS - 1; ++i)], writing digit i of [b]. *)
Fixpoint p256_shr_loop (a : p256_int) (n : Z) (k : nat) (i : Z) (b : p256_int) : outcome p256_int :=
  match k with
  | O =>
      x ← shr32 (rd a i) n;
      Ret (wr b i x)
  | S k' =>
      accu ← shr32 (rd a i) n;
      hi ← shl32 (rd a (i + 1)) (32 - n);
      p256_shr_loop a n k' (i + 1) (wr b i (Z.lor accu hi))
  end.

Definition p256_shr (a : p256_int) (n : Z) (b : p256_int) : outcome p256_int :=
  p256_shr_loop a (Z.rem n 32) 7 0 b.

Definition p256_shr1 (a : p256_int) (highbit : Z) (b : p256_int) : p256_int :=
  let b := for_ 7 0 (fun i b =>
    let accu := Z.shiftr (rd a i) 1 in
    let accu := Z.lor accu (u32 (Z.shiftl (rd a (i + 1)) 31)) in
    wr b i accu) b in
  wr b 7 (Z.lor (Z.shiftr (rd a 7) 1) (u32 (Z.shiftl highbit 31))).

(** -1, 0 or 1 for a < b, a == b, a > b. *)
Definition p256_cmp (a b : p256_int) : Z :=
  let '(borrow, notzero) := for_ 8 0 (fun i '(borrow, notzero) =>
    let borrow := i64 (borrow + i64 (rd a i - rd b i)) in
    let notzero := Z.lor notzero (if u32 borrow =? 0 then 0 else 1) in
    (Z.shiftr borrow 32, notzero)) (0, 0) in
  i32 (Z.lor (u32 (i32 borrow)) notzero).

(** [c = a - b]; returns the borrow, 0 or -1, and the digits for [c]. *)
Definition p256_sub (a b : p256_int) : Z * p256_int :=
  let '(borrow, c) := for_ 8 0 (fun i '(borrow, c) =>
    let borrow := i64 (borrow + i64 (rd a i - rd b i)) in
    let c := wr c i (u32 borrow) in
    (Z.shiftr borrow 32, c)) (0, P256_ZERO) in
  (i32 borrow, c).

(** [c = a + b]; returns the carry, 0 or 1. *)
Definition p256_add (a b : p256_int) : Z * p256_int :=
  let '(carry, c) := for_ 8 0 (fun i '(carry, c) =>
    let carry := u64 (carry + u64 (rd a i + rd b i)) in
    let c := wr c i (u32 carry) in
    (Z.shiftr carry 32, c)) (0, P256_ZERO) in
  (i32 carry, c).

(** [b = a + d]; returns the carry, 0 or 1. *)
Definition p256_add_d (a : p256_int) (d : Z) : Z * p256_int :=
  let '(carry, b) := for_ 8 0 (fun i '(carry, b) =>
    let carry := u64 (carry + rd a i) in
    let b := wr b i (u32 carry) in
    (Z.shiftr carry 32, b)) (d, P256_ZERO) in
  (i32 carry, b).

Definition p256_mod (MOD a : p256_int) : p256_int :=
  let '(mask, out) := subM MOD 0 a 0 (u32 (-1)) in
  snd (addM MOD 0 out 0 mask).

(** [R = R/2] or [R = (R+MOD)/2] *)
Definition halve_mod (MOD R : p256_int) : p256_int :=
  if p256_is_even R then p256_shr1 R 0 R
  else let '(carry, R) := p256_add R MOD in p256_shr1 R carry R.

(** [if (p256_sub(&S, &R, &S)) p256_add(&S, MOD, &S);] *)
Definition sub_mod (MOD a b : p256_int) : p256_int :=
  let '(borrow, c) := p256_sub a b in
  if negb (borrow =? 0) then snd (p256_add c MOD) else c.

(** The binary Euclid loop of [p256_modinv_vartime]; returns [R] at the break. *)
Fixpoint modinv_loop (fuel : nat) (MOD R S_ U V : p256_int) : outcome p256_int :=
  match fuel with
  | O => Diverge
  | S fuel' =>
      if p256_is_even U then
        modinv_loop fuel' MOD (halve_mod MOD R) S_ (p256_shr1 U 0 U) V
      else if p256_is_even V then
        modinv_loop fuel' MOD R (halve_mod MOD S_) U (p256_shr1 V 0 V)
      else if fst (p256_sub V U) =? 0 then
        let V := snd (p256_sub V U) in
        let S_ := sub_mod MOD S_ R in
        if p256_is_zero V then Ret R
        else modinv_loop fuel' MOD R S_ U V
      else
        let U := snd (p256_sub U V) in
        let R := sub_mod MOD R S_ in
        modinv_loop fuel' MOD R S_ U V
  end.

Definition p256_modinv_vartime (fuel : nat) (MOD a : p256_int) : outcome p256_int :=
  R ← modinv_loop fuel MOD P256_ZERO P256_ONE MOD a;
  Ret (p256_mod MOD R).

Definition p256_is_valid_point (x y : p256_int) : outcome Z :=
  if (p256_cmp SECP256r1_p x <=? 0) || (p256_cmp SECP256r1_p y <=? 0)
     || p256_is_zero x || p256_is_zero y then Ret 0
  else
    y2 ← p256_modmul SECP256r1_p y 0 y;
    x3 ← p256_modmul SECP256r1_p x 0 x;
    x3 ← p256_modmul SECP256r1_p x 0 x3;
    let x3 := sub_mod SECP256r1_p x3 x in
    let x3 := sub_mod SECP256r1_p x3 x in
    let x3 := sub_mod SECP256r1_p x3 x in
    let '(carry, x3) := p256_add x3 SECP256r1_b in
    let x3 := if negb (carry =? 0) then snd (p256_sub x3 SECP256r1_p) else x3 in
    Ret (if p256_cmp y2 x3 =? 0 then 1 else 0).

(** [src] holds 32 bytes, most significant first. *)
Definition p256_from_bin (src : bytes) (dst : p256_int) : p256_int :=
  for_ 8 0 (fun k dst =>
    let i := 7 - k in
    let p := 4 * k in
    wr dst i (Z.lor (Z.lor (Z.lor (u32 (Z.shiftl (rd src (p + 0)) 24))
                                  (u32 (Z.shiftl (rd src (p + 1)) 16)))
                           (u32 (Z.shiftl (rd src (p + 2)) 8)))
                    (rd src (p + 3)))) dst.
