(* ===== verification/P256Spec.v ===== *)
(** * Correctness of the 256-bit arithmetic

    One lemma on carry chains gives the addition, subtraction and
    multiply-accumulate loops of p256.c; from it follow the modular product,
    the modular inverse and the curve-membership test. *)

From S2P Require Import Prelude.
From S2P Require Import Limbs.
From S2P Require Import Cong.
From S2P Require Import P256.

Abbreviation R256 := (2 ^ 256).

Definition p256_ok (a : p256_int) : Prop := words_ok a /\ length a = 8%nat.

Lemma p256_range a : p256_ok a -> 0 <= dval a < R256.
Proof. intros [Ha Hl]. pose proof (dval_range a Ha) as H. by rewrite Hl in H. Qed.

Lemma p256_rd a i : p256_ok a -> 0 <= rd a i < W32.
Proof. intros [Ha _]. by apply (rd_range 32). Qed.

Lemma p256_pval a : p256_ok a -> pval a 8 = dval a.
Proof. intros [_ Hl]. apply pval_full. lia. Qed.

Lemma digit_split x : x = u32 x + W32 * Z.shiftr x 32.
Proof. unfold wrap. rewrite Z.shiftr_div_pow2 by lia. pose proof (Z.div_mod x W32). lia. Qed.

(** The number in the eight digits from offset [o] on. *)
Definition sval (c : list Z) (o : Z) : Z := dval (take 8 (drop (Z.to_nat o) c)).

Lemma sval_pval c o : 0 <= o -> o + 8 <= Z.of_nat (length c) ->
  pval c (o + 8) = pval c o + 2 ^ (32 * o) * sval c o.
Proof.
  intros Ho Hl. unfold pval, sval. replace (Z.to_nat (o + 8)) with (Z.to_nat o + 8)%nat by lia.
  rewrite <- take_take_drop, dval_app, length_take. by replace (Z.of_nat (Z.to_nat o `min` length c)) with o by lia.
Qed.

Lemma sval_range c o : words_ok c -> 0 <= sval c o < R256.
Proof.
  intros Hc. unfold sval.
  pose proof (dval_range (take 8 (drop (Z.to_nat o) c)) (Forall_take _ _ _ (Forall_drop _ _ _ Hc))) as H.
  split; [lia |]. eapply Z.lt_le_trans; [apply H |].
  apply Z.pow_le_mono_r; [lia |]. rewrite length_take. lia.
Qed.

Lemma sval_p256 c : p256_ok c -> sval c 0 = dval c.
Proof. intros [_ Hl]. unfold sval. change (drop (Z.to_nat 0) c) with c. by rewrite take_ge by lia. Qed.

(** ** Carry chains *)
Section CarryChain.
Context (o : Z) (Ho : 0 <= o).
Context (f F : Z -> Z) (HF0 : F 0 = 0).
Context (HF : forall i, 0 <= i < 8 -> F (i + 1) = F i + 2 ^ (32 * i) * f i).
Context (lo hi : Z) (c0 : list Z) (cr0 : Z).
Context (body : Z -> Z * list Z -> Z * list Z).
Context (Hbody : forall i cr c, 0 <= i < 8 -> lo <= cr <= hi -> words_ok c ->
  rd c (o + i) = rd c0 (o + i) ->
  body i (cr, c) = (Z.shiftr (cr + rd c0 (o + i) + f i) 32,
                    wr c (o + i) (u32 (cr + rd c0 (o + i) + f i)))
  /\ lo <= Z.shiftr (cr + rd c0 (o + i) + f i) 32 <= hi).

(** What the chain leaves: a final carry, and an array changed in [o, o+8) only. *)
Definition chained (cr : Z) (c : list Z) : Prop :=
  lo <= cr <= hi /\ words_ok c /\ length c = length c0 /\ pval c o = pval c0 o /\
  (forall j, 0 <= j -> j < o \/ o + 8 <= j -> rd c j = rd c0 j) /\
  sval c o + R256 * cr = sval c0 o + cr0 + F 8.

Definition chain_inv (i : Z) (s : Z * list Z) : Prop :=
  lo <= s.1 <= hi /\ words_ok s.2 /\ length s.2 = length c0 /\ pval s.2 o = pval c0 o /\
  (forall j, 0 <= j -> j < o \/ o + i <= j -> rd s.2 j = rd c0 j) /\
  pval s.2 (o + i) + 2 ^ (32 * (o + i)) * s.1 = pval c0 (o + i) + 2 ^ (32 * o) * (cr0 + F i).

Lemma chain_step i s : 0 <= i < 8 -> (o + 8 <= Z.of_nat (length c0)) ->
  chain_inv i s -> chain_inv (i + 1) (body i s).
Proof.
  destruct s as [cr c]. intros Hi Hlen (Hcr & Hok & Hl & Ho' & Hsame & Hv). simpl in *.
  destruct (Hbody i cr c Hi Hcr Hok) as [E Hcr']; [apply Hsame; lia |]. rewrite E.
  set (x := cr + rd c0 (o + i) + f i) in *.
  split_and!; simpl; [lia | lia | | by rewrite length_wr | by rewrite pval_wr_ge by lia | |].
  - apply Forall_wr; [done | by apply wrap_range].
  - intros j Hj Hr. rewrite rd_wr_ne by lia. apply Hsame; lia.
  - rewrite Z.add_assoc, pval_wr_succ, pval_succ, HF by lia.
    replace (32 * (o + i + 1)) with (32 * (o + i) + 32) by lia.
    rewrite Z.pow_add_r by lia. pose proof (digit_split x) as Hx.
    replace (32 * (o + i)) with (32 * o + 32 * i) in * by lia.
    rewrite Z.pow_add_r in * by lia.
    transitivity (pval c (o + i) + 2 ^ (32 * o) * 2 ^ (32 * i) * (u32 x + W32 * Z.shiftr x 32)); [ring |].
    rewrite <- Hx. unfold x.
    transitivity (pval c (o + i) + 2 ^ (32 * o) * 2 ^ (32 * i) * cr
      + 2 ^ (32 * o) * 2 ^ (32 * i) * (rd c0 (o + i) + f i)); [ring |].
    rewrite Hv. ring.
Qed.

Lemma carry_chain : lo <= cr0 <= hi -> words_ok c0 -> o + 8 <= Z.of_nat (length c0) ->
  exists cr c, for_ 8 0 body (cr0, c0) = (cr, c) /\ chained cr c.
Proof.
  intros Hcr Hok Hlen. destruct (for_ 8 0 body (cr0, c0)) as [cr c] eqn:E.
  exists cr, c. split; [done |].
  assert (H : chain_inv 8 (for_ 8 0 body (cr0, c0))).
  { change 8 with (0 + Z.of_nat 8) at 1. apply for_inv.
    - intros j s Hj. apply chain_step; lia.
    - split_and!; simpl; try done; try lia. rewrite Z.add_0_r, HF0. ring. }
  rewrite E in H. destruct H as (Hc & Hw & Hl & Hp & Hs & Hv). simpl in *.
  split_and!; try done; try lia.
  rewrite !sval_pval, Hp in Hv by lia.
  replace (32 * (o + 8)) with (32 * o + 256) in Hv by lia. rewrite Z.pow_add_r in Hv by lia.
  apply (Z.mul_reg_l _ _ (2 ^ (32 * o))); [lia |]. lia.
Qed.

End CarryChain.

Lemma pval_rec a i : p256_ok a -> 0 <= i < 8 -> pval a (i + 1) = pval a i + 2 ^ (32 * i) * rd a i.
Proof. intros [_ Hl] Hi. apply pval_succ. lia. Qed.

(** The sums of a chain over the digits of numbers. *)
Ltac chainF :=
  intros; cbv beta;
  try match goal with b : bool |- _ => destruct b end;
  rewrite ?pval_0, ?pval_rec by done; ring.

Lemma words_rd c i : words_ok c -> 0 <= rd c i < W32.
Proof. intros. by apply (rd_range 32). Qed.

(** Apply [carry_chain] to the loop in the goal; the first goal left is its step. *)
Ltac chain o f F lo hi cr c :=
  cbv zeta; match goal with |- context [for_ 8 0 ?b (cr, c)] =>
    let t := fresh "t" in let c' := fresh "c'" in let E := fresh "E" in let H := fresh "Hch" in
    destruct (carry_chain o ltac:(lia) f F ltac:(chainF) ltac:(chainF) lo hi c cr b)
      as (t & c' & E & H); [| lia | done | lia | rewrite E]
  end.

Lemma mulAdd_spec a b top c o : p256_ok a -> in_range 32 b -> words_ok c -> 0 <= o ->
  o + 8 <= Z.of_nat (length c) ->
  exists t c', mulAdd a b top c o = (u32 (top + t), c') /\
    chained o (fun i => pval a i * b) 0 (W32 - 1) c 0 t c'.
Proof.
  intros Ha Hb Hc Ho Hl. unfold mulAdd.
  chain o (fun i => rd a i * b) (fun i => pval a i * b) 0 (W32 - 1) 0 c.
  - intros i cr d Hi Hcr Hd Hrd. rewrite Hrd.
    pose proof (words_rd c (o + i) Hc). pose proof (p256_rd a i Ha). unfold in_range in Hb.
    assert (0 <= rd a i * b <= (W32 - 1) * (W32 - 1)) by nia.
    cbv zeta. rewrite (wrap_small 64 (cr + rd c (o + i))) by (unfold in_range; lia).
    rewrite (wrap_small 64) by (unfold in_range; lia).
    split; [done |]. rewrite Z.shiftr_div_pow2 by lia. dmlia.
  - exists t, c'. rewrite (wrap_small 32 t); [done |].
    destruct Hch as [H _]. unfold in_range. lia.
Qed.

(** Masks are all ones or zero. *)
Definition maskb (b : bool) : Z := if b then u32 (-1) else 0.

Lemma land_maskb x b : 0 <= x < W32 -> Z.land x (maskb b) = if b then x else 0.
Proof.
  intros Hx. destruct b; simpl; [| apply Z.land_0_r].
  change (u32 (-1)) with (2 ^ 32 - 1). rewrite land_ones_mod by lia. by apply Z.mod_small.
Qed.

Lemma p256_subM_spec MOD top c o b : p256_ok MOD -> words_ok c -> 0 <= o ->
  o + 8 <= Z.of_nat (length c) ->
  exists t c', subM MOD top c o (maskb b) = (u32 (top + t), c') /\
    chained o (fun i => - (if b then pval MOD i else 0)) (-1) 0 c 0 t c'.
Proof.
  intros HM Hc Ho Hl. unfold subM.
  chain o (fun i => - (if b then rd MOD i else 0)) (fun i => - (if b then pval MOD i else 0)) (-1) 0 0 c.
  - intros i cr d Hi Hcr Hd Hrd. rewrite Hrd, land_maskb by (by apply p256_rd).
    pose proof (words_rd c (o + i) Hc). pose proof (p256_rd MOD i HM).
    assert (0 <= (if b then rd MOD i else 0) < W32) by (destruct b; lia).
    cbv zeta. rewrite (swrap_small 64 (cr + rd c (o + i))) by (unfold in_srange; lia).
    rewrite (swrap_small 64) by (unfold in_srange; lia).
    split; [done |]. rewrite Z.shiftr_div_pow2 by lia. dmlia.
  - exists t, c'. by rewrite wrap_add_r.
Qed.

Lemma addM_spec MOD top c o b : p256_ok MOD -> words_ok c -> 0 <= o ->
  o + 8 <= Z.of_nat (length c) ->
  exists t c', addM MOD top c o (maskb b) = (u32 (top + t), c') /\
    chained o (fun i => if b then pval MOD i else 0) 0 1 c 0 t c'.
Proof.
  intros HM Hc Ho Hl. unfold addM.
  chain o (fun i => if b then rd MOD i else 0) (fun i => if b then pval MOD i else 0) 0 1 0 c.
  - intros i cr d Hi Hcr Hd Hrd. rewrite Hrd, land_maskb by (by apply p256_rd).
    pose proof (words_rd c (o + i) Hc). pose proof (p256_rd MOD i HM).
    assert (0 <= (if b then rd MOD i else 0) < W32) by (destruct b; lia).
    cbv zeta. rewrite (wrap_small 64 (cr + rd c (o + i))) by (unfold in_range; lia).
    rewrite (wrap_small 64) by (unfold in_range; lia).
    split; [done |]. rewrite Z.shiftr_div_pow2 by lia. dmlia.
  - exists t, c'. by rewrite wrap_add_r.
Qed.

Lemma subTop_loop a c o : p256_ok a -> words_ok c -> 0 <= o -> o + 8 <= Z.of_nat (length c) ->
  forall top_a top_c, in_range 32 top_a -> in_range 32 top_c ->
  exists t c', chained o (fun i => - pval a i) (-1) 0 c 0 t c' /\
    (0 <= top_c + t - top_a < W32 -> subTop top_a a top_c c o = Ret (top_c + t - top_a, c')).
Proof.
  intros Ha Hc Ho Hl top_a top_c Hta Htc. unfold subTop, in_range in *.
  chain o (fun i => - rd a i) (fun i => - pval a i) (-1) 0 0 c.
  - intros i cr d Hi Hcr Hd Hrd. rewrite Hrd.
    pose proof (words_rd c (o + i) Hc). pose proof (p256_rd a i Ha).
    cbv zeta. rewrite (swrap_small 64 (cr + rd c (o + i))) by (unfold in_srange; lia).
    rewrite (swrap_small 64) by (unfold in_srange; lia).
    split; [done |]. rewrite Z.shiftr_div_pow2 by lia. dmlia.
  - exists t, c'. split; [done |]. intros Hb. destruct Hch as [Ht _].
    cbv zeta. rewrite (swrap_small 64 (t + top_c)) by (unfold in_srange; lia).
    rewrite (swrap_small 64) by (unfold in_srange; lia).
    replace (t + top_c - top_a) with (top_c + t - top_a) by lia.
    rewrite c_assert_true, bind_ret, wrap_small; [done | unfold in_range; lia |].
    rewrite Z.shiftr_div_pow2 by lia. apply Z.eqb_eq, Z.div_small. lia.
Qed.

(** ** Modular product

    The digit-wise reduction relies on the top digit of the modulus being -1. *)
Definition mod_ok (MOD : p256_int) : Prop := p256_ok MOD /\ rd MOD 7 = W32 - 1.

Lemma mod_ok_lower MOD : mod_ok MOD -> R256 - 2 ^ 224 <= dval MOD < R256.
Proof.
  intros [HM Htop]. split; [| by apply p256_range].
  rewrite <- p256_pval by done. change 8 with (7 + 1).
  rewrite pval_rec, Htop by (done || lia).
  pose proof (pval_range MOD 7 ltac:(lia) (proj1 HM)). lia.
Qed.

Lemma zeros_ok : p256_ok (replicate 8 0).
Proof. split; [| done]. apply Forall_replicate. unfold in_range. lia. Qed.

Section Reduce.
Context (MOD : p256_int) (HM : mod_ok MOD).
Abbreviation M := (dval MOD).

Lemma reducer_spec top : in_range 32 top ->
  exists t r, mulAdd MOD top 0 (replicate 8 0) 0 = (t, r) /\ in_range 32 t /\ p256_ok r /\
    dval r + R256 * t = top * M.
Proof.
  intros Ht. destruct HM as [Hok _].
  destruct (mulAdd_spec MOD top 0 (replicate 8 0) 0) as (t & r & E & H); try done; [apply zeros_ok |].
  destruct H as (Hr & Hw & Hl & _ & _ & Hv). rewrite E.
  assert (Hin : in_range 32 t) by (unfold in_range; lia).
  exists t, r. rewrite Z.add_0_l, wrap_small by done. split_and!; try done.
  rewrite (sval_p256 r), (sval_p256 (replicate 8 0)), dval_replicate_0, p256_pval in Hv
    by (done || apply zeros_ok). lia.
Qed.

Lemma reduce_mask top : 0 <= top <= 1 -> u32 (Z.lnot (u32 (top - 1))) = maskb (top =? 1).
Proof. intros. assert (top = 0 \/ top = 1) as [-> | ->] by lia; reflexivity. Qed.

(** One turn takes the digit above position [i + 8] off the number. *)
Lemma modmul_reduce_spec i top tmp : 0 <= i -> i + 8 <= Z.of_nat (length tmp) ->
  words_ok tmp -> in_range 32 top ->
  exists tmp', modmul_reduce MOD i top tmp = Ret (rd tmp' (i + 7), tmp') /\
    words_ok tmp' /\ length tmp' = length tmp /\ pval tmp' i = pval tmp i /\
    sval tmp' i ≡[M] sval tmp i + R256 * top.
Proof.
  intros Hi Hl Hw Ht. unfold modmul_reduce.
  destruct (reducer_spec top Ht) as (tr & r & -> & Htr & Hr & Hrv).
  destruct (subTop_loop r tmp i Hr Hw Hi Hl tr top Htr Ht) as (t & c & Hc & Hsub).
  destruct Hc as (Hb & Hcw & Hcl & Hcp & _ & Hcv). rewrite p256_pval in Hcv by done.
  pose proof (mod_ok_lower MOD HM) as HMb.
  pose proof (sval_range tmp i Hw). pose proof (sval_range c i Hcw). unfold in_range in Ht.
  assert (Hx : sval c i + R256 * (top + t - tr) = sval tmp i + top * (R256 - M)) by lia.
  assert (0 <= top * (R256 - M) <= (W32 - 1) * 2 ^ 224) by nia.
  assert (Ht' : 0 <= top + t - tr <= 1) by lia.
  rewrite Hsub, bind_ret by lia. cbv beta iota.
  rewrite c_assert_true, bind_ret by lia. rewrite reduce_mask by lia.
  set (b := top + t - tr) in *.
  destruct (p256_subM_spec MOD b c i (b =? 1) (proj1 HM) Hcw Hi ltac:(lia))
    as (t2 & c2 & -> & Hb2 & Hw2 & Hl2 & Hp2 & _ & Hv2).
  rewrite p256_pval in Hv2 by apply HM. pose proof (sval_range c2 i Hw2).
  assert (b + t2 = 0) as -> by (destruct (Z.eqb_spec b 1); lia).
  rewrite c_assert_true, bind_ret by done.
  exists c2. unfold P256_NDIGITS. replace (i + 8 - 1) with (i + 7) by lia.
  split_and!; [done | done | lia | lia |].
  destruct (Z.eqb_spec b 1).
  - exists (- top - 1). lia.
  - exists (- top). lia.
Qed.

(** The number held by [tmp] with the pending digit [top] above position [n + 8]. *)
Lemma modmul_reduce_loop_spec n : forall top tmp, Z.of_nat n + 8 <= Z.of_nat (length tmp) ->
  words_ok tmp -> in_range 32 top ->
  exists top' tmp', modmul_reduce_loop MOD n top tmp = Ret (top', tmp') /\
    words_ok tmp' /\ length tmp' = length tmp /\
    pval tmp' 8 ≡[M] pval tmp (Z.of_nat n + 8) + 2 ^ (32 * (Z.of_nat n + 8)) * top.
Proof.
  assert (Hstep : forall k top tmp tmp', 0 <= k -> k + 8 <= Z.of_nat (length tmp) ->
    length tmp' = length tmp -> pval tmp' k = pval tmp k ->
    sval tmp' k ≡[M] sval tmp k + R256 * top ->
    pval tmp' (k + 8) ≡[M] pval tmp (k + 8) + 2 ^ (32 * (k + 8)) * top).
  { intros k top tmp tmp' Hk Hl El Ep Es. rewrite !sval_pval, Ep by lia.
    replace (32 * (k + 8)) with (32 * k + 256) by lia. rewrite Z.pow_add_r by lia.
    rewrite Es. apply cong_eq. ring. }
  induction n as [|n IH]; intros top tmp Hl Hw Ht; cbn [modmul_reduce_loop];
    destruct (modmul_reduce_spec (Z.of_nat _) top tmp ltac:(lia) Hl Hw Ht)
      as (tmp1 & -> & Hw1 & Hl1 & Hp1 & Hs1); rewrite bind_ret; cbv beta iota.
  - eexists _, tmp1. by split_and!.
  - destruct (IH (rd tmp1 (Z.of_nat (S n) + 7)) tmp1) as (top2 & tmp2 & E & Hw2 & Hl2 & Hv2);
      [lia | done | by apply words_rd |].
    exists top2, tmp2. split_and!; [done | done | lia |]. rewrite Hv2.
    rewrite <- (Hstep (Z.of_nat (S n)) top tmp tmp1) by (done || lia).
    replace (Z.of_nat (S n) + 8) with (Z.of_nat n + 8 + 1) by lia.
    replace (Z.of_nat (S n) + 7) with (Z.of_nat n + 8) by lia.
    rewrite (pval_succ tmp1) by lia. reflexivity.
Qed.

(** The final conditional subtraction brings a 256-bit number below the modulus. *)
Lemma final_sub_spec c : words_ok c -> 8 <= Z.of_nat (length c) ->
  exists t c1 t2 c2, subM MOD 0 c 0 (u32 (-1)) = (t, c1) /\ addM MOD 0 c1 0 t = (t2, c2) /\
    words_ok c2 /\ length c2 = length c /\ sval c2 0 = sval c 0 mod M.
Proof.
  intros Hw Hl. pose proof (mod_ok_lower MOD HM) as HMb.
  destruct (p256_subM_spec MOD 0 c 0 true (proj1 HM) Hw ltac:(lia) Hl)
    as (t & c1 & E & Hb & Hw1 & Hl1 & _ & _ & Hv1).
  rewrite p256_pval in Hv1 by apply HM.
  assert (Em : u32 (0 + t) = maskb (t =? -1)).
  { assert (t = 0 \/ t = -1) as [-> | ->] by lia; reflexivity. }
  destruct (addM_spec MOD 0 c1 0 (t =? -1) (proj1 HM) Hw1 ltac:(lia) ltac:(lia))
    as (t2 & c2 & E2 & Hb2 & Hw2 & Hl2 & _ & _ & Hv2).
  rewrite p256_pval in Hv2 by apply HM.
  exists (u32 (0 + t)), c1, (u32 (0 + t2)), c2. split_and!; try done; [by rewrite Em | lia |].
  pose proof (sval_range c 0 Hw). pose proof (sval_range c1 0 Hw1). pose proof (sval_range c2 0 Hw2).
  apply cong_small; destruct (Z.eqb_spec t (-1)).
  - exists 0. lia.
  - exists (-1). lia.
  - lia.
  - lia.
Qed.

End Reduce.

(** The product phase: after [i] digits, [tmp] and the pending [top] hold [P]. *)
Definition prod_inv (i P : Z) (s : Z * list Z) : Prop :=
  words_ok s.2 /\ length s.2 = 17%nat /\ in_range 32 s.1 /\
  (forall j, i + 7 <= j -> rd s.2 j = 0) /\ (i = 0 -> s.1 = 0) /\
  pval s.2 (i + 7) + 2 ^ (32 * (i + 7)) * s.1 = P.

Lemma prod_push i P top tmp tmp1 : 0 <= i <= 8 -> prod_inv i P (top, tmp) ->
  tmp1 = (if negb (i =? 0) then wr tmp (i + 7) top else tmp) ->
  words_ok tmp1 /\ length tmp1 = 17%nat /\ (forall j, i + 8 <= j -> rd tmp1 j = 0) /\
  pval tmp1 (i + 8) = P.
Proof.
  intros Hi (Hw & Hl & Ht & Hz & H0 & Hv) ->. simpl in *.
  destruct (Z.eqb_spec i 0) as [-> | Hne]; simpl.
  - split_and!; [done | done | intros; apply Hz; lia |].
    change (0 + 8) with (7 + 1). rewrite (pval_succ tmp 7) by lia.
    rewrite (Hz 7) by lia. rewrite H0 in Hv by done. change (0 + 7) with 7 in Hv. lia.
  - split_and!; [by apply Forall_wr | by rewrite length_wr | |].
    + intros j Hj. rewrite rd_wr_ne by lia. apply Hz. lia.
    + replace (i + 8) with (i + 7 + 1) by lia. by rewrite pval_wr_succ by lia.
Qed.

Lemma prod_step a d i P top tmp tmp1 : p256_ok a -> in_range 32 d -> 0 <= i <= 8 ->
  prod_inv i P (top, tmp) ->
  tmp1 = (if negb (i =? 0) then wr tmp (i + 7) top else tmp) ->
  prod_inv (i + 1) (P + 2 ^ (32 * i) * (dval a * d)) (mulAdd a d 0 tmp1 i).
Proof.
  intros Ha Hd Hi Hinv E. destruct (prod_push _ _ _ _ _ Hi Hinv E) as (Hw & Hl & Hz & Hv).
  destruct (mulAdd_spec a d 0 tmp1 i) as (t & c & -> & Hb & Hcw & Hcl & Hcp & Hcs & Hcv);
    try done; [lia | lia |].
  assert (Ht : in_range 32 t) by (unfold in_range; lia).
  rewrite Z.add_0_l, wrap_small, p256_pval in * by done.
  split_and!; simpl; [done | lia | done | | lia |].
  - intros j Hj. rewrite Hcs by lia. apply Hz. lia.
  - replace (i + 1 + 7) with (i + 8) by lia. rewrite sval_pval in * by lia.
    replace (32 * (i + 8)) with (32 * i + 256) by lia. rewrite Z.pow_add_r by lia.
    rewrite Hcp, <- Hv.
    transitivity (pval tmp1 i + 2 ^ (32 * i) * (sval c i + R256 * t)); [ring |]. rewrite Hcv. ring.
Qed.

(** The eight-digit prefix as a number of its own. *)
Lemma take8_ok c : words_ok c -> 8 <= Z.of_nat (length c) ->
  p256_ok (take 8 c) /\ dval (take 8 c) = sval c 0.
Proof. intros Hw Hl. split; [| done]. split; [by apply Forall_take | rewrite length_take; lia]. Qed.

Lemma modmul_spec MOD a top_b b : mod_ok MOD -> p256_ok a -> in_range 32 top_b -> p256_ok b ->
  exists c, p256_modmul MOD a top_b b = Ret c /\ p256_ok c /\
    dval c = (dval a * (dval b + R256 * top_b)) mod dval MOD.
Proof.
  intros HM Ha Ht Hb. unfold p256_modmul, P256_NDIGITS. cbv zeta.
  match goal with |- context [for_ 8 0 ?B ?s] =>
    assert (H1 : prod_inv (0 + Z.of_nat 8) (dval a * pval b (0 + Z.of_nat 8)) (for_ 8 0 B s));
    [ apply (for_inv (fun i => prod_inv i (dval a * pval b i))) | destruct (for_ 8 0 B s) as [top tmp] ]
  end.
  - intros i [top tmp] Hi Hinv. replace (i + 8 - 1) with (i + 7) by lia.
    rewrite pval_rec by (done || lia).
    replace (dval a * (pval b i + 2 ^ (32 * i) * rd b i))
      with (dval a * pval b i + 2 ^ (32 * i) * (dval a * rd b i)) by ring.
    apply (prod_step a (rd b i) i _ top tmp); try done; [by apply p256_rd | lia].
  - split_and!; try done.
    + apply Forall_replicate. unfold in_range. lia.
    + intros j Hj. apply (rd_replicate_0 17).
    + rewrite (pval_0 b), !Z.mul_0_r. reflexivity.
  - change (0 + Z.of_nat 8) with 8 in H1. rewrite p256_pval in H1 by done.
    pose proof (prod_step a top_b 8 _ top tmp _ Ha Ht ltac:(lia) H1 eq_refl) as H2.
    change (negb (8 =? 0)) with true in H2. cbv iota in H2. change (8 + 8 - 1) with (8 + 7).
    destruct (mulAdd a top_b 0 (wr tmp (8 + 7) top) 8) as [top2 tmp2].
    destruct H2 as (Hw2 & Hl2 & Ht2 & _ & _ & Hv2). simpl fst in *. simpl snd in *.
    destruct (modmul_reduce_loop_spec MOD HM 8 top2 tmp2) as (top3 & tmp3 & -> & Hw3 & Hl3 & Hv3);
      [lia | done | done |]. rewrite bind_ret. cbv beta iota.
    destruct (final_sub_spec MOD HM tmp3 Hw3 ltac:(lia)) as (m & c1 & t4 & c2 & -> & -> & Hw4 & Hl4 & Hv4).
    destruct (take8_ok c2 Hw4 ltac:(lia)) as [Hok Hv]. exists (take 8 c2). split_and!; [done | done |].
    pose proof (mod_ok_lower MOD HM). rewrite Hv, Hv4. apply cong_mod_eq; [lia |].
    change (sval tmp3 0) with (pval tmp3 8). rewrite Hv3.
    change (Z.of_nat 8 + 8) with (8 + 1 + 7). rewrite Hv2. apply cong_eq.
    change (2 ^ (32 * 8)) with R256. ring.
Qed.

(** ** Addition, subtraction and comparison *)

(** Close a carry chain that starts from a zero array at offset 0. *)
Lemma chained_zero F lo hi cr0 t c : chained 0 F lo hi P256_ZERO cr0 t c ->
  p256_ok c /\ dval c + R256 * t = cr0 + F 8.
Proof.
  intros (_ & Hw & Hl & _ & _ & Hv).
  assert (Hc : p256_ok c) by (split; [done | by rewrite Hl]).
  split; [done |]. rewrite (sval_p256 c Hc), (sval_p256 P256_ZERO zeros_ok) in Hv.
  change (dval P256_ZERO) with 0 in Hv. lia.
Qed.

Lemma words_zero : words_ok P256_ZERO.
Proof. apply zeros_ok. Qed.

Lemma rd_zero i : rd P256_ZERO i = 0.
Proof. apply (rd_replicate_0 8). Qed.

Lemma length_zero : Z.of_nat (length P256_ZERO) = 8.
Proof. reflexivity. Qed.

Lemma sub_spec a b : p256_ok a -> p256_ok b ->
  exists t c, p256_sub a b = (t, c) /\ -1 <= t <= 0 /\ p256_ok c /\
    dval c + R256 * t = dval a - dval b.
Proof.
  intros Ha Hb. unfold p256_sub. pose proof words_zero. pose proof length_zero.
  chain 0 (fun i => rd a i - rd b i) (fun i => pval a i - pval b i) (-1) 0 0 P256_ZERO.
  - intros i cr d Hi Hcr Hd _. change (0 + i) with i. rewrite rd_zero, Z.add_0_r.
    pose proof (p256_rd a i Ha). pose proof (p256_rd b i Hb). cbv zeta.
    rewrite (swrap_small 64 (rd a i - rd b i)) by (unfold in_srange; lia).
    rewrite (swrap_small 64) by (unfold in_srange; lia).
    split; [done |]. rewrite Z.shiftr_div_pow2 by lia. dmlia.
  - destruct (chained_zero _ _ _ _ _ _ Hch) as [Hok Hv]. destruct Hch as [Ht _].
    rewrite !p256_pval in Hv by done.
    exists t, c'. rewrite (swrap_small 32) by (unfold in_srange; lia). split_and!; try done; lia.
Qed.

Lemma add_spec a b : p256_ok a -> p256_ok b ->
  exists t c, p256_add a b = (t, c) /\ 0 <= t <= 1 /\ p256_ok c /\
    dval c + R256 * t = dval a + dval b.
Proof.
  intros Ha Hb. unfold p256_add. pose proof words_zero. pose proof length_zero.
  chain 0 (fun i => rd a i + rd b i) (fun i => pval a i + pval b i) 0 1 0 P256_ZERO.
  - intros i cr d Hi Hcr Hd _. change (0 + i) with i. rewrite rd_zero, Z.add_0_r.
    pose proof (p256_rd a i Ha). pose proof (p256_rd b i Hb). cbv zeta.
    rewrite (wrap_small 64 (rd a i + rd b i)) by (unfold in_range; lia).
    rewrite (wrap_small 64) by (unfold in_range; lia).
    split; [done |]. rewrite Z.shiftr_div_pow2 by lia. dmlia.
  - destruct (chained_zero _ _ _ _ _ _ Hch) as [Hok Hv]. destruct Hch as [Ht _].
    rewrite !p256_pval in Hv by done.
    exists t, c'. rewrite (swrap_small 32) by (unfold in_srange; lia). split_and!; try done; lia.
Qed.

Lemma add_d_spec a d : p256_ok a -> in_range 32 d ->
  exists t c, p256_add_d a d = (t, c) /\ 0 <= t <= 1 /\ p256_ok c /\ dval c + R256 * t = dval a + d.
Proof.
  intros Ha Hd. unfold p256_add_d, in_range in *. pose proof words_zero. pose proof length_zero.
  chain 0 (fun i => rd a i) (fun i => pval a i) 0 (W32 - 1) d P256_ZERO.
  - intros i cr c Hi Hcr Hc _. change (0 + i) with i. rewrite rd_zero, Z.add_0_r.
    pose proof (p256_rd a i Ha). cbv zeta. rewrite (wrap_small 64) by (unfold in_range; lia).
    split; [done |]. rewrite Z.shiftr_div_pow2 by lia. dmlia.
  - destruct (chained_zero _ _ _ _ _ _ Hch) as [Hok Hv]. destruct Hch as [Ht _].
    rewrite !p256_pval in Hv by done. pose proof (p256_range a Ha). pose proof (p256_range c' Hok).
    exists t, c'. rewrite (swrap_small 32) by (unfold in_srange; lia). split_and!; try done; lia.
Qed.

Lemma mod_spec MOD a : mod_ok MOD -> p256_ok a ->
  p256_ok (p256_mod MOD a) /\ dval (p256_mod MOD a) = dval a mod dval MOD.
Proof.
  intros HM [Hw Hl]. unfold p256_mod.
  destruct (final_sub_spec MOD HM a Hw ltac:(lia)) as (m & c1 & t & c2 & -> & -> & Hw2 & Hl2 & Hv).
  simpl. assert (Hc : p256_ok c2) by (split; [done | lia]). split; [done |].
  rewrite <- (sval_p256 c2), <- (sval_p256 a) by done. done.
Qed.

Lemma notzero_spec nz x : 0 <= nz <= 1 ->
  0 <= Z.lor nz (if x =? 0 then 0 else 1) <= 1 /\
  (Z.lor nz (if x =? 0 then 0 else 1) = 0 <-> nz = 0 /\ x = 0).
Proof.
  intros H. assert (nz = 0 \/ nz = 1) as [-> | ->] by lia; destruct (Z.eqb_spec x 0);
    [change (Z.lor 0 0) with 0 | change (Z.lor 0 1) with 1
    | change (Z.lor 1 0) with 1 | change (Z.lor 1 1) with 1]; lia.
Qed.

(** The comparison loop tracks the sign of a prefix difference. *)
Lemma cmp_spec a b : p256_ok a -> p256_ok b ->
  p256_cmp a b = (if dval a <? dval b then -1 else if dval a =? dval b then 0 else 1).
Proof.
  intros Ha Hb. unfold p256_cmp.
  match goal with |- context [for_ 8 0 ?B ?s] =>
    assert (H : (fun i '(br, nz) => -1 <= br <= 0 /\ 0 <= nz <= 1 /\
        exists q, 0 <= q < 2 ^ (32 * i) /\ q + 2 ^ (32 * i) * br = pval a i - pval b i /\
        (nz = 0 <-> q = 0)) (0 + Z.of_nat 8) (for_ 8 0 B s));
    [ apply for_inv | destruct (for_ 8 0 B s) as [br nz] ] end.
  - intros i [br nz] Hi (Hbr & Hnz & q & Hq & Hv & Hz).
    pose proof (p256_rd a i Ha). pose proof (p256_rd b i Hb). cbv zeta.
    rewrite (swrap_small 64 (rd a i - rd b i)) by (unfold in_srange; lia).
    rewrite (swrap_small 64) by (unfold in_srange; lia).
    set (x := br + (rd a i - rd b i)). pose proof (digit_split x) as Hx.
    pose proof (wrap_range 32 x ltac:(lia)) as Hr. unfold in_range in Hr.
    destruct (notzero_spec nz (u32 x) Hnz) as [Hnz' Hz'].
    split; [lia |]. split; [done |].
    exists (q + 2 ^ (32 * i) * u32 x). rewrite !pval_rec by (done || lia).
    replace (32 * (i + 1)) with (32 * i + 32) by lia. rewrite Z.pow_add_r by lia.
    split; [nia |]. split; [unfold x in *; nia |]. rewrite Hz', Hz. nia.
  - split_and!; try lia. exists 0. rewrite !pval_0. lia.
  - destruct H as (Hbr & Hnz & q & Hq & Hv & Hz). change (0 + Z.of_nat 8) with 8 in *.
    rewrite !p256_pval in Hv by done. change (2 ^ (32 * 8)) with R256 in *.
    assert (nz = 0 \/ nz = 1) as [-> | ->] by lia;
      assert (br = 0 \/ br = -1) as [-> | ->] by lia; zcase; try reflexivity; lia.
Qed.

Lemma is_zero_spec a : p256_ok a -> p256_is_zero a = (dval a =? 0).
Proof.
  intros Ha. unfold p256_is_zero.
  assert (H : (fun i r => r = 0 <-> pval a i = 0) (0 + Z.of_nat 8)
    (for_ 8 0 (fun i result => Z.lor result (rd a i)) 0)).
  { apply for_inv; [| by rewrite pval_0].
    intros i r Hi Hr. rewrite Z.lor_eq_0_iff, Hr, pval_rec by (done || lia).
    pose proof (p256_rd a i Ha). pose proof (pval_range a i ltac:(lia) (proj1 Ha)). nia. }
  change (0 + Z.of_nat 8) with 8 in H. cbv beta in H. rewrite p256_pval in H by done.
  apply eq_bool_prop_intro. rewrite !Is_true_true, !Z.eqb_eq. exact H.
Qed.

Lemma dval_parity a : p256_ok a -> dval a mod 2 = rd a 0 mod 2.
Proof.
  intros [_ Hl]. destruct a as [|d a]; [done |]. change (rd (d :: a) 0) with d. simpl dval.
  change W32 with (2 * 2147483648). rewrite <- Z.mul_assoc, (Z.mul_comm 2), Z.mod_add by lia. done.
Qed.

Lemma is_even_spec a : p256_ok a -> p256_is_even a = Z.even (dval a).
Proof.
  intros Ha. unfold p256_is_even. change 1 with (2 ^ 1 - 1).
  rewrite land_ones_mod, Zeven_mod, dval_parity by (done || lia). done.
Qed.

(** ** Halving *)
Lemma shr1_digit x y : 0 <= x < W32 ->
  Z.lor (Z.shiftr x 1) (u32 (Z.shiftl y 31)) = x / 2 + 2 ^ 31 * (y mod 2).
Proof.
  intros Hx. rewrite Z.shiftr_div_pow2 by lia. change (2 ^ 1) with 2.
  assert (E : u32 (Z.shiftl y 31) = Z.shiftl (y mod 2) 31).
  { rewrite !Z.shiftl_mul_pow2 by lia. unfold wrap. change W32 with (2 * 2 ^ 31).
    by rewrite Z.mul_mod_distr_r by lia. }
  rewrite E, lor_shiftl_add; [ring | lia | dmlia].
Qed.

Lemma shr1_spec a h b : p256_ok a -> p256_ok b -> 0 <= h <= 1 ->
  p256_ok (p256_shr1 a h b) /\ dval (p256_shr1 a h b) = (dval a + R256 * h) / 2.
Proof.
  intros Ha Hb Hh. unfold p256_shr1. cbv zeta.
  match goal with |- context [for_ 7 0 ?B ?s] =>
    assert (H : (fun i b => p256_ok b /\
        2 * pval b i + rd a 0 mod 2 = pval a i + 2 ^ (32 * i) * (rd a i mod 2))
      (0 + Z.of_nat 7) (for_ 7 0 B s));
    [ apply for_inv | generalize dependent (for_ 7 0 B s); intros b' [Hb' Hv] ] end.
  - intros i b' Hi [Hb' Hv]. pose proof (p256_rd a i Ha).
    rewrite shr1_digit by done. split.
    + split; [| rewrite length_wr; apply Hb']. apply Forall_wr; [apply Hb' |].
      unfold in_range. dmlia.
    + destruct Hb' as [_ Hl]. rewrite pval_wr_succ, (pval_rec a) by (done || lia).
      replace (32 * (i + 1)) with (32 * i + 32) by lia. rewrite Z.pow_add_r by lia.
      assert (rd a i = 2 * (rd a i / 2) + rd a i mod 2) by dmlia. nia.
  - split; [done |]. rewrite !pval_0. change (2 ^ (32 * 0)) with 1. lia.
  - change (0 + Z.of_nat 7) with 7 in Hv. pose proof (p256_rd a 7 Ha).
    rewrite shr1_digit, (Z.mod_small h) by (done || lia).
    assert (Hr : in_range 32 (rd a 7 / 2 + 2 ^ 31 * h)) by (unfold in_range; dmlia).
    assert (Hok : p256_ok (wr b' 7 (rd a 7 / 2 + 2 ^ 31 * h))).
    { split; [by apply Forall_wr, Hr; apply Hb' | rewrite length_wr; apply Hb']. }
    split; [done |]. rewrite <- (p256_pval _ Hok), <- (p256_pval _ Ha). change 8 with (7 + 1).
    destruct Hb' as [_ Hl].
    rewrite pval_wr_succ, (pval_rec a) by (done || lia). dmlia.
Qed.

(** ** Modular inverse *)
Lemma sub_mod_spec MOD a b : mod_ok MOD -> p256_ok a -> p256_ok b ->
  dval a < dval MOD -> dval b < dval MOD ->
  p256_ok (sub_mod MOD a b) /\ dval (sub_mod MOD a b) = (dval a - dval b) mod dval MOD.
Proof.
  intros HM Ha Hb Hla Hlb. unfold sub_mod.
  destruct (sub_spec a b Ha Hb) as (t & c & -> & Ht & Hc & Hv).
  pose proof (p256_range c Hc). pose proof (p256_range a Ha). pose proof (p256_range b Hb).
  pose proof (mod_ok_lower MOD HM).
  destruct (Z.eqb_spec t 0) as [-> | Hne]; cbn [negb].
  - split; [done |]. apply cong_small; [exists 0; lia | lia].
  - assert (t = -1) as -> by lia.
    destruct (add_spec c MOD Hc (proj1 HM)) as (t2 & c2 & -> & Ht2 & Hc2 & Hv2). simpl.
    pose proof (p256_range c2 Hc2). split; [done |].
    apply cong_small; [exists 1; lia | lia].
Qed.

Lemma even_split x : Z.even x = true -> x = 2 * (x / 2).
Proof. intros H. apply Z.even_spec in H as [k ->]. rewrite (Z.mul_comm 2 k), Z.div_mul by lia. lia. Qed.

(** The measure of the binary Euclid loop: every turn lowers it. *)
Definition euclid_measure (u v : Z) : Z :=
  2 * Z.log2 (u * v) + (if Z.odd u && Z.odd v then 1 else 0).

Lemma euclid_measure_halve u v : 0 < u -> 0 < v -> Z.even u = true ->
  euclid_measure (u / 2) v < euclid_measure u v /\ euclid_measure v (u / 2) < euclid_measure v u.
Proof.
  intros Hu Hv He. pose proof (even_split u He) as E. unfold euclid_measure.
  rewrite <- (Z.negb_even u), He, (Z.mul_comm v u), (Z.mul_comm v (u / 2)).
  assert (L : Z.log2 (u * v) = 1 + Z.log2 (u / 2 * v)).
  { rewrite E at 1. rewrite <- Z.mul_assoc, Z.log2_double by nia. lia. }
  rewrite L. destruct (Z.odd (u / 2)), (Z.odd v); cbn [andb negb]; lia.
Qed.

Lemma euclid_measure_sub u v : 0 < u < v -> Z.odd u = true -> Z.odd v = true ->
  euclid_measure u (v - u) < euclid_measure u v /\ euclid_measure (v - u) u < euclid_measure v u.
Proof.
  intros Huv Hu Hv. unfold euclid_measure. rewrite Z.odd_sub, Hu, Hv. cbn [andb xorb].
  pose proof (Z.log2_le_mono (u * (v - u)) (u * v) ltac:(nia)).
  pose proof (Z.log2_le_mono ((v - u) * u) (v * u) ltac:(nia)). lia.
Qed.

Lemma gcd_halve u v : 0 < u -> Z.even u = true -> Z.gcd u v = 1 -> Z.gcd (u / 2) v = 1.
Proof.
  intros Hu He Hg. pose proof (even_split u He) as E.
  assert (Hd : (Z.gcd (u / 2) v | 1)).
  { rewrite <- Hg. apply Z.gcd_greatest; [| apply Z.gcd_divide_r].
    rewrite E at 2. apply Z.divide_mul_r, Z.gcd_divide_l. }
  apply Z.divide_1_r_nonneg in Hd; [done | apply Z.gcd_nonneg].
Qed.

Section Modinv.
Context (MOD : p256_int) (HM : mod_ok MOD) (Hodd : Z.odd (dval MOD) = true) (A : Z).
Abbreviation M := (dval MOD).

(** The residues [r] and [u] held by a pair of registers, with [r * A = u]. *)
Definition tracks (r u : p256_int) : Prop :=
  p256_ok r /\ p256_ok u /\ dval r < M /\ dval r * A ≡[M] dval u.

Lemma two_coprime : Z.coprime M 2.
Proof.
  change 2 with (2 ^ 1). apply odd_coprime_pow2; [lia |].
  rewrite Zmod_odd. by rewrite Hodd.
Qed.

Lemma halve_mod_spec r : p256_ok r -> dval r < M ->
  p256_ok (halve_mod MOD r) /\ dval (halve_mod MOD r) < M /\
  dval (halve_mod MOD r) * 2 ≡[M] dval r.
Proof.
  intros Hr Hlt. unfold halve_mod. rewrite is_even_spec by done.
  pose proof (p256_range r Hr). destruct (Z.even (dval r)) eqn:E.
  - destruct (shr1_spec r 0 r Hr Hr ltac:(lia)) as [Hok Hv].
    rewrite Hv, Z.mul_0_r, Z.add_0_r. split_and!; [done | dmlia |].
    exists 0. pose proof (even_split _ E). lia.
  - destruct (add_spec r MOD Hr (proj1 HM)) as (t & c & -> & Ht & Hc & Hv).
    destruct (shr1_spec c t c Hc Hc Ht) as [Hok Hv2]. rewrite Hv2, Hv.
    split_and!; [done | dmlia |]. exists 1.
    assert (He : Z.even (dval r + M) = true).
    { rewrite Z.even_add, E, <- Z.negb_odd, Hodd. done. }
    pose proof (even_split _ He). lia.
Qed.

Lemma tracks_halve r u : tracks r u -> Z.even (dval u) = true ->
  tracks (halve_mod MOD r) (p256_shr1 u 0 u) /\ dval (p256_shr1 u 0 u) = dval u / 2.
Proof.
  intros (Hr & Hu & Hlt & Hc) He.
  destruct (halve_mod_spec r Hr Hlt) as (Hr' & Hlt' & H2).
  destruct (shr1_spec u 0 u Hu Hu ltac:(lia)) as [Hu' Hv]. rewrite Z.mul_0_r, Z.add_0_r in Hv.
  split; [| done]. split_and!; [done | done | done |].
  apply (cong_cancel_r _ 2); [apply two_coprime |].
  transitivity (dval (halve_mod MOD r) * 2 * A); [apply cong_eq; ring |].
  rewrite H2, Hc, Hv, Z.mul_comm. apply cong_eq. by apply even_split.
Qed.

Lemma tracks_sub r u s v : tracks r u -> tracks s v -> dval u <= dval v ->
  tracks (sub_mod MOD s r) (p256_sub v u).2 /\ dval (p256_sub v u).2 = dval v - dval u.
Proof.
  intros (Hr & Hu & Hlt & Hc) (Hs & Hv & Hlt' & Hc') Hle.
  destruct (sub_mod_spec MOD s r HM Hs Hr Hlt' Hlt) as [Hok E].
  destruct (sub_spec v u Hv Hu) as (t & c & -> & Ht & Hcok & Hcv). simpl.
  pose proof (p256_range c Hcok). pose proof (p256_range u Hu). pose proof (p256_range v Hv).
  pose proof (mod_ok_lower MOD HM).
  assert (t = 0) as -> by lia. split; [| lia]. split_and!; [done | done | |].
  - rewrite E. apply Z.mod_pos_bound. lia.
  - rewrite E, cong_mod by lia. replace (dval c) with (dval v - dval u) by lia.
    rewrite <- Hc, <- Hc'. apply cong_eq. ring.
Qed.

Lemma sub_ok2 v u : p256_ok v -> p256_ok u -> p256_ok (p256_sub v u).2.
Proof. intros Hv Hu. by destruct (sub_spec v u Hv Hu) as (t & c & -> & Ht & Hc & E). Qed.

Lemma sub_borrow v u : p256_ok v -> p256_ok u -> ((p256_sub v u).1 =? 0) = (dval u <=? dval v).
Proof.
  intros Hv Hu. destruct (sub_spec v u Hv Hu) as (t & c & -> & Ht & Hc & E). simpl.
  pose proof (p256_range c Hc). pose proof (p256_range u Hu). pose proof (p256_range v Hv).
  destruct (Z.eqb_spec t 0), (Z.leb_spec (dval u) (dval v)); lia.
Qed.

Lemma modinv_loop_spec fuel : forall r s u v, tracks r u -> tracks s v ->
  0 < dval u -> 0 < dval v -> Z.gcd (dval u) (dval v) = 1 ->
  euclid_measure (dval u) (dval v) < Z.of_nat fuel ->
  exists r', modinv_loop fuel MOD r s u v = Ret r' /\ p256_ok r' /\ dval r' * A ≡[M] 1.
Proof.
  induction fuel as [|fuel IH]; intros r s u v Hr Hs Hu Hv Hg Hm.
  { unfold euclid_measure in Hm. pose proof (Z.log2_nonneg (dval u * dval v)).
    destruct (Z.odd _ && Z.odd _) in Hm; lia. }
  pose proof (proj1 (proj2 Hr)) as Hu'. pose proof (proj1 (proj2 Hs)) as Hv'.
  cbn [modinv_loop]. rewrite !is_even_spec, sub_borrow, is_zero_spec by (done || by apply sub_ok2).
  destruct (Z.even (dval u)) eqn:Eu.
  { destruct (tracks_halve r u Hr Eu) as [Ht E]. pose proof (even_split _ Eu).
    apply IH; try done; rewrite E; [lia | by apply gcd_halve |].
    pose proof (euclid_measure_halve (dval u) (dval v) Hu Hv Eu). lia. }
  destruct (Z.even (dval v)) eqn:Ev.
  { destruct (tracks_halve s v Hs Ev) as [Ht E]. pose proof (even_split _ Ev).
    apply IH; try done; rewrite E; [lia | rewrite Z.gcd_comm; apply gcd_halve; try done; by rewrite Z.gcd_comm |].
    pose proof (euclid_measure_halve (dval v) (dval u) Hv Hu Ev). lia. }
  assert (Ou : Z.odd (dval u) = true) by (by rewrite <- Z.negb_even, Eu).
  assert (Ov : Z.odd (dval v) = true) by (by rewrite <- Z.negb_even, Ev).
  destruct (Z.leb_spec (dval u) (dval v)) as [Hle | Hlt].
  - destruct (tracks_sub r u s v Hr Hs Hle) as [Ht E]. cbv zeta. rewrite E.
    destruct (Z.eqb_spec (dval v - dval u) 0) as [Hz | Hnz].
    + exists r. destruct Hr as (Hok & _ & _ & Hc). split_and!; [done | done |]. rewrite Hc.
      replace (dval v) with (dval u) in Hg by lia. rewrite Z.gcd_diag_nonneg in Hg by lia.
      by rewrite Hg.
    + apply IH; try done; rewrite E; [lia | by rewrite Z.gcd_sub_diag_r |].
      pose proof (euclid_measure_sub (dval u) (dval v) ltac:(lia) Ou Ov). lia.
  - destruct (tracks_sub s v r u Hs Hr ltac:(lia)) as [Ht E]. cbv zeta.
    apply IH; try done; rewrite E; [lia | |].
    + rewrite Z.gcd_comm, Z.gcd_sub_diag_r, Z.gcd_comm. done.
    + pose proof (euclid_measure_sub (dval v) (dval u) ltac:(lia) Ov Ou). lia.
Qed.

End Modinv.
