(* ===== verification/P256Curve.v ===== *)
(** * Theorems on the P-256 arithmetic and the curve-membership test *)

From S2P Require Import Prelude.
From S2P Require Import Limbs.
From S2P Require Import Cong.
From S2P Require Import P256.
From S2P Require Import P256Spec.

Definition p256_okb (a : p256_int) : bool :=
  forallb (fun d => (0 <=? d) && (d <? W32)) a && (length a =? 8)%nat.

Lemma p256_okb_sound a : p256_okb a = true -> p256_ok a.
Proof.
  unfold p256_okb. intros H. apply andb_true_iff in H as [H1 H2]. apply Nat.eqb_eq in H2.
  split; [| done]. apply Forall_forall. intros d Hd. rewrite forallb_forall in H1.
  apply list_elem_of_In, H1 in Hd. unfold in_range. lia.
Qed.

Ltac p256_ok := apply p256_okb_sound; vm_compute; reflexivity.

Lemma p_ok : mod_ok SECP256r1_p.
Proof. split; [p256_ok | reflexivity]. Qed.
Lemma n_ok : mod_ok SECP256r1_n.
Proof. split; [p256_ok | reflexivity]. Qed.
Lemma b_ok : p256_ok SECP256r1_b.
Proof. p256_ok. Qed.

Definition secp_p : Z := 2 ^ 256 - 2 ^ 224 + 2 ^ 192 + 2 ^ 96 - 1.
Definition secp_b : Z := 0x5ac635d8aa3a93e7b3ebbd55769886bc651d06b0cc53b0f63bce3c3e27d2604b.

Lemma secp_p_val : dval SECP256r1_p = secp_p.
Proof. vm_compute. reflexivity. Qed.
Lemma secp_p_nz : secp_p <> 0.
Proof. discriminate. Qed.
Lemma secp_b_val : dval SECP256r1_b = secp_b.
Proof. vm_compute. reflexivity. Qed.

(** A number as its eight digits. *)
Definition p256_of (x : Z) : p256_int := to_words 8 x.

(** Points of the affine curve, with the range the header comment asks for. *)
Definition on_curve (x y : Z) : Prop :=
  0 < x < secp_p /\ 0 < y < secp_p /\ (y * y) mod secp_p = (x ^ 3 - 3 * x + secp_b) mod secp_p.

(** The right-hand side as the code computes it: reduced only on a carry out. *)
Definition curve_rhs (x : Z) : Z :=
  let w := (x ^ 3 - 3 * x) mod secp_p + secp_b in
  if w <? R256 then w else w - secp_p.

Lemma curve_rhs_cong x : curve_rhs x ≡[secp_p] x ^ 3 - 3 * x + secp_b.
Proof.
  unfold curve_rhs. cbv zeta. set (q := x ^ 3 - 3 * x).
  destruct (Z.ltb_spec (q mod secp_p + secp_b) R256).
  - by rewrite cong_mod.
  - transitivity (q mod secp_p + secp_b); [exists (-1); lia |]. by rewrite cong_mod.
Qed.

(** The three subtractions of [x] from the cube. *)
#[local] Abbreviation subp := (sub_mod SECP256r1_p).

Lemma cube_sub x x3 : p256_ok x -> p256_ok x3 -> dval x < secp_p ->
  dval x3 = dval x ^ 3 mod secp_p ->
  p256_ok (subp (subp (subp x3 x) x) x) /\
  dval (subp (subp (subp x3 x) x) x) = (dval x ^ 3 - 3 * dval x) mod secp_p.
Proof.
  intros Hx Hx3 Hlt E. assert (Hp : 0 < secp_p) by done.
  assert (Hstep : forall c v, p256_ok c -> dval c = v mod secp_p ->
    p256_ok (subp c x) /\ dval (subp c x) = (v - dval x) mod secp_p).
  { intros c v Hc Ec. pose proof (Z.mod_pos_bound v secp_p Hp).
    destruct (sub_mod_spec SECP256r1_p c x p_ok Hc Hx) as [Hok Hv];
      try (rewrite secp_p_val; lia).
    split; [done |]. rewrite Hv, secp_p_val, Ec. apply cong_mod_eq; [lia |].
    by rewrite cong_mod by lia. }
  destruct (Hstep _ _ Hx3 E) as [H1 E1]. destruct (Hstep _ _ H1 E1) as [H2 E2].
  destruct (Hstep _ _ H2 E2) as [H3 E3]. split; [done |]. rewrite E3. f_equal. lia.
Qed.

Lemma curve_add_b w : p256_ok w -> dval w < secp_p ->
  exists x3, (let '(carry, x3) := p256_add w SECP256r1_b in
              if negb (carry =? 0) then (p256_sub x3 SECP256r1_p).2 else x3) = x3 /\
    p256_ok x3 /\
    dval x3 = (if dval w + secp_b <? R256 then dval w + secp_b else dval w + secp_b - secp_p).
Proof.
  intros Hw Hlt. eexists. split; [reflexivity |].
  destruct (add_spec w SECP256r1_b Hw b_ok) as (t & c & -> & Ht & Hc & Hv).
  rewrite secp_b_val in Hv. pose proof (p256_range c Hc). pose proof (p256_range w Hw).
  assert (0 < secp_b < secp_p) by done. assert (secp_p < R256) by done.
  destruct (Z.eqb_spec t 0) as [-> | Hne]; cbn [negb].
  - split; [done |]. zcase; lia.
  - destruct (sub_spec c SECP256r1_p Hc (proj1 p_ok)) as (t2 & c2 & -> & Ht2 & Hc2 & Hv2). cbn [snd].
    rewrite secp_p_val in Hv2. pose proof (p256_range c2 Hc2). split; [done |].
    zcase; lia.
Qed.

Lemma p_gt x : p256_ok x -> (p256_cmp SECP256r1_p x <=? 0) = (secp_p <=? dval x).
Proof.
  intros Hx. rewrite cmp_spec, secp_p_val by (done || apply p_ok).
  destruct (Z.ltb_spec secp_p (dval x)), (Z.eqb_spec secp_p (dval x)), (Z.leb_spec secp_p (dval x));
    try done; lia.
Qed.

Lemma three_way_eq a b : ((if a <? b then -1 else if a =? b then 0 else 1) =? 0) = (a =? b).
Proof. destruct (Z.ltb_spec a b), (Z.eqb_spec a b); try done; lia. Qed.

Lemma is_valid_point_spec x y : p256_ok x -> p256_ok y ->
  p256_is_valid_point x y = Ret
    (if (0 <? dval x) && (dval x <? secp_p) && (0 <? dval y) && (dval y <? secp_p)
        && ((dval y * dval y) mod secp_p =? curve_rhs (dval x)) then 1 else 0).
Proof.
  intros Hx Hy. unfold p256_is_valid_point. rewrite !p_gt, !is_zero_spec by done.
  pose proof (p256_range x Hx). pose proof (p256_range y Hy).
  destruct (Z.leb_spec secp_p (dval x)), (Z.leb_spec secp_p (dval y)), (Z.eqb_spec (dval x) 0),
    (Z.eqb_spec (dval y) 0), (Z.ltb_spec 0 (dval x)), (Z.ltb_spec (dval x) secp_p),
    (Z.ltb_spec 0 (dval y)), (Z.ltb_spec (dval y) secp_p); try lia; try reflexivity; cbn [orb andb].
  destruct (modmul_spec SECP256r1_p y 0 y p_ok Hy ltac:(done) Hy) as (y2 & -> & Hy2 & Ey2).
  destruct (modmul_spec SECP256r1_p x 0 x p_ok Hx ltac:(done) Hx) as (x2 & -> & Hx2 & Ex2).
  rewrite !bind_ret.
  destruct (modmul_spec SECP256r1_p x 0 x2 p_ok Hx ltac:(done) Hx2) as (x3 & -> & Hx3 & Ex3).
  rewrite !bind_ret, secp_p_val, Z.mul_0_r, Z.add_0_r in *.
  destruct (cube_sub x x3 Hx Hx3) as [Hw Ew]; [done | |].
  { rewrite Ex3, Ex2. apply cong_mod_eq; [done |]. rewrite cong_mod by done. apply cong_eq. ring. }
  cbv zeta in *.
  destruct (curve_add_b _ Hw) as (r & Er & Hr & Ev).
  { rewrite Ew. by apply Z.mod_pos_bound. }
  destruct (p256_add _ SECP256r1_b) as [carry c]. rewrite Er.
  by rewrite cmp_spec, three_way_eq, Ey2, Ev, Ew by done.
Qed.

(** ** Digit shifts *)
Lemma shl_digit x y n : 0 < n < 32 -> 0 <= x < W32 -> 0 <= y < W32 ->
  Z.lor (u32 (Z.shiftl x n)) (Z.shiftr y (32 - n)) = (x * 2 ^ n) mod W32 + (y * 2 ^ n) / W32.
Proof.
  intros Hn Hx Hy. rewrite Z.shiftr_div_pow2, Z.shiftl_mul_pow2 by lia. unfold wrap.
  assert (E : W32 = 2 ^ (32 - n) * 2 ^ n) by (rewrite <- Z.pow_add_r by lia; f_equal; lia).
  assert (E1 : (x * 2 ^ n) mod W32 = (x mod 2 ^ (32 - n)) * 2 ^ n).
  { rewrite E. apply Z.mul_mod_distr_r; lia. }
  assert (E2 : (y * 2 ^ n) / W32 = y / 2 ^ (32 - n)).
  { rewrite E. apply Z.div_mul_cancel_r; lia. }
  rewrite E1, E2, Z.lor_comm, <- (Z.shiftl_mul_pow2 (_ mod _) n) by lia.
  rewrite lor_shiftl_add; [rewrite Z.shiftl_mul_pow2; lia | lia |].
  split; [apply Z.div_pos; lia |]. apply Z.div_lt_upper_bound; lia.
Qed.

Lemma shr_digit x y n : 0 < n < 32 -> 0 <= x < W32 ->
  Z.lor (Z.shiftr x n) (u32 (Z.shiftl y (32 - n))) = x / 2 ^ n + (y mod 2 ^ n) * 2 ^ (32 - n).
Proof.
  intros Hn Hx. rewrite Z.shiftr_div_pow2 by lia.
  assert (E : W32 = 2 ^ n * 2 ^ (32 - n)) by (rewrite <- Z.pow_add_r by lia; f_equal; lia).
  assert (E1 : u32 (Z.shiftl y (32 - n)) = Z.shiftl (y mod 2 ^ n) (32 - n)).
  { rewrite !Z.shiftl_mul_pow2 by lia. unfold wrap. rewrite E. apply Z.mul_mod_distr_r; lia. }
  rewrite E1, lor_shiftl_add; [lia | lia |].
  split; [apply Z.div_pos; lia |]. apply Z.div_lt_upper_bound; lia.
Qed.

Lemma shl32_ret x n : 0 <= n < 32 -> shl32 x n = Ret (u32 (Z.shiftl x n)).
Proof. intros. unfold shl32. zcase; [done | lia]. Qed.
Lemma shr32_ret x n : 0 <= n < 32 -> shr32 x n = Ret (Z.shiftr x n).
Proof. intros. unfold shr32. zcase; [done | lia]. Qed.

Section Shift.
Context (a : p256_int) (Ha : p256_ok a) (n : Z) (Hn : 0 < n < 32).

Definition shl_out (j : Z) : Z :=
  (rd a j * 2 ^ n) mod W32 + (if j =? 0 then 0 else (rd a (j - 1) * 2 ^ n) / W32).
Definition shr_out (j : Z) : Z := rd a j / 2 ^ n + (rd a (j + 1) mod 2 ^ n) * 2 ^ (32 - n).

Lemma shl_loop_spec (i : nat) : forall b, (i < length b)%nat ->
  exists b', p256_shl_loop a n i b = Ret b' /\ length b' = length b /\
    (forall j, 0 <= j <= Z.of_nat i -> rd b' j = shl_out j) /\
    (forall j, Z.of_nat i < j -> rd b' j = rd b j).
Proof.
  induction i as [|i IH]; intros b Hl; cbn [p256_shl_loop];
    rewrite ?shl32_ret, ?shr32_ret, !bind_ret by lia.
  - eexists. split; [reflexivity |]. rewrite length_wr. split; [done |]. split; intros j Hj.
    + replace j with 0 by lia. rewrite rd_wr_eq, Z.shiftl_mul_pow2 by lia.
      unfold shl_out, wrap. change (0 =? 0) with true. cbv iota. lia.
    + by rewrite rd_wr_ne by lia.
  - destruct (IH (wr b (Z.of_nat (S i)) (Z.lor (u32 (Z.shiftl (rd a (Z.of_nat (S i))) n))
      (Z.shiftr (rd a (Z.of_nat (S i) - 1)) (32 - n))))) as (b' & -> & Hl' & Hlo & Hhi).
    { rewrite length_wr. lia. }
    rewrite length_wr in Hl'. exists b'. split_and!; [done | done | |].
    + intros j Hj. destruct (decide (j = Z.of_nat (S i))) as [-> | Hne]; [| apply Hlo; lia].
      rewrite Hhi, rd_wr_eq, shl_digit by (lia || by apply p256_rd). unfold shl_out.
      destruct (Z.eqb_spec (Z.of_nat (S i)) 0); [lia | done].
    + intros j Hj. rewrite Hhi, rd_wr_ne by lia. done.
Qed.

Lemma shl_sum b i : length b = 8%nat -> (forall j, 0 <= j <= 7 -> rd b j = shl_out j) ->
  0 <= i < 8 -> pval b (i + 1) + 2 ^ (32 * (i + 1)) * ((rd a i * 2 ^ n) / W32) = pval a (i + 1) * 2 ^ n.
Proof.
  intros Hl Hb [Hi Hi8]. revert i Hi Hi8. apply (natlike_ind (fun i => i < 8 -> _)).
  - intros _. change (0 + 1) with 1. destruct Ha as [_ Hla].
    rewrite !pval_1, Hb by lia. unfold shl_out. change (0 =? 0) with true. cbv iota.
    pose proof (Z.div_mod (rd a 0 * 2 ^ n) W32 ltac:(lia)). change (2 ^ (32 * 1)) with W32. lia.
  - intros i Hi IH Hi8. specialize (IH ltac:(lia)). destruct Ha as [_ Hla].
    rewrite <- Z.add_1_r, (pval_succ b), (pval_succ a) by lia. rewrite Hb by lia.
    unfold shl_out. destruct (Z.eqb_spec (i + 1) 0); [lia |].
    replace (i + 1 - 1) with i by lia. replace (32 * (i + 1 + 1)) with (32 * (i + 1) + 32) by lia.
    rewrite Z.pow_add_r by lia. rewrite Z.mul_add_distr_r, <- IH.
    pose proof (Z.div_mod (rd a (i + 1) * 2 ^ n) W32 ltac:(lia)) as Hd.
    set (x := rd a (i + 1) * 2 ^ n) in *.
    transitivity (pval b (i + 1) + 2 ^ (32 * (i + 1)) * (rd a i * 2 ^ n / W32)
      + 2 ^ (32 * (i + 1)) * (W32 * (x / W32) + x mod W32)); [ring |].
    rewrite <- Hd. unfold x. ring.
Qed.

Lemma shr_loop_spec (k : nat) : forall i b, 0 <= i -> i + Z.of_nat k = 7 -> length b = 8%nat ->
  exists b', p256_shr_loop a n k i b = Ret b' /\ length b' = length b /\
    (forall j, i <= j <= 7 -> rd b' j = shr_out j) /\
    (forall j, 0 <= j < i -> rd b' j = rd b j).
Proof.
  induction k as [|k IH]; intros i b Hi Hk Hl; cbn [p256_shr_loop];
    rewrite ?shl32_ret, ?shr32_ret, !bind_ret by lia.
  - eexists. split; [reflexivity |]. rewrite length_wr. split; [done |]. split; intros j Hj.
    + replace j with 7 by lia. replace i with 7 by lia. rewrite rd_wr_eq, Z.shiftr_div_pow2 by lia.
      unfold shr_out. destruct Ha as [_ Hla].
      assert (rd a (7 + 1) = 0) as -> by (unfold rd; apply nth_overflow; simpl; lia).
      rewrite Z.mod_0_l by lia. lia.
    + by rewrite rd_wr_ne by lia.
  - destruct (IH (i + 1) (wr b i (Z.lor (Z.shiftr (rd a i) n) (u32 (Z.shiftl (rd a (i + 1)) (32 - n))))))
      as (b' & -> & Hl' & Hlo & Hhi); [lia | lia | by rewrite length_wr |].
    rewrite length_wr in Hl'. exists b'. split_and!; [done | done | |].
    + intros j Hj. destruct (decide (j = i)) as [-> | Hne]; [| apply Hlo; lia].
      by rewrite Hhi, rd_wr_eq, shr_digit by (lia || by apply p256_rd).
    + intros j Hj. rewrite Hhi, rd_wr_ne by lia. done.
Qed.

Lemma shr_sum b i : length b = 8%nat -> (forall j, 0 <= j <= 7 -> rd b j = shr_out j) ->
  0 <= i <= 8 ->
  2 ^ n * pval b i + rd a 0 mod 2 ^ n = pval a i + 2 ^ (32 * i) * (rd a i mod 2 ^ n).
Proof.
  intros Hl Hb [Hi Hi8]. revert i Hi Hi8. apply (natlike_ind (fun i => i <= 8 -> _)).
  - intros _. rewrite !pval_0. change (2 ^ (32 * 0)) with 1. lia.
  - intros i Hi IH Hi8. specialize (IH ltac:(lia)). destruct Ha as [_ Hla].
    rewrite <- Z.add_1_r, (pval_succ b), (pval_succ a), Hb by lia. unfold shr_out.
    replace (32 * (i + 1)) with (32 * i + 32) by lia. rewrite Z.pow_add_r by lia.
    assert (E : W32 = 2 ^ n * 2 ^ (32 - n)) by (rewrite <- Z.pow_add_r by lia; f_equal; lia).
    pose proof (Z.div_mod (rd a i) (2 ^ n) ltac:(lia)) as Hd. rewrite E.
    transitivity (2 ^ n * pval b i + rd a 0 mod 2 ^ n
      + 2 ^ (32 * i) * (2 ^ n * (rd a i / 2 ^ n) + rd a i mod 2 ^ n) - 2 ^ (32 * i) * (rd a i mod 2 ^ n)
      + 2 ^ (32 * i) * (2 ^ n * 2 ^ (32 - n)) * (rd a (i + 1) mod 2 ^ n)); [ring |].
    rewrite <- Hd, IH. ring.
Qed.

End Shift.

(** ** Big-endian input *)
Lemma from_bin_value src dst : bytes_ok src -> length src = 32%nat -> length dst = 8%nat ->
  p256_ok (p256_from_bin src dst) /\ dval (p256_from_bin src dst) = be_decode src.
Proof.
  intros Hs Hls Hld. unfold p256_from_bin.
  match goal with |- context [for_ 8 0 ?B ?s] =>
    assert (H : (fun k d => length d = 8%nat /\ words_ok (drop (Z.to_nat (8 - k)) d) /\
        dval (drop (Z.to_nat (8 - k)) d) = be_decode (take (Z.to_nat (4 * k)) src))
      (0 + Z.of_nat 8) (for_ 8 0 B s)); [apply for_inv |] end.
  - intros k d Hk (Hl & Hw & Hv). cbv zeta. rewrite Z.add_0_r, or4_value by (by apply (rd_range 8)).
    set (x := be_decode _). assert (Hx : in_range 32 x).
    { apply (be_decode_range [_; _; _; _]). repeat constructor; by apply (rd_range 8). }
    replace (8 - (k + 1)) with (7 - k) by lia. replace (8 - k) with (7 - k + 1) in * by lia.
    assert (Ed : drop (Z.to_nat (7 - k)) (wr d (7 - k) x) = x :: drop (Z.to_nat (7 - k + 1)) d).
    { replace (Z.to_nat (7 - k + 1)) with (S (Z.to_nat (7 - k))) by lia. unfold wr.
      rewrite (drop_S _ x) by (apply list_lookup_insert_eq; lia). by rewrite drop_insert_lt by lia. }
    rewrite length_wr, Ed. split_and!; [done | by constructor |]. cbn [dval]. rewrite Hv.
    replace (4 * (k + 1)) with (4 * k + 4) by lia.
    replace (Z.to_nat (4 * k + 4)) with (Z.to_nat (4 * k) + 4)%nat by lia.
    rewrite <- take_take_drop, (drop_4_rd src (4 * k)) by lia. cbn [app take]. rewrite take_0.
    rewrite be_decode_app. fold x. cbn [length]. change (2 ^ (8 * Z.of_nat 4)) with W32. lia.
  - split_and!; [done | |]; rewrite drop_ge by (simpl; lia); [constructor | done].
  - destruct H as (Hl & Hw & Hv). simpl in Hw, Hv. rewrite drop_0 in Hw, Hv.
    rewrite take_ge in Hv by (rewrite Hls; done). by split; [split |].
Qed.

(** The shifts on whole numbers. *)
Lemma digits_ok (c : p256_int) : length c = 8%nat -> (forall j, 0 <= j <= 7 -> in_range 32 (rd c j)) -> p256_ok c.
Proof.
  intros Hl H. split; [| done]. apply Forall_lookup_2. intros i x Hi.
  pose proof (lookup_lt_Some _ _ _ Hi). specialize (H (Z.of_nat i) ltac:(lia)).
  rewrite (rd_lookup c (Z.of_nat i) x) in H by (by rewrite Nat2Z.id). done.
Qed.

Lemma shl_spec a n b : p256_ok a -> p256_ok b -> 0 < n < 32 ->
  exists top c, p256_shl a n b = Ret (top, c) /\ p256_ok c /\ 0 <= top < 2 ^ n /\
    dval c + R256 * top = dval a * 2 ^ n.
Proof.
  intros Ha [_ Hb] Hn. unfold p256_shl. rewrite Z.rem_small by lia.
  destruct (shl_loop_spec a Ha n Hn 7 b ltac:(lia)) as (c & -> & Hl & Hlo & _).
  assert (Hn31 : 2 ^ n <= 2 ^ 31) by (apply Z.pow_le_mono_r; lia).
  rewrite bind_ret. eexists _, c. split; [reflexivity |].
  pose proof (shl_sum a Ha n Hn c 7 ltac:(lia) Hlo ltac:(lia)) as E.
  change (7 + 1) with 8 in E. rewrite (p256_pval a Ha), (pval_full c) in E by lia.
  unfold P256_NDIGITS. pose proof (p256_rd a 7 Ha). change (8 - 1) with 7.
  rewrite Z.shiftl_mul_pow2, Z.shiftr_div_pow2 by lia. rewrite (wrap_small 64) by (unfold in_range; nia).
  assert (Ht : 0 <= rd a 7 * 2 ^ n / W32 < 2 ^ n) by (split; [apply Z.div_pos | apply Z.div_lt_upper_bound]; nia).
  rewrite (wrap_small 32) by (unfold in_range; lia). split_and!; [| lia | lia | exact E].
  apply digits_ok; [lia |]. intros j Hj. rewrite Hlo by done. unfold shl_out, in_range.
  pose proof (p256_rd a j Ha) as Hj'. pose proof (p256_rd a (j - 1) Ha) as Hj1.
  pose proof (shl_digit (rd a j) (if j =? 0 then 0 else rd a (j - 1)) n Hn Hj' ltac:(case_match; lia)) as Ed.
  replace (if j =? 0 then 0 else rd a (j - 1) * 2 ^ n / W32) with ((if j =? 0 then 0 else rd a (j - 1)) * 2 ^ n / W32)
    by (case_match; [by rewrite Z.mul_0_l, Z.div_0_l by lia | done]).
  rewrite <- Ed. apply lor_in_range; [lia | apply wrap_range; lia | apply shiftr_in_range; [lia |]].
  unfold in_range. case_match; lia.
Qed.

Lemma shr_spec a n b : p256_ok a -> p256_ok b -> 0 < n < 32 ->
  exists c, p256_shr a n b = Ret c /\ p256_ok c /\ dval c = dval a / 2 ^ n.
Proof.
  intros Ha [_ Hb] Hn. unfold p256_shr. rewrite Z.rem_small by lia.
  destruct (shr_loop_spec a Ha n Hn 7 0 b ltac:(lia) ltac:(lia) Hb) as (c & -> & Hl & Hlo & _).
  exists c. split; [done |]. split.
  - apply digits_ok; [lia |]. intros j Hj. rewrite Hlo by lia. unfold shr_out.
    pose proof (p256_rd a j Ha) as Hj'. pose proof (p256_rd a (j + 1) Ha) as Hj1.
    rewrite <- shr_digit by done.
    apply lor_in_range; [lia | apply shiftr_in_range; [lia | done] | apply wrap_range; lia].
  - pose proof (shr_sum a Ha n Hn c 8 ltac:(lia) Hlo ltac:(lia)) as E.
    assert (E0 : rd a 8 = 0) by (unfold rd; apply nth_overflow; rewrite (proj2 Ha); simpl; lia).
    rewrite E0, Z.mod_0_l, (p256_pval a Ha), (pval_full c) in E by lia.
    apply (Z.div_unique _ _ _ (rd a 0 mod 2 ^ n)); [left; apply Z.mod_pos_bound |]; lia.
Qed.

(** ** Inversion *)
Lemma modinv_spec fuel MOD a : mod_ok MOD -> Z.odd (dval MOD) = true -> p256_ok a ->
  0 < dval a -> Z.gcd (dval MOD) (dval a) = 1 -> (1024 <= fuel)%nat ->
  exists b, p256_modinv_vartime fuel MOD a = Ret b /\ p256_ok b /\ 0 <= dval b < dval MOD /\
    (dval a * dval b) mod dval MOD = 1.
Proof.
  intros HM Hodd Ha Hpos Hg Hf. pose proof (mod_ok_lower MOD HM). pose proof (p256_range a Ha).
  destruct (modinv_loop_spec MOD HM Hodd (dval a) fuel P256_ZERO P256_ONE MOD a)
    as (r & E & Hr & Hc); try done; [| | lia | |].
  - split_and!; [p256_ok | apply HM | change (dval P256_ZERO) with 0; lia |].
    change (dval P256_ZERO) with 0. exists (-1). lia.
  - split_and!; [p256_ok | done | change (dval P256_ONE) with 1; lia |].
    change (dval P256_ONE) with 1. exists 0. lia.
  - unfold euclid_measure.
    assert (Z.log2 (dval MOD * dval a) < 512).
    { apply Z.log2_lt_pow2; [nia |]. change (2 ^ 512) with (R256 * R256). nia. }
    destruct (Z.odd _ && Z.odd _); lia.
  - unfold p256_modinv_vartime. rewrite E, bind_ret.
    destruct (mod_spec MOD r HM Hr) as [Hok Hv]. eexists. split; [reflexivity |].
    rewrite Hv. split; [done |]. split; [apply Z.mod_pos_bound; lia |].
    rewrite Zmult_mod_idemp_r, Z.mul_comm. rewrite (cong_mod_eq _ _ 1) by (lia || done).
    apply Z.mod_small. lia.
Qed.

(** ** Properties *)

(** [p256_modmul] returns [a * (top_b * 2^256 + b) mod MOD] for every modulus
    whose top digit is -1; none of its assertions fails. *)
Theorem p256_modmul_correct MOD a top_b b :
  mod_ok MOD -> p256_ok a -> in_range 32 top_b -> p256_ok b ->
  exists c, p256_modmul MOD a top_b b = Ret c /\ p256_ok c /\
    dval c = (dval a * (dval b + 2 ^ 256 * top_b)) mod dval MOD.
Proof. apply modmul_spec. Qed.

Lemma p256_modmul_correct_witness : exists c,
  p256_modmul SECP256r1_n SECP256r1_b 7 SECP256r1_p = Ret c /\ p256_ok c /\
  dval c = (dval SECP256r1_b * (dval SECP256r1_p + 2 ^ 256 * 7)) mod dval SECP256r1_n.
Proof.
  apply (p256_modmul_correct SECP256r1_n SECP256r1_b 7 SECP256r1_p);
    [apply n_ok | apply b_ok | done | apply p_ok].
Defined.

(** [p256_modinv_vartime] terminates within 1024 turns of its loop on every
    number coprime to the modulus, and returns the inverse below the modulus. *)
Theorem p256_modinv_correct fuel MOD a : mod_ok MOD -> Z.odd (dval MOD) = true -> p256_ok a ->
  0 < dval a -> Z.gcd (dval MOD) (dval a) = 1 -> (1024 <= fuel)%nat ->
  exists b, p256_modinv_vartime fuel MOD a = Ret b /\ p256_ok b /\ 0 <= dval b < dval MOD /\
    (dval a * dval b) mod dval MOD = 1.
Proof. apply modinv_spec. Qed.

Lemma p256_modinv_correct_witness : exists b,
  p256_modinv_vartime 1024 SECP256r1_n SECP256r1_b = Ret b /\ p256_ok b /\
  0 <= dval b < dval SECP256r1_n /\ (dval SECP256r1_b * dval b) mod dval SECP256r1_n = 1.
Proof.
  apply (p256_modinv_correct 1024 SECP256r1_n SECP256r1_b);
    [apply n_ok | reflexivity | apply b_ok | reflexivity | vm_compute; reflexivity | lia].
Defined.

(** A point [p256_is_valid_point] accepts lies on the curve with both
    coordinates in range; a point of the curve is accepted when the square of
    its ordinate is at least [2^256 - p]. *)
Theorem p256_is_valid_point_correct x y : p256_ok x -> p256_ok y ->
  (p256_is_valid_point x y = Ret 1 -> on_curve (dval x) (dval y)) /\
  (on_curve (dval x) (dval y) -> 2 ^ 256 - secp_p <= (dval y * dval y) mod secp_p ->
   p256_is_valid_point x y = Ret 1).
Proof.
  intros Hx Hy. rewrite is_valid_point_spec by done. pose proof (curve_rhs_cong (dval x)) as Hc.
  split.
  - intros E. match type of E with context [if ?b then _ else _] => destruct b eqn:Eb end;
      [| discriminate E]. zbool. unfold on_curve. split_and!; try lia.
    rewrite <- (cong_mod_eq _ _ _ secp_p_nz Hc), <- H0. by rewrite Z.mod_mod.
  - intros (Hxr & Hyr & E) Hbig. zcase; [done |]. exfalso.
    enough ((dval y * dval y) mod secp_p = curve_rhs (dval x)) by lia.
    rewrite E in *. symmetry. apply cong_small; [done |]. unfold curve_rhs in *. cbv zeta in *.
    assert (0 < secp_b < secp_p) by done. assert (secp_p < R256) by done.
    pose proof (Z.mod_pos_bound (dval x ^ 3 - 3 * dval x) secp_p ltac:(done)) as Hq.
    rewrite <- Zplus_mod_idemp_l in Hbig.
    set (q := (dval x ^ 3 - 3 * dval x) mod secp_p) in *.
    destruct (Z.ltb_spec (q + secp_b) R256); [| lia].
    destruct (Z.ltb_spec (q + secp_b) secp_p); [lia |].
    replace ((q + secp_b) mod secp_p) with (q + secp_b - secp_p) in Hbig; [lia |].
    apply cong_small; [exists (-1); lia | lia].
Qed.

(** The base point of the curve. *)
Definition gx : p256_int :=
  p256_of 0x6b17d1f2e12c4247f8bce6e563a440f277037d812deb33a0f4a13945d898c296.
Definition gy : p256_int :=
  p256_of 0x4fe342e2fe1a7f9b8ee7eb4a7c0f9e162bce33576b315ececbb6406837bf51f5.

Lemma p256_is_valid_point_correct_witness : on_curve (dval gx) (dval gy).
Proof.
  assert (Hx : p256_ok gx) by p256_ok. assert (Hy : p256_ok gy) by p256_ok.
  apply (p256_is_valid_point_correct gx gy Hx Hy). vm_compute. reflexivity.
Defined.

(** A point of the curve whose right-hand side falls between [p] and [2^256]. *)
Definition lost_x : p256_int :=
  p256_of 0xd7325d7646cd60d80a92738ceb345f844cffaf35841022cab176f692de8de1d7.
Definition lost_y : p256_int := p256_of 5.

(** [p256_is_valid_point] rejects a point of the curve: after adding [b] it
    subtracts [p] only when the sum carries out of 256 bits, so a sum between
    [p] and [2^256] stays unreduced and differs from the reduced [y^2]. *)
Theorem p256_is_valid_point_incomplete :
  on_curve (dval lost_x) (dval lost_y) /\ p256_is_valid_point lost_x lost_y = Ret 0.
Proof. vm_compute. repeat split; reflexivity. Qed.

(** A shift by 1 to 31 is exact: left shifts return the digit shifted out,
    right shifts round down. A shift by a multiple of 32 shifts a digit by its
    own width, which is undefined. *)
Theorem p256_shift_correct a n b : p256_ok a -> p256_ok b -> 0 <= n ->
  (0 < n < 32 ->
    (exists top c, p256_shl a n b = Ret (top, c) /\ dval c + 2 ^ 256 * top = dval a * 2 ^ n) /\
    (exists c, p256_shr a n b = Ret c /\ dval c = dval a / 2 ^ n)) /\
  (n mod 32 = 0 -> p256_shl a n b = Fault BadShift /\ p256_shr a n b = Fault BadShift).
Proof.
  intros Ha Hb Hn0. split.
  - intros Hn. split.
    + destruct (shl_spec a n b Ha Hb Hn) as (top & c & E & _ & _ & Hv). by exists top, c.
    + destruct (shr_spec a n b Ha Hb Hn) as (c & E & _ & Hv). by exists c.
  - intros Hz. unfold p256_shl, p256_shr. rewrite Z.rem_mod_nonneg, Hz by lia. done.
Qed.

Lemma p256_shift_correct_witness :
  (exists top c, p256_shl SECP256r1_n 5 P256_ZERO = Ret (top, c) /\
    dval c + 2 ^ 256 * top = dval SECP256r1_n * 2 ^ 5) /\
  p256_shr SECP256r1_n 64 P256_ZERO = Fault BadShift.
Proof.
  assert (Hn : p256_ok SECP256r1_n) by p256_ok. assert (Hz : p256_ok P256_ZERO) by p256_ok.
  split.
  - apply (p256_shift_correct SECP256r1_n 5 P256_ZERO Hn Hz); lia.
  - apply (p256_shift_correct SECP256r1_n 64 P256_ZERO Hn Hz); [lia | reflexivity].
Defined.

(** Comparison, addition, subtraction, reduction and big-endian input agree
    with the integers: [p256_cmp] is the sign of the difference, the carry and
    the borrow make sums and differences exact, [p256_mod] reduces, and
    [p256_from_bin] reads 32 bytes most significant first. *)
Theorem p256_arith_correct MOD a b d src :
  mod_ok MOD -> p256_ok a -> p256_ok b -> in_range 32 d -> bytes_ok src -> length src = 32%nat ->
  p256_cmp a b = Z.sgn (dval a - dval b) /\
  dval (p256_add a b).2 + 2 ^ 256 * (p256_add a b).1 = dval a + dval b /\
  dval (p256_sub a b).2 + 2 ^ 256 * (p256_sub a b).1 = dval a - dval b /\
  dval (p256_add_d a d).2 + 2 ^ 256 * (p256_add_d a d).1 = dval a + d /\
  dval (p256_mod MOD a) = dval a mod dval MOD /\
  p256_is_zero a = (dval a =? 0) /\
  dval (p256_from_bin src b) = be_decode src.
Proof.
  intros HM Ha Hb Hd Hs Hl.
  destruct (add_spec a b Ha Hb) as (? & ? & -> & _ & _ & ?).
  destruct (sub_spec a b Ha Hb) as (? & ? & -> & _ & _ & ?).
  destruct (add_d_spec a d Ha Hd) as (? & ? & -> & _ & _ & ?).
  rewrite cmp_spec by done. split_and!; try done.
  - zcase; lia.
  - by apply mod_spec.
  - by apply is_zero_spec.
  - apply from_bin_value; [done | done | apply Hb].
Qed.

Lemma p256_arith_correct_witness : p256_cmp SECP256r1_n SECP256r1_p = -1.
Proof.
  destruct (p256_arith_correct SECP256r1_p SECP256r1_n SECP256r1_p 1 (replicate 32 255)) as [E _];
    [apply p_ok | apply n_ok | apply p_ok | done | by repeat constructor | done |].
  rewrite E. reflexivity.
Defined.

Lemma modinv_loop_zero fuel MOD : p256_is_even MOD = false ->
  forall r s, modinv_loop fuel MOD r s MOD P256_ZERO = Diverge.
Proof.
  intros Hodd. induction fuel as [|fuel IH]; intros r s; [done |]. cbn [modinv_loop].
  rewrite Hodd. apply IH.
Qed.

(** [p256_modinv_vartime] never leaves its loop on zero, whatever the fuel:
    its callers must exclude it. *)
Theorem p256_modinv_zero_diverges fuel MOD : p256_is_even MOD = false ->
  p256_modinv_vartime fuel MOD P256_ZERO = Diverge.
Proof. intros Hodd. unfold p256_modinv_vartime. by rewrite modinv_loop_zero. Qed.

Lemma p256_modinv_zero_diverges_witness :
  p256_modinv_vartime 5000 SECP256r1_n P256_ZERO = Diverge.
Proof. apply (p256_modinv_zero_diverges 5000 SECP256r1_n). reflexivity. Defined.
