(* ===== verification/DsaSig.v ===== *)
(** * ASN.1 DSA signatures

    Models src/system/core/libmincrypt/dsa_sig.c. The signature buffer is the
    list of its bytes; a read outside it is a fault. The theorems describe
    exactly which buffers are unpacked, to which numbers, and which buffer
    makes the code read past its end. *)

From S2P Require Import Prelude.
From S2P Require Import Limbs.
From S2P Require Import P256.
From S2P Require Import P256Spec.
From S2P Require Import P256Curve.

Definition P256_NBYTES : Z := 32.

(** Skip zero bytes: the loop tests the byte at [src] before [src_len > 0]. *)
Fixpoint trim_loop (buf : bytes) (src : Z) (src_len : nat) : outcome (Z * nat) :=
  b ← rd_mem buf src;
  if b =? 0 then
    match src_len with
    | O => Ret (src, O)
    | S src_len' => trim_loop buf (src + 1) src_len'
    end
  else Ret (src, src_len).

Definition trim_to_p256_bytes (dst buf : bytes) (src src_len : Z) : outcome (Z * bytes) :=
  '(src, src_len) ← trim_loop buf src (Z.to_nat src_len);
  if (P256_NBYTES <? Z.of_nat src_len) || (Z.of_nat src_len <? 1) then Ret (0, dst)
  else
    let dst_offset := (32 - src_len)%nat in
    let dst := replicate dst_offset 0 ++ drop dst_offset dst in
    let dst := take dst_offset dst ++ take src_len (drop (Z.to_nat src) buf)
               ++ drop (dst_offset + src_len) dst in
    Ret (1, dst).

Definition dsa_sig_unpack (sig : bytes) (sig_len : Z) (r_int s_int : p256_int)
    : outcome (Z * p256_int * p256_int) :=
  let fail := Ret (0, r_int, s_int) in
  if sig_len <? 8 then fail else
  b0 ← rd_mem sig 0;
  if negb (b0 =? 0x30) then fail else
  b2 ← rd_mem sig 2;
  if negb (b2 =? 0x02) then fail else
  seq_len ← rd_mem sig 1;
  if (seq_len <=? 0) || negb (seq_len + 2 =? sig_len) then fail else
  r_len ← rd_mem sig 3;
  if (r_len <? 1) || (seq_len - 5 <? r_len) then fail else
  b ← rd_mem sig (4 + r_len);
  if negb (b =? 0x02) then fail else
  s_len ← rd_mem sig (5 + r_len);
  if (s_len <? 1) || negb (s_len =? seq_len - 4 - r_len) then fail else
  '(ok, r_bytes) ← trim_to_p256_bytes (replicate 32 0) sig 4 r_len;
  if ok =? 0 then fail else
  '(ok, s_bytes) ← trim_to_p256_bytes (replicate 32 0) sig (6 + r_len) s_len;
  if ok =? 0 then fail else
  Ret (1, p256_from_bin r_bytes r_int, p256_from_bin s_bytes s_int).

(** ** The encoding the code accepts *)
Definition sig_layout (R S : bytes) : bytes :=
  [0x30; Z.of_nat (length R + length S + 4); 0x02; Z.of_nat (length R)] ++ R
  ++ [0x02; Z.of_nat (length S)] ++ S.

(** Leading zeros of a byte string. *)
Fixpoint strip (l : bytes) : bytes :=
  match l with
  | b :: l' => if b =? 0 then strip l' else l
  | [] => []
  end.

Lemma strip_decode l : be_decode (strip l) = be_decode l.
Proof.
  induction l as [|b l IH]; [done |]. cbn [strip]. destruct (Z.eqb_spec b 0) as [-> |]; [| done].
  rewrite IH. change (0 :: l) with ([0] ++ l). rewrite be_decode_app. change (be_decode [0]) with 0. lia.
Qed.

Lemma strip_ok l : bytes_ok l -> bytes_ok (strip l).
Proof. induction 1; cbn [strip]; [constructor |]. destruct (_ =? 0); [done | by constructor]. Qed.

Lemma strip_length l : (length (strip l) <= length l)%nat.
Proof. induction l as [|b l IH]; [done |]. cbn [strip]. destruct (b =? 0); simpl; lia. Qed.

(** A stripped string has [n] bytes exactly when its value needs [n] bytes. *)
Lemma strip_size l : bytes_ok l -> strip l <> [] ->
  2 ^ (8 * (Z.of_nat (length (strip l)) - 1)) <= be_decode l.
Proof.
  intros Hl Hne. rewrite <- strip_decode. pose proof (strip_ok l Hl) as Hs. clear Hl.
  assert (H : forall b t, strip l = b :: t -> b <> 0).
  { clear Hs Hne. induction l as [|x l IH]; intros b t E; [discriminate E |]. cbn [strip] in E.
    destruct (Z.eqb_spec x 0); [by apply (IH b t) | congruence]. }
  destruct (strip l) as [|b t]; [done |]. specialize (H b t eq_refl).
  apply Forall_cons in Hs as [Hb Ht]. unfold in_range in Hb.
  change (b :: t) with ([b] ++ t). rewrite be_decode_app. change (be_decode [b]) with b.
  pose proof (be_decode_range t Ht) as Hr. rewrite length_app. cbn [length].
  replace (Z.of_nat (1 + length t) - 1) with (Z.of_nat (length t)) by lia. nia.
Qed.

Lemma strip_nil l : bytes_ok l -> strip l = [] <-> be_decode l = 0.
Proof.
  intros Hl. split; intros H; [by rewrite <- strip_decode, H |].
  destruct (strip l) as [|b t] eqn:E; [done |]. exfalso.
  pose proof (strip_size l Hl ltac:(congruence)).
  pose proof (Z.pow_pos_nonneg 2 (8 * (Z.of_nat (length (strip l)) - 1))). rewrite E in *.
  simpl length in *. lia.
Qed.

Lemma rd_mem_app pre buf suf k : (k < length buf)%nat ->
  rd_mem (pre ++ buf ++ suf) (Z.of_nat (length pre + k)) = Ret (rd buf (Z.of_nat k)).
Proof.
  intros Hk. rewrite rd_mem_ok by (rewrite !length_app; lia). f_equal. unfold rd.
  rewrite !Nat2Z.id, app_nth2_plus, app_nth1 by lia. done.
Qed.

(** ** Trimming *)
Lemma strip_drop X : strip X = drop (length X - length (strip X)) X.
Proof.
  induction X as [|b X IH]; [done |]. cbn [strip]. pose proof (strip_length X).
  destruct (b =? 0); [| by rewrite Nat.sub_diag].
  cbn [length]. replace (S (length X) - length (strip X))%nat with (S (length X - length (strip X)))%nat by lia.
  exact IH.
Qed.

Lemma trim_loop_spec X : forall pre suf,
  trim_loop (pre ++ X ++ suf) (Z.of_nat (length pre)) (length X) =
  match strip X, suf with
  | [], [] => Fault OutOfBounds
  | t, _ => Ret (Z.of_nat (length pre + (length X - length t)), length t)
  end.
Proof.
  induction X as [|b X IH]; intros pre suf; cbn [length trim_loop strip].
  - destruct suf as [|c suf].
    + unfold rd_mem. rewrite !app_nil_r. zcase; [lia | done].
    + pose proof (rd_mem_app pre (c :: suf) [] 0 ltac:(simpl; lia)) as E.
      rewrite app_nil_r, Nat.add_0_r in E. simpl app. rewrite E, bind_ret.
      destruct (_ =? 0); do 2 f_equal; lia.
  - pose proof (rd_mem_app pre (b :: X) suf 0 ltac:(simpl; lia)) as E.
    rewrite Nat.add_0_r in E. rewrite E, bind_ret. change (rd (b :: X) (Z.of_nat 0)) with b.
    destruct (b =? 0).
    + specialize (IH (pre ++ [b]) suf). rewrite length_app, <- app_assoc in IH. cbn [length] in IH.
      replace (Z.of_nat (length pre) + 1) with (Z.of_nat (length pre + 1)) by lia.
      cbn [app] in *. rewrite IH. pose proof (strip_length X).
      destruct (strip X) as [|c t] eqn:Es; [destruct suf |]; try done; do 2 f_equal; cbn [length] in *; lia.
    + rewrite Nat.sub_diag, Nat.add_0_r. done.
Qed.

Lemma trim_spec pre X suf dst : length dst = 32%nat ->
  trim_to_p256_bytes dst (pre ++ X ++ suf) (Z.of_nat (length pre)) (Z.of_nat (length X)) =
  if (1 <=? length (strip X))%nat then
    if (length (strip X) <=? 32)%nat
    then Ret (1, replicate (32 - length (strip X)) 0 ++ strip X) else Ret (0, dst)
  else match suf with [] => Fault OutOfBounds | _ => Ret (0, dst) end.
Proof.
  intros Hd. unfold trim_to_p256_bytes, P256_NBYTES. rewrite Nat2Z.id, trim_loop_spec.
  pose proof (strip_drop X) as Es. pose proof (strip_length X).
  destruct (strip X) as [|c t] eqn:E; [destruct suf; [done | rewrite bind_ret; zcase; done] |].
  rewrite bind_ret. set (n := length (c :: t)) in *.
  destruct (Nat.leb_spec 1 n); [| simpl in *; lia]. destruct (Nat.leb_spec n 32); zcase; try lia; try done.
  do 2 f_equal. rewrite take_app_le, take_ge by (rewrite length_replicate; lia).
  f_equal. rewrite Nat2Z.id, (drop_ge (replicate _ 0 ++ _)), app_nil_r
    by (rewrite length_app, length_replicate, length_drop; lia).
  rewrite drop_app_add', drop_app_le', take_app_le by (rewrite ?length_drop; lia).
  rewrite <- Es. apply take_ge. done.
Qed.

Lemma padded_decode k t : be_decode (replicate k 0 ++ t) = be_decode t.
Proof.
  rewrite be_decode_app. enough (be_decode (replicate k 0) = 0) as -> by lia.
  unfold be_decode. induction k; [done | apply IHk].
Qed.

(** ** Unpacking *)
Definition small_sig (R S : bytes) : Prop :=
  (1 <= length R)%nat /\ (1 <= length S)%nat /\ (length R + length S <= 251)%nat.

Lemma layout_length R S : length (sig_layout R S) = (length R + length S + 6)%nat.
Proof. unfold sig_layout. rewrite !length_app. simpl. lia. Qed.

Definition sig_head (R S : bytes) : bytes :=
  [0x30; Z.of_nat (length R + length S + 4); 0x02; Z.of_nat (length R)].

(** The signature split before each of its four parts. *)
Lemma layout_parts R S :
  sig_layout R S = [] ++ sig_head R S ++ (R ++ [0x02; Z.of_nat (length S)] ++ S) /\
  sig_layout R S = sig_head R S ++ R ++ ([0x02; Z.of_nat (length S)] ++ S) /\
  sig_layout R S = (sig_head R S ++ R) ++ [0x02; Z.of_nat (length S)] ++ S /\
  sig_layout R S = (sig_head R S ++ R ++ [0x02; Z.of_nat (length S)]) ++ S ++ [].
Proof. unfold sig_layout, sig_head. rewrite !app_nil_r, <- !app_assoc. done. Qed.

Lemma unpack_layout R S r0 s0 : small_sig R S ->
  dsa_sig_unpack (sig_layout R S) (Z.of_nat (length (sig_layout R S))) r0 s0 =
  ('(ok, rb) ← trim_to_p256_bytes (replicate 32 0) (sig_layout R S) 4 (Z.of_nat (length R));
   if ok =? 0 then Ret (0, r0, s0) else
   '(ok, sb) ← trim_to_p256_bytes (replicate 32 0) (sig_layout R S)
                 (6 + Z.of_nat (length R)) (Z.of_nat (length S));
   if ok =? 0 then Ret (0, r0, s0) else
   Ret (1, p256_from_bin rb r0, p256_from_bin sb s0)).
Proof.
  intros (HR & HS & Hsum). destruct (layout_parts R S) as (E1 & _ & E3 & _).
  assert (Hh : forall k, (k < 4)%nat ->
    rd_mem (sig_layout R S) (Z.of_nat k) = Ret (rd (sig_head R S) (Z.of_nat k))).
  { intros k Hk. rewrite E1. by apply (rd_mem_app [] (sig_head R S) _ k). }
  assert (Hm : forall k, (k < 2)%nat ->
    rd_mem (sig_layout R S) (Z.of_nat (4 + length R + k)) = Ret (rd [0x02; Z.of_nat (length S)] (Z.of_nat k))).
  { intros k Hk. rewrite E3. rewrite <- (rd_mem_app (sig_head R S ++ R) _ S k) by done.
    by rewrite length_app. }
  unfold dsa_sig_unpack. rewrite layout_length.
  pose proof (Hh 0%nat ltac:(lia)) as H0. pose proof (Hh 1%nat ltac:(lia)) as H1.
  pose proof (Hh 2%nat ltac:(lia)) as H2. pose proof (Hh 3%nat ltac:(lia)) as H3.
  pose proof (Hm 0%nat ltac:(lia)) as H4. pose proof (Hm 1%nat ltac:(lia)) as H5. clear Hh Hm.
  change (Z.of_nat 0) with 0 in *. change (Z.of_nat 1) with 1 in *.
  change (Z.of_nat 2) with 2 in *. change (Z.of_nat 3) with 3 in *.
  rewrite H0, H2, H1, H3, !bind_ret.
  change (rd (sig_head R S) 0) with 0x30. change (rd (sig_head R S) 2) with 0x02.
  change (rd (sig_head R S) 1) with (Z.of_nat (length R + length S + 4)).
  change (rd (sig_head R S) 3) with (Z.of_nat (length R)). cbv zeta.
  replace (Z.of_nat (4 + length R + 0)) with (4 + Z.of_nat (length R)) in H4 by lia.
  replace (Z.of_nat (4 + length R + 1)) with (5 + Z.of_nat (length R)) in H5 by lia.
  rewrite H4, H5, !bind_ret.
  change (rd [0x02; Z.of_nat (length S)] 0) with 0x02.
  change (rd [0x02; Z.of_nat (length S)] 1) with (Z.of_nat (length S)).
  destruct (Z.ltb_spec (Z.of_nat (length R + length S + 6)) 8); [lia |].
  change (negb (0x30 =? 0x30)) with false. change (negb (0x02 =? 0x02)) with false. cbv iota.
  destruct (Z.leb_spec (Z.of_nat (length R + length S + 4)) 0); [lia |].
  destruct (Z.eqb_spec (Z.of_nat (length R + length S + 4) + 2) (Z.of_nat (length R + length S + 6))); [| lia].
  destruct (Z.ltb_spec (Z.of_nat (length R)) 1); [lia |].
  destruct (Z.ltb_spec (Z.of_nat (length R + length S + 4) - 5) (Z.of_nat (length R))); [lia |].
  destruct (Z.ltb_spec (Z.of_nat (length S)) 1); [lia |].
  destruct (Z.eqb_spec (Z.of_nat (length S)) (Z.of_nat (length R + length S + 4) - 4 - Z.of_nat (length R))); [| lia].
  reflexivity.
Qed.

(** A buffer that is not of that layout is refused before any number is read. *)
Lemma unpack_shape sig r0 s0 : bytes_ok sig ->
  dsa_sig_unpack sig (Z.of_nat (length sig)) r0 s0 = Ret (0, r0, s0) \/
  exists R S, sig = sig_layout R S /\ small_sig R S.
Proof.
  intros Hok. unfold dsa_sig_unpack. cbv zeta.
  assert (Hb : forall i, 0 <= rd sig i < 256) by (intros i; by apply (rd_range 8)).
  destruct (Z.ltb_spec (Z.of_nat (length sig)) 8); [by left |].
  rewrite !(rd_mem_ok sig 0), !(rd_mem_ok sig 1), !(rd_mem_ok sig 2), !(rd_mem_ok sig 3), !bind_ret by lia.
  pose proof (Hb 1). pose proof (Hb 3).
  destruct (Z.eqb_spec (rd sig 0) 0x30) as [E0 |]; [cbn [negb] | by left].
  destruct (Z.eqb_spec (rd sig 2) 0x02) as [E2 |]; [cbn [negb] | by left].
  destruct ((rd sig 1 <=? 0) || negb (rd sig 1 + 2 =? Z.of_nat (length sig))) eqn:E1; [by left | zbool].
  destruct ((rd sig 3 <? 1) || (rd sig 1 - 5 <? rd sig 3)) eqn:E3; [by left | zbool].
  rewrite !(rd_mem_ok sig (4 + _)), !(rd_mem_ok sig (5 + _)), !bind_ret by lia.
  destruct (Z.eqb_spec (rd sig (4 + rd sig 3)) 0x02) as [E4 |]; [cbn [negb] | by left].
  destruct ((rd sig (5 + rd sig 3) <? 1) || negb (rd sig (5 + rd sig 3) =? rd sig 1 - 4 - rd sig 3))
    eqn:E5; [by left | zbool].
  right. set (r := rd sig 3) in *.
  set (R := take (Z.to_nat r) (drop 4 sig)). set (S := drop (Z.to_nat (6 + r)) sig).
  assert (HR : length R = Z.to_nat r) by (unfold R; rewrite length_take, length_drop; lia).
  assert (HS : length S = Z.to_nat (rd sig (5 + r))) by (unfold S; rewrite length_drop; lia).
  exists R, S. split; [| split_and!; lia].
  pose proof (drop_4_rd sig 0 ltac:(lia) ltac:(lia)) as D. change (drop (Z.to_nat 0) sig) with sig in D.
  change (Z.to_nat (0 + 4)) with 4%nat in D.
  change (0 + 1) with 1 in D. change (0 + 2) with 2 in D. change (0 + 3) with 3 in D.
  rewrite D at 1. rewrite E0, E2.
  unfold sig_layout. rewrite HR, HS. fold r. simpl app. do 4 (f_equal; try lia).
  rewrite <- (take_drop (Z.to_nat r) (drop 4 sig)). fold R. f_equal. rewrite drop_drop.
  assert (D2 : forall j, 0 <= j < Z.of_nat (length sig) ->
    drop (Z.to_nat j) sig = rd sig j :: drop (Z.to_nat (j + 1)) sig).
  { intros j Hj. destruct (lookup_lt_is_Some_2 sig (Z.to_nat j) ltac:(lia)) as [x Hx].
    rewrite (rd_lookup _ _ _ Hx). replace (Z.to_nat (j + 1)) with (Datatypes.S (Z.to_nat j)) by lia.
    by apply drop_S. }
  replace (4 + Z.to_nat r)%nat with (Z.to_nat (4 + r)) by lia.
  rewrite D2, E4 by lia. f_equal. replace (4 + r + 1) with (5 + r) by lia. rewrite D2 by lia.
  f_equal; [lia |]. unfold S. f_equal. lia.
Qed.

(** Outcome of unpacking a well-laid-out signature, by the values of its parts. *)
Definition fits (X : bytes) : Prop := 0 < be_decode X < 2 ^ 256.

Lemma fits_strip X : bytes_ok X -> fits X -> (1 <= length (strip X) <= 32)%nat.
Proof.
  intros Hok [Hpos Hlt]. pose proof (proj1 (strip_nil X Hok)) as Hn.
  assert (Hne : strip X <> []) by (intros E; specialize (Hn E); lia).
  pose proof (strip_size X Hok Hne) as Hs. split; [destruct (strip X); [done | simpl; lia] |].
  apply Nat.le_ngt. intros Hgt.
  assert (2 ^ 256 <= 2 ^ (8 * (Z.of_nat (length (strip X)) - 1))) by (apply Z.pow_le_mono_r; lia). lia.
Qed.

Lemma strip_fits X : bytes_ok X -> (1 <= length (strip X) <= 32)%nat -> fits X.
Proof.
  intros Hok [H1 H2]. split.
  - pose proof (strip_size X Hok ltac:(by intros E; rewrite E in H1; simpl in H1; lia)). lia.
  - rewrite <- strip_decode. pose proof (be_decode_range _ (strip_ok X Hok)).
    eapply Z.lt_le_trans; [apply H |]. apply Z.pow_le_mono_r; lia.
Qed.

Lemma from_padded X r0 : bytes_ok X -> fits X -> length r0 = 8%nat ->
  p256_ok (p256_from_bin (replicate (32 - length (strip X)) 0 ++ strip X) r0) /\
  dval (p256_from_bin (replicate (32 - length (strip X)) 0 ++ strip X) r0) = be_decode X.
Proof.
  intros Hok Hf Hl. pose proof (fits_strip X Hok Hf).
  destruct (from_bin_value (replicate (32 - length (strip X)) 0 ++ strip X) r0) as [H1 H2].
  - apply bytes_ok_app. split; [| by apply strip_ok]. apply Forall_replicate. unfold in_range. lia.
  - rewrite length_app, length_replicate. lia.
  - done.
  - split; [done |]. by rewrite H2, padded_decode, strip_decode.
Qed.

Lemma trim_r R S dst : small_sig R S -> length dst = 32%nat ->
  trim_to_p256_bytes dst (sig_layout R S) 4 (Z.of_nat (length R)) =
  if (1 <=? length (strip R))%nat && (length (strip R) <=? 32)%nat
  then Ret (1, replicate (32 - length (strip R)) 0 ++ strip R) else Ret (0, dst).
Proof.
  intros (HR & HS & _) Hd. destruct (layout_parts R S) as (_ & E & _ & _). rewrite E.
  change 4 with (Z.of_nat (length (sig_head R S))). rewrite trim_spec by done. cbn [app].
  by destruct (1 <=? _)%nat, (_ <=? 32)%nat.
Qed.

Lemma trim_s R S dst : small_sig R S -> length dst = 32%nat ->
  trim_to_p256_bytes dst (sig_layout R S) (6 + Z.of_nat (length R)) (Z.of_nat (length S)) =
  if (1 <=? length (strip S))%nat then
    if (length (strip S) <=? 32)%nat
    then Ret (1, replicate (32 - length (strip S)) 0 ++ strip S) else Ret (0, dst)
  else Fault OutOfBounds.
Proof.
  intros (HR & HS & _) Hd. destruct (layout_parts R S) as (_ & _ & _ & E). rewrite E.
  replace (6 + Z.of_nat (length R)) with
    (Z.of_nat (length (sig_head R S ++ R ++ [0x02; Z.of_nat (length S)]))).
  - by rewrite trim_spec.
  - rewrite !length_app. simpl length. lia.
Qed.

(** ** Properties *)

(** C21. [dsa_sig_unpack] returns 1 exactly on the encodings of two numbers
    between 1 and 2^256 - 1, leading zeros allowed, whose total size fits the
    one-byte length, and it then returns those numbers. *)
Theorem dsa_sig_unpack_correct sig r0 s0 r s :
  bytes_ok sig -> length r0 = 8%nat -> length s0 = 8%nat ->
  (dsa_sig_unpack sig (Z.of_nat (length sig)) r0 s0 = Ret (1, r, s) <->
   exists R S, sig = sig_layout R S /\ small_sig R S /\ fits R /\ fits S /\
     p256_ok r /\ p256_ok s /\ dval r = be_decode R /\ dval s = be_decode S).
Proof.
  intros Hok Hr Hs. split.
  - intros E. destruct (unpack_shape sig r0 s0 Hok) as [E' | (R & S & -> & Hsm)]; [congruence |].
    assert (HR : bytes_ok R /\ bytes_ok S).
    { unfold sig_layout in Hok. rewrite !bytes_ok_app in Hok. tauto. }
    rewrite unpack_layout, trim_r, trim_s in E by done.
    destruct (_ && _) eqn:ER in E; [| discriminate E]. rewrite bind_ret in E. change (1 =? 0) with false in E. cbv iota beta in E.
    destruct (1 <=? length (strip S))%nat eqn:E1 in E; [| discriminate E].
    destruct (length (strip S) <=? 32)%nat eqn:E2 in E; [| discriminate E]. cbn in E. injection E as <- <-.
    apply andb_true_iff in ER as [ER1 ER2]. rewrite Nat.leb_le in ER1, ER2, E1, E2.
    assert (FR : fits R) by (apply strip_fits; tauto). assert (FS : fits S) by (apply strip_fits; tauto).
    destruct (from_padded R r0) as [? ?]; try tauto. destruct (from_padded S s0) as [? ?]; try tauto.
    exists R, S. tauto.
  - intros (R & S & -> & Hsm & FR & FS & Okr & Oks & Er & Es).
    assert (HR : bytes_ok R /\ bytes_ok S).
    { unfold sig_layout in Hok. rewrite !bytes_ok_app in Hok. tauto. }
    rewrite unpack_layout, trim_r, trim_s by done.
    pose proof (fits_strip R (proj1 HR) FR) as [LR1 LR2]. pose proof (fits_strip S (proj2 HR) FS) as [LS1 LS2].
    apply Nat.leb_le in LR1, LR2, LS1, LS2. rewrite LR1, LR2, LS1, LS2. cbn [andb].
    rewrite !bind_ret. change (1 =? 0) with false. cbv iota beta.
    destruct (from_padded R r0) as [[? ?] ?]; try tauto. destruct (from_padded S s0) as [[? ?] ?]; try tauto.
    destruct Okr, Oks. f_equal. f_equal; [f_equal |]; apply dval_inj; try done; congruence.
Qed.

Definition ex_R : bytes := [0; 0xab; 0xcd].
Definition ex_S : bytes := [0x12].

Lemma dsa_sig_unpack_correct_witness : exists r s,
  dsa_sig_unpack (sig_layout ex_R ex_S) 10 P256_ZERO P256_ZERO = Ret (1, r, s) /\
  dval r = 0xabcd /\ dval s = 0x12.
Proof.
  exists (p256_of 0xabcd), (p256_of 0x12). split; [| by split].
  apply (dsa_sig_unpack_correct (sig_layout ex_R ex_S) P256_ZERO P256_ZERO);
    [by repeat constructor | done | done |].
  exists ex_R, ex_S. split; [reflexivity |]. split; [unfold small_sig; simpl; lia |].
  split; [split; vm_compute; reflexivity |]. split; [split; vm_compute; reflexivity |].
  split; [p256_ok |]. split; [p256_ok |]. by split.
Defined.

(** The only buffers of [sig_len] bytes that make [dsa_sig_unpack] leave the
    buffer are well-laid-out ones whose second number is zero: the trimming
    loop reads a byte before it checks that one is left. *)
Theorem dsa_sig_unpack_overread sig r0 s0 : bytes_ok sig ->
  (dsa_sig_unpack sig (Z.of_nat (length sig)) r0 s0 = Fault OutOfBounds <->
   exists R S, sig = sig_layout R S /\ small_sig R S /\ fits R /\ be_decode S = 0).
Proof.
  intros Hok. split.
  - intros E. destruct (unpack_shape sig r0 s0 Hok) as [E' | (R & S & -> & Hsm)]; [congruence |].
    assert (HR : bytes_ok R /\ bytes_ok S).
    { unfold sig_layout in Hok. rewrite !bytes_ok_app in Hok. tauto. }
    rewrite unpack_layout, trim_r, trim_s in E by done.
    destruct (_ && _) eqn:ER in E; [| discriminate E]. rewrite bind_ret in E. change (1 =? 0) with false in E. cbv iota beta in E.
    apply andb_true_iff in ER as [ER1 ER2]. rewrite Nat.leb_le in ER1, ER2.
    exists R, S. split_and!; try done; [apply strip_fits; tauto |]. apply strip_nil; [tauto |].
    destruct (strip S); [done |]. destruct (_ <=? 32)%nat in E; discriminate E.
  - intros (R & S & -> & Hsm & FR & E0).
    assert (HR : bytes_ok R /\ bytes_ok S).
    { unfold sig_layout in Hok. rewrite !bytes_ok_app in Hok. tauto. }
    rewrite unpack_layout, trim_r, trim_s by done. rewrite <- strip_nil in E0 by tauto. rewrite E0.
    pose proof (fits_strip R (proj1 HR) FR) as [LR1 LR2]. apply Nat.leb_le in LR1, LR2. by rewrite LR1, LR2.
Qed.

Lemma dsa_sig_unpack_overread_witness :
  dsa_sig_unpack (sig_layout [1] [0]) 8 P256_ZERO P256_ZERO = Fault OutOfBounds.
Proof.
  apply (dsa_sig_unpack_overread (sig_layout [1] [0])); [by repeat constructor |].
  exists [1], [0]. split; [reflexivity |]. split; [unfold small_sig; simpl; lia |].
  split; [split; vm_compute; reflexivity | reflexivity].
Defined.
