(* ===== verification/Primes.v ===== *)
(** * Primality by Pocklington's criterion

    A number n is prime when n - 1 has a factored part F, of primes, with
    F * F >= n, and some power of each right order exists modulo n. The criterion
    is proved from Fermat's theorem, and [pock] checks a certificate. *)

From S2P Require Import Prelude.
From S2P Require Import Cong.
From Stdlib Require Import Zdivisibility Zmod.ZmodInv.

#[global] Instance divide_decision m n : Decision (m | n).
Proof.
  pose proof (Z.BoolSpec_divide m n) as H.
  destruct ((n =? 0) || negb (m =? 0) && (n mod m =? 0))%bool; [left | right]; by inversion H.
Defined.

(** ** The least divisor *)
Lemma least_divisor n : 1 < n -> exists q, Z.prime q /\ (q | n) /\ (Z.prime n \/ q * q <= n).
Proof.
  intros Hn.
  assert (Hex : exists q, 1 < q /\ (q | n) /\ forall m, 1 < m < q -> ~ (m | n)).
  { enough (H : forall k, 0 <= k -> forall q, q <= k -> 1 < q -> (q | n) ->
      exists q, 1 < q /\ (q | n) /\ forall m, 1 < m < q -> ~ (m | n)) by (apply (H n ltac:(lia) n); [lia | lia | apply Z.divide_refl]).
    intros k Hk. pattern k. apply natlike_ind; [lia | | done]. clear k Hk. intros k Hk IH q Hq Hq1 Hd.
    destruct (decide (Exists (fun m => (m | n)) (seqZ 2 (q - 2)))) as [He|He].
    - apply Exists_exists in He as (m & Hm & Hdm). apply elem_of_seqZ in Hm. apply (IH m); try done; lia.
    - exists q. split_and!; try done. intros m Hm Hdm. apply He. apply Exists_exists. exists m.
      split; [apply elem_of_seqZ; lia | done]. }
  destruct Hex as (q & Hq & Hd & Hmin). exists q. split_and!; [| done |].
  - split; [done |]. intros m Hm Hmq. apply (Hmin m Hm). by apply (Z.divide_trans _ q).
  - destruct (decide (q = n)) as [->|Hne]; [left; split; [done | exact Hmin] |]. right.
    destruct Hd as [k Hk]. assert (Hqn : q <= n) by (apply Z.divide_pos_le; [lia | by exists k]).
    assert (1 < k) by nia. destruct (Z.lt_ge_cases k q) as [Hlt|]; [| nia].
    exfalso. apply (Hmin k); [lia |]. exists q. lia.
Qed.

(** ** The criterion *)
Lemma cong_pow_one n x e : 0 <= e -> x ≡[n] 1 -> x ^ e ≡[n] 1.
Proof. intros He H. rewrite (cong_pow n x 1 e He H). by rewrite Z.pow_1_l. Qed.

Lemma cong_divide n m x y : (m | n) -> x ≡[n] y -> x ≡[m] y.
Proof. intros [k ->] [j ->]. exists (j * k). ring. Qed.

Lemma order_divides q f b : Z.prime q -> Z.prime f -> 0 <= b -> b ^ f ≡[q] 1 -> ~ b ≡[q] 1 -> (f | q - 1).
Proof.
  intros Hq Hf Hb H1 Hne. pose proof (Z.prime_ge_2 q Hq). pose proof (Z.prime_ge_2 f Hf).
  destruct (decide (f | q - 1)) as [|Hn]; [done |]. exfalso. apply Hne.
  assert (Hb0 : b mod q <> 0).
  { intros E. assert (Hc : b ≡[q] 0) by (rewrite <- (cong_mod q b), E by lia; reflexivity).
    rewrite (cong_pow q b 0 f ltac:(lia) Hc), Z.pow_0_l in H1 by lia. destruct H1 as [k Hk].
    assert (Hq1 : (q | 1)) by (exists (- k); lia). apply Z.divide_1_r_nonneg in Hq1; lia. }
  pose proof (Z.fermat_nz q b Hq Hb0) as Hfer.
  assert (Hfer' : b ^ (q - 1) ≡[q] 1).
  { apply mod_eq_cong; [lia |]. rewrite Hfer. by rewrite Z.mod_small by lia. }
  apply Z.coprime_prime_l in Hn; [| done]. apply Z.Bezout_coprime in Hn as (u & v & Huv).
  (* an exponent that is a multiple of f and one above a multiple of q - 1 *)
  set (u' := u mod (q - 1) + (q - 1)). assert (Hu' : 0 < u') by (unfold u'; pose proof (Z.mod_pos_bound u (q - 1)); lia).
  assert (Hk : exists k, 0 <= k /\ u' * f = 1 + k * (q - 1)).
  { exists (f - v - u / (q - 1) * f). pose proof (Z.div_mod u (q - 1)). 
    assert (E : u' * f = 1 + (f - v - u / (q - 1) * f) * (q - 1)) by (unfold u'; nia). split; [nia | done]. }
  destruct Hk as (k & Hk & E).
  transitivity (b ^ (u' * f)).
  - rewrite E, Z.pow_add_r, Z.pow_1_r, (Z.mul_comm k), Z.pow_mul_r by nia.
    rewrite (cong_pow_one q (b ^ (q - 1)) k) by done. apply cong_eq. ring.
  - rewrite Z.mul_comm, Z.pow_mul_r by lia. apply cong_pow_one; [lia | done].
Qed.

Definition prodZ (fs : list Z) : Z := foldr Z.mul 1 fs.

Lemma primes_coprime f fs : Z.prime f -> Forall Z.prime fs -> f ∉ fs -> Z.coprime f (prodZ fs).
Proof.
  intros Hf Hfs Hn. induction Hfs as [|g fs Hg Hfs IH]; [apply Z.coprime_1_r |].
  apply not_elem_of_cons in Hn as [Hne Hn]. cbn. apply Z.coprime_mul_r; [| by apply IH].
  apply Z.coprime_prime_l; [done |]. intros Hd. apply Hne. by apply Z.divide_prime_prime.
Qed.

Lemma primes_divide m fs : Forall Z.prime fs -> NoDup fs -> Forall (fun f => (f | m)) fs -> (prodZ fs | m).
Proof.
  intros Hfs Hnd Hd. induction Hfs as [|f fs Hf Hfs IH]; [apply Z.divide_1_l |].
  apply NoDup_cons in Hnd as [Hn Hnd]. apply Forall_cons in Hd as [Hdf Hd].
  destruct (IH Hnd Hd) as [k Hk]. pose proof (primes_coprime f fs Hf Hfs Hn) as Hc.
  rewrite Hk in Hdf. rewrite Z.mul_comm in Hdf. apply Z.gauss in Hdf; [| exact Hc]. destruct Hdf as [j ->].
  exists j. rewrite Hk. change (prodZ (f :: fs)) with (f * prodZ fs). ring.
Qed.

Lemma prodZ_pos fs : Forall Z.prime fs -> 0 < prodZ fs.
Proof. induction 1 as [|f fs Hf Hfs IH]; cbn; [lia |]. pose proof (Z.prime_ge_2 f Hf). unfold prodZ in IH. nia. Qed.

Lemma prodZ_divide f fs : f ∈ fs -> (f | prodZ fs).
Proof.
  induction fs as [|g fs IH]; intros Hf; [by apply not_elem_of_nil in Hf |].
  change (prodZ (g :: fs)) with (g * prodZ fs).
  apply elem_of_cons in Hf as [->|Hf]; [apply Z.divide_factor_l |]. by apply Z.divide_mul_r, IH.
Qed.

Lemma pocklington n a fs : 1 < n -> 0 <= a -> Forall Z.prime fs -> NoDup fs ->
  (prodZ fs | n - 1) -> n <= prodZ fs * prodZ fs -> a ^ (n - 1) ≡[n] 1 ->
  Forall (fun f => Z.coprime (a ^ ((n - 1) / f) - 1) n) fs -> Z.prime n.
Proof.
  intros Hn Ha Hfs Hnd HF Hbig Hord Hg. destruct (least_divisor n Hn) as (q & Hq & Hqn & [|Hle]); [done |]. exfalso.
  pose proof (Z.prime_ge_2 q Hq) as Hq2.
  assert (Hd : (prodZ fs | q - 1)).
  { apply primes_divide; [done | done |]. apply Forall_forall. intros f Hf.
    rewrite Forall_forall in Hfs, Hg. specialize (Hfs f Hf). specialize (Hg f Hf).
    pose proof (Z.prime_ge_2 f Hfs) as Hf2.
    assert (Hfd : (f | n - 1)) by (apply (Z.divide_trans _ (prodZ fs)); [by apply prodZ_divide | done]).
    destruct Hfd as [m Hm]. rewrite Hm, Z.div_mul in Hg by lia.
    assert (0 <= m) by nia.
    apply (order_divides q f (a ^ m)); [done | done | lia | |].
    - rewrite <- Z.pow_mul_r, <- Hm by lia. by apply (cong_divide n).
    - intros [k Hk]. assert (Hq1 : (q | 1)).
      { unfold Z.coprime in Hg. rewrite <- Hg. apply Z.gcd_greatest; [| done]. exists k. lia. }
      apply Z.divide_1_r_nonneg in Hq1; lia. }
  apply Z.divide_pos_le in Hd; [| lia]. pose proof (prodZ_pos fs Hfs). nia.
Qed.

(** ** Checking *)
Fixpoint powm (n a : Z) (e : positive) : Z :=
  match e with
  | xH => a mod n
  | xO e' => let r := powm n a e' in (r * r) mod n
  | xI e' => let r := powm n a e' in (a * ((r * r) mod n)) mod n
  end.

Lemma powm_cong n a e : n <> 0 -> powm n a e ≡[n] a ^ Z.pos e.
Proof.
  intros Hn. induction e as [e IH|e IH|]; cbn [powm].
  - rewrite !cong_mod, IH by done. apply cong_eq.
    replace (Z.pos e~1) with (Z.pos e + Z.pos e + 1) by lia. rewrite !Z.pow_add_r, Z.pow_1_r by lia. ring.
  - rewrite !cong_mod, IH by done. apply cong_eq.
    replace (Z.pos e~0) with (Z.pos e + Z.pos e) by lia. by rewrite Z.pow_add_r by lia.
  - rewrite cong_mod by done. apply cong_eq. by rewrite Z.pow_1_r.
Qed.

Definition powz (n a e : Z) : Z := match e with Zpos e => powm n a e | _ => 1 end.

Lemma powz_cong n a e : n <> 0 -> 0 <= e -> powz n a e ≡[n] a ^ e.
Proof. intros Hn He. destruct e as [|e|e]; [reflexivity | by apply powm_cong | lia]. Qed.

Definition pock (n a : Z) (fs : list Z) : bool :=
  let F := prodZ fs in
  let c := powz n a ((n - 1) / F) in
  (1 <? n) && (0 <? F) && (0 <=? a) && ((n - 1) mod F =? 0) && (n <=? F * F) && bool_decide (NoDup fs) &&
  forallb (fun f => Z.gcd (powz n c (F / f) - 1) n =? 1) fs && (powz n c F =? 1).

Lemma coprime_cong n x y : x ≡[n] y -> Z.coprime x n -> Z.coprime y n.
Proof. intros [k ->]. unfold Z.coprime. rewrite (Z.gcd_comm _ n), Z.gcd_add_mult_diag_r, Z.gcd_comm. done. Qed.

Lemma pock_prime n a fs : pock n a fs = true -> Forall Z.prime fs -> Z.prime n.
Proof.
  unfold pock. cbv zeta. rewrite !andb_true_iff. intros [[[[[[[Hn HF] Ha] Hd] Hb] Hnd] Hg] Ho] Hfs.
  apply bool_decide_eq_true in Hnd. rewrite forallb_forall in Hg.
  set (F := prodZ fs) in *. set (m := (n - 1) / F) in *.
  assert (Hm : n - 1 = m * F) by (unfold m; pose proof (Z.div_mod (n - 1) F); lia).
  assert (Hm0 : 0 <= m) by (unfold m; apply Z.div_pos; lia).
  assert (Hc : powz n a m ≡[n] a ^ m) by (apply powz_cong; lia).
  apply (pocklington n a fs); try done; try lia.
  - exists m. exact Hm.
  - rewrite Hm, Z.pow_mul_r, <- (cong_pow n _ _ F ltac:(lia) Hc), <- powz_cong by lia. apply cong_eq. lia.
  - apply Forall_forall. intros f Hf. pose proof Hf as Hin. apply list_elem_of_In in Hin. specialize (Hg f Hin).
    rewrite Forall_forall in Hfs. pose proof (Z.prime_ge_2 f (Hfs f Hf)).
    destruct (prodZ_divide f fs Hf) as [k Hk]. fold F in Hk. assert (0 <= k) by nia.
    rewrite Hm, Hk, Z.mul_assoc, Z.div_mul by lia. rewrite Hk, Z.div_mul in Hg by lia.
    apply (coprime_cong n (powz n (powz n a m) k - 1)); [| unfold Z.coprime; lia].
    rewrite powz_cong, (cong_pow n _ _ k ltac:(lia) Hc), <- Z.pow_mul_r by lia. reflexivity.
Qed.

(** Small primes, by trial division up to [s]. *)
Definition trial (n s : Z) : bool :=
  (1 <? n) && (n <? (s + 1) * (s + 1)) && (0 <=? s) && forallb (fun d => negb (n mod d =? 0)) (seqZ 2 (s - 1)).

Lemma trial_prime n s : trial n s = true -> Z.prime n.
Proof.
  unfold trial. rewrite !andb_true_iff, forallb_forall. intros [[[Hn Hs] Hs0] Hd].
  destruct (least_divisor n) as (q & Hq & Hqn & [|Hle]); [lia | done |]. exfalso.
  pose proof (Z.prime_ge_2 q Hq). assert (q <= s) by nia.
  specialize (Hd q). rewrite <- list_elem_of_In, elem_of_seqZ in Hd. specialize (Hd ltac:(lia)).
  apply Z.mod_divide in Hqn; lia.
Qed.
