(* ===== verification/P256Prime.v ===== *)
(** * The field and the group order of P-256 are prime *)

From S2P Require Import Prelude.
From S2P Require Import Limbs.
From S2P Require Import Primes.
From S2P Require Import P256.
From S2P Require Import P256Curve.
From Stdlib Require Import Zdivisibility.

(** One step of a chain of certificates: the number, and the primes that divide it less one. *)
Ltac certify fs :=
  apply (pock_prime _ 2 fs); [vm_compute; reflexivity | rewrite !Forall_cons, Forall_nil; split_and!; trivial].

Lemma prime_197 : Z.prime 197.
Proof. apply (trial_prime _ 14). vm_compute. reflexivity. Qed.
Lemma prime_3677 : Z.prime 3677.
Proof. apply (trial_prime _ 60). vm_compute. reflexivity. Qed.
Lemma prime_78283 : Z.prime 78283.
Proof. apply (trial_prime _ 279). vm_compute. reflexivity. Qed.
Lemma prime_704251 : Z.prime 704251.
Proof. apply (trial_prime _ 839). vm_compute. reflexivity. Qed.
Lemma prime_3023 : Z.prime 3023.
Proof. apply (trial_prime _ 54). vm_compute. reflexivity. Qed.
Lemma prime_155317 : Z.prime 155317.
Proof. apply (trial_prime _ 394). vm_compute. reflexivity. Qed.
Lemma prime_3969899 : Z.prime 3969899.
Proof. apply (trial_prime _ 1992). vm_compute. reflexivity. Qed.

#[local] Hint Resolve prime_197 prime_3677 prime_78283 prime_704251 prime_3023 prime_155317 prime_3969899 : core.

Lemma prime_36 : Z.prime 66417393611.
Proof. certify [3677; 197]. Qed.
#[local] Hint Resolve prime_36 : core.
Lemma prime_44 : Z.prime 11290956913871.
Proof. certify [66417393611]. Qed.
Lemma prime_56 : Z.prime 46076956964474543.
Proof. certify [704251; 78283]. Qed.
#[local] Hint Resolve prime_44 prime_56 : core.
Lemma prime_150 : Z.prime 774023187263532362759620327192479577272145303.
Proof. certify [46076956964474543; 11290956913871]. Qed.
#[local] Hint Resolve prime_150 : core.
Lemma prime_160 : Z.prime 835945042244614951780389953367877943453916927241.
Proof. certify [774023187263532362759620327192479577272145303]. Qed.
#[local] Hint Resolve prime_160 : core.

Lemma secp_p_prime : Z.prime secp_p.
Proof.
  change secp_p with 115792089210356248762697446949407573530086143415290314195533631308867097853951.
  certify [835945042244614951780389953367877943453916927241].
Qed.

Lemma prime_28 : Z.prime 191039911.
Proof. certify [155317]. Qed.
#[local] Hint Resolve prime_28 : core.
Lemma prime_58 : Z.prime 208150935158385979.
Proof. certify [191039911; 3023]. Qed.
Lemma prime_40 : Z.prime 1002328039319.
Proof. certify [3969899]. Qed.
#[local] Hint Resolve prime_58 prime_40 : core.
Lemma prime_92 : Z.prime 2624747550333869278416773953.
Proof. certify [208150935158385979]. Qed.
#[local] Hint Resolve prime_92 : core.

Definition secp_n : Z := 115792089210356248762697446949407573529996955224135760342422259061068512044369.

Lemma secp_n_val : dval SECP256r1_n = secp_n.
Proof. vm_compute. reflexivity. Qed.

Lemma secp_n_prime : Z.prime secp_n.
Proof. unfold secp_n. certify [2624747550333869278416773953; 1002328039319]. Qed.
