(* ===== verification/P256Ec.v ===== *)
(** * Point multiplication on P-256

    Models src/system/core/libmincrypt/p256_ec.c and p256_ecdsa.c. A field
    element is a list of nine 32-bit limbs of 29 and 28 bits in turn. The loops
    over limbs treat even and odd limbs in turn; here they are one step with the
    parity as a flag. Every function reads its inputs before it writes the
    output that may alias them, so outputs are results. *)

From S2P Require Import Prelude.
From S2P Require Import P256.

Abbreviation felem := (list Z).

Definition NLIMBS : nat := 9.

Definition kBottom28Bits : Z := 0xfffffff.
Definition kBottom29Bits : Z := 0x1fffffff.

Definition kOne : felem := [2; 0; 0; 0xffff800; 0x1fffffff; 0xfffffff; 0x1fbfffff; 0x1ffffff; 0].
Definition kZero : felem := replicate NLIMBS 0.
Definition kP : felem := [0x1fffffff; 0xfffffff; 0x1fffffff; 0x3ff; 0; 0; 0x200000; 0xf000000; 0xfffffff].
Definition k2P : felem := [0x1ffffffe; 0xfffffff; 0x1fffffff; 0x7ff; 0; 0; 0x400000; 0xe000000; 0x1fffffff].

(** Two tables of fifteen points, two rows of limbs each. *)
Definition kPrecomputed : list (list Z) := [
  [0x11522878; 0xe730d41; 0xdb60179; 0x4afe2ff; 0x12883add; 0xcaddd88; 0x119e7edc; 0xd4a6eab; 0x3120bee];
  [0x1d2aac15; 0xf25357c; 0x19e45cdd; 0x5c721d0; 0x1992c5a5; 0xa237487; 0x154ba21; 0x14b10bb; 0xae3fe3];
  [0xd41a576; 0x922fc51; 0x234994f; 0x60b60d3; 0x164586ae; 0xce95f18; 0x1fe49073; 0x3fa36cc; 0x5ebcd2c];
  [0xb402f2f; 0x15c70bf; 0x1561925c; 0x5a26704; 0xda91e90; 0xcdc1c7f; 0x1ea12446; 0xe1ade1e; 0xec91f22];
  [0x26f7778; 0x566847e; 0xa0bec9e; 0x234f453; 0x1a31f21a; 0xd85e75c; 0x56c7109; 0xa267a00; 0xb57c050];
  [0x98fb57; 0xaa837cc; 0x60c0792; 0xcfa5e19; 0x61bab9e; 0x589e39b; 0xa324c5; 0x7d6dee7; 0x2976e4b];
  [0x1fc4124a; 0xa8c244b; 0x1ce86762; 0xcd61c7e; 0x1831c8e0; 0x75774e1; 0x1d96a5a9; 0x843a649; 0xc3ab0fa];
  [0x6e2e7d5; 0x7673a2a; 0x178b65e8; 0x4003e9b; 0x1a1f11c2; 0x7816ea; 0xf643e11; 0x58c43df; 0xf423fc2];
  [0x19633ffa; 0x891f2b2; 0x123c231c; 0x46add8c; 0x54700dd; 0x59e2b17; 0x172db40f; 0x83e277d; 0xb0dd609];
  [0xfd1da12; 0x35c6e52; 0x19ede20c; 0xd19e0c0; 0x97d0f40; 0xb015b19; 0x449e3f5; 0xe10c9e; 0x33ab581];
  [0x56a67ab; 0x577734d; 0x1dddc062; 0xc57b10d; 0x149b39d; 0x26a9e7b; 0xc35df9f; 0x48764cd; 0x76dbcca];
  [0xca4b366; 0xe9303ab; 0x1a7480e7; 0x57e9e81; 0x1e13eb50; 0xf466cf3; 0x6f16b20; 0x4ba3173; 0xc168c33];
  [0x15cb5439; 0x6a38e11; 0x73658bd; 0xb29564f; 0x3f6dc5b; 0x53b97e; 0x1322c4c0; 0x65dd7ff; 0x3a1e4f6];
  [0x14e614aa; 0x9246317; 0x1bc83aca; 0xad97eed; 0xd38ce4a; 0xf82b006; 0x341f077; 0xa6add89; 0x4894acd];
  [0x9f162d5; 0xf8410ef; 0x1b266a56; 0xd7f223; 0x3e0cb92; 0xe39b672; 0x6a2901a; 0x69a8556; 0x7e7c0];
  [0x9b7d8d3; 0x309a80; 0x1ad05f7f; 0xc2fb5dd; 0xcbfd41d; 0x9ceb638; 0x1051825c; 0xda0cf5b; 0x812e881];
  [0x6f35669; 0x6a56f2c; 0x1df8d184; 0x345820; 0x1477d477; 0x1645db1; 0xbe80c51; 0xc22be3e; 0xe35e65a];
  [0x1aeb7aa0; 0xc375315; 0xf67bc99; 0x7fdd7b9; 0x191fc1be; 0x61235d; 0x2c184e9; 0x1c5a839; 0x47a1e26];
  [0xb7cb456; 0x93e225d; 0x14f3c6ed; 0xccc1ac9; 0x17fe37f3; 0x4988989; 0x1a90c502; 0x2f32042; 0xa17769b];
  [0xafd8c7c; 0x8191c6e; 0x1dcdb237; 0x16200c0; 0x107b32a1; 0x66c08db; 0x10d06a02; 0x3fc93; 0x5620023];
  [0x16722b27; 0x68b5c59; 0x270fcfc; 0xfad0ecc; 0xe5de1c2; 0xeab466b; 0x2fc513c; 0x407f75c; 0xbaab133];
  [0x9705fe9; 0xb88b8e7; 0x734c993; 0x1e1ff8f; 0x19156970; 0xabd0f00; 0x10469ea7; 0x3293ac0; 0xcdc98aa];
  [0x1d843fd; 0xe14bfe8; 0x15be825f; 0x8b5212; 0xeb3fb67; 0x81cbd29; 0xbc62f16; 0x2b6fcc7; 0xf5a4e29];
  [0x13560b66; 0xc0b6ac2; 0x51ae690; 0xd41e271; 0xf3e9bd4; 0x1d70aab; 0x1029f72; 0x73e1c35; 0xee70fbc];
  [0xad81baf; 0x9ecc49a; 0x86c741e; 0xfe6be30; 0x176752e7; 0x23d416; 0x1f83de85; 0x27de188; 0x66f70b8];
  [0x181cd51f; 0x96b6e4c; 0x188f2335; 0xa5df759; 0x17a77eb6; 0xfeb0e73; 0x154ae914; 0x2f3ec51; 0x3826b59];
  [0xb91f17d; 0x1c72949; 0x1362bf0a; 0xe23fddf; 0xa5614b0; 0xf7d8f; 0x79061; 0x823d9d2; 0x8213f39];
  [0x1128ae0b; 0xd095d05; 0xb85c0c2; 0x1ecb2ef; 0x24ddc84; 0xe35e901; 0x18411a4a; 0xf5ddc3d; 0x3786689];
  [0x52260e8; 0x5ae3564; 0x542b10d; 0x8d93a45; 0x19952aa4; 0x996cc41; 0x1051a729; 0x4be3499; 0x52b23aa];
  [0x109f307e; 0x6f5b6bb; 0x1f84e1e7; 0x77a0cfa; 0x10c4df3f; 0x25a02ea; 0xb048035; 0xe31de66; 0xc6ecaa3];
  [0x28ea335; 0x2886024; 0x1372f020; 0xf55d35; 0x15e4684c; 0xf2a9e17; 0x1a4a7529; 0xcb7beb1; 0xb2a78a1];
  [0x1ab21f1f; 0x6361ccf; 0x6c9179d; 0xb135627; 0x1267b974; 0x4408bad; 0x1cbff658; 0xe3d6511; 0xc7d76f];
  [0x1cc7a69; 0xe7ee31b; 0x54fab4f; 0x2b914f; 0x1ad27a30; 0xcd3579e; 0xc50124c; 0x50daa90; 0xb13f72];
  [0xb06aa75; 0x70f5cc6; 0x1649e5aa; 0x84a5312; 0x329043c; 0x41c4011; 0x13d32411; 0xb04a838; 0xd760d2d];
  [0x1713b532; 0xbaa0c03; 0x84022ab; 0x6bcf5c1; 0x2f45379; 0x18ae070; 0x18c9e11e; 0x20bca9a; 0x66f496b];
  [0x3eef294; 0x67500d2; 0xd7f613c; 0x2dbbeb; 0xb741038; 0xe04133f; 0x1582968d; 0xbe985f7; 0x1acbc1a];
  [0x1a6a939f; 0x33e50f6; 0xd665ed4; 0xb4b7bd6; 0x1e5a3799; 0x6b33847; 0x17fa56ff; 0x65ef930; 0x21dc4a];
  [0x2b37659; 0x450fe17; 0xb357b65; 0xdf5efac; 0x15397bef; 0x9d35a7f; 0x112ac15f; 0x624e62e; 0xa90ae2f];
  [0x107eecd2; 0x1f69bbe; 0x77d6bce; 0x5741394; 0x13c684fc; 0x950c910; 0x725522b; 0xdc78583; 0x40eeabb];
  [0x1fde328a; 0xbd61d96; 0xd28c387; 0x9e77d89; 0x12550c40; 0x759cb7d; 0x367ef34; 0xae2a960; 0x91b8bdc];
  [0x93462a9; 0xf469ef; 0xb2e9aef; 0xd2ca771; 0x54e1f42; 0x7aaa49; 0x6316abb; 0x2413c8e; 0x5425bf9];
  [0x1bed3e3a; 0xf272274; 0x1f5e7326; 0x6416517; 0xea27072; 0x9cedea7; 0x6e7633; 0x7c91952; 0xd806dce];
  [0x8e2a7e1; 0xe421e1a; 0x418c9e1; 0x1dbc890; 0x1b395c36; 0xa1dc175; 0x1dc4ef73; 0x8956f34; 0xe4b5cf2];
  [0x1b0d3a18; 0x3194a36; 0x6c2641f; 0xe44124c; 0xa2f4eaa; 0xa8c25ba; 0xf927ed7; 0x627b614; 0x7371cca];
  [0xba16694; 0x417bc03; 0x7c0a7e3; 0x9c35c19; 0x1168a205; 0x8b6b00d; 0x10e3edc9; 0x9c19bf2; 0x5882229];
  [0x1b2b4162; 0xa5cef1a; 0x1543622b; 0x9bd433e; 0x364e04d; 0x7480792; 0x5c9b5b3; 0xe85ff25; 0x408ef57];
  [0x1814cfa4; 0x121b41b; 0xd248a0f; 0x3b05222; 0x39bb16a; 0xc75966d; 0xa038113; 0xa4a1769; 0x11fbc6c];
  [0x917e50e; 0xeec3da8; 0x169d6eac; 0x10c1699; 0xa416153; 0xf724912; 0x15cd60b7; 0x4acbad9; 0x5efc5fa];
  [0xf150ed7; 0x122b51; 0x1104b40a; 0xcb7f442; 0xfbb28ff; 0x6ac53ca; 0x196142cc; 0x7bf0fa9; 0x957651];
  [0x4e0f215; 0xed439f8; 0x3f46bd5; 0x5ace82f; 0x110916b6; 0x6db078; 0xffd7d57; 0xf2ecaac; 0xca86dec];
  [0x15d6b2da; 0x965ecc9; 0x1c92b4c2; 0x1f3811; 0x1cb080f5; 0x2d8b804; 0x19d1c12d; 0xf20bd46; 0x1951fa7];
  [0xa3656c3; 0x523a425; 0xfcd0692; 0xd44ddc8; 0x131f0f5b; 0xaf80e4a; 0xcd9fc74; 0x99bb618; 0x2db944c];
  [0xa673090; 0x1c210e1; 0x178c8d23; 0x1474383; 0x10b8743d; 0x985a55b; 0x2e74779; 0x576138; 0x9587927];
  [0x133130fa; 0xbe05516; 0x9f4d619; 0xbb62570; 0x99ec591; 0xd9468fe; 0x1d07782d; 0xfc72e0b; 0x701b298];
  [0x1863863b; 0x85954b8; 0x121a0c36; 0x9e7fedf; 0xf64b429; 0x9b9d71e; 0x14e2f5d8; 0xf858d3a; 0x942eea8];
  [0xda5b765; 0x6edafff; 0xa9d18cc; 0xc65e4ba; 0x1c747e86; 0xe4ea915; 0x1981d7a1; 0x8395659; 0x52ed4e2];
  [0x87d43b7; 0x37ab11b; 0x19d292ce; 0xf8d4692; 0x18c3053f; 0x8863e13; 0x4c146c0; 0x6bdf55a; 0x4e4457d];
  [0x16152289; 0xac78ec2; 0x1a59c5a2; 0x2028b97; 0x71c2d01; 0x295851f; 0x404747b; 0x878558d; 0x7d29aa4];
  [0x13d8341f; 0x8daefd7; 0x139c972d; 0x6b7ea75; 0xd4a9dde; 0xff163d8; 0x81d55d7; 0xa5bef68; 0xb7b30d8];
  [0xbe73d6f; 0xaa88141; 0xd976c81; 0x7e7a9cc; 0x18beb771; 0xd773cbd; 0x13f51951; 0x9d0c177; 0x1c49a78]
].

(** ** Field elements *)
Definition NON_ZERO_TO_ALL_ONES (x : Z) : Z := u32 (Z.shiftr (u32 (x - 1)) 31 - 1).

(** [a[i] += x] and [a[i] -= x] on 32-bit words *)
Definition add_at (a : list Z) (i x : Z) : list Z := wr a i (u32 (rd a i + x)).
Definition sub_at (a : list Z) (i x : Z) : list Z := wr a i (u32 (rd a i - x)).

(** [x << n] on 32 bits *)
Definition shl (x n : Z) : Z := u32 (Z.shiftl x n).

Definition felem_reduce_carry (inout : felem) (carry : Z) : felem :=
  let carry_mask := NON_ZERO_TO_ALL_ONES carry in
  let inout := add_at inout 0 (shl carry 1) in
  let inout := add_at inout 3 (Z.land 0x10000000 carry_mask) in
  let inout := sub_at inout 3 (shl carry 11) in
  let inout := add_at inout 4 (Z.land (0x20000000 - 1) carry_mask) in
  let inout := add_at inout 5 (Z.land (0x10000000 - 1) carry_mask) in
  let inout := add_at inout 6 (Z.land (0x20000000 - 1) carry_mask) in
  let inout := sub_at inout 6 (shl carry 22) in
  let inout := sub_at inout 7 (Z.land 1 carry_mask) in
  add_at inout 7 (shl carry 25).

Definition width (even : bool) : Z := if even then 29 else 28.
Definition kBottom (even : bool) : Z := if even then kBottom29Bits else kBottom28Bits.

(** [out[i] += carry; carry = out[i] >> width; out[i] &= bottom] along the limbs *)
Fixpoint carry_loop (even : bool) (carry : Z) (l : list Z) : list Z * Z :=
  match l with
  | [] => ([], carry)
  | x :: l' =>
      let x := u32 (x + carry) in
      let '(r, c) := carry_loop (negb even) (Z.shiftr x (width even)) l' in
      (Z.land x (kBottom even) :: r, c)
  end.

Definition felem_sum (in1 in2 : felem) : felem :=
  let '(out, carry) := carry_loop true 0 (zip_with (fun x y => u32 (x + y)) in1 in2) in
  felem_reduce_carry out carry.

Definition two31m3 : Z := 2 ^ 31 - 2 ^ 3.
Definition two30m2 : Z := 2 ^ 30 - 2 ^ 2.
Definition two30p13m2 : Z := 2 ^ 30 + 2 ^ 13 - 2 ^ 2.
Definition two31m2 : Z := 2 ^ 31 - 2 ^ 2.
Definition two31p24m2 : Z := 2 ^ 31 + 2 ^ 24 - 2 ^ 2.
Definition two30m27m2 : Z := 2 ^ 30 - 2 ^ 27 - 2 ^ 2.

Definition zero31 : felem :=
  [two31m3; two30m2; two31m2; two30p13m2; two31m2; two30m2; two31p24m2; two30m27m2; two31m2].

Definition felem_diff (in1 in2 : felem) : felem :=
  let d := zip_with (fun x y => u32 (x - y)) in1 in2 in
  let '(out, carry) := carry_loop true 0 (zip_with (fun x z => u32 (x + z)) d zero31) in
  felem_reduce_carry out carry.

(** The words of [tmp] cut into limbs; the low and high halves of a word. *)
Definition lo (x : Z) : Z := u32 x.
Definition hi (x : Z) : Z := u32 (Z.shiftr x 32).

Definition split_word (even : bool) (t2 t1 t0 carry : Z) : Z :=
  let x := Z.shiftr (hi t2) 25 in
  let x := u32 (x + Z.shiftr (lo t1) (width (negb even))) in
  let x := u32 (x + Z.land (shl (hi t1) (if even then 4 else 3)) (kBottom even)) in
  let x := u32 (x + Z.land (lo t0) (kBottom even)) in
  u32 (x + carry).

(** [for (i = 2; i < 17; i++)] *)
Fixpoint split_loop (even : bool) (t2 t1 carry : Z) (tmp : list Z) : list Z * Z :=
  match tmp with
  | [] => ([], carry)
  | t0 :: tmp' =>
      let x := split_word even t2 t1 t0 carry in
      let '(r, c) := split_loop (negb even) t1 t0 (Z.shiftr x (width even)) tmp' in
      (Z.land x (kBottom even) :: r, c)
  end.

Definition split_tmp (tmp : list Z) : list Z :=
  let x0 := Z.land (rd tmp 0) kBottom29Bits in
  let x1 := Z.shiftr (lo (rd tmp 0)) 29 in
  let x1 := Z.lor x1 (Z.land (shl (hi (rd tmp 0)) 3) kBottom28Bits) in
  let x1 := u32 (x1 + Z.land (lo (rd tmp 1)) kBottom28Bits) in
  let '(r, carry) := split_loop true (rd tmp 0) (rd tmp 1) (Z.shiftr x1 28) (drop 2 tmp) in
  let x17 := Z.shiftr (hi (rd tmp 15)) 25 in
  let x17 := u32 (x17 + Z.shiftr (lo (rd tmp 16)) 29) in
  let x17 := u32 (x17 + shl (hi (rd tmp 16)) 3) in
  let x17 := u32 (x17 + carry) in
  x0 :: Z.land x1 kBottom28Bits :: r ++ [x17].

(** The elimination of limb [i], even, and of limb [i + 1]. *)
Definition elim_even (i : Z) (tmp2 : list Z) : list Z :=
  let tmp2 := add_at tmp2 (i + 1) (Z.shiftr (rd tmp2 i) 29) in
  let x := Z.land (rd tmp2 i) kBottom29Bits in
  let xMask := NON_ZERO_TO_ALL_ONES x in
  let tmp2 := wr tmp2 i 0 in
  let tmp2 := add_at tmp2 (i + 3) (Z.land (shl x 10) kBottom28Bits) in
  let tmp2 := add_at tmp2 (i + 4) (Z.shiftr x 18) in
  let tmp2 := add_at tmp2 (i + 6) (Z.land (shl x 21) kBottom29Bits) in
  let tmp2 := add_at tmp2 (i + 7) (Z.shiftr x 8) in
  let tmp2 := add_at tmp2 (i + 7) (Z.land 0x10000000 xMask) in
  let tmp2 := add_at tmp2 (i + 8) (Z.land (u32 (x - 1)) xMask) in
  let tmp2 := sub_at tmp2 (i + 7) (Z.land (shl x 24) kBottom28Bits) in
  let tmp2 := sub_at tmp2 (i + 8) (Z.shiftr x 4) in
  let tmp2 := add_at tmp2 (i + 8) (Z.land 0x20000000 xMask) in
  let tmp2 := sub_at tmp2 (i + 8) x in
  let tmp2 := add_at tmp2 (i + 8) (Z.land (shl x 28) kBottom29Bits) in
  add_at tmp2 (i + 9) (Z.land (u32 (Z.shiftr x 1 - 1)) xMask).

Definition elim_odd (i : Z) (tmp2 : list Z) : list Z :=
  let tmp2 := add_at tmp2 (i + 2) (Z.shiftr (rd tmp2 (i + 1)) 28) in
  let x := Z.land (rd tmp2 (i + 1)) kBottom28Bits in
  let xMask := NON_ZERO_TO_ALL_ONES x in
  let tmp2 := wr tmp2 (i + 1) 0 in
  let tmp2 := add_at tmp2 (i + 4) (Z.land (shl x 11) kBottom29Bits) in
  let tmp2 := add_at tmp2 (i + 5) (Z.shiftr x 18) in
  let tmp2 := add_at tmp2 (i + 7) (Z.land (shl x 21) kBottom28Bits) in
  let tmp2 := add_at tmp2 (i + 8) (Z.shiftr x 7) in
  let tmp2 := add_at tmp2 (i + 8) (Z.land 0x20000000 xMask) in
  let tmp2 := add_at tmp2 (i + 9) (Z.land (u32 (x - 1)) xMask) in
  let tmp2 := sub_at tmp2 (i + 8) (Z.land (shl x 25) kBottom29Bits) in
  let tmp2 := sub_at tmp2 (i + 9) (Z.shiftr x 4) in
  let tmp2 := add_at tmp2 (i + 9) (Z.land 0x10000000 xMask) in
  let tmp2 := sub_at tmp2 (i + 9) x in
  add_at tmp2 (i + 10) (Z.land (u32 (x - 1)) xMask).

(** [for (i = 0;; i += 2)], left in the middle when i is 8 *)
Definition eliminate (tmp2 : list Z) : list Z :=
  elim_even 8 (for_ 4 0 (fun k tmp2 => elim_odd (2 * k) (elim_even (2 * k) tmp2)) tmp2).

(** The limbs above 2^257 moved down, two at a time. *)
Fixpoint shift_loop (n : nat) (i carry : Z) (tmp2 : list Z) : list Z * Z :=
  match n with
  | O => ([], carry)
  | S n' =>
      let x := u32 (rd tmp2 (i + 9) + carry) in
      let x := u32 (x + Z.land (shl (rd tmp2 (i + 10)) 28) kBottom29Bits) in
      let carry := Z.shiftr x 29 in
      let y := u32 (Z.shiftr (rd tmp2 (i + 1 + 9)) 1 + carry) in
      let '(r, c) := shift_loop n' (i + 2) (Z.shiftr y 28) tmp2 in
      (Z.land x kBottom29Bits :: Z.land y kBottom28Bits :: r, c)
  end.

Definition felem_reduce_degree (tmp : list Z) : felem :=
  let tmp2 := eliminate (split_tmp tmp) in
  let '(out, carry) := shift_loop 4 0 0 tmp2 in
  let x := u32 (rd tmp2 17 + carry) in
  felem_reduce_carry (out ++ [Z.land x kBottom29Bits]) (Z.shiftr x 29).

(** Products and their sums on 64 bits: [in[i] * (in2[j] << s)] *)
Definition term (in1 in2 : felem) (i j s : Z) : Z := u64 (rd in1 i * shl (rd in2 j) s).
Definition sum64 (l : list Z) : Z := fold_left (fun acc x => u64 (acc + x)) l 0.

Definition square_tmp (in1 : felem) : list Z :=
  let t := term in1 in1 in
  [
     sum64 [t 0 0 0];
     sum64 [t 0 1 1];
     sum64 [t 0 2 1; t 1 1 1];
     sum64 [t 0 3 1; t 1 2 1];
     sum64 [t 0 4 1; t 1 3 2; t 2 2 0];
     sum64 [t 0 5 1; t 1 4 1; t 2 3 1];
     sum64 [t 0 6 1; t 1 5 2; t 2 4 1; t 3 3 1];
     sum64 [t 0 7 1; t 1 6 1; t 2 5 1; t 3 4 1];
     sum64 [t 0 8 1; t 1 7 2; t 2 6 1; t 3 5 2; t 4 4 0];
     sum64 [t 1 8 1; t 2 7 1; t 3 6 1; t 4 5 1];
     sum64 [t 2 8 1; t 3 7 2; t 4 6 1; t 5 5 1];
     sum64 [t 3 8 1; t 4 7 1; t 5 6 1];
     sum64 [t 4 8 1; t 5 7 2; t 6 6 0];
     sum64 [t 5 8 1; t 6 7 1];
     sum64 [t 6 8 1; t 7 7 1];
     sum64 [t 7 8 1];
     sum64 [t 8 8 0]].

Definition felem_square (in1 : felem) : felem := felem_reduce_degree (square_tmp in1).

Definition mul_tmp (in1 in2 : felem) : list Z :=
  let t := term in1 in2 in
  [
     sum64 [t 0 0 0];
     sum64 [t 0 1 0; t 1 0 0];
     sum64 [t 0 2 0; t 1 1 1; t 2 0 0];
     sum64 [t 0 3 0; t 1 2 0; t 2 1 0; t 3 0 0];
     sum64 [t 0 4 0; t 1 3 1; t 2 2 0; t 3 1 1; t 4 0 0];
     sum64 [t 0 5 0; t 1 4 0; t 2 3 0; t 3 2 0; t 4 1 0; t 5 0 0];
     sum64 [t 0 6 0; t 1 5 1; t 2 4 0; t 3 3 1; t 4 2 0; t 5 1 1; t 6 0 0];
     sum64 [t 0 7 0; t 1 6 0; t 2 5 0; t 3 4 0; t 4 3 0; t 5 2 0; t 6 1 0; t 7 0 0];
     sum64 [t 0 8 0; t 1 7 1; t 2 6 0; t 3 5 1; t 4 4 0; t 5 3 1; t 6 2 0; t 7 1 1; t 8 0 0];
     sum64 [t 1 8 0; t 2 7 0; t 3 6 0; t 4 5 0; t 5 4 0; t 6 3 0; t 7 2 0; t 8 1 0];
     sum64 [t 2 8 0; t 3 7 1; t 4 6 0; t 5 5 1; t 6 4 0; t 7 3 1; t 8 2 0];
     sum64 [t 3 8 0; t 4 7 0; t 5 6 0; t 6 5 0; t 7 4 0; t 8 3 0];
     sum64 [t 4 8 0; t 5 7 1; t 6 6 0; t 7 5 1; t 8 4 0];
     sum64 [t 5 8 0; t 6 7 0; t 7 6 0; t 8 5 0];
     sum64 [t 6 8 0; t 7 7 1; t 8 6 0];
     sum64 [t 7 8 0; t 8 7 0];
     sum64 [t 8 8 0]].

Definition felem_mul (in1 in2 : felem) : felem := felem_reduce_degree (mul_tmp in1 in2).

(** [for (i = 0; i < n; i++) felem_square(x, x)] *)
Definition squares (n : nat) (x : felem) : felem := Nat.iter n felem_square x.

Definition felem_inv (in1 : felem) : felem :=
  let ftmp := felem_square in1 in
  let ftmp := felem_mul in1 ftmp in
  let e2 := ftmp in
  let ftmp := felem_square ftmp in
  let ftmp := felem_square ftmp in
  let ftmp := felem_mul ftmp e2 in
  let e4 := ftmp in
  let ftmp := felem_square ftmp in
  let ftmp := felem_square ftmp in
  let ftmp := felem_square ftmp in
  let ftmp := felem_square ftmp in
  let ftmp := felem_mul ftmp e4 in
  let e8 := ftmp in
  let ftmp := squares 8 ftmp in
  let ftmp := felem_mul ftmp e8 in
  let e16 := ftmp in
  let ftmp := squares 16 ftmp in
  let ftmp := felem_mul ftmp e16 in
  let e32 := ftmp in
  let ftmp := squares 32 ftmp in
  let e64 := ftmp in
  let ftmp := felem_mul ftmp in1 in
  let ftmp := squares 192 ftmp in
  let ftmp2 := felem_mul e64 e32 in
  let ftmp2 := squares 16 ftmp2 in
  let ftmp2 := felem_mul ftmp2 e16 in
  let ftmp2 := squares 8 ftmp2 in
  let ftmp2 := felem_mul ftmp2 e8 in
  let ftmp2 := squares 4 ftmp2 in
  let ftmp2 := felem_mul ftmp2 e4 in
  let ftmp2 := felem_square ftmp2 in
  let ftmp2 := felem_square ftmp2 in
  let ftmp2 := felem_mul ftmp2 e2 in
  let ftmp2 := felem_square ftmp2 in
  let ftmp2 := felem_square ftmp2 in
  let ftmp2 := felem_mul ftmp2 in1 in
  felem_mul ftmp2 ftmp.

Definition felem_scalar_3 (out : felem) : felem :=
  let '(out, carry) := carry_loop true 0 (map (fun x => u32 (x * 3)) out) in
  felem_reduce_carry out carry.

(** Multiplication by 2^k along the limbs. *)
Fixpoint scalar_loop (k : Z) (even : bool) (carry : Z) (l : list Z) : list Z * Z :=
  match l with
  | [] => ([], carry)
  | x :: l' =>
      let next_carry := Z.shiftr x (width even - k) in
      let x := Z.land (shl x k) (kBottom even) in
      let x := u32 (x + carry) in
      let '(r, c) := scalar_loop k (negb even) (u32 (next_carry + Z.shiftr x (width even))) l' in
      (Z.land x (kBottom even) :: r, c)
  end.

Definition felem_scalar_4 (out : felem) : felem :=
  let '(out, carry) := scalar_loop 2 true 0 out in felem_reduce_carry out carry.

Definition felem_scalar_8 (out : felem) : felem :=
  let '(out, carry) := scalar_loop 3 true 0 out in felem_reduce_carry out carry.

(** [do { ... } while (carry)] *)
Fixpoint minimal_loop (fuel : nat) (tmp : felem) : outcome felem :=
  match fuel with
  | O => Diverge
  | S fuel' =>
      let '(tmp, carry) := carry_loop true 0 tmp in
      let tmp := felem_reduce_carry tmp carry in
      if carry =? 0 then Ret tmp else minimal_loop fuel' tmp
  end.

Definition felem_is_zero_vartime (in1 : felem) : outcome bool :=
  tmp ← minimal_loop 8 in1;
  Ret (bool_decide (tmp = kZero) || bool_decide (tmp = kP) || bool_decide (tmp = k2P)).

(** ** Points in Jacobian coordinates *)
Record point := Point { px : felem; py : felem; pz : felem }.

Definition infinity : point := Point kZero kZero kZero.

Definition point_double (p : point) : point :=
  let delta := felem_square (pz p) in
  let gamma := felem_square (py p) in
  let beta := felem_mul (px p) gamma in
  let tmp := felem_sum (px p) delta in
  let tmp2 := felem_diff (px p) delta in
  let alpha := felem_mul tmp tmp2 in
  let alpha := felem_scalar_3 alpha in
  let tmp := felem_sum (py p) (pz p) in
  let tmp := felem_square tmp in
  let tmp := felem_diff tmp gamma in
  let z_out := felem_diff tmp delta in
  let beta := felem_scalar_4 beta in
  let x_out := felem_square alpha in
  let x_out := felem_diff x_out beta in
  let x_out := felem_diff x_out beta in
  let tmp := felem_diff beta x_out in
  let tmp := felem_mul alpha tmp in
  let tmp2 := felem_square gamma in
  let tmp2 := felem_scalar_8 tmp2 in
  let y_out := felem_diff tmp tmp2 in
  Point x_out y_out z_out.

(** The end of the three additions: from [u1], [s1], [h], [r] and the double product of the z's. *)
Definition add_tail (u1 s1 h i r z12 : felem) : point :=
  let j := felem_mul h i in
  let r := felem_sum r r in
  let v := felem_mul u1 i in
  let z_out := felem_mul z12 h in
  let rr := felem_square r in
  let x_out := felem_diff rr j in
  let x_out := felem_diff x_out v in
  let x_out := felem_diff x_out v in
  let tmp := felem_diff v x_out in
  let y_out := felem_mul tmp r in
  let tmp := felem_mul s1 j in
  let y_out := felem_diff y_out tmp in
  let y_out := felem_diff y_out tmp in
  Point x_out y_out z_out.

(** [i = (2 h)^2] *)
Definition double_square (h : felem) : felem := felem_square (felem_sum h h).

Definition point_add_mixed (p : point) (x2 y2 : felem) : point :=
  let z1z1 := felem_square (pz p) in
  let tmp := felem_sum (pz p) (pz p) in
  let u2 := felem_mul x2 z1z1 in
  let z1z1z1 := felem_mul (pz p) z1z1 in
  let s2 := felem_mul y2 z1z1z1 in
  let h := felem_diff u2 (px p) in
  let r := felem_diff s2 (py p) in
  add_tail (px p) (py p) h (double_square h) r tmp.

Definition point_add (p q : point) : point :=
  let z1z1 := felem_square (pz p) in
  let z2z2 := felem_square (pz q) in
  let u1 := felem_mul (px p) z2z2 in
  let tmp := felem_sum (pz p) (pz q) in
  let tmp := felem_square tmp in
  let tmp := felem_diff tmp z1z1 in
  let tmp := felem_diff tmp z2z2 in
  let z2z2z2 := felem_mul (pz q) z2z2 in
  let s1 := felem_mul (py p) z2z2z2 in
  let u2 := felem_mul (px q) z1z1 in
  let z1z1z1 := felem_mul (pz p) z1z1 in
  let s2 := felem_mul (py q) z1z1z1 in
  let h := felem_diff u2 u1 in
  let r := felem_diff s2 s1 in
  add_tail u1 s1 h (double_square h) r tmp.

Definition point_add_or_double_vartime (p q : point) : outcome point :=
  let z1z1 := felem_square (pz p) in
  let z2z2 := felem_square (pz q) in
  let u1 := felem_mul (px p) z2z2 in
  let tmp := felem_sum (pz p) (pz q) in
  let tmp := felem_square tmp in
  let tmp := felem_diff tmp z1z1 in
  let tmp := felem_diff tmp z2z2 in
  let z2z2z2 := felem_mul (pz q) z2z2 in
  let s1 := felem_mul (py p) z2z2z2 in
  let u2 := felem_mul (px q) z1z1 in
  let z1z1z1 := felem_mul (pz p) z1z1 in
  let s2 := felem_mul (py q) z1z1z1 in
  let h := felem_diff u2 u1 in
  x_equal ← felem_is_zero_vartime h;
  let r := felem_diff s2 s1 in
  y_equal ← felem_is_zero_vartime r;
  if (x_equal && y_equal)%bool then Ret (point_double p)
  else Ret (add_tail u1 s1 h (double_square h) r tmp).

(** ** Selection by masks *)
Definition copy_conditional (out in1 : felem) (mask : Z) : felem :=
  zip_with (fun o i => Z.lxor o (Z.land mask (Z.lxor i o))) out in1.

Definition copy_point (out in1 : point) (mask : Z) : point :=
  Point (copy_conditional (px out) (px in1) mask) (copy_conditional (py out) (py in1) mask)
    (copy_conditional (pz out) (pz in1) mask).

(** All ones when [i = index], for both below 16. *)
Definition index_mask (i index : Z) : Z :=
  let mask := Z.lxor i index in
  let mask := Z.lor mask (Z.shiftr mask 2) in
  let mask := Z.lor mask (Z.shiftr mask 1) in
  u32 (Z.land mask 1 - 1).

Definition or_masked (mask : Z) (out row : felem) : felem :=
  zip_with (fun o t => Z.lor o (Z.land t mask)) out row.

Definition select_affine_point (table : list (list Z)) (index : Z) : felem * felem :=
  for_ 15 1 (fun i '(out_x, out_y) =>
    let row k := nth (Z.to_nat (2 * (i - 1) + k)) table [] in
    (or_masked (index_mask i index) out_x (row 0), or_masked (index_mask i index) out_y (row 1)))
    (kZero, kZero).

Definition select_jacobian_point (table : list point) (index : Z) : point :=
  for_ 15 1 (fun i out =>
    let row := nth (Z.to_nat i) table infinity in
    let mask := index_mask i index in
    Point (or_masked mask (px out) (px row)) (or_masked mask (py out) (py row)) (or_masked mask (pz out) (pz row)))
    infinity.

(** ** Scalar multiplication

    The state is the point and the mask that says it is still infinity. *)
Definition base_index (scalar : p256_int) (i j : Z) : Z :=
  let bit0 := p256_get_bit scalar (31 - i + j) in
  let bit1 := p256_get_bit scalar (95 - i + j) in
  let bit2 := p256_get_bit scalar (159 - i + j) in
  let bit3 := p256_get_bit scalar (223 - i + j) in
  Z.lor (Z.lor (Z.lor bit0 (Z.shiftl bit1 1)) (Z.shiftl bit2 2)) (Z.shiftl bit3 3).

(** The updates that follow an addition [t] of [n] and [p]. *)
Definition merge_sum (n p t : point) (n_is_infinity_mask index : Z) : point * Z :=
  let n := copy_point n p n_is_infinity_mask in
  let p_is_noninfinite_mask := NON_ZERO_TO_ALL_ONES index in
  let mask := Z.land p_is_noninfinite_mask (u32 (Z.lnot n_is_infinity_mask)) in
  let n := copy_point n t mask in
  (n, Z.land n_is_infinity_mask (u32 (Z.lnot p_is_noninfinite_mask))).

Definition base_step (scalar : p256_int) (i j : Z) (table : list (list Z)) (s : point * Z) : point * Z :=
  let '(n, inf) := s in
  let index := base_index scalar i j in
  let '(x, y) := select_affine_point table index in
  let t := point_add_mixed n x y in
  merge_sum n (Point x y kOne) t inf index.

Definition scalar_base_mult (scalar : p256_int) : point :=
  fst (for_ 32 0 (fun i '(n, inf) =>
    let n := if i =? 0 then n else point_double n in
    let s := base_step scalar i 0 kPrecomputed (n, inf) in
    base_step scalar i 32 (drop 30 kPrecomputed) s) (infinity, u32 (-1))).

Definition point_to_affine (n : point) : felem * felem :=
  let z_inv := felem_inv (pz n) in
  let z_inv_sq := felem_square z_inv in
  let x_out := felem_mul (px n) z_inv_sq in
  let z_inv := felem_mul z_inv z_inv_sq in
  (x_out, felem_mul (py n) z_inv).

(** [precomp[0]], [precomp[1]], then a double and an addition for each even index. *)
Definition precomp (x y : felem) : list point :=
  for_ 7 1 (fun k table =>
    let d := point_double (nth (Z.to_nat k) table infinity) in
    table ++ [d; point_add_mixed d x y]) [infinity; Point x y kOne].

Definition window (scalar : p256_int) (i : Z) : Z :=
  Z.lor (Z.lor (Z.lor (Z.shiftl (p256_get_bit scalar (255 - i - 0)) 3)
                      (Z.shiftl (p256_get_bit scalar (255 - i - 1)) 2))
               (Z.shiftl (p256_get_bit scalar (255 - i - 2)) 1))
        (p256_get_bit scalar (255 - i - 3)).

Definition scalar_mult (x y : felem) (scalar : p256_int) : point :=
  let table := precomp x y in
  fst (for_ 64 0 (fun k '(n, inf) =>
    let n := if k =? 0 then n else Nat.iter 4 point_double n in
    let index := window scalar (4 * k) in
    let p := select_jacobian_point table index in
    merge_sum n p (point_add n p) inf index) (infinity, u32 (-1))).

(** ** Montgomery form *)
Definition kR : p256_int := [2; 0; 0; 0xfffffffe; 0xffffffff; 0xffffffff; 0xfffffffd; 1].
Definition kRInv : p256_int := [0x80000000; 1; 0xffffffff; 0; 0x80000001; 0xfffffffe; 1; 0x7fffffff].

Fixpoint to_montgomery_loop (n : nat) (even : bool) (x : p256_int) : outcome felem :=
  match n with
  | O => Ret []
  | S n' =>
      let limb := Z.land (rd x 0) (kBottom even) in
      x ← p256_shr x (width even) x;
      r ← to_montgomery_loop n' (negb even) x;
      Ret (limb :: r)
  end.

Definition to_montgomery (x : p256_int) : outcome felem :=
  in_shifted ← p256_modmul SECP256r1_p x 0 kR;
  to_montgomery_loop NLIMBS true in_shifted.

(** [for (i = NLIMBS - 2; i >= 0; i--)] *)
Fixpoint from_montgomery_loop (n : nat) (in1 : felem) (top : Z) (result : p256_int) : outcome (Z * p256_int) :=
  match n with
  | O => Ret (top, result)
  | S i =>
      '(top, tmp) ← p256_shl result (width (Nat.even i)) P256_ZERO;
      let '(carry, result) := p256_add_d tmp (rd in1 (Z.of_nat i)) in
      from_montgomery_loop i in1 (Z.lor (i32 top) carry) result
  end.

Definition from_montgomery (in1 : felem) : outcome p256_int :=
  let '(_, result) := p256_add_d P256_ZERO (rd in1 8) in
  '(top, result) ← from_montgomery_loop 8 in1 0 result;
  p256_modmul SECP256r1_p kRInv (u32 top) result.

(** ** Entry points *)
Definition p256_base_point_mul (n : p256_int) : outcome (p256_int * p256_int) :=
  let '(x_affine, y_affine) := point_to_affine (scalar_base_mult n) in
  out_x ← from_montgomery x_affine;
  out_y ← from_montgomery y_affine;
  Ret (out_x, out_y).

Definition p256_points_mul_vartime (n1 n2 in_x in_y : p256_int) : outcome (p256_int * p256_int) :=
  if p256_is_zero n1 && p256_is_zero n2 then Ret (P256_ZERO, P256_ZERO) else
  px ← to_montgomery in_x;
  py ← to_montgomery in_y;
  let p1 := scalar_base_mult n1 in
  let p2 := scalar_mult px py n2 in
  p ← (if p256_is_zero n2 then Ret p1
       else if p256_is_zero n1 then Ret p2
       else point_add_or_double_vartime p1 p2);
  let '(px, py) := point_to_affine p in
  out_x ← from_montgomery px;
  out_y ← from_montgomery py;
  Ret (out_x, out_y).

(** ** p256_ecdsa.c *)
Definition p256_ecdsa_verify (fuel : nat) (key_x key_y message r s : p256_int) : outcome Z :=
  valid ← p256_is_valid_point key_x key_y;
  if valid =? 0 then Ret 0 else
  let u := p256_mod SECP256r1_n r in
  let v := p256_mod SECP256r1_n s in
  if p256_is_zero u || p256_is_zero v then Ret 0 else
  v ← p256_modinv_vartime fuel SECP256r1_n s;
  u ← p256_modmul SECP256r1_n message 0 v;
  v ← p256_modmul SECP256r1_n r 0 v;
  '(u, _) ← p256_points_mul_vartime u v key_x key_y;
  let u := p256_mod SECP256r1_n u in
  Ret (if p256_cmp r u =? 0 then 1 else 0).
