(* ===== verification/P256Field.v ===== *)
(** * Arithmetic of field elements

    The number nine limbs of 29 and 28 bits stand for, and the proofs that the
    operations of p256_ec.c on them are correct modulo p: sums, differences and
    small multiples, and the Montgomery product with R = 2^257. Every operation
    takes and returns limbs below 2^30 and 2^29 in turn, so they compose. *)

From S2P Require Import Prelude.
From S2P Require Import Cong.
From S2P Require Import P256.
From S2P Require Import P256Curve.
From S2P Require Import P256Ec.

(** ** Numbers in limbs of alternating width *)
Fixpoint aval (even : bool) (l : list Z) : Z :=
  match l with
  | [] => 0
  | x :: l' => x + 2 ^ width even * aval (negb even) l'
  end.

Abbreviation fval := (aval true).

(** The bits of [n] limbs. *)
Fixpoint abits (even : bool) (n : nat) : Z :=
  match n with O => 0 | S n' => width even + abits (negb even) n' end.

(** Limbs of at most [extra] bits above their width. *)
Fixpoint limbs_below (extra : Z) (even : bool) (l : list Z) : Prop :=
  match l with
  | [] => True
  | x :: l' => 0 <= x < 2 ^ (width even + extra) /\ limbs_below extra (negb even) l'
  end.

(** What every operation takes and returns, and the elements its carry chain leaves.
    The top limb never has the extra bit: [felem_reduce_carry] does not touch it. *)
Definition tight (a : felem) : Prop := length a = NLIMBS /\ limbs_below 1 true a /\ rd a 8 < 2 ^ 29.
Definition narrow (a : felem) : Prop := length a = NLIMBS /\ limbs_below 0 true a.

Lemma width_bounds even : 28 <= width even <= 29.
Proof. destruct even; cbn; lia. Qed.

Lemma abits_nonneg n : forall even, 0 <= abits even n.
Proof. induction n as [|n IH]; intros even; cbn; [lia |]. pose proof (width_bounds even). specialize (IH (negb even)). lia. Qed.

Lemma kBottom_mod x even : Z.land x (kBottom even) = x mod 2 ^ width even.
Proof. destruct even; [apply (land_ones_mod x 29) | apply (land_ones_mod x 28)]; lia. Qed.

Lemma bottom29 x : Z.land x kBottom29Bits = x mod 2 ^ 29.
Proof. apply (kBottom_mod x true). Qed.

Lemma bottom28 x : Z.land x kBottom28Bits = x mod 2 ^ 28.
Proof. apply (kBottom_mod x false). Qed.

Lemma limbs_below_Forall extra : 0 <= extra -> forall l even, limbs_below extra even l ->
  Forall (fun x => 0 <= x < 2 ^ (29 + extra)) l.
Proof.
  intros He. induction l as [|x l IH]; intros even H; constructor; [| eapply IH, H].
  destruct H as [H _]. pose proof (width_bounds even).
  assert (2 ^ (width even + extra) <= 2 ^ (29 + extra)) by (apply Z.pow_le_mono_r; lia). lia.
Qed.

(** ** Carry chains *)
Lemma carry_loop_spec : forall l even carry out c, carry_loop even carry l = (out, c) ->
  Forall (fun x => 0 <= x <= 2 ^ 32 - 16) l -> 0 <= carry < 16 ->
  length out = length l /\ limbs_below 0 even out /\ 0 <= c < 16 /\
  aval even out + 2 ^ abits even (length l) * c = aval even l + carry.
Proof.
  induction l as [|x l IH]; intros even carry out c E Hl Hc; cbn [carry_loop] in E.
  { injection E as <- <-. cbn. lia. }
  apply Forall_cons in Hl as [Hx Hl]. cbv zeta in E.
  rewrite (wrap_small 32) in E by (unfold in_range; lia).
  destruct (carry_loop (negb even) _ l) as [r c'] eqn:Er. injection E as <- <-.
  rewrite Z.shiftr_div_pow2 in Er by (pose proof (width_bounds even); lia).
  assert (Hw : 2 ^ 28 <= 2 ^ width even) by (destruct even; cbn; lia).
  pose proof (Z.div_mod (x + carry) (2 ^ width even)) as Hdm.
  pose proof (Z.mod_pos_bound (x + carry) (2 ^ width even)) as Hmod.
  destruct (IH _ _ _ _ Er Hl) as (Hlen & Hbelow & Hc' & Hv).
  { split; [apply Z.div_pos; lia |]. apply Z.div_lt_upper_bound; lia. }
  cbn [length aval limbs_below abits]. rewrite kBottom_mod, Z.add_0_r, Hlen.
  split_and!; try done; try lia.
  rewrite Z.pow_add_r by (pose proof (width_bounds even); pose proof (abits_nonneg (length l) (negb even)); lia).
  nia.
Qed.

(** Nine limbs by name. *)
Lemma limbs9 (a : felem) : length a = NLIMBS -> exists a0 a1 a2 a3 a4 a5 a6 a7 a8, a = [a0; a1; a2; a3; a4; a5; a6; a7; a8].
Proof.
  intros H. do 9 (destruct a as [|? a]; [discriminate |]). destruct a; [| discriminate].
  repeat eexists.
Qed.

Lemma wrap_sub_l w x y : wrap w (wrap w x - y) = wrap w (x - y).
Proof. apply (wrap_add_l w x (- y)). Qed.

(** The mask of a small non-zero number. *)
Lemma land_mask k x : in_range 32 k -> 0 <= x <= 2 ^ 31 ->
  Z.land k (NON_ZERO_TO_ALL_ONES x) = if x =? 0 then 0 else k.
Proof.
  intros Hk Hx. unfold NON_ZERO_TO_ALL_ONES. destruct (Z.eqb_spec x 0) as [->|Hne]; [apply Z.land_0_r |].
  rewrite (wrap_small 32 (x - 1)) by (unfold in_range; lia).
  rewrite Z.shiftr_div_pow2, Z.div_small by lia.
  change (u32 (0 - 1)) with (2 ^ 32 - 1). rewrite land_ones_mod by lia. by apply Z.mod_small.
Qed.

Lemma shl_small x n : 0 <= n -> 0 <= x * 2 ^ n < 2 ^ 32 -> shl x n = x * 2 ^ n.
Proof. intros. unfold shl. rewrite Z.shiftl_mul_pow2 by done. by apply wrap_small. Qed.

(** Runs the updates of an explicit array at constant indices. *)
Ltac run_words :=
  unfold add_at, sub_at, wr, rd;
  repeat match goal with |- context [Z.to_nat ?k] =>
    let n := eval vm_compute in (Z.to_nat k) in change (Z.to_nat k) with n end;
  cbn -[wrap Z.pow Z.mul Z.add Z.sub Z.eqb Z.modulo Z.div].

Lemma reduce_carry_spec a c : narrow a -> 0 <= c <= 8 ->
  tight (felem_reduce_carry a c) /\
  fval (felem_reduce_carry a c) = fval a + c * (2 ^ 257 - 2 * secp_p).
Proof.
  intros [Hlen Ha] Hc. apply limbs9 in Hlen as (a0 & a1 & a2 & a3 & a4 & a5 & a6 & a7 & a8 & ->).
  cbn in Ha. unfold felem_reduce_carry. rewrite !land_mask, !shl_small by (unfold in_range; lia).
  unfold tight, secp_p. run_words.
  rewrite !(wrap_add_l 32), !wrap_sub_l.
  assert (c = 0 \/ 0 < c) as [->|Hc0] by lia; [| rewrite (proj2 (Z.eqb_neq c 0)) by lia];
    cbn [Z.eqb]; rewrite !(wrap_small 32) by (unfold in_range; lia); split_and!; try lia; done.
Qed.

(** A carry chain and the reduction of the carry out keep the value modulo p. *)
Lemma carry_reduce l out c : carry_loop true 0 l = (out, c) -> length l = NLIMBS ->
  Forall (fun x => 0 <= x <= 2 ^ 32 - 2 ^ 16) l ->
  tight (felem_reduce_carry out c) /\ fval (felem_reduce_carry out c) ≡[secp_p] fval l.
Proof.
  intros E Hlen Hl.
  destruct (carry_loop_spec _ _ _ _ _ E) as (Ho & Hb & Hc & Hv);
    [eapply Forall_impl; [apply Hl |]; intros ? ?; cbn beta in *; lia | lia |].
  rewrite Hlen in *. change (abits true NLIMBS) with 257 in Hv.
  assert (Hc8 : c < 8).
  { apply limbs9 in Ho as (b0 & b1 & b2 & b3 & b4 & b5 & b6 & b7 & b8 & ->).
    apply limbs9 in Hlen as (a0 & a1 & a2 & a3 & a4 & a5 & a6 & a7 & a8 & ->).
    rewrite !Forall_cons in Hl. cbn -[Z.pow Z.mul] in Hb, Hv. lia. }
  destruct (reduce_carry_spec out c) as [Ht Hr]; [done | lia |].
  split; [done |]. rewrite Hr. exists (-2 * c). lia.
Qed.

(** ** Sums, differences and small multiples *)
Ltac open_limbs H :=
  let Hl := fresh in let Hb := fresh in destruct H as [Hl Hb];
  apply limbs9 in Hl as (? & ? & ? & ? & ? & ? & ? & ? & ? & ->);
  cbn -[Z.pow] in Hb.

Lemma felem_sum_spec a b : tight a -> tight b ->
  tight (felem_sum a b) /\ fval (felem_sum a b) ≡[secp_p] fval a + fval b.
Proof.
  intros Ha Hb. unfold felem_sum. destruct (carry_loop _ _ _) as [out c] eqn:E.
  open_limbs Ha. open_limbs Hb. cbn -[carry_loop wrap Z.add] in E.
  rewrite !(wrap_small 32) in E by (unfold in_range; lia).
  destruct (carry_reduce _ _ _ E) as [Ht Hv]; [done | rewrite !Forall_cons, Forall_nil; lia |].
  split; [done |]. rewrite Hv. apply cong_eq. cbn -[Z.pow Z.mul]. lia.
Qed.

Lemma felem_diff_spec a b : tight a -> tight b ->
  tight (felem_diff a b) /\ fval (felem_diff a b) ≡[secp_p] fval a - fval b.
Proof.
  intros Ha Hb. unfold felem_diff. cbv zeta. destruct (carry_loop _ _ _) as [out c] eqn:E.
  open_limbs Ha. open_limbs Hb. cbn -[carry_loop wrap Z.add two31m3 two30m2 two30p13m2 two31m2 two31p24m2 two30m27m2] in E.
  rewrite !(wrap_add_l 32) in E.
  unfold two31m3, two30m2, two30p13m2, two31m2, two31p24m2, two30m27m2 in E.
  rewrite !(wrap_small 32) in E by (unfold in_range; lia).
  destruct (carry_reduce _ _ _ E) as [Ht Hv]; [done | rewrite !Forall_cons, Forall_nil; lia |].
  split; [done |]. rewrite Hv. exists 8. unfold secp_p. cbn -[Z.pow Z.mul]. lia.
Qed.

Lemma felem_scalar_3_spec a : tight a ->
  tight (felem_scalar_3 a) /\ fval (felem_scalar_3 a) ≡[secp_p] 3 * fval a.
Proof.
  intros Ha. unfold felem_scalar_3. destruct (carry_loop _ _ _) as [out c] eqn:E.
  open_limbs Ha. cbn -[carry_loop wrap Z.mul] in E.
  rewrite !(wrap_small 32) in E by (unfold in_range; lia).
  destruct (carry_reduce _ _ _ E) as [Ht Hv]; [done | rewrite !Forall_cons, Forall_nil; lia |].
  split; [done |]. rewrite Hv. apply cong_eq. cbn -[Z.pow Z.mul]. lia.
Qed.

Lemma scalar_loop_spec k : 2 <= k <= 3 -> forall l even carry out c, scalar_loop k even carry l = (out, c) ->
  limbs_below 1 even l -> 0 <= carry <= 16 ->
  length out = length l /\ limbs_below 0 even out /\ 0 <= c <= 16 /\
  aval even out + 2 ^ abits even (length l) * c = 2 ^ k * aval even l + carry.
Proof.
  intros Hk. induction l as [|x l IH]; intros even carry out c E Hl Hc; cbn [scalar_loop] in E.
  { injection E as <- <-. cbn. lia. }
  destruct Hl as [Hx Hl]. cbv zeta in E. pose proof (width_bounds even) as Hw.
  assert (Hshl : Z.land (shl x k) (kBottom even) = (2 ^ k * x) mod 2 ^ width even).
  { rewrite kBottom_mod. unfold shl, wrap. rewrite Z.shiftl_mul_pow2, Z.mul_comm by lia.
    apply Z.mod_mod_divide. exists (2 ^ (32 - width even)). rewrite <- Z.pow_add_r by lia. f_equal. lia. }
  assert (Hsh : Z.shiftr x (width even - k) = (2 ^ k * x) / 2 ^ width even).
  { rewrite Z.shiftr_div_pow2 by lia. replace (width even) with (k + (width even - k)) at 2 by lia.
    rewrite Z.pow_add_r, Z.div_mul_cancel_l by lia. done. }
  rewrite Hshl, Hsh in E. set (y := 2 ^ k * x) in *. set (B := 2 ^ width even) in *.
  assert (HB : 2 ^ 28 <= B <= 2 ^ 29) by (unfold B; destruct even; cbn; lia).
  assert (Hy : 0 <= y < 16 * B).
  { unfold y, B. rewrite Z.pow_add_r in Hx by lia.
    assert (k = 2 \/ k = 3) as [-> | ->] by lia; lia. }
  pose proof (Z.div_mod y B) as Hd. pose proof (Z.mod_pos_bound y B) as Hm.
  assert (Hq : 0 <= y / B < 16) by (split; [apply Z.div_pos | apply Z.div_lt_upper_bound]; lia).
  rewrite (wrap_small 32 (y mod B + carry)) in E by (unfold in_range; lia).
  rewrite Z.shiftr_div_pow2 in E by lia. fold B in E.
  pose proof (Z.div_mod (y mod B + carry) B) as Hd2. pose proof (Z.mod_pos_bound (y mod B + carry) B) as Hm2.
  assert (Hq2 : 0 <= (y mod B + carry) / B < 2) by (split; [apply Z.div_pos | apply Z.div_lt_upper_bound]; lia).
  rewrite (wrap_small 32) in E by (unfold in_range; lia).
  destruct (scalar_loop k (negb even) _ l) as [r c'] eqn:Er. injection E as <- <-.
  destruct (IH _ _ _ _ Er Hl) as (Hlen & Hbelow & Hc' & Hv); [lia |].
  cbn [length aval limbs_below abits]. rewrite kBottom_mod, Z.add_0_r, Hlen. fold B.
  split_and!; try done; try lia.
  rewrite Z.pow_add_r by (pose proof (abits_nonneg (length l) (negb even)); lia). fold B. nia.
Qed.

Lemma scalar_reduce k a out c : 2 <= k <= 3 -> scalar_loop k true 0 a = (out, c) -> tight a ->
  tight (felem_reduce_carry out c) /\ fval (felem_reduce_carry out c) ≡[secp_p] 2 ^ k * fval a.
Proof.
  intros Hk E (Hlen & Hb & Htop).
  destruct (scalar_loop_spec k Hk _ _ _ _ _ E Hb) as (Ho & Hbo & Hc & Hv); [lia |].
  rewrite Hlen in *. change (abits true NLIMBS) with 257 in Hv.
  assert (Hc8 : c <= 8).
  { apply limbs9 in Ho as (b0 & b1 & b2 & b3 & b4 & b5 & b6 & b7 & b8 & ->).
    apply limbs9 in Hlen as (a0 & a1 & a2 & a3 & a4 & a5 & a6 & a7 & a8 & ->).
    change (rd _ 8) with a8 in Htop. clear E. cbn -[Z.pow Z.mul] in Hb, Hbo, Hv.
    assert (k = 2 \/ k = 3) as [-> | ->] by lia; lia. }
  destruct (reduce_carry_spec out c) as [Ht Hr]; [done | lia |].
  split; [done |]. rewrite Hr. exists (-2 * c). lia.
Qed.

Lemma felem_scalar_4_spec a : tight a ->
  tight (felem_scalar_4 a) /\ fval (felem_scalar_4 a) ≡[secp_p] 4 * fval a.
Proof.
  intros Ha. unfold felem_scalar_4. destruct (scalar_loop _ _ _ _) as [out c] eqn:E.
  by apply (scalar_reduce 2 a).
Qed.

Lemma felem_scalar_8_spec a : tight a ->
  tight (felem_scalar_8 a) /\ fval (felem_scalar_8 a) ≡[secp_p] 8 * fval a.
Proof.
  intros Ha. unfold felem_scalar_8. destruct (scalar_loop _ _ _ _) as [out c] eqn:E.
  by apply (scalar_reduce 3 a).
Qed.

(** ** Products *)
Lemma term_exact a b i j s u v : 0 <= s <= 2 -> 0 <= rd a i < 2 ^ u -> 0 <= rd b j < 2 ^ v ->
  0 <= u <= 30 -> 0 <= v -> v + s <= 31 ->
  term a b i j s = rd a i * rd b j * 2 ^ s /\ 0 <= rd a i * rd b j * 2 ^ s <= 2 ^ (u + v + s).
Proof.
  intros Hs Ha Hb Hu Hv Hvs. unfold term.
  assert (H1 : rd b j * 2 ^ s < 2 ^ (v + s)) by (rewrite Z.pow_add_r by lia; nia).
  assert (H2 : 2 ^ (v + s) <= 2 ^ 31) by (apply Z.pow_le_mono_r; lia).
  assert (H3 : 2 ^ u <= 2 ^ 30) by (apply Z.pow_le_mono_r; lia).
  assert (H4 : 0 < 2 ^ s) by lia.
  rewrite shl_small by nia. rewrite (wrap_small 64) by (unfold in_range; nia).
  split; [ring |]. replace (u + v + s) with (u + (v + s)) by lia. rewrite Z.pow_add_r by lia. nia.
Qed.

Lemma sum64_exact l : Forall (fun x => 0 <= x) l -> foldr Z.add 0 l < 2 ^ 64 -> sum64 l = foldr Z.add 0 l.
Proof.
  unfold sum64. intros Hl Hlt. enough (H : forall acc, 0 <= acc -> acc + foldr Z.add 0 l < 2 ^ 64 ->
    fold_left (fun acc x => u64 (acc + x)) l acc = acc + foldr Z.add 0 l) by (rewrite H; lia).
  clear Hlt. induction Hl as [|x l Hx Hl IH]; intros acc Ha Hlt; cbn in *; [lia |].
  assert (0 <= foldr Z.add 0 l) by (clear -Hl; induction Hl; cbn in *; lia).
  rewrite (wrap_small 64) by (unfold in_range; lia). rewrite IH; lia.
Qed.

(** The products as tables of indices and shifts, so that the bounds are computed. *)
Definition limb_bits (i : Z) : Z := if Z.even i then 30 else 29.

Definition row_of (a b : felem) (row : list (Z * Z * Z)) : Z :=
  sum64 (map (fun '(i, j, s) => term a b i j s) row).

Definition row_sum (a b : felem) (row : list (Z * Z * Z)) : Z :=
  foldr Z.add 0 (map (fun '(i, j, s) => rd a i * rd b j * 2 ^ s) row).

Definition row_bound (row : list (Z * Z * Z)) : Z :=
  foldr Z.add 0 (map (fun '(i, j, s) => 2 ^ (limb_bits i + limb_bits j + s)) row).

Definition term_okb (t : Z * Z * Z) : bool :=
  let '(i, j, s) := t in
  (0 <=? i) && (i <? 9) && (0 <=? j) && (j <? 9) && (0 <=? s) && (s <=? 2) && (limb_bits j + s <=? 31).

Lemma tight_rd a i : tight a -> 0 <= i < 9 -> 0 <= rd a i < 2 ^ limb_bits i.
Proof.
  intros (Hl & Hb & _) Hi. apply limbs9 in Hl as (a0 & a1 & a2 & a3 & a4 & a5 & a6 & a7 & a8 & ->).
  cbn -[Z.pow] in Hb.
  assert (i = 0 \/ i = 1 \/ i = 2 \/ i = 3 \/ i = 4 \/ i = 5 \/ i = 6 \/ i = 7 \/ i = 8) as H by lia.
  destruct_or! H; subst i; cbv [limb_bits Z.even]; run_words; lia.
Qed.

Lemma row_exact a b row : tight a -> tight b -> forallb term_okb row = true -> row_bound row < 2 ^ 64 ->
  row_of a b row = row_sum a b row /\ 0 <= row_sum a b row <= row_bound row.
Proof.
  intros Ha Hb Hok Hlt.
  assert (Hr : map (fun '(i, j, s) => term a b i j s) row = map (fun '(i, j, s) => rd a i * rd b j * 2 ^ s) row /\
    Forall (fun x => 0 <= x) (map (fun '(i, j, s) => rd a i * rd b j * 2 ^ s) row) /\
    0 <= row_sum a b row <= row_bound row).
  { clear Hlt. induction row as [|[[i j] s] row IH]; [cbn; split_and!; try done; lia |].
    cbn [forallb] in Hok. apply andb_true_iff in Hok as [Ht Hok]. destruct (IH Hok) as (E & Hf & Hle).
    unfold term_okb in Ht. rewrite !andb_true_iff in Ht.
    destruct (term_exact a b i j s (limb_bits i) (limb_bits j)) as [Et Hbt]; try lia;
      try (apply tight_rd; [done | lia]); try (unfold limb_bits in *; repeat case_match; lia).
    unfold row_sum, row_bound in *. cbn [map foldr]. rewrite E, Et.
    split_and!; [done | constructor; [lia | done] | lia | lia]. }
  destruct Hr as (E & Hf & Hle). split; [| done]. unfold row_of. rewrite E.
  apply sum64_exact; [done |]. unfold row_sum in Hle. lia.
Qed.

Definition mul_rows : list (list (Z * Z * Z)) :=
  map (fun k => map (fun i => (i, k - i, if Z.odd i && Z.odd (k - i) then 1 else 0))
                    (seqZ (Z.max 0 (k - 8)) (Z.min 8 k - Z.max 0 (k - 8) + 1)))
      (seqZ 0 17).

Definition square_rows : list (list (Z * Z * Z)) :=
  map (fun k => map (fun i => (i, k - i, (if Z.odd i && Z.odd (k - i) then 1 else 0) + (if i =? k - i then 0 else 1)))
                    (seqZ (Z.max 0 (k - 8)) (k / 2 - Z.max 0 (k - 8) + 1)))
      (seqZ 0 17).

Lemma mul_tmp_rows a b : mul_tmp a b = map (row_of a b) mul_rows.
Proof. reflexivity. Qed.

Lemma square_tmp_rows a : square_tmp a = map (row_of a a) square_rows.
Proof. reflexivity. Qed.

(** What the reduction relies on. *)
Definition wide (tmp : list Z) : Prop :=
  length tmp = 17%nat /\ Forall (in_range 64) tmp /\ rd tmp 16 <= 2 ^ 60.

Definition rows_okb (rows : list (list (Z * Z * Z))) : bool :=
  forallb (fun row => forallb term_okb row && (row_bound row <? 2 ^ 64)) rows &&
  (length rows =? 17)%nat && (row_bound (nth 16 rows []) <=? 2 ^ 60).

Lemma rows_exact a b rows : tight a -> tight b -> rows_okb rows = true ->
  map (row_of a b) rows = map (row_sum a b) rows /\ wide (map (row_of a b) rows).
Proof.
  intros Ha Hb Hok. unfold rows_okb in Hok. rewrite !andb_true_iff in Hok.
  destruct Hok as [[Hf Hlen] Htop]. apply Nat.eqb_eq in Hlen. rewrite forallb_forall in Hf.
  assert (Hr : forall row, In row rows -> row_of a b row = row_sum a b row /\ 0 <= row_of a b row <= row_bound row /\ row_bound row < 2 ^ 64).
  { intros row Hin. apply Hf, andb_true_iff in Hin as [H1 H2].
    destruct (row_exact a b row Ha Hb H1) as [-> H3]; [lia |]. split_and!; try done; lia. }
  split; [apply map_ext_in; intros row Hin; apply Hr, Hin |]. split_and!.
  - by rewrite length_map.
  - apply Forall_forall. intros x Hx. apply list_elem_of_In, in_map_iff in Hx as (row & <- & Hin).
    apply Hr in Hin as (_ & Hin & ?). unfold in_range. lia.
  - unfold rd. change (Z.to_nat 16) with 16%nat.
    rewrite (nth_indep _ 0 (row_of a b [])), map_nth by (rewrite length_map; lia).
    destruct (Hr (nth 16 rows [])) as (_ & H & _); [apply nth_In; lia | lia].
Qed.

Lemma mul_tmp_spec a b : tight a -> tight b ->
  wide (mul_tmp a b) /\ aval true (mul_tmp a b) = fval a * fval b.
Proof.
  intros Ha Hb. rewrite mul_tmp_rows.
  destruct (rows_exact a b mul_rows Ha Hb) as [E Hw]; [vm_compute; reflexivity |].
  split; [done |]. rewrite E. let r := eval vm_compute in mul_rows in change mul_rows with r.
  destruct Ha as (Ha & _), Hb as (Hb & _). clear E Hw.
  apply limbs9 in Ha as (? & ? & ? & ? & ? & ? & ? & ? & ? & ->).
  apply limbs9 in Hb as (? & ? & ? & ? & ? & ? & ? & ? & ? & ->).
  cbv -[Z.pow Z.mul Z.add]. ring.
Qed.

Lemma square_tmp_spec a : tight a -> wide (square_tmp a) /\ aval true (square_tmp a) = fval a * fval a.
Proof.
  intros Ha. rewrite square_tmp_rows.
  destruct (rows_exact a a square_rows Ha Ha) as [E Hw]; [vm_compute; reflexivity |].
  split; [done |]. rewrite E. let r := eval vm_compute in square_rows in change square_rows with r.
  destruct Ha as (Ha & _). clear E Hw.
  apply limbs9 in Ha as (? & ? & ? & ? & ? & ? & ? & ? & ? & ->).
  cbv -[Z.pow Z.mul Z.add]. ring.
Qed.

(** ** The words cut into limbs *)
Lemma hi_eq t : in_range 64 t -> hi t = t / 2 ^ 32.
Proof.
  unfold in_range, hi. intros. rewrite Z.shiftr_div_pow2 by lia. apply wrap_small.
  unfold in_range. split; [apply Z.div_pos | apply Z.div_lt_upper_bound]; lia.
Qed.

Lemma hi_top t : in_range 64 t -> Z.shiftr (hi t) 25 = t / 2 ^ 57.
Proof. intros. rewrite hi_eq by done. rewrite Z.shiftr_div_pow2, Z.div_div by lia. done. Qed.

Lemma mid_eq even t : in_range 64 t ->
  Z.shiftr (lo t) (width even) + Z.land (shl (hi t) (if even then 3 else 4)) (kBottom (negb even))
  = t / 2 ^ width even - 2 ^ width (negb even) * (t / 2 ^ 57).
Proof.
  intros Ht. rewrite kBottom_mod, hi_eq by done. unfold lo, shl, wrap, in_range in *.
  rewrite Z.shiftr_div_pow2, Z.shiftl_mul_pow2 by (destruct even; cbn; lia).
  destruct even; cbn [width negb]; dmlia.
Qed.

Lemma split_word_exact even t2 t1 t0 carry : in_range 64 t2 -> in_range 64 t1 -> in_range 64 t0 -> 0 <= carry < 16 ->
  split_word even t2 t1 t0 carry =
    t2 / 2 ^ 57 + (t1 / 2 ^ width (negb even) - 2 ^ width even * (t1 / 2 ^ 57)) + t0 mod 2 ^ width even + carry
  /\ 0 <= split_word even t2 t1 t0 carry < 2 ^ 31.
Proof.
  intros H2 H1 H0 Hc. pose proof (mid_eq (negb even) t1 H1) as Hm. rewrite negb_involutive in Hm.
  unfold split_word. rewrite hi_top by done.
  rewrite !(wrap_add_l 32). unfold in_range in *.
  replace (if even then 4 else 3) with (if negb even then 3 else 4) by (by destruct even).
  rewrite <- (Z.add_assoc _ (Z.shiftr _ _)), Hm.
  rewrite kBottom_mod. unfold lo, wrap.
  destruct even; cbn [width negb]; dmlia.
Qed.

(** What the last two words still owe above the limbs already made. *)
Fixpoint owed (even : bool) (t2 t1 : Z) (tmp : list Z) : Z :=
  match tmp with
  | [] => t2 / 2 ^ 57 + t1 / 2 ^ width (negb even)
  | t0 :: tmp' => owed (negb even) t1 t0 tmp'
  end.

Lemma split_loop_spec : forall tmp even t2 t1 carry r c, split_loop even t2 t1 carry tmp = (r, c) ->
  in_range 64 t2 -> in_range 64 t1 -> Forall (in_range 64) tmp -> 0 <= carry < 16 ->
  length r = length tmp /\ limbs_below 0 even r /\ 0 <= c < 16 /\
  aval even tmp + carry + t2 / 2 ^ 57 + t1 / 2 ^ width (negb even) =
    aval even r + 2 ^ abits even (length tmp) * (c + owed even t2 t1 tmp).
Proof.
  induction tmp as [|t0 tmp IH]; intros even t2 t1 carry r c E H2 H1 Hf Hc; cbn [split_loop] in E.
  { injection E as <- <-. cbn -[Z.pow Z.div]. lia. }
  apply Forall_cons in Hf as [H0 Hf]. cbv zeta in E.
  destruct (split_word_exact even t2 t1 t0 carry H2 H1 H0 Hc) as [Ex Hx].
  set (x := split_word even t2 t1 t0 carry) in *. clearbody x.
  destruct (split_loop (negb even) t1 t0 _ tmp) as [r' c'] eqn:Er. injection E as <- <-.
  rewrite Z.shiftr_div_pow2 in Er by (pose proof (width_bounds even); lia).
  assert (Hw : 2 ^ 28 <= 2 ^ width even) by (destruct even; cbn; lia).
  pose proof (Z.div_mod x (2 ^ width even)) as Hdm. pose proof (Z.mod_pos_bound x (2 ^ width even)) as Hmod.
  destruct (IH _ _ _ _ _ _ Er H1 H0 Hf) as (Hlen & Hb & Hc' & Hv).
  { split; [apply Z.div_pos; lia |]. apply Z.div_lt_upper_bound; lia. }
  rewrite negb_involutive in Hv. cbn [length aval limbs_below abits owed]. rewrite kBottom_mod, Z.add_0_r, Hlen.
  split_and!; try done; try lia.
  rewrite Z.pow_add_r by (pose proof (width_bounds even); pose proof (abits_nonneg (length tmp) (negb even)); lia).
  pose proof (Z.div_mod t0 (2 ^ width even)). nia.
Qed.

Lemma aval_snoc l : forall even x, aval even (l ++ [x]) = aval even l + 2 ^ abits even (length l) * x.
Proof.
  induction l as [|y l IH]; intros even x; cbn [app aval length abits]; [change (2 ^ 0) with 1; lia |].
  rewrite IH, Z.pow_add_r by (pose proof (width_bounds even); pose proof (abits_nonneg (length l) (negb even)); lia).
  ring.
Qed.

(** The second limb and the last word, made outside the loop. *)
Lemma first_word t0 t1 : in_range 64 t0 ->
  u32 (Z.lor (Z.shiftr (lo t0) 29) (Z.land (shl (hi t0) 3) kBottom28Bits) + Z.land (lo t1) kBottom28Bits)
  = t0 / 2 ^ 29 - 2 ^ 28 * (t0 / 2 ^ 57) + t1 mod 2 ^ 28.
Proof.
  intros H0. pose proof (mid_eq true t0 H0) as Hm. rewrite kBottom_mod in Hm. cbn [negb width] in Hm.
  rewrite <- Hm, !bottom28, hi_eq by done.
  unfold in_range, lo, shl, wrap in *. cbn [width]. rewrite Z.shiftr_div_pow2, Z.shiftl_mul_pow2 by lia.
  replace (((t0 / 2 ^ 32 * 2 ^ 3) mod 2 ^ 32) mod 2 ^ 28) with (Z.shiftl ((t0 / 2 ^ 32) mod 2 ^ 25) 3)
    by (rewrite Z.shiftl_mul_pow2 by lia; dmlia).
  rewrite lor_shiftl_add by dmlia. rewrite Z.shiftl_mul_pow2 by lia. dmlia.
Qed.

Lemma last_word t15 t16 carry : in_range 64 t15 -> in_range 64 t16 -> t16 <= 2 ^ 60 -> 0 <= carry < 16 ->
  let x := u32 (u32 (u32 (Z.shiftr (hi t15) 25 + Z.shiftr (lo t16) 29) + shl (hi t16) 3) + carry) in
  x = carry + (t15 / 2 ^ 57 + t16 / 2 ^ 29) /\ 0 <= x < 2 ^ 31 + 2 ^ 8.
Proof.
  intros H15 H16 Hle Hc. cbv zeta. rewrite hi_top, hi_eq by done.
  unfold in_range, lo, shl, wrap in *. rewrite Z.shiftr_div_pow2, Z.shiftl_mul_pow2 by lia. dmlia.
Qed.

(** The eighteen words the elimination starts from. *)
Lemma split_tmp_spec tmp : wide tmp ->
  length (split_tmp tmp) = 18%nat /\ limbs_below 0 true (take 17 (split_tmp tmp)) /\
  0 <= rd (split_tmp tmp) 17 < 2 ^ 31 + 2 ^ 8 /\ aval true (split_tmp tmp) = aval true tmp.
Proof.
  intros (Hlen & Hf & Htop). destruct tmp as [|t0 [|t1 tmp]]; try discriminate.
  pose proof (rd_range 64 (t0 :: t1 :: tmp) 15 ltac:(lia) Hf) as H15.
  pose proof (rd_range 64 (t0 :: t1 :: tmp) 16 ltac:(lia) Hf) as H16.
  assert (Ho : owed true t0 t1 tmp = rd (t0 :: t1 :: tmp) 15 / 2 ^ 57 + rd (t0 :: t1 :: tmp) 16 / 2 ^ 29)
    by (do 15 (destruct tmp as [|? tmp]; [discriminate |]); destruct tmp; [reflexivity | discriminate]).
  rewrite !Forall_cons in Hf. destruct Hf as (H0 & H1 & Hf).
  unfold split_tmp. set (t15 := rd _ 15) in *. set (t16 := rd _ 16) in *. clearbody t15 t16.
  change (rd (t0 :: t1 :: tmp) 0) with t0. change (rd (t0 :: t1 :: tmp) 1) with t1.
  cbn [drop]. cbv zeta. rewrite first_word by done. rewrite bottom28, bottom29.
  set (x1 := t0 / 2 ^ 29 - _ + _).
  assert (Hx1 : 0 <= x1 < 2 ^ 31) by (unfold x1, in_range in *; dmlia).
  rewrite Z.shiftr_div_pow2 by lia. destruct (split_loop _ _ _ _ _) as [r c] eqn:E.
  destruct (split_loop_spec _ _ _ _ _ _ _ E H0 H1 Hf) as (Hr & Hb & Hc & Hv); [dmlia |].
  destruct (last_word t15 t16 c H15 H16 Htop Hc) as [Ex Hx]. cbv zeta in Ex, Hx. set (x17 := u32 _) in *. clearbody x17.
  injection Hlen as Hlen. rewrite drop_0 in *. rewrite Hlen in *.
  set (l := t0 mod 2 ^ 29 :: x1 mod 2 ^ 28 :: r).
  change (_ :: _ :: r ++ [x17]) with (l ++ [x17]).
  assert (Hl : length l = 17%nat) by (cbn; lia).
  assert (Hrd : rd (l ++ [x17]) 17 = x17) by (apply rd_lookup; rewrite lookup_app_r by (rewrite Hl; done); by rewrite Hl).
  rewrite Hrd, length_app, Hl, take_app_le, take_ge, aval_snoc, Hl, Ex by lia.
  split_and!; try done; try lia; unfold l; cbn [limbs_below aval negb width Z.add].
  - split_and!; try done; dmlia.
  - cbn [negb width] in Hv. rewrite Ho in Hv. change (abits true 15) with 428 in Hv. change (abits true 17) with 485.
    unfold x1 in *. clear -Hv. dmlia.
Qed.
