(* ===== verification/P256Reduce.v ===== *)
(** * Montgomery reduction of products

    The elimination in [felem_reduce_degree] adds to each word a multiple of the
    bits it clears. The words are followed as exact integers: [d_even] and
    [d_odd] say what one elimination adds, interval lists bound the words, and
    [borrow] records that a word left at minus one is made good by the carry of
    the word below. *)

From S2P Require Import Prelude.
From S2P Require Import Cong.
From S2P Require Import P256Curve.
From S2P Require Import P256Ec.
From S2P Require Import P256Field.

(** What the elimination of limb 0 with value [t], or of limb 1, adds [k] limbs up. *)
Definition d_even (t k : Z) : Z :=
  let x := t mod 2 ^ 29 in
  let m v := if x =? 0 then 0 else v in
  if k =? 0 then - t
  else if k =? 1 then t / 2 ^ 29
  else if k =? 3 then (x * 2 ^ 10) mod 2 ^ 28
  else if k =? 4 then x / 2 ^ 18
  else if k =? 6 then (x * 2 ^ 21) mod 2 ^ 29
  else if k =? 7 then x / 2 ^ 8 + m (2 ^ 28) - (x * 2 ^ 24) mod 2 ^ 28
  else if k =? 8 then m (2 ^ 29 - 1) - x / 2 ^ 4 + (x * 2 ^ 28) mod 2 ^ 29
  else if k =? 9 then m (x / 2 - 1)
  else 0.

Definition d_odd (t k : Z) : Z :=
  let x := t mod 2 ^ 28 in
  let m v := if x =? 0 then 0 else v in
  if k =? 1 then - t
  else if k =? 2 then t / 2 ^ 28
  else if k =? 4 then (x * 2 ^ 11) mod 2 ^ 29
  else if k =? 5 then x / 2 ^ 18
  else if k =? 7 then (x * 2 ^ 21) mod 2 ^ 28
  else if k =? 8 then x / 2 ^ 7 + m (2 ^ 29) - (x * 2 ^ 25) mod 2 ^ 29
  else if k =? 9 then m (2 ^ 28 - 1) - x / 2 ^ 4
  else if k =? 10 then m (x - 1)
  else 0.

(** ** The words as integers modulo 2^32 *)
Definition holds (a : list Z) (G : Z -> Z) : Prop :=
  length a = 18%nat /\ forall j, 0 <= j < 18 -> rd a j = u32 (G j).

Definition bump (i v : Z) (G : Z -> Z) : Z -> Z := fun j => G j + (if j =? i then v else 0).

Lemma holds_wr a G i v : holds a G -> 0 <= i < 18 ->
  holds (wr a i (u32 v)) (fun j => if j =? i then v else G j).
Proof.
  intros [Hl H] Hi. split; [by rewrite length_wr |]. intros j Hj.
  destruct (Z.eqb_spec j i) as [->|Hne]; [rewrite rd_wr_eq by lia; done |].
  rewrite rd_wr_ne by lia. by apply H.
Qed.

Definition clear (i : Z) (G : Z -> Z) : Z -> Z := fun j => if j =? i then 0 else G j.

Lemma holds_clear a G i : holds a G -> 0 <= i < 18 -> holds (wr a i 0) (clear i G).
Proof. apply (holds_wr a G i 0). Qed.

Lemma holds_ext a G G' : (forall j, 0 <= j < 18 -> u32 (G j) = u32 (G' j)) -> holds a G -> holds a G'.
Proof. intros E [Hl H]. split; [done |]. intros j Hj. rewrite H by done. by apply E. Qed.

Lemma holds_add a G i v : holds a G -> 0 <= i < 18 -> holds (add_at a i v) (bump i v G).
Proof.
  intros H Hi. pose proof (proj2 H i Hi) as E. unfold add_at. rewrite E, (wrap_add_l 32).
  eapply holds_ext; [| by apply holds_wr]. intros j Hj. cbv beta. unfold bump.
  destruct (Z.eqb_spec j i) as [->|]; [done |]. by rewrite Z.add_0_r.
Qed.

Lemma holds_sub a G i v : holds a G -> 0 <= i < 18 -> holds (sub_at a i v) (bump i (- v) G).
Proof. apply (holds_add a G i (- v)). Qed.

Lemma holds_exact a G i : holds a G -> 0 <= i < 18 -> in_range 32 (G i) -> rd a i = G i.
Proof. intros [_ H] Hi Hr. rewrite H by done. by apply wrap_small. Qed.

Lemma land_shl29 x n : 0 <= n -> Z.land (shl x n) kBottom29Bits = (x * 2 ^ n) mod 2 ^ 29.
Proof.
  intros. rewrite bottom29. unfold shl, wrap. rewrite Z.shiftl_mul_pow2 by done.
  apply Z.mod_mod_divide. by exists (2 ^ 3).
Qed.

Lemma land_shl28 x n : 0 <= n -> Z.land (shl x n) kBottom28Bits = (x * 2 ^ n) mod 2 ^ 28.
Proof.
  intros. rewrite bottom28. unfold shl, wrap. rewrite Z.shiftl_mul_pow2 by done.
  apply Z.mod_mod_divide. by exists (2 ^ 4).
Qed.

Lemma rd_add_other a i j v : 0 <= i -> 0 <= j -> i <> j -> rd (add_at a i v) j = rd a j.
Proof. intros. unfold add_at. by apply rd_wr_ne. Qed.

(** Decides which word an update touches. *)
Ltac pick_words :=
  repeat match goal with
  | |- context [?a + ?b =? ?c] =>
      first [rewrite (proj2 (Z.eqb_eq (a + b) c)) by lia | rewrite (proj2 (Z.eqb_neq (a + b) c)) by lia]
  | |- context [?a - ?b =? ?c] =>
      first [rewrite (proj2 (Z.eqb_eq (a - b) c)) by lia | rewrite (proj2 (Z.eqb_neq (a - b) c)) by lia]
  | |- context [?a =? ?b] => is_var b;
      first [rewrite (proj2 (Z.eqb_eq a b)) by lia | rewrite (proj2 (Z.eqb_neq a b)) by lia]
  | |- context [?a =? ?b + ?c] =>
      first [rewrite (proj2 (Z.eqb_eq a (b + c))) by lia | rewrite (proj2 (Z.eqb_neq a (b + c))) by lia]
  end.

Lemma elim_even_holds i a G : holds a G -> 0 <= i <= 8 -> in_range 32 (G i) ->
  holds (elim_even i a) (fun j => G j + d_even (G i) (j - i)).
Proof.
  intros H Hi Hr. unfold elim_even. cbv zeta.
  rewrite rd_add_other, (holds_exact a G i) by (done || lia).
  assert (Hx : 0 <= Z.land (G i) kBottom29Bits < 2 ^ 29) by (rewrite bottom29; apply Z.mod_pos_bound; lia).
  rewrite !land_shl28, !land_shl29, !land_mask by (apply wrap_range || unfold in_range; lia).
  rewrite !Z.shiftr_div_pow2, bottom29 by lia. rewrite bottom29 in Hx.
  eapply holds_ext; cycle 1.
  { repeat (apply holds_add || apply holds_sub); try lia.
    apply holds_clear; [| lia]. apply holds_add; [exact H | lia]. }
  intros j Hj. unfold bump, clear, d_even. cbv zeta. set (x := G i mod 2 ^ 29) in *. clearbody x.
  assert (j = i \/ j = i + 1 \/ j = i + 3 \/ j = i + 4 \/ j = i + 6 \/ j = i + 7 \/ j = i + 8 \/ j = i + 9 \/
    (j <> i /\ j <> i + 1 /\ j <> i + 3 /\ j <> i + 4 /\ j <> i + 6 /\ j <> i + 7 /\ j <> i + 8 /\ j <> i + 9)) as Hc by lia.
  destruct_or! Hc; try subst j; pick_words; rewrite ?Z.add_0_r; try (f_equal; lia);
    destruct (Z.eqb_spec x 0); rewrite ?(wrap_small 32 (x - 1)), ?(wrap_add_r 32) by (unfold in_range; lia); f_equal; lia.
Qed.

Lemma elim_odd_holds i a G : holds a G -> 0 <= i <= 6 -> in_range 32 (G (i + 1)) ->
  holds (elim_odd i a) (fun j => G j + d_odd (G (i + 1)) (j - i)).
Proof.
  intros H Hi Hr. unfold elim_odd. cbv zeta.
  rewrite rd_add_other, (holds_exact a G (i + 1)) by (done || lia).
  assert (Hx : 0 <= Z.land (G (i + 1)) kBottom28Bits < 2 ^ 28) by (rewrite bottom28; apply Z.mod_pos_bound; lia).
  rewrite !land_shl28, !land_shl29, !land_mask by (apply wrap_range || unfold in_range; lia).
  rewrite !Z.shiftr_div_pow2, bottom28 by lia. rewrite bottom28 in Hx.
  eapply holds_ext; cycle 1.
  { repeat (apply holds_add || apply holds_sub); try lia.
    apply holds_clear; [| lia]. apply holds_add; [exact H | lia]. }
  intros j Hj. unfold bump, clear, d_odd. cbv zeta. set (x := G (i + 1) mod 2 ^ 28) in *. clearbody x.
  assert (j = i + 1 \/ j = i + 2 \/ j = i + 4 \/ j = i + 5 \/ j = i + 7 \/ j = i + 8 \/ j = i + 9 \/ j = i + 10 \/
    (j <> i + 1 /\ j <> i + 2 /\ j <> i + 4 /\ j <> i + 5 /\ j <> i + 7 /\ j <> i + 8 /\ j <> i + 9 /\ j <> i + 10)) as Hc by lia.
  destruct_or! Hc; try subst j; pick_words; rewrite ?Z.add_0_r; try (f_equal; lia);
    destruct (Z.eqb_spec x 0); rewrite ?(wrap_small 32 (x - 1)), ?(wrap_add_r 32) by (unfold in_range; lia); f_equal; lia.
Qed.

(** ** Values *)
Ltac halve := match goal with |- context [2 ^ ?e] =>
  match e with context [_ / _] => let v := eval vm_compute in e in change e with v end end.

Definition gval (G : Z -> Z) : Z := aval true (map G (seqZ 0 18)).

Lemma d_even_sum t : 0 <= t ->
  d_even t 0 + 2 ^ 29 * d_even t 1 + 2 ^ 86 * d_even t 3 + 2 ^ 114 * d_even t 4 + 2 ^ 171 * d_even t 6
  + 2 ^ 200 * d_even t 7 + 2 ^ 228 * d_even t 8 + 2 ^ 257 * d_even t 9 = (t mod 2 ^ 29) * secp_p.
Proof.
  intros Ht. unfold d_even, secp_p. cbn [Z.eqb Pos.eqb]. pose proof (Z.div_mod t (2 ^ 29)) as Hd.
  pose proof (Z.mod_pos_bound t (2 ^ 29)) as Hm. set (x := t mod 2 ^ 29) in *. clearbody x.
  set (q := t / 2 ^ 29) in *. clearbody q. destruct (Z.eqb_spec x 0); dmlia.
Qed.

Lemma d_odd_sum t : 0 <= t ->
  d_odd t 1 + 2 ^ 28 * d_odd t 2 + 2 ^ 85 * d_odd t 4 + 2 ^ 114 * d_odd t 5 + 2 ^ 171 * d_odd t 7
  + 2 ^ 199 * d_odd t 8 + 2 ^ 228 * d_odd t 9 + 2 ^ 256 * d_odd t 10 = (t mod 2 ^ 28) * secp_p.
Proof.
  intros Ht. unfold d_odd, secp_p. cbn [Z.eqb Pos.eqb]. pose proof (Z.div_mod t (2 ^ 28)) as Hd.
  pose proof (Z.mod_pos_bound t (2 ^ 28)) as Hm. set (x := t mod 2 ^ 28) in *. clearbody x.
  set (q := t / 2 ^ 28) in *. clearbody q. destruct (Z.eqb_spec x 0); dmlia.
Qed.

Lemma aval_add (l : list Z) : forall even (f g : Z -> Z), aval even (map (fun j => f j + g j) l) = aval even (map f l) + aval even (map g l).
Proof. induction l as [|j l IH]; intros even f g; cbn [map aval]; [lia |]. rewrite IH. ring. Qed.

Lemma d_even_zero t k : k < 0 \/ k = 2 \/ k = 5 \/ 9 < k -> d_even t k = 0.
Proof. intros Hk. unfold d_even. cbv zeta. rewrite !(proj2 (Z.eqb_neq _ _)) by lia. done. Qed.

Lemma d_odd_zero t k : k <= 0 \/ k = 3 \/ k = 6 \/ 10 < k -> d_odd t k = 0.
Proof. intros Hk. unfold d_odd. cbv zeta. rewrite !(proj2 (Z.eqb_neq _ _)) by lia. done. Qed.

Ltac expand_gval :=
  unfold gval; let s := eval vm_compute in (seqZ 0 18) in change (seqZ 0 18) with s;
  cbn [map aval negb width];
  repeat match goal with |- context [?a - ?b] => let v := eval vm_compute in (a - b) in change (a - b) with v end.

Lemma gval_even t i : 0 <= t -> i = 0 \/ i = 2 \/ i = 4 \/ i = 6 \/ i = 8 ->
  gval (fun j => d_even t (j - i)) = 2 ^ (57 * (i / 2)) * (t mod 2 ^ 29) * secp_p.
Proof.
  intros Ht Hi. pose proof (d_even_sum t Ht) as Hs.
  rewrite <- Z.mul_assoc, <- Hs. clear Hs.
  destruct_or! Hi; subst i; halve; expand_gval;
    repeat match goal with |- context [d_even t ?k] => rewrite (d_even_zero t k) by lia end; ring.
Qed.

Lemma gval_odd t i : 0 <= t -> i = 0 \/ i = 2 \/ i = 4 \/ i = 6 ->
  gval (fun j => d_odd t (j - i)) = 2 ^ (57 * (i / 2) + 29) * (t mod 2 ^ 28) * secp_p.
Proof.
  intros Ht Hi. pose proof (d_odd_sum t Ht) as Hs.
  rewrite <- Z.mul_assoc, <- Hs. clear Hs.
  destruct_or! Hi; subst i; halve; expand_gval;
    repeat match goal with |- context [d_odd t ?k] => rewrite (d_odd_zero t k) by lia end; ring.
Qed.

(** ** Bounds *)
Definition inc_even (hi k : Z) : Z * Z :=
  if k =? 1 then (0, hi / 2 ^ 29)
  else if k =? 3 then (0, 2 ^ 28 - 1)
  else if k =? 4 then (0, 2 ^ 11 - 1)
  else if k =? 6 then (0, 2 ^ 29 - 1)
  else if k =? 7 then (0, 2 ^ 28 + 2 ^ 21 - 1)
  else if k =? 8 then (0, 2 ^ 29 + 2 ^ 28 - 1)
  else if k =? 9 then (-1, 2 ^ 28 - 2)
  else (0, 0).

Definition inc_odd (hi k : Z) : Z * Z :=
  if k =? 2 then (0, hi / 2 ^ 28)
  else if k =? 4 then (0, 2 ^ 29 - 1)
  else if k =? 5 then (0, 2 ^ 10 - 1)
  else if k =? 7 then (0, 2 ^ 28 - 1)
  else if k =? 8 then (0, 2 ^ 29 + 2 ^ 21 - 1)
  else if k =? 9 then (0, 2 ^ 28 - 1)
  else if k =? 10 then (0, 2 ^ 28 - 2)
  else (0, 0).

Lemma inc_even_bounds t hi k : 0 <= t <= hi -> k <> 0 -> (inc_even hi k).1 <= d_even t k <= (inc_even hi k).2.
Proof.
  intros Ht Hk. unfold inc_even, d_even. cbv zeta. rewrite (proj2 (Z.eqb_neq k 0)) by done.
  pose proof (Z.mod_pos_bound t (2 ^ 29)) as Hm. set (x := t mod 2 ^ 29) in *. clearbody x.
  repeat (case_match; try (cbn; lia)); cbn [fst snd]; dmlia.
Qed.

Lemma inc_odd_bounds t hi k : 0 <= t <= hi -> k <> 1 -> (inc_odd hi k).1 <= d_odd t k <= (inc_odd hi k).2.
Proof.
  intros Ht Hk. unfold inc_odd, d_odd. cbv zeta. rewrite (proj2 (Z.eqb_neq k 1)) by done.
  pose proof (Z.mod_pos_bound t (2 ^ 28)) as Hm. set (x := t mod 2 ^ 28) in *. clearbody x.
  repeat (case_match; try (cbn; lia)); cbn [fst snd]; dmlia.
Qed.

Definition bound_at (B : list (Z * Z)) (j : Z) : Z * Z := nth (Z.to_nat j) B (0, 0).

(** The bounds after the elimination of word [i], which adds at most [inc] above it. *)
Definition step_bounds (i : Z) (inc : Z -> Z * Z) (B : list (Z * Z)) : list (Z * Z) :=
  map (fun j => if j =? i then (0, 0)
                else ((bound_at B j).1 + (inc j).1, (bound_at B j).2 + (inc j).2)) (seqZ 0 18).

Definition step_even (i : Z) (B : list (Z * Z)) : list (Z * Z) :=
  step_bounds i (fun j => inc_even (bound_at B i).2 (j - i)) B.

Definition step_odd (i : Z) (B : list (Z * Z)) : list (Z * Z) :=
  step_bounds (i + 1) (fun j => inc_odd (bound_at B (i + 1)).2 (j - i)) B.

Definition within (B : list (Z * Z)) (G : Z -> Z) : Prop :=
  forall j, 0 <= j < 18 -> (bound_at B j).1 <= G j <= (bound_at B j).2.

Lemma bound_at_map f j : 0 <= j < 18 -> bound_at (map f (seqZ 0 18)) j = f j.
Proof.
  intros Hj. unfold bound_at. rewrite (nth_indep _ _ (f 0)) by (rewrite length_map, length_seqZ; lia).
  rewrite map_nth. f_equal. apply (rd_lookup (seqZ 0 18) j).
  rewrite lookup_seqZ_lt by lia. f_equal. lia.
Qed.

Lemma within_step B G i inc d : within B G -> G i + d i = 0 ->
  (forall j, 0 <= j < 18 -> j <> i -> (inc j).1 <= d j <= (inc j).2) ->
  within (step_bounds i inc B) (fun j => G j + d j).
Proof.
  intros HB Hi Hd j Hj. unfold step_bounds. rewrite bound_at_map by done.
  destruct (Z.eqb_spec j i) as [->|Hne]; cbn [fst snd]; [lia |].
  specialize (HB j Hj). specialize (Hd j Hj Hne). lia.
Qed.

(** ** One elimination *)
(** The words [a] hold [G], within [B], which is [T] and less than 2^[b] times p. *)
Record stage (T b : Z) (a : list Z) (G : Z -> Z) (B : list (Z * Z)) : Prop := {
  st_holds : holds a G;
  st_within : within B G;
  st_value : exists k, 0 <= k < 2 ^ b /\ gval G = T + k * secp_p;
}.

Definition word_okb (B : list (Z * Z)) (i : Z) : bool := (0 <=? (bound_at B i).1) && ((bound_at B i).2 <? 2 ^ 32).

Definition even_words (i : Z) (G : Z -> Z) : Z -> Z := fun j => G j + d_even (G i) (j - i).
Definition odd_words (i : Z) (G : Z -> Z) : Z -> Z := fun j => G j + d_odd (G (i + 1)) (j - i).

Lemma multiple_step b w k x : 0 <= b -> 0 <= w -> 0 <= k < 2 ^ b -> 0 <= x < 2 ^ w -> 0 <= k + 2 ^ b * x < 2 ^ (b + w).
Proof. intros. rewrite Z.pow_add_r by done. nia. Qed.

Lemma gval_add G d : gval (fun j => G j + d j) = gval G + gval d.
Proof. apply aval_add. Qed.

Lemma stage_even T b a G B i : stage T b a G B -> i = 0 \/ i = 2 \/ i = 4 \/ i = 6 \/ i = 8 -> b = 57 * (i / 2) ->
  word_okb B i = true -> stage T (b + 29) (elim_even i a) (even_words i G) (step_even i B).
Proof.
  intros [Hh Hw (k & Hk & Hv)] Hi Hb Hok. apply andb_true_iff in Hok as [Hlo Hhi]. pose proof (Hw i ltac:(lia)) as Hwi. split.
  - apply elim_even_holds; [done | lia | unfold in_range; lia].
  - apply within_step; [done | unfold d_even; rewrite Z.sub_diag; cbn; lia |].
    intros j Hj Hne. apply inc_even_bounds; lia.
  - unfold even_words. rewrite gval_add, gval_even, Hv, <- Hb by (assumption || lia).
    exists (k + 2 ^ b * (G i mod 2 ^ 29)). split; [| generalize (2 ^ b), secp_p; intros; ring].
    apply multiple_step; [dmlia | lia | done | apply Z.mod_pos_bound; lia].
Qed.

Lemma stage_odd T b a G B i : stage T b a G B -> i = 0 \/ i = 2 \/ i = 4 \/ i = 6 -> b = 57 * (i / 2) + 29 ->
  word_okb B (i + 1) = true -> stage T (b + 28) (elim_odd i a) (odd_words i G) (step_odd i B).
Proof.
  intros [Hh Hw (k & Hk & Hv)] Hi Hb Hok. apply andb_true_iff in Hok as [Hlo Hhi].
  pose proof (Hw (i + 1) ltac:(lia)) as Hwi. split.
  - apply elim_odd_holds; [done | lia | unfold in_range; lia].
  - apply within_step; [done | replace (i + 1 - i) with 1 by lia; unfold d_odd; cbn; lia |].
    intros j Hj Hne. apply inc_odd_bounds; lia.
  - unfold odd_words. rewrite gval_add, gval_odd, Hv, <- Hb by (assumption || lia).
    exists (k + 2 ^ b * (G (i + 1) mod 2 ^ 28)). split; [| generalize (2 ^ b), secp_p; intros; ring].
    apply multiple_step; [dmlia | lia | done | apply Z.mod_pos_bound; lia].
Qed.

(** ** Words left at minus one *)
Definition borrow (i : Z) (G : Z -> Z) : Prop := 0 <= G (i + 9) \/ 2 ^ 29 <= G (i + 8).

Lemma d_even_nonneg t k : 0 <= t -> k <> 0 -> k <> 9 -> 0 <= d_even t k.
Proof.
  intros Ht H0 H9. pose proof (inc_even_bounds t t k ltac:(lia) H0) as H.
  assert (0 <= (inc_even t k).1); [| lia]. unfold inc_even. rewrite (proj2 (Z.eqb_neq k 9)) by done.
  repeat case_match; cbn; lia.
Qed.

Lemma d_odd_nonneg t k : 0 <= t -> k <> 1 -> 0 <= d_odd t k.
Proof.
  intros Ht H1. pose proof (inc_odd_bounds t t k ltac:(lia) H1) as H.
  assert (0 <= (inc_odd t k).1); [| lia]. unfold inc_odd. repeat case_match; cbn; lia.
Qed.

Lemma borrow_new i G : 0 <= G i -> 0 <= G (i + 8) -> 0 <= G (i + 9) -> borrow i (even_words i G).
Proof.
  intros Hi H8 H9. unfold borrow, even_words.
  replace (i + 9 - i) with 9 by lia. replace (i + 8 - i) with 8 by lia. unfold d_even. cbn [Z.eqb Pos.eqb].
  pose proof (Z.mod_pos_bound (G i) (2 ^ 29)). set (x := G i mod 2 ^ 29) in *. clearbody x.
  destruct (Z.eqb_spec x 0) as [->|]; [left; lia |].
  destruct (Z.eq_dec x 1) as [->|]; [right | left; dmlia]. change ((1 * 2 ^ 28) mod 2 ^ 29) with (2 ^ 28). change (1 / 2 ^ 4) with 0. lia.
Qed.

Lemma borrow_even i m G : borrow i G -> 0 <= G m -> i < m -> m <> i + 8 -> m <> i + 9 -> borrow i (even_words m G).
Proof.
  unfold borrow, even_words. intros H Hm Hlt H8 H9.
  pose proof (d_even_nonneg (G m) (i + 9 - m)). pose proof (d_even_nonneg (G m) (i + 8 - m)).
  destruct H; [left | right]; lia.
Qed.

Lemma borrow_odd i m G : borrow i G -> 0 <= G (m + 1) -> i + 8 <> m + 1 -> i + 9 <> m + 1 -> borrow i (odd_words m G).
Proof.
  unfold borrow, odd_words. intros H Hm H8 H9.
  pose proof (d_odd_nonneg (G (m + 1)) (i + 9 - m)). pose proof (d_odd_nonneg (G (m + 1)) (i + 8 - m)).
  destruct H; [left | right]; lia.
Qed.

(** The last elimination moves the carry of word 8 into word 9. *)
Lemma borrow_settled G : borrow 0 G -> -1 <= G 9 -> 0 <= G 8 -> 0 <= even_words 8 G 9.
Proof.
  intros H H9 H8. change (even_words 8 G 9) with (G 9 + G 8 / 2 ^ 29). unfold borrow in H.
  change (0 + 9) with 9 in H. change (0 + 8) with 8 in H. destruct H; dmlia.
Qed.

(** ** The whole elimination *)
Definition start_bounds : list (Z * Z) :=
  map (fun j => if j =? 17 then (0, 2 ^ 31 + 2 ^ 8 - 1) else (0, 2 ^ (if Z.even j then 29 else 28) - 1)) (seqZ 0 18).

Definition both_words (i : Z) (G : Z -> Z) : Z -> Z := odd_words i (even_words i G).
Definition step_both (i : Z) (B : list (Z * Z)) : list (Z * Z) := step_odd i (step_even i B).

Lemma stage_both T b a G B i : stage T b a G B -> i = 0 \/ i = 2 \/ i = 4 \/ i = 6 -> b = 57 * (i / 2) ->
  word_okb B i = true -> word_okb (step_even i B) (i + 1) = true ->
  stage T (b + 57) (elim_odd i (elim_even i a)) (both_words i G) (step_both i B).
Proof.
  intros H Hi Hb H0 H1. replace (b + 57) with (b + 29 + 28) by lia.
  apply stage_odd; [| done | lia | done]. apply stage_even; [done | lia | done | done].
Qed.

Lemma stage_lower T b a G B j : stage T b a G B -> 0 <= j < 18 -> (bound_at B j).1 <= G j.
Proof. intros [_ H _] Hj. apply H, Hj. Qed.

(** The borrow of the pair just eliminated, and of the pairs before it. *)
Lemma borrow_both_new T b a G B i : stage T b a G B -> i = 0 \/ i = 2 \/ i = 4 \/ i = 6 -> b = 57 * (i / 2) ->
  word_okb B i = true -> word_okb (step_even i B) (i + 1) = true ->
  (0 <=? (bound_at B (i + 8)).1) && (0 <=? (bound_at B (i + 9)).1) = true -> borrow i (both_words i G).
Proof.
  intros H Hi Hb H0 H1 H2. pose proof (stage_even _ _ _ _ _ i H ltac:(lia) Hb H0) as He.
  apply andb_true_iff in H0 as [H0 _]. apply andb_true_iff in H2 as [H2 H3].
  apply andb_true_iff in H1 as [H1 _]. pose proof (stage_lower _ _ _ _ _ (i + 1) He ltac:(lia)).
  pose proof (stage_lower _ _ _ _ _ i H ltac:(lia)). pose proof (stage_lower _ _ _ _ _ (i + 8) H ltac:(lia)).
  pose proof (stage_lower _ _ _ _ _ (i + 9) H ltac:(lia)).
  apply borrow_odd; [apply borrow_new; lia | lia | lia | lia].
Qed.

Lemma borrow_both_keep T b a G B i m : stage T b a G B -> m = 2 \/ m = 4 \/ m = 6 -> b = 57 * (m / 2) ->
  0 <= i < m -> Z.even i = true ->
  word_okb B m = true -> word_okb (step_even m B) (m + 1) = true -> borrow i G -> borrow i (both_words m G).
Proof.
  intros H Hm Hb Hi He H0 H1 Hbr. pose proof (proj1 (Z.even_spec i) He) as [q Hq].
  pose proof (stage_even _ _ _ _ _ m H ltac:(lia) Hb H0) as Hs.
  apply andb_true_iff in H0 as [H0 _]. apply andb_true_iff in H1 as [H1 _].
  pose proof (stage_lower _ _ _ _ _ m H ltac:(lia)). pose proof (stage_lower _ _ _ _ _ (m + 1) Hs ltac:(lia)).
  apply borrow_odd; [apply borrow_even; try done; lia | lia | lia | lia].
Qed.

Definition eliminated (G : Z -> Z) : Z -> Z :=
  even_words 8 (both_words 6 (both_words 4 (both_words 2 (both_words 0 G)))).

Definition end_bounds : list (Z * Z) :=
  Eval vm_compute in step_even 8 (step_both 6 (step_both 4 (step_both 2 (step_both 0 start_bounds)))).

(** The words 9 to 17 at the end: an odd one may be minus one if the one below carries. *)
Lemma eliminate_spec T a G : stage T 0 a G start_bounds ->
  stage T 257 (eliminate a) (eliminated G) end_bounds /\ 0 <= eliminated G 9 /\
  borrow 2 (eliminated G) /\ borrow 4 (eliminated G) /\ borrow 6 (eliminated G) /\ borrow 8 (eliminated G).
Proof.
  intros S0. set (B0 := start_bounds) in *.
  pose proof (stage_both _ _ _ _ _ 0 S0 ltac:(lia) eq_refl eq_refl eq_refl) as S2.
  pose proof (borrow_both_new _ _ _ _ _ 0 S0 ltac:(lia) eq_refl eq_refl eq_refl eq_refl) as N0.
  pose proof (stage_both _ _ _ _ _ 2 S2 ltac:(lia) eq_refl eq_refl eq_refl) as S4.
  pose proof (borrow_both_new _ _ _ _ _ 2 S2 ltac:(lia) eq_refl eq_refl eq_refl eq_refl) as N2.
  apply (borrow_both_keep _ _ _ _ _ 0 2 S2) in N0; try (lia || reflexivity).
  pose proof (stage_both _ _ _ _ _ 4 S4 ltac:(lia) eq_refl eq_refl eq_refl) as S6.
  pose proof (borrow_both_new _ _ _ _ _ 4 S4 ltac:(lia) eq_refl eq_refl eq_refl eq_refl) as N4.
  apply (borrow_both_keep _ _ _ _ _ 0 4 S4) in N0; try (lia || reflexivity).
  apply (borrow_both_keep _ _ _ _ _ 2 4 S4) in N2; try (lia || reflexivity).
  pose proof (stage_both _ _ _ _ _ 6 S6 ltac:(lia) eq_refl eq_refl eq_refl) as S8.
  pose proof (borrow_both_new _ _ _ _ _ 6 S6 ltac:(lia) eq_refl eq_refl eq_refl eq_refl) as N6.
  apply (borrow_both_keep _ _ _ _ _ 0 6 S6) in N0; try (lia || reflexivity).
  apply (borrow_both_keep _ _ _ _ _ 2 6 S6) in N2; try (lia || reflexivity).
  apply (borrow_both_keep _ _ _ _ _ 4 6 S6) in N4; try (lia || reflexivity).
  pose proof (stage_even _ _ _ _ _ 8 S8 ltac:(lia) eq_refl eq_refl) as S9.
  pose proof (stage_lower _ _ _ _ _ 8 S8 ltac:(lia)) as L8. pose proof (stage_lower _ _ _ _ _ 9 S8 ltac:(lia)) as L9.
  pose proof (stage_lower _ _ _ _ _ 16 S8 ltac:(lia)) as L16. pose proof (stage_lower _ _ _ _ _ 17 S8 ltac:(lia)) as L17.
  match type of L8 with ?b <= _ => change b with 0 in L8 end.
  match type of L9 with ?b <= _ => change b with (-1) in L9 end.
  match type of L16 with ?b <= _ => change b with 0 in L16 end.
  match type of L17 with ?b <= _ => change b with 0 in L17 end.
  split_and!; [exact S9 | by apply borrow_settled | | | |];
    try (apply borrow_even; [assumption | lia | lia | lia | lia]).
  apply borrow_new; done.
Qed.

(** ** The words above 2^257 *)
Section Shift.
Context (a : list Z) (G : Z -> Z) (Hh : holds a G).
Context (Hb : forall j, 9 <= j < 18 -> -1 <= G j <= 2 ^ 32 - 2 ^ 29).
Context (Heven : forall j, 9 <= j < 18 -> Z.even j = true -> 0 <= G j).
Context (Hborrow : forall i, 2 <= i <= 8 -> Z.even i = true -> borrow i G).

Lemma shift_step i c : 0 <= i <= 6 -> Z.even i = true -> 0 <= c < 16 -> 0 <= G (i + 9) + c ->
  let x := u32 (u32 (rd a (i + 9) + c) + Z.land (shl (rd a (i + 10)) 28) kBottom29Bits) in
  let y := u32 (Z.shiftr (rd a (i + 1 + 9)) 1 + Z.shiftr x 29) in
  let c' := Z.shiftr y 28 in
  G (i + 9) + c + 2 ^ 28 * G (i + 10) = x mod 2 ^ 29 + 2 ^ 29 * (y mod 2 ^ 28) + 2 ^ 57 * c' /\
  0 <= c' < 16 /\ 0 <= G (i + 11) + c'.
Proof.
  intros Hi He Hc H9. cbv zeta.
  assert (E10 : rd a (i + 10) = G (i + 10)).
  { apply holds_exact; [done | lia |]. specialize (Heven (i + 10) ltac:(lia)). rewrite Z.even_add, He in Heven.
    specialize (Heven eq_refl). specialize (Hb (i + 10) ltac:(lia)). unfold in_range. lia. }
  replace (i + 1 + 9) with (i + 10) by lia.
  rewrite E10, (proj2 Hh (i + 9)), (wrap_add_l 32 (G (i + 9))), (wrap_add_l 32), land_shl29 by lia.
  pose proof (Heven (i + 10) ltac:(lia)) as H10. rewrite Z.even_add, He in H10. specialize (H10 eq_refl).
  pose proof (Hb (i + 9) ltac:(lia)) as B9. pose proof (Hb (i + 10) ltac:(lia)) as B10. pose proof (Hb (i + 11) ltac:(lia)) as B11.
  pose proof (Hborrow (i + 2) ltac:(lia)) as Hbr. rewrite Z.even_add, He in Hbr. specialize (Hbr eq_refl).
  unfold borrow in Hbr. replace (i + 2 + 9) with (i + 11) in Hbr by lia. replace (i + 2 + 8) with (i + 10) in Hbr by lia.
  set (g9 := G (i + 9)) in *. set (g10 := G (i + 10)) in *. set (g11 := G (i + 11)) in *. clearbody g9 g10 g11.
  rewrite !Z.shiftr_div_pow2 by lia.
  replace ((g10 * 2 ^ 28) mod 2 ^ 29) with (g10 mod 2 * 2 ^ 28) by dmlia.
  rewrite (wrap_small 32 (g9 + c + _)) by (unfold in_range; dmlia).
  rewrite (wrap_small 32) by (unfold in_range; dmlia). clear -Hc H9 B9 B10 B11 H10 Hbr. dmlia.
Qed.

Lemma shift_loop_spec : forall n i c out c', shift_loop n i c a = (out, c') ->
  0 <= i -> i + 2 * Z.of_nat n <= 8 -> Z.even i = true -> 0 <= c < 16 -> 0 <= G (i + 9) + c ->
  length out = (2 * n)%nat /\ limbs_below 0 true out /\ 0 <= c' < 16 /\ 0 <= G (i + 2 * Z.of_nat n + 9) + c' /\
  aval true out + 2 ^ (57 * Z.of_nat n) * c' = c + aval false (map G (seqZ (i + 9) (2 * Z.of_nat n))).
Proof.
  induction n as [|n IH]; intros i c out c' E Hi Hn He Hc H9; cbn [shift_loop] in E.
  { injection E as <- <-. change (Z.of_nat 0) with 0. replace (i + 2 * 0 + 9) with (i + 9) by lia.
    split_and!; try done; try lia. change (0 + 1 * c = c + 0). lia. }
  pose proof (shift_step i c ltac:(lia) He Hc H9) as Hs. cbv zeta in E, Hs.
  set (x := u32 (u32 _ + _)) in *. set (y := u32 (Z.shiftr (rd a (i + 1 + 9)) 1 + _)) in *. clearbody x y.
  destruct Hs as (Hv & Hc1 & Hs). destruct (shift_loop n (i + 2) _ a) as [r c1] eqn:Er. injection E as <- <-.
  destruct (IH _ _ _ _ Er) as (Hl & Hlb & Hc' & Hs' & Hval); try lia.
  { by rewrite Z.even_add, He. }
  { by replace (i + 2 + 9) with (i + 11) by lia. }
  rewrite bottom28, bottom29. replace (i + 2 * Z.of_nat (S n) + 9) with (i + 2 + 2 * Z.of_nat n + 9) by lia.
  cbn [length limbs_below aval negb width]. split_and!; try done; try lia; try (apply Z.mod_pos_bound; lia).
  rewrite (seqZ_cons (i + 9)), (seqZ_cons (Z.succ (i + 9))) by lia. cbn [map aval negb width].
  replace (Z.succ (Z.succ (i + 9))) with (i + 2 + 9) by lia. replace (Z.succ (i + 9)) with (i + 10) by lia.
  replace (Z.pred (Z.pred (2 * Z.of_nat (S n)))) with (2 * Z.of_nat n) by lia.
  replace (57 * Z.of_nat (S n)) with (57 + 57 * Z.of_nat n) by lia. rewrite Z.pow_add_r by lia.
  set (A := aval false _) in *. clearbody A. nia.
Qed.

End Shift.

(** ** The reduction *)
Lemma start_stage tmp : wide tmp -> stage (aval true tmp) 0 (split_tmp tmp) (rd (split_tmp tmp)) start_bounds.
Proof.
  intros Hw. destruct (split_tmp_spec tmp Hw) as (Hlen & Hb & Hlast & Hv). rewrite <- Hv.
  set (a := split_tmp tmp) in *. clearbody a.
  do 18 (destruct a as [|? a]; [discriminate |]). destruct a; [| discriminate].
  cbn -[Z.pow] in Hb. change (rd _ 17) with z16 in Hlast.
  split.
  - split; [done |]. intros j Hj. symmetry. apply wrap_small. apply rd_range; [lia |].
    rewrite !Forall_cons, Forall_nil. unfold in_range. lia.
  - intros j Hj. unfold start_bounds. rewrite bound_at_map by done.
    assert (j = 0 \/ j = 1 \/ j = 2 \/ j = 3 \/ j = 4 \/ j = 5 \/ j = 6 \/ j = 7 \/ j = 8 \/ j = 9 \/ j = 10 \/ j = 11 \/
      j = 12 \/ j = 13 \/ j = 14 \/ j = 15 \/ j = 16 \/ j = 17) as H by lia.
    destruct_or! H; subst j; cbv [Z.even Z.eqb Pos.eqb fst snd]; run_words; lia.
  - exists 0. split; [done |]. rewrite Z.mul_0_l, Z.add_0_r. reflexivity.
Qed.

Ltac eval_bounds H :=
  match type of H with ?a <= _ <= ?b =>
    let a' := eval vm_compute in a in let b' := eval vm_compute in b in change a with a' in H; change b with b' in H end.

Lemma end_words T b a G : stage T b a G end_bounds ->
  (forall j, 9 <= j < 18 -> -1 <= G j <= 2 ^ 32 - 2 ^ 29) /\
  (forall j, 9 <= j < 18 -> Z.even j = true -> 0 <= G j) /\
  gval G = 2 ^ 257 * aval false (map G (seqZ 9 9)).
Proof.
  intros [_ Hw _]. split_and!.
  1, 2: intros j Hj; try intros He; specialize (Hw j ltac:(lia));
    assert (j = 9 \/ j = 10 \/ j = 11 \/ j = 12 \/ j = 13 \/ j = 14 \/ j = 15 \/ j = 16 \/ j = 17) as H by lia;
    destruct_or! H; subst j; try discriminate; eval_bounds Hw; lia.
  assert (Hz : forall j, 0 <= j < 9 -> G j = 0).
  { intros j Hj. specialize (Hw j ltac:(lia)).
    assert (j = 0 \/ j = 1 \/ j = 2 \/ j = 3 \/ j = 4 \/ j = 5 \/ j = 6 \/ j = 7 \/ j = 8) as H by lia.
    destruct_or! H; subst j; eval_bounds Hw; lia. }
  expand_gval. let s := eval vm_compute in (seqZ 9 9) in change (seqZ 9 9) with s. cbn [map aval negb width].
  rewrite !Hz by lia. ring.
Qed.

(** The top limb and the carry out put together again. *)
Lemma recombine f A g c q r : f + 2 ^ 228 * c = 0 + A -> g + c = 2 ^ 29 * q + r ->
  f + 2 ^ 228 * r + 2 ^ 257 * q = A + 2 ^ 228 * g.
Proof.
  intros H1 H2. rewrite Z.add_0_l in H1. subst A. revert H2.
  change (2 ^ 257) with (2 ^ 228 * 2 ^ 29). generalize (2 ^ 228), (2 ^ 29). intros B Q H2.
  replace (B * g) with (B * (g + c) - B * c) by ring. rewrite H2. ring.
Qed.

Lemma carried_range R D P f q : D < P -> 2 * P <= R -> f + R * q < R + D + P -> 0 <= f < R -> 0 <= q ->
  0 <= f + q * (R - 2 * P) < R.
Proof. intros. assert (q = 0 \/ q = 1) as [-> | ->] by nia; lia. Qed.

(** What is left is [T + k p], divided by R, and then less twice p for every carry. *)
Lemma reduced_value T k f q : 0 <= k < 2 ^ 257 -> 2 ^ 257 * (f + 2 ^ 257 * q) = T + k * secp_p ->
  let v := f + q * (2 ^ 257 - 2 * secp_p) in
  v * 2 ^ 257 ≡[secp_p] T /\
  (T <= 2 ^ 257 * (2 ^ 257 + 2 ^ 240) -> 0 <= f < 2 ^ 257 -> 0 <= q -> 0 <= v < 2 ^ 257).
Proof.
  intros Hk HS. cbv zeta. split.
  - exists (k - 2 * q * 2 ^ 257). revert HS. generalize (2 ^ 257), secp_p. intros R P HS.
    replace T with (R * (f + R * q) - k * P) by (rewrite HS; ring). ring.
  - intros HT Hf Hq. assert (Hlt : f + 2 ^ 257 * q < 2 ^ 257 + 2 ^ 240 + secp_p).
    { apply (Z.mul_lt_mono_pos_l (2 ^ 257)); [done |]. rewrite HS, Z.mul_add_distr_l.
      apply Z.add_le_lt_mono; [exact HT |]. apply Z.mul_lt_mono_pos_r; [done | apply Hk]. }
    apply (carried_range (2 ^ 257) (2 ^ 240)); done.
Qed.

Lemma aval_range l : forall even, limbs_below 0 even l -> 0 <= aval even l < 2 ^ abits even (length l).
Proof.
  induction l as [|x l IH]; intros even H; cbn [aval length abits]; [lia |]. destruct H as [Hx H].
  rewrite Z.add_0_r in Hx. apply IH in H. pose proof (width_bounds even). pose proof (abits_nonneg (length l) (negb even)).
  rewrite Z.pow_add_r by lia. nia.
Qed.

Lemma felem_reduce_degree_spec tmp : wide tmp -> let v := felem_reduce_degree tmp in
  tight v /\ fval v * 2 ^ 257 ≡[secp_p] aval true tmp /\
  (aval true tmp <= 2 ^ 257 * (2 ^ 257 + 2 ^ 240) -> 0 <= fval v < 2 ^ 257).
Proof.
  intros Hw. cbv zeta. destruct (eliminate_spec _ _ _ (start_stage tmp Hw)) as (Hst & H9 & B2 & B4 & B6 & B8).
  set (G := eliminated _) in *. unfold felem_reduce_degree. set (a := eliminate _) in *. clearbody a G.
  destruct (end_words _ _ _ G Hst) as (Hb & He & Hg). destruct Hst as [Hh _ (k & Hk & Hv)].
  assert (Hbr : forall i, 2 <= i <= 8 -> Z.even i = true -> borrow i G).
  { intros i Hi Hev. assert (i = 2 \/ i = 3 \/ i = 4 \/ i = 5 \/ i = 6 \/ i = 7 \/ i = 8) as H by lia.
    destruct_or! H; subst i; done. }
  assert (H9' : 0 <= G (0 + 9) + 0) by (change (0 + 9) with 9; lia).
  destruct (shift_loop 4 0 0 a) as [out c] eqn:E.
  destruct (shift_loop_spec a G Hh Hb He Hbr _ _ _ _ _ E) as (Hl & Hlb & Hc & Hs & Hval); try (done || lia).
  change (0 + 2 * Z.of_nat 4 + 9) with 17 in Hs. cbv zeta.
  rewrite (proj2 Hh 17), (wrap_add_l 32) by lia. pose proof (Hb 17 ltac:(lia)).
  rewrite (wrap_small 32) by (unfold in_range; lia). rewrite bottom29, Z.shiftr_div_pow2 by lia.
  set (x := G 17 + c) in *.
  assert (Hn : narrow (out ++ [x mod 2 ^ 29])).
  { split; [rewrite length_app, Hl; done |].
    do 8 (destruct out as [|? out]; [discriminate |]). destruct out; [| discriminate].
    cbn -[Z.pow Z.modulo] in Hlb |- *. split_and!; try lia; dmlia. }
  assert (Hq : 0 <= x / 2 ^ 29 <= 8) by (unfold x; dmlia).
  destruct (reduce_carry_spec _ _ Hn Hq) as [Ht Hr].
  split; [done |]. rewrite Hr. pose proof (aval_range _ _ (proj2 Hn)) as Hrange. rewrite (proj1 Hn) in Hrange.
  destruct (reduced_value (aval true tmp) k (fval (out ++ [x mod 2 ^ 29])) (x / 2 ^ 29)) as [R1 R2]; [done | |].
  { rewrite <- Hv, Hg. apply (f_equal (Z.mul (2 ^ 257))). rewrite aval_snoc, Hl.
    rewrite (recombine _ _ (G 17) c _ _ Hval); [| apply Z.div_mod; lia].
    symmetry. apply (aval_snoc (map G (seqZ 9 8)) false (G 17)). }
  split; [exact R1 |]. intros HT. apply R2; [exact HT | exact Hrange | apply Hq].
Qed.

(** The bound of what the operations return. *)
Lemma tight_range a : tight a -> 0 <= fval a < 2 ^ 257 + 2 ^ 229.
Proof.
  intros (Hl & Hb & Ht). apply limbs9 in Hl as (a0 & a1 & a2 & a3 & a4 & a5 & a6 & a7 & a8 & ->).
  change (rd _ 8) with a8 in Ht. cbn -[Z.pow Z.mul] in Hb |- *. lia.
Qed.

Lemma product_range x y : 0 <= x < 2 ^ 257 + 2 ^ 229 -> 0 <= y < 2 ^ 257 + 2 ^ 229 ->
  x * y <= 2 ^ 257 * (2 ^ 257 + 2 ^ 240).
Proof.
  intros Hx Hy. transitivity ((2 ^ 257 + 2 ^ 229) * (2 ^ 257 + 2 ^ 229)); [| by vm_compute].
  apply Z.mul_le_mono_nonneg; lia.
Qed.

Lemma felem_mul_spec a b : tight a -> tight b ->
  tight (felem_mul a b) /\ fval (felem_mul a b) * 2 ^ 257 ≡[secp_p] fval a * fval b /\ 0 <= fval (felem_mul a b) < 2 ^ 257.
Proof.
  intros Ha Hb. destruct (mul_tmp_spec a b Ha Hb) as [Hw Hv].
  destruct (felem_reduce_degree_spec _ Hw) as (Ht & Hc & Hr). rewrite Hv in Hc, Hr.
  split; [exact Ht | split; [exact Hc |]]. apply Hr, product_range; apply tight_range; assumption.
Qed.

Lemma felem_square_spec a : tight a ->
  tight (felem_square a) /\ fval (felem_square a) * 2 ^ 257 ≡[secp_p] fval a * fval a /\ 0 <= fval (felem_square a) < 2 ^ 257.
Proof.
  intros Ha. destruct (square_tmp_spec a Ha) as [Hw Hv].
  destruct (felem_reduce_degree_spec _ Hw) as (Ht & Hc & Hr). rewrite Hv in Hc, Hr.
  split; [exact Ht | split; [exact Hc |]]. apply Hr, product_range; apply tight_range; assumption.
Qed.
