(* ===== verification/P256Point.v ===== *)
(** * Points in Jacobian coordinates

    Field elements in Montgomery form, and the point operations of p256_ec.c
    followed on the integers they stand for: the doubling and the additions
    compute the tangent and chord laws, and keep points on the curve. *)

From S2P Require Import Prelude.
From S2P Require Import Cong.
From S2P Require Import P256.
From S2P Require Import P256Curve.
From S2P Require Import P256Ec.
From S2P Require Import P256Field.
From S2P Require Import P256Reduce.

(** ** Elements in Montgomery form *)
Definition mont_R : Z := 2 ^ 257.

Definition mont (a : felem) (x : Z) : Prop := tight a /\ fval a ≡[secp_p] x * mont_R.

Lemma mont_R_coprime : Z.coprime secp_p mont_R.
Proof. apply odd_coprime_pow2; [lia | by vm_compute]. Qed.

Lemma secp_2p : 0 < 2 ^ 257 - 2 * secp_p < 2 ^ 226.
Proof. done. Qed.

Lemma secp_3p : 2 ^ 257 < 3 * secp_p.
Proof. done. Qed.

#[local] Opaque secp_p mont_R.

#[global] Instance mont_proper a : Proper (cong secp_p ==> iff) (mont a).
Proof. intros x y E. unfold mont. by rewrite E. Qed.

Lemma mont_tight a x : mont a x -> tight a.
Proof. by intros []. Qed.

Lemma mont_sum a b x y : mont a x -> mont b y -> mont (felem_sum a b) (x + y).
Proof.
  intros [Ha Ea] [Hb Eb]. destruct (felem_sum_spec a b Ha Hb) as [Ht E]. split; [exact Ht |].
  rewrite E, Ea, Eb. apply cong_eq. ring.
Qed.

Lemma mont_diff a b x y : mont a x -> mont b y -> mont (felem_diff a b) (x - y).
Proof.
  intros [Ha Ea] [Hb Eb]. destruct (felem_diff_spec a b Ha Hb) as [Ht E]. split; [exact Ht |].
  rewrite E, Ea, Eb. apply cong_eq. ring.
Qed.

Lemma mont_3 a x : mont a x -> mont (felem_scalar_3 a) (3 * x).
Proof.
  intros [Ha Ea]. destruct (felem_scalar_3_spec a Ha) as [Ht E]. split; [exact Ht |].
  rewrite E, Ea. apply cong_eq. ring.
Qed.

Lemma mont_4 a x : mont a x -> mont (felem_scalar_4 a) (4 * x).
Proof.
  intros [Ha Ea]. destruct (felem_scalar_4_spec a Ha) as [Ht E]. split; [exact Ht |].
  rewrite E, Ea. apply cong_eq. ring.
Qed.

Lemma mont_8 a x : mont a x -> mont (felem_scalar_8 a) (8 * x).
Proof.
  intros [Ha Ea]. destruct (felem_scalar_8_spec a Ha) as [Ht E]. split; [exact Ht |].
  rewrite E, Ea. apply cong_eq. ring.
Qed.

Lemma mont_product c x y v : v * mont_R ≡[secp_p] c -> c ≡[secp_p] (x * mont_R) * (y * mont_R) -> v ≡[secp_p] x * y * mont_R.
Proof.
  intros E1 E2. apply (cong_cancel_r _ mont_R); [apply mont_R_coprime |]. rewrite E1, E2. apply cong_eq. ring.
Qed.

Lemma mont_mul a b x y : mont a x -> mont b y -> mont (felem_mul a b) (x * y).
Proof.
  intros [Ha Ea] [Hb Eb]. destruct (felem_mul_spec a b Ha Hb) as (Ht & E & _). split; [exact Ht |].
  apply (mont_product _ _ _ _ E). by rewrite Ea, Eb.
Qed.

Lemma mont_square a x : mont a x -> mont (felem_square a) (x * x).
Proof.
  intros [Ha Ea]. destruct (felem_square_spec a Ha) as (Ht & E & _). split; [exact Ht |].
  apply (mont_product _ _ _ _ E). by rewrite Ea.
Qed.

(** ** Inversion by exponentiation *)
Definition mpow (a : felem) (x : Z) (e : N) : Prop := mont a (x ^ Z.of_N e).

Lemma mpow_mul a b x e f : mpow a x e -> mpow b x f -> mpow (felem_mul a b) x (e + f).
Proof. unfold mpow. intros. rewrite N2Z.inj_add, Z.pow_add_r by lia. by apply mont_mul. Qed.

Lemma mpow_square a x e : mpow a x e -> mpow (felem_square a) x (2 * e).
Proof.
  unfold mpow. intros. replace (Z.of_N (2 * e)) with (Z.of_N e + Z.of_N e) by lia.
  rewrite Z.pow_add_r by lia. by apply mont_square.
Qed.

Lemma mpow_squares n a x e : mpow a x e -> mpow (squares n a) x (2 ^ N.of_nat n * e).
Proof.
  intros H. induction n as [|n IH]; [by rewrite N.mul_1_l |].
  change (squares (S n) a) with (felem_square (squares n a)).
  replace (2 ^ N.of_nat (S n) * e)%N with (2 * (2 ^ N.of_nat n * e))%N
    by (rewrite Nat2N.inj_succ, N.pow_succ_r by lia; lia).
  by apply mpow_square.
Qed.

(** Runs one assignment of the chain of powers, with the exponent computed. *)
Ltac power_of v x :=
  let H := fresh in
  eassert (H : mpow v x _) by (lazymatch v with
    | felem_mul _ _ => eapply mpow_mul; eassumption
    | felem_square _ => eapply mpow_square; eassumption
    | squares _ _ => eapply mpow_squares; eassumption
    end);
  match type of H with mpow _ _ ?e => let e' := eval vm_compute in e in change e with e' in H end.

Ltac power_step :=
  lazymatch goal with
  | |- mpow (let y := ?v in @?b y) ?x ?e =>
      change (mpow (b v) x e); tryif is_var v then idtac else (power_of v x; generalize dependent v; intros); cbv beta
  end.

Lemma mpow_inv a x : mpow a x 1 -> mpow (felem_inv a) x (Z.to_N (secp_p - 2)).
Proof.
  intros H. cbv beta delta [felem_inv]. repeat power_step.
  match goal with |- mpow ?v _ ?e => power_of v x; let e' := eval vm_compute in e in change e with e' end.
  lazymatch goal with H : mpow ?v _ _ |- mpow ?v _ _ => exact H end.
Qed.

Lemma mont_inv a x : mont a x -> mont (felem_inv a) (x ^ (secp_p - 2)).
Proof.
  intros H. assert (H1 : mpow a x 1) by (unfold mpow; by rewrite Z.pow_1_r).
  apply mpow_inv in H1. unfold mpow in H1. rewrite Z2N.id in H1 by (by vm_compute). exact H1.
Qed.

(** ** The test for zero *)
Lemma limbs_weaken l : forall even, limbs_below 0 even l -> limbs_below 1 even l.
Proof.
  induction l as [|x l IH]; intros even H; [done |]. destruct H as [Hx H]. split; [| by apply IH].
  destruct even; cbn in *; lia.
Qed.

Lemma narrow_tight a : narrow a -> tight a.
Proof.
  intros [Hl Hb]. split; [done |]. split; [by apply limbs_weaken |].
  apply limbs9 in Hl as (a0 & a1 & a2 & a3 & a4 & a5 & a6 & a7 & a8 & ->).
  change (rd _ 8) with a8. cbn -[Z.pow] in Hb. lia.
Qed.

Lemma aval_inj l : forall even l', length l = length l' -> limbs_below 0 even l -> limbs_below 0 even l' ->
  aval even l = aval even l' -> l = l'.
Proof.
  induction l as [|x l IH]; intros even [|x' l'] Hl H H' E; try discriminate; [done |].
  destruct H as [Hx H], H' as [Hx' H']. cbn [aval] in E. rewrite Z.add_0_r in Hx, Hx'.
  assert (x = x') as ->.
  { rewrite <- (Z.mod_small x (2 ^ width even)), <- (Z.mod_small x' (2 ^ width even)) by done.
    rewrite <- (Z.mod_add x (aval (negb even) l)), <- (Z.mod_add x' (aval (negb even) l')) by lia.
    f_equal. lia. }
  f_equal. apply (IH (negb even)); [by injection Hl | done | done | nia].
Qed.

Lemma chain_spec a out c : carry_loop true 0 a = (out, c) -> tight a ->
  narrow out /\ fval out + 2 ^ 257 * c = fval a /\ 0 <= c.
Proof.
  intros E (Hl & Hb & _). destruct (carry_loop_spec _ _ _ _ _ E) as (Ho & Hbo & Hc & Hv).
  - eapply Forall_impl; [apply (limbs_below_Forall 1 ltac:(lia) _ _ Hb) |]. intros x Hx. cbv beta in Hx. lia.
  - lia.
  - rewrite Hl in *. change (abits true NLIMBS) with 257 in Hv. split_and!; try done; lia.
Qed.

Lemma reduce_carry_0 a : narrow a -> felem_reduce_carry a 0 = a.
Proof.
  intros [Hl Hb]. apply limbs9 in Hl as (a0 & a1 & a2 & a3 & a4 & a5 & a6 & a7 & a8 & ->). cbn -[Z.pow] in Hb.
  unfold felem_reduce_carry. rewrite !land_mask, !shl_small by (unfold in_range; lia). run_words. cbn [Z.eqb].
  rewrite !(wrap_small 32) by (unfold in_range; rewrite ?(wrap_small 32) by (unfold in_range; lia); lia).
  repeat (f_equal; try lia).
Qed.

(** The loop ends at the second test at the latest. *)
Lemma minimal_loop_spec a : tight a ->
  exists b, minimal_loop 8 a = Ret b /\ narrow b /\ fval b ≡[secp_p] fval a.
Proof.
  intros Ha. cbn [minimal_loop]. destruct (carry_loop true 0 a) as [o c] eqn:E.
  destruct (chain_spec _ _ _ E Ha) as (Hn & Hv & Hc). pose proof (tight_range a Ha) as Hr.
  pose proof (aval_range _ _ (proj2 Hn)) as Ho. rewrite (proj1 Hn) in Ho. change (abits true NLIMBS) with 257 in Ho.
  destruct (Z.eqb_spec c 0) as [->|Hne].
  { rewrite reduce_carry_0 by done. exists o. split; [done |]. split; [done |]. apply cong_eq. lia. }
  assert (c = 1) as -> by (clear -Hv Hr Ho Hc Hne; lia).
  destruct (reduce_carry_spec o 1 Hn ltac:(lia)) as [Ht Hw]. pose proof secp_2p as H2p.
  destruct (carry_loop true 0 (felem_reduce_carry o 1)) as [o2 c2] eqn:E2.
  destruct (chain_spec _ _ _ E2 Ht) as (Hn2 & Hv2 & Hc2).
  pose proof (aval_range _ _ (proj2 Hn2)) as Ho2. rewrite (proj1 Hn2) in Ho2. change (abits true NLIMBS) with 257 in Ho2.
  assert (c2 = 0) as -> by (clear -Hv Hr Ho Hv2 Ho2 Hc2 Hw H2p; lia).
  rewrite reduce_carry_0 by done. exists o2. split; [done |]. split; [done |]. exists (-2). lia.
Qed.

Lemma kP_narrow : narrow kZero /\ narrow kP /\ narrow k2P /\ fval kZero = 0 /\ fval kP = secp_p /\ fval k2P = 2 * secp_p.
Proof. unfold narrow. split_and!; by vm_compute. Qed.

Lemma mont_zero x : x * mont_R ≡[secp_p] 0 <-> x mod secp_p = 0.
Proof.
  pose proof secp_p_nz. split; intros H1.
  - assert (E : x ≡[secp_p] 0) by (apply (cong_cancel_r _ mont_R); [apply mont_R_coprime | exact H1]).
    rewrite (cong_mod_eq _ _ _ ltac:(done) E). apply Z.mod_0_l. done.
  - rewrite <- (cong_mod secp_p x), H1 by done. apply cong_eq. ring.
Qed.

Lemma minimal_zero b : narrow b -> fval b ≡[secp_p] 0 <-> b = kZero \/ b = kP \/ b = k2P.
Proof.
  intros [Hl Hb]. destruct kP_narrow as ([L0 N0] & [L1 N1] & [L2 N2] & V0 & V1 & V2). split.
  - intros [k Hk]. pose proof (aval_range _ _ Hb) as Hr. rewrite Hl in Hr. change (abits true NLIMBS) with 257 in Hr.
    pose proof secp_2p. pose proof secp_3p.
    assert (k = 0 \/ k = 1 \/ k = 2) as Hk3 by nia.
    destruct_or! Hk3; subst k; [left | right; left | right; right];
      apply (aval_inj _ true); try assumption; try congruence; lia.
  - intros H. destruct_or! H; subst b; rewrite ?V0, ?V1, ?V2; [exists 0 | exists 1 | exists 2]; ring.
Qed.

Lemma felem_is_zero_spec a x : mont a x -> felem_is_zero_vartime a = Ret (x mod secp_p =? 0).
Proof.
  intros [Ha Ea]. destruct (minimal_loop_spec a Ha) as (b & Eb & Hb & Hv). unfold felem_is_zero_vartime.
  rewrite Eb, bind_ret. f_equal. rewrite Ea in Hv. apply eq_true_iff_eq.
  rewrite Z.eqb_eq, !orb_true_iff, !bool_decide_eq_true, <- mont_zero, <- Hv, minimal_zero by done. tauto.
Qed.

(** ** Points *)
Definition jac (P : point) (x y z : Z) : Prop := mont (px P) x /\ mont (py P) y /\ mont (pz P) z.

Lemma mont_eq a x y : mont a x -> x = y -> mont a y.
Proof. by intros ? <-. Qed.

#[local] Opaque felem_mul felem_square felem_sum felem_diff felem_scalar_3 felem_scalar_4 felem_scalar_8.

Ltac mont_steps :=
  repeat lazymatch goal with
  | |- mont (felem_sum _ _) _ => eapply mont_sum
  | |- mont (felem_diff _ _) _ => eapply mont_diff
  | |- mont (felem_mul _ _) _ => eapply mont_mul
  | |- mont (felem_square _) _ => eapply mont_square
  | |- mont (felem_scalar_3 _) _ => eapply mont_3
  | |- mont (felem_scalar_4 _) _ => eapply mont_4
  | |- mont (felem_scalar_8 _) _ => eapply mont_8
  | |- mont _ _ => eassumption
  end.

Ltac mont_ring := eapply mont_eq; [mont_steps | ring].

(** The curve in Jacobian coordinates, where the affine coordinates are x / z^2 and y / z^3. *)
Definition on_jac (x y z : Z) : Prop := y ^ 2 ≡[secp_p] x ^ 3 - 3 * x * z ^ 4 + secp_b * z ^ 6.

Definition dbl_a (x z : Z) : Z := 3 * (x + z ^ 2) * (x - z ^ 2).
Definition dbl_x (x y z : Z) : Z := dbl_a x z ^ 2 - 8 * x * y ^ 2.
Definition dbl_y (x y z : Z) : Z := dbl_a x z * (4 * x * y ^ 2 - dbl_x x y z) - 8 * y ^ 4.

Lemma point_double_spec P x y z : jac P x y z ->
  jac (point_double P) (dbl_x x y z) (dbl_y x y z) (2 * y * z).
Proof.
  intros (Hx & Hy & Hz). unfold point_double, dbl_y, dbl_x, dbl_a. cbv zeta.
  split_and!; cbn [px py pz]; mont_ring.
Qed.

(** The end of the additions, from the coordinates brought to the common denominator [w]. *)
Definition add_x (u1 h r : Z) : Z := 4 * r ^ 2 - 4 * h ^ 3 - 8 * u1 * h ^ 2.
Definition add_y (u1 s1 h r : Z) : Z := 2 * r * (4 * u1 * h ^ 2 - add_x u1 h r) - 8 * s1 * h ^ 3.

Lemma add_tail_spec fu fs fh fr fz u1 s1 h r w : mont fu u1 -> mont fs s1 -> mont fh h -> mont fr r -> mont fz (2 * w) ->
  jac (add_tail fu fs fh (double_square fh) fr fz) (add_x u1 h r) (add_y u1 s1 h r) (2 * w * h).
Proof.
  intros Hu Hs Hh Hr Hz. unfold add_tail, double_square, add_y, add_x. cbv zeta.
  split_and!; cbn [px py pz]; mont_ring.
Qed.

Lemma point_add_spec P Q x1 y1 z1 x2 y2 z2 : jac P x1 y1 z1 -> jac Q x2 y2 z2 ->
  let u1 := x1 * z2 ^ 2 in let s1 := y1 * z2 ^ 3 in
  let h := x2 * z1 ^ 2 - u1 in let r := y2 * z1 ^ 3 - s1 in
  jac (point_add P Q) (add_x u1 h r) (add_y u1 s1 h r) (2 * (z1 * z2) * h).
Proof.
  intros (Hx1 & Hy1 & Hz1) (Hx2 & Hy2 & Hz2). cbv zeta. unfold point_add. cbv zeta. apply add_tail_spec; mont_ring.
Qed.

Lemma point_add_mixed_spec P fx fy x1 y1 z1 x2 y2 : jac P x1 y1 z1 -> mont fx x2 -> mont fy y2 ->
  let h := x2 * z1 ^ 2 - x1 in let r := y2 * z1 ^ 3 - y1 in
  jac (point_add_mixed P fx fy) (add_x x1 h r) (add_y x1 y1 h r) (2 * z1 * h).
Proof.
  intros (Hx1 & Hy1 & Hz1) Hx2 Hy2. cbv zeta. unfold point_add_mixed. cbv zeta. apply add_tail_spec; mont_ring.
Qed.

Lemma point_add_or_double_spec P Q x1 y1 z1 x2 y2 z2 : jac P x1 y1 z1 -> jac Q x2 y2 z2 ->
  point_add_or_double_vartime P Q =
    Ret (if ((x2 * z1 ^ 2 - x1 * z2 ^ 2) mod secp_p =? 0) && ((y2 * z1 ^ 3 - y1 * z2 ^ 3) mod secp_p =? 0)
         then point_double P else point_add P Q).
Proof.
  intros (Hx1 & Hy1 & Hz1) (Hx2 & Hy2 & Hz2). unfold point_add_or_double_vartime. cbv zeta.
  rewrite (felem_is_zero_spec (felem_diff (felem_mul (px Q) _) _) (x2 * z1 ^ 2 - x1 * z2 ^ 2)) by mont_ring. rewrite bind_ret.
  rewrite (felem_is_zero_spec (felem_diff (felem_mul (py Q) _) _) (y2 * z1 ^ 3 - y1 * z2 ^ 3)) by mont_ring. rewrite bind_ret.
  by case_match.
Qed.

(** ** Staying on the curve *)
Definition curve_eq (x y z : Z) : Z := y ^ 2 - x ^ 3 + 3 * x * z ^ 4 - secp_b * z ^ 6.

Lemma on_jac_eq x y z : on_jac x y z <-> curve_eq x y z ≡[secp_p] 0.
Proof.
  unfold on_jac, curve_eq. split; intros [k Hk]; exists k; [rewrite Hk; ring |].
  transitivity (0 + k * secp_p + (x ^ 3 - 3 * x * z ^ 4 + secp_b * z ^ 6)); [rewrite <- Hk; ring | ring].
Qed.

Lemma double_on_curve x y z : on_jac x y z -> on_jac (dbl_x x y z) (dbl_y x y z) (2 * y * z).
Proof.
  rewrite !on_jac_eq. intros H.
  assert (E : curve_eq (dbl_x x y z) (dbl_y x y z) (2 * y * z) = 64 * y ^ 6 * curve_eq x y z)
    by (unfold curve_eq, dbl_y, dbl_x, dbl_a; ring).
  rewrite E, H. apply cong_eq. ring.
Qed.

Lemma add_on_curve u1 s1 h r w :
  on_jac u1 s1 w -> on_jac (u1 + h) (s1 + r) w -> on_jac (add_x u1 h r) (add_y u1 s1 h r) (2 * w * h).
Proof.
  rewrite !on_jac_eq. intros H1 H2.
  assert (E : curve_eq (add_x u1 h r) (add_y u1 s1 h r) (2 * w * h) =
    64 * h ^ 6 * curve_eq u1 s1 w
    - 16 * h ^ 3 * (add_x u1 h r - 4 * h ^ 2 * u1) * (curve_eq u1 s1 w - curve_eq (u1 + h) (s1 + r) w))
    by (unfold curve_eq, add_y, add_x; ring).
  rewrite E, H1, H2. apply cong_eq. ring.
Qed.

Lemma scale_on_curve x y z k : on_jac x y z -> on_jac (x * k ^ 2) (y * k ^ 3) (z * k).
Proof.
  rewrite !on_jac_eq. intros H.
  assert (E : curve_eq (x * k ^ 2) (y * k ^ 3) (z * k) = k ^ 6 * curve_eq x y z) by (unfold curve_eq; ring).
  rewrite E, H. apply cong_eq. ring.
Qed.
