(* ===== verification/P256Mult.v ===== *)
(** * Scalar multiplication on P-256

    The masked selections, the two ladders and the conversions to and from
    Montgomery form. Every intermediate point stays on the curve, and
    [p256_points_mul_vartime] returns, for every input on the curve, a point of the
    curve or the pair of zeros. *)

From S2P Require Import Prelude.
From S2P Require Import Limbs.
From S2P Require Import Cong.
From S2P Require Import P256.
From S2P Require Import P256Spec.
From S2P Require Import P256Curve.
From S2P Require Import P256Prime.
From S2P Require Import P256Ec.
From S2P Require Import P256Field.
From S2P Require Import P256Reduce.
From S2P Require Import P256Point.
From Stdlib Require Import Zdivisibility Zmod.ZmodInv.

#[local] Opaque secp_p mont_R felem_mul felem_square felem_sum felem_diff felem_inv.

Abbreviation ones := (2 ^ 32 - 1).

(** ** Selection by masks *)
Definition limbs32 (a : felem) : Prop := length a = NLIMBS /\ Forall (in_range 32) a.

Lemma tight_limbs32 a : tight a -> limbs32 a.
Proof.
  intros (Hl & Hb & _). split; [done |]. eapply Forall_impl; [apply (limbs_below_Forall 1 ltac:(lia) _ _ Hb) |].
  intros x Hx. cbv beta in Hx. unfold in_range. lia.
Qed.

Lemma zip_with_id {A} (f : A -> A -> A) (P : A -> A -> Prop) l l' :
  (forall x y, P x y -> f x y = x) -> Forall2 P l l' -> zip_with f l l' = l.
Proof. intros Hf H. induction H as [|x y l l' H1 H2 IH]; [done |]. cbn. by rewrite Hf, IH. Qed.

Lemma zip_with_snd {A} (f : A -> A -> A) (P : A -> A -> Prop) l l' :
  (forall x y, P x y -> f x y = y) -> Forall2 P l l' -> zip_with f l l' = l'.
Proof. intros Hf H. induction H as [|x y l l' H1 H2 IH]; [done |]. cbn. by rewrite Hf, IH. Qed.

Lemma limbs32_pair a b : limbs32 a -> limbs32 b -> Forall2 (fun x y => in_range 32 x /\ in_range 32 y) a b.
Proof.
  intros [La Fa] [Lb Fb]. apply Forall2_same_length_lookup_2; [congruence |]. intros i x y Hx Hy.
  split; [by apply (Forall_lookup_1 _ _ _ _ Fa Hx) | by apply (Forall_lookup_1 _ _ _ _ Fb Hy)].
Qed.

Lemma land_ones32 x : in_range 32 x -> Z.land ones x = x.
Proof. intros Hx. rewrite Z.land_comm, land_ones_mod by lia. by apply Z.mod_small. Qed.

Lemma copy_none a b : limbs32 a -> limbs32 b -> copy_conditional a b 0 = a.
Proof.
  intros Ha Hb. eapply zip_with_id; [| by apply limbs32_pair]. intros x y _. cbv beta.
  by rewrite Z.land_0_l, Z.lxor_0_r.
Qed.

Lemma copy_all a b : limbs32 a -> limbs32 b -> copy_conditional a b ones = b.
Proof.
  intros Ha Hb. eapply zip_with_snd; [| by apply limbs32_pair]. intros x y [Hx Hy]. cbv beta.
  rewrite land_ones32 by (apply lxor_in_range; [lia | done | done]).
  by rewrite (Z.lxor_comm y), <- Z.lxor_assoc, Z.lxor_nilpotent, Z.lxor_0_l.
Qed.

Definition point32 (P : point) : Prop := limbs32 (px P) /\ limbs32 (py P) /\ limbs32 (pz P).

Lemma copy_point_none P Q : point32 P -> point32 Q -> copy_point P Q 0 = P.
Proof. intros (? & ? & ?) (? & ? & ?). destruct P as [x y z]. unfold copy_point. cbn [px py pz] in *. by rewrite !copy_none. Qed.

Lemma copy_point_all P Q : point32 P -> point32 Q -> copy_point P Q ones = Q.
Proof. intros (? & ? & ?) (? & ? & ?). destruct Q as [x y z]. unfold copy_point. cbn [px py pz] in *. by rewrite !copy_all. Qed.

Lemma or_none a row : limbs32 a -> limbs32 row -> or_masked 0 a row = a.
Proof.
  intros Ha Hb. eapply zip_with_id; [| by apply limbs32_pair]. intros x y _. cbv beta. by rewrite Z.land_0_r, Z.lor_0_r.
Qed.

Lemma kZero_limbs : limbs32 kZero.
Proof. split; [done |]. by apply Forall_replicate. Qed.

Lemma or_all row : limbs32 row -> or_masked ones kZero row = row.
Proof.
  intros [Hl Hf]. unfold or_masked, kZero. rewrite <- Hl.
  clear Hl. induction Hf as [|x l Hx Hf IH]; [done |]. cbn [length replicate zip_with]. rewrite IH.
  f_equal. by rewrite Z.land_comm, land_ones32, Z.lor_0_l.
Qed.

Lemma index_mask_spec i index : 0 <= i < 16 -> 0 <= index < 16 -> index_mask i index = if i =? index then ones else 0.
Proof.
  intros Hi Hx.
  assert (H : forallb (fun i => forallb (fun j => index_mask i j =? (if i =? j then ones else 0)) (seqZ 0 16)) (seqZ 0 16) = true)
    by (vm_compute; reflexivity).
  rewrite forallb_forall in H. specialize (H i). rewrite <- list_elem_of_In, elem_of_seqZ in H. specialize (H ltac:(lia)).
  rewrite forallb_forall in H. specialize (H index). rewrite <- list_elem_of_In, elem_of_seqZ in H. specialize (H ltac:(lia)).
  lia.
Qed.

Definition affine_row (table : list (list Z)) (i : Z) : felem * felem :=
  (nth (Z.to_nat (2 * (i - 1))) table [], nth (Z.to_nat (2 * (i - 1) + 1)) table []).

Lemma select_affine_spec table index : Forall limbs32 table -> (30 <= length table)%nat -> 0 <= index < 16 ->
  select_affine_point table index = if index =? 0 then (kZero, kZero) else affine_row table index.
Proof.
  intros Ht Hl Hx. pose proof kZero_limbs as Hz.
  assert (Hrow : forall k, (k < 30)%nat -> limbs32 (nth k table [])).
  { intros k Hk. rewrite Forall_forall in Ht. apply Ht, list_elem_of_In, nth_In. lia. }
  unfold select_affine_point.
  pose proof (for_inv (fun i out => out = if (0 <? index) && (index <? i) then affine_row table index else (kZero, kZero))
    (fun i '(out_x, out_y) =>
      (or_masked (index_mask i index) out_x (nth (Z.to_nat (2 * (i - 1) + 0)) table []),
       or_masked (index_mask i index) out_y (nth (Z.to_nat (2 * (i - 1) + 1)) table []))) 15 1 (kZero, kZero)) as H.
  cbv beta in H. rewrite H; clear H.
  - change (1 + Z.of_nat 15) with 16. zcase; zcase; zcase; try lia; reflexivity.
  - intros i s Hi ->. rewrite index_mask_spec by lia. rewrite Z.add_0_r.
    destruct (Z.eqb_spec i index) as [->|Hne].
    + rewrite Z.ltb_irrefl, andb_false_r, !or_all by (apply Hrow; lia).
      rewrite (proj2 (Z.ltb_lt 0 index)), (proj2 (Z.ltb_lt index (index + 1))) by lia. reflexivity.
    + replace (index <? i + 1) with (index <? i) by (zcase; zcase; lia).
      destruct (Z.ltb_spec 0 index), (Z.ltb_spec index i); cbn [andb]; try unfold affine_row;
        rewrite !or_none; try done; try (apply Hrow; lia).
  - zcase; zcase; try lia; reflexivity.
Qed.

Lemma infinity_point32 : point32 infinity.
Proof. pose proof kZero_limbs. by split_and!. Qed.

Definition or_point (mask : Z) (out row : point) : point :=
  Point (or_masked mask (px out) (px row)) (or_masked mask (py out) (py row)) (or_masked mask (pz out) (pz row)).

Lemma or_point_none P Q : point32 P -> point32 Q -> or_point 0 P Q = P.
Proof. intros (? & ? & ?) (? & ? & ?). destruct P as [x y z]. unfold or_point. cbn [px py pz] in *. by rewrite !or_none. Qed.

Lemma or_point_all Q : point32 Q -> or_point ones infinity Q = Q.
Proof. intros (? & ? & ?). destruct Q as [x y z]. unfold or_point. cbn [px py pz infinity] in *. by rewrite !or_all. Qed.

Lemma select_jacobian_spec table index : Forall point32 table -> (16 <= length table)%nat -> 0 <= index < 16 ->
  select_jacobian_point table index = if index =? 0 then infinity else nth (Z.to_nat index) table infinity.
Proof.
  intros Ht Hl Hx. pose proof infinity_point32 as Hz.
  assert (Hrow : forall k, (k < 16)%nat -> point32 (nth k table infinity)).
  { intros k Hk. rewrite Forall_forall in Ht. apply Ht, list_elem_of_In, nth_In. lia. }
  unfold select_jacobian_point.
  pose proof (for_inv (fun i out => out = if (0 <? index) && (index <? i) then nth (Z.to_nat index) table infinity else infinity)
    (fun i out => or_point (index_mask i index) out (nth (Z.to_nat i) table infinity)) 15 1 infinity) as H.
  cbv beta in H. unfold or_point in H at 2. rewrite H; clear H.
  - change (1 + Z.of_nat 15) with 16. zcase; zcase; zcase; try lia; reflexivity.
  - intros i s Hi ->. rewrite index_mask_spec by lia.
    destruct (Z.eqb_spec i index) as [->|Hne].
    + rewrite Z.ltb_irrefl, andb_false_r, or_point_all by (apply Hrow; lia).
      rewrite (proj2 (Z.ltb_lt 0 index)), (proj2 (Z.ltb_lt index (index + 1))) by lia. reflexivity.
    + replace (index <? i + 1) with (index <? i) by (zcase; zcase; lia).
      destruct (Z.ltb_spec 0 index), (Z.ltb_spec index i); cbn [andb];
        rewrite or_point_none; try done; apply Hrow; lia.
  - zcase; zcase; try lia; reflexivity.
Qed.

(** ** Points and curve points *)
Definition wellformed (P : point) : Prop := exists x y z, jac P x y z.
Definition curved (P : point) : Prop := exists x y z, jac P x y z /\ on_jac x y z.

Lemma curved_wellformed P : curved P -> wellformed P.
Proof. intros (x & y & z & H & _). by exists x, y, z. Qed.

Lemma wellformed_point32 P : wellformed P -> point32 P.
Proof. intros (x & y & z & [Hx _] & [Hy _] & [Hz _]). split_and!; by apply tight_limbs32. Qed.

Lemma double_wellformed P : wellformed P -> wellformed (point_double P).
Proof. intros (x & y & z & H). eexists _, _, _. by apply point_double_spec. Qed.

Lemma double_curved P : curved P -> curved (point_double P).
Proof.
  intros (x & y & z & H & Hc). eexists _, _, _. split; [by apply point_double_spec | by apply double_on_curve].
Qed.

Lemma add_wellformed P Q : wellformed P -> wellformed Q -> wellformed (point_add P Q).
Proof. intros (x1 & y1 & z1 & H1) (x2 & y2 & z2 & H2). eexists _, _, _. by apply point_add_spec. Qed.

Lemma add_curved P Q : curved P -> curved Q -> curved (point_add P Q).
Proof.
  intros (x1 & y1 & z1 & H1 & C1) (x2 & y2 & z2 & H2 & C2). eexists _, _, _. split; [by apply point_add_spec |].
  apply add_on_curve.
  - by apply scale_on_curve.
  - apply (scale_on_curve _ _ _ z1) in C2. rewrite (Z.mul_comm z1 z2). unfold on_jac in *.
    replace (x1 * z2 ^ 2 + (x2 * z1 ^ 2 - x1 * z2 ^ 2)) with (x2 * z1 ^ 2) by ring.
    replace (y1 * z2 ^ 3 + (y2 * z1 ^ 3 - y1 * z2 ^ 3)) with (y2 * z1 ^ 3) by ring. exact C2.
Qed.

Lemma add_mixed_wellformed P fx fy x y : wellformed P -> mont fx x -> mont fy y -> wellformed (point_add_mixed P fx fy).
Proof. intros (x1 & y1 & z1 & H1) Hx Hy. eexists _, _, _. by apply point_add_mixed_spec. Qed.

Lemma add_mixed_curved P fx fy x y : curved P -> mont fx x -> mont fy y -> on_jac x y 1 -> curved (point_add_mixed P fx fy).
Proof.
  intros (x1 & y1 & z1 & H1 & C1) Hx Hy C2. eexists _, _, _. split; [by apply point_add_mixed_spec |].
  apply add_on_curve; [done |]. apply (scale_on_curve _ _ _ z1) in C2. rewrite Z.mul_1_l in C2. unfold on_jac in *.
  replace (x1 + (x * z1 ^ 2 - x1)) with (x * z1 ^ 2) by ring.
  replace (y1 + (y * z1 ^ 3 - y1)) with (y * z1 ^ 3) by ring. exact C2.
Qed.

Lemma mont_kZero : mont kZero 0.
Proof. split; [split_and!; by vm_compute |]. apply cong_eq. reflexivity. Qed.

Lemma infinity_curved : curved infinity.
Proof.
  exists 0, 0, 0. split; [split_and!; apply mont_kZero |]. apply cong_eq. reflexivity.
Qed.

Lemma mont_kOne : mont kOne 1.
Proof. split; [split_and!; by vm_compute |]. exists (-2). vm_compute. reflexivity. Qed.

Lemma mont_exists a : tight a -> exists x, mont a x.
Proof.
  intros Ha. destruct (Z.Bezout_coprime _ _ mont_R_coprime) as (u & v & Huv).
  exists (fval a * v). split; [done |]. exists (fval a * u).
  transitivity (fval a * (u * secp_p + v * mont_R)); [rewrite Huv; ring | ring].
Qed.

Lemma nonzero_mask index : 0 <= index < 16 -> NON_ZERO_TO_ALL_ONES index = if index =? 0 then 0 else ones.
Proof.
  intros Hx. assert (H : forallb (fun j => NON_ZERO_TO_ALL_ONES j =? (if j =? 0 then 0 else ones)) (seqZ 0 16) = true)
    by (vm_compute; reflexivity).
  rewrite forallb_forall in H. specialize (H index). rewrite <- list_elem_of_In, elem_of_seqZ in H.
  specialize (H ltac:(lia)). lia.
Qed.

(** ** One addition of a ladder *)
Lemma merge_sum_spec n p t inf index : point32 n -> point32 p -> point32 t -> 0 <= index < 16 -> inf = ones \/ inf = 0 ->
  merge_sum n p t inf index =
    if inf =? 0 then (if index =? 0 then n else t, 0) else (p, if index =? 0 then ones else 0).
Proof.
  intros Hn Hp Ht Hx Hi. unfold merge_sum. rewrite nonzero_mask by done.
  destruct Hi as [-> | ->].
  - change (u32 (Z.lnot ones)) with 0. rewrite copy_point_all by done. rewrite Z.land_0_r, copy_point_none by done.
    change (ones =? 0) with false. by destruct (index =? 0).
  - change (u32 (Z.lnot 0)) with ones. rewrite copy_point_none by done. change (0 =? 0) with true. rewrite Z.land_0_l.
    destruct (index =? 0).
    + change (Z.land 0 ones) with 0. by rewrite copy_point_none.
    + change (Z.land ones ones) with ones. by rewrite copy_point_all.
Qed.

(** The state of a ladder: nothing added so far, or a point of the curve. *)
Definition ladder_ok (started : Prop) (s : point * Z) : Prop :=
  wellformed s.1 /\ ((s.2 = ones /\ ~ started) \/ (s.2 = 0 /\ curved s.1)).

Lemma merge_ladder (started : Prop) n inf p t index : ladder_ok started (n, inf) -> 0 <= index < 16 ->
  wellformed p -> wellformed t -> (index <> 0 -> curved p) -> (index <> 0 -> curved n -> curved t) ->
  ladder_ok (started \/ index <> 0) (merge_sum n p t inf index).
Proof.
  intros [Hn Hs] Hx Hp Ht Hcp Hct. cbn [fst snd] in *.
  rewrite merge_sum_spec by (try apply wellformed_point32; try done; destruct Hs as [[-> _]|[-> _]]; auto).
  destruct Hs as [[-> Hno]|[-> Hc]].
  - change (ones =? 0) with false. split; [done |]. cbn [fst snd].
    destruct (Z.eqb_spec index 0); [left | right]; split; try done; [tauto | by apply Hcp].
  - change (0 =? 0) with true. split; cbn [fst snd]; [by destruct (index =? 0) |]. right. split; [done |].
    destruct (Z.eqb_spec index 0); [done | by apply Hct].
Qed.

(** ** The precomputed points *)
Fixpoint narrowb (even : bool) (l : list Z) : bool :=
  match l with [] => true | x :: l' => (0 <=? x) && (x <? 2 ^ width even) && narrowb (negb even) l' end.

Lemma narrowb_sound l : forall even, narrowb even l = true -> limbs_below 0 even l.
Proof.
  induction l as [|x l IH]; intros even H; [done |]. cbn [narrowb] in H. rewrite !andb_true_iff in H.
  split; [rewrite Z.add_0_r; lia | apply IH, H].
Qed.

(** The curve equation on limbs, times the third power of R. *)
Definition pair_okb (x y : felem) : bool :=
  let X := fval x in let Y := fval y in
  (length x =? 9)%nat && (length y =? 9)%nat && narrowb true x && narrowb true y &&
  ((Y * Y * mont_R - X * X * X + 3 * X * mont_R * mont_R - secp_b * mont_R * mont_R * mont_R) mod secp_p =? 0).

Definition table_pair (x y : felem) : Prop := exists X Y, mont x X /\ mont y Y /\ on_jac X Y 1.

Lemma pair_okb_sound x y : pair_okb x y = true -> table_pair x y.
Proof.
  unfold pair_okb. cbv zeta. rewrite !andb_true_iff, !Nat.eqb_eq, Z.eqb_eq. intros [[[[Lx Ly] Nx] Ny] Hc].
  assert (Tx : tight x) by (apply narrow_tight; split; [done | by apply narrowb_sound]).
  assert (Ty : tight y) by (apply narrow_tight; split; [done | by apply narrowb_sound]).
  destruct (mont_exists x Tx) as [X HX]. destruct (mont_exists y Ty) as [Y HY].
  exists X, Y. split; [done |]. split; [done |]. destruct HX as [_ EX], HY as [_ EY].
  assert (E : (Y ^ 2 - X ^ 3 + 3 * X - secp_b) * (mont_R ^ 3) ≡[secp_p] 0 * mont_R ^ 3).
  { transitivity (fval y * fval y * mont_R - fval x * fval x * fval x + 3 * fval x * mont_R * mont_R
      - secp_b * mont_R * mont_R * mont_R).
    - rewrite EX, EY. apply cong_eq. ring.
    - etransitivity; [symmetry; apply (cong_mod secp_p), secp_p_nz | rewrite Hc; apply cong_eq; ring]. }
  apply cong_cancel_r in E; [| apply Z.coprime_pow_r; [lia | apply mont_R_coprime]].
  destruct E as [k Hk]. exists k.
  transitivity (Y ^ 2 - X ^ 3 + 3 * X - secp_b + (X ^ 3 - 3 * X + secp_b)); [ring |]. rewrite Hk. ring.
Qed.

Definition table_okb (table : list (list Z)) : bool :=
  forallb (fun i => pair_okb (affine_row table i).1 (affine_row table i).2) (seqZ 1 15).

Lemma table_okb_sound table index : table_okb table = true -> 0 < index < 16 ->
  table_pair (affine_row table index).1 (affine_row table index).2.
Proof.
  unfold table_okb. rewrite forallb_forall. intros H Hi. apply pair_okb_sound, H, list_elem_of_In, elem_of_seqZ. lia.
Qed.

Lemma precomputed_low : table_okb kPrecomputed = true.
Proof. vm_compute. reflexivity. Qed.

Lemma precomputed_high : table_okb (drop 30 kPrecomputed) = true.
Proof. vm_compute. reflexivity. Qed.

Definition rows_okb32 (table : list (list Z)) : bool :=
  forallb (fun row => (length row =? 9)%nat && forallb (fun x => (0 <=? x) && (x <? 2 ^ 32)) row) table.

Lemma precomputed_rows : Forall limbs32 kPrecomputed.
Proof.
  assert (H : rows_okb32 kPrecomputed = true) by (vm_compute; reflexivity).
  apply Forall_forall. intros row Hr. apply list_elem_of_In in Hr. unfold rows_okb32 in H. rewrite forallb_forall in H.
  specialize (H row Hr). rewrite andb_true_iff, Nat.eqb_eq, forallb_forall in H. destruct H as [Hl Hf].
  split; [done |]. apply Forall_forall. intros x Hx. apply list_elem_of_In in Hx. specialize (Hf x Hx). unfold in_range. lia.
Qed.

(** ** Bits of a scalar *)
Lemma get_bit_spec s k : 0 <= k -> p256_get_bit s k = Z.b2z (Z.testbit (rd s (k / 32)) (k mod 32)).
Proof.
  intros Hk. unfold p256_get_bit. rewrite Z.quot_div_nonneg by lia.
  change 31 with (2 ^ 5 - 1). rewrite land_ones_mod by lia. change (2 ^ 5) with 32.
  change 1 with (2 ^ 1 - 1) at 1. rewrite land_ones_mod by lia. change (2 ^ 1) with 2.
  pose proof (Z.mod_pos_bound k 32). rewrite Z.testbit_spec', Z.shiftr_div_pow2 by lia. done.
Qed.

Lemma no_bits s : p256_ok s -> (forall k, 0 <= k < 256 -> p256_get_bit s k = 0) -> dval s = 0.
Proof.
  intros Hs H. assert (Hz : forall i, 0 <= i < 8 -> rd s i = 0).
  { intros i Hi. pose proof (p256_rd s i Hs) as Hr. apply Z.bits_inj'. intros j Hj. rewrite Z.bits_0.
    destruct (Z.lt_ge_cases j 32) as [Hlt|Hge]; [| apply (in_range_testbit 32); [lia | done | lia]].
    specialize (H (32 * i + j) ltac:(lia)). rewrite get_bit_spec in H by lia.
    rewrite (Z.add_comm (32 * i)), (Z.mul_comm 32), Z.div_add, Z.mod_add, Z.div_small, Z.mod_small in H by lia.
    rewrite Z.add_0_l in H. destruct (Z.testbit (rd s i) j); [discriminate H | done]. }
  rewrite <- (p256_pval s Hs). destruct Hs as [_ Hl].
  assert (Hp : forall k, 0 <= k -> k <= 8 -> pval s k = 0).
  { apply (natlike_ind (fun k => k <= 8 -> pval s k = 0)); [by rewrite pval_0 |].
    intros k Hk IH Hk8. rewrite <- Z.add_1_r, pval_succ, IH, Hz by lia. ring. }
  by apply Hp.
Qed.

Definition four_bits (b0 b1 b2 b3 : Z) : Z := Z.lor (Z.lor (Z.lor b0 (Z.shiftl b1 1)) (Z.shiftl b2 2)) (Z.shiftl b3 3).

Lemma four_bits_spec (b0 b1 b2 b3 : bool) :
  four_bits (Z.b2z b0) (Z.b2z b1) (Z.b2z b2) (Z.b2z b3) = Z.b2z b0 + 2 * Z.b2z b1 + 4 * Z.b2z b2 + 8 * Z.b2z b3.
Proof. by destruct b0, b1, b2, b3. Qed.

Lemma base_index_spec s i j : 0 <= i < 32 -> j = 0 \/ j = 32 ->
  0 <= base_index s i j < 16 /\
  (base_index s i j = 0 -> forall q, 0 <= q < 4 -> p256_get_bit s (31 - i + j + 64 * q) = 0).
Proof.
  intros Hi Hj. change (base_index s i j) with
    (four_bits (p256_get_bit s (31 - i + j)) (p256_get_bit s (95 - i + j)) (p256_get_bit s (159 - i + j)) (p256_get_bit s (223 - i + j))).
  rewrite !get_bit_spec, four_bits_spec by lia.
  set (b0 := Z.testbit _ _). set (b1 := Z.testbit (rd s ((95 - i + j) / 32)) _).
  set (b2 := Z.testbit (rd s ((159 - i + j) / 32)) _). set (b3 := Z.testbit (rd s ((223 - i + j) / 32)) _).
  split; [destruct b0, b1, b2, b3; cbn; lia |]. intros Hz q Hq.
  assert (Hb : b0 = false /\ b1 = false /\ b2 = false /\ b3 = false) by (by destruct b0, b1, b2, b3).
  rewrite get_bit_spec by lia. unfold b0, b1, b2, b3 in Hb. destruct Hb as (H0 & H1 & H2 & H3).
  assert (q = 0 \/ q = 1 \/ q = 2 \/ q = 3) as Hq4 by lia. destruct_or! Hq4; subst q.
  - replace (31 - i + j + 64 * 0) with (31 - i + j) by lia. by rewrite H0.
  - replace (31 - i + j + 64 * 1) with (95 - i + j) by lia. by rewrite H1.
  - replace (31 - i + j + 64 * 2) with (159 - i + j) by lia. by rewrite H2.
  - replace (31 - i + j + 64 * 3) with (223 - i + j) by lia. by rewrite H3.
Qed.

(** ** Multiples of the base point *)
Lemma ladder_iff (P Q : Prop) s : (P <-> Q) -> ladder_ok P s -> ladder_ok Q s.
Proof. unfold ladder_ok. tauto. Qed.

Lemma base_step_ok started s i j table st : 0 <= i < 32 -> j = 0 \/ j = 32 ->
  Forall limbs32 table -> (30 <= length table)%nat -> table_okb table = true -> ladder_ok started st ->
  ladder_ok (started \/ base_index s i j <> 0) (base_step s i j table st).
Proof.
  intros Hi Hj Hrows Hlen Htab Hst. destruct st as [n inf]. unfold base_step.
  destruct (base_index_spec s i j Hi Hj) as [Hx _]. set (index := base_index s i j) in *. clearbody index.
  rewrite select_affine_spec by done. destruct (Z.eqb_spec index 0) as [->|Hne].
  - apply merge_ladder; [done | done | | | done | done].
    + eexists _, _, _. split_and!; [apply mont_kZero | apply mont_kZero | apply mont_kOne].
    + eapply add_mixed_wellformed; [apply Hst | apply mont_kZero | apply mont_kZero].
  - destruct (table_okb_sound table index Htab ltac:(lia)) as (X & Y & HX & HY & HC).
    destruct (affine_row table index) as [x y]. cbn [fst snd] in *.
    apply merge_ladder; [done | done | | | |].
    + exists X, Y, 1. split_and!; [done | done | apply mont_kOne].
    + eapply add_mixed_wellformed; [apply Hst | done | done].
    + intros _. exists X, Y, 1. split; [split_and!; [done | done | apply mont_kOne] | done].
    + intros _ Hn. by eapply add_mixed_curved.
Qed.

Definition base_started (s : p256_int) (i : Z) : Prop :=
  exists i' j, 0 <= i' < i /\ (j = 0 \/ j = 32) /\ base_index s i' j <> 0.

Lemma base_started_succ s i : 0 <= i ->
  (base_started s i \/ base_index s i 0 <> 0) \/ base_index s i 32 <> 0 <-> base_started s (i + 1).
Proof.
  intros Hi. split.
  - intros [[(i' & j & H & Hj & Hx)|Hx]|Hx]; [exists i', j | exists i, 0 | exists i, 32]; split_and!; try done; try lia; auto.
  - intros (i' & j & H & Hj & Hx). destruct (decide (i' = i)) as [->|].
    + destruct Hj as [-> | ->]; auto.
    + left; left. exists i', j. split_and!; try done; lia.
Qed.

Lemma double_ladder started n inf : ladder_ok started (n, inf) -> ladder_ok started (point_double n, inf).
Proof.
  intros [Hn Hs]. split; [by apply double_wellformed |].
  destruct Hs as [Hs|[Hs Hc]]; [by left | right]. split; [done | by apply double_curved].
Qed.

Lemma scalar_base_mult_curved s : p256_ok s -> wellformed (scalar_base_mult s) /\ (dval s <> 0 -> curved (scalar_base_mult s)).
Proof.
  intros Hs. unfold scalar_base_mult. set (body := fun i '(n, inf) => _).
  assert (H : ladder_ok (base_started s (0 + Z.of_nat 32)) (for_ 32 0 body (infinity, u32 (-1)))).
  { apply (for_inv (fun i => ladder_ok (base_started s i))).
    - intros i [n inf] Hi Hst. unfold body. eapply ladder_iff; [by apply base_started_succ; lia |].
      apply base_step_ok; [lia | auto | | | apply precomputed_high |].
      { apply Forall_drop, precomputed_rows. } { cbn. lia. }
      apply base_step_ok; [lia | auto | apply precomputed_rows | cbn; lia | apply precomputed_low |].
      destruct (i =? 0); [done | by apply double_ladder].
    - split; [apply curved_wellformed, infinity_curved |]. left. split; [done |]. intros (i' & j & H & _). lia. }
  destruct H as [Hw Hc]. split; [done |]. intros Hne.
  destruct Hc as [[_ Hno]|[_ Hc]]; [| done]. exfalso. apply Hne, no_bits; [done |]. intros k Hk.
  set (t := k mod 64). set (q := k / 64). assert (Hkt : k = t + 64 * q) by (unfold t, q; pose proof (Z.div_mod k 64); lia).
  assert (Ht : 0 <= t < 64) by (apply Z.mod_pos_bound; lia). assert (Hq : 0 <= q < 4) by (unfold q; dmlia).
  set (j := if t <? 32 then 0 else 32). assert (Hj : j = 0 \/ j = 32) by (unfold j; destruct (t <? 32); auto).
  set (i := 31 + j - t). assert (Hi : 0 <= i < 32) by (unfold i, j; zcase; lia).
  destruct (base_index_spec s i j Hi Hj) as [_ Hbits].
  destruct (decide (base_index s i j = 0)) as [Hz|Hnz].
  - specialize (Hbits Hz q Hq). replace (31 - i + j + 64 * q) with k in Hbits by (unfold i; lia). done.
  - exfalso. apply Hno. exists i, j. split_and!; try done; lia.
Qed.

(** ** Multiples of a given point *)
Lemma precomp_ok x y X Y : mont x X -> mont y Y -> on_jac X Y 1 ->
  length (precomp x y) = 16%nat /\ Forall curved (precomp x y).
Proof.
  intros HX HY HC. unfold precomp. set (body := fun k table => _).
  assert (H : (fun k t => length t = Z.to_nat (2 * k) /\ Forall curved t) (1 + Z.of_nat 7) (for_ 7 1 body [infinity; Point x y kOne])).
  { apply for_inv.
    - intros k t Hk [Hl Hf]. unfold body. rewrite length_app. cbn [length]. split; [lia |].
      assert (Hd : curved (point_double (nth (Z.to_nat k) t infinity))).
      { apply double_curved. rewrite Forall_forall in Hf. apply Hf, list_elem_of_In, nth_In. lia. }
      apply Forall_app. split; [done |]. rewrite !Forall_cons, Forall_nil. split_and!; [done | | done].
      by eapply add_mixed_curved.
    - split; [done |]. rewrite !Forall_cons, Forall_nil. split_and!; [apply infinity_curved | | done].
      exists X, Y, 1. split; [split_and!; [done | done | apply mont_kOne] | done]. }
  exact H.
Qed.

Lemma window_spec s i : 0 <= i <= 252 ->
  0 <= window s i < 16 /\ (window s i = 0 -> forall q, 0 <= q < 4 -> p256_get_bit s (255 - i - q) = 0).
Proof.
  intros Hi. unfold window. rewrite !get_bit_spec by lia.
  set (b0 := Z.testbit (rd s ((255 - i - 0) / 32)) _). set (b1 := Z.testbit (rd s ((255 - i - 1) / 32)) _).
  set (b2 := Z.testbit (rd s ((255 - i - 2) / 32)) _). set (b3 := Z.testbit (rd s ((255 - i - 3) / 32)) _).
  split; [by destruct b0, b1, b2, b3 |]. intros Hz q Hq.
  assert (Hb : b0 = false /\ b1 = false /\ b2 = false /\ b3 = false) by (by destruct b0, b1, b2, b3).
  rewrite get_bit_spec by lia. unfold b0, b1, b2, b3 in Hb. destruct Hb as (H0 & H1 & H2 & H3).
  assert (q = 0 \/ q = 1 \/ q = 2 \/ q = 3) as Hq4 by lia.
  destruct_or! Hq4; subst q; rewrite ?H0, ?H1, ?H2, ?H3; done.
Qed.

Definition window_started (s : p256_int) (k : Z) : Prop := exists k', 0 <= k' < k /\ window s (4 * k') <> 0.

Lemma iter_double_ladder started n inf k : ladder_ok started (n, inf) -> ladder_ok started (Nat.iter k point_double n, inf).
Proof. intros H. induction k as [|k IH]; [done |]. by apply double_ladder. Qed.

Lemma scalar_mult_curved x y X Y s : mont x X -> mont y Y -> on_jac X Y 1 -> p256_ok s ->
  wellformed (scalar_mult x y s) /\ (dval s <> 0 -> curved (scalar_mult x y s)).
Proof.
  intros HX HY HC Hs. destruct (precomp_ok x y X Y HX HY HC) as [Hl Ht].
  assert (Ht32 : Forall point32 (precomp x y))
    by (eapply Forall_impl; [exact Ht |]; intros; by apply wellformed_point32, curved_wellformed).
  unfold scalar_mult. set (table := precomp x y) in *. clearbody table. set (body := fun k '(n, inf) => _).
  assert (H : ladder_ok (window_started s (0 + Z.of_nat 64)) (for_ 64 0 body (infinity, u32 (-1)))).
  { apply (for_inv (fun k => ladder_ok (window_started s k))).
    - intros k [n inf] Hk Hst. unfold body. destruct (window_spec s (4 * k) ltac:(lia)) as [Hw _].
      apply (ladder_iff (window_started s k \/ window s (4 * k) <> 0)).
      { split; [intros [(k' & H & Hx)|Hx]; [exists k' | exists k]; split; try done; lia |].
        intros (k' & H & Hx). destruct (decide (k' = k)) as [->|]; [by right | left; exists k'; split; [lia | done]]. }
      assert (Hsel : curved (select_jacobian_point table (window s (4 * k)))).
      { rewrite select_jacobian_spec by (done || lia). destruct (_ =? 0); [apply infinity_curved |].
        rewrite Forall_forall in Ht. apply Ht, list_elem_of_In, nth_In. lia. }
      set (n' := if k =? 0 then n else _).
      assert (Hn' : ladder_ok (window_started s k) (n', inf))
        by (unfold n'; destruct (k =? 0); [done | by apply iter_double_ladder]).
      apply merge_ladder; [done | done | by apply curved_wellformed | | done | intros _ Hc; by apply add_curved].
      apply add_wellformed; [apply Hn' | by apply curved_wellformed].
    - split; [apply curved_wellformed, infinity_curved |]. left. split; [done |]. intros (k' & H & _). lia. }
  destruct H as [Hw Hc]. split; [done |]. intros Hne.
  destruct Hc as [[_ Hno]|[_ Hc]]; [| done]. exfalso. apply Hne, no_bits; [done |]. intros k Hk.
  set (w := (255 - k) / 4). set (q := (255 - k) mod 4). pose proof (Z.div_mod (255 - k) 4 ltac:(lia)) as Hd.
  pose proof (Z.mod_pos_bound (255 - k) 4 ltac:(lia)) as Hm. fold w q in Hd, Hm.
  destruct (window_spec s (4 * w) ltac:(lia)) as [_ Hbits].
  destruct (decide (window s (4 * w) = 0)) as [Hz|Hnz].
  - specialize (Hbits Hz q ltac:(lia)). replace (255 - 4 * w - q) with k in Hbits by lia. done.
  - exfalso. apply Hno. exists w. split; [lia | done].
Qed.

(** ** Into Montgomery form and back *)
Lemma dval_low_bits x w : p256_ok x -> 0 <= w <= 32 -> rd x 0 mod 2 ^ w = dval x mod 2 ^ w.
Proof.
  intros [Hw Hl] H. destruct x as [|d x]; [discriminate |]. change (rd (d :: x) 0) with d. cbn [dval].
  replace W32 with (2 ^ (32 - w) * 2 ^ w) by (rewrite <- Z.pow_add_r by lia; f_equal; lia).
  rewrite Z.mul_comm, Z.mul_assoc, Z.mod_add by lia. done.
Qed.

Lemma to_montgomery_loop_spec n : forall even x, p256_ok x ->
  exists r, to_montgomery_loop n even x = Ret r /\ length r = n /\ limbs_below 0 even r /\
    aval even r = dval x mod 2 ^ abits even n.
Proof.
  induction n as [|n IH]; intros even x Hx; cbn [to_montgomery_loop].
  { exists []. split_and!; try done. cbn. by rewrite Z.mod_1_r. }
  pose proof (width_bounds even) as Hw. destruct (shr_spec x (width even) x Hx Hx ltac:(lia)) as (c & -> & Hc & Hv).
  rewrite bind_ret. destruct (IH (negb even) c Hc) as (r & -> & Hl & Hb & Ha). rewrite bind_ret.
  eexists. split; [reflexivity |]. rewrite kBottom_mod, dval_low_bits by (done || lia).
  cbn [length limbs_below aval abits]. rewrite Z.add_0_r, Hl. pose proof (Z.mod_pos_bound (dval x) (2 ^ width even)).
  split_and!; try done; try lia.
  rewrite Ha, Hv, Z.pow_add_r by (pose proof (abits_nonneg n (negb even)); lia).
  assert (0 < 2 ^ abits (negb even) n) by (apply Z.pow_pos_nonneg; [lia | apply abits_nonneg]).
  rewrite Z.rem_mul_r by lia. done.
Qed.

Lemma kR_val : dval kR ≡[secp_p] mont_R.
Proof. exists (-2). vm_compute. reflexivity. Qed.

Lemma to_montgomery_spec x : p256_ok x -> exists a, to_montgomery x = Ret a /\ mont a (dval x).
Proof.
  intros Hx. unfold to_montgomery. assert (HR : p256_ok kR) by p256_ok.
  destruct (modmul_spec SECP256r1_p x 0 kR p_ok Hx ltac:(done) HR) as (v & -> & Hv & Ev). rewrite bind_ret.
  destruct (to_montgomery_loop_spec NLIMBS true v Hv) as (r & -> & Hl & Hb & Ha).
  exists r. split; [done |]. split; [by apply narrow_tight |].
  rewrite Ha, Z.mod_small by (pose proof (p256_range v Hv); change (abits true NLIMBS) with 257; lia).
  rewrite Ev, secp_p_val, Z.mul_0_r, Z.add_0_r, cong_mod by apply secp_p_nz. by rewrite kR_val.
Qed.

Lemma aval_drop (a : felem) n : (n < length a)%nat ->
  aval (Nat.even n) (drop n a) = rd a (Z.of_nat n) + 2 ^ width (Nat.even n) * aval (Nat.even (S n)) (drop (S n) a).
Proof.
  intros Hn. destruct (lookup_lt_is_Some_2 a n Hn) as [x Hx].
  rewrite (drop_S _ _ _ Hx), (rd_lookup a (Z.of_nat n) x) by (by rewrite Nat2Z.id). cbn [aval].
  by rewrite Nat.even_succ, <- Nat.negb_even.
Qed.

Lemma aval_drop_nonneg (a : felem) : Forall (in_range 32) a -> forall n, 0 <= aval (Nat.even n) (drop n a).
Proof.
  intros Ha n. assert (Hf : Forall (in_range 32) (drop n a)) by by apply Forall_drop.
  generalize (Nat.even n). induction Hf as [|x l Hx Hf IH]; intros even; cbn [aval]; [lia |].
  specialize (IH (negb even)). unfold in_range in Hx. nia.
Qed.

Lemma aval_drop_small (a : felem) : limbs32 a -> fval a < 2 ^ 257 -> forall n, (0 < n <= 8)%nat ->
  aval (Nat.even n) (drop n a) < 2 ^ 228.
Proof.
  intros [Hl Ha] Hv. induction n as [|n IH]; [lia |]. intros Hn.
  pose proof (aval_drop a n ltac:(unfold NLIMBS in *; lia)) as E. pose proof (aval_drop_nonneg a Ha (S n)) as Hs.
  pose proof (rd_range 32 a (Z.of_nat n) ltac:(lia) Ha) as Hr. unfold in_range in Hr.
  destruct n as [|n]; [rewrite drop_0 in E; cbn [Nat.even width] in *; lia |].
  specialize (IH ltac:(lia)). assert (1 <= 2 ^ width (Nat.even (S n))) by (destruct (Nat.even (S n)); cbn; lia). nia.
Qed.

(** One turn shifts the number so far and adds a limb; what leaves the top is at most one bit. *)
Lemma from_step in1 n result : limbs32 in1 -> fval in1 < 2 ^ 257 -> (n < 8)%nat -> p256_ok result ->
  dval result = aval (Nat.even (S n)) (drop (S n) in1) ->
  exists top result', p256_ok result' /\ 0 <= top <= 1 /\
    dval result' + R256 * top = aval (Nat.even n) (drop n in1) /\
    from_montgomery_loop (S n) in1 0 result = from_montgomery_loop n in1 top result'.
Proof.
  intros Hin Hv Hn Hr E. cbn [from_montgomery_loop]. assert (Hz : p256_ok P256_ZERO) by p256_ok.
  pose proof (width_bounds (Nat.even n)) as Hw.
  destruct (shl_spec result (width (Nat.even n)) P256_ZERO Hr Hz ltac:(lia)) as (t1 & tmp & -> & Htmp & Ht1 & E1).
  rewrite bind_ret. pose proof (rd_range 32 in1 (Z.of_nat n) ltac:(lia) (proj2 Hin)) as Hlimb.
  destruct (add_d_spec tmp (rd in1 (Z.of_nat n)) Htmp Hlimb) as (t2 & res & -> & Ht2 & Hres & E2).
  assert (Hsum : dval res + R256 * (t1 + t2) = aval (Nat.even n) (drop n in1)).
  { rewrite (aval_drop in1 n) by (rewrite (proj1 Hin); unfold NLIMBS; lia). rewrite <- E. lia. }
  assert (Hbound : aval (Nat.even n) (drop n in1) < 2 ^ 257).
  { destruct n as [|n]; [by rewrite drop_0 |].
    pose proof (aval_drop_small in1 Hin Hv (S n) ltac:(lia)). lia. }
  pose proof (p256_range res Hres).
  assert (Ht : t1 + t2 <= 1) by lia.
  exists (t1 + t2), res. split_and!; try done; try lia.
  rewrite (swrap_small 32 t1) by (unfold in_srange; lia).
  assert (t1 = 0 /\ t2 = 0 \/ t1 = 0 /\ t2 = 1 \/ t1 = 1 /\ t2 = 0) as Hc by lia.
  destruct_or! Hc; destruct Hc as [-> ->]; reflexivity.
Qed.

Lemma from_loop_top n : forall in1 top top' result, (0 < n)%nat ->
  from_montgomery_loop n in1 top result = from_montgomery_loop n in1 top' result.
Proof. intros in1 top top' result Hn. destruct n; [lia | reflexivity]. Qed.

Lemma from_loop_spec in1 : limbs32 in1 -> fval in1 < 2 ^ 257 -> forall n result, (0 < n <= 8)%nat -> p256_ok result ->
  dval result = aval (Nat.even n) (drop n in1) ->
  exists top result', from_montgomery_loop n in1 0 result = Ret (top, result') /\ p256_ok result' /\
    0 <= top <= 1 /\ dval result' + R256 * top = fval in1.
Proof.
  intros Hin Hv. induction n as [|n IH]; [lia |]. intros result Hn Hr E.
  destruct (from_step in1 n result Hin Hv ltac:(lia) Hr E) as (top & res & Hres & Ht & Hsum & ->).
  destruct n as [|n].
  - exists top, res. rewrite drop_0 in Hsum. split_and!; try done; lia.
  - rewrite (from_loop_top (S n) in1 top 0) by lia. apply IH; [lia | done |].
    pose proof (aval_drop_small in1 Hin Hv (S n) ltac:(lia)). pose proof (p256_range res Hres). lia.
Qed.

Lemma kRInv_val : dval kRInv * mont_R ≡[secp_p] 1.
Proof. apply mod_eq_cong; [apply secp_p_nz |]. vm_compute. reflexivity. Qed.

Lemma from_montgomery_spec a x : mont a x -> fval a < 2 ^ 257 ->
  exists c, from_montgomery a = Ret c /\ p256_ok c /\ dval c = x mod secp_p.
Proof.
  intros [Ht Ea] Hv. pose proof (tight_limbs32 a Ht) as Hin. unfold from_montgomery.
  assert (Hz : p256_ok P256_ZERO) by p256_ok. assert (HR : p256_ok kRInv) by p256_ok.
  pose proof (rd_range 32 a 8 ltac:(lia) (proj2 Hin)) as Hlimb.
  destruct (add_d_spec P256_ZERO (rd a 8) Hz Hlimb) as (t & res & -> & Htt & Hres & E).
  assert (E8 : dval res = aval (Nat.even 8) (drop 8 a)).
  { rewrite (aval_drop a 8) by (rewrite (proj1 Hin); unfold NLIMBS; lia). rewrite (drop_ge a) by (rewrite (proj1 Hin); unfold NLIMBS; lia).
    change (Z.of_nat 8) with 8. cbn [aval]. change (dval P256_ZERO) with 0 in E. unfold in_range in Hlimb.
    pose proof (p256_range res Hres). change R256 with (2 ^ 256) in *. lia. }
  destruct (from_loop_spec a Hin Hv 8 res ltac:(lia) Hres E8) as (top & r & -> & Hr & Htop & Er). rewrite bind_ret.
  rewrite (wrap_small 32) by (unfold in_range; lia).
  destruct (modmul_spec SECP256r1_p kRInv top r p_ok HR ltac:(unfold in_range; lia) Hr) as (c & Ec & Hc & Evc).
  exists c. split; [done |]. split; [done |]. rewrite Evc, Er, secp_p_val. apply cong_mod_eq; [apply secp_p_nz |].
  rewrite Ea. transitivity (dval kRInv * mont_R * x); [apply cong_eq; ring |]. rewrite kRInv_val. apply cong_eq. ring.
Qed.

(** ** Back to affine coordinates *)
Lemma fermat_inverse z : z mod secp_p <> 0 -> z * z ^ (secp_p - 2) ≡[secp_p] 1.
Proof.
  intros Hz. pose proof (Z.fermat_nz secp_p z secp_p_prime Hz) as H. pose proof (Z.prime_ge_2 _ secp_p_prime).
  rewrite <- (Z.pow_1_r z) at 1. rewrite <- Z.pow_add_r by lia. replace (1 + (secp_p - 2)) with (secp_p - 1) by lia.
  apply mod_eq_cong; [lia |]. rewrite H. by rewrite Z.mod_small by lia.
Qed.

#[global] Instance on_jac_proper : Proper (cong secp_p ==> cong secp_p ==> cong secp_p ==> iff) on_jac.
Proof.
  intros x x' Ex y y' Ey z z' Ez. unfold on_jac.
  assert (Hp : forall u v e, 0 <= e -> u ≡[secp_p] v -> u ^ e ≡[secp_p] v ^ e) by (intros; by apply cong_pow).
  by rewrite (Hp y y' 2), (Hp x x' 3), (Hp z z' 4), (Hp z z' 6), Ex by (done || lia).
Qed.

Lemma point_to_affine_spec P x y z : jac P x y z -> on_jac x y z ->
  exists ax ay x' y', point_to_affine P = (ax, ay) /\ mont ax x' /\ mont ay y' /\ fval ax < 2 ^ 257 /\ fval ay < 2 ^ 257 /\
    ((x' ≡[secp_p] 0 /\ y' ≡[secp_p] 0) \/ on_jac x' y' 1).
Proof.
  intros (Hx & Hy & Hz) Hc. unfold point_to_affine. set (zi := felem_inv (pz P)). cbv zeta.
  set (w := z ^ (secp_p - 2)). assert (Hzi : mont zi w) by (by apply mont_inv). pose proof (mont_square _ _ Hzi) as Hzi2.
  pose proof (mont_mul _ _ _ _ Hzi Hzi2) as Hzi3.
  eexists _, _, (x * (w * w)), (y * (w * (w * w))). split; [reflexivity |]. split_and!.
  - by apply mont_mul.
  - by apply mont_mul.
  - apply (felem_mul_spec _ _ (mont_tight _ _ Hx) (mont_tight _ _ Hzi2)).
  - apply (felem_mul_spec _ _ (mont_tight _ _ Hy) (mont_tight _ _ Hzi3)).
  - destruct (decide (z mod secp_p = 0)) as [Hz0|Hz0].
    + left. assert (Hw : w ≡[secp_p] 0).
      { assert (Hz' : z ≡[secp_p] 0) by (rewrite <- (cong_mod secp_p z), Hz0 by apply secp_p_nz; reflexivity).
        pose proof secp_3p. unfold w. rewrite (cong_pow _ _ _ (secp_p - 2) ltac:(lia) Hz'), Z.pow_0_l by lia. reflexivity. }
      rewrite Hw. split; apply cong_eq; ring.
    + right. apply (scale_on_curve _ _ _ w) in Hc. unfold w at 3 in Hc. rewrite (fermat_inverse z Hz0) in Hc.
      replace (w * w) with (w ^ 2) by ring. replace (w * w ^ 2) with (w ^ 3) by ring. exact Hc.
Qed.

Definition affine_on (x y : Z) : Prop := y ^ 2 ≡[secp_p] x ^ 3 - 3 * x + secp_b.

Lemma affine_on_jac x y : affine_on x y <-> on_jac x y 1.
Proof. unfold affine_on, on_jac. by rewrite !Z.pow_1_l, !Z.mul_1_r by lia. Qed.

(** What the entry points return: a point of the curve, or two zeros. *)
Definition curve_result (o : outcome (p256_int * p256_int)) : Prop :=
  exists ox oy, o = Ret (ox, oy) /\ p256_ok ox /\ p256_ok oy /\ dval ox < secp_p /\ dval oy < secp_p /\
    ((dval ox = 0 /\ dval oy = 0) \/ affine_on (dval ox) (dval oy)).

Lemma affine_result P : curved P ->
  curve_result (let '(ax, ay) := point_to_affine P in
    out_x ← from_montgomery ax; out_y ← from_montgomery ay; Ret (out_x, out_y)).
Proof.
  intros (x & y & z & Hj & Hc). destruct (point_to_affine_spec P x y z Hj Hc) as (ax & ay & x' & y' & -> & Hx & Hy & Vx & Vy & Hr).
  destruct (from_montgomery_spec ax x' Hx Vx) as (ox & -> & Hox & Ex). rewrite bind_ret.
  destruct (from_montgomery_spec ay y' Hy Vy) as (oy & -> & Hoy & Ey). rewrite bind_ret.
  pose proof (Z.prime_ge_2 _ secp_p_prime). pose proof secp_p_nz as Hnz.
  exists ox, oy. rewrite Ex, Ey. split_and!; try done; try (apply Z.mod_pos_bound; lia).
  destruct Hr as [[H1 H2]|Hr]; [left | right].
  - rewrite (cong_mod_eq _ _ _ Hnz H1), (cong_mod_eq _ _ _ Hnz H2), Z.mod_0_l by done. done.
  - apply affine_on_jac. by rewrite !cong_mod.
Qed.

Lemma points_mul_result n1 n2 x y : p256_ok n1 -> p256_ok n2 -> p256_ok x -> p256_ok y ->
  affine_on (dval x) (dval y) -> curve_result (p256_points_mul_vartime n1 n2 x y).
Proof.
  intros H1 H2 Hx Hy Hc. unfold p256_points_mul_vartime. rewrite !is_zero_spec by done.
  destruct (Z.eqb_spec (dval n1) 0) as [Z1|Z1], (Z.eqb_spec (dval n2) 0) as [Z2|Z2]; cbn [andb].
  1: { exists P256_ZERO, P256_ZERO. assert (p256_ok P256_ZERO) by p256_ok. pose proof (Z.prime_ge_2 _ secp_p_prime).
       change (dval P256_ZERO) with 0. split_and!; try done; try lia. }
  all: destruct (to_montgomery_spec x Hx) as (fx & -> & Mx); rewrite bind_ret;
    destruct (to_montgomery_spec y Hy) as (fy & -> & My); rewrite bind_ret; apply affine_on_jac in Hc;
    pose proof (scalar_base_mult_curved n1 H1) as [_ C1]; pose proof (scalar_mult_curved fx fy _ _ n2 Mx My Hc H2) as [_ C2];
    cbv zeta.
  - rewrite bind_ret. by apply affine_result, C2.
  - rewrite bind_ret. by apply affine_result, C1.
  - specialize (C1 Z1). specialize (C2 Z2).
    destruct (curved_wellformed _ C1) as (x1 & y1 & z1 & J1). destruct (curved_wellformed _ C2) as (x2 & y2 & z2 & J2).
    rewrite (point_add_or_double_spec _ _ _ _ _ _ _ _ J1 J2), bind_ret. apply affine_result.
    case_match; [apply double_curved | apply add_curved]; assumption.
Qed.
