(* ===== verification/P256EcSpec.v ===== *)
(** * Theorems on the elliptic-curve arithmetic and on ECDSA verification *)

From S2P Require Import Prelude.
From S2P Require Import Limbs.
From S2P Require Import Cong.
From S2P Require Import P256.
From S2P Require Import P256Spec.
From S2P Require Import P256Curve.
From S2P Require Import P256Prime.
From S2P Require Import P256Ec.
From S2P Require Import P256Field.
From S2P Require Import P256Reduce.
From S2P Require Import P256Point.
From S2P Require Import P256Mult.
From Stdlib Require Import Zdivisibility.

#[local] Opaque secp_p mont_R felem_mul felem_square felem_sum felem_diff felem_inv point_double point_add.

(** ** The chord and tangent law *)

(** [P] stands for the affine point (x, y). *)
Definition affine (P : point) (x y : Z) : Prop :=
  exists X Y Z, jac P X Y Z /\ Z mod secp_p <> 0 /\ X ≡[secp_p] x * Z ^ 2 /\ Y ≡[secp_p] y * Z ^ 3.

(** The third point on the line of slope [l] through (x1, y1), whose other point has abscissa [x2], reflected. *)
Definition line_sum (l x1 y1 x2 x3 y3 : Z) : Prop :=
  x3 ≡[secp_p] l ^ 2 - x1 - x2 /\ y3 ≡[secp_p] l * (x1 - x3) - y1.

(** The sum of two affine points that are not opposite: by the chord, or by the tangent when they are equal. *)
Definition ec_sum (x1 y1 x2 y2 x3 y3 : Z) : Prop :=
  exists l, line_sum l x1 y1 x2 x3 y3 /\
    (if (x2 - x1) mod secp_p =? 0 then l * (2 * y1) ≡[secp_p] 3 * x1 ^ 2 - 3
     else l * (x2 - x1) ≡[secp_p] y2 - y1).

Lemma nonzero_mul x y : x mod secp_p <> 0 -> y mod secp_p <> 0 -> (x * y) mod secp_p <> 0.
Proof.
  intros Hx Hy H. apply Z.mod_divide in H; [| apply secp_p_nz].
  apply Z.divide_prime_mul in H; [| apply secp_p_prime].
  destruct H as [H|H]; apply Z.mod_divide in H; try done; apply secp_p_nz.
Qed.

Lemma nonzero_cong x y : x ≡[secp_p] y -> x mod secp_p <> 0 -> y mod secp_p <> 0.
Proof. intros E H. by rewrite <- (cong_mod_eq _ _ _ secp_p_nz E). Qed.

Lemma cancel_nonzero x y z : z mod secp_p <> 0 -> x * z ≡[secp_p] y * z -> x ≡[secp_p] y.
Proof.
  intros Hz. apply cong_cancel_r, Z.coprime_prime_l; [apply secp_p_prime |].
  intros Hd. apply Hz, Z.mod_divide; [apply secp_p_nz | done].
Qed.

Lemma slope d n : d mod secp_p <> 0 -> exists l, l * d ≡[secp_p] n.
Proof.
  intros Hd. exists (n * d ^ (secp_p - 2)). 
  transitivity (n * (d * d ^ (secp_p - 2))); [apply cong_eq; ring |]. rewrite fermat_inverse by done. apply cong_eq. ring.
Qed.

#[local] Instance add_x_proper : Proper (cong secp_p ==> cong secp_p ==> cong secp_p ==> cong secp_p) add_x.
Proof.
  intros u u' Eu h h' Eh r r' Er. unfold add_x.
  assert (E2 : r ^ 2 ≡[secp_p] r' ^ 2) by (by apply cong_pow). assert (E3 : h ^ 3 ≡[secp_p] h' ^ 3) by (by apply cong_pow).
  assert (E4 : h ^ 2 ≡[secp_p] h' ^ 2) by (by apply cong_pow). by rewrite E2, E3, E4, Eu.
Qed.

#[local] Instance add_y_proper :
  Proper (cong secp_p ==> cong secp_p ==> cong secp_p ==> cong secp_p ==> cong secp_p) add_y.
Proof.
  intros u u' Eu s s' Es h h' Eh r r' Er. unfold add_y.
  assert (E3 : h ^ 3 ≡[secp_p] h' ^ 3) by (by apply cong_pow). assert (E4 : h ^ 2 ≡[secp_p] h' ^ 2) by (by apply cong_pow).
  by rewrite E3, E4, Eu, Es, Eh, Er.
Qed.

Lemma chord_add P Q x1 y1 x2 y2 l : affine P x1 y1 -> affine Q x2 y2 -> (x2 - x1) mod secp_p <> 0 ->
  l * (x2 - x1) ≡[secp_p] y2 - y1 ->
  affine (point_add P Q) (l ^ 2 - x1 - x2) (l * (x1 - (l ^ 2 - x1 - x2)) - y1).
Proof.
  intros (X1 & Y1 & Z1 & J1 & N1 & EX1 & EY1) (X2 & Y2 & Z2 & J2 & N2 & EX2 & EY2) Hne Hl.
  set (w := Z1 * Z2). set (d := x2 - x1) in *.
  pose proof (point_add_spec P Q _ _ _ _ _ _ J1 J2) as J. cbv zeta in J.
  assert (Eu : X1 * Z2 ^ 2 ≡[secp_p] x1 * w ^ 2) by (rewrite EX1; apply cong_eq; unfold w; ring).
  assert (Es : Y1 * Z2 ^ 3 ≡[secp_p] y1 * w ^ 3) by (rewrite EY1; apply cong_eq; unfold w; ring).
  assert (Eh : X2 * Z1 ^ 2 - X1 * Z2 ^ 2 ≡[secp_p] d * w ^ 2) by (rewrite EX2, EX1; apply cong_eq; unfold w, d; ring).
  assert (Er : Y2 * Z1 ^ 3 - Y1 * Z2 ^ 3 ≡[secp_p] l * d * w ^ 3).
  { rewrite Hl, EY2, EY1. apply cong_eq. unfold w. ring. }
  set (h := X2 * Z1 ^ 2 - X1 * Z2 ^ 2) in *. exists (add_x (X1 * Z2 ^ 2) h (Y2 * Z1 ^ 3 - Y1 * Z2 ^ 3)),
    (add_y (X1 * Z2 ^ 2) (Y1 * Z2 ^ 3) h (Y2 * Z1 ^ 3 - Y1 * Z2 ^ 3)), (2 * w * h).
  split; [exact J |]. split; [| split].
  - assert (Hw : w mod secp_p <> 0) by (by apply nonzero_mul).
    apply nonzero_mul; [apply nonzero_mul; [by vm_compute | done] |].
    apply (nonzero_cong (d * w ^ 2)); [by symmetry |]. apply nonzero_mul; [done |].
    replace (w ^ 2) with (w * w) by ring. by apply nonzero_mul.
  - rewrite Eu, Er. assert (E2 : (2 * w * h) ^ 2 ≡[secp_p] (2 * w * (d * w ^ 2)) ^ 2) by (apply cong_pow; [lia | by rewrite Eh]).
    rewrite E2, Eh. apply cong_eq. unfold add_x, d. ring.
  - rewrite Eu, Er, Es. assert (E3 : (2 * w * h) ^ 3 ≡[secp_p] (2 * w * (d * w ^ 2)) ^ 3) by (apply cong_pow; [lia | by rewrite Eh]).
    rewrite E3, Eh. apply cong_eq. unfold add_y, add_x, d. ring.
Qed.

Lemma tangent_double P x y l : affine P x y -> y mod secp_p <> 0 -> l * (2 * y) ≡[secp_p] 3 * x ^ 2 - 3 ->
  affine (point_double P) (l ^ 2 - x - x) (l * (x - (l ^ 2 - x - x)) - y).
Proof.
  intros (X & Y & Z & J & N & EX & EY) Hy Hl. pose proof (point_double_spec P _ _ _ J) as J2.
  exists (dbl_x X Y Z), (dbl_y X Y Z), (2 * Y * Z). split; [exact J2 |].
  assert (Ea : dbl_a X Z ≡[secp_p] 2 * l * y * Z ^ 4).
  { unfold dbl_a. rewrite EX. transitivity (Z ^ 4 * (3 * x ^ 2 - 3)); [apply cong_eq; ring |].
    rewrite <- Hl. apply cong_eq. ring. }
  assert (EY2 : Y ^ 2 ≡[secp_p] y ^ 2 * Z ^ 6) by (rewrite (cong_pow _ _ _ 2 ltac:(lia) EY); apply cong_eq; ring).
  assert (EY4 : Y ^ 4 ≡[secp_p] y ^ 4 * Z ^ 12) by (rewrite (cong_pow _ _ _ 4 ltac:(lia) EY); apply cong_eq; ring).
  assert (Ez : 2 * Y * Z ≡[secp_p] 2 * y * Z ^ 4) by (rewrite EY; apply cong_eq; ring).
  assert (Ex : dbl_x X Y Z ≡[secp_p] (l ^ 2 - x - x) * (2 * y * Z ^ 4) ^ 2).
  { unfold dbl_x. rewrite (cong_pow _ _ _ 2 ltac:(lia) Ea), EX, EY2. apply cong_eq. ring. }
  split; [| split].
  - apply nonzero_mul; [apply nonzero_mul; [by vm_compute |] | done].
    apply (nonzero_cong (y * Z ^ 3)); [by symmetry |]. apply nonzero_mul; [done |].
    replace (Z ^ 3) with (Z * (Z * Z)) by ring. by repeat apply nonzero_mul.
  - by rewrite (cong_pow _ _ _ 2 ltac:(lia) Ez).
  - rewrite (cong_pow _ _ _ 3 ltac:(lia) Ez). unfold dbl_y. rewrite Ea, Ex, EX, EY2, EY4. apply cong_eq. ring.
Qed.

Definition at_infinity (P : point) : Prop := exists x y z, jac P x y z /\ z mod secp_p = 0.

(** The comparisons across different denominators. *)
Lemma scaled_zero d w e : w mod secp_p <> 0 -> e ≡[secp_p] d * w -> (e mod secp_p =? 0) = (d mod secp_p =? 0).
Proof.
  intros Hw E. rewrite (cong_mod_eq _ _ _ secp_p_nz E). apply eq_true_iff_eq. rewrite !Z.eqb_eq. split.
  - intros H. destruct (decide (d mod secp_p = 0)) as [|Hd]; [done |]. by apply (nonzero_mul d w Hd) in Hw.
  - intros H. rewrite Z.mul_mod, H, Z.mul_0_l by apply secp_p_nz. apply Z.mod_0_l, secp_p_nz.
Qed.

Lemma cong_zero x : x mod secp_p = 0 <-> x ≡[secp_p] 0.
Proof.
  split; intros H.
  - rewrite <- (cong_mod secp_p x), H by apply secp_p_nz. reflexivity.
  - rewrite (cong_mod_eq _ _ _ secp_p_nz H). apply Z.mod_0_l, secp_p_nz.
Qed.

Lemma add_or_double_run P Q x1 y1 x2 y2 : affine P x1 y1 -> affine Q x2 y2 ->
  point_add_or_double_vartime P Q =
    Ret (if ((x2 - x1) mod secp_p =? 0) && ((y2 - y1) mod secp_p =? 0) then point_double P else point_add P Q).
Proof.
  intros (X1 & Y1 & Z1 & J1 & N1 & EX1 & EY1) (X2 & Y2 & Z2 & J2 & N2 & EX2 & EY2).
  rewrite (point_add_or_double_spec P Q _ _ _ _ _ _ J1 J2).
  assert (Hw2 : (Z1 ^ 2 * Z2 ^ 2) mod secp_p <> 0).
  { replace (Z1 ^ 2 * Z2 ^ 2) with (Z1 * Z1 * (Z2 * Z2)) by ring. by repeat apply nonzero_mul. }
  assert (Hw3 : (Z1 ^ 3 * Z2 ^ 3) mod secp_p <> 0).
  { replace (Z1 ^ 3 * Z2 ^ 3) with (Z1 * Z1 * Z1 * (Z2 * Z2 * Z2)) by ring. by repeat apply nonzero_mul. }
  rewrite (scaled_zero (x2 - x1) _ (X2 * Z1 ^ 2 - X1 * Z2 ^ 2) Hw2) by (rewrite EX1, EX2; apply cong_eq; ring).
  by rewrite (scaled_zero (y2 - y1) _ (Y2 * Z1 ^ 3 - Y1 * Z2 ^ 3) Hw3) by (rewrite EY1, EY2; apply cong_eq; ring).
Qed.

Lemma opposite_sum P Q x1 y1 x2 y2 : affine P x1 y1 -> affine Q x2 y2 -> (x2 - x1) mod secp_p = 0 ->
  at_infinity (point_add P Q).
Proof.
  intros (X1 & Y1 & Z1 & J1 & N1 & EX1 & EY1) (X2 & Y2 & Z2 & J2 & N2 & EX2 & EY2) Hx.
  pose proof (point_add_spec P Q _ _ _ _ _ _ J1 J2) as J. cbv zeta in J. eexists _, _, _. split; [exact J |].
  apply cong_zero in Hx. apply cong_zero. rewrite EX1, EX2.
  transitivity (2 * (Z1 * Z2) * ((x2 - x1) * (Z1 ^ 2 * Z2 ^ 2))); [apply cong_eq; ring |].
  rewrite Hx. apply cong_eq. ring.
Qed.

(** ** Properties *)

(** [point_add_or_double_vartime] always returns, and adds by the chord and
    tangent law: equal points are doubled along the tangent, points with
    different abscissae are added along the chord, and opposite points give
    the point at infinity. *)
Theorem point_add_or_double_correct P Q x1 y1 x2 y2 : affine P x1 y1 -> affine Q x2 y2 ->
  exists R, point_add_or_double_vartime P Q = Ret R /\
    ((x2 - x1) mod secp_p = 0 -> (y2 - y1) mod secp_p <> 0 -> at_infinity R) /\
    ((x2 - x1) mod secp_p <> 0 \/ ((y2 - y1) mod secp_p = 0 /\ y1 mod secp_p <> 0) ->
     exists x3 y3, affine R x3 y3 /\ ec_sum x1 y1 x2 y2 x3 y3).
Proof.
  intros HP HQ. rewrite (add_or_double_run P Q x1 y1 x2 y2 HP HQ). eexists. split; [reflexivity |].
  destruct (Z.eqb_spec ((x2 - x1) mod secp_p) 0) as [Hx|Hx], (Z.eqb_spec ((y2 - y1) mod secp_p) 0) as [Hy|Hy];
    cbn [andb]; split; try done.
  - intros [|[_ Hn]]; [done |]. destruct (slope (2 * y1) (3 * x1 ^ 2 - 3)) as [l Hl];
      [apply nonzero_mul; [by vm_compute | done] |].
    assert (E : x2 ≡[secp_p] x1) by (apply cong_zero in Hx as [k Hk]; exists k; lia).
    eexists _, _. split; [by apply (tangent_double P x1 y1 l) |]. exists l. rewrite (proj2 (Z.eqb_eq _ _) Hx).
    split; [split; [by rewrite E | reflexivity] | exact Hl].
  - intros _ _. by apply (opposite_sum P Q x1 y1 x2 y2).
  - intros [|[? _]]; done.
  - intros _. destruct (slope (x2 - x1) (y2 - y1) Hx) as [l Hl]. eexists _, _. split; [by apply (chord_add P Q x1 y1 x2 y2 l) |].
    exists l. rewrite (proj2 (Z.eqb_neq _ _) Hx). split; [split; reflexivity | exact Hl].
  - intros _. destruct (slope (x2 - x1) (y2 - y1) Hx) as [l Hl]. eexists _, _. split; [by apply (chord_add P Q x1 y1 x2 y2 l) |].
    exists l. rewrite (proj2 (Z.eqb_neq _ _) Hx). split; [split; reflexivity | exact Hl].
Qed.

Lemma mont_is_zero a x : mont a x -> (x mod secp_p =? 0) = (fval a mod secp_p =? 0).
Proof.
  intros [_ E]. symmetry. apply (scaled_zero x mont_R); [| done].
  intros H. apply Z.mod_divide in H; [| apply secp_p_nz]. pose proof mont_R_coprime as Hc.
  apply Z.coprime_prime_l_iff in Hc; [done | apply secp_p_prime].
Qed.

(** Two entries of the precomputed table. *)
Definition table_point (i : Z) : point := Point (affine_row kPrecomputed i).1 (affine_row kPrecomputed i).2 kOne.
Definition plain (a : felem) : Z := (fval a * dval kRInv) mod secp_p.

Lemma plain_mont a : (length a =? 9)%nat && narrowb true a = true -> mont a (plain a).
Proof.
  rewrite andb_true_iff, Nat.eqb_eq. intros [Hl Hn]. split; [apply narrow_tight; split; [assumption | by apply narrowb_sound] |].
  unfold plain. rewrite cong_mod by apply secp_p_nz.
  transitivity (fval a * (dval kRInv * mont_R)); [rewrite kRInv_val; apply cong_eq; ring | apply cong_eq; ring].
Qed.

Lemma table_affine i : (length (px (table_point i)) =? 9)%nat && narrowb true (px (table_point i)) = true ->
  (length (py (table_point i)) =? 9)%nat && narrowb true (py (table_point i)) = true ->
  affine (table_point i) (plain (px (table_point i))) (plain (py (table_point i))).
Proof.
  intros Hx Hy. exists (plain (px (table_point i))), (plain (py (table_point i))), 1.
  split; [split_and!; [by apply plain_mont | by apply plain_mont | apply mont_kOne] |].
  split; [rewrite Z.mod_small by (pose proof (secp_3p); lia); lia |].
  rewrite !Z.pow_1_l, !Z.mul_1_r by lia. split; reflexivity.
Qed.

Lemma point_add_or_double_correct_witness :
  let P := table_point 1 in let Q := table_point 2 in
  exists R x3 y3, point_add_or_double_vartime P Q = Ret R /\ affine R x3 y3 /\
    ec_sum (plain (px P)) (plain (py P)) (plain (px Q)) (plain (py Q)) x3 y3.
Proof.
  intros P Q. destruct (point_add_or_double_correct P Q (plain (px P)) (plain (py P)) (plain (px Q)) (plain (py Q)))
    as (R & E & _ & H); [apply table_affine; vm_compute; reflexivity .. |].
  destruct H as (x3 & y3 & HR & Hs); [left; vm_compute; discriminate |]. exists R, x3, y3. split_and!; assumption.
Defined.



(** The bound on the top limb is needed: within the documented bounds alone the
    carry of [felem_scalar_8] exceeds the 2^3 that [felem_reduce_carry] is
    documented for, and limb 7 leaves its bounds. *)
Lemma felem_scalar_8_documented :
  let a := [0; 0; 0; 0; 0; 0; 0; 2 ^ 29 - 1; 2 ^ 30 - 1] in
  limbs_below 1 true a /\ ~ limbs_below 1 true (felem_scalar_8 a) /\ 2 ^ 29 <= rd (felem_scalar_8 a) 7.
Proof.
  intros a. assert (E : 2 ^ 29 <= rd (felem_scalar_8 a) 7) by (vm_compute; discriminate).
  split; [unfold a; cbn -[Z.pow]; lia |]. split; [| exact E]. intros H.
  assert (Hl : length (felem_scalar_8 a) = NLIMBS) by (vm_compute; reflexivity).
  apply limbs9 in Hl as (a0 & a1 & a2 & a3 & a4 & a5 & a6 & a7 & a8 & Ea). rewrite Ea in *. change (rd _ 7) with a7 in E.
  cbn -[Z.pow] in H. lia.
Qed.



(** ** Signature verification *)

(** The ECDSA equation: with w the inverse of s modulo n, u1 = m w and u2 = r w, the
    abscissa the multiplication returns is r modulo n. *)
Definition ecdsa_equation (key_x key_y message r s : p256_int) : Prop :=
  exists w u1 u2 X Y, (dval s * w) mod secp_n = 1 /\ p256_ok u1 /\ p256_ok u2 /\
    dval u1 = (dval message * w) mod secp_n /\ dval u2 = (dval r * w) mod secp_n /\
    p256_points_mul_vartime u1 u2 key_x key_y = Ret (X, Y) /\ p256_ok X /\ dval r = dval X mod secp_n.

Lemma secp_n_range : 1 < secp_n /\ secp_n < R256.
Proof. done. Qed.

#[local] Opaque secp_n.

Lemma modmul_n a b : p256_ok a -> p256_ok b ->
  exists c, p256_modmul SECP256r1_n a 0 b = Ret c /\ p256_ok c /\ dval c = (dval a * dval b) mod secp_n.
Proof.
  intros Ha Hb. destruct (modmul_spec SECP256r1_n a 0 b n_ok Ha ltac:(done) Hb) as (c & E & Hc & Ev).
  exists c. rewrite secp_n_val, Z.mul_0_r, Z.add_0_r in Ev. split_and!; assumption.
Qed.

(** The inverse of s exists as n is prime. *)
Lemma modinv_n fuel s : p256_ok s -> dval s mod secp_n <> 0 -> (1024 <= fuel)%nat ->
  exists w, p256_modinv_vartime fuel SECP256r1_n s = Ret w /\ p256_ok w /\ (dval s * dval w) mod secp_n = 1.
Proof.
  intros Hs Hnz Hf. pose proof (p256_range s Hs). pose proof secp_n_range.
  destruct (modinv_spec fuel SECP256r1_n s) as (w & E & Hw & _ & Hi); [apply n_ok | reflexivity | assumption | | | assumption |].
  - assert (dval s <> 0) by (intros E; rewrite E, Z.mod_0_l in Hnz by lia; congruence). lia.
  - rewrite secp_n_val. apply Z.coprime_prime_l; [apply secp_n_prime |]. intros Hd. apply Hnz, Z.mod_divide; [lia | done].
  - exists w. rewrite secp_n_val in Hi. split_and!; assumption.
Qed.

Lemma inverse_unique s w w' : (s * w) mod secp_n = 1 -> (s * w') mod secp_n = 1 -> forall x, (x * w) mod secp_n = (x * w') mod secp_n.
Proof.
  intros H1 H2 x. pose proof secp_n_range. apply cong_mod_eq; [lia |].
  assert (E1 : s * w ≡[secp_n] 1) by (rewrite <- (cong_mod secp_n (s * w)), H1 by lia; reflexivity).
  assert (E2 : s * w' ≡[secp_n] 1) by (rewrite <- (cong_mod secp_n (s * w')), H2 by lia; reflexivity).
  transitivity (x * w * (s * w')); [rewrite E2; apply cong_eq; ring |].
  transitivity (x * w' * (s * w)); [apply cong_eq; ring | rewrite E1; apply cong_eq; ring].
Qed.

Lemma equation_iff key_x key_y message r s w u1 u2 X Y : p256_ok u1 -> p256_ok u2 -> p256_ok X ->
  (dval s * w) mod secp_n = 1 -> dval u1 = (dval message * w) mod secp_n -> dval u2 = (dval r * w) mod secp_n ->
  p256_points_mul_vartime u1 u2 key_x key_y = Ret (X, Y) ->
  ecdsa_equation key_x key_y message r s <-> dval r = dval X mod secp_n.
Proof.
  intros Hu1 Hu2 HX Hw E1 E2 Em. split.
  - intros (w' & v1 & v2 & X' & Y' & Hw' & Hv1 & Hv2 & F1 & F2 & Em' & HX' & Hr).
    assert (v1 = u1) as -> by (apply dval_inj; [apply Hv1 | apply Hu1 | rewrite (proj2 Hv1), (proj2 Hu1); reflexivity |];
      rewrite F1, E1; apply (inverse_unique (dval s)); assumption).
    assert (v2 = u2) as -> by (apply dval_inj; [apply Hv2 | apply Hu2 | rewrite (proj2 Hv2), (proj2 Hu2); reflexivity |];
      rewrite F2, E2; apply (inverse_unique (dval s)); assumption).
    rewrite Em in Em'. injection Em' as <- <-. assumption.
  - intros Hr. exists w, u1, u2, X, Y. split_and!; assumption.
Qed.

(** The verdict a test gives. *)
Definition verdict (o : outcome Z) (P : Prop) : Prop := exists v, o = Ret v /\ (v = 0 \/ v = 1) /\ (v = 1 <-> P).

Lemma verdict_if (b : bool) P : (b = true <-> P) -> verdict (Ret (if b then 1 else 0)) P.
Proof. intros H. exists (if b then 1 else 0). split; [reflexivity |]. rewrite <- H. destruct b; split; auto; split; congruence || lia. Qed.

Lemma verdict_no (P : Prop) : ~ P -> verdict (Ret 0) P.
Proof. intros H. apply (verdict_if false). split; [discriminate | tauto]. Qed.

Lemma verdict_and (o : outcome Z) (Q P : Prop) : Q -> verdict o P -> verdict o (Q /\ P).
Proof. intros H (v & E & Hv & Hi). exists v. split; [exact E |]. split; [exact Hv |]. tauto. Qed.

Lemma cmp_eq a b : p256_ok a -> p256_ok b -> (p256_cmp a b =? 0) = (dval a =? dval b).
Proof. intros Ha Hb. rewrite cmp_spec by assumption. apply three_way_eq. Qed.

(** C17. [p256_ecdsa_verify] terminates on every input, whatever the key, the digest
    and the signature, and returns 1 exactly when the key passes the
    membership test, r and s are not zero modulo n, and the ECDSA equation holds
    for the point [p256_points_mul_vartime] computes; otherwise 0. *)
Theorem p256_ecdsa_verify_correct fuel key_x key_y message r s :
  p256_ok key_x -> p256_ok key_y -> p256_ok message -> p256_ok r -> p256_ok s -> (1024 <= fuel)%nat ->
  verdict (p256_ecdsa_verify fuel key_x key_y message r s)
    (p256_is_valid_point key_x key_y = Ret 1 /\ dval r mod secp_n <> 0 /\ dval s mod secp_n <> 0 /\
     ecdsa_equation key_x key_y message r s).
Proof.
  intros Hkx Hky Hm Hr Hs Hf. unfold p256_ecdsa_verify.
  pose proof (is_valid_point_spec key_x key_y Hkx Hky) as Ev. rewrite Ev.
  destruct (_ && _) eqn:Evalid; rewrite bind_ret; [| apply verdict_no; intros [E _]; discriminate E].
  change (1 =? 0) with false. cbv iota zeta. apply verdict_and; [reflexivity |].
  destruct (mod_spec SECP256r1_n r n_ok Hr) as [Hru Eru]. destruct (mod_spec SECP256r1_n s n_ok Hs) as [Hsu Esu].
  rewrite !is_zero_spec, Eru, Esu, secp_n_val by assumption.
  destruct (Z.eqb_spec (dval r mod secp_n) 0) as [Hr0|Hr0]; cbn [orb]; [apply verdict_no; tauto |].
  apply verdict_and; [assumption |].
  destruct (Z.eqb_spec (dval s mod secp_n) 0) as [Hs0|Hs0]; [apply verdict_no; tauto |].
  apply verdict_and; [assumption |].
  destruct (modinv_n fuel s Hs Hs0 Hf) as (w & -> & Hw & Ew). rewrite bind_ret.
  destruct (modmul_n message w Hm Hw) as (u1 & -> & Hu1 & E1). rewrite bind_ret.
  destruct (modmul_n r w Hr Hw) as (u2 & -> & Hu2 & E2). rewrite bind_ret.
  assert (Hc : affine_on (dval key_x) (dval key_y)).
  { rewrite !andb_true_iff, Z.eqb_eq in Evalid. destruct Evalid as [_ Ec]. unfold affine_on.
    rewrite <- curve_rhs_cong, <- Ec, cong_mod by apply secp_p_nz. apply cong_eq. ring. }
  destruct (points_mul_result u1 u2 key_x key_y Hu1 Hu2 Hkx Hky Hc) as (X & Y & Em & HX & HY & _). rewrite Em, bind_ret.
  destruct (mod_spec SECP256r1_n X n_ok HX) as [HXu EXu]. rewrite secp_n_val in EXu.
  apply verdict_if. rewrite cmp_eq, EXu, Z.eqb_eq by assumption. symmetry.
  apply (equation_iff key_x key_y message r s (dval w) u1 u2 X Y); assumption.
Qed.

Lemma p256_ecdsa_verify_correct_witness :
  verdict (p256_ecdsa_verify 1024 lost_x lost_y SECP256r1_b P256_ONE SECP256r1_p)
    (p256_is_valid_point lost_x lost_y = Ret 1 /\ dval P256_ONE mod secp_n <> 0 /\ dval SECP256r1_p mod secp_n <> 0 /\
     ecdsa_equation lost_x lost_y SECP256r1_b P256_ONE SECP256r1_p).
Proof.
  apply (p256_ecdsa_verify_correct 1024 lost_x lost_y SECP256r1_b P256_ONE SECP256r1_p); try p256_ok. lia.
Defined.
