(* ===== verification/Asn1.v ===== *)
(** * The ASN.1 decoder of the recovery

    Models src/bootable/recovery/asn1_decoder.cpp and the PKCS#7 reader of
    verifier.cpp. A context is a position and a length in a memory of bytes;
    every byte access is checked against that memory. A script says which
    allocations fail. [size_t] has eight bytes. *)

From S2P Require Import Prelude.
From S2P Require Import Limbs.

Definition SIZEOF_SIZE_T : Z := 8.

(** ** Computations that allocate *)
Definition scriptM (A : Type) : Type := list bool -> outcome (A * list bool).

#[global] Instance scriptM_ret : MRet scriptM := fun A a s => Ret (a, s).
#[global] Instance scriptM_bind : MBind scriptM := fun A B k m s =>
  match m s with
  | Ret (a, s') => k a s'
  | Fault f => Fault f
  | Diverge => Diverge
  end.

Definition liftS {A} (m : outcome A) : scriptM A := fun s => a ← m; Ret (a, s).

Definition throwS {A} (f : fault) : scriptM A := fun _ => Fault f.

(** Does the next allocation succeed? *)
Definition alloc : scriptM bool := fun s =>
  match s with
  | b :: s' => Ret (b, s')
  | [] => Ret (true, [])
  end.

Record asn1_context := Asn1 {
  a_length : Z;
  a_p : Z;
  a_app_type : Z
}.

Definition kMaskConstructed : Z := 0xE0.
Definition kMaskTag : Z := 0x7F.
Definition kMaskAppType : Z := 0x1F.
Definition kTagOctetString : Z := 0x04.
Definition kTagOid : Z := 0x06.
Definition kTagSequence : Z := 0x30.
Definition kTagSet : Z := 0x31.
Definition kTagConstructed : Z := 0xA0.

Section Decoder.
Context (mem : bytes).

Definition asn1_context_new (buffer length : Z) : scriptM (option asn1_context) :=
  ok ← alloc;
  mret (if (ok : bool) then Some (Asn1 length buffer 0) else None).

Definition peek_byte (ctx : asn1_context) : outcome Z :=
  if a_length ctx <=? 0 then Ret (-1) else rd_mem mem (a_p ctx).

Definition get_byte (ctx : asn1_context) : outcome (Z * asn1_context) :=
  if a_length ctx <=? 0 then Ret (-1, ctx) else
  byte ← rd_mem mem (a_p ctx);
  Ret (byte, Asn1 (a_length ctx - 1) (a_p ctx + 1) (a_app_type ctx)).

Definition skip_bytes (ctx : asn1_context) (num_skip : Z) : bool * asn1_context :=
  if a_length ctx <? num_skip then (false, ctx)
  else (true, Asn1 (a_length ctx - num_skip) (a_p ctx + num_skip) (a_app_type ctx)).

(** [for (int i = 0; i < num_octets; ++i)] *)
Fixpoint length_loop (n : nat) (length : Z) (ctx : asn1_context) : outcome (option Z * asn1_context) :=
  match n with
  | O => Ret (Some length, ctx)
  | S n' =>
      '(byte, ctx) ← get_byte ctx;
      if byte =? -1 then Ret (None, ctx)
      else length_loop n' (u64 (u64 (Z.shiftl length 8) + byte)) ctx
  end.

(** [None] is false. *)
Definition decode_length (ctx : asn1_context) : outcome (option Z * asn1_context) :=
  '(num_octets, ctx) ← get_byte ctx;
  if num_octets =? -1 then Ret (None, ctx) else
  if Z.land num_octets 0x80 =? 0 then Ret (Some num_octets, ctx) else
  let num_octets := Z.land num_octets kMaskTag in
  if SIZEOF_SIZE_T <=? num_octets then Ret (None, ctx) else
  length_loop (Z.to_nat num_octets) 0 ctx.

(** The new context, or [None] for NULL, and the one it was taken from. The
    result of the allocation is not checked. *)
Definition asn1_constructed_get (ctx : asn1_context) : scriptM (option asn1_context * asn1_context) :=
  '(type, ctx) ← liftS (get_byte ctx);
  if (type =? -1) || negb (Z.land type kMaskConstructed =? kTagConstructed) then mret (None, ctx) else
  '(length, ctx) ← liftS (decode_length ctx);
  match length with
  | None => mret (None, ctx)
  | Some length =>
      if a_length ctx <? length then mret (None, ctx) else
      app_ctx ← asn1_context_new (a_p ctx) length;
      match app_ctx with
      | None => throwS NullDeref
      | Some app_ctx =>
          mret (Some (Asn1 (a_length app_ctx) (a_p app_ctx) (Z.land type kMaskAppType)), ctx)
      end
  end.

(** [while (byte != -1 && (byte & kMaskConstructed) == kTagConstructed)] *)
Fixpoint skip_all_loop (fuel : nat) (byte : Z) (ctx : asn1_context) : outcome (bool * asn1_context) :=
  if negb (byte =? -1) && (Z.land byte kMaskConstructed =? kTagConstructed) then
    match fuel with
    | O => Diverge
    | S fuel' =>
        let '(_, ctx) := skip_bytes ctx 1 in
        '(length, ctx) ← decode_length ctx;
        match length with
        | None => Ret (false, ctx)
        | Some length =>
            let '(ok, ctx) := skip_bytes ctx length in
            if (ok : bool) then byte ← peek_byte ctx; skip_all_loop fuel' byte ctx
            else Ret (false, ctx)
        end
    end
  else Ret (negb (byte =? -1), ctx).

(** Each turn uses up a byte. *)
Definition asn1_constructed_skip_all (ctx : asn1_context) : outcome (bool * asn1_context) :=
  byte ← peek_byte ctx;
  skip_all_loop (Z.to_nat (a_length ctx)) byte ctx.

Definition asn1_constructed_type (ctx : asn1_context) : Z := a_app_type ctx.

(** [asn1_sequence_get] and [asn1_set_get] differ in the tag. *)
Definition tagged_get (tag : Z) (ctx : asn1_context) : scriptM (option asn1_context * asn1_context) :=
  '(byte, ctx) ← liftS (get_byte ctx);
  if negb (Z.land byte kMaskTag =? tag) then mret (None, ctx) else
  '(length, ctx) ← liftS (decode_length ctx);
  match length with
  | None => mret (None, ctx)
  | Some length =>
      if a_length ctx <? length then mret (None, ctx) else
      new ← asn1_context_new (a_p ctx) length;
      mret (new, ctx)
  end.

Definition asn1_sequence_get := tagged_get kTagSequence.
Definition asn1_set_get := tagged_get kTagSet.

Definition asn1_sequence_next (ctx : asn1_context) : outcome (bool * asn1_context) :=
  '(byte, ctx) ← get_byte ctx;
  if byte =? -1 then Ret (false, ctx) else
  '(length, ctx) ← decode_length ctx;
  match length with
  | None => Ret (false, ctx)
  | Some length => Ret (skip_bytes ctx length)
  end.

(** [asn1_oid_get] and [asn1_octet_string_get] differ in the tag; the result is
    the position and the length of the string. *)
Definition string_get (tag : Z) (ctx : asn1_context) : outcome (option (Z * Z) * asn1_context) :=
  '(byte, ctx) ← get_byte ctx;
  if negb (byte =? tag) then Ret (None, ctx) else
  '(length, ctx) ← decode_length ctx;
  match length with
  | None => Ret (None, ctx)
  | Some length =>
      if (length =? 0) || (a_length ctx <? length) then Ret (None, ctx)
      else Ret (Some (a_p ctx, length), ctx)
  end.

Definition asn1_oid_get := string_get kTagOid.
Definition asn1_octet_string_get := string_get kTagOctetString.

(** ** read_pkcs7 of verifier.cpp *)

(** [asn1_sequence_next(ctx) && ... && asn1_sequence_next(ctx)], [n] times *)
Fixpoint nexts (n : nat) (ctx : asn1_context) : outcome (bool * asn1_context) :=
  match n with
  | O => Ret (true, ctx)
  | S n' =>
      '(ok, ctx) ← asn1_sequence_next ctx;
      if (ok : bool) then nexts n' ctx else Ret (false, ctx)
  end.

(** [memcpy] out of the memory *)
Definition copy_out (p n : Z) : outcome bytes :=
  if (0 <=? p) && (0 <=? n) && (p + n <=? Z.of_nat (length mem))
  then Ret (take (Z.to_nat n) (drop (Z.to_nat p) mem)) else Fault OutOfBounds.

(** Continue with a context unless it is NULL or a step on it failed. *)
Definition when_ctx {A} (ctx : option asn1_context) (k : asn1_context -> scriptM (option A)) : scriptM (option A) :=
  match ctx with Some ctx => k ctx | None => mret None end.
Definition when {A} (ok : bool) (k : scriptM (option A)) : scriptM (option A) := if ok then k else mret None.

(** The signature copied to [sig_der], or [None] when the function returns false. *)
Definition read_pkcs7 (pkcs7_der pkcs7_der_len : Z) : scriptM (option bytes) :=
  ctx ← asn1_context_new pkcs7_der pkcs7_der_len;
  when_ctx ctx (fun ctx =>
  '(pkcs7_seq, _) ← asn1_sequence_get ctx;
  when_ctx pkcs7_seq (fun pkcs7_seq =>
  '(ok, pkcs7_seq) ← liftS (asn1_sequence_next pkcs7_seq);
  when ok (
  '(signed_data_app, _) ← asn1_constructed_get pkcs7_seq;
  when_ctx signed_data_app (fun signed_data_app =>
  '(signed_data_seq, _) ← asn1_sequence_get signed_data_app;
  when_ctx signed_data_seq (fun signed_data_seq =>
  '(ok, signed_data_seq) ← liftS (nexts 3 signed_data_seq);
  when ok (
  '(ok, signed_data_seq) ← liftS (asn1_constructed_skip_all signed_data_seq);
  when ok (
  '(sig_set, _) ← asn1_set_get signed_data_seq;
  when_ctx sig_set (fun sig_set =>
  '(sig_seq, _) ← asn1_sequence_get sig_set;
  when_ctx sig_seq (fun sig_seq =>
  '(ok, sig_seq) ← liftS (nexts 4 sig_seq);
  when ok (
  '(str, _) ← liftS (asn1_octet_string_get sig_seq);
  match str with
  | None => mret None
  | Some (sig_der_ptr, sig_der_length) =>
      ok ← alloc;
      when ok (sig ← liftS (copy_out sig_der_ptr sig_der_length); mret (Some sig))
  end)))))))))).

End Decoder.

(** ** The format, on byte strings

    A length and what follows it; an element's contents; what follows it. *)
Definition d_len (l : bytes) : option (Z * bytes) :=
  match l with
  | [] => None
  | b :: l =>
      if Z.land b 0x80 =? 0 then Some (b, l) else
      let k := Z.land b 0x7F in
      if SIZEOF_SIZE_T <=? k then None else
      if Z.of_nat (length l) <? k then None else
      Some (be_decode (take (Z.to_nat k) l), drop (Z.to_nat k) l)
  end.

Definition d_elem (test : Z -> bool) (l : bytes) : option (bytes * bytes) :=
  match l with
  | [] => None
  | b :: l =>
      if test b then
        '(n, l) ← d_len l;
        if Z.of_nat (length l) <? n then None else Some (take (Z.to_nat n) l, drop (Z.to_nat n) l)
      else None
  end.

Definition is_tag (tag b : Z) : bool := Z.land b kMaskTag =? tag.
Definition is_constructed (b : Z) : bool := Z.land b kMaskConstructed =? kTagConstructed.

Definition d_get (test : Z -> bool) (l : bytes) : option bytes := fst <$> d_elem test l.
Definition d_next (l : bytes) : option bytes := snd <$> d_elem (fun _ => true) l.

Fixpoint d_nexts (n : nat) (l : bytes) : option bytes :=
  match n with O => Some l | S n' => d_next l ≫= d_nexts n' end.

(** Skip constructed elements; something must follow. *)
Fixpoint d_skip (fuel : nat) (l : bytes) : option bytes :=
  match l with
  | [] => None
  | b :: _ =>
      if is_constructed b then
        match fuel with O => None | S fuel' => d_next l ≫= d_skip fuel' end
      else Some l
  end.

(** The SignatureValue of the first SignerInfo. *)
Definition pkcs7_signature (der : bytes) : option bytes :=
  seq ← d_get (is_tag kTagSequence) der;
  rest ← d_next seq;
  app ← d_get is_constructed rest;
  seq ← d_get (is_tag kTagSequence) app;
  rest ← d_nexts 3 seq;
  rest ← d_skip (length rest) rest;
  set ← d_get (is_tag kTagSet) rest;
  seq ← d_get (is_tag kTagSequence) set;
  rest ← d_nexts 4 seq;
  sig ← d_get (Z.eqb kTagOctetString) rest;
  if bool_decide (sig = []) then None else Some sig.
