(* ===== verification/Asn1Spec.v ===== *)
(** * The decoder reads the format

    The operations of the decoder on contexts refine the functions on byte
    strings, whatever allocations fail, and never read outside the memory.
    Encodings are read back. *)

From S2P Require Import Prelude.
From S2P Require Import Limbs.
From S2P Require Import Asn1.

#[local] Set Warnings "-clear-no-such-hyp".

Section Refinement.
Context (mem : bytes) (Hmem : bytes_ok mem).

Definition view (c : asn1_context) : bytes := take (Z.to_nat (a_length c)) (drop (Z.to_nat (a_p c)) mem).

Definition ctx_ok (c : asn1_context) : Prop :=
  0 <= a_p c /\ 0 <= a_length c /\ a_p c + a_length c <= Z.of_nat (length mem).

Lemma view_length c : ctx_ok c -> Z.of_nat (length (view c)) = a_length c.
Proof. intros (H1 & H2 & H3). unfold view. rewrite length_take, length_drop. lia. Qed.

Lemma view_bytes c : bytes_ok (view c).
Proof. unfold view. by apply Forall_take, Forall_drop. Qed.

(** [n] bytes into a context. *)
Lemma view_skip c n t : ctx_ok c -> 0 <= n <= a_length c ->
  ctx_ok (Asn1 (a_length c - n) (a_p c + n) t) /\ view (Asn1 (a_length c - n) (a_p c + n) t) = drop (Z.to_nat n) (view c).
Proof.
  intros (H1 & H2 & H3) Hn. split; [unfold ctx_ok; simpl; lia |]. unfold view. simpl.
  rewrite skipn_firstn_comm, drop_drop. f_equal; [lia | f_equal; lia].
Qed.

(** The first [n] bytes of a context. *)
Lemma view_prefix c n t : ctx_ok c -> 0 <= n <= a_length c ->
  ctx_ok (Asn1 n (a_p c) t) /\ view (Asn1 n (a_p c) t) = take (Z.to_nat n) (view c).
Proof.
  intros (H1 & H2 & H3) Hn. split; [unfold ctx_ok; simpl; lia |]. unfold view. simpl.
  rewrite take_take. f_equal. lia.
Qed.

Lemma view_cons c b l : ctx_ok c -> view c = b :: l ->
  0 < a_length c /\ rd_mem mem (a_p c) = Ret b /\ in_range 8 b.
Proof.
  intros Hc E. pose proof (view_length c Hc) as Hl. pose proof (view_bytes c) as Hb. rewrite E in Hl, Hb.
  destruct Hc as (H1 & H2 & H3). simpl in Hl. split_and!; [lia | | by inversion Hb].
  unfold rd_mem. zcase; [| lia..]. f_equal. unfold view in E.
  assert (Hd : exists r, drop (Z.to_nat (a_p c)) mem = b :: r).
  { destruct (drop (Z.to_nat (a_p c)) mem) as [|x r]; [by rewrite take_nil in E |].
    destruct (Z.to_nat (a_length c)); [done |]. injection E as -> _. by exists r. }
  destruct Hd as [r Hd]. unfold rd. rewrite nth_lookup. rewrite <- (Nat.add_0_r (Z.to_nat (a_p c))), <- lookup_drop, Hd. done.
Qed.

Lemma get_byte_nil c : ctx_ok c -> view c = [] -> get_byte mem c = Ret (-1, c) /\ peek_byte mem c = Ret (-1).
Proof.
  intros Hc E. pose proof (view_length c Hc) as Hl. rewrite E in Hl. simpl in Hl.
  unfold get_byte, peek_byte. destruct (Z.leb_spec (a_length c) 0); [done | lia].
Qed.

Lemma get_byte_cons c b l : ctx_ok c -> view c = b :: l -> exists c', get_byte mem c = Ret (b, c') /\
  ctx_ok c' /\ view c' = l /\ in_range 8 b /\ peek_byte mem c = Ret b.
Proof.
  intros Hc E. destruct (view_cons c b l Hc E) as (Hl & Hr & Hb).
  destruct (view_skip c 1 (a_app_type c) Hc ltac:(lia)) as [H1 H2]. rewrite E in H2.
  eexists. unfold get_byte, peek_byte. destruct (Z.leb_spec (a_length c) 0); [lia |]. rewrite Hr. by split_and!.
Qed.

Lemma be_decode_cons b l : be_decode (b :: l) = b * 256 ^ Z.of_nat (length l) + be_decode l.
Proof.
  change (b :: l) with ([b] ++ l). rewrite be_decode_app. change (be_decode [b]) with b.
  replace (2 ^ (8 * Z.of_nat (length l))) with (256 ^ Z.of_nat (length l)); [lia |].
  rewrite Z.pow_mul_r by lia. done.
Qed.

Lemma length_loop_spec n : forall acc c, ctx_ok c -> 0 <= acc -> acc * 256 ^ Z.of_nat n + 256 ^ Z.of_nat n <= 2 ^ 56 ->
  exists c', length_loop mem n acc c =
    Ret (if Z.of_nat (length (view c)) <? Z.of_nat n then None
         else Some (acc * 256 ^ Z.of_nat n + be_decode (take n (view c))), c') /\
    (Z.of_nat n <= Z.of_nat (length (view c)) -> ctx_ok c' /\ view c' = drop n (view c)).
Proof.
  induction n as [|n IH]; intros acc c Hc Ha Hb.
  { exists c. simpl. zcase; [lia |]. rewrite Z.mul_1_r. change (be_decode []) with 0. rewrite Z.add_0_r. by rewrite drop_0. }
  cbn [length_loop]. destruct (view c) as [|b l] eqn:E.
  { destruct (get_byte_nil c Hc E) as [-> _]. exists c. simpl. split; [done | lia]. }
  destruct (get_byte_cons c b l Hc E) as (c1 & -> & Hc1 & E1 & Hb1 & _). rewrite bind_ret.
  unfold in_range in Hb1. destruct (Z.eqb_spec b (-1)) as [|_]; [lia |].
  replace (Z.of_nat (S n)) with (Z.of_nat n + 1) in * by lia. rewrite Z.pow_add_r in Hb |- * by lia.
  assert (0 < 256 ^ Z.of_nat n) by (apply Z.pow_pos_nonneg; lia).
  assert (Hacc : 0 <= acc < 2 ^ 48) by nia.
  rewrite Z.shiftl_mul_pow2 by lia. rewrite (wrap_small 64 (acc * 2 ^ 8)) by (unfold in_range; lia).
  rewrite wrap_small by (unfold in_range; lia).
  destruct (IH (acc * 2 ^ 8 + b) c1 Hc1 ltac:(lia)) as (c' & -> & Hc').
  { change (2 ^ 8) with 256. change (256 ^ 1) with 256 in Hb. nia. }
  exists c'. rewrite E1 in Hc' |- *. cbn [length take drop]. split; [| intros; apply Hc'; lia].
  destruct (Z.ltb_spec (Z.of_nat (length l)) (Z.of_nat n)), (Z.ltb_spec (Z.of_nat (S (length l))) (Z.of_nat n + 1)); try lia; [done |].
  do 3 f_equal. rewrite be_decode_cons, length_take, Nat.min_l by lia. change (256 ^ 1) with 256. change (2 ^ 8) with 256. ring.
Qed.

Lemma decode_length_spec c : ctx_ok c -> exists o c', decode_length mem c = Ret (o, c') /\
  match d_len (view c) with
  | Some (n, l) => o = Some n /\ ctx_ok c' /\ view c' = l /\ 0 <= n
  | None => o = None
  end.
Proof.
  intros Hc. unfold decode_length, d_len. destruct (view c) as [|b l] eqn:E.
  { destruct (get_byte_nil c Hc E) as [-> _]. by exists None, c. }
  destruct (get_byte_cons c b l Hc E) as (c1 & -> & Hc1 & E1 & Hb & _). rewrite bind_ret. unfold in_range in Hb.
  destruct (Z.eqb_spec b (-1)) as [|_]; [lia |]. destruct (Z.land b 128 =? 0); [exists (Some b), c1; by split_and!; try lia |].
  change kMaskTag with (2 ^ 7 - 1). change 0x7F with (2 ^ 7 - 1). rewrite land_ones_mod by lia.
  pose proof (Z.mod_pos_bound b (2 ^ 7) ltac:(lia)).
  destruct (Z.leb_spec SIZEOF_SIZE_T (b mod 2 ^ 7)) as [|Hk]; [by exists None, c1 |]. unfold SIZEOF_SIZE_T in Hk.
  destruct (length_loop_spec (Z.to_nat (b mod 2 ^ 7)) 0 c1 Hc1 ltac:(lia)) as (c' & -> & Hc').
  { rewrite Z2Nat.id by lia. change (2 ^ 56) with (256 ^ 7). pose proof (Z.pow_le_mono_r 256 (b mod 2 ^ 7) 7 ltac:(lia) ltac:(lia)). lia. }
  rewrite E1 in Hc' |- *. rewrite Z2Nat.id in Hc' |- * by lia. eexists _, c'. split; [reflexivity |].
  destruct (Z.ltb_spec (Z.of_nat (length l)) (b mod 2 ^ 7)); [done |].
  destruct (Hc' ltac:(lia)) as [H1 H2]. rewrite Z.mul_0_l, Z.add_0_l. split_and!; try done.
  apply be_decode_range. rewrite <- E1. apply Forall_take, view_bytes.
Qed.

(** ** Steps on a context *)

(** A step that moves a context, or fails. *)
Definition steps (m : outcome (bool * asn1_context)) (spec : option bytes) : Prop :=
  exists ok c', m = Ret (ok, c') /\ if (ok : bool) then ctx_ok c' /\ spec = Some (view c') else spec = None.

(** A step that takes a new context out of one, unless an allocation fails. *)
Definition gets (m : scriptM (option asn1_context * asn1_context)) (spec : option bytes) : Prop := forall s,
  match m s with
  | Ret ((o, _), s') => (false ∈ s' -> false ∈ s) /\
      match o with Some c => ctx_ok c /\ spec = Some (view c) | None => spec = None \/ false ∈ s end
  | Fault f => f = NullDeref /\ false ∈ s
  | Diverge => False
  end.

(** A whole computation: its result is [spec] unless an allocation fails. *)
Definition meets {A} (m : scriptM (option A)) (spec : option A) : Prop := forall s,
  match m s with
  | Ret (x, s') => (false ∈ s' -> false ∈ s) /\ (x = spec \/ x = None /\ false ∈ s)
  | Fault f => f = NullDeref /\ false ∈ s
  | Diverge => False
  end.

Lemma meets_none {A} : meets (mret None : scriptM (option A)) None.
Proof. intros s. simpl. auto. Qed.

Lemma steps_bind {A} m spec (k : asn1_context -> scriptM (option A)) f : steps m spec ->
  (forall c, ctx_ok c -> meets (k c) (f (view c))) ->
  meets ('(ok, c) ← liftS m; when ok (k c)) (spec ≫= f).
Proof.
  intros (ok & c' & E & H) Hk s. unfold liftS, mbind at 1, scriptM_bind. rewrite E. simpl.
  destruct ok; simpl; [destruct H as [Hc ->]; by apply Hk | rewrite H; by apply meets_none].
Qed.

Lemma gets_bind {A} m spec (k : asn1_context -> scriptM (option A)) f : gets m spec ->
  (forall c, ctx_ok c -> meets (k c) (f (view c))) ->
  meets ('(o, _) ← m; when_ctx o k) (spec ≫= f).
Proof.
  intros Hm Hk s. specialize (Hm s). unfold mbind at 1, scriptM_bind.
  destruct (m s) as [[[o c1] s']| |]; [| done | done]. destruct Hm as [Hs Ho]. destruct o as [c|]; simpl.
  - destruct Ho as [Hc ->]. specialize (Hk c Hc s'). simpl. destruct (k c s') as [[x s'']| |]; [| | done].
    + destruct Hk as [H1 [H2 | [H2 H3]]]; split; auto.
    + destruct Hk as [H1 H2]. auto.
  - split; [done |]. destruct Ho as [-> | Ho]; [by left | by right].
Qed.

(** Skipping within a context *)
Lemma skip_bytes_spec c n : ctx_ok c -> 0 <= n ->
  steps (Ret (skip_bytes c n)) (if Z.of_nat (length (view c)) <? n then None else Some (drop (Z.to_nat n) (view c))).
Proof.
  intros Hc Hn. rewrite view_length by done. unfold skip_bytes. destruct (Z.ltb_spec (a_length c) n).
  - by exists false, c.
  - eexists true, _. split; [reflexivity |]. destruct (view_skip c n (a_app_type c) Hc ltac:(lia)) as [H1 ->]. done.
Qed.

Lemma next_spec c : ctx_ok c -> steps (asn1_sequence_next mem c) (d_next (view c)).
Proof.
  intros Hc. unfold asn1_sequence_next, d_next, d_elem. destruct (view c) as [|b l] eqn:E.
  { destruct (get_byte_nil c Hc E) as [-> _]. by exists false, c. }
  destruct (get_byte_cons c b l Hc E) as (c1 & -> & Hc1 & E1 & Hb & _). rewrite bind_ret. unfold in_range in Hb.
  destruct (Z.eqb_spec b (-1)) as [|_]; [lia |].
  destruct (decode_length_spec c1 Hc1) as (o & c2 & -> & Ho). rewrite bind_ret, <- E1.
  destruct (d_len (view c1)) as [[n l']|]; [| subst o; by exists false, c2].
  destruct Ho as (-> & Hc2 & E2 & Hn). simpl. rewrite <- E2. pose proof (skip_bytes_spec c2 n Hc2 Hn) as Hs.
  destruct (Z.of_nat (length (view c2)) <? n); exact Hs.
Qed.

Lemma nexts_spec n : forall c, ctx_ok c -> steps (nexts mem n c) (d_nexts n (view c)).
Proof.
  induction n as [|n IH]; intros c Hc; [by exists true, c |]. cbn [nexts d_nexts].
  destruct (next_spec c Hc) as (ok & c1 & -> & H). rewrite bind_ret. destruct ok.
  - destruct H as [Hc1 ->]. by apply IH.
  - rewrite H. by exists false, c1.
Qed.

Lemma liftS_bind {A B} (m : outcome A) (k : A -> scriptM B) s a : m = Ret a -> (liftS m ≫= k) s = k a s.
Proof. by intros ->. Qed.

Lemma liftS_Ret {A B} (a : A) (k : A -> scriptM B) s : (liftS (Ret a) ≫= k) s = k a s.
Proof. done. Qed.

(** An element's contents as a new context. *)
Lemma elem_spec (test : Z -> bool) (app : Z -> Z) c :
  ctx_ok c -> test (-1) = false ->
  gets ('(b, c) ← liftS (get_byte mem c);
        if negb (test b) then mret (None, c) else
        '(n, c) ← liftS (decode_length mem c);
        match n with
        | None => mret (None, c)
        | Some n =>
            if a_length c <? n then mret (None, c) else
            o ← asn1_context_new (a_p c) n;
            mret ((fun x => Asn1 (a_length x) (a_p x) (app b)) <$> o, c)
        end) (d_get test (view c)).
Proof.
  intros Hc Ht s. unfold d_get, d_elem. destruct (view c) as [|b l] eqn:E.
  { destruct (get_byte_nil c Hc E) as [Eb _]. rewrite (liftS_bind _ _ _ _ Eb). rewrite Ht. simpl. auto. }
  destruct (get_byte_cons c b l Hc E) as (c1 & Eb & Hc1 & E1 & Hb & _). rewrite (liftS_bind _ _ _ _ Eb). cbv beta iota.
  destruct (test b); [| simpl; auto]. change (negb true) with false. cbv iota.
  destruct (decode_length_spec c1 Hc1) as (o & c2 & El & Ho). rewrite (liftS_bind _ _ _ _ El), <- E1. cbv beta iota.
  destruct (d_len (view c1)) as [[n l']|]; [| subst o; simpl; auto].
  destruct Ho as (-> & Hc2 & <- & Hn). cbn [mbind option_bind]. rewrite view_length by done.
  destruct (Z.ltb_spec (a_length c2) n); [simpl; auto |].
  destruct (view_prefix c2 n (app b) Hc2 ltac:(lia)) as [H1 H2].
  unfold asn1_context_new, mbind, scriptM_bind, alloc, mret, scriptM_ret.
  destruct s as [|[] s]; simpl; rewrite ?H2; split; auto; set_solver.
Qed.

Lemma tagged_get_spec tag c : ctx_ok c -> tag <> 127 -> gets (tagged_get mem tag c) (d_get (is_tag tag) (view c)).
Proof.
  intros Hc Ht s. pose proof (elem_spec (is_tag tag) (fun _ => 0) c Hc) as H. unfold gets in H.
  specialize (H ltac:(unfold is_tag; change (Z.land (-1) kMaskTag) with 127; destruct (Z.eqb_spec 127 tag); [lia | done]) s).
  unfold tagged_get. unfold is_tag in H |- *. destruct (get_byte mem c) as [[b c1]| |] eqn:Eb; [| done | done].
  rewrite liftS_Ret in H |- *. cbv beta iota in H |- *.
  destruct (Z.land b kMaskTag =? tag); [| done]. change (negb true) with false in H |- *. cbv iota in H |- *.
  destruct (decode_length mem c1) as [[o c2]| |] eqn:El; [| done | done].
  rewrite liftS_Ret in H |- *. cbv beta iota in H |- *. destruct o as [n|]; [| done].
  destruct (a_length c2 <? n); [done |]. unfold asn1_context_new, mbind, scriptM_bind, alloc in *. by destruct s as [|[] s].
Qed.

Lemma constructed_get_spec c : ctx_ok c -> gets (asn1_constructed_get mem c) (d_get is_constructed (view c)).
Proof.
  intros Hc s.
  pose proof (elem_spec (fun b => negb (b =? -1) && is_constructed b) (fun b => Z.land b kMaskAppType) c Hc eq_refl s) as H.
  assert (Ed : d_get (fun b => negb (b =? -1) && is_constructed b) (view c) = d_get is_constructed (view c)).
  { unfold d_get, d_elem. pose proof (view_bytes c) as Hb. destruct (view c) as [|b l]; [done |]. inversion Hb; subst.
    unfold in_range in *. destruct (Z.eqb_spec b (-1)); [lia | done]. }
  rewrite Ed in H. clear Ed. unfold asn1_constructed_get. destruct (get_byte mem c) as [[b c1]| |] eqn:Eb; [| done | done].
  rewrite liftS_Ret in H |- *. cbv beta iota in H |- *. fold (is_constructed b).
  rewrite negb_andb, negb_involutive in H. destruct ((b =? -1) || negb (is_constructed b)); [done |].
  destruct (decode_length mem c1) as [[o c2]| |] eqn:El; [| done | done].
  rewrite liftS_Ret in H |- *. cbv beta iota in H |- *. destruct o as [n|]; [| done].
  destruct (a_length c2 <? n); [done |]. unfold asn1_context_new, mbind, scriptM_bind, alloc in *.
  destruct s as [|[] s]; [done | done |]. simpl. split; [done | set_solver].
Qed.

(** The loop over constructed elements. *)
Lemma skip_loop_spec fuel : forall c byte, ctx_ok c -> (length (view c) <= fuel)%nat -> peek_byte mem c = Ret byte ->
  steps (skip_all_loop mem fuel byte c) (d_skip fuel (view c)).
Proof.
  induction fuel as [|fuel IH]; intros c byte Hc Hf Hp; cbn [skip_all_loop].
  { destruct (view c) as [|b l] eqn:E; [| simpl in Hf; lia]. destruct (get_byte_nil c Hc E) as [_ Hp']. rewrite Hp in Hp'.
    injection Hp' as ->. by exists false, c. }
  destruct (view c) as [|b l] eqn:E.
  { destruct (get_byte_nil c Hc E) as [_ Hp']. rewrite Hp in Hp'. injection Hp' as ->. by exists false, c. }
  destruct (get_byte_cons c b l Hc E) as (_ & _ & _ & _ & Hb & Hp'). rewrite Hp in Hp'. injection Hp' as ->.
  unfold in_range in Hb. destruct (Z.eqb_spec b (-1)) as [|_]; [lia |]. simpl negb. simpl andb.
  cbn [d_skip]. unfold is_constructed. destruct (Z.land b kMaskConstructed =? kTagConstructed).
  2: { exists true, c. by rewrite E. }
  destruct (skip_bytes_spec c 1 Hc ltac:(lia)) as (ok & c1 & E1 & H1). injection E1 as E1. rewrite E1. rewrite E in H1.
  simpl length in H1. destruct (Z.ltb_spec (Z.of_nat (S (length l))) 1); [lia |].
  destruct ok; [| done]. destruct H1 as [Hc1 Ev]. injection Ev as Ev. change (l = view c1) in Ev.
  destruct (decode_length_spec c1 Hc1) as (o & c2 & -> & Ho). rewrite bind_ret. unfold d_next, d_elem.
  rewrite Ev. destruct (d_len (view c1)) as [[n l']|] eqn:Ed; [| subst o; by exists false, c2].
  destruct Ho as (-> & Hc2 & E2 & Hn). simpl. rewrite <- E2. rewrite <- E2 in Ed.
  destruct (skip_bytes_spec c2 n Hc2 Hn) as (ok & c3 & E3 & H3). injection E3 as E3. rewrite E3.
  destruct ok; [| destruct (Z.of_nat (length (view c2)) <? n); [by exists false, c3 | done]].
  destruct (Z.of_nat (length (view c2)) <? n); [by destruct H3 |]. destruct H3 as [Hc3 Ev3]. injection Ev3 as Ev3. simpl.
  rewrite Ev3. assert (Hl : (length (view c3) <= fuel)%nat).
  { rewrite <- Ev3, length_drop. assert (length (view c2) <= length (view c1))%nat; [| rewrite <- Ev in *; simpl in *; lia].
    clear -Ed. unfold d_len in Ed. destruct (view c1) as [|b0 l0]; [done |].
    repeat (case_match; try done); injection Ed as _ <-; rewrite ?length_drop; simpl; lia. }
  destruct (view c3) as [|b3 l3] eqn:E4.
  - destruct (get_byte_nil c3 Hc3 E4) as [_ Hp3]. rewrite Hp3, bind_ret, <- E4. apply IH; [done | by rewrite E4 | done].
  - destruct (get_byte_cons c3 b3 l3 Hc3 E4) as (_ & _ & _ & _ & _ & Hp3). rewrite Hp3, bind_ret, <- E4.
    apply IH; [done | by rewrite E4 | done].
Qed.

Lemma skip_all_spec c : ctx_ok c -> steps (asn1_constructed_skip_all mem c) (d_skip (length (view c)) (view c)).
Proof.
  intros Hc. unfold asn1_constructed_skip_all. pose proof (view_length c Hc) as Hl.
  replace (Z.to_nat (a_length c)) with (length (view c)) by lia.
  assert (Hp : exists byte, peek_byte mem c = Ret byte).
  { destruct (view c) as [|b l] eqn:E; [destruct (get_byte_nil c Hc E) as [_ ->]; eauto |].
    destruct (get_byte_cons c b l Hc E) as (_ & _ & _ & _ & _ & ->). eauto. }
  destruct Hp as [byte Hp]. rewrite Hp, bind_ret. by apply skip_loop_spec.
Qed.

Lemma copy_out_spec c n : ctx_ok c -> 0 <= n <= a_length c ->
  copy_out mem (a_p c) n = Ret (take (Z.to_nat n) (view c)).
Proof.
  intros (H1 & H2 & H3) Hn. unfold copy_out, view. zcase; [| lia..]. f_equal. rewrite take_take. f_equal. lia.
Qed.

(** The end of [read_pkcs7]: the octet string and its copy. *)
Lemma octet_string_spec c : ctx_ok c ->
  meets ('(str, _) ← liftS (asn1_octet_string_get mem c);
         match str with
         | None => mret None
         | Some (sig_der_ptr, sig_der_length) =>
             ok ← alloc;
             when ok (sig ← liftS (copy_out mem sig_der_ptr sig_der_length); mret (Some sig))
         end)
    (sig ← d_get (Z.eqb kTagOctetString) (view c); if bool_decide (sig = []) then None else Some sig).
Proof.
  intros Hc s. unfold asn1_octet_string_get, string_get, d_get, d_elem. destruct (view c) as [|b l] eqn:E.
  { destruct (get_byte_nil c Hc E) as [-> _]. simpl. auto. }
  destruct (get_byte_cons c b l Hc E) as (c1 & -> & Hc1 & E1 & Hb & _). rewrite bind_ret, Z.eqb_sym.
  destruct (kTagOctetString =? b); [| simpl; auto]. change (negb true) with false. cbv iota.
  destruct (decode_length_spec c1 Hc1) as (o & c2 & -> & Ho). rewrite bind_ret, <- E1.
  destruct (d_len (view c1)) as [[n l']|]; [| subst o; simpl; auto].
  destruct Ho as (-> & Hc2 & <- & Hn). cbn [mbind option_bind]. pose proof (view_length c2 Hc2) as Hl. rewrite Hl.
  destruct (Z.ltb_spec (a_length c2) n); [rewrite orb_true_r; simpl; auto |]. rewrite orb_false_r.
  cbn [fmap option_fmap option_map fst]. destruct (Z.eqb_spec n 0) as [-> | Hnz]; [simpl; auto |].
  rewrite liftS_Ret. pose proof (copy_out_spec c2 n Hc2 ltac:(lia)) as Ec.
  assert (Hne : bool_decide (take (Z.to_nat n) (view c2) = []) = false).
  { apply bool_decide_eq_false. intros Hz. apply (f_equal length) in Hz. rewrite length_take in Hz. simpl in Hz. lia. }
  cbn [mbind option_bind]. rewrite Hne. unfold mbind at 1, scriptM_bind, alloc.
  destruct s as [|[] s]; cbn [when]; rewrite ?(liftS_bind _ _ _ _ Ec); simpl; split; auto; set_solver.
Qed.

Lemma new_bind {A} p n (k : asn1_context -> scriptM (option A)) f :
  0 <= p -> 0 <= n -> p + n <= Z.of_nat (length mem) ->
  (forall c, ctx_ok c -> meets (k c) (f (view c))) ->
  meets (o ← asn1_context_new p n; when_ctx o k) (f (take (Z.to_nat n) (drop (Z.to_nat p) mem))).
Proof.
  intros Hp Hn Hl Hk s. set (c0 := Asn1 n p 0). specialize (Hk c0 ltac:(unfold ctx_ok; simpl; lia)).
  unfold asn1_context_new, mbind, scriptM_bind, alloc, mret, scriptM_ret.
  destruct s as [|[] s]; simpl; [exact (Hk []) | | split; [set_solver | right; split; [done | set_solver]]].
  specialize (Hk s). fold c0. destruct (k c0 s) as [[x s']| |]; [| | done].
  - destruct Hk as [H1 H2]. split; [set_solver |]. destruct H2 as [-> | [-> H2]]; [by left | right; set_solver].
  - destruct Hk as [-> H]. split; [done | set_solver].
Qed.

Lemma read_pkcs7_spec p n : 0 <= p -> 0 <= n -> p + n <= Z.of_nat (length mem) ->
  meets (read_pkcs7 mem p n) (pkcs7_signature (take (Z.to_nat n) (drop (Z.to_nat p) mem))).
Proof.
  intros Hp Hn Hl. unfold read_pkcs7. apply (new_bind p n _ pkcs7_signature Hp Hn Hl). intros c Hc. unfold pkcs7_signature.
  apply gets_bind; [by apply tagged_get_spec |]. clear c Hc. intros c Hc.
  apply steps_bind; [by apply next_spec |]. clear c Hc. intros c Hc.
  apply gets_bind; [by apply constructed_get_spec |]. clear c Hc. intros c Hc.
  apply gets_bind; [by apply tagged_get_spec |]. clear c Hc. intros c Hc.
  apply steps_bind; [by apply nexts_spec |]. clear c Hc. intros c Hc.
  apply steps_bind; [by apply skip_all_spec |]. clear c Hc. intros c Hc.
  apply gets_bind; [by apply tagged_get_spec |]. clear c Hc. intros c Hc.
  apply gets_bind; [by apply tagged_get_spec |]. clear c Hc. intros c Hc.
  apply steps_bind; [by apply nexts_spec |]. clear c Hc. intros c Hc.
  by apply octet_string_spec.
Qed.

End Refinement.

(** ** Encodings *)
Definition der_len (n : Z) : bytes :=
  if n <? 128 then [n] else let k := Z.log2 n / 8 + 1 in (128 + k) :: be_encode (Z.to_nat k) n.

Definition der (tag : Z) (c : bytes) : bytes := tag :: der_len (Z.of_nat (length c)) ++ c.

(** A tag and contents. *)
Abbreviation element := (Z * bytes)%type.
Definition enc (e : element) : bytes := der e.1 e.2.
Definition encs (l : list element) : bytes := concat (map enc l).

Lemma land_high b k : 0 <= k < 128 -> b = 128 + k -> Z.land b 0x80 = 128 /\ Z.land b 0x7F = k.
Proof.
  intros Hk ->. split.
  - apply Z.bits_inj'. intros i Hi. rewrite Z.land_spec. change 0x80 with (2 ^ 7). rewrite Z.pow2_bits_eqb by lia.
    destruct (Z.eqb_spec 7 i) as [<- |]; [| by rewrite andb_false_r]. rewrite andb_true_r.
    rewrite Z.testbit_true by lia. change (2 ^ 7) with 128. replace (128 + k) with (k + 1 * 128) by lia.
    rewrite Z.div_add, Z.div_small by lia. done.
  - change 0x7F with (2 ^ 7 - 1). rewrite land_ones_mod by lia. change (2 ^ 7) with 128.
    replace (128 + k) with (k + 1 * 128) by lia. rewrite Z.mod_add, Z.mod_small by lia. done.
Qed.

Lemma log2_bytes n : 128 <= n < 2 ^ 56 -> 1 <= Z.log2 n / 8 + 1 <= 7 /\ n < 2 ^ (8 * (Z.log2 n / 8 + 1)).
Proof.
  intros Hn. pose proof (Z.log2_spec n ltac:(lia)) as [Hl1 Hl2].
  assert (Z.log2 n < 56) by (apply Z.log2_lt_pow2; lia). pose proof (Z.log2_nonneg n).
  split; [dmlia |]. eapply Z.lt_le_trans; [exact Hl2 |]. apply Z.pow_le_mono_r; [lia |]. dmlia.
Qed.

Lemma d_len_der n l : 0 <= n < 2 ^ 56 -> d_len (der_len n ++ l) = Some (n, l).
Proof.
  intros Hn. unfold der_len. destruct (Z.ltb_spec n 128); simpl.
  - replace (Z.land n 128) with 0; [done |]. symmetry. apply Z.bits_inj'. intros i Hi.
    rewrite Z.land_spec, Z.bits_0. change 128 with (2 ^ 7). rewrite Z.pow2_bits_eqb by lia.
    destruct (Z.eqb_spec 7 i) as [<- |]; [| by rewrite andb_false_r].
    rewrite andb_true_r. apply (in_range_testbit 7 n 7); unfold in_range; change (2 ^ 7) with 128; lia.
  - destruct (log2_bytes n ltac:(lia)) as [Hk Hlt]. set (k := Z.log2 n / 8 + 1) in *.
    destruct (land_high (128 + k) k ltac:(lia) eq_refl) as [-> ->]. change (128 =? 0) with false. cbv iota.
    unfold SIZEOF_SIZE_T. destruct (Z.leb_spec 8 k); [lia |]. rewrite length_app, be_encode_length.
    destruct (Z.ltb_spec (Z.of_nat (Z.to_nat k + length l)) k); [lia |].
    rewrite take_app_le, drop_app_le by (rewrite be_encode_length; lia).
    rewrite take_ge, drop_ge by (rewrite be_encode_length; lia). do 2 f_equal.
    unfold be_encode. rewrite be_decode_rev, rev_involutive. apply le_roundtrip. rewrite Z2Nat.id by lia.
    unfold in_range. lia.
Qed.

Definition short (c : bytes) : Prop := Z.of_nat (length c) < 2 ^ 56.

Lemma d_elem_der test tag c l : test tag = true -> short c -> d_elem test (der tag c ++ l) = Some (c, l).
Proof.
  intros Ht Hs. unfold der, d_elem. simpl. rewrite Ht, <- app_assoc, d_len_der by (unfold short in Hs; lia). simpl.
  rewrite length_app. destruct (Z.ltb_spec (Z.of_nat (length c + length l)) (Z.of_nat (length c))); [lia |].
  by rewrite Nat2Z.id, take_app_length, drop_app_length.
Qed.

Lemma d_get_der test tag c l : test tag = true -> short c -> d_get test (der tag c ++ l) = Some c.
Proof. intros. unfold d_get. by rewrite d_elem_der. Qed.

Lemma d_next_enc e l : short e.2 -> d_next (enc e ++ l) = Some l.
Proof. intros. unfold d_next, enc. by rewrite d_elem_der. Qed.

Lemma d_nexts_encs es l n : length es = n -> Forall (fun e => short e.2) es -> d_nexts n (encs es ++ l) = Some l.
Proof.
  intros <-. induction 1 as [|e es He Hes IH]; [done |]. cbn [d_nexts length encs map concat]. rewrite <- app_assoc, d_next_enc by done. exact IH.
Qed.

Lemma d_skip_enc fuel e l : is_constructed e.1 = true -> d_skip (S fuel) (enc e ++ l) = d_next (enc e ++ l) ≫= d_skip fuel.
Proof. intros H. unfold enc, der. cbn [app d_skip]. by rewrite H. Qed.

Lemma d_skip_encs es tag c l fuel : Forall (fun e => short e.2 /\ is_constructed e.1 = true) es ->
  is_constructed tag = false -> (length es <= fuel)%nat ->
  d_skip fuel (encs es ++ der tag c ++ l) = Some (der tag c ++ l).
Proof.
  intros Hes Ht. revert fuel. induction Hes as [|e es [He1 He2] Hes IH]; intros fuel Hf.
  - destruct fuel; unfold der; simpl; by rewrite Ht.
  - destruct fuel as [|fuel]; [simpl in Hf; lia |]. cbn [encs map concat]. rewrite <- app_assoc.
    fold (encs es). rewrite d_skip_enc, d_next_enc by done. cbn [mbind option_bind]. apply IH. simpl in Hf. lia.
Qed.

(** The structure of RFC 3852 around a signature [sig]: the content type; the
    version, the digest algorithms and the encapsulated content; the optional
    certificates and revocations; one signer with four fields before the
    signature; whatever follows the signature, the signer and the signers. *)
Definition pkcs7 (oid : element) (head opts fields : list element) (sig rest1 rest2 rest3 : bytes) : bytes :=
  der 0x30 (enc oid ++ der 0xA0 (der 0x30 (encs head ++ encs opts ++
    der 0x31 (der 0x30 (encs fields ++ der 0x04 sig ++ rest1) ++ rest2) ++ rest3))).

Lemma encs_length es : (length es <= length (encs es))%nat.
Proof.
  induction es as [|e es IH]; [done |]. cbn [encs map concat length]. fold (encs es). rewrite length_app.
  unfold enc, der. simpl. lia.
Qed.

Lemma short_app l1 l2 : short (l1 ++ l2) -> short l1 /\ short l2.
Proof. unfold short. rewrite length_app. lia. Qed.

Lemma short_der tag c : short (der tag c) -> short c.
Proof. unfold short, der. simpl. rewrite length_app. lia. Qed.

Lemma short_encs es : short (encs es) -> Forall (fun e => short e.2) es.
Proof.
  induction es as [|e es IH]; [constructor |]. cbn [encs map concat]. intros H. apply short_app in H as [H1 H2].
  constructor; [by apply (short_der e.1) | by apply IH].
Qed.

Lemma pkcs7_roundtrip oid head opts fields sig rest1 rest2 rest3 :
  length head = 3%nat -> length fields = 4%nat -> Forall (fun e => is_constructed e.1 = true) opts -> sig <> [] ->
  short (pkcs7 oid head opts fields sig rest1 rest2 rest3) ->
  pkcs7_signature (pkcs7 oid head opts fields sig rest1 rest2 rest3) = Some sig.
Proof.
  intros Hh Hf Ho Hs Hsh. unfold pkcs7 in *. apply short_der in Hsh as H1. pose proof (short_app _ _ H1) as [H2 H3].
  pose proof (short_der _ _ H2) as Hoid. apply short_der in H3 as H4. apply short_der in H4 as H5.
  pose proof (short_app _ _ H5) as [Hhead H6]. pose proof (short_app _ _ H6) as [Hopts H7]. pose proof (short_app _ _ H7) as [H8 _].
  apply short_der in H8 as H9. pose proof (short_app _ _ H9) as [H10 _]. apply short_der in H10 as H11.
  pose proof (short_app _ _ H11) as [Hfields H12]. pose proof (short_app _ _ H12) as [H13 _]. apply short_der in H13 as Hsig.
  unfold pkcs7_signature. rewrite <- (app_nil_r (der 48 (enc oid ++ _))), d_get_der by done. cbn [mbind option_bind].
  rewrite d_next_enc by done. cbn [mbind option_bind].
  rewrite <- (app_nil_r (der 160 _)), d_get_der by done. cbn [mbind option_bind].
  rewrite <- (app_nil_r (der 48 (encs head ++ _))), d_get_der by done. cbn [mbind option_bind].
  rewrite d_nexts_encs by (done || by apply short_encs). cbn [mbind option_bind].
  rewrite d_skip_encs; [| apply short_encs in Hopts; rewrite Forall_forall in Hopts, Ho |- *; auto | done |].
  2: { rewrite length_app. pose proof (encs_length opts). lia. }
  cbn [mbind option_bind]. rewrite d_get_der by done. cbn [mbind option_bind].
  rewrite d_get_der by done. cbn [mbind option_bind].
  rewrite d_nexts_encs by (done || by apply short_encs). cbn [mbind option_bind].
  rewrite d_get_der by done. cbn [mbind option_bind]. by rewrite bool_decide_false.
Qed.

(** ** Properties *)

(** C20. [read_pkcs7] on any bytes in bounds, whatever allocations fail, stays
    within the buffer and terminates. Its result is the SignatureValue that the
    format prescribes, or false when there is none. When an allocation fails it
    returns false, or dereferences the null context. *)
Theorem read_pkcs7_correct mem p n s : bytes_ok mem -> 0 <= p -> 0 <= n -> p + n <= Z.of_nat (length mem) ->
  let spec := pkcs7_signature (take (Z.to_nat n) (drop (Z.to_nat p) mem)) in
  match read_pkcs7 mem p n s with
  | Ret (x, _) => x = spec \/ x = None /\ false ∈ s
  | Fault f => f = NullDeref /\ false ∈ s
  | Diverge => False
  end.
Proof.
  intros Hm Hp Hn Hl. cbv zeta. pose proof (read_pkcs7_spec mem Hm p n Hp Hn Hl s) as H.
  destruct (read_pkcs7 mem p n s) as [[x s']| |]; [| done | done]. by destruct H.
Qed.

Lemma read_pkcs7_correct_witness :
  match read_pkcs7 [0x30; 0x81; 1; 6] 0 4 [true; false] with
  | Ret (x, _) => x = pkcs7_signature [0x30; 0x81; 1; 6] \/ x = None /\ false ∈ [true; false]
  | Fault f => f = NullDeref /\ false ∈ [true; false]
  | Diverge => False
  end.
Proof.
  apply (read_pkcs7_correct [0x30; 0x81; 1; 6] 0 4 [true; false]); [repeat constructor; unfold in_range; lia | lia | lia |].
  simpl. lia.
Defined.

(** The round trip: the signature put into a PKCS#7 SignedData structure,
    with any certificates and revocations, is what [read_pkcs7] returns. *)
Theorem read_pkcs7_roundtrip pre post oid head opts fields sig rest1 rest2 rest3 :
  let d := pkcs7 oid head opts fields sig rest1 rest2 rest3 in
  length head = 3%nat -> length fields = 4%nat -> Forall (fun e => is_constructed e.1 = true) opts -> sig <> [] ->
  short d -> bytes_ok (pre ++ d ++ post) ->
  exists s, read_pkcs7 (pre ++ d ++ post) (Z.of_nat (length pre)) (Z.of_nat (length d)) [] = Ret (Some sig, s).
Proof.
  intros d Hh Hf Ho Hs Hsh Hb.
  assert (Hl : Z.of_nat (length pre) + Z.of_nat (length d) <= Z.of_nat (length (pre ++ d ++ post))) by (rewrite !length_app; lia).
  pose proof (read_pkcs7_spec _ Hb (Z.of_nat (length pre)) (Z.of_nat (length d)) ltac:(lia) ltac:(lia) Hl []) as H.
  rewrite !Nat2Z.id, drop_app_length, take_app_length in H.
  pose proof (pkcs7_roundtrip oid head opts fields sig rest1 rest2 rest3 Hh Hf Ho Hs Hsh) as Er. fold d in Er. rewrite Er in H.
  destruct (read_pkcs7 _ _ _ _) as [[x s']| |]; [| set_solver | done].
  destruct H as [_ [-> | [_ H]]]; [by exists s' | set_solver].
Qed.

Lemma read_pkcs7_roundtrip_witness : exists s,
  let d := pkcs7 (6, [42]) [(2, [1]); (49, []); (48, [])] [(160, [9; 9])] [(2, [1]); (48, []); (48, []); (48, [])]
    [0xde; 0xad] [] [] [] in
  read_pkcs7 ([7] ++ d ++ [8]) 1 (Z.of_nat (length d)) [] = Ret (Some [0xde; 0xad], s).
Proof.
  apply (read_pkcs7_roundtrip [7] [8] (6, [42]) [(2, [1]); (49, []); (48, [])] [(160, [9; 9])]
    [(2, [1]); (48, []); (48, []); (48, [])] [0xde; 0xad] [] [] []); try done.
  - repeat constructor.
  - vm_compute. repeat constructor; congruence.
Defined.
