(* ===== verification/Verifier.v ===== *)
(** * Verification of update packages

    Models [verify_file] of src/bootable/recovery/verifier.cpp. The package is
    the list of its bytes; every access to it is checked. Log messages and the
    progress bar are not modelled. Parameters: the uninitialised locals of the
    callees, the allocation script of the PKCS#7 reader, and the fuel of
    [p256_modinv_vartime]. *)

From S2P Require Import Prelude.
From S2P Require Import Limbs.
From S2P Require Import Sha.
From S2P Require Import Rsa.
From S2P Require Import P256.
From S2P Require Import P256Ec.
From S2P Require Import DsaSig.
From S2P Require Import Asn1.

Record ECPublicKey := mk_ECPublicKey { ec_x : p256_int; ec_y : p256_int }.

Inductive KeyType := RSA | EC.

(** The pointers may be null. *)
Record Certificate := mk_Certificate {
  hash_len : Z;
  key_type : KeyType;
  rsa : option RSAPublicKey;
  ec : option ECPublicKey
}.

Definition VERIFY_SUCCESS : Z := 0.
Definition VERIFY_FAILURE : Z := 1.
Definition FOOTER_SIZE : Z := 6.
Definition EOCD_HEADER_SIZE : Z := 22.
Definition BUFFER_SIZE : Z := 4096.

(** Do the bytes at [p] start with the given ones? Stops at the first difference. *)
Fixpoint starts_with (mem : bytes) (p : Z) (l : bytes) : outcome bool :=
  match l with
  | [] => Ret true
  | x :: l' =>
      b ← rd_mem mem p;
      if b =? x then starts_with mem (p + 1) l' else Ret false
  end.

Definition eocd_magic : bytes := [0x50; 0x4b; 0x05; 0x06].

(** [for (i = 4; i < eocd_size-3; ++i)]: does the marker occur again? *)
Fixpoint marker_loop (n : nat) (mem : bytes) (p : Z) : outcome bool :=
  match n with
  | O => Ret false
  | S n' =>
      found ← starts_with mem p eocd_magic;
      if (found : bool) then Ret true else marker_loop n' mem (p + 1)
  end.

(** [while (so_far < signed_len)], one buffer at a time *)
Fixpoint hash_loop (n : nat) (need_sha1 need_sha256 : bool) (data : bytes) (sha1 sha256 : HASH_CTX)
    : outcome (HASH_CTX * HASH_CTX) :=
  match data with
  | [] => Ret (sha1, sha256)
  | _ =>
      match n with
      | O => Diverge
      | S n' =>
          let chunk := take (Z.to_nat BUFFER_SIZE) data in
          let sha1 := if need_sha1 then SHA_update sha1 chunk else sha1 in
          let sha256 := if need_sha256 then SHA256_update sha256 chunk else sha256 in
          hash_loop n' need_sha1 need_sha256 (drop (Z.to_nat BUFFER_SIZE) data) sha1 sha256
      end
  end.

(** The values of uninitialised locals. *)
Record garbage := mk_garbage {
  g_sha1 : HASH_CTX;
  g_sha256 : HASH_CTX;
  g_rsa : list Z;
  g_rsa_ctx : HASH_CTX;
  g_p256 : p256_int
}.

Section Verify.
Context (g : garbage) (fuel : nat).

(** One turn of the loop over the keys: does this key verify the signature? *)
Definition try_key (sha1 sha256 sig_der : bytes) (key : Certificate) : outcome bool :=
  let sig_der_length := Z.of_nat (length sig_der) in
  let go (hash : bytes) :=
    match key_type key with
    | RSA =>
        if sig_der_length <? RSANUMBYTES then Ret false else
        match rsa key with
        | None => Fault NullDeref
        | Some k =>
            ok ← RSA_verify (g_rsa g) (g_rsa_ctx g) k (take (Z.to_nat RSANUMBYTES) sig_der) RSANUMBYTES
                   hash (hash_len key);
            Ret (negb (ok =? 0))
        end
    | EC =>
        if hash_len key =? SHA256_DIGEST_SIZE then
          '(ok, r, s) ← dsa_sig_unpack sig_der sig_der_length (g_p256 g) (g_p256 g);
          if ok =? 0 then Ret false else
          let p256_hash := p256_from_bin hash (g_p256 g) in
          match ec key with
          | None => Fault NullDeref
          | Some k =>
              ok ← p256_ecdsa_verify fuel (ec_x k) (ec_y k) p256_hash r s;
              Ret (negb (ok =? 0))
          end
        else Ret false
    end in
  if hash_len key =? SHA_DIGEST_SIZE then go sha1
  else if hash_len key =? SHA256_DIGEST_SIZE then go sha256
  else Ret false.

Fixpoint try_keys (sha1 sha256 sig_der : bytes) (keys : list Certificate) : outcome Z :=
  match keys with
  | [] => Ret VERIFY_FAILURE
  | key :: keys' =>
      ok ← try_key sha1 sha256 sig_der key;
      if (ok : bool) then Ret VERIFY_SUCCESS else try_keys sha1 sha256 sig_der keys'
  end.

Definition needs (len : Z) (keys : list Certificate) : bool := existsb (fun k => hash_len k =? len) keys.

(** The signed part: hashed in buffers. *)
Definition hash_signed (data : bytes) (keys : list Certificate) : outcome (bytes * bytes) :=
  '(c1, c2) ← hash_loop (length data) (needs SHA_DIGEST_SIZE keys) (needs SHA256_DIGEST_SIZE keys) data
                (SHA_init (g_sha1 g)) (SHA256_init (g_sha256 g));
  c1 ← SHA_final c1;
  c2 ← SHA256_final c2;
  Ret (take (Z.to_nat SHA_DIGEST_SIZE) (ctx_buf c1), take (Z.to_nat SHA256_DIGEST_SIZE) (ctx_buf c2)).

Definition verify_file (addr : bytes) (pKeys : list Certificate) (script : list bool) : outcome Z :=
  let length := Z.of_nat (length addr) in
  if length <? FOOTER_SIZE then Ret VERIFY_FAILURE else
  let footer := length - FOOTER_SIZE in
  f2 ← rd_mem addr (footer + 2);
  f3 ← (if negb (f2 =? 0xff) then Ret f2 else rd_mem addr (footer + 3));
  if negb (f2 =? 0xff) || negb (f3 =? 0xff) then Ret VERIFY_FAILURE else
  f4 ← rd_mem addr (footer + 4);
  f5 ← rd_mem addr (footer + 5);
  let comment_size := f4 + Z.shiftl f5 8 in
  f0 ← rd_mem addr footer;
  f1 ← rd_mem addr (footer + 1);
  let signature_start := f0 + Z.shiftl f1 8 in
  if signature_start <=? FOOTER_SIZE then Ret VERIFY_FAILURE else
  let eocd_size := comment_size + EOCD_HEADER_SIZE in
  if length <? eocd_size then Ret VERIFY_FAILURE else
  let signed_len := length - eocd_size + EOCD_HEADER_SIZE - 2 in
  let eocd := length - eocd_size in
  magic ← starts_with addr eocd eocd_magic;
  if negb (magic : bool) then Ret VERIFY_FAILURE else
  again ← marker_loop (Z.to_nat (eocd_size - 3 - 4)) addr (eocd + 4);
  if (again : bool) then Ret VERIFY_FAILURE else
  '(sha1, sha256) ← hash_signed (take (Z.to_nat signed_len) addr) pKeys;
  let signature_size := signature_start - FOOTER_SIZE in
  '(sig_der, _) ← read_pkcs7 addr (eocd + eocd_size - signature_start) signature_size script;
  match sig_der with
  | None => Ret VERIFY_FAILURE
  | Some sig_der => try_keys sha1 sha256 sig_der pKeys
  end.

End Verify.
