(* ===== verification/VerifierSpec.v ===== *)
(** * What verify_file accepts

    The layout of a signed package on byte strings, and the proofs that
    [verify_file] decides it for RSA keys, that nothing is accepted without a
    signature that opens to the digest of the signed part, and where the code
    reads outside the package. *)

From S2P Require Import Prelude.
From S2P Require Import Limbs.
From S2P Require Import Cong.
From S2P Require Import Sha.
From S2P Require Import ShaSpec.
From S2P Require Import Rsa.
From S2P Require Import RsaSpec.
From S2P Require Import P256.
From S2P Require Import P256Ec.
From S2P Require Import DsaSig.
From S2P Require Import Asn1.
From S2P Require Import Asn1Spec.
From S2P Require Import Verifier.

#[local] Set Warnings "-clear-no-such-hyp".

(** ** The layout of a package *)
Section Layout.
Context (addr : bytes).
Abbreviation L := (Z.of_nat (length addr)).

(** Byte [i] of the footer. *)
Definition foot (i : Z) : Z := rd addr (L - FOOTER_SIZE + i).

Definition comment_len : Z := foot 4 + 256 * foot 5.
Definition sig_start : Z := foot 0 + 256 * foot 1.

Definition marker_at (i : Z) : bool := bool_decide (take 4 (drop (Z.to_nat i) addr) = eocd_magic).

Definition eocd_start : Z := L - comment_len - EOCD_HEADER_SIZE.

(** The footer is there, the comment fits, the directory record starts with its
    marker and the marker does not occur again. *)
Definition well_placed : bool :=
  (FOOTER_SIZE <=? L) && (foot 2 =? 255) && (foot 3 =? 255) && (FOOTER_SIZE <? sig_start)
  && (comment_len + EOCD_HEADER_SIZE <=? L) && marker_at eocd_start
  && negb (existsb (fun i => marker_at (eocd_start + 4 + Z.of_nat i)) (seq 0 (Z.to_nat (comment_len + 15)))).

(** Everything before the comment length. *)
Definition signed_part : bytes := take (Z.to_nat (L - comment_len - 2)) addr.

(** The signature block in the comment. *)
Definition sig_block : bytes := take (Z.to_nat (sig_start - FOOTER_SIZE)) (drop (Z.to_nat (L - sig_start)) addr).

End Layout.

(** A key's verdict on a signature. *)
Definition rsa_accepts (k : RSAPublicKey) (hl : Z) (data sig : bytes) : bool :=
  (256 <=? Z.of_nat (length sig)) &&
  bool_decide (digest_of hl (xor_tail (opened k (take 256 sig)) (digest_of hl data)) =
    digest_of hl (prefix_of hl ++ replicate (Z.to_nat hl) 0)).

Definition key_accepts (data sig : bytes) (c : Certificate) : bool :=
  match key_type c, rsa c with
  | RSA, Some k => ((hash_len c =? 20) || (hash_len c =? 32)) && rsa_accepts k (hash_len c) data sig
  | _, _ => false
  end.

Definition package_valid (addr : bytes) (keys : list Certificate) : bool :=
  well_placed addr &&
  match pkcs7_signature (sig_block addr) with
  | Some sig => existsb (key_accepts (signed_part addr) sig) keys
  | None => false
  end.

(** ** Scanning *)
Lemma drop_rd mem p : 0 <= p < Z.of_nat (length mem) ->
  drop (Z.to_nat p) mem = rd mem p :: drop (Z.to_nat (p + 1)) mem.
Proof.
  intros H. destruct (lookup_lt_is_Some_2 mem (Z.to_nat p) ltac:(lia)) as [x Hx].
  rewrite (drop_S _ _ _ Hx), (rd_lookup _ _ _ Hx). by replace (Z.to_nat (p + 1)) with (S (Z.to_nat p)) by lia.
Qed.

Lemma starts_with_spec mem l : forall p, 0 <= p -> p + Z.of_nat (length l) <= Z.of_nat (length mem) ->
  starts_with mem p l = Ret (bool_decide (take (length l) (drop (Z.to_nat p) mem) = l)).
Proof.
  induction l as [|x l IH]; intros p Hp Hl; [done |]. cbn [starts_with length take] in *.
  rewrite rd_mem_ok, bind_ret, drop_rd by lia. cbn [take].
  destruct (Z.eqb_spec (rd mem p) x) as [-> | Hne].
  - rewrite IH by lia. f_equal. apply bool_decide_ext. split; [by intros -> | by intros [= ->]].
  - f_equal. symmetry. apply bool_decide_false. congruence.
Qed.

Lemma existsb_seq_S (f : nat -> bool) n : forall k, existsb f (seq (S k) n) = existsb (fun i => f (S i)) (seq k n).
Proof. induction n as [|n IH]; intros k; [done |]. cbn [seq existsb]. by rewrite IH. Qed.

Lemma existsb_ext (f g : nat -> bool) l : (forall i, f i = g i) -> existsb f l = existsb g l.
Proof. intros H. induction l as [|i l IH]; [done |]. cbn [existsb]. by rewrite H, IH. Qed.

Lemma marker_loop_spec mem : forall n p, 0 <= p -> p + Z.of_nat n + 3 <= Z.of_nat (length mem) ->
  marker_loop n mem p = Ret (existsb (fun i => marker_at mem (p + Z.of_nat i)) (seq 0 n)).
Proof.
  induction n as [|n IH]; intros p Hp Hl; [done |]. cbn [marker_loop seq existsb].
  rewrite starts_with_spec by (simpl; lia). rewrite bind_ret. unfold marker_at at 1. rewrite Z.add_0_r. simpl length.
  destruct (bool_decide _); [done |]. rewrite IH by lia. f_equal. rewrite existsb_seq_S.
  apply existsb_ext. intros i. f_equal. lia.
Qed.

(** ** Hashing *)
Definition garbage_ok (g : garbage) : Prop :=
  ctx_shape (g_sha1 g) /\ ctx_shape (g_sha256 g) /\ ctx_shape (g_rsa_ctx g) /\
  words_ok (g_rsa g) /\ length (g_rsa g) = 64%nat.

Lemma hash_loop_spec n1 n2 : forall n data c1 c2, (length data <= n)%nat -> bytes_ok data ->
  exists parts, concat parts = data /\ Forall bytes_ok parts /\
    hash_loop n n1 n2 data c1 c2 =
    Ret (if n1 then SHA_updates c1 parts else c1, if n2 then SHA256_updates c2 parts else c2).
Proof.
  induction n as [|n IH]; intros data c1 c2 Hn Hd.
  { destruct data; [| simpl in Hn; lia]. exists []. split_and!; [done | constructor |]. by destruct n1, n2. }
  destruct data as [|b data]; [exists []; split_and!; [done | constructor |]; by destruct n1, n2 |].
  cbn [hash_loop]. set (chunk := take (Z.to_nat BUFFER_SIZE) (b :: data)).
  destruct (IH (drop (Z.to_nat BUFFER_SIZE) (b :: data)) (if n1 then SHA_update c1 chunk else c1)
    (if n2 then SHA256_update c2 chunk else c2)) as (parts & E1 & E2 & ->).
  - rewrite length_drop. change (Z.to_nat BUFFER_SIZE) with 4096%nat. simpl length in *. lia.
  - by apply Forall_drop.
  - exists (chunk :: parts). split_and!; [cbn [concat]; rewrite E1; apply take_drop | constructor; [by apply Forall_take | done] |].
    by destruct n1, n2.
Qed.

Lemma hash_signed_spec g data keys : garbage_ok g -> bytes_ok data ->
  exists d1 d2, hash_signed g data keys = Ret (d1, d2) /\
    (needs SHA_DIGEST_SIZE keys = true -> d1 = sha1 data) /\ (needs SHA256_DIGEST_SIZE keys = true -> d2 = sha256 data).
Proof.
  intros (G1 & G2 & _) Hd. unfold hash_signed.
  destruct (hash_loop_spec (needs SHA_DIGEST_SIZE keys) (needs SHA256_DIGEST_SIZE keys) (length data) data
    (SHA_init (g_sha1 g)) (SHA256_init (g_sha256 g)) ltac:(lia) Hd) as (parts & Ep & Hp & ->). rewrite bind_ret.
  assert (H1 : sha1_streamed (if needs SHA_DIGEST_SIZE keys then data else [])
    (if needs SHA_DIGEST_SIZE keys then SHA_updates (SHA_init (g_sha1 g)) parts else SHA_init (g_sha1 g))).
  { pose proof (SHA_init_streamed _ G1) as H. destruct (needs SHA_DIGEST_SIZE keys); [| done].
    rewrite <- Ep. by apply (SHA_updates_streamed parts []). }
  assert (H2 : sha256_streamed (if needs SHA256_DIGEST_SIZE keys then data else [])
    (if needs SHA256_DIGEST_SIZE keys then SHA256_updates (SHA256_init (g_sha256 g)) parts else SHA256_init (g_sha256 g))).
  { pose proof (SHA256_init_streamed _ G2) as H. destruct (needs SHA256_DIGEST_SIZE keys); [| done].
    rewrite <- Ep. by apply (SHA256_updates_streamed parts []). }
  destruct (SHA_final_streamed _ _ H1) as (c1 & -> & E1). destruct (SHA256_final_streamed _ _ H2) as (c2 & -> & E2).
  eexists _, _. split; [reflexivity |].
  change (Z.to_nat SHA_DIGEST_SIZE) with 20%nat. change (Z.to_nat SHA256_DIGEST_SIZE) with 32%nat. rewrite E1, E2.
  split; by intros ->.
Qed.

(** ** verify_file on the layout *)
Section File.
Context (g : garbage) (fuel : nat) (addr : bytes) (keys : list Certificate) (script : list bool).
Context (Hb : bytes_ok addr).
Abbreviation L := (Z.of_nat (length addr)).

Lemma foot_range i : 0 <= i < 6 -> FOOTER_SIZE <= L -> 0 <= foot addr i < 256.
Proof.
  intros Hi HL. unfold foot, FOOTER_SIZE in *.
  destruct (lookup_lt_is_Some_2 addr (Z.to_nat (L - 6 + i)) ltac:(lia)) as [x Hx].
  rewrite (rd_lookup _ _ _ Hx). unfold bytes_ok in Hb. rewrite Forall_lookup in Hb. exact (Hb _ _ Hx).
Qed.

(** What is left when the layout is right. *)
Definition verify_rest : outcome Z :=
  '(sha1, sha256) ← hash_signed g (signed_part addr) keys;
  '(sig_der, _) ← read_pkcs7 addr (L - sig_start addr) (sig_start addr - FOOTER_SIZE) script;
  match sig_der with
  | None => Ret VERIFY_FAILURE
  | Some sig_der => try_keys g fuel sha1 sha256 sig_der keys
  end.

Lemma verify_layout : verify_file g fuel addr keys script =
  if well_placed addr then verify_rest else Ret VERIFY_FAILURE.
Proof.
  unfold verify_file, well_placed. destruct (Z.ltb_spec L FOOTER_SIZE) as [|HL].
  { destruct (Z.leb_spec FOOTER_SIZE L); [lia | done]. }
  destruct (Z.leb_spec FOOTER_SIZE L) as [_|]; [| lia]. pose proof HL as HL'. unfold FOOTER_SIZE in HL'.
  pose proof (foot_range 0 ltac:(lia) HL). pose proof (foot_range 1 ltac:(lia) HL).
  pose proof (foot_range 4 ltac:(lia) HL). pose proof (foot_range 5 ltac:(lia) HL).
  rewrite !rd_mem_ok by (unfold FOOTER_SIZE; lia). rewrite !bind_ret. fold (foot addr 2) (foot addr 3) (foot addr 4) (foot addr 5) (foot addr 1).
  replace (rd addr (L - FOOTER_SIZE)) with (foot addr 0) by (unfold foot; f_equal; lia). cbn [andb].
  destruct (Z.eqb_spec (foot addr 2) 255); cbn [negb orb andb]; [| by rewrite bind_ret]. rewrite bind_ret.
  destruct (Z.eqb_spec (foot addr 3) 255); cbn [negb andb]; [| done]. rewrite ?bind_ret, !Z.shiftl_mul_pow2 by lia.
  replace (foot addr 0 + foot addr 1 * 2 ^ 8) with (sig_start addr) by (unfold sig_start; lia).
  replace (foot addr 4 + foot addr 5 * 2 ^ 8) with (comment_len addr) by (unfold comment_len; lia).
  destruct (Z.leb_spec (sig_start addr) FOOTER_SIZE), (Z.ltb_spec FOOTER_SIZE (sig_start addr)); try lia; [done |]. cbn [andb].
  assert (Hc : 0 <= comment_len addr) by (unfold comment_len; lia).
  destruct (Z.ltb_spec L (comment_len addr + EOCD_HEADER_SIZE)), (Z.leb_spec (comment_len addr + EOCD_HEADER_SIZE) L); try lia; [done |].
  cbn [andb]. replace (L - (comment_len addr + EOCD_HEADER_SIZE)) with (eocd_start addr) by (unfold eocd_start; lia).
  unfold EOCD_HEADER_SIZE in *.
  assert (He : 0 <= eocd_start addr) by (unfold eocd_start, EOCD_HEADER_SIZE; lia).
  rewrite starts_with_spec by (unfold eocd_start, EOCD_HEADER_SIZE in *; simpl; lia). rewrite bind_ret. change (length eocd_magic) with 4%nat.
  fold (marker_at addr (eocd_start addr)). destruct (marker_at addr (eocd_start addr)); cbn [negb andb]; [| done].
  rewrite marker_loop_spec by (unfold eocd_start, EOCD_HEADER_SIZE in *; lia). rewrite bind_ret.
  replace (Z.to_nat (comment_len addr + 22 - 3 - 4)) with (Z.to_nat (comment_len addr + 15)) by lia.
  destruct (existsb _ _); cbn [negb]; [done |]. unfold verify_rest, signed_part.
  replace (L - comment_len addr - 2) with (eocd_start addr + 22 - 2) by (unfold eocd_start, EOCD_HEADER_SIZE; lia).
  replace (eocd_start addr + (comment_len addr + 22) - sig_start addr) with (L - sig_start addr)
    by (unfold eocd_start, EOCD_HEADER_SIZE; lia). done.
Qed.

End File.

(** A block that starts before the package is read all the same. *)
Lemma read_pkcs7_before mem p n script : p < 0 -> 0 < n ->
  read_pkcs7 mem p n script = match script with false :: s => Ret (None, s) | _ => Fault OutOfBounds end.
Proof.
  intros Hp Hn. unfold read_pkcs7, asn1_context_new, asn1_sequence_get, tagged_get, get_byte, rd_mem.
  assert (H1 : (n <=? 0) = false) by (apply Z.leb_gt; lia). assert (H2 : (0 <=? p) = false) by (apply Z.leb_gt; lia).
  destruct script as [|[] s]; unfold mbind, scriptM_bind, alloc, mret, scriptM_ret, liftS; simpl; by rewrite ?H1, ?H2.
Qed.

(** ** RSA keys *)
Definition rsa_key_ok (k : RSAPublicKey) : Prop :=
  key_ok k /\ key_len k = RSANUMWORDS /\ 2 ^ 2047 <= dval (key_n k) /\ (key_exponent k = 3 \/ key_exponent k = 65537).

Definition cert_ok (c : Certificate) : Prop :=
  key_type c = RSA -> exists k, rsa c = Some k /\ rsa_key_ok k.

Lemma digest_facts hl data : bytes_ok data -> hl = SHA_DIGEST_SIZE \/ hl = SHA256_DIGEST_SIZE ->
  length (digest_of hl data) = Z.to_nat hl /\ bytes_ok (digest_of hl data).
Proof.
  intros Hd [-> | ->]; unfold digest_of.
  - change (SHA_DIGEST_SIZE =? SHA_DIGEST_SIZE) with true. split; [apply sha1_length | apply sha1_ok].
  - change (SHA256_DIGEST_SIZE =? SHA_DIGEST_SIZE) with false. split; [apply sha256_length | apply sha256_ok].
Qed.

Lemma try_rsa g fuel c k data sig : garbage_ok g -> rsa_key_ok k -> bytes_ok data -> bytes_ok sig ->
  key_type c = RSA -> rsa c = Some k -> forall d1 d2,
  (hash_len c = SHA_DIGEST_SIZE -> d1 = sha1 data) -> (hash_len c = SHA256_DIGEST_SIZE -> d2 = sha256 data) ->
  try_key g fuel d1 d2 sig c = Ret (key_accepts data sig c).
Proof.
  intros (_ & _ & G3 & G4 & G5) (K1 & K2 & K3 & K4) Hd Hs Ht Hk d1 d2 H1 H2.
  assert (Hgo : hash_len c = SHA_DIGEST_SIZE \/ hash_len c = SHA256_DIGEST_SIZE ->
    (if Z.of_nat (length sig) <? RSANUMBYTES then Ret false else
     ok ← RSA_verify (g_rsa g) (g_rsa_ctx g) k (take (Z.to_nat RSANUMBYTES) sig) RSANUMBYTES (digest_of (hash_len c) data) (hash_len c);
     Ret (negb (ok =? 0))) = Ret (rsa_accepts k (hash_len c) data sig)).
  { intros Hhl. unfold rsa_accepts. change RSANUMBYTES with 256.
    destruct (Z.ltb_spec (Z.of_nat (length sig)) 256), (Z.leb_spec 256 (Z.of_nat (length sig))); try lia; [done |].
    destruct (digest_facts (hash_len c) data Hd Hhl) as [D1 D2].
    change 256 with RSANUMBYTES at 2. rewrite RSA_verify_run.
    - rewrite bind_ret. change (Z.to_nat 256) with 256%nat. by destruct (bool_decide _).
    - split; try done; [by apply Forall_take | rewrite length_take; lia]. }
  unfold try_key, key_accepts. rewrite Ht, Hk.
  destruct (Z.eqb_spec (hash_len c) SHA_DIGEST_SIZE) as [E1 |].
  - rewrite (H1 E1). specialize (Hgo (or_introl E1)). unfold digest_of in Hgo at 1. rewrite E1 in Hgo |- *. exact Hgo.
  - destruct (Z.eqb_spec (hash_len c) SHA256_DIGEST_SIZE) as [E2 |].
    + rewrite (H2 E2). specialize (Hgo (or_intror E2)). unfold digest_of in Hgo at 1. rewrite E2 in Hgo |- *. exact Hgo.
    + unfold SHA_DIGEST_SIZE, SHA256_DIGEST_SIZE in *. destruct (Z.eqb_spec (hash_len c) 20), (Z.eqb_spec (hash_len c) 32); try lia. done.
Qed.

Lemma needs_in c keys : c ∈ keys -> forall len, hash_len c = len -> needs len keys = true.
Proof. intros Hc len E. unfold needs. apply existsb_exists. exists c. split; [by apply list_elem_of_In | by apply Z.eqb_eq]. Qed.

Lemma try_keys_rsa g fuel data sig keys0 d1 d2 : garbage_ok g -> bytes_ok data -> bytes_ok sig ->
  (needs SHA_DIGEST_SIZE keys0 = true -> d1 = sha1 data) -> (needs SHA256_DIGEST_SIZE keys0 = true -> d2 = sha256 data) ->
  forall keys, keys ⊆ keys0 -> Forall (fun c => key_type c = RSA /\ cert_ok c) keys ->
  try_keys g fuel d1 d2 sig keys = Ret (if existsb (key_accepts data sig) keys then VERIFY_SUCCESS else VERIFY_FAILURE).
Proof.
  intros Hg Hd Hs H1 H2. induction keys as [|c keys IH]; intros Hsub Hk; [done |]. apply Forall_cons in Hk as [[Hc Hok] Hk].
  destruct (Hok Hc) as (k & Ek & Hkk). cbn [try_keys existsb].
  assert (Hin : c ∈ keys0) by (apply Hsub; left).
  rewrite (try_rsa g fuel c k data sig Hg Hkk Hd Hs Hc Ek d1 d2).
  - rewrite bind_ret. destruct (key_accepts data sig c); [done |]. apply IH; [| done]. intros x Hx. apply Hsub. by right.
  - intros E. apply H1. by apply (needs_in c).
  - intros E. apply H2. by apply (needs_in c).
Qed.

Lemma signed_part_ok addr : bytes_ok addr -> bytes_ok (signed_part addr).
Proof. intros. by apply Forall_take. Qed.

Lemma sig_block_ok addr : bytes_ok addr -> bytes_ok (sig_block addr).
Proof. intros. by apply Forall_take, Forall_drop. Qed.

Lemma d_elem_bytes test l c r : d_elem test l = Some (c, r) -> bytes_ok l -> bytes_ok c /\ bytes_ok r.
Proof.
  unfold d_elem. intros E Hl. destruct l as [|b l]; [done |]. destruct (test b); [| done].
  destruct (d_len l) as [[n l']|] eqn:El; [| done]. simpl in E. destruct (_ <? _); [done |]. injection E as <- <-.
  assert (bytes_ok l'); [| split; [by apply Forall_take | by apply Forall_drop]].
  unfold d_len in El. apply Forall_cons in Hl as [_ Hl]. destruct l as [|x l]; [done |].
  apply Forall_cons in Hl as [_ Hl]. repeat (case_match; try done); simplify_eq; by try apply Forall_drop.
Qed.

Lemma d_get_bytes test l c : d_get test l = Some c -> bytes_ok l -> bytes_ok c.
Proof.
  unfold d_get. destruct (d_elem test l) as [[c' r]|] eqn:E; [| done]. intros [= <-] Hl. by apply (d_elem_bytes _ _ _ _ E).
Qed.

Lemma d_next_bytes l c : d_next l = Some c -> bytes_ok l -> bytes_ok c.
Proof.
  unfold d_next. destruct (d_elem _ l) as [[c' r]|] eqn:E; [| done]. intros [= <-] Hl. by apply (d_elem_bytes _ _ _ _ E).
Qed.

Lemma d_nexts_bytes n : forall l c, d_nexts n l = Some c -> bytes_ok l -> bytes_ok c.
Proof.
  induction n as [|n IH]; intros l c E Hl; cbn [d_nexts] in E; [by injection E as <- |].
  destruct (d_next l) as [l'|] eqn:E1; [| done]. apply (IH l' c E). by apply (d_next_bytes l).
Qed.

Lemma d_skip_bytes n : forall l c, d_skip n l = Some c -> bytes_ok l -> bytes_ok c.
Proof.
  induction n as [|n IH]; intros l c E Hl; cbn [d_skip] in E; destruct l as [|b l]; try done;
    destruct (is_constructed b); try done; try (by injection E as <-).
  destruct (d_next (b :: l)) as [l'|] eqn:E1; [| done]. apply (IH l' c E). by apply (d_next_bytes (b :: l)).
Qed.

Lemma pkcs7_signature_bytes der sig : pkcs7_signature der = Some sig -> bytes_ok der -> bytes_ok sig.
Proof.
  unfold pkcs7_signature. intros E H.
  repeat match type of E with
  | (?m ≫= _) = Some _ => let Em := fresh "Em" in destruct m eqn:Em; [cbn [mbind option_bind] in E | done]
  end.
  case_bool_decide; [done |]. injection E as <-.
  repeat match goal with
  | Em : d_get _ _ = Some ?x |- bytes_ok ?x => apply (d_get_bytes _ _ _ Em)
  | Em : d_next _ = Some ?x |- bytes_ok ?x => apply (d_next_bytes _ _ Em)
  | Em : d_nexts _ _ = Some ?x |- bytes_ok ?x => apply (d_nexts_bytes _ _ _ Em)
  | Em : d_skip _ _ = Some ?x |- bytes_ok ?x => apply (d_skip_bytes _ _ _ Em)
  end. done.
Qed.

(** ** The whole function for RSA keys *)
Lemma verify_file_rsa g fuel addr keys script : garbage_ok g -> bytes_ok addr ->
  Forall (fun c => key_type c = RSA /\ cert_ok c) keys -> false ∉ script -> sig_start addr <= Z.of_nat (length addr) ->
  verify_file g fuel addr keys script = Ret (if package_valid addr keys then VERIFY_SUCCESS else VERIFY_FAILURE).
Proof.
  intros Hg Hb Hk Hsc Hs. rewrite verify_layout by done. unfold package_valid. destruct (well_placed addr) eqn:Ew; [| done].
  assert (Hss : FOOTER_SIZE < sig_start addr) by (unfold well_placed in Ew; zbool; done). unfold FOOTER_SIZE in Hss.
  unfold verify_rest. destruct (hash_signed_spec g (signed_part addr) keys Hg (signed_part_ok addr Hb)) as (d1 & d2 & -> & H1 & H2).
  rewrite bind_ret. pose proof (read_pkcs7_spec addr Hb (Z.of_nat (length addr) - sig_start addr) (sig_start addr - FOOTER_SIZE)
    ltac:(lia) ltac:(unfold FOOTER_SIZE; lia) ltac:(unfold FOOTER_SIZE; lia) script) as Hr. fold (sig_block addr) in Hr.
  destruct (read_pkcs7 _ _ _ _) as [[x s']| |]; [| tauto | done]. destruct Hr as [_ [-> | [_ Hr]]]; [| done]. rewrite bind_ret.
  destruct (pkcs7_signature (sig_block addr)) as [sig|] eqn:Ep; [| done]. cbn [andb].
  apply (try_keys_rsa g fuel (signed_part addr) sig keys); try done; [by apply signed_part_ok |].
  apply (pkcs7_signature_bytes _ _ Ep). by apply sig_block_ok.
Qed.

(** Why a key accepted. *)
Definition accepted (g : garbage) (fuel : nat) (data sig : bytes) (c : Certificate) : Prop :=
  (hash_len c = SHA_DIGEST_SIZE \/ hash_len c = SHA256_DIGEST_SIZE) /\
  match key_type c with
  | RSA => exists k, rsa c = Some k /\ (256 <= length sig)%nat /\
      (opened k (take 256 sig) = prefix_of (hash_len c) ++ digest_of (hash_len c) data \/
       pad_collision (hash_len c) (xor_tail (opened k (take 256 sig)) (digest_of (hash_len c) data)))
  | EC => exists k r s v, ec c = Some k /\ hash_len c = SHA256_DIGEST_SIZE /\ v <> 0 /\
      dsa_sig_unpack sig (Z.of_nat (length sig)) (g_p256 g) (g_p256 g) = Ret (v, r, s) /\
      exists w, p256_ecdsa_verify fuel (ec_x k) (ec_y k) (p256_from_bin (sha256 data) (g_p256 g)) r s = Ret w /\ w <> 0
  end.

Lemma try_key_sound g fuel c data sig d1 d2 : garbage_ok g -> cert_ok c -> bytes_ok data -> bytes_ok sig ->
  (hash_len c = SHA_DIGEST_SIZE -> d1 = sha1 data) -> (hash_len c = SHA256_DIGEST_SIZE -> d2 = sha256 data) ->
  try_key g fuel d1 d2 sig c = Ret true -> accepted g fuel data sig c.
Proof.
  intros Hg Hc Hd Hs H1 H2 E. unfold accepted. destruct (key_type c) eqn:Et.
  - destruct (Hc Et) as (k & Ek & Hk). rewrite (try_rsa g fuel c k data sig Hg Hk Hd Hs Et Ek d1 d2 H1 H2) in E.
    injection E as E. unfold key_accepts in E. rewrite Et, Ek in E. apply andb_true_iff in E as [E1 E2].
    assert (Hhl : hash_len c = SHA_DIGEST_SIZE \/ hash_len c = SHA256_DIGEST_SIZE).
    { apply orb_true_iff in E1 as [E1 | E1]; apply Z.eqb_eq in E1; auto. }
    split; [done |]. exists k. split; [done |]. unfold rsa_accepts in E2. apply andb_true_iff in E2 as [E2 E3].
    apply Z.leb_le in E2. split; [lia |]. apply bool_decide_eq_true in E3.
    destruct (digest_facts _ data Hd Hhl). apply pad_digest_sound; done.
  - unfold try_key in E. rewrite Et in E. destruct (Z.eqb_spec (hash_len c) SHA_DIGEST_SIZE) as [E1 |].
    { rewrite E1 in E. done. }
    destruct (Z.eqb_spec (hash_len c) SHA256_DIGEST_SIZE) as [E2 |]; [| done]. split; [by right |].
    apply bind_Ret_inv in E as ([[v r] s] & Eu & E). destruct (Z.eqb_spec v 0); [done |].
    destruct (ec c) as [k|]; [| done]. apply bind_Ret_inv in E as (w & Ew & E). injection E as E.
    rewrite (H2 E2) in Ew. exists k, r, s, v. split_and!; try done. exists w. split; [done |].
    by destruct (Z.eqb_spec w 0).
Qed.

Lemma try_keys_sound g fuel data sig keys0 d1 d2 : garbage_ok g -> bytes_ok data -> bytes_ok sig ->
  (needs SHA_DIGEST_SIZE keys0 = true -> d1 = sha1 data) -> (needs SHA256_DIGEST_SIZE keys0 = true -> d2 = sha256 data) ->
  forall keys, keys ⊆ keys0 -> Forall cert_ok keys ->
  try_keys g fuel d1 d2 sig keys = Ret VERIFY_SUCCESS -> exists c, c ∈ keys /\ accepted g fuel data sig c.
Proof.
  intros Hg Hd Hs H1 H2. induction keys as [|c keys IH]; intros Hsub Hk E; [done |]. apply Forall_cons in Hk as [Hc Hk].
  cbn [try_keys] in E. apply bind_Ret_inv in E as (ok & Eo & E). assert (Hin : c ∈ keys0) by (apply Hsub; left).
  destruct ok.
  - exists c. split; [left |]. apply (try_key_sound g fuel c data sig d1 d2); try done;
      intros El; [apply H1 | apply H2]; by apply (needs_in c).
  - destruct IH as (c' & Hc' & Ha); [intros x Hx; apply Hsub; by right | done | done |]. exists c'. split; [by right | done].
Qed.

(** ** Packages as the signing tool writes them

    [zip] is the archive up to the comment length; the comment is a message,
    the signature block and the footer. *)
Section Signed.
Context (zip msg block : bytes).

Definition le16 (x : Z) : bytes := [x mod 256; x / 256].
Definition comment_size : Z := Z.of_nat (length msg + length block + 6).
Definition sig_size : Z := Z.of_nat (length block + 6).
Definition package : bytes :=
  zip ++ le16 comment_size ++ msg ++ block ++ le16 sig_size ++ [255; 255] ++ le16 comment_size.

Lemma package_length : length package = (length zip + 2 + length msg + length block + 6)%nat.
Proof. unfold package, le16. rewrite !length_app. simpl. lia. Qed.

Lemma package_foot i x : 0 <= i -> (le16 sig_size ++ [255; 255] ++ le16 comment_size) !! Z.to_nat i = Some x ->
  foot package i = x.
Proof.
  intros Hi Hx. unfold foot, FOOTER_SIZE. apply rd_lookup. rewrite package_length. unfold package.
  rewrite !app_assoc, <- (app_assoc _ _ (le16 comment_size)), <- (app_assoc _ (le16 sig_size)).
  rewrite lookup_app_r; rewrite !length_app; unfold le16 at 1; cbn [length]; [| lia]. rewrite <- Hx. f_equal. lia.
Qed.

Lemma package_sizes : comment_len package = comment_size /\ sig_start package = sig_size /\
  foot package 2 = 255 /\ foot package 3 = 255.
Proof.
  unfold comment_len, sig_start.
  rewrite (package_foot 0 _ ltac:(lia) eq_refl), (package_foot 1 _ ltac:(lia) eq_refl), (package_foot 2 _ ltac:(lia) eq_refl),
    (package_foot 3 _ ltac:(lia) eq_refl), (package_foot 4 _ ltac:(lia) eq_refl), (package_foot 5 _ ltac:(lia) eq_refl).
  pose proof (Z.div_mod comment_size 256 ltac:(lia)). pose proof (Z.div_mod sig_size 256 ltac:(lia)). lia.
Qed.

Lemma package_signed_part : signed_part package = zip.
Proof.
  unfold signed_part. rewrite (proj1 package_sizes), package_length. unfold comment_size.
  replace (Z.to_nat _) with (length zip) by lia. unfold package. apply take_app_length.
Qed.

Lemma package_sig_block : sig_block package = block.
Proof.
  unfold sig_block. rewrite (proj1 (proj2 package_sizes)), package_length. unfold sig_size, FOOTER_SIZE.
  replace (Z.to_nat (Z.of_nat (length block + 6) - 6)) with (length block) by lia.
  replace (Z.to_nat _) with (length (zip ++ le16 comment_size ++ msg)) by (rewrite !length_app; simpl; lia).
  assert (package = (zip ++ le16 comment_size ++ msg) ++ block ++ le16 sig_size ++ [255; 255] ++ le16 comment_size) as ->
    by (unfold package; by rewrite <- !app_assoc).
  rewrite drop_app_length. apply take_app_length.
Qed.

(** [zip] ends with a directory record whose marker does not occur again. *)
Definition zip_ok : Prop :=
  (20 <= length zip)%nat /\ take 4 (drop (length zip - 20) zip) = eocd_magic /\
  forall i, (length zip - 16 <= i)%nat -> take 4 (drop i package) <> eocd_magic.

Lemma package_well_placed : zip_ok -> block <> [] -> well_placed package = true.
Proof.
  intros (Hz & Hm & Hno) Hb. unfold well_placed, eocd_start. destruct package_sizes as (-> & -> & -> & ->).
  rewrite package_length. unfold comment_size, sig_size, FOOTER_SIZE, EOCD_HEADER_SIZE.
  assert (0 < length block)%nat by (destruct block; [done | simpl; lia]).
  rewrite !andb_true_iff, negb_true_iff. split_and!; try (apply Z.leb_le; lia); try (apply Z.ltb_lt; lia); try reflexivity.
  - unfold marker_at. apply bool_decide_true. rewrite <- Hm. replace (Z.to_nat _) with (length zip - 20)%nat by lia.
    unfold package. rewrite drop_app_le by lia. apply take_app_le. rewrite length_drop. lia.
  - apply not_true_iff_false. intros E. apply existsb_exists in E as (i & _ & E). unfold marker_at in E.
    apply bool_decide_eq_true in E. apply (Hno _) in E; [done | lia].
Qed.
End Signed.

Lemma rsa_accepts_signed k hl data sig : hl = SHA_DIGEST_SIZE \/ hl = SHA256_DIGEST_SIZE -> bytes_ok data ->
  length sig = 256%nat -> opened k sig = prefix_of hl ++ digest_of hl data -> rsa_accepts k hl data sig = true.
Proof.
  intros Hhl Hd Hs Ho. unfold rsa_accepts. apply andb_true_iff. split; [apply Z.leb_le; lia |].
  apply bool_decide_true. rewrite take_ge by lia. destruct (digest_facts hl data Hd Hhl) as [Hl Hb].
  f_equal. rewrite <- Hl. apply xor_tail_zero; [by rewrite Ho, length_app | done].
Qed.

Lemma package_sig_start zip msg block : sig_start (package zip msg block) <= Z.of_nat (length (package zip msg block)).
Proof. rewrite (proj1 (proj2 (package_sizes zip msg block))), package_length. unfold sig_size. lia. Qed.

Lemma package_valid_signed zip msg block keys sig c k : bytes_ok zip -> zip_ok zip msg block ->
  pkcs7_signature block = Some sig -> c ∈ keys -> key_type c = RSA -> rsa c = Some k ->
  hash_len c = SHA_DIGEST_SIZE \/ hash_len c = SHA256_DIGEST_SIZE ->
  length sig = 256%nat -> opened k sig = prefix_of (hash_len c) ++ digest_of (hash_len c) zip ->
  package_valid (package zip msg block) keys = true.
Proof.
  intros Hb Hz Ep Hc Et Ek Hhl Hs Hop. unfold package_valid.
  rewrite package_sig_block, package_signed_part, package_well_placed, Ep; [| done | by intros ->]. cbn [andb].
  apply existsb_exists. exists c. split; [by apply list_elem_of_In |]. unfold key_accepts. rewrite Et, Ek.
  rewrite rsa_accepts_signed by done. by destruct Hhl as [-> | ->].
Qed.

(** ** A package signed with a concrete key *)
Definition vx_zip : bytes := eocd_magic ++ replicate 16 0.
Definition vx_modulus : Z := Eval vm_compute in ex_s ^ 3 - be_decode (sha_prefix ++ sha1 vx_zip).
Definition vx_key : RSAPublicKey := Eval vm_compute in
  mk_RSAPublicKey 64 658150059 (to_words 64 vx_modulus) (to_words 64 ((2 ^ 2048) ^ 2 mod vx_modulus)) 3.
Definition vx_cert : Certificate := mk_Certificate SHA_DIGEST_SIZE RSA (Some vx_key) None.
Definition vx_oid : element := (6, [42]).
Definition vx_head : list element := [(2, [1]); (49, []); (48, [])].
Definition vx_fields : list element := [(2, [1]); (48, []); (48, []); (48, [])].
Definition vx_block : bytes := pkcs7 vx_oid vx_head [] vx_fields ex_sig [] [] [].
Definition vx_package : bytes := package vx_zip [115; 105; 103] vx_block.
Definition vx_garbage : garbage := Eval vm_compute in mk_garbage zero_ctx zero_ctx ex_junk zero_ctx (replicate 8 7).

Lemma vx_cert_ok : cert_ok vx_cert.
Proof.
  intros _. exists vx_key. split; [done |]. split_and!.
  - split; try reflexivity.
    + apply words_okb_sound. vm_compute. reflexivity.
    + apply words_okb_sound. vm_compute. reflexivity.
    + apply mod_eq_cong; [vm_compute; discriminate | vm_compute; reflexivity].
  - reflexivity.
  - apply Z.leb_le. vm_compute. reflexivity.
  - by left.
Qed.

Lemma vx_opened : opened vx_key ex_sig = prefix_of SHA_DIGEST_SIZE ++ digest_of SHA_DIGEST_SIZE vx_zip.
Proof. vm_compute. reflexivity. Qed.

Lemma vx_garbage_ok : garbage_ok vx_garbage.
Proof.
  repeat split; try apply zero_ctx_shape. apply words_okb_sound. reflexivity.
Qed.

Lemma vx_package_ok : bytes_ok vx_package.
Proof. apply bytes_okb_sound. vm_compute. reflexivity. Qed.

Lemma vx_zip_ok : zip_ok vx_zip [115; 105; 103] vx_block.
Proof.
  split; [simpl; lia |]. split; [reflexivity |]. intros i Hi E.
  assert (Hlt : (i < 400)%nat).
  { apply Nat.nle_gt. intros H. rewrite drop_ge in E; [done |]. rewrite package_length. vm_compute. vm_compute in H. lia. }
  assert (forallb (fun j => negb (bool_decide (take 4 (drop j vx_package) = eocd_magic))) (seq 4 396) = true) as Ha
    by (vm_compute; reflexivity).
  rewrite forallb_forall in Ha. specialize (Ha i). rewrite in_seq in Ha. simpl in Hi. specialize (Ha ltac:(lia)).
  apply negb_true_iff, bool_decide_eq_false in Ha. done.
Qed.

Lemma vx_valid : package_valid vx_package [vx_cert] = true.
Proof.
  apply (package_valid_signed vx_zip [115; 105; 103] vx_block [vx_cert] ex_sig vx_cert vx_key).
  - apply bytes_okb_sound. reflexivity.
  - apply vx_zip_ok.
  - vm_compute. reflexivity.
  - by left.
  - reflexivity.
  - reflexivity.
  - by left.
  - reflexivity.
  - apply vx_opened.
Qed.

Lemma vx_accepted : verify_file vx_garbage 0 vx_package [vx_cert] [] = Ret VERIFY_SUCCESS.
Proof.
  rewrite (verify_file_rsa vx_garbage 0 vx_package [vx_cert] [] vx_garbage_ok vx_package_ok), vx_valid; [done | | |].
  - apply Forall_singleton. split; [reflexivity | apply vx_cert_ok].
  - set_solver.
  - apply package_sig_start.
Qed.

(** Twenty-eight bytes whose footer puts the signature 7 bytes before them. *)
Definition vx_short : bytes := eocd_magic ++ replicate 16 0 ++ [6; 0; 35; 0; 255; 255; 6; 0].

(** ** Properties *)

(** C1. [verify_file] on a package whose signature block starts within it,
    with RSA keys and no allocation failure, terminates without reading outside
    the package and returns VERIFY_SUCCESS exactly when the package is laid out
    as the signing tool does and the SignatureValue in its comment opens, under
    one of the keys, to the padded digest of everything before the comment
    length. *)
Theorem verify_file_correct g fuel addr keys script : garbage_ok g -> bytes_ok addr ->
  Forall (fun c => key_type c = RSA /\ cert_ok c) keys -> false ∉ script -> sig_start addr <= Z.of_nat (length addr) ->
  verify_file g fuel addr keys script = Ret (if package_valid addr keys then VERIFY_SUCCESS else VERIFY_FAILURE).
Proof. apply verify_file_rsa. Qed.

Lemma verify_file_correct_witness :
  verify_file vx_garbage 0 vx_package [vx_cert] [true] =
  Ret (if package_valid vx_package [vx_cert] then VERIFY_SUCCESS else VERIFY_FAILURE).
Proof.
  apply (verify_file_correct vx_garbage 0 vx_package [vx_cert] [true] vx_garbage_ok vx_package_ok).
  - apply Forall_singleton. split; [reflexivity | apply vx_cert_ok].
  - set_solver.
  - vm_compute. discriminate.
Defined.

(** Completeness: a package made of an archive that ends in a directory
    record, and a comment with a PKCS#7 block whose SignatureValue opens under one of
    the keys to the PKCS#1 block of the archive's digest, is accepted. *)
Theorem verify_file_signed g fuel zip msg keys script oid head opts fields sig rest1 rest2 rest3 c k :
  let block := pkcs7 oid head opts fields sig rest1 rest2 rest3 in
  garbage_ok g -> bytes_ok (package zip msg block) -> Forall (fun c => key_type c = RSA /\ cert_ok c) keys -> false ∉ script ->
  zip_ok zip msg block -> length head = 3%nat -> length fields = 4%nat ->
  Forall (fun e => is_constructed e.1 = true) opts -> short block ->
  c ∈ keys -> rsa c = Some k -> hash_len c = SHA_DIGEST_SIZE \/ hash_len c = SHA256_DIGEST_SIZE ->
  length sig = 256%nat -> opened k sig = prefix_of (hash_len c) ++ digest_of (hash_len c) zip ->
  verify_file g fuel (package zip msg block) keys script = Ret VERIFY_SUCCESS.
Proof.
  intros block Hg Hb Hk Hsc Hz Hh Hf Ho Hsh Hc Ek Hhl Hs Hop. rewrite verify_file_rsa by (done || apply package_sig_start).
  rewrite (package_valid_signed zip msg block keys sig c k); try done.
  - unfold package in Hb. by apply Forall_app in Hb as [? _].
  - apply pkcs7_roundtrip; try done. by destruct sig.
  - rewrite Forall_forall in Hk. by apply Hk.
Qed.

Lemma verify_file_signed_witness : verify_file vx_garbage 0 vx_package [vx_cert] [] = Ret VERIFY_SUCCESS.
Proof.
  apply (verify_file_signed vx_garbage 0 vx_zip [115; 105; 103] [vx_cert] [] vx_oid vx_head [] vx_fields ex_sig [] [] []
    vx_cert vx_key vx_garbage_ok vx_package_ok).
  - apply Forall_singleton. split; [reflexivity | apply vx_cert_ok].
  - set_solver.
  - apply vx_zip_ok.
  - reflexivity.
  - reflexivity.
  - constructor.
  - vm_compute. reflexivity.
  - by left.
  - reflexivity.
  - by left.
  - reflexivity.
  - apply vx_opened.
Defined.

(** C12. Soundness for every kind of key and any allocation failures: when
    [verify_file] returns VERIFY_SUCCESS, the package has the layout, its
    comment holds a PKCS#7 SignatureValue, and for one of the keys either the
    RSA signature opens to the PKCS#1 block of the digest of the signed part
    (or what it opens to, xor-ed with that digest, is another string of 256
    bytes with the digest of the padding block), or
    [p256_ecdsa_verify] accepted the unpacked signature of that digest. *)
Theorem verify_file_sound g fuel addr keys script : garbage_ok g -> bytes_ok addr -> Forall cert_ok keys ->
  verify_file g fuel addr keys script = Ret VERIFY_SUCCESS ->
  well_placed addr = true /\
  exists c sig, c ∈ keys /\ pkcs7_signature (sig_block addr) = Some sig /\ accepted g fuel (signed_part addr) sig c.
Proof.
  intros Hg Hb Hk E. rewrite verify_layout in E by done. destruct (well_placed addr) eqn:Ew; [| done]. split; [done |].
  assert (Hss : FOOTER_SIZE < sig_start addr) by (unfold well_placed in Ew; zbool; done).
  unfold verify_rest in E. destruct (hash_signed_spec g (signed_part addr) keys Hg (signed_part_ok addr Hb)) as (d1 & d2 & Eh & H1 & H2).
  rewrite Eh, bind_ret in E. destruct (Z.le_gt_cases (sig_start addr) (Z.of_nat (length addr))) as [Hs | Hs].
  2: { rewrite read_pkcs7_before in E by lia. by destruct script as [|[] script]. }
  unfold FOOTER_SIZE in Hss. pose proof (read_pkcs7_spec addr Hb (Z.of_nat (length addr) - sig_start addr) (sig_start addr - FOOTER_SIZE)
    ltac:(lia) ltac:(unfold FOOTER_SIZE; lia) ltac:(unfold FOOTER_SIZE; lia) script) as Hr. fold (sig_block addr) in Hr.
  destruct (read_pkcs7 _ _ _ _) as [[x s']| |]; [| done | done]. rewrite bind_ret in E. destruct x as [sig|]; [| done].
  destruct Hr as [_ [Ep | [Hr _]]]; [| done].
  assert (Hsig : bytes_ok sig) by (apply (pkcs7_signature_bytes _ _ (eq_sym Ep)); by apply sig_block_ok).
  destruct (try_keys_sound g fuel (signed_part addr) sig keys d1 d2 Hg (signed_part_ok addr Hb) Hsig H1 H2 keys ltac:(done) Hk E)
    as (c & Hc & Ha). by exists c, sig.
Qed.

Lemma verify_file_sound_witness : well_placed vx_package = true /\
  exists c sig, c ∈ [vx_cert] /\ pkcs7_signature (sig_block vx_package) = Some sig /\
    accepted vx_garbage 0 (signed_part vx_package) sig c.
Proof.
  apply (verify_file_sound vx_garbage 0 vx_package [vx_cert] [] vx_garbage_ok vx_package_ok).
  - apply Forall_singleton, vx_cert_ok.
  - apply vx_accepted.
Defined.

(** C35. A footer whose signature start is larger than the package makes
    [verify_file] read before the package: nothing compares the signature start
    with the comment or the package size. *)
Theorem verify_file_underread g fuel addr keys script : garbage_ok g -> bytes_ok addr ->
  well_placed addr = true -> Z.of_nat (length addr) < sig_start addr -> head script <> Some false ->
  verify_file g fuel addr keys script = Fault OutOfBounds.
Proof.
  intros Hg Hb Hw Hs Hsc. rewrite verify_layout by done. rewrite Hw. unfold verify_rest.
  destruct (hash_signed_spec g (signed_part addr) keys Hg (signed_part_ok addr Hb)) as (d1 & d2 & -> & _). rewrite bind_ret.
  assert (Hss : FOOTER_SIZE < sig_start addr) by (unfold well_placed in Hw; zbool; done).
  rewrite read_pkcs7_before by lia. by destruct script as [|[] script].
Qed.

Lemma verify_file_underread_witness : verify_file vx_garbage 0 vx_short [vx_cert] [true] = Fault OutOfBounds.
Proof.
  apply (verify_file_underread vx_garbage 0 vx_short [vx_cert] [true] vx_garbage_ok).
  - apply bytes_okb_sound. reflexivity.
  - vm_compute. reflexivity.
  - vm_compute. reflexivity.
  - done.
Defined.
