(* ===== verification/SparseCrc32.v ===== *)
(** * CRC-32 of libsparse

    Models src/system/core/libsparse/sparse_crc32.c: the table of feedback
    terms and the byte-wise loop, proved equal to the bit-wise shift register
    of the polynomial 0xedb88320. *)

From S2P Require Import Prelude.

(** The words of a row of the table, most significant first. *)
Fixpoint row (n : nat) (r : Z) : list Z :=
  match n with
  | O => []
  | S n' => u32 (Z.shiftr r (32 * Z.of_nat n')) :: row n' r
  end.

(** The table, a row of the source per literal. *)
Definition crc32_tab : list Z := Eval vm_compute in concat (map (row 6) [
    0x0000000077073096ee0e612c990951ba076dc419706af48f;
    0xe963a5359e6495a30edb883279dcb8a4e0d5e91e97d2d988;
    0x09b64c2b7eb17cbde7b82d0790bf1d911db710646ab020f2;
    0xf3b9714884be41de1adad47d6ddde4ebf4d4b55183d385c7;
    0x136c9856646ba8c0fd62f97a8a65c9ec14015c4f63066cd9;
    0xfa0f3d638d080df53b6e20c84c69105ed56041e4a2677172;
    0x3c03e4d14b04d447d20d85fda50ab56b35b5a8fa42b2986c;
    0xdbbbc9d6acbcf94032d86ce345df5c75dcd60dcfabd13d59;
    0x26d930ac51de003ac8d75180bfd0611621b4f4b556b3c423;
    0xcfba9599b8bda50f2802b89e5f058808c60cd9b2b10be924;
    0x2f6f7c8758684c11c1611dabb6662d3d76dc419001db7106;
    0x98d220bcefd5102a71b1858906b6b51f9fbfe4a5e8b8d433;
    0x7807c9a20f00f9349609a88ee10e98187f6a0dbb086d3d2d;
    0x91646c97e6635c016b6b51f41c6c6162856530d8f262004e;
    0x6c0695ed1b01a57b8208f4c1f50fc45765b0d9c612b7e950;
    0x8bbeb8eafcb9887c62dd1ddf15da2d498cd37cf3fbd44c65;
    0x4db261583ab551cea3bc0074d4bb30e24adfa5413dd895d7;
    0xa4d1c46dd3d6f4fb4369e96a346ed9fcad678846da60b8d0;
    0x44042d7333031de5aa0a4c5fdd0d7cc95005713c270241aa;
    0xbe0b1010c90c20865768b525206f85b3b966d409ce61e49f;
    0x5edef90e29d9c998b0d09822c7d7a8b459b33d172eb40d81;
    0xb7bd5c3bc0ba6cadedb883209abfb3b603b6e20c74b1d29a;
    0xead547399dd277af04db261573dc1683e3630b1294643b84;
    0x0d6d6a3e7a6a5aa8e40ecf0b9309ff9d0a00ae277d079eb1;
    0xf00f93448708a3d21e01f2686906c2fef762575d806567cb;
    0x196c36716e6b06e7fed41b7689d32be010da7a5a67dd4acc;
    0xf9b9df6f8ebeeff917b7be4360b08ed5d6d6a3e8a1d1937e;
    0x38d8c2c44fdff252d1bb67f1a6bc57673fb506dd48b2364b;
    0xd80d2bdaaf0a1b4c36034af641047a60df60efc3a867df55;
    0x316e8eef4669be79cb61b38cbc66831a256fd2a05268e236;
    0xcc0c7795bb0b4703220216b95505262fc5ba3bbeb2bd0b28;
    0x2bb45a925cb36a04c2d7ffa7b5d0cf312cd99e8b5bdeae1d;
    0x9b64c2b0ec63f226756aa39c026d930a9c0906a9eb0e363f;
    0x720767850500571395bf4a82e2b87a147bb12bae0cb61b38;
    0x92d28e9be5d5be0d7cdcefb70bdbdf2186d3d2d4f1d4e242;
    0x68ddb3f81fda836e81be16cdf6b9265b6fb077e118b74777;
    0x88085ae6ff0f6a7066063bca11010b5c8f659efff862ae69;
    0x616bffd3166ccf45a00ae278d70dd2ee4e0483543903b3c2;
    0xa7672661d06016f74969474d3e6e77dbaed16a4ad9d65adc;
    0x40df0b6637d83bf0a9bcae53debb9ec547b2cf7f30b5ffe9;
    0xbdbdf21ccabac28a53b3933024b4a3a6bad03605cdd70693;
    0x54de572923d967bfb3667a2ec4614ab85d681b022a6f2b94
  ]) ++ row 4 0xb40bbe37c30c8ea15a05df1b2d02ef8d.

Definition sparse_crc32 (crc_in : Z) (buf : bytes) : Z :=
  let crc := Z.lxor crc_in (u32 (-1)) in
  let crc := foldl (fun crc b =>
    Z.lxor (rd crc32_tab (Z.land (Z.lxor crc b) 0xff)) (Z.shiftr crc 8)) crc buf in
  Z.lxor crc (u32 (-1)).

(** ** The shift register *)
Definition crc_bit (c : Z) : Z :=
  Z.lxor (Z.shiftr c 1) (if Z.odd c then 0xedb88320 else 0).

Definition crc_byte (c : Z) : Z := Nat.iter 8 crc_bit c.

Definition crc32_ref (crc_in : Z) (buf : bytes) : Z :=
  Z.lxor (foldl (fun c b => crc_byte (Z.lxor c b)) (Z.lxor crc_in (u32 (-1))) buf) (u32 (-1)).

Lemma crc_bit_lxor a b : crc_bit (Z.lxor a b) = Z.lxor (crc_bit a) (crc_bit b).
Proof.
  unfold crc_bit. rewrite Z.shiftr_lxor, <- !Z.bit0_odd, Z.lxor_spec.
  destruct (Z.testbit a 0), (Z.testbit b 0); simpl xorb; cbv iota;
    apply Z.bits_inj'; intros i _; rewrite !Z.lxor_spec, ?Z.bits_0;
    repeat match goal with |- context [Z.testbit ?x i] => destruct (Z.testbit x i) end; reflexivity.
Qed.

Lemma crc_byte_lxor a b : crc_byte (Z.lxor a b) = Z.lxor (crc_byte a) (crc_byte b).
Proof.
  unfold crc_byte. generalize 8%nat. intros n. induction n as [|n IH]; [done |].
  simpl. by rewrite IH, crc_bit_lxor.
Qed.

Lemma crc_bit_even y : crc_bit (Z.shiftl y 1) = y.
Proof.
  unfold crc_bit. rewrite Z.shiftl_mul_pow2 by lia. change (2 ^ 1) with 2.
  rewrite Z.odd_mul, andb_false_r, Z.lxor_0_r, Z.shiftr_div_pow2 by lia. by apply Z.div_mul.
Qed.

Lemma crc_byte_high y : crc_byte (Z.shiftl y 8) = y.
Proof.
  unfold crc_byte.
  assert (E : forall n x, Nat.iter n crc_bit (Z.shiftl x (Z.of_nat n)) = x).
  { induction n as [|n IH]; intros x; [by rewrite Z.shiftl_0_r |].
    rewrite Nat.iter_succ_r. replace (Z.of_nat (S n)) with (Z.of_nat n + 1) by lia.
    rewrite <- Z.shiftl_shiftl, crc_bit_even by lia. apply IH. }
  apply (E 8%nat).
Qed.

Lemma crc32_tab_values : map (fun i => crc_byte (Z.of_nat i)) (seq 0 256) = crc32_tab.
Proof. vm_compute. reflexivity. Qed.

Lemma crc32_tab_rd i : 0 <= i < 256 -> rd crc32_tab i = crc_byte i.
Proof.
  intros Hi. rewrite <- crc32_tab_values. apply rd_lookup.
  rewrite list_lookup_fmap, lookup_seq_lt by lia. simpl. by rewrite Z2Nat.id by lia.
Qed.

Lemma byte_split x : x = Z.lxor (Z.land x 0xff) (Z.shiftl (Z.shiftr x 8) 8).
Proof.
  apply Z.bits_inj'. intros i Hi. rewrite Z.lxor_spec, Z.land_spec, Z.shiftl_spec by done.
  change 0xff with (Z.ones 8). destruct (Z.ltb_spec i 8).
  - rewrite Z.ones_spec_low, (Z.testbit_neg_r _ (i - 8)), andb_true_r, xorb_false_r by lia. done.
  - rewrite Z.ones_spec_high, Z.shiftr_spec, andb_false_r by lia. simpl. f_equal. lia.
Qed.

(** One table step is eight turns of the register. *)
Lemma crc_step crc b : 0 <= b < 256 ->
  Z.lxor (rd crc32_tab (Z.land (Z.lxor crc b) 0xff)) (Z.shiftr crc 8) = crc_byte (Z.lxor crc b).
Proof.
  intros Hb. rewrite (byte_split (Z.lxor crc b)) at 2.
  rewrite crc_byte_lxor, crc_byte_high, Z.shiftr_lxor.
  rewrite (Z.shiftr_div_pow2 b) by lia. rewrite (Z.div_small b) by done. rewrite Z.lxor_0_r. f_equal.
  apply crc32_tab_rd. change 0xff with (2 ^ 8 - 1). rewrite land_ones_mod by lia.
  by apply Z.mod_pos_bound.
Qed.

Lemma sparse_crc32_ref crc buf : bytes_ok buf -> sparse_crc32 crc buf = crc32_ref crc buf.
Proof.
  intros Hb. unfold sparse_crc32, crc32_ref. f_equal.
  generalize (Z.lxor crc (u32 (-1))). induction Hb as [|b l Hb Hl IH]; intros c; [done |].
  cbn [foldl]. by rewrite crc_step.
Qed.

(** A checksum taken in pieces is the checksum of the whole. *)
Lemma sparse_crc32_app crc l1 l2 :
  sparse_crc32 crc (l1 ++ l2) = sparse_crc32 (sparse_crc32 crc l1) l2.
Proof.
  unfold sparse_crc32. rewrite foldl_app. do 2 f_equal.
  by rewrite Z.lxor_assoc, Z.lxor_nilpotent, Z.lxor_0_r.
Qed.

(** The table loop of [sparse_crc32] is the bit-wise CRC-32 register, and a
    checksum continued over further data is the checksum of the concatenation. *)
Theorem sparse_crc32_correct crc l1 l2 : bytes_ok l1 -> bytes_ok l2 ->
  sparse_crc32 crc l1 = crc32_ref crc l1 /\
  sparse_crc32 (sparse_crc32 crc l1) l2 = crc32_ref crc (l1 ++ l2).
Proof.
  intros H1 H2. split; [by apply sparse_crc32_ref |].
  rewrite <- sparse_crc32_app. apply sparse_crc32_ref. by apply bytes_ok_app.
Qed.

(** The check value of the polynomial: the digits 1 to 9. *)
Lemma sparse_crc32_correct_witness :
  sparse_crc32 (sparse_crc32 0 [0x31; 0x32; 0x33; 0x34]) [0x35; 0x36; 0x37; 0x38; 0x39] = 0xcbf43926.
Proof.
  rewrite (proj2 (sparse_crc32_correct 0 [0x31; 0x32; 0x33; 0x34] [0x35; 0x36; 0x37; 0x38; 0x39]
    ltac:(by repeat constructor) ltac:(by repeat constructor))).
  vm_compute. reflexivity.
Defined.
