(* ===== verification/BackedBlock.v ===== *)
(** * Backed block lists of libsparse

    Models src/system/core/libsparse/backed_block.c. The heap holds the list
    nodes and the duplicated file names; a pointer is an optional location, and
    a location is never handed out twice, so a read of freed memory is visible.
    Allocations succeed unless the heap's script says otherwise. Loops over a
    list get the number of live nodes plus one as fuel. *)

From S2P Require Import Prelude.

Abbreviation loc := positive.
Abbreviation ptr := (option positive).

(** The union of a node, tagged by its type. Memory handed to
    [backed_block_add_data] is a buffer number and an offset in it. *)
Inductive bb_kind :=
  | BACKED_BLOCK_DATA (buf : Z) (off : Z)
  | BACKED_BLOCK_FILE (filename : loc) (offset : Z)
  | BACKED_BLOCK_FD (fd : Z) (offset : Z)
  | BACKED_BLOCK_FILL (val : Z).

Record backed_block := BB {
  bb_block : Z;
  bb_len : Z;
  bb_type : bb_kind;
  bb_next : ptr
}.

Record backed_block_list := BBL {
  data_blocks : ptr;
  last_used : ptr;
  bbl_block_size : Z
}.

#[global] Instance bb_kind_eq_dec : EqDecision bb_kind.
Proof. solve_decision. Defined.
#[global] Instance backed_block_eq_dec : EqDecision backed_block.
Proof. solve_decision. Defined.

(** ** The heap and computations on it *)
Record heap := Heap {
  h_bb : gmap loc backed_block;
  h_str : gmap loc bytes;
  h_fresh : loc;
  h_script : list bool
}.

Definition empty_heap : heap := Heap ∅ ∅ 1%positive [].

Definition heapM (A : Type) : Type := heap -> outcome (A * heap).

#[global] Instance heapM_ret : MRet heapM := fun A a h => Ret (a, h).
#[global] Instance heapM_bind : MBind heapM := fun A B k m h =>
  match m h with
  | Ret (a, h') => k a h'
  | Fault f => Fault f
  | Diverge => Diverge
  end.

Definition throw {A} (f : fault) : heapM A := fun _ => Fault f.
Definition assertM (b : bool) : heapM unit := if b then mret tt else throw AssertFailed.

Definition get_bb (p : ptr) : heapM backed_block := fun h =>
  match p with
  | None => Fault NullDeref
  | Some l =>
      match h_bb h !! l with
      | Some bb => Ret (bb, h)
      | None => Fault UseAfterFree
      end
  end.

Definition set_bbs (m : gmap loc backed_block) (h : heap) : heap :=
  Heap m (h_str h) (h_fresh h) (h_script h).

Definition put_bb (p : ptr) (bb : backed_block) : heapM unit := fun h =>
  match p with
  | None => Fault NullDeref
  | Some l =>
      match h_bb h !! l with
      | Some _ => Ret (tt, set_bbs (<[l := bb]> (h_bb h)) h)
      | None => Fault UseAfterFree
      end
  end.

Definition modify_bb (p : ptr) (f : backed_block -> backed_block) : heapM unit :=
  bb ← get_bb p; put_bb p (f bb).

(** [calloc] or [malloc] of a node, initialised to [bb]; NULL when the script says so. *)
Definition alloc_bb (bb : backed_block) : heapM ptr := fun h =>
  match h_script h with
  | false :: s => Ret (None, Heap (h_bb h) (h_str h) (h_fresh h) s)
  | s => Ret (Some (h_fresh h),
              Heap (<[h_fresh h := bb]> (h_bb h)) (h_str h) (Pos.succ (h_fresh h)) (tail s))
  end.

(** An allocation of another object: does it succeed? *)
Definition alloc_other : heapM bool := fun h =>
  match h_script h with
  | b :: s => Ret (b, Heap (h_bb h) (h_str h) (h_fresh h) s)
  | [] => Ret (true, h)
  end.

(** [strdup] *)
Definition strdup (s : bytes) : heapM loc := fun h =>
  Ret (h_fresh h, Heap (h_bb h) (<[h_fresh h := s]> (h_str h)) (Pos.succ (h_fresh h)) (h_script h)).

Definition free_bb (p : ptr) : heapM unit := fun h =>
  match p with
  | None => Ret (tt, h)
  | Some l =>
      match h_bb h !! l with
      | Some _ => Ret (tt, set_bbs (delete l (h_bb h)) h)
      | None => Fault DoubleFree
      end
  end.

Definition free_str (l : loc) : heapM unit := fun h =>
  match h_str h !! l with
  | Some _ => Ret (tt, Heap (h_bb h) (delete l (h_str h)) (h_fresh h) (h_script h))
  | None => Fault DoubleFree
  end.

Definition list_fuel : heapM nat := fun h => Ret (S (size (h_bb h)), h).

(** ** Accessors *)
Definition backed_block_iter_new (bbl : backed_block_list) : ptr := data_blocks bbl.
Definition backed_block_iter_next (bb : ptr) : heapM ptr := n ← get_bb bb; mret (bb_next n).
Definition backed_block_len (bb : ptr) : heapM Z := n ← get_bb bb; mret (bb_len n).
Definition backed_block_block (bb : ptr) : heapM Z := n ← get_bb bb; mret (bb_block n).

Definition backed_block_data (bb : ptr) : heapM (Z * Z) :=
  n ← get_bb bb;
  match bb_type n with
  | BACKED_BLOCK_DATA buf off => mret (buf, off)
  | _ => throw AssertFailed
  end.

Definition backed_block_filename (bb : ptr) : heapM loc :=
  n ← get_bb bb;
  match bb_type n with
  | BACKED_BLOCK_FILE filename _ => mret filename
  | _ => throw AssertFailed
  end.

Definition backed_block_fd (bb : ptr) : heapM Z :=
  n ← get_bb bb;
  match bb_type n with
  | BACKED_BLOCK_FD fd _ => mret fd
  | _ => throw AssertFailed
  end.

Definition backed_block_file_offset (bb : ptr) : heapM Z :=
  n ← get_bb bb;
  match bb_type n with
  | BACKED_BLOCK_FILE _ offset => mret offset
  | BACKED_BLOCK_FD _ offset => mret offset
  | _ => throw AssertFailed
  end.

Definition backed_block_fill_val (bb : ptr) : heapM Z :=
  n ← get_bb bb;
  match bb_type n with
  | BACKED_BLOCK_FILL val => mret val
  | _ => throw AssertFailed
  end.

Definition backed_block_destroy (bb : ptr) : heapM unit :=
  n ← get_bb bb;
  match bb_type n with
  | BACKED_BLOCK_FILE filename _ => free_str filename ≫= fun _ => free_bb bb
  | _ => free_bb bb
  end.

(** The result of [calloc] is not checked. *)
Definition backed_block_list_new (block_size : Z) : heapM backed_block_list :=
  ok ← alloc_other;
  if (ok : bool) then mret (BBL None None block_size) else throw NullDeref.

Fixpoint destroy_loop (fuel : nat) (bb : ptr) : heapM unit :=
  match bb with
  | None => mret tt
  | Some _ =>
      match fuel with
      | O => fun _ => Diverge
      | S fuel' =>
          next ← backed_block_iter_next bb;
          backed_block_destroy bb ≫= fun _ => destroy_loop fuel' next
      end
  end.

Definition backed_block_list_destroy (bbl : backed_block_list) : heapM unit :=
  fuel ← list_fuel; destroy_loop fuel (data_blocks bbl).

Definition set_next (next : ptr) (bb : backed_block) : backed_block :=
  BB (bb_block bb) (bb_len bb) (bb_type bb) next.
Definition set_len (len : Z) (bb : backed_block) : backed_block :=
  BB (bb_block bb) len (bb_type bb) (bb_next bb).

(** ** Moving a run of nodes between lists *)
Fixpoint list_end (fuel : nat) (e : ptr) : heapM ptr :=
  match e with
  | None => mret None
  | Some _ =>
      match fuel with
      | O => fun _ => Diverge
      | S fuel' =>
          n ← get_bb e;
          match bb_next n with
          | None => mret e
          | next => list_end fuel' next
          end
      end
  end.

(** [for (bb = from->data_blocks; bb; bb = bb->next)] *)
Fixpoint unlink_loop (fuel : nat) (bb start e : ptr) : heapM unit :=
  match bb with
  | None => mret tt
  | Some _ =>
      match fuel with
      | O => fun _ => Diverge
      | S fuel' =>
          n ← get_bb bb;
          if decide (bb_next n = start) then
            en ← get_bb e; put_bb bb (set_next (bb_next en) n)
          else unlink_loop fuel' (bb_next n) start e
      end
  end.

(** [for (bb = to->data_blocks; bb; bb = bb->next)] *)
Fixpoint link_loop (fuel : nat) (bb start e : ptr) : heapM unit :=
  match bb with
  | None => mret tt
  | Some _ =>
      match fuel with
      | O => fun _ => Diverge
      | S fuel' =>
          n ← get_bb bb;
          sn ← get_bb start;
          here ← match bb_next n with
                 | None => mret true
                 | next => nn ← get_bb next; mret (bb_block sn <? bb_block nn)
                 end;
          if (here : bool) then
            modify_bb e (set_next (bb_next n)) ≫= fun _ =>
            modify_bb bb (set_next start)
          else link_loop fuel' (bb_next n) start e
      end
  end.

Definition backed_block_list_move (from to : backed_block_list) (start e : ptr)
    : heapM (backed_block_list * backed_block_list) :=
  fuel ← list_fuel;
  let start := match start with None => data_blocks from | s => s end in
  e ← match e with None => list_end fuel start | e => mret e end;
  match start, e with
  | Some _, Some _ =>
      let from := BBL (data_blocks from) None (bbl_block_size from) in
      let to := BBL (data_blocks to) None (bbl_block_size to) in
      from ← (if decide (data_blocks from = start) then
                en ← get_bb e; mret (BBL (bb_next en) None (bbl_block_size from))
              else unlink_loop fuel (data_blocks from) start e ≫= fun _ => mret from);
      match data_blocks to with
      | None =>
          modify_bb e (set_next None) ≫= fun _ =>
          mret (from, BBL start None (bbl_block_size to))
      | Some _ =>
          link_loop fuel (data_blocks to) start e ≫= fun _ => mret (from, to)
      end
  | _, _ => mret (from, to)
  end.

(** ** Queueing *)
Definition c_div (x y : Z) : heapM Z := if y =? 0 then throw DivByZero else mret (x / y).

(** Do the payloads of adjacent nodes [a] and [b] continue each other? *)
Definition compatible (a b : backed_block) : bool :=
  match bb_type a, bb_type b with
  | BACKED_BLOCK_DATA _ _, BACKED_BLOCK_DATA _ _ => false
  | BACKED_BLOCK_FILL va, BACKED_BLOCK_FILL vb => va =? vb
  | BACKED_BLOCK_FILE fa oa, BACKED_BLOCK_FILE fb ob =>
      bool_decide (fa = fb) && (i64 (oa + bb_len a) =? ob)
  | BACKED_BLOCK_FD fa oa, BACKED_BLOCK_FD fb ob => (fa =? fb) && (i64 (oa + bb_len a) =? ob)
  | _, _ => false
  end.

Definition same_type (a b : backed_block) : bool :=
  match bb_type a, bb_type b with
  | BACKED_BLOCK_DATA _ _, BACKED_BLOCK_DATA _ _ => true
  | BACKED_BLOCK_FILE _ _, BACKED_BLOCK_FILE _ _ => true
  | BACKED_BLOCK_FD _ _, BACKED_BLOCK_FD _ _ => true
  | BACKED_BLOCK_FILL _, BACKED_BLOCK_FILL _ => true
  | _, _ => false
  end.

Definition merge_bb (bbl : backed_block_list) (a b : ptr) : heapM Z :=
  match a, b with
  | Some _, Some _ =>
      na ← get_bb a;
      nb ← get_bb b;
      assertM (bb_block na <? bb_block nb) ≫= fun _ =>
      if negb (same_type na nb) then mret (- EINVAL) else
      block_len ← c_div (bb_len na) (bbl_block_size bbl);
      if negb (u32 (bb_block na + block_len) =? bb_block nb) then mret (- EINVAL) else
      if negb (compatible na nb) then mret (- EINVAL) else
      put_bb a (set_next (bb_next nb) (set_len (u32 (bb_len na + bb_len nb)) na)) ≫= fun _ =>
      backed_block_destroy b ≫= fun _ =>
      mret 0
  | _, _ => mret (- EINVAL)
  end.

(** [for (; bb->next && bb->next->block < new_bb->block; bb = bb->next)] *)
Fixpoint seek_loop (fuel : nat) (bb : ptr) (block : Z) : heapM ptr :=
  match fuel with
  | O => fun _ => Diverge
  | S fuel' =>
      n ← get_bb bb;
      match bb_next n with
      | None => mret bb
      | next =>
          nn ← get_bb next;
          if bb_block nn <? block then seek_loop fuel' next block else mret bb
      end
  end.

Definition queue_bb (bbl : backed_block_list) (new_bb : ptr) : heapM (Z * backed_block_list) :=
  fuel ← list_fuel;
  match data_blocks bbl with
  | None => mret (0, BBL new_bb (last_used bbl) (bbl_block_size bbl))
  | Some _ =>
      d ← get_bb (data_blocks bbl);
      n ← get_bb new_bb;
      if bb_block n <? bb_block d then
        put_bb new_bb (set_next (data_blocks bbl) n) ≫= fun _ =>
        mret (0, BBL new_bb (last_used bbl) (bbl_block_size bbl))
      else
        start ← match last_used bbl with
                | None => mret (data_blocks bbl)
                | lu => l ← get_bb lu;
                        mret (if bb_block l <? bb_block n then lu else data_blocks bbl)
                end;
        let bbl := BBL (data_blocks bbl) new_bb (bbl_block_size bbl) in
        bb ← seek_loop fuel start (bb_block n);
        b ← get_bb bb;
        match bb_next b with
        | None => mret tt
        | next => put_bb new_bb (set_next next n)
        end ≫= fun _ =>
        modify_bb bb (set_next new_bb) ≫= fun _ =>
        n ← get_bb new_bb;
        merge_bb bbl new_bb (bb_next n) ≫= fun _ =>
        merge_bb bbl bb new_bb ≫= fun _ =>
        mret (0, bbl)
  end.

Definition add_bb (bbl : backed_block_list) (k : bb_kind) (len block : Z)
    : heapM (Z * backed_block_list) :=
  bb ← alloc_bb (BB block len k None);
  match bb with
  | None => mret (- ENOMEM, bbl)
  | Some _ => queue_bb bbl bb
  end.

Definition backed_block_add_fill (bbl : backed_block_list) (fill_val len block : Z) :=
  add_bb bbl (BACKED_BLOCK_FILL fill_val) len block.

Definition backed_block_add_data (bbl : backed_block_list) (data : Z * Z) (len block : Z) :=
  add_bb bbl (BACKED_BLOCK_DATA data.1 data.2) len block.

Definition backed_block_add_fd (bbl : backed_block_list) (fd offset len block : Z) :=
  add_bb bbl (BACKED_BLOCK_FD fd offset) len block.

Definition backed_block_add_file (bbl : backed_block_list) (filename : bytes) (offset len block : Z)
    : heapM (Z * backed_block_list) :=
  bb ← alloc_bb (BB block len (BACKED_BLOCK_DATA 0 0) None);
  match bb with
  | None => mret (- ENOMEM, bbl)
  | Some _ =>
      name ← strdup filename;
      put_bb bb (BB block len (BACKED_BLOCK_FILE name offset) None) ≫= fun _ =>
      queue_bb bbl bb
  end.

(** ** Splitting *)
Definition advance (k : bb_kind) (n : Z) : bb_kind :=
  match k with
  | BACKED_BLOCK_DATA buf off => BACKED_BLOCK_DATA buf (off + n)
  | BACKED_BLOCK_FILE filename offset => BACKED_BLOCK_FILE filename (i64 (offset + n))
  | BACKED_BLOCK_FD fd offset => BACKED_BLOCK_FD fd (i64 (offset + n))
  | BACKED_BLOCK_FILL val => BACKED_BLOCK_FILL val
  end.

Definition backed_block_split (bbl : backed_block_list) (bb : ptr) (max_len : Z) : heapM Z :=
  blocks ← c_div max_len (bbl_block_size bbl);
  let max_len := u32 (bbl_block_size bbl * blocks) in
  n ← get_bb bb;
  if bb_len n <=? max_len then mret 0 else
  new_bb ← alloc_bb n;
  match new_bb with
  | None => mret (- ENOMEM)
  | Some _ =>
      put_bb new_bb (BB (u32 (bb_block n + max_len / bbl_block_size bbl))
                        (bb_len n - max_len) (advance (bb_type n) max_len) (bb_next n)) ≫= fun _ =>
      put_bb bb (BB (bb_block n) max_len (bb_type n) new_bb) ≫= fun _ =>
      mret 0
  end.
