(* ===== verification/BackedBlockSpec.v ===== *)
(** * Backed block lists refine sorted lists of blocks

    The pointer structure of BackedBlock.v is related to a list of blocks
    sorted by block number; queueing, splitting and moving are shown to be
    operations on that list. *)

From S2P Require Import Prelude.
From S2P Require Import BackedBlock.


#[local] Set Warnings "-clear-no-such-hyp".

(** ** Segments of a linked list *)
Abbreviation nodes := (list (loc * backed_block)).

Fixpoint seg (m : gmap loc backed_block) (p : ptr) (l : nodes) (q : ptr) : Prop :=
  match l with
  | [] => p = q
  | (x, n) :: l' => p = Some x /\ m !! x = Some n /\ seg m (bb_next n) l' q
  end.

Lemma seg_app m p l1 l2 q : seg m p (l1 ++ l2) q <-> exists r, seg m p l1 r /\ seg m r l2 q.
Proof.
  revert p. induction l1 as [|[x n] l1 IH]; intros p; simpl.
  - split; [intros H; by exists p | by intros (r & -> & H)].
  - rewrite IH. split.
    + intros (E & Hx & r & H1 & H2). by exists r.
    + intros (r & (E & Hx & H1) & H2). split_and!; try done. by exists r.
Qed.

Lemma seg_insert m x n p l q : x ∉ l.*1 -> seg (<[x := n]> m) p l q <-> seg m p l q.
Proof.
  revert p. induction l as [|[y k] l IH]; intros p Hx; simpl; [done |].
  rewrite fmap_cons, not_elem_of_cons in Hx. destruct Hx as [Hne Hx]. simpl in Hne.
  rewrite lookup_insert_ne by done. by rewrite IH.
Qed.

Lemma seg_delete m x p l q : x ∉ l.*1 -> seg (delete x m) p l q <-> seg m p l q.
Proof.
  revert p. induction l as [|[y k] l IH]; intros p Hx; simpl; [done |].
  rewrite fmap_cons, not_elem_of_cons in Hx. destruct Hx as [Hne Hx]. simpl in Hne.
  rewrite lookup_delete_ne by done. by rewrite IH.
Qed.

Lemma seg_lookup m p l q x n : seg m p l q -> (x, n) ∈ l -> m !! x = Some n.
Proof.
  revert p. induction l as [|[y k] l IH]; intros p Hs Hin; [by apply elem_of_nil in Hin |].
  simpl in Hs. destruct Hs as (_ & Hy & Hs). apply elem_of_cons in Hin as [[= -> ->] | Hin]; eauto.
Qed.

(** A chain visits no more nodes than the heap holds. *)
Lemma seg_size m p l q : seg m p l q -> NoDup (l.*1) -> (length l <= size m)%nat.
Proof.
  revert p m. induction l as [|[x n] l IH]; intros p m Hs Hd; simpl; [lia |].
  destruct Hs as (_ & Hx & Hs). rewrite fmap_cons, NoDup_cons in Hd. destruct Hd as [Hni Hd].
  specialize (IH _ (delete x m) (proj2 (seg_delete m x _ l q Hni) Hs) Hd).
  rewrite map_size_delete, Hx in IH. simpl in IH.
  assert (size m <> 0)%nat; [| lia]. intros Hz. apply map_size_empty_inv in Hz. subst.
  rewrite lookup_empty in Hx. discriminate.
Qed.

(** ** Blocks, without their addresses *)
Record blk := Blk { k_block : Z; k_len : Z; k_kind : bb_kind }.

Definition blk_of (n : backed_block) : blk := Blk (bb_block n) (bb_len n) (bb_type n).
Definition abs (l : nodes) : list blk := map (fun p => blk_of p.2) l.

Definition kinds_continue (a b : blk) : bool :=
  match k_kind a, k_kind b with
  | BACKED_BLOCK_FILL va, BACKED_BLOCK_FILL vb => va =? vb
  | BACKED_BLOCK_FD fa oa, BACKED_BLOCK_FD fb ob => (fa =? fb) && (i64 (oa + k_len a) =? ob)
  | _, _ => false
  end.

(** Two blocks are merged when the second starts where the first ends. *)
Definition mergeable (bs : Z) (a b : blk) : bool :=
  (u32 (k_block a + k_len a / bs) =? k_block b) && kinds_continue a b.

Definition merge (a b : blk) : blk := Blk (k_block a) (u32 (k_len a + k_len b)) (k_kind a).

(** The last block before [key] in [a :: rest], with what precedes and follows it. *)
Fixpoint locate (key : Z) (a : blk) (rest : list blk) : list blk * blk * list blk :=
  match rest with
  | b :: r =>
      if k_block b <? key then let '(pre, x, r') := locate key b r in (a :: pre, x, r')
      else ([], a, rest)
  | [] => ([], a, [])
  end.

(** Merge [n] with the block that follows it. *)
Definition merge_right (bs : Z) (n : blk) (rest : list blk) : blk * list blk :=
  match rest with
  | b :: r => if mergeable bs n b then (merge n b, r) else (n, rest)
  | [] => (n, [])
  end.

(** Put [n] between [a] and [rest], merging with the neighbours. *)
Definition splice (bs : Z) (a n : blk) (rest : list blk) : list blk :=
  let '(n, rest) := merge_right bs n rest in
  if mergeable bs a n then merge a n :: rest else a :: n :: rest.

(** The queue operation on sorted lists. *)
Definition insert_blk (bs : Z) (n : blk) (l : list blk) : list blk :=
  match l with
  | [] => [n]
  | a :: r =>
      if k_block n <? k_block a then n :: l
      else let '(pre, x, r') := locate (k_block n) a r in pre ++ splice bs x n r'
  end.

(** Is the new block merged into its predecessor? *)
Definition absorbed (bs : Z) (n : blk) (l : list blk) : bool :=
  match l with
  | [] => false
  | a :: r =>
      if k_block n <? k_block a then false
      else let '(_, x, r') := locate (k_block n) a r in mergeable bs x (merge_right bs n r').1
  end.

Definition blk_lt (a b : blk) : Prop := k_block a < k_block b.

(** ** The invariant of a list *)
Definition below_fresh (h : heap) : Prop :=
  (forall x n, h_bb h !! x = Some n -> (x < h_fresh h)%positive) /\
  (forall x s, h_str h !! x = Some s -> (x < h_fresh h)%positive).

Definition name_of (n : backed_block) : option loc :=
  match bb_type n with BACKED_BLOCK_FILE f _ => Some f | _ => None end.

Fixpoint names (l : nodes) : list loc :=
  match l with
  | [] => []
  | (_, n) :: l' => match name_of n with Some f => f :: names l' | None => names l' end
  end.

(** File names are owned: live, and each by one node. *)
Definition names_owned (h : heap) (l : nodes) : Prop :=
  NoDup (names l) /\ (forall f, f ∈ names l -> is_Some (h_str h !! f)).

(** A null-terminated list of distinct nodes that own their names. *)
Record wf (h : heap) (p : ptr) (l : nodes) : Prop := {
  wf_chain : seg (h_bb h) p l None;
  wf_nodup : NoDup (l.*1);
  wf_names : names_owned h l;
  wf_fresh : below_fresh h
}.

Definition sorted (l : nodes) : Prop := StronglySorted blk_lt (abs l).

Definition list_ok (h : heap) (bbl : backed_block_list) (l : nodes) : Prop :=
  wf h (data_blocks bbl) l /\ sorted l.

(** The cached node is live. *)
Definition cache_ok (bbl : backed_block_list) (l : nodes) : Prop :=
  match last_used bbl with None => True | Some x => x ∈ l.*1 end.

(** Every node outside [xs] is untouched. *)
Definition untouched (xs : list loc) (h h' : heap) : Prop :=
  h_str h' = h_str h /\ h_fresh h' = h_fresh h /\
  forall x, x ∉ xs -> h_bb h' !! x = h_bb h !! x.

Lemma untouched_refl xs h : untouched xs h h.
Proof. done. Qed.

Lemma untouched_trans xs h1 h2 h3 : untouched xs h1 h2 -> untouched xs h2 h3 -> untouched xs h1 h3.
Proof.
  intros (S1 & F1 & U1) (S2 & F2 & U2). split_and!; [congruence | congruence |].
  intros x Hx. by rewrite U2, U1.
Qed.

Lemma untouched_weaken xs ys h h' : xs ⊆ ys -> untouched xs h h' -> untouched ys h h'.
Proof. intros Hs (S & F & U). split_and!; try done. intros x Hx. apply U. set_solver. Qed.

(** Reading and writing live nodes. *)
Lemma get_bb_ok h x n : h_bb h !! x = Some n -> get_bb (Some x) h = Ret (n, h).
Proof. intros E. unfold get_bb. by rewrite E. Qed.

Lemma put_bb_ok h x n n' : h_bb h !! x = Some n ->
  put_bb (Some x) n' h = Ret (tt, set_bbs (<[x := n']> (h_bb h)) h).
Proof. intros E. unfold put_bb. by rewrite E. Qed.

Lemma bindM {A B} (m : heapM A) (k : A -> heapM B) h a h' :
  m h = Ret (a, h') -> (m ≫= k) h = k a h'.
Proof. intros E. unfold mbind, heapM_bind. by rewrite E. Qed.

Lemma retM {A} (a : A) h : (mret a : heapM A) h = Ret (a, h).
Proof. done. Qed.

(** Names are owned by one node each, so two files never continue each other. *)
Lemma merge_bb_spec h bbl x y nx ny : x <> y ->
  h_bb h !! x = Some nx -> h_bb h !! y = Some ny ->
  bb_block nx < bb_block ny -> bbl_block_size bbl <> 0 ->
  (forall f, name_of nx = Some f -> name_of ny <> Some f) ->
  merge_bb bbl (Some x) (Some y) h =
  if mergeable (bbl_block_size bbl) (blk_of nx) (blk_of ny)
  then Ret (0, set_bbs (delete y (<[x := set_next (bb_next ny)
         (set_len (u32 (bb_len nx + bb_len ny)) nx)]> (h_bb h))) h)
  else Ret (- EINVAL, h).
Proof.
  intros Hne Hx Hy Hlt Hbs Hnames. unfold merge_bb.
  rewrite (bindM _ _ _ _ _ (get_bb_ok h x nx Hx)), (bindM _ _ _ _ _ (get_bb_ok h y ny Hy)).
  assert (Ea : (bb_block nx <? bb_block ny) = true) by lia. rewrite Ea.
  unfold assertM. rewrite (bindM _ _ _ _ _ (retM tt h)).
  unfold mergeable, kinds_continue, blk_of, c_div. cbn [k_block k_len k_kind].
  destruct (Z.eqb_spec (bbl_block_size bbl) 0); [done |].
  unfold same_type, compatible, name_of in *.
  destruct (bb_type nx) eqn:Tx, (bb_type ny) eqn:Ty; cbn [negb];
    rewrite ?andb_false_r; try reflexivity;
    rewrite (bindM _ _ _ _ _ (retM _ h));
    destruct (u32 (bb_block nx + bb_len nx / bbl_block_size bbl) =? bb_block ny);
    cbn [negb andb]; try reflexivity.
  - rewrite bool_decide_eq_false_2 by naive_solver. reflexivity.
  - destruct ((fd =? fd0) && _); cbn [negb]; [| reflexivity].
    rewrite (bindM _ _ _ _ _ (put_bb_ok h x nx _ Hx)).
    assert (Hy' : h_bb (set_bbs (<[x := set_next (bb_next ny) (set_len (u32 (bb_len nx + bb_len ny)) nx)]> (h_bb h)) h) !! y = Some ny)
      by (simpl; by rewrite lookup_insert_ne).
    unfold backed_block_destroy, mbind, heapM_bind. rewrite (get_bb_ok _ y ny Hy'), Ty.
    unfold free_bb. by rewrite Hy'.
  - destruct (val =? val0); cbn [negb]; [| reflexivity].
    rewrite (bindM _ _ _ _ _ (put_bb_ok h x nx _ Hx)).
    assert (Hy' : h_bb (set_bbs (<[x := set_next (bb_next ny) (set_len (u32 (bb_len nx + bb_len ny)) nx)]> (h_bb h)) h) !! y = Some ny)
      by (simpl; by rewrite lookup_insert_ne).
    unfold backed_block_destroy, mbind, heapM_bind. rewrite (get_bb_ok _ y ny Hy'), Ty.
    unfold free_bb. by rewrite Hy'.
Qed.

(** Merging two neighbours of a list. *)
Definition merged_node (nx ny : backed_block) : backed_block :=
  set_next (bb_next ny) (set_len (u32 (bb_len nx + bb_len ny)) nx).

Lemma name_of_merged nx ny : name_of (merged_node nx ny) = name_of nx.
Proof. done. Qed.

Lemma names_app (l1 l2 : nodes) : names (l1 ++ l2) = names l1 ++ names l2.
Proof. induction l1 as [|[x n] l1 IH]; [done |]. simpl. rewrite IH. by destruct (name_of n). Qed.

Lemma names_neighbours h A x nx y ny B : names_owned h (A ++ (x, nx) :: (y, ny) :: B) ->
  forall f, name_of nx = Some f -> name_of ny <> Some f.
Proof.
  intros [Hd _] f Ex Ey. rewrite names_app in Hd. apply NoDup_app in Hd as (_ & _ & Hd).
  simpl in Hd. rewrite Ex, Ey in Hd. simpl in Hd. apply NoDup_cons in Hd as [Hni _]. apply Hni. left.
Qed.

Lemma names_sub h l l' : names l' `sublist_of` names l ->
  names_owned h l -> names_owned h l'.
Proof.
  intros Hs [Hd Hl]. split; [by apply (sublist_NoDup _ (names l)) |].
  intros f Hf. apply Hl. by apply (elem_of_sublist (names l')).
Qed.

Lemma names_str h h' l : h_str h' = h_str h -> names_owned h l -> names_owned h' l.
Proof. intros E [Hd Hl]. split; [done |]. intros f Hf. rewrite E. by apply Hl. Qed.

(** Replacing the nodes of a list by others with a subset of the addresses. *)
Lemma below_fresh_sub h h' : h_str h' = h_str h -> h_fresh h' = h_fresh h ->
  (forall x, is_Some (h_bb h' !! x) -> is_Some (h_bb h !! x)) -> below_fresh h -> below_fresh h'.
Proof.
  intros Es Ef Hsub [Hb Hs]. split; intros x n E; rewrite Ef.
  - destruct (Hsub x) as [n' E']; [by rewrite E | by apply (Hb x n')].
  - rewrite Es in E. by apply (Hs x n).
Qed.

Lemma merge_chain h bbl p A x nx y ny B : wf h p (A ++ (x, nx) :: (y, ny) :: B) ->
  bb_block nx < bb_block ny -> bbl_block_size bbl <> 0 ->
  exists r h', merge_bb bbl (Some x) (Some y) h = Ret (r, h') /\ untouched [x; y] h h' /\
  if mergeable (bbl_block_size bbl) (blk_of nx) (blk_of ny)
  then wf h' p (A ++ (x, merged_node nx ny) :: B) /\ h_bb h' !! y = None
  else h' = h.
Proof.
  intros [Hc Hd Hn Hf] Hlt Hbs.
  assert (Hx : h_bb h !! x = Some nx) by (apply (seg_lookup _ _ _ _ _ _ Hc); set_solver).
  assert (Hy : h_bb h !! y = Some ny) by (apply (seg_lookup _ _ _ _ _ _ Hc); set_solver).
  rewrite fmap_app, !fmap_cons in Hd. simpl in Hd.
  apply NoDup_app in Hd as (HdA & HAx & Hd). apply NoDup_cons in Hd as [Hxy Hd].
  apply NoDup_cons in Hd as [HyB HdB]. rewrite not_elem_of_cons in Hxy. destruct Hxy as [Hne HxB].
  rewrite (merge_bb_spec h bbl x y nx ny Hne Hx Hy Hlt Hbs (names_neighbours h A x nx y ny B Hn)).
  destruct (mergeable _ _ _); eexists _, _; (split; [reflexivity |]); [| by split].
  split.
  { split_and!; [done | done |]. intros w Hw. simpl.
    rewrite lookup_delete_ne, lookup_insert_ne by set_solver. done. }
  split; [| simpl; by rewrite lookup_delete_eq]. split; simpl.
  - apply seg_app in Hc as (r & HA & Hr). apply seg_app. exists r. simpl in Hr.
    destruct Hr as (-> & _ & Ey & _ & HB).
    assert (x ∉ A.*1) by (intros ?; apply (HAx x); set_solver).
    assert (y ∉ A.*1) by (intros ?; apply (HAx y); set_solver).
    split; [by rewrite seg_delete, seg_insert |]. simpl.
    rewrite lookup_delete_ne, lookup_insert_eq by done. split_and!; [done | done |].
    by rewrite seg_delete, seg_insert.
  - rewrite fmap_app, fmap_cons. simpl. apply NoDup_app. split_and!; [done | | by constructor].
    intros w Hw Hin. apply (HAx w Hw). set_solver.
  - apply (names_str h); [done |]. apply (names_sub h (A ++ (x, nx) :: (y, ny) :: B)); [| done].
    rewrite !names_app. simpl. rewrite name_of_merged.
    apply sublist_app; [done |]. destruct (name_of nx); destruct (name_of ny); try done.
    + by apply sublist_skip, sublist_cons.
    + by apply sublist_cons.
  - apply (below_fresh_sub h); [done | done | | done]. simpl. intros w Hw.
    destruct (decide (w = y)) as [-> | Hwy]; [by rewrite Hy |].
    rewrite lookup_delete_ne in Hw by done.
    destruct (decide (w = x)) as [-> | Hwx]; [by rewrite Hx |]. by rewrite lookup_insert_ne in Hw.
Qed.

(** ** Finding the place *)
Lemma seek_spec key h : forall l fuel x nx, seg (h_bb h) (Some x) ((x, nx) :: l) None ->
  (length l < fuel)%nat ->
  exists l1 y ny l2, (x, nx) :: l = l1 ++ (y, ny) :: l2 /\
    seek_loop fuel (Some x) key h = Ret (Some y, h) /\
    locate key (blk_of nx) (abs l) = (abs l1, blk_of ny, abs l2).
Proof.
  induction l as [|[w nw] l IH]; intros fuel x nx (_ & Hx & Hs) Hf;
    (destruct fuel as [|fuel]; [simpl in Hf; lia |]); cbn [seek_loop];
    rewrite (bindM _ _ _ _ _ (get_bb_ok h x nx Hx)); simpl in Hs.
  - rewrite Hs. by exists [], x, nx, [].
  - destruct Hs as (E & Hw & Hs). rewrite E. rewrite (bindM _ _ _ _ _ (get_bb_ok h w nw Hw)).
    cbn [abs map locate]. cbn [blk_of k_block snd] in *.
    destruct (Z.ltb_spec (bb_block nw) key) as [Hlt | Hge].
    + destruct (IH fuel w nw) as (l1 & y & ny & l2 & El & Eseek & Epl); [done | simpl in Hf; lia |].
      exists ((x, nx) :: l1), y, ny, l2. rewrite El. split_and!; try done.
      unfold abs in *. cbn [map app]. by rewrite Epl.
    + by exists [], x, nx, ((w, nw) :: l).
Qed.

(** Starting at any node before the place gives the same result. *)
Lemma locate_skip key : forall pre a r x l, a :: r = pre ++ x :: l ->
  StronglySorted blk_lt (a :: r) -> k_block x < key ->
  locate key a r = let '(pre', x', r') := locate key x l in (pre ++ pre', x', r').
Proof.
  induction pre as [|b pre IH]; intros a r x l E Hs Hlt; injection E as -> ->.
  { by destruct (locate key x l) as [[??]?]. }
  apply StronglySorted_inv in Hs as [Hs Hb]. cbn [app].
  destruct pre as [|c pre]; cbn [app locate] in *.
  - assert (E : (k_block x <? key) = true) by lia. rewrite E. by destruct (locate key x l) as [[??]?].
  - assert (Hc : k_block c < k_block x).
    { apply StronglySorted_inv in Hs as [_ Hc]. rewrite Forall_app, Forall_cons in Hc. apply Hc. }
    assert (E : (k_block c <? key) = true) by lia. rewrite E.
    rewrite (IH c (pre ++ x :: l) x l) by done. by destruct (locate key x l) as [[??]?].
Qed.

(** The located block splits a sorted list at the key. *)
Lemma locate_spec key : forall r a pre x r', locate key a r = (pre, x, r') ->
  StronglySorted blk_lt (a :: r) -> k_block a < key -> (forall b, b ∈ r -> k_block b <> key) ->
  a :: r = pre ++ x :: r' /\ k_block x < key /\ (forall b, b ∈ r' -> key < k_block b).
Proof.
  induction r as [|b r IH]; intros a pre x r' E Hs Ha Hne; cbn [locate] in E.
  - injection E as <- <- <-. split_and!; [done | done | set_solver].
  - destruct (Z.ltb_spec (k_block b) key) as [Hlt | Hge].
    + destruct (locate key b r) as [[pre1 x1] r1] eqn:El. injection E as <- <- <-.
      apply StronglySorted_inv in Hs as [Hs _].
      destruct (IH b pre1 x1 r1 El Hs Hlt) as (-> & Hx & Hr); [set_solver |]. done.
    + injection E as <- <- <-. split_and!; [done | done |]. intros c Hc.
      apply StronglySorted_inv in Hs as [Hs _]. apply StronglySorted_inv in Hs as [_ Hb].
      assert (k_block b <> key) by (apply Hne; set_solver).
      apply elem_of_cons in Hc as [-> | Hc]; [lia |].
      rewrite Forall_forall in Hb. specialize (Hb c Hc). unfold blk_lt in Hb. lia.
Qed.

Lemma abs_app l1 l2 : abs (l1 ++ l2) = abs l1 ++ abs l2.
Proof. apply map_app. Qed.

Lemma sorted_app l1 l2 : StronglySorted blk_lt (l1 ++ l2) <->
  StronglySorted blk_lt l1 /\ StronglySorted blk_lt l2 /\
  (forall a b, a ∈ l1 -> b ∈ l2 -> k_block a < k_block b).
Proof.
  induction l1 as [|c l1 IH]; cbn [app].
  - split; [intros H; split_and!; [constructor | done | set_solver] | tauto].
  - split.
    + intros H. apply StronglySorted_inv in H as [H Hc]. apply IH in H as (H1 & H2 & H3).
      rewrite Forall_app in Hc. destruct Hc as [Hc1 Hc2]. split_and!; [by constructor | done |].
      intros a b Ha Hb. apply elem_of_cons in Ha as [-> | Ha]; [| by apply H3].
      rewrite Forall_forall in Hc2. by apply Hc2.
    + intros (H1 & H2 & H3). apply StronglySorted_inv in H1 as [H1 Hc]. constructor.
      * apply IH. split_and!; try done. intros a b Ha Hb. apply H3; [by right | done].
      * rewrite Forall_app. split; [done |]. apply Forall_forall. intros b Hb. apply H3; [by left | done].
Qed.

(** ** Linking a new node in *)
Definition first (l : nodes) : ptr := match l with [] => None | (x, _) :: _ => Some x end.

Lemma wf_next h p A x nx B : wf h p (A ++ (x, nx) :: B) -> bb_next nx = first B.
Proof.
  intros [Hc _ _ _]. apply seg_app in Hc as (r & _ & (_ & _ & Hc)).
  destruct B as [|[y ny] B]; simpl in *; [done | tauto].
Qed.

Lemma wf_lookup h p l x n : wf h p l -> (x, n) ∈ l -> h_bb h !! x = Some n.
Proof. intros [Hc _ _ _]. by apply (seg_lookup _ _ _ _ _ _ Hc). Qed.

Lemma merge_null bbl x h : merge_bb bbl x None h = Ret (- EINVAL, h).
Proof. by destruct x. Qed.

Lemma mergeable_next bs n nx b : mergeable bs (blk_of (set_next nx n)) b = mergeable bs (blk_of n) b.
Proof. done. Qed.

(** The two merges after a node [z] was linked between [y] and [l2]. *)
Lemma splice_step h bbl p l1 y ny z nz l2 : wf h p (l1 ++ (y, ny) :: (z, nz) :: l2) ->
  bb_block ny < bb_block nz -> (forall b, b ∈ abs l2 -> bb_block nz < k_block b) ->
  bbl_block_size bbl <> 0 ->
  exists r2 h2 r3 h3 l', merge_bb bbl (Some z) (bb_next nz) h = Ret (r2, h2) /\
    merge_bb bbl (Some y) (Some z) h2 = Ret (r3, h3) /\
    wf h3 p (l1 ++ l') /\
    abs l' = splice (bbl_block_size bbl) (blk_of ny) (blk_of nz) (abs l2) /\
    untouched (y :: z :: l2.*1) h h3 /\
    (if mergeable (bbl_block_size bbl) (blk_of ny)
          (merge_right (bbl_block_size bbl) (blk_of nz) (abs l2)).1
     then h_bb h3 !! z = None else z ∈ l'.*1) /\ l'.*1 ⊆ y :: z :: l2.*1 /\ first l' = Some y.
Proof.
  intros Hwf Hyz Hzl Hbs. set (bs := bbl_block_size bbl) in *.
  assert (Hright : exists r2 h2 nz2 l3, merge_bb bbl (Some z) (bb_next nz) h = Ret (r2, h2) /\
    wf h2 p (l1 ++ (y, ny) :: (z, nz2) :: l3) /\ untouched (z :: l2.*1) h h2 /\
    (blk_of nz2, abs l3) = merge_right bs (blk_of nz) (abs l2) /\
    bb_block nz2 = bb_block nz /\ l3.*1 ⊆ l2.*1).
  { assert (En : bb_next nz = first l2).
    { apply (wf_next h p (l1 ++ [(y, ny)]) z). by rewrite <- app_assoc. }
    rewrite En. destruct l2 as [|[w nw] l2]; simpl first.
    - rewrite merge_null. by exists (- EINVAL), h, nz, [].
    - replace (l1 ++ (y, ny) :: (z, nz) :: (w, nw) :: l2)
        with ((l1 ++ [(y, ny)]) ++ (z, nz) :: (w, nw) :: l2) in Hwf by by rewrite <- app_assoc.
      destruct (merge_chain h bbl p _ z nz w nw l2 Hwf) as (r2 & h2 & E & Hu & H); [| done |].
      { apply (Hzl (blk_of nw)). simpl. left. }
      rewrite E. fold bs in H. exists r2, h2. unfold merge_right. cbn [abs map snd].
      destruct (mergeable bs (blk_of nz) (blk_of nw)).
      + destruct H as [H _]. rewrite <- app_assoc in H. exists (merged_node nz nw), l2.
        split_and!; try done; [| set_solver]. eapply untouched_weaken; [| done]. set_solver.
      + subst h2. rewrite <- app_assoc in Hwf. exists nz, ((w, nw) :: l2).
        split_and!; try done. }
  destruct Hright as (r2 & h2 & nz2 & l3 & E2 & Hwf2 & Hu2 & Emr & Eb & Hsub).
  destruct (merge_chain h2 bbl p l1 y ny z nz2 l3 Hwf2) as (r3 & h3 & E3 & Hu3 & H); [lia | done |].
  fold bs in H. unfold splice. rewrite <- Emr. cbn [fst].
  assert (Hu : untouched (y :: z :: l2.*1) h h3).
  { eapply untouched_trans; (eapply untouched_weaken; [| done]); set_solver. }
  destruct (mergeable bs (blk_of ny) (blk_of nz2)).
  - destruct H as [H Hz]. exists r2, h2, r3, h3, ((y, merged_node ny nz2) :: l3).
    split_and!; try done. simpl. set_solver.
  - subst h3. exists r2, h2, r3, h2, ((y, ny) :: (z, nz2) :: l3). split_and!; try done; simpl; set_solver.
Qed.

(** A node about to be queued: allocated, unlinked, and with a name of its own. *)
Record new_node (h : heap) (l : nodes) (z : loc) (nz : backed_block) : Prop := {
  nn_live : h_bb h !! z = Some nz;
  nn_next : bb_next nz = None;
  nn_out : z ∉ l.*1;
  nn_names : names_owned h ((z, nz) :: l);
  nn_block : forall b, b ∈ abs l -> k_block b <> bb_block nz
}.

Lemma names_perm h l l' : names l ≡ₚ names l' -> names_owned h l -> names_owned h l'.
Proof.
  intros Hp [Hd Hl]. split; [by rewrite <- Hp |]. intros f Hf. apply Hl. by rewrite Hp.
Qed.

Lemma set_next_id n : bb_next n = None -> set_next None n = n.
Proof. destruct n; simpl. by intros ->. Qed.

Definition linked (h : heap) (y : loc) (ny : backed_block) (z : loc) (nz : backed_block) : heap :=
  set_bbs (<[y := set_next (Some z) ny]> (<[z := set_next (bb_next ny) nz]> (h_bb h))) h.

Lemma link_new h p l1 y ny l2 z nz : wf h p (l1 ++ (y, ny) :: l2) ->
  new_node h (l1 ++ (y, ny) :: l2) z nz ->
  wf (linked h y ny z nz) p
     (l1 ++ (y, set_next (Some z) ny) :: (z, set_next (bb_next ny) nz) :: l2).
Proof.
  intros [Hc Hd Hn Hf] [Hz Hnx Hout Hnz _].
  rewrite fmap_app, fmap_cons in Hd, Hout. simpl in Hd, Hout.
  pose proof Hd as Hd'. apply NoDup_app in Hd' as (HdA & HAy & Hd2). apply NoDup_cons in Hd2 as [Hyl2 Hd2].
  assert (Hyl1 : y ∉ l1.*1) by (intros ?; apply (HAy y); set_solver).
  assert (Hzl1 : z ∉ l1.*1) by set_solver. assert (Hzl2 : z ∉ l2.*1) by set_solver.
  assert (Hyz : y <> z) by set_solver.
  split; simpl.
  - apply seg_app in Hc as (r & H1 & (-> & Hy & H2)). apply seg_app. exists (Some y).
    split; [by rewrite !seg_insert |]. simpl. rewrite lookup_insert_eq, lookup_insert_ne, lookup_insert_eq by done.
    split_and!; try done. by rewrite !seg_insert.
  - rewrite fmap_app, !fmap_cons. simpl. apply NoDup_app. split_and!; [done | set_solver |].
    constructor; [set_solver |]. by constructor.
  - apply (names_str h); [done |]. eapply names_perm; [| exact Hnz]. simpl. rewrite !names_app. simpl.
    unfold name_of, set_next. simpl. destruct (bb_type nz), (bb_type ny); simpl; try done; solve_Permutation.
  - apply (below_fresh_sub h); [done | done | | done]. simpl. intros w Hw.
    destruct (decide (w = z)) as [-> | ?]; [by rewrite Hz |].
    destruct (decide (w = y)) as [-> | ?].
    + apply seg_app in Hc as (r & H1 & (-> & Hy & H2)). by rewrite Hy.
    + by rewrite !lookup_insert_ne in Hw.
Qed.

(** The pointer writes of [queue_bb] at the place it found. *)
Lemma queue_links h y ny z nz : h_bb h !! y = Some ny -> h_bb h !! z = Some nz -> y <> z ->
  bb_next nz = None ->
  (match bb_next ny with None => mret tt | next => put_bb (Some z) (set_next next nz) end ≫= fun _ =>
   modify_bb (Some y) (set_next (Some z))) h = Ret (tt, linked h y ny z nz).
Proof.
  intros Hy Hz Hne Hnx. unfold linked.
  assert (E : (match bb_next ny with None => mret tt | next => put_bb (Some z) (set_next next nz) end) h
    = Ret (tt, set_bbs (<[z := set_next (bb_next ny) nz]> (h_bb h)) h)).
  { destruct (bb_next ny) as [q|]; [by rewrite (put_bb_ok h z nz) |].
    rewrite set_next_id by done. rewrite insert_id by done. by destruct h. }
  rewrite (bindM _ _ _ _ _ E). unfold modify_bb.
  assert (Hy' : h_bb (set_bbs (<[z := set_next (bb_next ny) nz]> (h_bb h)) h) !! y = Some ny)
    by (simpl; by rewrite lookup_insert_ne).
  rewrite (bindM _ _ _ _ _ (get_bb_ok _ _ _ Hy')), (put_bb_ok _ _ _ _ Hy'). done.
Qed.

Lemma bindM_assoc {A B C} (m : heapM A) (f : A -> heapM B) (k : B -> heapM C) h :
  (m ≫= (fun a => f a ≫= k)) h = ((m ≫= f) ≫= k) h.
Proof. unfold mbind, heapM_bind. by destruct (m h) as [[a h']| |]. Qed.

(** What queueing leaves, from a list [l] and a new node [z]. *)
Definition queued (bbl : backed_block_list) (h : heap) (l : nodes) (z : loc) (nz : backed_block)
    (bbl' : backed_block_list) (h' : heap) : Prop :=
  exists l', wf h' (data_blocks bbl') l' /\
    abs l' = insert_blk (bbl_block_size bbl) (blk_of nz) (abs l) /\
    untouched (z :: l.*1) h h' /\ l'.*1 ⊆ z :: l.*1 /\
    bbl_block_size bbl' = bbl_block_size bbl /\
    (if absorbed (bbl_block_size bbl) (blk_of nz) (abs l)
     then last_used bbl' = Some z /\ h_bb h' !! z = None
     else cache_ok bbl' l').

(** Where the search starts: the head, or the cached node when it is before the new one. *)
Definition search_start (bbl : backed_block_list) (nz : backed_block) : heapM ptr :=
  match last_used bbl with
  | None => mret (data_blocks bbl)
  | lu => l ← get_bb lu;
          mret (if bb_block l <? bb_block nz then lu else data_blocks bbl)
  end.

Lemma search_start_spec h bbl x nx r nz : wf h (data_blocks bbl) ((x, nx) :: r) ->
  cache_ok bbl ((x, nx) :: r) -> bb_block nx < bb_block nz ->
  exists pre s ns l0, (x, nx) :: r = pre ++ (s, ns) :: l0 /\ bb_block ns < bb_block nz /\
    search_start bbl nz h = Ret (Some s, h).
Proof.
  intros Hwf Hc Hlt. unfold search_start, cache_ok in *.
  assert (Hd : data_blocks bbl = Some x) by apply (wf_chain _ _ _ Hwf). rewrite Hd.
  destruct (last_used bbl) as [u|]; [| by exists [], x, nx, r].
  apply list_elem_of_fmap in Hc as ([u' nu] & -> & Hin). simpl.
  rewrite (bindM _ _ _ _ _ (get_bb_ok h u' nu (wf_lookup _ _ _ _ _ Hwf Hin))).
  destruct (Z.ltb_spec (bb_block nu) (bb_block nz)); [| by exists [], x, nx, r].
  apply list_elem_of_split in Hin as (pre & l0 & E). by exists pre, u', nu, l0.
Qed.

Lemma queue_after h bbl x nx r z nz : list_ok h bbl ((x, nx) :: r) -> cache_ok bbl ((x, nx) :: r) ->
  new_node h ((x, nx) :: r) z nz -> bbl_block_size bbl <> 0 -> bb_block nx < bb_block nz ->
  exists bbl' h', queue_bb bbl (Some z) h = Ret ((0, bbl'), h') /\
    queued bbl h ((x, nx) :: r) z nz bbl' h'.
Proof.
  intros [Hwf Hs] Hc Hnew Hbs Hlt. set (L := (x, nx) :: r) in *.
  assert (Hd : data_blocks bbl = Some x) by apply (wf_chain _ _ _ Hwf).
  assert (Hx : h_bb h !! x = Some nx) by (apply (wf_lookup _ _ L _ _ Hwf); left).
  destruct (search_start_spec h bbl x nx r nz Hwf Hc Hlt) as (pre & s & ns & l0 & EL & Hns & Estart).
  fold L in EL.
  assert (Hseg : seg (h_bb h) (Some s) ((s, ns) :: l0) None).
  { pose proof (wf_chain _ _ _ Hwf) as Hc'. rewrite EL in Hc'. apply seg_app in Hc' as (q & _ & Hq).
    simpl in Hq. destruct Hq as (-> & Hq). by split. }
  assert (Hfuel : (length l0 < S (size (h_bb h)))%nat).
  { pose proof (seg_size _ _ _ _ (wf_chain _ _ _ Hwf) (wf_nodup _ _ _ Hwf)) as Hz.
    rewrite EL, length_app in Hz. simpl in Hz. lia. }
  destruct (seek_spec (bb_block nz) h l0 _ s ns Hseg Hfuel) as (l1 & y & ny & l2 & El & Eseek & Eloc).
  assert (EL' : L = (pre ++ l1) ++ (y, ny) :: l2) by (by rewrite EL, El, app_assoc).
  assert (Eloc' : locate (bb_block nz) (blk_of nx) (abs r) = (abs (pre ++ l1), blk_of ny, abs l2)).
  { rewrite (locate_skip _ (abs pre) _ _ (blk_of ns) (abs l0)); [| | exact Hs | done].
    - by rewrite Eloc, abs_app.
    - change (blk_of nx :: abs r) with (abs L). rewrite EL. apply abs_app. }
  destruct (locate_spec _ _ _ _ _ _ Eloc' Hs Hlt) as (_ & Hyz & Hzl).
  { intros b Hb. apply (nn_block _ _ _ _ Hnew). right. exact Hb. }
  assert (Hwf' : wf h (data_blocks bbl) ((pre ++ l1) ++ (y, ny) :: l2)) by (by rewrite <- EL').
  assert (Hnew' : new_node h ((pre ++ l1) ++ (y, ny) :: l2) z nz) by (by rewrite <- EL').
  assert (Hy : h_bb h !! y = Some ny) by (apply (wf_lookup _ _ _ _ _ Hwf'); set_solver).
  assert (Hyz' : y <> z) by (intros ->; apply (nn_out _ _ _ _ Hnew'); rewrite fmap_app; set_solver).
  pose proof (link_new _ _ _ _ _ _ _ _ Hwf' Hnew') as Hlink.
  set (bbl1 := BBL (data_blocks bbl) (Some z) (bbl_block_size bbl)).
  destruct (splice_step _ bbl1 _ _ _ _ _ _ _ Hlink Hyz Hzl Hbs)
    as (r2 & h2 & r3 & h3 & l' & E2 & E3 & Hwf3 & Eabs & Hu3 & Hcache & Hsub & Hfst).
  exists bbl1, h3. split.
  - unfold queue_bb, list_fuel. rewrite (bindM _ _ h (S (size (h_bb h))) h) by done. rewrite Hd.
    rewrite (bindM _ _ _ _ _ (get_bb_ok _ _ _ Hx)), (bindM _ _ _ _ _ (get_bb_ok _ _ _ (nn_live _ _ _ _ Hnew))).
    assert (Elt : (bb_block nz <? bb_block nx) = false) by lia. rewrite Elt.
    rewrite <- Hd. rewrite (bindM _ _ _ _ _ Estart). cbv zeta.
    rewrite (bindM _ _ _ _ _ Eseek), (bindM _ _ _ _ _ (get_bb_ok _ _ _ Hy)).
    rewrite bindM_assoc.
    rewrite (bindM _ _ _ _ _ (queue_links h y ny z nz Hy (nn_live _ _ _ _ Hnew) Hyz' (nn_next _ _ _ _ Hnew))).
    assert (Hz1 : h_bb (linked h y ny z nz) !! z = Some (set_next (bb_next ny) nz))
      by (simpl; by rewrite lookup_insert_ne, lookup_insert_eq).
    rewrite (bindM _ _ _ _ _ (get_bb_ok _ _ _ Hz1)). fold bbl1.
    by rewrite (bindM _ _ _ _ _ E2), (bindM _ _ _ _ _ E3).
  - exists ((pre ++ l1) ++ l'). split_and!; try done.
    + rewrite abs_app, Eabs. unfold insert_blk, L. cbn [abs map snd].
      assert (Elt : (k_block (blk_of nz) <? k_block (blk_of nx)) = false) by (simpl; lia). rewrite Elt.
      change (k_block (blk_of nz)) with (bb_block nz). change (map _ r) with (abs r). by rewrite Eloc'.
    + rewrite EL', fmap_app. simpl. eapply untouched_trans; [| eapply untouched_weaken; [| exact Hu3]].
      * split_and!; [done | done |]. intros w Hw. simpl.
        rewrite !lookup_insert_ne by set_solver. done.
      * set_solver.
    + rewrite EL', !fmap_app. simpl. set_solver.
    + unfold absorbed, L. cbn [abs map snd].
      assert (Elt : (k_block (blk_of nz) <? k_block (blk_of nx)) = false) by (simpl; lia). rewrite Elt.
      change (k_block (blk_of nz)) with (bb_block nz). change (map _ r) with (abs r). rewrite Eloc'.
      change (merge_right _ (blk_of nz) (abs l2)) with
        (merge_right (bbl_block_size bbl1) (blk_of (set_next (bb_next ny) nz)) (abs l2)).
      destruct (mergeable _ _ _) in Hcache |- *; [done |].
      unfold cache_ok. simpl. rewrite fmap_app. set_solver.
Qed.

Lemma queue_front h bbl x nx r z nz : list_ok h bbl ((x, nx) :: r) -> cache_ok bbl ((x, nx) :: r) ->
  new_node h ((x, nx) :: r) z nz -> bb_block nz < bb_block nx ->
  exists bbl' h', queue_bb bbl (Some z) h = Ret ((0, bbl'), h') /\
    queued bbl h ((x, nx) :: r) z nz bbl' h'.
Proof.
  intros [Hwf Hs] Hc Hnew Hlt. set (L := (x, nx) :: r) in *.
  assert (Hd : data_blocks bbl = Some x) by apply (wf_chain _ _ _ Hwf).
  assert (Hx : h_bb h !! x = Some nx) by (apply (wf_lookup _ _ L _ _ Hwf); left).
  assert (Elt : (bb_block nz <? bb_block nx) = true) by lia.
  destruct Hnew as [Hz Hnx Hout Hn Hb]. eexists _, _. split.
  - unfold queue_bb, list_fuel. rewrite (bindM _ _ h (S (size (h_bb h))) h) by done. rewrite Hd.
    rewrite (bindM _ _ _ _ _ (get_bb_ok _ _ _ Hx)), (bindM _ _ _ _ _ (get_bb_ok _ _ _ Hz)).
    rewrite Elt, (bindM _ _ _ _ _ (put_bb_ok _ _ _ _ Hz)). reflexivity.
  - exists ((z, set_next (Some x) nz) :: L). split_and!.
    + destruct Hwf as [Hch Hnd Hnm Hf]. clearbody L. split; simpl.
      * rewrite lookup_insert_eq. split_and!; try done. rewrite seg_insert by done. by rewrite <- Hd.
      * by constructor.
      * by apply (names_str h).
      * apply (below_fresh_sub h); [done | done | | done]. simpl. intros w Hw.
        destruct (decide (w = z)) as [-> | ?]; [by rewrite Hz | by rewrite lookup_insert_ne in Hw].
    + unfold insert_blk, L. cbn [abs map snd]. change (k_block (blk_of nz)) with (bb_block nz).
      change (k_block (blk_of nx)) with (bb_block nx). by rewrite Elt.
    + split_and!; try done. intros w Hw. simpl. by rewrite lookup_insert_ne by set_solver.
    + done.
    + done.
    + unfold absorbed, L. cbn [abs map snd]. change (k_block (blk_of nz)) with (bb_block nz).
      change (k_block (blk_of nx)) with (bb_block nx). rewrite Elt. unfold cache_ok in *. simpl.
      destruct (last_used bbl); [| done]. by right.
Qed.

(** Queueing a node refines insertion into the sorted list. *)
Lemma queue_spec h bbl l z nz : list_ok h bbl l -> cache_ok bbl l -> new_node h l z nz ->
  bbl_block_size bbl <> 0 ->
  exists bbl' h', queue_bb bbl (Some z) h = Ret ((0, bbl'), h') /\ queued bbl h l z nz bbl' h'.
Proof.
  intros Hok Hc Hnew Hbs. destruct l as [|[x nx] r].
  - destruct Hok as [[Hch Hnd Hnm Hf] _], Hnew as [Hz Hnx Hout Hn Hb]. simpl in Hch.
    unfold queue_bb, list_fuel. rewrite (bindM _ _ h (S (size (h_bb h))) h) by done. rewrite Hch.
    eexists _, _. split; [reflexivity |]. exists [(z, nz)]. split_and!; try done.
    + split; simpl; try done. by constructor; [set_solver |].
    + simpl. unfold cache_ok in *. simpl. destruct (last_used bbl); [set_solver | done].
  - pose proof (nn_block _ _ _ _ Hnew (blk_of nx) ltac:(left)) as Hne. simpl in Hne.
    destruct (Z.lt_ge_cases (bb_block nz) (bb_block nx)).
    + by apply queue_front.
    + apply queue_after; try done. lia.
Qed.

(** ** Insertion keeps the list sorted *)
Lemma merge_right_block bs n rest : k_block (merge_right bs n rest).1 = k_block n.
Proof. destruct rest as [|b r]; [done |]. simpl. by destruct (mergeable _ _ _). Qed.

Lemma merge_right_sub bs n rest : (merge_right bs n rest).2 `sublist_of` rest.
Proof.
  destruct rest as [|b r]; [done |]. simpl. destruct (mergeable _ _ _); simpl; [by apply sublist_cons | done].
Qed.

Lemma sorted_sublist l l' : l' `sublist_of` l -> StronglySorted blk_lt l -> StronglySorted blk_lt l'.
Proof.
  induction 1 as [|x l1 l2 Hs IH|x l1 l2 Hs IH]; intros H; [done | |].
  - apply StronglySorted_inv in H as [H Hx]. constructor; [by apply IH |].
    rewrite Forall_forall in *. intros y Hy. apply Hx. by apply (elem_of_sublist l1).
  - apply StronglySorted_inv in H as [H _]. by apply IH.
Qed.

(** Blocks between [lo] and everything in [rest]. *)
Lemma splice_sorted bs a n rest : k_block a < k_block n ->
  (forall b, b ∈ rest -> k_block n < k_block b) -> StronglySorted blk_lt rest ->
  StronglySorted blk_lt (splice bs a n rest) /\
  (forall b, b ∈ splice bs a n rest -> k_block a <= k_block b).
Proof.
  intros Han Hn Hs. unfold splice.
  pose proof (merge_right_block bs n rest) as Hb. pose proof (merge_right_sub bs n rest) as Hsub.
  destruct (merge_right bs n rest) as [n' rest']. simpl in Hb, Hsub.
  pose proof (sorted_sublist _ _ Hsub Hs) as Hs'.
  assert (Hn' : forall b, b ∈ rest' -> k_block n < k_block b).
  { intros b Hin. apply Hn. by apply (elem_of_sublist rest'). }
  destruct (mergeable bs a n'); split.
  - constructor; [done |]. apply Forall_forall. intros b Hin. specialize (Hn' b Hin). unfold blk_lt. simpl. lia.
  - intros b Hin. apply elem_of_cons in Hin as [-> | Hin]; [simpl; lia |]. specialize (Hn' b Hin). lia.
  - constructor; [constructor; [done |] |].
    + apply Forall_forall. intros b Hin. specialize (Hn' b Hin). unfold blk_lt. lia.
    + apply Forall_forall. intros b Hin. unfold blk_lt.
      apply elem_of_cons in Hin as [-> | Hin]; [lia |]. specialize (Hn' b Hin). lia.
  - intros b Hin. apply elem_of_cons in Hin as [-> | Hin]; [lia |].
    apply elem_of_cons in Hin as [-> | Hin]; [lia |]. specialize (Hn' b Hin). lia.
Qed.

Lemma insert_sorted bs n l : StronglySorted blk_lt l -> (forall b, b ∈ l -> k_block b <> k_block n) ->
  StronglySorted blk_lt (insert_blk bs n l).
Proof.
  intros Hs Hne. destruct l as [|a r]; [by repeat constructor |]. simpl.
  destruct (Z.ltb_spec (k_block n) (k_block a)) as [Hlt | Hge].
  - constructor; [done |]. apply StronglySorted_inv in Hs as [_ Ha].
    constructor; [done |]. rewrite Forall_forall in *. intros b Hb. specialize (Ha b Hb).
    unfold blk_lt in *. lia.
  - assert (Hlt : k_block a < k_block n) by (specialize (Hne a ltac:(left)); lia).
    destruct (locate (k_block n) a r) as [[pre x] r'] eqn:E.
    destruct (locate_spec _ _ _ _ _ _ E Hs Hlt) as (El & Hx & Hr); [set_solver |].
    rewrite El in Hs. apply sorted_app in Hs as (H1 & H2 & H3).
    apply StronglySorted_inv in H2 as [H2 _].
    destruct (splice_sorted bs x n r' Hx Hr H2) as [H4 H5]. apply sorted_app. split_and!; try done.
    intros b c Hb Hc. specialize (H3 b x Hb ltac:(left)). specialize (H5 c Hc). lia.
Qed.
