(* ===== verification/BackedBlockContent.v ===== *)
(** * What a list of blocks says about the image

    The content of a list is, for each block of the image, the source of its
    bytes and how many of them there are. Queueing adds the new block to the
    content and changes nothing else; splitting changes nothing. The theorems
    on backed_block.c are at the end. *)

From S2P Require Import Prelude.
From S2P Require Import BackedBlock.
From S2P Require Import BackedBlockSpec.

#[local] Set Warnings "-clear-no-such-hyp".

(** The first of two optional values. *)
Definition or_else {A} (x y : option A) : option A := match x with Some _ => x | None => y end.
Notation "x <|> y" := (or_else x y) (at level 50, left associativity) : Z_scope.

Lemma or_else_assoc {A} (x y z : option A) : x <|> (y <|> z) = x <|> y <|> z.
Proof. by destruct x. Qed.

Lemma or_else_none {A} (x : option A) : x <|> None = x.
Proof. by destruct x. Qed.

Section Content.
Context (bs : Z) (Hbs : 0 < bs).

(** Blocks a run of [len] bytes takes. *)
Definition blocks_of (len : Z) : Z := (len + bs - 1) / bs.
Definition end_of (a : blk) : Z := k_block a + blocks_of (k_len a).

(** Block [i] of the image as [a] provides it: where its bytes come from, and their number. *)
Definition piece (a : blk) (i : Z) : option (bb_kind * Z) :=
  if (k_block a <=? i) && (i <? end_of a)
  then Some (advance (k_kind a) ((i - k_block a) * bs), Z.min bs (k_len a - (i - k_block a) * bs))
  else None.

Fixpoint content (l : list blk) (i : Z) : option (bb_kind * Z) :=
  match l with
  | [] => None
  | a :: l' => piece a i <|> content l' i
  end.

Definition before (a b : blk) : Prop := end_of a <= k_block b.
Definition apart (a b : blk) : Prop := before a b \/ before b a.

Fixpoint total_len (l : list blk) : Z :=
  match l with [] => 0 | a :: l' => k_len a + total_len l' end.

Definition blk_ok (a : blk) : Prop := 0 <= k_len a < 2 ^ 32 /\ 0 <= k_block a.

Lemma content_app l1 l2 i : content (l1 ++ l2) i = content l1 i <|> content l2 i.
Proof. induction l1 as [|a l1 IH]; simpl; [done | by rewrite IH, or_else_assoc]. Qed.

Lemma piece_apart a b i : apart a b -> piece a i = None \/ piece b i = None.
Proof. intros [H | H]; unfold before, piece in *; zcase; auto; lia. Qed.

Lemma union_swap {A} (x y : option A) : x = None \/ y = None -> x <|> y = y <|> x.
Proof. intros [-> | ->]; [by destruct y | by destruct x]. Qed.

Lemma content_none a l i : (forall b, b ∈ l -> apart a b) -> piece a i = None \/ content l i = None.
Proof.
  induction l as [|b l IH]; intros H; [by right |].
  destruct IH as [E | E]; [set_solver | by left |].
  destruct (piece_apart a b i) as [E' | E']; [apply H; left | by left |].
  right. simpl. by rewrite E', E.
Qed.

Lemma content_move a l1 l2 i : (forall b, b ∈ l1 -> apart a b) ->
  content (l1 ++ a :: l2) i = content (a :: l1 ++ l2) i.
Proof.
  intros H. rewrite content_app. simpl. rewrite content_app.
  rewrite !or_else_assoc. f_equal. apply union_swap. destruct (content_none a l1 i H); auto.
Qed.

Lemma blocks_nonneg len : 0 <= len -> 0 <= blocks_of len.
Proof. intros. unfold blocks_of. apply Z.div_pos; lia. Qed.

Lemma blocks_mul k : blocks_of (k * bs) = k.
Proof. unfold blocks_of. symmetry. apply (Z.div_unique _ _ _ (bs - 1)); lia. Qed.

Lemma blocks_add_mul k len : blocks_of (k * bs + len) = k + blocks_of len.
Proof.
  unfold blocks_of. replace (k * bs + len + bs - 1) with (len + bs - 1 + k * bs) by lia.
  rewrite Z.div_add by lia. lia.
Qed.

Lemma swrap_add w x y : 0 < w -> swrap w (swrap w x + y) = swrap w (x + y).
Proof.
  intros Hw. unfold swrap. f_equal.
  replace ((x + 2 ^ (w - 1)) mod 2 ^ w - 2 ^ (w - 1) + y + 2 ^ (w - 1))
    with ((x + 2 ^ (w - 1)) mod 2 ^ w + y) by lia.
  rewrite Zplus_mod_idemp_l. f_equal. lia.
Qed.

Lemma advance_advance k x y : advance (advance k x) y = advance k (x + y).
Proof.
  destruct k; simpl; f_equal; try lia; rewrite swrap_add by lia; f_equal; lia.
Qed.

(** A mergeable pair that does not overlap is contiguous. *)
Lemma mergeable_end a b : blk_ok a -> blk_ok b -> before a b -> k_block b < 2 ^ 32 ->
  mergeable bs a b = true ->
  exists k, k_len a = k * bs /\ k_block b = k_block a + k /\ 0 <= k /\
  forall x, advance (k_kind b) x = advance (k_kind a) (k * bs + x).
Proof.
  intros [Ha Hka] [Hb Hkb] Hbef Hlim Hm. unfold mergeable in Hm. apply andb_true_iff in Hm as [Hm Hk].
  apply Z.eqb_eq in Hm. unfold before, end_of in Hbef.
  pose proof (Z.div_pos (k_len a) bs ltac:(lia) Hbs).
  assert (Hfl : k_len a / bs <= blocks_of (k_len a)).
  { unfold blocks_of. apply Z.div_le_mono; lia. }
  rewrite wrap_small in Hm by (unfold in_range; lia).
  assert (Hq : blocks_of (k_len a) = k_len a / bs) by lia.
  pose proof (Z.div_mod (k_len a) bs ltac:(lia)) as Hdm.
  pose proof (Z.mod_pos_bound (k_len a) bs Hbs) as Hmod.
  assert (Hz : k_len a mod bs = 0).
  { destruct (Z.eq_dec (k_len a mod bs) 0) as [|Hnz]; [done | exfalso].
    assert (blocks_of (k_len a) = k_len a / bs + 1); [| lia].
    unfold blocks_of. symmetry. apply (Z.div_unique _ _ _ (k_len a mod bs - 1)); lia. }
  exists (k_len a / bs). assert (El : k_len a = k_len a / bs * bs) by lia.
  split_and!; [done | lia | done |]. intros x. rewrite <- El.
  unfold kinds_continue in Hk. destruct (k_kind a), (k_kind b); try discriminate; simpl; zbool; subst.
  - rewrite swrap_add by lia. do 2 f_equal. lia.
  - done.
Qed.

Lemma merge_piece a b i : blk_ok a -> blk_ok b -> before a b -> k_block b < 2 ^ 32 ->
  k_len a + k_len b < 2 ^ 32 -> mergeable bs a b = true ->
  piece (merge a b) i = piece a i <|> piece b i.
Proof.
  intros Ha Hb Hbef Hlim Hsum Hm.
  destruct (mergeable_end a b Ha Hb Hbef Hlim Hm) as (k & El & Eb & Hk & Hadv).
  destruct Ha as [Ha _], Hb as [Hb _]. pose proof (blocks_nonneg (k_len b) ltac:(lia)).
  unfold piece, end_of, merge. cbn [k_block k_len k_kind].
  rewrite (wrap_small 32 (k_len a + k_len b)) by (unfold in_range; lia).
  rewrite El, blocks_add_mul, blocks_mul, Eb.
  destruct (Z.leb_spec (k_block a) i), (Z.ltb_spec i (k_block a + (k + blocks_of (k_len b)))),
    (Z.ltb_spec i (k_block a + k)), (Z.leb_spec (k_block a + k) i),
    (Z.ltb_spec i (k_block a + k + blocks_of (k_len b))); cbn [andb or_else]; try lia; try done.
  - assert (bs <= k * bs - (i - k_block a) * bs) by nia. do 2 f_equal.
    rewrite !Z.min_l by lia. done.
  - rewrite Hadv. f_equal. f_equal; [f_equal; lia |]. f_equal. lia.
Qed.

(** Blocks in order, none overlapping the next. *)
Definition follows (a b : blk) : Prop := blk_lt a b /\ before a b.
Definition laid (l : list blk) : Prop := StronglySorted follows l.

Definition list_fits (l : list blk) : Prop :=
  Forall blk_ok l /\ (forall b, b ∈ l -> k_block b < 2 ^ 32) /\ total_len l < 2 ^ 32.

Lemma total_len_app l1 l2 : total_len (l1 ++ l2) = total_len l1 + total_len l2.
Proof. induction l1; simpl; lia. Qed.

Lemma total_len_nonneg l : Forall blk_ok l -> 0 <= total_len l.
Proof. induction 1 as [|a l [Ha _] Hl IH]; simpl; lia. Qed.

Lemma apart_follows a b : 0 <= k_len a -> 0 <= k_len b -> apart a b -> k_block a < k_block b -> follows a b.
Proof.
  intros Ha Hb Hap Hlt. split; [done |]. destruct Hap as [|Hba]; [done |]. exfalso.
  unfold before, end_of in Hba. pose proof (blocks_nonneg (k_len b) Hb). lia.
Qed.

Lemma merge_end a b : blk_ok a -> blk_ok b -> before a b -> k_block b < 2 ^ 32 ->
  k_len a + k_len b < 2 ^ 32 -> mergeable bs a b = true -> end_of (merge a b) = end_of b.
Proof.
  intros Ha Hb Hbef Hlim Hsum Hm.
  destruct (mergeable_end a b Ha Hb Hbef Hlim Hm) as (k & El & Eb & Hk & _).
  unfold end_of, merge. cbn [k_block k_len]. destruct Ha as [Ha _], Hb as [Hb _].
  rewrite (wrap_small 32) by (unfold in_range; lia). rewrite El, blocks_add_mul, Eb. lia.
Qed.

(** Merging neighbours keeps a laid-out run, its content and its length. *)
Lemma merge_laid a b l : laid (a :: b :: l) -> list_fits (a :: b :: l) -> mergeable bs a b = true ->
  laid (merge a b :: l) /\ list_fits (merge a b :: l) /\
  total_len (merge a b :: l) = total_len (a :: b :: l) /\
  forall i, content (merge a b :: l) i = content (a :: b :: l) i.
Proof.
  intros Hlaid (Hok & Hlim & Htot) Hm.
  apply StronglySorted_inv in Hlaid as [Hlaid Ha]. apply StronglySorted_inv in Hlaid as [Hlaid Hb].
  apply Forall_cons in Ha as [[Hab1 Hab] Ha]. apply Forall_cons in Hok as [Oka Hok].
  apply Forall_cons in Hok as [Okb Hok]. pose proof (total_len_nonneg l Hok). simpl in Htot.
  assert (Hsum : k_len a + k_len b < 2 ^ 32) by lia.
  assert (Hblim : k_block b < 2 ^ 32) by (apply Hlim; set_solver).
  pose proof (merge_end a b Oka Okb Hab Hblim Hsum Hm) as Hend.
  assert (Elen : k_len (merge a b) = k_len a + k_len b).
  { simpl. destruct Oka as [Oka _], Okb as [Okb _]. apply wrap_small. unfold in_range. lia. }
  split_and!.
  - constructor; [done |]. rewrite Forall_forall in *. intros c Hc. specialize (Ha c Hc). specialize (Hb c Hc).
    unfold follows, before, blk_lt in *. rewrite Hend. simpl. lia.
  - unfold list_fits. split_and!.
    + constructor; [| done]. destruct Oka, Okb. split; [rewrite Elen; lia | simpl; lia].
    + intros c Hc. apply elem_of_cons in Hc as [-> | Hc]; [apply (Hlim a); left | apply Hlim; set_solver].
    + cbn [total_len]. rewrite Elen. lia.
  - cbn [total_len]. rewrite Elen. lia.
  - intros i. cbn [content]. by rewrite merge_piece, or_else_assoc.
Qed.

Lemma splice_laid a n rest : laid (a :: n :: rest) -> list_fits (a :: n :: rest) ->
  laid (splice bs a n rest) /\ list_fits (splice bs a n rest) /\
  total_len (splice bs a n rest) = total_len (a :: n :: rest) /\
  (forall i, content (splice bs a n rest) i = content (a :: n :: rest) i).
Proof.
  intros Hl Hf. unfold splice, merge_right.
  assert (Hstep : exists n' rest', (match rest with b :: r => if mergeable bs n b then (merge n b, r) else (n, rest)
      | [] => (n, []) end) = (n', rest') /\ laid (a :: n' :: rest') /\ list_fits (a :: n' :: rest') /\
      total_len (a :: n' :: rest') = total_len (a :: n :: rest) /\
      forall i, content (a :: n' :: rest') i = content (a :: n :: rest) i).
  { destruct rest as [|b r]; [by exists n, [] |].
    destruct (mergeable bs n b) eqn:Hm; [| by exists n, (b :: r)].
    apply StronglySorted_inv in Hl as [Hl Ha]. destruct Hf as (Hok & Hlim & Htot).
    apply Forall_cons in Hok as [Oka Hok]. pose proof Oka as [Oka1 _]. simpl in Htot.
    destruct (merge_laid n b r Hl) as (H1 & (Hok' & Hlim' & H2') & H3 & H4); [| done |].
    { split_and!; [done | intros; apply Hlim; set_solver | simpl; lia]. }
    exists (merge n b), r. split; [done |]. split_and!.
    - constructor; [done |]. apply Forall_cons in Ha as [Han Ha]. apply Forall_cons in Ha as [_ Ha].
      constructor; [| done]. exact Han.
    - unfold list_fits. split_and!; [by constructor | | cbn [total_len] in *; lia].
      intros c Hc. apply elem_of_cons in Hc as [-> | Hc]; [apply Hlim; left | by apply Hlim'].
    - cbn [total_len] in *. lia.
    - intros i. cbn [content] in *. by rewrite H4. }
  destruct Hstep as (n' & rest' & -> & Hl' & Hf' & Ht' & Hc').
  destruct (mergeable bs a n') eqn:Hm; [| by rewrite Ht'].
  destruct (merge_laid a n' rest' Hl' Hf' Hm) as (H1 & H2 & H3 & H4). split_and!; try done.
  - by rewrite H3, Ht'.
  - intros i. by rewrite H4, Hc'.
Qed.

Lemma laid_sorted l : laid l -> StronglySorted blk_lt l.
Proof.
  induction 1 as [|a l Hl IH Ha]; constructor; [done |].
  rewrite Forall_forall in *. intros b Hb. by apply Ha.
Qed.

Lemma laid_app l1 l2 : laid (l1 ++ l2) <->
  laid l1 /\ laid l2 /\ (forall a b, a ∈ l1 -> b ∈ l2 -> follows a b).
Proof.
  unfold laid. induction l1 as [|c l1 IH]; cbn [app].
  - split; [intros H; split_and!; [constructor | done | set_solver] | tauto].
  - split.
    + intros H. apply StronglySorted_inv in H as [H Hc]. apply IH in H as (H1 & H2 & H3).
      rewrite Forall_app in Hc. destruct Hc as [Hc1 Hc2]. split_and!; [by constructor | done |].
      intros a b Ha Hb. apply elem_of_cons in Ha as [-> | Ha]; [| by apply H3].
      rewrite Forall_forall in Hc2. by apply Hc2.
    + intros (H1 & H2 & H3). apply StronglySorted_inv in H1 as [H1 Hc]. constructor.
      * apply IH. split_and!; try done. intros a b Ha Hb. apply H3; [by right | done].
      * rewrite Forall_app. split; [done |]. apply Forall_forall. intros b Hb. apply H3; [by left | done].
Qed.

Lemma splice_bounds a n rest : laid (a :: n :: rest) -> list_fits (a :: n :: rest) ->
  forall b, b ∈ splice bs a n rest -> k_block a <= k_block b.
Proof.
  intros Hl Hf. pose proof (laid_sorted _ Hl) as Hs. apply sorted_app with (l1 := [a; n]) in Hs as (H1 & H2 & H3).
  apply StronglySorted_inv in H1 as [_ H1]. apply Forall_cons in H1 as [H1 _].
  apply (splice_sorted bs a n rest H1); [| done]. intros b Hb. apply (H3 n b); [set_solver | done].
Qed.

(** Queueing a block that overlaps no other one adds its content. *)
Lemma insert_content n l : laid l -> list_fits (n :: l) ->
  (forall b, b ∈ l -> apart n b /\ k_block b <> k_block n) ->
  laid (insert_blk bs n l) /\ list_fits (insert_blk bs n l) /\
  total_len (insert_blk bs n l) = total_len (n :: l) /\
  (forall i, content (insert_blk bs n l) i = content (n :: l) i).
Proof.
  intros Hl Hf Hn. destruct l as [|a r]; [split_and!; try done; by repeat constructor |].
  pose proof Hf as (Hok & Hlim & Htot). rewrite Forall_forall in Hok.
  assert (Hfol : forall b, b ∈ a :: r -> k_block n < k_block b -> follows n b).
  { intros b Hb Hlt. apply apart_follows; [apply (Hok n); left | apply (Hok b); by right | by apply Hn | done]. }
  assert (Hfol' : forall b, b ∈ a :: r -> k_block b < k_block n -> follows b n).
  { intros b Hb Hlt. apply apart_follows; [apply (Hok b); by right | apply (Hok n); left | | done].
    destruct (Hn b Hb) as [[H | H] _]; [by right | by left]. }
  unfold insert_blk. destruct (Z.ltb_spec (k_block n) (k_block a)) as [Hlt | Hge].
  - split_and!; try done. constructor; [done |]. apply Forall_forall. intros b Hb. apply Hfol; [done |].
    apply laid_sorted, StronglySorted_inv in Hl as [_ Ha]. rewrite Forall_forall in Ha.
    apply elem_of_cons in Hb as [-> | Hb]; [done |]. specialize (Ha b Hb). unfold blk_lt in Ha. lia.
  - assert (Hlt : k_block a < k_block n) by (destruct (Hn a ltac:(left)); lia).
    destruct (locate (k_block n) a r) as [[pre x] r'] eqn:E.
    destruct (locate_spec _ _ _ _ _ _ E (laid_sorted _ Hl) Hlt) as (El & Hx & Hr).
    { intros b Hb. apply Hn. by right. }
    rewrite El in *. clear a r E Hge Hlt El. apply laid_app in Hl as (Hl1 & Hl2 & Hl12).
    apply StronglySorted_inv in Hl2 as [Hl2 Hxr].
    assert (Hl3 : laid (x :: n :: r')).
    { constructor; [constructor; [done |] |].
      - apply Forall_forall. intros b Hb. apply Hfol; [set_solver | by apply Hr].
      - constructor; [apply Hfol'; [set_solver | done] | done]. }
    assert (Hf3 : list_fits (x :: n :: r')).
    { assert (Hpre : 0 <= total_len pre) by (apply total_len_nonneg, Forall_forall; intros b Hb; apply Hok; set_solver).
      split_and!; [apply Forall_forall; intros b Hb; apply Hok; set_solver | intros; apply Hlim; set_solver |].
      cbn [total_len] in *. rewrite total_len_app in Htot. cbn [total_len] in Htot. lia. }
    destruct (splice_laid x n r' Hl3 Hf3) as (H1 & (H2 & H2' & _) & H3 & H4).
    pose proof (splice_bounds x n r' Hl3 Hf3) as Hbd.
    assert (Etot : total_len (pre ++ splice bs x n r') = total_len (n :: pre ++ x :: r')).
    { rewrite total_len_app, H3. cbn [total_len]. rewrite total_len_app. cbn [total_len]. lia. }
    split_and!.
    + apply laid_app. split_and!; try done. intros b c Hb Hc. specialize (Hl12 b x Hb ltac:(left)).
      specialize (Hbd c Hc). unfold follows, blk_lt, before in *. lia.
    + unfold list_fits. rewrite Etot. split_and!; [| | done].
      * apply Forall_app. split; [| done]. apply Forall_forall. intros b Hb. apply Hok. set_solver.
      * intros b Hb. apply elem_of_app in Hb as [Hb | Hb]; [apply Hlim; set_solver | by apply H2'].
    + done.
    + intros i. rewrite content_app, H4. change (content pre i <|> content (x :: n :: r') i) with
        (content pre i <|> content ([x] ++ n :: r') i).
      rewrite <- content_app, app_assoc. rewrite content_move; [by rewrite <- app_assoc |].
      intros b Hb. apply Hn. set_solver.
Qed.

End Content.

(** ** Adding to a list

    One request per [backed_block_add_*] function. *)
Inductive add_request :=
  | AddData (data : Z * Z)
  | AddFile (filename : bytes) (offset : Z)
  | AddFd (fd offset : Z)
  | AddFill (fill_val : Z).

Definition run_add (bbl : backed_block_list) (r : add_request) (len block : Z) :=
  match r with
  | AddData data => backed_block_add_data bbl data len block
  | AddFile filename offset => backed_block_add_file bbl filename offset len block
  | AddFd fd offset => backed_block_add_fd bbl fd offset len block
  | AddFill fill_val => backed_block_add_fill bbl fill_val len block
  end.

(** The payload the new node gets; a file name is duplicated at [name]. *)
Definition kind_of (r : add_request) (name : loc) : bb_kind :=
  match r with
  | AddData data => BACKED_BLOCK_DATA data.1 data.2
  | AddFile _ offset => BACKED_BLOCK_FILE name offset
  | AddFd fd offset => BACKED_BLOCK_FD fd offset
  | AddFill fill_val => BACKED_BLOCK_FILL fill_val
  end.

Definition alloc_ok (h : heap) : Prop := head (h_script h) <> Some false.

Lemma alloc_bb_ok h n : alloc_ok h -> alloc_bb n h =
  Ret (Some (h_fresh h), Heap (<[h_fresh h := n]> (h_bb h)) (h_str h) (Pos.succ (h_fresh h)) (tail (h_script h))).
Proof. unfold alloc_ok, alloc_bb. intros H. destruct (h_script h) as [|[] s]; [done | done | by destruct H]. Qed.

Lemma wf_locs h p l x : wf h p l -> x ∈ l.*1 -> (x < h_fresh h)%positive.
Proof.
  intros Hwf Hx. apply list_elem_of_fmap in Hx as ([y n] & -> & Hin).
  destruct (wf_fresh _ _ _ Hwf) as [Hb _]. apply (Hb y n). by apply (wf_lookup _ _ _ _ _ Hwf).
Qed.

(** A heap that only gained locations above the old ones. *)
Definition grown (h h' : heap) : Prop :=
  below_fresh h' /\ (h_fresh h <= h_fresh h')%positive /\
  (forall x, (x < h_fresh h)%positive -> h_bb h' !! x = h_bb h !! x) /\
  (forall x, (x < h_fresh h)%positive -> h_str h' !! x = h_str h !! x).

Lemma seg_ext m m' p l q : (forall x, x ∈ l.*1 -> m' !! x = m !! x) -> seg m p l q -> seg m' p l q.
Proof.
  revert p. induction l as [|[x n] l IH]; intros p Hm Hs; [done |]. destruct Hs as (-> & Hx & Hs).
  split_and!; [done | rewrite Hm by (simpl; left); done |]. apply IH; [| done]. intros y Hy. apply Hm. by right.
Qed.

Lemma wf_grown h h' p l : grown h h' -> wf h p l -> wf h' p l.
Proof.
  intros (Hf & _ & Hb & Hs) Hwf. pose proof (wf_locs h p l) as Hloc.
  destruct Hwf as [Hc Hd [Hn1 Hn2] Hfr]. split; try done.
  - apply (seg_ext (h_bb h)); [| done]. intros x Hx. apply Hb, Hloc; [by split | done].
  - split; [done |]. intros f Hin. destruct (Hn2 f Hin) as [s Es]. exists s. rewrite Hs; [done |].
    destruct Hfr as [_ Hfr]. by apply (Hfr f s).
Qed.

Lemma grown_trans h1 h2 h3 : grown h1 h2 -> grown h2 h3 -> grown h1 h3.
Proof.
  intros (F1 & L1 & B1 & S1) (F2 & L2 & B2 & S2). split_and!; [done | lia | |]; intros x Hx.
  - rewrite B2 by lia. by apply B1.
  - rewrite S2 by lia. by apply S1.
Qed.

Lemma grown_bb h n s : below_fresh h ->
  grown h (Heap (<[h_fresh h := n]> (h_bb h)) (h_str h) (Pos.succ (h_fresh h)) s).
Proof.
  intros [Hb Hs]. split_and!; simpl; [| lia | | done].
  - split; intros x v Hx; simpl in *; [| specialize (Hs x v Hx); lia].
    destruct (decide (x = h_fresh h)) as [-> | Hne]; [lia |].
    rewrite lookup_insert_ne in Hx by done. specialize (Hb x v Hx). lia.
  - intros x Hx. rewrite lookup_insert_ne by lia. done.
Qed.

Lemma grown_str h f s : below_fresh h ->
  grown h (Heap (h_bb h) (<[h_fresh h := f]> (h_str h)) (Pos.succ (h_fresh h)) s).
Proof.
  intros [Hb Hs]. split_and!; simpl; [| lia | done |].
  - split; intros x v Hx; simpl in *; [specialize (Hb x v Hx); lia |].
    destruct (decide (x = h_fresh h)) as [-> | Hne]; [lia |].
    rewrite lookup_insert_ne in Hx by done. specialize (Hs x v Hx). lia.
  - intros x Hx. rewrite lookup_insert_ne by lia. done.
Qed.

(** Allocation, and for a file the copy of its name, before the node is queued. *)
Definition allocated (h : heap) (bbl : backed_block_list) (l : nodes) (r : add_request) (len block : Z)
    (h1 : heap) (name : loc) : Prop :=
  run_add bbl r len block h = queue_bb bbl (Some (h_fresh h)) h1 /\ grown h h1 /\
  new_node h1 l (h_fresh h) (BB block len (kind_of r name) None) /\
  (forall filename offset, r = AddFile filename offset -> h_str h1 !! name = Some filename).

Lemma plain_alloc h bbl p l k len block : wf h p l -> alloc_ok h ->
  (forall b, b ∈ abs l -> k_block b <> block) -> (forall f o, k <> BACKED_BLOCK_FILE f o) ->
  exists h1, add_bb bbl k len block h = queue_bb bbl (Some (h_fresh h)) h1 /\ grown h h1 /\
    new_node h1 l (h_fresh h) (BB block len k None).
Proof.
  intros Hwf Halloc Hblk Hk.
  exists (Heap (<[h_fresh h := BB block len k None]> (h_bb h)) (h_str h) (Pos.succ (h_fresh h)) (tail (h_script h))).
  split_and!.
  - unfold add_bb. by rewrite (bindM _ _ _ _ _ (alloc_bb_ok h _ Halloc)).
  - apply grown_bb, Hwf.
  - split; simpl; try done; [by rewrite lookup_insert_eq | |].
    + intros Hin. apply (wf_locs _ _ _ _ Hwf) in Hin. lia.
    + destruct (wf_names _ _ _ Hwf) as [H1 H2]. unfold names_owned. simpl. unfold name_of at 1 2. simpl.
      destruct k; try done. by destruct (Hk filename offset).
Qed.

Lemma file_alloc h bbl p l filename offset len block : wf h p l -> alloc_ok h ->
  (forall b, b ∈ abs l -> k_block b <> block) ->
  exists h1 name, allocated h bbl l (AddFile filename offset) len block h1 name.
Proof.
  intros Hwf Halloc Hblk. set (z := h_fresh h). set (name := Pos.succ z).
  set (n := BB block len (BACKED_BLOCK_FILE name offset) None).
  set (n0 := BB block len (BACKED_BLOCK_DATA 0 0) None).
  set (h0 n := Heap (<[z := n]> (h_bb h)) (h_str h) name (tail (h_script h))).
  set (h1 n := Heap (<[z := n]> (h_bb h)) (<[name := filename]> (h_str h)) (Pos.succ name) (tail (h_script h))).
  exists (h1 n), name. destruct (wf_fresh _ _ _ Hwf) as [Hf1 Hf2].
  split_and!; [| | | intros f o [= <- <-]; by simpl; rewrite lookup_insert_eq].
  - simpl. unfold backed_block_add_file. rewrite (bindM _ _ _ _ _ (alloc_bb_ok h _ Halloc)). fold z name n0.
    unfold strdup. rewrite (bindM _ _ _ name (h1 n0)) by done.
    assert (Hz : h_bb (h1 n0) !! z = Some n0) by apply lookup_insert_eq.
    rewrite (bindM _ _ _ _ _ (put_bb_ok (h1 n0) z n0 n Hz)). unfold set_bbs. simpl.
    by rewrite insert_insert_eq.
  - apply (grown_trans _ (h0 n)); [by apply grown_bb |].
    apply (grown_str (h0 n) filename (tail (h_script h))). by apply (grown_bb h n (tail (h_script h))).
  - split; simpl; try done; [by rewrite lookup_insert_eq | |].
    + intros Hin. apply (wf_locs _ _ _ _ Hwf) in Hin. subst z. lia.
    + destruct (wf_names _ _ _ Hwf) as [Hn1 Hn2]. split; simpl.
      * constructor; [| done]. intros Hin. destruct (Hn2 name Hin) as [s Es].
        specialize (Hf2 name s Es). subst name z; lia.
      * intros f Hin. apply elem_of_cons in Hin as [-> | Hin]; [by rewrite lookup_insert_eq |].
        destruct (Hn2 f Hin) as [s Es]. specialize (Hf2 f s Es).
        rewrite lookup_insert_ne; [by exists s |]. subst name z; lia.
Qed.

Lemma run_add_alloc h bbl p l r len block : wf h p l -> alloc_ok h ->
  (forall b, b ∈ abs l -> k_block b <> block) ->
  exists h1 name, allocated h bbl l r len block h1 name.
Proof.
  intros Hwf Halloc Hblk. destruct r as [data | filename offset | fd offset | v];
    [| by apply (file_alloc h bbl p) | |];
    match goal with |- context [allocated _ _ _ ?r] =>
      destruct (plain_alloc h bbl p l (kind_of r 1) len block Hwf Halloc Hblk) as (h1 & H1 & H2 & H3); [done |] end;
    exists h1, 1%positive; by split_and!.
Qed.

(** ** Properties *)


(** A concrete list: a fill of two blocks of 4096 bytes at block 5. *)
Definition ex_node : backed_block := BB 5 8192 (BACKED_BLOCK_FILL 7) None.
Definition ex_heap : heap := Heap {[1%positive := ex_node]} ∅ 2%positive [].
Definition ex_bbl : backed_block_list := BBL (Some 1%positive) None 4096.

Lemma ex_list_ok : list_ok ex_heap ex_bbl [(1%positive, ex_node)].
Proof.
  split; [split |]; simpl.
  - rewrite lookup_singleton_eq. by split_and!.
  - apply NoDup_singleton.
  - split; [constructor | set_solver].
  - split; intros x v Hx; simpl in *; [| set_solver].
    apply lookup_singleton_Some in Hx as [<- _]. lia.
  - repeat constructor.
Qed.

(** The side conditions on an added block, for the concrete list. *)
Lemma ex_apart block len k b : len = 4096 -> block = 3 \/ block = 7 ->
  b ∈ abs [(1%positive, ex_node)] ->
  apart 4096 (Blk block len k) b /\ k_block b <> block.
Proof.
  intros -> Hb Hin. simpl in Hin. apply list_elem_of_singleton in Hin as ->.
  unfold apart, before, end_of, blocks_of. simpl. split; [| destruct Hb; lia].
  destruct Hb as [-> | ->]; [left | right]; vm_compute; discriminate.
Qed.

Lemma ex_fits block len k : len = 4096 -> block = 3 \/ block = 7 ->
  list_fits (Blk block len k :: abs [(1%positive, ex_node)]).
Proof.
  intros -> Hb. assert (Hok : forall b, b ∈ Blk block 4096 k :: abs [(1%positive, ex_node)] ->
    blk_ok b /\ k_block b < 2 ^ 32).
  { intros b Hin. simpl in Hin. apply elem_of_cons in Hin as [-> | Hin].
    - unfold blk_ok. simpl. destruct Hb; lia.
    - apply list_elem_of_singleton in Hin as ->. unfold blk_ok. simpl. lia. }
  split_and!; [apply Forall_forall; intros; by apply Hok | intros; by apply Hok | simpl; lia].
Qed.


Lemma insert_head bs n a r : k_block a < k_block n ->
  exists b r', insert_blk bs n (a :: r) = b :: r' /\ k_block b = k_block a.
Proof.
  intros Hlt. unfold insert_blk. destruct (Z.ltb_spec (k_block n) (k_block a)); [lia |].
  assert (Hloc : forall r a, exists pre x r', locate (k_block n) a r = (pre, x, r') /\
    match pre with [] => x = a | c :: _ => c = a end).
  { induction r0 as [|b r0 IH]; intros c; cbn [locate]; [by exists [], c, [] |].
    destruct (k_block b <? k_block n); [| by exists [], c, (b :: r0)].
    destruct (IH b) as (pre & x & r' & E & _). rewrite E. by exists (c :: pre), x, r'. }
  destruct (Hloc r a) as (pre & x & r' & E & Hp). rewrite E.
  destruct pre as [|c pre]; [subst x | subst c; by exists a, (pre ++ splice bs x n r')].
  unfold splice. destruct (merge_right bs n r') as [n' r'']. simpl.
  destruct (mergeable bs a n'); by eexists _, _.
Qed.

(** A list with a freed cached node: additions at or after its head read it. *)
Lemma queue_dangling h bbl w nw l z r len block : wf h (data_blocks bbl) ((w, nw) :: l) ->
  last_used bbl = Some z -> (z < h_fresh h)%positive -> h_bb h !! z = None -> alloc_ok h ->
  bb_block nw <= block -> run_add bbl r len block h = Fault UseAfterFree.
Proof.
  intros Hwf Hlu Hzf Hz Halloc Hle.
  assert (Hnil : wf h None []).
  { split; simpl; try done; [constructor | by split; [constructor | set_solver] | apply Hwf]. }
  destruct (run_add_alloc h bbl _ [] r len block Hnil Halloc) as (h1 & name & E & Hg & Hnew & _); [set_solver |].
  pose proof Hg as (_ & _ & Hb & _).
  assert (Hw : h_bb h1 !! w = Some nw).
  { rewrite Hb; [apply (wf_lookup _ _ _ _ _ Hwf); left |]. apply (wf_locs _ _ _ _ Hwf). simpl. left. }
  rewrite E. unfold queue_bb, list_fuel. rewrite (bindM _ _ h1 (S (size (h_bb h1))) h1) by done.
  assert (Hd : data_blocks bbl = Some w) by apply (wf_chain _ _ _ Hwf). rewrite Hd.
  rewrite (bindM _ _ _ _ _ (get_bb_ok _ _ _ Hw)), (bindM _ _ _ _ _ (get_bb_ok _ _ _ (nn_live _ _ _ _ Hnew))).
  cbn [bb_block]. destruct (Z.ltb_spec block (bb_block nw)); [lia |]. rewrite Hlu.
  unfold mbind, heapM_bind, get_bb. by rewrite Hb, Hz.
Qed.

(** Use after free. When a new block is merged into its predecessor, the
    list's cached pointer is left at the freed node: every later addition at or
    beyond the first block of the list reads freed memory. *)
Theorem backed_block_add_use_after_free h bbl l r len block : list_ok h bbl l -> cache_ok bbl l ->
  alloc_ok h -> 0 < bbl_block_size bbl -> (forall b, b ∈ abs l -> k_block b <> block) ->
  (forall name, absorbed (bbl_block_size bbl) (Blk block len (kind_of r name)) (abs l) = true) ->
  exists bbl' h', run_add bbl r len block h = Ret ((0, bbl'), h') /\
    forall r2 len2 block2, alloc_ok h' -> (forall b, head (abs l) = Some b -> k_block b <= block2) ->
      run_add bbl' r2 len2 block2 h' = Fault UseAfterFree.
Proof.
  intros [Hwf Hs] Hc Halloc Hbs Hblk Habs.
  destruct (run_add_alloc h bbl _ l r len block Hwf Halloc Hblk) as (h1 & name & E & Hg & Hnew & _).
  destruct (queue_spec h1 bbl l _ _ (conj (wf_grown _ _ _ _ Hg Hwf) Hs) Hc Hnew ltac:(lia))
    as (bbl' & h' & E' & l' & Hwf' & Eabs & Hu & _ & _ & Hcache).
  unfold blk_of in Eabs, Hcache. simpl in Eabs, Hcache. rewrite Habs in Hcache. destruct Hcache as [Hlu Hdead].
  exists bbl', h'. rewrite E. split; [done |]. intros r2 len2 block2 Halloc2 Hfirst.
  pose proof (Habs name) as Ha. destruct l as [|[x nx] rest]; [discriminate Ha |].
  unfold absorbed in Ha. cbn [abs map snd k_block] in Ha.
  destruct (Z.ltb_spec block (k_block (blk_of nx))) as [|Hge]; [discriminate Ha |].
  assert (Hlt : k_block (blk_of nx) < block) by (specialize (Hblk (blk_of nx) ltac:(left)); lia).
  specialize (Hfirst (blk_of nx) eq_refl).
  destruct (insert_head (bbl_block_size bbl) (Blk block len (kind_of r name)) (blk_of nx) (abs rest) Hlt)
    as (b & r' & Ei & Eb). change (abs ((x, nx) :: rest)) with (blk_of nx :: abs rest) in Eabs.
  rewrite Ei in Eabs. destruct l' as [|[w nw] l']; [discriminate Eabs |]. injection Eabs as Ew _.
  assert (Hw : bb_block nw = k_block b) by (by rewrite <- Ew).
  eapply (queue_dangling h' bbl'); try done; [| by rewrite Hw, Eb].
  destruct Hu as (_ & Hfr & _). rewrite Hfr. destruct Hg as ((Hbf & _) & _). by apply (Hbf _ _ (nn_live _ _ _ _ Hnew)).
Qed.

Lemma backed_block_add_use_after_free_witness : exists bbl' h',
  run_add ex_bbl (AddFill 7) 4096 7 ex_heap = Ret ((0, bbl'), h') /\
  forall r2 len2 block2, alloc_ok h' ->
    (forall b, head (abs [(1%positive, ex_node)]) = Some b -> k_block b <= block2) ->
    run_add bbl' r2 len2 block2 h' = Fault UseAfterFree.
Proof.
  apply (backed_block_add_use_after_free ex_heap ex_bbl _ (AddFill 7) 4096 7 ex_list_ok);
    [done | done | done | | intros; vm_compute; reflexivity].
  intros b Hb. apply (ex_apart 7 4096 (BACKED_BLOCK_FILL 7) b); auto.
Defined.

(** Merging adds the two lengths in 32 bits: two adjacent fills of 2 GiB
    become a node of length zero, and their content is lost. *)
Theorem merge_length_overflow : exists bbl h,
  (backed_block_list_new 4096 ≫= fun bbl =>
   backed_block_add_fill bbl 7 (2 ^ 31) 0 ≫= fun '(_, bbl) =>
   backed_block_add_fill bbl 7 (2 ^ 31) (2 ^ 19)) empty_heap = Ret ((0, bbl), h) /\
  data_blocks bbl = Some 1%positive /\ h_bb h = {[1%positive := BB 0 0 (BACKED_BLOCK_FILL 7) None]}.
Proof. eexists _, _. split; [vm_compute; reflexivity |]. split; vm_compute; reflexivity. Qed.

(** ** Splitting *)
Lemma split_piece bs k b q len i : 0 < bs -> 0 <= q -> q * bs < len ->
  piece bs (Blk b len k) i =
  piece bs (Blk b (q * bs) k) i <|> piece bs (Blk (b + q) (len - q * bs) (advance k (q * bs))) i.
Proof.
  intros Hbs Hq Hlt. unfold piece, end_of. cbn [k_block k_len k_kind].
  assert (E : blocks_of bs len = q + blocks_of bs (len - q * bs)).
  { rewrite <- blocks_add_mul by done. f_equal. lia. }
  rewrite E, blocks_mul by done. pose proof (blocks_nonneg bs Hbs (len - q * bs) ltac:(lia)).
  destruct (Z.leb_spec b i), (Z.ltb_spec i (b + (q + blocks_of bs (len - q * bs)))),
    (Z.ltb_spec i (b + q)), (Z.leb_spec (b + q) i),
    (Z.ltb_spec i (b + q + blocks_of bs (len - q * bs))); cbn [andb or_else]; try lia; try done.
  - assert (bs <= q * bs - (i - b) * bs) by nia. do 2 f_equal. rewrite !Z.min_l by lia. done.
  - rewrite advance_advance. f_equal. f_equal; [f_equal; lia |]. f_equal. lia.
Qed.

(** The two halves of a split node. *)
Definition low_half (n : backed_block) (m : Z) (z : loc) : backed_block :=
  BB (bb_block n) m (bb_type n) (Some z).
Definition high_half (bs : Z) (n : backed_block) (m : Z) : backed_block :=
  BB (u32 (bb_block n + m / bs)) (bb_len n - m) (advance (bb_type n) m) (bb_next n).

Lemma split_run h bbl x n max_len : h_bb h !! x = Some n -> (x < h_fresh h)%positive -> alloc_ok h ->
  0 < bbl_block_size bbl -> 0 <= max_len < 2 ^ 32 ->
  let bs := bbl_block_size bbl in let m := bs * (max_len / bs) in
  backed_block_split bbl (Some x) max_len h =
  if bb_len n <=? m then Ret (0, h)
  else Ret (0, Heap (<[x := low_half n m (h_fresh h)]> (<[h_fresh h := high_half bs n m]> (h_bb h)))
                    (h_str h) (Pos.succ (h_fresh h)) (tail (h_script h))).
Proof.
  intros Hx Hxf Halloc Hbs Hm bs m. unfold backed_block_split, c_div. fold bs.
  destruct (Z.eqb_spec bs 0); [lia |]. rewrite (bindM _ _ _ _ _ (retM _ h)). cbv zeta.
  assert (Em : u32 (bs * (max_len / bs)) = m).
  { apply wrap_small. unfold in_range. pose proof (Z.div_pos max_len bs). pose proof (Z.mul_div_le max_len bs). lia. }
  rewrite Em, (bindM _ _ _ _ _ (get_bb_ok h x n Hx)). destruct (bb_len n <=? m); [done |].
  rewrite (bindM _ _ _ _ _ (alloc_bb_ok h n Halloc)).
  set (h1 := Heap (<[h_fresh h := n]> (h_bb h)) (h_str h) (Pos.succ (h_fresh h)) (tail (h_script h))).
  assert (Hz : h_bb h1 !! h_fresh h = Some n) by apply lookup_insert_eq.
  rewrite (bindM _ _ _ _ _ (put_bb_ok h1 _ n _ Hz)).
  assert (Hx1 : h_bb (set_bbs (<[h_fresh h := high_half bs n m]> (h_bb h1)) h1) !! x = Some n).
  { simpl. rewrite !lookup_insert_ne by lia. done. }
  rewrite (bindM _ _ _ _ _ (put_bb_ok _ _ n _ Hx1)). unfold set_bbs. simpl.
  by rewrite insert_insert_eq.
Qed.

Lemma split_content bs A n B m q i : 0 < bs -> m = q * bs -> 0 <= q -> m < k_len n ->
  0 <= k_block n -> k_block n + q < 2 ^ 32 ->
  content bs (A ++ n :: B) i =
  content bs (A ++ Blk (k_block n) m (k_kind n) ::
    Blk (u32 (k_block n + m / bs)) (k_len n - m) (advance (k_kind n) m) :: B) i.
Proof.
  intros Hbs -> Hq Hlt Hb Hlim. rewrite !content_app. f_equal. cbn [content].
  rewrite Z.div_mul, wrap_small by (lia || (unfold in_range; lia)).
  rewrite or_else_assoc. f_equal. destruct n as [b len k]. by apply split_piece.
Qed.

Lemma split_wf h p A x n B bs m s : wf h p (A ++ (x, n) :: B) -> name_of n = None ->
  wf (Heap (<[x := low_half n m (h_fresh h)]> (<[h_fresh h := high_half bs n m]> (h_bb h)))
           (h_str h) (Pos.succ (h_fresh h)) s)
     p (A ++ (x, low_half n m (h_fresh h)) :: (h_fresh h, high_half bs n m) :: B).
Proof.
  intros Hwf Hname. set (z := h_fresh h).
  assert (Hout : z ∉ (A ++ (x, n) :: B).*1).
  { intros Hin. apply (wf_locs _ _ _ _ Hwf) in Hin. subst z. lia. }
  destruct Hwf as [Hc Hd Hn [Hf1 Hf2]]. rewrite fmap_app, fmap_cons in Hd, Hout. simpl in Hd, Hout.
  pose proof Hd as Hd'. apply NoDup_app in Hd' as (HdA & HAx & Hd2). apply NoDup_cons in Hd2 as [HxB Hd2].
  assert (HxA : x ∉ A.*1) by (intros ?; apply (HAx x); set_solver).
  assert (HzA : z ∉ A.*1) by set_solver. assert (HzB : z ∉ B.*1) by set_solver.
  assert (Hxz : x <> z) by set_solver.
  apply seg_app in Hc as (r & H1 & (-> & Hx & H2)).
  split; simpl.
  - apply seg_app. exists (Some x). split; [by rewrite !seg_insert |]. simpl.
    rewrite lookup_insert_eq, lookup_insert_ne, lookup_insert_eq by done.
    split_and!; try done. by rewrite !seg_insert.
  - rewrite fmap_app, !fmap_cons. simpl. apply NoDup_app. split_and!; [done | set_solver |].
    constructor; [set_solver |]. by constructor.
  - apply (names_str h); [done |]. eapply names_perm; [| exact Hn]. rewrite !names_app. simpl.
    unfold name_of in *. simpl. by destruct (bb_type n).
  - split; intros w v Hw; simpl in *; [| specialize (Hf2 w v Hw); subst z; lia].
    destruct (decide (w = x)) as [-> | Hwx]; [specialize (Hf1 x n Hx); subst z; lia |].
    rewrite lookup_insert_ne in Hw by done.
    destruct (decide (w = z)) as [-> | Hwz]; [subst z; lia |].
    rewrite lookup_insert_ne in Hw by done. specialize (Hf1 w v Hw). subst z; lia.
Qed.

(** Splitting a data, descriptor or fill node leaves a well-formed list with
    the same content, in which the node is at most [max_len] bytes long. *)
Theorem backed_block_split_correct h bbl p A x n B max_len : wf h p (A ++ (x, n) :: B) ->
  alloc_ok h -> name_of n = None -> 0 < bbl_block_size bbl -> 0 <= max_len < 2 ^ 32 ->
  0 <= bb_block n -> end_of (bbl_block_size bbl) (blk_of n) <= 2 ^ 32 ->
  exists h' l' n', backed_block_split bbl (Some x) max_len h = Ret (0, h') /\ wf h' p l' /\
    (forall i, content (bbl_block_size bbl) (abs l') i =
               content (bbl_block_size bbl) (abs (A ++ (x, n) :: B)) i) /\
    h_bb h' !! x = Some n' /\ bb_len n' <= max_len.
Proof.
  intros Hwf Halloc Hname Hbs Hmax Hb Hend. set (bs := bbl_block_size bbl) in *.
  assert (Hx : h_bb h !! x = Some n) by (apply (wf_lookup _ _ _ _ _ Hwf); set_solver).
  assert (Hxf : (x < h_fresh h)%positive) by (apply (wf_locs _ _ _ _ Hwf); rewrite fmap_app; set_solver).
  pose proof (split_run h bbl x n max_len Hx Hxf Halloc Hbs Hmax) as E. cbv zeta in E. fold bs in E.
  pose proof (Z.mul_div_le max_len bs Hbs) as Hle. pose proof (Z.div_pos max_len bs ltac:(lia) Hbs).
  destruct (Z.leb_spec (bb_len n) (bs * (max_len / bs))) as [Hsm | Hlg].
  - exists h, (A ++ (x, n) :: B), n. split_and!; try done. lia.
  - eexists _, _, _. split; [exact E |]. split; [by apply split_wf |]. split.
    + intros i. rewrite !abs_app. symmetry. unfold abs. cbn [map].
      assert (max_len / bs + 1 <= (bb_len n + bs - 1) / bs) by (apply Z.div_le_lower_bound; lia).
      unfold end_of, blocks_of in Hend. cbn [blk_of k_block k_len] in Hend.
      apply (split_content bs _ (blk_of n) _ (bs * (max_len / bs)) (max_len / bs));
        cbn [blk_of k_block k_len]; lia.
    + simpl. rewrite lookup_insert_eq. split; [done |]. simpl. lia.
Qed.

Lemma backed_block_split_correct_witness : exists h' l' n',
  backed_block_split ex_bbl (Some 1%positive) 5000 ex_heap = Ret (0, h') /\ wf h' (Some 1%positive) l' /\
  (forall i, content 4096 (abs l') i = content 4096 (abs [(1%positive, ex_node)]) i) /\
  h_bb h' !! 1%positive = Some n' /\ bb_len n' <= 5000.
Proof.
  apply (backed_block_split_correct ex_heap ex_bbl (Some 1%positive) [] 1%positive ex_node []);
    [apply ex_list_ok | done | done | done | lia | done | vm_compute; discriminate].
Defined.

(** ** Destroying *)
Definition without (h : heap) (x : loc) (n : backed_block) : heap :=
  Heap (delete x (h_bb h))
       (match name_of n with Some f => delete f (h_str h) | None => h_str h end) (h_fresh h) (h_script h).

Lemma destroy_node h x n : h_bb h !! x = Some n ->
  (forall f, name_of n = Some f -> is_Some (h_str h !! f)) ->
  backed_block_destroy (Some x) h = Ret (tt, without h x n).
Proof.
  intros Hx Hf. unfold backed_block_destroy. rewrite (bindM _ _ _ _ _ (get_bb_ok h x n Hx)).
  unfold name_of, without in *. destruct (bb_type n) eqn:T;
    try (unfold free_bb; rewrite Hx; unfold set_bbs, name_of; by rewrite T).
  destruct (Hf filename eq_refl) as [s Es].
  unfold free_str, mbind, heapM_bind. rewrite Es. unfold free_bb. simpl. rewrite Hx.
  unfold set_bbs, name_of. by rewrite T.
Qed.

Lemma foldr_delete_comm {A} (m : gmap loc A) x L :
  foldr delete (delete x m) L = delete x (foldr delete m L).
Proof. induction L as [|y L IH]; [done |]. simpl. rewrite IH. apply delete_delete. Qed.

(** Destroying the nodes of a prefix that owns its names. *)
Lemma destroy_prefix A : forall fuel h p q, seg (h_bb h) p A q -> NoDup (A.*1) -> names_owned h A ->
  exists h', destroy_loop (length A + fuel) p h = destroy_loop fuel q h' /\
    h_bb h' = foldr delete (h_bb h) (A.*1) /\ h_str h' = foldr delete (h_str h) (names A).
Proof.
  induction A as [|[x n] A IH]; intros fuel h p q Hs Hd Hn.
  { simpl in Hs. subst q. by exists h. }
  destruct Hs as (-> & Hx & Hs). rewrite fmap_cons in Hd. apply NoDup_cons in Hd as [Hxa Hd]. simpl in Hxa.
  destruct Hn as [Hn1 Hn2].
  assert (Hname : forall f, name_of n = Some f -> is_Some (h_str h !! f)).
  { intros f Ef. apply Hn2. simpl. rewrite Ef. left. }
  simpl length. cbn [Nat.add destroy_loop]. unfold backed_block_iter_next.
  assert (Enext : (n ← get_bb (Some x); mret (bb_next n)) h = Ret (bb_next n, h))
    by (by rewrite (bindM _ _ _ _ _ (get_bb_ok h x n Hx))).
  rewrite (bindM _ _ _ _ _ Enext), (bindM _ _ _ _ _ (destroy_node h x n Hx Hname)).
  destruct (IH fuel (without h x n) (bb_next n) q) as (h' & E & Eb & Es).
  - simpl. by rewrite seg_delete.
  - done.
  - simpl in Hn1, Hn2. split.
    + by destruct (name_of n); [apply NoDup_cons in Hn1 as [_ Hn1] |].
    + intros f Hf. simpl. destruct (name_of n) as [g|] eqn:Eg; [| by apply Hn2].
      apply NoDup_cons in Hn1 as [Hg _]. rewrite lookup_delete_ne by (intros ->; done).
      apply Hn2. by right.
  - exists h'. rewrite E. split; [done |]. rewrite Eb, Es. simpl. split.
    + apply foldr_delete_comm.
    + destruct (name_of n) as [f|]; [apply foldr_delete_comm | done].
Qed.

Lemma lookup_foldr_delete {A} (m : gmap loc A) L x :
  foldr delete m L !! x = if decide (x ∈ L) then None else m !! x.
Proof.
  induction L as [|y L IH]; simpl; [done |].
  destruct (decide (x = y)) as [-> | Hne].
  - rewrite lookup_delete_eq, decide_True by left. done.
  - rewrite lookup_delete_ne, IH by done.
    destruct (decide (x ∈ L)), (decide (x ∈ y :: L)); try done; exfalso; set_solver.
Qed.

(** Destroying a list frees exactly its nodes and their names, each once. *)
Theorem backed_block_list_destroy_correct h bbl l : wf h (data_blocks bbl) l ->
  exists h', backed_block_list_destroy bbl h = Ret (tt, h') /\
    (forall x, h_bb h' !! x = if decide (x ∈ l.*1) then None else h_bb h !! x) /\
    (forall f, h_str h' !! f = if decide (f ∈ names l) then None else h_str h !! f).
Proof.
  intros [Hc Hd Hn Hf]. unfold backed_block_list_destroy, list_fuel.
  rewrite (bindM _ _ h (S (size (h_bb h))) h) by done.
  pose proof (seg_size _ _ _ _ Hc Hd) as Hsz.
  replace (S (size (h_bb h))) with (length l + (S (size (h_bb h)) - length l))%nat by lia.
  destruct (destroy_prefix l (S (size (h_bb h)) - length l) h _ _ Hc Hd Hn) as (h' & -> & Eb & Es).
  exists h'. rewrite Eb, Es. split_and!; [by destruct (S (size (h_bb h)) - length l)%nat | |];
    intros; apply lookup_foldr_delete.
Qed.

Lemma backed_block_list_destroy_correct_witness : exists h',
  backed_block_list_destroy ex_bbl ex_heap = Ret (tt, h') /\
  (forall x, h_bb h' !! x = if decide (x ∈ ([(1%positive, ex_node)] : nodes).*1) then None else h_bb ex_heap !! x) /\
  (forall f, h_str h' !! f = if decide (f ∈ names [(1%positive, ex_node)]) then None else h_str ex_heap !! f).
Proof. apply (backed_block_list_destroy_correct ex_heap ex_bbl), ex_list_ok. Defined.

(** Splitting a file node shares its name between the two halves, so that
    destroying the list afterwards frees the name twice. *)
Theorem backed_block_split_double_free h bbl A x n B f max_len : wf h (data_blocks bbl) (A ++ (x, n) :: B) ->
  alloc_ok h -> name_of n = Some f -> 0 < bbl_block_size bbl -> 0 <= max_len < 2 ^ 32 ->
  bbl_block_size bbl * (max_len / bbl_block_size bbl) < bb_len n ->
  (backed_block_split bbl (Some x) max_len ≫= fun _ => backed_block_list_destroy bbl) h = Fault DoubleFree.
Proof.
  intros Hwf Halloc Hname Hbs Hmax Hlt. set (m := bbl_block_size bbl * (max_len / bbl_block_size bbl)) in *.
  assert (Hx : h_bb h !! x = Some n) by (apply (wf_lookup _ _ _ _ _ Hwf); set_solver).
  assert (Hxf : (x < h_fresh h)%positive) by (apply (wf_locs _ _ _ _ Hwf); rewrite fmap_app; set_solver).
  pose proof (split_run h bbl x n max_len Hx Hxf Halloc Hbs Hmax) as E. cbv zeta in E. fold m in E.
  assert (Hle : (bb_len n <=? m) = false) by lia. rewrite Hle in E. rewrite (bindM _ _ _ _ _ E). clear E Hle.
  set (z := h_fresh h) in *. set (lo := low_half n m z). set (hi := high_half (bbl_block_size bbl) n m).
  set (h1 := Heap _ _ _ _).
  assert (Hout : z ∉ (A ++ (x, n) :: B).*1).
  { intros Hin. apply (wf_locs _ _ _ _ Hwf) in Hin. subst z. lia. }
  destruct Hwf as [Hc Hd Hn _]. rewrite fmap_app, fmap_cons in Hd, Hout. simpl in Hd, Hout.
  apply NoDup_app in Hd as (HdA & HAx & Hd2).
  assert (HxA : x ∉ A.*1) by (intros ?; apply (HAx x); set_solver).
  apply seg_app in Hc as (r & H1 & (-> & _ & H2)).
  assert (Hpre : seg (h_bb h1) (data_blocks bbl) (A ++ [(x, lo)]) (Some z)).
  { apply seg_app. exists (Some x). split; [simpl; by rewrite !seg_insert by set_solver |]. simpl.
    by rewrite lookup_insert_eq. }
  assert (Hnames : names_owned h1 (A ++ [(x, lo)])).
  { apply (names_str h); [done |]. apply (names_sub h (A ++ (x, n) :: B)); [| done].
    rewrite !names_app. apply sublist_app; [done |]. simpl. change (name_of lo) with (name_of n). rewrite Hname.
    apply sublist_skip, sublist_nil_l. }
  assert (HdP : NoDup ((A ++ [(x, lo)]).*1)).
  { rewrite fmap_app. simpl. apply NoDup_app. split_and!; [done | set_solver | apply NoDup_singleton]. }
  assert (Hz : h_bb h1 !! z = Some hi) by (simpl; rewrite lookup_insert_ne, lookup_insert_eq by set_solver; done).
  assert (Hsz : (length (A ++ [(x, lo)]) < S (size (h_bb h1)))%nat)
    by (pose proof (seg_size _ _ _ _ Hpre HdP); lia).
  unfold backed_block_list_destroy, list_fuel. rewrite (bindM _ _ h1 (S (size (h_bb h1))) h1) by done.
  destruct (S (size (h_bb h1)) - length (A ++ [(x, lo)]))%nat as [|fuel] eqn:Efuel; [lia |].
  replace (S (size (h_bb h1))) with (length (A ++ [(x, lo)]) + S fuel)%nat by lia.
  destruct (destroy_prefix _ (S fuel) h1 _ _ Hpre HdP Hnames) as (h' & -> & Eb & Es).
  assert (Hz' : h_bb h' !! z = Some hi).
  { rewrite Eb, lookup_foldr_delete. destruct (decide _) as [Hin|]; [| done].
    rewrite fmap_app in Hin. exfalso. set_solver. }
  cbn [destroy_loop]. unfold backed_block_iter_next, mbind, heapM_bind.
  rewrite (get_bb_ok _ _ _ Hz'). simpl. unfold backed_block_destroy, mbind, heapM_bind.
  rewrite (get_bb_ok _ _ _ Hz'). unfold hi, high_half. simpl. unfold name_of in Hname.
  destruct (bb_type n) eqn:T; try discriminate Hname. injection Hname as ->. simpl.
  unfold free_str. rewrite Es, lookup_foldr_delete, decide_True; [done |].
  rewrite names_app. simpl. unfold name_of. simpl. rewrite T. set_solver.
Qed.

(** A list of one file node of two blocks. *)
Definition ex_file_heap : heap :=
  Heap {[1%positive := BB 0 8192 (BACKED_BLOCK_FILE 2 0) None]} {[2%positive := [0x61]]} 3%positive [].

Lemma backed_block_split_double_free_witness :
  (backed_block_split ex_bbl (Some 1%positive) 4096 ≫= fun _ => backed_block_list_destroy ex_bbl) ex_file_heap
  = Fault DoubleFree.
Proof.
  apply (backed_block_split_double_free ex_file_heap ex_bbl [] 1%positive
    (BB 0 8192 (BACKED_BLOCK_FILE 2 0) None) [] 2%positive); [| done | done | done | lia | reflexivity].
  split; simpl.
  - rewrite lookup_singleton_eq. by split_and!.
  - apply NoDup_singleton.
  - split; [apply NoDup_singleton |]. simpl. intros f Hf. apply list_elem_of_singleton in Hf as ->.
    by rewrite lookup_singleton_eq.
  - split; intros y v Hy; simpl in *; apply lookup_singleton_Some in Hy as [<- _]; lia.
Defined.
