(* ===== verification/OutputFile.v ===== *)
(** * Output files of libsparse

    Models src/system/core/libsparse/output_file.c and the on-disk headers of
    sparse_format.h. An output file writes through a table of operations on a
    sink: a kernel file, a zlib stream, or a caller's callback. The results of
    [calloc] are arguments. Integer expressions keep the widths C gives them. *)

From S2P Require Import Prelude.
From S2P Require Import SparseCrc32.

(** ** Headers *)
Definition SPARSE_HEADER_MAGIC : Z := 0xed26ff3a.
Definition CHUNK_TYPE_RAW : Z := 0xCAC1.
Definition CHUNK_TYPE_FILL : Z := 0xCAC2.
Definition CHUNK_TYPE_DONT_CARE : Z := 0xCAC3.
Definition CHUNK_TYPE_CRC32 : Z := 0xCAC4.

Definition SPARSE_HEADER_MAJOR_VER : Z := 1.
Definition SPARSE_HEADER_MINOR_VER : Z := 0.
Definition SPARSE_HEADER_LEN : Z := 28.
Definition CHUNK_HEADER_LEN : Z := 12.

Record sparse_header := SparseHeader {
  sh_magic : Z;
  sh_major_version : Z;
  sh_minor_version : Z;
  sh_file_hdr_sz : Z;
  sh_chunk_hdr_sz : Z;
  sh_blk_sz : Z;
  sh_total_blks : Z;
  sh_total_chunks : Z;
  sh_image_checksum : Z
}.

Record chunk_header := ChunkHeader {
  ch_chunk_type : Z;
  ch_reserved1 : Z;
  ch_chunk_sz : Z;
  ch_total_sz : Z
}.

(** The bytes of the structures on a little-endian machine. *)
Definition sparse_header_bytes (h : sparse_header) : bytes :=
  le_encode 4 (sh_magic h) ++ le_encode 2 (sh_major_version h) ++ le_encode 2 (sh_minor_version h)
  ++ le_encode 2 (sh_file_hdr_sz h) ++ le_encode 2 (sh_chunk_hdr_sz h) ++ le_encode 4 (sh_blk_sz h)
  ++ le_encode 4 (sh_total_blks h) ++ le_encode 4 (sh_total_chunks h) ++ le_encode 4 (sh_image_checksum h).

Definition chunk_header_bytes (h : chunk_header) : bytes :=
  le_encode 2 (ch_chunk_type h) ++ le_encode 2 (ch_reserved1 h)
  ++ le_encode 4 (ch_chunk_sz h) ++ le_encode 4 (ch_total_sz h).

(** ** Arithmetic macros of sparse_defs.h on unsigned ints *)
Definition DIV_ROUND_UP (x y : Z) : outcome Z :=
  if y =? 0 then Fault DivByZero else Ret (u32 (x + y - 1) / y).
Definition ALIGN (x y : Z) : outcome Z :=
  q ← DIV_ROUND_UP x y; Ret (u32 (y * q)).

(** ** The operations of a sink *)
Record output_file_ops (S : Type) := OutputFileOps {
  op_skip : Z -> S -> Z * S;
  op_pad : Z -> S -> Z * S;
  op_write : option bytes -> Z -> S -> Z * S
}.
Arguments op_skip {S} _.
Arguments op_pad {S} _.
Arguments op_write {S} _.

Record output_file (S : Type) := OutputFile {
  cur_out_ptr : Z;
  chunk_cnt : Z;
  crc32 : Z;
  use_crc : bool;
  out_block_size : Z;
  out_len : Z;
  zero_buf : bytes;
  fill_buf : bytes;
  out_sparse : bool;
  sink : S
}.
Arguments OutputFile {S}.
Arguments cur_out_ptr {S} _.
Arguments chunk_cnt {S} _.
Arguments crc32 {S} _.
Arguments use_crc {S} _.
Arguments out_block_size {S} _.
Arguments out_len {S} _.
Arguments zero_buf {S} _.
Arguments fill_buf {S} _.
Arguments out_sparse {S} _.
Arguments sink {S} _.

(** ** Kernel files

    [k_script] limits what each [write] transfers: a negative entry is an
    error, other entries bound the byte count; without entries writes are full. *)
Record kfile := KFile {
  k_bytes : bytes;
  k_pos : Z;
  k_script : list Z
}.

(** Bytes at [pos] replaced by [data], the gap filled with zeros. *)
Definition overwrite (l : bytes) (pos : nat) (data : bytes) : bytes :=
  take pos (l ++ replicate (pos - length l) 0) ++ data ++ drop (pos + length data) l.

Definition kwrite (data : bytes) (f : kfile) : Z * kfile :=
  match k_script f with
  | q :: s =>
      if q <? 0 then (-1, KFile (k_bytes f) (k_pos f) s)
      else
        let n := Z.min q (Z.of_nat (length data)) in
        (n, KFile (overwrite (k_bytes f) (Z.to_nat (k_pos f)) (take (Z.to_nat n) data)) (k_pos f + n) s)
  | [] =>
      (Z.of_nat (length data),
       KFile (overwrite (k_bytes f) (Z.to_nat (k_pos f)) data) (k_pos f + Z.of_nat (length data)) [])
  end.

(** [lseek64(fd, cnt, SEEK_CUR)] *)
Definition klseek_cur (cnt : Z) (f : kfile) : Z * kfile :=
  if k_pos f + cnt <? 0 then (-1, f)
  else (k_pos f + cnt, KFile (k_bytes f) (k_pos f + cnt) (k_script f)).

Definition kftruncate (len : Z) (f : kfile) : Z * kfile :=
  if len <? 0 then (-1, f)
  else (0, KFile (take (Z.to_nat len) (k_bytes f ++ replicate (Z.to_nat len - length (k_bytes f)) 0))
                 (k_pos f) (k_script f)).

Definition file_open (f : kfile) : Z * kfile := (0, f).

Definition file_skip (cnt : Z) (f : kfile) : Z * kfile :=
  let '(ret, f) := klseek_cur cnt f in
  if ret <? 0 then (-1, f) else (0, f).

Definition file_pad (len : Z) (f : kfile) : Z * kfile :=
  let '(ret, f) := kftruncate len f in
  if ret <? 0 then (- EINVAL, f) else (0, f).

(** A null buffer is never passed here. *)
Definition file_write (data : option bytes) (len : Z) (f : kfile) : Z * kfile :=
  let '(ret, f) := kwrite (default [] data) f in
  if ret <? 0 then (-1, f)
  else if ret <? len then (-1, f)
  else (0, f).

Definition file_ops : output_file_ops kfile := OutputFileOps _ file_skip file_pad file_write.

(** ** zlib streams; the zlib functions are parameters *)
Section Gz.
Context {G : Type}.
Context (gzseek_cur gzseek_set : Z -> G -> Z * G) (gztell : G -> Z) (gzwrite : option bytes -> Z -> G -> Z * G).

Definition gz_file_skip (cnt : Z) (g : G) : Z * G :=
  let '(ret, g) := gzseek_cur cnt g in
  if ret <? 0 then (-1, g) else (0, g).

Definition gz_file_pad (len : Z) (g : G) : Z * G :=
  let ret := gztell g in
  if ret <? 0 then (-1, g)
  else if len <=? ret then (0, g)
  else
    let '(ret, g) := gzseek_set (len - 1) g in
    if ret <? 0 then (-1, g)
    else let '(_, g) := gzwrite (Some [0]) 1 g in (0, g).

Definition gz_file_write (data : option bytes) (len : Z) (g : G) : Z * G :=
  let '(ret, g) := gzwrite data len g in
  if ret <? 0 then (-1, g)
  else if ret <? len then (-1, g)
  else (0, g).

Definition gz_file_ops : output_file_ops G := OutputFileOps _ gz_file_skip gz_file_pad gz_file_write.

End Gz.

(** ** Callbacks *)
Section Callback.
Context {P : Type} (write : option bytes -> Z -> P -> Z * P).

Definition INT_MAX : Z := 2 ^ 31 - 1.

(** [while (off > 0)]; each turn but the last takes [INT_MAX] bytes off. *)
Fixpoint callback_skip_loop (fuel : nat) (off : Z) (p : P) : Z * P :=
  match fuel with
  | O => (0, p)
  | S fuel' =>
      if 0 <? off then
        let to_write := Z.min off INT_MAX in
        let '(ret, p) := write None to_write p in
        if ret <? 0 then (ret, p) else callback_skip_loop fuel' (off - to_write) p
      else (0, p)
  end.

Definition callback_file_skip (off : Z) (p : P) : Z * P :=
  callback_skip_loop (S (Z.to_nat (off / INT_MAX))) off p.

Definition callback_file_pad (len : Z) (p : P) : Z * P := (-1, p).

Definition callback_file_write (data : option bytes) (len : Z) (p : P) : Z * P := write data len p.

Definition callback_file_ops : output_file_ops P :=
  OutputFileOps _ callback_file_skip callback_file_pad callback_file_write.

End Callback.

Section Output.
Context {Sk : Type} (ops : output_file_ops Sk).
Abbreviation out := (output_file Sk).

Definition set_sink (o : out) (s : Sk) : out :=
  OutputFile (cur_out_ptr o) (chunk_cnt o) (crc32 o) (use_crc o) (out_block_size o) (out_len o)
    (zero_buf o) (fill_buf o) (out_sparse o) s.
Definition set_crc (o : out) (c : Z) : out :=
  OutputFile (cur_out_ptr o) (chunk_cnt o) c (use_crc o) (out_block_size o) (out_len o)
    (zero_buf o) (fill_buf o) (out_sparse o) (sink o).
Definition set_fill_buf (o : out) (b : bytes) : out :=
  OutputFile (cur_out_ptr o) (chunk_cnt o) (crc32 o) (use_crc o) (out_block_size o) (out_len o)
    (zero_buf o) b (out_sparse o) (sink o).

(** [out->cur_out_ptr += n; out->chunk_cnt++;] *)
Definition advance_out (o : out) (n : Z) : out :=
  OutputFile (cur_out_ptr o + n) (u32 (chunk_cnt o + 1)) (crc32 o) (use_crc o) (out_block_size o)
    (out_len o) (zero_buf o) (fill_buf o) (out_sparse o) (sink o).

(** [out->ops->write(out, data, len)] *)
Definition write_out (o : out) (data : bytes) (len : Z) : Z * out :=
  let '(ret, s) := op_write ops (Some data) len (sink o) in (ret, set_sink o s).

(** *** Sparse images *)
Definition write_sparse_skip_chunk (o : out) (skip_len : Z) : outcome (Z * out) :=
  if out_block_size o =? 0 then Fault DivByZero else
  if negb (Z.rem skip_len (out_block_size o) =? 0) then Ret (-1, o) else
  let chunk_header := ChunkHeader CHUNK_TYPE_DONT_CARE 0
    (u32 (Z.quot skip_len (out_block_size o))) CHUNK_HEADER_LEN in
  let '(ret, o) := write_out o (chunk_header_bytes chunk_header) 12 in
  if ret <? 0 then Ret (-1, o) else Ret (0, advance_out o skip_len).

(** [while (count--) out->crc32 = sparse_crc32(out->crc32, &fill_val, 4);] *)
Definition crc_fill (count : nat) (fill_val crc : Z) : Z :=
  Nat.iter count (fun c => sparse_crc32 c (le_encode 4 fill_val)) crc.

Definition write_sparse_fill_chunk (o : out) (len fill_val : Z) : outcome (Z * out) :=
  a ← ALIGN len (out_block_size o);
  let rnd_up_len := i32 a in
  let chunk_header := ChunkHeader CHUNK_TYPE_FILL 0
    (u32 rnd_up_len / out_block_size o) (CHUNK_HEADER_LEN + 4) in
  let '(ret, o) := write_out o (chunk_header_bytes chunk_header) 12 in
  if ret <? 0 then Ret (-1, o) else
  let '(ret, o) := write_out o (le_encode 4 fill_val) 4 in
  if ret <? 0 then Ret (-1, o) else
  let o := if use_crc o
           then set_crc o (crc_fill (Z.to_nat (out_block_size o / 4)) fill_val (crc32 o)) else o in
  Ret (0, advance_out o rnd_up_len).

Definition write_sparse_data_chunk (o : out) (len : Z) (data : bytes) : outcome (Z * out) :=
  a ← ALIGN len (out_block_size o);
  let rnd_up_len := i32 a in
  let zero_len := i32 (u32 (rnd_up_len - len)) in
  let chunk_header := ChunkHeader CHUNK_TYPE_RAW 0
    (u32 rnd_up_len / out_block_size o) (u32 (CHUNK_HEADER_LEN + rnd_up_len)) in
  let '(ret, o) := write_out o (chunk_header_bytes chunk_header) 12 in
  if ret <? 0 then Ret (-1, o) else
  let '(ret, o) := write_out o data (i32 len) in
  if ret <? 0 then Ret (-1, o) else
  let '(ret, o) := if negb (zero_len =? 0)
                   then write_out o (take (Z.to_nat zero_len) (zero_buf o)) zero_len else (0, o) in
  if ret <? 0 then Ret (-1, o) else
  let o := if use_crc o then
             let o := set_crc o (sparse_crc32 (crc32 o) data) in
             if negb (zero_len =? 0)
             then set_crc o (sparse_crc32 (crc32 o) (take (Z.to_nat zero_len) (zero_buf o))) else o
           else o in
  Ret (0, advance_out o rnd_up_len).

(** The result of the second write is not looked at. *)
Definition write_sparse_end_chunk (o : out) : outcome (Z * out) :=
  if use_crc o then
    let chunk_header := ChunkHeader CHUNK_TYPE_CRC32 0 0 (CHUNK_HEADER_LEN + 4) in
    let '(ret, o) := write_out o (chunk_header_bytes chunk_header) 12 in
    if ret <? 0 then Ret (ret, o) else
    let '(_, o) := write_out o (le_encode 4 (crc32 o)) 4 in
    Ret (0, advance_out o 0)
  else Ret (0, o).

(** *** Plain images *)
Definition write_normal_data_chunk (o : out) (len : Z) (data : bytes) : outcome (Z * out) :=
  rnd_up_len ← ALIGN len (out_block_size o);
  let '(ret, o) := write_out o data (i32 len) in
  if ret <? 0 then Ret (ret, o) else
  if len <? rnd_up_len then
    let '(ret, s) := op_skip ops (rnd_up_len - len) (sink o) in Ret (ret, set_sink o s)
  else Ret (ret, o).

(** The fill buffer with its leading words set to [fill_val]. *)
Definition init_fill (o : out) (fill_val : Z) : bytes :=
  let n := Z.to_nat (out_block_size o / 4) in
  concat (replicate n (le_encode 4 fill_val)) ++ drop (4 * n) (fill_buf o).

Fixpoint normal_fill_loop (fuel : nat) (o : out) (len : Z) : outcome (Z * out) :=
  if len =? 0 then Ret (0, o) else
  match fuel with
  | O => Diverge
  | S fuel' =>
      let write_len := Z.min len (out_block_size o) in
      let '(ret, o) := write_out o (take (Z.to_nat write_len) (fill_buf o)) (i32 write_len) in
      if ret <? 0 then Ret (ret, o) else normal_fill_loop fuel' o (len - write_len)
  end.

Definition write_normal_fill_chunk (o : out) (len fill_val : Z) : outcome (Z * out) :=
  let o := set_fill_buf o (init_fill o fill_val) in
  normal_fill_loop (S (Z.to_nat (len / Z.max 1 (out_block_size o)))) o len.

Definition write_normal_skip_chunk (o : out) (len : Z) : outcome (Z * out) :=
  let '(ret, s) := op_skip ops len (sink o) in Ret (ret, set_sink o s).

Definition write_normal_end_chunk (o : out) : outcome (Z * out) :=
  let '(ret, s) := op_pad ops (out_len o) (sink o) in Ret (ret, set_sink o s).

(** *** Dispatch through [sparse_ops] *)
Definition write_data_chunk (o : out) (len : Z) (data : bytes) : outcome (Z * out) :=
  if out_sparse o then write_sparse_data_chunk o len data else write_normal_data_chunk o len data.
Definition write_fill_chunk (o : out) (len fill_val : Z) : outcome (Z * out) :=
  if out_sparse o then write_sparse_fill_chunk o len fill_val else write_normal_fill_chunk o len fill_val.
Definition write_skip_chunk (o : out) (len : Z) : outcome (Z * out) :=
  if out_sparse o then write_sparse_skip_chunk o len else write_normal_skip_chunk o len.
Definition write_end_chunk (o : out) : outcome (Z * out) :=
  if out_sparse o then write_sparse_end_chunk o else write_normal_end_chunk o.

(** Returns the final state of the sink. *)
Definition output_file_close (o : out) : outcome Sk :=
  '(_, o) ← write_end_chunk o; Ret (sink o).

(** [zero_ok] and [fill_ok] say whether the two [calloc]s succeed. *)
Definition output_file_init (zero_ok fill_ok : bool) (block_size len : Z) (sparse : bool) (chunks : Z)
    (crc : bool) (s : Sk) : outcome (Z * out) :=
  let buf := replicate (Z.to_nat block_size) 0 in
  let o := OutputFile 0 0 0 crc block_size len buf buf sparse s in
  if negb zero_ok then Ret (- ENOMEM, o) else
  if negb fill_ok then Ret (- ENOMEM, o) else
  if sparse then
    if block_size =? 0 then Fault DivByZero else
    let header := SparseHeader SPARSE_HEADER_MAGIC SPARSE_HEADER_MAJOR_VER SPARSE_HEADER_MINOR_VER
      SPARSE_HEADER_LEN CHUNK_HEADER_LEN block_size (u32 (Z.quot len block_size))
      (u32 (chunks + (if crc then 1 else 0))) 0 in
    let '(ret, o) := write_out o (sparse_header_bytes header) 28 in
    if ret <? 0 then Ret (ret, o) else Ret (0, o)
  else Ret (0, o).

(** [output_file_open_callback] and [output_file_open_fd]: NULL is [None]. *)
Definition output_file_open (struct_ok zero_ok fill_ok : bool) (block_size len : Z) (sparse : bool)
    (chunks : Z) (crc : bool) (s : Sk) : outcome (option out * Sk) :=
  if negb struct_ok then Ret (None, s) else
  '(ret, o) ← output_file_init zero_ok fill_ok block_size len sparse chunks crc s;
  if ret <? 0 then Ret (None, sink o) else Ret (Some o, sink o).

End Output.

(** ** Reading the sources of chunks *)

(** Files by descriptor and by path, and the buffers of data blocks. *)
Record env := Env {
  env_fd : Z -> option bytes;
  env_file : bytes -> option bytes;
  env_mem : Z -> bytes
}.

Definition EBADF : Z := 9.
Definition ENOENT : Z := 2.

(** Bytes [offset, offset + len) of a mapping of [file]: zeros up to the end
    of the last page, and a fault beyond it. *)
Definition mmap_bytes (file : bytes) (offset len : Z) : outcome bytes :=
  let n := Z.of_nat (length file) in
  let mapped := 4096 * ((n + 4095) / 4096) in
  if (0 <? len) && (mapped <? offset + len) then Fault OutOfBounds
  else Ret (take (Z.to_nat len)
              (drop (Z.to_nat offset) (file ++ replicate (Z.to_nat (mapped - n)) 0))).

Section Sources.
Context {Sk : Type} (ops : output_file_ops Sk) (e : env).

Definition write_fd_contents (o : output_file Sk) (len : Z) (file : option bytes) (offset : Z)
    : outcome (Z * output_file Sk) :=
  let aligned_offset := Z.land offset (Z.lnot 4095) in
  let aligned_diff := i32 (offset - aligned_offset) in
  let buffer_size := i32 (len + aligned_diff) in
  match file with
  | None => Ret (- EBADF, o)
  | Some file =>
      if (buffer_size =? 0) || (offset <? 0) then Ret (- EINVAL, o)
      else if buffer_size <? 0 then Ret (- ENOMEM, o) else
      data ← mmap_bytes file offset len;
      write_data_chunk ops o len data
  end.

Definition write_fd_chunk (o : output_file Sk) (len fd offset : Z) : outcome (Z * output_file Sk) :=
  write_fd_contents o len (env_fd e fd) offset.

Definition write_file_chunk (o : output_file Sk) (len : Z) (file : bytes) (offset : Z)
    : outcome (Z * output_file Sk) :=
  match env_file e file with
  | None => Ret (- ENOENT, o)
  | contents => write_fd_contents o len contents offset
  end.

End Sources.
