(* ===== verification/SparseFile.v ===== *)
(** * Sparse files

    Models src/system/core/libsparse/sparse.c: counting and writing the chunks
    of a sparse file, measuring its length, and cutting it into files of a
    bounded length. Computations run on the heap of BackedBlock.v and write
    through an output file of OutputFile.v. *)

From S2P Require Import Prelude.
From S2P Require Import BackedBlock.
From S2P Require Import OutputFile.

Record sparse_file := SparseFile {
  sf_block_size : Z;
  sf_len : Z;
  sf_verbose : bool;
  sf_list : backed_block_list
}.

Definition set_list (s : sparse_file) (l : backed_block_list) : sparse_file :=
  SparseFile (sf_block_size s) (sf_len s) (sf_verbose s) l.

(** A computation without effect on the heap. *)
Definition liftO {A} (m : outcome A) : heapM A := fun h => a ← m; Ret (a, h).

(** NULL is [None]. *)
Definition sparse_file_new (block_size len : Z) : heapM (option sparse_file) :=
  ok ← alloc_other;
  if (ok : bool) then
    l ← backed_block_list_new block_size;
    mret (Some (SparseFile block_size len false l))
  else mret None.

Definition sparse_file_destroy (s : sparse_file) : heapM unit := backed_block_list_destroy (sf_list s).

(** The status of an addition, and the file with its updated list. *)
Definition with_list (s : sparse_file) (m : heapM (Z * backed_block_list)) : heapM (Z * sparse_file) :=
  '(ret, l) ← m; mret (ret, set_list s l).

Definition sparse_file_add_data (s : sparse_file) (data : Z * Z) (len block : Z) :=
  with_list s (backed_block_add_data (sf_list s) data len block).
Definition sparse_file_add_fill (s : sparse_file) (fill_val len block : Z) :=
  with_list s (backed_block_add_fill (sf_list s) fill_val len block).
Definition sparse_file_add_file (s : sparse_file) (filename : bytes) (file_offset len block : Z) :=
  with_list s (backed_block_add_file (sf_list s) filename file_offset len block).
Definition sparse_file_add_fd (s : sparse_file) (fd file_offset len block : Z) :=
  with_list s (backed_block_add_fd (sf_list s) fd file_offset len block).

(** ** Counting chunks *)
Fixpoint count_loop (fuel : nat) (block_size : Z) (bb : ptr) (last_block chunks : Z) : heapM (Z * Z) :=
  match bb with
  | None => mret (last_block, chunks)
  | Some _ =>
      match fuel with
      | O => fun _ => Diverge
      | S fuel' =>
          block ← backed_block_block bb;
          let chunks := if last_block <? block then u32 (chunks + 1) else chunks in
          let chunks := u32 (chunks + 1) in
          len ← backed_block_len bb;
          blocks ← liftO (DIV_ROUND_UP len block_size);
          next ← backed_block_iter_next bb;
          count_loop fuel' block_size next (u32 (block + blocks)) chunks
      end
  end.

(** [DIV_ROUND_UP] at the width of [len]. *)
Definition DIV_ROUND_UP64 (x y : Z) : outcome Z :=
  if y =? 0 then Fault DivByZero else Ret (Z.quot (i64 (x + y - 1)) y).

Definition sparse_count_chunks (s : sparse_file) : heapM Z :=
  fuel ← list_fuel;
  '(last_block, chunks) ← count_loop fuel (sf_block_size s) (backed_block_iter_new (sf_list s)) 0 0;
  blocks ← liftO (DIV_ROUND_UP64 (sf_len s) (sf_block_size s));
  mret (if last_block <? blocks then u32 (chunks + 1) else chunks).

(** ** Writing *)
Section Writing.
Context {Sk : Type} (ops : output_file_ops Sk) (e : env).
Abbreviation out := (output_file Sk).

(** The bytes a data block points at. *)
Definition read_mem (data : Z * Z) (len : Z) : outcome bytes :=
  let buf := env_mem e data.1 in
  if (0 <? len) && ((data.2 <? 0) || (Z.of_nat (length buf) <? data.2 + len)) then Fault OutOfBounds
  else Ret (take (Z.to_nat len) (drop (Z.to_nat data.2) buf)).

Definition read_str (f : loc) : heapM bytes := fun h =>
  match h_str h !! f with Some s => Ret (s, h) | None => Fault UseAfterFree end.

Definition sparse_file_write_block (o : out) (bb : ptr) : heapM (Z * out) :=
  n ← get_bb bb;
  match bb_type n with
  | BACKED_BLOCK_DATA _ _ =>
      len ← backed_block_len bb;
      p ← backed_block_data bb;
      data ← liftO (read_mem p len);
      liftO (write_data_chunk ops o len data)
  | BACKED_BLOCK_FILE _ _ =>
      len ← backed_block_len bb;
      f ← backed_block_filename bb;
      name ← read_str f;
      offset ← backed_block_file_offset bb;
      liftO (write_file_chunk ops e o len name offset)
  | BACKED_BLOCK_FD _ _ =>
      len ← backed_block_len bb;
      fd ← backed_block_fd bb;
      offset ← backed_block_file_offset bb;
      liftO (write_fd_chunk ops e o len fd offset)
  | BACKED_BLOCK_FILL _ =>
      len ← backed_block_len bb;
      v ← backed_block_fill_val bb;
      liftO (write_fill_chunk ops o len v)
  end.

(** The loop of [write_all_blocks]: the status, the block after the last one
    written, and the output file. The status of skip chunks is not looked at. *)
Fixpoint write_loop (fuel : nat) (block_size : Z) (o : out) (bb : ptr) (last_block : Z)
    : heapM (Z * Z * out) :=
  match bb with
  | None => mret (0, last_block, o)
  | Some _ =>
      match fuel with
      | O => fun _ => Diverge
      | S fuel' =>
          block ← backed_block_block bb;
          o ← (if last_block <? block then
                 let blocks := u32 (block - last_block) in
                 '(_, o) ← liftO (write_skip_chunk ops o (blocks * block_size)); mret o
               else mret o);
          '(ret, o) ← sparse_file_write_block o bb;
          if negb (ret =? 0) then mret (ret, last_block, o) else
          len ← backed_block_len bb;
          blocks ← liftO (DIV_ROUND_UP len block_size);
          next ← backed_block_iter_next bb;
          write_loop fuel' block_size o next (u32 (block + blocks))
      end
  end.

Definition write_all_blocks (s : sparse_file) (o : out) : heapM (Z * out) :=
  fuel ← list_fuel;
  '(ret, last_block, o) ← write_loop fuel (sf_block_size s) o (backed_block_iter_new (sf_list s)) 0;
  if negb (ret =? 0) then mret (ret, o) else
  let pad := sf_len s - last_block * sf_block_size s in
  assertM (0 <=? pad) ≫= fun _ =>
  if 0 <? pad then
    '(_, o) ← liftO (write_skip_chunk ops o pad); mret (0, o)
  else mret (0, o).

(** Opening allocates the structure and two buffers, in this order. *)
Definition open_out (block_size len : Z) (sparse : bool) (chunks : Z) (crc : bool) (s : Sk)
    : heapM (option out * Sk) :=
  struct_ok ← alloc_other;
  zero_ok ← (if (struct_ok : bool) then alloc_other else mret true);
  fill_ok ← (if struct_ok && zero_ok then alloc_other else mret true);
  liftO (output_file_open ops struct_ok zero_ok fill_ok block_size len sparse chunks crc s).

(** [sparse_file_write] and [sparse_file_callback]: the status and the sink. *)
Definition sparse_file_write (s : sparse_file) (sparse crc : bool) (sk : Sk) : heapM (Z * Sk) :=
  chunks ← sparse_count_chunks s;
  '(out, sk) ← open_out (sf_block_size s) (sf_len s) sparse chunks crc sk;
  match out with
  | None => mret (- ENOMEM, sk)
  | Some o =>
      '(ret, o) ← write_all_blocks s o;
      sk ← liftO (output_file_close ops o);
      mret (ret, sk)
  end.

End Writing.

(** ** Measuring *)
Definition out_counter_write (data : option bytes) (len count : Z) : Z * Z := (0, count + len).

Definition counter_ops : output_file_ops Z := callback_file_ops out_counter_write.

Definition sparse_file_len (e : env) (s : sparse_file) (sparse crc : bool) : heapM Z :=
  chunks ← sparse_count_chunks s;
  '(out, _) ← open_out counter_ops (sf_block_size s) (sf_len s) sparse chunks crc 0;
  match out with
  | None => mret (-1)
  | Some o =>
      '(ret, o) ← write_all_blocks counter_ops e s o;
      count ← liftO (output_file_close counter_ops o);
      mret (if ret <? 0 then -1 else count)
  end.

(** ** Cutting into files of bounded length *)

(** The loop of [move_chunks_up_to_len]: where it stopped and how. *)
Inductive move_exit :=
  | MoveError
  | MoveFull (bb last_bb : ptr)
  | MoveAll (last_bb : ptr).

Fixpoint move_loop (fuel : nat) (e : env) (from : backed_block_list) (block_size len : Z)
    (o : output_file Z) (bb last_bb : ptr) (last_block file_len : Z) : heapM (move_exit * output_file Z) :=
  match bb with
  | None => mret (MoveAll last_bb, o)
  | Some _ =>
      match fuel with
      | O => fun _ => Diverge
      | S fuel' =>
          block ← backed_block_block bb;
          let o := set_sink o (if last_block <? block then 12 else 0) in
          blen ← backed_block_len bb;
          blocks ← liftO (DIV_ROUND_UP blen block_size);
          let last_block := u32 (block + blocks) in
          '(ret, o) ← sparse_file_write_block counter_ops e o bb;
          if negb (ret =? 0) then mret (MoveError, o) else
          let count := sink o in
          if len <? file_len + count then
            let file_len := file_len + 12 in
            if (match last_bb with None => true | _ => false end) || (len / 8 <? len - file_len) then
              backed_block_split from bb (u32 (len - file_len)) ≫= fun _ =>
              mret (MoveFull bb bb, o)
            else mret (MoveFull bb last_bb, o)
          else
            next ← backed_block_iter_next bb;
            move_loop fuel' e from block_size len o next bb last_block (file_len + count)
      end
  end.

Definition overhead : Z := SPARSE_HEADER_LEN + 2 * CHUNK_HEADER_LEN + 4.

(** The first node left behind, and the two files. *)
Definition move_chunks_up_to_len (e : env) (from to : sparse_file) (len : Z)
    : heapM (ptr * sparse_file * sparse_file) :=
  let len := u32 (len - overhead) in
  let start := backed_block_iter_new (sf_list from) in
  '(out, _) ← open_out counter_ops (sf_block_size to) (sf_len to) true 0 false 0;
  match out with
  | None => mret (None, from, to)
  | Some o =>
      fuel ← list_fuel;
      '(r, o) ← move_loop fuel e (sf_list from) (sf_block_size to) len o start None 0 0;
      '(bb, from, to) ← match r with
                        | MoveError => mret (None, from, to)
                        | MoveFull bb last_bb =>
                            '(lf, lt) ← backed_block_list_move (sf_list from) (sf_list to) start last_bb;
                            mret (bb, set_list from lf, set_list to lt)
                        | MoveAll last_bb =>
                            '(lf, lt) ← backed_block_list_move (sf_list from) (sf_list to) start last_bb;
                            mret (None, set_list from lf, set_list to lt)
                        end;
      liftO (output_file_close counter_ops o) ≫= fun _ =>
      mret (bb, from, to)
  end.

(** [do ... while (bb)]: the input file, the temporary one, the files handed
    out (latest first) and the count. *)
Fixpoint resparse_loop (fuel : nat) (e : env) (in_s tmp : sparse_file) (max_len : Z)
    (out_s : list sparse_file) (out_s_count c : Z) : heapM (sparse_file * sparse_file * list sparse_file * Z) :=
  match fuel with
  | O => fun _ => Diverge
  | S fuel' =>
      s ← sparse_file_new (sf_block_size in_s) (sf_len in_s);
      match s with
      | None => throw NullDeref
      | Some s =>
          '(bb, in_s, s) ← move_chunks_up_to_len e in_s s max_len;
          '(tmp, out_s) ←
            (if c <? out_s_count then mret (tmp, s :: out_s)
             else
               '(ls, lt) ← backed_block_list_move (sf_list s) (sf_list tmp) None None;
               sparse_file_destroy (set_list s ls) ≫= fun _ =>
               mret (set_list tmp lt, out_s));
          match bb with
          | Some _ => resparse_loop fuel' e in_s tmp max_len out_s out_s_count (c + 1)
          | None => mret (in_s, tmp, out_s, c + 1)
          end
      end
  end.

(** The count or an error, the input file and the files handed out in order. *)
Definition sparse_file_resparse (fuel : nat) (e : env) (in_s : sparse_file) (max_len out_s_count : Z)
    : heapM (Z * sparse_file * list sparse_file) :=
  tmp ← sparse_file_new (sf_block_size in_s) (sf_len in_s);
  match tmp with
  | None => mret (- ENOMEM, in_s, [])
  | Some tmp =>
      '(in_s, tmp, out_s, c) ← resparse_loop fuel e in_s tmp max_len [] out_s_count 0;
      '(lt, li) ← backed_block_list_move (sf_list tmp) (sf_list in_s) None None;
      sparse_file_destroy (set_list tmp lt) ≫= fun _ =>
      mret (c, set_list in_s li, rev out_s)
  end.

Definition sparse_file_verbose (s : sparse_file) : sparse_file :=
  SparseFile (sf_block_size s) (sf_len s) true (sf_list s).
