(* ===== verification/SparseRead.v ===== *)
(** * Reading sparse images

    Models src/system/core/libsparse/sparse_read.c and [read_all] of
    output_file.c. The input descriptor is a file with a position; a script
    bounds what each [read] returns. The optional checksum pointer is an
    optional value threaded through the calls. Diagnostics are not modelled. *)

From S2P Require Import Prelude.
From S2P Require Import SparseCrc32.
From S2P Require Import BackedBlock.
From S2P Require Import OutputFile.
From S2P Require Import SparseFile.

(** ** Input files

    A negative entry of [r_script] is the negated errno of a failing [read];
    other entries bound the byte count of a call. *)
Record rfile := RFile {
  r_bytes : bytes;
  r_pos : Z;
  r_script : list Z
}.

(** [read(fd, ptr, n)]: the count or a negated errno, and the bytes read. *)
Definition kread (n : Z) (f : rfile) : Z * bytes * rfile :=
  let avail := drop (Z.to_nat (r_pos f)) (r_bytes f) in
  let get (k : Z) (s : list Z) :=
    let data := take (Z.to_nat k) avail in
    (Z.of_nat (length data), data, RFile (r_bytes f) (r_pos f + Z.of_nat (length data)) s) in
  match r_script f with
  | q :: s => if q <? 0 then (q, [], RFile (r_bytes f) (r_pos f) s) else get (Z.min q n) s
  | [] => get n []
  end.

Definition klseek_in (cnt : Z) (f : rfile) : rfile :=
  if r_pos f + cnt <? 0 then f else RFile (r_bytes f) (r_pos f + cnt) (r_script f).

(** [while (total < len)]; once the script is used up, one call reads all there is. *)
Fixpoint read_loop (fuel : nat) (len : Z) (acc : bytes) (f : rfile) : outcome (Z * bytes * rfile) :=
  if Z.of_nat (length acc) <? len then
    match fuel with
    | O => Diverge
    | S fuel' =>
        let '(ret, data, f) := kread (len - Z.of_nat (length acc)) f in
        if ret <? 0 then Ret (ret, acc, f)
        else if ret =? 0 then Ret (- EINVAL, acc, f)
        else read_loop fuel' len (acc ++ data) f
    end
  else Ret (0, acc, f).

Definition read_all (len : Z) (f : rfile) : outcome (Z * bytes * rfile) :=
  read_loop (length (r_script f) + 2) len [] f.

(** ** Checksums in pieces of the copy buffer *)
Definition COPY_BUF_SIZE : Z := 1024 * 1024.

(** The first [n] bytes of the copy buffer filled with [val]. *)
Definition fill_bytes (n : Z) (val : Z) : bytes :=
  take (Z.to_nat n) (concat (replicate (S (Z.to_nat (n / 4))) (le_encode 4 val))).

(** [while (len) { chunk = min(len, COPY_BUF_SIZE); ...; len -= chunk; }] over a
    buffer whose first bytes are given by [buf]. *)
Fixpoint crc_buf_loop (fuel : nat) (buf : Z -> bytes) (len crc : Z) : outcome Z :=
  if len =? 0 then Ret crc else
  match fuel with
  | O => Diverge
  | S fuel' =>
      let chunk := Z.min len COPY_BUF_SIZE in
      crc_buf_loop fuel' buf (len - chunk) (sparse_crc32 crc (buf chunk))
  end.

Definition crc_fuel (len : Z) : nat := S (Z.to_nat (len / COPY_BUF_SIZE)).

(** The same, reading each piece from the input. *)
Fixpoint crc_read_loop (fuel : nat) (len crc : Z) (f : rfile) : outcome (Z * Z * rfile) :=
  if len =? 0 then Ret (0, crc, f) else
  match fuel with
  | O => Diverge
  | S fuel' =>
      let chunk := Z.min len COPY_BUF_SIZE in
      '(ret, data, f) ← read_all chunk f;
      if ret <? 0 then Ret (ret, crc, f)
      else crc_read_loop fuel' (len - chunk) (sparse_crc32 crc data) f
  end.

(** ** Chunks

    Each returns the status, the sparse file, the checksum and the input. *)
Abbreviation chunk_result := (Z * sparse_file * option Z * rfile)%type.

Definition process_raw_chunk (s : sparse_file) (chunk_size fd : Z) (f : rfile) (offset blocks block : Z)
    (crc : option Z) : heapM chunk_result :=
  let len := u32 (blocks * sf_block_size s) in
  if sf_block_size s =? 0 then throw DivByZero else
  if negb (chunk_size mod sf_block_size s =? 0) then mret (- EINVAL, s, crc, f) else
  if negb (chunk_size / sf_block_size s =? blocks) then mret (- EINVAL, s, crc, f) else
  '(ret, s) ← sparse_file_add_fd s fd offset len block;
  if ret <? 0 then mret (ret, s, crc, f) else
  match crc with
  | Some c =>
      '(ret, c, f) ← liftO (crc_read_loop (crc_fuel len) len c f);
      mret ((if ret <? 0 then ret else 0), s, Some c, f)
  | None => mret (0, s, None, klseek_in len f)
  end.

Definition process_fill_chunk (s : sparse_file) (chunk_size : Z) (f : rfile) (blocks block : Z)
    (crc : option Z) : heapM chunk_result :=
  let len := blocks * sf_block_size s in
  if negb (chunk_size =? 4) then mret (- EINVAL, s, crc, f) else
  '(ret, data, f) ← liftO (read_all 4 f);
  if ret <? 0 then mret (ret, s, crc, f) else
  let fill_val := le_decode data in
  '(ret, s) ← sparse_file_add_fill s fill_val (u32 len) block;
  if ret <? 0 then mret (ret, s, crc, f) else
  match crc with
  | Some c =>
      c ← liftO (crc_buf_loop (crc_fuel len) (fun n => fill_bytes n fill_val) len c);
      mret (0, s, Some c, f)
  | None => mret (0, s, None, f)
  end.

Definition process_skip_chunk (s : sparse_file) (chunk_size : Z) (f : rfile) (blocks : Z)
    (crc : option Z) : heapM chunk_result :=
  if negb (chunk_size =? 0) then mret (- EINVAL, s, crc, f) else
  match crc with
  | Some c =>
      let len := blocks * sf_block_size s in
      c ← liftO (crc_buf_loop (crc_fuel len) (fun n => replicate (Z.to_nat n) 0) len c);
      mret (0, s, Some c, f)
  | None => mret (0, s, None, f)
  end.

Definition process_crc32_chunk (chunk_size crc : Z) (f : rfile) : outcome (Z * rfile) :=
  if negb (chunk_size =? 4) then Ret (- EINVAL, f) else
  '(ret, data, f) ← read_all 4 f;
  if ret <? 0 then Ret (ret, f) else
  if negb (le_decode data =? crc) then Ret (- EINVAL, f) else Ret (0, f).

(** The result is the chunk's size in blocks as an [int], or an error. *)
Definition process_chunk (s : sparse_file) (fd : Z) (f : rfile) (offset chunk_hdr_sz : Z)
    (h : chunk_header) (cur_block : Z) (crc : option Z) : heapM chunk_result :=
  let chunk_data_size := u32 (ch_total_sz h - chunk_hdr_sz) in
  if ch_chunk_type h =? CHUNK_TYPE_RAW then
    '(ret, s, crc, f) ← process_raw_chunk s chunk_data_size fd f offset (ch_chunk_sz h) cur_block crc;
    mret ((if ret <? 0 then ret else i32 (ch_chunk_sz h)), s, crc, f)
  else if ch_chunk_type h =? CHUNK_TYPE_FILL then
    '(ret, s, crc, f) ← process_fill_chunk s chunk_data_size f (ch_chunk_sz h) cur_block crc;
    mret ((if ret <? 0 then ret else i32 (ch_chunk_sz h)), s, crc, f)
  else if ch_chunk_type h =? CHUNK_TYPE_DONT_CARE then
    '(ret, s, crc, f) ← process_skip_chunk s chunk_data_size f (ch_chunk_sz h) crc;
    mret ((if negb (chunk_data_size =? 0) && (ret <? 0) then ret else i32 (ch_chunk_sz h)), s, crc, f)
  else if ch_chunk_type h =? CHUNK_TYPE_CRC32 then
    match crc with
    | None => throw NullDeref
    | Some c =>
        '(ret, f) ← liftO (process_crc32_chunk chunk_data_size c f);
        mret ((if ret <? 0 then ret else 0), s, crc, f)
    end
  else mret (0, s, crc, f).

(** ** Files *)
Definition field (off n : nat) (l : bytes) : Z := le_decode (take n (drop off l)).

Definition parse_sparse_header (l : bytes) : sparse_header :=
  SparseHeader (field 0 4 l) (field 4 2 l) (field 6 2 l) (field 8 2 l) (field 10 2 l)
    (field 12 4 l) (field 16 4 l) (field 20 4 l) (field 24 4 l).

Definition parse_chunk_header (l : bytes) : chunk_header :=
  ChunkHeader (field 0 2 l) (field 2 2 l) (field 4 4 l) (field 8 4 l).

(** [for (i = 0; i < sparse_header.total_chunks; i++)] *)
Fixpoint read_chunks (n : nat) (s : sparse_file) (fd : Z) (chunk_hdr_sz : Z) (f : rfile)
    (cur_block : Z) (crc : option Z) : heapM (Z * sparse_file * Z * rfile) :=
  match n with
  | O => mret (0, s, cur_block, f)
  | S n' =>
      '(ret, data, f) ← liftO (read_all CHUNK_HEADER_LEN f);
      if ret <? 0 then mret (ret, s, cur_block, f) else
      let h := parse_chunk_header data in
      let f := if CHUNK_HEADER_LEN <? chunk_hdr_sz
               then klseek_in (chunk_hdr_sz - CHUNK_HEADER_LEN) f else f in
      '(ret, s, crc, f) ← process_chunk s fd f (r_pos f) chunk_hdr_sz h cur_block crc;
      if ret <? 0 then mret (ret, s, cur_block, f)
      else read_chunks n' s fd chunk_hdr_sz f (u32 (cur_block + ret)) crc
  end.

(** The checks on a header that both readers make. *)
Definition header_bad (h : sparse_header) : bool :=
  negb (sh_magic h =? SPARSE_HEADER_MAGIC)
  || negb (sh_major_version h =? SPARSE_HEADER_MAJOR_VER)
  || (sh_file_hdr_sz h <? SPARSE_HEADER_LEN)
  || (sh_chunk_hdr_sz h <? CHUNK_HEADER_LEN).

(** [copybuf_ok]: the copy buffer exists or could be allocated. *)
Definition sparse_file_read_sparse (copybuf_ok : bool) (s : sparse_file) (fd : Z) (f : rfile) (crc : bool)
    : heapM (Z * sparse_file * rfile) :=
  if negb copybuf_ok then mret (- ENOMEM, s, f) else
  '(ret, data, f) ← liftO (read_all SPARSE_HEADER_LEN f);
  if ret <? 0 then mret (ret, s, f) else
  let h := parse_sparse_header data in
  if header_bad h then mret (- EINVAL, s, f) else
  let f := if SPARSE_HEADER_LEN <? sh_file_hdr_sz h
           then klseek_in (sh_file_hdr_sz h - SPARSE_HEADER_LEN) f else f in
  '(ret, s, cur_block, f) ← read_chunks (Z.to_nat (sh_total_chunks h)) s fd (sh_chunk_hdr_sz h) f 0
                              (if crc then Some 0 else None);
  if ret <? 0 then mret (ret, s, f) else
  if negb (sh_total_blks h =? cur_block) then mret (- EINVAL, s, f) else mret (0, s, f).

(** The words of a block. *)
Definition word (l : bytes) (i : nat) : Z := field (4 * i) 4 l.

(** Are the words of a block all equal? *)
Definition all_words_equal (block_size : Z) (buf : bytes) : bool :=
  forallb (fun i => word buf 0 =? word buf i) (seq 1 (Z.to_nat (block_size / 4) - 1)).

Fixpoint read_normal_loop (fuel : nat) (s : sparse_file) (fd : Z) (f : rfile) (remain offset block : Z)
    : heapM (Z * sparse_file * rfile) :=
  if 0 <? remain then
    match fuel with
    | O => fun _ => Diverge
    | S fuel' =>
        let to_read := Z.min remain (sf_block_size s) in
        '(ret, buf, f) ← liftO (read_all to_read f);
        if ret <? 0 then mret (ret, s, f) else
        (if (to_read =? sf_block_size s) && (sf_block_size s <? 4) then throw OutOfBounds else mret tt) ≫= fun _ =>
        '(_, s) ← (if (to_read =? sf_block_size s) && all_words_equal (sf_block_size s) buf
                   then sparse_file_add_fill s (word buf 0) to_read block
                   else sparse_file_add_fd s fd offset to_read block);
        read_normal_loop fuel' s fd f (remain - to_read) (offset + to_read) (u32 (block + 1))
    end
  else mret (0, s, f).

(** [buf_ok]: the [malloc] of the block buffer succeeds. *)
Definition sparse_file_read_normal (buf_ok : bool) (s : sparse_file) (fd : Z) (f : rfile)
    : heapM (Z * sparse_file * rfile) :=
  if negb buf_ok then mret (- ENOMEM, s, f) else
  read_normal_loop (S (Z.to_nat (sf_len s / Z.max 1 (sf_block_size s)))) s fd f (sf_len s) 0 0.

Definition sparse_file_read (buf_ok : bool) (s : sparse_file) (fd : Z) (f : rfile) (sparse crc : bool)
    : heapM (Z * sparse_file * rfile) :=
  if crc && negb sparse then mret (- EINVAL, s, f) else
  if sparse then sparse_file_read_sparse buf_ok s fd f crc
  else sparse_file_read_normal buf_ok s fd f.

Definition rewind (f : rfile) : rfile := RFile (r_bytes f) 0 (r_script f).

(** NULL is [None]. *)
Definition sparse_file_import (buf_ok : bool) (fd : Z) (f : rfile) (verbose crc : bool)
    : heapM (option sparse_file * rfile) :=
  '(ret, data, f) ← liftO (read_all SPARSE_HEADER_LEN f);
  if ret <? 0 then mret (None, f) else
  let h := parse_sparse_header data in
  if header_bad h then mret (None, f) else
  let len := sh_total_blks h * sh_blk_sz h in
  s ← sparse_file_new (sh_blk_sz h) len;
  match s with
  | None => mret (None, f)
  | Some s =>
      let f := rewind f in
      let s := SparseFile (sf_block_size s) (sf_len s) verbose (sf_list s) in
      '(ret, s, f) ← sparse_file_read buf_ok s fd f true crc;
      if ret <? 0 then sparse_file_destroy s ≫= fun _ => mret (None, f)
      else mret (Some s, f)
  end.

Definition sparse_file_import_auto (buf_ok : bool) (fd : Z) (f : rfile) (crc verbose : bool)
    : heapM (option sparse_file * rfile) :=
  '(s, f) ← sparse_file_import buf_ok fd f verbose crc;
  match s with
  | Some s => mret (Some s, f)
  | None =>
      let len := Z.of_nat (length (r_bytes f)) in
      let f := rewind f in
      s ← sparse_file_new 4096 len;
      match s with
      | None => mret (None, f)
      | Some s =>
          '(ret, s, f) ← sparse_file_read_normal buf_ok s fd f;
          if ret <? 0 then sparse_file_destroy s ≫= fun _ => mret (None, f)
          else mret (Some s, f)
      end
  end.
