(* ===== verification/SparseSpec.v ===== *)
(** * Sparse images as lists of chunks

    The format as a list of chunks, the interface a sink offers to the writer
    ([AppendSink]), and the proof that [sparse_file_write] emits exactly the
    chunks of the file's block list, as many as its header announces. *)

From S2P Require Import Prelude.
From S2P Require Import SparseCrc32.
From S2P Require Import BackedBlock.
From S2P Require Import BackedBlockSpec.
From S2P Require Import BackedBlockContent.
From S2P Require Import OutputFile.
From S2P Require Import SparseFile.
From S2P Require Import SparseRead.

#[local] Set Warnings "-clear-no-such-hyp".

(** ** The interface of a sink

    A sink that is used only through [op_write] and appends what it is given. *)
Class AppendSink {Sk M : Type} (ops : output_file_ops Sk) (contents : Sk -> M) (ready : Sk -> Prop)
    (append : M -> bytes -> M) := {
  append_nil : forall m, append m [] = m;
  append_app : forall m d1 d2, append (append m d1) d2 = append m (d1 ++ d2);
  append_write : forall data s, ready s ->
    exists s', op_write ops (Some data) (Z.of_nat (length data)) s = (0, s') /\
      contents s' = append (contents s) data /\ ready s'
}.

(** A kernel file at its end, whose writes are not cut short. *)
Definition at_end (f : kfile) : Prop := k_pos f = Z.of_nat (length (k_bytes f)) /\ k_script f = [].

Lemma overwrite_end l data : overwrite l (length l) data = l ++ data.
Proof.
  unfold overwrite. rewrite Nat.sub_diag. simpl. rewrite app_nil_r, take_ge by lia.
  by rewrite drop_ge, app_nil_r by lia.
Qed.

#[global] Instance file_append : AppendSink file_ops k_bytes at_end app.
Proof.
  constructor; [apply app_nil_r | intros; by rewrite app_assoc |]. intros data [l pos script] [Hpos Hs]. simpl in *. subst.
  unfold file_write, kwrite. simpl.
  destruct (Z.ltb_spec (Z.of_nat (length data)) 0); [lia |].
  destruct (Z.ltb_spec (Z.of_nat (length data)) (Z.of_nat (length data))); [lia |].
  eexists. split; [reflexivity |]. simpl. rewrite Nat2Z.id, overwrite_end. split; [done |].
  split; [| done]. simpl. rewrite length_app. lia.
Qed.

(** A callback that collects the bytes it is given. *)
Definition collect_write (data : option bytes) (len : Z) (acc : bytes) : Z * bytes :=
  (0, acc ++ default (replicate (Z.to_nat len) 0) data).

#[global] Instance collect_append : AppendSink (callback_file_ops collect_write) id (fun _ => True) app.
Proof. constructor; [apply app_nil_r | intros; by rewrite app_assoc |]. intros data s _. by eexists. Qed.

(** The counter of [sparse_file_len]. *)
Definition add_length (n : Z) (data : bytes) : Z := n + Z.of_nat (length data).

#[global] Instance counter_append : AppendSink counter_ops id (fun _ => True) add_length.
Proof.
  unfold add_length. constructor; [simpl; lia | intros; rewrite length_app; lia |].
  intros data s _. by eexists.
Qed.

(** ** Chunks *)
Inductive chunk :=
  | CSkip (blocks : Z)
  | CFill (blocks : Z) (val : Z)
  | CRaw (blocks : Z) (data : bytes).

Definition chunk_blocks (c : chunk) : Z :=
  match c with CSkip n => n | CFill n _ => n | CRaw n _ => n end.

Definition chunk_payload (c : chunk) : bytes :=
  match c with CSkip _ => [] | CFill _ v => le_encode 4 v | CRaw _ data => data end.

Definition chunk_type (c : chunk) : Z :=
  match c with CSkip _ => CHUNK_TYPE_DONT_CARE | CFill _ _ => CHUNK_TYPE_FILL | CRaw _ _ => CHUNK_TYPE_RAW end.

Definition encode_chunk (c : chunk) : bytes :=
  chunk_header_bytes (ChunkHeader (chunk_type c) 0 (chunk_blocks c)
    (CHUNK_HEADER_LEN + Z.of_nat (length (chunk_payload c)))) ++ chunk_payload c.

Definition encode_chunks (l : list chunk) : bytes := concat (map encode_chunk l).

Definition image_header (bs total_blks total_chunks : Z) : bytes :=
  sparse_header_bytes (SparseHeader SPARSE_HEADER_MAGIC SPARSE_HEADER_MAJOR_VER SPARSE_HEADER_MINOR_VER
    SPARSE_HEADER_LEN CHUNK_HEADER_LEN bs total_blks total_chunks 0).

(** ** The bytes a block stands for *)
Definition slice (l : bytes) (off len : Z) : option bytes :=
  if (0 <=? off) && (0 <=? len) && (off + len <=? Z.of_nat (length l))
  then Some (take (Z.to_nat len) (drop (Z.to_nat off) l)) else None.

Section Source.
Context (e : env) (strs : gmap loc bytes).

Definition source (k : bb_kind) (len : Z) : option bytes :=
  match k with
  | BACKED_BLOCK_DATA buf off => slice (env_mem e buf) off len
  | BACKED_BLOCK_FILE f off =>
      name ← strs !! f; file ← env_file e name; slice file off len
  | BACKED_BLOCK_FD fd off => file ← env_fd e fd; slice file off len
  | BACKED_BLOCK_FILL v => Some (fill_bytes len v)
  end.

Context (bs : Z).

(** Bytes up to the end of the last block. *)
Definition aligned (len : Z) : Z := bs * blocks_of bs len.

Definition pad_to (n : Z) (l : bytes) : bytes := l ++ replicate (Z.to_nat n - length l) 0.

(** A block the writer can handle: not empty, its rounded length an [int] with
    room for a page, its source readable. *)
Definition writable (b : blk) : Prop :=
  0 < k_len b /\ aligned (k_len b) + 4096 <= 2 ^ 31 /\ is_Some (source (k_kind b) (k_len b)).

Definition block_chunk (b : blk) : chunk :=
  match k_kind b with
  | BACKED_BLOCK_FILL v => CFill (blocks_of bs (k_len b)) v
  | k => CRaw (blocks_of bs (k_len b)) (pad_to (aligned (k_len b)) (default [] (source k (k_len b))))
  end.

Definition gap_chunk (from to : Z) : list chunk := if from <? to then [CSkip (to - from)] else [].

(** The chunks of a block list, from block [last] on. *)
Fixpoint chunks_from (last : Z) (l : list blk) : list chunk :=
  match l with
  | [] => []
  | b :: l' => gap_chunk last (k_block b) ++ block_chunk b :: chunks_from (end_of bs b) l'
  end.

Fixpoint last_end (last : Z) (l : list blk) : Z :=
  match l with [] => last | b :: l' => last_end (end_of bs b) l' end.

(** The chunks of an image of [total] blocks. *)
Definition image_chunks (total : Z) (l : list blk) : list chunk :=
  chunks_from 0 l ++ gap_chunk (last_end 0 l) total.

End Source.

(** ** Writing chunks *)
Lemma aligned_bounds bs len : 0 < bs -> 0 < len ->
  len <= aligned bs len < len + bs /\ bs <= aligned bs len /\ 0 < blocks_of bs len.
Proof.
  intros Hbs Hlen. unfold aligned, blocks_of.
  pose proof (Z.div_mod (len + bs - 1) bs ltac:(lia)). pose proof (Z.mod_pos_bound (len + bs - 1) bs Hbs).
  assert (0 < (len + bs - 1) / bs) by (apply Z.div_str_pos; lia). nia.
Qed.

Lemma ALIGN_ok bs len : 0 < bs -> 0 < len -> aligned bs len < 2 ^ 31 -> ALIGN len bs = Ret (aligned bs len).
Proof.
  intros Hbs Hlen Hlim. pose proof (aligned_bounds bs len Hbs Hlen).
  unfold ALIGN, DIV_ROUND_UP. destruct (Z.eqb_spec bs 0); [lia |]. rewrite bind_ret.
  rewrite (wrap_small 32 (len + bs - 1)) by (unfold in_range; lia).
  rewrite wrap_small by (unfold in_range, aligned, blocks_of in *; lia). done.
Qed.

Section Writer.
Context {Sk M : Type} (ops : output_file_ops Sk) (contents : Sk -> M) (ready : Sk -> Prop).
Context (append : M -> bytes -> M) `{!AppendSink ops contents ready append}.
Context (bs : Z) (Hbs : 0 < bs).
Abbreviation out := (output_file Sk).

(** A sparse output file with blocks of [bs] bytes. *)
Definition out_ok (o : out) : Prop :=
  out_block_size o = bs /\ out_sparse o = true /\ zero_buf o = replicate (Z.to_nat bs) 0 /\ ready (sink o).

(** From [o] to [o'] the sink received exactly [data]. *)
Definition emits (o : out) (data : bytes) (o' : out) : Prop :=
  out_ok o' /\ contents (sink o') = append (contents (sink o)) data /\ use_crc o' = use_crc o.

Lemma emits_nil o : out_ok o -> emits o [] o.
Proof. intros H. by split; [| rewrite append_nil]. Qed.

Lemma emits_trans o1 d1 o2 d2 o3 : emits o1 d1 o2 -> emits o2 d2 o3 -> emits o1 (d1 ++ d2) o3.
Proof. intros (_ & E1 & C1) (H & E2 & C2). split_and!; [done | by rewrite E2, E1, append_app | congruence]. Qed.

Lemma write_out_emits o data len : out_ok o -> len = Z.of_nat (length data) ->
  exists o', write_out ops o data len = (0, o') /\ emits o data o' /\
    zero_buf o' = zero_buf o /\ chunk_cnt o' = chunk_cnt o.
Proof.
  intros (H1 & H2 & H3 & H4) ->. destruct (append_write data (sink o) H4) as (s' & E & Ec & Hr).
  unfold write_out. rewrite E. eexists. split; [reflexivity |]. by split_and!.
Qed.

Lemma emits_advance o d o' n : emits o d o' -> emits o d (advance_out o' n).
Proof. by intros ((? & ? & ? & ?) & ? & ?). Qed.

Lemma emits_crc o d o' c : emits o d o' -> emits o d (set_crc o' c).
Proof. by intros ((? & ? & ? & ?) & ? & ?). Qed.

Lemma chunk_header_length h : length (chunk_header_bytes h) = 12%nat.
Proof. done. Qed.

Lemma write_skip_emits o n : out_ok o -> 0 <= n < 2 ^ 32 ->
  exists o', write_skip_chunk ops o (n * bs) = Ret (0, o') /\ emits o (encode_chunk (CSkip n)) o'.
Proof.
  intros Ho Hn. pose proof Ho as (E1 & E2 & _ & _). unfold write_skip_chunk, write_sparse_skip_chunk.
  rewrite E2, E1. destruct (Z.eqb_spec bs 0); [lia |].
  rewrite Z.rem_mul, Z.quot_mul by lia. change (negb (0 =? 0)) with false. cbv iota.
  rewrite wrap_small by (unfold in_range; lia).
  destruct (write_out_emits o (chunk_header_bytes (ChunkHeader CHUNK_TYPE_DONT_CARE 0 n CHUNK_HEADER_LEN)) 12 Ho eq_refl)
    as (o1 & -> & He & _).
  change (0 <? 0) with false. cbv iota. eexists. split; [reflexivity |].
  apply emits_advance. unfold encode_chunk. by rewrite app_nil_r.
Qed.

Lemma write_fill_emits o len v : out_ok o -> 0 < len -> aligned bs len < 2 ^ 31 ->
  exists o', write_fill_chunk ops o len v = Ret (0, o') /\
    emits o (encode_chunk (CFill (blocks_of bs len) v)) o'.
Proof.
  intros Ho Hlen Hlim. pose proof Ho as (E1 & E2 & _ & _). unfold write_fill_chunk, write_sparse_fill_chunk.
  pose proof (aligned_bounds bs len Hbs Hlen). rewrite E2, E1, ALIGN_ok, bind_ret by done.
  rewrite (swrap_small 32), (wrap_small 32) by (unfold in_srange, in_range; lia).
  unfold aligned at 1. rewrite Z.mul_comm, Z.div_mul by lia.
  destruct (write_out_emits o (chunk_header_bytes (ChunkHeader CHUNK_TYPE_FILL 0 (blocks_of bs len)
    (CHUNK_HEADER_LEN + 4))) 12 Ho eq_refl) as (o1 & -> & He & _).
  change (0 <? 0) with false. cbv iota.
  destruct (write_out_emits o1 (le_encode 4 v) 4 (proj1 He) eq_refl) as (o2 & -> & He2 & _).
  change (0 <? 0) with false. cbv iota. eexists. split; [reflexivity |]. apply emits_advance.
  pose proof (emits_trans _ _ _ _ _ He He2) as Ht.
  destruct (use_crc o2); [by apply emits_crc | done].
Qed.

Lemma write_data_emits o len data : out_ok o -> Z.of_nat (length data) = len -> 0 < len ->
  aligned bs len < 2 ^ 31 ->
  exists o', write_data_chunk ops o len data = Ret (0, o') /\
    emits o (encode_chunk (CRaw (blocks_of bs len) (pad_to (aligned bs len) data))) o'.
Proof.
  intros Ho Elen Hlen Hlim. pose proof Ho as (E1 & E2 & Ez & _). unfold write_data_chunk, write_sparse_data_chunk.
  pose proof (aligned_bounds bs len Hbs Hlen) as (Hal & Hal2 & _). rewrite E2, E1, ALIGN_ok, bind_ret by done.
  set (A := aligned bs len) in *.
  rewrite (swrap_small 32 A) by (unfold in_srange; lia).
  rewrite (wrap_small 32 (A - len)), (swrap_small 32 (A - len)), (wrap_small 32 A), (swrap_small 32 len),
    (wrap_small 32 (CHUNK_HEADER_LEN + A)) by (unfold in_srange, in_range, CHUNK_HEADER_LEN; lia).
  cbv zeta. assert (EA : A / bs = blocks_of bs len).
  { unfold A, aligned. by rewrite Z.mul_comm, Z.div_mul by lia. }
  rewrite EA.
  destruct (write_out_emits o (chunk_header_bytes (ChunkHeader CHUNK_TYPE_RAW 0 (blocks_of bs len)
    (CHUNK_HEADER_LEN + A))) 12 Ho eq_refl) as (o1 & -> & He1 & Ez1 & _).
  change (0 <? 0) with false. cbv iota.
  destruct (write_out_emits o1 data len (proj1 He1) ltac:(lia)) as (o2 & -> & He2 & Ez2 & _).
  change (0 <? 0) with false. cbv iota. pose proof (emits_trans _ _ _ _ _ He1 He2) as Ht.
  assert (Hpad : pad_to A data = data ++ replicate (Z.to_nat (A - len)) 0).
  { unfold pad_to. do 2 f_equal. lia. }
  assert (Hplen : CHUNK_HEADER_LEN + Z.of_nat (length (chunk_payload (CRaw (blocks_of bs len) (pad_to A data))))
    = CHUNK_HEADER_LEN + A).
  { cbn [chunk_payload]. rewrite Hpad, length_app, length_replicate. lia. }
  unfold encode_chunk. rewrite Hplen. cbn [chunk_payload chunk_type chunk_blocks]. rewrite Hpad.
  destruct (Z.eqb_spec (A - len) 0) as [Hz | Hnz]; cbn [negb].
  - change (0 <? 0) with false. cbv iota. eexists. split; [reflexivity |]. apply emits_advance.
    rewrite Hz. simpl. rewrite app_nil_r. destruct (use_crc o2); [by apply emits_crc | done].
  - assert (Etake : take (Z.to_nat (A - len)) (zero_buf o2) = replicate (Z.to_nat (A - len)) 0).
    { rewrite Ez2, Ez1, Ez, take_replicate. f_equal. lia. }
    rewrite Etake.
    destruct (write_out_emits o2 (replicate (Z.to_nat (A - len)) 0) (A - len) (proj1 Ht))
      as (o3 & -> & He3 & _); [rewrite length_replicate; lia |].
    change (0 <? 0) with false. cbv iota. eexists. split; [reflexivity |]. apply emits_advance.
    rewrite app_assoc. pose proof (emits_trans _ _ _ _ _ Ht He3) as Ht3.
    destruct (use_crc o3); [by do 2 apply emits_crc | done].
Qed.

(** ** Writing blocks *)
Context (e : env).

Lemma slice_length l off len d : slice l off len = Some d -> Z.of_nat (length d) = len.
Proof.
  unfold slice. destruct (_ && _) eqn:E; [| done]. zbool. intros [= <-].
  rewrite length_take, length_drop. lia.
Qed.

Lemma mmap_slice file off len d : slice file off len = Some d -> mmap_bytes file off len = Ret d.
Proof.
  unfold slice. destruct (_ && _) eqn:E; [| done]. zbool. intros [= <-].
  unfold mmap_bytes. cbv zeta.
  assert (Hm : Z.of_nat (length file) <= 4096 * ((Z.of_nat (length file) + 4095) / 4096)) by dmlia.
  destruct (Z.ltb_spec (4096 * ((Z.of_nat (length file) + 4095) / 4096)) (off + len)); [lia |].
  rewrite andb_false_r. f_equal. rewrite drop_app_le', take_app_le by (rewrite ?length_drop; lia). done.
Qed.

Lemma write_contents_emits o len file off d : out_ok o -> slice file off len = Some d ->
  0 < len -> aligned bs len + 4096 <= 2 ^ 31 ->
  exists o', write_fd_contents ops o len (Some file) off = Ret (0, o') /\
    emits o (encode_chunk (CRaw (blocks_of bs len) (pad_to (aligned bs len) d))) o'.
Proof.
  intros Ho Hs Hlen Hlim. pose proof (aligned_bounds bs len Hbs Hlen).
  assert (Hoff : 0 <= off) by (unfold slice in Hs; destruct (_ && _) eqn:E in Hs; [zbool; lia | done]).
  unfold write_fd_contents. cbv zeta.
  assert (Ed : off - Z.land off (Z.lnot 4095) = off mod 4096).
  { change 4095 with (Z.ones 12). rewrite <- Z.ldiff_land, Z.ldiff_ones_r, Z.shiftr_div_pow2,
      Z.shiftl_mul_pow2 by lia. change (2 ^ 12) with 4096. dmlia. }
  rewrite Ed. pose proof (Z.mod_pos_bound off 4096 ltac:(lia)).
  rewrite (swrap_small 32 (off mod 4096)), (swrap_small 32) by (unfold in_srange; lia).
  destruct (Z.eqb_spec (len + off mod 4096) 0); [lia |].
  destruct (Z.ltb_spec off 0); [lia |]. destruct (Z.ltb_spec (len + off mod 4096) 0); [lia |].
  cbn [orb]. rewrite (mmap_slice _ _ _ _ Hs), bind_ret.
  apply write_data_emits; try done; [by apply (slice_length file off) | lia].
Qed.

Lemma write_block_emits o h x n : out_ok o -> h_bb h !! x = Some n -> writable e (h_str h) bs (blk_of n) ->
  exists o', sparse_file_write_block ops e o (Some x) h = Ret ((0, o'), h) /\
    emits o (encode_chunk (block_chunk e (h_str h) bs (blk_of n))) o'.
Proof.
  intros Ho Hx (Hlen & Hlim & d & Hd). cbn [blk_of k_kind k_len] in *.
  unfold sparse_file_write_block. rewrite (bindM _ _ _ _ _ (get_bb_ok h x n Hx)).
  unfold block_chunk. cbn [blk_of k_kind k_len].
  unfold backed_block_len, backed_block_data, backed_block_filename, backed_block_file_offset,
    backed_block_fd, backed_block_fill_val, mbind, heapM_bind.
  destruct (bb_type n) as [buf off | f off | fd off | v] eqn:T;
    cbn [source] in Hd |- *; unfold liftO, mret, heapM_ret; rewrite !(get_bb_ok h x n Hx), ?T.
  - assert (Er : read_mem e (buf, off) (bb_len n) = Ret d).
    { unfold slice in Hd. destruct (_ && _) eqn:E in Hd; [| done]. zbool. injection Hd as <-.
      unfold read_mem. simpl. destruct (Z.ltb_spec off 0); [lia |].
      destruct (Z.ltb_spec (Z.of_nat (length (env_mem e buf))) (off + bb_len n)); [lia |].
      by rewrite andb_false_r. }
    rewrite Er, bind_ret. pose proof (slice_length _ _ _ _ Hd) as Hl.
    destruct (write_data_emits o (bb_len n) d Ho Hl Hlen) as (o' & E & He); [lia |].
    rewrite E, bind_ret, Hd. by exists o'.
  - unfold read_str. destruct (h_str h !! f) as [name|] eqn:Ename; [| done]. cbn [mbind option_bind] in Hd.
    simpl in Hd. destruct (env_file e name) as [file|] eqn:Ef; [| done]. simpl in Hd.
    rewrite (get_bb_ok h x n Hx), T. unfold write_file_chunk. rewrite Ef.
    destruct (write_contents_emits o (bb_len n) file off d Ho Hd Hlen Hlim) as (o' & E & He).
    rewrite E, bind_ret. exists o'. split; [done |]. simpl. rewrite Ef. simpl. by rewrite Hd.
  - simpl in Hd. destruct (env_fd e fd) as [file|] eqn:Ef; [| done]. simpl in Hd.
    rewrite ?(get_bb_ok h x n Hx), ?T. unfold write_fd_chunk. rewrite Ef.
    destruct (write_contents_emits o (bb_len n) file off d Ho Hd Hlen Hlim) as (o' & E & He).
    rewrite E, bind_ret. exists o'. split; [done |]. simpl. by rewrite Hd.
  - destruct (write_fill_emits o (bb_len n) v Ho Hlen) as (o' & E & He); [lia |].
    rewrite E, bind_ret. by exists o'.
Qed.

(** The ends of all blocks are representable. *)
Definition ends_fit (l : list blk) : Prop := forall b, b ∈ l -> 0 <= k_block b /\ end_of bs b < 2 ^ 32.

Lemma DIV_ROUND_UP_ok len : 0 < len -> aligned bs len < 2 ^ 31 -> DIV_ROUND_UP len bs = Ret (blocks_of bs len).
Proof.
  intros Hlen Hlim. pose proof (aligned_bounds bs len Hbs Hlen). unfold DIV_ROUND_UP.
  destruct (Z.eqb_spec bs 0); [lia |]. by rewrite wrap_small by (unfold in_range; lia).
Qed.

Lemma encode_chunks_app l1 l2 : encode_chunks (l1 ++ l2) = encode_chunks l1 ++ encode_chunks l2.
Proof. unfold encode_chunks. by rewrite map_app, concat_app. Qed.

Lemma encode_chunks_one c : encode_chunks [c] = encode_chunk c.
Proof. apply app_nil_r. Qed.

(** The skip chunk before a block. *)
Lemma write_gap_emits o from to : out_ok o -> 0 <= from -> to < 2 ^ 32 ->
  exists o', (if from <? to then '(_, o) ← liftO (write_skip_chunk ops o (u32 (to - from) * bs)); mret o
              else mret o : heapM out) = (fun h => Ret (o', h)) /\
    emits o (encode_chunks (gap_chunk from to)) o'.
Proof.
  intros Ho Hf Ht. unfold gap_chunk. destruct (Z.ltb_spec from to).
  - rewrite wrap_small by (unfold in_range; lia).
    destruct (write_skip_emits o (to - from) Ho ltac:(lia)) as (o' & E & He). exists o'. split.
    + unfold mbind, heapM_bind, liftO, mret, heapM_ret. rewrite E. reflexivity.
    + by rewrite encode_chunks_one.
  - exists o. split; [done |]. by apply emits_nil.
Qed.

Lemma write_loop_spec h : forall l fuel o p last, seg (h_bb h) p l None -> (length l <= fuel)%nat ->
  Forall (writable e (h_str h) bs) (abs l) -> ends_fit (abs l) -> 0 <= last -> out_ok o ->
  exists o', write_loop ops e fuel bs o p last h = Ret ((0, last_end bs last (abs l), o'), h) /\
    emits o (encode_chunks (chunks_from e (h_str h) bs last (abs l))) o'.
Proof.
  induction l as [|[x n] l IH]; intros fuel o p last Hs Hf Hw He Hlast Ho.
  { simpl in Hs. subst p. exists o. split; [by destruct fuel |]. by apply emits_nil. }
  destruct Hs as (-> & Hx & Hs). destruct fuel as [|fuel]; [simpl in Hf; lia |].
  cbn [abs map snd] in Hw, He. apply Forall_cons in Hw as [Hwn Hw].
  destruct (He (blk_of n) ltac:(left)) as [Hb0 Hend]. cbn [blk_of k_block] in Hb0.
  pose proof Hwn as (Hlen & Hlim & _). cbn [blk_of k_len] in Hlen, Hlim.
  pose proof (blocks_nonneg bs Hbs (bb_len n) ltac:(lia)). unfold end_of in Hend. cbn [blk_of k_block k_len] in Hend.
  cbn [write_loop]. unfold backed_block_block at 1.
  assert (Eb : (n ← get_bb (Some x); mret (bb_block n)) h = Ret (bb_block n, h))
    by (by rewrite (bindM _ _ _ _ _ (get_bb_ok h x n Hx))).
  rewrite (bindM _ _ _ _ _ Eb).
  destruct (write_gap_emits o last (bb_block n) Ho Hlast ltac:(lia)) as (o1 & Eg & He1).
  cbv zeta. rewrite (bindM _ _ h o1 h) by (by rewrite Eg).
  destruct (write_block_emits o1 h x n (proj1 He1) Hx Hwn) as (o2 & Ew & He2).
  rewrite (bindM _ _ _ _ _ Ew). change (negb (0 =? 0)) with false. cbv iota.
  assert (El : backed_block_len (Some x) h = Ret (bb_len n, h))
    by (unfold backed_block_len; by rewrite (bindM _ _ _ _ _ (get_bb_ok h x n Hx))).
  rewrite (bindM _ _ _ _ _ El).
  assert (Ed : (liftO (DIV_ROUND_UP (bb_len n) bs) : heapM Z) h = Ret (blocks_of bs (bb_len n), h))
    by (unfold liftO; by rewrite DIV_ROUND_UP_ok by lia).
  rewrite (bindM _ _ _ _ _ Ed).
  assert (En : backed_block_iter_next (Some x) h = Ret (bb_next n, h))
    by (unfold backed_block_iter_next; by rewrite (bindM _ _ _ _ _ (get_bb_ok h x n Hx))).
  rewrite (bindM _ _ _ _ _ En), wrap_small by (unfold in_range; lia).
  destruct (IH fuel o2 (bb_next n) (bb_block n + blocks_of bs (bb_len n)) Hs) as (o3 & E3 & He3);
    [simpl in Hf; lia | done | | lia | apply He2 |].
  { intros b Hb. apply He. by right. }
  exists o3. rewrite E3. split; [done |]. cbn [abs map snd chunks_from].
  rewrite encode_chunks_app. eapply emits_trans; [done |].
  change (block_chunk e (h_str h) bs (blk_of n) :: ?r) with ([block_chunk e (h_str h) bs (blk_of n)] ++ r).
  rewrite encode_chunks_app. eapply emits_trans; [| done].
  by rewrite encode_chunks_one.
Qed.

End Writer.

(** ** Counting chunks *)
Lemma gap_length from to : length (gap_chunk from to) = if from <? to then 1%nat else 0%nat.
Proof. unfold gap_chunk. by destruct (from <? to). Qed.

Lemma count_loop_spec bs e h : 0 < bs -> forall l fuel p last chunks, seg (h_bb h) p l None ->
  (length l <= fuel)%nat -> Forall (writable e (h_str h) bs) (abs l) -> ends_fit bs (abs l) ->
  in_range 32 chunks ->
  count_loop fuel bs p last chunks h =
  Ret ((last_end bs last (abs l),
        u32 (chunks + Z.of_nat (length (chunks_from e (h_str h) bs last (abs l))))), h).
Proof.
  intros Hbs. induction l as [|[x n] l IH]; intros fuel p last chunks Hs Hf Hw He Hc.
  { simpl in Hs. subst p. simpl. rewrite Z.add_0_r, wrap_small by done. by destruct fuel. }
  destruct Hs as (-> & Hx & Hs). destruct fuel as [|fuel]; [simpl in Hf; lia |].
  cbn [abs map snd] in Hw, He. apply Forall_cons in Hw as [Hwn Hw].
  destruct (He (blk_of n) ltac:(left)) as [Hb0 Hend]. cbn [blk_of k_block] in Hb0.
  pose proof Hwn as (Hlen & Hlim & _). cbn [blk_of k_len] in Hlen, Hlim.
  pose proof (blocks_nonneg bs Hbs (bb_len n) ltac:(lia)). unfold end_of in Hend. cbn [blk_of k_block k_len] in Hend.
  cbn [count_loop]. unfold backed_block_block, backed_block_len, backed_block_iter_next, liftO, mbind, heapM_bind.
  rewrite !(get_bb_ok h x n Hx). unfold mret, heapM_ret. rewrite !(get_bb_ok h x n Hx).
  rewrite DIV_ROUND_UP_ok, bind_ret by (done || lia). rewrite !(get_bb_ok h x n Hx).
  rewrite (wrap_small 32 (bb_block n + _)) by (unfold in_range; lia).
  rewrite IH; [| done | simpl in Hf; lia | done | intros b Hb; apply He; by right | by apply wrap_range].
  cbn [abs map snd last_end chunks_from]. do 3 f_equal. rewrite length_app, gap_length. simpl length.
  change (k_block (blk_of n)) with (bb_block n).
  change (end_of bs (blk_of n)) with (bb_block n + blocks_of bs (bb_len n)).
  change (map _ l) with (abs l). set (k := length (chunks_from _ _ _ _ _)).
  destruct (last <? bb_block n); rewrite !wrap_add_l; [| f_equal; lia].
  replace (u32 (chunks + 1) + 1 + Z.of_nat k) with (u32 (chunks + 1) + (1 + Z.of_nat k)) by lia.
  rewrite wrap_add_l. f_equal. lia.
Qed.

(** ** Blocks covered by chunks *)
Definition blocks_sum (l : list chunk) : Z := foldr (fun c s => chunk_blocks c + s) 0 l.

Lemma blocks_sum_app l1 l2 : blocks_sum (l1 ++ l2) = blocks_sum l1 + blocks_sum l2.
Proof. induction l1 as [|c l1 IH]; simpl; [lia |]. rewrite IH. lia. Qed.

Definition chunk_ok (c : chunk) : Prop := 1 <= chunk_blocks c.

Lemma blocks_sum_length l : Forall chunk_ok l -> Z.of_nat (length l) <= blocks_sum l.
Proof. unfold chunk_ok. induction 1; simpl; lia. Qed.

Definition starts_after (last : Z) (l : list blk) : Prop :=
  forall b, head l = Some b -> last <= k_block b.

Lemma laid_next bs a l : laid bs (a :: l) -> laid bs l /\ starts_after (end_of bs a) l.
Proof.
  intros H. apply StronglySorted_inv in H as [H Ha]. split; [done |].
  intros b Hb. destruct l as [|c l]; [done |]. injection Hb as ->. apply Forall_cons in Ha as [[_ Ha] _]. exact Ha.
Qed.

Lemma gap_blocks from to : from <= to -> blocks_sum (gap_chunk from to) = to - from /\ Forall chunk_ok (gap_chunk from to).
Proof.
  intros H. unfold gap_chunk, chunk_ok. destruct (Z.ltb_spec from to); simpl; split; try lia; [| constructor].
  constructor; [simpl; lia | constructor].
Qed.

Lemma block_chunk_blocks e strs bs b : chunk_blocks (block_chunk e strs bs b) = blocks_of bs (k_len b).
Proof. unfold block_chunk. by destruct (k_kind b). Qed.

Lemma chunks_blocks e strs bs : 0 < bs -> forall l last, laid bs l -> starts_after last l ->
  (forall b, b ∈ l -> 0 < k_len b) ->
  blocks_sum (chunks_from e strs bs last l) = last_end bs last l - last /\
  Forall chunk_ok (chunks_from e strs bs last l).
Proof.
  intros Hbs. induction l as [|b l IH]; intros last Hl Hst Hpos; [simpl; split; [lia | constructor] |].
  destruct (laid_next bs b l Hl) as [Hl' Hst']. specialize (Hst b eq_refl).
  destruct (gap_blocks last (k_block b) Hst) as [Hg1 Hg2].
  destruct (IH (end_of bs b) Hl' Hst') as [H1 H2]; [intros; apply Hpos; by right |].
  destruct (aligned_bounds bs (k_len b) Hbs (Hpos b ltac:(left))) as (_ & _ & Hb).
  cbn [chunks_from last_end]. split.
  - rewrite blocks_sum_app. cbn [blocks_sum foldr]. fold (blocks_sum (chunks_from e strs bs (end_of bs b) l)).
    rewrite Hg1, H1, block_chunk_blocks. unfold end_of. lia.
  - apply Forall_app. split; [done |]. constructor; [| done]. unfold chunk_ok. rewrite block_chunk_blocks. lia.
Qed.

Lemma last_end_ge bs : 0 < bs -> forall l last, laid bs l -> starts_after last l ->
  (forall b, b ∈ l -> 0 <= k_len b) -> last <= last_end bs last l.
Proof.
  intros Hbs. induction l as [|b l IH]; intros last Hl Hst Hpos; simpl; [lia |].
  destruct (laid_next bs b l Hl) as [Hl' Hst']. specialize (Hst b eq_refl).
  specialize (IH (end_of bs b) Hl' Hst' ltac:(intros; apply Hpos; by right)).
  pose proof (blocks_nonneg bs Hbs (k_len b) (Hpos b ltac:(left))). unfold end_of in *. lia.
Qed.

(** ** Whole files *)

(** A sparse file whose list [l] lies within its [total] blocks. *)
Record file_ok (e : env) (h : heap) (s : sparse_file) (l : nodes) (total : Z) : Prop := {
  fo_bs : 0 < sf_block_size s < 2 ^ 31;
  fo_wf : wf h (data_blocks (sf_list s)) l;
  fo_laid : laid (sf_block_size s) (abs l);
  fo_nonneg : forall b, b ∈ abs l -> 0 <= k_block b;
  fo_writable : Forall (writable e (h_str h) (sf_block_size s)) (abs l);
  fo_len : sf_len s = total * sf_block_size s;
  fo_total : last_end (sf_block_size s) 0 (abs l) <= total < 2 ^ 31
}.

Lemma last_end_max bs : 0 < bs -> forall l last, laid bs l -> starts_after last l ->
  (forall b, b ∈ l -> 0 <= k_len b) -> forall b, b ∈ l -> end_of bs b <= last_end bs last l.
Proof.
  intros Hbs. induction l as [|a l IH]; intros last Hl Hst Hpos b Hb; [by apply elem_of_nil in Hb |].
  destruct (laid_next bs a l Hl) as [Hl' Hst']. cbn [last_end].
  assert (Hpos' : forall b, b ∈ l -> 0 <= k_len b) by (intros; apply Hpos; by right).
  apply elem_of_cons in Hb as [-> | Hb]; [by apply last_end_ge | by apply IH].
Qed.

Lemma file_ok_facts e h s l total : file_ok e h s l total ->
  starts_after 0 (abs l) /\ (forall b, b ∈ abs l -> 0 < k_len b) /\ ends_fit (sf_block_size s) (abs l) /\
  0 <= total.
Proof.
  intros [Hbs Hwf Hl H0 Hw Hlen Ht]. assert (Hst : starts_after 0 (abs l)).
  { intros b Hb. apply H0. destruct (abs l); [done |]. injection Hb as ->. left. }
  assert (Hpos : forall b, b ∈ abs l -> 0 < k_len b).
  { intros b Hb. rewrite Forall_forall in Hw. by apply Hw. }
  pose proof (last_end_ge _ (proj1 Hbs) _ _ Hl Hst ltac:(intros b Hb; specialize (Hpos b Hb); lia)).
  split_and!; [done | done | | lia].
  intros b Hb. split; [by apply H0 |].
  pose proof (last_end_max _ (proj1 Hbs) _ _ Hl Hst ltac:(intros c Hc; specialize (Hpos c Hc); lia) b Hb). lia.
Qed.

Section WriteFile.
Context {Sk M : Type} (ops : output_file_ops Sk) (contents : Sk -> M) (ready : Sk -> Prop).
Context (append : M -> bytes -> M) `{!AppendSink ops contents ready append}.
Context (e : env) (h : heap) (s : sparse_file) (l : nodes) (total : Z) (Hok : file_ok e h s l total).
Abbreviation bs := (sf_block_size s).
Abbreviation chunks := (image_chunks e (h_str h) bs total (abs l)).

Lemma image_blocks : blocks_sum chunks = total /\ Forall chunk_ok chunks.
Proof.
  destruct (file_ok_facts _ _ _ _ _ Hok) as (Hst & Hpos & _ & _). destruct Hok as [Hbs _ Hl _ _ _ Ht].
  destruct (chunks_blocks e (h_str h) bs (proj1 Hbs) (abs l) 0 Hl Hst Hpos) as [H1 H2].
  destruct (gap_blocks (last_end bs 0 (abs l)) total ltac:(lia)) as [H3 H4].
  unfold image_chunks. rewrite blocks_sum_app. split; [lia | by apply Forall_app].
Qed.

Lemma count_chunks_spec : sparse_count_chunks s h = Ret (Z.of_nat (length chunks), h).
Proof.
  destruct (file_ok_facts _ _ _ _ _ Hok) as (Hst & Hpos & He & H0). pose proof image_blocks as [Hsum Hck].
  pose proof (blocks_sum_length _ Hck) as Hlen. destruct Hok as [Hbs Hwf Hl _ Hw Hsl Ht].
  unfold sparse_count_chunks, list_fuel. rewrite (bindM _ _ h (S (size (h_bb h))) h) by done.
  pose proof (seg_size _ _ _ _ (wf_chain _ _ _ Hwf) (wf_nodup _ _ _ Hwf)).
  rewrite (bindM _ _ _ _ _ (count_loop_spec bs e h (proj1 Hbs) l (S (size (h_bb h))) _ 0 0 (wf_chain _ _ _ Hwf)
    ltac:(lia) Hw He ltac:(done))).
  assert (Ed : (liftO (DIV_ROUND_UP64 (sf_len s) bs) : heapM Z) h = Ret (total, h)).
  { unfold liftO, DIV_ROUND_UP64. destruct (Z.eqb_spec bs 0); [lia |]. rewrite bind_ret, Hsl.
    rewrite swrap_small by (unfold in_srange; nia). rewrite Z.quot_div_nonneg by nia. do 2 f_equal.
    symmetry. apply (Z.div_unique _ _ _ (bs - 1)); lia. }
  rewrite (bindM _ _ _ _ _ Ed). rewrite Z.add_0_l. unfold mret, heapM_ret. do 2 f_equal.
  unfold image_chunks in *. rewrite length_app in *. rewrite gap_length in *.
  destruct (last_end bs 0 (abs l) <? total); rewrite ?wrap_add_l, wrap_small by (unfold in_range; lia); lia.
Qed.

Lemma write_all_emits o : out_ok ready bs o -> exists o', write_all_blocks ops e s o h = Ret ((0, o'), h) /\
  emits contents ready append bs o (encode_chunks chunks) o'.
Proof.
  intros Ho. destruct (file_ok_facts _ _ _ _ _ Hok) as (Hst & Hpos & He & H0).
  destruct Hok as [Hbs Hwf Hl _ Hw Hsl Ht].
  unfold write_all_blocks, list_fuel. rewrite (bindM _ _ h (S (size (h_bb h))) h) by done.
  pose proof (seg_size _ _ _ _ (wf_chain _ _ _ Hwf) (wf_nodup _ _ _ Hwf)).
  destruct (write_loop_spec ops contents ready append bs (proj1 Hbs) e h l (S (size (h_bb h))) o _ 0
    (wf_chain _ _ _ Hwf) ltac:(lia) Hw He ltac:(lia) Ho) as (o1 & E1 & He1).
  rewrite (bindM _ _ _ _ _ E1). change (negb (0 =? 0)) with false. cbv iota zeta.
  rewrite Hsl. replace (total * bs - last_end bs 0 (abs l) * bs) with ((total - last_end bs 0 (abs l)) * bs) by ring.
  unfold assertM. destruct (Z.leb_spec 0 ((total - last_end bs 0 (abs l)) * bs)); [| nia].
  rewrite (bindM _ _ _ _ _ (retM tt h)). unfold image_chunks. rewrite encode_chunks_app. unfold gap_chunk.
  destruct (Z.ltb_spec (last_end bs 0 (abs l)) total).
  - destruct (Z.ltb_spec 0 ((total - last_end bs 0 (abs l)) * bs)); [| nia].
    destruct (write_skip_emits ops contents ready append bs (proj1 Hbs) o1 (total - last_end bs 0 (abs l)) (proj1 He1)) as (o2 & E2 & He2).
    { pose proof (last_end_ge bs (proj1 Hbs) (abs l) 0 Hl Hst ltac:(intros b Hb; specialize (Hpos b Hb); lia)). lia. }
    exists o2. split; [unfold mbind, heapM_bind, liftO; by rewrite E2 |].
    eapply (emits_trans ops contents ready append bs); [done |]. by rewrite encode_chunks_one.
  - destruct (Z.ltb_spec 0 ((total - last_end bs 0 (abs l)) * bs)); [nia |].
    exists o1. split; [done |]. by rewrite app_nil_r.
Qed.

(** Every allocation succeeds. *)
Definition allocs_ok (h : heap) : Prop := Forall (eq true) (h_script h).

Definition with_script (h : heap) (sc : list bool) : heap := Heap (h_bb h) (h_str h) (h_fresh h) sc.

Lemma alloc_other_ok h0 : allocs_ok h0 ->
  alloc_other h0 = Ret (true, with_script h0 (tail (h_script h0))) /\
  allocs_ok (with_script h0 (tail (h_script h0))).
Proof.
  destruct h0 as [m st f [|b sc]]; [done |]. intros H. apply Forall_cons in H as [<- H]. done.
Qed.

(** The trailing chunk of a file with a checksum [c]. *)
Definition crc_chunk (c : Z) : bytes :=
  chunk_header_bytes (ChunkHeader CHUNK_TYPE_CRC32 0 0 (CHUNK_HEADER_LEN + 4)) ++ le_encode 4 c.

Lemma sparse_header_length x : length (sparse_header_bytes x) = 28%nat.
Proof. unfold sparse_header_bytes. by rewrite !length_app, !le_encode_length. Qed.

Lemma open_out_emits h0 n crc sk : allocs_ok h0 -> ready sk -> 0 <= n < 2 ^ 32 - 1 ->
  exists o, open_out ops bs (sf_len s) true n crc sk h0 =
      Ret ((Some o, sink o), with_script h0 (drop 3 (h_script h0))) /\
    out_ok ready bs o /\ use_crc o = crc /\
    contents (sink o) = append (contents sk) (image_header bs total (n + if crc then 1 else 0)).
Proof.
  intros Ha Hr Hn. destruct (file_ok_facts _ _ _ _ _ Hok) as (_ & _ & _ & H0). destruct Hok as [Hbs _ _ _ _ Hsl Ht].
  unfold open_out. destruct (alloc_other_ok h0 Ha) as [E1 Ha1]. rewrite (bindM _ _ _ _ _ E1). cbv iota.
  destruct (alloc_other_ok _ Ha1) as [E2 Ha2]. rewrite (bindM _ _ _ _ _ E2). simpl andb. cbv iota.
  destruct (alloc_other_ok _ Ha2) as [E3 _]. rewrite (bindM _ _ _ _ _ E3). unfold output_file_open, output_file_init, liftO.
  simpl negb. cbv iota zeta. destruct (Z.eqb_spec bs 0); [lia |]. rewrite Hsl, Z.quot_mul by lia.
  rewrite (wrap_small 32 total), (wrap_small 32 (n + _)) by (unfold in_range; destruct crc; lia).
  set (o0 := OutputFile _ _ _ _ _ _ _ _ _ _). fold (image_header bs total (n + if crc then 1 else 0)).
  destruct (write_out_emits ops contents ready append bs o0 (image_header bs total (n + if crc then 1 else 0)) 28)
    as (o1 & Ew & (Ho & Ec & Eu) & _); [done | unfold image_header; by rewrite sparse_header_length |].
  rewrite Ew. exists o1. split_and!; [| done | done | done].
  unfold with_script. cbn [h_bb h_str h_fresh h_script]. by destruct (h_script h0) as [|? [|? [|? ?]]].
Qed.

Lemma close_emits o : out_ok ready bs o -> exists sk c, output_file_close ops o = Ret sk /\ ready sk /\
  contents sk = append (contents (sink o)) (if use_crc o then crc_chunk c else []).
Proof.
  intros Ho. pose proof Ho as (_ & Es & _ & Hr). unfold output_file_close, write_end_chunk, write_sparse_end_chunk. rewrite Es.
  destruct (use_crc o) eqn:Eu.
  - destruct (write_out_emits ops contents ready append bs o
      (chunk_header_bytes (ChunkHeader CHUNK_TYPE_CRC32 0 0 (CHUNK_HEADER_LEN + 4))) 12 Ho eq_refl)
      as (o1 & -> & He1 & _).
    change (0 <? 0) with false. cbv iota.
    destruct (write_out_emits ops contents ready append bs o1 (le_encode 4 (crc32 o1)) 4 (proj1 He1) ltac:(by rewrite le_encode_length))
      as (o2 & -> & He2 & _).
    destruct (emits_trans ops contents ready append bs _ _ _ _ _ He1 He2) as ((_ & _ & _ & Hr2) & Ec & _).
    exists (sink o2), (crc32 o1). by split_and!.
  - exists (sink o), 0. by rewrite append_nil.
Qed.

End WriteFile.

Lemma file_ok_script e h s l total sc : file_ok e h s l total -> file_ok e (with_script h sc) s l total.
Proof. intros [? [? ? ? ?] ? ? ? ? ?]. by split. Qed.

(** The bytes of a sparse image; [c] is the checksum it ends with, if any. *)
Definition image (bs total : Z) (chunks : list chunk) (crc : option Z) : bytes :=
  image_header bs total (Z.of_nat (length chunks) + if crc is Some _ then 1 else 0) ++ encode_chunks chunks ++
  match crc with Some c => crc_chunk c | None => [] end.

Section WriteImage.
Context {Sk M : Type} (ops : output_file_ops Sk) (contents : Sk -> M) (ready : Sk -> Prop).
Context (append : M -> bytes -> M) `{!AppendSink ops contents ready append}.

(** Opening, writing all blocks and closing, as [sparse_file_write] and
    [sparse_file_len] do. *)
Lemma write_image e h s l total crc sk : file_ok e h s l total -> allocs_ok h -> ready sk ->
  exists o o' sk' c, 
    sparse_count_chunks s h = Ret (Z.of_nat (length (image_chunks e (h_str h) (sf_block_size s) total (abs l))), h) /\
    open_out ops (sf_block_size s) (sf_len s) true
      (Z.of_nat (length (image_chunks e (h_str h) (sf_block_size s) total (abs l)))) crc sk h =
      Ret ((Some o, sink o), with_script h (drop 3 (h_script h))) /\
    write_all_blocks ops e s o (with_script h (drop 3 (h_script h))) =
      Ret ((0, o'), with_script h (drop 3 (h_script h))) /\
    output_file_close ops o' = Ret sk' /\ ready sk' /\
    contents sk' = append (contents sk)
      (image (sf_block_size s) total (image_chunks e (h_str h) (sf_block_size s) total (abs l))
         (if crc then Some c else None)).
Proof.
  intros Hok Ha Hr. destruct (image_blocks e h s l total Hok) as [Hsum Hck]. pose proof (blocks_sum_length _ Hck).
  destruct (open_out_emits ops contents ready append e h s l total Hok h
    (Z.of_nat (length (image_chunks e (h_str h) (sf_block_size s) total (abs l)))) crc sk Ha Hr)
    as (o & E1 & Ho & Eu & Ec); [destruct Hok; lia |].
  pose proof (file_ok_script _ _ _ _ _ (drop 3 (h_script h)) Hok) as Hok'.
  destruct (write_all_emits ops contents ready append e _ s l total Hok' o Ho) as (o' & E2 & Ho' & Ec' & Eu').
  destruct (close_emits ops contents ready append s o' Ho') as (sk' & c & E3 & Hr' & Ec3).
  exists o, o', sk', c. split_and!; try done; [by apply count_chunks_spec with (1 := Hok) |].
  rewrite Ec3, Ec', Ec, !append_app, Eu', Eu. unfold image. by destruct crc.
Qed.

(** [sparse_file_write] as a whole. *)
Lemma write_run e h s l total crc sk : file_ok e h s l total -> allocs_ok h -> ready sk ->
  exists sk' c,
    sparse_file_write ops e s true crc sk h = Ret ((0, sk'), with_script h (drop 3 (h_script h))) /\ ready sk' /\
    contents sk' = append (contents sk)
      (image (sf_block_size s) total (image_chunks e (h_str h) (sf_block_size s) total (abs l))
         (if crc then Some c else None)).
Proof.
  intros Hok Ha Hr. destruct (write_image e h s l total crc sk Hok Ha Hr)
    as (o & o' & sk' & c & E1 & E2 & E3 & E4 & Hr' & Ec).
  exists sk', c. split_and!; try done.
  unfold sparse_file_write. rewrite (bindM _ _ _ _ _ E1), (bindM _ _ _ _ _ E2). cbv iota beta.
  rewrite (bindM _ _ _ _ _ E3). unfold mbind, heapM_bind, liftO. by rewrite E4.
Qed.

(** [sparse_file_write] of a file whose blocks are readable, do not overlap
    and lie within its length returns 0 and appends to its sink, any sink that
    keeps the [AppendSink] interface, a header, exactly the chunks of the block
    list with the gaps as don't-care chunks, and the checksum chunk if asked
    for. The header's counts are those of the chunks that follow: as many
    chunks as announced, covering as many blocks as announced. *)
Theorem sparse_file_write_correct e h s l total crc sk : file_ok e h s l total -> allocs_ok h -> ready sk ->
  exists sk' c, let chunks := image_chunks e (h_str h) (sf_block_size s) total (abs l) in
    sparse_file_write ops e s true crc sk h = Ret ((0, sk'), with_script h (drop 3 (h_script h))) /\
    contents sk' = append (contents sk) (image (sf_block_size s) total chunks (if crc then Some c else None)) /\
    blocks_sum chunks = total /\ Forall chunk_ok chunks /\ ready sk'.
Proof.
  intros Hok Ha Hr. destruct (write_run e h s l total crc sk Hok Ha Hr) as (sk' & c & E & Hr' & Ec).
  exists sk', c. cbv zeta. destruct (image_blocks e h s l total Hok) as [Hsum Hck]. by split_and!.
Qed.

End WriteImage.

(** [sparse_file_len] of such a file is the length of the image that
    [sparse_file_write] produces for it. *)
Theorem sparse_file_len_correct e h s l total crc : file_ok e h s l total -> allocs_ok h ->
  exists c, sparse_file_len e s true crc h =
    Ret (Z.of_nat (length (image (sf_block_size s) total
      (image_chunks e (h_str h) (sf_block_size s) total (abs l)) (if crc then Some c else None))),
      with_script h (drop 3 (h_script h))).
Proof.
  intros Hok Ha. destruct (write_image counter_ops id (fun _ => True) add_length e h s l total crc 0 Hok Ha I)
    as (o & o' & sk' & c & E1 & E2 & E3 & E4 & _ & Ec).
  exists c. unfold sparse_file_len. rewrite (bindM _ _ _ _ _ E1), (bindM _ _ _ _ _ E2). cbv iota beta.
  rewrite (bindM _ _ _ _ _ E3). unfold mbind, heapM_bind, liftO. rewrite E4. cbv iota beta.
  change (0 <? 0) with false. cbv iota. unfold id, add_length in Ec. rewrite Z.add_0_l in Ec. by rewrite <- Ec.
Qed.

(** An example: six blocks of 8 bytes, a fill at block 1 and ten bytes of
    descriptor 5 at block 3. *)
Definition sx_fill : backed_block := BB 1 8 (BACKED_BLOCK_FILL 7) (Some 2%positive).
Definition sx_fd : backed_block := BB 3 10 (BACKED_BLOCK_FD 5 4) None.
Definition sx_heap : heap := Heap (<[1%positive := sx_fill]> {[2%positive := sx_fd]}) ∅ 3%positive [].
Definition sx_file : sparse_file := SparseFile 8 48 false (BBL (Some 1%positive) None 8).
Definition sx_bytes : bytes := [1;2;3;4;5;6;7;8;9;10;11;12;13;14;15;16].
Definition sx_env : env := Env (fun fd => if fd =? 5 then Some sx_bytes else None) (fun _ => None) (fun _ => []).
Definition sx_nodes : nodes := [(1%positive, sx_fill); (2%positive, sx_fd)].

Lemma sx_ok : file_ok sx_env sx_heap sx_file sx_nodes 6.
Proof.
  split; simpl; try lia.
  - split; simpl.
    + split_and!; try done.
    + apply NoDup_cons. split; [by apply not_elem_of_cons; split; [| apply not_elem_of_nil] | apply NoDup_singleton].
    + split; [constructor | set_solver].
    + split; intros x v Hx; simpl in *; [| set_solver].
      apply lookup_insert_Some in Hx as [[<- _] | [_ Hx]]; [lia |].
      apply lookup_singleton_Some in Hx as [<- _]. lia.
  - repeat constructor; vm_compute; congruence.
  - intros b Hb. repeat (apply elem_of_cons in Hb as [-> | Hb]; [simpl; lia |]). by apply elem_of_nil in Hb.
  - repeat constructor; vm_compute; try congruence; by eexists.
  - vm_compute. split; congruence.
Qed.

Lemma sparse_file_write_correct_witness : exists sk' c,
  sparse_file_write file_ops sx_env sx_file true true (KFile [] 0 []) sx_heap = Ret ((0, sk'), sx_heap) /\
  k_bytes sk' = image 8 6 (image_chunks sx_env ∅ 8 6 (abs sx_nodes)) (Some c).
Proof.
  destruct (sparse_file_write_correct file_ops k_bytes at_end app sx_env sx_heap sx_file sx_nodes 6 true (KFile [] 0 []) sx_ok)
    as (sk' & c & H & H' & _); [constructor | by split |].
  exists sk', c. split; [exact H | exact H'].
Defined.

Lemma sparse_file_len_correct_witness : exists c, sparse_file_len sx_env sx_file true false sx_heap =
  Ret (Z.of_nat (length (image 8 6 (image_chunks sx_env ∅ 8 6 (abs sx_nodes)) (if false then Some c else None))), sx_heap).
Proof. apply (sparse_file_len_correct sx_env sx_heap sx_file sx_nodes 6 false sx_ok). constructor. Defined.
