(* ===== verification/SparseReadSpec.v ===== *)
(** * Reading back what was written

    [read_all] on files with short reads, the reader on a list of encoded
    chunks, and the round trip: importing a written image gives a file with the
    same contents, block by block. The theorems on sparse_read.c are at the end. *)

From S2P Require Import Prelude.
From S2P Require Import SparseCrc32.
From S2P Require Import BackedBlock.
From S2P Require Import BackedBlockSpec.
From S2P Require Import BackedBlockContent.
From S2P Require Import OutputFile.
From S2P Require Import SparseFile.
From S2P Require Import SparseRead.
From S2P Require Import SparseSpec.

#[local] Set Warnings "-clear-no-such-hyp".

(** ** Reading a file whose reads may be short *)

(** [f] is at position [pos] of [img]; no read fails or returns nothing. *)
Definition input (img : bytes) (pos : Z) (f : rfile) : Prop :=
  r_bytes f = img /\ r_pos f = pos /\ Forall (Z.lt 0) (r_script f).

Lemma kread_spec img pos n f data rest : input img pos f -> 0 <= pos -> 0 < n ->
  drop (Z.to_nat pos) img = data ++ rest -> n = Z.of_nat (length data) ->
  exists d1 d2 f', kread n f = (Z.of_nat (length d1), d1, f') /\ data = d1 ++ d2 /\ (0 < length d1)%nat /\
    input img (pos + Z.of_nat (length d1)) f' /\
    (length (r_script f') < length (r_script f) \/ d2 = [] /\ r_script f' = r_script f)%nat.
Proof.
  destruct f as [img' pos' script]. unfold input. simpl. intros (-> & -> & Hs) Hpos Hn Hd En. unfold kread. simpl.
  destruct script as [|q script]; simpl.
  - exists data, [], (RFile img (pos + n) []).
    rewrite Hd, En, Nat2Z.id, take_app_length. rewrite app_nil_r. simpl. split_and!; try done; [lia | by right].
  - apply Forall_cons in Hs as [Hq Hs]. destruct (Z.ltb_spec q 0); [lia |].
    set (k := Z.to_nat (Z.min q n)). assert (Hk : (0 < k <= length data)%nat) by lia.
    exists (take k data), (drop k data), (RFile img (pos + Z.of_nat k) script).
    rewrite Hd, take_app_le by lia. rewrite length_take, Nat.min_l by lia.
    split_and!; simpl; try done; [by rewrite take_drop | lia | lia].
Qed.

Lemma read_loop_spec img data : forall fuel rest pos n acc f, input img pos f -> 0 <= pos ->
  drop (Z.to_nat pos) img = data ++ rest -> n = Z.of_nat (length acc + length data) ->
  (length (r_script f) < fuel)%nat ->
  exists f', read_loop fuel n acc f = Ret (0, acc ++ data, f') /\
    input img (pos + Z.of_nat (length data)) f'.
Proof.
  intros fuel. revert data. induction fuel as [|fuel IH]; intros data rest pos n acc f Hin Hpos Hd En Hf; [lia |].
  cbn [read_loop]. destruct (Z.ltb_spec (Z.of_nat (length acc)) n) as [Hlt | Hge].
  - destruct (kread_spec img pos (n - Z.of_nat (length acc)) f data rest Hin Hpos ltac:(lia) Hd ltac:(lia))
      as (d1 & d2 & f1 & -> & -> & Hd1 & Hin1 & Hsc). cbv iota beta.
    destruct (Z.ltb_spec (Z.of_nat (length d1)) 0); [lia |]. destruct (Z.eqb_spec (Z.of_nat (length d1)) 0); [lia |].
    rewrite length_app in *. rewrite <- app_assoc in Hd.
    assert (Hd' : drop (Z.to_nat (pos + Z.of_nat (length d1))) img = d2 ++ rest).
    { rewrite Z2Nat.inj_add, Nat2Z.id by lia. rewrite <- drop_drop, Hd. by rewrite drop_app_length. }
    destruct Hsc as [Hsc | [-> Hsc]].
    + destruct (IH d2 rest _ n (acc ++ d1) f1 Hin1 ltac:(lia) Hd') as (f' & E & Hin');
        [rewrite length_app; lia | lia |].
      exists f'. rewrite E, app_assoc. split; [done |].
      replace (pos + Z.of_nat (length d1 + length d2)) with (pos + Z.of_nat (length d1) + Z.of_nat (length d2)) by lia. done.
    + exists f1. rewrite app_nil_r. simpl. rewrite Nat.add_0_r. split; [| done].
      destruct fuel; cbn [read_loop]; rewrite length_app;
        destruct (Z.ltb_spec (Z.of_nat (length acc + length d1)) n); try done; simpl in *; lia.
  - assert (data = []) as -> by (destruct data; [done | simpl in *; lia]).
    exists f. rewrite app_nil_r. simpl. by rewrite Z.add_0_r.
Qed.

Lemma read_all_spec img pos n f data rest : input img pos f -> 0 <= pos ->
  drop (Z.to_nat pos) img = data ++ rest -> n = Z.of_nat (length data) ->
  exists f', read_all n f = Ret (0, data, f') /\ input img (pos + n) f'.
Proof.
  intros Hin Hpos Hd En. unfold read_all.
  destruct (read_loop_spec img data (length (r_script f) + 2) rest pos n [] f Hin Hpos Hd En ltac:(lia)) as (f' & E & H).
  subst n. by exists f'.
Qed.

Lemma klseek_spec img pos n f : input img pos f -> 0 <= pos + n -> input img (pos + n) (klseek_in n f).
Proof.
  intros (H1 & H2 & H3) Hn. unfold klseek_in. rewrite H2. destruct (Z.ltb_spec (pos + n) 0); [lia |]. by split_and!.
Qed.

(** ** Headers *)
Definition chunk_header_ok (h : chunk_header) : Prop :=
  in_range 16 (ch_chunk_type h) /\ in_range 16 (ch_reserved1 h) /\
  in_range 32 (ch_chunk_sz h) /\ in_range 32 (ch_total_sz h).

Lemma parse_chunk_header_ok h : chunk_header_ok h -> parse_chunk_header (chunk_header_bytes h) = h.
Proof.
  intros (H1 & H2 & H3 & H4). destruct h as [a b c d].
  change (parse_chunk_header (chunk_header_bytes (ChunkHeader a b c d))) with
    (ChunkHeader (le_decode (le_encode 2 a)) (le_decode (le_encode 2 b))
       (le_decode (le_encode 4 c)) (le_decode (le_encode 4 d))).
  rewrite !le_roundtrip by done. done.
Qed.

Lemma parse_image_header bs total n : in_range 32 bs -> in_range 32 total -> in_range 32 n ->
  parse_sparse_header (image_header bs total n) =
  SparseHeader SPARSE_HEADER_MAGIC SPARSE_HEADER_MAJOR_VER SPARSE_HEADER_MINOR_VER
    SPARSE_HEADER_LEN CHUNK_HEADER_LEN bs total n 0.
Proof.
  intros H1 H2 H3.
  transitivity (SparseHeader SPARSE_HEADER_MAGIC SPARSE_HEADER_MAJOR_VER SPARSE_HEADER_MINOR_VER
    SPARSE_HEADER_LEN CHUNK_HEADER_LEN (le_decode (le_encode 4 bs)) (le_decode (le_encode 4 total))
    (le_decode (le_encode 4 n)) 0); [reflexivity |].
  by rewrite !le_roundtrip by done.
Qed.

(** ** Allocation scripts

    Operations on lists leave the later allocations successful. *)
Definition keeps_allocs {A} (m : heapM A) : Prop :=
  forall h a h', allocs_ok h -> m h = Ret (a, h') -> allocs_ok h'.

Create HintDb allocs.

Lemma keeps_ret {A} (a : A) : keeps_allocs (mret a).
Proof. intros h b h' Hh [= <- <-]. done. Qed.

Lemma keeps_bind {A B} (m : heapM A) (k : A -> heapM B) :
  keeps_allocs m -> (forall a, keeps_allocs (k a)) -> keeps_allocs (m ≫= k).
Proof.
  intros Hm Hk h b h' Hh E. unfold mbind, heapM_bind in E. destruct (m h) as [[a h1]| |] eqn:E1; try done.
  eapply Hk; [| exact E]. by eapply Hm.
Qed.

Lemma keeps_throw {A} f : keeps_allocs (throw f : heapM A).
Proof. by intros h a h' Hh E. Qed.

Lemma keeps_get p : keeps_allocs (get_bb p).
Proof. intros h a h' Hh E. unfold get_bb in E. by repeat case_match; simplify_eq. Qed.

Lemma keeps_put p n : keeps_allocs (put_bb p n).
Proof. intros h a h' Hh E. unfold put_bb in E. by repeat case_match; simplify_eq. Qed.

Lemma keeps_free p : keeps_allocs (free_bb p).
Proof. intros h a h' Hh E. unfold free_bb in E. by repeat case_match; simplify_eq. Qed.

Lemma keeps_free_str p : keeps_allocs (free_str p).
Proof. intros h a h' Hh E. unfold free_str in E. by repeat case_match; simplify_eq. Qed.

Lemma keeps_fuel : keeps_allocs list_fuel.
Proof. intros h a h' Hh E. unfold list_fuel in E. by simplify_eq. Qed.

Lemma keeps_alloc n : keeps_allocs (alloc_bb n).
Proof.
  intros h a h' Hh E. unfold alloc_bb, allocs_ok in *.
  destruct (h_script h) as [|[] sc]; simplify_eq; simpl; [done | by inversion Hh | by inversion Hh].
Qed.

#[export] Hint Resolve keeps_ret keeps_throw keeps_get keeps_put keeps_free keeps_free_str keeps_fuel keeps_alloc : allocs.

Ltac allocs := repeat (first [ progress (auto with allocs) | apply keeps_bind; [| intros ] | case_match ]).

Lemma keeps_seek fuel : forall p b, keeps_allocs (seek_loop fuel p b).
Proof. induction fuel as [|fuel IH]; intros p b; cbn [seek_loop]; [by intros h a h' Hh E |]. allocs. Qed.

Lemma keeps_merge bbl a b : keeps_allocs (merge_bb bbl a b).
Proof. unfold merge_bb, assertM, c_div, backed_block_destroy. allocs. Qed.

#[export] Hint Resolve keeps_seek keeps_merge : allocs.

Lemma keeps_queue bbl p : keeps_allocs (queue_bb bbl p).
Proof. unfold queue_bb, modify_bb. allocs. Qed.

#[export] Hint Resolve keeps_queue : allocs.

Lemma keeps_add bbl k len block : keeps_allocs (add_bb bbl k len block).
Proof. unfold add_bb. allocs. Qed.

(** ** Adding at the end of a list *)
Section AtEnd.
Context (bs : Z).

Lemma locate_end key : forall rest a, (forall b, b ∈ a :: rest -> k_block b < key) ->
  exists pre x, locate key a rest = (pre, x, []) /\ a :: rest = pre ++ [x].
Proof.
  induction rest as [|b r IH]; intros a Hlt; simpl; [by exists [], a |].
  destruct (Z.ltb_spec (k_block b) key); [| pose proof (Hlt b ltac:(right; left)); lia].
  destruct (IH b ltac:(intros c Hc; apply Hlt; by right)) as (pre & x & E1 & E2). rewrite E1, E2. by exists (a :: pre), x.
Qed.

Lemma insert_end n l : (forall b, b ∈ l -> k_block b < k_block n) ->
  (forall b, last l = Some b -> mergeable bs b n = false) ->
  insert_blk bs n l = l ++ [n] /\ absorbed bs n l = false.
Proof.
  intros Hlt Hm. destruct l as [|a r]; [done |]. unfold insert_blk, absorbed.
  destruct (Z.ltb_spec (k_block n) (k_block a)); [pose proof (Hlt a ltac:(left)); lia |].
  destruct (locate_end (k_block n) r a Hlt) as (pre & x & E1 & E2). rewrite E1. simpl.
  rewrite E2, last_snoc in Hm. rewrite (Hm x eq_refl). split; [| done].
  unfold splice. simpl. rewrite (Hm x eq_refl). change (a :: r ++ [n]) with ((a :: r) ++ [n]).
  by rewrite E2, <- app_assoc.
Qed.

Lemma sorted_snoc l n : StronglySorted blk_lt l -> (forall b, b ∈ l -> k_block b < k_block n) ->
  StronglySorted blk_lt (l ++ [n]).
Proof.
  intros Hs Hlt. induction Hs as [|a l Hs IH Ha]; simpl; [by repeat constructor |].
  constructor; [apply IH; intros b Hb; apply Hlt; by right |].
  apply Forall_app. split; [done |]. constructor; [| constructor]. apply Hlt. left.
Qed.
End AtEnd.

(** A request whose payload is known in advance. *)
Lemma add_end h s l k len block : list_ok h (sf_list s) l -> cache_ok (sf_list s) l -> allocs_ok h ->
  bbl_block_size (sf_list s) <> 0 -> (forall f o, k <> BACKED_BLOCK_FILE f o) ->
  (forall b, b ∈ abs l -> k_block b < block) ->
  (forall b, last (abs l) = Some b -> mergeable (bbl_block_size (sf_list s)) b (Blk block len k) = false) ->
  exists h' bbl' l', add_bb (sf_list s) k len block h = Ret ((0, bbl'), h') /\ list_ok h' bbl' l' /\
    cache_ok bbl' l' /\ allocs_ok h' /\ bbl_block_size bbl' = bbl_block_size (sf_list s) /\
    abs l' = abs l ++ [Blk block len k].
Proof.
  intros [Hwf Hs] Hc Ha Hbs Hk Hlt Hm.
  assert (Halloc : alloc_ok h).
  { unfold alloc_ok, allocs_ok in *. destruct (h_script h); [done |]. inversion Ha; subst. done. }
  destruct (plain_alloc h (sf_list s) _ l k len block Hwf Halloc) as (h1 & E & Hg & Hnew); [| done |].
  { intros b Hb. specialize (Hlt b Hb). lia. }
  destruct (queue_spec h1 (sf_list s) l _ _ (conj (wf_grown _ _ _ _ Hg Hwf) Hs) Hc Hnew Hbs)
    as (bbl' & h' & E' & l' & Hwf' & Eabs & _ & _ & Ebs & Hcache).
  unfold blk_of in Eabs, Hcache. simpl in Eabs, Hcache.
  destruct (insert_end (bbl_block_size (sf_list s)) (Blk block len k) (abs l) Hlt Hm) as [E1 E2]. rewrite E2 in Hcache. rewrite E1 in Eabs.
  exists h', bbl', l'. split_and!; try done.
  - by rewrite E.
  - split; [done |]. unfold sorted. rewrite Eabs. by apply sorted_snoc.
  - eapply (keeps_add (sf_list s) k len block); [exact Ha | by rewrite E].
Qed.

Lemma liftO_ok {A} (m : outcome A) a h : m = Ret a -> liftO m h = Ret (a, h).
Proof. by intros ->. Qed.

Lemma with_list_ok s m h r bbl h' : m h = Ret ((r, bbl), h') -> with_list s m h = Ret ((r, set_list s bbl), h').
Proof. intros E. unfold with_list. by rewrite (bindM _ _ _ _ _ E). Qed.

(** ** The reader on chunks *)
Section Reader.
Context (img : bytes) (fd bs : Z) (Hbs : 0 < bs < 2 ^ 32).

(** A chunk the reader takes as it was meant. *)
Definition chunk_fits (c : chunk) : Prop :=
  1 <= chunk_blocks c < 2 ^ 31 /\
  match c with
  | CSkip _ => True
  | CFill n v => n * bs < 2 ^ 32 /\ in_range 32 v
  | CRaw n data => n * bs < 2 ^ 32 - 12 /\ Z.of_nat (length data) = n * bs
  end.

(** The blocks a chunk at [pos] of the image becomes. *)
Definition chunk_read (pos cur : Z) (c : chunk) : list blk :=
  match c with
  | CSkip _ => []
  | CFill n v => [Blk cur (n * bs) (BACKED_BLOCK_FILL v)]
  | CRaw n _ => [Blk cur (n * bs) (BACKED_BLOCK_FD fd (pos + CHUNK_HEADER_LEN))]
  end.

Fixpoint chunks_read (pos cur : Z) (l : list chunk) : list blk :=
  match l with
  | [] => []
  | c :: l' => chunk_read pos cur c ++
               chunks_read (pos + Z.of_nat (length (encode_chunk c))) (cur + chunk_blocks c) l'
  end.

Definition fill_of (c : chunk) : option Z := match c with CFill _ v => Some v | _ => None end.

(** No two fills of the same value are adjacent. *)
Fixpoint separated (prev : option Z) (l : list chunk) : Prop :=
  match l with
  | [] => True
  | c :: l' => (fill_of c = None \/ fill_of c <> prev) /\ separated (fill_of c) l'
  end.

(** The last block does not continue into the next chunk. *)
Definition tail_ok (pos cur : Z) (prev : option Z) (b : blk) : Prop :=
  0 <= k_block b /\ k_block b + k_len b / bs <= cur /\ 0 <= k_len b /\
  match k_kind b with
  | BACKED_BLOCK_FD _ off => 0 <= off /\ off + k_len b <= pos
  | BACKED_BLOCK_FILL v => k_block b + k_len b / bs < cur \/ prev = Some v
  | _ => True
  end.

Record reader_ok (h : heap) (s : sparse_file) (l : nodes) (pos cur : Z) (prev : option Z) : Prop := {
  ro_list : list_ok h (sf_list s) l;
  ro_cache : cache_ok (sf_list s) l;
  ro_allocs : allocs_ok h;
  ro_bs : sf_block_size s = bs;
  ro_lbs : bbl_block_size (sf_list s) = bs;
  ro_before : forall b, b ∈ abs l -> k_block b < cur;
  ro_tail : forall b, last (abs l) = Some b -> tail_ok pos cur prev b
}.

Lemma not_mergeable pos cur prev b n : 0 <= pos < 2 ^ 62 -> 0 <= cur < 2 ^ 32 -> tail_ok pos cur prev b -> k_block n = cur ->
  match k_kind n with
  | BACKED_BLOCK_FD _ off => off = pos + CHUNK_HEADER_LEN
  | BACKED_BLOCK_FILL v => Some v <> prev
  | _ => True
  end -> mergeable bs b n = false.
Proof.
  intros Hpos Hcur (H0 & Hle & Hlen & Hk) En Hn. unfold mergeable, kinds_continue. rewrite En.
  pose proof (Z.div_pos (k_len b) bs ltac:(lia) ltac:(lia)).
  rewrite (wrap_small 32) by (unfold in_range; lia). rewrite andb_false_iff, Z.eqb_neq.
  destruct (k_kind b), (k_kind n); auto.
  - right. rewrite andb_false_iff, !Z.eqb_neq. right. unfold CHUNK_HEADER_LEN in Hn.
    rewrite swrap_small by (unfold in_srange; lia). lia.
  - rewrite Z.eqb_neq. destruct Hk as [Hk | Hk]; [left; lia | right; congruence].
Qed.

(** Adding the block of a chunk. *)
Lemma reader_add h s l pos cur prev n k pos' prev' : reader_ok h s l pos cur prev ->
  0 <= pos < 2 ^ 62 -> 0 <= cur < 2 ^ 32 -> 1 <= n ->
  match k with
  | BACKED_BLOCK_FD _ off => off = pos + CHUNK_HEADER_LEN /\ off + n * bs <= pos'
  | BACKED_BLOCK_FILL v => Some v <> prev /\ prev' = Some v
  | _ => False
  end ->
  exists h' bbl' l', add_bb (sf_list s) k (n * bs) cur h = Ret ((0, bbl'), h') /\
    reader_ok h' (set_list s bbl') l' pos' (cur + n) prev' /\ abs l' = abs l ++ [Blk cur (n * bs) k].
Proof.
  intros [Hl Hc Ha Es El Hb Ht] Hpos Hcur Hn Hk.
  destruct (add_end h s l k (n * bs) cur Hl Hc Ha) as (h' & bbl' & l' & E & Hl' & Hc' & Ha' & Eb & Eabs).
  - lia.
  - by destruct k.
  - done.
  - intros b Hb'. rewrite El. apply (not_mergeable pos cur prev); try done; [by apply Ht |]. simpl. by destruct k; destruct Hk.
  - exists h', bbl', l'. split_and!; try done. split; try done; simpl; [congruence | |].
    + intros b Hin. rewrite Eabs in Hin. apply elem_of_app in Hin as [Hin | Hin]; [specialize (Hb b Hin); lia |].
      apply list_elem_of_singleton in Hin as ->. simpl. lia.
    + intros b. rewrite Eabs, last_snoc. intros [= <-]. unfold tail_ok. simpl. rewrite Z.div_mul by lia.
      split_and!; [lia | lia | nia |]. destruct k; try done; destruct Hk; unfold CHUNK_HEADER_LEN in *; [split; lia | by right].
Qed.

Definition chunk_hdr (c : chunk) : chunk_header :=
  ChunkHeader (chunk_type c) 0 (chunk_blocks c) (CHUNK_HEADER_LEN + Z.of_nat (length (chunk_payload c))).

Lemma process_raw_spec h s l pos cur prev f n data : reader_ok h s l pos cur prev -> 0 <= pos < 2 ^ 61 ->
  0 <= cur -> cur + n < 2 ^ 32 ->
  chunk_fits (CRaw n data) -> input img (pos + 12) f ->
  exists h' s' l' f', process_raw_chunk s (n * bs) fd f (pos + 12) n cur None h = Ret ((0, s', None, f'), h') /\
    reader_ok h' s' l' (pos + 12 + n * bs) (cur + n) None /\ input img (pos + 12 + n * bs) f' /\
    abs l' = abs l ++ chunk_read pos cur (CRaw n data) /\ sf_len s' = sf_len s.
Proof.
  intros Hr Hpos Hcur Hlim ([Hn Hn'] & Hlen & Hd) Hin. simpl in Hn, Hn'. pose proof Hr as [_ _ _ Es _ _ _].
  destruct (reader_add h s l pos cur prev n (BACKED_BLOCK_FD fd (pos + 12)) (pos + 12 + n * bs) None Hr)
    as (h' & bbl' & l' & E & Hr' & Eabs); [lia | lia | lia | unfold CHUNK_HEADER_LEN; split; lia |].
  exists h', (set_list s bbl'), l', (klseek_in (n * bs) f). split_and!; try done; [| apply klseek_spec; [done | nia]].
  unfold process_raw_chunk. rewrite Es. destruct (Z.eqb_spec bs 0); [lia |].
  rewrite Z.mod_mul, Z.div_mul by lia. rewrite (Z.eqb_refl n). cbv [negb].
  rewrite (wrap_small 32 (n * bs)) by (unfold in_range; nia). change (0 =? 0) with true. cbv iota.
  unfold sparse_file_add_fd, backed_block_add_fd. rewrite (bindM _ _ _ _ _ (with_list_ok s _ _ _ _ _ E)). done.
Qed.

Lemma process_fill_spec h s l pos cur prev f n v rest : reader_ok h s l pos cur prev -> 0 <= pos < 2 ^ 61 ->
  0 <= cur -> cur + n < 2 ^ 32 -> Some v <> prev ->
  chunk_fits (CFill n v) -> input img (pos + 12) f -> drop (Z.to_nat (pos + 12)) img = le_encode 4 v ++ rest ->
  exists h' s' l' f', process_fill_chunk s 4 f n cur None h = Ret ((0, s', None, f'), h') /\
    reader_ok h' s' l' (pos + 12 + 4) (cur + n) (Some v) /\ input img (pos + 12 + 4) f' /\
    abs l' = abs l ++ chunk_read pos cur (CFill n v) /\ sf_len s' = sf_len s.
Proof.
  intros Hr Hpos Hcur Hlim Hprev ([Hn Hn'] & Hlen & Hv) Hin Hd. simpl in Hn, Hn'. pose proof Hr as [_ _ _ Es _ _ _].
  destruct (reader_add h s l pos cur prev n (BACKED_BLOCK_FILL v) (pos + 12 + 4) (Some v) Hr)
    as (h' & bbl' & l' & E & Hr' & Eabs); [lia | lia | lia | done |].
  destruct (read_all_spec img (pos + 12) 4 f (le_encode 4 v) rest Hin ltac:(lia) Hd ltac:(by rewrite le_encode_length))
    as (f' & Ef & Hin').
  exists h', (set_list s bbl'), l', f'. split_and!; try done.
  unfold process_fill_chunk. change (negb (4 =? 4)) with false. cbv iota zeta.
  rewrite (bindM _ _ _ _ _ (liftO_ok _ _ h Ef)). cbv beta. change (0 <? 0) with false. cbv iota.
  rewrite le_roundtrip by done. rewrite Es, (wrap_small 32 (n * bs)) by (unfold in_range; nia).
  unfold sparse_file_add_fill, backed_block_add_fill. rewrite (bindM _ _ _ _ _ (with_list_ok s _ _ _ _ _ E)). done.
Qed.

(** One chunk. *)
Lemma process_chunk_spec h s l pos cur prev f c rest : reader_ok h s l pos cur prev -> 0 <= pos < 2 ^ 61 ->
  0 <= cur -> cur + chunk_blocks c < 2 ^ 32 -> (fill_of c = None \/ fill_of c <> prev) -> chunk_fits c ->
  input img (pos + 12) f -> drop (Z.to_nat (pos + 12)) img = chunk_payload c ++ rest ->
  exists h' s' l' f', let pos' := pos + Z.of_nat (length (encode_chunk c)) in
    process_chunk s fd f (pos + 12) 12 (chunk_hdr c) cur None h = Ret ((chunk_blocks c, s', None, f'), h') /\
    reader_ok h' s' l' pos' (cur + chunk_blocks c) (fill_of c) /\ input img pos' f' /\
    abs l' = abs l ++ chunk_read pos cur c /\ sf_len s' = sf_len s.
Proof.
  intros Hr Hpos Hcur Hlim Hsep Hfit Hin Hd. cbv zeta.
  assert (El : pos + Z.of_nat (length (encode_chunk c)) = pos + 12 + Z.of_nat (length (chunk_payload c))).
  { unfold encode_chunk. rewrite length_app, chunk_header_length. lia. }
  rewrite El. destruct c as [n | n v | n data]; unfold process_chunk, chunk_hdr, CHUNK_HEADER_LEN; cbn [chunk_type ch_chunk_type ch_total_sz ch_chunk_sz chunk_blocks chunk_payload length fill_of] in *.
  - change (CHUNK_TYPE_DONT_CARE =? CHUNK_TYPE_RAW) with false. change (CHUNK_TYPE_DONT_CARE =? CHUNK_TYPE_FILL) with false.
    change (CHUNK_TYPE_DONT_CARE =? CHUNK_TYPE_DONT_CARE) with true. change (u32 (12 + Z.of_nat 0 - 12)) with 0. cbv iota.
    destruct Hfit as [[H1 H2] _]. simpl in H1, H2. exists h, s, l, f.
    unfold process_skip_chunk. change (negb (0 =? 0)) with false. cbv iota. rewrite (bindM _ _ _ _ _ (retM _ _)). cbv beta iota. simpl andb. cbv iota.
    rewrite swrap_small by (unfold in_srange; lia). rewrite app_nil_r, Z.add_0_r. split_and!; try done.
    destruct Hr as [? ? ? ? ? Hb Ht]. split; try done; [intros b Hb'; specialize (Hb b Hb'); lia |].
    intros b Hb'. destruct (Ht b Hb') as (A1 & A2 & A3 & A4). split_and!; [done | lia | done |].
    destruct (k_kind b); [done | done | lia | left; lia].
  - change (CHUNK_TYPE_FILL =? CHUNK_TYPE_RAW) with false. change (CHUNK_TYPE_FILL =? CHUNK_TYPE_FILL) with true.
    rewrite le_encode_length. change (u32 (12 + Z.of_nat 4 - 12)) with 4. cbv iota.
    destruct (process_fill_spec h s l pos cur prev f n v rest Hr Hpos Hcur Hlim ltac:(by destruct Hsep) Hfit Hin Hd)
      as (h' & s' & l' & f' & E & H1 & H2 & H3 & H4).
    exists h', s', l', f'. rewrite (bindM _ _ _ _ _ E). cbv beta. change (0 <? 0) with false. cbv iota.
    destruct Hfit as [[Hn Hn'] _]. simpl in Hn, Hn'. rewrite swrap_small by (unfold in_srange; lia). by split_and!.
  - change (CHUNK_TYPE_RAW =? CHUNK_TYPE_RAW) with true. pose proof Hfit as ([Hn Hn'] & Hl1 & Hl2). simpl in Hn, Hn'. rewrite Hl2.
    replace (12 + n * bs - 12) with (n * bs) by lia. rewrite wrap_small by (unfold in_range; nia). cbv iota.
    destruct (process_raw_spec h s l pos cur prev f n data Hr Hpos Hcur Hlim Hfit Hin)
      as (h' & s' & l' & f' & E & H1 & H2 & H3 & H4).
    exists h', s', l', f'. rewrite (bindM _ _ _ _ _ E). cbv beta. change (0 <? 0) with false. cbv iota.
    rewrite swrap_small by (unfold in_srange; lia). by split_and!.
Qed.

Lemma chunk_hdr_ok c : chunk_fits c -> chunk_header_ok (chunk_hdr c).
Proof.
  intros [Hn Hc]. unfold chunk_header_ok, chunk_hdr, in_range. cbn [ch_chunk_type ch_reserved1 ch_chunk_sz ch_total_sz].
  unfold CHUNK_HEADER_LEN. destruct c; cbn [chunk_payload length chunk_type chunk_blocks] in *; rewrite ?le_encode_length;
    unfold CHUNK_TYPE_RAW, CHUNK_TYPE_FILL, CHUNK_TYPE_DONT_CARE; lia.
Qed.

(** All chunks, with [k] more to come. *)
Lemma read_chunks_spec : forall cs h s l pos cur prev f rest, reader_ok h s l pos cur prev -> 0 <= pos ->
  0 <= cur -> cur + blocks_sum cs < 2 ^ 32 -> separated prev cs -> Forall chunk_fits cs ->
  input img pos f -> drop (Z.to_nat pos) img = encode_chunks cs ++ rest -> Z.of_nat (length img) < 2 ^ 61 ->
  exists h' s' l' f', (forall k, read_chunks (length cs + k) s fd 12 f cur None h =
      read_chunks k s' fd 12 f' (cur + blocks_sum cs) None h') /\
    list_ok h' (sf_list s') l' /\ abs l' = abs l ++ chunks_read pos cur cs /\
    sf_len s' = sf_len s /\ sf_block_size s' = bs /\ cache_ok (sf_list s') l' /\
    input img (pos + Z.of_nat (length (encode_chunks cs))) f'.
Proof.
  induction cs as [|c cs IH]; intros h s l pos cur prev f rest Hr Hpos Hcur Hlim Hsep Hfit Hin Hd Hlen.
  { exists h, s, l, f. simpl. rewrite app_nil_r, !Z.add_0_r. by destruct Hr. }
  apply Forall_cons in Hfit as [Hc Hfit]. destruct Hsep as [Hs1 Hsep]. cbn [blocks_sum foldr] in Hlim.
  fold (blocks_sum cs) in Hlim.
  assert (Hsum : 0 <= blocks_sum cs).
  { clear -Hfit. induction Hfit as [|? ? [? _]]; simpl; lia. }
  change (encode_chunks (c :: cs)) with (encode_chunk c ++ encode_chunks cs) in Hd.
  unfold encode_chunk in Hd. fold (chunk_hdr c) in Hd. rewrite <- !app_assoc in Hd.
  assert (Hp : (Z.to_nat pos + 12 <= length img)%nat).
  { apply (f_equal length) in Hd. rewrite length_drop, length_app, chunk_header_length in Hd. lia. }
  destruct (read_all_spec img pos 12 f (chunk_header_bytes (chunk_hdr c)) _ Hin Hpos Hd ltac:(by rewrite chunk_header_length))
    as (f1 & E1 & Hin1).
  assert (Hd1 : drop (Z.to_nat (pos + 12)) img = chunk_payload c ++ encode_chunks cs ++ rest).
  { rewrite Z2Nat.inj_add by lia. rewrite <- drop_drop, Hd. rewrite drop_app_ge; rewrite chunk_header_length; done. }
  destruct (process_chunk_spec h s l pos cur prev f1 c _ Hr ltac:(lia) Hcur ltac:(lia) Hs1 Hc Hin1 Hd1)
    as (h2 & s2 & l2 & f2 & E2 & Hr2 & Hin2 & Eabs & El).
  assert (Hd2 : drop (Z.to_nat (pos + Z.of_nat (length (encode_chunk c)))) img = encode_chunks cs ++ rest).
  { unfold encode_chunk. fold (chunk_hdr c). rewrite length_app, chunk_header_length.
    rewrite Z2Nat.inj_add, Nat2Z.id by lia. rewrite Nat.add_assoc, <- drop_drop.
    replace (Z.to_nat pos + 12)%nat with (Z.to_nat (pos + 12)) by lia. rewrite Hd1. by rewrite drop_app_length. }
  destruct (IH h2 s2 l2 _ _ _ f2 rest Hr2 ltac:(lia) ltac:(destruct Hc; lia) ltac:(lia) Hsep Hfit Hin2 Hd2 Hlen)
    as (h3 & s3 & l3 & f3 & E3 & Hl3 & Eabs3 & El3 & Eb3 & Hc3 & Hin3).
  exists h3, s3, l3, f3. split_and!; try done; [| by rewrite Eabs3, Eabs, <- app_assoc | congruence |].
  2: { change (encode_chunks (c :: cs)) with (encode_chunk c ++ encode_chunks cs).
       rewrite length_app, Nat2Z.inj_add, Z.add_assoc. exact Hin3. }
  intros k. cbn [length read_chunks Nat.add]. rewrite (bindM _ _ _ _ _ (liftO_ok _ _ h E1)). cbv beta.
  change (0 <? 0) with false. cbv iota zeta. change (CHUNK_HEADER_LEN <? 12) with false. cbv iota.
  rewrite parse_chunk_header_ok by (by apply chunk_hdr_ok). destruct Hin1 as (_ & Ep & _). rewrite Ep.
  rewrite (bindM _ _ _ _ _ E2). cbv beta. destruct (Z.ltb_spec (chunk_blocks c) 0); [destruct Hc; lia |].
  rewrite wrap_small by (unfold in_range; destruct Hc; lia). rewrite E3. cbn [blocks_sum foldr]. fold (blocks_sum cs).
  by rewrite Z.add_assoc.
Qed.

End Reader.

(** ** What a list of blocks and a list of chunks put on the disk *)
Inductive block_data :=
  | BFill (v : Z)
  | BRaw (data : bytes).

Section Disk.
Context (bs : Z) (Hbs : 0 < bs).

Definition block_bytes (e : env) (strs : gmap loc bytes) (p : bb_kind * Z) : block_data :=
  match p.1 with
  | BACKED_BLOCK_FILL v => BFill v
  | k => BRaw (pad_to bs (default [] (source e strs k p.2)))
  end.

(** Block [i] of the disk, padded with zeros; [None] for a block nobody wrote. *)
Definition disk (e : env) (strs : gmap loc bytes) (l : list blk) (i : Z) : option block_data :=
  block_bytes e strs <$> content bs l i.

Definition chunk_at (cur : Z) (c : chunk) (i : Z) : option block_data :=
  if (cur <=? i) && (i <? cur + chunk_blocks c) then
    match c with
    | CSkip _ => None
    | CFill _ v => Some (BFill v)
    | CRaw _ data => Some (BRaw (take (Z.to_nat bs) (drop (Z.to_nat ((i - cur) * bs)) data)))
    end
  else None.

Fixpoint chunks_at (cur : Z) (l : list chunk) (i : Z) : option block_data :=
  match l with
  | [] => None
  | c :: l' => chunk_at cur c i <|> chunks_at (cur + chunk_blocks c) l' i
  end.

Lemma fmap_or_else {A B} (f : A -> B) (x y : option A) : f <$> (x <|> y) = (f <$> x) <|> (f <$> y).
Proof. by destruct x. Qed.

Lemma disk_cons e strs b l i : disk e strs (b :: l) i = disk e strs [b] i <|> disk e strs l i.
Proof. unfold disk. simpl. by rewrite or_else_none, fmap_or_else. Qed.

Lemma chunks_at_app l1 : forall cur l2 i,
  chunks_at cur (l1 ++ l2) i = chunks_at cur l1 i <|> chunks_at (cur + blocks_sum l1) l2 i.
Proof.
  induction l1 as [|c l1 IH]; intros cur l2 i; simpl; [by rewrite Z.add_0_r |].
  rewrite IH, or_else_assoc. do 2 f_equal. lia.
Qed.

Lemma gap_at cur from to i : chunks_at cur (gap_chunk from to) i = None.
Proof. unfold gap_chunk. destruct (from <? to); [| done]. simpl. unfold chunk_at. by destruct (_ && _). Qed.

(** A block whose offset does not overflow. *)
Definition offset_fits (b : blk) : Prop :=
  match k_kind b with
  | BACKED_BLOCK_FILE _ off | BACKED_BLOCK_FD _ off => off + k_len b < 2 ^ 63
  | _ => True
  end.

Lemma slice_advance file off len d x n : slice file off len = Some d -> 0 <= x -> 0 <= n -> x + n <= len ->
  slice file (off + x) n = Some (take (Z.to_nat n) (drop (Z.to_nat x) d)).
Proof.
  unfold slice. intros E Hx Hn Hle. destruct (_ && _) eqn:Ec; [| done]. injection E as <-.
  apply andb_true_iff in Ec as [Ec E3]. apply andb_true_iff in Ec as [E1 E2].
  apply Z.leb_le in E1, E2, E3. destruct (_ && _) eqn:Ec'.
  - f_equal. rewrite Z2Nat.inj_add by lia. rewrite <- drop_drop. rewrite skipn_firstn_comm, take_take. f_equal. lia.
  - apply andb_false_iff in Ec' as [Ec' | Ec']; [apply andb_false_iff in Ec' as [Ec' | Ec'] |]; apply Z.leb_gt in Ec'; lia.
Qed.

Lemma slice_bounds file off len d : slice file off len = Some d -> Z.of_nat (length d) = len /\ 0 <= off.
Proof.
  unfold slice. destruct (_ && _) eqn:Ec; [| done]. intros [= <-].
  apply andb_true_iff in Ec as [Ec E3]. apply andb_true_iff in Ec as [E1 E2]. apply Z.leb_le in E1, E2, E3.
  rewrite length_take, length_drop. lia.
Qed.

Lemma source_advance e strs b d x n : source e strs (k_kind b) (k_len b) = Some d -> offset_fits b ->
  (forall v, k_kind b <> BACKED_BLOCK_FILL v) -> 0 <= x -> 0 <= n -> x + n <= k_len b ->
  source e strs (advance (k_kind b) x) n = Some (take (Z.to_nat n) (drop (Z.to_nat x) d)) /\
  Z.of_nat (length d) = k_len b.
Proof.
  unfold offset_fits. destruct (k_kind b) as [buf off | f off | f off | v]; cbn [source advance]; intros E Hf Hk Hx Hn Hle.
  - destruct (slice_bounds _ _ _ _ E) as [Hl _]. split; [| done]. by apply (slice_advance _ _ (k_len b)).
  - destruct (strs !! f) as [name|]; [| done]. simpl in *. destruct (env_file e name) as [file|]; [| done]. simpl in *.
    destruct (slice_bounds _ _ _ _ E) as [Hl H0]. split; [| done]. rewrite swrap_small by (unfold in_srange; lia).
    by apply (slice_advance _ _ (k_len b)).
  - destruct (env_fd e f) as [file|]; [| done]. simpl in *.
    destruct (slice_bounds _ _ _ _ E) as [Hl H0]. split; [| done]. rewrite swrap_small by (unfold in_srange; lia).
    by apply (slice_advance _ _ (k_len b)).
  - by destruct (Hk v).
Qed.

Lemma pad_slice d len m x : Z.of_nat (length d) = len -> 0 <= x < len -> x + bs <= m ->
  len <= m < len + bs ->
  take (Z.to_nat bs) (drop (Z.to_nat x) (pad_to m d)) =
  pad_to bs (take (Z.to_nat (Z.min bs (len - x))) (drop (Z.to_nat x) d)).
Proof.
  intros Hl Hx Hm Hm'. unfold pad_to. rewrite drop_app_le by lia. rewrite take_app, length_take, length_drop.
  rewrite take_replicate. f_equal; [| f_equal; lia].
  destruct (Z.min_spec bs (len - x)) as [[? ->] | [? ->]]; [done |].
  rewrite !take_ge; [done | rewrite length_drop; lia..].
Qed.

Lemma block_chunk_at e strs b i : writable e strs bs b -> offset_fits b ->
  chunk_at (k_block b) (block_chunk e strs bs b) i = disk e strs [b] i.
Proof.
  intros (Hlen & _ & [d Hd]) Hf. unfold disk, chunk_at. simpl. rewrite or_else_none, block_chunk_blocks.
  unfold piece, end_of. destruct (_ && _) eqn:Ec; [| done]. cbn [fmap option_fmap option_map].
  apply andb_true_iff in Ec as [E1 E2]. apply Z.leb_le in E1. apply Z.ltb_lt in E2.
  destruct (aligned_bounds bs (k_len b) Hbs Hlen) as (Ha1 & Ha2 & Ha3).
  assert (Hx : 0 <= (i - k_block b) * bs /\ (i - k_block b) * bs + bs <= aligned bs (k_len b)).
  { unfold aligned. nia. }
  assert (Hraw : (forall v, k_kind b <> BACKED_BLOCK_FILL v) ->
    take (Z.to_nat bs) (drop (Z.to_nat ((i - k_block b) * bs)) (pad_to (aligned bs (k_len b)) (default [] (source e strs (k_kind b) (k_len b))))) =
    pad_to bs (default [] (source e strs (advance (k_kind b) ((i - k_block b) * bs)) (Z.min bs (k_len b - (i - k_block b) * bs))))).
  { intros Hk. rewrite Hd. destruct (source_advance e strs b d ((i - k_block b) * bs)
      (Z.min bs (k_len b - (i - k_block b) * bs)) Hd Hf Hk ltac:(lia) ltac:(lia) ltac:(lia)) as [-> Hl].
    simpl. apply pad_slice; lia. }
  unfold block_chunk, block_bytes. cbn [fst snd]. destruct (k_kind b) eqn:Ek; cbn [advance] in *; [| | | done];
    f_equal; f_equal; by apply Hraw.
Qed.

(** The chunks of a list put on the disk what the list describes. *)
Lemma chunks_from_at e strs i : forall l last, laid bs l -> starts_after last l ->
  Forall (writable e strs bs) l -> Forall offset_fits l ->
  chunks_at last (chunks_from e strs bs last l) i = disk e strs l i.
Proof.
  induction l as [|b l IH]; intros last Hl Hst Hw Hf; [done |].
  apply Forall_cons in Hw as [Hb Hw], Hf as [Hfb Hf]. destruct (laid_next bs b l Hl) as [Hl' Hst'].
  specialize (Hst b eq_refl). cbn [chunks_from]. rewrite chunks_at_app, gap_at.
  destruct (gap_blocks last (k_block b) Hst) as [-> _]. cbn [or_else chunks_at].
  replace (last + (k_block b - last)) with (k_block b) by lia.
  rewrite block_chunk_at, block_chunk_blocks by done. fold (end_of bs b). rewrite IH by done.
  by rewrite <- disk_cons.
Qed.

End Disk.

(** ** Importing an image *)
Section Importing.
Context (img : bytes) (fd bs : Z) (Hbs : 0 < bs < 2 ^ 31).

Lemma image_header_length b t n : length (image_header b t n) = 28%nat.
Proof. unfold image_header. apply sparse_header_length. Qed.

Lemma new_list_ok h s : below_fresh h -> allocs_ok h -> sf_block_size s = bs -> sf_list s = BBL None None bs ->
  reader_ok bs h s [] 28 0 None.
Proof.
  intros Hf Ha Es El. split; rewrite ?El; try done; [| intros b Hb; by apply elem_of_nil in Hb].
  split; [| constructor]. split; simpl; try done; [constructor |]. split; [constructor | set_solver].
Qed.

Lemma header_ok total n : header_bad (SparseHeader SPARSE_HEADER_MAGIC SPARSE_HEADER_MAJOR_VER
  SPARSE_HEADER_MINOR_VER SPARSE_HEADER_LEN CHUNK_HEADER_LEN bs total n 0) = false.
Proof. reflexivity. Qed.

Lemma sparse_file_new_ok len h : allocs_ok h ->
  sparse_file_new bs len h = Ret (Some (SparseFile bs len false (BBL None None bs)),
    with_script h (drop 2 (h_script h))) /\ allocs_ok (with_script h (drop 2 (h_script h))).
Proof.
  intros Ha. destruct (alloc_other_ok h Ha) as [E1 Ha1]. destruct (alloc_other_ok _ Ha1) as [E2 Ha2].
  assert (Ed : with_script (with_script h (tail (h_script h))) (tail (tail (h_script h))) = with_script h (drop 2 (h_script h))).
  { unfold with_script. simpl. by destruct (h_script h) as [|? [|? ?]]. }
  simpl in E2, Ha2. rewrite Ed in E2, Ha2. split; [| done].
  unfold sparse_file_new, backed_block_list_new. rewrite (bindM _ _ _ _ _ E1). cbv iota.
  unfold mbind, heapM_bind. by rewrite E2.
Qed.

(** The checks after the last chunk. *)
Definition finish_sparse (total : Z) (r : Z * sparse_file * Z * rfile) : heapM (Z * sparse_file * rfile) :=
  let '(ret, s, cur_block, f) := r in
  if ret <? 0 then mret (ret, s, f) else
  if negb (total =? cur_block) then mret (- EINVAL, s, f) else mret (0, s, f).

Definition trailers (ocrc : option Z) : nat := match ocrc with Some _ => 1 | None => 0 end.

(** The reader up to the checksum chunk. *)
Lemma read_sparse_run cs ocrc rest h s l f : img = image bs (blocks_sum cs) cs ocrc ++ rest ->
  Forall (chunk_fits bs) cs -> separated None cs -> blocks_sum cs < 2 ^ 31 -> Z.of_nat (length img) < 2 ^ 61 ->
  reader_ok bs h s l 28 0 None -> input img 0 f ->
  exists h' s' l' f', sparse_file_read_sparse true s fd f false h =
      (read_chunks (trailers ocrc) s' fd 12 f' (blocks_sum cs) None ≫= finish_sparse (blocks_sum cs)) h' /\
    list_ok h' (sf_list s') l' /\ abs l' = abs l ++ chunks_read fd bs 28 0 cs /\
    sf_len s' = sf_len s /\ sf_block_size s' = bs /\ cache_ok (sf_list s') l' /\
    input img (28 + Z.of_nat (length (encode_chunks cs))) f'.
Proof.
  intros Eimg Hfit Hsep Hsum Hlen Hr Hin.
  assert (Hcs : Z.of_nat (length cs) <= blocks_sum cs).
  { apply blocks_sum_length. eapply Forall_impl; [exact Hfit |]. by intros c [[? _] _]. }
  unfold image in Eimg. rewrite <- !app_assoc in Eimg.
  set (n := Z.of_nat (length cs) + if ocrc is Some _ then 1 else 0) in *.
  assert (Hn : n = Z.of_nat (length cs + trailers ocrc) /\ 0 <= n < 2 ^ 32) by (unfold n; destruct ocrc; simpl; lia).
  set (hdr := image_header bs (blocks_sum cs) n) in *.
  destruct (read_all_spec img 0 28 f hdr _ Hin ltac:(lia) ltac:(by rewrite Eimg) ltac:(done)) as (f1 & E1 & Hin1).
  assert (Hd : drop (Z.to_nat 28) img = encode_chunks cs ++ match ocrc with Some c => crc_chunk c | None => [] end ++ rest).
  { rewrite Eimg. change (Z.to_nat 28) with (length hdr). by rewrite drop_app_length. }
  destruct (read_chunks_spec img fd bs ltac:(lia) cs h s l 28 0 None f1 _ Hr ltac:(lia) ltac:(lia) ltac:(lia) Hsep Hfit Hin1 Hd Hlen)
    as (h' & s' & l' & f' & E2 & Hl' & Eabs & El & Eb & Hc' & Hin').
  exists h', s', l', f'. split_and!; try done.
  unfold sparse_file_read_sparse. change (negb true) with false. cbv iota.
  change SPARSE_HEADER_LEN with 28. rewrite (bindM _ _ _ _ _ (liftO_ok _ _ h E1)). cbv beta iota.
  change (0 <? 0) with false. cbv iota zeta. unfold hdr.
  rewrite parse_image_header by (unfold in_range; lia). rewrite header_ok.
  cbn [sh_file_hdr_sz sh_chunk_hdr_sz sh_total_blks sh_total_chunks]. change (28 <? SPARSE_HEADER_LEN) with false. cbv iota.
  rewrite (proj1 Hn), Nat2Z.id. unfold mbind, heapM_bind. change CHUNK_HEADER_LEN with 12. rewrite E2. done.
Qed.

(** [sparse_file_import] as a whole: the header, a new file, the chunks. *)
Lemma import_run cs ocrc rest h f verbose : img = image bs (blocks_sum cs) cs ocrc ++ rest ->
  Forall (chunk_fits bs) cs -> separated None cs -> blocks_sum cs < 2 ^ 31 -> Z.of_nat (length img) < 2 ^ 61 ->
  below_fresh h -> allocs_ok h -> input img 0 f ->
  exists h' s' l' f', sparse_file_import true fd f verbose false h =
      ('(ret, s, f) ← (read_chunks (trailers ocrc) s' fd 12 f' (blocks_sum cs) None ≫= finish_sparse (blocks_sum cs));
       if ret <? 0 then sparse_file_destroy s ≫= fun _ => mret (None, f) else mret (Some s, f)) h' /\
    list_ok h' (sf_list s') l' /\ abs l' = chunks_read fd bs 28 0 cs /\
    sf_len s' = blocks_sum cs * bs /\ sf_block_size s' = bs /\ cache_ok (sf_list s') l' /\
    input img (28 + Z.of_nat (length (encode_chunks cs))) f'.
Proof.
  intros Eimg Hfit Hsep Hsum Hlen Hf Ha Hin.
  assert (Hcs : Z.of_nat (length cs) <= blocks_sum cs).
  { apply blocks_sum_length. eapply Forall_impl; [exact Hfit |]. by intros c [[? _] _]. }
  pose proof Eimg as Eimg'. unfold image in Eimg'. rewrite <- !app_assoc in Eimg'.
  set (n := Z.of_nat (length cs) + if ocrc is Some _ then 1 else 0) in *.
  assert (Hn : 0 <= n < 2 ^ 32) by (unfold n; destruct ocrc; lia).
  destruct (read_all_spec img 0 28 f (image_header bs (blocks_sum cs) n) _
    Hin ltac:(lia) ltac:(by rewrite Eimg') ltac:(done)) as (f1 & E1 & Hin1).
  destruct (sparse_file_new_ok (blocks_sum cs * bs) h Ha) as [E2 Ha2].
  set (h2 := with_script h _) in *. set (s2 := SparseFile bs (blocks_sum cs * bs) verbose (BBL None None bs)).
  destruct (read_sparse_run cs ocrc rest h2 s2 [] (rewind f1) Eimg Hfit Hsep Hsum Hlen)
    as (h' & s' & l' & f' & E3 & Hl' & Eabs & El & Eb & Hc' & Hin').
  { by apply new_list_ok. }
  { destruct Hin1 as (H1 & H2 & H3). by split_and!. }
  exists h', s', l', f'. split_and!; try done.
  unfold sparse_file_import. change SPARSE_HEADER_LEN with 28. rewrite (bindM _ _ _ _ _ (liftO_ok _ _ h E1)).
  cbv beta iota. change (0 <? 0) with false. cbv iota zeta.
  rewrite parse_image_header by (unfold in_range; lia). rewrite header_ok. cbn [sh_total_blks sh_blk_sz].
  rewrite (bindM _ _ _ _ _ E2). cbn [sf_block_size sf_len sf_list]. unfold sparse_file_read. cbn [andb]. cbv iota. fold s2.
  unfold mbind at 1, heapM_bind at 1. rewrite E3. done.
Qed.

Lemma raw_slice pos n data rest : 0 <= pos -> Z.of_nat (length data) = n * bs ->
  drop (Z.to_nat pos) img = encode_chunk (CRaw n data) ++ rest ->
  slice img (pos + 12) (n * bs) = Some data /\ pos + 12 + n * bs <= Z.of_nat (length img).
Proof.
  intros Hpos Hl Hd. unfold encode_chunk in Hd. cbn [chunk_payload] in Hd.
  assert (Hp : pos + 12 + n * bs <= Z.of_nat (length img)).
  { apply (f_equal length) in Hd. rewrite length_drop, !length_app, chunk_header_length in Hd. lia. }
  split; [| done]. unfold slice. zcase; [| lia..]. f_equal.
  rewrite Z2Nat.inj_add, <- drop_drop, Hd by lia. rewrite <- app_assoc.
  rewrite drop_app_ge by (by rewrite chunk_header_length). rewrite chunk_header_length. cbn [Nat.sub drop].
  rewrite <- Hl, Nat2Z.id. apply take_app_length.
Qed.

(** The blocks read put on the disk what the chunks say. *)
Lemma chunk_read_at e strs pos cur c rest i : env_fd e fd = Some img -> 0 <= pos -> Z.of_nat (length img) < 2 ^ 61 ->
  chunk_fits bs c -> drop (Z.to_nat pos) img = encode_chunk c ++ rest ->
  disk bs e strs (chunk_read fd bs pos cur c) i = chunk_at bs cur c i.
Proof.
  intros Hfd Hpos Hlen [Hn Hc] Hd. unfold disk, chunk_at. destruct c as [n | n v | n data]; cbn [chunk_blocks chunk_read content] in *.
  - by destruct (_ && _).
  - rewrite or_else_none. unfold piece, end_of. cbn [k_block k_len k_kind]. rewrite blocks_mul by lia. by destruct (_ && _).
  - rewrite or_else_none. unfold piece, end_of. cbn [k_block k_len k_kind]. rewrite blocks_mul by lia.
    destruct (_ && _) eqn:Ec; [| done]. apply andb_true_iff in Ec as [E1 E2]. apply Z.leb_le in E1. apply Z.ltb_lt in E2.
    cbn [fmap option_fmap option_map]. unfold block_bytes. cbn [fst snd advance]. f_equal. f_equal.
    destruct Hc as [Hc1 Hc2]. rewrite Z.min_l by nia. cbn [source]. rewrite Hfd. cbn [mbind option_bind].
    destruct (raw_slice pos n data rest Hpos Hc2 Hd) as [Hs Hp].
    unfold CHUNK_HEADER_LEN. rewrite swrap_small by (unfold in_srange; nia).
    rewrite (slice_advance img (pos + 12) (n * bs) data) by (done || nia).
    simpl default. unfold pad_to. rewrite length_take, length_drop, Nat.min_l by nia. rewrite Nat.sub_diag. simpl.
    by rewrite app_nil_r.
Qed.

Lemma disk_app e strs l1 l2 i : disk bs e strs (l1 ++ l2) i = disk bs e strs l1 i <|> disk bs e strs l2 i.
Proof. unfold disk. by rewrite content_app, fmap_or_else. Qed.

Lemma chunks_read_at e strs rest i : env_fd e fd = Some img -> Z.of_nat (length img) < 2 ^ 61 ->
  forall cs pos cur, 0 <= pos -> Forall (chunk_fits bs) cs -> drop (Z.to_nat pos) img = encode_chunks cs ++ rest ->
  disk bs e strs (chunks_read fd bs pos cur cs) i = chunks_at bs cur cs i.
Proof.
  intros Hfd Hlen. induction cs as [|c cs IH]; intros pos cur Hpos Hfit Hd; [done |].
  apply Forall_cons in Hfit as [Hc Hfit]. cbn [chunks_read chunks_at].
  change (encode_chunks (c :: cs)) with (encode_chunk c ++ encode_chunks cs) in Hd. rewrite <- app_assoc in Hd.
  rewrite disk_app, (chunk_read_at e strs pos cur c _ i Hfd Hpos Hlen Hc Hd), IH; [done | lia | done |].
  rewrite Z2Nat.inj_add, Nat2Z.id, <- drop_drop, Hd by lia. by rewrite drop_app_length.
Qed.

End Importing.

(** ** Round trip *)
Definition fill_ok (b : blk) : Prop := forall v, k_kind b = BACKED_BLOCK_FILL v -> in_range 32 v.

Lemma gap_fits bs from to : 0 <= from -> to < 2 ^ 31 -> Forall (chunk_fits bs) (gap_chunk from to).
Proof.
  intros H1 H2. unfold gap_chunk. destruct (Z.ltb_spec from to); [| constructor].
  constructor; [| constructor]. split; [simpl; lia | done].
Qed.

Lemma block_chunk_fits e strs bs b : 0 < bs -> writable e strs bs b -> fill_ok b -> chunk_fits bs (block_chunk e strs bs b).
Proof.
  intros Hbs (Hlen & Hlim & [d Hd]) Hf. destruct (aligned_bounds bs (k_len b) Hbs Hlen) as (Ha1 & Ha2 & Ha3).
  assert (Hpad : (forall v, k_kind b <> BACKED_BLOCK_FILL v) ->
    Z.of_nat (length (pad_to (aligned bs (k_len b)) (default [] (source e strs (k_kind b) (k_len b))))) = aligned bs (k_len b)).
  { intros Hk. rewrite Hd. simpl. unfold pad_to. rewrite length_app, length_replicate.
    assert (Z.of_nat (length d) = k_len b); [| lia].
    destruct (k_kind b) as [buf off | f off | f off | v]; cbn [source] in Hd; [| | | by destruct (Hk v)];
      repeat match type of Hd with (?x ≫= _) = Some _ => destruct x; [cbn [mbind option_bind] in Hd | done] end;
      by destruct (slice_bounds _ _ _ _ Hd). }
  assert (Ea : blocks_of bs (k_len b) * bs = aligned bs (k_len b)) by (unfold aligned; lia).
  split; [rewrite block_chunk_blocks; nia |].
  unfold block_chunk. destruct (k_kind b) eqn:Ek; [| | | split; [lia | by apply Hf]];
    (split; [lia | rewrite Hpad by done; lia]).
Qed.

Lemma chunks_from_fits e strs bs : 0 < bs -> forall l last, laid bs l -> starts_after last l ->
  (forall b, b ∈ l -> 0 <= k_block b < 2 ^ 31) -> 0 <= last ->
  Forall (writable e strs bs) l -> Forall fill_ok l -> Forall (chunk_fits bs) (chunks_from e strs bs last l).
Proof.
  intros Hbs. induction l as [|b l IH]; intros last Hl Hst Hb Hlast Hw Hf; [constructor |].
  apply Forall_cons in Hw as [Hwb Hw], Hf as [Hfb Hf]. destruct (laid_next bs b l Hl) as [Hl' Hst'].
  pose proof (Hb b ltac:(left)). cbn [chunks_from]. apply Forall_app. split; [apply gap_fits; lia |].
  constructor; [by apply block_chunk_fits |]. apply IH; try done; [intros c Hc; apply Hb; by right |].
  pose proof (blocks_nonneg bs Hbs (k_len b) ltac:(destruct Hwb; lia)). unfold end_of. lia.
Qed.

Lemma image_fits e h s l total : file_ok e h s l total -> Forall fill_ok (abs l) ->
  Forall (chunk_fits (sf_block_size s)) (image_chunks e (h_str h) (sf_block_size s) total (abs l)).
Proof.
  intros Hok Hf. destruct (file_ok_facts _ _ _ _ _ Hok) as (Hst & Hpos & _ & H0).
  destruct Hok as [Hbs Hwf Hl Hn Hw _ Ht].
  assert (Hpos' : forall b, b ∈ abs l -> 0 <= k_len b) by (intros b Hb; specialize (Hpos b Hb); lia).
  pose proof (last_end_ge _ (proj1 Hbs) _ _ Hl Hst Hpos').
  unfold image_chunks. apply Forall_app. split; [| apply gap_fits; lia].
  apply chunks_from_fits; try done; [lia |]. intros b Hb. split; [by apply Hn |].
  pose proof (last_end_max _ (proj1 Hbs) _ _ Hl Hst Hpos' b Hb) as Hend.
  pose proof (blocks_nonneg _ (proj1 Hbs) (k_len b) (Hpos' b Hb)). unfold end_of in Hend. lia.
Qed.


(** An image written with a checksum crashes a reader that does not check
    checksums: [sparse_file_import] with [crc] false dereferences the null
    checksum pointer when it reaches the trailing chunk. *)
Theorem sparse_import_crc_null e h s l total fd verbose : file_ok e h s l total -> allocs_ok h ->
  Forall fill_ok (abs l) ->
  separated None (image_chunks e (h_str h) (sf_block_size s) total (abs l)) ->
  exists kf h1, sparse_file_write file_ops e s true true (KFile [] 0 []) h = Ret ((0, kf), h1) /\
    forall f, Z.of_nat (length (k_bytes kf)) < 2 ^ 61 -> input (k_bytes kf) 0 f ->
      sparse_file_import true fd f verbose false h1 = Fault NullDeref.
Proof.
  intros Hok Ha Hfill Hsep. pose proof (image_fits e h s l total Hok Hfill) as Hfit.
  destruct (image_blocks e h s l total Hok) as [Hsum _].
  destruct (write_run file_ops k_bytes at_end app e h s l total true (KFile [] 0 []) Hok Ha ltac:(by split))
    as (kf & c & E & _ & Ek).
  exists kf, (with_script h (drop 3 (h_script h))). split; [exact E |]. intros f Hlen Hin.
  pose proof Hok as [Hbs Hwf _ _ _ _ Ht].
  set (cs := image_chunks e (h_str h) (sf_block_size s) total (abs l)) in *.
  destruct (import_run (k_bytes kf) fd (sf_block_size s) Hbs cs (Some c) [] (with_script h (drop 3 (h_script h))) f verbose)
    as (h' & s' & l' & f' & E' & _ & _ & _ & _ & _ & Hin'); try done.
  - by rewrite app_nil_r, Hsum.
  - lia.
  - by destruct (wf_fresh _ _ _ Hwf).
  - unfold allocs_ok. simpl. by apply Forall_drop.
  - rewrite E'. cbn [trailers read_chunks].
    destruct (read_all_spec (k_bytes kf) _ 12 f' (chunk_header_bytes (ChunkHeader CHUNK_TYPE_CRC32 0 0 (CHUNK_HEADER_LEN + 4)))
      (le_encode 4 c) Hin' ltac:(lia)) as (f2 & E2 & _); [| done |].
    { rewrite Ek. unfold image, crc_chunk. cbn [k_bytes app].
      set (hdr := image_header _ _ _). rewrite Z2Nat.inj_add, Nat2Z.id by lia.
      change (Z.to_nat 28) with (length hdr). rewrite <- drop_drop, drop_app_length. apply drop_app_length. }
    change CHUNK_HEADER_LEN with 12. unfold mbind, heapM_bind. rewrite (liftO_ok _ _ h' E2). reflexivity.
Qed.

(** Two files whose checksum is wrong when the image is read back, one with
    a gap and one with a fill of two blocks: the reader counts don't-care chunks
    as zeros and every block of a fill, the writer counts no gap and one block
    per fill. Importing with [crc] true fails. *)
Theorem sparse_crc_mismatch :
  let write_import (s : sparse_file) : heapM (Z * option sparse_file) :=
    '(ret, kf) ← sparse_file_write file_ops sx_env s true true (KFile [] 0 []);
    '(s', _) ← sparse_file_import true 3 (RFile (k_bytes kf) 0 []) false true;
    mret (ret, s') in
  (exists h, write_import (SparseFile 8 16 false (BBL None None 8)) empty_heap = Ret ((0, None), h)) /\
  (exists h, ('(_, s) ← sparse_file_add_fill (SparseFile 8 16 false (BBL None None 8)) 7 16 0; write_import s) empty_heap
    = Ret ((0, None), h)).
Proof. split; eexists; vm_compute; reflexivity. Qed.

(** ** Witnesses *)
Lemma sx_offsets : Forall offset_fits (abs sx_nodes).
Proof. repeat constructor; vm_compute; congruence. Qed.

Lemma sx_fills : Forall fill_ok (abs sx_nodes).
Proof.
  apply Forall_cons. split; [intros v Hv; injection Hv as <-; unfold in_range; lia |].
  apply Forall_cons. split; [done | constructor].
Qed.

Lemma sx_separated : separated None (image_chunks sx_env (h_str sx_heap) 8 6 (abs sx_nodes)).
Proof. vm_compute. repeat split; auto; right; congruence. Qed.


Lemma sparse_import_crc_null_witness : exists kf h1,
  sparse_file_write file_ops sx_env sx_file true true (KFile [] 0 []) sx_heap = Ret ((0, kf), h1) /\
  sparse_file_import true 9 (RFile (k_bytes kf) 0 []) true false h1 = Fault NullDeref.
Proof.
  destruct (sparse_import_crc_null sx_env sx_heap sx_file sx_nodes 6 9 true sx_ok ltac:(constructor) sx_fills sx_separated)
    as (kf & h1 & E & H). exists kf, h1. split; [exact E |].
  assert (Ek : k_bytes kf = match sparse_file_write file_ops sx_env sx_file true true (KFile [] 0 []) sx_heap with
    | Ret ((_, kf), _) => k_bytes kf | _ => [] end) by (by rewrite E).
  apply H; [rewrite Ek; vm_compute; reflexivity | by split_and!].
Defined.
