(* ===== verification/CString.v ===== *)
(** * C strings and number conversion

    Strings are the list of their bytes without the terminator. [strtoul] is
    the one of <stdlib.h> with a 64-bit [unsigned long]. *)

From S2P Require Import Prelude.

(** A string literal. *)
Fixpoint str (s : string) : bytes :=
  match s with
  | EmptyString => []
  | String c s' => Z.of_N (Ascii.N_of_ascii c) :: str s'
  end.

(** A string has no terminator inside. *)
Definition cstr_ok (s : bytes) : Prop := Forall (fun c => 0 < c < 256) s.

Definition isspace (c : Z) : bool := (c =? 32) || ((9 <=? c) && (c <=? 13)).
Definition isdigit (c : Z) : bool := (48 <=? c) && (c <=? 57).

Fixpoint skip_spaces (s : bytes) : bytes :=
  match s with
  | c :: s' => if isspace c then skip_spaces s' else s
  | [] => []
  end.

(** The value of a digit of bases up to 36. *)
Definition digit_val (c : Z) : Z :=
  if (48 <=? c) && (c <=? 57) then c - 48
  else if (97 <=? c) && (c <=? 122) then c - 87
  else if (65 <=? c) && (c <=? 90) then c - 55
  else 36.

Definition is_base_digit (base c : Z) : bool := digit_val c <? base.

(** The longest run of digits: its value and what follows. *)
Fixpoint read_digits (base acc : Z) (s : bytes) : Z * bytes :=
  match s with
  | c :: s' => if is_base_digit base c then read_digits base (acc * base + digit_val c) s' else (acc, s)
  | [] => (acc, [])
  end.

(** An optional sign. *)
Definition read_sign (s : bytes) : bool * bytes :=
  match s with
  | c :: s' => if c =? 45 then (true, s') else if c =? 43 then (false, s') else (false, s)
  | [] => (false, [])
  end.

(** An optional [0x] in front of a hexadecimal digit. *)
Definition skip_0x (s : bytes) : bytes :=
  match s with
  | z :: x :: c :: s' =>
      if (z =? 48) && ((x =? 120) || (x =? 88)) && is_base_digit 16 c then c :: s' else s
  | _ => s
  end.

Definition ULONG_MAX : Z := 2 ^ 64 - 1.

(** [strtoul(s, 0, base)] for bases 10 and 16 *)
Definition strtoul (s : bytes) (base : Z) : Z :=
  let '(neg, s) := read_sign (skip_spaces s) in
  let s := if base =? 16 then skip_0x s else s in
  let '(v, _) := read_digits base 0 s in
  if ULONG_MAX <? v then ULONG_MAX else if neg then u64 (- v) else v.

(** [strtol(s, 0, base)] for bases 8 and 10, and [atoi] *)
Definition LONG_MAX : Z := 2 ^ 63 - 1.
Definition strtol (s : bytes) (base : Z) : Z :=
  let '(neg, s) := read_sign (skip_spaces s) in
  let '(v, _) := read_digits base 0 s in
  let v := if neg then - v else v in
  if LONG_MAX <? v then LONG_MAX else if v <? - LONG_MAX - 1 then - LONG_MAX - 1 else v.
Definition atoi (s : bytes) : Z := i32 (strtol s 10).

(** [strcmp] as an order: is the first string before or equal to the second? *)
Fixpoint strle (a b : bytes) : bool :=
  match a, b with
  | [], _ => true
  | _ :: _, [] => false
  | x :: a', y :: b' => if x =? y then strle a' b' else x <? y
  end.

Lemma strle_refl a : strle a a = true.
Proof. induction a as [|x a IH]; [done |]. cbn [strle]. by rewrite Z.eqb_refl. Qed.

Lemma strle_total a b : strle a b = true \/ strle b a = true.
Proof.
  revert b. induction a as [|x a IH]; intros [|y b]; [by left.. | by right |]. cbn [strle]. rewrite (Z.eqb_sym y x).
  destruct (Z.eqb_spec x y); [apply IH |]. rewrite !Z.ltb_lt. lia.
Qed.

Lemma strle_antisym a b : strle a b = true -> strle b a = true -> a = b.
Proof.
  revert b. induction a as [|x a IH]; intros [|y b] H1 H2; [done.. |]. cbn [strle] in *. rewrite (Z.eqb_sym y x) in H2.
  destruct (Z.eqb_spec x y) as [-> | Hne]; [f_equal; by apply IH |]. apply Z.ltb_lt in H1, H2. lia.
Qed.

Lemma strle_trans a b c : strle a b = true -> strle b c = true -> strle a c = true.
Proof.
  revert b c. induction a as [|x a IH]; intros [|y b] [|z c] H1 H2; try done. cbn [strle] in *.
  destruct (Z.eqb_spec x y) as [-> | H]; destruct (Z.eqb_spec y z) as [-> | H']; zbool.
  - by apply (IH b).
  - by apply Z.ltb_lt.
  - destruct (Z.eqb_spec x z); [lia | by apply Z.ltb_lt].
  - destruct (Z.eqb_spec x z); [lia | apply Z.ltb_lt; lia].
Qed.

Lemma strle_false a b : strle a b = false -> strle b a = true.
Proof. intros H. destruct (strle_total a b) as [E | E]; [congruence | done]. Qed.

(** [strtok] with a set of delimiters: the next token and what follows it. *)
Fixpoint skip_delims (delim : Z -> bool) (s : bytes) : bytes :=
  match s with
  | c :: s' => if delim c then skip_delims delim s' else s
  | [] => []
  end.
Fixpoint take_token (delim : Z -> bool) (s : bytes) : bytes * bytes :=
  match s with
  | c :: s' => if delim c then ([], s') else let '(t, r) := take_token delim s' in (c :: t, r)
  | [] => ([], [])
  end.
Definition strtok (delim : Z -> bool) (s : bytes) : option (bytes * bytes) :=
  match skip_delims delim s with
  | [] => None
  | s' => Some (take_token delim s')
  end.

(** ["%0nx"] of a number of [n] digits *)
Definition hex_digit (x : Z) : Z := if x <? 10 then 48 + x else 87 + x.
Fixpoint hex (n : nat) (x : Z) : bytes :=
  match n with
  | O => []
  | S n' => hex n' (x / 16) ++ [hex_digit (x mod 16)]
  end.

(** What [strcpy] and [strncpy] leave in an array they write at its front. *)
Definition strcpied (dst src : bytes) : bytes := src ++ [0] ++ drop (S (length src)) dst.
Definition strncpied (dst src : bytes) (n : nat) : bytes :=
  take n (src ++ replicate n 0) ++ drop n dst.

(** [strcpy] writes the string and its NUL, [strncpy] exactly [n] bytes: both
    have to fit. *)
Definition strcpy (dst src : bytes) : outcome bytes :=
  if (length src <? length dst)%nat then Ret (strcpied dst src) else Fault OutOfBounds.
Definition strncpy (dst src : bytes) (n : nat) : outcome bytes :=
  if (n <=? length dst)%nat then Ret (strncpied dst src n) else Fault OutOfBounds.

(** The string at the front of an array. *)
Fixpoint cstring (a : bytes) : bytes :=
  match a with
  | c :: a' => if c =? 0 then [] else c :: cstring a'
  | [] => []
  end.

Lemma cstring_app s a : cstr_ok s -> cstring (s ++ 0 :: a) = s.
Proof.
  induction 1 as [|c s Hc Hs IH]; [done |]. cbn [app cstring]. destruct (Z.eqb_spec c 0); [lia |]. by rewrite IH.
Qed.

Lemma cstring_nz s : cstr_ok s -> cstring s = s.
Proof.
  induction 1 as [|c s Hc Hs IH]; [done |]. cbn [cstring]. destruct (Z.eqb_spec c 0); [lia |]. by rewrite IH.
Qed.

Lemma cstring_zeros s n : cstr_ok s -> cstring (s ++ replicate n 0) = s.
Proof.
  intros Hs. destruct n as [|n]; [rewrite app_nil_r; by apply cstring_nz |]. cbn [replicate]. by apply cstring_app.
Qed.

Lemma strcpy_fits dst src : (length src < length dst)%nat -> strcpy dst src = Ret (strcpied dst src).
Proof. intros H. unfold strcpy. by apply Nat.ltb_lt in H as ->. Qed.

Lemma strncpy_fits dst src n : (n <= length dst)%nat -> strncpy dst src n = Ret (strncpied dst src n).
Proof. intros H. unfold strncpy. by apply Nat.leb_le in H as ->. Qed.

Lemma strcpied_length dst src : (length src < length dst)%nat -> length (strcpied dst src) = length dst.
Proof. intros. unfold strcpied. rewrite !length_app, length_drop. simpl. lia. Qed.

Lemma strncpied_length dst src n : (n <= length dst)%nat -> length (strncpied dst src n) = length dst.
Proof.
  intros. unfold strncpied. rewrite length_app, length_take, length_app, length_replicate, length_drop. lia.
Qed.

Lemma strcpied_cstring dst src : cstr_ok src -> cstring (strcpied dst src) = src.
Proof. intros. unfold strcpied. by apply cstring_app. Qed.

Lemma cstr_bytes_ok s : cstr_ok s -> bytes_ok s.
Proof. intros H. apply (Forall_impl _ _ _ H). intros c Hc. unfold in_range. lia. Qed.

Lemma cstr_ok_take n s : cstr_ok s -> cstr_ok (take n s).
Proof. apply Forall_take. Qed.

Lemma cstr_ok_drop n s : cstr_ok s -> cstr_ok (drop n s).
Proof. apply Forall_drop. Qed.

(** A field of a record laid out as the concatenation of its fields. *)
Lemma concat_field (fs : list bytes) rest i x off : fs !! i = Some x -> off = length (concat (take i fs)) ->
  take (length x) (drop off (concat fs ++ rest)) = x.
Proof.
  intros Hx ->. rewrite <- (take_drop_middle fs i x Hx) at 2. rewrite concat_app. cbn [concat].
  rewrite <- !app_assoc, drop_app_length. apply take_app_length.
Qed.
