(* ===== verification/MkBootImg.v ===== *)
(** * mkbootimg

    Models src/system/core/mkbootimg/mkbootimg.c and bootimg.h. Files are
    looked up by name in an environment that says how each call on them ends;
    each [write] takes the next element of a script, the most bytes it accepts
    (negative: it fails); past its end writes are complete. The [unlink] of
    the file just created succeeds. *)

From S2P Require Import Prelude.
From S2P Require Import Sha.
From S2P Require Import CString.

Definition BOOT_MAGIC : bytes := str "ANDROID!".
Definition BOOT_NAME_SIZE : nat := 16.
Definition BOOT_ARGS_SIZE : nat := 512.
Definition BOOT_EXTRA_ARGS_SIZE : nat := 1024.

(** [id] is kept as the 32 bytes it has in memory. *)
Record boot_img_hdr := Hdr {
  magic : bytes;
  kernel_size : Z;
  kernel_addr : Z;
  ramdisk_size : Z;
  ramdisk_addr : Z;
  second_size : Z;
  second_addr : Z;
  tags_addr : Z;
  page_size : Z;
  unused : bytes;
  name : bytes;
  cmdline : bytes;
  id : bytes;
  extra_cmdline : bytes
}.

Definition le32 (x : Z) : bytes := le_encode 4 x.

(** The packed struct in memory. *)
Definition hdr_bytes (h : boot_img_hdr) : bytes :=
  magic h ++ le32 (kernel_size h) ++ le32 (kernel_addr h) ++ le32 (ramdisk_size h) ++ le32 (ramdisk_addr h)
  ++ le32 (second_size h) ++ le32 (second_addr h) ++ le32 (tags_addr h) ++ le32 (page_size h) ++ unused h
  ++ name h ++ cmdline h ++ id h ++ extra_cmdline h.

Definition SIZEOF_HDR : Z := 1632.

(** ** Input files *)
Record infile := mk_infile {
  f_content : bytes;
  f_seek : bool;      (* both lseek calls succeed *)
  f_malloc : bool;    (* the buffer is allocated *)
  f_read : Z          (* the most bytes read returns; negative: it fails *)
}.

Definition env := bytes -> option infile.

Definition load_file (files : env) (fn : bytes) : option bytes :=
  match files fn with
  | None => None
  | Some f =>
      if negb (f_seek f) then None else
      let sz := i32 (Z.of_nat (length (f_content f))) in
      if sz <? 0 then None else
      if negb (f_malloc f) then None else
      let got := if f_read f <? 0 then -1 else Z.min (f_read f) sz in
      if negb (got =? sz) then None else
      Some (take (Z.to_nat sz) (f_content f))
  end.

(** ** Output *)

(** The file behind [fd]: what was written so far, how the next writes go, and
    whether the output path names it. *)
Record output := mk_output { o_data : bytes; o_script : list Z; o_linked : bool }.

(** Before [open] this run has no output file. *)
Definition no_output (script : list Z) : output := mk_output [] script false.

(** [open(bootimg, O_CREAT | O_TRUNC | O_WRONLY, 0644)] and [unlink(bootimg)] *)
Definition open_output (o : output) : output := mk_output [] (o_script o) true.
Definition unlink_output (o : output) : output := mk_output (o_data o) (o_script o) false.

(** [write(fd, data, n)]: did it return [n]? *)
Definition write (data : bytes) (o : output) : bool * output :=
  match o_script o with
  | [] => (true, mk_output (o_data o ++ data) [] (o_linked o))
  | k :: s =>
      if k <? 0 then (false, mk_output (o_data o) s (o_linked o))
      else (Z.of_nat (length data) <=? k, mk_output (o_data o ++ take (Z.to_nat k) data) s (o_linked o))
  end.

Definition PADDING_SIZE : Z := 16384.

(** The static array [padding] is 16384 bytes long. *)
Definition write_padding (pagesize itemsize : Z) (o : output) : outcome (Z * output) :=
  let pagemask := u32 (pagesize - 1) in
  if Z.land itemsize pagemask =? 0 then Ret (0, o) else
  let count := u32 (pagesize - Z.land itemsize pagemask) in
  if PADDING_SIZE <? count then Fault OutOfBounds else
  let '(ok, o) := write (replicate (Z.to_nat count) 0) o in
  Ret (if (ok : bool) then 0 else -1, o).

(** ** Arguments *)
Record opts := mk_opts {
  kernel_fn : option bytes;
  ramdisk_fn : option bytes;
  second_fn : option bytes;
  o_cmdline : bytes;
  o_bootimg : option bytes;
  o_board : bytes;
  o_pagesize : Z;
  base : Z;
  kernel_offset : Z;
  ramdisk_offset : Z;
  second_offset : Z;
  tags_offset : Z;
  get_id : bool
}.

Definition default_opts : opts :=
  mk_opts None None None [] None [] 2048 0x10000000 0x00008000 0x01000000 0x00f00000 0x00000100 false.

Definition good_pagesize (p : Z) : bool := (p =? 2048) || (p =? 4096) || (p =? 8192) || (p =? 16384).

(** The end of main: its exit status, the file it leaves at the output path
    (none when it made none or removed it) and what it prints on stdout. *)
Record result := mk_result { r_code : Z; r_image : option bytes; r_stdout : bytes }.

Definition exit_with (code : Z) (out : output) (stdout : bytes) : result :=
  mk_result code (if o_linked out then Some (o_data out) else None) stdout.

(** [return] before the output is opened *)
Definition fail_with (code : Z) : result := exit_with code (no_output []) [].
Definition usage : result := fail_with 1.

(** One option with its value. *)
Definition set_opt (arg val : bytes) (o : opts) : opts + result :=
  let '(mk_opts kf rf sf cl bi bo ps ba ko ro so ta gi) := o in
  if bool_decide (arg = str "--output") || bool_decide (arg = str "-o") then inl (mk_opts kf rf sf cl (Some val) bo ps ba ko ro so ta gi)
  else if bool_decide (arg = str "--kernel") then inl (mk_opts (Some val) rf sf cl bi bo ps ba ko ro so ta gi)
  else if bool_decide (arg = str "--ramdisk") then inl (mk_opts kf (Some val) sf cl bi bo ps ba ko ro so ta gi)
  else if bool_decide (arg = str "--second") then inl (mk_opts kf rf (Some val) cl bi bo ps ba ko ro so ta gi)
  else if bool_decide (arg = str "--cmdline") then inl (mk_opts kf rf sf val bi bo ps ba ko ro so ta gi)
  else if bool_decide (arg = str "--base") then inl (mk_opts kf rf sf cl bi bo ps (u32 (strtoul val 16)) ko ro so ta gi)
  else if bool_decide (arg = str "--kernel_offset") then inl (mk_opts kf rf sf cl bi bo ps ba (u32 (strtoul val 16)) ro so ta gi)
  else if bool_decide (arg = str "--ramdisk_offset") then inl (mk_opts kf rf sf cl bi bo ps ba ko (u32 (strtoul val 16)) so ta gi)
  else if bool_decide (arg = str "--second_offset") then inl (mk_opts kf rf sf cl bi bo ps ba ko ro (u32 (strtoul val 16)) ta gi)
  else if bool_decide (arg = str "--tags_offset") then inl (mk_opts kf rf sf cl bi bo ps ba ko ro so (u32 (strtoul val 16)) gi)
  else if bool_decide (arg = str "--board") then inl (mk_opts kf rf sf cl bi val ps ba ko ro so ta gi)
  else if bool_decide (arg = str "--pagesize") then
    let ps := u32 (strtoul val 10) in
    if good_pagesize ps then inl (mk_opts kf rf sf cl bi bo ps ba ko ro so ta gi) else inr (fail_with (-1))
  else inr usage.

(** [while(argc > 0)] *)
Fixpoint parse_args (argv : list bytes) (o : opts) : opts + result :=
  match argv with
  | [] => inl o
  | arg :: rest =>
      if bool_decide (arg = str "--id") then
        let '(mk_opts kf rf sf cl bi bo ps ba ko ro so ta _) := o in
        parse_args rest (mk_opts kf rf sf cl bi bo ps ba ko ro so ta true)
      else match rest with
      | [] => inr usage
      | val :: rest' =>
          match set_opt arg val o with
          | inl o' => parse_args rest' o'
          | inr r => inr r
          end
      end
  end.

(** ** The header *)

(** The two fields that hold the command line. *)
Definition set_cmdline (s : bytes) : outcome (bytes * bytes) :=
  cl ← strncpy (replicate BOOT_ARGS_SIZE 0) s (BOOT_ARGS_SIZE - 1);
  cl ← st_mem cl (Z.of_nat BOOT_ARGS_SIZE - 1) 0;
  let extra := replicate BOOT_EXTRA_ARGS_SIZE 0 in
  if (BOOT_ARGS_SIZE - 1 <=? length s)%nat then
    extra ← strncpy extra (drop (BOOT_ARGS_SIZE - 1) s) BOOT_EXTRA_ARGS_SIZE;
    Ret (cl, extra)
  else Ret (cl, extra).

(** The hash of the contents. [ctx0] is the uninitialised local. *)
Definition image_id (ctx0 : HASH_CTX) (kernel ramdisk second : bytes) : outcome bytes :=
  let ctx := SHA_init ctx0 in
  let ctx := SHA_update ctx kernel in
  let ctx := SHA_update ctx (le32 (Z.of_nat (length kernel))) in
  let ctx := SHA_update ctx ramdisk in
  let ctx := SHA_update ctx (le32 (Z.of_nat (length ramdisk))) in
  let ctx := SHA_update ctx second in
  let ctx := SHA_update ctx (le32 (Z.of_nat (length second))) in
  ctx ← SHA_final ctx;
  Ret (take 20 (ctx_buf ctx) ++ replicate 12 0).

Definition make_hdr (o : opts) (name cl extra kernel ramdisk second sha : bytes) : boot_img_hdr :=
  Hdr BOOT_MAGIC
    (Z.of_nat (length kernel)) (u32 (base o + kernel_offset o))
    (Z.of_nat (length ramdisk)) (u32 (base o + ramdisk_offset o))
    (Z.of_nat (length second)) (u32 (base o + second_offset o))
    (u32 (base o + tags_offset o)) (o_pagesize o) (replicate 8 0)
    name cl sha extra.

(** ** Writing the image *)

(** [if(write(..) != ..) goto fail; if(write_padding(..)) goto fail;] *)
Definition write_item (pagesize : Z) (data : bytes) (o : output) : outcome (bool * output) :=
  let '(ok, o) := write data o in
  if negb (ok : bool) then Ret (false, o) else
  '(r, o) ← write_padding pagesize (Z.of_nat (length data)) o;
  Ret (r =? 0, o).

Definition write_image (pagesize : Z) (h : boot_img_hdr) (kernel ramdisk : bytes) (second : option bytes) (o : output)
    : outcome (bool * output) :=
  '(ok, o) ← write_item pagesize (hdr_bytes h) o;
  if negb (ok : bool) then Ret (false, o) else
  '(ok, o) ← write_item pagesize kernel o;
  if negb (ok : bool) then Ret (false, o) else
  '(ok, o) ← write_item pagesize ramdisk o;
  if negb (ok : bool) then Ret (false, o) else
  match second with
  | Some second => write_item pagesize second o
  | None => Ret (true, o)
  end.

Definition print_id (id : bytes) : bytes := str "0x" ++ concat (map (hex 2) id) ++ [10].

(** A file that is optional on the command line: outer [None], it could not be
    loaded. *)
Definition load_opt (files : env) (fn : option bytes) : option (option bytes) :=
  match fn with
  | None => Some None
  | Some fn =>
      match load_file files fn with
      | None => None
      | Some d => Some (Some d)
      end
  end.

(** [creat]: can the output be opened; [script]: how its writes go. *)
Definition main (ctx0 : HASH_CTX) (files : env) (creat : bytes -> bool) (script : list Z) (argv : list bytes) : outcome result :=
  match parse_args argv default_opts with
  | inr r => Ret r
  | inl o =>
      match o_bootimg o, kernel_fn o with
      | None, _ => Ret usage
      | _, None => Ret usage
      | Some bootimg, Some kernel_fn =>
          if (BOOT_NAME_SIZE <=? length (o_board o))%nat then Ret usage else
          name ← strcpy (replicate BOOT_NAME_SIZE 0) (o_board o);
          if (BOOT_ARGS_SIZE + BOOT_EXTRA_ARGS_SIZE - 2 <? length (o_cmdline o))%nat then Ret (fail_with 1) else
          '(cl, extra) ← set_cmdline (o_cmdline o);
          match load_file files kernel_fn with
          | None => Ret (fail_with 1)
          | Some kernel =>
          match load_opt files (ramdisk_fn o) with
          | None => Ret (fail_with 1)
          | Some ramdisk =>
          match load_opt files (second_fn o) with
          | None => Ret (fail_with 1)
          | Some second =>
              let ramdisk := default [] ramdisk in
              sha ← image_id ctx0 kernel ramdisk (default [] second);
              let h := make_hdr o name cl extra kernel ramdisk (default [] second) sha in
              if negb (creat bootimg) then Ret (fail_with 1) else
              '(ok, out) ← write_image (o_pagesize o) h kernel ramdisk second (open_output (no_output script));
              if (ok : bool) then Ret (exit_with 0 out (if get_id o then print_id (id h) else []))
              else Ret (exit_with 1 (unlink_output out) [])
          end end end
      end
  end.
