(* ===== verification/MkBootImgSpec.v ===== *)
(** * What a boot image holds

    The layout documented in bootimg.h as a reader of images, and the proofs
    that [main] of mkbootimg never leaves its buffers, leaves an image only
    when it succeeds, and that the reader gets back from the image what went
    in. *)

From S2P Require Import Prelude.
From S2P Require Import Sha.
From S2P Require Import ShaSpec.
From S2P Require Import CString.
From S2P Require Import MkBootImg.

(** ** The reader of bootimg.h *)
Definition slice (img : bytes) (off len : Z) : bytes := take (Z.to_nat len) (drop (Z.to_nat off) img).
Definition word_at (img : bytes) (off : Z) : Z := le_decode (slice img off 4).

Definition read_hdr (img : bytes) : boot_img_hdr :=
  Hdr (slice img 0 8) (word_at img 8) (word_at img 12) (word_at img 16) (word_at img 20) (word_at img 24) (word_at img 28)
    (word_at img 32) (word_at img 36) (slice img 40 8) (slice img 48 16) (slice img 64 512) (slice img 576 32) (slice img 608 1024).

(** [n = (kernel_size + page_size - 1) / page_size] *)
Definition pages (ps size : Z) : Z := (size + ps - 1) / ps.

Definition image_kernel (img : bytes) : bytes :=
  let h := read_hdr img in slice img (page_size h) (kernel_size h).
Definition image_ramdisk (img : bytes) : bytes :=
  let h := read_hdr img in slice img ((1 + pages (page_size h) (kernel_size h)) * page_size h) (ramdisk_size h).
Definition image_second (img : bytes) : bytes :=
  let h := read_hdr img in
  slice img ((1 + pages (page_size h) (kernel_size h) + pages (page_size h) (ramdisk_size h)) * page_size h) (second_size h).

(** The boot loader's command line: both fields, as strings. *)
Definition image_cmdline (img : bytes) : bytes :=
  let h := read_hdr img in cstring (cmdline h) ++ cstring (extra_cmdline h).

(** ** Options *)
Definition opts_ok (o : opts) : Prop :=
  good_pagesize (o_pagesize o) = true /\ cstr_ok (o_cmdline o) /\ cstr_ok (o_board o) /\
  in_range 32 (base o) /\ in_range 32 (kernel_offset o) /\ in_range 32 (ramdisk_offset o) /\
  in_range 32 (second_offset o) /\ in_range 32 (tags_offset o).

Lemma default_opts_ok : opts_ok default_opts.
Proof. repeat split; try constructor; done. Qed.

(** Case analysis on the next string comparison in [E]. *)
Ltac next_opt E :=
  match type of E with
  | (if ?b then _ else _) = _ => let Eb := fresh "Eb" in destruct b eqn:Eb
  end.

Lemma set_opt_ok arg val o o' : opts_ok o -> cstr_ok val -> set_opt arg val o = inl o' -> opts_ok o'.
Proof.
  destruct o as [kf rf sf cl bi bo ps ba ko ro so ta gi]. intros Ho Hv E. unfold set_opt in E. cbv zeta in E. unfold opts_ok in Ho. simpl in Ho.
  assert (Hw : forall x, in_range 32 (u32 x)) by (intros; by apply wrap_range).
  repeat next_opt E; try done; injection E as <-; unfold opts_ok; simpl; split_and!; tauto || apply Hw.
Qed.

Lemma parse_args_ok n : forall argv o o', (length argv <= n)%nat -> Forall cstr_ok argv -> opts_ok o ->
  parse_args argv o = inl o' -> opts_ok o'.
Proof.
  induction n as [|n IH]; intros [|arg argv] o o' Hl Ha Ho E; cbn [parse_args] in E; try (simpl in Hl; lia); [by simplify_eq.. |].
  apply Forall_cons in Ha as [_ Ha]. simpl in Hl. destruct (bool_decide _).
  - destruct o. apply (IH argv _ _ ltac:(lia) Ha) in E; [done |]. done.
  - destruct argv as [|val argv]; [done |]. apply Forall_cons in Ha as [Hv Ha]. simpl in Hl.
    destruct (set_opt arg val o) as [o1 |] eqn:Es; [| done]. apply (IH argv o1 _ ltac:(lia) Ha) in E; [done |].
    by apply (set_opt_ok arg val o).
Qed.

(** A failed parse leaves no image. *)
Lemma set_opt_err arg val o r : set_opt arg val o = inr r -> r_image r = None /\ r_code r <> 0.
Proof.
  destruct o as [kf rf sf cl bi bo ps ba ko ro so ta gi]. intros E. unfold set_opt in E. cbv zeta in E.
  repeat next_opt E; by simplify_eq.
Qed.

Lemma parse_args_err n : forall argv o r, (length argv <= n)%nat -> parse_args argv o = inr r -> r_image r = None /\ r_code r <> 0.
Proof.
  induction n as [|n IH]; intros [|arg argv] o r Hl E; cbn [parse_args] in E; try (simpl in Hl; lia); [done.. |].
  simpl in Hl. destruct (bool_decide _).
  - destruct o. by apply (IH argv _ _ ltac:(lia)) in E.
  - destruct argv as [|val argv]; [by simplify_eq |]. simpl in Hl.
    destruct (set_opt arg val o) as [o1 |] eqn:Es; [by apply (IH argv o1 _ ltac:(lia)) in E |].
    injection E as <-. by apply set_opt_err in Es.
Qed.

(** ** Loading *)
Definition env_ok (files : env) : Prop := forall fn f, files fn = Some f -> bytes_ok (f_content f).

Lemma load_file_ok files fn d : env_ok files -> load_file files fn = Some d -> bytes_ok d /\ Z.of_nat (length d) < 2 ^ 31.
Proof.
  intros He E. unfold load_file in E. destruct (files fn) as [f|] eqn:Ef; [| done]. apply He in Ef.
  pose proof (swrap_range 32 (Z.of_nat (length (f_content f))) ltac:(lia)) as Hr. unfold in_srange in Hr.
  change (2 ^ (32 - 1)) with (2 ^ 31) in Hr.
  repeat (case_match; try done); simplify_eq; (split; [by apply Forall_take | rewrite length_take; lia]).
Qed.

Lemma load_opt_ok files fn d : env_ok files -> load_opt files fn = Some d ->
  bytes_ok (default [] d) /\ Z.of_nat (length (default [] d)) < 2 ^ 31.
Proof.
  intros He E. unfold load_opt in E. destruct fn as [fn|]; [| simplify_eq; split; [constructor | simpl; lia]].
  destruct (load_file files fn) as [d'|] eqn:El; [| done]. injection E as <-. by apply (load_file_ok files fn).
Qed.

(** ** Writing *)
Definition pad (ps : Z) (d : bytes) : bytes := d ++ replicate (Z.to_nat ((- Z.of_nat (length d)) mod ps)) 0.

Lemma pad_length ps d : 0 < ps -> Z.of_nat (length (pad ps d)) = pages ps (Z.of_nat (length d)) * ps.
Proof.
  intros Hp. unfold pad, pages. rewrite length_app, length_replicate. pose proof (Z.mod_pos_bound (- Z.of_nat (length d)) ps Hp).
  rewrite Nat2Z.inj_add, Z2Nat.id by lia. set (L := Z.of_nat (length d)) in *.
  pose proof (Z.div_mod (L + ps - 1) ps ltac:(lia)). pose proof (Z.mod_pos_bound (L + ps - 1) ps Hp).
  rewrite <- (Z.mod_unique_pos (- L) ps (- ((L + ps - 1) / ps)) (ps * ((L + ps - 1) / ps) - L)); lia.
Qed.

Lemma good_pagesize_pow ps : good_pagesize ps = true -> exists k, 11 <= k <= 14 /\ ps = 2 ^ k.
Proof.
  unfold good_pagesize. rewrite !orb_true_iff, !Z.eqb_eq.
  intros [[[-> | ->] | ->] | ->]; [exists 11 | exists 12 | exists 13 | exists 14]; done.
Qed.

Lemma write_complete data o o' : write data o = (true, o') -> o_data o' = o_data o ++ data.
Proof.
  unfold write. destruct (o_script o) as [|k s]; [by intros [= <-] |]. destruct (k <? 0) eqn:Ek; [done |].
  intros [= E <-]. zbool. simpl. by rewrite take_ge by lia.
Qed.

Lemma write_linked data o : o_linked (write data o).2 = o_linked o.
Proof. unfold write. by repeat case_match. Qed.

Lemma write_padding_linked ps size o r o' : write_padding ps size o = Ret (r, o') -> o_linked o' = o_linked o.
Proof.
  unfold write_padding. cbv zeta. case_match; [by intros [= <- <-] |]. case_match; [done |].
  pose proof (write_linked (replicate (Z.to_nat (u32 (ps - Z.land size (u32 (ps - 1))))) 0) o) as Hw.
  destruct (write _ o) as [ok o1]. by intros [= <- <-].
Qed.

Lemma write_item_linked ps d o ok o' : write_item ps d o = Ret (ok, o') -> o_linked o' = o_linked o.
Proof.
  unfold write_item. pose proof (write_linked d o) as Hw. destruct (write d o) as [ok1 o1]. simpl in Hw.
  destruct ok1; cbn [negb]; [| by intros [= <- <-]]. destruct (write_padding _ _ _) as [[r o2]| |] eqn:Ep; try done.
  rewrite bind_ret. intros [= <- <-]. by rewrite (write_padding_linked _ _ _ _ _ Ep).
Qed.

Lemma write_image_linked ps h kernel ramdisk second o ok o' :
  write_image ps h kernel ramdisk second o = Ret (ok, o') -> o_linked o' = o_linked o.
Proof.
  unfold write_image. intros E.
  repeat match type of E with
  | (_ ← write_item ?ps ?d ?o; _) = _ =>
      let Ew := fresh "Ew" in destruct (write_item ps d o) as [[[|] ?]| |] eqn:Ew; try done; apply write_item_linked in Ew;
      rewrite bind_ret in E; cbn [negb] in E
  | match ?s with Some _ => _ | None => _ end = _ => destruct s
  | write_item _ _ _ = _ => apply write_item_linked in E
  | Ret _ = Ret _ => injection E as <- <-
  end; congruence.
Qed.

Lemma write_padding_spec ps (d : bytes) o : good_pagesize ps = true ->
  exists r o', write_padding ps (Z.of_nat (length d)) o = Ret (r, o') /\
    (r = 0 -> o_data o' = o_data o ++ replicate (Z.to_nat ((- Z.of_nat (length d)) mod ps)) 0) /\
    (o_script o = [] -> r = 0 /\ o_script o' = []).
Proof.
  intros Hps. destruct (good_pagesize_pow ps Hps) as (k & Hk & ->). unfold write_padding.
  assert (Hb : 2048 <= 2 ^ k <= 16384).
  { change 2048 with (2 ^ 11). change 16384 with (2 ^ 14). split; apply Z.pow_le_mono_r; lia. }
  rewrite (wrap_small 32 (2 ^ k - 1)) by (unfold in_range; lia). rewrite land_ones_mod by lia.
  pose proof (Z.mod_pos_bound (Z.of_nat (length d)) (2 ^ k) ltac:(lia)) as Hm.
  destruct (Z.eqb_spec (Z.of_nat (length d) mod 2 ^ k) 0) as [E | E].
  - exists 0, o. rewrite Z.mod_opp_l_z by lia. simpl. rewrite app_nil_r. auto.
  - rewrite Z.mod_opp_l_nz by lia. rewrite wrap_small by (unfold in_range; lia). unfold PADDING_SIZE.
    destruct (Z.ltb_spec 16384 (2 ^ k - Z.of_nat (length d) mod 2 ^ k)); [lia |].
    destruct (write _ o) as [ok o'] eqn:Ew. exists (if ok then 0 else -1), o'. split; [done |]. split.
    + destruct ok; [| done]. intros _. by apply write_complete.
    + intros Es. unfold write in Ew. rewrite Es in Ew. by injection Ew as <- <-.
Qed.

Lemma write_item_spec ps d o : good_pagesize ps = true ->
  exists ok o', write_item ps d o = Ret (ok, o') /\ (ok = true -> o_data o' = o_data o ++ pad ps d) /\
    (o_script o = [] -> ok = true /\ o_script o' = []).
Proof.
  intros Hps. unfold write_item. destruct (write d o) as [ok o1] eqn:Ew. destruct ok; cbn [negb].
  - destruct (write_padding_spec ps d o1 Hps) as (r & o' & -> & H1 & H2). rewrite bind_ret.
    exists (r =? 0), o'. split; [done |]. split.
    + intros E. zbool. rewrite (H1 E), (write_complete _ _ _ Ew). unfold pad. by rewrite app_assoc.
    + intros Es. unfold write in Ew. rewrite Es in Ew. injection Ew as <-. destruct H2 as [-> H2]; done.
  - exists false, o1. split; [done |]. split; [done |]. intros Es. unfold write in Ew. by rewrite Es in Ew.
Qed.

Definition image (ps : Z) (h : boot_img_hdr) (kernel ramdisk : bytes) (second : option bytes) : bytes :=
  pad ps (hdr_bytes h) ++ pad ps kernel ++ pad ps ramdisk ++ match second with Some s => pad ps s | None => [] end.

Lemma write_image_spec ps h kernel ramdisk second script : good_pagesize ps = true ->
  exists ok o', write_image ps h kernel ramdisk second (open_output (no_output script)) = Ret (ok, o') /\
    (ok = true -> o_data o' = image ps h kernel ramdisk second) /\ (script = [] -> ok = true).
Proof.
  intros Hps. unfold write_image, image.
  destruct (write_item_spec ps (hdr_bytes h) (open_output (no_output script)) Hps) as (ok1 & o1 & -> & A1 & B1). rewrite bind_ret. simpl in A1, B1.
  destruct ok1; cbn [negb]; [| exists false, o1; split; [done |]; split; [done | intros E; by destruct (B1 E)]]. specialize (A1 eq_refl).
  destruct (write_item_spec ps kernel o1 Hps) as (ok2 & o2 & -> & A2 & B2). rewrite bind_ret.
  destruct ok2; cbn [negb]; [| exists false, o2; split; [done |]; split; [done | intros E; by destruct (B2 (proj2 (B1 E)))]]. specialize (A2 eq_refl).
  destruct (write_item_spec ps ramdisk o2 Hps) as (ok3 & o3 & -> & A3 & B3). rewrite bind_ret.
  destruct ok3; cbn [negb]; [| exists false, o3; split; [done |]; split; [done | intros E; by destruct (B3 (proj2 (B2 (proj2 (B1 E)))))]]. specialize (A3 eq_refl).
  destruct second as [second|].
  - destruct (write_item_spec ps second o3 Hps) as (ok4 & o4 & -> & A4 & B4). exists ok4, o4. split; [done |]. split.
    + intros E. rewrite (A4 E), A3, A2, A1. by rewrite <- !app_assoc.
    + intros E. by destruct (B4 (proj2 (B3 (proj2 (B2 (proj2 (B1 E))))))).
  - exists true, o3. split; [done |]. split; [| done]. intros _. by rewrite A3, A2, A1, app_nil_r, <- !app_assoc.
Qed.

(** ** Reading back *)
Lemma slice_concat (fs : list bytes) rest i x off len : fs !! i = Some x ->
  off = Z.of_nat (length (concat (take i fs))) -> len = Z.of_nat (length x) -> slice (concat fs ++ rest) off len = x.
Proof.
  intros Hx -> ->. unfold slice. rewrite !Nat2Z.id. by apply (concat_field _ _ i).
Qed.

Lemma slice_app a x rest off len : off = Z.of_nat (length a) -> len = Z.of_nat (length x) -> slice (a ++ x ++ rest) off len = x.
Proof. intros -> ->. unfold slice. rewrite !Nat2Z.id, drop_app_length. apply take_app_length. Qed.

Record hdr_ok (h : boot_img_hdr) : Prop := mk_hdr_ok {
  ho_magic : length (magic h) = 8%nat;
  ho_unused : length (unused h) = 8%nat;
  ho_name : length (name h) = 16%nat;
  ho_cmdline : length (cmdline h) = 512%nat;
  ho_id : length (id h) = 32%nat;
  ho_extra : length (extra_cmdline h) = 1024%nat;
  ho_words : Forall (in_range 32) [kernel_size h; kernel_addr h; ramdisk_size h; ramdisk_addr h; second_size h; second_addr h;
    tags_addr h; page_size h]
}.

Definition hdr_fields (h : boot_img_hdr) : list bytes :=
  [magic h; le32 (kernel_size h); le32 (kernel_addr h); le32 (ramdisk_size h); le32 (ramdisk_addr h); le32 (second_size h);
   le32 (second_addr h); le32 (tags_addr h); le32 (page_size h); unused h; name h; cmdline h; id h; extra_cmdline h].

Lemma le32_length x : length (le32 x) = 4%nat.
Proof. apply le_encode_length. Qed.

Lemma hdr_field h rest i x off len : hdr_ok h -> hdr_fields h !! i = Some x ->
  off = Z.of_nat (length (concat (take i (hdr_fields h)))) -> len = Z.of_nat (length x) -> slice (hdr_bytes h ++ rest) off len = x.
Proof.
  intros _ Hx Ho Hl. replace (hdr_bytes h) with (concat (hdr_fields h)).
  - by apply (slice_concat _ _ i).
  - unfold hdr_bytes, hdr_fields. cbn [concat]. by rewrite app_nil_r.
Qed.

Lemma hdr_word h rest i x off : hdr_ok h -> hdr_fields h !! i = Some (le32 x) ->
  off = Z.of_nat (length (concat (take i (hdr_fields h)))) -> in_range 32 x -> word_at (hdr_bytes h ++ rest) off = x.
Proof.
  intros Hh Hx Ho Hr. unfold word_at. rewrite (hdr_field h rest i (le32 x)); try done. by apply le_roundtrip.
Qed.

Lemma read_hdr_bytes h rest : hdr_ok h -> read_hdr (hdr_bytes h ++ rest) = h.
Proof.
  intros Hh. destruct (Hh) as [H1 H2 H3 H4 H5 H6 Hw]. rewrite !Forall_cons in Hw. destruct Hw as (W1 & W2 & W3 & W4 & W5 & W6 & W7 & W8 & _).
  assert (Hoff : forall i k, Z.of_nat (length (concat (take i (hdr_fields h)))) = k -> k = Z.of_nat (length (concat (take i (hdr_fields h))))) by done.
  unfold read_hdr.
  rewrite (hdr_field h rest 0 (magic h) 0 8), (hdr_word h rest 1 (kernel_size h) 8), (hdr_word h rest 2 (kernel_addr h) 12),
    (hdr_word h rest 3 (ramdisk_size h) 16), (hdr_word h rest 4 (ramdisk_addr h) 20), (hdr_word h rest 5 (second_size h) 24),
    (hdr_word h rest 6 (second_addr h) 28), (hdr_word h rest 7 (tags_addr h) 32), (hdr_word h rest 8 (page_size h) 36),
    (hdr_field h rest 9 (unused h) 40 8), (hdr_field h rest 10 (name h) 48 16), (hdr_field h rest 11 (cmdline h) 64 512),
    (hdr_field h rest 12 (id h) 576 32), (hdr_field h rest 13 (extra_cmdline h) 608 1024);
    try done; try (by destruct h);
    unfold hdr_fields; cbn [take concat length]; rewrite ?length_app, ?le32_length, ?H1, ?H2, ?H3, ?H4, ?H5, ?H6; reflexivity.
Qed.

Lemma hdr_bytes_length h : hdr_ok h -> Z.of_nat (length (hdr_bytes h)) = SIZEOF_HDR.
Proof.
  intros [H1 H2 H3 H4 H5 H6 _]. unfold hdr_bytes. rewrite !length_app, !le32_length, H1, H2, H3, H4, H5, H6. reflexivity.
Qed.

(** ** The command line *)
Lemma strncpied_zeros m n s : (n <= m)%nat ->
  strncpied (replicate m 0) s n = take n s ++ replicate (m - length (take n s)) 0.
Proof.
  intros Hn. unfold strncpied. rewrite take_app, take_replicate, drop_replicate, <- app_assoc, <- replicate_add.
  f_equal. rewrite length_take. f_equal. lia.
Qed.

Lemma set_cmdline_run s : exists extra,
  set_cmdline s = Ret (strncpied (replicate BOOT_ARGS_SIZE 0) s (BOOT_ARGS_SIZE - 1), extra) /\
  length extra = BOOT_EXTRA_ARGS_SIZE /\
  extra = if (BOOT_ARGS_SIZE - 1 <=? length s)%nat
    then strncpied (replicate BOOT_EXTRA_ARGS_SIZE 0) (drop (BOOT_ARGS_SIZE - 1) s) BOOT_EXTRA_ARGS_SIZE
    else replicate BOOT_EXTRA_ARGS_SIZE 0.
Proof.
  unfold set_cmdline. generalize BOOT_ARGS_SIZE BOOT_EXTRA_ARGS_SIZE (eq_refl : BOOT_ARGS_SIZE = 512%nat) (eq_refl : BOOT_EXTRA_ARGS_SIZE = 1024%nat).
  intros A B HA HB. rewrite (strncpy_fits (replicate A 0)), bind_ret by (rewrite length_replicate; lia).
  rewrite st_mem_ok, bind_ret by (rewrite strncpied_length; rewrite length_replicate; lia).
  assert (wr (strncpied (replicate A 0) s (A - 1)) (Z.of_nat A - 1) 0 = strncpied (replicate A 0) s (A - 1)) as ->.
  { unfold wr. replace (Z.to_nat (Z.of_nat A - 1)) with (A - 1)%nat by lia. rewrite strncpied_zeros by lia.
    apply list_insert_id. rewrite length_take, lookup_app_r by (rewrite length_take; lia). apply lookup_replicate. rewrite length_take. lia. }
  destruct (A - 1 <=? length s)%nat; eexists; (split; [| split; [| reflexivity]]).
  - by rewrite strncpy_fits, bind_ret by (rewrite length_replicate; lia).
  - rewrite strncpied_length; rewrite length_replicate; lia.
  - done.
  - by rewrite length_replicate.
Qed.

Lemma set_cmdline_spec s : cstr_ok s -> (length s <= BOOT_ARGS_SIZE + BOOT_EXTRA_ARGS_SIZE - 2)%nat ->
  exists cl extra, set_cmdline s = Ret (cl, extra) /\
  length cl = BOOT_ARGS_SIZE /\ length extra = BOOT_EXTRA_ARGS_SIZE /\ cstring cl ++ cstring extra = s.
Proof.
  destruct (set_cmdline_run s) as (extra & Er & Hx & Ex). intros Hs Hl.
  exists (strncpied (replicate BOOT_ARGS_SIZE 0) s (BOOT_ARGS_SIZE - 1)), extra. split; [done |]. clear Er. revert Hl Hx Ex.
  generalize BOOT_ARGS_SIZE BOOT_EXTRA_ARGS_SIZE (eq_refl : BOOT_ARGS_SIZE = 512%nat) (eq_refl : BOOT_EXTRA_ARGS_SIZE = 1024%nat).
  intros A B HA HB Hl Hx Ex. split_and!; [rewrite strncpied_length; rewrite length_replicate; lia | done |].
  rewrite strncpied_zeros, cstring_zeros by (lia || by apply cstr_ok_take). destruct (Nat.leb_spec (A - 1) (length s)); subst extra.
  - rewrite strncpied_zeros, cstring_zeros by (lia || by repeat (apply cstr_ok_take || apply cstr_ok_drop)).
    rewrite (take_ge (drop _ _)) by (rewrite length_drop; lia). apply take_drop.
  - change (replicate B 0) with ([] ++ replicate B 0). rewrite cstring_zeros, app_nil_r by constructor. apply take_ge. lia.
Qed.

(** ** Headers and images *)
Definition digest_input (kernel ramdisk second : bytes) : bytes :=
  kernel ++ le32 (Z.of_nat (length kernel)) ++ ramdisk ++ le32 (Z.of_nat (length ramdisk)) ++ second
  ++ le32 (Z.of_nat (length second)).

Lemma image_id_spec ctx0 kernel ramdisk second : ctx_shape ctx0 -> bytes_ok kernel -> bytes_ok ramdisk -> bytes_ok second ->
  image_id ctx0 kernel ramdisk second = Ret (sha1 (digest_input kernel ramdisk second) ++ replicate 12 0).
Proof.
  intros Hc Hk Hr Hs. unfold image_id.
  pose proof (SHA_updates_streamed [kernel; le32 (Z.of_nat (length kernel)); ramdisk; le32 (Z.of_nat (length ramdisk)); second;
    le32 (Z.of_nat (length second))] [] (SHA_init ctx0) (SHA_init_streamed ctx0 Hc)) as Hu.
  destruct (SHA_final_streamed _ _ (Hu ltac:(rewrite !Forall_cons, Forall_nil; split_and!; done || apply le_encode_ok))) as (ctx & Ef & Hd).
  unfold SHA_updates in Ef. cbn [foldl] in Ef. rewrite Ef, bind_ret. unfold SHA_DIGEST_SIZE in Hd. do 2 f_equal.
  rewrite Hd. unfold digest_input. cbn [concat app]. by rewrite app_nil_r.
Qed.

Definition small (d : bytes) : Prop := Z.of_nat (length d) < 2 ^ 31.

Lemma make_hdr_ok o name cl extra kernel ramdisk second sha : opts_ok o -> small kernel -> small ramdisk -> small second ->
  length name = BOOT_NAME_SIZE -> length cl = BOOT_ARGS_SIZE -> length extra = BOOT_EXTRA_ARGS_SIZE ->
  length sha = 32%nat -> hdr_ok (make_hdr o name cl extra kernel ramdisk second sha).
Proof.
  unfold small. intros (Hps & Hcl & _) Hk Hr Hs Hn L1 L2 Hsha. unfold make_hdr. split; simpl; try done.
  destruct (good_pagesize_pow _ Hps) as (k & Hk' & ->).
  assert (2 ^ k <= 2 ^ 14) by (apply Z.pow_le_mono_r; lia).
  repeat apply Forall_cons_2; try apply Forall_nil_2; try (by apply wrap_range); unfold in_range; lia.
Qed.

Lemma pad_app ps d : exists z, pad ps d = d ++ z.
Proof. by eexists. Qed.

Lemma image_parts ps h kernel ramdisk second : good_pagesize ps = true -> hdr_ok h -> page_size h = ps ->
  kernel_size h = Z.of_nat (length kernel) -> ramdisk_size h = Z.of_nat (length ramdisk) ->
  second_size h = Z.of_nat (length (default [] second)) ->
  let img := image ps h kernel ramdisk second in
  read_hdr img = h /\ image_kernel img = kernel /\ image_ramdisk img = ramdisk /\ image_second img = default [] second.
Proof.
  intros Hps Hh Ep Ek Er Es img. destruct (good_pagesize_pow _ Hps) as (k & Hk & Hpow).
  assert (Hb : 2048 <= ps) by (rewrite Hpow; change 2048 with (2 ^ 11); apply Z.pow_le_mono_r; lia).
  assert (Hrd : read_hdr img = h).
  { unfold img, image. destruct (pad_app ps (hdr_bytes h)) as [z ->]. rewrite <- !app_assoc. by apply read_hdr_bytes. }
  assert (Hlh : Z.of_nat (length (pad ps (hdr_bytes h))) = ps).
  { rewrite pad_length, hdr_bytes_length by (done || lia). unfold pages, SIZEOF_HDR.
    replace ((1632 + ps - 1) / ps) with 1; [lia |]. apply (Z.div_unique_pos _ _ _ 1631); lia. }
  unfold image_kernel, image_ramdisk, image_second. rewrite Hrd, Ep, Ek, Er, Es. split_and!; [done | ..]; unfold img, image.
  - unfold pad at 2. rewrite <- !app_assoc. by apply slice_app.
  - rewrite (app_assoc (pad ps (hdr_bytes h))). unfold pad at 3. rewrite <- (app_assoc ramdisk). apply slice_app; [| done].
    rewrite length_app, Nat2Z.inj_add, Hlh, pad_length by lia. lia.
  - destruct second as [second|]; simpl default.
    + rewrite (app_assoc (pad ps (hdr_bytes h))), (app_assoc _ (pad ps ramdisk)). unfold pad at 4. apply slice_app; [| done].
      rewrite !length_app, !Nat2Z.inj_add, Hlh, !pad_length by lia. lia.
    + done.
Qed.

Lemma image_aligned ps h kernel ramdisk second : 0 < ps -> (ps | Z.of_nat (length (image ps h kernel ramdisk second))).
Proof.
  intros Hp. unfold image. rewrite !length_app, !Nat2Z.inj_add, !pad_length by done.
  repeat apply Z.divide_add_r; try apply Z.divide_factor_r. destruct second; [rewrite pad_length by done; apply Z.divide_factor_r |].
  apply Z.divide_0_r.
Qed.

(** ** The whole program *)

(** What [main] gathers before it writes: the options, the output name and the
    three parts. [None] when the command line or a file is rejected. *)
Definition gather (files : env) (argv : list bytes) : option (opts * bytes * bytes * option bytes * option bytes) :=
  match parse_args argv default_opts with
  | inr _ => None
  | inl o =>
      bootimg ← o_bootimg o;
      kf ← kernel_fn o;
      if (BOOT_NAME_SIZE <=? length (o_board o))%nat then None else
      if (BOOT_ARGS_SIZE + BOOT_EXTRA_ARGS_SIZE - 2 <? length (o_cmdline o))%nat then None else
      kernel ← load_file files kf;
      ramdisk ← load_opt files (ramdisk_fn o);
      second ← load_opt files (second_fn o);
      Some (o, bootimg, kernel, ramdisk, second)
  end.

Section Main.
Context (ctx0 : HASH_CTX) (files : env) (creat : bytes -> bool) (script : list Z) (argv : list bytes).
Context (Hctx : ctx_shape ctx0) (Henv : env_ok files) (Hargv : Forall cstr_ok argv).

Lemma gather_ok o bootimg kernel ramdisk second : gather files argv = Some (o, bootimg, kernel, ramdisk, second) ->
  opts_ok o /\ (length (o_board o) < BOOT_NAME_SIZE)%nat /\
  (length (o_cmdline o) <= BOOT_ARGS_SIZE + BOOT_EXTRA_ARGS_SIZE - 2)%nat /\
  (bytes_ok kernel /\ small kernel) /\ (bytes_ok (default [] ramdisk) /\ small (default [] ramdisk)) /\
  (bytes_ok (default [] second) /\ small (default [] second)).
Proof.
  unfold gather. destruct (parse_args argv default_opts) as [o'|] eqn:Ep; [| done].
  apply (parse_args_ok (length argv)) in Ep; [| done | done | apply default_opts_ok].
  destruct (o_bootimg o'); [| done]. destruct (kernel_fn o') as [kf|]; [| done]. cbn [mbind option_bind].
  destruct (Nat.leb_spec BOOT_NAME_SIZE (length (o_board o'))); [done |]. destruct (Nat.ltb_spec (BOOT_ARGS_SIZE + BOOT_EXTRA_ARGS_SIZE - 2) (length (o_cmdline o'))); [done |].
  destruct (load_file files kf) as [kd|] eqn:E1; [| done]. cbn [mbind option_bind].
  destruct (load_opt files (ramdisk_fn o')) as [rdk|] eqn:E2; [| done]. cbn [mbind option_bind].
  destruct (load_opt files (second_fn o')) as [sd|] eqn:E3; [| done]. intros [= -> -> -> -> ->].
  split_and!; try done; first [by eapply load_file_ok | by eapply load_opt_ok | done].
Qed.

(** The header [main] writes. *)
Definition header (o : opts) (kernel : bytes) (ramdisk second : option bytes) : boot_img_hdr :=
  let '(cl, extra) := match set_cmdline (o_cmdline o) with Ret p => p | _ => ([], []) end in
  make_hdr o (strcpied (replicate BOOT_NAME_SIZE 0) (o_board o)) cl extra kernel (default [] ramdisk) (default [] second)
    (sha1 (digest_input kernel (default [] ramdisk) (default [] second)) ++ replicate 12 0).

Lemma main_run :
  match gather files argv with
  | None => exists r, main ctx0 files creat script argv = Ret r /\ r_image r = None /\ r_code r <> 0
  | Some (o, bootimg, kernel, ramdisk, second) =>
      main ctx0 files creat script argv =
      if negb (creat bootimg) then Ret (fail_with 1) else
      '(ok, out) ← write_image (o_pagesize o) (header o kernel ramdisk second) kernel (default [] ramdisk) second (open_output (no_output script));
      if (ok : bool) then Ret (exit_with 0 out (if get_id o then print_id (id (header o kernel ramdisk second)) else []))
      else Ret (exit_with 1 (unlink_output out) [])
  end.
Proof.
  assert (Hfail : forall c, c <> 0 -> exists r, Ret (fail_with c) = Ret r /\ r_image r = None /\ r_code r <> 0)
    by (intros c Hc; by exists (fail_with c)).
  destruct (gather files argv) as [[[[[o bootimg] kernel] ramdisk] second]|] eqn:Eg.
  - destruct (gather_ok _ _ _ _ _ Eg) as ((_ & Hcl & _) & Hb & Hc & [Hk _] & [Hr _] & [Hs _]). unfold header.
    destruct (set_cmdline_spec _ Hcl Hc) as (cl & extra & Ec & _). rewrite Ec. revert Eg Ec. unfold gather, main.
    destruct (parse_args argv default_opts) as [o'|]; [| done]. destruct (o_bootimg o') as [bi|]; [| done].
    destruct (kernel_fn o') as [kf|]; [| done]. cbn [mbind option_bind]. destruct (_ <=? _)%nat; [done |]. destruct (_ <? _)%nat; [done |].
    destruct (load_file files kf) as [kd|]; [| done]. destruct (load_opt files (ramdisk_fn o')) as [rdk|]; [| done].
    destruct (load_opt files (second_fn o')) as [sd|]; [| done]. intros [= -> -> -> -> ->] Ec.
    rewrite strcpy_fits, bind_ret by (by rewrite length_replicate). rewrite Ec, bind_ret.
    rewrite image_id_spec by done. rewrite bind_ret. done.
  - revert Eg. unfold gather, main. destruct (parse_args argv default_opts) as [o'|r] eqn:Ep.
    2: { intros _. exists r. split; [done |]. by apply (parse_args_err (length argv)) in Ep. }
    destruct (o_bootimg o') as [bi|]; [| by intros; apply Hfail]. destruct (kernel_fn o') as [kf|]; [| by intros; apply Hfail].
    cbn [mbind option_bind]. destruct (Nat.leb_spec BOOT_NAME_SIZE (length (o_board o'))); [by intros; apply Hfail |].
    rewrite strcpy_fits, bind_ret by (by rewrite length_replicate). destruct (_ <? _)%nat; [by intros; apply Hfail |].
    destruct (set_cmdline_run (o_cmdline o')) as (extra & -> & _). rewrite bind_ret.
    destruct (load_file files kf) as [kd|]; [| by intros; apply Hfail].
    destruct (load_opt files (ramdisk_fn o')) as [rdk|]; [| by intros; apply Hfail].
    destruct (load_opt files (second_fn o')) as [sd|]; [done | by intros; apply Hfail].
Qed.

Lemma boot_header_ok o bootimg kernel ramdisk second : gather files argv = Some (o, bootimg, kernel, ramdisk, second) ->
  hdr_ok (header o kernel ramdisk second).
Proof.
  intros E. destruct (gather_ok _ _ _ _ _ E) as (Ho & Hb & Hc & [_ Hk] & [_ Hr] & [_ Hs]).
  destruct Ho as (Hps & Hcl & Ho). unfold header. destruct (set_cmdline_spec _ Hcl Hc) as (cl & extra & -> & L1 & L2 & _).
  apply make_hdr_ok; try done; [by rewrite strcpied_length; rewrite length_replicate | by rewrite length_app, sha1_length].
Qed.

(** What the image of a successful run holds. *)
Definition image_holds (img : bytes) (o : opts) (kernel : bytes) (ramdisk second : option bytes) : Prop :=
  let h := read_hdr img in
  magic h = BOOT_MAGIC /\ page_size h = o_pagesize o /\ (o_pagesize o | Z.of_nat (length img)) /\
  image_kernel img = kernel /\ image_ramdisk img = default [] ramdisk /\ image_second img = default [] second /\
  image_cmdline img = o_cmdline o /\ cstring (name h) = o_board o /\
  kernel_addr h = u32 (base o + kernel_offset o) /\ ramdisk_addr h = u32 (base o + ramdisk_offset o) /\
  second_addr h = u32 (base o + second_offset o) /\ tags_addr h = u32 (base o + tags_offset o) /\
  id h = sha1 (digest_input kernel (default [] ramdisk) (default [] second)) ++ replicate 12 0.

Lemma image_holds_run o bootimg kernel ramdisk second : gather files argv = Some (o, bootimg, kernel, ramdisk, second) ->
  image_holds (image (o_pagesize o) (header o kernel ramdisk second) kernel (default [] ramdisk) second) o kernel ramdisk second.
Proof.
  intros Eg. destruct (gather_ok _ _ _ _ _ Eg) as ((Hps & Hcl & Hbo & _) & Hb & Hc & _).
  pose proof (boot_header_ok _ _ _ _ _ Eg) as Hh. unfold image_holds, image_cmdline.
  destruct (set_cmdline_spec _ Hcl Hc) as (cl & extra & Es & _ & _ & Hcmd). unfold header, make_hdr in *. rewrite Es in *.
  destruct (image_parts (o_pagesize o) _ kernel (default [] ramdisk) second Hps Hh eq_refl eq_refl eq_refl eq_refl) as (-> & -> & -> & ->).
  split_and!; try done.
  - apply image_aligned. destruct (good_pagesize_pow _ Hps) as (k & Hk & ->). lia.
  - by apply strcpied_cstring.
Qed.
End Main.

(** ** An example *)
Definition mx_files : env := fun fn =>
  if bool_decide (fn = str "zImage") then Some (mk_infile (str "kernel") true true 100)
  else if bool_decide (fn = str "initrd") then Some (mk_infile (str "ramdisk!") true true 8)
  else None.
Definition mx_argv : list bytes :=
  map str ["--kernel"; "zImage"; "--ramdisk"; "initrd"; "--cmdline"; "quiet"; "--base"; "0x80000000"; "--board"; "foster";
    "--id"; "-o"; "boot.img"].
Definition mx_result : result := Eval vm_compute in
  match main zero_ctx mx_files (fun _ => true) [4096; 5000] mx_argv with Ret r => r | _ => usage end.
Definition mx_image : bytes := Eval vm_compute in default [] (r_image mx_result).

Lemma mx_env_ok : env_ok mx_files.
Proof.
  intros fn f. unfold mx_files. repeat case_bool_decide; intros [= <-]; simpl; repeat constructor; unfold in_range; lia.
Qed.

Lemma mx_argv_ok : Forall cstr_ok mx_argv.
Proof. repeat constructor; simpl; lia. Qed.

Lemma mx_run : main zero_ctx mx_files (fun _ => true) [4096; 5000] mx_argv = Ret mx_result.
Proof. vm_compute. reflexivity. Qed.

(** ** Properties *)

(** C23. Whatever the arguments, files and writes do, [main] of mkbootimg stays
    inside the name and command line fields of the header and inside its
    padding array, and it leaves a file at the output path exactly when it
    exits with 0: a partly written one is unlinked. *)
Theorem mkbootimg_all_or_nothing ctx0 files creat script argv : ctx_shape ctx0 -> env_ok files -> Forall cstr_ok argv ->
  exists r, main ctx0 files creat script argv = Ret r /\ (r_code r = 0 <-> r_image r <> None).
Proof.
  intros Hctx Henv Hargv. pose proof (main_run ctx0 files creat script argv Hctx Henv Hargv) as Hm.
  destruct (gather files argv) as [[[[[o bootimg] kernel] ramdisk] second]|] eqn:Eg.
  - rewrite Hm. destruct (gather_ok files argv Henv Hargv _ _ _ _ _ Eg) as ((Hps & _) & _).
    destruct (creat bootimg); cbn [negb]; [| by exists (fail_with 1)].
    destruct (write_image_spec _ (header o kernel ramdisk second) kernel (default [] ramdisk) second script Hps) as (ok & out & E & _).
    pose proof (write_image_linked _ _ _ _ _ _ _ _ E) as Hl. rewrite E, bind_ret.
    destruct ok; eexists; (split; [done |]); unfold exit_with; rewrite ?Hl; by simpl.
  - destruct Hm as (r & -> & Hi & Hc). exists r. split; [done |]. by rewrite Hi.
Qed.

Lemma mkbootimg_all_or_nothing_witness :
  exists r, main zero_ctx mx_files (fun _ => true) [4096; -1] mx_argv = Ret r /\ (r_code r = 0 <-> r_image r <> None).
Proof. apply (mkbootimg_all_or_nothing zero_ctx mx_files (fun _ => true) [4096; -1] mx_argv zero_ctx_shape mx_env_ok mx_argv_ok). Defined.

(** Without write errors, mkbootimg exits with 0 exactly when the command
    line is accepted, every named file can be loaded and the output can be
    created. *)
Theorem mkbootimg_succeeds ctx0 files creat argv : ctx_shape ctx0 -> env_ok files -> Forall cstr_ok argv ->
  (exists r, main ctx0 files creat [] argv = Ret r /\ r_code r = 0) <->
  (exists o bootimg kernel ramdisk second, gather files argv = Some (o, bootimg, kernel, ramdisk, second) /\ creat bootimg = true).
Proof.
  intros Hctx Henv Hargv. pose proof (main_run ctx0 files creat [] argv Hctx Henv Hargv) as Hm.
  destruct (gather files argv) as [[[[[o bootimg] kernel] ramdisk] second]|] eqn:Eg.
  - rewrite Hm. destruct (gather_ok files argv Henv Hargv _ _ _ _ _ Eg) as ((Hps & _) & _).
    destruct (creat bootimg) eqn:Ec; cbn [negb].
    + destruct (write_image_spec _ (header o kernel ramdisk second) kernel (default [] ramdisk) second [] Hps) as (ok & out & -> & _ & Hok).
      rewrite bind_ret, (Hok eq_refl). split; intros _; [by exists o, bootimg, kernel, ramdisk, second | by eexists].
    + split; [intros (r & [= <-] & Hr); done |]. intros (? & ? & ? & ? & ? & [= <- <- <- <- <-] & ?). congruence.
  - destruct Hm as (r & Hm & _ & Hc). split; [| by intros (? & ? & ? & ? & ? & ? & ?)].
    intros (r' & E & Hr). rewrite Hm in E. by injection E as ->.
Qed.

Lemma mkbootimg_succeeds_witness :
  (exists r, main zero_ctx mx_files (fun _ => true) [] mx_argv = Ret r /\ r_code r = 0) <->
  (exists o bootimg kernel ramdisk second, gather mx_files mx_argv = Some (o, bootimg, kernel, ramdisk, second) /\ true = true).
Proof. apply (mkbootimg_succeeds zero_ctx mx_files (fun _ => true) mx_argv zero_ctx_shape mx_env_ok mx_argv_ok). Defined.

(** C7. Round trip: when mkbootimg leaves an image, reading it as bootimg.h
    documents gives back the kernel, the ramdisk, the second stage, the whole
    command line, the board name and the load addresses, page-aligned, with
    the SHA-1 of the parts and their sizes as the id. *)
Theorem mkbootimg_roundtrip ctx0 files creat script argv r img : ctx_shape ctx0 -> env_ok files -> Forall cstr_ok argv ->
  main ctx0 files creat script argv = Ret r -> r_image r = Some img ->
  exists o bootimg kernel ramdisk second, gather files argv = Some (o, bootimg, kernel, ramdisk, second) /\
    image_holds img o kernel ramdisk second.
Proof.
  intros Hctx Henv Hargv Em Hi. pose proof (main_run ctx0 files creat script argv Hctx Henv Hargv) as Hm.
  destruct (gather files argv) as [[[[[o bootimg] kernel] ramdisk] second]|] eqn:Eg.
  - exists o, bootimg, kernel, ramdisk, second. split; [done |]. rewrite Em in Hm.
    destruct (gather_ok files argv Henv Hargv _ _ _ _ _ Eg) as ((Hps & _) & _).
    destruct (creat bootimg); cbn [negb] in Hm; [| by injection Hm as ->].
    destruct (write_image_spec _ (header o kernel ramdisk second) kernel (default [] ramdisk) second script Hps) as (ok & out & E & Hd & _).
    pose proof (write_image_linked _ _ _ _ _ _ _ _ E) as Hl.
    rewrite E, bind_ret in Hm. destruct ok; injection Hm as ->; [| done]. unfold exit_with in Hi. rewrite Hl in Hi. injection Hi as <-.
    rewrite (Hd eq_refl). by apply (image_holds_run files argv Henv Hargv o bootimg).
  - destruct Hm as (r' & E & Hn & _). rewrite Em in E. injection E as ->. congruence.
Qed.

Lemma mkbootimg_roundtrip_witness :
  exists o bootimg kernel ramdisk second, gather mx_files mx_argv = Some (o, bootimg, kernel, ramdisk, second) /\
    image_holds mx_image o kernel ramdisk second.
Proof.
  apply (mkbootimg_roundtrip zero_ctx mx_files (fun _ => true) [4096; 5000] mx_argv mx_result mx_image zero_ctx_shape mx_env_ok mx_argv_ok mx_run).
  reflexivity.
Defined.

(** The size of an input file is kept in an int: of a file of 4 GiB or
    more only the remainder of its size modulo 2^32 is loaded, and mkbootimg
    reports no error. *)
Theorem load_file_truncates files fn f size : files fn = Some f -> f_seek f = true -> f_malloc f = true ->
  size = Z.of_nat (length (f_content f)) -> size mod 2 ^ 32 < 2 ^ 31 -> size mod 2 ^ 32 <= f_read f ->
  load_file files fn = Some (take (Z.to_nat (size mod 2 ^ 32)) (f_content f)).
Proof.
  intros Hf Hs Hm Hlen Hsz Hr. unfold load_file. rewrite Hf, Hs, Hm, <- Hlen. cbn [negb].
  pose proof (Z.mod_pos_bound size (2 ^ 32) ltac:(lia)).
  assert (i32 size = size mod 2 ^ 32) as ->.
  { unfold swrap. change (32 - 1) with 31. rewrite (Z.div_mod size (2 ^ 32)) at 1 by lia.
    rewrite <- Z.add_assoc, (Z.mul_comm (2 ^ 32)), Z.add_comm, Z.mod_add by lia. rewrite Z.mod_small; lia. }
  destruct (Z.ltb_spec (size mod 2 ^ 32) 0); [lia |]. destruct (Z.ltb_spec (f_read f) 0); [lia |].
  by rewrite Z.min_r, Z.eqb_refl by lia.
Qed.

Definition mx_big : infile := mk_infile (replicate (Z.to_nat (2 ^ 32 + 3)) 1) true true 1000.

Lemma load_file_truncates_witness :
  load_file (fun _ => Some mx_big) (str "zImage") = Some (take 3 (f_content mx_big)).
Proof.
  apply (load_file_truncates (fun _ => Some mx_big) (str "zImage") mx_big (2 ^ 32 + 3) eq_refl eq_refl eq_refl).
  - change (f_content mx_big) with (replicate (Z.to_nat (2 ^ 32 + 3)) 1). rewrite length_replicate, Z2Nat.id; [reflexivity | discriminate].
  - reflexivity.
  - change (f_read mx_big) with 1000. discriminate.
Defined.
