(* ===== verification/FsConfig.v ===== *)
(** * Ownership and permissions of files in images

    Models src/system/core/libcutils/fs_config.c: the compiled-in rules, the
    optional rule files, and the generator of rule files
    (src/build/tools/fs_config/fs_config_generate.c). Files are looked up by
    name in [conf]; allocations follow a script (past its end they succeed).
    Log messages are not modelled. *)

From S2P Require Import Prelude.
From S2P Require Import CString.

Definition AID_ROOT : Z := 0.
Definition AID_SYSTEM : Z := 1000.
Definition AID_RADIO : Z := 1001.
Definition AID_DHCP : Z := 1014.
Definition AID_MEDIA_RW : Z := 1023.
Definition AID_SHARED_RELRO : Z := 1037.
Definition AID_SHELL : Z := 2000.
Definition AID_CACHE : Z := 2001.
Definition AID_MISC : Z := 9998.
Definition AID_APP : Z := 10000.

Definition CAP_SETGID : Z := 6.
Definition CAP_SETUID : Z := 7.
Definition CAP_BLOCK_SUSPEND : Z := 36.

Record fs_path_config := Cfg {
  c_mode : Z;
  c_uid : Z;
  c_gid : Z;
  c_capabilities : Z;
  c_prefix : bytes
}.

Definition cfg (mode uid gid caps : Z) (prefix : string) : fs_path_config := Cfg mode uid gid caps (str prefix).

(** The last row of each table, with a null prefix, is kept apart. Octal
    constants are written as sums of their digits. *)
Definition oct (a b c d : Z) : Z := 512 * a + 64 * b + 8 * c + d.

Definition android_dirs : list fs_path_config := [
  cfg (oct 0 7 7 0) AID_SYSTEM AID_CACHE 0 "cache";
  cfg (oct 0 7 7 1) AID_SYSTEM AID_SYSTEM 0 "data/app";
  cfg (oct 0 7 7 1) AID_SYSTEM AID_SYSTEM 0 "data/app-private";
  cfg (oct 0 7 7 1) AID_ROOT AID_ROOT 0 "data/dalvik-cache";
  cfg (oct 0 7 7 1) AID_SYSTEM AID_SYSTEM 0 "data/data";
  cfg (oct 0 7 7 1) AID_SHELL AID_SHELL 0 "data/local/tmp";
  cfg (oct 0 7 7 1) AID_SHELL AID_SHELL 0 "data/local";
  cfg (oct 1 7 7 1) AID_SYSTEM AID_MISC 0 "data/misc";
  cfg (oct 0 7 7 0) AID_DHCP AID_DHCP 0 "data/misc/dhcp";
  cfg (oct 0 7 7 1) AID_SHARED_RELRO AID_SHARED_RELRO 0 "data/misc/shared_relro";
  cfg (oct 0 7 7 5) AID_MEDIA_RW AID_MEDIA_RW 0 "data/media";
  cfg (oct 0 7 7 5) AID_MEDIA_RW AID_MEDIA_RW 0 "data/media/Music";
  cfg (oct 0 7 7 1) AID_SYSTEM AID_SYSTEM 0 "data";
  cfg (oct 0 7 5 0) AID_ROOT AID_SHELL 0 "sbin";
  cfg (oct 0 7 5 5) AID_ROOT AID_SHELL 0 "system/bin";
  cfg (oct 0 7 5 5) AID_ROOT AID_SHELL 0 "system/vendor";
  cfg (oct 0 7 5 5) AID_ROOT AID_SHELL 0 "system/xbin";
  cfg (oct 0 7 5 5) AID_ROOT AID_ROOT 0 "system/etc/ppp";
  cfg (oct 0 7 5 5) AID_ROOT AID_SHELL 0 "vendor";
  cfg (oct 0 7 7 7) AID_ROOT AID_ROOT 0 "sdcard"].

Definition default_dir : fs_path_config := Cfg (oct 0 7 5 5) AID_ROOT AID_ROOT 0 [].

Definition conf_dir : bytes := str "/system/etc/fs_config_dirs".
Definition conf_file : bytes := str "/system/etc/fs_config_files".

Definition android_files : list fs_path_config := [
  cfg (oct 0 4 4 0) AID_ROOT AID_SHELL 0 "system/etc/init.goldfish.rc";
  cfg (oct 0 5 5 0) AID_ROOT AID_SHELL 0 "system/etc/init.goldfish.sh";
  cfg (oct 0 5 5 0) AID_ROOT AID_SHELL 0 "system/etc/init.ril";
  cfg (oct 0 5 5 0) AID_DHCP AID_SHELL 0 "system/etc/dhcpcd/dhcpcd-run-hooks";
  cfg (oct 0 5 5 5) AID_ROOT AID_ROOT 0 "system/etc/ppp/*";
  cfg (oct 0 5 5 5) AID_ROOT AID_ROOT 0 "system/etc/rc.*";
  Cfg (oct 0 4 4 4) AID_ROOT AID_ROOT 0 (drop 1 conf_dir);
  Cfg (oct 0 4 4 4) AID_ROOT AID_ROOT 0 (drop 1 conf_file);
  cfg (oct 0 6 4 4) AID_SYSTEM AID_SYSTEM 0 "data/app/*";
  cfg (oct 0 6 4 4) AID_MEDIA_RW AID_MEDIA_RW 0 "data/media/*";
  cfg (oct 0 6 4 4) AID_SYSTEM AID_SYSTEM 0 "data/app-private/*";
  cfg (oct 0 6 4 4) AID_APP AID_APP 0 "data/data/*";
  cfg (oct 4 7 5 0) AID_ROOT AID_SHELL 0 "system/xbin/su";
  cfg (oct 6 7 5 5) AID_ROOT AID_ROOT 0 "system/xbin/librank";
  cfg (oct 6 7 5 5) AID_ROOT AID_ROOT 0 "system/xbin/procrank";
  cfg (oct 6 7 5 5) AID_ROOT AID_ROOT 0 "system/xbin/procmem";
  cfg (oct 4 7 7 0) AID_ROOT AID_RADIO 0 "system/bin/pppd-ril";
  cfg (oct 0 7 5 0) AID_ROOT AID_SHELL (Z.lor (Z.shiftl 1 CAP_SETUID) (Z.shiftl 1 CAP_SETGID)) "system/bin/run-as";
  cfg (oct 0 7 0 0) AID_SYSTEM AID_SHELL (Z.shiftl 1 CAP_BLOCK_SUSPEND) "system/bin/inputflinger";
  cfg (oct 0 7 5 0) AID_ROOT AID_ROOT 0 "system/bin/uncrypt";
  cfg (oct 0 7 5 0) AID_ROOT AID_ROOT 0 "system/bin/install-recovery.sh";
  cfg (oct 0 7 5 5) AID_ROOT AID_SHELL 0 "system/bin/*";
  cfg (oct 0 7 5 5) AID_ROOT AID_ROOT 0 "system/lib/valgrind/*";
  cfg (oct 0 7 5 5) AID_ROOT AID_ROOT 0 "system/lib64/valgrind/*";
  cfg (oct 0 7 5 5) AID_ROOT AID_SHELL 0 "system/xbin/*";
  cfg (oct 0 7 5 5) AID_ROOT AID_SHELL 0 "system/vendor/bin/*";
  cfg (oct 0 7 5 5) AID_ROOT AID_SHELL 0 "vendor/bin/*";
  cfg (oct 0 7 5 0) AID_ROOT AID_SHELL 0 "sbin/*";
  cfg (oct 0 7 5 5) AID_ROOT AID_ROOT 0 "bin/*";
  cfg (oct 0 7 5 0) AID_ROOT AID_SHELL 0 "init*";
  cfg (oct 0 7 5 0) AID_ROOT AID_SHELL 0 "sbin/fs_mgr";
  cfg (oct 0 6 4 0) AID_ROOT AID_SHELL 0 "fstab.*"].

Definition default_file : fs_path_config := Cfg (oct 0 6 4 4) AID_ROOT AID_ROOT 0 [].

(** ** Little-endian loads *)
Definition get2LE (src : bytes) : Z := Z.lor (rd src 0) (Z.shiftl (rd src 1) 8).

Definition get8LE (src : bytes) : Z :=
  let low := u32 (Z.lor (Z.lor (Z.lor (rd src 0) (Z.shiftl (rd src 1) 8)) (Z.shiftl (rd src 2) 16)) (Z.shiftl (rd src 3) 24)) in
  let high := u32 (Z.lor (Z.lor (Z.lor (rd src 4) (Z.shiftl (rd src 5) 8)) (Z.shiftl (rd src 6) 16)) (Z.shiftl (rd src 7) 24)) in
  Z.lor (Z.shiftl high 32) low.

(** ** Matching *)

(** [!strncmp(a, b, n)] on strings *)
Definition strncmp_eq (a b : bytes) (n : Z) : bool :=
  bool_decide (take (Z.to_nat n) (a ++ [0]) = take (Z.to_nat n) (b ++ [0])).

(** [prefix[len - 1]] is read before [prefix] when it is empty. *)
Definition fs_config_cmp (dir : bool) (prefix : bytes) (path : bytes) : outcome bool :=
  let len := Z.of_nat (length prefix) in
  let plen := Z.of_nat (length path) in
  if dir then
    if plen <? len then Ret false else Ret (strncmp_eq prefix path len)
  else
    c ← rd_mem prefix (len - 1);
    if c =? 42 then Ret (strncmp_eq prefix path (len - 1)) else
    if negb (plen =? len) then Ret false else Ret (strncmp_eq prefix path len).

(** ** Rule files *)
Definition SIZEOF_HEADER : Z := 16.

Record owner := Owner { uid : Z; gid : Z; mode : Z; capabilities : Z }.

(** Opening: [target_out_path[strlen(target_out_path)]] is the terminator. *)
Definition fs_config_open (conf : bytes -> option bytes) (dir : bool) (target_out_path : option bytes) : option bytes :=
  let c := if dir then conf_dir else conf_file in
  let first :=
    match target_out_path with
    | None | Some [] => None
    | Some t =>
        let skip_len := length (str "/system") in
        let skip_len := if rd (t ++ [0]) (Z.of_nat (length t)) =? 47 then S skip_len else skip_len in
        conf (t ++ drop skip_len c)
    end in
  match first with
  | Some f => Some f
  | None => conf c
  end.

(** The permission bits of [mode] replaced by those of [m]. *)
Definition set_mode (mode m : Z) : Z := Z.lor (Z.land mode (Z.lnot (oct 7 7 7 7))) m.

(** [while (read(fd, &header, sizeof(header)) == sizeof(header))]: the rule
    found, if any. *)
Fixpoint conf_loop (fuel : nat) (dir : bool) (path : bytes) (mode0 : Z) (script : list bool) (f : bytes) : outcome (option owner) :=
  match fuel with
  | O => Diverge
  | S fuel' =>
      if Z.of_nat (length f) <? SIZEOF_HEADER then Ret None else
      let header := take (Z.to_nat SIZEOF_HEADER) f in
      let f := drop (Z.to_nat SIZEOF_HEADER) f in
      let host_len := get2LE header in
      let remainder := host_len - SIZEOF_HEADER in
      if remainder <=? 0 then Ret None else
      if negb (hd true script) then Ret None else
      if Z.of_nat (length f) <? remainder then Ret None else
      let prefix := take (Z.to_nat remainder) f in
      let f := drop (Z.to_nat remainder) f in
      let name := cstring prefix in
      if remainder <=? Z.of_nat (length name) then Ret None else
      found ← fs_config_cmp dir name path;
      if (found : bool) then
        Ret (Some (Owner (get2LE (drop 4 header)) (get2LE (drop 6 header)) (set_mode mode0 (get2LE (drop 2 header)))
          (get8LE (drop 8 header))))
      else conf_loop fuel' dir path mode0 (tl script) f
  end.

(** The search of the compiled-in table. *)
Fixpoint table_loop (dir : bool) (path : bytes) (pcs : list fs_path_config) (last : fs_path_config) : outcome fs_path_config :=
  match pcs with
  | [] => Ret last
  | pc :: pcs' =>
      found ← fs_config_cmp dir (c_prefix pc) path;
      if (found : bool) then Ret pc else table_loop dir path pcs' last
  end.

(** A rule file of [n] bytes has fewer than [n] rules. *)
Definition fs_config (conf : bytes -> option bytes) (script : list bool) (path : bytes) (dir : bool)
    (target_out_path : option bytes) (mode0 : Z) : outcome owner :=
  let path := match path with c :: p => if c =? 47 then p else path | [] => [] end in
  found ← match fs_config_open conf dir target_out_path with
          | Some f => conf_loop (S (length f)) dir path mode0 script f
          | None => Ret None
          end;
  match found with
  | Some o => Ret o
  | None =>
      pc ← table_loop dir path (if dir then android_dirs else android_files) (if dir then default_dir else default_file);
      Ret (Owner (c_uid pc) (c_gid pc) (set_mode mode0 (c_mode pc)) (c_capabilities pc))
  end.

(** ** Generating rule files *)
Definition ENOSPC : Z := 28.
Definition UINT16_MAX : Z := 65535.
Definition ALIGN8 (x : Z) : Z := Z.land (x + 7) (Z.lnot 7).

(** The bytes written to the buffer, or the negated error. *)
Definition fs_config_generate (length_ : Z) (pc : fs_path_config) : Z + bytes :=
  let len := ALIGN8 (SIZEOF_HEADER + Z.of_nat (length (c_prefix pc)) + 1) in
  if (length_ <? len) || (UINT16_MAX <? len) then inl (- ENOSPC) else
  inr (le_encode 2 (get2LE (le_encode 2 len)) ++ le_encode 2 (get2LE (le_encode 4 (c_mode pc)))
    ++ le_encode 2 (get2LE (le_encode 4 (c_uid pc))) ++ le_encode 2 (get2LE (le_encode 4 (c_gid pc)))
    ++ le_encode 8 (get8LE (le_encode 8 (c_capabilities pc)))
    ++ c_prefix pc ++ replicate (Z.to_nat (len - SIZEOF_HEADER - Z.of_nat (length (c_prefix pc)))) 0).

(** The loop of fs_config_generate.c's [main], with its 512-byte buffer: the
    output file, or [None] when a rule is too large. *)
Fixpoint generate_loop (pcs : list fs_path_config) : option bytes :=
  match pcs with
  | [] => Some []
  | pc :: pcs' =>
      match fs_config_generate 512 pc with
      | inl _ => None
      | inr b => rest ← generate_loop pcs'; Some (b ++ rest)
      end
  end.
