(* ===== verification/FsConfigSpec.v ===== *)
(** * Which rule [fs_config] applies

    Rule matching on strings, the proof that rule files written by the
    generator are read back rule by rule with the compiled-in table as a
    fallback, and two consequences of how the rules are written and read. *)

From S2P Require Import Prelude.
From S2P Require Import CString.
From S2P Require Import FsConfig.

(** ** Little-endian loads *)
Lemma get2LE_decode b0 b1 rest : in_range 8 b0 -> in_range 8 b1 -> get2LE (b0 :: b1 :: rest) = le_decode [b0; b1].
Proof.
  intros H0 _. unfold get2LE. change (rd (b0 :: b1 :: rest) 0) with b0. change (rd (b0 :: b1 :: rest) 1) with b1.
  rewrite lor_shiftl_add by (apply H0 || lia). simpl. lia.
Qed.

Lemma or4_le b0 b1 b2 b3 : in_range 8 b0 -> in_range 8 b1 -> in_range 8 b2 -> in_range 8 b3 ->
  u32 (Z.lor (Z.lor (Z.lor b0 (Z.shiftl b1 8)) (Z.shiftl b2 16)) (Z.shiftl b3 24)) = le_decode [b0; b1; b2; b3].
Proof.
  unfold in_range. intros H0 H1 H2 H3. rewrite (lor_shiftl_add b0 b1 8), (lor_shiftl_add _ b2 16), (lor_shiftl_add _ b3 24) by lia.
  rewrite wrap_small by (unfold in_range; lia). simpl. lia.
Qed.

Lemma get8LE_decode b0 b1 b2 b3 b4 b5 b6 b7 rest : Forall (in_range 8) [b0; b1; b2; b3; b4; b5; b6; b7] ->
  get8LE (b0 :: b1 :: b2 :: b3 :: b4 :: b5 :: b6 :: b7 :: rest) = le_decode [b0; b1; b2; b3; b4; b5; b6; b7].
Proof.
  rewrite !Forall_cons. intros (H0 & H1 & H2 & H3 & H4 & H5 & H6 & H7 & _). set (l := b0 :: b1 :: _). unfold get8LE.
  change (rd l 0) with b0. change (rd l 1) with b1. change (rd l 2) with b2. change (rd l 3) with b3.
  change (rd l 4) with b4. change (rd l 5) with b5. change (rd l 6) with b6. change (rd l 7) with b7.
  rewrite !or4_le by done. unfold in_range in *. rewrite Z.lor_comm, lor_shiftl_add by (simpl; lia). simpl. lia.
Qed.

Lemma get2LE_encode n x rest : get2LE (le_encode (S (S n)) x ++ rest) = u16 x.
Proof.
  cbn [le_encode app]. rewrite get2LE_decode by (by apply wrap_range).
  change [wrap 8 x; wrap 8 (Z.shiftr x 8)] with (le_encode 2 x). apply le_decode_encode.
Qed.

Lemma get8LE_encode x rest : get8LE (le_encode 8 x ++ rest) = u64 x.
Proof.
  cbn [le_encode app]. rewrite get8LE_decode by (apply (le_encode_ok 8 x)).
  apply (le_decode_encode 8 x).
Qed.

Lemma get2LE_encode' n x : get2LE (le_encode (S (S n)) x) = u16 x.
Proof. rewrite <- (app_nil_r (le_encode _ _)). apply get2LE_encode. Qed.

Lemma get8LE_encode' x : get8LE (le_encode 8 x) = u64 x.
Proof. rewrite <- (app_nil_r (le_encode _ _)). apply get8LE_encode. Qed.

(** ** Matching *)
Definition STAR : Z := 42.

(** Does a rule apply to a path? *)
Definition rule_applies (dir : bool) (prefix path : bytes) : bool :=
  if dir then bool_decide (take (length prefix) path = prefix)
  else match last prefix with
       | Some c => if c =? STAR then bool_decide (take (length prefix - 1) path = take (length prefix - 1) prefix)
                   else bool_decide (path = prefix)
       | None => false
       end.

Lemma strncmp_eq_take a b n : cstr_ok a -> cstr_ok b -> (n <= length a)%nat ->
  strncmp_eq a b (Z.of_nat n) = bool_decide (take n b = take n a).
Proof.
  intros Ha Hb Hn. unfold strncmp_eq. rewrite Nat2Z.id. apply bool_decide_ext. rewrite (take_app_le a) by done.
  destruct (le_lt_dec n (length b)).
  - rewrite take_app_le by done. naive_solver.
  - assert (Hne : length (take n b) <> length (take n a)) by (rewrite !length_take; lia). split; intros E.
    + exfalso. assert (Hin : 0 ∈ take n (b ++ [0])).
      { rewrite take_ge by (rewrite length_app; simpl; lia). set_solver. }
      rewrite <- E in Hin. pose proof (proj1 (Forall_forall _ _) (cstr_ok_take n a Ha) 0 Hin). simpl in *. lia.
    + by rewrite E in Hne.
Qed.

Lemma fs_config_cmp_spec dir prefix path : cstr_ok prefix -> cstr_ok path -> dir = true \/ prefix <> [] ->
  fs_config_cmp dir prefix path = Ret (rule_applies dir prefix path).
Proof.
  intros Hp Hpa Hd. unfold fs_config_cmp, rule_applies. destruct dir.
  - destruct (Z.ltb_spec (Z.of_nat (length path)) (Z.of_nat (length prefix))) as [H | H].
    + f_equal. symmetry. apply bool_decide_false. intros E. apply (f_equal length) in E. rewrite length_take in E. lia.
    + by rewrite strncmp_eq_take, (take_ge prefix) by (done || lia).
  - destruct Hd as [? | Hne]; [done |]. destruct prefix as [|c prefix _] using rev_ind; [done |].
    rewrite last_snoc, length_app. simpl length. rewrite Nat.add_sub.
    replace (Z.of_nat (length prefix + 1) - 1) with (Z.of_nat (length prefix)) by lia. unfold rd_mem.
    assert ((0 <=? Z.of_nat (length prefix)) && (Z.of_nat (length prefix) <? Z.of_nat (length (prefix ++ [c]))) = true) as ->
      by (rewrite length_app; simpl; apply andb_true_iff; split; [apply Z.leb_le | apply Z.ltb_lt]; lia).
    rewrite bind_ret. rewrite (rd_lookup _ _ c) by (rewrite Nat2Z.id, lookup_app_r, Nat.sub_diag by lia; done). unfold STAR.
    destruct (c =? 42); [by rewrite strncmp_eq_take by (done || rewrite length_app; simpl; lia) |].
    destruct (Z.eqb_spec (Z.of_nat (length path)) (Z.of_nat (length prefix + 1))) as [H | H]; cbn [negb].
    + rewrite strncmp_eq_take by (done || rewrite length_app; simpl; lia). f_equal. rewrite !take_ge by (rewrite ?length_app; simpl; lia). done.
    + f_equal. symmetry. apply bool_decide_false. intros ->. rewrite length_app in H. simpl in H. lia.
Qed.

(** The first rule that applies. *)
Definition first_rule (dir : bool) (path : bytes) (pcs : list fs_path_config) : option fs_path_config :=
  List.find (fun pc => rule_applies dir (c_prefix pc) path) pcs.

Definition rules_ok (dir : bool) (pcs : list fs_path_config) : Prop :=
  Forall (fun pc => cstr_ok (c_prefix pc) /\ (dir = true \/ c_prefix pc <> [])) pcs.

Lemma table_loop_spec dir path pcs last : cstr_ok path -> rules_ok dir pcs ->
  table_loop dir path pcs last = Ret (default last (first_rule dir path pcs)).
Proof.
  intros Hp. induction 1 as [|pc pcs [Hc Hd] Hr IH]; [done |]. cbn [table_loop first_rule List.find].
  rewrite fs_config_cmp_spec by done. rewrite bind_ret. destruct (rule_applies _ _ _); [done | apply IH].
Qed.

Definition cstr_okb (s : bytes) : bool := forallb (fun c => (0 <? c) && (c <? 256)) s.

Lemma cstr_okb_sound s : cstr_okb s = true -> cstr_ok s.
Proof.
  unfold cstr_okb. rewrite forallb_forall. intros H. apply Forall_forall. intros x Hx.
  apply list_elem_of_In, H in Hx. zbool. lia.
Qed.

Definition rules_okb (dir : bool) (pcs : list fs_path_config) : bool :=
  forallb (fun pc => cstr_okb (c_prefix pc) && (dir || (0 <? length (c_prefix pc))%nat)) pcs.

Lemma rules_okb_sound dir pcs : rules_okb dir pcs = true -> rules_ok dir pcs.
Proof.
  unfold rules_okb. rewrite forallb_forall. intros H. apply Forall_forall. intros x Hx.
  apply list_elem_of_In, H in Hx. apply andb_true_iff in Hx as [H1 H2]. split; [by apply cstr_okb_sound |].
  apply orb_true_iff in H2 as [H2 | H2]; [by left |]. right. apply Nat.ltb_lt in H2. intros E. rewrite E in H2. simpl in H2. lia.
Qed.

(** ** Rule files *)
Lemma ALIGN8_bounds x : x <= ALIGN8 x < x + 8.
Proof.
  unfold ALIGN8. rewrite <- Z.ldiff_land. change (Z.ldiff (x + 7) 7) with (Z.ldiff (x + 7) (Z.ones 3)). rewrite Z.ldiff_ones_r by lia.
  rewrite Z.shiftr_div_pow2, Z.shiftl_mul_pow2 by lia. change (2 ^ 3) with 8. dmlia.
Qed.

(** A rule as a rule file stores it. *)
Definition stored (mode0 : Z) (pc : fs_path_config) : owner :=
  Owner (u16 (c_uid pc)) (u16 (c_gid pc)) (set_mode mode0 (u16 (c_mode pc))) (u64 (c_capabilities pc)).


(** The 16-byte header and the name of a generated rule. *)
Definition rule_header (len : Z) (pc : fs_path_config) : bytes :=
  le_encode 2 len ++ le_encode 2 (u16 (c_mode pc)) ++ le_encode 2 (u16 (c_uid pc)) ++ le_encode 2 (u16 (c_gid pc))
  ++ le_encode 8 (u64 (c_capabilities pc)).

Lemma generate_shape pc b : cstr_ok (c_prefix pc) -> fs_config_generate 512 pc = inr b ->
  exists len z, 16 < len <= 512 /\ b = rule_header len pc ++ c_prefix pc ++ replicate z 0 /\
    (0 < z)%nat /\ Z.of_nat (length (c_prefix pc) + z) = len - 16.
Proof.
  intros Hc E. unfold fs_config_generate in E. set (len := ALIGN8 _) in E.
  pose proof (ALIGN8_bounds (SIZEOF_HEADER + Z.of_nat (length (c_prefix pc)) + 1)) as Hl. fold len in Hl. unfold SIZEOF_HEADER in *.
  destruct (Z.ltb_spec 512 len); [done |]. destruct (Z.ltb_spec UINT16_MAX len); [done |]. cbn [orb] in E. apply (inj inr) in E. subst b.
  exists len, (Z.to_nat (len - 16 - Z.of_nat (length (c_prefix pc)))). split; [lia |]. split; [| lia].
  unfold rule_header. rewrite <- !app_assoc, !get2LE_encode', get8LE_encode'. by rewrite (wrap_small 16 len) by (unfold in_range; lia).
Qed.

Lemma rule_header_fields len pc : 0 <= len < 65536 ->
  length (rule_header len pc) = 16%nat /\ get2LE (rule_header len pc) = len /\
  get2LE (drop 2 (rule_header len pc)) = u16 (c_mode pc) /\ get2LE (drop 4 (rule_header len pc)) = u16 (c_uid pc) /\
  get2LE (drop 6 (rule_header len pc)) = u16 (c_gid pc) /\ get8LE (drop 8 (rule_header len pc)) = u64 (c_capabilities pc).
Proof.
  intros Hl. unfold rule_header. split; [by rewrite !length_app, !le_encode_length |].
  split_and!.
  - rewrite get2LE_encode. by apply wrap_small.
  - etransitivity; [apply get2LE_encode | by apply wrap_idemp].
  - etransitivity; [apply get2LE_encode | by apply wrap_idemp].
  - etransitivity; [apply get2LE_encode | by apply wrap_idemp].
  - etransitivity; [apply get8LE_encode' | by apply wrap_idemp].
Qed.

(** Reading one generated rule. *)
Lemma conf_loop_step dir path mode0 pc b f fuel : cstr_ok (c_prefix pc) -> fs_config_generate 512 pc = inr b ->
  conf_loop (S fuel) dir path mode0 [] (b ++ f) =
  (found ← fs_config_cmp dir (c_prefix pc) path;
   if (found : bool) then Ret (Some (stored mode0 pc)) else conf_loop fuel dir path mode0 [] f).
Proof.
  intros Hc Eb. destruct (generate_shape pc b Hc Eb) as (len & z & Hlen & -> & Hz & Hlz).
  destruct (rule_header_fields len pc ltac:(lia)) as (L & F1 & F2 & F3 & F4 & F5).
  cbn [conf_loop]. rewrite <- !app_assoc. unfold SIZEOF_HEADER. change (Z.to_nat 16) with 16%nat.
  rewrite <- L, take_app_length, drop_app_length, F1, F2, F3, F4, F5.
  destruct (Z.ltb_spec (Z.of_nat (length (rule_header len pc ++ c_prefix pc ++ replicate z 0 ++ f))) 16) as [H | _];
    [rewrite length_app, L in H; lia |].
  destruct (Z.leb_spec (len - 16) 0); [lia |]. cbn [hd negb]. rewrite (app_assoc (c_prefix pc)).
  assert (Hlen2 : length (c_prefix pc ++ replicate z 0) = Z.to_nat (len - 16)) by (rewrite length_app, length_replicate; lia).
  destruct (Z.ltb_spec (Z.of_nat (length ((c_prefix pc ++ replicate z 0) ++ f))) (len - 16)) as [H1 | _]; [rewrite length_app in H1; lia |].
  rewrite <- Hlen2, take_app_length, drop_app_length, cstring_zeros by done.
  destruct (Z.leb_spec (len - 16) (Z.of_nat (length (c_prefix pc)))); [lia | done].
Qed.

Lemma conf_loop_spec dir path mode0 : cstr_ok path -> forall pcs f fuel, rules_ok dir pcs -> generate_loop pcs = Some f ->
  (length pcs < fuel)%nat -> conf_loop fuel dir path mode0 [] f = Ret (stored mode0 <$> first_rule dir path pcs).
Proof.
  intros Hp. induction pcs as [|pc pcs IH]; intros f fuel Hr Eg Hf; (destruct fuel as [|fuel]; [simpl in Hf; lia |]); cbn [generate_loop] in Eg.
  - by injection Eg as <-.
  - destruct (fs_config_generate 512 pc) as [|b] eqn:Eb; [done |]. destruct (generate_loop pcs) as [f'|] eqn:Ef; [| done].
    injection Eg as <-. apply Forall_cons in Hr as [[Hc Hd] Hr]. rewrite (conf_loop_step _ _ _ pc) by done.
    rewrite fs_config_cmp_spec by done. rewrite bind_ret. cbn [first_rule List.find]. destruct (rule_applies _ _ _); [done |].
    apply IH; [done | done | simpl in Hf; lia].
Qed.

(** ** Directory rules that can apply

    A rule whose prefix extends the one of an earlier rule never applies. *)
Fixpoint live (seen l : list fs_path_config) : list fs_path_config :=
  match l with
  | [] => []
  | pc :: l' =>
      if existsb (fun e => rule_applies true (c_prefix e) (c_prefix pc)) seen then live seen l' else pc :: live (pc :: seen) l'
  end.

Lemma prefix_trans (a b c : bytes) : take (length a) b = a -> take (length b) c = b -> take (length a) c = a.
Proof.
  intros Hab Hbc. assert (length a <= length b)%nat by (rewrite <- Hab, length_take; lia).
  rewrite <- Hab at 2. rewrite <- Hbc at 1. rewrite take_take. f_equal. lia.
Qed.

Lemma first_rule_live path pc : forall l seen, Forall (fun e => rule_applies true (c_prefix e) path = false) seen ->
  first_rule true path l = Some pc -> pc ∈ live seen l.
Proof.
  induction l as [|x l IH]; intros seen Hs E; [done |]. cbn [first_rule List.find live] in *.
  destruct (existsb _ seen) eqn:Ex.
  - apply existsb_exists in Ex as (e & He & Ha). destruct (rule_applies true (c_prefix x) path) eqn:Ea; [exfalso | by apply IH].
    rewrite Forall_forall in Hs. apply list_elem_of_In in He. specialize (Hs e He). unfold rule_applies in Ha, Ea, Hs.
    apply bool_decide_eq_true in Ha, Ea. apply bool_decide_eq_false in Hs. apply Hs. by apply (prefix_trans _ (c_prefix x)).
  - destruct (rule_applies true (c_prefix x) path) eqn:Ea; [injection E as ->; left |]. right. apply IH; [by constructor | done].
Qed.

Lemma live_uid pc : pc ∈ live [] android_dirs -> c_uid pc ∉ [AID_DHCP; AID_SHARED_RELRO].
Proof.
  intros H. assert (Hb : forallb (fun pc => bool_decide (c_uid pc ∉ [AID_DHCP; AID_SHARED_RELRO])) (live [] android_dirs) = true)
    by (vm_compute; reflexivity).
  rewrite forallb_forall in Hb. apply list_elem_of_In, Hb, bool_decide_eq_true in H. done.
Qed.

(** ** The whole function *)
Definition strip_slash (path : bytes) : bytes :=
  match path with c :: p => if c =? 47 then p else path | [] => [] end.

Definition builtin (dir : bool) (path : bytes) : fs_path_config :=
  default (if dir then default_dir else default_file) (first_rule dir path (if dir then android_dirs else android_files)).

Definition compiled_in (mode0 : Z) (pc : fs_path_config) : owner :=
  Owner (c_uid pc) (c_gid pc) (set_mode mode0 (c_mode pc)) (c_capabilities pc).

Lemma builtin_rules_ok (dir : bool) : rules_ok dir (if dir then android_dirs else android_files).
Proof. apply rules_okb_sound. destruct dir; vm_compute; reflexivity. Qed.

Lemma strip_slash_ok path : cstr_ok path -> cstr_ok (strip_slash path).
Proof. destruct 1 as [|c p Hc Hp]; [constructor |]. simpl. destruct (c =? 47); [done | by constructor]. Qed.

Lemma builtin_spec dir path mode0 : cstr_ok path ->
  (pc ← table_loop dir path (if dir then android_dirs else android_files) (if dir then default_dir else default_file);
   Ret (Owner (c_uid pc) (c_gid pc) (set_mode mode0 (c_mode pc)) (c_capabilities pc))) = Ret (compiled_in mode0 (builtin dir path)).
Proof. intros Hp. rewrite table_loop_spec by (done || apply builtin_rules_ok). done. Qed.

Lemma generate_length pcs f : generate_loop pcs = Some f -> (length pcs <= length f)%nat.
Proof.
  revert f. induction pcs as [|pc pcs IH]; intros f E; cbn [generate_loop] in E; [by simplify_eq |].
  destruct (fs_config_generate 512 pc) as [|b] eqn:Eb; [done |]. destruct (generate_loop pcs) as [f'|]; [| done]. injection E as <-.
  assert (0 < length b)%nat.
  { unfold fs_config_generate in Eb. destruct (_ || _); [done |]. apply (inj inr) in Eb. subst b. rewrite length_app, le_encode_length. lia. }
  rewrite length_app. specialize (IH f' eq_refl). simpl. lia.
Qed.

(** ** An example *)
Definition fx_rules : list fs_path_config :=
  [cfg (oct 0 7 5 0) AID_ROOT AID_SHELL 0 "sbin/charger*"; cfg (oct 0 6 0 0) AID_RADIO AID_ROOT 64 "vendor/keys"].
Definition no_conf (fn : bytes) : option bytes := None.
Definition fx_file : bytes := Eval vm_compute in default [] (generate_loop fx_rules).
Definition fx_conf (fn : bytes) : option bytes := if bool_decide (fn = str "out/system/etc/fs_config_files") then Some fx_file else None.

(** ** Properties *)

(** C24. Rule files and rules: with a rule file written by fs_config_generate
    from a list of rules, [fs_config] gives a path the owner, group, mode and
    capabilities of the first rule of the list that applies to it, and
    otherwise those of the first compiled-in rule, or the default. *)
Theorem fs_config_roundtrip conf path (dir : bool) target mode0 rules f : cstr_ok path -> rules_ok dir rules ->
  fs_config_open conf dir target = Some f -> generate_loop rules = Some f ->
  fs_config conf [] path dir target mode0 =
  Ret (match first_rule dir (strip_slash path) rules with
       | Some pc => stored mode0 pc
       | None => compiled_in mode0 (builtin dir (strip_slash path))
       end).
Proof.
  intros Hp Hr Ho Hg. unfold fs_config. fold (strip_slash path). rewrite Ho. apply strip_slash_ok in Hp.
  rewrite (conf_loop_spec dir (strip_slash path) mode0 Hp rules f) by (done || apply generate_length in Hg; lia). rewrite bind_ret.
  destruct (first_rule dir (strip_slash path) rules); [done |]. by apply builtin_spec.
Qed.

Lemma fs_config_roundtrip_witness :
  fs_config fx_conf [] (str "sbin/charger_res") false (Some (str "out/system")) 0x8000 =
  Ret (match first_rule false (strip_slash (str "sbin/charger_res")) fx_rules with
       | Some pc => stored 0x8000 pc
       | None => compiled_in 0x8000 (builtin false (strip_slash (str "sbin/charger_res")))
       end).
Proof.
  apply (fs_config_roundtrip fx_conf (str "sbin/charger_res") false (Some (str "out/system")) 0x8000 fx_rules fx_file).
  - apply cstr_okb_sound. reflexivity.
  - apply rules_okb_sound. reflexivity.
  - vm_compute. reflexivity.
  - vm_compute. reflexivity.
Defined.

(** Without rule files [fs_config] always returns, with the first
    compiled-in rule that applies; and no directory is given to the dhcp or
    shared_relro users, whose rules follow the one for their parent. *)
Theorem fs_config_builtin conf path (dir : bool) target mode0 : cstr_ok path -> fs_config_open conf dir target = None ->
  fs_config conf [] path dir target mode0 = Ret (compiled_in mode0 (builtin dir (strip_slash path))) /\
  (dir = true -> c_uid (builtin dir (strip_slash path)) ∉ [AID_DHCP; AID_SHARED_RELRO]).
Proof.
  intros Hp Ho. unfold fs_config. fold (strip_slash path). rewrite Ho, bind_ret. apply strip_slash_ok in Hp.
  split; [by apply builtin_spec |]. intros ->. unfold builtin.
  destruct (first_rule true (strip_slash path) android_dirs) as [pc|] eqn:E; cbn [default].
  - apply (first_rule_live _ _ _ [] (Forall_nil_2 _)) in E. apply (live_uid pc E).
  - apply (bool_decide_eq_true_1 _). vm_compute. reflexivity.
Qed.

Lemma fs_config_builtin_witness :
  fs_config no_conf [] (str "/data/misc/dhcp") true None 0x4000 =
    Ret (compiled_in 0x4000 (builtin true (strip_slash (str "/data/misc/dhcp")))) /\
  (true = true -> c_uid (builtin true (strip_slash (str "/data/misc/dhcp"))) ∉ [AID_DHCP; AID_SHARED_RELRO]).
Proof.
  apply (fs_config_builtin no_conf (str "/data/misc/dhcp") true None 0x4000); [| reflexivity].
  apply cstr_okb_sound. reflexivity.
Defined.

(** fs_config_generate accepts a file rule with an empty prefix, and
    [fs_config] then reads the byte before the prefix. *)
Theorem fs_config_empty_prefix conf path target mode0 m u g caps f : fs_config_open conf false target = Some f ->
  generate_loop [Cfg m u g caps []] = Some f -> fs_config conf [] path false target mode0 = Fault OutOfBounds.
Proof.
  intros Ho Hg. unfold fs_config. rewrite Ho. cbn [generate_loop] in Hg.
  destruct (fs_config_generate 512 _) as [|b] eqn:Eb; [done |]. simpl in Hg. injection Hg as <-.
  rewrite (conf_loop_step _ _ _ (Cfg m u g caps []) b []); [done | apply Forall_nil_2 | done].
Qed.

Lemma fs_config_empty_prefix_witness :
  fs_config (fun _ => Some (default [] (generate_loop [Cfg 420 0 0 0 []]))) [] (str "init") false None 0x8000 = Fault OutOfBounds.
Proof.
  apply (fs_config_empty_prefix (fun _ => Some (default [] (generate_loop [Cfg 420 0 0 0 []]))) (str "init") None 0x8000 420 0 0 0
    (default [] (generate_loop [Cfg 420 0 0 0 []]))); reflexivity.
Defined.
