(* ===== verification/MkBootFs.v ===== *)
(** * mkbootfs

    Models src/system/core/cpio/mkbootfs.c, which writes the ramdisk of a boot
    image as a cpio archive. A directory tree is a [node]; entries come in the
    order [readdir] gives them. [None] is the exit with status 1 of [die].
    Messages on stderr are not modelled. *)

From S2P Require Import Prelude.
From S2P Require Import CString.
From S2P Require Import FsConfig.

#[local] Set Warnings "-register-all".

(** ** The file system *)

(** Permission bits, contents, and whether every call on the file succeeds.
    A symbolic link whose target cannot be read has none; [Missing] is a name
    that cannot be stat'ed. *)
Inductive node :=
  | Reg (perm : Z) (data : bytes) (ok : bool)
  | Dir (perm : Z) (entries : list (bytes * node)) (ok : bool)
  | Lnk (perm : Z) (target : option bytes)
  | Special (perm : Z)
  | Missing.

Definition S_IFREG : Z := 0x8000.
Definition S_IFDIR : Z := 0x4000.
Definition S_IFLNK : Z := 0xA000.

Definition S_ISDIR (st_mode : Z) : bool := Z.land st_mode 0xF000 =? S_IFDIR.

(** ** Ownership *)
Record fs_config_entry := Entry { e_name : bytes; e_uid : Z; e_gid : Z; e_mode : Z }.

(** [for (p = canned_config; p->name; ++p)] *)
Fixpoint canned_loop (empty_path_config : option fs_config_entry) (path : bytes) (l : list fs_config_entry) : outcome fs_config_entry :=
  match l with
  | [] => match empty_path_config with None => Fault NullDeref | Some e => Ret e end
  | p :: l' =>
      let empty_path_config := match e_name p with [] => Some p | _ => empty_path_config end in
      if bool_decide (e_name p = path) then Ret p else canned_loop empty_path_config path l'
  end.

(** What the program was started with: the canned configuration, the rule
    files [fs_config] may open and the argument of -d. *)
Record config := mk_config {
  canned_config : option (list fs_config_entry);
  conf : bytes -> option bytes;
  target_out_path : option bytes
}.

(** The new [st_mode]; the owners are not written to the archive. *)
Definition fix_stat (cf : config) (path : bytes) (st_mode : Z) : outcome Z :=
  match canned_config cf with
  | Some l =>
      p ← canned_loop None path l;
      Ret (u32 (Z.lor (e_mode p) (Z.land st_mode (Z.lnot (oct 7 7 7 7)))))
  | None =>
      o ← fs_config (conf cf) [] path (S_ISDIR st_mode) (target_out_path cf) st_mode;
      Ret (mode o)
  end.

(** ** Output *)
Record state := mk_state { out_ : bytes; total_size : Z; next_inode : Z }.

Definition putchar (c : Z) (s : state) : state := mk_state (out_ s ++ [c]) (total_size s) (next_inode s).
Definition add_size (n : Z) (s : state) : state := mk_state (out_ s) (i32 (total_size s + n)) (next_inode s).

(** [while(total_size & mask)] *)
Fixpoint eject_pad (fuel : nat) (mask : Z) (s : state) : outcome state :=
  if Z.land (total_size s) mask =? 0 then Ret s else
  match fuel with
  | O => Diverge
  | S fuel' => eject_pad fuel' mask (putchar 0 (add_size 1 s))
  end.

Definition _eject (cf : config) (st_mode : Z) (out : bytes) (olen : Z) (data : bytes) (datasize : Z) (s : state)
    : outcome (option state) :=
  s ← eject_pad 3 3 s;
  st_mode ← fix_stat cf out st_mode;
  let header :=
    hex 6 0x070701 ++ hex 8 (next_inode s) ++ hex 8 st_mode ++ hex 8 0 ++ hex 8 0 ++ hex 8 1 ++ hex 8 0 ++ hex 8 datasize
    ++ hex 8 0 ++ hex 8 0 ++ hex 8 0 ++ hex 8 0 ++ hex 8 (u32 (olen + 1)) ++ hex 8 0 ++ out ++ [0] in
  let s := mk_state (out_ s ++ header) (i32 (total_size s + (6 + 8 * 13 + olen + 1))) (u32 (next_inode s + 1)) in
  if negb (Z.of_nat (length out) =? olen) then Ret None else
  s ← eject_pad 3 3 s;
  if datasize =? 0 then Ret (Some s) else
  Ret (Some (mk_state (out_ s ++ take (Z.to_nat datasize) data) (i32 (total_size s + datasize)) (next_inode s))).

Definition _eject_trailer (cf : config) (s : state) : outcome (option state) :=
  r ← _eject cf 0 (str "TRAILER!!!") 10 [] 0 s;
  match r with
  | None => Ret None
  | Some s => s ← eject_pad 255 255 s; Ret (Some s)
  end.

(** ** Walking the tree *)
Definition PATH_BUF : Z := 8192.

(** What [_archive] does for an entry, given the length of its path in [in]
    and its path in [out]. *)
Definition action : Type := Z -> bytes -> state -> outcome (option state).

(** [qsort(names, entries, sizeof(char* ), compare)]: names in a directory are
    distinct, so the order is determined. *)
Fixpoint insert_entry {A} (x : bytes * A) (l : list (bytes * A)) : list (bytes * A) :=
  match l with
  | [] => [x]
  | y :: l' => if strle x.1 y.1 then x :: l else y :: insert_entry x l'
  end.
Fixpoint sort_entries {A} (l : list (bytes * A)) : list (bytes * A) :=
  match l with
  | [] => []
  | x :: l' => insert_entry x (sort_entries l')
  end.

(** Dotfiles and entries named root are skipped. *)
Definition listed (nm : bytes) : bool :=
  negb (match nm with c :: _ => c =? 46 | [] => false end) && negb (bool_decide (nm = str "root")).

Definition dir_list {A} (l : list (bytes * A)) : list (bytes * A) :=
  sort_entries (List.filter (fun e => listed e.1) l).

(** [for (i = 0; i < entries; ++i)] *)
Fixpoint dir_loop (ilen : Z) (out : bytes) (l : list (bytes * action)) (s : state) : outcome (option state) :=
  match l with
  | [] => Ret (Some s)
  | (nm, act) :: l' =>
      let t := Z.of_nat (length nm) in
      if PATH_BUF <? ilen + 1 + t + 1 then Fault OutOfBounds else
      let olen := Z.of_nat (length out) in
      let out' := if 0 <? olen then out ++ [47] ++ nm else nm in
      if PATH_BUF <? Z.of_nat (length out') + 1 then Fault OutOfBounds else
      r ← act (ilen + t + 1) out' s;
      match r with
      | None => Ret None
      | Some s => dir_loop ilen out l' s
      end
  end.

Section Archive.
Context (cf : config).

Fixpoint _archive (n : node) : action := fun ilen out s =>
  let olen := Z.of_nat (length out) in
  match n with
  | Missing => Ret None
  | Reg perm data ok =>
      if negb ok then Ret None else
      _eject cf (Z.lor S_IFREG perm) out olen data (u32 (Z.of_nat (length data))) s
  | Dir perm entries ok =>
      r ← _eject cf (Z.lor S_IFDIR perm) out olen [] 0 s;
      match r with
      | None => Ret None
      | Some s =>
          if negb ok then Ret None else
          dir_loop ilen out (dir_list (map (fun e => (fst e, _archive (snd e))) entries)) s
      end
  | Lnk perm target =>
      match target with
      | None => Ret None
      | Some t =>
          let buf := take 1024 t in
          _eject cf (Z.lor S_IFLNK perm) out olen buf (Z.of_nat (length buf)) s
      end
  | Special _ => Ret None
  end.

(** [_archive_dir] on the directory itself, without an entry for it *)
Definition _archive_dir (n : node) : action := fun ilen out s =>
  match n with
  | Dir _ entries true => dir_loop ilen out (dir_list (map (fun e => (fst e, _archive (snd e))) entries)) s
  | _ => Ret None
  end.

Definition archive (roots : bytes -> node) (start prefix : bytes) (s : state) : outcome (option state) :=
  let ilen := Z.of_nat (length start) in
  if PATH_BUF <? ilen + 1 then Fault OutOfBounds else
  if PATH_BUF <? Z.of_nat (length prefix) + 1 then Fault OutOfBounds else
  _archive_dir (roots start) ilen prefix s.
End Archive.

(** ** The canned configuration *)
Section Canned.
Context (CANNED_LINE_LENGTH : nat).

(** [fgets]: a line with its newline, at most [n - 1] characters *)
Fixpoint fgets (n : nat) (f : bytes) : bytes * bytes :=
  match n, f with
  | S (S n'), c :: f' => if c =? 10 then ([c], f') else let '(l, r) := fgets (S n') f' in (c :: l, r)
  | _, _ => ([], f)
  end.

Definition delim (c : Z) : bool := (c =? 32) || (c =? 10).

(** [strtok] where the caller passes the result on without looking at it *)
Definition token (s : bytes) : outcome (bytes * bytes) :=
  match strtok delim s with
  | None => Fault NullDeref
  | Some r => Ret r
  end.

Definition parse_line (line : bytes) : outcome fs_config_entry :=
  '(nm, line) ← (if isspace (hd 0 line) then Ret ([], line) else token line);
  '(u, line) ← token line;
  '(g, line) ← token line;
  '(m, _) ← token line;
  Ret (Entry nm (atoi u) (atoi g) (i32 (strtol m 8))).

Fixpoint canned_lines (fuel : nat) (f : bytes) : outcome (list fs_config_entry) :=
  match fuel with
  | O => Diverge
  | S fuel' =>
      match f with
      | [] => Ret []
      | _ =>
          let '(line, f') := fgets CANNED_LINE_LENGTH f in
          let line := cstring line in
          match line with
          | [] => Ret []
          | _ =>
              e ← parse_line line;
              es ← canned_lines fuel' f';
              Ret (e :: es)
          end
      end
  end.

Definition read_canned_config (file : option bytes) : outcome (option (list fs_config_entry)) :=
  match file with
  | None => Ret None
  | Some f => l ← canned_lines (S (length f)) f; Ret (Some l)
  end.

(** ** The program *)

(** [strchr( *argv, '=')]: the directory and the prefix *)
Fixpoint split_eq (s : bytes) : bytes * bytes :=
  match s with
  | [] => ([], [])
  | c :: s' => if c =? 61 then ([], s') else let '(a, b) := split_eq s' in (c :: a, b)
  end.

Fixpoint args_loop (cf : config) (roots : bytes -> node) (argv : list bytes) (s : state) : outcome (option state) :=
  match argv with
  | [] => Ret (Some s)
  | a :: argv' =>
      let '(start, prefix) := split_eq a in
      r ← archive cf roots start prefix s;
      match r with
      | None => Ret None
      | Some s => args_loop cf roots argv' s
      end
  end.

Definition start_state : state := mk_state [] 0 300000.

(** After the options. *)
Definition run (cf : config) (roots : bytes -> node) (argv : list bytes) : outcome (option bytes) :=
  match argv with
  | [] => Ret None
  | _ =>
      r ← args_loop cf roots argv start_state;
      match r with
      | None => Ret None
      | Some s => r ← _eject_trailer cf s; Ret (option_map out_ r)
      end
  end.

(** An option with a value at the front of the arguments. *)
Definition option_arg (name : string) (argv : list bytes) : option bytes * list bytes :=
  match argv with
  | a :: v :: rest => if bool_decide (a = str name) then (Some v, rest) else (None, argv)
  | _ => (None, argv)
  end.

(** The archive on stdout; [files] are the files that can be opened by name. *)
Definition main (files : bytes -> option bytes) (roots : bytes -> node) (argv : list bytes) : outcome (option bytes) :=
  let '(target, argv) := option_arg "-d" argv in
  let '(canned, argv) := option_arg "-f" argv in
  match canned with
  | None => run (mk_config None files target) roots argv
  | Some fn =>
      l ← read_canned_config (files fn);
      match l with
      | None => Ret None
      | Some l => run (mk_config (Some l) files target) roots argv
      end
  end.
End Canned.
