(* ===== verification/MkBootFsSpec.v ===== *)
(** * What the ramdisk archive holds

    A reader of the cpio format, the walk of a directory tree as a list of
    entries, and the proofs that the archive mkbootfs writes is read back as
    that list, that it does not depend on the order in which directories are
    read, and that a canned configuration needs a default entry. *)

From S2P Require Import Prelude.
From S2P Require Import CString.
From S2P Require Import FsConfig.
From S2P Require Import FsConfigSpec.
From S2P Require Import MkBootFs.

(** ** Reading cpio archives *)
Record cpio_entry := Cpio { c_ino : Z; c_mode_ : Z; c_name : bytes; c_data : bytes }.

Definition unhex (l : bytes) : Z := foldl (fun acc c => acc * 16 + digit_val c) 0 l.
Definition align4 (n : Z) : Z := (n + 3) / 4 * 4.
Definition field (l : bytes) (i : nat) : Z := unhex (take 8 (drop (6 + 8 * i) l)).

Fixpoint cpio_read (fuel : nat) (l : bytes) : option (list cpio_entry) :=
  match fuel with
  | O => None
  | S fuel' =>
      if negb (bool_decide (take 6 l = str "070701")) then None else
      let filesize := field l 6 in
      let namesize := field l 11 in
      let nm := take (Z.to_nat (namesize - 1)) (drop 110 l) in
      let rest := drop (Z.to_nat (align4 (110 + namesize))) l in
      if bool_decide (nm = str "TRAILER!!!") then Some [] else
      es ← cpio_read fuel' (drop (Z.to_nat (align4 filesize)) rest);
      Some (Cpio (field l 0) (field l 1) nm (take (Z.to_nat filesize) rest) :: es)
  end.

(** ** Hexadecimal fields *)
Lemma hex_length n x : length (hex n x) = n.
Proof. revert x. induction n as [|n IH]; intros x; [done |]. cbn [hex]. rewrite length_app, IH. simpl. lia. Qed.

Lemma digit_val_hex x : 0 <= x < 16 -> digit_val (hex_digit x) = x.
Proof.
  intros Hx. unfold hex_digit. destruct (Z.ltb_spec x 10); unfold digit_val.
  - destruct (Z.leb_spec 48 (48 + x)); [| lia]. destruct (Z.leb_spec (48 + x) 57); [cbn [andb]; lia | lia].
  - destruct (Z.leb_spec (87 + x) 57); [lia |]. rewrite andb_false_r. destruct (Z.leb_spec 97 (87 + x)); [| lia].
    destruct (Z.leb_spec (87 + x) 122); [cbn [andb]; lia | lia].
Qed.

Lemma unhex_app a c : unhex (a ++ [c]) = unhex a * 16 + digit_val c.
Proof. unfold unhex. by rewrite foldl_app. Qed.

Lemma unhex_hex n x : unhex (hex n x) = x mod 16 ^ Z.of_nat n.
Proof.
  revert x. induction n as [|n IH]; intros x; [by rewrite Z.mod_1_r |]. cbn [hex].
  rewrite unhex_app, IH, digit_val_hex by (apply Z.mod_pos_bound; lia).
  rewrite Nat2Z.inj_succ, Z.pow_succ_r, Z.rem_mul_r by lia. lia.
Qed.

Lemma unhex_hex8 x : in_range 32 x -> unhex (hex 8 x) = x.
Proof. intros Hx. rewrite unhex_hex. apply Z.mod_small. exact Hx. Qed.

(** ** Padding *)
Definition zeros (n : Z) : bytes := replicate (Z.to_nat n) 0.
Definition pad4 (l : bytes) : bytes := zeros ((- Z.of_nat (length l)) mod 4).

(** [total_size] is the number of bytes written, as an int. *)
Definition state_ok (s : state) : Prop := total_size s = i32 (Z.of_nat (length (out_ s))).

Lemma i32_land x k : 0 <= k <= 31 -> Z.land (i32 x) (2 ^ k - 1) = x mod 2 ^ k.
Proof.
  intros Hk. rewrite land_ones_mod by lia. unfold swrap. change (32 - 1) with 31.
  assert (E : 2 ^ 32 = 2 ^ k * 2 ^ (32 - k)) by (rewrite <- Z.pow_add_r by lia; f_equal; lia).
  rewrite E, Z.rem_mul_r by (apply Z.pow_nonzero || apply Z.pow_pos_nonneg; lia).
  assert (E2 : 2 ^ 31 = 2 ^ k * 2 ^ (31 - k)) by (rewrite <- Z.pow_add_r by lia; f_equal; lia).
  rewrite E2. rewrite (Z.mul_comm (2 ^ k) (2 ^ (31 - k))).
  rewrite Zminus_mod, Z.mod_mul, Z.sub_0_r, Z.mod_mod by (apply Z.pow_nonzero; lia).
  rewrite (Z.mul_comm (2 ^ k)), Z.mod_add by (apply Z.pow_nonzero; lia). rewrite Z.mod_mod by (apply Z.pow_nonzero; lia).
  by rewrite Z.mod_add by (apply Z.pow_nonzero; lia).
Qed.

Lemma i32_add_l x y : i32 (i32 x + y) = i32 (x + y).
Proof.
  unfold swrap. f_equal. replace ((x + 2 ^ (32 - 1)) mod 2 ^ 32 - 2 ^ (32 - 1) + y + 2 ^ (32 - 1)) with ((x + 2 ^ (32 - 1)) mod 2 ^ 32 + y) by lia.
  rewrite Zplus_mod_idemp_l. f_equal. lia.
Qed.

Lemma pad_loop_spec k : 0 <= k <= 31 -> forall n s fuel, state_ok s -> Z.of_nat n = (- Z.of_nat (length (out_ s))) mod 2 ^ k ->
  (n <= fuel)%nat -> exists s', eject_pad fuel (2 ^ k - 1) s = Ret s' /\ state_ok s' /\ out_ s' = out_ s ++ replicate n 0 /\
    next_inode s' = next_inode s.
Proof.
  intros Hk. induction n as [|n IH]; intros s fuel Hs Hn Hf.
  - exists s. assert (eject_pad fuel (2 ^ k - 1) s = Ret s) as ->; [| by rewrite app_nil_r].
    assert ((Z.land (total_size s) (2 ^ k - 1) =? 0) = true) as E.
    { rewrite Hs, i32_land by lia. apply Z.eqb_eq. 
      rewrite <- (Z.opp_involutive (Z.of_nat (length (out_ s)))). apply Z.mod_opp_l_z; [apply Z.pow_nonzero; lia |]. simpl in Hn. lia. }
    destruct fuel; cbn [eject_pad]; by rewrite E.
  - destruct fuel as [|fuel]; [lia |]. cbn [eject_pad]. set (L := Z.of_nat (length (out_ s))) in *.
    assert (Hp : 0 < 2 ^ k) by (apply Z.pow_pos_nonneg; lia).
    destruct (Z.eqb_spec (Z.land (total_size s) (2 ^ k - 1)) 0) as [E | E].
    { rewrite Hs, i32_land in E by lia. fold L in E. rewrite (Z.mod_opp_l_z L (2 ^ k)) in Hn by (done || lia). lia. }
    destruct (IH (putchar 0 (add_size 1 s)) fuel) as (s' & -> & H1 & H2 & H3); [| | lia |].
    + unfold state_ok, putchar, add_size. simpl. rewrite Hs, i32_add_l, length_app. f_equal. simpl. lia.
    + unfold putchar, add_size. simpl. rewrite length_app. simpl. rewrite Nat2Z.inj_add. fold L.
      replace (- (L + Z.of_nat 1)) with (- L - 1) by lia.
      rewrite <- (Z.mod_small (Z.of_nat n) (2 ^ k)) by (pose proof (Z.mod_pos_bound (- L) (2 ^ k) Hp); lia).
      rewrite <- (Zminus_mod_idemp_l (- L)), <- Hn. f_equal. lia.
    + exists s'. split; [done |]. split; [done |]. split; [| done]. rewrite H2. unfold putchar, add_size. simpl. by rewrite <- app_assoc.
Qed.

(** ** One entry *)
Definition raw : Type := Z * bytes * bytes.

Definition entry_header (e : cpio_entry) : bytes :=
  hex 6 0x070701 ++ hex 8 (c_ino e) ++ hex 8 (c_mode_ e) ++ hex 8 0 ++ hex 8 0 ++ hex 8 1 ++ hex 8 0 ++ hex 8 (Z.of_nat (length (c_data e)))
  ++ hex 8 0 ++ hex 8 0 ++ hex 8 0 ++ hex 8 0 ++ hex 8 (Z.of_nat (length (c_name e)) + 1) ++ hex 8 0.

(** An entry up to its data, the header starting at a multiple of 4. *)
Definition entry_bytes (e : cpio_entry) : bytes :=
  let h := entry_header e ++ c_name e ++ [0] in h ++ pad4 h ++ c_data e.

Definition block (e : cpio_entry) : bytes := entry_bytes e ++ pad4 (entry_bytes e).

Record entry_ok (e : cpio_entry) : Prop := mk_entry_ok {
  eo_ino : in_range 32 (c_ino e);
  eo_mode : in_range 32 (c_mode_ e);
  eo_name : Z.of_nat (length (c_name e)) + 1 < 2 ^ 32;
  eo_data : Z.of_nat (length (c_data e)) < 2 ^ 32
}.

(** Bytes written so far, completed to a multiple of 4. *)
Definition aligned (l : bytes) : bytes := l ++ pad4 l.

Lemma aligned_mod l : Z.of_nat (length (aligned l)) mod 4 = 0.
Proof.
  unfold aligned, pad4, zeros. rewrite length_app, length_replicate. rewrite Nat2Z.inj_add, Z2Nat.id by (apply Z.mod_pos_bound; lia). dmlia.
Qed.

Lemma pad4_app a b : Z.of_nat (length a) mod 4 = 0 -> pad4 (a ++ b) = pad4 b.
Proof. intros Ha. unfold pad4. f_equal. rewrite length_app, Nat2Z.inj_add. dmlia. Qed.

Lemma aligned_app a b : Z.of_nat (length a) mod 4 = 0 -> aligned (a ++ b) = a ++ aligned b.
Proof. intros Ha. unfold aligned. by rewrite pad4_app, app_assoc. Qed.

Lemma pad4_aligned l : pad4 (aligned l) = [].
Proof. unfold pad4. rewrite Z.mod_opp_l_z by (lia || apply aligned_mod). done. Qed.

Lemma pad4_state s : state_ok s -> exists s', eject_pad 3 3 s = Ret s' /\ state_ok s' /\ out_ s' = aligned (out_ s) /\
  next_inode s' = next_inode s.
Proof.
  intros Hs. change 3 with (2 ^ 2 - 1) at 1. set (n := Z.to_nat ((- Z.of_nat (length (out_ s))) mod 4)).
  destruct (pad_loop_spec 2 ltac:(lia) n s 3 Hs) as (s' & H); [..| exists s'; exact H];
    unfold n; change (2 ^ 2) with 4; pose proof (Z.mod_pos_bound (- Z.of_nat (length (out_ s))) 4 ltac:(lia)); lia.
Qed.

Lemma eject_spec cf m out data s m' : state_ok s -> fix_stat cf out m = Ret m' ->
  let e := Cpio (next_inode s) m' out data in entry_ok e ->
  exists s', _eject cf m out (Z.of_nat (length out)) data (Z.of_nat (length data)) s = Ret (Some s') /\ state_ok s' /\
    out_ s' = aligned (out_ s) ++ entry_bytes e /\ next_inode s' = u32 (next_inode s + 1).
Proof.
  intros Hs Hm e [E1 E2 E3 E4]. simpl in *. unfold _eject. destruct (pad4_state s Hs) as (s1 & -> & A1 & A2 & A3). rewrite bind_ret, Hm, bind_ret.
  rewrite Z.eqb_refl. cbn [negb]. rewrite (wrap_small 32 (_ + 1)) by (unfold in_range; lia). rewrite A3.
  match goal with |- context [mk_state (out_ s1 ++ ?h) _ _] => set (hdr := h) end.
  assert (Hh : hdr = entry_header e ++ out ++ [0]) by (unfold hdr, entry_header, e; simpl c_ino; simpl c_mode_; simpl c_data; simpl c_name; by rewrite <- !app_assoc).
  assert (Hl : Z.of_nat (length hdr) = 6 + 8 * 13 + Z.of_nat (length out) + 1).
  { rewrite Hh. unfold entry_header. rewrite !length_app, !hex_length. simpl. lia. }
  assert (He : entry_bytes e = hdr ++ pad4 hdr ++ data) by (rewrite Hh; reflexivity).
  clearbody hdr. set (s2 := mk_state _ _ _). assert (B : state_ok s2).
  { unfold state_ok, s2. simpl. rewrite A1, i32_add_l, length_app. f_equal. lia. }
  destruct (pad4_state s2 B) as (s3 & -> & C1 & C2 & C3). rewrite bind_ret.
  assert (Ho : out_ s3 = aligned (out_ s) ++ hdr ++ pad4 hdr).
  { rewrite C2. unfold aligned at 1, s2. simpl. rewrite A2, pad4_app by apply aligned_mod. by rewrite app_assoc. }
  destruct (Z.eqb_spec (Z.of_nat (length data)) 0) as [Hz | Hz].
  - exists s3. split; [done |]. split; [done |]. split; [| by rewrite C3]. rewrite Ho, He.
    destruct data; [| simpl in Hz; lia]. by rewrite app_nil_r.
  - eexists. split; [done |]. rewrite Nat2Z.id, firstn_all. split; [| split; [| by rewrite C3]].
    + unfold state_ok. simpl. rewrite C1, i32_add_l, length_app. f_equal. lia.
    + cbn [out_]. rewrite Ho, He. by rewrite <- !app_assoc.
Qed.

(** ** Reading back *)
Lemma aligned_length l : Z.of_nat (length (aligned l)) = align4 (Z.of_nat (length l)).
Proof.
  unfold aligned, pad4, zeros, align4. rewrite length_app, length_replicate.
  rewrite Nat2Z.inj_add, Z2Nat.id by (apply Z.mod_pos_bound; lia). dmlia.
Qed.

Definition entry_fields (e : cpio_entry) : list bytes :=
  [hex 6 0x070701; hex 8 (c_ino e); hex 8 (c_mode_ e); hex 8 0; hex 8 0; hex 8 1; hex 8 0; hex 8 (Z.of_nat (length (c_data e)));
   hex 8 0; hex 8 0; hex 8 0; hex 8 0; hex 8 (Z.of_nat (length (c_name e)) + 1); hex 8 0].

Lemma entry_header_fields e : entry_header e = concat (entry_fields e).
Proof. unfold entry_header, entry_fields. cbn [concat]. by rewrite app_nil_r. Qed.

Lemma entry_header_length e : length (entry_header e) = 110%nat.
Proof. unfold entry_header. by rewrite !length_app, !hex_length. Qed.

Lemma field_spec e rest i x : in_range 32 x -> entry_fields e !! S i = Some (hex 8 x) -> field (entry_header e ++ rest) i = x.
Proof.
  intros Hx Hi. rewrite <- (unhex_hex8 x Hx). unfold field. f_equal. rewrite entry_header_fields, <- (hex_length 8 x).
  apply (concat_field _ _ (S i)); [done |].
  assert (Hl : forall j, (j < 14)%nat -> length (concat (take (S j) (entry_fields e))) = (6 + 8 * j)%nat).
  { intros j Hj. unfold entry_fields. do 14 (destruct j as [|j]; [cbn [take concat]; by rewrite !length_app, !hex_length | ]). lia. }
  assert (S i < 14)%nat by (apply lookup_lt_Some in Hi; done). rewrite Hl by lia. by rewrite hex_length.
Qed.

Lemma block_split e : block e = entry_header e ++ (c_name e ++ [0] ++ pad4 (entry_header e ++ c_name e ++ [0])) ++ aligned (c_data e).
Proof.
  unfold block, entry_bytes. set (h := entry_header e ++ c_name e ++ [0]).
  rewrite (app_assoc h), pad4_app by apply aligned_mod. unfold aligned. rewrite <- !app_assoc.
  unfold h. by rewrite <- !app_assoc.
Qed.

Lemma cpio_read_block e rest fuel : entry_ok e ->
  cpio_read (S fuel) (block e ++ rest) =
  if bool_decide (c_name e = str "TRAILER!!!") then Some [] else es ← cpio_read fuel rest; Some (e :: es).
Proof.
  intros [E1 E2 E3 E4]. rewrite block_split, <- app_assoc. set (l := entry_header e ++ _). cbn [cpio_read].
  assert (F : take 6 l = str "070701") by (unfold l, entry_header; by rewrite <- app_assoc).
  rewrite F, bool_decide_true by done. cbn [negb].
  assert (F6 : field l 6 = Z.of_nat (length (c_data e))) by (apply field_spec; [unfold in_range; lia | done]).
  assert (F11 : field l 11 = Z.of_nat (length (c_name e)) + 1) by (apply field_spec; [unfold in_range; lia | done]).
  assert (F0 : field l 0 = c_ino e) by by apply field_spec. assert (F1 : field l 1 = c_mode_ e) by by apply field_spec.
  rewrite F6, F11, F0, F1. replace (Z.of_nat (length (c_name e)) + 1 - 1) with (Z.of_nat (length (c_name e))) by lia. rewrite Nat2Z.id.
  assert (Hn : take (length (c_name e)) (drop 110 l) = c_name e).
  { unfold l. rewrite <- (entry_header_length e) at 1. rewrite drop_app_length, <- !app_assoc. apply take_app_length. }
  assert (Hr : drop (Z.to_nat (align4 (110 + (Z.of_nat (length (c_name e)) + 1)))) l = aligned (c_data e) ++ rest).
  { replace (110 + (Z.of_nat (length (c_name e)) + 1)) with (Z.of_nat (length (entry_header e ++ c_name e ++ [0])))
      by (rewrite !length_app, entry_header_length; simpl; lia).
    assert (l = aligned (entry_header e ++ c_name e ++ [0]) ++ aligned (c_data e) ++ rest) as ->
      by (unfold l; unfold aligned at 2; by rewrite <- !app_assoc).
    by rewrite <- aligned_length, Nat2Z.id, drop_app_length. }
  rewrite Hn, Hr. destruct (bool_decide _); [done |].
  rewrite <- aligned_length, !Nat2Z.id, drop_app_length. destruct (cpio_read fuel rest); [| done]. simpl. do 2 f_equal.
  unfold aligned. rewrite <- app_assoc, take_app_length. by destruct e.
Qed.

Lemma cpio_read_blocks es t rest : Forall entry_ok es -> Forall (fun e => c_name e <> str "TRAILER!!!") es ->
  entry_ok t -> c_name t = str "TRAILER!!!" ->
  cpio_read (S (length es)) (concat (map block es) ++ block t ++ rest) = Some es.
Proof.
  intros Hok Hn Ht Ent. induction es as [|e es IH]; cbn [map concat length].
  - cbn [app]. rewrite cpio_read_block by done. by rewrite bool_decide_true.
  - apply Forall_cons in Hok as [He Hok]. apply Forall_cons in Hn as [Hne Hn].
    rewrite <- app_assoc, cpio_read_block, bool_decide_false by done. by rewrite IH.
Qed.

(** ** The walk as a list *)
Section Flatten.

(** The entries below a directory, given what each one contributes. *)
Fixpoint collect (ilen : Z) (out : bytes) (l : list (bytes * (Z -> bytes -> option (list raw)))) : option (list raw) :=
  match l with
  | [] => Some []
  | (nm, f) :: l' =>
      let ilen' := ilen + Z.of_nat (length nm) + 1 in
      let out' := if (0 <? length out)%nat then out ++ [47] ++ nm else nm in
      if (ilen' <? PATH_BUF) && (Z.of_nat (length out') <? PATH_BUF) then
        a ← f ilen' out'; b ← collect ilen out l'; Some (a ++ b)
      else None
  end.

(** Mode, path and contents of each entry; [None] if something cannot be read
    or a path does not fit. *)
Fixpoint flatten (n : node) (ilen : Z) (out : bytes) : option (list raw) :=
  match n with
  | Reg perm data true =>
      if Z.of_nat (length data) <? 2 ^ 32 then Some [(Z.lor S_IFREG perm, out, data)] else None
  | Dir perm entries true =>
      below ← collect ilen out (dir_list (map (fun e => (fst e, flatten (snd e))) entries));
      Some ((Z.lor S_IFDIR perm, out, []) :: below)
  | Lnk perm (Some t) => Some [(Z.lor S_IFLNK perm, out, take 1024 t)]
  | _ => None
  end.

Definition flatten_root (n : node) (ilen : Z) (out : bytes) : option (list raw) :=
  match n with
  | Dir _ entries true => collect ilen out (dir_list (map (fun e => (fst e, flatten (snd e))) entries))
  | _ => None
  end.

Fixpoint flatten_args (roots : bytes -> node) (argv : list bytes) : option (list raw) :=
  match argv with
  | [] => Some []
  | a :: argv' =>
      let '(start, prefix) := split_eq a in
      if (Z.of_nat (length start) <? PATH_BUF) && (Z.of_nat (length prefix) <? PATH_BUF) then
        x ← flatten_root (roots start) (Z.of_nat (length start)) prefix; y ← flatten_args roots argv'; Some (x ++ y)
      else None
  end.
End Flatten.

(** Numbered entries with the modes of the configuration. *)
Fixpoint build (cf : config) (ino : Z) (rs : list raw) : outcome (list cpio_entry) :=
  match rs with
  | [] => Ret []
  | (m, path, data) :: rs' =>
      m' ← fix_stat cf path m;
      es ← build cf (u32 (ino + 1)) rs';
      Ret (Cpio ino m' path data :: es)
  end.

Definition inode_after (n : nat) (ino : Z) : Z := Nat.iter n (fun i => u32 (i + 1)) ino.

Lemma inode_after_S n ino : inode_after (S n) ino = inode_after n (u32 (ino + 1)).
Proof. unfold inode_after. by rewrite Nat.iter_succ_r. Qed.

Lemma build_app cf r1 r2 : forall ino es, build cf ino (r1 ++ r2) = Ret es ->
  exists e1 e2, build cf ino r1 = Ret e1 /\ build cf (inode_after (length r1) ino) r2 = Ret e2 /\ es = e1 ++ e2.
Proof.
  induction r1 as [|[[m path] data] r1 IH]; intros ino es E; [by exists [], es |]. cbn [app build length] in *. inv_ret.
  destruct (IH _ _ E1) as (e1 & e2 & H1 & H2 & ->). rewrite inode_after_S. exists (Cpio ino a path data :: e1), e2.
  by rewrite E0, bind_ret, H1, bind_ret.
Qed.

(** ** The walk writes the list *)
Definition wrote (s : state) (es : list cpio_entry) : Prop := state_ok s /\ aligned (out_ s) = concat (map block es).

(** [act] writes the entries [rs]. *)
Definition emits (cf : config) (rs : list raw) (act : state -> outcome (option state)) : Prop :=
  forall s es0 es, wrote s es0 -> build cf (next_inode s) rs = Ret es -> Forall entry_ok es ->
  exists s', act s = Ret (Some s') /\ wrote s' (es0 ++ es) /\ next_inode s' = inode_after (length rs) (next_inode s).

Lemma cpio_emits_nil cf : emits cf [] (fun s => Ret (Some s)).
Proof. intros s es0 es Hw [= <-] _. exists s. by rewrite app_nil_r. Qed.

Lemma emits_bind cf r1 r2 a1 (a2 : state -> outcome (option state)) : emits cf r1 a1 -> emits cf r2 a2 ->
  emits cf (r1 ++ r2) (fun s => r ← a1 s; match r with None => Ret None | Some s => a2 s end).
Proof.
  intros H1 H2 s es0 es Hw Hb Hok. apply build_app in Hb as (e1 & e2 & B1 & B2 & ->). apply Forall_app in Hok as [O1 O2].
  destruct (H1 s es0 e1 Hw B1 O1) as (s1 & -> & W1 & N1). rewrite bind_ret. rewrite <- N1 in B2.
  destruct (H2 s1 _ e2 W1 B2 O2) as (s2 & -> & W2 & N2). exists s2. rewrite app_assoc. split; [done |]. split; [done |].
  rewrite N2, N1, length_app. unfold inode_after. by rewrite <- Nat.iter_add, Nat.add_comm.
Qed.

Lemma emits_eject cf m out data :
  emits cf [(m, out, data)] (_eject cf m out (Z.of_nat (length out)) data (Z.of_nat (length data))).
Proof.
  intros s es0 es [Hs Ha] Hb Hok. cbn [build] in Hb. inv_ret. apply Forall_cons in Hok as [He _].
  destruct (eject_spec cf m out data s a Hs E He) as (s' & -> & Hs' & Ho & Hn). exists s'. split; [done |]. split; [| done].
  split; [done |]. rewrite Ho, aligned_app by apply aligned_mod. rewrite Ha, map_app, concat_app.
  cbn [map concat]. by rewrite app_nil_r.
Qed.

(** Sorting and filtering commute with a change of the contents. *)
Lemma dir_list_map {A B} (f : A -> B) (l : list (bytes * A)) :
  dir_list (map (fun e => (fst e, f (snd e))) l) = map (fun e => (fst e, f (snd e))) (dir_list l).
Proof.
  unfold dir_list. induction l as [|[nm x] l IH]; [done |]. cbn [map List.filter fst snd].
  destruct (listed nm); [| done]. cbn [sort_entries]. rewrite IH.
  generalize (sort_entries (List.filter (fun e => listed e.1) l)). intros l'. induction l' as [|[nm' y] l' IH']; [done |].
  cbn [map insert_entry fst snd]. destruct (strle nm nm'); [done |]. cbn [map fst snd]. by rewrite IH'.
Qed.

Lemma insert_entry_perm {A} (x : bytes * A) l : insert_entry x l ≡ₚ x :: l.
Proof.
  induction l as [|y l IH]; [done |]. cbn [insert_entry]. destruct (strle x.1 y.1); [done |].
  rewrite IH. apply Permutation_swap.
Qed.

Lemma sort_entries_perm {A} (l : list (bytes * A)) : sort_entries l ≡ₚ l.
Proof. induction l as [|x l IH]; [done |]. cbn [sort_entries]. by rewrite insert_entry_perm, IH. Qed.

Lemma dir_list_Forall {A} (P : bytes * A -> Prop) (l : list (bytes * A)) : Forall P l -> Forall P (dir_list l).
Proof.
  intros H. unfold dir_list. rewrite sort_entries_perm. rewrite Forall_forall in *. intros x Hx. apply H.
  apply list_elem_of_In in Hx. apply filter_In in Hx as [Hx _]. by apply list_elem_of_In.
Qed.

(** Induction on directory trees. *)
Lemma node_ind' (P : node -> Prop) : (forall perm data ok, P (Reg perm data ok)) ->
  (forall perm l ok, Forall (fun e => P (snd e)) l -> P (Dir perm l ok)) -> (forall perm t, P (Lnk perm t)) ->
  (forall perm, P (Special perm)) -> P Missing -> forall n, P n.
Proof.
  intros H1 H2 H3 H4 H5. fix IH 1. intros [perm data ok | perm l ok | perm t | perm |]; [apply H1 | | apply H3 | apply H4 | apply H5].
  apply H2. induction l as [|[nm n] l IHl]; constructor; [apply IH | apply IHl].
Qed.

Lemma emits_dir cf ilen out : forall (l : list (bytes * node)) rs,
  Forall (fun e => forall ilen out rs, flatten (snd e) ilen out = Some rs -> emits cf rs (_archive cf (snd e) ilen out)) l ->
  collect ilen out (map (fun e => (fst e, flatten (snd e))) l) = Some rs ->
  emits cf rs (dir_loop ilen out (map (fun e => (fst e, _archive cf (snd e))) l)).
Proof.
  induction l as [|[nm n] l IH]; intros rs Hl E; cbn [map collect dir_loop fst snd] in *; [injection E as <-; apply cpio_emits_nil |].
  apply Forall_cons in Hl as [Hn Hl]. destruct (_ && _) eqn:Eb; [| done]. zbool.
  destruct (flatten n _ _) as [r1|] eqn:E1; [| done]. cbn [mbind option_bind] in E.
  destruct (collect ilen out _) as [r2|] eqn:E2; [| done]. injection E as <-.
  intros s es0 es. specialize (IH r2 Hl eq_refl).
  destruct (Z.ltb_spec PATH_BUF (ilen + 1 + Z.of_nat (length nm) + 1)); [lia |].
  assert (E3 : (0 <? Z.of_nat (length out)) = (0 <? length out)%nat) by (destruct (length out); done). rewrite E3.
  destruct (Z.ltb_spec PATH_BUF (Z.of_nat (length (if (0 <? length out)%nat then out ++ [47] ++ nm else nm)) + 1)); [lia |].
  apply (emits_bind cf r1 r2 _ _ (Hn _ _ _ E1) IH).
Qed.

Lemma archive_emits cf n : forall ilen out rs, flatten n ilen out = Some rs -> emits cf rs (_archive cf n ilen out).
Proof.
  induction n as [perm data ok | perm l ok IH | perm t | perm |] using node_ind'; intros ilen out rs E; cbn [flatten] in E; try done.
  - destruct ok; [| done]. destruct (Z.ltb_spec (Z.of_nat (length data)) (2 ^ 32)) as [Hd |]; [| done]. injection E as <-.
    intros s. cbn [_archive negb]. rewrite wrap_small by (unfold in_range; lia). apply emits_eject.
  - destruct ok; [| done]. rewrite dir_list_map in E. destruct (collect _ _ _) as [below|] eqn:Ec; [| done]. injection E as <-.
    apply (dir_list_Forall _ l) in IH. pose proof (emits_dir cf ilen out (dir_list l) below IH Ec) as Hd. rewrite <- dir_list_map in Hd.
    intros s. cbn [_archive negb]. apply (emits_bind cf [_] below _ _ (emits_eject cf _ out []) Hd).
  - destruct t as [t|]; [| done]. injection E as <-. intros s. cbn [_archive]. apply emits_eject.
Qed.

Lemma args_emits cf roots : forall argv rs, flatten_args roots argv = Some rs -> emits cf rs (args_loop cf roots argv).
Proof.
  induction argv as [|a argv IH]; intros rs E; cbn [flatten_args args_loop] in *; [injection E as <-; apply cpio_emits_nil |].
  destruct (split_eq a) as [start prefix]. destruct (_ && _) eqn:Eb; [| done]. zbool.
  destruct (flatten_root _ _ _) as [r1|] eqn:E1; [| done]. cbn [mbind option_bind] in E.
  destruct (flatten_args roots argv) as [r2|]; [| done]. injection E as <-. specialize (IH r2 eq_refl).
  refine (emits_bind cf r1 r2 _ _ _ IH). unfold archive.
  destruct (Z.ltb_spec PATH_BUF (Z.of_nat (length start) + 1)); [lia |]. destruct (Z.ltb_spec PATH_BUF (Z.of_nat (length prefix) + 1)); [lia |].
  unfold flatten_root, _archive_dir in *. destruct (roots start) as [| perm l ok | | |]; try done. destruct ok; [| done].
  rewrite dir_list_map in E1. rewrite (dir_list_map (_archive cf) l). apply emits_dir; [| done]. apply dir_list_Forall, Forall_true. intros e. apply archive_emits.
Qed.

(** ** The whole archive *)
Lemma run_spec cf roots argv rs es mt : argv <> [] -> flatten_args roots argv = Some rs -> build cf 300000 rs = Ret es ->
  Forall entry_ok es -> fix_stat cf (str "TRAILER!!!") 0 = Ret mt -> in_range 32 mt ->
  exists t rest, run cf roots argv = Ret (Some (concat (map block es) ++ block t ++ rest)) /\ entry_ok t /\ c_name t = str "TRAILER!!!" /\
    (256 | Z.of_nat (length (concat (map block es) ++ block t ++ rest))).
Proof.
  intros Hne Hf Hb Hok Ht Hmt. unfold run. destruct argv as [|a argv]; [done |].
  destruct (args_emits cf roots (a :: argv) rs Hf start_state [] es) as (s & -> & [Hs Ha] & Hn); [done | done | done |]. rewrite bind_ret.
  unfold _eject_trailer. set (t := Cpio (next_inode s) mt (str "TRAILER!!!") []).
  assert (Ho : entry_ok t).
  { split; simpl; try lia; [| done]. rewrite Hn. unfold inode_after. destruct (length rs); simpl; [done | by apply wrap_range]. }
  destruct (eject_spec cf 0 (str "TRAILER!!!") [] s mt Hs Ht Ho) as (s' & E & Hs' & Hout & _).
  change (Z.of_nat (length (str "TRAILER!!!"))) with 10 in E. change (Z.of_nat (length [])) with 0 in E. rewrite E, bind_ret.
  set (n := Z.to_nat ((- Z.of_nat (length (out_ s'))) mod 256)).
  pose proof (Z.mod_pos_bound (- Z.of_nat (length (out_ s'))) 256 ltac:(lia)) as Hm.
  destruct (pad_loop_spec 8 ltac:(lia) n s' 255 Hs' ltac:(unfold n; change (2 ^ 8) with 256; lia) ltac:(lia)) as (s2 & E2 & _ & Ho2 & _).
  change (2 ^ 8 - 1) with 255 in E2. rewrite E2, bind_ret. cbn [option_map].
  assert (Hblk : out_ s2 = concat (map block es) ++ block t ++ replicate n 0).
  { rewrite Ho2, Hout, Ha, <- app_assoc. fold t.
    assert (block t = entry_bytes t) as ->; [| done]. unfold block.
    assert (entry_bytes t = aligned (entry_header t ++ c_name t ++ [0])) as -> by (unfold entry_bytes; simpl c_data; by rewrite app_nil_r).
    by rewrite pad4_aligned, app_nil_r. }
  exists t, (replicate n 0). rewrite <- Hblk. split; [done |]. split; [done |]. split; [done |].
  rewrite Ho2, length_app, length_replicate. unfold n. rewrite Nat2Z.inj_add, Z2Nat.id by lia.
  apply Z.mod_divide; [lia |]. dmlia.
Qed.

(** ** The order of directory entries does not matter *)
Lemma insert_entry_comm {A} (x y : bytes * A) l : x.1 <> y.1 -> insert_entry x (insert_entry y l) = insert_entry y (insert_entry x l).
Proof.
  intros Hne. assert (Hxy : forall a b : bytes * A, a.1 <> b.1 -> strle a.1 b.1 = true -> strle b.1 a.1 = false).
  { intros a b Hab H. destruct (strle b.1 a.1) eqn:E; [| done]. by destruct Hab; apply strle_antisym. }
  induction l as [|z l IH]; cbn [insert_entry].
  - destruct (strle x.1 y.1) eqn:E; [by rewrite (Hxy x y Hne E) |]. by rewrite (strle_false _ _ E).
  - destruct (strle y.1 z.1) eqn:Ey, (strle x.1 z.1) eqn:Ex; cbn [insert_entry]; rewrite ?Ex, ?Ey.
    + destruct (strle x.1 y.1) eqn:E; [by rewrite (Hxy x y Hne E), ?Ey |]. by rewrite (strle_false _ _ E), ?Ex.
    + destruct (strle x.1 y.1) eqn:E; [by rewrite (strle_trans _ _ _ E Ey) in Ex |]. by rewrite ?Ex.
    + destruct (strle y.1 x.1) eqn:E; [by rewrite (strle_trans _ _ _ E Ex) in Ey |]. by rewrite ?Ey.
    + by rewrite IH.
Qed.

Lemma sort_entries_Permutation {A} (l1 l2 : list (bytes * A)) : l1 ≡ₚ l2 -> NoDup (map fst l1) -> sort_entries l1 = sort_entries l2.
Proof.
  induction 1 as [|x l1 l2 Hp IH|x y l|l1 l2 l3 H1 IH1 H2 IH2]; intros Hn; [done | | |].
  - cbn [map] in Hn. apply NoDup_cons in Hn as [_ Hn]. cbn [sort_entries]. by rewrite IH.
  - cbn [map] in Hn. apply NoDup_cons in Hn as [Hx _]. cbn [sort_entries]. apply insert_entry_comm. intros E. apply Hx. rewrite E. left.
  - rewrite IH1 by done. apply IH2. by rewrite <- H1.
Qed.

Lemma filter_Permutation' {A} (f : A -> bool) (l1 l2 : list A) : l1 ≡ₚ l2 -> List.filter f l1 ≡ₚ List.filter f l2.
Proof.
  induction 1 as [|x l1 l2 Hp IH|x y l|l1 l2 l3 H1 IH1 H2 IH2]; [done | | | by etransitivity]; cbn [List.filter].
  - destruct (f x); [by rewrite IH | done].
  - destruct (f x), (f y); try done. apply Permutation_swap.
Qed.

Lemma filter_NoDup {A} (f : bytes * A -> bool) l : NoDup (map fst l) -> NoDup (map fst (List.filter f l)).
Proof.
  induction l as [|x l IH]; [done |]. cbn [map List.filter]. rewrite NoDup_cons. intros [Hx Hn]. specialize (IH Hn).
  destruct (f x); [| done]. cbn [map]. apply NoDup_cons. split; [| done]. intros Hin. apply Hx.
  rewrite list_elem_of_In, in_map_iff in *. destruct Hin as (y & Ey & Hy). apply filter_In in Hy as [Hy _]. by exists y.
Qed.

Lemma dir_list_Permutation {A} (l1 l2 : list (bytes * A)) : l1 ≡ₚ l2 -> NoDup (map fst l1) -> dir_list l1 = dir_list l2.
Proof. intros Hp Hn. apply sort_entries_Permutation; [by apply filter_Permutation' | by apply filter_NoDup]. Qed.

(** Trees that differ only in the order in which directories list them. *)
Inductive same_tree : node -> node -> Prop :=
  | same_refl n : same_tree n n
  | same_dir perm ok l1 l2 l3 : same_list l1 l2 -> l2 ≡ₚ l3 -> NoDup (map fst l2) -> same_tree (Dir perm l1 ok) (Dir perm l3 ok)
with same_list : list (bytes * node) -> list (bytes * node) -> Prop :=
  | same_nil : same_list [] []
  | same_cons nm n1 n2 l1 l2 : same_tree n1 n2 -> same_list l1 l2 -> same_list ((nm, n1) :: l1) ((nm, n2) :: l2).

Scheme same_tree_mut := Induction for same_tree Sort Prop
  with same_list_mut := Induction for same_list Sort Prop.

(** Lists of actions that do the same. *)
Definition same_acts (l1 l2 : list (bytes * action)) : Prop :=
  Forall2 (fun a b => a.1 = b.1 /\ forall ilen out s, a.2 ilen out s = b.2 ilen out s) l1 l2.

Lemma dir_loop_same ilen out l1 l2 : same_acts l1 l2 -> forall s, dir_loop ilen out l1 s = dir_loop ilen out l2 s.
Proof.
  induction 1 as [|[nm1 a1] [nm2 a2] l1 l2 [E Ha] Hl IH]; intros s; [done |]. simpl in E, Ha. subst nm2. cbn [dir_loop].
  destruct (_ <? _); [done |]. destruct (_ <? _); [done |]. rewrite Ha.
  destruct (a2 _ _ s) as [[s'|]| |]; [apply IH | done..].
Qed.

Lemma insert_same x1 x2 l1 l2 : x1.1 = x2.1 -> (forall ilen out s, x1.2 ilen out s = x2.2 ilen out s) -> same_acts l1 l2 ->
  same_acts (insert_entry x1 l1) (insert_entry x2 l2).
Proof.
  intros Ex Hx. induction 1 as [|y1 y2 l1 l2 [E Ha] Hl IH]; [by repeat constructor |]. cbn [insert_entry]. rewrite Ex, E.
  destruct (strle _ _); repeat (constructor; try done).
Qed.

Lemma dir_list_same l1 l2 : same_acts l1 l2 -> same_acts (dir_list l1) (dir_list l2).
Proof.
  induction 1 as [|[nm1 a1] [nm2 a2] l1 l2 [E Ha] Hl IH]; [constructor |]. simpl in E, Ha. subst nm2.
  unfold dir_list in *. cbn [List.filter fst]. destruct (listed nm1); [| done]. cbn [sort_entries]. by apply insert_same.
Qed.

Lemma same_tree_archive cf n1 n2 : same_tree n1 n2 -> forall ilen out s, _archive cf n1 ilen out s = _archive cf n2 ilen out s.
Proof.
  apply (same_tree_mut (fun n1 n2 _ => forall ilen out s, _archive cf n1 ilen out s = _archive cf n2 ilen out s)
    (fun l1 l2 _ => same_acts (map (fun e => (fst e, _archive cf (snd e))) l1) (map (fun e => (fst e, _archive cf (snd e))) l2))).
  - done.
  - intros perm ok l1 l2 l3 _ Hs Hp Hn ilen out s. cbn [_archive].
    destruct (_eject _ _ _ _ _ _ s) as [[s'|]| |]; [| done..]. cbn [mbind outcome_bind]. destruct ok; [| done]. cbn [negb].
    rewrite (dir_loop_same _ _ _ _ (dir_list_same _ _ Hs)). f_equal. rewrite !dir_list_map. by rewrite (dir_list_Permutation l2 l3).
  - constructor.
  - intros nm m1 m2 l1 l2 _ Hm _ Hl. constructor; [by split | done].
Qed.

Lemma same_list_acts cf l1 l2 : same_list l1 l2 ->
  same_acts (map (fun e => (fst e, _archive cf (snd e))) l1) (map (fun e => (fst e, _archive cf (snd e))) l2).
Proof. induction 1; constructor; [split; [done | by apply same_tree_archive] | done]. Qed.

Lemma same_tree_root cf n1 n2 ilen out s : same_tree n1 n2 -> _archive_dir cf n1 ilen out s = _archive_dir cf n2 ilen out s.
Proof.
  intros H. destruct H as [n | perm ok l1 l2 l3 Hl Hp Hn]; [done |]. cbn [_archive_dir]. destruct ok; [| done].
  rewrite (dir_loop_same _ _ _ _ (dir_list_same _ _ (same_list_acts cf l1 l2 Hl))).
  f_equal. rewrite !dir_list_map. by rewrite (dir_list_Permutation l2 l3).
Qed.

(** ** An example *)
Definition bx_tree : node :=
  Dir 493 [(str "init", Reg 511 (str "ELF") true); (str ".git", Missing); (str "sbin", Dir 511 [(str "adbd", Reg 420 (str "adb!") true)] true);
    (str "etc", Lnk 511 (Some (str "/system/etc")))] true.
Definition bx_roots (path : bytes) : node := if bool_decide (path = str "root") then bx_tree else Missing.
Definition bx_config : config := mk_config None (fun _ => None) None.
Definition bx_argv : list bytes := [str "root"].
Definition bx_raws : list raw := Eval vm_compute in default [] (flatten_args bx_roots bx_argv).
Definition bx_entries : list cpio_entry := Eval vm_compute in
  match build bx_config 300000 bx_raws with Ret es => es | _ => [] end.

Definition entry_okb (e : cpio_entry) : bool :=
  bool_decide (in_range 32 (c_ino e)) && bool_decide (in_range 32 (c_mode_ e)) && (Z.of_nat (length (c_name e)) + 1 <? 2 ^ 32)
  && (Z.of_nat (length (c_data e)) <? 2 ^ 32) && negb (bool_decide (c_name e = str "TRAILER!!!")).

Lemma entry_okb_sound es : forallb entry_okb es = true -> Forall entry_ok es /\ Forall (fun e => c_name e <> str "TRAILER!!!") es.
Proof.
  rewrite forallb_forall. intros H.
  assert (H' : forall e, e ∈ es -> entry_ok e /\ c_name e <> str "TRAILER!!!").
  { intros e He. apply list_elem_of_In, H in He. unfold entry_okb in He. zbool.
    repeat match goal with Hb : bool_decide _ = true |- _ => apply bool_decide_eq_true in Hb | Hb : bool_decide _ = false |- _ => apply bool_decide_eq_false in Hb end.
    split; [by split | done]. }
  split; apply Forall_forall; intros e He; by apply H'.
Qed.

(** ** Properties *)

(** C10. Round trip: when every file of the trees on the command line can be
    read and every path fits, mkbootfs writes an archive that a cpio reader
    reads back as exactly the entries of the walk, each directory's names in
    order, with the modes of the configuration, and whose length is a multiple
    of 256. *)
Theorem mkbootfs_roundtrip cf roots argv rs es mt : argv <> [] -> flatten_args roots argv = Some rs ->
  build cf 300000 rs = Ret es -> Forall entry_ok es -> Forall (fun e => c_name e <> str "TRAILER!!!") es ->
  fix_stat cf (str "TRAILER!!!") 0 = Ret mt -> in_range 32 mt ->
  exists arch, run cf roots argv = Ret (Some arch) /\ cpio_read (S (length es)) arch = Some es /\ (256 | Z.of_nat (length arch)).
Proof.
  intros Hne Hf Hb Hok Hn Ht Hmt. destruct (run_spec cf roots argv rs es mt Hne Hf Hb Hok Ht Hmt) as (t & rest & -> & Ho & Et & Hd).
  eexists. split; [done |]. split; [| done]. by apply cpio_read_blocks.
Qed.

Lemma mkbootfs_roundtrip_witness :
  exists arch, run bx_config bx_roots bx_argv = Ret (Some arch) /\ cpio_read 5 arch = Some bx_entries /\ (256 | Z.of_nat (length arch)).
Proof.
  apply (mkbootfs_roundtrip bx_config bx_roots bx_argv bx_raws bx_entries 420); try (vm_compute; reflexivity).
  - done.
  - apply (entry_okb_sound bx_entries). vm_compute. reflexivity.
  - apply (entry_okb_sound bx_entries). vm_compute. reflexivity.
  - unfold in_range. lia.
Defined.

(** Reproducible: the archive does not depend on the order in which the
    file system lists directories, at any depth. *)
Theorem mkbootfs_reproducible cf roots1 roots2 argv : (forall path, same_tree (roots1 path) (roots2 path)) ->
  run cf roots1 argv = run cf roots2 argv.
Proof.
  intros Hr. unfold run. destruct argv as [|a argv]; [done |]. assert (args_loop cf roots1 (a :: argv) start_state = args_loop cf roots2 (a :: argv) start_state) as ->; [| done].
  generalize start_state. generalize (a :: argv). clear a argv. intros argv. induction argv as [|a argv IH]; intros s; [done |]. cbn [args_loop].
  destruct (split_eq a) as [start prefix].
  assert (archive cf roots1 start prefix s = archive cf roots2 start prefix s) as ->.
  { unfold archive. destruct (_ <? _); [done |]. destruct (_ <? _); [done |]. by apply same_tree_root. }
  destruct (archive _ _ _ _ _) as [[s'|]| |]; [apply IH | done..].
Qed.

(** The example with its directories listed the other way round. *)
Definition bx_tree' : node :=
  Dir 493 [(str "etc", Lnk 511 (Some (str "/system/etc"))); (str "sbin", Dir 511 [(str "adbd", Reg 420 (str "adb!") true)] true);
    (str ".git", Missing); (str "init", Reg 511 (str "ELF") true)] true.
Definition bx_roots' (path : bytes) : node := if bool_decide (path = str "root") then bx_tree' else Missing.

Lemma bx_same path : same_tree (bx_roots path) (bx_roots' path).
Proof.
  unfold bx_roots, bx_roots'. destruct (bool_decide _); [| constructor].
  apply (same_dir _ _ _ [(str "init", Reg 511 (str "ELF") true); (str ".git", Missing); (str "sbin", Dir 511 [(str "adbd", Reg 420 (str "adb!") true)] true);
    (str "etc", Lnk 511 (Some (str "/system/etc")))]).
  - repeat constructor.
  - apply (reverse_Permutation [_; _; _; _]).
  - apply (bool_decide_eq_true_1 _). vm_compute. reflexivity.
Qed.

Lemma mkbootfs_reproducible_witness : run bx_config bx_roots bx_argv = run bx_config bx_roots' bx_argv.
Proof. apply (mkbootfs_reproducible bx_config bx_roots bx_roots' bx_argv). apply bx_same. Defined.

(** A canned configuration with neither an entry for the empty path nor
    one named TRAILER!!! never gives an archive: the mode of the trailer is
    looked up through a null pointer. *)
Theorem mkbootfs_canned_default cf l roots argv : canned_config cf = Some l ->
  Forall (fun e => e_name e <> [] /\ e_name e <> str "TRAILER!!!") l -> ~ exists arch, run cf roots argv = Ret (Some arch).
Proof.
  intros Hc Hl [arch E]. unfold run in E. destruct argv as [|a argv]; [done |]. apply bind_Ret_inv in E as ([s|] & _ & E); [| done].
  apply bind_Ret_inv in E as (r & E & _). unfold _eject_trailer, _eject in E. apply bind_Ret_inv in E as (r' & E & _).
  apply bind_Ret_inv in E as (s1 & _ & E). apply bind_Ret_inv in E as (m & E & _). unfold fix_stat in E. rewrite Hc in E.
  apply bind_Ret_inv in E as (p & E & _). clear -Hl E. induction Hl as [|e l [H1 H2] Hl IH]; [done |]. cbn [canned_loop] in E.
  destruct (e_name e) eqn:En; [done |]. rewrite <- En in E, H2. rewrite bool_decide_false in E by done. by apply IH.
Qed.

Lemma mkbootfs_canned_default_witness :
  let cf := mk_config (Some [Entry (str "init") 0 2000 488; Entry (str "sbin") 0 2000 488]) (fun _ => None) None in
  ~ exists arch, run cf bx_roots bx_argv = Ret (Some arch).
Proof.
  intros cf. apply (mkbootfs_canned_default cf [Entry (str "init") 0 2000 488; Entry (str "sbin") 0 2000 488] bx_roots bx_argv); [reflexivity |].
  repeat constructor; done.
Defined.
