(* ===== verification/Strto.v ===== *)
(** * Number conversion in the C library

    Models the string to integer conversions of bionic,
    src/bionic/libc/upstream-openbsd/lib/libc/stdlib: strtol.c, strtoll.c,
    strtoimax.c (the same text at three types), strtoul.c, strtoull.c,
    strtoumax.c, atoi.c, atol.c and atoll.c; and proves that they compute the
    functions of <stdlib.h>. A string is the list of its bytes, the terminator
    is the 0 that a read at its end gives, a pointer into the string is what
    follows it. Plain [char] is unsigned, as on ARM. *)

From S2P Require Import Prelude.
From S2P Require Import CString.

Definition ERANGE : Z := 34.

Definition isupper (c : Z) : bool := (65 <=? c) && (c <=? 90).
Definition islower (c : Z) : bool := (97 <=? c) && (c <=? 122).
Definition isalpha (c : Z) : bool := isupper c || islower c.

(** [c = *s++] *)
Definition next (s : bytes) : Z * bytes :=
  match s with
  | [] => (0, [])
  | c :: s' => (c, s')
  end.

(** [s - 1], when [c] is the character read last *)
Definition back (c : Z) (s : bytes) : bytes := if c =? 0 then [] else c :: s.

(** What a conversion leaves: the value, [*endptr] and [errno], 0 when it is
    not set. *)
Record converted := Converted {
  cv_val : Z;
  cv_end : bytes;
  cv_errno : Z
}.

(** [do { c = *s++; } while (isspace(c));] *)
Fixpoint space_loop (s : bytes) : Z * bytes :=
  match s with
  | [] => (0, [])
  | c :: s' => if isspace c then space_loop s' else (c, s')
  end.

(** White space, the sign, the prefix and the base. *)
Definition strto_start (nptr : bytes) (base : Z) : bool * Z * Z * bytes :=
  let '(c, s) := space_loop nptr in
  let '(neg, (c, s)) :=
    if c =? 45 then (true, next s) else (false, if c =? 43 then next s else (c, s)) in
  let '(c, s, base) :=
    if ((base =? 0) || (base =? 16)) && (c =? 48) && ((fst (next s) =? 120) || (fst (next s) =? 88))
    then (next (snd (next s)), 16) else ((c, s), base) in
  let base := if base =? 0 then (if c =? 48 then 8 else 10) else base in
  (neg, base, c, s).

(** The value of a character as a digit; [None] ends the number. *)
Definition to_digit (c : Z) : option Z :=
  if isdigit c then Some (c - 48)
  else if isalpha c then Some (c - (if isupper c then 65 - 10 else 97 - 10))
  else None.

(** [for (acc = 0, any = 0;; c = *s++)] *)
Fixpoint digit_loop (step : Z -> Z * Z * Z -> Z * Z * Z) (base c : Z) (s : bytes) (st : Z * Z * Z) :
    Z * Z * Z * (Z * bytes) :=
  match to_digit c with
  | None => (st, (c, s))
  | Some d =>
      if base <=? d then (st, (c, s)) else
      match s with
      | [] => (step d st, (0, []))
      | c' :: s' => digit_loop step base c' s' (step d st)
      end
  end.

(** *** The signed conversions *)
Section Signed.
Context (w : Z).

Definition INT_MIN : Z := - 2 ^ (w - 1).
Definition INT_MAX : Z := 2 ^ (w - 1) - 1.

Definition cut (neg : bool) (base : Z) : Z * Z :=
  let cutoff := if neg then INT_MIN else INT_MAX in
  let cutlim := Z.rem cutoff base in
  let cutoff := Z.quot cutoff base in
  if neg then
    let '(cutlim, cutoff) := if 0 <? cutlim then (cutlim - base, cutoff + 1) else (cutlim, cutoff) in
    (cutoff, - cutlim)
  else (cutoff, cutlim).

Definition signed_step (neg : bool) (base cutoff cutlim c : Z) '(acc, any, errno) : Z * Z * Z :=
  if any <? 0 then (acc, any, errno)
  else if neg then
    if (acc <? cutoff) || ((acc =? cutoff) && (cutlim <? c)) then (INT_MIN, -1, ERANGE)
    else (swrap w (swrap w (acc * base) - c), 1, errno)
  else
    if (cutoff <? acc) || ((acc =? cutoff) && (cutlim <? c)) then (INT_MAX, -1, ERANGE)
    else (swrap w (swrap w (acc * base) + c), 1, errno).

Definition strto_signed (nptr : bytes) (base : Z) : converted :=
  if (base <? 0) || (base =? 1) || (36 <? base) then Converted 0 nptr EINVAL else
  let '(neg, base, c, s) := strto_start nptr base in
  let '(cutoff, cutlim) := cut neg base in
  let '(acc, any, errno, (c, s)) := digit_loop (signed_step neg base cutoff cutlim) base c s (0, 0, 0) in
  Converted acc (if any =? 0 then nptr else back c s) errno.

End Signed.

(** *** The unsigned conversions *)
Section Unsigned.
Context (w : Z).

Definition UINT_MAX : Z := 2 ^ w - 1.

Definition unsigned_step (base cutoff cutlim c : Z) '(acc, any, errno) : Z * Z * Z :=
  if any <? 0 then (acc, any, errno)
  else if (cutoff <? acc) || ((acc =? cutoff) && (cutlim <? c)) then (UINT_MAX, -1, ERANGE)
  else (wrap w (wrap w (acc * base) + c), 1, errno).

Definition strto_unsigned (nptr : bytes) (base : Z) : converted :=
  if (base <? 0) || (base =? 1) || (36 <? base) then Converted 0 nptr EINVAL else
  let '(neg, base, c, s) := strto_start nptr base in
  let cutoff := UINT_MAX / base in
  let cutlim := UINT_MAX mod base in
  let '(acc, any, errno, (c, s)) := digit_loop (unsigned_step base cutoff cutlim) base c s (0, 0, 0) in
  let acc := if neg && (0 <? any) then wrap w (- acc) else acc in
  Converted acc (if any =? 0 then nptr else back c s) errno.

End Unsigned.

(** [long] has 64 bits in the host tools and on the 64-bit device. *)
Definition bionic_strtol := strto_signed 64.
Definition bionic_strtoll := strto_signed 64.
Definition strtoimax := strto_signed 64.
Definition bionic_strtoul := strto_unsigned 64.
Definition bionic_strtoull := strto_unsigned 64.
Definition strtoumax := strto_unsigned 64.

Definition bionic_atoi (s : bytes) : Z := i32 (cv_val (bionic_strtol s 10)).
Definition bionic_atol (s : bytes) : Z := cv_val (bionic_strtol s 10).
Definition bionic_atoll (s : bytes) : Z := cv_val (bionic_strtoll s 10).

(** ** The functions of the standard

    The subject sequence: the sign, the base and the text its digits start in;
    [0x] counts only in front of a hexadecimal digit. *)
Definition has_0x (s : bytes) : bool :=
  match s with
  | z :: x :: _ => (z =? 48) && ((x =? 120) || (x =? 88))
  | _ => false
  end.

Definition subject (s : bytes) (base : Z) : bool * Z * bytes :=
  let '(neg, s) := read_sign (skip_spaces s) in
  if (base =? 16) || (base =? 0) && has_0x s then (neg, 16, skip_0x s)
  else if base =? 0 then (neg, if fst (next s) =? 48 then 8 else 10, s)
  else (neg, base, s).

(** [0x] with no hexadecimal digit behind it. *)
Definition bare_0x (s : bytes) (base : Z) : bool :=
  let s := snd (read_sign (skip_spaces s)) in
  ((base =? 0) || (base =? 16)) && has_0x s && bool_decide (skip_0x s = s).

Definition clip (lo hi v : Z) : Z := if v <? lo then lo else if hi <? v then hi else v.

Definition base_ok (base : Z) : Prop := base = 0 \/ 2 <= base <= 36.

(** ** Proofs *)
Lemma to_digit_val c : to_digit c = if digit_val c <? 36 then Some (digit_val c) else None.
Proof.
  unfold to_digit, digit_val, isdigit, isalpha, isupper, islower.
  destruct (Z.leb_spec 48 c), (Z.leb_spec c 57), (Z.leb_spec 97 c), (Z.leb_spec c 122),
    (Z.leb_spec 65 c), (Z.leb_spec c 90); simpl; zcase; try lia; try done; f_equal; lia.
Qed.

Lemma digit_val_nonneg c : 0 <= digit_val c.
Proof. unfold digit_val. zcase; lia. Qed.

Lemma digit_val_0 : digit_val 0 = 36.
Proof. reflexivity. Qed.

(** What the loop does is to fold its step over the digits. *)
Fixpoint fold_digits {A} (step : Z -> A -> A) (base : Z) (s : bytes) (st : A) : A :=
  match s with
  | c :: s' => if is_base_digit base c then fold_digits step base s' (step (digit_val c) st) else st
  | [] => st
  end.

Lemma digit_loop_fold step base s st : 2 <= base <= 36 -> Forall (fun c => 0 < c < 256) s ->
  forall c s', next s = (c, s') -> 
  let r := digit_loop step base c s' st in
  fst r = fold_digits step base s st /\ uncurry back (snd r) = snd (read_digits base 0 s).
Proof.
  intros Hb. assert (E : forall acc acc' s, snd (read_digits base acc s) = snd (read_digits base acc' s)).
  { intros acc acc' t. revert acc acc'. induction t as [|x t IH]; intros; simpl; [done |]. by case_match. }
  intros Hs. revert st. induction Hs as [|c s Hc Hs IH]; intros st c1 s1 [= <- <-].
  { done. }
  assert (Hback : back c s = c :: s) by (unfold back; zcase; [lia | done]).
  unfold is_base_digit in *. destruct s as [|c' s].
  - simpl. unfold is_base_digit. rewrite to_digit_val.
    destruct (Z.ltb_spec (digit_val c) 36); [|destruct (Z.ltb_spec (digit_val c) base); [lia | done]].
    rewrite (Z.leb_antisym (digit_val c) base). by destruct (Z.ltb_spec (digit_val c) base).
  - specialize (IH (step (digit_val c) st) c' s eq_refl). simpl digit_loop. rewrite to_digit_val.
    change (read_digits base 0 (c :: c' :: s)) with (if digit_val c <? base then read_digits base (digit_val c) (c' :: s) else (0, c :: c' :: s)).
    change (fold_digits step base (c :: c' :: s) st) with (if digit_val c <? base then fold_digits step base (c' :: s) (step (digit_val c) st) else st).
    destruct (Z.ltb_spec (digit_val c) 36); [|destruct (Z.ltb_spec (digit_val c) base); [lia | done]].
    rewrite (Z.leb_antisym (digit_val c) base). destruct (Z.ltb_spec (digit_val c) base); [|done].
    destruct IH as [IH1 IH2]. split; [done |]. simpl negb. cbv iota. rewrite IH2. apply E.
Qed.

(** The state of the loop after digits of value [v]: [v] with its sign while it
    fits, the limit and ERANGE from then on. *)
Definition tracks (lim : Z) (sgn : Z) (out : Z) (v : Z) (n : nat) (st : Z * Z * Z) : Prop :=
  (n = O -> v = 0) /\ if v <=? lim then st = (sgn * v, if (n =? 0)%nat then 0 else 1, 0) else st = (out, -1, ERANGE).

Lemma fold_tracks lim sgn out base step : 2 <= base -> 0 <= lim ->
  (forall v n d st, 0 <= v -> 0 <= d < base -> tracks lim sgn out v n st ->
     tracks lim sgn out (v * base + d) (S n) (step d st)) ->
  forall s v n st, 0 <= v -> tracks lim sgn out v n st ->
  exists m, tracks lim sgn out (fst (read_digits base v s)) m (fold_digits step base s st) /\
    (m = n <-> snd (read_digits base v s) = s) /\ (n <= m)%nat.
Proof.
  intros Hb Hl Hstep. induction s as [|c s IH]; intros v n st Hv Ht.
  { exists n. simpl. done. }
  simpl. unfold is_base_digit. destruct (Z.ltb_spec (digit_val c) base) as [Hd|Hd].
  - pose proof (digit_val_nonneg c).
    destruct (IH (v * base + digit_val c) (S n) (step (digit_val c) st)) as (m & H1 & H2 & H3);
      [nia | apply Hstep; [done | lia | done] |].
    exists m. split; [done |]. split; [|lia]. split; [lia |]. intros E.
    exfalso. assert (length (snd (read_digits base (v * base + digit_val c) s)) <= length s)%nat.
    { clear. generalize (v * base + digit_val c). induction s; intros z; simpl; [lia |].
      case_match; simpl; [etransitivity; [apply IHs | lia] | lia]. }
    rewrite E in *. simpl in *. lia.
  - exists n. simpl. done.
Qed.

Lemma cut_iff lim base v d : 2 <= base -> 0 <= d < base ->
  (lim / base <? v) || ((v =? lim / base) && (lim mod base <? d)) = (lim <? v * base + d).
Proof.
  intros Hb Hd. pose proof (Z.div_mod lim base ltac:(lia)). pose proof (Z.mod_pos_bound lim base ltac:(lia)).
  set (q := lim / base) in *. set (r := lim mod base) in *.
  destruct (Z.ltb_spec q v); simpl; [symmetry; apply Z.ltb_lt; nia |].
  destruct (Z.eqb_spec v q) as [->|]; simpl.
  - destruct (Z.ltb_spec r d); symmetry; [apply Z.ltb_lt | apply Z.ltb_ge]; lia.
  - symmetry. apply Z.ltb_ge. nia.
Qed.

(** The largest magnitude a sign allows. *)
Definition limit (w : Z) (neg : bool) : Z := if neg then 2 ^ (w - 1) else 2 ^ (w - 1) - 1.
Definition sign (neg : bool) : Z := if neg then -1 else 1.

Lemma limit_pos w neg : 1 <= w -> 0 <= limit w neg.
Proof. intros. pose proof (Z.pow_pos_nonneg 2 (w - 1)). unfold limit. destruct neg; lia. Qed.

Lemma cut_spec w neg base : 1 <= w -> 2 <= base ->
  cut w neg base = (sign neg * (limit w neg / base), limit w neg mod base).
Proof.
  intros Hw Hb. pose proof (Z.pow_pos_nonneg 2 (w - 1)). unfold cut, limit, INT_MIN, INT_MAX. destruct neg; simpl sign.
  - rewrite Z.rem_opp_l, Z.quot_opp_l, Z.quot_div_nonneg, Z.rem_mod_nonneg by lia.
    pose proof (Z.mod_pos_bound (2 ^ (w - 1)) base). zcase; [lia |]. f_equal; lia.
  - rewrite Z.quot_div_nonneg, Z.rem_mod_nonneg by lia. f_equal. lia.
Qed.

Lemma signed_step_tracks w neg base : 1 <= w -> 2 <= base ->
  forall v n d st, 0 <= v -> 0 <= d < base -> tracks (limit w neg) (sign neg) (if neg then INT_MIN w else INT_MAX w) v n st ->
  tracks (limit w neg) (sign neg) (if neg then INT_MIN w else INT_MAX w) (v * base + d) (S n)
    (signed_step w neg base (sign neg * (limit w neg / base)) (limit w neg mod base) d st).
Proof.
  intros Hw Hb v n d st Hv Hd. unfold tracks. pose proof (limit_pos w neg Hw).
  destruct (Z.leb_spec v (limit w neg)); intros [_ ->]; (split; [done |]); simpl; cycle 1.
  { by destruct (Z.leb_spec (v * base + d) (limit w neg)); [nia |]. }
  replace ((if (n =? 0)%nat then 0 else 1) <? 0) with false by (by destruct n).
  pose proof (cut_iff (limit w neg) base v d Hb Hd) as Hc.
  assert (0 <= v * base) by nia.
  unfold limit in *. destruct neg; simpl sign in *.
  - replace (-1 * v <? -1 * (2 ^ (w - 1) / base)) with (2 ^ (w - 1) / base <? v)
      by (destruct (Z.ltb_spec (2 ^ (w - 1) / base) v), (Z.ltb_spec (-1 * v) (-1 * (2 ^ (w - 1) / base))); (done || lia)).
    replace (-1 * v =? -1 * (2 ^ (w - 1) / base)) with (v =? 2 ^ (w - 1) / base)
      by (destruct (Z.eqb_spec v (2 ^ (w - 1) / base)), (Z.eqb_spec (-1 * v) (-1 * (2 ^ (w - 1) / base))); (done || lia)).
    rewrite Hc, Z.ltb_antisym. destruct (Z.leb_spec (v * base + d) (2 ^ (w - 1))); simpl; [|done].
    rewrite (swrap_small w (-1 * v * base)), swrap_small by (unfold in_srange; nia). repeat f_equal. lia.
  - rewrite !Z.mul_1_l, Hc, Z.ltb_antisym. destruct (Z.leb_spec (v * base + d) (2 ^ (w - 1) - 1)); simpl; [|done].
    rewrite (swrap_small w (v * base)), swrap_small by (unfold in_srange; nia). repeat f_equal.
Qed.

Lemma unsigned_step_tracks w base : 1 <= w -> 2 <= base ->
  forall v n d st, 0 <= v -> 0 <= d < base -> tracks (UINT_MAX w) 1 (UINT_MAX w) v n st ->
  tracks (UINT_MAX w) 1 (UINT_MAX w) (v * base + d) (S n)
    (unsigned_step w base (UINT_MAX w / base) (UINT_MAX w mod base) d st).
Proof.
  intros Hw Hb v n d st Hv Hd. unfold tracks. assert (0 <= UINT_MAX w) by (unfold UINT_MAX; lia).
  destruct (Z.leb_spec v (UINT_MAX w)); intros [_ ->]; (split; [done |]); unfold unsigned_step; cycle 1.
  { simpl. by destruct (Z.leb_spec (v * base + d) (UINT_MAX w)); [nia |]. }
  replace ((if (n =? 0)%nat then 0 else 1) <? 0) with false by (by destruct n).
  pose proof (cut_iff (UINT_MAX w) base v d Hb Hd) as Hc. 
  rewrite !Z.mul_1_l, Hc, Z.ltb_antisym. destruct (Z.leb_spec (v * base + d) (UINT_MAX w)); [|done]. simpl negb. cbv iota.
  unfold UINT_MAX in *. rewrite (wrap_small w (v * base)), wrap_small by (unfold in_range; nia). done.
Qed.

Lemma space_loop_next s : space_loop s = next (skip_spaces s).
Proof. induction s as [|c s IH]; simpl; [done |]. by case_match. Qed.

Lemma cstr_skip_spaces s : cstr_ok s -> cstr_ok (skip_spaces s).
Proof. intros H. induction H; simpl; [constructor |]. case_match; [done | by constructor]. Qed.

Lemma cstr_read_sign s : cstr_ok s -> cstr_ok (snd (read_sign s)).
Proof. intros H. destruct H; simpl; [constructor |]. repeat case_match; try done; by constructor. Qed.

Lemma cstr_skip_0x s : cstr_ok s -> cstr_ok (skip_0x s).
Proof.
  unfold cstr_ok. destruct s as [|z [|x [|c l]]]; simpl; [done.. |].
  case_match; [|done]. intros Hl. by do 2 apply Forall_inv_tail in Hl.
Qed.

Lemma cstr_subject s base neg b t : cstr_ok s -> subject s base = (neg, b, t) -> cstr_ok t.
Proof.
  intros H. unfold subject. pose proof (cstr_read_sign _ (cstr_skip_spaces s H)) as Hr.
  destruct (read_sign (skip_spaces s)) as [n r]. simpl in Hr.
  repeat case_match; intros [= <- <- <-]; auto using cstr_skip_0x.
Qed.

(** What [strto_start] leaves: the first character of the digits and the rest,
    unless a bare [0x] was skipped. *)
Lemma strto_start_sign s base : cstr_ok s ->
  strto_start s base =
    let '(neg, r) := read_sign (skip_spaces s) in
    let '(c, s', base) :=
      if ((base =? 0) || (base =? 16)) && has_0x r then (next (drop 2 r), 16) else (next r, base) in
    (neg, if base =? 0 then (if c =? 48 then 8 else 10) else base, c, s').
Proof.
  intros H. unfold strto_start. rewrite space_loop_next. pose proof (cstr_skip_spaces s H) as Hs.
  destruct (skip_spaces s) as [|c t] eqn:Et.
  { simpl. rewrite !andb_false_r. by destruct (base =? 0). }
  simpl next. inversion Hs as [|? ? Hc Ht]; subst. simpl read_sign.
  assert (G : forall u, cstr_ok u ->
    (let '(c, s0, base) :=
      if ((base =? 0) || (base =? 16)) && ((next u).1 =? 48) && ((fst (next (next u).2) =? 120) || (fst (next (next u).2) =? 88))
      then (next (snd (next (next u).2)), 16) else (next u, base) in
     (if base =? 0 then (if c =? 48 then 8 else 10) else base, c, s0)) =
    (let '(c, s', base) := if ((base =? 0) || (base =? 16)) && has_0x u then (next (drop 2 u), 16) else (next u, base) in
     (if base =? 0 then (if c =? 48 then 8 else 10) else base, c, s'))).
  { intros u Hu. destruct u as [|z [|x u]]; simpl; rewrite ?andb_false_r, ?andb_true_r, ?andb_assoc; done. }
  destruct (c =? 45) eqn:E1; [|destruct (c =? 43) eqn:E2].
  - specialize (G t Ht). destruct (next t) as [c1 t1] eqn:En. simpl in G.
    repeat (case_match; simplify_eq/=; try done); congruence.
  - specialize (G t Ht). destruct (next t) as [c1 t1] eqn:En. simpl in G.
    repeat (case_match; simplify_eq/=; try done); congruence.
  - specialize (G (c :: t) Hs). simpl next in G. simpl fst in G. simpl snd in G.
    repeat (case_match; simplify_eq/=; try done); congruence.
Qed.

(** Not a bare [0x]: the loop starts at the digits of the subject. *)
Lemma strto_start_subject s base neg b t : cstr_ok s -> subject s base = (neg, b, t) -> bare_0x s base = false ->
  strto_start s base = (neg, b, fst (next t), snd (next t)).
Proof.
  intros Hs Es Hb. rewrite strto_start_sign by done. unfold subject in Es. unfold bare_0x in Hb.
  destruct (read_sign (skip_spaces s)) as [n r]. simpl in Hb.
  assert (H0x : has_0x r = true -> skip_0x r <> r -> skip_0x r = drop 2 r).
  { clear. destruct r as [|z [|x [|c r]]]; simpl; try done. destruct (_ && _); simpl; [|done]. by case_match. }
  destruct (has_0x r) eqn:Eh; rewrite ?andb_true_r, ?andb_false_r in *.
  - destruct ((base =? 0) || (base =? 16)) eqn:Eb; simpl in Hb.
    + apply bool_decide_eq_false in Hb. rewrite orb_comm, Eb in Es. injection Es as <- <- <-.
      rewrite H0x by done. simpl. by destruct (next (drop 2 r)).
    + apply orb_false_iff in Eb as [E0 E16]. rewrite E0, E16 in *. simpl in Es. injection Es as <- <- <-.
      by destruct (next r).
  - simpl. destruct (next r) as [c r'] eqn:En. simpl in Es.
    rewrite orb_false_r in Es. destruct (Z.eqb_spec base 16) as [->|].
    + injection Es as <- <- <-. simpl. replace (skip_0x r) with r; [by rewrite En |].
      revert Eh. clear. destruct r as [|z [|x [|d r]]]; simpl; try done. by intros ->.
    + simpl in Es. destruct (base =? 0); injection Es as <- <- <-; by rewrite En.
Qed.

(** A bare [0x]: the loop ends at once, and the subject is [0]. *)
Lemma strto_start_bare s base neg b t : cstr_ok s -> subject s base = (neg, b, t) -> bare_0x s base = true ->
  exists c r, strto_start s base = (neg, 16, c, r) /\ b = 16 /\ is_base_digit 16 c = false /\
    fst (read_digits 16 0 t) = 0.
Proof.
  intros Hs Es Hb. rewrite strto_start_sign by done. unfold subject in Es. unfold bare_0x in Hb.
  destruct (read_sign (skip_spaces s)) as [n r]. simpl in Hb.
  apply andb_true_iff in Hb as [Hb Hsk]. apply andb_true_iff in Hb as [Hb Hh]. apply bool_decide_eq_true in Hsk.
  rewrite Hh, andb_true_r in *. rewrite orb_comm, Hb in Es. injection Es as <- <- <-. rewrite Hb. simpl.
  destruct (next (drop 2 r)) as [c r'] eqn:En. exists c, r'. repeat split.
  - destruct r as [|z [|x [|d r]]]; simpl in *; try done; [by injection En as <- <- |].
    injection En as <- <-. rewrite Hh in Hsk. simpl in Hsk. destruct (is_base_digit 16 d) eqn:Ed; [|done].
    apply (f_equal length) in Hsk. simpl in Hsk. lia.
  - rewrite Hsk. destruct r as [|z [|x r]]; simpl in Hh; try done. apply andb_true_iff in Hh as [Hz Hx]. zbool. subst z.
    simpl. apply orb_true_iff in Hx as [Hx|Hx]; zbool; subst x; reflexivity.
Qed.

Lemma digit_loop_stop step base c s st : 2 <= base <= 36 -> is_base_digit base c = false ->
  digit_loop step base c s st = (st, (c, s)).
Proof.
  intros Hb Hc. unfold is_base_digit in Hc. zbool.
  assert (to_digit c = None \/ exists d, to_digit c = Some d /\ base <= d) as [E|(d & E & Hd)].
  { rewrite to_digit_val. destruct (Z.ltb_spec (digit_val c) 36); eauto. }
  - destruct s; simpl; by rewrite E.
  - apply Z.leb_le in Hd. destruct s; simpl; by rewrite E, Hd.
Qed.

Lemma subject_base s base neg b t : base_ok base -> subject s base = (neg, b, t) -> 2 <= b <= 36.
Proof.
  unfold base_ok, subject. intros Hb. destruct (read_sign (skip_spaces s)) as [n r].
  repeat case_match; intros [= <- <- <-]; zbool; lia.
Qed.

Lemma base_ok_test base : base_ok base -> (base <? 0) || (base =? 1) || (36 <? base) = false.
Proof. unfold base_ok. intros. rewrite !orb_false_iff, !Z.ltb_ge, Z.eqb_neq. lia. Qed.

(** The two loops, for a step that tracks the digits. *)
Lemma digit_loop_tracks lim sgn out step s base neg b t : 0 <= lim ->
  (forall v n d st, 0 <= v -> 0 <= d < b -> tracks lim sgn out v n st -> tracks lim sgn out (v * b + d) (S n) (step d st)) ->
  cstr_ok s -> base_ok base -> subject s base = (neg, b, t) ->
  let '(neg', b', c, s') := strto_start s base in
  neg' = neg /\ b' = b /\
  let r := digit_loop step b c s' (0, 0, 0) in
  exists m, tracks lim sgn out (fst (read_digits b 0 t)) m (fst r) /\
    (m = O <-> bare_0x s base || bool_decide (snd (read_digits b 0 t) = t) = true) /\
    (m <> O -> uncurry back (snd r) = snd (read_digits b 0 t)).
Proof.
  intros Hl Hstep Hs Hb Es. pose proof (subject_base _ _ _ _ _ Hb Es) as Hb'.
  assert (T0 : forall lim, 0 <= lim -> tracks lim sgn out 0 0 (0, 0, 0)).
  { intros l Hll. split; [done |]. destruct (Z.leb_spec 0 l); [|lia]. by rewrite Z.mul_0_r. }
  destruct (bare_0x s base) eqn:Ebare.
  - destruct (strto_start_bare _ _ _ _ _ Hs Es Ebare) as (c & r & -> & -> & Hc & Hv). split; [done |]. split; [done |].
    rewrite digit_loop_stop, Hv by done. exists O. split; [by apply T0 |]. done.
  - rewrite (strto_start_subject _ _ _ _ _ Hs Es Ebare). split; [done |]. split; [done |].
    destruct (fold_tracks lim sgn out b step ltac:(lia) Hl Hstep t 0 0 (0, 0, 0)) as (m & H1 & H2 & _); [lia | by apply T0 |].
    destruct (digit_loop_fold step b t (0, 0, 0) Hb' (cstr_subject _ _ _ _ _ Hs Es) (fst (next t)) (snd (next t))) as [L1 L2];
      [by destruct (next t) |].
    exists m. rewrite L1, L2. split; [done |]. split; [|done]. simpl. by rewrite bool_decide_eq_true.
Qed.

(** What the tracked state says once the loop is over. *)
Lemma tracks_end lim sgn out v m acc any errno : 0 <= lim -> tracks lim sgn out v m (acc, any, errno) ->
  (m = O -> v = 0) /\ (any =? 0) = (m =? 0)%nat /\ (0 <? any) = (v <=? lim) && negb (m =? 0)%nat /\
  acc = (if v <=? lim then sgn * v else out) /\ errno = (if v <=? lim then 0 else ERANGE).
Proof.
  intros Hl [H0 H]. split; [done |].
  destruct (Z.leb_spec v lim); injection H as -> -> ->; destruct m; try done. specialize (H0 eq_refl). lia.
Qed.

Lemma read_digits_nonneg base a t : 2 <= base -> 0 <= a -> 0 <= fst (read_digits base a t).
Proof.
  intros Hb. revert a. induction t as [|c t IH]; simpl; intros; [done |]. case_match; [|done].
  apply IH. pose proof (digit_val_nonneg c). nia.
Qed.

Lemma end_of_loop (m : nat) (b : bool) (s c rest : bytes) : (m = O <-> b = true) -> (m <> O -> c = rest) ->
  (if (m =? 0)%nat then s else c) = if b then s else rest.
Proof.
  intros [H1 H2] H3. destruct m, b; simpl; try done; [by specialize (H1 eq_refl) | by specialize (H2 eq_refl) | by apply H3].
Qed.

Lemma strto_signed_spec w s base neg b t : 1 <= w -> cstr_ok s -> base_ok base -> subject s base = (neg, b, t) ->
  let v := sign neg * fst (read_digits b 0 t) in
  let rest := snd (read_digits b 0 t) in
  strto_signed w s base =
    Converted (clip (INT_MIN w) (INT_MAX w) v) (if bare_0x s base || bool_decide (rest = t) then s else rest)
      (if bool_decide (INT_MIN w <= v <= INT_MAX w) then 0 else ERANGE).
Proof.
  intros Hw Hs Hb Es. cbv zeta. unfold strto_signed. rewrite base_ok_test by done.
  pose proof (subject_base _ _ _ _ _ Hb Es) as Hb'. pose proof (read_digits_nonneg b 0 t ltac:(lia) ltac:(lia)) as Hv.
  pose proof (digit_loop_tracks _ _ _ (signed_step w neg b (sign neg * (limit w neg / b)) (limit w neg mod b)) s base neg b t
    (limit_pos w neg Hw) (signed_step_tracks w neg b Hw ltac:(lia)) Hs Hb Es) as H.
  destruct (strto_start s base) as [[[neg' b'] c] s']. destruct H as (-> & -> & m & H1 & H2 & H3).
  rewrite cut_spec by lia.
  destruct (digit_loop _ b c s' (0, 0, 0)) as [[[acc any] errno] [c' s'']]. simpl in H1, H3.
  apply tracks_end in H1 as (_ & -> & _ & -> & ->); [|by apply limit_pos]. rewrite (end_of_loop _ _ _ _ _ H2 H3).
  unfold clip, limit, sign, INT_MIN, INT_MAX in *. pose proof (Z.pow_pos_nonneg 2 (w - 1) ltac:(lia) ltac:(lia)).
  generalize dependent (fst (read_digits b 0 t)). intros x Hx. f_equal; destruct neg; zcase; try case_bool_decide; (done || lia).
Qed.

Lemma strto_unsigned_spec w s base neg b t : 1 <= w -> cstr_ok s -> base_ok base -> subject s base = (neg, b, t) ->
  let v := fst (read_digits b 0 t) in
  let rest := snd (read_digits b 0 t) in
  strto_unsigned w s base =
    Converted (if UINT_MAX w <? v then UINT_MAX w else if neg then wrap w (- v) else v)
      (if bare_0x s base || bool_decide (rest = t) then s else rest)
      (if UINT_MAX w <? v then ERANGE else 0).
Proof.
  intros Hw Hs Hb Es v rest. unfold strto_unsigned. rewrite base_ok_test by done.
  pose proof (subject_base _ _ _ _ _ Hb Es) as Hb'. pose proof (read_digits_nonneg b 0 t ltac:(lia) ltac:(lia)) as Hv.
  pose proof (digit_loop_tracks (UINT_MAX w) 1 (UINT_MAX w) (unsigned_step w b (UINT_MAX w / b) (UINT_MAX w mod b)) s base neg b t
    ltac:(unfold UINT_MAX; lia) (unsigned_step_tracks w b Hw ltac:(lia)) Hs Hb Es) as H.
  destruct (strto_start s base) as [[[neg' b'] c] s']. destruct H as (-> & -> & m & H1 & H2 & H3).
  destruct (digit_loop _ b c s' (0, 0, 0)) as [[[acc any] errno] [c' s'']]. simpl in H1, H3.
  apply tracks_end in H1 as (H0 & -> & -> & -> & ->); [|unfold UINT_MAX; lia]. rewrite (end_of_loop _ _ _ _ _ H2 H3).
  fold v. rewrite !Z.mul_1_l, Z.ltb_antisym. destruct (Z.leb_spec v (UINT_MAX w)); simpl; [|by rewrite andb_false_r].
  destruct neg; [|done]. simpl. destruct m; [|done]. simpl. fold v in H0. by rewrite (H0 eq_refl).
Qed.

(** The functions of <stdlib.h>: the value clipped to the type, the end of the
    number (or the start, when there is none) and ERANGE. *)
Definition std_signed (w : Z) (s : bytes) (base : Z) : converted :=
  let '(neg, b, t) := subject s base in
  let '(v, rest) := read_digits b 0 t in
  let v := sign neg * v in
  Converted (clip (INT_MIN w) (INT_MAX w) v) (if bool_decide (rest = t) then s else rest)
    (if bool_decide (INT_MIN w <= v <= INT_MAX w) then 0 else ERANGE).

Definition std_unsigned (w : Z) (s : bytes) (base : Z) : converted :=
  let '(neg, b, t) := subject s base in
  let '(v, rest) := read_digits b 0 t in
  Converted (if UINT_MAX w <? v then UINT_MAX w else if neg then wrap w (- v) else v)
    (if bool_decide (rest = t) then s else rest)
    (if UINT_MAX w <? v then ERANGE else 0).

(** The end pointer goes back to the start on a bare [0x]. *)
Definition unread (s : bytes) (base : Z) (r : converted) : converted :=
  if bare_0x s base then Converted (cv_val r) s (cv_errno r) else r.

Lemma strto_signed_std w s base : 1 <= w -> cstr_ok s -> base_ok base ->
  strto_signed w s base = unread s base (std_signed w s base).
Proof.
  intros Hw Hs Hb. unfold std_signed, unread. destruct (subject s base) as [[neg b] t] eqn:Es.
  rewrite (strto_signed_spec w s base neg b t) by done. destruct (read_digits b 0 t). by destruct (bare_0x s base).
Qed.

Lemma strto_unsigned_std w s base : 1 <= w -> cstr_ok s -> base_ok base ->
  strto_unsigned w s base = unread s base (std_unsigned w s base).
Proof.
  intros Hw Hs Hb. unfold std_unsigned, unread. destruct (subject s base) as [[neg b] t] eqn:Es.
  rewrite (strto_unsigned_spec w s base neg b t) by done. destruct (read_digits b 0 t). by destruct (bare_0x s base).
Qed.

Lemma unread_val s base r : cv_val (unread s base r) = cv_val r.
Proof. unfold unread. by case_match. Qed.

(** The values the boot image tools use. *)
Lemma strtoul_value s base : cstr_ok s -> base = 10 \/ base = 16 -> cv_val (bionic_strtoul s base) = CString.strtoul s base.
Proof.
  intros Hs Hb. unfold bionic_strtoul. rewrite strto_unsigned_std, unread_val by (done || unfold base_ok; lia).
  unfold std_unsigned, subject, CString.strtoul, ULONG_MAX, UINT_MAX. destruct (read_sign (skip_spaces s)) as [neg r].
  destruct Hb as [-> | ->]; simpl; by destruct (read_digits _ 0 _).
Qed.

Lemma strtol_value s base : cstr_ok s -> 2 <= base <= 10 -> cv_val (bionic_strtol s base) = CString.strtol s base.
Proof.
  intros Hs Hb. unfold bionic_strtol. rewrite strto_signed_std, unread_val by (done || unfold base_ok; lia).
  unfold std_signed, subject, CString.strtol, clip, LONG_MAX, INT_MIN, INT_MAX. destruct (read_sign (skip_spaces s)) as [neg r].
  destruct (Z.eqb_spec base 16), (Z.eqb_spec base 0); try lia. simpl. destruct (read_digits base 0 r) as [v rest]. simpl cv_val.
  destruct neg; unfold sign; zcase; lia.
Qed.

(** ** Properties *)



(** On [0xg] the conversions in bases 16 and 0 report that nothing was
    read: the end pointer is the start of the string and not the [x] behind the
    number 0 that the standard makes of it. *)
Theorem strto_bare_prefix base : base = 0 \/ base = 16 ->
  cv_end (bionic_strtol (str "0xg") base) = str "0xg" /\ cv_end (std_signed 64 (str "0xg") base) = str "xg".
Proof. intros [-> | ->]; vm_compute; done. Qed.

Lemma strto_bare_prefix_witness : cv_end (bionic_strtol (str "0xg") 16) = str "0xg".
Proof. apply (strto_bare_prefix 16). by right. Defined.
