(* ===== verification/Scanf.v ===== *)
(** * Formatted input of the C library

    Models src/bionic/libc/upstream-openbsd/lib/libc/stdio/vfscanf.c: the
    interpreter of formats, the scan sets, and the character machines of the
    integer and floating point conversions. A stream is the bytes still to be
    read; what the call stores through its pointers is a list of values in the
    order of the stores. The wide character branches are not compiled
    (SCANF_WIDE_CHAR is not defined). strtod and its relatives are not part of
    the model: a floating point conversion yields the text it hands to them. *)

From S2P Require Import Prelude.
From S2P Require Import CString.
From S2P Require Import Strto.

(** What a conversion stores: an integer of [w] bits, characters, a string and
    its terminator, or a floating point number read from a text. *)
Inductive float_kind := Float | Double | LongDouble.
Inductive arg :=
  | AInt (w v : Z)
  | AChars (s : bytes)
  | AString (s : bytes)
  | AFloat (k : float_kind) (text : bytes).

(** Flags used during conversion. *)
Definition BUF : Z := 513.
Definition LONG : Z := 0x00001.
Definition LONGDBL : Z := 0x00002.
Definition SHORT : Z := 0x00004.
Definition SHORTSHORT : Z := 0x00008.
Definition LLONG : Z := 0x00010.
Definition POINTER : Z := 0x00020.
Definition SIZEINT : Z := 0x00040.
Definition MAXINT : Z := 0x00080.
Definition PTRINT : Z := 0x00100.
Definition NOSKIP : Z := 0x00200.
Definition SUPPRESS : Z := 0x00400.
Definition UNSIGNED : Z := 0x00800.
Definition SIGNOK : Z := 0x01000.
Definition HAVESIGN : Z := 0x02000.
Definition NDIGITS : Z := 0x04000.
Definition DPTOK : Z := 0x08000.
Definition EXPOK : Z := 0x10000.
Definition PFXOK : Z := 0x08000.
Definition NZDIGITS : Z := 0x10000.

Definition has (flags f : Z) : bool := negb (Z.land flags f =? 0).

(** The conversions; a scan set carries its table. *)
Inductive ctype :=
  | CT_CHAR
  | CT_CCL (tab : list bool)
  | CT_STRING
  | CT_INT (base : Z)
  | CT_FLOAT.

(** What follows a [%]. *)
Inductive directive :=
  | DLiteral (c : Z)
  | DConv (c : ctype) (flags width : Z)
  | DCount (flags : Z)
  | DEnd.

Definition EOF : Z := -1.

(** ** Scan sets *)
Definition tab_set (tab : list bool) (c : Z) (v : bool) : outcome (list bool) :=
  if (0 <=? c) && (c <? Z.of_nat (length tab)) then Ret (<[Z.to_nat c := v]> tab) else Fault OutOfBounds.

(** [do { tab[++c] = v; } while (c < n);] *)
Fixpoint fill_range (k : nat) (tab : list bool) (c : Z) (v : bool) : outcome (list bool * Z) :=
  match k with
  | O => Ret (tab, c)
  | S k' => tab ← tab_set tab (c + 1) v; fill_range k' tab (c + 1) v
  end.

(** From [doswitch], with the character stored last. *)
Fixpoint sccl_loop (fmt : bytes) (tab : list bool) (v : bool) (c : Z) : outcome (list bool * bytes) :=
  match fmt with
  | [] => Ret (tab, [])
  | n :: fmt1 =>
      if n =? 45 then
        match fmt1 with
        | n' :: fmt2 =>
            if (n' =? 93) || (n' <? c) then tab ← tab_set tab 45 v; sccl_loop fmt1 tab v 45
            else '(tab, c) ← fill_range (Z.to_nat (Z.max 1 (n' - c))) tab c v; sccl_loop fmt2 tab v c
        | [] => tab ← tab_set tab 45 v; sccl_loop fmt1 tab v 45
        end
      else if n =? 93 then Ret (tab, fmt1)
      else tab ← tab_set tab n v; sccl_loop fmt1 tab v n
  end.

Definition __sccl (fmt : bytes) : outcome (list bool * bytes) :=
  let '(c, fmt) := next fmt in
  let '(v, (c, fmt)) := if c =? 94 then (true, next fmt) else (false, (c, fmt)) in
  let tab := replicate 256 v in
  if c =? 0 then Ret (tab, []) else
  let v := negb v in
  tab ← tab_set tab c v;
  sccl_loop fmt tab v c.

(** ** The directives

    From [again]. *)
Fixpoint directive_of (fmt : bytes) (flags width : Z) : outcome (directive * bytes) :=
  match fmt with
  | [] => Ret (DEnd, [])
  | c :: fmt =>
      if c =? 37 then Ret (DLiteral c, fmt)
      else if c =? 42 then directive_of fmt (Z.lor flags SUPPRESS) width
      else if c =? 106 then directive_of fmt (Z.lor flags MAXINT) width
      else if c =? 76 then directive_of fmt (Z.lor flags LONGDBL) width
      else if c =? 104 then
        match fmt with
        | c' :: fmt' =>
            if c' =? 104 then directive_of fmt' (Z.lor flags SHORTSHORT) width
            else directive_of fmt (Z.lor flags SHORT) width
        | [] => directive_of fmt (Z.lor flags SHORT) width
        end
      else if c =? 108 then
        match fmt with
        | c' :: fmt' =>
            if c' =? 108 then directive_of fmt' (Z.lor flags LLONG) width
            else directive_of fmt (Z.lor flags LONG) width
        | [] => directive_of fmt (Z.lor flags LONG) width
        end
      else if c =? 113 then directive_of fmt (Z.lor flags LLONG) width
      else if c =? 116 then directive_of fmt (Z.lor flags PTRINT) width
      else if c =? 122 then directive_of fmt (Z.lor flags SIZEINT) width
      else if isdigit c then directive_of fmt flags (u64 (width * 10 + c - 48))
      else if c =? 68 then Ret (DConv (CT_INT 10) (Z.lor flags LONG) width, fmt)
      else if c =? 100 then Ret (DConv (CT_INT 10) flags width, fmt)
      else if c =? 105 then Ret (DConv (CT_INT 0) flags width, fmt)
      else if c =? 79 then Ret (DConv (CT_INT 8) (Z.lor (Z.lor flags LONG) UNSIGNED) width, fmt)
      else if c =? 111 then Ret (DConv (CT_INT 8) (Z.lor flags UNSIGNED) width, fmt)
      else if c =? 117 then Ret (DConv (CT_INT 10) (Z.lor flags UNSIGNED) width, fmt)
      else if (c =? 88) || (c =? 120) then
        Ret (DConv (CT_INT 16) (Z.lor (Z.lor flags PFXOK) UNSIGNED) width, fmt)
      else if (c =? 101) || (c =? 69) || (c =? 102) || (c =? 70) || (c =? 103) || (c =? 71) || (c =? 97) || (c =? 65) then
        Ret (DConv CT_FLOAT flags width, fmt)
      else if c =? 115 then Ret (DConv CT_STRING flags width, fmt)
      else if c =? 91 then
        '(ccltab, fmt) ← __sccl fmt;
        Ret (DConv (CT_CCL ccltab) (Z.lor flags NOSKIP) width, fmt)
      else if c =? 99 then Ret (DConv CT_CHAR (Z.lor flags NOSKIP) width, fmt)
      else if c =? 112 then
        Ret (DConv (CT_INT 16) (Z.lor (Z.lor flags (Z.lor POINTER PFXOK)) UNSIGNED) width, fmt)
      else if c =? 110 then Ret (DCount flags, fmt)
      else Ret (DConv (CT_INT 10) (if isupper c then Z.lor flags LONG else flags) width, fmt)
  end.

(** The width of the integer [%n] stores into, and of the one an integer
    conversion does; the two test the modifiers in different orders. *)
Definition count_width (flags : Z) : Z :=
  if has flags SHORTSHORT then 8 else if has flags SHORT then 16 else if has flags LONG then 64
  else if has flags SIZEINT then 64 else if has flags PTRINT then 64 else if has flags LLONG then 64
  else if has flags MAXINT then 64 else 32.

Definition int_width (flags : Z) : Z :=
  if has flags POINTER then 64 else if has flags MAXINT then 64 else if has flags LLONG then 64
  else if has flags SIZEINT then 64 else if has flags PTRINT then 64 else if has flags LONG then 64
  else if has flags SHORT then 16 else if has flags SHORTSHORT then 8 else 32.

(** ** Conversions

    The longest prefix of characters that pass a test, at most [width] (> 0). *)
Fixpoint take_class (p : Z -> bool) (width : Z) (input : bytes) : bytes * bytes :=
  match input with
  | c :: input' =>
      if p c then
        if width - 1 =? 0 then ([c], input')
        else let '(s, r) := take_class p (width - 1) input' in (c :: s, r)
      else ([], input)
  | [] => ([], [])
  end.

Definition no_limit : Z := 2 ^ 64 - 1.

(** [if (--width > sizeof(buf) - 2) width = sizeof(buf) - 2; width++;] *)
Definition number_width (width : Z) : Z :=
  let width := u64 (width - 1) in
  (if BUF - 2 <? width then BUF - 2 else width) + 1.

Definition basefix : list Z := [10; 1; 2; 3; 4; 5; 6; 7; 8; 9; 10; 11; 12; 13; 14; 15; 16].

(** One character of an integer: the base and the flags after it, or [None] if
    it is not a legal character of the number. [n] characters are stored. *)
Definition int_char (c n base flags : Z) : option (Z * Z) :=
  if c =? 48 then
    let '(base, flags) := if base =? 0 then (8, Z.lor flags PFXOK) else (base, flags) in
    Some (base, if has flags NZDIGITS then Z.ldiff flags (Z.lor SIGNOK (Z.lor NZDIGITS NDIGITS))
                else Z.ldiff flags (Z.lor SIGNOK (Z.lor PFXOK NDIGITS)))
  else if (49 <=? c) && (c <=? 55) then
    Some (rd basefix base, Z.ldiff flags (Z.lor SIGNOK (Z.lor PFXOK NDIGITS)))
  else if (c =? 56) || (c =? 57) then
    let base := rd basefix base in
    if base <=? 8 then None else Some (base, Z.ldiff flags (Z.lor SIGNOK (Z.lor PFXOK NDIGITS)))
  else if ((65 <=? c) && (c <=? 70)) || ((97 <=? c) && (c <=? 102)) then
    if base <=? 10 then None else Some (base, Z.ldiff flags (Z.lor SIGNOK (Z.lor PFXOK NDIGITS)))
  else if (c =? 43) || (c =? 45) then
    if has flags SIGNOK then Some (base, Z.lor (Z.ldiff flags SIGNOK) HAVESIGN) else None
  else if (c =? 120) || (c =? 88) then
    if has flags PFXOK && (n =? 1 + (if has flags HAVESIGN then 1 else 0)) then Some (16, Z.ldiff flags PFXOK)
    else None
  else None.

(** [for (p = buf; width; width--)]: what was stored, the base, the flags and
    the input left. When a digit is refused the base may already be fixed. *)
Fixpoint int_loop (width : Z) (buf input : bytes) (base flags : Z) : bytes * Z * Z * bytes :=
  match input with
  | [] => (buf, base, flags, [])
  | c :: input' =>
      if width =? 0 then (buf, base, flags, input) else
      match int_char c (Z.of_nat (length buf)) base flags with
      | Some (base, flags) => int_loop (width - 1) (buf ++ [c]) input' base flags
      | None => (buf, if (c =? 56) || (c =? 57) then rd basefix base else base, flags, input)
      end
  end.

(** One character of a floating point number. *)
Definition float_char (c flags : Z) : option Z :=
  if isdigit c then Some (Z.ldiff flags (Z.lor SIGNOK NDIGITS))
  else if (c =? 43) || (c =? 45) then
    if has flags SIGNOK then Some (Z.ldiff flags SIGNOK) else None
  else if c =? 46 then
    if has flags DPTOK then Some (Z.ldiff flags (Z.lor SIGNOK DPTOK)) else None
  else if (c =? 101) || (c =? 69) then
    if Z.land flags (Z.lor NDIGITS EXPOK) =? EXPOK then
      Some (Z.lor (Z.ldiff flags (Z.lor EXPOK DPTOK)) (Z.lor SIGNOK NDIGITS)) else None
  else None.

Fixpoint float_loop (width : Z) (buf input : bytes) (flags : Z) : bytes * Z * bytes :=
  match input with
  | [] => (buf, flags, [])
  | c :: input' =>
      if width =? 0 then (buf, flags, input) else
      match float_char c flags with
      | Some flags => float_loop (width - 1) (buf ++ [c]) input' flags
      | None => (buf, flags, input)
      end
  end.

(** [c = *--p; ungetc(c, fp);] *)
Definition unget (buf input : bytes) : Z * bytes * bytes :=
  let c := List.last buf 0 in (c, removelast buf, c :: input).

(** ** The interpreter *)
Record scan := Scan {
  s_in : bytes;
  s_nread : Z;
  s_nassigned : Z;
  s_args : list arg
}.

Inductive scanned :=
  | Next (s : scan)
  | MatchFailure (s : scan)
  | InputFailure (s : scan).

Definition assign (s : scan) (flags : Z) (v : arg) (n : Z) (input : bytes) : scan :=
  if has flags SUPPRESS then Scan input (s_nread s + n) (s_nassigned s) (s_args s)
  else Scan input (s_nread s + n) (s_nassigned s + 1) (s_args s ++ [v]).

Definition set_in (s : scan) (input : bytes) : scan := Scan input (s_nread s) (s_nassigned s) (s_args s).

Definition do_char (flags width : Z) (s : scan) : scanned :=
  let width := if width =? 0 then 1 else width in
  let '(t, rest) := take_class (fun _ => true) width (s_in s) in
  Next (assign s flags (AChars t) (Z.of_nat (length t)) rest).

Definition do_ccl (tab : list bool) (flags width : Z) (s : scan) : scanned :=
  let width := if width =? 0 then no_limit else width in
  let '(t, rest) := take_class (fun c => nth (Z.to_nat c) tab false) width (s_in s) in
  if (length t =? 0)%nat then MatchFailure s
  else Next (assign s flags (AString t) (Z.of_nat (length t)) rest).

Definition do_string (flags width : Z) (s : scan) : scanned :=
  let width := if width =? 0 then no_limit else width in
  let '(t, rest) := take_class (fun c => negb (isspace c)) width (s_in s) in
  Next (assign s flags (AString t) (Z.of_nat (length t)) rest).

Definition do_int (base flags width : Z) (s : scan) : scanned :=
  let '(buf, base, flags, input) :=
    int_loop (number_width width) [] (s_in s) base (Z.lor flags (Z.lor SIGNOK (Z.lor NDIGITS NZDIGITS))) in
  if has flags NDIGITS then
    MatchFailure (set_in s (if (0 <? length buf)%nat then snd (unget buf input) else input))
  else
    let c := List.last buf 0 in
    let '(buf, input) := if (c =? 120) || (c =? 88) then let '(_, b, i) := unget buf input in (b, i) else (buf, input) in
    let res := if has flags UNSIGNED then cv_val (strtoumax buf base) else u64 (cv_val (strtoimax buf base)) in
    Next (assign s flags (AInt (int_width flags) (swrap (int_width flags) res)) (Z.of_nat (length buf)) input).

Definition do_float (flags width : Z) (s : scan) : scanned :=
  let '(buf, flags, input) :=
    float_loop (number_width width) [] (s_in s) (Z.lor flags (Z.lor SIGNOK (Z.lor NDIGITS (Z.lor DPTOK EXPOK)))) in
  if has flags NDIGITS && has flags EXPOK then MatchFailure (set_in s (buf ++ input))
  else
    let '(buf, input) :=
      if has flags NDIGITS then
        let '(c, buf, input) := unget buf input in
        if negb (c =? 101) && negb (c =? 69) then let '(_, b, i) := unget buf input in (b, i) else (buf, input)
      else (buf, input) in
    let k := if has flags LONGDBL then LongDouble else if has flags LONG then Double else Float in
    Next (assign s flags (AFloat k buf) (Z.of_nat (length buf)) input).

(** The loop over [isspace( *fp->_p)], counting *)
Definition eat_spaces (s : scan) : scan :=
  let rest := skip_spaces (s_in s) in
  Scan rest (s_nread s + (Z.of_nat (length (s_in s)) - Z.of_nat (length rest))) (s_nassigned s) (s_args s).

(** A conversion that requires input. *)
Definition convert (c : ctype) (flags width : Z) (s : scan) : scanned :=
  if (length (s_in s) =? 0)%nat then InputFailure s else
  let s := if has flags NOSKIP then s else eat_spaces s in
  if (length (s_in s) =? 0)%nat then InputFailure s else
  match c with
  | CT_CHAR => do_char flags width s
  | CT_CCL tab => do_ccl tab flags width s
  | CT_STRING => do_string flags width s
  | CT_INT base => do_int base flags width s
  | CT_FLOAT => do_float flags width s
  end.

Definition literal (c : Z) (s : scan) : scanned :=
  match s_in s with
  | [] => InputFailure s
  | x :: rest =>
      if negb (x =? c) then MatchFailure s
      else Next (Scan rest (s_nread s + 1) (s_nassigned s) (s_args s))
  end.

(** The return value, what was stored and the input left. *)
Definition finish (r : scanned) (k : scan -> outcome (Z * list arg * bytes)) : outcome (Z * list arg * bytes) :=
  match r with
  | Next s => k s
  | MatchFailure s => Ret (s_nassigned s, s_args s, s_in s)
  | InputFailure s => Ret (if s_nassigned s =? 0 then EOF else s_nassigned s, s_args s, s_in s)
  end.

Fixpoint scan_loop (fuel : nat) (fmt : bytes) (s : scan) : outcome (Z * list arg * bytes) :=
  match fmt with
  | [] => Ret (s_nassigned s, s_args s, s_in s)
  | c :: fmt =>
      match fuel with
      | O => Diverge
      | S fuel =>
          if isspace c then scan_loop fuel fmt (eat_spaces s)
          else if negb (c =? 37) then finish (literal c s) (scan_loop fuel fmt)
          else
            '(d, fmt) ← directive_of fmt 0 0;
            match d with
            | DLiteral c => finish (literal c s) (scan_loop fuel fmt)
            | DConv c flags width => finish (convert c flags width s) (scan_loop fuel fmt)
            | DCount flags =>
                scan_loop fuel fmt
                  (if has flags SUPPRESS then s
                   else Scan (s_in s) (s_nread s) (s_nassigned s)
                          (s_args s ++ [AInt (count_width flags) (swrap (count_width flags) (s_nread s))]))
            | DEnd => Ret (EOF, s_args s, s_in s)
            end
      end
  end.

(** Every turn of the loop reads a character of the format. *)
Definition __svfscanf (input fmt : bytes) : outcome (Z * list arg * bytes) :=
  scan_loop (length fmt) fmt (Scan input 0 0 []).
