(* ===== verification/ScanfText.v ===== *)
(** * The texts the conversions of scanf read

    The character machines of vfscanf.c as grammars: what an integer and a
    floating point conversion take from the input is a number written out in
    full, and what they looked at beyond it is pushed back; a conversion that
    fails takes white space only. *)

From S2P Require Import Prelude.
From S2P Require Import CString.
From S2P Require Import Strto.
From S2P Require Import Scanf.

(** ** The loops split their input *)
Lemma skip_spaces_suffix s : exists p, s = p ++ skip_spaces s.
Proof.
  induction s as [|c s [p IH]]; simpl; [by exists [] |]. case_match; [exists (c :: p); simpl; by f_equal | by exists []].
Qed.

Lemma take_class_app p input : forall width, let r := take_class p width input in fst r ++ snd r = input.
Proof.
  induction input as [|c input IH]; intros width; simpl; [done |].
  destruct (p c); [|done]. destruct (width - 1 =? 0); [done |].
  specialize (IH (width - 1)). destruct (take_class p (width - 1) input). simpl in *. by rewrite IH.
Qed.

Lemma int_loop_app input : forall width buf base flags, let '(buf', _, _, rest) := int_loop width buf input base flags in
  buf' ++ rest = buf ++ input.
Proof.
  induction input as [|c input IH]; intros width buf base flags; simpl; [done |].
  destruct (width =? 0); [done |]. destruct (int_char _ _ _ _) as [[b f]|]; [|done].
  specialize (IH (width - 1) (buf ++ [c]) b f). destruct (int_loop _ _ _ _ _) as [[[? ?] ?] ?]. by rewrite IH, <- app_assoc.
Qed.

Lemma float_loop_app input : forall width buf flags, let '(buf', _, rest) := float_loop width buf input flags in
  buf' ++ rest = buf ++ input.
Proof.
  induction input as [|c input IH]; intros width buf flags; simpl; [done |].
  destruct (width =? 0); [done |]. destruct (float_char _ _) as [f|]; [|done].
  specialize (IH (width - 1) (buf ++ [c]) f). destruct (float_loop _ _ _ _) as [[? ?] ?]. by rewrite IH, <- app_assoc.
Qed.

Lemma unget_app buf input : buf <> [] -> let '(_, b, i) := unget buf input in b ++ i = buf ++ input.
Proof. intros H. unfold unget. change (List.last buf 0 :: input) with ([List.last buf 0] ++ input). by rewrite app_assoc, <- app_removelast_last. Qed.

Lemma int_loop_length input : forall width buf base flags, 0 <= width ->
  let '(buf', _, _, _) := int_loop width buf input base flags in
  Z.of_nat (length buf') <= Z.of_nat (length buf) + width.
Proof.
  induction input as [|c input IH]; intros width buf base flags Hw; simpl; [lia |].
  destruct (Z.eqb_spec width 0); [lia |]. destruct (int_char _ _ _ _) as [[b f]|]; [|lia].
  specialize (IH (width - 1) (buf ++ [c]) b f ltac:(lia)). destruct (int_loop _ _ _ _ _) as [[[? ?] ?] ?].
  rewrite length_app in IH. simpl in IH. lia.
Qed.

Lemma float_loop_length input : forall width buf flags, 0 <= width ->
  let '(buf', _, _) := float_loop width buf input flags in Z.of_nat (length buf') <= Z.of_nat (length buf) + width.
Proof.
  induction input as [|c input IH]; intros width buf flags Hw; simpl; [lia |].
  destruct (Z.eqb_spec width 0); [lia |]. destruct (float_char _ _) as [f|]; [|lia].
  specialize (IH (width - 1) (buf ++ [c]) f ltac:(lia)). destruct (float_loop _ _ _ _) as [[? ?] ?].
  rewrite length_app in IH. simpl in IH. lia.
Qed.

Lemma number_width_range width : in_range 64 width -> 0 < number_width width < BUF.
Proof.
  intros H. unfold number_width, BUF. pose proof (wrap_range 64 (width - 1) ltac:(lia)) as Hr. unfold in_range in *.
  zcase; lia.
Qed.

(** ** Flags *)

(** Flags are bits. *)
Lemma has_bit f k : 0 <= k -> has f (2 ^ k) = Z.testbit f k.
Proof.
  intros Hk. unfold has. replace (Z.land f (2 ^ k)) with (if Z.testbit f k then 2 ^ k else 0).
  - destruct (Z.testbit f k); [|done]. apply negb_true_iff, Z.eqb_neq. lia.
  - apply Z.bits_inj'. intros i Hi. rewrite Z.land_spec, Z.pow2_bits_eqb by lia.
    destruct (Z.eqb_spec k i) as [->|]; [|rewrite andb_false_r; by destruct (Z.testbit f k); rewrite ?Z.pow2_bits_false, ?Z.bits_0 by lia].
    rewrite andb_true_r. destruct (Z.testbit f i) eqn:E; rewrite ?Z.pow2_bits_true, ?Z.bits_0 by lia; done.
Qed.

Create Rewrite HintDb flag.
#[export] Hint Rewrite Z.ldiff_spec Z.lor_spec andb_true_r andb_false_r orb_false_r orb_true_r : flag.

Ltac flag_bits :=
  change SIGNOK with (2 ^ 12) in *; change HAVESIGN with (2 ^ 13) in *; change NDIGITS with (2 ^ 14) in *;
  change DPTOK with (2 ^ 15) in *; change PFXOK with (2 ^ 15) in *;
  change EXPOK with (2 ^ 16) in *; change NZDIGITS with (2 ^ 16) in *;
  rewrite ?has_bit in * by lia.

Ltac flag_calc :=
  flag_bits; autorewrite with flag in *; rewrite ?Z.pow2_bits_eqb in * by lia;
  cbn [Z.eqb Pos.eqb negb andb orb] in *;
  autorewrite with flag in *; cbn [negb andb orb] in *.

(** Flags that agree below the machine's own bits. *)
Definition same_low (f f' : Z) : Prop := forall k, 0 <= k < 12 -> Z.testbit f' k = Z.testbit f k.

Lemma same_low_trans f g h : same_low f g -> same_low g h -> same_low f h.
Proof. intros H1 H2 k Hk. rewrite H2, H1; done. Qed.

Lemma same_low_ldiff f m : (forall k, 0 <= k < 12 -> Z.testbit m k = false) -> same_low f (Z.ldiff f m).
Proof. intros H k Hk. by rewrite Z.ldiff_spec, H, andb_true_r. Qed.

Lemma same_low_lor f m : (forall k, 0 <= k < 12 -> Z.testbit m k = false) -> same_low f (Z.lor f m).
Proof. intros H k Hk. by rewrite Z.lor_spec, H, orb_false_r. Qed.

Lemma high_bits m k : 0 <= k < 12 -> Z.testbit (m * 2 ^ 12) k = false.
Proof. intros. rewrite Z.mul_pow2_bits_low by lia. done. Qed.

Ltac low_bits := intros ? ?; match goal with |- Z.testbit ?m _ = false =>
  let n := eval vm_compute in (m / 2 ^ 12) in change m with (n * 2 ^ 12); by apply high_bits end.

Lemma same_low_has f f' k : same_low f f' -> 0 <= k < 12 -> has f' (2 ^ k) = has f (2 ^ k).
Proof. intros H Hk. rewrite !has_bit by lia. by apply H. Qed.

Lemma int_width_low f f' : same_low f f' -> int_width f' = int_width f.
Proof.
  intros H. unfold int_width.
  change POINTER with (2 ^ 5). change MAXINT with (2 ^ 7). change LLONG with (2 ^ 4). change SIZEINT with (2 ^ 6).
  change PTRINT with (2 ^ 8). change LONG with (2 ^ 0). change SHORT with (2 ^ 2). change SHORTSHORT with (2 ^ 3).
  rewrite !(same_low_has f f') by (done || lia). done.
Qed.

(** ** Integers *)
Lemma base_digit_char base c : base = 10 \/ base = 16 -> is_base_digit base c = true ->
  48 <= c <= 57 \/ base = 16 /\ (65 <= c <= 70 \/ 97 <= c <= 102).
Proof.
  unfold is_base_digit, digit_val. intros Hb. destruct (Z.leb_spec 48 c), (Z.leb_spec c 57), (Z.leb_spec 97 c), (Z.leb_spec c 122),
    (Z.leb_spec 65 c), (Z.leb_spec c 90); simpl; rewrite Z.ltb_lt; lia.
Qed.


Definition is_sign (sg : bytes) : Prop := sg = [] \/ sg = [43] \/ sg = [45].
Definition is_x (c : Z) : Prop := c = 120 \/ c = 88.

(** The bases of the directives. *)
Definition scan_base (b : Z) : Prop := b = 0 \/ b = 8 \/ b = 10 \/ b = 16.

Definition digit_mask : Z := Z.lor SIGNOK (Z.lor PFXOK NDIGITS).

(** The four ways a character is accepted. *)
Lemma int_char_cases c n b f b' f' : scan_base b -> int_char c n b f = Some (b', f') ->
  (c = 48 /\ b' = (if b =? 0 then 8 else b) /\
     let g := if b =? 0 then Z.lor f PFXOK else f in
     f' = if has g NZDIGITS then Z.ldiff g (Z.lor SIGNOK (Z.lor NZDIGITS NDIGITS)) else Z.ldiff g digit_mask) \/
  (c <> 48 /\ b' = (if b =? 0 then 10 else b) /\ is_base_digit b' c = true /\ f' = Z.ldiff f digit_mask) \/
  ((c = 43 \/ c = 45) /\ b' = b /\ has f SIGNOK = true /\ f' = Z.lor (Z.ldiff f SIGNOK) HAVESIGN) \/
  (is_x c /\ b' = 16 /\ has f PFXOK = true /\ n = 1 + (if has f HAVESIGN then 1 else 0) /\ f' = Z.ldiff f PFXOK).
Proof.
  intros Hb. assert (Hr : rd basefix b = if b =? 0 then 10 else b) by (by destruct Hb as [->|[->|[->| ->]]]).
  unfold int_char. rewrite Hr.
  destruct (Z.eqb_spec c 48).
  { left. split; [done |]. destruct (b =? 0); by simplify_eq. }
  destruct ((49 <=? c) && (c <=? 55)) eqn:E1.
  { intros [= <- <-]. right. left. split_and!; [done.. | | done]. unfold is_base_digit, digit_val.
    destruct Hb as [->|[->|[->| ->]]]; simpl; zbool; zcase; lia. }
  destruct ((c =? 56) || (c =? 57)) eqn:E2.
  { destruct (Z.leb_spec (if b =? 0 then 10 else b) 8); [done |]. intros [= <- <-]. right. left. split_and!; [done.. | | done].
    unfold is_base_digit, digit_val. destruct Hb as [->|[->|[->| ->]]]; simpl in *; zbool; zcase; lia. }
  destruct ((65 <=? c) && (c <=? 70) || (97 <=? c) && (c <=? 102)) eqn:E3.
  { destruct (Z.leb_spec b 10); [done |]. intros [= <- <-]. right. left. assert (b = 16) as -> by (unfold scan_base in Hb; lia).
    split_and!; [done.. | | done]. unfold is_base_digit, digit_val. zbool; zcase; lia. }
  destruct ((c =? 43) || (c =? 45)) eqn:E4.
  { destruct (has f SIGNOK) eqn:E5; [|done]. intros [= <- <-]. right. right. left. apply orb_true_iff in E4. rewrite !Z.eqb_eq in E4. tauto. }
  destruct ((c =? 120) || (c =? 88)) eqn:E6; [|done]. destruct (has f PFXOK && _) eqn:E7; [|done]. intros [= <- <-]. do 3 right.
  unfold is_x. apply andb_true_iff in E7 as [-> E7]. apply orb_true_iff in E6. rewrite !Z.eqb_eq in *. tauto.
Qed.

(** The prefix and the base go with the base of the directive. *)
Definition prefixed (b0 b : Z) (pfx ds : bytes) : Prop :=
  (pfx = [] /\ b = if b0 =? 0 then (if fst (next ds) =? 48 then 8 else 10) else b0) \/
  ((exists x, pfx = [48; x] /\ is_x x) /\ b = 16 /\ (b0 = 0 \/ b0 = 16)).

(** An integer as the directive of base [b0] reads it: a sign, a prefix, digits. *)
Definition int_text (b0 b : Z) (t : bytes) : Prop :=
  exists sg pfx ds, t = sg ++ pfx ++ ds /\ is_sign sg /\ prefixed b0 b pfx ds /\ ds <> [] /\
    Forall (fun c => is_base_digit b c = true) ds.

(** The state of the integer machine: nothing or a sign; a sign and a zero; a
    bare prefix; digits. *)
Inductive int_state (b0 : Z) : bytes -> Z -> Z -> Prop :=
  | Int_start sg f : is_sign sg -> has f NDIGITS = true -> has f NZDIGITS = true -> has f SIGNOK = bool_decide (sg = []) ->
      has f HAVESIGN = bool_decide (sg <> []) -> has f PFXOK = (b0 =? 16) -> int_state b0 sg b0 f
  | Int_zero sg f : is_sign sg -> has f NDIGITS = false -> has f NZDIGITS = false -> has f SIGNOK = false ->
      has f HAVESIGN = bool_decide (sg <> []) -> has f PFXOK = (b0 =? 16) || (b0 =? 0) ->
      int_state b0 (sg ++ [48]) (if b0 =? 0 then 8 else b0) f
  | Int_prefix sg x f : is_sign sg -> is_x x -> b0 = 0 \/ b0 = 16 -> has f NDIGITS = false -> has f SIGNOK = false ->
      has f PFXOK = false -> int_state b0 (sg ++ [48; x]) 16 f
  | Int_digits t b f : int_text b0 b t -> has f NDIGITS = false -> has f SIGNOK = false -> has f PFXOK = false ->
      int_state b0 t b f.

Lemma int_text_base b0 b t : scan_base b0 -> int_text b0 b t -> b = 8 \/ b = 10 \/ b = 16.
Proof.
  intros Hb (sg & pfx & ds & _ & _ & [[_ ->]|(_ & -> & _)] & _); [|tauto].
  destruct Hb as [->|[->|[->| ->]]]; simpl; try case_match; auto.
Qed.

(** One more digit. *)
Lemma int_text_digit b0 b t c : int_text b0 b t -> is_base_digit b c = true -> int_text b0 b (t ++ [c]).
Proof.
  intros (sg & pfx & ds & -> & Hs & Hp & Hn & Hd) Hc. exists sg, pfx, (ds ++ [c]).
  split_and!; [by rewrite <- !app_assoc | done | | by destruct ds | apply Forall_app; by auto].
  destruct Hp as [[-> ->]|Hp]; [left | by right]. split; [done |]. by destruct ds.
Qed.

Ltac flag_goal := unfold digit_mask; flag_calc; try done; try congruence.

(** The flags after a digit. *)
Lemma zero_flags f : let f' := if has f NZDIGITS then Z.ldiff f (Z.lor SIGNOK (Z.lor NZDIGITS NDIGITS)) else Z.ldiff f digit_mask in
  has f' NDIGITS = false /\ has f' SIGNOK = false /\ has f' NZDIGITS = false /\ has f' HAVESIGN = has f HAVESIGN /\
  has f' PFXOK = has f NZDIGITS && has f PFXOK.
Proof. simpl. destruct (has f NZDIGITS) eqn:E; split_and!; flag_goal. Qed.

Lemma digit_flags f : let f' := Z.ldiff f digit_mask in
  has f' NDIGITS = false /\ has f' SIGNOK = false /\ has f' PFXOK = false.
Proof. simpl. split_and!; flag_goal. Qed.

Lemma prefix_flags f k : 0 <= k -> k <> 15 -> has (Z.lor f PFXOK) (2 ^ k) = has f (2 ^ k).
Proof. intros. change PFXOK with (2 ^ 15). rewrite !has_bit, Z.lor_spec, Z.pow2_bits_eqb by lia. destruct (Z.eqb_spec 15 k); [lia |]. by rewrite orb_false_r. Qed.

Lemma int_state_start b0 sg b f c b' f' : scan_base b0 -> b = b0 -> is_sign sg -> has f NDIGITS = true -> has f NZDIGITS = true ->
  has f SIGNOK = bool_decide (sg = []) -> has f HAVESIGN = bool_decide (sg <> []) -> has f PFXOK = (b0 =? 16) ->
  int_char c (Z.of_nat (length sg)) b f = Some (b', f') -> int_state b0 (sg ++ [c]) b' f'.
Proof.
  intros Hb -> Hsg Hn Hz Hs Hh Hp E. apply int_char_cases in E as [(-> & -> & ->)|[(Hc & -> & Hd & ->)|[(Hc & -> & Hs' & ->)|(_ & _ & _ & Hl & _)]]]; [.. | done].
  - set (g := if b0 =? 0 then Z.lor f PFXOK else f).
    assert (Hg : has g NZDIGITS = true /\ has g HAVESIGN = bool_decide (sg <> []) /\ has g PFXOK = (b0 =? 16) || (b0 =? 0)).
    { unfold g. destruct (Z.eqb_spec b0 0); [|by rewrite orb_false_r].
      change NZDIGITS with (2 ^ 16) in *. change HAVESIGN with (2 ^ 13) in *. rewrite !prefix_flags by lia. split_and!; [done.. |].
      rewrite orb_true_r. flag_goal. }
    destruct Hg as (G1 & G2 & G3). destruct (zero_flags g) as (Z1 & Z2 & Z3 & Z4 & Z5).
    apply Int_zero; try done; [by rewrite Z4 | by rewrite Z5, G1].
  - destruct (digit_flags f) as (D1 & D2 & D3). apply Int_digits; try done. exists sg, [], [c].
    split_and!; [done | done | | done | by constructor]. left. split; [done |]. simpl. by destruct (Z.eqb_spec c 48).
  - rewrite Hs in Hs'. apply bool_decide_eq_true in Hs' as ->. simpl app.
    assert (Hc' : is_sign [c]) by (destruct Hc as [-> | ->]; unfold is_sign; tauto).
    apply Int_start; try done; flag_goal.
  - exfalso. rewrite Hh in Hl. destruct Hsg as [-> | [-> | ->]]; simpl in Hl; lia.
Qed.

Lemma int_state_step b0 buf b f c b' f' : scan_base b0 -> int_state b0 buf b f ->
  int_char c (Z.of_nat (length buf)) b f = Some (b', f') -> int_state b0 (buf ++ [c]) b' f'.
Proof.
  intros Hb Hi E. destruct Hi as [sg f Hsg Hn Hz Hs Hh Hp | sg f Hsg Hn Hz Hs Hh Hp | sg x f Hsg Hx Hb0 Hn Hs Hp | t b f Ht Hn Hs Hp].
  { by eapply int_state_start. }
  - assert (Hb' : scan_base (if b0 =? 0 then 8 else b0)) by (unfold scan_base in *; case_match; lia).
    assert (Hnz : ((if b0 =? 0 then 8 else b0) =? 0) = false) by (case_match; [done | by zbool; apply Z.eqb_neq]).
    apply int_char_cases in E; [|done]. rewrite Hnz in E. cbv zeta iota in E.
    assert (Hz' : int_text b0 (if b0 =? 0 then 8 else b0) (sg ++ [48])).
    { exists sg, [], [48]. split_and!; [done | done | by left | done | constructor; [|done]]. by destruct Hb as [->|[->|[->| ->]]]. }
    destruct E as [(-> & -> & ->)|[(Hc & -> & Hd & ->)|[(_ & _ & Hs' & _)|(Hx & -> & Hp' & _ & ->)]]]; [.. | congruence |].
    + destruct (zero_flags f) as (Z1 & Z2 & Z3 & Z4 & Z5). apply Int_digits; try done; [|by rewrite Z5, Hz].
      apply int_text_digit; [done |]. by destruct Hb as [->|[->|[->| ->]]].
    + destruct (digit_flags f) as (D1 & D2 & D3). apply Int_digits; try done. by apply int_text_digit.
    + rewrite <- app_assoc. apply Int_prefix; try done; flag_goal. rewrite Hp in Hp'. apply orb_true_iff in Hp'. zbool. rewrite !Z.eqb_eq in Hp'. tauto.
  - apply int_char_cases in E; [|unfold scan_base; tauto]. change (16 =? 0) with false in E. cbv zeta iota in E.
    assert (Hz' : is_base_digit 16 c = true -> int_text b0 16 ((sg ++ [48; x]) ++ [c])).
    { intros Hd. exists sg, [48; x], [c]. rewrite <- app_assoc. split_and!; [done | done | | done | by constructor]. right. eauto. }
    destruct E as [(-> & -> & ->)|[(Hc & -> & Hd & ->)|[(_ & _ & Hs' & _)|(_ & _ & Hp' & _)]]]; [.. | congruence | congruence].
    + destruct (zero_flags f) as (Z1 & Z2 & Z3 & Z4 & Z5). apply Int_digits; try done; [by apply Hz' | by rewrite Z5, Hp, andb_false_r].
    + destruct (digit_flags f) as (D1 & D2 & D3). apply Int_digits; try done. by apply Hz'.
  - pose proof (int_text_base _ _ _ Hb Ht) as Hbb. apply int_char_cases in E; [|unfold scan_base; tauto].
    assert (Hnz : (b =? 0) = false) by (apply Z.eqb_neq; lia). rewrite Hnz in E. cbv zeta iota in E.
    destruct E as [(-> & -> & ->)|[(Hc & -> & Hd & ->)|[(_ & _ & Hs' & _)|(_ & _ & Hp' & _)]]]; [.. | congruence | congruence].
    + destruct (zero_flags f) as (Z1 & Z2 & Z3 & Z4 & Z5). apply Int_digits; try done; [|by rewrite Z5, Hp, andb_false_r].
      apply int_text_digit; [done |]. by destruct Hbb as [->|[->| ->]].
    + destruct (digit_flags f) as (D1 & D2 & D3). apply Int_digits; try done. by apply int_text_digit.
Qed.

Lemma int_state_base b0 buf b f : scan_base b0 -> int_state b0 buf b f -> scan_base b.
Proof.
  intros Hb Hi. destruct Hi as [| | | t b f Ht]; [done | | unfold scan_base; tauto |].
  - unfold scan_base in *. case_match; [tauto | done].
  - apply int_text_base in Ht; [unfold scan_base; tauto | done].
Qed.

Lemma int_char_refused c n b f : scan_base b -> int_char c n b f = None -> (c =? 56) || (c =? 57) = true -> rd basefix b = b.
Proof.
  intros Hb E Hc. assert (c = 56 \/ c = 57) as Hc' by (rewrite orb_true_iff, !Z.eqb_eq in Hc; done).
  revert E. unfold int_char. destruct (Z.eqb_spec c 48); [lia |]. destruct ((49 <=? c) && (c <=? 55)); [done |]. rewrite Hc.
  destruct Hb as [->|[->|[->| ->]]]; done.
Qed.

Lemma int_loop_state b0 input : scan_base b0 -> forall width buf b f, int_state b0 buf b f ->
  let '(buf', b', f', _) := int_loop width buf input b f in int_state b0 buf' b' f'.
Proof.
  intros Hb. induction input as [|c input IH]; intros width buf b f Hi; simpl; [done |]. destruct (width =? 0); [done |].
  destruct (int_char c _ b f) as [[b1 f1]|] eqn:E; [by apply IH; eapply int_state_step |].
  destruct (_ || _) eqn:Ec; [|done]. by rewrite (int_char_refused c _ b f (int_state_base _ _ _ _ Hb Hi) E Ec).
Qed.

Lemma int_char_low c n b f b' f' : scan_base b -> int_char c n b f = Some (b', f') -> same_low f f'.
Proof.
  intros Hb E. assert (Hl : same_low f (Z.lor f PFXOK)) by (apply same_low_lor; low_bits).
  apply int_char_cases in E as [(_ & _ & ->)|[(_ & _ & _ & ->)|[(_ & _ & _ & ->)|(_ & _ & _ & _ & ->)]]]; [.. | done].
  - simpl. destruct (b =? 0); [eapply same_low_trans; [exact Hl |] |]; case_match; apply same_low_ldiff; low_bits.
  - apply same_low_ldiff; low_bits.
  - eapply same_low_trans; [apply same_low_ldiff | apply same_low_lor]; low_bits.
  - apply same_low_ldiff; low_bits.
Qed.

Lemma int_loop_low b0 input : scan_base b0 -> forall width buf b f, int_state b0 buf b f ->
  let '(_, _, f', _) := int_loop width buf input b f in same_low f f'.
Proof.
  intros Hb. induction input as [|c input IH]; intros width buf b f Hi; simpl; [done |]. destruct (width =? 0); [done |].
  destruct (int_char c _ b f) as [[b1 f1]|] eqn:E; [|done].
  specialize (IH (width - 1) (buf ++ [c]) b1 f1 ltac:(by eapply int_state_step)). apply int_char_low in E; [|by eapply int_state_base].
  destruct (int_loop _ _ _ _ _) as [[[? ?] ?] ?]. by eapply same_low_trans.
Qed.

(** The base found on the way gives the value the directive's base gives. *)
Definition int_value (flags : Z) (t : bytes) (base : Z) : Z :=
  if has flags UNSIGNED then cv_val (strtoumax t base) else u64 (cv_val (strtoimax t base)).

Lemma int_text_start b0 b t : scan_base b0 -> int_text b0 b t -> strto_start t b = strto_start t b0.
Proof.
  intros Hb (sg & pfx & ds & -> & Hsg & Hp & Hne & Hd).
  destruct (Z.eqb_spec b0 0) as [->|Hb0].
  2: { destruct Hp as [[_ ->]|(_ & -> & [->| ->])]; [|done..]. by apply Z.eqb_neq in Hb0 as ->. }
  destruct Hp as [[-> ->]|((x & -> & Hx) & -> & _)].
  - destruct ds as [|c ds]; [done |]. simpl app. change (fst (next (c :: ds))) with c in *. change (0 =? 0) with true in *. cbv iota in *.
    apply Forall_cons in Hd as [Hc Hd].
    assert (Hr : 48 <= c <= 57).
    { revert Hc. unfold is_base_digit, digit_val. repeat case_match; zbool; rewrite ?Z.ltb_lt; lia. }
    assert (Hx : (c =? 48) && ((fst (next ds) =? 120) || (fst (next ds) =? 88)) = false).
    { destruct (Z.eqb_spec c 48); [|done]. destruct ds as [|d ds]; [done |]. apply Forall_cons in Hd as [Hd _]. simpl. revert Hd.
      unfold is_base_digit, digit_val. destruct (Z.eqb_spec d 120) as [->|]; [done |]. by destruct (Z.eqb_spec d 88) as [->|]. }
    assert (Hs : isspace c = false) by (unfold isspace; destruct (Z.eqb_spec c 32), (Z.leb_spec 9 c), (Z.leb_spec c 13); (done || lia)).
    assert (H45 : (c =? 45) = false) by (apply Z.eqb_neq; lia). assert (H43 : (c =? 43) = false) by (apply Z.eqb_neq; lia).
    unfold strto_start. destruct Hsg as [-> | [-> | ->]]; simpl; rewrite ?Hs, ?H45, ?H43; simpl; rewrite Hx;
      by destruct (c =? 48).
  - destruct Hx as [-> | ->], Hsg as [-> | [-> | ->]]; reflexivity.
Qed.

Lemma int_value_base flags b0 b t : scan_base b0 -> int_text b0 b t -> int_value flags t b = int_value flags t b0.
Proof.
  intros Hb Ht. pose proof (int_text_base _ _ _ Hb Ht) as Hb'. pose proof (int_text_start _ _ _ Hb Ht) as Hs.
  assert (Hr : forall x, scan_base x -> (x <? 0) || (x =? 1) || (36 <? x) = false) by (by intros x [->|[->|[->| ->]]]).
  unfold int_value, strtoumax, strtoimax, strto_unsigned, strto_signed.
  rewrite (Hr b), (Hr b0), Hs by (done || unfold scan_base; tauto). done.
Qed.

Lemma int_value_zero flags sg b0 : is_sign sg -> b0 = 0 \/ b0 = 16 -> int_value flags (sg ++ [48]) 16 = int_value flags (sg ++ [48]) b0.
Proof.
  intros Hs Hb. unfold int_value. destruct (has flags UNSIGNED);
    destruct Hs as [-> | [-> | ->]], Hb as [-> | ->]; vm_compute; reflexivity.
Qed.

Lemma int_text_zero b0 sg : scan_base b0 -> is_sign sg -> int_text b0 (if b0 =? 0 then 8 else b0) (sg ++ [48]).
Proof.
  intros Hb Hs. exists sg, [], [48]. split_and!; [done | done | by left | done | constructor; [|done]].
  by destruct Hb as [->|[->|[->| ->]]].
Qed.

Lemma int_value_low f f' t b : same_low f f' -> int_value f' t b = int_value f t b.
Proof. intros H. unfold int_value. change UNSIGNED with (2 ^ 11). by rewrite (same_low_has f f') by (done || lia). Qed.

(** What the machine stored, less a bare [x]. *)
Definition int_strip (buf : bytes) : bytes :=
  if (List.last buf 0 =? 120) || (List.last buf 0 =? 88) then removelast buf else buf.

Lemma int_text_last b0 b t : scan_base b0 -> int_text b0 b t -> (List.last t 0 =? 120) || (List.last t 0 =? 88) = false.
Proof.
  intros Hb Ht. pose proof (int_text_base _ _ _ Hb Ht) as Hb'. destruct Ht as (sg & pfx & ds & -> & _ & _ & Hne & Hd).
  rewrite (app_removelast_last 0 Hne) in *. rewrite !app_assoc, List.last_last. apply Forall_app in Hd as [_ Hd].
  apply Forall_cons in Hd as [Hd _]. revert Hd. generalize (List.last ds 0). intros c.
  destruct (Z.eqb_spec c 120) as [->|]; [by destruct Hb' as [->|[->| ->]] |].
  destruct (Z.eqb_spec c 88) as [->|]; [by destruct Hb' as [->|[->| ->]] | done].
Qed.

(** At the end of the loop: nothing but a sign, or a number and its value. *)
Lemma int_state_end b0 buf b f flags : scan_base b0 -> int_state b0 buf b f ->
  if has f NDIGITS then is_sign buf
  else (exists b', int_text b0 b' (int_strip buf)) /\ int_value flags (int_strip buf) b = int_value flags (int_strip buf) b0.
Proof.
  intros Hb Hi. destruct Hi as [sg f Hsg -> _ _ _ _ | sg f Hsg -> _ _ _ _ | sg x f Hsg Hx Hb0 -> _ _ | t b f Ht -> _ _]; [done | ..].
  - pose proof (int_text_zero b0 sg Hb Hsg) as Ht. unfold int_strip. rewrite (int_text_last _ _ _ Hb Ht).
    split; [by eexists | by apply int_value_base].
  - change (sg ++ [48; x]) with (sg ++ [48] ++ [x]). unfold int_strip. rewrite app_assoc, List.last_last, removelast_last.
    assert (((x =? 120) || (x =? 88)) = true) as -> by (by destruct Hx; subst x).
    split; [eexists; by apply int_text_zero | by apply int_value_zero].
  - unfold int_strip. rewrite (int_text_last _ _ _ Hb Ht). split; [by eexists | by apply int_value_base].
Qed.

(** ** Floating point numbers *)
Definition digits (ds : bytes) : Prop := Forall (fun c => isdigit c = true) ds.
Definition is_e (c : Z) : Prop := c = 101 \/ c = 69.

(** Digits with at most one point, [pt] of them: at least one digit. *)
Definition mantissa (pt : bool) (m : bytes) : Prop :=
  exists a b, m = a ++ (if pt then 46 :: b else b) /\ digits a /\ digits b /\ a ++ b <> [].

(** A number as a floating point conversion reads it. *)
Definition float_text (t : bytes) : Prop :=
  exists sg pt m, is_sign sg /\ mantissa pt m /\
    (t = sg ++ m \/ exists e sg' ds, is_e e /\ is_sign sg' /\ digits ds /\ ds <> [] /\ t = sg ++ m ++ e :: sg' ++ ds).

(** The state of the machine: a sign and a point at most; a mantissa; an
    exponent that has no digits yet; a whole number with an exponent. *)
Inductive float_state : bytes -> Z -> Prop :=
  | Float_start sg f : is_sign sg -> has f NDIGITS = true -> has f EXPOK = true -> has f DPTOK = true ->
      has f SIGNOK = bool_decide (sg = []) -> float_state sg f
  | Float_point sg f : is_sign sg -> has f NDIGITS = true -> has f EXPOK = true -> has f DPTOK = false ->
      has f SIGNOK = false -> float_state (sg ++ [46]) f
  | Float_mantissa sg pt m f : is_sign sg -> mantissa pt m -> has f NDIGITS = false -> has f EXPOK = true ->
      has f DPTOK = negb pt -> has f SIGNOK = false -> float_state (sg ++ m) f
  | Float_exponent sg pt m e sg' f : is_sign sg -> mantissa pt m -> is_e e -> is_sign sg' -> has f NDIGITS = true ->
      has f EXPOK = false -> has f DPTOK = false -> has f SIGNOK = bool_decide (sg' = []) -> float_state (sg ++ m ++ e :: sg') f
  | Float_number sg pt m e sg' ds f : is_sign sg -> mantissa pt m -> is_e e -> is_sign sg' -> digits ds -> ds <> [] ->
      has f NDIGITS = false -> has f EXPOK = false -> has f DPTOK = false -> has f SIGNOK = false ->
      float_state (sg ++ m ++ e :: sg' ++ ds) f.

Lemma mantissa_digit pt m c : mantissa pt m -> isdigit c = true -> mantissa pt (m ++ [c]).
Proof.
  intros (a & b & -> & Ha & Hb & Hne) Hc. exists a, (b ++ [c]). split_and!; [by destruct pt; rewrite <- app_assoc | done | | by destruct a, b].
  apply Forall_app. split; [done | by constructor].
Qed.

Lemma mantissa_point m : mantissa false m -> mantissa true (m ++ [46]).
Proof.
  intros (a & b & -> & Ha & Hb & Hne). exists (a ++ b), []. rewrite app_nil_r. split_and!; [done | by apply Forall_app | constructor | done].
Qed.

Lemma float_char_cases c f f' : float_char c f = Some f' ->
  (isdigit c = true /\ f' = Z.ldiff f (Z.lor SIGNOK NDIGITS)) \/
  (is_sign [c] /\ has f SIGNOK = true /\ f' = Z.ldiff f SIGNOK) \/
  (c = 46 /\ has f DPTOK = true /\ f' = Z.ldiff f (Z.lor SIGNOK DPTOK)) \/
  (is_e c /\ has f NDIGITS = false /\ has f EXPOK = true /\
    f' = Z.lor (Z.ldiff f (Z.lor EXPOK DPTOK)) (Z.lor SIGNOK NDIGITS)).
Proof.
  unfold float_char. destruct (isdigit c); [intros [= <-]; tauto |].
  destruct ((c =? 43) || (c =? 45)) eqn:E1.
  { destruct (has f SIGNOK); [|done]. intros [= <-]. right. left. rewrite orb_true_iff, !Z.eqb_eq in E1.
    split; [|done]. unfold is_sign. destruct E1; subst c; tauto. }
  destruct (Z.eqb_spec c 46). { destruct (has f DPTOK); [|done]. intros [= <-]. tauto. }
  destruct ((c =? 101) || (c =? 69)) eqn:E2; [|done]. rewrite orb_true_iff, !Z.eqb_eq in E2.
  destruct (Z.eqb_spec (Z.land f (Z.lor NDIGITS EXPOK)) EXPOK) as [E|]; [|done]. intros [= <-]. do 3 right.
  split; [done |]. assert (Hb : forall k, Z.testbit f k && Z.testbit (Z.lor NDIGITS EXPOK) k = Z.testbit EXPOK k)
    by (intros k; by rewrite <- Z.land_spec, E).
  flag_bits. pose proof (Hb 14) as H14. pose proof (Hb 16) as H16. simpl in H14, H16. by rewrite andb_true_r in H14, H16.
Qed.

Lemma float_state_step buf f c f' : float_state buf f -> float_char c f = Some f' -> float_state (buf ++ [c]) f'.
Proof.
  intros Hi E. apply float_char_cases in E. destruct Hi as [sg f Hs Hn He Hd Hg | sg f Hs Hn He Hd Hg |
    sg pt m f Hs Hm Hn He Hd Hg | sg pt m e sg' f Hs Hm Hx Hs' Hn He Hd Hg | sg pt m e sg' ds f Hs Hm Hx Hs' Hds Hne Hn He Hd Hg];
    destruct E as [(Hc & ->)|[(Hc & Hc' & ->)|[(-> & Hc' & ->)|(Hc & Hc' & Hc'' & ->)]]]; try congruence.
  - apply (Float_mantissa sg false [c]); try done; try flag_goal. exists [c], []. split_and!; try done; by repeat constructor.
  - rewrite Hg in Hc'. apply bool_decide_eq_true in Hc' as ->. apply Float_start; try done; flag_goal.
  - apply Float_point; try done; flag_goal.
  - rewrite <- app_assoc. apply (Float_mantissa sg true [46; c]); try done; try flag_goal. exists [], [c]. split_and!; try done; by repeat constructor.
  - rewrite <- app_assoc. apply (Float_mantissa sg pt); try done; try flag_goal. by apply mantissa_digit.
  - destruct pt; [simpl in Hd; congruence |]. rewrite <- app_assoc. apply (Float_mantissa sg true); try done; try flag_goal. by apply mantissa_point.
  - rewrite <- app_assoc. apply (Float_exponent sg pt m c []); try done; try flag_goal. by left.
  - rewrite <- !app_assoc. simpl. rewrite <- ?app_assoc. apply (Float_number sg pt m e sg' [c]); try done; try flag_goal. by constructor.
  - rewrite Hg in Hc'. apply bool_decide_eq_true in Hc' as ->. rewrite <- !app_assoc. apply (Float_exponent sg pt m e [c]); try done; flag_goal.
  - rewrite <- !app_assoc. simpl. rewrite <- !app_assoc. apply (Float_number sg pt m e sg' (ds ++ [c])); try done; try flag_goal; [|by destruct ds].
    apply Forall_app. split; [done | by constructor].
Qed.

Lemma float_loop_state input : forall width buf f, float_state buf f ->
  let '(buf', f', _) := float_loop width buf input f in float_state buf' f'.
Proof.
  induction input as [|c input IH]; intros width buf f Hi; simpl; [done |]. destruct (width =? 0); [done |].
  destruct (float_char c f) as [f1|] eqn:E; [|done]. apply IH. by eapply float_state_step.
Qed.

Lemma float_loop_low input : forall width buf f, let '(_, f', _) := float_loop width buf input f in same_low f f'.
Proof.
  induction input as [|c input IH]; intros width buf f; simpl; [done |]. destruct (width =? 0); [done |].
  destruct (float_char c f) as [f1|] eqn:E; [|done]. specialize (IH (width - 1) (buf ++ [c]) f1).
  destruct (float_loop _ _ _ _) as [[? ?] ?]. eapply same_low_trans; [|exact IH].
  apply float_char_cases in E as [(_ & ->)|[(_ & _ & ->)|[(_ & _ & ->)|(_ & _ & _ & ->)]]]; try (apply same_low_ldiff; low_bits).
  eapply same_low_trans; [apply same_low_ldiff | apply same_low_lor]; low_bits.
Qed.

(** ** Conversions *)

(** The text a conversion takes and what it stores. *)
Definition float_kind_of (flags : Z) : float_kind :=
  if has flags LONGDBL then LongDouble else if has flags LONG then Double else Float.

Definition takes (c : ctype) (flags : Z) (t : bytes) (v : arg) : Prop :=
  match c with
  | CT_CHAR => v = AChars t
  | CT_CCL tab => v = AString t /\ Forall (fun c => nth (Z.to_nat c) tab false = true) t
  | CT_STRING => v = AString t /\ Forall (fun c => isspace c = false) t
  | CT_INT base => v = AInt (int_width flags) (swrap (int_width flags) (int_value flags t base)) /\ exists b, int_text base b t
  | CT_FLOAT => v = AFloat (float_kind_of flags) t /\ float_text t
  end.

(** What the parser of directives guarantees. *)
Definition conv_ok (c : ctype) (flags width : Z) : Prop :=
  in_range 64 width /\ has flags NOSKIP = match c with CT_CHAR | CT_CCL _ => true | _ => false end /\
  match c with
  | CT_INT base => scan_base base /\ has flags HAVESIGN = false /\ has flags PFXOK = (base =? 16)
  | _ => True
  end.

(** A conversion without its white space: what it takes is what it stores, a
    field width bounds it, and a failure takes nothing. *)
Definition conv_takes (c : ctype) (flags width : Z) (s : scan) (r : scanned) : Prop :=
  match r with
  | Next s' => exists t v, s_in s = t ++ s_in s' /\ t <> [] /\ takes c flags t v /\
      (width <> 0 -> Z.of_nat (length t) <= width) /\ s' = assign s flags v (Z.of_nat (length t)) (s_in s')
  | MatchFailure s' => s' = s
  | InputFailure _ => False
  end.

Lemma assign_low s f f' v n i : same_low f f' -> assign s f' v n i = assign s f v n i.
Proof. intros H. unfold assign. change SUPPRESS with (2 ^ 10). by rewrite (same_low_has f f') by (done || lia). Qed.

Lemma assign_in s f v n i : s_in (assign s f v n i) = i.
Proof. unfold assign. by case_match. Qed.

Lemma set_in_id s : set_in s (s_in s) = s.
Proof. by destruct s. Qed.

Lemma number_width_field width : in_range 64 width -> width <> 0 -> number_width width <= width.
Proof.
  intros Hw H0. unfold number_width, in_range, BUF in *. rewrite wrap_small by (unfold in_range; lia). zcase; lia.
Qed.

Lemma int_text_nonempty b0 b t : int_text b0 b t -> t <> [].
Proof. intros (sg & pfx & ds & -> & _ & _ & Hne & _). by destruct sg, pfx, ds. Qed.

Lemma float_text_nonempty t : float_text t -> t <> [].
Proof.
  intros (sg & pt & m & _ & (a & b & -> & _ & _ & Hne) & [->|(e & sg' & ds & _ & _ & _ & _ & ->)]).
  - destruct sg, a, b, pt; done.
  - intros E. apply app_nil in E as [_ E]. by apply app_nil in E as [_ E].
Qed.

Lemma int_assign_takes base flags width s f t b b' rest : same_low flags f -> s_in s = t ++ rest -> int_text base b' t ->
  int_value flags t b = int_value flags t base -> (width <> 0 -> Z.of_nat (length t) <= width) ->
  conv_takes (CT_INT base) flags width s
    (Next (assign s f (AInt (int_width f) (swrap (int_width f) (int_value f t b))) (Z.of_nat (length t)) rest)).
Proof.
  intros Hl E Ht Hv Hw. simpl. rewrite assign_in, (int_width_low flags f Hl), (int_value_low flags f _ _ Hl), Hv.
  exists t. eexists. split; [done |]. split; [by eapply int_text_nonempty |]. split; [by eauto |].
  split; [done | by apply assign_low].
Qed.

Lemma do_int_takes base flags width s : conv_ok (CT_INT base) flags width -> conv_takes (CT_INT base) flags width s (do_int base flags width s).
Proof.
  intros (Hw & _ & Hb & Hh & Hp). unfold do_int. set (f := Z.lor flags _).
  assert (Hlf : same_low flags f) by (apply same_low_lor; low_bits).
  assert (Hi : int_state base [] base f) by (apply Int_start; try done; [by left | unfold f; flag_goal..]).
  pose proof (int_loop_app (s_in s) (number_width width) [] base f) as Happ.
  pose proof (int_loop_length (s_in s) (number_width width) [] base f ltac:(pose proof (number_width_range width Hw); lia)) as Hlen.
  pose proof (int_loop_state base (s_in s) Hb (number_width width) [] base f Hi) as Hst.
  pose proof (int_loop_low base (s_in s) Hb (number_width width) [] base f Hi) as Hlow.
  destruct (int_loop _ _ _ _ _) as [[[buf b] f'] rest]. simpl in Happ, Hlen. assert (Hl : same_low flags f') by by eapply same_low_trans.
  apply (int_state_end _ _ _ _ flags) in Hst; [|done]. destruct (has f' NDIGITS).
  { simpl. rewrite <- (set_in_id s) at 2. f_equal. rewrite <- Happ. by destruct Hst as [-> | [-> | ->]]. }
  destruct Hst as [[b' Ht] Hv]. unfold int_strip in *.
  assert (Hwd : width <> 0 -> Z.of_nat (length buf) <= width) by (intros H0; pose proof (number_width_field width Hw H0); lia).
  destruct ((List.last buf 0 =? 120) || _) eqn:Ex; [|by apply (int_assign_takes _ _ _ _ _ _ _ b')].
  assert (Hb0 : buf <> []) by (by intros ->). pose proof (app_removelast_last 0 Hb0) as Hlast.
  unfold unget. apply (int_assign_takes _ _ _ _ _ _ _ b'); try done.
  - rewrite <- Happ. rewrite Hlast at 1. by rewrite <- app_assoc.
  - intros H0. specialize (Hwd H0). apply (f_equal length) in Hlast. rewrite length_app in Hlast. simpl in Hlast. lia.
Qed.

(** At the end of the loop: nothing but a sign and a point, or a number with
    what was read beyond it, a letter and perhaps a sign. *)
Lemma float_state_end buf f : float_state buf f ->
  if has f NDIGITS then
    if has f EXPOK then True
    else exists t e, float_text t /\ is_e e /\ (buf = t ++ [e] \/ exists sg, (sg = 43 \/ sg = 45) /\ buf = t ++ [e; sg])
  else float_text buf.
Proof.
  intros Hi. destruct Hi as [sg f Hs -> -> Hd Hg | sg f Hs -> -> Hd Hg |
    sg pt m f Hs Hm -> He Hd Hg | sg pt m e sg' f Hs Hm Hx Hs' -> -> Hd Hg | sg pt m e sg' ds f Hs Hm Hx Hs' Hds Hne -> He Hd Hg]; try done.
  - exists sg, pt, m. auto.
  - exists (sg ++ m), e. rewrite !app_assoc. split; [by exists sg, pt, m; auto |]. split; [done |].
    destruct Hs' as [-> | [-> | ->]]; [by left | right; eauto..].
  - exists sg, pt, m. split; [done |]. split; [done |]. right. by exists e, sg', ds.
Qed.

Lemma float_assign_takes flags width s f t rest : same_low flags f -> s_in s = t ++ rest -> float_text t ->
  (width <> 0 -> Z.of_nat (length t) <= width) ->
  conv_takes CT_FLOAT flags width s (Next (assign s f (AFloat (float_kind_of f) t) (Z.of_nat (length t)) rest)).
Proof.
  intros Hl E Ht Hw. simpl. rewrite assign_in. exists t. eexists. split; [done |]. split; [by apply float_text_nonempty |].
  split; [|split; [done | by apply assign_low]]. split; [|done]. unfold float_kind_of.
  change LONGDBL with (2 ^ 1). change LONG with (2 ^ 0). by rewrite !(same_low_has flags f) by (done || lia).
Qed.

Lemma do_float_takes flags width s : conv_ok CT_FLOAT flags width -> conv_takes CT_FLOAT flags width s (do_float flags width s).
Proof.
  intros (Hw & _). unfold do_float. set (f := Z.lor flags _).
  assert (Hlf : same_low flags f) by (apply same_low_lor; low_bits).
  assert (Hi : float_state [] f) by (apply Float_start; try done; [by left | unfold f; flag_goal..]).
  pose proof (float_loop_app (s_in s) (number_width width) [] f) as Happ.
  pose proof (float_loop_length (s_in s) (number_width width) [] f ltac:(pose proof (number_width_range width Hw); lia)) as Hlen.
  pose proof (float_loop_state (s_in s) (number_width width) [] f Hi) as Hst.
  pose proof (float_loop_low (s_in s) (number_width width) [] f) as Hlow.
  destruct (float_loop _ _ _ _) as [[buf f'] rest]. simpl in Happ, Hlen. assert (Hl : same_low flags f') by by eapply same_low_trans.
  assert (Hwd : width <> 0 -> Z.of_nat (length buf) <= width) by (intros H0; pose proof (number_width_field width Hw H0); lia).
  apply float_state_end in Hst. destruct (has f' NDIGITS); simpl andb; [|by apply float_assign_takes].
  destruct (has f' EXPOK); [by simpl; rewrite Happ, set_in_id |].
  destruct Hst as (t & e & Ht & He & [->|(sg & Hsg & ->)]); unfold unget; rewrite length_app in Hwd; simpl length in Hwd.
  - rewrite List.last_last, removelast_last.
    replace (negb (e =? 101) && negb (e =? 69)) with false by (by destruct He; subst e).
    apply float_assign_takes; try done; [by rewrite <- Happ, <- app_assoc | lia].
  - change [e; sg] with ([e] ++ [sg]) in *. rewrite app_assoc, List.last_last, removelast_last.
    replace (negb (sg =? 101) && negb (sg =? 69)) with true by (by destruct Hsg; subst sg).
    rewrite List.last_last, removelast_last. apply float_assign_takes; try done; [by rewrite <- Happ, <- !app_assoc | lia].
Qed.

Lemma take_class_spec p input : forall width, 1 <= width -> let '(t, _) := take_class p width input in
  Forall (fun c => p c = true) t /\ Z.of_nat (length t) <= width.
Proof.
  induction input as [|c input IH]; intros width Hw; simpl; [split; [constructor | simpl; lia] |].
  destruct (p c) eqn:E; [|split; [constructor | simpl; lia]].
  destruct (Z.eqb_spec (width - 1) 0); [split; [by repeat constructor | simpl; lia] |].
  specialize (IH (width - 1) ltac:(lia)). destruct (take_class p (width - 1) input) as [t r]. destruct IH as [H1 H2].
  split; [by constructor | simpl length; lia].
Qed.

Lemma take_class_some p width c input : p c = true -> fst (take_class p width (c :: input)) <> [].
Proof. intros H. simpl. rewrite H. case_match; [done |]. by destruct (take_class p (width - 1) input). Qed.

Lemma do_char_takes flags width s : in_range 64 width -> s_in s <> [] -> conv_takes CT_CHAR flags width s (do_char flags width s).
Proof.
  intros Hw Hs. unfold do_char. set (w := if width =? 0 then 1 else width).
  assert (Hw' : 1 <= w /\ (width <> 0 -> w = width)) by (unfold w, in_range in *; zcase; lia). destruct Hw' as [Hw1 Hw2].
  pose proof (take_class_app (fun _ => true) (s_in s) w) as E. pose proof (take_class_spec (fun _ => true) (s_in s) w Hw1) as Ht.
  destruct (s_in s) as [|c input] eqn:Es; [done |]. pose proof (take_class_some (fun _ => true) w c input eq_refl) as Hn.
  destruct (take_class _ _ _) as [t r]. simpl in *. rewrite assign_in. eexists t, _. split; [by rewrite Es |].
  split; [done |]. split; [done |]. split; [|done]. intros H0. rewrite <- (Hw2 H0). tauto.
Qed.

Lemma do_ccl_takes tab flags width s : in_range 64 width -> conv_takes (CT_CCL tab) flags width s (do_ccl tab flags width s).
Proof.
  intros Hw. unfold do_ccl. set (w := if width =? 0 then no_limit else width).
  assert (Hw' : 1 <= w /\ (width <> 0 -> w = width)) by (unfold w, in_range, no_limit in *; zcase; lia). destruct Hw' as [Hw1 Hw2].
  pose proof (take_class_app (fun c => nth (Z.to_nat c) tab false) (s_in s) w) as E.
  pose proof (take_class_spec (fun c => nth (Z.to_nat c) tab false) (s_in s) w Hw1) as Ht.
  destruct (take_class _ _ _) as [t r]. destruct (Nat.eqb_spec (length t) 0) as [|Hl]; [done |]. simpl in *. rewrite assign_in.
  eexists t, _. split; [done |]. split; [by intros -> |]. split; [split; [done | exact (proj1 Ht)] |]. split; [|done]. intros H0. rewrite <- (Hw2 H0). tauto.
Qed.

Lemma do_string_takes flags width s : in_range 64 width -> (exists c r, s_in s = c :: r /\ isspace c = false) ->
  conv_takes CT_STRING flags width s (do_string flags width s).
Proof.
  intros Hw (c & input & Es & Hc). unfold do_string. set (w := if width =? 0 then no_limit else width).
  assert (Hw' : 1 <= w /\ (width <> 0 -> w = width)) by (unfold w, in_range, no_limit in *; zcase; lia). destruct Hw' as [Hw1 Hw2].
  pose proof (take_class_app (fun c => negb (isspace c)) (s_in s) w) as E.
  pose proof (take_class_spec (fun c => negb (isspace c)) (s_in s) w Hw1) as Ht.
  pose proof (take_class_some (fun c => negb (isspace c)) w c input ltac:(simpl; by rewrite Hc)) as Hn. rewrite Es in *.
  destruct (take_class _ _ _) as [t r]. simpl in *. rewrite assign_in.
  eexists t, _. split; [by rewrite Es |]. split; [done |]. split.
  { split; [done |]. eapply Forall_impl; [exact (proj1 Ht) |]. simpl. intros x Hx. by apply negb_true_iff. }
  split; [|done]. intros H0. rewrite <- (Hw2 H0). tauto.
Qed.

(** [s0] is [s] after some white space. *)
Definition skipped (s s0 : scan) : Prop := exists sp, Forall (fun c => isspace c = true) sp /\ s_in s = sp ++ s_in s0 /\
  s0 = Scan (s_in s0) (s_nread s + Z.of_nat (length sp)) (s_nassigned s) (s_args s).

Lemma skipped_refl s : skipped s s.
Proof. exists []. split; [constructor |]. split; [done |]. destruct s. simpl. f_equal. lia. Qed.

Lemma skip_spaces_split s : exists sp, Forall (fun c => isspace c = true) sp /\ s = sp ++ skip_spaces s /\
  match skip_spaces s with [] => True | c :: _ => isspace c = false end.
Proof.
  induction s as [|c s (sp & H1 & H2 & H3)]; simpl; [by exists [] |]. destruct (isspace c) eqn:E; [|by exists []].
  exists (c :: sp). split; [by constructor |]. split; [simpl; by f_equal | done].
Qed.

Lemma eat_spaces_skipped s : skipped s (eat_spaces s).
Proof.
  destruct (skip_spaces_split (s_in s)) as (sp & H1 & H2 & _). exists sp. split; [done |]. split; [done |].
  unfold eat_spaces. simpl. f_equal. rewrite H2 at 1. rewrite length_app. lia.
Qed.

(** A conversion: white space unless the directive keeps it, then the text. *)
Definition converts (c : ctype) (flags width : Z) (s : scan) (r : scanned) : Prop :=
  exists s0, skipped s s0 /\ (has flags NOSKIP = true -> s0 = s) /\
    ((s_in s0 = [] /\ r = InputFailure s0) \/ conv_takes c flags width s0 r).

Lemma convert_takes c flags width s : conv_ok c flags width -> converts c flags width s (convert c flags width s).
Proof.
  intros Hok. destruct (Hok) as (Hw & Hn & _). unfold convert. destruct (Nat.eqb_spec (length (s_in s)) 0) as [E|E].
  { exists s. split; [apply skipped_refl |]. split; [done |]. left. split; [by apply nil_length_inv | done]. }
  set (s0 := if has flags NOSKIP then s else eat_spaces s). exists s0.
  split; [unfold s0; destruct (has flags NOSKIP); [apply skipped_refl | apply eat_spaces_skipped] |].
  split; [by unfold s0; intros -> |]. destruct (Nat.eqb_spec (length (s_in s0)) 0) as [E0|E0]; [left; split; [by apply nil_length_inv | done] |].
  right. assert (Hs0 : s_in s0 <> []) by (by intros H0; rewrite H0 in E0).
  destruct c; [by apply do_char_takes | by apply do_ccl_takes | | by apply do_int_takes | by apply do_float_takes].
  apply do_string_takes; [done |]. unfold s0 in *. rewrite Hn in *. unfold eat_spaces in *. simpl in *.
  destruct (skip_spaces_split (s_in s)) as (_ & _ & _ & H). destruct (skip_spaces (s_in s)) as [|x r]; [done | by eauto].
Qed.

(** *** Directives *)
Definition no_mode (f : Z) : Prop := has f NOSKIP = false /\ has f HAVESIGN = false /\ has f PFXOK = false.

Lemma no_mode_lor f k : 0 <= k < 12 -> k <> 9 -> no_mode f -> no_mode (Z.lor f (2 ^ k)).
Proof.
  unfold no_mode. change NOSKIP with (2 ^ 9). change HAVESIGN with (2 ^ 13). change PFXOK with (2 ^ 15).
  intros Hk H9. rewrite !has_bit, !Z.lor_spec, !Z.pow2_bits_eqb by lia. intros (-> & -> & ->).
  destruct (Z.eqb_spec k 9), (Z.eqb_spec k 13), (Z.eqb_spec k 15); (done || lia).
Qed.

(** What a parsed directive is good for, in the shape of [shrinks]. *)
Definition parsed (m : outcome (directive * bytes)) : Prop := forall c flags width rest,
  m = Ret (DConv c flags width, rest) -> conv_ok c flags width.

Lemma parsed_conv c flags width rest : conv_ok c flags width -> parsed (Ret (DConv c flags width, rest)).
Proof. by intros H c' f' w' r [= <- <- <- <-]. Qed.

Lemma conv_int base flags width : scan_base base -> in_range 64 width -> no_mode flags -> base <> 16 -> conv_ok (CT_INT base) flags width.
Proof. intros Hb Hw (H1 & H2 & H3) Hn. split; [done |]. split; [done |]. split_and!; [done.. |]. rewrite H3. symmetry. by apply Z.eqb_neq. Qed.

Lemma conv_hex flags m width : in_range 64 width -> no_mode flags -> has m PFXOK = true -> has m NOSKIP = false -> has m HAVESIGN = false ->
  conv_ok (CT_INT 16) (Z.lor flags m) width.
Proof.
  intros Hw (H1 & H2 & H3). change NOSKIP with (2 ^ 9) in *. change HAVESIGN with (2 ^ 13) in *. change PFXOK with (2 ^ 15) in *.
  rewrite !has_bit in * by lia. intros M1 M2 M3. unfold conv_ok. change NOSKIP with (2 ^ 9). change HAVESIGN with (2 ^ 13). change PFXOK with (2 ^ 15).
  rewrite !has_bit, !Z.lor_spec, H1, H2, M1, M2, M3, orb_true_r by lia. split; [done |]. split; [done |]. split_and!; unfold scan_base; tauto.
Qed.

Lemma conv_set c flags width : (c = CT_CHAR \/ exists tab, c = CT_CCL tab) -> in_range 64 width -> conv_ok c (Z.lor flags NOSKIP) width.
Proof.
  intros Hc Hw. assert (H : has (Z.lor flags NOSKIP) NOSKIP = true).
  { change NOSKIP with (2 ^ 9). rewrite has_bit, Z.lor_spec by lia. apply orb_true_r. }
  destruct Hc as [->|[tab ->]]; by split_and!.
Qed.

Lemma directive_of_parsed fmt : forall flags width, no_mode flags -> in_range 64 width -> parsed (directive_of fmt flags width).
Proof.
  induction fmt as [fmt IH] using (induction_ltof1 _ (@length Z)). unfold ltof in IH.
  intros flags width Hf Hw. destruct fmt as [|c fmt]; cbn [directive_of]; [done |].
  assert (IH' : forall f k w, (length f <= length fmt)%nat -> 0 <= k < 12 -> k <> 9 -> in_range 64 w -> parsed (directive_of f (Z.lor flags (2 ^ k)) w)).
  { intros f k w Hl Hk Hk9 Hw'. apply IH; [simpl; lia | by apply no_mode_lor | done]. }
  assert (Hlong : no_mode (Z.lor flags LONG)) by (by apply (no_mode_lor _ 0)).
  assert (Hu : no_mode (Z.lor flags UNSIGNED)) by (by apply (no_mode_lor _ 11)).
  case_match; [done |].
  case_match; [by apply (IH' _ 10) |]. case_match; [by apply (IH' _ 7) |]. case_match; [by apply (IH' _ 1) |].
  case_match; [destruct fmt as [|c' fmt']; [by apply (IH' _ 2) |]; case_match; [apply (IH' _ 3); simpl; (done || lia) | by apply (IH' _ 2)] |].
  case_match; [destruct fmt as [|c' fmt']; [by apply (IH' _ 0) |]; case_match; [apply (IH' _ 4); simpl; (done || lia) | by apply (IH' _ 0)] |].
  case_match; [by apply (IH' _ 4) |]. case_match; [by apply (IH' _ 8) |]. case_match; [by apply (IH' _ 6) |].
  case_match; [apply IH; [simpl; lia | done | by apply wrap_range] |].
  do 3 (case_match; [apply parsed_conv, conv_int; by unfold scan_base; auto |]).
  case_match; [apply parsed_conv, conv_int; try (by unfold scan_base; auto); by apply (no_mode_lor _ 11) |].
  do 2 (case_match; [apply parsed_conv, conv_int; by unfold scan_base; auto |]).
  case_match; [rewrite <- Z.lor_assoc; by apply parsed_conv, conv_hex |].
  case_match; [apply parsed_conv; split; [done | by split; [apply Hf |]] |].
  case_match; [apply parsed_conv; split; [done | by split; [apply Hf |]] |].
  case_match.
  { intros c' f' w' r E. destruct (__sccl fmt) as [[tab rest]| |]; [|done..]. rewrite bind_ret in E. injection E as <- <- <- <-.
    apply conv_set; [by eauto | done]. }
  case_match; [apply parsed_conv, conv_set; [by left | done] |].
  case_match; [rewrite <- Z.lor_assoc; by apply parsed_conv, conv_hex |].
  case_match; [done |]. apply parsed_conv, conv_int; [by unfold scan_base; auto | done | by case_match | done].
Qed.
