(* ===== verification/ScanfSpec.v ===== *)
(** * Properties of formatted input

    [__svfscanf] ends on every format and input; it consumes a prefix of its
    input, each conversion the text it stores (ScanfText.v); numbers written
    in digits are read back; the defect of the one-character range of a scan
    set. *)

From S2P Require Import Prelude.
From S2P Require Import CString.
From S2P Require Import Strto.
From S2P Require Import Scanf.
From S2P Require Import ScanfText.

(** ** Termination

    A computation that ends, and leaves at most [n] bytes of the format. *)
Definition shrinks {A} (n : nat) (m : outcome (A * bytes)) : Prop :=
  m <> Diverge /\ forall r, m = Ret r -> (length (snd r) <= n)%nat.

Lemma shrinks_ret {A} n (a : A) f : (length f <= n)%nat -> shrinks n (Ret (a, f)).
Proof. intros H. split; [done |]. by intros r [= <-]. Qed.

Lemma shrinks_bind {A B} n (m : outcome B) (k : B -> outcome (A * bytes)) :
  m <> Diverge -> (forall b, m = Ret b -> shrinks n (k b)) -> shrinks n (m ≫= k).
Proof. intros H1 H2. destruct m; simpl; [by apply H2 | done | done]. Qed.

Lemma shrinks_le {A} n n' (m : outcome (A * bytes)) : (n <= n')%nat -> shrinks n m -> shrinks n' m.
Proof. intros H [H1 H2]. split; [done |]. intros r Hr. specialize (H2 r Hr). lia. Qed.

Lemma tab_set_total tab c v : tab_set tab c v <> Diverge.
Proof. unfold tab_set. by case_match. Qed.

Lemma fill_range_total k : forall tab c v, fill_range k tab c v <> Diverge.
Proof.
  induction k as [|k IH]; intros tab c v; [done |]. simpl. unfold tab_set. case_match; [apply IH | done].
Qed.

Lemma sccl_loop_rest fmt : forall tab v c, shrinks (length fmt) (sccl_loop fmt tab v c).
Proof.
  induction fmt as [fmt IH] using (induction_ltof1 _ (@length Z)). unfold ltof in IH.
  intros tab v c. destruct fmt as [|n fmt1]; cbn [sccl_loop]; [by apply shrinks_ret |].
  assert (IH' : forall f tab v c, (length f <= length fmt1)%nat -> shrinks (length (n :: fmt1)) (sccl_loop f tab v c)).
  { intros f tab' v' c' Hf. eapply shrinks_le; [|apply IH; simpl; lia]. simpl. lia. }
  destruct (n =? 45); [|destruct (n =? 93)].
  - destruct fmt1 as [|n' fmt2].
    + apply shrinks_bind; [apply tab_set_total |]. intros. by apply IH'.
    + destruct (_ || _); apply shrinks_bind; try apply tab_set_total; try apply fill_range_total;
        [intros b _ | intros [tab' c'] _]; apply IH'; simpl; lia.
  - apply shrinks_ret. simpl. lia.
  - apply shrinks_bind; [apply tab_set_total |]. intros. by apply IH'.
Qed.

Lemma next_length s : (length (snd (next s)) <= length s)%nat.
Proof. destruct s; simpl; lia. Qed.

Lemma sccl_rest fmt : shrinks (length fmt) (__sccl fmt).
Proof.
  unfold __sccl. destruct (next fmt) as [c f] eqn:E.
  assert (Hf : (length f <= length fmt)%nat) by (pose proof (next_length fmt) as H; by rewrite E in H).
  assert (G : forall v c f, (length f <= length fmt)%nat -> shrinks (length fmt)
    (if c =? 0 then Ret (replicate 256 v, []) else
      tab ← tab_set (replicate 256 v) c (negb v); sccl_loop f tab (negb v) c)).
  { intros v c' f' Hf'. destruct (c' =? 0); [apply shrinks_ret; simpl; lia |].
    apply shrinks_bind; [apply tab_set_total |]. intros. by eapply shrinks_le, sccl_loop_rest. }
  destruct (c =? 94); [|by apply G]. destruct (next f) as [c' f'] eqn:E'. apply G.
  pose proof (next_length f) as H. rewrite E' in H. simpl in H. lia.
Qed.

(** The directive after a [%] is found, and the format left is shorter. *)
Lemma directive_of_rest fmt : forall flags width, shrinks (length fmt) (directive_of fmt flags width).
Proof.
  induction fmt as [fmt IH] using (induction_ltof1 _ (@length Z)). unfold ltof in IH.
  intros flags width. destruct fmt as [|c fmt]; cbn [directive_of]; [by apply shrinks_ret |].
  assert (IH' : forall f fl w, (length f <= length fmt)%nat -> shrinks (length (c :: fmt)) (directive_of f fl w)).
  { intros f fl w Hf. eapply shrinks_le; [|apply IH; simpl; lia]. simpl. lia. }
  assert (R : forall (d : directive), shrinks (length (c :: fmt)) (Ret (d, fmt))).
  { intros d. apply shrinks_ret. simpl. lia. }
  do 9 (case_match; [first [apply R | by apply IH' | destruct fmt as [|c' fmt']; [by apply IH' |]; case_match; apply IH'; simpl; lia] |]).
  do 10 (case_match; [first [apply R | by apply IH'] |]).
  case_match; [|repeat (case_match; [apply R |]); apply R].
  destruct (sccl_rest fmt) as [Hs1 Hs2]. apply shrinks_bind; [done |]. intros [tab f] Ef.
  apply shrinks_ret. specialize (Hs2 _ Ef). simpl in *. lia.
Qed.

Lemma finish_total r k : (forall s, k s <> Diverge) -> finish r k <> Diverge.
Proof. intros H. destruct r; simpl; [apply H | done | done]. Qed.

Lemma scan_loop_total fuel : forall fmt s, (length fmt <= fuel)%nat -> scan_loop fuel fmt s <> Diverge.
Proof.
  induction fuel as [|fuel IH]; intros [|c fmt] s Hl; simpl in Hl; try (done || lia). cbn [scan_loop].
  destruct (isspace c); [apply IH; lia |].
  destruct (negb (c =? 37)); [apply finish_total; intros; apply IH; lia |].
  destruct (directive_of_rest fmt 0 0) as [H1 H2].
  destruct (directive_of fmt 0 0) as [[d f]|f|]; [|done..]. specialize (H2 _ eq_refl). simpl in H2. rewrite bind_ret.
  destruct d; try (apply finish_total; intros); try (apply IH; lia). done.
Qed.

(** ** What is consumed

    A state whose stream is [input] less the [s_nread] bytes counted. *)
Definition consumed (input : bytes) (s : scan) : Prop :=
  exists p, input = p ++ s_in s /\ s_nread s = Z.of_nat (length p).

(** A state whose stream is a suffix of [input]. *)
Definition suffix_in (input : bytes) (s : scan) : Prop := exists p, input = p ++ s_in s.

Definition scanned_ok (input : bytes) (r : scanned) : Prop :=
  match r with
  | Next s => consumed input s
  | MatchFailure s | InputFailure s => suffix_in input s
  end.

Lemma consumed_suffix input s : consumed input s -> suffix_in input s.
Proof. intros (p & H & _). by exists p. Qed.

Lemma consumed_assign input s flags v t rest : consumed input s -> s_in s = t ++ rest ->
  consumed input (assign s flags v (Z.of_nat (length t)) rest).
Proof.
  intros (p & -> & Hn) Ht. exists (p ++ t). rewrite Ht. unfold assign.
  case_match; simpl; (split; [by rewrite app_assoc | rewrite length_app; lia]).
Qed.

Lemma consumed_skipped input s s0 : consumed input s -> skipped s s0 -> consumed input s0.
Proof.
  intros (p & -> & Hn) (sp & _ & -> & E). exists (p ++ sp). rewrite <- app_assoc. split; [done |].
  rewrite E, length_app. simpl. lia.
Qed.

Lemma consumed_eat input s : consumed input s -> consumed input (eat_spaces s).
Proof. intros H. eapply consumed_skipped; [exact H | apply eat_spaces_skipped]. Qed.

Lemma literal_ok input c s : consumed input s -> scanned_ok input (literal c s).
Proof.
  intros H. unfold literal. destruct (s_in s) as [|x rest] eqn:E; simpl; [by apply consumed_suffix |].
  case_match; simpl; [by apply consumed_suffix |].
  destruct H as (p & -> & Hn). exists (p ++ [x]). simpl. rewrite E, length_app, <- app_assoc. simpl. split; [done | lia].
Qed.

Lemma convert_ok input c flags width s r : consumed input s -> converts c flags width s r -> scanned_ok input r.
Proof.
  intros H (s0 & Hs & _ & Hr). pose proof (consumed_skipped _ _ _ H Hs) as H0. destruct Hr as [[_ ->]|Hr]; [by apply consumed_suffix |].
  destruct r as [s'|s'|s']; simpl in Hr; [|subst s'; by apply consumed_suffix | done].
  destruct Hr as (t & v & E & _ & _ & _ & ->). by apply consumed_assign.
Qed.

Lemma no_mode_0 : no_mode 0.
Proof. done. Qed.

Lemma finish_ok input r k n args rest : scanned_ok input r ->
  (forall s, consumed input s -> k s = Ret (n, args, rest) -> exists p, input = p ++ rest) ->
  finish r k = Ret (n, args, rest) -> exists p, input = p ++ rest.
Proof.
  intros Hr Hk. destruct r as [s|s|s]; simpl in *; [by apply Hk | |]; intros [= <- <- <-]; exact Hr.
Qed.

Lemma scan_loop_prefix input n args rest fuel : forall fmt s, consumed input s ->
  scan_loop fuel fmt s = Ret (n, args, rest) -> exists p, input = p ++ rest.
Proof.
  induction fuel as [|fuel IH]; intros [|c fmt] s Hs; cbn [scan_loop];
    [intros [= <- <- <-]; by apply consumed_suffix | done | intros [= <- <- <-]; by apply consumed_suffix |].
  destruct (isspace c); [apply IH, consumed_eat, Hs |].
  destruct (negb (c =? 37)); [apply finish_ok; [by apply literal_ok | apply IH] |].
  pose proof (directive_of_parsed fmt 0 0 no_mode_0 ltac:(done)) as Hd.
  destruct (directive_of fmt 0 0) as [[d f]|f|]; [|done..]. rewrite bind_ret.
  destruct d; [apply finish_ok; [by apply literal_ok | apply IH] |
    apply finish_ok; [eapply convert_ok, convert_takes, Hd; done | apply IH] | |
    intros [= <- <- <-]; by apply consumed_suffix].
  apply IH. by case_match.
Qed.

(** ** Reading numbers *)

Lemma int_char_digit c n base flags : base = 10 \/ base = 16 -> is_base_digit base c = true ->
  exists flags', int_char c n base flags = Some (base, flags') /\ has flags' NDIGITS = false /\ same_low flags flags'.
Proof.
  intros Hb Hc. assert (Hr : rd basefix base = base) by (by destruct Hb; subst base).
  assert (H1 : forall f, has (Z.ldiff f (Z.lor SIGNOK (Z.lor PFXOK NDIGITS))) NDIGITS = false /\
    same_low f (Z.ldiff f (Z.lor SIGNOK (Z.lor PFXOK NDIGITS)))).
  { intros f. split; [flag_calc; done | apply same_low_ldiff; low_bits]. }
  apply base_digit_char in Hc; [|done]. unfold int_char. rewrite Hr.
  destruct (Z.eqb_spec c 48).
  { destruct (Z.eqb_spec base 0); [lia |]. eexists. split; [reflexivity |]. destruct (has flags NZDIGITS); [|apply H1].
    split; [flag_calc; done | apply same_low_ldiff; low_bits]. }
  destruct (Z.leb_spec 49 c), (Z.leb_spec c 55), (Z.eqb_spec c 56), (Z.eqb_spec c 57), (Z.leb_spec 65 c), (Z.leb_spec c 70),
    (Z.leb_spec 97 c), (Z.leb_spec c 102), (Z.leb_spec base 8), (Z.leb_spec base 10); simpl; try (exfalso; lia); eauto.
Qed.

Definition ends_number (rest : bytes) : Prop :=
  match rest with
  | [] => True
  | c :: _ => forall n base flags, int_char c n base flags = None /\ ((c =? 56) || (c =? 57)) = false
  end.

Lemma int_loop_digits base ds rest : base = 10 \/ base = 16 -> Forall (fun c => is_base_digit base c = true) ds -> ends_number rest ->
  forall width buf flags, Z.of_nat (length ds) <= width -> (ds <> [] \/ has flags NDIGITS = false) ->
  exists flags', int_loop width buf (ds ++ rest) base flags = (buf ++ ds, base, flags', rest) /\
    has flags' NDIGITS = false /\ same_low flags flags'.
Proof.
  intros Hb Hds Hr. induction Hds as [|c ds Hc Hds IH]; intros width buf flags Hw Hn.
  - destruct Hn as [|Hn]; [done |]. exists flags. rewrite app_nil_r. simpl. split; [|done].
    destruct rest as [|c rest]; simpl; [done |]. destruct (width =? 0); [done |].
    by destruct (Hr (Z.of_nat (length buf)) base flags) as [-> ->].
  - simpl in Hw. destruct (int_char_digit c (Z.of_nat (length buf)) base flags Hb Hc) as (f & Ef & Hf & Hl).
    destruct (IH (width - 1) (buf ++ [c]) f ltac:(lia) ltac:(by right)) as (f' & E & Hf' & Hl').
    exists f'. simpl. destruct (Z.eqb_spec width 0); [lia |]. rewrite Ef, E, <- app_assoc. split; [done |].
    split; [done | by eapply same_low_trans].
Qed.

(** A text of digits is its own subject. *)
Lemma digits_subject base ds : base = 10 \/ base = 16 -> Forall (fun c => is_base_digit base c = true) ds ->
  cstr_ok ds /\ subject ds base = (false, base, ds) /\ bare_0x ds base = false.
Proof.
  intros Hb Hds.
  assert (Hc : Forall (fun c => 48 <= c <= 57 \/ 65 <= c <= 70 \/ 97 <= c <= 102) ds).
  { eapply Forall_impl; [exact Hds |]. intros c Hc. apply base_digit_char in Hc; [lia | done]. }
  assert (Hsp : skip_spaces ds = ds /\ read_sign ds = (false, ds)).
  { destruct Hc as [|c ds' Hc' Hc]; [done |]. simpl. unfold isspace.
    destruct (Z.eqb_spec c 32), (Z.leb_spec c 13), (Z.eqb_spec c 45), (Z.eqb_spec c 43); try lia. by rewrite andb_false_r. }
  assert (H0 : has_0x ds = false /\ skip_0x ds = ds).
  { destruct Hc as [|c ds' Hc' Hc]; [done |]. destruct Hc as [|x ds'' Hx Hc]; [done |]. simpl.
    destruct (Z.eqb_spec x 120), (Z.eqb_spec x 88); try lia. simpl. rewrite andb_false_r. by destruct ds''. }
  split; [eapply Forall_impl; [exact Hc |]; simpl; lia |].
  unfold subject, bare_0x. destruct Hsp as [-> ->], H0 as [H0 H0']. simpl. rewrite H0, H0'.
  destruct Hb; subst base; done.
Qed.

Lemma strtoumax_digits base ds v : base = 10 \/ base = 16 -> Forall (fun c => is_base_digit base c = true) ds ->
  read_digits base 0 ds = (v, []) -> v < 2 ^ 64 -> cv_val (strtoumax ds base) = v.
Proof.
  intros Hb Hds Hv Hm. destruct (digits_subject base ds Hb Hds) as (Hok & Hs & _). unfold strtoumax.
  rewrite (strto_unsigned_spec 64 ds base _ _ _ ltac:(lia) Hok ltac:(right; lia) Hs), Hv. simpl. unfold UINT_MAX.
  by destruct (Z.ltb_spec (2 ^ 64 - 1) v); [lia |].
Qed.

Lemma strtoimax_digits base ds v : base = 10 \/ base = 16 -> Forall (fun c => is_base_digit base c = true) ds ->
  read_digits base 0 ds = (v, []) -> v < 2 ^ 63 -> cv_val (strtoimax ds base) = v.
Proof.
  intros Hb Hds Hv Hm. destruct (digits_subject base ds Hb Hds) as (Hok & Hs & _). unfold strtoimax.
  rewrite (strto_signed_spec 64 ds base _ _ _ ltac:(lia) Hok ltac:(right; lia) Hs), Hv. cbn [cv_val fst sign]. unfold clip, INT_MIN, INT_MAX.
  pose proof (read_digits_nonneg base 0 ds ltac:(lia) ltac:(lia)) as H0. rewrite Hv in H0. simpl in H0.
  rewrite Z.mul_1_l. destruct (Z.ltb_spec v (- 2 ^ (64 - 1))), (Z.ltb_spec (2 ^ (64 - 1) - 1) v); try lia.
Qed.

(** A number without a field width: the text is read back and stored. *)
Record number (base : Z) (ds rest : bytes) (v : Z) : Prop := mk_number {
  num_base : base = 10 \/ base = 16;
  num_digits : Forall (fun c => is_base_digit base c = true) ds;
  num_some : ds <> [];
  num_fits : Z.of_nat (length ds) <= 512;
  num_ends : ends_number rest;
  num_val : read_digits base 0 ds = (v, []);
  num_max : v < 2 ^ 63;
}.

Definition plain (flags : Z) : Prop := has flags SUPPRESS = false /\ int_width flags = 32.

Lemma do_int_finish base flags f ds rest s v : number base ds rest v -> plain flags -> same_low flags f -> has f NDIGITS = false ->
  (if has f NDIGITS then
    MatchFailure (set_in s (if (0 <? length ds)%nat then snd (unget ds rest) else rest))
  else
    let c := List.last ds 0 in
    let '(buf, input) := if (c =? 120) || (c =? 88) then let '(_, b, i) := unget ds rest in (b, i) else (ds, rest) in
    let res := if has f UNSIGNED then cv_val (strtoumax buf base) else u64 (cv_val (strtoimax buf base)) in
    Next (assign s f (AInt (int_width f) (swrap (int_width f) res)) (Z.of_nat (length buf)) input)) =
  Next (Scan rest (s_nread s + Z.of_nat (length ds)) (s_nassigned s + 1) (s_args s ++ [AInt 32 (i32 v)])).
Proof.
  intros [Hb Hds Hne _ _ Hv Hm] [Hs Hw] Hl Hn. rewrite Hn. cbv zeta.
  assert (Hx : ((List.last ds 0 =? 120) || (List.last ds 0 =? 88)) = false).
  { assert (H : is_base_digit base (List.last ds 0) = true).
    { pose proof Hds as H. rewrite (app_removelast_last 0 Hne) in H. apply Forall_app in H as [_ H]. by inversion H. }
    apply base_digit_char in H; [|done]. destruct (Z.eqb_spec (List.last ds 0) 120), (Z.eqb_spec (List.last ds 0) 88); (done || lia). }
  rewrite Hx. rewrite (strtoumax_digits base ds v), (strtoimax_digits base ds v) by (done || lia).
  assert (0 <= v) by (pose proof (read_digits_nonneg base 0 ds ltac:(lia) ltac:(lia)) as H0; by rewrite Hv in H0).
  rewrite (wrap_small 64 v) by (unfold in_range; lia). rewrite (int_width_low flags f Hl), Hw. unfold assign.
  change SUPPRESS with (2 ^ 10) in *. rewrite (same_low_has flags f) by (done || lia). rewrite Hs.
  by destruct (has f UNSIGNED).
Qed.

Lemma do_int_number base flags ds rest s v : number base ds rest v -> plain flags -> s_in s = ds ++ rest ->
  do_int base flags 0 s = Next (Scan rest (s_nread s + Z.of_nat (length ds)) (s_nassigned s + 1) (s_args s ++ [AInt 32 (i32 v)])).
Proof.
  intros Hnum Hp Hin. unfold do_int. rewrite Hin. set (f := Z.lor flags _).
  assert (Hlf : same_low flags f) by (apply same_low_lor; low_bits). pose proof Hnum as [Hb Hds Hne Hlen Hr _ _].
  destruct (int_loop_digits base ds rest Hb Hds Hr (number_width 0) [] f ltac:(exact Hlen) ltac:(by left)) as (f' & E & Hn & Hl).
  rewrite E. apply (do_int_finish base flags f' ds rest s v); try done. by eapply same_low_trans.
Qed.

(** [%i]: the base is found to be ten at the first digit. *)
Lemma do_int_auto flags c ds rest s v : number 10 (c :: ds) rest v -> c <> 48 -> plain flags -> s_in s = c :: ds ++ rest ->
  do_int 0 flags 0 s = Next (Scan rest (s_nread s + Z.of_nat (length (c :: ds))) (s_nassigned s + 1) (s_args s ++ [AInt 32 (i32 v)])).
Proof.
  intros Hnum Hc0 Hp Hin. unfold do_int. rewrite Hin. set (f := Z.lor flags _).
  assert (Hlf : same_low flags f) by (apply same_low_lor; low_bits). pose proof Hnum as [Hb Hds Hne Hlen Hr _ _].
  apply Forall_cons in Hds as [Hc Hds]. apply base_digit_char in Hc as Hc'; [|done].
  set (g := Z.ldiff f (Z.lor SIGNOK (Z.lor PFXOK NDIGITS))).
  assert (Ec : int_char c 0 0 f = Some (10, g)).
  { unfold int_char. change (rd basefix 0) with 10.
    destruct (Z.eqb_spec c 48), (Z.leb_spec 49 c), (Z.leb_spec c 55), (Z.eqb_spec c 56), (Z.eqb_spec c 57); simpl; (done || lia). }
  simpl in Hlen.
  destruct (int_loop_digits 10 ds rest Hb Hds Hr 511 [c] g ltac:(lia) ltac:(right; unfold g; flag_calc; done)) as (f' & E & Hn & Hl).
  cbn [int_loop]. change (number_width 0 =? 0) with false. change (number_width 0 - 1) with 511. change (Z.of_nat (length [])) with 0.
  cbv iota. rewrite Ec. simpl app in *. rewrite E.
  apply (do_int_finish 10 flags f' (c :: ds) rest s v); try done.
  eapply same_low_trans; [|exact Hl]. eapply same_low_trans; [exact Hlf |]. apply same_low_ldiff; low_bits.
Qed.

(** ** Formats without scan sets do not fault *)
Definition set_free {A} (m : outcome (A * bytes)) : Prop := exists a f, m = Ret (a, f) /\ (91 ∉ f).

Lemma directive_of_set_free fmt : 91 ∉ fmt -> forall flags width, set_free (directive_of fmt flags width).
Proof.
  induction fmt as [fmt IH] using (induction_ltof1 _ (@length Z)). unfold ltof in IH.
  intros Hf flags width. destruct fmt as [|c fmt]; cbn [directive_of]; [by eexists _, _ |].
  apply not_elem_of_cons in Hf as [Hc Hf].
  assert (IH' : forall f fl w, (length f <= length fmt)%nat -> 91 ∉ f -> set_free (directive_of f fl w)).
  { intros f fl w Hl Hf'. apply IH; [simpl; lia | done]. }
  assert (R : forall (d : directive), set_free (Ret (d, fmt))) by (intros d; by eexists _, _).
  do 9 (case_match; [first [apply R | by apply IH' |
    destruct fmt as [|c' fmt']; [by apply IH' |]; apply not_elem_of_cons in Hf as [? ?];
    case_match; apply IH'; (simpl; lia) || (by apply not_elem_of_cons) || done] |]).
  do 10 (case_match; [first [apply R | by apply IH'] |]).
  case_match; [exfalso; zbool; lia |]. repeat (case_match; [apply R |]). apply R.
Qed.

Lemma finish_returns r k : (forall s, exists x, k s = Ret x) -> exists x, finish r k = Ret x.
Proof. intros H. destruct r; simpl; eauto. Qed.

Lemma scan_loop_returns fuel : forall fmt s, (length fmt <= fuel)%nat -> 91 ∉ fmt -> exists x, scan_loop fuel fmt s = Ret x.
Proof.
  induction fuel as [|fuel IH]; intros [|c fmt] s Hl Hf; simpl in Hl; try (by eexists); try lia. cbn [scan_loop].
  apply not_elem_of_cons in Hf as [_ Hf].
  destruct (isspace c); [apply IH; [lia | done] |].
  destruct (negb (c =? 37)); [apply finish_returns; intros; apply IH; [lia | done] |].
  destruct (directive_of_set_free fmt Hf 0 0) as (d & f & E & Hf'). destruct (directive_of_rest fmt 0 0) as [_ H2].
  specialize (H2 _ E). simpl in H2. rewrite E, bind_ret.
  destruct d; try (apply finish_returns; intros); try (apply IH; [lia | done]). by eexists.
Qed.

(** ** Properties *)


(** A scan set range from a character to itself takes in the next character
    as well: [x-x] accepts the successor of [x], where the comment in the code
    says that such a range is no range; for the character 255 the table is
    written outside its bounds. *)
Theorem sccl_single_range c : 0 < c < 256 -> c <> 93 -> c <> 94 ->
  match __sccl [c; 45; c; 93] with
  | Ret (tab, rest) => rest = [] /\ tab !! Z.to_nat (c + 1) = Some true
  | Fault e => e = OutOfBounds /\ c = 255
  | Diverge => False
  end.
Proof.
  intros Hc H93 Hn. unfold __sccl. cbn [next].
  destruct (Z.eqb_spec c 94); [done |]. destruct (Z.eqb_spec c 0); [lia |].
  assert (Hl : length (replicate 256 false) = 256%nat) by reflexivity. revert Hl. generalize (replicate 256 false). intros tab Hl.
  unfold tab_set at 1. rewrite Hl.
  destruct (Z.leb_spec 0 c), (Z.ltb_spec c (Z.of_nat 256)); try lia. cbn [andb negb]. rewrite bind_ret. cbn [sccl_loop].
  change (45 =? 45) with true. cbv iota. destruct (Z.eqb_spec c 93); [done |]. rewrite Z.ltb_irrefl. cbn [orb].
  rewrite Z.sub_diag. change (Z.to_nat (Z.max 1 0)) with 1%nat. cbn [fill_range]. unfold tab_set.
  rewrite length_insert, Hl. destruct (Z.leb_spec 0 (c + 1)), (Z.ltb_spec (c + 1) (Z.of_nat 256)); try lia; cbn [andb].
  - split; [done |]. apply list_lookup_insert_eq. rewrite length_insert, Hl. lia.
  - split; [done | lia].
Qed.

Lemma sccl_single_range_witness :
  match __sccl (str "a-a]") with
  | Ret (tab, rest) => rest = [] /\ tab !! Z.to_nat 98 = Some true
  | Fault e => e = OutOfBounds /\ 97 = 255
  | Diverge => False
  end.
Proof. apply (sccl_single_range 97); lia. Defined.
