(* ===== verification/LoadKeys.v ===== *)
(** * The keys file of the recovery

    Models [load_keys] of src/bootable/recovery/verifier.cpp, which reads the
    keys an update package may be signed with, and the tool that writes the
    file, src/system/core/libmincrypt/tools/DumpPublicKey.java. A file is the
    list of its bytes, [None] when it cannot be opened; [fscanf] is bionic's.
    The allocation script is the one of the ASN.1 decoder. *)

From S2P Require Import Prelude.
From S2P Require Import Limbs.
From S2P Require Import Sha.
From S2P Require Import Rsa.
From S2P Require Import P256.
From S2P Require Import DsaSig.
From S2P Require Import Asn1.
From S2P Require Import Verifier.
From S2P Require Import CString.
From S2P Require Import Scanf.
From Stdlib Require Import Zcong.

(** ** Reading *)
Definition fscanf (f : bytes) (fmt : string) : outcome (Z * list arg * bytes) := __svfscanf f (str fmt).

(** The integer the [k]-th pointer received. *)
Definition stored (args : list arg) (k : nat) : Z :=
  match args !! k with
  | Some (AInt _ v) => v
  | _ => 0
  end.

Definition stored_char (args : list arg) : Z :=
  match args with
  | AChars (c :: _) :: _ => c
  | _ => 0
  end.

Section LoadKeys.
(** What malloc returns, and the uninitialised arrays of the stack. *)
Context (junk : RSAPublicKey) (x_junk y_junk : bytes).

(** [for (...) if (fscanf(f, " , %u", &a[i]) != 1) goto exit;] with the index
    going up by [step]; [None] is the jump. *)
Fixpoint list_loop (n : nat) (conv : Z -> Z) (i step : Z) (a : list Z) (f : bytes) : outcome (option (list Z * bytes)) :=
  match n with
  | O => Ret (Some (a, f))
  | S n' =>
      '(r, args, f) ← fscanf f " , %u";
      if negb (r =? 1) then Ret None
      else list_loop n' conv (i + step) step (wr a i (conv (stored args 0))) f
  end.

(** The RSA branch; the pointer is null after an unknown first character. *)
Definition read_rsa (rsa : option RSAPublicKey) (f : bytes) : outcome (option (RSAPublicKey * bytes)) :=
  '(r, args, f) ← fscanf f " %i , 0x%x , { %u";
  match rsa with
  | None => if (length args =? 0)%nat then Ret None else Fault NullDeref
  | Some key =>
      if negb (r =? 3) then Ret None else
      let len := i32 (stored args 0) in
      let n0inv := u32 (stored args 1) in
      let n := wr (key_n key) 0 (u32 (stored args 2)) in
      if negb (len =? RSANUMWORDS) then Ret None else
      ns ← list_loop (Z.to_nat (len - 1)) u32 1 1 n f;
      match ns with
      | None => Ret None
      | Some (n, f) =>
          '(r, args, f) ← fscanf f " } , { %u";
          if negb (r =? 1) then Ret None else
          rrs ← list_loop (Z.to_nat (len - 1)) u32 1 1 (wr (key_rr key) 0 (u32 (stored args 0))) f;
          match rrs with
          | None => Ret None
          | Some (rr, f) =>
              '(_, _, f) ← fscanf f " } } ";
              Ret (Some (mk_RSAPublicKey len n0inv n rr (key_exponent key), f))
          end
      end
  end.

(** The EC branch. The result of calloc is used without a test. *)
Definition read_ec (ec : option ECPublicKey) (f : bytes) : outcome (option (ECPublicKey * bytes)) :=
  '(r, args, f) ← fscanf f " %i , { %u";
  if negb (r =? 2) then Ret None else
  let key_len := i32 (stored args 0) in
  if negb (key_len =? P256_NBYTES) then Ret None else
  xs ← list_loop 31 u8 (P256_NBYTES - 2) (-1) (wr x_junk (P256_NBYTES - 1) (u8 (stored args 1))) f;
  match xs with
  | None => Ret None
  | Some (x_bytes, f) =>
      '(r, args, f) ← fscanf f " } , { %u";
      if negb (r =? 1) then Ret None else
      ys ← list_loop 31 u8 (P256_NBYTES - 2) (-1) (wr y_junk (P256_NBYTES - 1) (u8 (stored args 0))) f;
      match ys with
      | None => Ret None
      | Some (y_bytes, f) =>
          '(_, _, f) ← fscanf f " } } ";
          match ec with
          | None => Fault NullDeref
          | Some key => Ret (Some (mk_ECPublicKey (p256_from_bin x_bytes (ec_x key)) (p256_from_bin y_bytes (ec_y key)), f))
          end
      end
  end.

(** [cert->rsa = malloc(sizeof(RSAPublicKey)); cert->rsa->exponent = e;] *)
Definition new_rsa (e hash : Z) : scriptM Certificate :=
  ok ← alloc;
  if (ok : bool) then
    mret (mk_Certificate hash RSA (Some (mk_RSAPublicKey (key_len junk) (key_n0inv junk) (key_n junk) (key_rr junk) e)) None)
  else throwS NullDeref.

(** The start of an entry: its certificate, or [None] for the jump to exit. *)
Definition start_key (f : bytes) : scriptM (option (Certificate * bytes)) :=
  '(r, args, f) ← liftS (fscanf f " %c");
  if negb (r =? 1) then mret None else
  let start_char := stored_char args in
  if start_char =? 123 then cert ← new_rsa 3 SHA_DIGEST_SIZE; mret (Some (cert, f))
  else if start_char =? 118 then
    '(r, args, f) ← liftS (fscanf f "%d {");
    if negb (r =? 1) then mret None else
    let version := i32 (stored args 0) in
    if version =? 2 then cert ← new_rsa 65537 SHA_DIGEST_SIZE; mret (Some (cert, f))
    else if version =? 3 then cert ← new_rsa 3 SHA256_DIGEST_SIZE; mret (Some (cert, f))
    else if version =? 4 then cert ← new_rsa 65537 SHA256_DIGEST_SIZE; mret (Some (cert, f))
    else if version =? 5 then
      ok ← alloc;
      let ec := if (ok : bool) then Some (mk_ECPublicKey (replicate 8 0) (replicate 8 0)) else None in
      mret (Some (mk_Certificate SHA256_DIGEST_SIZE EC None ec, f))
    else mret None
  else mret (Some (mk_Certificate 0 RSA None None, f)).

Definition read_key (f : bytes) : scriptM (option (Certificate * bytes)) :=
  start ← start_key f;
  match start with
  | None => mret None
  | Some (cert, f) =>
      match key_type cert with
      | RSA =>
          k ← liftS (read_rsa (rsa cert) f);
          mret (match k with
                | None => None
                | Some (k, f) => Some (mk_Certificate (hash_len cert) RSA (Some k) (ec cert), f)
                end)
      | EC =>
          k ← liftS (read_ec (ec cert) f);
          mret (match k with
                | None => None
                | Some (k, f) => Some (mk_Certificate (hash_len cert) EC (rsa cert) (Some k), f)
                end)
      end
  end.

(** [while (!done)]; [None] is a jump to exit, where the array is freed. *)
Fixpoint keys_loop (fuel : nat) (out : list Certificate) (f : bytes) : scriptM (option (list Certificate)) :=
  match fuel with
  | O => fun _ => Diverge
  | S fuel' =>
      ok ← alloc;
      if negb ok then throwS NullDeref else
      k ← read_key f;
      match k with
      | None => mret None
      | Some (cert, f) =>
          let out := out ++ [cert] in
          match f with
          | [] => mret (Some out)
          | c :: f => if c =? 44 then keys_loop fuel' out f else mret None
          end
      end
  end.

(** The keys, or NULL; [*numKeys] is their number, 0 for NULL. *)
Definition load_keys (file : option bytes) : scriptM (option (list Certificate)) :=
  match file with
  | None => mret None
  | Some f => keys_loop (S (length f)) [] f
  end.

End LoadKeys.

(** ** Writing: DumpPublicKey

    [toString] of a non-negative number in a radix up to 16. The fuel is the
    number of binary digits. *)
Fixpoint radix_digits (fuel : nat) (radix x : Z) : bytes :=
  match fuel with
  | O => []
  | S fuel' => if x <? radix then [hex_digit x] else radix_digits fuel' radix (x / radix) ++ [hex_digit (x mod radix)]
  end.
Definition toString (radix x : Z) : bytes := radix_digits (S (Z.to_nat (Z.log2 x))) radix x.

Definition bitLength (x : Z) : Z := if x <=? 0 then 0 else Z.log2 x + 1.

(** [BigInteger.modInverse]; [None] when it throws. *)
Definition modInverse (x m : Z) : option Z := if Z.gcd x m =? 1 then Some (Z.invmod x m) else None.

Inductive PublicKey :=
  | RSAKey (publicExponent modulus : Z)
  | ECKey (fieldSize affineX affineY : Z)
  | OtherKey.

(** The version; [None] when an exception is thrown. *)
Definition checkRSA (pubexp modulus : Z) (useSHA256 : bool) : option Z :=
  version ← (if pubexp =? 3 then Some (if useSHA256 then 3 else 1)
             else if pubexp =? 65537 then Some (if useSHA256 then 4 else 2) else None);
  if negb (bitLength modulus =? 2048) then None else Some version.

Definition checkEC (fieldSize : Z) : option Z := if negb (fieldSize =? 256) then None else Some 5.

Definition check (key : PublicKey) (useSHA256 : bool) : option Z :=
  match key with
  | RSAKey e n => checkRSA e n useSHA256
  | ECKey size _ _ => if negb useSHA256 then None else checkEC size
  | OtherKey => None
  end.

(** A number as a little endian array of [n] numbers below [B]. *)
Fixpoint array_loop (n : nat) (B x : Z) : bytes :=
  match n with
  | O => []
  | S n' => toString 10 (x mod B) ++ (if (n' =? 0)%nat then [] else str ",") ++ array_loop n' B (x / B)
  end.

Definition printRSA (pubexp modulus : Z) (useSHA256 : bool) : option bytes :=
  version ← check (RSAKey pubexp modulus) useSHA256;
  let nwords := bitLength modulus / 32 in
  let B := 0x100000000 in
  inv ← modInverse modulus B;
  let N0inv := B - inv in
  let R := 2 ^ bitLength modulus in
  let RR := (R * R) mod modulus in
  Some ((if 1 <? version then str "v" ++ toString 10 version ++ str " " else []) ++
        str "{" ++ toString 10 nwords ++ str ",0x" ++ toString 16 N0inv ++
        str ",{" ++ array_loop (Z.to_nat nwords) B modulus ++ str "}" ++
        str ",{" ++ array_loop (Z.to_nat nwords) B RR ++ str "}" ++ str "}").

Definition printEC (fieldSize x y : Z) : option bytes :=
  version ← checkEC fieldSize;
  let nbytes := fieldSize / 8 in
  let B := 0x100 in
  Some (str "v" ++ toString 10 version ++ str " " ++ str "{" ++ toString 10 nbytes ++
        str ",{" ++ array_loop (Z.to_nat nbytes) B x ++ str "}" ++
        str ",{" ++ array_loop (Z.to_nat nbytes) B y ++ str "}" ++ str "}").

Definition print (key : PublicKey) (useSHA256 : bool) : option bytes :=
  match key with
  | RSAKey e n => printRSA e n useSHA256
  | ECKey size x y => printEC size x y
  | OtherKey => None
  end.

(** The signature algorithm of a certificate: is SHA-256 used? *)
Definition algorithm (sigAlg : bytes) : option bool :=
  if bool_decide (sigAlg = str "SHA1withRSA") || bool_decide (sigAlg = str "MD5withRSA") then Some false
  else if bool_decide (sigAlg = str "SHA256withRSA") || bool_decide (sigAlg = str "SHA256withECDSA") then Some true
  else None.

(** The loop of [main] over the certificates: what is printed, and the exit
    status. A certificate that cannot be read is [None]. *)
Fixpoint main_loop (certs : list (option (bytes * PublicKey))) (stdout : bytes) : Z * bytes :=
  match certs with
  | [] => (0, stdout)
  | None :: _ => (1, stdout)
  | Some (sigAlg, key) :: certs' =>
      match algorithm sigAlg with
      | None => (1, stdout)
      | Some useSHA256 =>
          match check key useSHA256 with
          | None => (1, stdout)
          | Some _ =>
              match print key useSHA256 with
              | None => (1, stdout)
              | Some s =>
                  main_loop certs' (stdout ++ s ++ (if (0 <? length certs')%nat then str "," else []) ++ [10])
              end
          end
      end
  end.

Definition DumpPublicKey_main (certs : list (option (bytes * PublicKey))) : Z * bytes :=
  if (length certs <? 1)%nat then (1, []) else main_loop certs [].
