(* ===== verification/LoadKeysSpec.v ===== *)
(** * The keys file: round trip and failures

    What DumpPublicKey prints for a list of certificates is read back by
    [load_keys] as the keys of those certificates, in the form [verify_file]
    relies on; reading ends on every file; and the file that makes it use a null
    pointer. *)

From S2P Require Import Prelude.
From S2P Require Import Limbs.
From S2P Require Import Cong.
From S2P Require Import Sha.
From S2P Require Import Rsa.
From S2P Require Import RsaSpec.
From S2P Require Import P256.
From S2P Require Import P256Spec.
From S2P Require Import P256Curve.
From S2P Require Import DsaSig.
From S2P Require Import Asn1.
From S2P Require Import Verifier.
From S2P Require Import VerifierSpec.
From S2P Require Import CString.
From S2P Require Import Strto.
From S2P Require Import Scanf.
From S2P Require Import ScanfText.
From S2P Require Import ScanfSpec.
From S2P Require Import LoadKeys.
From Stdlib Require Import Zcong.

(** ** Numbers in text *)
Lemma hex_digit_val radix x : radix = 10 \/ radix = 16 -> 0 <= x < radix ->
  digit_val (hex_digit x) = x.
Proof.
  intros Hr Hx. unfold hex_digit, digit_val. destruct (Z.ltb_spec x 10).
  - destruct (Z.leb_spec 48 (48 + x)), (Z.leb_spec (48 + x) 57); simpl; lia.
  - destruct (Z.leb_spec 48 (87 + x)), (Z.leb_spec (87 + x) 57), (Z.leb_spec 97 (87 + x)), (Z.leb_spec (87 + x) 122); simpl; lia.
Qed.

Lemma read_digits_app base ds : forall acc t, Forall (fun c => is_base_digit base c = true) ds ->
  read_digits base acc (ds ++ t) = read_digits base (fst (read_digits base acc ds)) t.
Proof.
  induction ds as [|c ds IH]; intros acc t H; simpl; [done |]. apply Forall_cons in H as [Hc H]. rewrite Hc. by apply IH.
Qed.

Lemma radix_digits_ok radix fuel : radix = 10 \/ radix = 16 -> forall x, 0 <= x < 2 ^ Z.of_nat fuel -> (0 < fuel)%nat ->
  Forall (fun c => is_base_digit radix c = true) (radix_digits fuel radix x) /\
  radix_digits fuel radix x <> [] /\ (length (radix_digits fuel radix x) <= fuel)%nat /\
  read_digits radix 0 (radix_digits fuel radix x) = (x, []).
Proof.
  intros Hr. induction fuel as [|fuel IH]; intros x Hx Hf; [lia |]. cbn [radix_digits].
  destruct (Z.ltb_spec x radix).
  - assert (E : is_base_digit radix (hex_digit x) = true) by (unfold is_base_digit; rewrite (hex_digit_val radix) by lia; apply Z.ltb_lt; lia).
    split; [by constructor |]. split; [done |]. split; [simpl; lia |]. simpl. rewrite E, (hex_digit_val radix) by lia. done.
  - pose proof (Z.mod_pos_bound x radix ltac:(lia)) as Hm.
    assert (Hq : 0 <= x / radix < 2 ^ Z.of_nat fuel).
    { split; [apply Z.div_pos; lia |]. apply Z.div_lt_upper_bound; [lia |].
      rewrite Nat2Z.inj_succ, Z.pow_succ_r in Hx by lia. nia. }
    assert (Hf' : (0 < fuel)%nat).
    { destruct fuel; [|lia]. simpl in Hq. assert (1 <= x / radix) by (apply Z.div_le_lower_bound; lia). lia. }
    destruct (IH (x / radix) Hq Hf') as (H1 & H2 & H3 & H4).
    assert (E : is_base_digit radix (hex_digit (x mod radix)) = true)
      by (unfold is_base_digit; rewrite (hex_digit_val radix) by lia; apply Z.ltb_lt; lia).
    split; [apply Forall_app; split; [done | by constructor] |].
    split; [by destruct (radix_digits fuel radix (x / radix)) |].
    split; [rewrite length_app; simpl; lia |].
    rewrite read_digits_app, H4 by done. simpl. rewrite E, (hex_digit_val radix) by lia.
    f_equal. pose proof (Z.div_mod x radix). lia.
Qed.

Lemma toString_number radix x rest : radix = 10 \/ radix = 16 -> 0 <= x < 2 ^ 63 -> ends_number rest ->
  number radix (toString radix x) rest x.
Proof.
  intros Hr Hx He. unfold toString.
  assert (Hb : 0 <= x < 2 ^ Z.of_nat (S (Z.to_nat (Z.log2 x)))).
  { split; [lia |]. rewrite Nat2Z.inj_succ, Z2Nat.id by apply Z.log2_nonneg. destruct (Z.eq_dec x 0) as [->|]; [done |].
    apply Z.log2_lt_pow2; [lia |]. lia. }
  destruct (radix_digits_ok radix _ Hr x Hb ltac:(lia)) as (H1 & H2 & H3 & H4). split; try done; [|lia].
  assert (Z.log2 x < 63) by (destruct (Z.eq_dec x 0) as [->|]; [done | apply Z.log2_lt_pow2; lia]).
  pose proof (Z.log2_nonneg x). lia.
Qed.

Lemma ends_comma t : ends_number (44 :: t).
Proof. intros n b f. done. Qed.
Lemma ends_brace t : ends_number (125 :: t).
Proof. intros n b f. done. Qed.
Lemma ends_space t : ends_number (32 :: t).
Proof. intros n b f. done. Qed.

#[export] Hint Resolve ends_comma ends_brace ends_space : cint.

(** ** Steps of the format interpreter *)
Lemma eat_none inp nr na args : skip_spaces inp = inp -> eat_spaces (Scan inp nr na args) = Scan inp nr na args.
Proof. intros H. unfold eat_spaces. simpl. rewrite H. f_equal. lia. Qed.

Lemma scan_eat fuel fmt s : scan_loop (S fuel) (32 :: fmt) s = scan_loop fuel fmt (eat_spaces s).
Proof. reflexivity. Qed.

Lemma scan_space fuel fmt inp nr na args : skip_spaces inp = inp ->
  scan_loop (S fuel) (32 :: fmt) (Scan inp nr na args) = scan_loop fuel fmt (Scan inp nr na args).
Proof. intros H. by rewrite scan_eat, eat_none. Qed.

Lemma scan_lit fuel c fmt rest nr na args : isspace c = false -> c <> 37 ->
  scan_loop (S fuel) (c :: fmt) (Scan (c :: rest) nr na args) = scan_loop fuel fmt (Scan rest (nr + 1) na args).
Proof.
  intros H1 H2. cbn [scan_loop]. rewrite H1. destruct (Z.eqb_spec c 37); [done |]. unfold literal. cbn [negb s_in].
  by rewrite Z.eqb_refl.
Qed.

Lemma number_skip base ds rest v : number base ds rest v -> skip_spaces (ds ++ rest) = ds ++ rest.
Proof.
  intros [Hb Hds Hne _ _ _ _]. destruct Hds as [|c ds Hc _]; [done |]. apply base_digit_char in Hc; [|done].
  simpl. unfold isspace. destruct (Z.eqb_spec c 32), (Z.leb_spec 9 c), (Z.leb_spec c 13); simpl; (done || lia).
Qed.

(** The conversions of integers that take neither width nor modifier. *)
Lemma scan_conv fuel fmt fmt' base flags inp nr na args s' :
  directive_of fmt 0 0 = Ret (DConv (CT_INT base) flags 0, fmt') -> has flags NOSKIP = false ->
  skip_spaces inp = inp -> inp <> [] -> do_int base flags 0 (Scan inp nr na args) = Next s' ->
  scan_loop (S fuel) (37 :: fmt) (Scan inp nr na args) = scan_loop fuel fmt' s'.
Proof.
  intros Hd Hf Hs Hn Hi. cbn [scan_loop]. change (isspace 37) with false. change (negb (37 =? 37)) with false. cbv iota.
  rewrite Hd, bind_ret. unfold convert. rewrite Hf, eat_none by done. cbn [s_in].
  replace (length inp =? 0)%nat with false by (by destruct inp). by rewrite Hi.
Qed.

Lemma scan_num fuel fmt fmt' base flags ds rest nr na args v :
  directive_of fmt 0 0 = Ret (DConv (CT_INT base) flags 0, fmt') -> has flags NOSKIP = false -> plain flags ->
  number base ds rest v ->
  scan_loop (S fuel) (37 :: fmt) (Scan (ds ++ rest) nr na args) =
  scan_loop fuel fmt' (Scan rest (nr + Z.of_nat (length ds)) (na + 1) (args ++ [AInt 32 (i32 v)])).
Proof.
  intros Hd Hf Hp Hn. eapply scan_conv; [exact Hd | done | by eapply number_skip | | by rewrite (do_int_number base flags ds rest _ v)].
  destruct Hn as [_ _ Hne _ _ _ _]. by destruct ds.
Qed.

Lemma scan_auto fuel fmt fmt' flags c ds rest nr na args v :
  directive_of fmt 0 0 = Ret (DConv (CT_INT 0) flags 0, fmt') -> has flags NOSKIP = false -> plain flags ->
  number 10 (c :: ds) rest v -> c <> 48 ->
  scan_loop (S fuel) (37 :: fmt) (Scan (c :: ds ++ rest) nr na args) =
  scan_loop fuel fmt' (Scan rest (nr + Z.of_nat (length (c :: ds))) (na + 1) (args ++ [AInt 32 (i32 v)])).
Proof.
  intros Hd Hf Hp Hn Hc. eapply scan_conv; [exact Hd | done | apply (number_skip 10 (c :: ds) rest v Hn) | done |].
  by rewrite (do_int_auto flags c ds rest _ v).
Qed.

(** A length of two digits, followed by a comma. *)
Lemma scan_len fuel fmt fmt' c d rest nr na args :
  directive_of fmt 0 0 = Ret (DConv (CT_INT 0) 0 0, fmt') -> 49 <= c <= 57 -> 48 <= d <= 57 ->
  scan_loop (S fuel) (37 :: fmt) (Scan (c :: d :: 44 :: rest) nr na args) =
  scan_loop fuel fmt' (Scan (44 :: rest) (nr + 2) (na + 1) (args ++ [AInt 32 (i32 ((c - 48) * 10 + (d - 48)))])).
Proof.
  intros Hd Hc Hd'. apply (scan_auto fuel fmt fmt' 0 c [d] (44 :: rest)); [done | done | done | | lia].
  assert (E : forall x, 48 <= x <= 57 -> digit_val x = x - 48).
  { intros x Hx. unfold digit_val. destruct (Z.leb_spec 48 x), (Z.leb_spec x 57); (done || lia). }
  assert (D : forall x, 48 <= x <= 57 -> is_base_digit 10 x = true).
  { intros x Hx. unfold is_base_digit. rewrite E by done. apply Z.ltb_lt. lia. }
  split; [by left | | done | done | apply ends_comma | | lia].
  - repeat constructor; apply D; lia.
  - simpl. rewrite !D, !E by lia. done.
Qed.

(** Run the interpreter over a format whose text is known. *)
Ltac open_format :=
  unfold fscanf, __svfscanf;
  match goal with |- context [str ?f] => let l := eval vm_compute in (str f) in change (str f) with l end;
  cbn [length].
Ltac scan_step :=
  first [ rewrite scan_space by (reflexivity || (eapply number_skip; eassumption))
        | rewrite scan_lit by (reflexivity || done)
        | erewrite scan_num by (reflexivity || (split; reflexivity) || eassumption) ].

Lemma scan_item ds rest v : number 10 ds rest v ->
  fscanf (44 :: ds ++ rest) " , %u" = Ret (1, [AInt 32 (i32 v)], rest).
Proof. intros H. open_format. repeat scan_step. reflexivity. Qed.

Lemma scan_next_array ds rest v : number 10 ds rest v ->
  fscanf (125 :: 44 :: 123 :: ds ++ rest) " } , { %u" = Ret (1, [AInt 32 (i32 v)], rest).
Proof. intros H. open_format. repeat scan_step. reflexivity. Qed.

Lemma scan_close tail : fscanf (125 :: 125 :: tail) " } } " = Ret (0, [], skip_spaces tail).
Proof. open_format. repeat scan_step. reflexivity. Qed.

Lemma scan_version ds rest v : number 10 ds (32 :: 123 :: rest) v ->
  fscanf (ds ++ 32 :: 123 :: rest) "%d {" = Ret (1, [AInt 32 (i32 v)], rest).
Proof. intros H. open_format. repeat scan_step. rewrite scan_eat. reflexivity. Qed.

Lemma scan_start ws c rest : ws = [] \/ ws = [10] -> isspace c = false ->
  fscanf (ws ++ c :: rest) " %c" = Ret (1, [AChars [c]], rest).
Proof.
  intros Hw H. open_format. rewrite scan_eat.
  replace (eat_spaces _) with (Scan (c :: rest) (Z.of_nat (length ws)) 0 []); [reflexivity |].
  destruct Hw as [-> | ->]; unfold eat_spaces; cbn [s_in s_nread s_nassigned s_args app skip_spaces]; change (isspace 10) with true;
    cbv iota; rewrite H; cbn [length]; f_equal; lia.
Qed.

Lemma scan_rsa hx ds rest v w : number 16 hx (44 :: 123 :: ds ++ rest) v -> number 10 ds rest w ->
  fscanf (54 :: 52 :: 44 :: 48 :: 120 :: hx ++ 44 :: 123 :: ds ++ rest) " %i , 0x%x , { %u" =
  Ret (3, [AInt 32 64; AInt 32 (i32 v); AInt 32 (i32 w)], rest).
Proof.
  intros Hv Hw. open_format. rewrite scan_space by reflexivity.
  erewrite scan_len by (reflexivity || lia).
  repeat scan_step. reflexivity.
Qed.

Lemma scan_ec ds rest w : number 10 ds rest w ->
  fscanf (51 :: 50 :: 44 :: 123 :: ds ++ rest) " %i , { %u" = Ret (2, [AInt 32 32; AInt 32 (i32 w)], rest).
Proof.
  intros Hw. open_format. rewrite scan_space by reflexivity.
  erewrite scan_len by (reflexivity || lia).
  repeat scan_step. reflexivity.
Qed.

(** ** Arrays *)

(** The entries of an array, separated and preceded by commas. *)
Definition array_tail (n : nat) (B x : Z) : bytes := (if (n =? 0)%nat then [] else str ",") ++ array_loop n B x.

Lemma array_loop_S n B x : array_loop (S n) B x = toString 10 (x mod B) ++ array_tail n B (x / B).
Proof. unfold array_tail. cbn [array_loop]. by destruct n. Qed.

Lemma array_tail_ends n B x rest : ends_number (array_tail n B x ++ 125 :: rest).
Proof. destruct n; [apply ends_brace | apply ends_comma]. Qed.

Lemma array_number n B x rest : 0 < B <= 2 ^ 32 ->
  number 10 (toString 10 (x mod B)) (array_tail n B (x / B) ++ 125 :: rest) (x mod B).
Proof.
  intros HB. pose proof (Z.mod_pos_bound x B ltac:(lia)). apply toString_number; [by left | lia | apply array_tail_ends].
Qed.

Fixpoint written (n : nat) (i step B x : Z) (a : list Z) : list Z :=
  match n with
  | O => a
  | S n' => written n' (i + step) step B (x / B) (wr a i (x mod B))
  end.

Lemma list_loop_array conv B n rest : 0 < B <= 2 ^ 32 -> (forall v, 0 <= v < B -> conv (i32 v) = v) ->
  forall i step x a,
  list_loop n conv i step a (array_tail n B x ++ 125 :: rest) = Ret (Some (written n i step B x a, 125 :: rest)).
Proof.
  intros HB Hc. induction n as [|n IH]; intros i step x a; [done |]. cbn [list_loop written].
  unfold array_tail at 1. rewrite array_loop_S, <- !app_assoc. change (str ",") with [44]. simpl app.
  rewrite (scan_item _ _ _ (array_number n B x rest HB)), bind_ret. change (negb (1 =? 1)) with false. cbv iota.
  change (stored [AInt 32 (i32 (x mod B))] 0) with (i32 (x mod B)). rewrite Hc by (apply Z.mod_pos_bound; lia). apply IH.
Qed.

(** The digits of a number, least significant first. *)
Fixpoint digits_of (n : nat) (B x : Z) : list Z :=
  match n with
  | O => []
  | S n' => x mod B :: digits_of n' B (x / B)
  end.

Lemma digits_of_length n : forall B x, length (digits_of n B x) = n.
Proof. induction n; intros; simpl; [done |]. by f_equal. Qed.

Lemma written_up B n : forall i x a, (length a = i + n)%nat ->
  written n (Z.of_nat i) 1 B x a = take i a ++ digits_of n B x.
Proof.
  induction n as [|n IH]; intros i x a Hl; simpl.
  { by rewrite app_nil_r, take_ge by lia. }
  replace (Z.of_nat i + 1) with (Z.of_nat (S i)) by lia. rewrite IH by (rewrite length_wr; lia).
  unfold wr. rewrite Nat2Z.id, take_insert_snoc by lia. by rewrite <- app_assoc.
Qed.

Lemma drop_wr (a : list Z) n v : (n < length a)%nat -> drop n (wr a (Z.of_nat n) v) = v :: drop (S n) a.
Proof.
  intros H. unfold wr. rewrite Nat2Z.id, insert_take_drop by lia. rewrite drop_app_ge by (rewrite length_take; lia).
  by rewrite length_take, Nat.min_l, Nat.sub_diag by lia.
Qed.

Lemma written_down B n : forall x a, (n <= length a)%nat ->
  written n (Z.of_nat n - 1) (-1) B x a = rev (digits_of n B x) ++ drop n a.
Proof.
  induction n as [|n IH]; intros x a Hl; [by rewrite drop_0 |]. cbn [written digits_of rev].
  replace (Z.of_nat (S n) - 1 + -1) with (Z.of_nat n - 1) by lia.
  rewrite IH by (rewrite length_wr; lia). rewrite <- app_assoc. f_equal.
  replace (Z.of_nat (S n) - 1) with (Z.of_nat n) by lia. by rewrite drop_wr by lia.
Qed.

Lemma digits_of_words n : forall x, words_ok (digits_of n (2 ^ 32) x) /\ dval (digits_of n (2 ^ 32) x) = x mod 2 ^ (32 * Z.of_nat n).
Proof.
  induction n as [|n IH]; intros x; [simpl; split; [constructor | by rewrite Z.mod_1_r] |].
  destruct (IH (x / 2 ^ 32)) as [H1 H2]. cbn [digits_of dval]. split; [constructor; [apply Z.mod_pos_bound; lia | done] |].
  rewrite H2. replace (32 * Z.of_nat (S n)) with (32 + 32 * Z.of_nat n) by lia.
  rewrite Z.pow_add_r, Z.rem_mul_r by lia. done.
Qed.

Lemma digits_of_bytes n : forall x, digits_of n 256 x = le_encode n x.
Proof.
  induction n as [|n IH]; intros x; [done |]. cbn [digits_of le_encode]. rewrite IH, Z.shiftr_div_pow2 by lia. done.
Qed.

Lemma u32_i32 v : 0 <= v < 2 ^ 32 -> u32 (i32 v) = v.
Proof. intros H. rewrite wrap_swrap by lia. by apply wrap_small. Qed.

Lemma u8_i32 v : 0 <= v < 256 -> u8 (i32 v) = v.
Proof. intros H. rewrite swrap_small by (lia || unfold in_srange; lia). apply wrap_small. unfold in_range. lia. Qed.

Definition B32 : Z := 0x100000000.

(** ** The two kinds of entries *)
Lemma read_rsa_dump key n N0inv N RR tail : n = 63%nat -> length (key_n key) = S n -> length (key_rr key) = S n -> 0 <= N0inv < 2 ^ 32 ->
  read_rsa (Some key) (54 :: 52 :: 44 :: 48 :: 120 :: toString 16 N0inv ++ 44 :: 123 :: array_loop (S n) B32 N ++
    125 :: 44 :: 123 :: array_loop (S n) B32 RR ++ 125 :: 125 :: tail) =
  Ret (Some (mk_RSAPublicKey 64 N0inv (digits_of (S n) B32 N) (digits_of (S n) B32 RR) (key_exponent key), skip_spaces tail)).
Proof.
  intros Hn Hl1 Hl2 HN. rewrite !array_loop_S, <- !app_assoc. unfold read_rsa.
  rewrite (scan_rsa _ _ _ N0inv (N mod B32));
    [| apply toString_number; [by right | lia | apply ends_comma] | apply array_number; unfold B32; lia].
  rewrite bind_ret. cbv iota beta. change (negb (3 =? 3)) with false. cbv iota.
  change (i32 (stored _ 0)) with 64. change (stored _ 1) with (i32 N0inv). change (stored _ 2) with (i32 (N mod B32)).
  change (negb (64 =? RSANUMWORDS)) with false. cbv iota zeta. change (Z.to_nat (64 - 1)) with 63%nat. rewrite <- Hn.
  rewrite !u32_i32 by (try apply Z.mod_pos_bound; unfold B32; lia).
  rewrite (list_loop_array u32 B32) by (apply u32_i32 || unfold B32; lia). rewrite bind_ret. cbv iota beta.
  rewrite (scan_next_array _ _ (RR mod B32)) by (apply array_number; unfold B32; lia).
  rewrite bind_ret. cbv iota beta. change (negb (1 =? 1)) with false. cbv iota. change (stored _ 0) with (i32 (RR mod B32)).
  rewrite !u32_i32 by (apply Z.mod_pos_bound; unfold B32; lia).
  rewrite (list_loop_array u32 B32) by (apply u32_i32 || unfold B32; lia). rewrite bind_ret. cbv iota beta.
  rewrite scan_close, bind_ret. cbv iota beta. do 4 f_equal.
  - change 1 with (Z.of_nat 1). rewrite written_up by (rewrite length_wr; lia).
    cbn [digits_of]. destruct (key_n key); [done |]. done.
  - change 1 with (Z.of_nat 1). rewrite written_up by (rewrite length_wr; lia).
    cbn [digits_of]. destruct (key_rr key); [done |]. done.
Qed.

Lemma read_ec_dump x_junk y_junk key n x y tail : n = 31%nat -> length x_junk = S n -> length y_junk = S n ->
  read_ec x_junk y_junk (Some key) (51 :: 50 :: 44 :: 123 :: array_loop (S n) 256 x ++
    125 :: 44 :: 123 :: array_loop (S n) 256 y ++ 125 :: 125 :: tail) =
  Ret (Some (mk_ECPublicKey (p256_from_bin (rev (digits_of (S n) 256 x)) (ec_x key))
                            (p256_from_bin (rev (digits_of (S n) 256 y)) (ec_y key)), skip_spaces tail)).
Proof.
  intros Hn Hl1 Hl2. rewrite !array_loop_S, <- !app_assoc. unfold read_ec.
  rewrite (scan_ec _ _ (x mod 256)) by (apply array_number; lia).
  rewrite bind_ret. cbv iota beta. change (negb (2 =? 2)) with false. cbv iota.
  change (i32 (stored _ 0)) with 32. change (stored _ 1) with (i32 (x mod 256)).
  change (negb (32 =? P256_NBYTES)) with false. cbv iota zeta. rewrite <- Hn.
  rewrite u8_i32 by (apply Z.mod_pos_bound; lia).
  rewrite (list_loop_array u8 256) by (apply u8_i32 || lia). rewrite bind_ret. cbv iota beta.
  rewrite (scan_next_array _ _ (y mod 256)) by (apply array_number; lia).
  rewrite bind_ret. cbv iota beta. change (negb (1 =? 1)) with false. cbv iota. change (stored _ 0) with (i32 (y mod 256)).
  rewrite u8_i32 by (apply Z.mod_pos_bound; lia).
  rewrite (list_loop_array u8 256) by (apply u8_i32 || lia). rewrite bind_ret. cbv iota beta.
  rewrite scan_close, bind_ret. cbv iota beta.
  assert (W : forall z a, length a = S n -> written n (P256_NBYTES - 2) (-1) 256 (z / 256) (wr a (P256_NBYTES - 1) (z mod 256)) =
    rev (digits_of (S n) 256 z)).
  { intros z a Ha. replace (P256_NBYTES - 2) with (Z.of_nat n - 1) by (rewrite Hn; done).
    rewrite written_down by (rewrite length_wr; lia). cbn [digits_of rev]. f_equal.
    replace (P256_NBYTES - 1) with (Z.of_nat n) by (rewrite Hn; done). rewrite drop_wr by lia. by rewrite drop_ge by lia. }
  by rewrite !W.
Qed.

(** ** Keys *)

(** A loaded certificate holds the key it was printed from. *)
Definition loaded (sha256 : bool) (key : PublicKey) (c : Certificate) : Prop :=
  match key with
  | RSAKey e N => exists k,
      c = mk_Certificate (if sha256 then SHA256_DIGEST_SIZE else SHA_DIGEST_SIZE) RSA (Some k) None /\
      key_exponent k = e /\ dval (key_n k) = N /\ rsa_key_ok k
  | ECKey _ x y => exists k, c = mk_Certificate SHA256_DIGEST_SIZE EC None (Some k) /\
      p256_ok (ec_x k) /\ dval (ec_x k) = x /\ p256_ok (ec_y k) /\ dval (ec_y k) = y
  | OtherKey => False
  end.

Lemma bitLength_2048 N : bitLength N = 2048 -> 2 ^ 2047 <= N < 2 ^ 2048.
Proof.
  unfold bitLength. destruct (Z.leb_spec N 0); [discriminate |]. intros E. assert (Z.log2 N = 2047) as L by lia.
  apply Z.log2_spec in H. rewrite L in H. exact H.
Qed.

Lemma modInverse_spec N inv : modInverse N B32 = Some inv -> 0 < inv < B32 /\ (inv * N) mod B32 = 1.
Proof.
  unfold modInverse. destruct (Z.eqb_spec (Z.gcd N B32) 1) as [G|]; [|done]. intros [= <-].
  pose proof (Z.invmod_ok N B32) as H. rewrite G in H. change (1 mod B32) with 1 in H. split; [|done].
  assert (0 <= Z.invmod N B32 < B32) by (apply Z.mod_pos_bound; unfold B32; lia).
  destruct (Z.eq_dec (Z.invmod N B32) 0) as [E|]; [rewrite E in H; discriminate | lia].
Qed.

Lemma rsa_key_dump N inv e n : n = 63%nat -> bitLength N = 2048 -> modInverse N B32 = Some inv -> e = 3 \/ e = 65537 ->
  let k := mk_RSAPublicKey 64 (B32 - inv) (digits_of (S n) B32 N)
             (digits_of (S n) B32 ((2 ^ bitLength N * 2 ^ bitLength N) mod N)) e in
  rsa_key_ok k /\ dval (key_n k) = N.
Proof.
  intros Hn Hb Hi He k. apply bitLength_2048 in Hb as HN. destruct (modInverse_spec N inv Hi) as [Hinv Hm].
  assert (HNp : 0 < N) by (assert (0 < 2 ^ 2047) by (apply Z.pow_pos_nonneg; lia); lia).
  set (RR := (2 ^ bitLength N * 2 ^ bitLength N) mod N) in *.
  assert (HR : 0 <= RR < N) by (apply Z.mod_pos_bound; lia).
  assert (E32 : 32 * Z.of_nat (S n) = 2048) by (rewrite Hn; done).
  destruct (digits_of_words (S n) N) as [Hw Hv]. destruct (digits_of_words (S n) RR) as [Hrw Hrv].
  rewrite E32, Z.mod_small in Hv by lia. rewrite E32, Z.mod_small in Hrv by lia.
  assert (Hd : dval (key_n k) = N) by exact Hv.
  split; [|exact Hd]. split; [|split; [done | split; [rewrite Hd; apply HN | done]]].
  split; unfold k; cbn [key_len key_n key_rr key_n0inv].
  - rewrite digits_of_length, Hn. done.
  - lia.
  - exact Hw.
  - by rewrite !digits_of_length.
  - exact Hrw.
  - change (rd (digits_of (S n) B32 N) 0) with (N mod B32). rewrite Zmult_mod_idemp_r.
    replace ((B32 - inv) * N) with (B32 * N - inv * N) by ring. change (2 ^ 32) with B32.
    rewrite <- Zminus_mod_idemp_r, Hm. replace (B32 * N - 1) with (B32 - 1 + (N - 1) * B32) by ring. by rewrite Z.mod_add.
  - change B32 with (2 ^ 32). rewrite Hv, Hrv. unfold RR. rewrite Hb. change (32 * 64) with 2048.
    rewrite Z.pow_2_r. apply cong_mod. lia.
Qed.

Lemma alloc_true script : false ∉ script -> exists script', alloc script = Ret (true, script') /\ (false ∉ script').
Proof.
  intros H. destruct script as [|b s]; [by exists [] |]. destruct b; [|set_solver]. exists s. split; [done | set_solver].
Qed.

Lemma bindS_step {A B} (m : scriptM A) (k : A -> scriptM B) s a s' : m s = Ret (a, s') -> (m ≫= k) s = k a s'.
Proof. intros H. unfold mbind, scriptM_bind. by rewrite H. Qed.

Lemma liftS_ret {A} (m : outcome A) a s : m = Ret a -> liftS m s = Ret (a, s).
Proof. intros ->. reflexivity. Qed.

Section Round.
Context (junk : RSAPublicKey) (x_junk y_junk : bytes).
Context (Hn : length (key_n junk) = 64%nat) (Hrr : length (key_rr junk) = 64%nat).
Context (Hx : length x_junk = 32%nat) (Hy : length y_junk = 32%nat).

Definition fresh_rsa (e : Z) : RSAPublicKey := mk_RSAPublicKey (key_len junk) (key_n0inv junk) (key_n junk) (key_rr junk) e.

Lemma new_rsa_ok e h script : false ∉ script -> exists script', (false ∉ script') /\
  new_rsa junk e h script = Ret (mk_Certificate h RSA (Some (fresh_rsa e)) None, script').
Proof.
  intros H. destruct (alloc_true script H) as (s' & E & Hs'). exists s'. split; [done |]. unfold new_rsa.
  by rewrite (bindS_step _ _ _ _ _ E).
Qed.

(** An entry without a version. *)
Lemma start_key_1 ws rest script : ws = [] \/ ws = [10] -> false ∉ script -> exists script', (false ∉ script') /\
  start_key junk (ws ++ 123 :: rest) script = Ret (Some (mk_Certificate SHA_DIGEST_SIZE RSA (Some (fresh_rsa 3)) None, rest), script').
Proof.
  intros Hw Hs. destruct (new_rsa_ok 3 SHA_DIGEST_SIZE script Hs) as (s' & Hs' & E). exists s'. split; [done |]. unfold start_key.
  rewrite (bindS_step _ _ _ _ _ (liftS_ret _ _ script (scan_start ws 123 rest Hw eq_refl))). cbv iota beta.
  change (negb (1 =? 1)) with false. change (stored_char [AChars [123]] =? 123) with true. cbv iota zeta.
  by rewrite (bindS_step _ _ _ _ _ E).
Qed.

Definition version_key (v : Z) (c : Certificate) : Prop :=
  v = 2 /\ c = mk_Certificate SHA_DIGEST_SIZE RSA (Some (fresh_rsa 65537)) None \/
  v = 3 /\ c = mk_Certificate SHA256_DIGEST_SIZE RSA (Some (fresh_rsa 3)) None \/
  v = 4 /\ c = mk_Certificate SHA256_DIGEST_SIZE RSA (Some (fresh_rsa 65537)) None \/
  v = 5 /\ c = mk_Certificate SHA256_DIGEST_SIZE EC None (Some (mk_ECPublicKey (replicate 8 0) (replicate 8 0))).

(** An entry of a later version. *)
Lemma start_key_v v c ws rest script : version_key v c -> ws = [] \/ ws = [10] -> false ∉ script -> exists script', (false ∉ script') /\
  start_key junk (ws ++ 118 :: toString 10 v ++ 32 :: 123 :: rest) script = Ret (Some (c, rest), script').
Proof.
  intros Hv Hw Hs.
  assert (Hvr : 0 <= v < 2 ^ 63) by (unfold version_key in Hv; lia).
  pose proof (toString_number 10 v (32 :: 123 :: rest) ltac:(by left) Hvr (ends_space _)) as Hnum.
  assert (Hal : exists s', (false ∉ s') /\
    (ok ← alloc; if (ok : bool) then mret (Some (c, rest)) else throwS NullDeref) script = Ret (Some (c, rest), s')).
  { destruct (alloc_true script Hs) as (s' & Ea & Hs'). exists s'. split; [done |]. by rewrite (bindS_step _ _ _ _ _ Ea). }
  destruct Hal as (s' & Hs' & Ea). exists s'. split; [done |]. rewrite <- Ea. unfold start_key.
  rewrite (bindS_step _ _ _ _ _ (liftS_ret _ _ script (scan_start ws 118 _ Hw eq_refl))). cbv iota beta.
  change (negb (1 =? 1)) with false. change (stored_char [AChars [118]] =? 123) with false.
  change (stored_char [AChars [118]] =? 118) with true. cbv iota zeta.
  rewrite (bindS_step _ _ _ _ _ (liftS_ret _ _ script (scan_version _ _ _ Hnum))). cbv iota beta.
  destruct Hv as [[-> ->]|[[-> ->]|[[-> ->]|[-> ->]]]]; (destruct script as [|[] script]; [reflexivity.. | set_solver]).
Qed.

(** The coordinates of an EC key are elements of the field. *)
Definition coordinates_ok (key : PublicKey) : Prop :=
  match key with
  | ECKey _ x y => 0 <= x < 2 ^ 256 /\ 0 <= y < 2 ^ 256
  | _ => True
  end.

Lemma array_str n B x t : str ",{" ++ array_loop n B x ++ str "}" ++ t = 44 :: 123 :: array_loop n B x ++ 125 :: t.
Proof. reflexivity. Qed.

Lemma read_key_rsa c0 e h N inv ws s0 tail script :
  (forall rest script, false ∉ script -> exists script', (false ∉ script') /\
     start_key junk (ws ++ s0 ++ 123 :: rest) script = Ret (Some (c0, rest), script')) ->
  c0 = mk_Certificate h RSA (Some (fresh_rsa e)) None -> e = 3 \/ e = 65537 ->
  bitLength N = 2048 -> modInverse N B32 = Some inv -> false ∉ script ->
  exists script' k, (false ∉ script') /\ key_exponent k = e /\ dval (key_n k) = N /\ rsa_key_ok k /\
    read_key junk x_junk y_junk (ws ++ (s0 ++ str "{" ++ toString 10 (bitLength N / 32) ++ str ",0x" ++ toString 16 (B32 - inv) ++
      str ",{" ++ array_loop (Z.to_nat (bitLength N / 32)) B32 N ++ str "}" ++
      str ",{" ++ array_loop (Z.to_nat (bitLength N / 32)) B32 ((2 ^ bitLength N * 2 ^ bitLength N) mod N) ++ str "}" ++ str "}") ++ tail) script =
    Ret (Some (mk_Certificate h RSA (Some k) None, skip_spaces tail), script').
Proof.
  intros Hstart -> He HN Hinv Hs. pose proof (rsa_key_dump N inv e 63 eq_refl HN Hinv He) as Hk. cbv zeta in Hk.
  revert Hk. generalize ((2 ^ bitLength N * 2 ^ bitLength N) mod N). intros RR [Hk1 Hk2].
  rewrite HN. change (2048 / 32) with 64. change (toString 10 64) with [54; 52]. change (Z.to_nat 64) with 64%nat.
  rewrite <- !app_assoc, !array_str. change (str "{" ++ [54; 52] ++ str ",0x" ++ ?t) with (123 :: 54 :: 52 :: 44 :: 48 :: 120 :: t).
  change (str "}" ++ tail) with (125 :: tail).
  destruct (Hstart (54 :: 52 :: 44 :: 48 :: 120 :: toString 16 (B32 - inv) ++ 44 :: 123 :: array_loop 64 B32 N ++
    125 :: 44 :: 123 :: array_loop 64 B32 RR ++ 125 :: 125 :: tail) script Hs) as (s' & Hs' & E).
  eexists s', _. split; [done |]. split; [|split; [exact Hk2 | split; [exact Hk1 |]]]; [reflexivity |].
  unfold read_key. rewrite (bindS_step _ _ _ _ _ E). cbv iota beta. cbn [key_type Verifier.rsa].
  destruct (modInverse_spec N inv Hinv) as [Hi _]. 
  rewrite (bindS_step _ _ _ _ _ (liftS_ret _ _ s' (read_rsa_dump (fresh_rsa e) 63 (B32 - inv) N RR tail eq_refl Hn Hrr ltac:(unfold B32 in *; lia)))).
  reflexivity.
Qed.

Lemma ec_value x n d : n = 31%nat -> 0 <= x < 2 ^ 256 -> length d = 8%nat ->
  p256_ok (p256_from_bin (rev (digits_of (S n) 256 x)) d) /\ dval (p256_from_bin (rev (digits_of (S n) 256 x)) d) = x.
Proof.
  intros Hn' Hx' Hd. rewrite digits_of_bytes. fold (be_encode (S n) x). rewrite Hn'.
  destruct (from_bin_value (be_encode 32 x) d) as [H1 H2]; [apply be_encode_ok | apply be_encode_length | done |].
  split; [done |]. rewrite H2, be_decode_rev. unfold be_encode. rewrite rev_involutive. apply le_roundtrip. exact Hx'.
Qed.

Lemma read_key_ec x y ws tail script : 0 <= x < 2 ^ 256 -> 0 <= y < 2 ^ 256 -> ws = [] \/ ws = [10] -> false ∉ script ->
  exists script' k, (false ∉ script') /\ p256_ok (ec_x k) /\ dval (ec_x k) = x /\ p256_ok (ec_y k) /\ dval (ec_y k) = y /\
    read_key junk x_junk y_junk (ws ++ (str "v" ++ toString 10 5 ++ str " " ++ str "{" ++ toString 10 (256 / 8) ++
      str ",{" ++ array_loop (Z.to_nat (256 / 8)) 256 x ++ str "}" ++
      str ",{" ++ array_loop (Z.to_nat (256 / 8)) 256 y ++ str "}" ++ str "}") ++ tail) script =
    Ret (Some (mk_Certificate SHA256_DIGEST_SIZE EC None (Some k), skip_spaces tail), script').
Proof.
  intros Hxr Hyr Hw Hs. change (256 / 8) with 32. change (toString 10 32) with [51; 50]. change (Z.to_nat 32) with 32%nat.
  rewrite <- !app_assoc, !array_str. change (str "v" ++ ?t) with (118 :: t).
  change (str " " ++ str "{" ++ [51; 50] ++ ?t) with (32 :: 123 :: 51 :: 50 :: t). change (str "}" ++ tail) with (125 :: tail).
  set (body := 51 :: 50 :: _).
  destruct (start_key_v 5 _ ws body script ltac:(right; right; right; split; reflexivity) Hw Hs) as (s' & Hs' & E).
  destruct (ec_value x 31 (replicate 8 0) eq_refl Hxr eq_refl) as [X1 X2].
  destruct (ec_value y 31 (replicate 8 0) eq_refl Hyr eq_refl) as [Y1 Y2].
  eexists s', (mk_ECPublicKey _ _). split; [done |]. split; [exact X1 |]. split; [exact X2 |]. split; [exact Y1 |]. split; [exact Y2 |].
  unfold read_key. rewrite (bindS_step _ _ _ _ _ E). cbv iota beta. cbn [key_type Verifier.ec].
  rewrite (bindS_step _ _ _ _ _ (liftS_ret _ _ s' (read_ec_dump x_junk y_junk _ 31 x y tail eq_refl Hx Hy))).
  reflexivity.
Qed.

Lemma read_key_dump sha key s v ws tail script : check key sha = Some v -> print key sha = Some s -> coordinates_ok key ->
  ws = [] \/ ws = [10] -> false ∉ script ->
  exists script' c, (false ∉ script') /\ loaded sha key c /\
    read_key junk x_junk y_junk (ws ++ s ++ tail) script = Ret (Some (c, skip_spaces tail), script').
Proof.
  intros Hc Hp Hco Hw Hs. destruct key as [e N|size x y|]; [| |discriminate Hc].
  - cbn [check print] in *. unfold printRSA in Hp. cbn [check] in Hp. rewrite Hc in Hp. cbv beta iota zeta delta [mbind option_bind] in Hp.
    change 0x100000000 with B32 in Hp. destruct (modInverse N B32) as [inv|] eqn:Ei; [|done]. apply (inj Some) in Hp. subst s.
    unfold checkRSA in Hc.
    assert (HN : bitLength N = 2048).
    { destruct (Z.eqb_spec (bitLength N) 2048); [done |]. by destruct (e =? 3), (e =? 65537). }
    rewrite HN, Z.eqb_refl in Hc. simpl negb in Hc.
    assert (Hv : e = 3 /\ v = (if sha then 3 else 1) \/ e = 65537 /\ v = (if sha then 4 else 2)).
    { destruct (Z.eqb_spec e 3); [left; split; [done | by injection Hc as <-] |].
      destruct (Z.eqb_spec e 65537); [right; split; [done | by injection Hc as <-] | done]. }
    clear Hc. set (s0 := if 1 <? v then str "v" ++ toString 10 v ++ str " " else []).
    destruct (read_key_rsa (mk_Certificate (if sha then SHA256_DIGEST_SIZE else SHA_DIGEST_SIZE) RSA (Some (fresh_rsa e)) None)
      e (if sha then SHA256_DIGEST_SIZE else SHA_DIGEST_SIZE) N inv ws s0 tail script) as (s' & k & Hs' & K1 & K2 & K3 & E);
      [| done | lia | done | exact Ei | done |].
    + intros rest sc Hsc. unfold s0. destruct Hv as [[-> ->]|[-> ->]]; destruct sha.
      * destruct (start_key_v 3 _ ws rest sc ltac:(right; left; split; reflexivity) Hw Hsc) as (s' & ? & E); by exists s'.
      * destruct (start_key_1 ws rest sc Hw Hsc) as (s' & ? & E); by exists s'.
      * destruct (start_key_v 4 _ ws rest sc ltac:(right; right; left; split; reflexivity) Hw Hsc) as (s' & ? & E); by exists s'.
      * destruct (start_key_v 2 _ ws rest sc ltac:(left; split; reflexivity) Hw Hsc) as (s' & ? & E); by exists s'.
    + eexists s', _. split; [done |]. split; [exists k; split; [reflexivity | done] |]. exact E.
  - cbn [check print] in *. destruct sha; [|done]. unfold checkEC, printEC in *. unfold checkEC in Hp.
    destruct (Z.eqb_spec size 256) as [->|]; [|done]. cbv beta iota zeta delta [mbind option_bind negb] in Hp. apply (inj Some) in Hp. subst s. destruct Hco as [Hxr Hyr].
    destruct (read_key_ec x y ws tail script Hxr Hyr Hw Hs) as (s' & k & Hs' & K1 & K2 & K3 & K4 & E).
    eexists s', _. split; [done |]. split; [exists k; split; [reflexivity | done] |]. exact E.
Qed.

(** The certificate a key was loaded from. *)
Definition from_cert (cert : option (bytes * PublicKey)) (c : Certificate) : Prop :=
  exists sigAlg key sha256, cert = Some (sigAlg, key) /\ algorithm sigAlg = Some sha256 /\ loaded sha256 key c.

Definition cert_coordinates (cert : option (bytes * PublicKey)) : Prop :=
  match cert with
  | Some (_, key) => coordinates_ok key
  | None => True
  end.

Lemma dump_loop certs : forall acc out, main_loop certs acc = (0, out) -> Forall cert_coordinates certs ->
  exists text, out = acc ++ text /\ (certs = [] -> text = []) /\ (length certs <= length text)%nat /\
  forall ws fuel keys0 script, ws = [] \/ ws = [10] -> certs <> [] -> (length certs <= fuel)%nat -> false ∉ script ->
  exists script' keys, Forall2 from_cert certs keys /\
    keys_loop junk x_junk y_junk fuel keys0 (ws ++ text) script = Ret (Some (keys0 ++ keys), script').
Proof.
  induction certs as [|[[sigAlg key]|] certs IH]; intros acc out Hm Hco; [| | discriminate Hm].
  { injection Hm as <-. exists []. by rewrite app_nil_r. }
  apply Forall_cons in Hco as [Hco1 Hco]. cbn [main_loop] in Hm.
  destruct (algorithm sigAlg) as [sha|] eqn:Ea; [|discriminate Hm].
  destruct (check key sha) as [v|] eqn:Ec; [|discriminate Hm].
  destruct (print key sha) as [s|] eqn:Ep; [|discriminate Hm].
  destruct (IH _ _ Hm Hco) as (text & -> & Hnil & Hlen & Hload). clear IH Hm.
  set (sep := if (0 <? length certs)%nat then str "," else []) in *.
  exists (s ++ sep ++ [10] ++ text). split; [by rewrite <- !app_assoc |].
  split; [done |]. split; [rewrite !length_app; simpl; lia |]. intros ws fuel keys0 script Hw _ Hf Hs.
  destruct fuel as [|fuel]; [simpl in Hf; lia |]. simpl in Hf.
  destruct (alloc_true script Hs) as (s1 & E1 & Hs1).
  destruct (read_key_dump sha key s v ws (sep ++ [10] ++ text) s1 Ec Ep Hco1 Hw Hs1) as (s2 & c & Hs2 & Hc & E2).
  cbn [keys_loop]. rewrite (bindS_step _ _ _ _ _ E1). cbn [negb]. rewrite (bindS_step _ _ _ _ _ E2). cbv iota beta zeta.
  assert (Hfc : from_cert (Some (sigAlg, key)) c) by (exists sigAlg, key, sha; done).
  destruct certs as [|d certs].
  - rewrite (Hnil eq_refl).
    exists s2, [c]. split; [by repeat constructor |]. done.
  - destruct (Hload [10] fuel (keys0 ++ [c]) s2 ltac:(by right) ltac:(done) ltac:(lia) Hs2) as (s3 & keys & HF & E3).
    exists s3, (c :: keys). split; [by constructor |]. change (skip_spaces (sep ++ [10] ++ text)) with (44 :: 10 :: text).
    cbv iota. change (44 =? 44) with true. cbv iota. change (10 :: text) with ([10] ++ text). rewrite E3, <- app_assoc. done.
Qed.

Lemma dump_load certs out script : DumpPublicKey_main certs = (0, out) -> Forall cert_coordinates certs -> false ∉ script ->
  exists script' keys, Forall2 from_cert certs keys /\
    load_keys junk x_junk y_junk (Some out) script = Ret (Some keys, script').
Proof.
  unfold DumpPublicKey_main. destruct certs as [|d certs]; [done |]. change (length (d :: certs) <? 1)%nat with false. cbv iota.
  intros Hm Hco Hs. destruct (dump_loop _ _ _ Hm Hco) as (text & -> & _ & Hlen & Hload). simpl app.
  apply (Hload [] (S (length text)) [] script); [by left | done | lia | done].
Qed.
End Round.

Lemma loaded_cert_ok cert c : from_cert cert c -> cert_ok c.
Proof.
  intros (sigAlg & key & sha & -> & _ & H). destruct key as [e N|size x y|]; [| |done].
  - destruct H as (k & -> & _ & _ & Hk). intros _. by exists k.
  - destruct H as (k & -> & _). discriminate.
Qed.

(** ** Reading any file *)
Lemma fscanf_ret f fmt : 91 ∉ str fmt -> exists r args f', fscanf f fmt = Ret (r, args, f') /\ (length f' <= length f)%nat.
Proof.
  intros H. destruct (scan_loop_returns (length (str fmt)) (str fmt) (Scan f 0 0 []) ltac:(done) H) as [[[r args] f'] E].
  exists r, args, f'. split; [done |].
  destruct (scan_loop_prefix f r args f' _ _ (Scan f 0 0 []) ltac:(by exists []) E) as [p ->]. rewrite length_app. lia.
Qed.

(** A computation that ends, faults only on a null pointer, leaves at most [n]
    bytes of the file and a result that satisfies [P]. *)
Definition tame {A} (n : nat) (P : A -> Prop) (m : outcome (option (A * bytes))) : Prop :=
  match m with
  | Ret (Some (a, f)) => (length f <= n)%nat /\ P a
  | Ret None => True
  | Fault e => e = NullDeref
  | Diverge => False
  end.

Lemma tame_le {A} n n' (P : A -> Prop) m : (n <= n')%nat -> tame n P m -> tame n' P m.
Proof. intros H. unfold tame. repeat case_match; try done. intros [? ?]. split; [lia | done]. Qed.

Lemma tame_scan {A} n (P : A -> Prop) f fmt k : 91 ∉ str fmt -> (length f <= n)%nat ->
  (forall r args f', (length f' <= n)%nat -> tame n P (k (r, args, f'))) -> tame n P (fscanf f fmt ≫= k).
Proof. intros H Hl Hk. destruct (fscanf_ret f fmt H) as (r & args & f' & -> & Hl'). apply Hk. lia. Qed.

Lemma tame_bind {A B} n (P : A -> Prop) (Q : B -> Prop) m k : tame n P m ->
  tame n Q (k None) -> (forall a f, (length f <= n)%nat -> P a -> tame n Q (k (Some (a, f)))) -> tame n Q (m ≫= k).
Proof. intros H H1 H2. destruct m as [[[a f]|]|e|]; simpl in *; [destruct H; by apply H2 | done | done | done]. Qed.

(** Every format of [load_keys] is free of scan sets. *)
Ltac no_sets := apply (bool_decide_unpack _); vm_compute; exact I.

Lemma list_loop_up (R : Z -> Prop) conv n : (forall z, R (conv z)) -> forall i a f N, (length f <= N)%nat ->
  (length a = i + n)%nat -> Forall R (take i a) ->
  tame N (fun a' => length a' = length a /\ Forall R a') (list_loop n conv (Z.of_nat i) 1 a f).
Proof.
  intros HR. induction n as [|n IH]; intros i a f N Hf Hl Ht; cbn [list_loop].
  { split; [done |]. split; [done |]. by rewrite take_ge in Ht by lia. }
  apply tame_scan; [no_sets | done |]. intros r args f' Hf'. destruct (negb (r =? 1)); [done |].
  replace (Z.of_nat i + 1) with (Z.of_nat (S i)) by lia. rewrite <- (length_wr a (Z.of_nat i) (conv (stored args 0))).
  apply IH; [done | rewrite length_wr; lia |]. unfold wr. rewrite Nat2Z.id, take_insert_snoc by lia.
  apply Forall_app. split; [done | by constructor].
Qed.

Lemma list_loop_down (R : Z -> Prop) conv n : (forall z, R (conv z)) -> forall a f N, (length f <= N)%nat ->
  (n <= length a)%nat -> Forall R (drop n a) ->
  tame N (fun a' => length a' = length a /\ Forall R a') (list_loop n conv (Z.of_nat n - 1) (-1) a f).
Proof.
  intros HR. induction n as [|n IH]; intros a f N Hf Hl Ht; cbn [list_loop]; [by rewrite drop_0 in Ht |].
  apply tame_scan; [no_sets | done |]. intros r args f' Hf'. destruct (negb (r =? 1)); [done |].
  replace (Z.of_nat (S n) - 1) with (Z.of_nat n) by lia. replace (Z.of_nat n + -1) with (Z.of_nat n - 1) by lia.
  rewrite <- (length_wr a (Z.of_nat n) (conv (stored args 0))).
  apply IH; [done | rewrite length_wr; lia |]. rewrite drop_wr by lia. by constructor.
Qed.

(** ** The type of the keys *)
Definition rsa_typed (e : Z) (k : RSAPublicKey) : Prop :=
  key_len k = RSANUMWORDS /\ in_range 32 (key_n0inv k) /\ (length (key_n k) = 64%nat /\ words_ok (key_n k)) /\
  (length (key_rr k) = 64%nat /\ words_ok (key_rr k)) /\ key_exponent k = e.

Lemma read_rsa_typed rsa f : (forall key, rsa = Some key -> length (key_n key) = 64%nat /\ length (key_rr key) = 64%nat) ->
  tame (length f) (fun k => exists key, rsa = Some key /\ rsa_typed (key_exponent key) k) (read_rsa rsa f).
Proof.
  intros Hj. unfold read_rsa. apply tame_scan; [no_sets | done |]. intros r args f1 H1. destruct rsa as [key|].
  2: { by destruct (length args =? 0)%nat. }
  destruct (Hj key eq_refl) as [Hn Hrr]. destruct (negb (r =? 3)); [done |]. cbv zeta.
  destruct (Z.eqb_spec (i32 (stored args 0)) RSANUMWORDS) as [->|]; [|done]. simpl negb. cbv iota.
  change (Z.to_nat (RSANUMWORDS - 1)) with 63%nat. change 1 with (Z.of_nat 1).
  assert (H0 : forall (l : list Z) z, length l = 64%nat -> Forall (in_range 32) (take 1 (wr l 0 (u32 z)))).
  { intros l z Hl. destruct l; [done |]. simpl. constructor; [by apply wrap_range | constructor]. }
  eapply tame_bind; [apply (list_loop_up (in_range 32)); [intros; by apply wrap_range | done | rewrite length_wr; lia | by apply H0] | done |].
  intros n f2 H2 [Ln Wn]. rewrite length_wr in Ln.
  apply tame_scan; [no_sets | done |]. intros r2 args2 f3 H3. destruct (negb (r2 =? Z.of_nat 1)); [done |].
  eapply tame_bind; [apply (list_loop_up (in_range 32)); [intros; by apply wrap_range | done | rewrite length_wr; lia | by apply H0] | done |].
  intros rr f4 H4 [Lr Wr]. rewrite length_wr in Lr.
  apply tame_scan; [no_sets | done |]. intros r5 args5 f5 H5. split; [done |]. exists key. split; [done |].
  split; [done |]. split; [by apply wrap_range |]. split; [split; [cbn; lia | done] |]. split; [split; [cbn; lia | done] | done].
Qed.

Definition ec_typed (k : ECPublicKey) : Prop := p256_ok (ec_x k) /\ p256_ok (ec_y k).

Lemma read_ec_typed x_junk y_junk ec f : length x_junk = 32%nat -> length y_junk = 32%nat ->
  (forall key, ec = Some key -> length (ec_x key) = 8%nat /\ length (ec_y key) = 8%nat) ->
  tame (length f) ec_typed (read_ec x_junk y_junk ec f).
Proof.
  intros Lx Ly Hj. unfold read_ec. apply tame_scan; [no_sets | done |]. intros r args f1 H1.
  destruct (negb (r =? 2)); [done |]. cbv zeta. destruct (negb (i32 (stored args 0) =? P256_NBYTES)); [done |].
  assert (H0 : forall (l : list Z) z, length l = 32%nat -> Forall (in_range 8) (drop 31 (wr l 31 (u8 z)))).
  { intros l z Hl. change 31 with (Z.of_nat 31). rewrite drop_wr by lia. rewrite drop_ge by lia.
    constructor; [by apply wrap_range | constructor]. }
  change (P256_NBYTES - 2) with (Z.of_nat 31 - 1). change (P256_NBYTES - 1) with 31.
  eapply tame_bind; [apply (list_loop_down (in_range 8)); [intros; by apply wrap_range | done | rewrite length_wr; lia | by apply H0] | done |].
  intros x f2 H2 [Lx' Wx]. rewrite length_wr in Lx'.
  apply tame_scan; [no_sets | done |]. intros r2 args2 f3 H3. destruct (negb (r2 =? 1)); [done |].
  eapply tame_bind; [apply (list_loop_down (in_range 8)); [intros; by apply wrap_range | done | rewrite length_wr; lia | by apply H0] | done |].
  intros y f4 H4 [Ly' Wy]. rewrite length_wr in Ly'.
  apply tame_scan; [no_sets | done |]. intros r5 args5 f5 H5. destruct ec as [key|]; [|done]. destruct (Hj key eq_refl) as [J1 J2].
  split; [done |]. split; apply from_bin_value; (done || lia || congruence).
Qed.

(** A certificate as [verify_file] expects it. *)
Definition cert_typed (c : Certificate) : Prop :=
  (hash_len c = SHA_DIGEST_SIZE \/ hash_len c = SHA256_DIGEST_SIZE) /\
  match key_type c with
  | RSA => exists k, rsa c = Some k /\ (rsa_typed 3 k \/ rsa_typed 65537 k)
  | EC => exists k, ec c = Some k /\ ec_typed k
  end.

Definition tameS {A} (n : nat) (P : A -> Prop) (m : outcome (option (A * bytes) * list bool)) : Prop :=
  match m with
  | Ret (Some (a, f), _) => (length f <= n)%nat /\ P a
  | Ret (None, _) => True
  | Fault e => e = NullDeref
  | Diverge => False
  end.

Lemma scan_char f : fscanf f " %c" =
  match skip_spaces f with
  | [] => Ret (EOF, [], [])
  | c :: g => Ret (1, [AChars [c]], g)
  end.
Proof.
  open_format. rewrite scan_eat. unfold eat_spaces. cbn [s_in s_nread s_nassigned s_args].
  by destruct (skip_spaces f) as [|c g].
Qed.

Lemma skip_spaces_length f : (length (skip_spaces f) <= length f)%nat.
Proof. destruct (skip_spaces_suffix f) as [p E]. rewrite E at 2. rewrite length_app. lia. Qed.

Lemma alloc_cases script : exists b s', alloc script = Ret (b, s').
Proof. destruct script; by eexists _, _. Qed.

Section Typed.
Context (junk : RSAPublicKey) (x_junk y_junk : bytes).
Context (Hn : length (key_n junk) = 64%nat) (Hrr : length (key_rr junk) = 64%nat).
Context (Hx : length x_junk = 32%nat) (Hy : length y_junk = 32%nat).

(** What [start_key] leaves for the branches. *)
Definition started (c : Certificate) : Prop :=
  match key_type c with
  | RSA => match rsa c with
           | None => True
           | Some k => (hash_len c = SHA_DIGEST_SIZE \/ hash_len c = SHA256_DIGEST_SIZE) /\
                       (key_exponent k = 3 \/ key_exponent k = 65537) /\
                       length (key_n k) = 64%nat /\ length (key_rr k) = 64%nat
           end
  | EC => hash_len c = SHA256_DIGEST_SIZE /\
          forall k, ec c = Some k -> length (ec_x k) = 8%nat /\ length (ec_y k) = 8%nat
  end.

Lemma new_rsa_started e h f n script : e = 3 \/ e = 65537 -> h = SHA_DIGEST_SIZE \/ h = SHA256_DIGEST_SIZE -> (length f <= n)%nat ->
  tameS n started ((cert ← new_rsa junk e h; mret (Some (cert, f))) script).
Proof.
  intros He Hh Hf. unfold new_rsa, mbind, scriptM_bind. destruct (alloc_cases script) as (b & s' & ->). by destruct b.
Qed.

Lemma start_key_typed f n script : (length f <= S n)%nat -> tameS n started (start_key junk f script).
Proof.
  intros Hf. unfold start_key. pose proof (scan_char f) as E0. pose proof (skip_spaces_length f) as Hl.
  destruct (skip_spaces f) as [|c g]; rewrite (bindS_step _ _ _ _ _ (liftS_ret _ _ script E0)); cbv iota beta; [done |].
  cbn [length] in Hl. change (negb (1 =? 1)) with false. cbv iota zeta. change (stored_char [AChars [c]]) with c.
  destruct (c =? 123); [apply new_rsa_started; [by left | by left | lia] |].
  destruct (c =? 118); [|split; [lia | done]].
  destruct (fscanf_ret g "%d {" ltac:(no_sets)) as (r & args & g' & E & Hg).
  rewrite (bindS_step _ _ _ _ _ (liftS_ret _ _ script E)). cbv iota beta.
  destruct (negb (r =? 1)); [done |]. cbv zeta.
  destruct (i32 (stored args 0) =? 2); [apply new_rsa_started; (lia || by left || by right) |].
  destruct (i32 (stored args 0) =? 3); [apply new_rsa_started; (lia || by left || by right) |].
  destruct (i32 (stored args 0) =? 4); [apply new_rsa_started; (lia || by left || by right) |].
  destruct (i32 (stored args 0) =? 5); [|done].
  destruct (alloc_cases script) as (b & s' & Ea). rewrite (bindS_step _ _ _ _ _ Ea).
  split; [lia |]. split; [done |]. intros k. destruct b; [intros [= <-]; done | done].
Qed.

Lemma read_key_typed f n script : (length f <= S n)%nat -> tameS n cert_typed (read_key junk x_junk y_junk f script).
Proof.
  intros Hf. unfold read_key. pose proof (start_key_typed f n script Hf) as Hs.
  destruct (start_key junk f script) as [[[[c g]|] s']|e|] eqn:E; [|unfold mbind, scriptM_bind; by rewrite E..].
  destruct Hs as [Hg Hc]. rewrite (bindS_step _ _ _ _ _ E). cbv iota beta. unfold started in Hc.
  destruct (key_type c) eqn:Et.
  - pose proof (read_rsa_typed (rsa c) g) as Hr. destruct (rsa c) as [k0|] eqn:Ek; cycle 1.
    + specialize (Hr ltac:(done)). unfold liftS, mbind, scriptM_bind, outcome_bind.
      destruct (read_rsa None g) as [[[k h]|]|e|]; simpl in *; try done. destruct Hr as [_ (? & ? & _)]. done.
    + destruct Hc as (Hh & He & L1 & L2). specialize (Hr ltac:(by intros ? [= <-])). unfold liftS, mbind, scriptM_bind, outcome_bind.
      destruct (read_rsa (Some k0) g) as [[[k h]|]|e|]; simpl in *; try done.
      destruct Hr as [Hl (key & [= <-] & Hk)]. split; [lia |]. split; [done |]. simpl. exists k. split; [done |].
      by destruct He as [<- | <-]; [left | right].
  - destruct Hc as [Hh Hk]. pose proof (read_ec_typed x_junk y_junk (ec c) g Hx Hy Hk) as Hr. unfold liftS, mbind, scriptM_bind, outcome_bind.
    destruct (read_ec x_junk y_junk (ec c) g) as [[[k h]|]|e|]; simpl in *; try done.
    destruct Hr as [Hl Ht]. split; [lia |]. split; [by right |]. simpl. by exists k.
Qed.

Lemma keys_loop_typed fuel : forall out f script, (length f < fuel)%nat -> Forall cert_typed out ->
  match keys_loop junk x_junk y_junk fuel out f script with
  | Ret (Some keys, _) => Forall cert_typed keys /\ keys <> []
  | Ret (None, _) => True
  | Fault e => e = NullDeref
  | Diverge => False
  end.
Proof.
  induction fuel as [|fuel IH]; intros out f script Hf Ho; [lia |]. cbn [keys_loop].
  destruct (alloc_cases script) as (b & s1 & E1). rewrite (bindS_step _ _ _ _ _ E1). destruct b; [|done]. cbn [negb].
  destruct fuel as [|fuel].
  { destruct f; [|simpl in Hf; lia]. unfold read_key, start_key. unfold mbind, scriptM_bind, liftS. rewrite scan_char. done. }
  pose proof (read_key_typed f fuel s1 ltac:(lia)) as Hr.
  destruct (read_key junk x_junk y_junk f s1) as [[[[c g]|] s2]|e|] eqn:E; [|unfold mbind, scriptM_bind; by rewrite E..].
  destruct Hr as [Hg Hc]. rewrite (bindS_step _ _ _ _ _ E). cbv iota beta zeta.
  assert (Ho' : Forall cert_typed (out ++ [c])) by (apply Forall_app; split; [done | by constructor]).
  destruct g as [|x g]; [split; [done | by destruct out] |]. destruct (x =? 44); [|done]. apply IH; [simpl in Hg; lia | done].
Qed.
End Typed.

(** ** Examples *)
Definition ex_junk_key : RSAPublicKey := mk_RSAPublicKey 7 7 (replicate 64 7) (replicate 64 7) 7.

(** A P-256 key and an RSA key, as a keys file for both would name them. *)
Definition ex_certs : list (option (bytes * PublicKey)) :=
  [Some (str "SHA256withECDSA", ECKey 256 5 (2 ^ 255 + 3)); Some (str "SHA1withRSA", RSAKey 3 (2 ^ 2047 + 1))].

Lemma ex_certs_dump : exists out, DumpPublicKey_main ex_certs = (0, out).
Proof.
  exists (snd (DumpPublicKey_main ex_certs)). rewrite (surjective_pairing (DumpPublicKey_main ex_certs)) at 1.
  f_equal; vm_compute; reflexivity.
Qed.

Lemma ex_certs_coordinates : Forall cert_coordinates ex_certs.
Proof. repeat constructor; done. Qed.

(** ** Properties *)

(** C4. Round trip of the keys file: whatever list of certificates DumpPublicKey
    prints without an error, [load_keys] reads back as the same keys in the same
    order. An RSA key comes back with its modulus, its exponent, its digest, and
    with n0inv and rr as the Montgomery multiplication needs them; an EC key
    with its two coordinates. *)
Theorem load_keys_roundtrip junk x_junk y_junk certs out script :
  length (key_n junk) = 64%nat -> length (key_rr junk) = 64%nat -> length x_junk = 32%nat -> length y_junk = 32%nat ->
  DumpPublicKey_main certs = (0, out) -> Forall cert_coordinates certs -> false ∉ script ->
  exists script' keys, Forall2 from_cert certs keys /\
    load_keys junk x_junk y_junk (Some out) script = Ret (Some keys, script').
Proof. intros. by apply (dump_load junk x_junk y_junk). Qed.

Lemma load_keys_roundtrip_witness : exists out script' keys, DumpPublicKey_main ex_certs = (0, out) /\ Forall2 from_cert ex_certs keys /\
  load_keys ex_junk_key (replicate 32 7) (replicate 32 7) (Some out) [true] = Ret (Some keys, script').
Proof.
  destruct ex_certs_dump as [out E]. exists out.
  destruct (load_keys_roundtrip ex_junk_key (replicate 32 7) (replicate 32 7) ex_certs out [true]
    eq_refl eq_refl eq_refl eq_refl E ex_certs_coordinates ltac:(apply (bool_decide_unpack _); exact I)) as (s & keys & H1 & H2).
  by exists s, keys.
Defined.

(** C3. The update check as the recovery runs it: the keys of RSA certificates,
    dumped at build time and loaded from the file on the device, make
    [verify_file] accept exactly the packages that are valid for one of them. *)
Theorem verify_loaded_keys junk x_junk y_junk certs out script :
  length (key_n junk) = 64%nat -> length (key_rr junk) = 64%nat -> length x_junk = 32%nat -> length y_junk = 32%nat ->
  DumpPublicKey_main certs = (0, out) -> false ∉ script ->
  Forall (fun cert => exists sigAlg e N, cert = Some (sigAlg, RSAKey e N)) certs ->
  exists script' keys, load_keys junk x_junk y_junk (Some out) script = Ret (Some keys, script') /\
    Forall2 from_cert certs keys /\
    forall g fuel addr sc, garbage_ok g -> bytes_ok addr -> false ∉ sc -> sig_start addr <= Z.of_nat (length addr) ->
      verify_file g fuel addr keys sc = Ret (if package_valid addr keys then VERIFY_SUCCESS else VERIFY_FAILURE).
Proof.
  intros J1 J2 J3 J4 Hm Hs Hrsa.
  assert (Hco : Forall cert_coordinates certs).
  { eapply Forall_impl; [exact Hrsa |]. intros cert (? & ? & ? & ->). done. }
  destruct (dump_load junk x_junk y_junk J1 J2 J3 J4 certs out script Hm Hco Hs) as (s & keys & HF & E).
  exists s, keys. split; [done |]. split; [done |]. intros g fuel addr sc Hg Ha Hsc Hst. apply verify_file_rsa; try done.
  clear -HF Hrsa. induction HF as [|cert c certs keys Hc HF IH]; [constructor |].
  apply Forall_cons in Hrsa as [(? & ? & ? & ->) Hrsa]. constructor; [|by apply IH].
  split; [|by eapply loaded_cert_ok]. destruct Hc as (? & ? & ? & [= <- <-] & _ & (? & -> & _)). done.
Qed.

Lemma verify_loaded_keys_witness : exists out script' keys,
  load_keys ex_junk_key (replicate 32 7) (replicate 32 7) (Some out) [] = Ret (Some keys, script') /\
  verify_file vx_garbage 0%nat vx_package keys [] = Ret (if package_valid vx_package keys then VERIFY_SUCCESS else VERIFY_FAILURE).
Proof.
  destruct (DumpPublicKey_main [Some (str "SHA256withRSA", RSAKey 65537 (2 ^ 2047 + 1))]) as [st out] eqn:E.
  assert (Est : st = 0) by (apply (f_equal fst) in E; simpl fst in E; rewrite <- E; vm_compute; reflexivity). subst st. exists out.
  destruct (verify_loaded_keys ex_junk_key (replicate 32 7) (replicate 32 7) _ out [] eq_refl eq_refl eq_refl eq_refl E ltac:(apply (bool_decide_unpack _); exact I))
    as (s & keys & H1 & _ & H2); [by repeat econstructor |].
  exists s, keys. split; [exact H1 |].
  apply (H2 vx_garbage 0%nat vx_package [] vx_garbage_ok vx_package_ok); [set_solver | vm_compute; discriminate].
Defined.

(** C27. [load_keys] ends on every file, whichever allocations fail; the only
    fault it can have is the use of a null pointer; and when it returns keys,
    they are at least one, each with a digest size of 20 or 32, an RSA key of 64
    words in range with exponent 3 or 65537, or an EC key of two 256-bit numbers. *)
Theorem load_keys_typed junk x_junk y_junk file script :
  length (key_n junk) = 64%nat -> length (key_rr junk) = 64%nat -> length x_junk = 32%nat -> length y_junk = 32%nat ->
  match load_keys junk x_junk y_junk file script with
  | Ret (Some keys, _) => Forall cert_typed keys /\ keys <> []
  | Ret (None, _) => True
  | Fault e => e = NullDeref
  | Diverge => False
  end.
Proof.
  intros J1 J2 J3 J4. destruct file as [f|]; [|done]. apply (keys_loop_typed junk x_junk y_junk); (done || lia || constructor).
Qed.

Lemma load_keys_typed_witness :
  match load_keys ex_junk_key (replicate 32 7) (replicate 32 7) (Some (str "v5 {32,{1")) [] with
  | Ret (Some keys, _) => Forall cert_typed keys /\ keys <> []
  | Ret (None, _) => True
  | Fault e => e = NullDeref
  | Diverge => False
  end.
Proof. by apply load_keys_typed. Defined.

(** A keys file that starts with a character other than an opening brace and
    a [v], followed by a digit from 1 to 9, makes [load_keys] store that number
    through a null pointer. *)
Theorem load_keys_null_deref junk x_junk y_junk c d script : isspace c = false -> c <> 123 -> c <> 118 -> 49 <= d <= 57 ->
  false ∉ script -> load_keys junk x_junk y_junk (Some [c; d]) script = Fault NullDeref.
Proof.
  intros Hs H1 H2 Hd Hsc. cbn [load_keys length keys_loop]. destruct (alloc_true script Hsc) as (s' & E & _).
  rewrite (bindS_step _ _ _ _ _ E). cbn [negb]. unfold read_key.
  assert (E1 : start_key junk [c; d] s' = Ret (Some (mk_Certificate 0 RSA None None, [d]), s')).
  { unfold start_key. rewrite (bindS_step _ _ _ _ _ (liftS_ret _ _ s' (scan_start [] c [d] ltac:(by left) Hs))). cbv iota beta.
    change (negb (1 =? 1)) with false. change (stored_char [AChars [c]]) with c. cbv iota zeta.
    destruct (Z.eqb_spec c 123); [lia |]. by destruct (Z.eqb_spec c 118); [lia |]. }
  assert (E2 : read_rsa None [d] = Fault NullDeref).
  { unfold read_rsa. assert (d = 49 \/ d = 50 \/ d = 51 \/ d = 52 \/ d = 53 \/ d = 54 \/ d = 55 \/ d = 56 \/ d = 57) as Hc by lia.
    destruct_or! Hc; subst d; reflexivity. }
  unfold mbind, scriptM_bind. rewrite E1. cbn [key_type Verifier.rsa]. unfold liftS. rewrite E2. done.
Qed.

Lemma load_keys_null_deref_witness :
  load_keys ex_junk_key (replicate 32 7) (replicate 32 7) (Some (str "#1")) [] = Fault NullDeref.
Proof. apply load_keys_null_deref; (done || set_solver). Defined.
