(* ===== verification/AdbIo.v ===== *)
(** * Exact transfers and the sideload host of adb

    Models src/system/core/adb/adb_io.cpp and [adb_sideload_host] of
    src/system/core/adb/commandline.cpp. A connection has, at its other end, a
    peer that answers what it has received so far with what it has sent so far;
    reads and writes may be short or fail, as scripts say. *)

From S2P Require Import Prelude.
From S2P Require Import CString.
From S2P Require Import LoadKeys.

(** ** Connections

    [so_peer] gives, for everything this side has sent, everything the peer has
    sent, and whether it has closed its end. *)
Record socket := Socket {
  so_peer : bytes -> bytes * bool;
  so_tx : bytes;
  so_taken : nat;
  so_reads : list Z;
  so_writes : list Z
}.

(** [adb_read(fd, p, len)]: -1 for an error, 0 when the peer has closed, else
    the number of bytes read; it blocks while there is nothing to read. An entry
    of the script is a limit on the bytes of one call, negative for an error. *)
Definition adb_read (len : Z) (s : socket) : outcome (Z * bytes * socket) :=
  let '(limit, script) :=
    match so_reads s with
    | r :: rs => (r, rs)
    | [] => (len, [])
    end in
  if limit <? 0 then Ret (-1, [], Socket (so_peer s) (so_tx s) (so_taken s) script (so_writes s)) else
  let '(sent, closed) := so_peer s (so_tx s) in
  let available := drop (so_taken s) sent in
  if (length available =? 0)%nat then
    if closed then Ret (0, [], Socket (so_peer s) (so_tx s) (so_taken s) script (so_writes s)) else Diverge
  else
    let n := Z.to_nat (Z.max 1 (Z.min limit len)) in
    let data := take n available in
    Ret (Z.of_nat (length data), data, Socket (so_peer s) (so_tx s) (so_taken s + length data) script (so_writes s)).

(** [while (len > 0)]: what was read so far is returned with a failure too. *)
Fixpoint read_exactly_loop (fuel : nat) (len : Z) (got : bytes) (s : socket) : outcome (bool * bytes * socket) :=
  if len <=? 0 then Ret (true, got, s) else
  match fuel with
  | O => Diverge
  | S fuel' =>
      '(r, data, s) ← adb_read len s;
      if 0 <? r then read_exactly_loop fuel' (len - r) (got ++ data) s
      else Ret (false, got, s)
  end.

Definition ReadFdExactly (len : Z) (s : socket) : outcome (bool * bytes * socket) :=
  read_exactly_loop (Z.to_nat len) len [] s.

Definition EAGAIN : Z := 11.

(** [adb_write(fd, p, len)]. An entry [n >= 0] of the script accepts at most
    [n] bytes, [-EAGAIN] asks to try again, another negative one is an error.
    The loop of WriteFdExactly is structural in the script: at its end all
    bytes are accepted. *)
Fixpoint write_exactly_loop (script : list Z) (p tx : bytes) : bool * bytes * list Z :=
  match p with
  | [] => (true, tx, script)
  | _ =>
      match script with
      | [] => (true, tx ++ p, [])
      | r :: script' =>
          if r <? 0 then
            if r =? - EAGAIN then write_exactly_loop script' p tx else (false, tx, script')
          else
            let n := Z.to_nat r in
            write_exactly_loop script' (drop n p) (tx ++ take n p)
      end
  end.

Definition WriteFdExactly (buf : bytes) (s : socket) : bool * socket :=
  let '(ok, tx, script) := write_exactly_loop (so_writes s) buf (so_tx s) in
  (ok, Socket (so_peer s) tx (so_taken s) (so_reads s) script).

(** ["%08u"] and ["%04x"]: at least [n] digits. *)
Definition zero_padded (n : nat) (radix x : Z) : bytes :=
  let d := toString radix x in replicate (n - length d) 48 ++ d.

Definition SendProtocolString (str : bytes) (s : socket) : bool * socket :=
  let length := Z.of_nat (length str) in
  let length := if 0xffff <? length then 0xffff else length in
  let '(ok, s) := WriteFdExactly (zero_padded 4 16 length) s in
  if (ok : bool) then WriteFdExactly str s else (false, s).

Definition SendOkay (s : socket) : bool * socket := WriteFdExactly (str "OKAY") s.

Definition SendFail (reason : bytes) (s : socket) : bool * socket :=
  let '(ok, s) := WriteFdExactly (str "FAIL") s in
  if (ok : bool) then SendProtocolString reason s else (false, s).

(** ** adb sideload *)
Definition CHUNK_SIZE : Z := 64 * 1024.
Definition SIDELOAD_HOST_BLOCK_SIZE : Z := CHUNK_SIZE.

(** ["%d"] *)
Definition print_d (x : Z) : bytes := if i32 x <? 0 then str "-" ++ toString 10 (- i32 x) else toString 10 (i32 x).

(** The service the host asks for. *)
Definition sideload_service (sz : Z) : bytes :=
  str "sideload-host:" ++ print_d sz ++ str ":" ++ print_d SIDELOAD_HOST_BLOCK_SIZE.

(** The loop of the host: what it sends for the commands it has received, and
    whether it has closed the connection; it waits for the rest of a command.
    [data] is the file, of [sz] bytes, [sz] an unsigned int. *)
Fixpoint host_loop (fuel : nat) (data commands : bytes) : bytes * bool :=
  match fuel with
  | O => ([], false)
  | S fuel' =>
      if (length commands <? 8)%nat then ([], false) else
      let buf := take 8 commands in
      if bool_decide (buf = str "DONEDONE") then ([], true) else
      let sz := Z.of_nat (length data) in
      let block := i32 (strtol buf 10) in
      let offset := u64 (i32 (block * SIDELOAD_HOST_BLOCK_SIZE)) in
      if sz <=? offset then ([], true) else
      let offset_end := u64 (offset + SIDELOAD_HOST_BLOCK_SIZE) in
      let to_write := if sz <? offset_end then sz - offset else SIDELOAD_HOST_BLOCK_SIZE in
      let '(more, closed) := host_loop fuel' data (drop 8 commands) in
      (take (Z.to_nat to_write) (drop (Z.to_nat offset) data) ++ more, closed)
  end.

(** Every command has eight bytes. *)
Definition adb_sideload_host (data commands : bytes) : bytes * bool := host_loop (S (length commands)) data commands.
