(* ===== verification/FuseSideload.v ===== *)
(** * The sideload filesystem of the recovery

    Models src/bootable/recovery/fuse_sideload.c, the FUSE server through which
    the recovery reads a package that stays on the host or on the sdcard, and
    its two providers, minadbd/fuse_adb_provider.cpp with
    [sideload_host_service] of minadbd/services.cpp, and
    fuse_sdcard_provider.c. A request is what the kernel hands over; a reply
    is what is written back. *)

From S2P Require Import Prelude.
From S2P Require Import Limbs.
From S2P Require Import Sha.
From S2P Require Import CString.
From S2P Require Import Scanf.
From S2P Require Import LoadKeys.
From S2P Require Import AdbIo.

Definition EPERM : Z := 1.
Definition ENOENT : Z := 2.
Definition EIO : Z := 5.
Definition ENODEV : Z := 19.
Definition ENOSYS : Z := 38.

Definition FUSE_KERNEL_VERSION : Z := 7.
Definition FUSE_KERNEL_MINOR_VERSION : Z := 23.
Definition FUSE_COMPAT_22_INIT_OUT_SIZE : Z := 24.
Definition FUSE_INIT_OUT_SIZE : Z := 64.
Definition FUSE_ROOT_ID : Z := 1.
Definition PACKAGE_FILE_ID : Z := FUSE_ROOT_ID + 1.
Definition EXIT_FLAG_ID : Z := FUSE_ROOT_ID + 2.
Definition NO_STATUS : Z := 1.
Definition NO_STATUS_EXIT : Z := 2.

(** [struct provider_vtab]: [read_block] gets the bytes of the buffer it may
    write and returns its status and what they hold afterwards. *)
Record provider (C : Type) := Provider {
  read_block : C -> Z -> bytes -> outcome (Z * bytes * C)
}.
Arguments Provider {C} read_block.
Arguments read_block {C}.

(** The fields of a reply to stat. *)
Record fuse_attr := Attr {
  at_ino : Z;
  at_size : Z;
  at_blocks : Z;
  at_mode : Z;
  at_blksize : Z
}.

Inductive reply :=
  | RError (code : Z)
  | RInit (minor size max_readahead : Z)
  | RAttr (a : fuse_attr)
  | REntry (nodeid : Z) (a : fuse_attr)
  | ROpen (fh : Z)
  | RData (data : bytes).

(** The requests the server tells apart; the number of any other opcode. *)
Inductive request :=
  | QInit (major minor max_readahead : Z)
  | QLookup (name : bytes)
  | QGetattr (nodeid : Z)
  | QOpen (nodeid : Z)
  | QRead (nodeid offset size : Z)
  | QFlush
  | QRelease
  | QOther (opcode : Z).

Definition S_IFDIR : Z := 0x4000.
Definition S_IFREG : Z := 0x8000.

Section Server.
Context {C : Type} (vtab : provider C) (ctx0 : HASH_CTX).

Record fuse_data := FuseData {
  cookie : C;
  file_size : Z;
  block_size : Z;
  file_blocks : Z;
  curr_block : Z;
  block_data : bytes;
  extra_block : bytes;
  hashes : bytes
}.

Definition set_block (fd : fuse_data) (c : C) (curr : Z) (data : bytes) : fuse_data :=
  FuseData c (file_size fd) (block_size fd) (file_blocks fd) curr data (extra_block fd) (hashes fd).

Definition set_extra (fd : fuse_data) (extra : bytes) : fuse_data :=
  FuseData (cookie fd) (file_size fd) (block_size fd) (file_blocks fd) (curr_block fd) (block_data fd) extra (hashes fd).

Definition set_hashes (fd : fuse_data) (h : bytes) : fuse_data :=
  FuseData (cookie fd) (file_size fd) (block_size fd) (file_blocks fd) (curr_block fd) (block_data fd) (extra_block fd) h.

Definition fill_attr (nodeid size mode : Z) : fuse_attr :=
  Attr nodeid size (if size =? 0 then 0 else u64 (size - 1) / 4096 + 1) mode 4096.

(** [memset(buf + off, 0, n)] *)
Definition zero_from (buf : bytes) (off n : Z) : outcome bytes :=
  if (0 <=? off) && (0 <=? n) && (off + n <=? Z.of_nat (length buf))
  then Ret (take (Z.to_nat off) buf ++ replicate (Z.to_nat n) 0 ++ drop (Z.to_nat (off + n)) buf)
  else Fault OutOfBounds.

Definition handle_init (major minor max_readahead : Z) : Z * list reply :=
  if negb (major =? FUSE_KERNEL_VERSION) || (minor <? 6) then (-1, []) else
  let out_minor := Z.min minor FUSE_KERNEL_MINOR_VERSION in
  let fuse_struct_size := if minor <=? 22 then FUSE_COMPAT_22_INIT_OUT_SIZE else FUSE_INIT_OUT_SIZE in
  (NO_STATUS, [RInit out_minor fuse_struct_size max_readahead]).

Definition handle_getattr (fd : fuse_data) (nodeid : Z) : Z * list reply :=
  let ok := if nodeid =? EXIT_FLAG_ID then NO_STATUS_EXIT else NO_STATUS in
  if nodeid =? FUSE_ROOT_ID then (ok, [RAttr (fill_attr nodeid 4096 (Z.lor S_IFDIR 0x16d))])
  else if nodeid =? PACKAGE_FILE_ID then (ok, [RAttr (fill_attr PACKAGE_FILE_ID (file_size fd) (Z.lor S_IFREG 0x124))])
  else if nodeid =? EXIT_FLAG_ID then (ok, [RAttr (fill_attr EXIT_FLAG_ID 0 S_IFREG)])
  else (- ENOENT, []).

(** The name is compared with its terminator. *)
Definition handle_lookup (fd : fuse_data) (name : bytes) : Z * list reply :=
  if bool_decide (cstring name = str "package.zip") then
    (NO_STATUS, [REntry PACKAGE_FILE_ID (fill_attr PACKAGE_FILE_ID (file_size fd) (Z.lor S_IFREG 0x124))])
  else if bool_decide (cstring name = str "exit") then
    (NO_STATUS_EXIT, [REntry EXIT_FLAG_ID (fill_attr EXIT_FLAG_ID 0 S_IFREG)])
  else (- ENOENT, []).

Definition handle_open (nodeid : Z) : Z * list reply :=
  if nodeid =? EXIT_FLAG_ID then (- EPERM, [])
  else if negb (nodeid =? PACKAGE_FILE_ID) then (- ENOENT, [])
  else (NO_STATUS, [ROpen 10]).

(** The second half of [fetch_block]: the digest of the block just read against
    the one on record. *)
Definition verify_block (fd : fuse_data) (block : Z) : outcome (Z * fuse_data) :=
  whole ← sub_bytes (block_data fd) 0 (block_size fd);
  hash ← SHA256_hash ctx0 whole;
  let off := u32 (block * SHA256_DIGEST_SIZE) in
  blockhash ← sub_bytes (hashes fd) off SHA256_DIGEST_SIZE;
  if bool_decide (hash = blockhash) then Ret (0, fd)
  else if existsb (fun b => negb (b =? 0)) blockhash then
    Ret (- EIO, set_block fd (cookie fd) (u32 (-1)) (block_data fd))
  else
    Ret (0, set_hashes fd (take (Z.to_nat off) (hashes fd) ++ hash ++ drop (Z.to_nat (off + SHA256_DIGEST_SIZE)) (hashes fd))).

(** The status and the state after it. [block * block_size] is a product of
    two 32-bit numbers. *)
Definition fetch_block (fd : fuse_data) (block : Z) : outcome (Z * fuse_data) :=
  if block =? curr_block fd then Ret (0, fd) else
  if file_blocks fd <=? block then
    data ← zero_from (block_data fd) 0 (block_size fd);
    Ret (0, set_block fd (cookie fd) block data)
  else
    let start := u32 (block * block_size fd) in
    '(fetch_size, data) ←
      (if file_size fd <? u64 (start + block_size fd) then
         let fetch_size := u64 (file_size fd - start) in
         data ← zero_from (block_data fd) fetch_size (block_size fd - fetch_size);
         Ret (fetch_size, data)
       else Ret (block_size fd, block_data fd));
    '(result, got, c) ← read_block vtab (cookie fd) block (take (Z.to_nat (u32 fetch_size)) data);
    let data := got ++ drop (Z.to_nat (u32 fetch_size)) data in
    if result <? 0 then Ret (result, set_block fd c (curr_block fd) data) else
    verify_block (set_block fd c block data) block.

Definition handle_read (fd : fuse_data) (nodeid offset size : Z) : outcome (Z * list reply * fuse_data) :=
  if negb (nodeid =? PACKAGE_FILE_ID) then Ret (- ENOENT, [], fd) else
  let block := u32 (offset / block_size fd) in
  '(result, fd) ← fetch_block fd block;
  if negb (result =? 0) then Ret (result, [], fd) else
  let block_offset := u32 (offset - u32 (block * block_size fd)) in
  if u32 (size + block_offset) <=? block_size fd then
    v1 ← sub_bytes (block_data fd) block_offset size;
    Ret (NO_STATUS, [RData v1], fd)
  else
    let n := u32 (block_size fd - block_offset) in
    v1 ← sub_bytes (block_data fd) block_offset n;
    if Z.of_nat (length (extra_block fd)) <? n then Fault OutOfBounds else
    let fd := set_extra fd (v1 ++ drop (Z.to_nat n) (extra_block fd)) in
    '(result, fd) ← fetch_block fd (u32 (block + 1));
    if negb (result =? 0) then Ret (result, [], fd) else
    v1 ← sub_bytes (extra_block fd) 0 n;
    v2 ← sub_bytes (block_data fd) 0 (u64 (size - n));
    Ret (NO_STATUS, [RData (v1 ++ v2)], fd).

Definition handle (fd : fuse_data) (q : request) : outcome (Z * list reply * fuse_data) :=
  match q with
  | QInit major minor ra => let '(r, out) := handle_init major minor ra in Ret (r, out, fd)
  | QLookup name => let '(r, out) := handle_lookup fd name in Ret (r, out, fd)
  | QGetattr nodeid => let '(r, out) := handle_getattr fd nodeid in Ret (r, out, fd)
  | QOpen nodeid => let '(r, out) := handle_open nodeid in Ret (r, out, fd)
  | QRead nodeid offset size => handle_read fd nodeid offset size
  | QFlush | QRelease => Ret (0, [], fd)
  | QOther _ => Ret (- ENOSYS, [], fd)
  end.

(** What reading the device gives: a request, a message that is too short, or
    an error. *)
Inductive event :=
  | Request (q : request)
  | TooShort
  | ReadFailed (errno : Z).

(** How the loop of [run_fuse_sideload] ends: on the exit flag, on ENODEV, or
    not yet, when there are no more requests. *)
Inductive ending :=
  | Exited
  | DeviceGone
  | Waiting.

Fixpoint serve (events : list event) (fd : fuse_data) : outcome (ending * list (list reply) * fuse_data) :=
  match events with
  | [] => Ret (Waiting, [], fd)
  | TooShort :: events' => serve events' fd
  | ReadFailed errno :: events' => if errno =? ENODEV then Ret (DeviceGone, [], fd) else serve events' fd
  | Request q :: events' =>
      '(result, out, fd) ← handle fd q;
      if result =? NO_STATUS_EXIT then Ret (Exited, [out], fd) else
      let out := if negb (result =? NO_STATUS) then out ++ [RError result] else out in
      '(e, outs, fd) ← serve events' fd;
      Ret (e, out :: outs, fd)
  end.

(** The setup, up to the mount; [None] when it refuses or an allocation fails.
    The result of the function is the one of umount2 in every case but the two
    first ones. *)
Definition run_fuse_sideload (c : C) (size bs : Z) (allocs : bool) (junk junk' : bytes) : option fuse_data :=
  if bs <? 1024 then None
  else if Z.shiftl 1 22 <? bs then None
  else
    let blocks := u32 (if size =? 0 then 0 else u64 (size - 1) / bs + 1) in
    if Z.shiftl 1 18 <? blocks then None
    else if negb allocs then None
    else Some (FuseData c size bs blocks (u32 (-1)) (take (Z.to_nat bs) junk) (take (Z.to_nat bs) junk')
                 (replicate (Z.to_nat (blocks * SHA256_DIGEST_SIZE)) 0)).

End Server.
Arguments fuse_data C : clear implicits.

(** ** The adb provider *)
Definition read_block_adb (s : socket) (block : Z) (buffer : bytes) : outcome (Z * bytes * socket) :=
  let '(ok, s) := WriteFdExactly (zero_padded 8 10 block) s in
  if negb ok then Ret (- EIO, buffer, s) else
  '(ok, got, s) ← ReadFdExactly (Z.of_nat (length buffer)) s;
  let buffer := got ++ drop (length got) buffer in
  Ret (if (ok : bool) then 0 else - EIO, buffer, s).

Definition close_adb (s : socket) : socket := snd (WriteFdExactly (str "DONEDONE") s).

Definition adb_provider : provider socket := Provider read_block_adb.

(** [sscanf(args, "%d:%d", &file_size, &block_size) != 2]; [None] is the exit.
    The int is converted to uint64_t for [run_adb_fuse]. *)
Definition sideload_host_service (args : bytes) : outcome (option (Z * Z)) :=
  '(r, vals, _) ← fscanf args "%d:%d";
  if negb (r =? 2) then Ret None
  else Ret (Some (u64 (i32 (stored vals 0)), u32 (i32 (stored vals 1)))).

(** ** The sdcard provider

    A file and the script of its reads: an entry is a limit on the bytes of one
    call, negative for an error. *)
Record file_data := FileData {
  fl_content : bytes;
  fl_block_size : Z;
  fl_seek_ok : bool;
  fl_reads : list Z
}.

(** [while (fetch_size > 0)]; a read at the end of the file returns 0. *)
Fixpoint read_file_loop (fuel : nat) (fetch_size : Z) (pos : nat) (content got : bytes) (script : list Z) :
    outcome (Z * bytes * list Z) :=
  if fetch_size <=? 0 then Ret (0, got, script) else
  match fuel with
  | O => Diverge
  | S fuel' =>
      let '(limit, script) :=
        match script with
        | r :: rs => (r, rs)
        | [] => (fetch_size, [])
        end in
      if limit <? 0 then Ret (- EIO, got, script) else
      let data := take (Z.to_nat (Z.max 1 (Z.min limit fetch_size))) (drop pos content) in
      read_file_loop fuel' (fetch_size - Z.of_nat (length data)) (pos + length data) content (got ++ data) script
  end.

Definition read_block_file (fuel : nat) (f : file_data) (block : Z) (buffer : bytes) : outcome (Z * bytes * file_data) :=
  let offset := block * fl_block_size f in
  if negb (fl_seek_ok f) then Ret (- EIO, buffer, f) else
  '(r, got, script) ← read_file_loop fuel (Z.of_nat (length buffer)) (Z.to_nat offset) (fl_content f) [] (fl_reads f);
  Ret (r, got ++ drop (length got) buffer, FileData (fl_content f) (fl_block_size f) (fl_seek_ok f) script).

Definition sdcard_provider (fuel : nat) : provider file_data := Provider (read_block_file fuel).
