(* ===== verification/SideloadSpec.v ===== *)
(** * The sideload filesystem: what a package read through it is

    Against the interface of a provider: the server stays inside its buffers;
    with a provider that serves a package it returns the bytes of the package;
    with any provider that leaves the buffer alone when it fails, a block read
    twice has the same digest both times. The adb connection and the sdcard
    discharge the interface; a failure in the middle of a block breaks it. *)

From S2P Require Import Prelude.
From S2P Require Import Limbs.
From S2P Require Import Sha.
From S2P Require Import ShaSpec.
From S2P Require Import CString.
From S2P Require Import Strto.
From S2P Require Import Scanf.
From S2P Require Import ScanfText.
From S2P Require Import ScanfSpec.
From S2P Require Import LoadKeys.
From S2P Require Import LoadKeysSpec.
From S2P Require Import AdbIo.
From S2P Require Import FuseSideload.

(** ** Files seen as endless zero-padded sequences *)
Definition extent (pkg : bytes) (off n : nat) : bytes := take n (drop off pkg ++ replicate n 0).

Lemma extent_length pkg off n : length (extent pkg off n) = n.
Proof. unfold extent. rewrite length_take, length_app, length_replicate. lia. Qed.

Lemma extent_lookup pkg off n i : (i < n)%nat -> extent pkg off n !! i = Some (default 0 (pkg !! (off + i)%nat)).
Proof.
  intros Hi. unfold extent. rewrite lookup_take_lt by done.
  destruct (decide (off + i < length pkg)%nat) as [H|H].
  - rewrite lookup_app_l by (rewrite length_drop; lia). rewrite lookup_drop.
    destruct (lookup_lt_is_Some_2 pkg (off + i) H) as [x ->]. done.
  - rewrite lookup_app_r by (rewrite length_drop; lia). rewrite length_drop.
    rewrite lookup_replicate_2 by lia. rewrite (lookup_ge_None_2 pkg) by lia. done.
Qed.

(** Two lists of the same length that agree at every index. *)
Lemma list_eq_extent (l : bytes) pkg off n : length l = n ->
  (forall i, (i < n)%nat -> l !! i = Some (default 0 (pkg !! (off + i)%nat))) -> l = extent pkg off n.
Proof.
  intros Hl H. apply list_eq. intros i. destruct (decide (i < n)%nat) as [Hi|Hi].
  - by rewrite H, extent_lookup.
  - rewrite !lookup_ge_None_2; [done | rewrite extent_length; lia | lia].
Qed.

Lemma extent_sub pkg off n o k : (o + k <= n)%nat -> take k (drop o (extent pkg off n)) = extent pkg (off + o) k.
Proof.
  intros H. apply list_eq_extent; [rewrite length_take, length_drop, extent_length; lia |].
  intros i Hi. rewrite lookup_take_lt, lookup_drop, extent_lookup by lia. by rewrite Nat.add_assoc.
Qed.

Lemma extent_app pkg off n k : extent pkg off n ++ extent pkg (off + n) k = extent pkg off (n + k).
Proof.
  apply list_eq_extent; [by rewrite length_app, !extent_length |]. intros i Hi. destruct (decide (i < n)%nat).
  - rewrite lookup_app_l by (rewrite extent_length; lia). by rewrite extent_lookup.
  - rewrite lookup_app_r by (rewrite extent_length; lia). rewrite extent_length, extent_lookup by lia. do 3 f_equal. lia.
Qed.

Lemma extent_past pkg off n : (length pkg <= off)%nat -> extent pkg off n = replicate n 0.
Proof. intros H. unfold extent. rewrite drop_ge by done. simpl. by rewrite take_ge by (rewrite length_replicate; lia). Qed.

Lemma extent_ok pkg off n : bytes_ok pkg -> bytes_ok (extent pkg off n).
Proof.
  intros H. unfold extent. apply Forall_take, Forall_app. split; [by apply Forall_drop |]. apply Forall_replicate. done.
Qed.

Lemma extent_full pkg : extent pkg 0 (length pkg) = pkg.
Proof. unfold extent. rewrite drop_0. by rewrite take_app_length. Qed.

(** ** Providers *)

(** A provider that may send any bytes, but reports no failure. *)
Class Responds {C} (vtab : provider C) (inv : C -> Prop) : Prop := {
  rs_returns : forall c block buf, inv c -> bytes_ok buf -> exists r got c',
    read_block vtab c block buf = Ret (r, got, c') /\ 0 <= r /\ length got = length buf /\ bytes_ok got /\ inv c'
}.

(** A provider of a package in blocks of [bs] bytes. *)
Class Serves {C} (vtab : provider C) (inv : C -> Prop) (pkg : bytes) (bs : Z) : Prop := {
  sv_reads : forall c block buf, inv c -> 0 <= block -> block * bs < Z.of_nat (length pkg) ->
    Z.of_nat (length buf) = Z.min bs (Z.of_nat (length pkg) - block * bs) ->
    exists c', read_block vtab c block buf = Ret (0, extent pkg (Z.to_nat (block * bs)) (length buf), c') /\ inv c'
}.

(** ** Buffers *)
Lemma zero_from_ok buf off n : 0 <= off -> 0 <= n -> off + n = Z.of_nat (length buf) ->
  zero_from buf off n = Ret (take (Z.to_nat off) buf ++ replicate (Z.to_nat n) 0).
Proof.
  intros H1 H2 H3. unfold zero_from. destruct (Z.leb_spec 0 off), (Z.leb_spec 0 n), (Z.leb_spec (off + n) (Z.of_nat (length buf))); try lia.
  simpl. by rewrite drop_ge, app_nil_r by lia.
Qed.

(** The digest stored for a block. *)
Definition hash_at (h : bytes) (b : Z) : bytes := take 32 (drop (Z.to_nat (32 * b)) h).

Definition no_hash : bytes := replicate 32 0.

Lemma existsb_nonzero (l : bytes) : existsb (fun b => negb (b =? 0)) l = negb (bool_decide (l = replicate (length l) 0)).
Proof.
  induction l as [|x l IH]; simpl; [done |]. rewrite IH. destruct (Z.eqb_spec x 0) as [->|Hx]; simpl.
  - f_equal. apply bool_decide_ext. split; congruence.
  - symmetry. apply negb_true_iff, bool_decide_eq_false. by intros [=].
Qed.

Lemma hash_at_length h b n : length h = Z.to_nat (32 * n) -> 0 <= b < n -> length (hash_at h b) = 32%nat.
Proof. intros Hl Hb. unfold hash_at. rewrite length_take, length_drop. lia. Qed.

(** Storing a digest changes the one of its block only. *)
Lemma hash_at_store h b d n : length h = Z.to_nat (32 * n) -> 0 <= b < n -> length d = 32%nat ->
  let h' := take (Z.to_nat (32 * b)) h ++ d ++ drop (Z.to_nat (32 * b + 32)) h in
  length h' = length h /\ hash_at h' b = d /\ forall b', 0 <= b' < n -> b' <> b -> hash_at h' b' = hash_at h b'.
Proof.
  intros Hl Hb Hd h'. assert (Hlt : length (take (Z.to_nat (32 * b)) h) = Z.to_nat (32 * b)) by (rewrite length_take; lia).
  split; [|split].
  - unfold h'. rewrite !length_app, Hlt, length_drop, Hd. lia.
  - unfold hash_at, h'. rewrite drop_app_length' by lia. by rewrite take_app_length' by lia.
  - intros b' Hb' Hne. unfold hash_at. apply list_eq. intros i. destruct (decide (i < 32)%nat) as [Hi|Hi].
    + rewrite !lookup_take_lt, !lookup_drop by done. unfold h'. destruct (decide (b' < b)) as [Hlt'|Hge].
      * rewrite lookup_app_l by lia. by rewrite lookup_take_lt by lia.
      * rewrite lookup_app_r by lia. rewrite lookup_app_r by lia. rewrite lookup_drop. f_equal. lia.
    + rewrite !lookup_ge_None_2; [done | rewrite length_take; lia..].
Qed.

(** ** A provider that serves a package *)
Section Honest.
Context {C : Type} (vtab : provider C) (inv : C -> Prop) (pkg : bytes) (bs : Z).
Context {HS : Serves vtab inv pkg bs}.
Context (ctx0 : HASH_CTX) (Hctx : ctx_shape ctx0) (Hpkg : bytes_ok pkg).
Context (Hbs : 1024 <= bs <= 2 ^ 22) (Hlen : Z.of_nat (length pkg) < 2 ^ 32).

Definition block_extent (b : Z) : bytes := extent pkg (Z.to_nat (b * bs)) (Z.to_nat bs).

Definition block_count (size : Z) : Z := if size =? 0 then 0 else (size - 1) / bs + 1.

Lemma block_count_lt size b : 0 <= size -> 0 <= b -> b < block_count size <-> b * bs < size.
Proof.
  intros Hs Hb. unfold block_count. destruct (Z.eqb_spec size 0) as [->|]; [nia |].
  pose proof (Z.div_mod (size - 1) bs ltac:(lia)). pose proof (Z.mod_pos_bound (size - 1) bs ltac:(lia)). nia.
Qed.

Record honest (fd : fuse_data C) : Prop := mk_honest {
  ho_inv : inv (cookie fd);
  ho_size : file_size fd = Z.of_nat (length pkg);
  ho_bs : block_size fd = bs;
  ho_blocks : file_blocks fd = block_count (Z.of_nat (length pkg));
  ho_max : file_blocks fd <= 2 ^ 18;
  ho_data : length (block_data fd) = Z.to_nat bs;
  ho_extra : length (extra_block fd) = Z.to_nat bs;
  ho_hashes : length (hashes fd) = Z.to_nat (32 * file_blocks fd);
  ho_curr : curr_block fd = 2 ^ 32 - 1 \/ 0 <= curr_block fd /\ block_data fd = block_extent (curr_block fd);
  ho_stored : forall b, 0 <= b < file_blocks fd -> hash_at (hashes fd) b = no_hash \/ hash_at (hashes fd) b = sha256 (block_extent b)
}.

(** The part of a block the provider is asked for, and the padding. *)
Lemma block_extent_split b (data : bytes) fs : 0 <= b -> b * bs < Z.of_nat (length pkg) -> length data = Z.to_nat bs ->
  fs = Z.min bs (Z.of_nat (length pkg) - b * bs) ->
  extent pkg (Z.to_nat (b * bs)) (Z.to_nat fs) ++ (if fs <? bs then replicate (Z.to_nat (bs - fs)) 0 else []) = block_extent b.
Proof.
  intros Hb Hlt Hd Hfs. unfold block_extent. assert (0 <= b * bs) by nia.
  destruct (Z.ltb_spec fs bs).
  - rewrite <- (extent_past pkg (Z.to_nat (b * bs) + Z.to_nat fs)) by lia. rewrite extent_app. f_equal. lia.
  - rewrite app_nil_r. f_equal. lia.
Qed.

Lemma fetch_new fd block c' data : honest fd -> 0 <= block < file_blocks fd -> data = block_extent block -> inv c' ->
  exists fd', verify_block ctx0 (set_block fd c' block data) block = Ret (0, fd') /\
    honest fd' /\ curr_block fd' = block /\ extra_block fd' = extra_block fd.
Proof.
  intros [H1 H2 H3 H4 H5 H6 H7 H8 H9 H10] Hb Hdata Hc. unfold verify_block. cbn [set_block block_size hashes block_data cookie].
  assert (Hdl : length data = Z.to_nat bs) by (rewrite Hdata; apply extent_length).
  rewrite (sub_bytes_ok data 0), bind_ret by lia. rewrite drop_0, (take_ge data) by lia.
  rewrite SHA256_hash_ref by (done || rewrite Hdata; by apply extent_ok). rewrite bind_ret. cbv zeta.
  change SHA256_DIGEST_SIZE with 32.
  assert (Hoff : u32 (block * 32) = 32 * block) by (rewrite wrap_small; [lia | unfold in_range; lia]). rewrite Hoff.
  rewrite sub_bytes_ok, bind_ret by lia. change (Z.to_nat 32) with 32%nat. fold (hash_at (hashes fd) block).
  rewrite existsb_nonzero, (hash_at_length _ _ (file_blocks fd)) by (done || lia). fold no_hash.
  assert (Hl32 : length (sha256 data) = 32%nat) by apply sha256_length.
  case_bool_decide as E1; [|case_bool_decide as E2].
  - eexists. split; [reflexivity |]. split; [|done]. split; try done; cbn. right. split; [lia | done].
  - cbn [negb]. eexists. split; [reflexivity |]. split; [|done].
    destruct (hash_at_store (hashes fd) block (sha256 data) (file_blocks fd) H8 Hb Hl32) as (S1 & S2 & S3).
    cbv zeta in S1, S2, S3. change (Z.to_nat 32) with 32%nat in *.
    split; try done; cbn [set_hashes set_block cookie file_size block_size file_blocks curr_block block_data extra_block hashes]; try done.
    + by rewrite S1.
    + right. split; [lia | done].
    + intros b Hb'. destruct (Z.eq_dec b block) as [->|Hne]; [right; by rewrite S2, Hdata | rewrite S3 by done; by apply H10].
  - exfalso. destruct (H10 block Hb) as [E|E]; [done |]. rewrite <- Hdata in E. by rewrite E in E1.
Qed.

Lemma fetch_honest fd block : honest fd -> 0 <= block < 2 ^ 32 - 1 ->
  exists fd', fetch_block vtab ctx0 fd block = Ret (0, fd') /\ honest fd' /\ curr_block fd' = block /\
    block_data fd' = block_extent block /\ extra_block fd' = extra_block fd.
Proof.
  intros Hh Hb. pose proof Hh as [H1 H2 H3 H4 H5 H6 H7 H8 H9 H10].
  assert (G : forall fd', honest fd' -> curr_block fd' = block -> block_data fd' = block_extent block).
  { intros fd' H Hc. destruct (ho_curr _ H) as [E|[_ E]]; [lia | by rewrite E, Hc]. }
  unfold fetch_block. destruct (Z.eqb_spec block (curr_block fd)) as [E|Hne].
  { exists fd. split; [done |]. split; [done |]. split; [done |]. split; [by apply G | done]. }
  pose proof (block_count_lt (Z.of_nat (length pkg)) block ltac:(lia) ltac:(lia)) as Hblk.
  destruct (Z.leb_spec (file_blocks fd) block) as [Hge|Hlt].
  { rewrite H3, zero_from_ok, bind_ret by lia. eexists. split; [reflexivity |].
    assert (Ez : take (Z.to_nat 0) (block_data fd) ++ replicate (Z.to_nat bs) 0 = block_extent block).
    { simpl. unfold block_extent. rewrite extent_past; [done | lia]. }
    split; [|split; [done | split; [exact Ez | done]]]. split; try done; cbn [set_block cookie file_size block_size file_blocks curr_block block_data extra_block hashes].
    - rewrite Ez. apply extent_length.
    - right. split; [lia | exact Ez]. }
  assert (Hin : block * bs < Z.of_nat (length pkg)) by (apply Hblk; by rewrite <- H4). assert (0 <= block * bs) by nia.
  cbv zeta. rewrite H3, H2. assert (Hstart : u32 (block * bs) = block * bs) by (apply wrap_small; unfold in_range; lia). rewrite Hstart.
  rewrite (wrap_small 64 (block * bs + bs)) by (unfold in_range; lia).
  set (fs := Z.min bs (Z.of_nat (length pkg) - block * bs)).
  assert (Hmid : (if Z.of_nat (length pkg) <? block * bs + bs
    then data ← zero_from (block_data fd) (u64 (Z.of_nat (length pkg) - block * bs)) (bs - u64 (Z.of_nat (length pkg) - block * bs));
         Ret (u64 (Z.of_nat (length pkg) - block * bs), data)
    else Ret (bs, block_data fd)) =
    Ret (fs, take (Z.to_nat fs) (block_data fd) ++ (if fs <? bs then replicate (Z.to_nat (bs - fs)) 0 else []))).
  { destruct (Z.ltb_spec (Z.of_nat (length pkg)) (block * bs + bs)).
    - rewrite (wrap_small 64) by (unfold in_range; lia).
      replace (Z.of_nat (length pkg) - block * bs) with fs by lia.
      rewrite zero_from_ok, bind_ret by lia. by destruct (Z.ltb_spec fs bs); [|lia].
    - replace fs with bs by lia. rewrite Z.ltb_irrefl, app_nil_r, take_ge by lia. done. }
  rewrite Hmid, bind_ret. cbv iota beta. rewrite (wrap_small 32 fs) by (unfold in_range; lia).
  set (pad := if fs <? bs then _ else _).
  assert (Hlt' : length (take (Z.to_nat fs) (block_data fd)) = Z.to_nat fs) by (rewrite length_take; lia).
  rewrite take_app_length' by done. rewrite drop_app_length' by done.
  destruct (sv_reads (cookie fd) block (take (Z.to_nat fs) (block_data fd)) H1 ltac:(lia) Hin ltac:(rewrite Hlt'; lia))
    as (c' & -> & Hc'). rewrite bind_ret. cbv iota beta. change (0 <? 0) with false. cbv iota. rewrite Hlt'.
  assert (Hdata : extent pkg (Z.to_nat (block * bs)) (Z.to_nat fs) ++ pad = block_extent block).
  { apply (block_extent_split block (block_data fd)); (done || lia). }
  destruct (fetch_new fd block c' _ Hh ltac:(lia) Hdata Hc') as (fd' & E & Hh' & Ec & Ee).
  exists fd'. split; [exact E |]. split; [done |]. split; [done |]. split; [by apply G | done].
Qed.

Lemma read_honest fd offset size : honest fd -> 0 <= offset -> 0 <= size <= bs -> offset + size < bs * (2 ^ 32 - 2) ->
  exists fd', handle_read vtab ctx0 fd PACKAGE_FILE_ID offset size =
    Ret (NO_STATUS, [RData (extent pkg (Z.to_nat offset) (Z.to_nat size))], fd') /\ honest fd'.
Proof.
  intros Hh Ho Hs Hmax. pose proof Hh as [H1 H2 H3 H4 H5 H6 H7 H8 H9 H10].
  unfold handle_read. change (negb (PACKAGE_FILE_ID =? PACKAGE_FILE_ID)) with false. cbv iota. rewrite H3.
  pose proof (Z.div_mod offset bs ltac:(lia)) as Hdm. pose proof (Z.mod_pos_bound offset bs ltac:(lia)) as Hmod.
  set (b := offset / bs) in *. set (o := offset mod bs) in *.
  assert (Hb : 0 <= b < 2 ^ 32 - 2) by nia. rewrite (wrap_small 32 b) by (unfold in_range; lia).
  destruct (fetch_honest fd b Hh ltac:(lia)) as (fd1 & -> & Hh1 & Ec1 & Ed1 & Ee1). rewrite bind_ret. cbv iota beta.
  change (negb (0 =? 0)) with false. cbv iota zeta. rewrite (ho_bs _ Hh1).
  assert (Hbo : u32 (offset - u32 (b * bs)) = o).
  { unfold wrap. rewrite Zminus_mod_idemp_r. replace (offset - b * bs) with o by lia. apply Z.mod_small. lia. }
  rewrite Hbo, (wrap_small 32 (size + o)) by (unfold in_range; lia).
  destruct (Z.leb_spec (size + o) bs).
  - rewrite Ed1, sub_bytes_ok, bind_ret by (try lia; unfold block_extent; rewrite extent_length; lia).
    exists fd1. split; [|done]. unfold block_extent. rewrite extent_sub by lia.
    by replace (Z.to_nat (b * bs) + Z.to_nat o)%nat with (Z.to_nat offset) by nia.
  - rewrite (wrap_small 32 (bs - o)) by (unfold in_range; lia).
    rewrite Ed1, sub_bytes_ok, bind_ret by (try lia; unfold block_extent; rewrite extent_length; lia).
    rewrite (ho_extra _ Hh1). destruct (Z.ltb_spec (Z.of_nat (Z.to_nat bs)) (bs - o)); [lia |].
    set (v1 := take (Z.to_nat (bs - o)) (drop (Z.to_nat o) (block_extent b))).
    assert (Hv1 : v1 = extent pkg (Z.to_nat offset) (Z.to_nat (bs - o))).
    { unfold v1, block_extent. rewrite extent_sub by lia. f_equal. nia. }
    assert (Lv1 : length v1 = Z.to_nat (bs - o)) by (rewrite Hv1; apply extent_length).
    set (fd2 := set_extra fd1 _).
    assert (Hh2 : honest fd2).
    { destruct Hh1. split; try done. cbn. rewrite length_app, length_drop, Lv1. lia. }
    rewrite (wrap_small 32 (b + 1)) by (unfold in_range; lia).
    destruct (fetch_honest fd2 (b + 1) Hh2 ltac:(lia)) as (fd3 & -> & Hh3 & Ec3 & Ed3 & Ee3). rewrite bind_ret. cbv iota beta.
    change (negb (0 =? 0)) with false. cbv iota. rewrite Ee3, Ed3. cbn [fd2 set_extra extra_block].
    rewrite (sub_bytes_ok (v1 ++ _)), bind_ret by (try lia; rewrite length_app, length_drop, Lv1, (ho_extra _ Hh1); lia).
    rewrite (wrap_small 64 (size - (bs - o))) by (unfold in_range; lia).
    rewrite sub_bytes_ok, bind_ret by (try lia; unfold block_extent; rewrite extent_length; lia).
    exists fd3. split; [|done]. change (Z.to_nat 0) with 0%nat. rewrite !drop_0.
    rewrite take_app_length' by done. unfold block_extent.
    rewrite <- (drop_0 (extent pkg (Z.to_nat ((b + 1) * bs)) _)), extent_sub by lia. rewrite Hv1.
    replace (Z.to_nat ((b + 1) * bs) + 0)%nat with (Z.to_nat offset + Z.to_nat (bs - o))%nat by nia.
    rewrite extent_app. by replace (Z.to_nat (bs - o) + Z.to_nat (size - (bs - o)))%nat with (Z.to_nat size) by lia.
Qed.

(** *** The abstract file system

    A read-only file that holds the package; only reads look at it. *)
Definition answer (fd : fuse_data C) (q : request) : Z * list reply :=
  match q with
  | QInit major minor ra => handle_init major minor ra
  | QLookup name => handle_lookup fd name
  | QGetattr nodeid => handle_getattr fd nodeid
  | QOpen nodeid => handle_open nodeid
  | QRead nodeid offset size =>
      if nodeid =? PACKAGE_FILE_ID then (NO_STATUS, [RData (extent pkg (Z.to_nat offset) (Z.to_nat size))]) else (- ENOENT, [])
  | QFlush | QRelease => (0, [])
  | QOther _ => (- ENOSYS, [])
  end.

Fixpoint answers (events : list event) (fd : fuse_data C) : ending * list (list reply) :=
  match events with
  | [] => (Waiting, [])
  | TooShort :: events' => answers events' fd
  | ReadFailed errno :: events' => if errno =? ENODEV then (DeviceGone, []) else answers events' fd
  | Request q :: events' =>
      let '(result, out) := answer fd q in
      if result =? NO_STATUS_EXIT then (Exited, [out]) else
      let '(e, outs) := answers events' fd in
      (e, (if negb (result =? NO_STATUS) then out ++ [RError result] else out) :: outs)
  end.

(** What the kernel asks for: reads of at most a block, within the range of
    block numbers. *)
Definition bounded (q : request) : Prop :=
  match q with
  | QRead _ offset size => 0 <= offset /\ 0 <= size <= bs /\ offset + size < bs * (2 ^ 32 - 2)
  | _ => True
  end.

Definition bounded_event (e : event) : Prop :=
  match e with
  | Request q => bounded q
  | _ => True
  end.

Lemma handle_honest fd fd0 q : honest fd -> file_size fd0 = Z.of_nat (length pkg) -> bounded q ->
  exists fd', handle vtab ctx0 fd q = Ret (answer fd0 q, fd') /\ honest fd'.
Proof.
  intros Hh H0 Hq. assert (E : file_size fd = file_size fd0) by (rewrite H0; apply Hh).
  assert (Hdec : (exists n o z, q = QRead n o z) \/ ~ exists n o z, q = QRead n o z)
    by (destruct q; try (right; intros (? & ? & ? & ?); discriminate); left; by eexists _, _, _).
  destruct Hdec as [(nodeid & offset & size & ->)|Hn]; cbn [handle answer].
  { destruct (Z.eqb_spec nodeid PACKAGE_FILE_ID) as [->|Hn]; [by apply read_honest; destruct Hq as (? & ? & ?) |].
    exists fd. split; [|done]. unfold handle_read. by destruct (Z.eqb_spec nodeid PACKAGE_FILE_ID). }
  exists fd. split; [|done]. destruct q; cbn [handle answer].
  - by destruct (handle_init _ _ _).
  - unfold handle_lookup. rewrite E. by repeat case_bool_decide.
  - unfold handle_getattr. rewrite E. by repeat case_match.
  - by destruct (handle_open _).
  - exfalso. apply Hn. by eexists _, _, _.
  - done.
  - done.
  - done.
Qed.

Lemma serve_honest fd0 events : forall fd, honest fd -> file_size fd0 = Z.of_nat (length pkg) -> Forall bounded_event events ->
  exists fd', serve vtab ctx0 events fd = Ret (answers events fd0, fd') /\ honest fd'.
Proof.
  induction events as [|[q| |errno] events IH]; intros fd Hh H0 Hb; cbn [serve answers]; [by exists fd | | |].
  - apply Forall_cons in Hb as [Hq Hb]. destruct (handle_honest fd fd0 q Hh H0 Hq) as (fd1 & -> & Hh1).
    rewrite bind_ret. destruct (answer fd0 q) as [r out]. cbv iota beta. destruct (r =? NO_STATUS_EXIT); [by exists fd1 |].
    destruct (IH fd1 Hh1 H0 Hb) as (fd2 & E & Hh2). cbv zeta. rewrite E, bind_ret. destruct (answers events fd0) as [e outs].
    by exists fd2.
  - apply Forall_cons in Hb as [_ Hb]. by apply IH.
  - apply Forall_cons in Hb as [_ Hb]. destruct (errno =? ENODEV); [by exists fd | by apply IH].
Qed.

Lemma setup_honest c junk junk' fd : inv c -> (Z.to_nat bs <= length junk)%nat -> (Z.to_nat bs <= length junk')%nat ->
  run_fuse_sideload c (Z.of_nat (length pkg)) bs true junk junk' = Some fd -> honest fd.
Proof.
  intros Hc H1 H2. unfold run_fuse_sideload. destruct (bs <? 1024); [done |]. destruct (Z.shiftl 1 22 <? bs); [done |].
  assert (Eb : u32 (if Z.of_nat (length pkg) =? 0 then 0 else u64 (Z.of_nat (length pkg) - 1) / bs + 1) = block_count (Z.of_nat (length pkg))).
  { unfold block_count. destruct (Z.eqb_spec (Z.of_nat (length pkg)) 0); [done |].
    rewrite (wrap_small 64) by (unfold in_range; lia). apply wrap_small. unfold in_range.
    assert (0 <= (Z.of_nat (length pkg) - 1) / bs) by (apply Z.div_pos; lia).
    assert ((Z.of_nat (length pkg) - 1) / bs < 2 ^ 32 - 1) by (apply Z.div_lt_upper_bound; nia). lia. }
  cbv zeta. rewrite Eb. destruct (Z.ltb_spec (Z.shiftl 1 18) (block_count (Z.of_nat (length pkg)))); [done |]. cbn [negb]. intros [= <-].
  split; cbn [cookie file_size block_size file_blocks curr_block block_data extra_block hashes]; try done.
  - rewrite length_take. lia.
  - rewrite length_take. lia.
  - rewrite length_replicate. change SHA256_DIGEST_SIZE with 32. lia.
  - by left.
  - intros b Hb. left. unfold hash_at. rewrite drop_replicate, take_replicate. unfold no_hash. f_equal.
    change SHA256_DIGEST_SIZE with 32. lia.
Qed.

Lemma setup_some (c : C) junk junk' : Z.of_nat (length pkg) <= bs * 2 ^ 18 ->
  exists fd, run_fuse_sideload c (Z.of_nat (length pkg)) bs true junk junk' = Some fd.
Proof.
  intros Hmax. unfold run_fuse_sideload. destruct (Z.ltb_spec bs 1024); [lia |].
  change (Z.shiftl 1 22) with (2 ^ 22). destruct (Z.ltb_spec (2 ^ 22) bs); [lia |]. cbv zeta.
  set (n := if _ =? 0 then 0 else _). assert (Hn : 0 <= n <= 2 ^ 18).
  { unfold n. destruct (Z.eqb_spec (Z.of_nat (length pkg)) 0); [lia |]. rewrite (wrap_small 64) by (unfold in_range; lia).
    assert (0 <= (Z.of_nat (length pkg) - 1) / bs) by (apply Z.div_pos; lia).
    assert ((Z.of_nat (length pkg) - 1) / bs < 2 ^ 18) by (apply Z.div_lt_upper_bound; lia). lia. }
  rewrite (wrap_small 32 n) by (unfold in_range; lia). change (Z.shiftl 1 18) with (2 ^ 18).
  destruct (Z.ltb_spec (2 ^ 18) n); [lia |]. by eexists.
Qed.

Lemma serves_package c junk junk' events : inv c -> Z.of_nat (length pkg) <= bs * 2 ^ 18 ->
  (Z.to_nat bs <= length junk)%nat -> (Z.to_nat bs <= length junk')%nat -> Forall bounded_event events ->
  exists fd fd', run_fuse_sideload c (Z.of_nat (length pkg)) bs true junk junk' = Some fd /\
    serve vtab ctx0 events fd = Ret (answers events fd, fd') /\ inv (cookie fd').
Proof.
  intros Hc Hmax H1 H2 He. destruct (setup_some c junk junk' Hmax) as [fd E].
  pose proof (setup_honest c junk junk' fd Hc H1 H2 E) as Hh.
  destruct (serve_honest fd events fd Hh (ho_size _ Hh) He) as (fd' & E' & Hh'). exists fd, fd'. split; [done |]. split; [done | apply Hh'].
Qed.
End Honest.

(** ** A provider that may send anything *)
Section Consistent.
Context {C : Type} (vtab : provider C) (inv : C -> Prop) {HR : Responds vtab inv}.
Context (ctx0 : HASH_CTX) (Hctx : ctx_shape ctx0).

Record safe (fd : fuse_data C) : Prop := mk_safe {
  sa_inv : inv (cookie fd);
  sa_bs : 1024 <= block_size fd <= 2 ^ 22;
  sa_size : 0 <= file_size fd < 2 ^ 64;
  sa_blocks : forall b, 0 <= b < file_blocks fd -> b * block_size fd < file_size fd;
  sa_max : 0 <= file_blocks fd <= 2 ^ 18;
  sa_data : length (block_data fd) = Z.to_nat (block_size fd);
  sa_bytes : bytes_ok (block_data fd);
  sa_extra : length (extra_block fd) = Z.to_nat (block_size fd);
  sa_hashes : length (hashes fd) = Z.to_nat (32 * file_blocks fd);
  sa_curr : 0 <= curr_block fd < file_blocks fd -> sha256 (block_data fd) = hash_at (hashes fd) (curr_block fd);
  sa_past : file_blocks fd <= curr_block fd < 2 ^ 32 - 1 -> block_data fd = replicate (Z.to_nat (block_size fd)) 0
}.

(** The sizes stay, and so does every digest once it is stored. *)
Definition keeps (fd fd' : fuse_data C) : Prop :=
  block_size fd' = block_size fd /\ file_blocks fd' = file_blocks fd /\ file_size fd' = file_size fd /\
  forall b, 0 <= b < file_blocks fd -> hash_at (hashes fd) b = no_hash \/ hash_at (hashes fd') b = hash_at (hashes fd) b.

Lemma keeps_refl fd : keeps fd fd.
Proof. repeat split. intros. by right. Qed.

Lemma keeps_block fd c curr data : keeps fd (set_block fd c curr data).
Proof. repeat split. intros. by right. Qed.

Lemma keeps_trans fd fd1 fd2 : keeps fd fd1 -> keeps fd1 fd2 -> keeps fd fd2.
Proof.
  intros (A1 & A2 & A3 & A4) (B1 & B2 & B3 & B4). split; [congruence |]. split; [congruence |]. split; [congruence |].
  intros b Hb. destruct (A4 b Hb) as [E|E]; [by left |]. destruct (B4 b ltac:(by rewrite A2)) as [E'|E']; [|right; congruence].
  left. congruence.
Qed.

Lemma verify_safe fd block c' data : safe fd -> 0 <= block < file_blocks fd -> length data = Z.to_nat (block_size fd) -> bytes_ok data -> inv c' ->
  exists r fd', verify_block ctx0 (set_block fd c' block data) block = Ret (r, fd') /\
    safe fd' /\ keeps fd fd' /\ r <= 0 /\ (r = 0 -> curr_block fd' = block) /\ extra_block fd' = extra_block fd.
Proof.
  intros Hs Hb Hdl Hdo Hc. pose proof Hs as [H1 H2 H3 H4 H5 H6 H7 H8 H9 H10 H11]. unfold verify_block. cbn [set_block block_size hashes block_data cookie]. cbv zeta.
  rewrite (sub_bytes_ok data 0), bind_ret by lia. rewrite drop_0, (take_ge data) by lia.
  rewrite SHA256_hash_ref by done. rewrite bind_ret. change SHA256_DIGEST_SIZE with 32.
  assert (Hoff : u32 (block * 32) = 32 * block) by (rewrite wrap_small; [lia | unfold in_range; lia]). rewrite Hoff.
  rewrite sub_bytes_ok, bind_ret by lia. change (Z.to_nat 32) with 32%nat. fold (hash_at (hashes fd) block).
  rewrite existsb_nonzero, (hash_at_length _ _ (file_blocks fd)) by (done || lia). fold no_hash.
  case_bool_decide as E1; [|case_bool_decide as E2]; cbn [negb].
  - eexists _, _. split; [reflexivity |]. split; [|split; [apply keeps_block | done]].
    split; try done; cbn [set_block cookie file_size block_size file_blocks curr_block block_data extra_block hashes]; lia.
  - destruct (hash_at_store (hashes fd) block (sha256 data) (file_blocks fd) H9 Hb (sha256_length data)) as (S1 & S2 & S3).
    cbv zeta in S1, S2, S3. eexists _, _. split; [reflexivity |]. split; [|split; [|done]].
    + split; try done; cbn [set_hashes set_block cookie file_size block_size file_blocks curr_block block_data extra_block hashes]; try done; try lia.
    + split; [done |]. split; [done |]. split; [done |]. intros b Hb'. cbn [set_hashes set_block hashes].
      destruct (Z.eq_dec b block) as [->|Hne]; [by left | right; by apply S3].
  - eexists _, _. split; [reflexivity |]. split; [|split; [eapply keeps_trans; apply keeps_block | done]].
    split; try done; cbn [set_block cookie file_size block_size file_blocks curr_block block_data extra_block hashes]; try done; change (u32 (-1)) with (2 ^ 32 - 1); lia.
Qed.

Lemma fetch_safe fd block : safe fd -> 0 <= block < 2 ^ 32 - 1 ->
  exists r fd', fetch_block vtab ctx0 fd block = Ret (r, fd') /\ safe fd' /\ keeps fd fd' /\ r <= 0 /\
    (r = 0 -> curr_block fd' = block) /\ extra_block fd' = extra_block fd.
Proof.
  intros Hs Hb. pose proof Hs as [H1 H2 H3 H4 H5 H6 H7 H8 H9 H10 H11]. unfold fetch_block.
  destruct (Z.eqb_spec block (curr_block fd)) as [E|Hne].
  { exists 0, fd. split; [done |]. split; [done |]. split; [apply keeps_refl |]. done. }
  destruct (Z.leb_spec (file_blocks fd) block) as [Hge|Hlt].
  { rewrite zero_from_ok, bind_ret by lia. change (take (Z.to_nat 0) (block_data fd) ++ ?z) with z.
    eexists _, _. split; [reflexivity |].
    split; [|split; [apply keeps_block | done]].
    split; try done; cbn [set_block cookie file_size block_size file_blocks curr_block block_data extra_block hashes]; try lia.
    - by rewrite length_replicate.
    - by apply Forall_replicate. }
  pose proof (H4 block ltac:(lia)) as Hin. cbv zeta. set (bs := block_size fd) in *. assert (0 <= block * bs) by nia.
  assert (Hst : 0 <= u32 (block * bs) <= block * bs)
    by (split; [apply wrap_range; lia | apply Z.mod_le; lia]).
  set (start := u32 (block * bs)) in *. assert (start < 2 ^ 32) by (apply wrap_range; lia).
  rewrite (wrap_small 64 (start + bs)) by (unfold in_range; lia).
  assert (Hmid : exists fs data, (if file_size fd <? start + bs
    then data ← zero_from (block_data fd) (u64 (file_size fd - start)) (bs - u64 (file_size fd - start)); Ret (u64 (file_size fd - start), data)
    else Ret (bs, block_data fd)) = Ret (fs, data) /\ 0 <= fs <= bs /\ length data = Z.to_nat bs /\ bytes_ok data).
  { destruct (Z.ltb_spec (file_size fd) (start + bs)).
    - rewrite (wrap_small 64) by (unfold in_range; lia). rewrite zero_from_ok, bind_ret by lia. eexists _, _. split; [reflexivity |].
      split; [lia |]. split; [rewrite length_app, length_take, length_replicate; lia |].
      apply Forall_app. split; [by apply Forall_take | by apply Forall_replicate].
    - eexists _, _. split; [reflexivity |]. done || (split; [lia | done]). }
  destruct Hmid as (fs & data & -> & Hfs & Hdl & Hdo). rewrite bind_ret. cbv iota beta. rewrite (wrap_small 32 fs) by (unfold in_range; lia).
  destruct (rs_returns (cookie fd) block (take (Z.to_nat fs) data) H1 ltac:(by apply Forall_take)) as (r & got & c' & -> & Hr & Hgl & Hgo & Hc').
  rewrite bind_ret. cbv iota beta. destruct (Z.ltb_spec r 0); [lia |].
  apply verify_safe; try done; [lia | |].
  - rewrite length_app, length_drop, Hgl, length_take. lia.
  - apply Forall_app. split; [done | by apply Forall_drop].
Qed.

(** A block that the server may have delivered: a block of bytes that has the
    digest on record, or the digest that stands for none; past the end it is
    zero. *)
Definition on_record (fd : fuse_data C) (b : Z) (d : bytes) : Prop :=
  (length d = Z.to_nat (block_size fd) /\ bytes_ok d) /\
  if b <? file_blocks fd then sha256 d = no_hash \/ sha256 d = hash_at (hashes fd) b
  else d = replicate (Z.to_nat (block_size fd)) 0.

Lemma on_record_keeps fd fd' b d : 0 <= b -> keeps fd fd' -> on_record fd b d -> on_record fd' b d.
Proof.
  intros Hb (K1 & K2 & _ & K4) [Hl Hd]. unfold on_record. rewrite K1, K2. split; [done |].
  destruct (Z.ltb_spec b (file_blocks fd)); [|done]. destruct Hd as [Hd|Hd]; [by left |].
  destruct (K4 b ltac:(lia)) as [E|E]; [left | right]; congruence.
Qed.

Lemma on_record_curr fd : safe fd -> 0 <= curr_block fd < 2 ^ 32 - 1 -> on_record fd (curr_block fd) (block_data fd).
Proof.
  intros [H1 H2 H3 H4 H5 H6 H7 H8 H9 H10 H11] Hc. split; [done |].
  destruct (Z.ltb_spec (curr_block fd) (file_blocks fd)); [right; apply H10; lia | apply H11; lia].
Qed.

(** The bytes of a read of [size] bytes at [offset]: from a block and, when the
    read spills over, the next one. *)
Definition delivered (fd : fuse_data C) (offset size : Z) (x : bytes) (d e : bytes) : Prop :=
  let bs := block_size fd in
  x = take (Z.to_nat size) (drop (Z.to_nat (offset mod bs)) (d ++ e)) /\
  on_record fd (offset / bs) d /\
  (if size + offset mod bs <=? bs then e = [] else on_record fd (offset / bs + 1) e).

Lemma read_safe fd offset size : safe fd -> 0 <= offset -> 0 <= size <= block_size fd -> offset + size < block_size fd * (2 ^ 32 - 2) ->
  exists r out fd', handle_read vtab ctx0 fd PACKAGE_FILE_ID offset size = Ret (r, out, fd') /\ safe fd' /\ keeps fd fd' /\
    (r <> NO_STATUS /\ out = [] \/ r = NO_STATUS /\ exists x d e, out = [RData x] /\ delivered fd' offset size x d e).
Proof.
  intros Hsa Ho Hs Hmax. pose proof (sa_bs _ Hsa) as Hbs. unfold handle_read.
  change (negb (PACKAGE_FILE_ID =? PACKAGE_FILE_ID)) with false. cbv iota.
  pose proof (Z.div_mod offset (block_size fd) ltac:(lia)) as Hdm. pose proof (Z.mod_pos_bound offset (block_size fd) ltac:(lia)) as Hmod.
  set (b := offset / block_size fd) in *. set (o := offset mod block_size fd) in *.
  assert (Hb : 0 <= b < 2 ^ 32 - 2) by nia. rewrite (wrap_small 32 b) by (unfold in_range; lia).
  destruct (fetch_safe fd b Hsa ltac:(lia)) as (r1 & fd1 & -> & Hsa1 & K1 & Hr1 & Ec1 & Ee1). rewrite bind_ret. cbv iota beta.
  destruct (Z.eqb_spec r1 0) as [->|Hr]; cbn [negb]; cycle 1.
  { eexists _, _, _. split; [reflexivity |]. split; [done |]. split; [done |]. left. split; [unfold NO_STATUS; lia | done]. }
  specialize (Ec1 eq_refl). pose proof K1 as (Kb & Kf & Ks & _). cbv zeta. rewrite Kb.
  pose proof (on_record_curr fd1 Hsa1 ltac:(lia)) as Hrec. rewrite Ec1 in Hrec.
  assert (Ld : length (block_data fd1) = Z.to_nat (block_size fd)) by (rewrite (sa_data _ Hsa1), Kb; done).
  assert (Hbo : u32 (offset - u32 (b * block_size fd)) = o).
  { unfold wrap. rewrite Zminus_mod_idemp_r. replace (offset - b * block_size fd) with o by lia. apply Z.mod_small. lia. }
  rewrite Hbo, (wrap_small 32 (size + o)) by (unfold in_range; lia).
  destruct (Z.leb_spec (size + o) (block_size fd)).
  - rewrite sub_bytes_ok, bind_ret by lia. eexists _, _, _. split; [reflexivity |]. split; [done |]. split; [done |]. right. split; [done |].
    eexists _, (block_data fd1), []. split; [reflexivity |]. unfold delivered. rewrite Kb. fold o b. rewrite app_nil_r.
    split; [done |]. split; [done |]. by destruct (Z.leb_spec (size + o) (block_size fd)); [|lia].
  - rewrite (wrap_small 32 (block_size fd - o)) by (unfold in_range; lia). rewrite sub_bytes_ok, bind_ret by lia.
    assert (Le : length (extra_block fd1) = Z.to_nat (block_size fd)) by (rewrite (sa_extra _ Hsa1), Kb; done).
    rewrite Le. destruct (Z.ltb_spec (Z.of_nat (Z.to_nat (block_size fd))) (block_size fd - o)); [lia |].
    set (v1 := take (Z.to_nat (block_size fd - o)) (drop (Z.to_nat o) (block_data fd1))).
    assert (Lv1 : length v1 = Z.to_nat (block_size fd - o)) by (unfold v1; rewrite length_take, length_drop; lia).
    set (fd2 := set_extra fd1 _).
    assert (Hsa2 : safe fd2).
    { destruct Hsa1. split; try done. cbn. rewrite length_app, length_drop, Lv1. lia. }
    assert (K2 : keeps fd1 fd2) by (repeat split; intros; by right).
    rewrite (wrap_small 32 (b + 1)) by (unfold in_range; lia).
    destruct (fetch_safe fd2 (b + 1) Hsa2 ltac:(lia)) as (r3 & fd3 & -> & Hsa3 & K3 & Hr3 & Ec3 & Ee3). rewrite bind_ret. cbv iota beta.
    pose proof (keeps_trans _ _ _ K2 K3) as K13. pose proof (keeps_trans _ _ _ K1 K13) as K03.
    destruct (Z.eqb_spec r3 0) as [->|Hr]; cbn [negb]; cycle 1.
    { eexists _, _, _. split; [reflexivity |]. split; [done |]. split; [done |]. left. split; [unfold NO_STATUS; lia | done]. }
    specialize (Ec3 eq_refl). rewrite Ee3. cbn [fd2 set_extra extra_block].
    assert (Kb3 : block_size fd3 = block_size fd) by apply K03.
    assert (Ld3 : length (block_data fd3) = Z.to_nat (block_size fd)) by (rewrite (sa_data _ Hsa3), Kb3; done).
    rewrite (sub_bytes_ok (v1 ++ _)), bind_ret by (try lia; rewrite length_app, length_drop, Lv1; lia).
    rewrite (wrap_small 64 (size - (block_size fd - o))) by (unfold in_range; lia). rewrite sub_bytes_ok, bind_ret by lia.
    eexists _, _, _. split; [reflexivity |]. split; [done |]. split; [done |]. right. split; [done |].
    eexists _, (block_data fd1), (block_data fd3). split; [reflexivity |]. unfold delivered. rewrite Kb3. fold o b.
    pose proof (on_record_curr fd3 Hsa3 ltac:(lia)) as Hrec3. rewrite Ec3 in Hrec3.
    split; [|split; [by eapply on_record_keeps; [lia | exact K13 |] |]].
    + change (Z.to_nat 0) with 0%nat. rewrite !drop_0, take_app_length' by done. rewrite drop_app_le by lia.
      rewrite take_app. rewrite length_drop, Ld, (take_ge (drop _ _)) by (rewrite length_drop; lia). unfold v1.
      rewrite take_ge by (rewrite length_drop; lia). f_equal. f_equal. lia.
    + by destruct (Z.leb_spec (size + o) (block_size fd)); [lia |].
Qed.

Lemma delivered_keeps fd fd' offset size x d e : 0 <= offset -> 0 < block_size fd -> keeps fd fd' ->
  delivered fd offset size x d e -> delivered fd' offset size x d e.
Proof.
  intros Ho Hbs K (D1 & D2 & D3). pose proof K as (K1 & _). unfold delivered. rewrite K1.
  assert (0 <= offset / block_size fd) by (apply Z.div_pos; lia).
  split; [done |]. split; [by eapply on_record_keeps |].
  destruct (size + offset mod block_size fd <=? block_size fd); [done |]. eapply on_record_keeps; [lia | done..].
Qed.

(** The replies that carry data in a transcript are made of blocks on record. *)
Definition all_delivered (fd : fuse_data C) (t : list (request * list reply)) : Prop :=
  forall offset size x, (QRead PACKAGE_FILE_ID offset size, [RData x]) ∈ t -> exists d e, delivered fd offset size x d e.

Lemma package_read_dec q : {exists o z, q = QRead PACKAGE_FILE_ID o z} + {~ exists o z, q = QRead PACKAGE_FILE_ID o z}.
Proof.
  destruct q as [| | | |n o z| | |]; try (right; intros (? & ? & ?); discriminate).
  destruct (Z.eq_dec n PACKAGE_FILE_ID) as [->|]; [left; by exists o, z | right; intros (? & ? & [=]); done].
Defined.

Lemma handle_safe fd q : safe fd -> bounded (block_size fd) q ->
  exists r out fd', handle vtab ctx0 fd q = Ret (r, out, fd') /\ safe fd' /\ keeps fd fd' /\
    forall out', out' = out \/ out' = out ++ [RError r] -> all_delivered fd' [(q, out')].
Proof.
  intros Hs Hq. destruct (package_read_dec q) as [(o & z & ->)|Hn].
  - destruct Hq as (B1 & B2 & B3). destruct (read_safe fd o z Hs B1 B2 B3) as (r & out & fd' & E & S & K & D).
    exists r, out, fd'. split; [exact E |]. split; [done |]. split; [done |]. intros out' Ho o' z' x Hin. apply list_elem_of_singleton in Hin. injection Hin as -> -> <-.
    destruct D as [[Hr ->]|[-> (x' & d & e & -> & Hd)]]; destruct Ho as [Ho|Ho]; try discriminate.
    injection Ho as ->. by exists d, e.
  - assert (G : exists r out, handle vtab ctx0 fd q = Ret (r, out, fd)).
    { destruct q as [a b c|n|n|n|n o z| | |n]; cbn [handle]; try by eexists _, _.
      - destruct (handle_init a b c). by eexists _, _.
      - destruct (handle_lookup fd n). by eexists _, _.
      - destruct (handle_getattr fd n). by eexists _, _.
      - destruct (handle_open n). by eexists _, _.
      - unfold handle_read. destruct (Z.eqb_spec n PACKAGE_FILE_ID) as [->|]; [exfalso; apply Hn; by exists o, z | by eexists _, _]. }
    destruct G as (r & out & E). exists r, out, fd. split; [exact E |]. split; [done |]. split; [apply keeps_refl |].
    intros out' _ o z x Hin. apply list_elem_of_singleton in Hin. injection Hin as <- _. exfalso. apply Hn. by exists o, z.
Qed.

(** The requests of a run, in order. *)
Definition requests (events : list event) : list request :=
  omap (fun e => match e with Request q => Some q | _ => None end) events.

Lemma all_delivered_cons fd p t : all_delivered fd [p] -> all_delivered fd t -> all_delivered fd (p :: t).
Proof.
  intros Hp Ht o z x Hin. apply elem_of_cons in Hin as [E|Hin]; [|by apply Ht]. apply Hp. apply list_elem_of_singleton. done.
Qed.

Lemma all_delivered_keeps fd fd' t : 0 < block_size fd -> keeps fd fd' ->
  (forall o z out, (QRead PACKAGE_FILE_ID o z, out) ∈ t -> 0 <= o) -> all_delivered fd t -> all_delivered fd' t.
Proof.
  intros Hbs K Ho H o z x Hin. destruct (H o z x Hin) as (d & e & D). exists d, e. eapply delivered_keeps; [by eapply Ho | done..].
Qed.

Lemma serve_safe events : forall fd, safe fd -> Forall (bounded_event (block_size fd)) events ->
  exists e outs fd', serve vtab ctx0 events fd = Ret (e, outs, fd') /\ safe fd' /\ keeps fd fd' /\
    all_delivered fd' (zip (requests events) outs).
Proof.
  induction events as [|[q| |errno] events IH]; intros fd Hs Hb; cbn [serve].
  - eexists _, _, _. split; [done |]. split; [done |]. split; [apply keeps_refl |]. intros o z x Hin. by apply elem_of_nil in Hin.
  - apply Forall_cons in Hb as [Hq Hb]. destruct (handle_safe fd q Hs Hq) as (r & out & fd1 & -> & Hs1 & K1 & D1).
    rewrite bind_ret. cbv iota beta. destruct (Z.eqb_spec r NO_STATUS_EXIT) as [->|Hr].
    { eexists _, _, _. split; [done |]. split; [done |]. split; [done |]. change (requests _) with (q :: requests events).
      cbn [zip_with]. rewrite zip_with_nil_r. apply D1. by left. }
    destruct (IH fd1 Hs1) as (e & outs & fd2 & E & Hs2 & K2 & D2); [by rewrite (proj1 K1) |].
    cbv zeta. rewrite E, bind_ret. eexists _, _, _. split; [reflexivity |]. split; [done |]. split; [by eapply keeps_trans |].
    apply (all_delivered_cons fd2 (q, _)); [|exact D2].
    apply (all_delivered_keeps fd1); [destruct Hs1; lia | done | | apply D1; destruct (negb _); [by right | by left]].
    intros o z out' Hin. apply list_elem_of_singleton in Hin. injection Hin as <- _. apply Hq.
  - apply Forall_cons in Hb as [_ Hb]. by apply IH.
  - apply Forall_cons in Hb as [_ Hb]. destruct (errno =? ENODEV); [|by apply IH].
    eexists _, _, _. split; [done |]. split; [done |]. split; [apply keeps_refl |]. intros o z x Hin.
    rewrite zip_with_nil_r in Hin. by apply elem_of_nil in Hin.
Qed.

Lemma setup_safe c size bs junk junk' fd : inv c -> 0 <= size < 2 ^ 64 -> bytes_ok junk ->
  (Z.to_nat bs <= length junk)%nat -> (Z.to_nat bs <= length junk')%nat ->
  run_fuse_sideload c size bs true junk junk' = Some fd -> safe fd /\ block_size fd = bs.
Proof.
  intros Hc Hsz Hj H1 H2. unfold run_fuse_sideload. destruct (Z.ltb_spec bs 1024); [done |]. destruct (Z.ltb_spec (Z.shiftl 1 22) bs) as [|Hmax]; [done |].
  change (Z.shiftl 1 22) with (2 ^ 22) in Hmax. cbv zeta. set (n := if size =? 0 then 0 else u64 (size - 1) / bs + 1).
  destruct (Z.ltb_spec (Z.shiftl 1 18) (u32 n)) as [|Hb]; [done |]. change (Z.shiftl 1 18) with (2 ^ 18) in Hb. cbn [negb]. intros [= <-].
  assert (Hn : 0 <= n /\ forall b, b < n -> b * bs < size).
  { unfold n. destruct (Z.eqb_spec size 0) as [->|]; [split; [lia | nia] |]. rewrite (wrap_small 64) by (unfold in_range; lia).
    assert (0 <= (size - 1) / bs) by (apply Z.div_pos; lia). split; [lia |]. intros b Hlt.
    pose proof (Z.div_mod (size - 1) bs ltac:(lia)). pose proof (Z.mod_pos_bound (size - 1) bs ltac:(lia)). nia. }
  assert (Hu : 0 <= u32 n <= n) by (split; [apply wrap_range; lia | apply Z.mod_le; lia]).
  split; [|done]. split; cbn [cookie file_size block_size file_blocks curr_block block_data extra_block hashes]; try done.
  - intros b Hlt. apply Hn. lia.
  - lia.
  - rewrite length_take. lia.
  - by apply Forall_take.
  - rewrite length_take. lia.
  - rewrite length_replicate. change SHA256_DIGEST_SIZE with 32. lia.
  - change (u32 (-1)) with (2 ^ 32 - 1). lia.
  - change (u32 (-1)) with (2 ^ 32 - 1). lia.
Qed.
End Consistent.

(** ** Replies and the end of the loop, whatever the provider does *)
Definition stops (e : event) : bool :=
  match e with
  | Request (QLookup name) => bool_decide (cstring name = str "exit")
  | Request (QGetattr nodeid) => nodeid =? EXIT_FLAG_ID
  | ReadFailed errno => errno =? ENODEV
  | _ => false
  end.

Section Replies.
Context {C : Type} (vtab : provider C) (ctx0 : HASH_CTX).

Lemma verify_status fd block r fd' : verify_block (C:=C) ctx0 fd block = Ret (r, fd') -> r <= 0.
Proof.
  unfold verify_block. intros H. apply bind_Ret_inv in H as (whole & _ & H). apply bind_Ret_inv in H as (hash & _ & H). cbv zeta in H.
  apply bind_Ret_inv in H as (bh & _ & H). destruct (bool_decide _); [by injection H as <- <- |].
  destruct (existsb _ _); by injection H as <- <-.
Qed.

Lemma fetch_status fd block r fd' : fetch_block vtab ctx0 fd block = Ret (r, fd') -> r <= 0.
Proof.
  unfold fetch_block. destruct (block =? curr_block fd); [by intros [= <- <-] |].
  destruct (file_blocks fd <=? block).
  { intros H. apply bind_Ret_inv in H as (data & _ & H). by injection H as <- <-. }
  cbv zeta. intros H. apply bind_Ret_inv in H as ([fs data] & _ & H). apply bind_Ret_inv in H as ([[result got] c] & _ & H).
  destruct (Z.ltb_spec result 0); [injection H as <- <-; lia | by eapply verify_status].
Qed.

(** A reply is given at once, or the status stands for it. *)
Definition one_reply (r : Z) (out : list reply) : Prop :=
  if (r =? NO_STATUS) || (r =? NO_STATUS_EXIT) then length out = 1%nat else out = [].

Lemma one_reply_error r : r <= 0 -> one_reply r [].
Proof. intros H. unfold one_reply, NO_STATUS, NO_STATUS_EXIT. destruct (Z.eqb_spec r 1), (Z.eqb_spec r 2); (done || lia). Qed.

Lemma read_status fd nodeid offset size r out fd' : handle_read vtab ctx0 fd nodeid offset size = Ret (r, out, fd') ->
  r <> NO_STATUS_EXIT /\ one_reply r out.
Proof.
  assert (E : forall r, r <= 0 -> r <> NO_STATUS_EXIT) by (unfold NO_STATUS_EXIT; lia).
  unfold handle_read. destruct (negb (nodeid =? PACKAGE_FILE_ID)); [by intros [= <- <- <-] |]. cbv zeta. intros H.
  apply bind_Ret_inv in H as ([r1 fd1] & H1 & H). apply fetch_status in H1.
  destruct (negb (r1 =? 0)); [injection H as <- <- <-; split; [by apply E | by apply one_reply_error] |].
  destruct (_ <=? block_size fd1).
  { apply bind_Ret_inv in H as (v & _ & H). by injection H as <- <- <-. }
  apply bind_Ret_inv in H as (v & _ & H). destruct (_ <? _); [done |].
  apply bind_Ret_inv in H as ([r2 fd2] & H2 & H). apply fetch_status in H2.
  destruct (negb (r2 =? 0)); [injection H as <- <- <-; split; [by apply E | by apply one_reply_error] |].
  apply bind_Ret_inv in H as (v1 & _ & H). apply bind_Ret_inv in H as (v2 & _ & H). by injection H as <- <- <-.
Qed.

Lemma handle_status fd q r out fd' : handle vtab ctx0 fd q = Ret (r, out, fd') ->
  (r =? NO_STATUS_EXIT) = stops (Request q) /\ one_reply r out.
Proof.
  destruct q as [major minor ra|name|nodeid|nodeid|nodeid offset size| | |op]; cbn [handle stops].
  - unfold handle_init. destruct (_ || _); by intros [= <- <- <-].
  - unfold handle_lookup. case_bool_decide as E1; [|case_bool_decide]; intros [= <- <- <-]; try done. rewrite E1. by split.
  - unfold handle_getattr. destruct (Z.eqb_spec nodeid FUSE_ROOT_ID) as [->|]; [by intros [= <- <- <-] |].
    destruct (Z.eqb_spec nodeid PACKAGE_FILE_ID) as [->|]; [by intros [= <- <- <-] |].
    destruct (Z.eqb_spec nodeid EXIT_FLAG_ID) as [->|]; by intros [= <- <- <-].
  - unfold handle_open. destruct (nodeid =? EXIT_FLAG_ID); [by intros [= <- <- <-] |]. destruct (negb _); by intros [= <- <- <-].
  - intros H. apply read_status in H as [H1 H2]. split; [by apply Z.eqb_neq | done].
  - by intros [= <- <- <-].
  - by intros [= <- <- <-].
  - by intros [= <- <- <-].
Qed.

(** The requests up to the event that stops the loop. *)
Fixpoint served (events : list event) : list request :=
  match events with
  | [] => []
  | e :: events' =>
      (match e with Request q => [q] | _ => [] end) ++ (if stops e then [] else served events')
  end.

Lemma serve_replies events : forall fd e outs fd', serve vtab ctx0 events fd = Ret (e, outs, fd') ->
  (e = Waiting <-> existsb stops events = false) /\ length outs = length (served events) /\ Forall (fun out => length out = 1%nat) outs.
Proof.
  induction events as [|[q| |errno] events IH]; intros fd e outs fd' H; cbn [serve] in H; cbn [served existsb].
  - by injection H as <- <- <-.
  - apply bind_Ret_inv in H as ([[r out] fd1] & H1 & H). apply handle_status in H1 as [Hst Hone]. rewrite <- Hst. unfold one_reply in Hone.
    destruct (r =? NO_STATUS_EXIT) eqn:Er.
    { rewrite orb_true_r in Hone. injection H as <- <- <-. cbn. split; [done |]. split; [done | by constructor]. }
    rewrite orb_false_r in Hone. cbv zeta in H. apply bind_Ret_inv in H as ([[e' outs'] fd2] & H2 & H). injection H as <- <- <-.
    destruct (IH _ _ _ _ H2) as (I1 & I2 & I3). split; [done |]. split; [cbn; by rewrite I2 |]. constructor; [|done].
    destruct (r =? NO_STATUS); [done | by rewrite Hone].
  - by apply IH in H.
  - cbn [stops]. destruct (errno =? ENODEV); [by injection H as <- <- <- | by apply IH in H].
Qed.
End Replies.

(** ** A provider that fails in the middle of a block

    The buffer is shared by the block that is being read and the one that is
    cached. *)
Section Poisoned.
Context {C : Type} (vtab : provider C) (ctx0 : HASH_CTX).

Lemma fetch_failed (fd : fuse_data C) block r got c' : 0 <= block < file_blocks fd -> block <> curr_block fd ->
  1024 <= block_size fd <= 2 ^ 22 -> length (block_data fd) = Z.to_nat (block_size fd) ->
  (block + 1) * block_size fd <= file_size fd -> (block + 1) * block_size fd < 2 ^ 32 ->
  read_block vtab (cookie fd) block (block_data fd) = Ret (r, got, c') -> r < 0 ->
  fetch_block vtab ctx0 fd block = Ret (r, set_block fd c' (curr_block fd) got).
Proof.
  intros Hb Hne Hbs Hl Hin Hmax Hr Hneg. unfold fetch_block. destruct (Z.eqb_spec block (curr_block fd)); [done |].
  destruct (Z.leb_spec (file_blocks fd) block); [lia |]. cbv zeta.
  rewrite (wrap_small 32 (block * _)) by (unfold in_range; nia). rewrite (wrap_small 64) by (unfold in_range; nia).
  destruct (Z.ltb_spec (file_size fd) (block * block_size fd + block_size fd)); [lia |]. rewrite bind_ret. cbv iota beta.
  rewrite (wrap_small 32) by (unfold in_range; lia). rewrite take_ge, drop_ge by lia. rewrite Hr, bind_ret. cbv iota beta.
  destruct (Z.ltb_spec r 0); [|lia]. by rewrite app_nil_r.
Qed.

Lemma read_block_range (fd : fuse_data C) b r fd' : 1024 <= block_size fd <= 2 ^ 22 -> 0 <= b -> (b + 1) * block_size fd < 2 ^ 32 ->
  fetch_block vtab ctx0 fd b = Ret (r, fd') -> block_size fd' = block_size fd -> length (block_data fd') = Z.to_nat (block_size fd) ->
  handle_read vtab ctx0 fd PACKAGE_FILE_ID (b * block_size fd) (block_size fd) =
  Ret (if r =? 0 then (NO_STATUS, [RData (block_data fd')], fd') else (r, [], fd')).
Proof.
  intros Hbs Hb Hmax Hf Hbs' Hl. unfold handle_read. change (negb (PACKAGE_FILE_ID =? PACKAGE_FILE_ID)) with false. cbv iota zeta.
  rewrite Z.div_mul by lia. rewrite (wrap_small 32 b) by (unfold in_range; nia). rewrite Hf, bind_ret. cbv iota beta.
  destruct (r =? 0); cbn [negb]; [|done]. rewrite Hbs'. rewrite (wrap_small 32 (b * _)) by (unfold in_range; nia).
  rewrite Z.sub_diag. change (u32 0) with 0. rewrite Z.add_0_r, (wrap_small 32) by (unfold in_range; lia).
  rewrite Z.leb_refl, sub_bytes_ok, bind_ret by lia. change (Z.to_nat 0) with 0%nat. by rewrite drop_0, take_ge by lia.
Qed.
End Poisoned.
