(* ===== verification/SideloadProviders.v ===== *)
(** * The two ends of a sideload

    The adb connection to a host that runs [adb_sideload_host], and a file of
    the sdcard, discharge the interface of a provider; the theorems on the
    sideload filesystem. *)

From S2P Require Import Prelude.
From S2P Require Import Limbs.
From S2P Require Import Sha.
From S2P Require Import ShaSpec.
From S2P Require Import CString.
From S2P Require Import Strto.
From S2P Require Import Scanf.
From S2P Require Import ScanfText.
From S2P Require Import ScanfSpec.
From S2P Require Import LoadKeys.
From S2P Require Import LoadKeysSpec.
From S2P Require Import AdbIo.
From S2P Require Import FuseSideload.
From S2P Require Import SideloadSpec.

(** ** Commands *)
Lemma radix_digits_length fuel : forall x k, 0 <= x < 10 ^ Z.of_nat k -> (0 < k)%nat -> (length (radix_digits fuel 10 x) <= k)%nat.
Proof.
  induction fuel as [|fuel IH]; intros x k Hx Hk; cbn [radix_digits]; [simpl; lia |]. destruct (Z.ltb_spec x 10); [simpl; lia |].
  destruct k as [|k]; [lia |]. rewrite Nat2Z.inj_succ, Z.pow_succ_r in Hx by lia.
  assert (Hk' : (0 < k)%nat) by (destruct k; simpl in Hx; lia). rewrite length_app. simpl.
  specialize (IH (x / 10) k ltac:(split; [apply Z.div_pos; lia | apply Z.div_lt_upper_bound; lia]) Hk'). lia.
Qed.

Lemma read_digits_zeros n : read_digits 10 0 (replicate n 48) = (0, []).
Proof. induction n as [|n IH]; [done |]. simpl. exact IH. Qed.

Lemma strtol_digits ds v : Forall (fun c => is_base_digit 10 c = true) ds -> ds <> [] -> read_digits 10 0 ds = (v, []) -> 0 <= v < 2 ^ 31 ->
  CString.strtol ds 10 = v.
Proof.
  intros Hd Hne Hv Hr. destruct ds as [|c ds]; [done |]. pose proof Hd as Hd'. apply Forall_cons in Hd as [Hc _].
  unfold CString.strtol. assert (Hr' : 48 <= c <= 57) by (destruct (base_digit_char 10 c ltac:(by left) Hc); lia).
  assert (S1 : isspace c = false) by (unfold isspace; zbool; lia).
  cbn [skip_spaces]. rewrite S1. cbn [read_sign]. destruct (Z.eqb_spec c 45); [lia |]. destruct (Z.eqb_spec c 43); [lia |]. rewrite Hv. unfold LONG_MAX.
  destruct (Z.ltb_spec (2 ^ 63 - 1) v); [lia |]. destruct (Z.ltb_spec v (- (2 ^ 63 - 1) - 1)); lia.
Qed.

Definition command (b : Z) : bytes := zero_padded 8 10 b.

Lemma command_ok b : 0 <= b < 10 ^ 8 -> length (command b) = 8%nat /\ command b <> str "DONEDONE" /\ CString.strtol (command b) 10 = b.
Proof.
  intros Hb. destruct (toString_number 10 b [] ltac:(by left) ltac:(lia) I) as [_ H1 H2 _ _ H4 _].
  assert (Hl : (length (toString 10 b) <= 8)%nat) by (apply radix_digits_length; [exact Hb | lia]).
  assert (Hd : Forall (fun c => is_base_digit 10 c = true) (command b)).
  { apply Forall_app. split; [by apply Forall_replicate | done]. }
  unfold command in *. split; [unfold zero_padded; cbv zeta; rewrite length_app, length_replicate; lia |]. split.
  - intros E. rewrite E in Hd. apply Forall_cons in Hd as [Hd _]. discriminate Hd.
  - apply strtol_digits; [done | | | lia].
    + unfold zero_padded. cbv zeta. by destruct (replicate _ 48).
    + unfold zero_padded. cbv zeta. rewrite read_digits_app by by apply Forall_replicate. rewrite read_digits_zeros. exact H4.
Qed.

(** ** Exact transfers *)
Definition patient (n : Z) : Prop := 0 <= n \/ n = - EAGAIN.

Lemma write_exactly_ok script : forall p tx, Forall patient script ->
  exists script', write_exactly_loop script p tx = (true, tx ++ p, script') /\ Forall patient script'.
Proof.
  induction script as [|r script IH]; intros p tx H.
  - exists []. split; [|constructor]. by destruct p; cbn; rewrite ?app_nil_r.
  - apply Forall_cons in H as [Hr H]. destruct p as [|c p]; cbn [write_exactly_loop]; [exists (r :: script); rewrite app_nil_r; split; [done | by constructor] |].
    destruct Hr as [Hr | ->]; [|by apply IH]. destruct (Z.ltb_spec r 0); [lia |].
    destruct (IH (drop (Z.to_nat r) (c :: p)) (tx ++ take (Z.to_nat r) (c :: p)) H) as (script' & -> & H').
    exists script'. by rewrite <- app_assoc, take_drop.
Qed.

Lemma WriteFdExactly_ok buf s : Forall patient (so_writes s) ->
  exists script, WriteFdExactly buf s = (true, Socket (so_peer s) (so_tx s ++ buf) (so_taken s) (so_reads s) script) /\ Forall patient script.
Proof. intros H. unfold WriteFdExactly. destruct (write_exactly_ok (so_writes s) buf (so_tx s) H) as (script & -> & H'). by exists script. Qed.

Lemma read_exactly_ok fuel : forall len got s sent closed, so_peer s (so_tx s) = (sent, closed) -> Forall (fun n => 0 <= n) (so_reads s) ->
  0 <= len <= Z.of_nat fuel -> (so_taken s + Z.to_nat len <= length sent)%nat ->
  exists script, read_exactly_loop fuel len got s =
    Ret (true, got ++ take (Z.to_nat len) (drop (so_taken s) sent), Socket (so_peer s) (so_tx s) (so_taken s + Z.to_nat len) script (so_writes s)) /\
    Forall (fun n => 0 <= n) script.
Proof.
  induction fuel as [|fuel IH]; intros len got s sent closed Hp Hr Hl Ha.
  { assert (len = 0) as -> by lia. exists (so_reads s). cbn. rewrite app_nil_r, Nat.add_0_r. by destruct s. }
  cbn [read_exactly_loop]. destruct (Z.leb_spec len 0).
  { assert (len = 0) as -> by lia. exists (so_reads s). cbn. rewrite app_nil_r, Nat.add_0_r. by destruct s. }
  assert (Hn : exists n script, adb_read len s = Ret (Z.of_nat n, take n (drop (so_taken s) sent),
    Socket (so_peer s) (so_tx s) (so_taken s + n) script (so_writes s)) /\ Forall (fun n => 0 <= n) script /\ (0 < n <= Z.to_nat len)%nat).
  { unfold adb_read. rewrite Hp. assert (La : length (drop (so_taken s) sent) = (length sent - so_taken s)%nat) by apply length_drop.
    destruct (Nat.eqb_spec (length (drop (so_taken s) sent)) 0) as [|_]; [lia |].
    destruct (so_reads s) as [|r rs].
    - destruct (Z.ltb_spec len 0); [lia |]. rewrite Z.min_id, Z.max_r by lia. exists (Z.to_nat len), [].
      rewrite length_take, La, Nat.min_l by lia. split; [done |]. split; [done | lia].
    - apply Forall_cons in Hr as [Hr0 Hr]. destruct (Z.ltb_spec r 0); [lia |].
      set (n := Z.to_nat (Z.max 1 (Z.min r len))). exists n, rs. rewrite length_take, La, Nat.min_l by lia. split; [done |]. split; [done | lia]. }
  destruct Hn as (n & script & -> & Hs & Hn). rewrite bind_ret. cbv iota beta. destruct (Z.ltb_spec 0 (Z.of_nat n)); [|lia].
  destruct (IH (len - Z.of_nat n) (got ++ take n (drop (so_taken s) sent)) (Socket (so_peer s) (so_tx s) (so_taken s + n) script (so_writes s)) sent closed)
    as (script' & -> & Hs'); cbn [so_peer so_tx so_reads so_taken so_writes]; try done; try lia.
  exists script'. split; [|done]. rewrite <- app_assoc, <- drop_drop, take_take_drop.
  by replace (n + Z.to_nat (len - Z.of_nat n))%nat with (Z.to_nat len) by lia; replace (so_taken s + n + Z.to_nat (len - Z.of_nat n))%nat with (so_taken s + Z.to_nat len)%nat by lia.
Qed.

(** ** The host *)
Section Adb.
Context (pkg : bytes) (Hlen : Z.of_nat (length pkg) < 2 ^ 31).
Abbreviation bs := SIDELOAD_HOST_BLOCK_SIZE.

Definition has_block (b : Z) : Prop := 0 <= b /\ b * bs < Z.of_nat (length pkg).

(** What the host sends for a block: the last one is not padded. *)
Definition host_block (b : Z) : bytes := extent pkg (Z.to_nat (b * bs)) (Z.to_nat (Z.min bs (Z.of_nat (length pkg) - b * bs))).

Definition host_blocks (blocks : list Z) : bytes := concat (map host_block blocks).

Lemma host_block_slice b : has_block b ->
  let to_write := if Z.of_nat (length pkg) <? b * bs + bs then Z.of_nat (length pkg) - b * bs else bs in
  take (Z.to_nat to_write) (drop (Z.to_nat (b * bs)) pkg) = host_block b.
Proof.
  intros [H1 H2] to_write. unfold host_block. assert (Et : to_write = Z.min bs (Z.of_nat (length pkg) - b * bs)).
  { unfold to_write. destruct (Z.ltb_spec (Z.of_nat (length pkg)) (b * bs + bs)); lia. }
  assert (0 < bs) by reflexivity.
  rewrite Et. unfold extent. rewrite take_app_le; [done |]. rewrite length_drop. lia.
Qed.

Lemma host_loop_blocks blocks : Forall has_block blocks -> forall fuel tail, host_loop (length blocks + fuel) pkg (concat (map command blocks) ++ tail) =
  (host_blocks blocks ++ fst (host_loop fuel pkg tail), snd (host_loop fuel pkg tail)).
Proof.
  induction blocks as [|b blocks IH]; intros H fuel tail; [cbn; by destruct (host_loop fuel pkg tail) |].
  apply Forall_cons in H as [[Hb1 Hb2] H]. change SIDELOAD_HOST_BLOCK_SIZE with 65536 in Hb2.
  destruct (command_ok b ltac:(lia)) as (C1 & C2 & C3). cbn [length Nat.add map concat host_loop]. rewrite <- app_assoc.
  rewrite length_app, C1, take_app_length', drop_app_length' by done.
  destruct (Nat.ltb_spec (8 + length (concat (map command blocks) ++ tail)) 8); [lia |].
  rewrite bool_decide_eq_false_2 by done. cbv zeta. rewrite C3, IH by done.
  change SIDELOAD_HOST_BLOCK_SIZE with 65536. rewrite (swrap_small 32 b) by (unfold in_srange; lia).
  rewrite (swrap_small 32 (b * 65536)) by (unfold in_srange; lia). rewrite !(wrap_small 64) by (unfold in_range; lia).
  destruct (Z.leb_spec (Z.of_nat (length pkg)) (b * 65536)); [lia |].
  pose proof (host_block_slice b (conj Hb1 Hb2)) as E. cbv zeta in E. change SIDELOAD_HOST_BLOCK_SIZE with 65536 in E. rewrite E.
  unfold host_blocks. cbn [map concat]. by rewrite <- app_assoc.
Qed.

Lemma commands_length blocks : Forall has_block blocks -> length (concat (map command blocks)) = (8 * length blocks)%nat.
Proof.
  induction blocks as [|b blocks IH]; intros H; [done |]. apply Forall_cons in H as [[Hb1 Hb2] H]. change SIDELOAD_HOST_BLOCK_SIZE with 65536 in Hb2.
  cbn [map concat]. rewrite length_app, IH, (proj1 (command_ok b ltac:(lia))) by done. simpl. lia.
Qed.

Lemma host_sends blocks tail closed : Forall has_block blocks -> (forall fuel, host_loop (S fuel) pkg tail = ([], closed)) ->
  adb_sideload_host pkg (concat (map command blocks) ++ tail) = (host_blocks blocks, closed).
Proof.
  intros H Ht. unfold adb_sideload_host. rewrite length_app, commands_length by done.
  replace (S (8 * length blocks + length tail))%nat with (length blocks + S (7 * length blocks + length tail))%nat by lia.
  rewrite host_loop_blocks by done. rewrite Ht. by rewrite app_nil_r.
Qed.

(** The connection between commands: every byte sent has been read. *)
Record adb_inv (s : socket) : Prop := mk_adb_inv {
  ai_peer : so_peer s = adb_sideload_host pkg;
  ai_reads : Forall (fun n => 0 <= n) (so_reads s);
  ai_writes : Forall patient (so_writes s);
  ai_blocks : exists blocks, Forall has_block blocks /\ so_tx s = concat (map command blocks) /\ so_taken s = length (host_blocks blocks)
}.

#[local] Instance adb_serves : Serves adb_provider adb_inv pkg bs.
Proof.
  split. intros s b buf [Hp Hr Hw (blocks & Hb & Htx & Htk)] Hb0 Hlt Hbuf. cbn [read_block adb_provider].
  unfold read_block_adb. fold (command b). destruct (WriteFdExactly_ok (command b) s Hw) as (script & -> & Hw'). cbn [negb].
  assert (Hbs : Forall has_block (blocks ++ [b])) by (apply Forall_app; split; [done | by repeat constructor]).
  assert (Htx' : so_tx s ++ command b = concat (map command (blocks ++ [b]))) by (rewrite Htx, map_app, concat_app; cbn; by rewrite app_nil_r).
  assert (Hsent : host_blocks (blocks ++ [b]) = host_blocks blocks ++ host_block b) by (unfold host_blocks; rewrite map_app, concat_app; cbn; by rewrite app_nil_r).
  assert (Hl : length (host_block b) = length buf) by (unfold host_block; rewrite extent_length; lia).
  unfold ReadFdExactly. destruct (read_exactly_ok (Z.to_nat (Z.of_nat (length buf))) (Z.of_nat (length buf)) []
    (Socket (so_peer s) (so_tx s ++ command b) (so_taken s) (so_reads s) script) (host_blocks (blocks ++ [b])) false) as (reads & -> & Hr');
    cbn [so_peer so_tx so_taken so_reads so_writes]; try done; try lia.
  { rewrite Hp, Htx'. rewrite <- (app_nil_r (concat _)). by apply host_sends. }
  { rewrite Hsent, length_app, Htk, Hl. lia. }
  rewrite bind_ret. cbv iota beta zeta. cbn [app]. rewrite Hsent, Htk, drop_app_length, Nat2Z.id, take_ge by lia.
  rewrite drop_ge, app_nil_r by lia. eexists. split.
  - unfold host_block. replace (Z.to_nat (Z.min bs (Z.of_nat (length pkg) - b * bs))) with (length buf) by lia. reflexivity.
  - split; cbn [so_peer so_tx so_taken so_reads so_writes]; try done. exists (blocks ++ [b]). rewrite Hsent, length_app, Hl. done.
Qed.

Lemma close_adb_ends s : adb_inv s -> exists sent, so_peer (close_adb s) (so_tx (close_adb s)) = (sent, true) /\ length sent = so_taken s.
Proof.
  intros [Hp Hr Hw (blocks & Hb & Htx & Htk)]. unfold close_adb. destruct (WriteFdExactly_ok (str "DONEDONE") s Hw) as (script & -> & _).
  cbn [snd so_peer so_tx]. rewrite Hp, Htx. exists (host_blocks blocks). split; [by apply host_sends | done].
Qed.
End Adb.

(** ** The handshake *)
Lemma scan_sizes a b v w : number 10 a (58 :: b) v -> number 10 b [] w ->
  fscanf (a ++ 58 :: b) "%d:%d" = Ret (2, [AInt 32 (i32 v); AInt 32 (i32 w)], []).
Proof. intros Hv Hw. open_format. scan_step. scan_step. rewrite <- (app_nil_r b). scan_step. reflexivity. Qed.

Lemma handshake sz : 0 <= sz < 2 ^ 31 ->
  sideload_host_service (drop 14 (sideload_service sz)) = Ret (Some (sz, SIDELOAD_HOST_BLOCK_SIZE)).
Proof.
  intros Hs. unfold sideload_service. change SIDELOAD_HOST_BLOCK_SIZE with 65536. change (print_d 65536) with (toString 10 65536). rewrite drop_app_length' by reflexivity.
  unfold print_d. rewrite (swrap_small 32 sz) by (unfold in_srange; lia). destruct (Z.ltb_spec sz 0); [lia |].
  unfold sideload_host_service. change (str ":" ++ ?b) with (58 :: b).
  rewrite (scan_sizes _ _ sz 65536).
  - rewrite bind_ret. cbv iota beta. change (negb (2 =? 2)) with false. cbv iota. cbn [stored lookup list_lookup].
    rewrite !(swrap_small 32 sz) by (unfold in_srange; lia). rewrite (wrap_small 64) by (unfold in_range; lia). done.
  - apply toString_number; [by left | lia |]. cbn. intros n base flags. done.
  - apply toString_number; [by left | lia | exact I].
Qed.

(** ** A file of the sdcard *)
Lemma read_file_ok fuel : forall fetch pos content got script, Forall (fun n => 0 <= n) script -> 0 <= fetch <= Z.of_nat fuel ->
  (pos + Z.to_nat fetch <= length content)%nat ->
  exists script', read_file_loop fuel fetch pos content got script = Ret (0, got ++ take (Z.to_nat fetch) (drop pos content), script') /\
    Forall (fun n => 0 <= n) script'.
Proof.
  induction fuel as [|fuel IH]; intros fetch pos content got script Hs Hf Hp; cbn [read_file_loop].
  { assert (fetch = 0) as -> by lia. exists script. cbn. by rewrite app_nil_r. }
  destruct (Z.leb_spec fetch 0). { assert (fetch = 0) as -> by lia. exists script. cbn. by rewrite app_nil_r. }
  destruct script as [|r script]; [cbv iota beta | apply Forall_cons in Hs as [Hr Hs]; cbv iota beta].
  - destruct (Z.ltb_spec fetch 0); [lia |]. cbv zeta. rewrite Z.min_id, Z.max_r by lia. rewrite length_take, length_drop, Nat.min_l by lia.
    edestruct (IH (fetch - Z.of_nat (Z.to_nat fetch)) (pos + Z.to_nat fetch)%nat content) as (s' & -> & Hs'); [exact Hs | lia | lia |].
    exists s'. split; [|done]. replace (Z.to_nat (fetch - Z.of_nat (Z.to_nat fetch))) with 0%nat by lia. by rewrite take_0, app_nil_r.
  - destruct (Z.ltb_spec r 0); [lia |]. cbv zeta. set (n := Z.to_nat (Z.max 1 (Z.min r fetch))).
    rewrite length_take, length_drop, Nat.min_l by lia.
    edestruct (IH (fetch - Z.of_nat n) (pos + n)%nat content) as (s' & -> & Hs'); [exact Hs | lia | lia |]. exists s'. split; [|done].
    rewrite <- app_assoc, <- drop_drop, take_take_drop. by replace (n + Z.to_nat (fetch - Z.of_nat n))%nat with (Z.to_nat fetch) by lia.
Qed.

(** A file that ends before the block does is read for ever. *)
Lemma read_file_hangs fuel : forall fetch pos content got script, Forall (fun n => 0 <= n) script ->
  Z.of_nat (length content) < Z.of_nat pos + fetch -> 0 < fetch -> read_file_loop fuel fetch pos content got script = Diverge.
Proof.
  induction fuel as [|fuel IH]; intros fetch pos content got script Hs Hp Hf; cbn [read_file_loop]; (destruct (Z.leb_spec fetch 0); [lia |]); [done |].
  assert (G : forall limit script', 0 <= limit -> Forall (fun n => 0 <= n) script' ->
    (let data := take (Z.to_nat (Z.max 1 (Z.min limit fetch))) (drop pos content) in
     read_file_loop fuel (fetch - Z.of_nat (length data)) (pos + length data) content (got ++ data) script') = Diverge).
  { intros limit script' Hl Hs'. cbv zeta. set (data := take _ _).
    assert (Hd : (length data <= length content - pos)%nat) by (unfold data; rewrite length_take, length_drop; lia).
    assert (Hd2 : (length data <= Z.to_nat fetch)%nat) by (unfold data; rewrite length_take; lia).
    apply IH; [done | lia |]. destruct (decide (length content <= pos)%nat); lia. }
  destruct script as [|r script]; [cbv iota beta | apply Forall_cons in Hs as [Hr Hs]; cbv iota beta].
  - destruct (Z.ltb_spec fetch 0); [lia |]. apply G; [lia | done].
  - destruct (Z.ltb_spec r 0); [lia |]. by apply G.
Qed.

Section Sdcard.
Context (pkg : bytes) (bs : Z) (fuel : nat) (Hbs : 0 < bs <= Z.of_nat fuel).

Record sdcard_inv (f : file_data) : Prop := mk_sdcard_inv {
  si_content : fl_content f = pkg;
  si_bs : fl_block_size f = bs;
  si_seek : fl_seek_ok f = true;
  si_reads : Forall (fun n => 0 <= n) (fl_reads f)
}.

#[local] Instance sdcard_serves : Serves (sdcard_provider fuel) sdcard_inv pkg bs.
Proof.
  split. intros f b buf [H1 H2 H3 H4] Hb Hlt Hbuf. cbn [read_block sdcard_provider]. unfold read_block_file. rewrite H2, H3. cbn [negb]. cbv zeta.
  assert (0 <= b * bs) by nia.
  destruct (read_file_ok fuel (Z.of_nat (length buf)) (Z.to_nat (b * bs)) (fl_content f) [] (fl_reads f) H4 ltac:(lia) ltac:(rewrite H1; lia))
    as (script & -> & Hs). rewrite bind_ret. cbv iota beta. cbn [app]. rewrite H1, Nat2Z.id.
  assert (Hl : length (take (length buf) (drop (Z.to_nat (b * bs)) pkg)) = length buf) by (rewrite length_take, length_drop; lia).
  rewrite Hl, (drop_ge buf), app_nil_r by lia. eexists. split.
  - unfold extent. rewrite take_app_le by (rewrite length_drop; lia). reflexivity.
  - by split.
Qed.
End Sdcard.

(** ** Examples *)
Definition sl_junk : bytes := replicate (Z.to_nat 65536) 0.

Lemma sl_junk_length : 65536 <= Z.of_nat (length sl_junk).
Proof. unfold sl_junk. rewrite length_replicate. lia. Qed.

Lemma sl_junk_ok : bytes_ok sl_junk.
Proof. unfold sl_junk. by apply Forall_replicate. Qed.

(** A run: stat, open, a read across a block boundary, the exit flag. *)
Definition sl_events : list event :=
  [Request (QInit 7 23 131072); TooShort; Request (QLookup (str "package.zip")); Request (QOpen 2); Request (QRead 2 1000 1000);
   Request (QGetattr 1); Request (QRead 2 0 1024); Request QFlush; Request (QOther 15); Request (QLookup (str "exit")); Request QRelease].

Lemma sl_events_bounded bs : 1024 <= bs -> Forall (bounded_event bs) sl_events.
Proof. intros H. repeat constructor; cbn; nia. Qed.

Lemma ex_setup : exists fd : fuse_data Z, run_fuse_sideload 0 5000 1024 true sl_junk sl_junk = Some fd.
Proof. by eexists. Qed.

(** A provider that answers every read differently. *)
Definition fickle : provider Z := Provider (fun c _ buf => Ret (0, replicate (length buf) (c mod 256), c + 1)).

#[local] Instance fickle_responds : Responds fickle (fun _ => True).
Proof.
  split. intros c block buf _ _. eexists _, _, _. split; [reflexivity |]. split; [done |]. split; [apply length_replicate |].
  split; [|done]. apply Forall_replicate. apply Z.mod_pos_bound. lia.
Qed.

(** ** Properties *)

(** C5. adb sideload, end to end: the host announces a package below 2 GiB and
    the recovery reads its size and block size out of the service name; the
    filesystem it then mounts over the connection answers every sequence of
    requests with the package itself, whatever the short reads and short writes
    of the connection; when it is closed the host has sent exactly what was
    read, and hangs up. *)
Theorem sideload_over_adb pkg ctx0 reads writes junk junk' events :
  ctx_shape ctx0 -> bytes_ok pkg -> Z.of_nat (length pkg) < 2 ^ 31 ->
  Forall (fun n => 0 <= n) reads -> Forall patient writes ->
  65536 <= Z.of_nat (length junk) -> 65536 <= Z.of_nat (length junk') -> Forall (bounded_event 65536) events ->
  exists size bs fd fd', sideload_host_service (drop 14 (sideload_service (Z.of_nat (length pkg)))) = Ret (Some (size, bs)) /\
    run_fuse_sideload (Socket (adb_sideload_host pkg) [] 0 reads writes) size bs true junk junk' = Some fd /\
    serve adb_provider ctx0 events fd = Ret (answers pkg events fd, fd') /\
    exists sent, so_peer (close_adb (cookie fd')) (so_tx (close_adb (cookie fd'))) = (sent, true) /\ length sent = so_taken (cookie fd').
Proof.
  intros Hctx Hpkg Hlen Hr Hw H1 H2 He. set (s0 := Socket (adb_sideload_host pkg) [] 0 reads writes).
  assert (Hinv : adb_inv pkg s0) by (split; try done; by exists []).
  destruct (serves_package adb_provider (adb_inv pkg) pkg SIDELOAD_HOST_BLOCK_SIZE (HS := adb_serves pkg Hlen) ctx0 Hctx Hpkg
    ltac:(change SIDELOAD_HOST_BLOCK_SIZE with 65536; lia) ltac:(lia) s0 junk junk' events Hinv
    ltac:(change SIDELOAD_HOST_BLOCK_SIZE with 65536; lia) ltac:(change SIDELOAD_HOST_BLOCK_SIZE with 65536; lia)
    ltac:(change SIDELOAD_HOST_BLOCK_SIZE with 65536; lia) He) as (fd & fd' & E1 & E2 & Hinv').
  exists (Z.of_nat (length pkg)), SIDELOAD_HOST_BLOCK_SIZE, fd, fd'. split; [apply handshake; lia |]. split; [done |]. split; [done |].
  by apply (close_adb_ends pkg).
Qed.

Lemma sideload_over_adb_witness : exists size bs fd fd',
  sideload_host_service (drop 14 (sideload_service 5)) = Ret (Some (size, bs)) /\
  run_fuse_sideload (Socket (adb_sideload_host (str "hello")) [] 0 [2; 0; 1] [3; -11; 1]) size bs true sl_junk sl_junk = Some fd /\
  serve adb_provider zero_ctx sl_events fd = Ret (answers (str "hello") sl_events fd, fd') /\
  exists sent, so_peer (close_adb (cookie fd')) (so_tx (close_adb (cookie fd'))) = (sent, true) /\ length sent = so_taken (cookie fd').
Proof.
  apply (sideload_over_adb (str "hello") zero_ctx [2; 0; 1] [3; -11; 1] sl_junk sl_junk sl_events zero_ctx_shape).
  - repeat constructor; done.
  - done.
  - repeat constructor; lia.
  - repeat constructor; unfold patient, EAGAIN; lia.
  - exact sl_junk_length.
  - exact sl_junk_length.
  - apply sl_events_bounded. lia.
Defined.

(** A read of the sideload filesystem is a read of the package: with any
    provider that serves it, mounting succeeds and every sequence of requests
    (lookups, stats, opens, and reads of up to a block anywhere, across block
    boundaries and past the end) is answered as by a read-only file that holds
    the package; the cache, the digests and the second buffer do not show. *)
Theorem sideload_serves {C} (vtab : provider C) inv pkg bs {HS : Serves vtab inv pkg bs} ctx0 c junk junk' events :
  ctx_shape ctx0 -> bytes_ok pkg -> 1024 <= bs <= 2 ^ 22 -> Z.of_nat (length pkg) < 2 ^ 32 -> Z.of_nat (length pkg) <= bs * 2 ^ 18 ->
  inv c -> (Z.to_nat bs <= length junk)%nat -> (Z.to_nat bs <= length junk')%nat -> Forall (bounded_event bs) events ->
  exists fd fd', run_fuse_sideload c (Z.of_nat (length pkg)) bs true junk junk' = Some fd /\
    serve vtab ctx0 events fd = Ret (answers pkg events fd, fd').
Proof.
  intros Hctx Hpkg Hbs H32 Hmax Hc H1 H2 He.
  destruct (serves_package vtab inv pkg bs ctx0 Hctx Hpkg Hbs H32 c junk junk' events Hc Hmax H1 H2 He) as (fd & fd' & E1 & E2 & _). by exists fd, fd'.
Qed.

Lemma sideload_serves_witness : exists fd fd', run_fuse_sideload (FileData (str "hello") 1024 true [2]) 5 1024 true sl_junk sl_junk = Some fd /\
  serve (sdcard_provider 1024) zero_ctx sl_events fd = Ret (answers (str "hello") sl_events fd, fd').
Proof.
  pose proof sl_junk_length as Hj.
  apply (sideload_serves (sdcard_provider 1024) (sdcard_inv (str "hello") 1024) (str "hello") 1024 (HS := sdcard_serves (str "hello") 1024 1024 ltac:(lia))
    zero_ctx (FileData (str "hello") 1024 true [2]) sl_junk sl_junk sl_events zero_ctx_shape).
  - repeat constructor; done.
  - lia.
  - done.
  - done.
  - split; try done. by repeat constructor.
  - lia.
  - lia.
  - by apply sl_events_bounded.
Defined.



(** C29. The loop of the server runs until it is told to stop and no longer:
    every request it receives gets exactly one reply, in order, and the loop
    has ended precisely when the exit flag was looked up or asked for or the
    device went away; with a provider that answers it never blocks or faults. *)
Theorem sideload_replies {C} (vtab : provider C) inv {HR : Responds vtab inv} ctx0 c size bs junk junk' fd events :
  ctx_shape ctx0 -> inv c -> 0 <= size < 2 ^ 64 -> bytes_ok junk -> (Z.to_nat bs <= length junk)%nat -> (Z.to_nat bs <= length junk')%nat ->
  run_fuse_sideload c size bs true junk junk' = Some fd -> Forall (bounded_event bs) events ->
  exists e outs fd', serve vtab ctx0 events fd = Ret (e, outs, fd') /\ (e = Waiting <-> existsb stops events = false) /\
    length outs = length (served events) /\ Forall (fun out => length out = 1%nat) outs.
Proof.
  intros Hctx Hc Hsz Hj H1 H2 Hset He. destruct (setup_safe inv c size bs junk junk' fd Hc Hsz Hj H1 H2 Hset) as [Hs Hbs].
  destruct (serve_safe vtab inv ctx0 Hctx events fd Hs ltac:(by rewrite Hbs)) as (e & outs & fd' & E & _). exists e, outs, fd'.
  split; [done |]. by apply (serve_replies vtab ctx0 events fd e outs fd').
Qed.

Lemma sideload_replies_witness : exists fd e outs fd', run_fuse_sideload 0 5000 1024 true sl_junk sl_junk = Some fd /\
  serve fickle zero_ctx sl_events fd = Ret (e, outs, fd') /\
  (e = Waiting <-> existsb stops sl_events = false) /\ length outs = length (served sl_events) /\ Forall (fun out => length out = 1%nat) outs.
Proof.
  destruct ex_setup as [fd Hset]. exists fd. pose proof sl_junk_length as Hj.
  destruct (sideload_replies fickle (fun _ => True) zero_ctx 0 5000 1024 sl_junk sl_junk fd sl_events zero_ctx_shape I) as (e & outs & fd' & E);
    [lia | exact sl_junk_ok | lia | lia | exact Hset | by apply sl_events_bounded |].
  exists e, outs, fd'. split; [exact Hset |]. exact E.
Defined.

(** C36. A provider that fails in the middle of a block poisons the cache: the
    failed read of one block is reported, but what it left in the buffer is
    then served, without a digest check, as the block that was cached. *)
Theorem sideload_poisoned {C} (vtab : provider C) ctx0 (fd : fuse_data C) block r got c' :
  0 <= block < file_blocks fd -> 0 <= curr_block fd < file_blocks fd -> block <> curr_block fd -> 1024 <= block_size fd <= 2 ^ 22 ->
  length (block_data fd) = Z.to_nat (block_size fd) -> file_blocks fd * block_size fd <= file_size fd < 2 ^ 32 ->
  read_block vtab (cookie fd) block (block_data fd) = Ret (r, got, c') -> r < 0 -> length got = length (block_data fd) ->
  exists fd', handle_read vtab ctx0 fd PACKAGE_FILE_ID (block * block_size fd) (block_size fd) = Ret (r, [], fd') /\
    handle_read vtab ctx0 fd' PACKAGE_FILE_ID (curr_block fd * block_size fd) (block_size fd) = Ret (NO_STATUS, [RData got], fd').
Proof.
  intros Hb Hc Hne Hbs Hl Hsz Hrd Hr Hg. assert ((block + 1) * block_size fd <= file_size fd) by nia.
  assert ((curr_block fd + 1) * block_size fd <= file_size fd) by nia.
  pose proof (fetch_failed vtab ctx0 fd block r got c' Hb Hne Hbs Hl ltac:(lia) ltac:(lia) Hrd Hr) as Hf.
  set (fd' := set_block fd c' (curr_block fd) got) in *. exists fd'. split.
  - rewrite (read_block_range vtab ctx0 fd block r fd' Hbs ltac:(lia) ltac:(lia) Hf eq_refl); [|cbn; lia]. by destruct (Z.eqb_spec r 0); [lia |].
  - assert (Hf' : fetch_block vtab ctx0 fd' (curr_block fd) = Ret (0, fd')) by (unfold fetch_block; cbn [fd' set_block curr_block]; by rewrite Z.eqb_refl).
    change (block_size fd) with (block_size fd'). rewrite (read_block_range vtab ctx0 fd' (curr_block fd) 0 fd'); try done; cbn; lia.
Qed.

Lemma sideload_poisoned_witness : exists fd fd' : fuse_data socket,
  sha256 (block_data fd) = hash_at (hashes fd) 0 /\
  handle_read adb_provider zero_ctx fd PACKAGE_FILE_ID 1024 1024 = Ret (- EIO, [], fd') /\
  handle_read adb_provider zero_ctx fd' PACKAGE_FILE_ID 0 1024 = Ret (NO_STATUS, [RData (str "evil" ++ replicate 1020 7)], fd').
Proof.
  set (fd := FuseData (Socket (fun _ => (str "evil", true)) [] 0 [] []) 2048 1024 2 0 (replicate 1024 7) (replicate 1024 0)
    (sha256 (replicate 1024 7) ++ replicate 32 0)). exists fd.
  edestruct (sideload_poisoned adb_provider zero_ctx fd 1 (- EIO) (str "evil" ++ replicate 1020 7)) as (fd' & E1 & E2);
    [cbn; lia | cbn; lia | done | cbn; lia | reflexivity | cbn; lia | reflexivity | done | done |].
  exists fd'. split; [|split; [exact E1 | exact E2]]. unfold hash_at. cbn [fd block_data hashes].
  change (Z.to_nat (32 * 0)) with 0%nat. rewrite drop_0, take_app_length' by (symmetry; apply sha256_length). done.
Defined.

(** The sdcard provider does not come back from a block that the file does
    not hold in full: read returns 0 at the end of the file and the loop goes
    on, however long it runs. *)
Theorem sdcard_truncated fuel f block buffer : 0 <= block -> fl_seek_ok f = true -> 0 <= fl_block_size f -> Forall (fun n => 0 <= n) (fl_reads f) ->
  Z.of_nat (length (fl_content f)) < block * fl_block_size f + Z.of_nat (length buffer) -> (0 < length buffer)%nat ->
  read_block_file fuel f block buffer = Diverge.
Proof.
  intros Hb Hk Hs Hr Hl Hn. unfold read_block_file. rewrite Hk. cbn [negb]. cbv zeta. rewrite read_file_hangs; [done | done | nia | lia].
Qed.

Lemma sdcard_truncated_witness : read_block_file 2000 (FileData (str "hello") 1024 true [3]) 0 (replicate 1024 0) = Diverge.
Proof. apply sdcard_truncated; try done; [by repeat constructor | cbn; lia]. Defined.
