(* ===== verification/BsPatch.v ===== *)
(** * Binary patches

    Models src/bootable/recovery/applypatch/bspatch.c and bsdiff.c but for its
    suffix sort, which is in QSufSort.v. bzip2 is a parameter: what compressing
    a block gives, and what a decompressor delivers for the bytes it is given
    and how it ends. *)

From S2P Require Import Prelude.
From S2P Require Import Sha.
From S2P Require Import CString.
From S2P Require Import Verifier.

(** How a decompressor goes on after its last byte of output: it has seen the
    end of the stream, found an error, or waits for more input. *)
Inductive bz_end :=
  | BzStreamEnd
  | BzDataError
  | BzStarved.

(** ** Numbers: 63 bits of magnitude, little endian, and a sign *)
Definition offtin (buf : bytes) : Z :=
  let y := Z.land (rd buf 7) 0x7F in
  let y := y * 256 + rd buf 6 in
  let y := y * 256 + rd buf 5 in
  let y := y * 256 + rd buf 4 in
  let y := y * 256 + rd buf 3 in
  let y := y * 256 + rd buf 2 in
  let y := y * 256 + rd buf 1 in
  let y := y * 256 + rd buf 0 in
  if negb (Z.land (rd buf 7) 0x80 =? 0) then - y else y.

Fixpoint offtout_loop (n : nat) (y : Z) : bytes :=
  match n with
  | O => []
  | S n' => let b := y mod 256 in b :: offtout_loop n' ((y - b) / 256)
  end.

Definition offtout (x : Z) : bytes :=
  let buf := offtout_loop 8 (if x <? 0 then - x else x) in
  if x <? 0 then wr buf 7 (Z.lor (rd buf 7) 0x80) else buf.

Section Bzip2.
Context (bz_compress : bytes -> bytes) (bz_decompress : bytes -> bytes * bz_end).

(** ** Applying a patch *)

(** [bz_stream]: the output still to come; whether [avail_in] reaches beyond
    the buffer that [next_in] points into. *)
Record bz_stream := BzStream {
  bz_out : bytes;
  bz_status : bz_end;
  bz_over : bool
}.

Definition bz_init (mem : bytes) (next_in avail_in : Z) : bz_stream :=
  let rest := drop (Z.to_nat next_in) mem in
  let avail_in := u32 avail_in in
  let '(out, status) := bz_decompress (take (Z.to_nat avail_in) rest) in
  BzStream out status (Z.of_nat (length rest) <? avail_in).

(** Writing [data] at [pos] of a buffer. *)
Definition put_bytes (buf : bytes) (pos : Z) (data : bytes) : outcome bytes :=
  if (0 <=? pos) && (pos + Z.of_nat (length data) <=? Z.of_nat (length buf))
  then Ret (take (Z.to_nat pos) buf ++ data ++ drop (Z.to_nat pos + length data) buf)
  else Fault OutOfBounds.

(** The status, the buffer and the stream; [size] is an int and [avail_out]
    unsigned. A decompressor without input reports success for ever. *)
Definition FillBuffer (buf : bytes) (pos size : Z) (s : bz_stream) : outcome (Z * bytes * bz_stream) :=
  let avail_out := u32 (i32 size) in
  let data := take (Z.to_nat avail_out) (bz_out s) in
  buf ← put_bytes buf pos data;
  let s := BzStream (drop (length data) (bz_out s)) (bz_status s) (bz_over s) in
  if Z.of_nat (length data) =? avail_out then Ret (0, buf, s) else
  match bz_status s with
  | BzStarved => if bz_over s then Fault OutOfBounds else Diverge
  | _ => Ret (-1, buf, s)
  end.

(** [for (i = 0; i < ctrl[0]; ++i)]: the first [n] turns. *)
Fixpoint add_old (n : nat) (i newpos oldpos : Z) (old buf : bytes) : outcome bytes :=
  match n with
  | O => Ret buf
  | S n' =>
      buf ← (if (0 <=? oldpos + i) && (oldpos + i <? Z.of_nat (length old)) then
               b ← rd_mem buf (newpos + i);
               Ret (wr buf (newpos + i) (u8 (b + rd old (oldpos + i))))
             else Ret buf);
      add_old n' (i + 1) newpos oldpos old buf
  end.

(** The loop over the control triples; [None] when the patch is refused. Every
    turn takes 24 bytes of the control stream. The counter of the inner loop is
    an int, and does not reach 2^31. *)
Fixpoint patch_loop (fuel : nat) (old new_data : bytes) (new_size oldpos newpos : Z) (cs ds es : bz_stream) : outcome (option bytes) :=
  if new_size <=? newpos then Ret (Some new_data) else
  match fuel with
  | O => Diverge
  | S fuel' =>
      '(r, buf, cs) ← FillBuffer (replicate 24 0) 0 24 cs;
      if negb (r =? 0) then Ret None else
      let ctrl0 := offtin buf in
      let ctrl1 := offtin (drop 8 buf) in
      let ctrl2 := offtin (drop 16 buf) in
      if (ctrl0 <? 0) || (ctrl1 <? 0) then Ret None else
      if new_size <? i64 (newpos + ctrl0) then Ret None else
      '(r, new_data, ds) ← FillBuffer new_data newpos ctrl0 ds;
      if negb (r =? 0) then Ret None else
      new_data ← add_old (Z.to_nat (Z.min ctrl0 (2 ^ 31))) 0 newpos oldpos old new_data;
      if 2 ^ 31 <=? ctrl0 then Diverge else
      let newpos := i64 (newpos + ctrl0) in
      let oldpos := i64 (oldpos + ctrl0) in
      if new_size <? i64 (newpos + ctrl1) then Ret None else
      '(r, new_data, es) ← FillBuffer new_data newpos ctrl1 es;
      if negb (r =? 0) then Ret None else
      patch_loop fuel' old new_data new_size (i64 (oldpos + ctrl2)) (i64 (newpos + ctrl1)) cs ds es
  end.

(** [malloc]: the block, with whatever it holds, or a null pointer. *)
Definition ApplyBSDiffPatchMem (malloc : Z -> option bytes) (old patch : bytes) (patch_offset : Z) : outcome (option bytes) :=
  magic ← starts_with patch patch_offset (str "BSDIFF40");
  if negb (magic : bool) then Ret None else
  h ← sub_bytes patch (patch_offset + 8) 24;
  let ctrl_len := offtin h in
  let data_len := offtin (drop 8 h) in
  let new_size := offtin (drop 16 h) in
  if (ctrl_len <? 0) || (data_len <? 0) || (new_size <? 0) then Ret None else
  let cs := bz_init patch (patch_offset + 32) ctrl_len in
  let ds := bz_init patch (patch_offset + 32 + ctrl_len) data_len in
  let es := bz_init patch (patch_offset + 32 + ctrl_len + data_len) (Z.of_nat (length patch) - (patch_offset + 32 + ctrl_len + data_len)) in
  match malloc new_size with
  | None => Ret None
  | Some new_data => patch_loop (S (length (bz_out cs))) old new_data new_size 0 0 cs ds es
  end.

(** The result, and the digest of what the sink received. The sink runs in the
    monad of the caller. *)
Definition ApplyBSDiffPatch {M} `{MRet M, MBind M, Effects M} (malloc : Z -> option bytes) (old patch : bytes) (patch_offset : Z)
    (sink : bytes -> M Z) (ctx : option HASH_CTX) : M (Z * option HASH_CTX)%type :=
  r ← perform (ApplyBSDiffPatchMem malloc old patch patch_offset);
  match r with
  | None => mret (-1, ctx)
  | Some new_data =>
      n ← sink new_data;
      if n <? Z.of_nat (length new_data) then mret (1, ctx)
      else mret (0, (fun c => SHA_update c new_data) <$> ctx)
  end.

(** ** Making a patch

    Pointers into the old and the new file are offsets. [pos] of [search] and
    of the main loop is the matching offset in the old file. *)
Context (old new : bytes).
Abbreviation oldsize := (Z.of_nat (length old)).
Abbreviation newsize := (Z.of_nat (length new)).

Fixpoint match_loop (n : nat) (a b i : Z) : outcome Z :=
  match n with
  | O => Ret i
  | S n' =>
      x ← rd_mem old (a + i);
      y ← rd_mem new (b + i);
      if negb (x =? y) then Ret i else match_loop n' a b (i + 1)
  end.

Definition matchlen (a la b lb : Z) : outcome Z := match_loop (Z.to_nat (Z.min la lb)) a b 0.

(** [memcmp(old + a, new + b, n) < 0] *)
Fixpoint memcmp_lt (n : nat) (a b : Z) : outcome bool :=
  match n with
  | O => Ret false
  | S n' =>
      x ← rd_mem old a;
      y ← rd_mem new b;
      if x <? y then Ret true else if y <? x then Ret false else memcmp_lt n' (a + 1) (b + 1)
  end.

(** The length of the match and its position; the interval is halved. *)
Fixpoint search (fuel : nat) (I : list Z) (b lb st en : Z) : outcome (Z * Z) :=
  match fuel with
  | O => Diverge
  | S fuel' =>
      if en - st <? 2 then
        ist ← rd_mem I st;
        ien ← rd_mem I en;
        x ← matchlen ist (oldsize - ist) b lb;
        y ← matchlen ien (oldsize - ien) b lb;
        Ret (if y <? x then (x, ist) else (y, ien))
      else
        let x := st + (en - st) / 2 in
        ix ← rd_mem I x;
        lt ← memcmp_lt (Z.to_nat (Z.min (oldsize - ix) lb)) ix b;
        if (lt : bool) then search fuel' I b lb x en else search fuel' I b lb st x
  end.

(** [old[i] == new[j]], with the first index below the size of the old file *)
Definition same_byte (i j : Z) : outcome bool :=
  if i <? oldsize then
    x ← rd_mem old i;
    y ← rd_mem new j;
    Ret (x =? y)
  else Ret false.

(** [for(;scsc<scan+len;scsc++)] *)
Fixpoint score_loop (n : nat) (scsc lastoffset oldscore : Z) : outcome Z :=
  match n with
  | O => Ret oldscore
  | S n' =>
      b ← same_byte (scsc + lastoffset) scsc;
      score_loop n' (scsc + 1) lastoffset (if (b : bool) then oldscore + 1 else oldscore)
  end.

(** [for(scsc=scan+=len;scan<newsize;scan++)]: the new [scan], [len], [pos] and
    [oldscore]. *)
Fixpoint diff_scan (fuel : nat) (I : list Z) (lastoffset scan scsc len pos oldscore : Z) : outcome (Z * Z * Z * Z) :=
  if newsize <=? scan then Ret (scan, len, pos, oldscore) else
  match fuel with
  | O => Diverge
  | S fuel' =>
      '(len, pos) ← search (S (length I)) I scan (newsize - scan) 0 oldsize;
      oldscore ← score_loop (Z.to_nat (scan + len - scsc)) scsc lastoffset oldscore;
      let scsc := Z.max scsc (scan + len) in
      if ((len =? oldscore) && negb (len =? 0)) || (oldscore + 8 <? len) then Ret (scan, len, pos, oldscore) else
      b ← same_byte (scan + lastoffset) scan;
      diff_scan fuel' I lastoffset (scan + 1) scsc len pos (if (b : bool) then oldscore - 1 else oldscore)
  end.

(** The extension forwards: [i], [s], [Sf] and [lenf]. *)
Fixpoint forward_loop (n : nat) (lastscan lastpos i s Sf lenf : Z) : outcome Z :=
  match n with
  | O => Ret lenf
  | S n' =>
      x ← rd_mem old (lastpos + i);
      y ← rd_mem new (lastscan + i);
      let s := if x =? y then s + 1 else s in
      let i := i + 1 in
      if Sf * 2 - lenf <? s * 2 - i then forward_loop n' lastscan lastpos i s s i
      else forward_loop n' lastscan lastpos i s Sf lenf
  end.

(** The extension backwards. *)
Fixpoint backward_loop (n : nat) (scan pos i s Sb lenb : Z) : outcome Z :=
  match n with
  | O => Ret lenb
  | S n' =>
      x ← rd_mem old (pos - i);
      y ← rd_mem new (scan - i);
      let s := if x =? y then s + 1 else s in
      if Sb * 2 - lenb <? s * 2 - i then backward_loop n' scan pos (i + 1) s s i
      else backward_loop n' scan pos (i + 1) s Sb lenb
  end.

(** Where to cut the overlap of the two. *)
Fixpoint overlap_loop (n : nat) (newf oldf newb oldb i s Ss lens : Z) : outcome Z :=
  match n with
  | O => Ret lens
  | S n' =>
      x ← rd_mem new (newf + i);
      y ← rd_mem old (oldf + i);
      let s := if x =? y then s + 1 else s in
      x ← rd_mem new (newb + i);
      y ← rd_mem old (oldb + i);
      let s := if x =? y then s - 1 else s in
      if Ss <? s then overlap_loop n' newf oldf newb oldb (i + 1) s s (i + 1)
      else overlap_loop n' newf oldf newb oldb (i + 1) s Ss lens
  end.

(** [new[lastscan+i]-old[lastpos+i]] for [n] bytes *)
Fixpoint diff_loop (n : nat) (lastscan lastpos i : Z) : outcome bytes :=
  match n with
  | O => Ret []
  | S n' =>
      x ← rd_mem new (lastscan + i);
      y ← rd_mem old (lastpos + i);
      rest ← diff_loop n' lastscan lastpos (i + 1);
      Ret (u8 (x - y) :: rest)
  end.

(** The lengths kept of the two extensions. *)
Definition extents (scan pos lastscan lastpos : Z) : outcome (Z * Z) :=
  lenf ← forward_loop (Z.to_nat (Z.min (scan - lastscan) (oldsize - lastpos))) lastscan lastpos 0 0 0 0;
  lenb ← (if scan <? newsize then backward_loop (Z.to_nat (Z.min (scan - lastscan) pos)) scan pos 1 0 0 0 else Ret 0);
  if scan - lenb <? lastscan + lenf then
    let overlap := (lastscan + lenf) - (scan - lenb) in
    lens ← overlap_loop (Z.to_nat overlap) (lastscan + lenf - overlap) (lastpos + lenf - overlap) (scan - lenb) (pos - lenb) 0 0 0 0;
    Ret (lenf + (lens - overlap), lenb - lens)
  else Ret (lenf, lenb).

(** What is collected: the control block, the diff and the extra block, the
    latter two in buffers of [newsize + 1] bytes. *)
Record blocks := Blocks {
  bl_ctrl : bytes;
  bl_db : bytes;
  bl_eb : bytes
}.

Definition blocks_fit (b : bytes) : outcome unit := if Z.of_nat (length b) <=? newsize + 1 then Ret tt else Fault OutOfBounds.

(** One entry of the patch. *)
Definition emit (scan pos lenf lenb lastscan lastpos : Z) (bl : blocks) : outcome blocks :=
  d ← diff_loop (Z.to_nat lenf) lastscan lastpos 0;
  let elen := (scan - lenb) - (lastscan + lenf) in
  e ← sub_bytes new (lastscan + lenf) (Z.max 0 elen);
  let db := bl_db bl ++ d in
  let eb := bl_eb bl ++ e in
  blocks_fit db ≫= fun _ =>
  blocks_fit eb ≫= fun _ =>
  Ret (Blocks (bl_ctrl bl ++ offtout lenf ++ offtout elen ++ offtout ((pos - lenb) - (lastpos + lenf))) db eb).

(** [while(scan<newsize)] *)
Fixpoint diff_main (fuel : nat) (I : list Z) (scan len pos lastscan lastpos lastoffset : Z) (bl : blocks) : outcome blocks :=
  if newsize <=? scan then Ret bl else
  match fuel with
  | O => Diverge
  | S fuel' =>
      '(scan, len, pos, oldscore) ← diff_scan (S (length new)) I lastoffset (scan + len) (scan + len) len pos 0;
      if negb (len =? oldscore) || (scan =? newsize) then
        '(lenf, lenb) ← extents scan pos lastscan lastpos;
        bl ← emit scan pos lenf lenb lastscan lastpos bl;
        diff_main fuel' I scan len pos (scan - lenb) (pos - lenb) (pos - scan) bl
      else diff_main fuel' I scan len pos lastscan lastpos lastoffset bl
  end.

(** [bsdiff] once the suffix array is there: the patch file. [pos] has no value
    before the first search. *)
Definition bsdiff_with (pos0 : Z) (I : list Z) : outcome bytes :=
  bl ← diff_main (S (length new)) I 0 0 pos0 0 0 0 (Blocks [] [] []);
  let ctrl := bz_compress (bl_ctrl bl) in
  let db := bz_compress (bl_db bl) in
  let eb := bz_compress (bl_eb bl) in
  Ret (str "BSDIFF40" ++ offtout (Z.of_nat (length ctrl)) ++ offtout (Z.of_nat (length db)) ++ offtout newsize ++ ctrl ++ db ++ eb).

End Bzip2.
