(* ===== verification/BsPatchSpec.v ===== *)
(** * Binary patches: what a patch restores

    A patch made from two files turns the first into the second; the loops of
    both programs end and stay inside their buffers. *)

From S2P Require Import Prelude.
From S2P Require Import Sha.
From S2P Require Import CString.
From S2P Require Import Verifier.
From S2P Require Import BsPatch.

(** ** Numbers *)
Lemma offtout_loop_le n : forall y, offtout_loop n y = le_encode n y.
Proof.
  induction n as [|n IH]; intros y; [done |]. cbn [offtout_loop le_encode]. cbv zeta. rewrite IH, Z.shiftr_div_pow2 by lia.
  change (2 ^ 8) with 256. pose proof (Z.div_mod y 256 ltac:(lia)). replace (y - y mod 256) with ((y / 256) * 256) by lia. by rewrite Z.div_mul by lia.
Qed.

Lemma offtout_length x : length (offtout x) = 8%nat.
Proof. unfold offtout. cbv zeta. rewrite offtout_loop_le. destruct (x <? 0); rewrite ?length_wr; apply le_encode_length. Qed.

(** The low seven bits of the last byte and its sign bit. *)
Lemma sign_byte b : 0 <= b < 128 -> Z.land b 0x7F = b /\ Z.land b 0x80 = 0 /\ Z.land (Z.lor b 0x80) 0x7F = b /\ Z.land (Z.lor b 0x80) 0x80 = 128.
Proof.
  intros Hb. change 0x7F with (Z.ones 7). assert (E : Z.lor b 0x80 = b + 1 * 2 ^ 7) by (change 0x80 with (Z.shiftl 1 7); apply lor_shiftl_add; lia).
  assert (T : Z.land b 0x80 = 0).
  { apply Z.bits_inj'. intros n Hn. rewrite Z.land_spec, Z.bits_0. change 0x80 with (2 ^ 7). rewrite Z.pow2_bits_eqb by lia.
    destruct (Z.eqb_spec 7 n) as [<-|]; [|by rewrite andb_false_r]. by rewrite (in_range_testbit 7 b 7) by (unfold in_range; lia). }
  rewrite !Z.land_ones by lia. split; [rewrite Z.mod_small; lia |]. split; [done |]. split.
  - rewrite E, Z.mod_add by lia. rewrite Z.mod_small; lia.
  - rewrite Z.land_lor_distr_l, T. done.
Qed.

Lemma offtin_app buf rest : length buf = 8%nat -> offtin (buf ++ rest) = offtin buf.
Proof. intros H. do 8 (destruct buf as [|? buf]; [discriminate |]). destruct buf; [done | discriminate]. Qed.

Lemma offt_roundtrip x : - 2 ^ 63 < x < 2 ^ 63 -> offtin (offtout x) = x.
Proof.
  intros Hx. unfold offtout. cbv zeta. rewrite offtout_loop_le. set (y := if x <? 0 then - x else x).
  assert (Hy : 0 <= y < 2 ^ 63) by (unfold y; destruct (Z.ltb_spec x 0); lia).
  pose proof (le_roundtrip 8 y ltac:(unfold in_range; simpl; lia)) as Hd. pose proof (le_encode_ok 8 y) as Hok. pose proof (le_encode_length 8 y) as Hl.
  destruct (le_encode 8 y) as [|b0 [|b1 [|b2 [|b3 [|b4 [|b5 [|b6 [|b7 [|? ?]]]]]]]]]; try discriminate. cbn [le_decode] in Hd.
  unfold bytes_ok in Hok. repeat match goal with H : Forall _ (_ :: _) |- _ => apply Forall_cons in H as [?H H] end. unfold in_range in *.
  destruct (sign_byte b7 ltac:(lia)) as (S1 & S2 & S3 & S4).
  assert (F : forall v, offtin [b0; b1; b2; b3; b4; b5; b6; v] =
    let m := ((((((Z.land v 0x7F * 256 + b6) * 256 + b5) * 256 + b4) * 256 + b3) * 256 + b2) * 256 + b1) * 256 + b0 in
    if negb (Z.land v 0x80 =? 0) then - m else m) by reflexivity.
  unfold y in *. destruct (Z.ltb_spec x 0).
  - change (wr _ 7 ?v) with [b0; b1; b2; b3; b4; b5; b6; v]. rewrite F. change (rd _ 7) with b7. cbv zeta. rewrite S3, S4. cbn [Z.eqb negb]. lia.
  - rewrite F, S1, S2. cbn [Z.eqb negb]. lia.
Qed.

(** ** Segments of a buffer *)
Definition part (l : bytes) (a n : Z) : bytes := take (Z.to_nat n) (drop (Z.to_nat a) l).

Lemma part_length l a n : 0 <= a -> 0 <= n -> a + n <= Z.of_nat (length l) -> length (part l a n) = Z.to_nat n.
Proof. intros. unfold part. rewrite length_take, length_drop. lia. Qed.

Lemma part_cons l a n : 0 <= a -> 0 < n -> a + n <= Z.of_nat (length l) -> part l a n = rd l a :: part l (a + 1) (n - 1).
Proof.
  intros H1 H2 H3. unfold part, rd. assert (Ha : (Z.to_nat a < length l)%nat) by lia.
  destruct (lookup_lt_is_Some_2 l _ Ha) as [x Hx]. rewrite (drop_S _ x) by done.
  replace (Z.to_nat n) with (S (Z.to_nat (n - 1))) by lia. cbn [take]. rewrite (nth_lookup_Some _ _ _ _ Hx).
  by replace (Z.to_nat (a + 1)) with (S (Z.to_nat a)) by lia.
Qed.

Lemma part_app l a n m : 0 <= a -> 0 <= n -> 0 <= m -> part l a n ++ part l (a + n) m = part l a (n + m).
Proof.
  intros. unfold part. replace (Z.to_nat (a + n)) with (Z.to_nat a + Z.to_nat n)%nat by lia.
  rewrite <- drop_drop, take_take_drop. f_equal. lia.
Qed.

Lemma take_part l a n : 0 <= a -> 0 <= n -> take (Z.to_nat a) l ++ part l a n = take (Z.to_nat (a + n)) l.
Proof. intros. unfold part. rewrite take_take_drop. f_equal. lia. Qed.

Lemma part_ok l a n : bytes_ok l -> bytes_ok (part l a n).
Proof. intros. by apply Forall_take, Forall_drop. Qed.

(** ** Filling buffers *)
Lemma put_bytes_ok pre mid post data : length data = length mid ->
  put_bytes (pre ++ mid ++ post) (Z.of_nat (length pre)) data = Ret (pre ++ data ++ post).
Proof.
  intros H. unfold put_bytes. rewrite !length_app. destruct (Z.leb_spec 0 (Z.of_nat (length pre))); [|lia].
  destruct (Z.leb_spec (Z.of_nat (length pre) + Z.of_nat (length data)) (Z.of_nat (length pre + (length mid + length post)))); [|lia].
  cbn [andb]. rewrite Nat2Z.id, take_app_length, H, <- drop_drop, drop_app_length, drop_app_length. done.
Qed.

Lemma FillBuffer_ok pre mid post data rest st over size : 0 <= size < 2 ^ 31 -> Z.of_nat (length data) = size -> length mid = length data ->
  FillBuffer (pre ++ mid ++ post) (Z.of_nat (length pre)) size (BzStream (data ++ rest) st over) =
  Ret (0, pre ++ data ++ post, BzStream rest st over).
Proof.
  intros Hs Hd Hm. unfold FillBuffer. rewrite swrap_small, wrap_small by (unfold in_srange, in_range; lia). cbn [bz_out bz_status bz_over].
  rewrite <- Hd, Nat2Z.id, take_app_length, put_bytes_ok, bind_ret by done. cbv zeta. rewrite drop_app_length, Z.eqb_refl. done.
Qed.

(** ** Differences *)
Definition plus8 (d o : Z) : Z := u8 (d + o).
Definition minus8 (x y : Z) : Z := u8 (x - y).

Lemma plus_minus (xs ys : bytes) : bytes_ok xs -> (length xs <= length ys)%nat -> zip_with plus8 (zip_with minus8 xs ys) ys = xs.
Proof.
  intros H. revert ys. induction H as [|x xs Hx _ IH]; intros [|y ys] Hl; simpl in *; try done; [lia |].
  rewrite IH by lia. f_equal. unfold plus8, minus8. rewrite wrap_add_l. replace (x - y + y) with x by lia. by apply wrap_small.
Qed.

Lemma add_old_ok n : forall i newpos oldpos old pre d post, length d = n -> Z.of_nat (length pre) = newpos + i -> 0 <= oldpos + i ->
  oldpos + i + Z.of_nat n <= Z.of_nat (length old) ->
  add_old n i newpos oldpos old (pre ++ d ++ post) = Ret (pre ++ zip_with plus8 d (part old (oldpos + i) (Z.of_nat n)) ++ post).
Proof.
  induction n as [|n IH]; intros i newpos oldpos old pre d post Hd Hp Ho Hl; destruct d as [|x d]; try discriminate; [done |].
  cbn [add_old]. destruct (Z.leb_spec 0 (oldpos + i)); [|lia]. destruct (Z.ltb_spec (oldpos + i) (Z.of_nat (length old))); [|lia]. cbn [andb].
  assert (Er : rd (pre ++ (x :: d) ++ post) (newpos + i) = x).
  { unfold rd. rewrite <- Hp, Nat2Z.id. rewrite app_nth2 by lia. by rewrite Nat.sub_diag. }
  rewrite rd_mem_ok, Er, bind_ret, bind_ret by (rewrite !length_app; simpl; lia).
  assert (Ew : wr (pre ++ (x :: d) ++ post) (newpos + i) (u8 (x + rd old (oldpos + i))) = (pre ++ [plus8 x (rd old (oldpos + i))]) ++ d ++ post).
  { unfold wr. rewrite <- Hp, Nat2Z.id. rewrite insert_app_r_alt by lia. rewrite Nat.sub_diag. cbn. by rewrite <- app_assoc. }
  rewrite Ew, IH; [| simpl in Hd; lia | rewrite length_app; simpl; lia | lia | lia].
  rewrite (part_cons old (oldpos + i) (Z.of_nat (S n))) by lia. cbn [zip_with]. rewrite <- app_assoc. cbn [app].
  replace (oldpos + i + 1) with (oldpos + (i + 1)) by lia. by replace (Z.of_nat (S n) - 1) with (Z.of_nat n) by lia.
Qed.

(** ** Applying valid control triples

    The triples that, from [newpos] and [oldpos] on, rebuild the rest of the new
    file, with the diff and the extra bytes they use. *)
Section Patch.
Context (old new : bytes) (Hnew : bytes_ok new).
Context (Hosz : Z.of_nat (length old) < 2 ^ 62) (Hnsz : Z.of_nat (length new) < 2 ^ 31).
Abbreviation oldsize := (Z.of_nat (length old)).
Abbreviation newsize := (Z.of_nat (length new)).

Definition triple : Type := Z * Z * Z.

Definition encode_triple (t : triple) : bytes := let '(x, y, z) := t in offtout x ++ offtout y ++ offtout z.

Inductive rebuilds : Z -> Z -> list triple -> bytes -> bytes -> Prop :=
  | rebuilds_end oldpos : rebuilds newsize oldpos [] [] []
  | rebuilds_step newpos oldpos lf ex sk ts db eb :
      0 <= newpos < newsize -> 0 <= oldpos <= oldsize -> 0 <= lf -> 0 <= ex -> newpos + lf + ex <= newsize -> oldpos + lf <= oldsize ->
      rebuilds (newpos + lf + ex) (oldpos + lf + sk) ts db eb ->
      - 2 ^ 62 < sk < 2 ^ 62 -> 0 <= oldpos + lf + sk <= oldsize ->
      rebuilds newpos oldpos ((lf, ex, sk) :: ts)
        (zip_with minus8 (part new newpos lf) (part old oldpos lf) ++ db) (part new (newpos + lf) ex ++ eb).

Lemma encode_triple_length t : length (encode_triple t) = 24%nat.
Proof. destruct t as [[x y] z]. cbn [encode_triple]. by rewrite !length_app, !offtout_length. Qed.

Lemma read_triple lf ex sk : - 2 ^ 63 < lf < 2 ^ 63 -> - 2 ^ 63 < ex < 2 ^ 63 -> - 2 ^ 63 < sk < 2 ^ 63 ->
  let buf := encode_triple (lf, ex, sk) in offtin buf = lf /\ offtin (drop 8 buf) = ex /\ offtin (drop 16 buf) = sk.
Proof.
  intros H1 H2 H3. cbn [encode_triple]. cbv zeta. split; [|split].
  - rewrite offtin_app by apply offtout_length. by apply offt_roundtrip.
  - rewrite drop_app_length' by (symmetry; apply offtout_length). rewrite offtin_app by apply offtout_length. by apply offt_roundtrip.
  - change 16%nat with (8 + 8)%nat. rewrite <- drop_drop. rewrite !drop_app_length' by (symmetry; apply offtout_length). by apply offt_roundtrip.
Qed.

Lemma patch_loop_ok ts : forall newpos oldpos db eb fuel tl cst cov dst dov est eov ctail, rebuilds newpos oldpos ts db eb -> (length ts <= fuel)%nat ->
  Z.of_nat (length tl) = newsize - newpos ->
  patch_loop fuel old (take (Z.to_nat newpos) new ++ tl) newsize oldpos newpos
    (BzStream (concat (map encode_triple ts) ++ ctail) cst cov) (BzStream db dst dov) (BzStream eb est eov) = Ret (Some new).
Proof.
  induction ts as [|[[lf ex] sk] ts IH]; intros newpos oldpos db eb fuel tl cst cov dst dov est eov ctail Hr Hf Htl; inversion Hr; subst; clear Hr.
  { assert (tl = []) as -> by (apply nil_length_inv; lia). destruct fuel; cbn [patch_loop]; rewrite Z.leb_refl, Nat2Z.id, firstn_all, app_nil_r; done. }
  destruct fuel as [|fuel]; [simpl in Hf; lia |]. cbn [patch_loop]. destruct (Z.leb_spec newsize newpos); [lia |].
  cbn [map concat]. rewrite <- app_assoc.
  change (replicate 24 0) with (([] : bytes) ++ replicate 24 0 ++ []). change 0 with (Z.of_nat (length ([] : bytes))) at 1.
  rewrite FillBuffer_ok, bind_ret by (rewrite ?encode_triple_length, ?length_replicate; done || lia). cbv iota beta. change (negb (0 =? 0)) with false. cbv iota.
  destruct (read_triple lf ex sk ltac:(lia) ltac:(lia) ltac:(lia)) as (R1 & R2 & R3). cbn [app]. rewrite app_nil_r. cbv zeta in R1, R2, R3 |- *. rewrite R1, R2, R3.
  destruct (Z.ltb_spec lf 0); [lia |]. destruct (Z.ltb_spec ex 0); [lia |]. cbn [orb]. rewrite !(swrap_small 64) by (unfold in_srange; lia).
  destruct (Z.ltb_spec newsize (newpos + lf)); [lia |].
  assert (Lp : Z.of_nat (length (take (Z.to_nat newpos) new)) = newpos) by (rewrite length_take; lia).
  rewrite <- (take_drop (Z.to_nat lf) tl). rewrite <- Lp at 2.
  set (d := zip_with minus8 (part new newpos lf) (part old oldpos lf)).
  assert (Ld : length d = Z.to_nat lf) by (unfold d; rewrite length_zip_with, !part_length by lia; lia).
  rewrite FillBuffer_ok, bind_ret by (rewrite ?Ld, ?length_take; lia). cbv iota beta. change (negb (0 =? 0)) with false. cbv iota.
  rewrite (add_old_ok (Z.to_nat (Z.min lf (2 ^ 31))) 0 newpos oldpos old) by (rewrite ?Ld, ?Lp; lia). rewrite bind_ret, Z.add_0_r.
  destruct (Z.leb_spec (2 ^ 31) lf); [lia |].
  replace (Z.of_nat (Z.to_nat (Z.min lf (2 ^ 31)))) with lf by lia. unfold d. rewrite plus_minus by (by apply part_ok || (rewrite !part_length by lia; lia)).
  rewrite app_assoc, take_part by lia.
  destruct (Z.ltb_spec newsize (newpos + lf + ex)); [lia |].
  assert (Lp' : Z.of_nat (length (take (Z.to_nat (newpos + lf)) new)) = newpos + lf) by (rewrite length_take; lia).
  rewrite <- (take_drop (Z.to_nat ex) (drop (Z.to_nat lf) tl)). rewrite <- Lp' at 2.
  rewrite FillBuffer_ok, bind_ret by (rewrite ?part_length, ?length_take, ?length_drop by lia; lia). cbv iota beta. change (negb (0 =? 0)) with false. cbv iota.
  rewrite app_assoc, take_part by lia.
  rewrite (swrap_small 64 (oldpos + lf)), (swrap_small 64 (oldpos + lf + sk)) by (unfold in_srange; lia).
  match goal with |- (if ?b then _ else _) = _ => change b with false end. cbv iota. apply IH; [done | simpl in Hf; lia |]. rewrite !length_drop. lia.
Qed.
End Patch.

(** ** Making a patch *)

(** A table of offsets into the old file, its end included. *)
Definition offsets (old : bytes) (I : list Z) : Prop :=
  length I = S (length old) /\ Forall (fun x => 0 <= x <= Z.of_nat (length old)) I.

Section Diff.
Context (old new : bytes) (I : list Z) (HI : offsets old I).
Abbreviation oldsize := (Z.of_nat (length old)).
Abbreviation newsize := (Z.of_nat (length new)).

Lemma match_loop_ok n : forall a b i, 0 <= a + i -> 0 <= b + i -> a + i + Z.of_nat n <= oldsize -> b + i + Z.of_nat n <= newsize ->
  exists r, match_loop old new n a b i = Ret r /\ i <= r <= i + Z.of_nat n.
Proof.
  induction n as [|n IH]; intros a b i H1 H2 H3 H4; cbn [match_loop]; [exists i; split; [done | lia] |].
  rewrite !rd_mem_ok, !bind_ret by lia. destruct (negb _); [exists i; split; [done | lia] |].
  destruct (IH a b (i + 1)) as (r & -> & Hr); try lia. exists r. split; [done | lia].
Qed.

Lemma matchlen_ok a b lb : 0 <= a <= oldsize -> 0 <= b -> 0 <= lb -> b + lb <= newsize ->
  exists r, matchlen old new a (oldsize - a) b lb = Ret r /\ 0 <= r <= lb /\ a + r <= oldsize.
Proof.
  intros Ha Hb Hl Hn. unfold matchlen. destruct (match_loop_ok (Z.to_nat (Z.min (oldsize - a) lb)) a b 0) as (r & -> & Hr); try lia.
  exists r. split; [done | lia].
Qed.

Lemma memcmp_lt_ok n : forall a b, 0 <= a -> 0 <= b -> a + Z.of_nat n <= oldsize -> b + Z.of_nat n <= newsize -> exists r, memcmp_lt old new n a b = Ret r.
Proof.
  induction n as [|n IH]; intros a b H1 H2 H3 H4; cbn [memcmp_lt]; [by eexists |]. rewrite !rd_mem_ok, !bind_ret by lia.
  destruct (_ <? _); [by eexists |]. destruct (_ <? _); [by eexists |]. apply IH; lia.
Qed.

Lemma offset_at i : 0 <= i <= oldsize -> rd_mem I i = Ret (rd I i) /\ 0 <= rd I i <= oldsize.
Proof.
  destruct HI as [Hl Hf]. intros Hi. split; [apply rd_mem_ok; lia |]. unfold rd. rewrite Forall_lookup in Hf.
  destruct (lookup_lt_is_Some_2 I (Z.to_nat i) ltac:(lia)) as [x Hx]. rewrite (nth_lookup_Some _ _ _ _ Hx). by eapply Hf.
Qed.

Lemma search_ok b lb : 0 <= b -> 0 <= lb -> b + lb <= newsize -> forall fuel st en, 0 <= st <= en -> en <= oldsize -> en - st < Z.of_nat fuel ->
  exists len pos, search old new fuel I b lb st en = Ret (len, pos) /\ 0 <= len <= lb /\ 0 <= pos /\ pos + len <= oldsize.
Proof.
  intros Hb Hl Hn. induction fuel as [|fuel IH]; intros st en Hs He Hf; [lia |]. cbn [search].
  destruct (Z.ltb_spec (en - st) 2) as [Hlt|Hge].
  - destruct (offset_at st ltac:(lia)) as [-> Ho1]. destruct (offset_at en ltac:(lia)) as [-> Ho2]. rewrite !bind_ret.
    destruct (matchlen_ok (rd I st) b lb Ho1 Hb Hl Hn) as (x & -> & Hx1 & Hx2). rewrite bind_ret.
    destruct (matchlen_ok (rd I en) b lb Ho2 Hb Hl Hn) as (y & -> & Hy1 & Hy2). rewrite bind_ret.
    destruct (y <? x); eexists _, _; (split; [reflexivity | lia]).
  - cbv zeta. assert (1 <= (en - st) / 2 <= en - st - 1) by (split; [apply Z.div_le_lower_bound; lia |]; assert ((en - st) / 2 < en - st) by (apply Z.div_lt; lia); lia).
    destruct (offset_at (st + (en - st) / 2) ltac:(lia)) as [-> Ho]. rewrite bind_ret.
    destruct (memcmp_lt_ok (Z.to_nat (Z.min (oldsize - rd I (st + (en - st) / 2)) lb)) (rd I (st + (en - st) / 2)) b) as (r & ->); try lia.
    rewrite bind_ret. destruct r; apply IH; lia.
Qed.

Lemma same_byte_ok i j : 0 <= i -> 0 <= j < newsize -> exists b, same_byte old new i j = Ret b.
Proof.
  intros Hi Hj. unfold same_byte. destruct (Z.ltb_spec i oldsize); [|by eexists]. rewrite !rd_mem_ok, !bind_ret by lia. by eexists.
Qed.

Lemma score_loop_ok n : forall scsc lastoffset oldscore, 0 <= scsc -> 0 <= scsc + lastoffset -> scsc + Z.of_nat n <= newsize ->
  exists r, score_loop old new n scsc lastoffset oldscore = Ret r /\ oldscore <= r.
Proof.
  induction n as [|n IH]; intros scsc lo os H1 H2 H3; cbn [score_loop]; [exists os; split; [done | lia] |].
  destruct (same_byte_ok (scsc + lo) scsc) as [b ->]; try lia. rewrite bind_ret.
  destruct (IH (scsc + 1) lo (if b then os + 1 else os)) as (r & -> & Hr); try lia. exists r. split; [done |]. destruct b; lia.
Qed.

(** The scan ends at the end of the new file or at a match; it moves on, or it
    is at a match that is not empty. *)
Lemma diff_scan_ok fuel : forall lastoffset scan scsc len pos oldscore, 0 <= scan <= newsize -> 0 <= scsc <= newsize ->
  0 <= scan + lastoffset -> 0 <= scsc + lastoffset ->
  newsize - scan < Z.of_nat fuel -> (scan < newsize \/ 0 <= pos <= oldsize) ->
  exists scan' len' pos' oldscore', diff_scan old new fuel I lastoffset scan scsc len pos oldscore = Ret (scan', len', pos', oldscore') /\
    scan <= scan' <= newsize /\ 0 <= pos' <= oldsize /\
    (scan' < newsize -> 0 <= len' /\ scan' + len' <= newsize /\ (0 <= oldscore -> scan < scan' + len')).
Proof.
  induction fuel as [|fuel IH]; intros lo scan scsc len pos os H1 H2 H3 H3' H4 H5; [lia |]. cbn [diff_scan].
  destruct (Z.leb_spec newsize scan). { eexists _, _, _, _. split; [done |]. split; [lia |]. split; [lia |]. lia. }
  pose proof (proj1 HI) as HIl.
  destruct (search_ok scan (newsize - scan) ltac:(lia) ltac:(lia) ltac:(lia) (S (length I)) 0 oldsize ltac:(lia) ltac:(lia) ltac:(lia))
    as (len1 & pos1 & -> & Hl1 & Hp1 & Hp2). rewrite bind_ret. cbv iota beta.
  destruct (score_loop_ok (Z.to_nat (scan + len1 - scsc)) scsc lo os) as (os1 & -> & Hos1); try lia. rewrite bind_ret. cbv zeta.
  destruct (((len1 =? os1) && negb (len1 =? 0)) || (os1 + 8 <? len1)) eqn:Eb.
  { eexists _, _, _, _. split; [done |]. split; [lia |]. split; [lia |]. intros _. split; [lia |]. split; [lia |]. intros Hos.
    apply orb_true_iff in Eb as [Eb|Eb]; [apply andb_true_iff in Eb as [_ Eb]; apply negb_true_iff in Eb|]; zbool; lia. }
  destruct (same_byte_ok (scan + lo) scan) as [b ->]; try lia. rewrite bind_ret.
  destruct (IH lo (scan + 1) (Z.max scsc (scan + len1)) len1 pos1 (if b then os1 - 1 else os1)) as (s' & l' & p' & o' & -> & R1 & R2 & R3); try lia.
  eexists _, _, _, _. split; [done |]. split; [lia |]. split; [lia |]. intros Hlt. destruct (R3 Hlt) as (R4 & R5 & _). split; [done |]. split; [done | lia].
Qed.

Lemma forward_loop_ok n : forall lastscan lastpos i s Sf lenf, 0 <= lastscan + i -> 0 <= lastpos + i -> 0 <= lenf <= i ->
  lastpos + i + Z.of_nat n <= oldsize -> lastscan + i + Z.of_nat n <= newsize ->
  exists r, forward_loop old new n lastscan lastpos i s Sf lenf = Ret r /\ 0 <= r <= i + Z.of_nat n.
Proof.
  induction n as [|n IH]; intros ls lp i s Sf lenf H1 H2 H3 H4 H5; cbn [forward_loop]; [exists lenf; split; [done | lia] |].
  rewrite !rd_mem_ok, !bind_ret by lia. cbv zeta. destruct (_ <? _);
    (edestruct (IH ls lp (i + 1)) as (r & -> & Hr); [..| exists r; split; [done | lia]]; lia).
Qed.

Lemma backward_loop_ok n : forall scan pos i s Sb lenb, 1 <= i -> scan - i < newsize -> pos - i < oldsize -> 0 <= lenb < i ->
  i + Z.of_nat n <= pos + 1 -> i + Z.of_nat n <= scan + 1 ->
  exists r, backward_loop old new n scan pos i s Sb lenb = Ret r /\ 0 <= r < i + Z.of_nat n.
Proof.
  induction n as [|n IH]; intros sc p i s Sb lenb H1 H2 H3 H4 H5 H6; cbn [backward_loop]; [exists lenb; split; [done | lia] |].
  rewrite !rd_mem_ok, !bind_ret by lia. cbv zeta. destruct (_ <? _);
    (edestruct (IH sc p (i + 1)) as (r & -> & Hr); [..| exists r; split; [done | lia]]; lia).
Qed.

Lemma overlap_loop_ok n : forall newf oldf newb oldb i s Ss lens, 0 <= newf + i -> 0 <= oldf + i -> 0 <= newb + i -> 0 <= oldb + i -> 0 <= lens <= i ->
  newf + i + Z.of_nat n <= newsize -> newb + i + Z.of_nat n <= newsize -> oldf + i + Z.of_nat n <= oldsize -> oldb + i + Z.of_nat n <= oldsize ->
  exists r, overlap_loop old new n newf oldf newb oldb i s Ss lens = Ret r /\ 0 <= r <= i + Z.of_nat n.
Proof.
  induction n as [|n IH]; intros nf fo nb ob i s Ss lens H1 H2 H3 H4 H5 H6 H7 H8 H9; cbn [overlap_loop]; [exists lens; split; [done | lia] |].
  rewrite !rd_mem_ok, !bind_ret by lia. cbv zeta. destruct (_ <? _);
    (edestruct (IH nf fo nb ob (i + 1)) as (r & -> & Hr); [..| exists r; split; [done | lia]]; lia).
Qed.

Lemma extents_ok scan pos lastscan lastpos : 0 <= lastscan <= scan -> scan <= newsize -> 0 <= pos <= oldsize -> 0 <= lastpos <= oldsize ->
  exists lenf lenb, extents old new scan pos lastscan lastpos = Ret (lenf, lenb) /\ 0 <= lenf /\ 0 <= lenb <= pos /\
    lastscan + lenf <= scan - lenb /\ lastpos + lenf <= oldsize /\ (scan = newsize -> lenb = 0).
Proof.
  intros H1 H2 H3 H4. unfold extents.
  destruct (forward_loop_ok (Z.to_nat (Z.min (scan - lastscan) (oldsize - lastpos))) lastscan lastpos 0 0 0 0) as (lf & -> & Hlf); try lia. rewrite bind_ret.
  assert (Hb : exists lb, (if scan <? newsize then backward_loop old new (Z.to_nat (Z.min (scan - lastscan) pos)) scan pos 1 0 0 0 else Ret 0) = Ret lb /\
    0 <= lb <= Z.min (scan - lastscan) pos /\ (scan = newsize -> lb = 0)).
  { destruct (Z.ltb_spec scan newsize); [|exists 0; split; [done | lia]].
    destruct (backward_loop_ok (Z.to_nat (Z.min (scan - lastscan) pos)) scan pos 1 0 0 0) as (lb & -> & Hlb); try lia. exists lb. split; [done | lia]. }
  destruct Hb as (lb & -> & Hlb & Hz). rewrite bind_ret. destruct (Z.ltb_spec (scan - lb) (lastscan + lf)); cycle 1.
  { eexists _, _. split; [done |]. lia. }
  cbv zeta. set (ov := lastscan + lf - (scan - lb)).
  destruct (overlap_loop_ok (Z.to_nat ov) (lastscan + lf - ov) (lastpos + lf - ov) (scan - lb) (pos - lb) 0 0 0 0) as (ln & -> & Hln); try lia.
  rewrite bind_ret. eexists _, _. split; [done |]. lia.
Qed.

Lemma diff_loop_ok n : forall lastscan lastpos i, 0 <= lastscan + i -> 0 <= lastpos + i -> lastscan + i + Z.of_nat n <= newsize ->
  lastpos + i + Z.of_nat n <= oldsize -> diff_loop old new n lastscan lastpos i =
  Ret (zip_with minus8 (part new (lastscan + i) (Z.of_nat n)) (part old (lastpos + i) (Z.of_nat n))).
Proof.
  induction n as [|n IH]; intros ls lp i H1 H2 H3 H4; cbn [diff_loop]; [done |]. rewrite !rd_mem_ok, !bind_ret by lia.
  rewrite IH, bind_ret by lia. rewrite (part_cons new (ls + i)), (part_cons old (lp + i)) by lia. cbn [zip_with].
  replace (ls + i + 1) with (ls + (i + 1)) by lia. replace (lp + i + 1) with (lp + (i + 1)) by lia. by replace (Z.of_nat (S n) - 1) with (Z.of_nat n) by lia.
Qed.

Lemma emit_ok scan pos lenf lenb lastscan lastpos bl : 0 <= lastscan -> 0 <= lastpos -> 0 <= lenf -> lastscan + lenf <= scan - lenb -> scan - lenb <= newsize ->
  lastpos + lenf <= oldsize -> Z.of_nat (length (bl_db bl)) <= lastscan -> Z.of_nat (length (bl_eb bl)) <= lastscan ->
  emit old new scan pos lenf lenb lastscan lastpos bl = Ret (Blocks
    (bl_ctrl bl ++ encode_triple (lenf, scan - lenb - (lastscan + lenf), pos - lenb - (lastpos + lenf)))
    (bl_db bl ++ zip_with minus8 (part new lastscan lenf) (part old lastpos lenf))
    (bl_eb bl ++ part new (lastscan + lenf) (scan - lenb - (lastscan + lenf)))).
Proof.
  intros H1 H2 H3 H4 H5 H6 H7 H8. unfold emit. rewrite diff_loop_ok, bind_ret by lia. cbv zeta. rewrite Z.max_r by lia.
  rewrite sub_bytes_ok, bind_ret by lia. fold (part new (lastscan + lenf) (scan - lenb - (lastscan + lenf))). rewrite !Z.add_0_r, Z2Nat.id by lia.
  unfold blocks_fit. rewrite !length_app, length_zip_with, !part_length by lia.
  repeat match goal with |- context [if ?a <=? ?b then _ else _] => destruct (Z.leb_spec a b); [|lia] end. rewrite !bind_ret. done.
Qed.

Lemma diff_main_ok fuel : forall scan len pos lastscan lastpos lastoffset bl,
  0 <= scan <= newsize -> 0 <= lastscan <= scan -> 0 <= lastpos <= oldsize -> 0 <= scan + lastoffset ->
  (scan < newsize -> lastscan < newsize /\ 0 <= len /\ scan + len <= newsize /\ newsize - (scan + len) < Z.of_nat fuel /\ (scan + len < newsize \/ 0 <= pos <= oldsize)) ->
  (scan = newsize -> lastscan = newsize) ->
  Z.of_nat (length (bl_db bl)) <= lastscan -> Z.of_nat (length (bl_eb bl)) <= lastscan -> oldsize < 2 ^ 61 ->
  exists ts db eb, diff_main old new fuel I scan len pos lastscan lastpos lastoffset bl =
    Ret (Blocks (bl_ctrl bl ++ concat (map encode_triple ts)) (bl_db bl ++ db) (bl_eb bl ++ eb)) /\
    rebuilds old new lastscan lastpos ts db eb /\ (length ts <= fuel)%nat.
Proof.
  induction fuel as [|fuel IH]; intros scan len pos ls lp lo bl H1 H2 H3 H4 H5 H6 H7 H8 H9; cbn [diff_main].
  { destruct (Z.leb_spec newsize scan); [|lia]. rewrite (H6 ltac:(lia)). exists [], [], []. rewrite !app_nil_r. split; [by destruct bl |]. split; [constructor | done]. }
  destruct (Z.leb_spec newsize scan).
  { rewrite (H6 ltac:(lia)). exists [], [], []. rewrite !app_nil_r. split; [by destruct bl |]. split; [constructor | simpl; lia]. }
  destruct (H5 ltac:(lia)) as (P1 & P2 & P3 & P4 & P5).
  destruct (diff_scan_ok (S (length new)) lo (scan + len) (scan + len) len pos 0) as (sc & ln & ps & os & -> & R1 & R2 & R3); try lia.
  rewrite bind_ret. cbv iota beta. destruct (negb (ln =? os) || (sc =? newsize)) eqn:Eb.
  - destruct (extents_ok sc ps ls lp) as (lf & lb & -> & X1 & X2 & X3 & X4 & X5); try lia. rewrite bind_ret. cbv iota beta.
    rewrite emit_ok, bind_ret by lia.
    set (bl' := Blocks _ _ _). destruct (IH sc ln ps (sc - lb) (ps - lb) (ps - sc) bl') as (ts & db & eb & -> & Hr & Ht); try lia.
    + unfold bl'. cbn [bl_db]. rewrite length_app, length_zip_with, !part_length by lia. lia.
    + unfold bl'. cbn [bl_eb]. rewrite length_app, !part_length by lia. lia.
    + exists ((lf, sc - lb - (ls + lf), ps - lb - (lp + lf)) :: ts). eexists _, _. unfold bl'. cbn [bl_ctrl bl_db bl_eb map concat].
      rewrite <- !app_assoc. split; [reflexivity |]. split; [|simpl; lia].
      constructor; try lia. replace (ls + lf + (sc - lb - (ls + lf))) with (sc - lb) by lia. by replace (lp + lf + (ps - lb - (lp + lf))) with (ps - lb) by lia.
  - apply orb_false_iff in Eb as [_ Eb]. zbool.
    destruct (IH sc ln ps ls lp lo bl) as (ts & db & eb & -> & Hr & Ht); try lia. exists ts, db, eb. split; [done |]. split; [done | lia].
Qed.
End Diff.
