(* ===== verification/QSufSort.v ===== *)
(** * The suffix sort of bsdiff

    Models [split] and [qsufsort] of
    src/bootable/recovery/applypatch/bsdiff.c (the sort of Larsson and
    Sadakane). [I] and [V] are arrays of [oldsize + 1] numbers; an access
    outside of them is a fault. *)

From S2P Require Import Prelude.

(** [tmp=I_[p];I_[p]=I_[q];I_[q]=tmp;] *)
Definition swap (I_ : list Z) (p q : Z) : outcome (list Z) :=
  x ← rd_mem I_ p;
  y ← rd_mem I_ q;
  I_ ← st_mem I_ p y;
  st_mem I_ q x.

(** [V[I_[p]+h]] *)
Definition key (I_ V : list Z) (h p : Z) : outcome Z :=
  s ← rd_mem I_ p;
  rd_mem V (s + h).

(** [for(i=1;k+i<start+len;i++)]: the least key is [x] and [j] entries have it. *)
Fixpoint select_loop (n : nat) (V : list Z) (h k i j x : Z) (I_ : list Z) : outcome (Z * list Z) :=
  match n with
  | O => Ret (j, I_)
  | S n' =>
      v ← key I_ V h (k + i);
      let '(x, j) := if v <? x then (v, 0) else (x, j) in
      if v =? x then
        I_ ← swap I_ (k + j) (k + i);
        select_loop n' V h k (i + 1) (j + 1) x I_
      else select_loop n' V h k (i + 1) j x I_
  end.

(** [V[I_[k+i]]=v] for [n] entries *)
Fixpoint assign_loop (n : nat) (I_ : list Z) (p v : Z) (V : list Z) : outcome (list Z) :=
  match n with
  | O => Ret V
  | S n' =>
      s ← rd_mem I_ p;
      V ← st_mem V s v;
      assign_loop n' I_ (p + 1) v V
  end.

(** The group of [j] entries from [k] on: its number is its last position; a
    single entry is marked as sorted. *)
Definition close_group (I_ V : list Z) (k j : Z) : outcome (list Z * list Z) :=
  V ← assign_loop (Z.to_nat j) I_ k (k + j - 1) V;
  I_ ← (if j =? 1 then st_mem I_ k (-1) else Ret I_);
  Ret (I_, V).

(** [for(k=start;k<start+len;k+=j)] *)
Fixpoint small_loop (fuel : nat) (I_ V : list Z) (k stop h : Z) : outcome (list Z * list Z) :=
  if stop <=? k then Ret (I_, V) else
  match fuel with
  | O => Diverge
  | S fuel' =>
      x ← key I_ V h k;
      '(j, I_) ← select_loop (Z.to_nat (stop - k - 1)) V h k 1 1 x I_;
      '(I_, V) ← close_group I_ V k j;
      small_loop fuel' I_ V (k + j) stop h
  end.

(** The numbers of keys below and equal to the pivot. *)
Fixpoint count_keys (n : nat) (I_ V : list Z) (h i x jj kk : Z) : outcome (Z * Z) :=
  match n with
  | O => Ret (jj, kk)
  | S n' =>
      v ← key I_ V h i;
      let jj := if v <? x then jj + 1 else jj in
      let kk := if v =? x then kk + 1 else kk in
      count_keys n' I_ V h (i + 1) x jj kk
  end.

(** [while(i<jj)] *)
Fixpoint low_loop (fuel : nat) (V : list Z) (h x jj kk i j k : Z) (I_ : list Z) : outcome (Z * Z * list Z) :=
  if jj <=? i then Ret (j, k, I_) else
  match fuel with
  | O => Diverge
  | S fuel' =>
      v ← key I_ V h i;
      if v <? x then low_loop fuel' V h x jj kk (i + 1) j k I_
      else if v =? x then
        I_ ← swap I_ i (jj + j);
        low_loop fuel' V h x jj kk i (j + 1) k I_
      else
        I_ ← swap I_ i (kk + k);
        low_loop fuel' V h x jj kk i j (k + 1) I_
  end.

(** [while(jj+j<kk)] *)
Fixpoint mid_loop (fuel : nat) (V : list Z) (h x jj kk j k : Z) (I_ : list Z) : outcome (list Z) :=
  if kk <=? jj + j then Ret I_ else
  match fuel with
  | O => Diverge
  | S fuel' =>
      v ← key I_ V h (jj + j);
      if v =? x then mid_loop fuel' V h x jj kk (j + 1) k I_
      else
        I_ ← swap I_ (jj + j) (kk + k);
        mid_loop fuel' V h x jj kk j (k + 1) I_
  end.

(** The fuel bounds the depth of the recursion. *)
Fixpoint split (fuel : nat) (I_ V : list Z) (start len h : Z) : outcome (list Z * list Z) :=
  if len <? 16 then small_loop (Z.to_nat len) I_ V start (start + len) h else
  match fuel with
  | O => Diverge
  | S fuel' =>
      x ← key I_ V h (start + len / 2);
      '(jj, kk) ← count_keys (Z.to_nat len) I_ V h start x 0 0;
      let jj := jj + start in
      let kk := kk + jj in
      '(j, k, I_) ← low_loop (Z.to_nat len) V h x jj kk start 0 0 I_;
      I_ ← mid_loop (Z.to_nat len) V h x jj kk j k I_;
      '(I_, V) ← (if start <? jj then split fuel' I_ V start (jj - start) h else Ret (I_, V));
      '(I_, V) ← close_group I_ V jj (kk - jj);
      if kk <? start + len then split fuel' I_ V kk (start + len - kk) h else Ret (I_, V)
  end.

(** ** qsufsort *)
Section Sort.
Context (old : bytes).
Abbreviation oldsize := (Z.of_nat (length old)).

(** [buckets[old[i]]++] *)
Fixpoint count_bytes (l : bytes) (buckets : list Z) : outcome (list Z) :=
  match l with
  | [] => Ret buckets
  | c :: l' =>
      b ← rd_mem buckets c;
      count_bytes l' (wr buckets c (b + 1))
  end.

(** The sums of the counts, and their shift by one. *)
Definition bucket_starts (buckets : list Z) : list Z :=
  let sums := for_ 255 1 (fun i b => wr b i (rd b i + rd b (i - 1))) buckets in
  let moved := for_ 255 0 (fun k b => let i := 255 - k in wr b i (rd b (i - 1))) sums in
  wr moved 0 0.

(** [I_[++buckets[old[i]]]=i] *)
Fixpoint place_loop (l : bytes) (i : Z) (buckets I_ : list Z) : outcome (list Z * list Z) :=
  match l with
  | [] => Ret (buckets, I_)
  | c :: l' =>
      b ← rd_mem buckets c;
      I_ ← st_mem I_ (b + 1) i;
      place_loop l' (i + 1) (wr buckets c (b + 1)) I_
  end.

(** [V[i]=buckets[old[i]]] *)
Fixpoint number_loop (l : bytes) (i : Z) (buckets V : list Z) : outcome (list Z) :=
  match l with
  | [] => Ret V
  | c :: l' =>
      b ← rd_mem buckets c;
      V ← st_mem V i b;
      number_loop l' (i + 1) buckets V
  end.

(** [for(i=1;i<256;i++) if(buckets[i]==buckets[i-1]+1) I_[buckets[i]]=-1;] *)
Fixpoint single_loop (n : nat) (i : Z) (buckets I_ : list Z) : outcome (list Z) :=
  match n with
  | O => Ret I_
  | S n' =>
      I_ ← (if rd buckets i =? rd buckets (i - 1) + 1 then st_mem I_ (rd buckets i) (-1) else Ret I_);
      single_loop n' (i + 1) buckets I_
  end.

(** [if(len) I_[i-len]=-len;] *)
Definition flush_run (I_ : list Z) (i len : Z) : outcome (list Z) :=
  if len =? 0 then Ret I_ else st_mem I_ (i - len) (- len).

(** One pass over the groups. *)
Fixpoint pass_loop (fuel : nat) (I_ V : list Z) (i len h : Z) : outcome (list Z * list Z) :=
  if oldsize + 1 <=? i then
    I_ ← flush_run I_ i len;
    Ret (I_, V)
  else
  match fuel with
  | O => Diverge
  | S fuel' =>
      x ← rd_mem I_ i;
      if x <? 0 then pass_loop fuel' I_ V (i - x) (len - x) h
      else
        I_ ← flush_run I_ i len;
        v ← rd_mem V x;
        let len := v + 1 - i in
        '(I_, V) ← split (S (length old)) I_ V i len h;
        pass_loop fuel' I_ V (i + len) 0 h
  end.

(** [for(h=1;I_[0]!=-(oldsize+1);h+=h)] *)
Fixpoint double_loop (fuel : nat) (I_ V : list Z) (h : Z) : outcome (list Z) :=
  x ← rd_mem I_ 0;
  if x =? - (oldsize + 1) then Ret V else
  match fuel with
  | O => Diverge
  | S fuel' =>
      '(I_, V) ← pass_loop (S (length old)) I_ V 0 0 h;
      double_loop fuel' I_ V (h + h)
  end.

(** [I_[V[i]]=i] *)
Fixpoint invert_loop (n : nat) (i : Z) (V I_ : list Z) : outcome (list Z) :=
  match n with
  | O => Ret I_
  | S n' =>
      v ← rd_mem V i;
      I_ ← st_mem I_ v i;
      invert_loop n' (i + 1) V I_
  end.

(** [junk] and [junk'] are what malloc left in the two arrays. *)
Definition qsufsort (junk junk' : list Z) : outcome (list Z) :=
  counts ← count_bytes old (replicate 256 0);
  '(buckets, I_) ← place_loop old 0 (bucket_starts counts) junk;
  I_ ← st_mem I_ 0 oldsize;
  V ← number_loop old 0 buckets junk';
  V ← st_mem V oldsize 0;
  I_ ← single_loop 255 1 buckets I_;
  I_ ← st_mem I_ 0 (-1);
  V ← double_loop (S (S (length old))) I_ V 1;
  invert_loop (S (length old)) 0 V I_.

End Sort.
