(* ===== verification/QSufSortSpec.v ===== *)
(** * The suffix sort of bsdiff: it sorts the suffixes

    For every file [qsufsort] ends, stays inside its arrays and leaves in [I]
    the suffixes in lexicographic order. *)

From S2P Require Import Prelude.
From S2P Require Import BsPatch.
From S2P Require Import BsPatchSpec.
From S2P Require Import QSufSort.

(** ** Arrays *)
Definition swapped (l : list Z) (p q : Z) : list Z := wr (wr l p (rd l q)) q (rd l p).

Lemma swap_ok l p q : 0 <= p < Z.of_nat (length l) -> 0 <= q < Z.of_nat (length l) -> swap l p q = Ret (swapped l p q).
Proof.
  intros Hp Hq. unfold swap. rewrite !rd_mem_ok, !bind_ret by done. rewrite st_mem_ok, bind_ret by done. by rewrite st_mem_ok by (by rewrite length_wr).
Qed.

Lemma swapped_length l p q : length (swapped l p q) = length l.
Proof. unfold swapped. by rewrite !length_wr. Qed.

Lemma rd_swapped l p q r : 0 <= p < Z.of_nat (length l) -> 0 <= q < Z.of_nat (length l) -> 0 <= r ->
  rd (swapped l p q) r = if r =? q then rd l p else if r =? p then rd l q else rd l r.
Proof.
  intros Hp Hq Hr. unfold swapped. destruct (Z.eqb_spec r q) as [->|].
  - by rewrite rd_wr_eq by (rewrite length_wr; lia).
  - rewrite rd_wr_ne by lia. destruct (Z.eqb_spec r p) as [->|]; [by rewrite rd_wr_eq by lia | by rewrite rd_wr_ne by lia].
Qed.

Lemma insert_cons_perm (l : list Z) : forall j x y, l !! j = Some y -> y :: <[j:=x]> l ≡ₚ x :: l.
Proof.
  induction l as [|z l IH]; intros j x y Hj; [done |]. destruct j as [|j]; simpl in *.
  - injection Hj as ->. apply Permutation_swap.
  - etrans; [apply Permutation_swap |]. rewrite IH by done. apply Permutation_swap.
Qed.

Lemma insert_swap_perm (l : list Z) : forall i j x y, l !! i = Some x -> l !! j = Some y -> <[j:=x]> (<[i:=y]> l) ≡ₚ l.
Proof.
  induction l as [|z l IH]; intros i j x y Hi Hj; [done |]. destruct i as [|i], j as [|j]; simpl in *.
  - by injection Hi as ->.
  - injection Hi as ->. by apply insert_cons_perm.
  - injection Hj as ->. by apply insert_cons_perm.
  - by rewrite IH.
Qed.

Lemma lookup_rd (l : list Z) i : 0 <= i < Z.of_nat (length l) -> l !! Z.to_nat i = Some (rd l i).
Proof.
  intros H. destruct (lookup_lt_is_Some_2 l (Z.to_nat i) ltac:(lia)) as [x Hx]. rewrite Hx. f_equal. symmetry. by apply rd_lookup.
Qed.

Lemma swapped_perm l p q : 0 <= p < Z.of_nat (length l) -> 0 <= q < Z.of_nat (length l) -> swapped l p q ≡ₚ l.
Proof. intros Hp Hq. unfold swapped, wr. apply insert_swap_perm; by apply lookup_rd. Qed.

(** ** Suffixes *)
Section Suffixes.
Context (old : bytes).
Abbreviation n := (Z.of_nat (length old)).

(** The first [l] bytes of the suffixes at [s] and [t] exist and are the same. *)
Definition share (l s t : Z) : Prop := forall i, 0 <= i < l -> s + i < n /\ t + i < n /\ rd old (s + i) = rd old (t + i).

(** Lexicographic order: at the first difference the lower one ends or has the
    smaller byte. *)
Definition suf_lt (s t : Z) : Prop :=
  exists l, 0 <= l /\ share l s t /\ (s + l = n /\ t + l < n \/ s + l < n /\ t + l < n /\ rd old (s + l) < rd old (t + l)).

Definition agree (h s t : Z) : Prop := s = t \/ share h s t.

Lemma agree_room h s t : 1 <= h -> s <> t -> agree h s t -> s + h <= n /\ t + h <= n.
Proof. intros Hh Hne [?|H]; [done |]. destruct (H (h - 1) ltac:(lia)) as (H1 & H2 & _). lia. Qed.

Lemma share_add h l s t : 0 <= h -> share h s t -> share l (s + h) (t + h) -> share (h + l) s t.
Proof.
  intros Hh H1 H2 i Hi. destruct (decide (i < h)); [apply H1; lia |].
  specialize (H2 (i - h) ltac:(lia)). replace (s + h + (i - h)) with (s + i) in H2 by lia. by replace (t + h + (i - h)) with (t + i) in H2 by lia.
Qed.

Lemma suf_lt_shift h s t : 0 <= h -> agree h s t -> suf_lt (s + h) (t + h) -> suf_lt s t.
Proof.
  intros Hh Ha (l & Hl & Hs & He). destruct Ha as [->|Ha].
  - exfalso. lia.
  - exists (h + l). split; [lia |]. split; [by apply share_add |]. rewrite !Z.add_assoc. done.
Qed.

Lemma agree_double h s t : 0 <= h -> agree h s t -> agree h (s + h) (t + h) -> agree (h + h) s t.
Proof.
  intros Hh [->|H1] [H2|H2]; try by left.
  - left. lia.
  - right. by apply share_add.
Qed.

Lemma agree_sym h s t : agree h s t -> agree h t s.
Proof. intros [->|H]; [by left |]. right. intros i Hi. destruct (H i Hi) as (? & ? & ?). done. Qed.

Lemma agree_trans h s t u : agree h s t -> agree h t u -> agree h s u.
Proof.
  intros [->|H1] [->|H2]; try (by left); try (by right). right. intros i Hi. destruct (H1 i Hi) as (? & ? & E1), (H2 i Hi) as (? & ? & E2).
  split; [done |]. split; [done |]. congruence.
Qed.

(** ** Groups

    [P] is the permutation that [I] stands for: [I] with the entries that were
    overwritten by the lengths of sorted runs. [V] numbers a suffix with the
    last position of its group. *)
Definition grp (V P : list Z) (p : Z) : Z := rd V (rd P p).

Record grouped (h : Z) (V P : list Z) : Prop := mk_grouped {
  gd_len : length V = S (length old);
  gd_perm : P ≡ₚ seqZ 0 (n + 1);
  gd_grp : forall p, 0 <= p <= n -> p <= grp V P p <= n /\ forall q, p <= q <= grp V P p -> grp V P q = grp V P p;
  gd_lt : forall p q, 0 <= p <= n -> 0 <= q <= n -> grp V P p < grp V P q -> suf_lt (rd P p) (rd P q);
  gd_eq : forall p q, 0 <= p <= n -> 0 <= q <= n -> grp V P p = grp V P q -> agree h (rd P p) (rd P q)
}.

Lemma perm_length P : P ≡ₚ seqZ 0 (n + 1) -> length P = S (length old).
Proof. intros H. rewrite H, length_seqZ. lia. Qed.

Lemma perm_in P p : P ≡ₚ seqZ 0 (n + 1) -> 0 <= p <= n -> 0 <= rd P p <= n.
Proof.
  intros H Hp. pose proof (perm_length P H) as Hl. assert (Hin : rd P p ∈ P) by (apply (list_elem_of_lookup_2 _ (Z.to_nat p)), lookup_rd; lia).
  remember (rd P p) as x. rewrite H, elem_of_seqZ in Hin. lia.
Qed.

Lemma perm_inj P p q : P ≡ₚ seqZ 0 (n + 1) -> 0 <= p <= n -> 0 <= q <= n -> rd P p = rd P q -> p = q.
Proof.
  intros H Hp Hq E. pose proof (perm_length P H) as Hl. assert (Hn : NoDup P) by (rewrite H; apply NoDup_seqZ).
  assert (Z.to_nat p = Z.to_nat q); [|lia]. eapply NoDup_lookup; [exact Hn | apply lookup_rd; lia |]. rewrite E. apply lookup_rd. lia.
Qed.

Lemma perm_surj P s : P ≡ₚ seqZ 0 (n + 1) -> 0 <= s <= n -> exists p, 0 <= p <= n /\ rd P p = s.
Proof.
  intros H Hs. pose proof (perm_length P H) as Hl. assert (Hin : s ∈ P) by (rewrite H, elem_of_seqZ; lia).
  apply list_elem_of_lookup_1 in Hin as [i Hi]. exists (Z.of_nat i). pose proof (lookup_lt_Some _ _ _ Hi). split; [lia |].
  apply rd_lookup. by rewrite Nat2Z.id.
Qed.

Lemma key_lt h V P s t : grouped h V P -> 0 <= s <= n -> 0 <= t <= n -> rd V s < rd V t -> suf_lt s t.
Proof.
  intros H Hs Ht E. destruct (perm_surj P s (gd_perm _ _ _ H) Hs) as (p & Hp & <-). destruct (perm_surj P t (gd_perm _ _ _ H) Ht) as (q & Hq & <-).
  by apply (gd_lt _ _ _ H).
Qed.

Lemma key_eq h V P s t : grouped h V P -> 0 <= s <= n -> 0 <= t <= n -> rd V s = rd V t -> agree h s t.
Proof.
  intros H Hs Ht E. destruct (perm_surj P s (gd_perm _ _ _ H) Hs) as (p & Hp & <-). destruct (perm_surj P t (gd_perm _ _ _ H) Ht) as (q & Hq & <-).
  by apply (gd_eq _ _ _ H).
Qed.

(** The positions [a .. g] are a group. *)
Definition group (V P : list Z) (a g : Z) : Prop :=
  0 <= a <= g /\ g <= n /\ (forall p, a <= p <= g -> grp V P p = g) /\ (forall p, 0 <= p < a -> grp V P p < a).

(** Inside a group the positions may be permuted. *)
Definition permutes (a b : Z) (P P' : list Z) : Prop :=
  P' ≡ₚ P /\ (forall p, 0 <= p -> ~ a <= p < b -> rd P' p = rd P p) /\ (forall p, a <= p < b -> exists p', a <= p' < b /\ rd P' p = rd P p').

Lemma permutes_refl a b P : permutes a b P P.
Proof. split; [done |]. split; [done |]. intros p Hp. by exists p. Qed.

Lemma permutes_trans a b P P1 P2 : permutes a b P P1 -> permutes a b P1 P2 -> permutes a b P P2.
Proof.
  intros (A1 & A2 & A3) (B1 & B2 & B3). split; [by rewrite B1 |]. split; [intros p H1 H2; rewrite B2, A2; done |].
  intros p Hp. destruct (B3 p Hp) as (p1 & Hp1 & ->). by apply A3.
Qed.

Lemma permutes_mono a b a' b' P P' : 0 <= a' <= a -> b <= b' -> permutes a b P P' -> permutes a' b' P P'.
Proof.
  intros Ha Hb (A1 & A2 & A3). split; [done |]. split; [intros p H1 H2; apply A2; lia |].
  intros p Hp. destruct (decide (a <= p < b)) as [H|H]; [destruct (A3 p H) as (p' & H' & E); exists p'; split; [lia | done] |].
  exists p. split; [done | apply A2; lia].
Qed.

Lemma permutes_swapped a b P p q : 0 <= a -> b <= Z.of_nat (length P) -> a <= p < b -> a <= q < b -> permutes a b P (swapped P p q).
Proof.
  intros Ha Hb Hp Hq. split; [apply swapped_perm; lia |]. split.
  - intros r H1 H2. rewrite rd_swapped by lia. destruct (Z.eqb_spec r q), (Z.eqb_spec r p); (done || lia).
  - intros r Hr. rewrite rd_swapped by lia. destruct (Z.eqb_spec r q); [by exists p |]. destruct (Z.eqb_spec r p); [by exists q | by exists r].
Qed.

Lemma permutes_grp V P P' a b g : permutes a b P P' -> (forall p, a <= p < b -> grp V P p = g) -> forall p, 0 <= p -> grp V P' p = grp V P p.
Proof.
  intros (A1 & A2 & A3) Hg p Hp. destruct (decide (a <= p < b)) as [H|H].
  - destruct (A3 p H) as (p' & Hp' & E). unfold grp in *. rewrite E, Hg, Hg; done.
  - unfold grp. by rewrite A2.
Qed.

Lemma permutes_grouped h V P P' a b g : 0 <= a -> b <= n + 1 -> permutes a b P P' -> (forall p, a <= p < b -> grp V P p = g) ->
  grouped h V P -> grouped h V P'.
Proof.
  intros Ha Hb HP Hg [G1 G2 G3 G4 G5]. pose proof (permutes_grp V P P' a b g HP Hg) as E. destruct HP as (A1 & A2 & A3).
  assert (R : forall p, 0 <= p <= n -> exists p', 0 <= p' <= n /\ rd P' p = rd P p' /\ grp V P p' = grp V P p).
  { intros p Hp. destruct (decide (a <= p < b)) as [H|H].
    - destruct (A3 p H) as (p' & Hp' & E'). exists p'. split; [lia |]. split; [done |]. by rewrite !Hg.
    - exists p. split; [done |]. split; [apply A2; lia | done]. }
  split; [done | by rewrite A1 | | |].
  - intros p Hp. rewrite E by lia. destruct (G3 p Hp) as [H1 H2]. split; [done |]. intros q Hq. rewrite E by lia. by apply H2.
  - intros p q Hp Hq H. rewrite !E in H by lia. destruct (R p Hp) as (p' & Hp' & -> & Ep), (R q Hq) as (q' & Hq' & -> & Eq). apply G4; [done | done |]. by rewrite Ep, Eq.
  - intros p q Hp Hq H. rewrite !E in H by lia. destruct (R p Hp) as (p' & Hp' & -> & Ep), (R q Hq) as (q' & Hq' & -> & Eq). apply G5; [done | done |]. by rewrite Ep, Eq.
Qed.

(** ** The structure of [I]: runs of sorted entries and groups *)
Inductive chain (h : Z) (A V P : list Z) : Z -> Z -> Prop :=
  | chain_nil a : chain h A V P a a
  | chain_run a m b : 0 < m -> rd A a = - m -> (forall q, a <= q < a + m -> grp V P q = q) -> chain h A V P (a + m) b -> chain h A V P a b
  | chain_group a g b : a <= g -> (forall q, a <= q <= g -> rd A q = rd P q /\ grp V P q = g /\ rd P q + h <= n) ->
      chain h A V P (g + 1) b -> chain h A V P a b.

Lemma chain_le h A V P a b : chain h A V P a b -> a <= b.
Proof. induction 1; lia. Qed.

Lemma chain_app h A V P a b c : chain h A V P a b -> chain h A V P b c -> chain h A V P a c.
Proof. induction 1; intros Hc; [done | by eapply chain_run; eauto | by eapply chain_group; eauto]. Qed.

(** It depends on its positions only. *)
Lemma chain_ext h A V P A' V' P' a b : (forall q, a <= q < b -> rd A' q = rd A q /\ rd P' q = rd P q /\ grp V' P' q = grp V P q) ->
  chain h A V P a b -> chain h A' V' P' a b.
Proof.
  intros E H. revert E. induction H as [a|a m b Hm Hr Hq Hc IH|a g b Hg Hq Hc IH]; intros E; [constructor | |].
  - pose proof (chain_le _ _ _ _ _ _ Hc). eapply (chain_run _ _ _ _ a m); [done | | |].
    + by rewrite (proj1 (E a ltac:(lia))).
    + intros q Hq'. destruct (E q ltac:(lia)) as (_ & _ & ->). by apply Hq.
    + apply IH. intros q Hq'. apply E. lia.
  - pose proof (chain_le _ _ _ _ _ _ Hc). eapply (chain_group _ _ _ _ a g); [done | |].
    + intros q Hq'. destruct (E q ltac:(lia)) as (-> & -> & ->). by apply Hq.
    + apply IH. intros q Hq'. apply E. lia.
Qed.

(** The last positions of groups stay below the end. *)
Lemma chain_below h A V P a b : chain h A V P a b -> forall q, a <= q < b -> grp V P q < b.
Proof.
  induction 1 as [a|a m b Hm Hr Hq Hc IH|a g b Hg Hq Hc IH]; intros q Hq'; [lia | |].
  - pose proof (chain_le _ _ _ _ _ _ Hc). destruct (decide (q < a + m)); [rewrite Hq; lia | apply IH; lia].
  - pose proof (chain_le _ _ _ _ _ _ Hc). destruct (decide (q <= g)); [destruct (Hq q ltac:(lia)) as (_ & -> & _); lia | apply IH; lia].
Qed.

(** ** Closing a group *)
Lemma assign_loop_ok P A v j : P ≡ₚ seqZ 0 (n + 1) -> length A = S (length old) -> forall p V, length V = S (length old) ->
  0 <= p -> p + Z.of_nat j <= n + 1 -> (forall q, p <= q < p + Z.of_nat j -> rd A q = rd P q) ->
  exists V', assign_loop j A p v V = Ret V' /\ length V' = S (length old) /\
    forall q, 0 <= q <= n -> grp V' P q = if (p <=? q) && (q <? p + Z.of_nat j) then v else grp V P q.
Proof.
  intros HP HA. induction j as [|j IH]; intros p V HV Hp Hj Hq; cbn [assign_loop].
  - exists V. split; [done |]. split; [done |]. intros q Hq'. destruct (Z.leb_spec p q), (Z.ltb_spec q (p + Z.of_nat 0)); (done || lia).
  - rewrite rd_mem_ok, bind_ret by lia. rewrite (Hq p) by lia. pose proof (perm_in P p HP ltac:(lia)) as Hr. rewrite st_mem_ok, bind_ret by lia.
    destruct (IH (p + 1) (wr V (rd P p) v)) as (V' & -> & HV' & E); try lia; [by rewrite length_wr | intros q Hq'; apply Hq; lia |].
    exists V'. split; [done |]. split; [done |]. intros q Hq'. rewrite E by done.
    destruct (Z.eq_dec q p) as [->|Hne].
    + destruct (Z.leb_spec (p + 1) p); [lia |]. destruct (Z.leb_spec p p); [|lia]. destruct (Z.ltb_spec p (p + Z.of_nat (S j))); [|lia]. cbn [andb].
      unfold grp. rewrite rd_wr_eq by lia. done.
    + assert (rd P p <> rd P q) by (intros E'; apply Hne; symmetry; apply (perm_inj P p q HP); (lia || done)).
      assert (grp (wr V (rd P p) v) P q = grp V P q) as -> by (unfold grp; apply rd_wr_ne; pose proof (perm_in P q HP Hq'); lia).
      destruct (Z.leb_spec (p + 1) q), (Z.leb_spec p q), (Z.ltb_spec q (p + 1 + Z.of_nat j)), (Z.ltb_spec q (p + Z.of_nat (S j))); cbn [andb]; (done || lia).
Qed.

(** Numbering the first [j] entries of a group, which are below the others. *)
Lemma renumber_grouped h V V' P k j g : grouped h V P -> group V P k g -> 1 <= j -> k + j - 1 <= g -> length V' = S (length old) ->
  (forall p q, k <= p < k + j -> k + j <= q <= g -> suf_lt (rd P p) (rd P q)) ->
  (forall q, 0 <= q <= n -> grp V' P q = if (k <=? q) && (q <? k + j) then k + j - 1 else grp V P q) -> grouped h V' P.
Proof.
  intros HG (Hkg & Hgn & Hin & Hbelow) Hj Hjg HV' Hsep E. destruct HG as [G1 G2 G3 G4 G5].
  assert (D : forall q, 0 <= q <= n -> k <= q < k + j /\ grp V' P q = k + j - 1 \/ q < k /\ grp V' P q = grp V P q \/ k + j <= q /\ grp V' P q = grp V P q).
  { intros q Hq. rewrite E by done. destruct (Z.leb_spec k q), (Z.ltb_spec q (k + j)); cbn [andb]; lia. }
  split; [done | done | | |].
  - intros p Hp. destruct (D p Hp) as [[Hp1 ->]|[[Hp1 ->]|[Hp1 ->]]].
    + split; [lia |]. intros q Hq. destruct (D q ltac:(lia)) as [[? ->]|[[? _]|[? _]]]; lia.
    + destruct (G3 p Hp) as [H1 H2]. split; [done |]. pose proof (Hbelow p ltac:(lia)). intros q Hq.
      destruct (D q ltac:(lia)) as [[? _]|[[? ->]|[? _]]]; [lia | by apply H2 | lia].
    + destruct (G3 p Hp) as [H1 H2]. split; [done |]. intros q Hq. destruct (D q ltac:(lia)) as [[? _]|[[? _]|[? ->]]]; [lia | lia | by apply H2].
  - intros p q Hp Hq Hlt. destruct (D p Hp) as [[Hp1 Ep]|[[Hp1 Ep]|[Hp1 Ep]]], (D q Hq) as [[Hq1 Eq]|[[Hq1 Eq]|[Hq1 Eq]]]; rewrite Ep, Eq in Hlt; try lia.
    + pose proof (Hbelow q ltac:(lia)). lia.
    + destruct (decide (q <= g)); [apply Hsep; lia |]. apply G4; [done | done |]. rewrite (Hin p) by lia. pose proof (proj1 (G3 q Hq)). lia.
    + apply G4; [done | done |]. rewrite (Hin q) by lia. pose proof (Hbelow p ltac:(lia)). lia.
    + by apply G4.
    + by apply G4.
    + pose proof (proj1 (G3 p Hp)). lia.
    + by apply G4.
    + by apply G4.
  - intros p q Hp Hq Heq. destruct (D p Hp) as [[Hp1 Ep]|[[Hp1 Ep]|[Hp1 Ep]]], (D q Hq) as [[Hq1 Eq]|[[Hq1 Eq]|[Hq1 Eq]]]; rewrite Ep, Eq in Heq.
    + apply G5; [done | done |]. rewrite !Hin by lia. done.
    + pose proof (Hbelow q ltac:(lia)). lia.
    + pose proof (proj1 (G3 q Hq)). lia.
    + pose proof (Hbelow p ltac:(lia)). lia.
    + by apply G5.
    + by apply G5.
    + pose proof (proj1 (G3 p Hp)). lia.
    + by apply G5.
    + by apply G5.
Qed.

(** What a step leaves alone outside of [a, b). *)
Definition outside (a b : Z) (A V P A' V' P' : list Z) : Prop :=
  forall q, 0 <= q <= n -> ~ a <= q < b -> rd A' q = rd A q /\ rd P' q = rd P q /\ grp V' P' q = grp V P q.

Lemma outside_trans a b A V P A1 V1 P1 A2 V2 P2 : outside a b A V P A1 V1 P1 -> outside a b A1 V1 P1 A2 V2 P2 -> outside a b A V P A2 V2 P2.
Proof. intros H1 H2 q Hq Hn. destruct (H1 q Hq Hn) as (? & ? & ?), (H2 q Hq Hn) as (? & ? & ?). split; [congruence |]. split; congruence. Qed.

Lemma outside_mono a b a' b' A V P A' V' P' : a' <= a -> b <= b' -> outside a b A V P A' V' P' -> outside a' b' A V P A' V' P'.
Proof. intros Ha Hb H q Hq Hn. apply H; [done | lia]. Qed.

Lemma close_group_ok h A V P k j g : 0 <= h -> grouped h V P -> group V P k g -> 1 <= j -> k + j - 1 <= g -> length A = S (length old) ->
  (forall q, k <= q < k + j -> rd A q = rd P q) -> (forall p q, k <= p < k + j -> k + j <= q <= g -> suf_lt (rd P p) (rd P q)) ->
  (forall p q, k <= p < k + j -> k <= q < k + j -> agree (h + h) (rd P p) (rd P q)) -> (1 <= h) ->
  exists A' V', close_group A V k j = Ret (A', V') /\ grouped h V' P /\ chain (h + h) A' V' P k (k + j) /\ outside k (k + j) A V P A' V' P /\
    length A' = S (length old).
Proof.
  intros Hh HG Hgr Hj Hjg HA Heq Hsep Hagree Hh1. pose proof Hgr as (Hkg & Hgn & Hin & Hbelow). unfold close_group.
  destruct (assign_loop_ok P A (k + j - 1) (Z.to_nat j) (gd_perm _ _ _ HG) HA k V (gd_len _ _ _ HG)) as (V' & -> & HV' & E); try lia.
  { intros q Hq. apply Heq. lia. }
  rewrite bind_ret. replace (Z.of_nat (Z.to_nat j)) with j in E by lia.
  assert (HG' : grouped h V' P) by (by apply (renumber_grouped h V V' P k j g)).
  assert (Eout : forall q, 0 <= q <= n -> ~ k <= q < k + j -> grp V' P q = grp V P q).
  { intros q Hq Hn. rewrite E by done. destruct (Z.leb_spec k q), (Z.ltb_spec q (k + j)); cbn [andb]; (done || lia). }
  assert (Ein : forall q, k <= q < k + j -> grp V' P q = k + j - 1).
  { intros q Hq. rewrite E by lia. destruct (Z.leb_spec k q), (Z.ltb_spec q (k + j)); cbn [andb]; (done || lia). }
  destruct (Z.eqb_spec j 1) as [->|Hne].
  - rewrite st_mem_ok, bind_ret by lia. eexists _, V'. split; [reflexivity |]. split; [done |]. split; [|split; [|by rewrite length_wr]].
    + apply (chain_run _ _ _ _ k 1); [lia | by rewrite rd_wr_eq by lia | intros q Hq; rewrite Ein; lia | constructor].
    + intros q Hq Hn. rewrite rd_wr_ne by lia. split; [done |]. split; [done | by apply Eout].
  - rewrite bind_ret. eexists A, V'. split; [reflexivity |]. split; [done |]. split; [|split; [|done]].
    + apply (chain_group _ _ _ _ k (k + j - 1)); [lia | | replace (k + j - 1 + 1) with (k + j) by lia; constructor].
      intros q Hq. split; [apply Heq; lia |]. split; [apply Ein; lia |].
      set (q' := if q =? k then k + 1 else k). assert (Hq' : k <= q' < k + j /\ q' <> q) by (unfold q'; destruct (Z.eqb_spec q k); lia).
      assert (rd P q <> rd P q') by (intros E'; apply (perm_inj P) in E'; [lia | apply HG | lia | lia]).
      apply (agree_room (h + h) (rd P q) (rd P q')); [lia | done |]. apply Hagree; lia.
    + intros q Hq Hn. split; [done |]. split; [done | by apply Eout].
Qed.

(** ** Keys *)

(** The entries of [a, b) are in place and their keys exist. *)
Record ready (h : Z) (A P : list Z) (a b : Z) : Prop := mk_ready {
  rdy_a : 0 <= a;
  rdy_b : b <= n + 1;
  rdy_len : length A = S (length old);
  rdy_perm : P ≡ₚ seqZ 0 (n + 1);
  rdy_eq : forall q, a <= q < b -> rd A q = rd P q;
  rdy_room : forall q, a <= q < b -> rd P q + h <= n
}.

Definition kv (V P : list Z) (h p : Z) : Z := rd V (rd P p + h).

Lemma key_reads h A V P a b p : 0 <= h -> length V = S (length old) -> ready h A P a b -> a <= p < b -> key A V h p = Ret (kv V P h p).
Proof.
  intros Hh HV [R1 R2 R3 R4 R5 R6] Hp. unfold key. rewrite rd_mem_ok, bind_ret by lia. rewrite R5 by done.
  pose proof (perm_in P p R4 ltac:(lia)). specialize (R6 p Hp). by rewrite rd_mem_ok by lia.
Qed.

Lemma ready_mono h A P a b a' b' : ready h A P a b -> a <= a' -> b' <= b -> ready h A P a' b'.
Proof. intros [R1 R2 R3 R4 R5 R6] Ha Hb. split; try done; [lia | lia | intros q Hq; apply R5; lia | intros q Hq; apply R6; lia]. Qed.

Lemma ready_swapped h A P a b p q : ready h A P a b -> a <= p < b -> a <= q < b ->
  ready h (swapped A p q) (swapped P p q) a b /\ permutes a b P (swapped P p q) /\ swap A p q = Ret (swapped A p q) /\
  forall r, 0 <= r -> ~ a <= r < b -> rd (swapped A p q) r = rd A r.
Proof.
  intros [R1 R2 R3 R4 R5 R6] Hp Hq. pose proof (perm_length P R4) as HlP. assert (HP : permutes a b P (swapped P p q)) by (apply permutes_swapped; lia).
  split; [|split; [done |]].
  - split; try done.
    + by rewrite swapped_length.
    + by rewrite (proj1 HP).
    + intros r Hr. rewrite !rd_swapped by lia. rewrite !R5 by lia. done.
    + intros r Hr. destruct HP as (_ & _ & HP). destruct (HP r Hr) as (r' & Hr' & ->). by apply R6.
  - split; [apply swap_ok; lia |]. intros r Hr Hn. rewrite rd_swapped by lia. destruct (Z.eqb_spec r q), (Z.eqb_spec r p); (done || lia).
Qed.

Lemma kv_swapped V P h p q r : 0 <= p < Z.of_nat (length P) -> 0 <= q < Z.of_nat (length P) -> 0 <= r ->
  kv V (swapped P p q) h r = if r =? q then kv V P h p else if r =? p then kv V P h q else kv V P h r.
Proof. intros. unfold kv. rewrite rd_swapped by done. by destruct (r =? q), (r =? p). Qed.

(** What a loop that permutes [a, b) keeps. *)
Definition shuffled (h a b : Z) (A P A' P' : list Z) : Prop :=
  ready h A' P' a b /\ permutes a b P P' /\ forall r, 0 <= r -> ~ a <= r < b -> rd A' r = rd A r.

Lemma shuffled_refl h a b A P : ready h A P a b -> shuffled h a b A P A P.
Proof. intros H. split; [done |]. split; [apply permutes_refl | done]. Qed.

Lemma shuffled_trans h a b A P A1 P1 A2 P2 : shuffled h a b A P A1 P1 -> shuffled h a b A1 P1 A2 P2 -> shuffled h a b A P A2 P2.
Proof.
  intros (A1' & A2' & A3) (B1 & B2 & B3). split; [done |]. split; [by eapply permutes_trans |]. intros r H1 H2. rewrite B3, A3; done.
Qed.

Lemma swap_shuffled h a b A P p q : ready h A P a b -> a <= p < b -> a <= q < b ->
  swap A p q = Ret (swapped A p q) /\ shuffled h a b A P (swapped A p q) (swapped P p q).
Proof. intros H Hp Hq. destruct (ready_swapped h A P a b p q H Hp Hq) as (R1 & R2 & R3 & R4). split; [done |]. by split. Qed.

(** ** Selecting the least keys *)
Lemma select_loop_ok h V k b m : 0 <= h -> length V = S (length old) -> forall i j x A P, ready h A P k b -> 1 <= j <= i -> k + i + Z.of_nat m = b ->
  (forall p, k <= p < k + j -> kv V P h p = x) -> (forall p, k + j <= p < k + i -> x < kv V P h p) ->
  exists j' x' A' P', select_loop m V h k i j x A = Ret (j', A') /\ shuffled h k b A P A' P' /\ 1 <= j' <= b - k /\
    (forall p, k <= p < k + j' -> kv V P' h p = x') /\ (forall p, k + j' <= p < b -> x' < kv V P' h p).
Proof.
  intros Hh HV. induction m as [|m IH]; intros i j x A P HR Hj Hb Heq Hgt; cbn [select_loop].
  { exists j, x, A, P. split; [done |]. split; [by apply shuffled_refl |]. split; [lia |]. split; [done |]. intros p Hp. apply Hgt. lia. }
  rewrite (key_reads h A V P k b) by (done || lia). rewrite bind_ret. set (v := kv V P h (k + i)).
  pose proof (perm_length P (rdy_perm _ _ _ _ _ HR)) as HlP. pose proof (rdy_a _ _ _ _ _ HR). pose proof (rdy_b _ _ _ _ _ HR).
  assert (Step : forall x1 j1, 0 <= j1 <= i -> v = x1 -> (forall p, k <= p < k + j1 -> kv V P h p = x1) -> (forall p, k + j1 <= p < k + i -> x1 < kv V P h p) ->
    exists j' x' A' P', (A1 ← swap A (k + j1) (k + i); select_loop m V h k (i + 1) (j1 + 1) x1 A1) = Ret (j', A') /\ shuffled h k b A P A' P' /\ 1 <= j' <= b - k /\
    (forall p, k <= p < k + j' -> kv V P' h p = x') /\ (forall p, k + j' <= p < b -> x' < kv V P' h p)).
  { intros x1 j1 Hj1 Hv H1 H2. destruct (swap_shuffled h k b A P (k + j1) (k + i) HR ltac:(lia) ltac:(lia)) as [-> HS]. rewrite bind_ret.
    destruct (IH (i + 1) (j1 + 1) x1 _ _ (proj1 HS)) as (j' & x' & A' & P' & -> & HS' & Hj' & E1 & E2); try lia.
    - intros p Hp. rewrite kv_swapped by lia. destruct (Z.eqb_spec p (k + i)) as [->|]; [replace (k + j1) with (k + i) by lia; exact Hv |].
      destruct (Z.eqb_spec p (k + j1)); [done | apply H1; lia].
    - intros p Hp. rewrite kv_swapped by lia. destruct (Z.eqb_spec p (k + i)) as [->|]; [apply H2; lia |].
      destruct (Z.eqb_spec p (k + j1)); [lia | apply H2; lia].
    - exists j', x', A', P'. split; [done |]. split; [by eapply shuffled_trans |]. done. }
  destruct (Z.ltb_spec v x).
  - rewrite Z.eqb_refl. apply (Step v 0); try done; [lia | intros p Hp; lia |]. intros p Hp. destruct (decide (p < k + j)); [rewrite Heq by lia; lia |].
    assert (x < kv V P h p) by (apply Hgt; lia). lia.
  - destruct (Z.eqb_spec v x); [by apply (Step x j); try done; lia |].
    apply IH; try done; try lia. intros p Hp. destruct (Z.eq_dec p (k + i)) as [->|]; [fold v; lia | apply Hgt; lia].
Qed.

(** ** Sorting a range of a group

    The entries of [a, b) are the lowest ones of the group [a .. g]. *)
Record unsorted (h : Z) (A V P : list Z) (a b g : Z) : Prop := mk_unsorted {
  us_grouped : grouped h V P;
  us_group : group V P a g;
  us_ready : ready h A P a b;
  us_b : a <= b <= g + 1;
  us_sep : forall p q, a <= p < b -> b <= q <= g -> suf_lt (rd P p) (rd P q)
}.

(** After sorting by the next [h] bytes. *)
Record refined (h : Z) (A V P : list Z) (a b : Z) (A' V' P' : list Z) : Prop := mk_refined {
  so_grouped : grouped h V' P';
  so_chain : chain (h + h) A' V' P' a b;
  so_outside : outside a b A V P A' V' P';
  so_agree : forall p q, a <= p < b -> a <= q < b -> grp V' P' p = grp V' P' q -> agree (h + h) (rd P' p) (rd P' q);
  so_len : length A' = S (length old);
  so_perm : permutes a b P P'
}.

Lemma unsorted_shuffled h A V P a b g A' P' : unsorted h A V P a b g -> shuffled h a b A P A' P' -> unsorted h A' V P' a b g.
Proof.
  intros [H1 (G1 & G2 & G3 & G4) H3 H4 H5] (S1 & S2 & S3). pose proof S2 as (_ & S4 & S5). pose proof (rdy_a _ _ _ _ _ H3). pose proof (rdy_b _ _ _ _ _ H3).
  assert (Hg : forall p, a <= p < b -> grp V P p = g) by (intros p Hp; apply G3; lia).
  pose proof (permutes_grp V P P' a b g S2 Hg) as E.
  split; [by eapply permutes_grouped | | done | done |].
  - split; [done |]. split; [done |]. split; [intros p Hp; rewrite E by lia; by apply G3 | intros p Hp; rewrite E by lia; by apply G4].
  - intros p q Hp Hq. destruct (S5 p Hp) as (p' & Hp' & ->). rewrite S4 by lia. by apply H5.
Qed.

Lemma unsorted_keys h A V P a b g p q : 1 <= h -> unsorted h A V P a b g -> a <= p < b -> a <= q < b ->
  (kv V P h p < kv V P h q -> suf_lt (rd P p) (rd P q)) /\ (kv V P h p = kv V P h q -> agree (h + h) (rd P p) (rd P q)).
Proof.
  intros Hh [H1 (G1 & G2 & G3 & G4) H3 H4 H5] Hp Hq.
  pose proof (rdy_perm _ _ _ _ _ H3) as HP. pose proof (rdy_room _ _ _ _ _ H3 p Hp). pose proof (rdy_room _ _ _ _ _ H3 q Hq).
  pose proof (perm_in P p HP ltac:(lia)). pose proof (perm_in P q HP ltac:(lia)).
  assert (Ha : agree h (rd P p) (rd P q)) by (apply (gd_eq _ _ _ H1); [lia | lia | rewrite !G3 by lia; done]).
  split; intros E.
  - apply (suf_lt_shift h); [lia | done |]. apply (key_lt h V P); (done || lia).
  - apply agree_double; [lia | done |]. apply (key_eq h V P); (done || lia).
Qed.

(** What is left of a range when its lower part is sorted. *)
Lemma unsorted_rest h A V P a b g c A' V' P' : unsorted h A V P a b g -> refined h A V P a c A' V' P' -> c < b -> unsorted h A' V' P' c b g.
Proof.
  intros [H1 (G1 & G2 & G3 & G4) H3 H4 H5] [T1 T2 T3 T4 T5 T6] Hc. pose proof (chain_le _ _ _ _ _ _ T2).
  destruct H3 as [R1 R2 R3 R4 R5 R6]. split; [done | | | lia |].
  - split; [lia |]. split; [lia |]. split.
    + intros p Hp. destruct (T3 p ltac:(lia) ltac:(lia)) as (_ & _ & ->). apply G3. lia.
    + intros p Hp. destruct (decide (a <= p)); [pose proof (chain_below _ _ _ _ _ _ T2 p ltac:(lia)); lia |].
      destruct (T3 p ltac:(lia) ltac:(lia)) as (_ & _ & ->). specialize (G4 p ltac:(lia)). lia.
  - split; [lia | done | done | apply T1 | |].
    + intros q Hq. destruct (T3 q ltac:(lia) ltac:(lia)) as (-> & -> & _). apply R5. lia.
    + intros q Hq. destruct (T3 q ltac:(lia) ltac:(lia)) as (_ & -> & _). apply R6. lia.
  - intros p q Hp Hq. destruct (T3 p ltac:(lia) ltac:(lia)) as (_ & -> & _). destruct (T3 q ltac:(lia) ltac:(lia)) as (_ & -> & _). apply H5; lia.
Qed.

(** Closing the first [j] entries, which agree and are below the rest. *)
Lemma peel h A V P a b g j : 1 <= h -> unsorted h A V P a b g -> 1 <= j -> a + j <= b ->
  (forall p q, a <= p < a + j -> a + j <= q <= g -> suf_lt (rd P p) (rd P q)) ->
  (forall p q, a <= p < a + j -> a <= q < a + j -> agree (h + h) (rd P p) (rd P q)) ->
  exists A' V', close_group A V a j = Ret (A', V') /\ refined h A V P a (a + j) A' V' P.
Proof.
  intros Hh HU Hj Hjb Hlow Hag. pose proof HU as [H1 Hgrp H3 H4 H5]. pose proof Hgrp as (G1 & G2 & G3 & G4).
  destruct (close_group_ok h A V P a j g) as (A' & V' & E & K1 & K2 & K3 & K4); try done; try lia; [apply H3 | intros q Hq; apply (rdy_eq _ _ _ _ _ H3); lia |].
  exists A', V'. split; [done |]. split; try done; [intros p q Hp Hq _; by apply Hag | apply permutes_refl].
Qed.

Lemma peel_keys h A V P a b g j x : 1 <= h -> unsorted h A V P a b g -> 1 <= j -> a + j <= b ->
  (forall p, a <= p < a + j -> kv V P h p = x) -> (forall p, a + j <= p < b -> x < kv V P h p) ->
  exists A' V', close_group A V a j = Ret (A', V') /\ refined h A V P a (a + j) A' V' P.
Proof.
  intros Hh HU Hj Hjb Heq Hgt. apply (peel h A V P a b g j Hh HU Hj Hjb).
  - intros p q Hp Hq. destruct (decide (q < b)); [|apply (us_sep _ _ _ _ _ _ _ HU); lia]. apply (unsorted_keys h A V P a b g p q Hh HU); [lia | lia |].
    rewrite Heq by lia. apply Hgt. lia.
  - intros p q Hp Hq. apply (unsorted_keys h A V P a b g p q Hh HU); [lia | lia |]. by rewrite !Heq by lia.
Qed.

(** Two neighbouring ranges, one sorted after the other. *)
Lemma refined_app h A V P a b c A1 V1 P1 A2 V2 P2 : 0 <= a -> c <= n + 1 -> refined h A V P a b A1 V1 P1 -> refined h A1 V1 P1 b c A2 V2 P2 ->
  refined h A V P a c A2 V2 P2.
Proof.
  intros Ha Hcn [S1 S2 S3 S4 S5 S6] [T1 T2 T3 T4 T5 T6]. pose proof (chain_le _ _ _ _ _ _ S2). pose proof (chain_le _ _ _ _ _ _ T2).
  assert (E : forall q, a <= q < b -> rd A2 q = rd A1 q /\ rd P2 q = rd P1 q /\ grp V2 P2 q = grp V1 P1 q) by (intros q Hq; apply T3; lia).
  assert (C : chain (h + h) A2 V2 P2 a b) by (by eapply chain_ext).
  assert (Up : forall q, b <= q < c -> b <= grp V2 P2 q) by (intros q Hq; pose proof (proj1 (gd_grp _ _ _ T1 q ltac:(lia))); lia).
  split; [done | by eapply chain_app | | | done |].
  - eapply outside_trans; [eapply outside_mono; [| | exact S3]; lia | eapply outside_mono; [| | exact T3]; lia].
  - intros p q Hp Hq Heq. destruct (decide (p < b)), (decide (q < b)).
    + destruct (E p ltac:(lia)) as (_ & -> & Ep), (E q ltac:(lia)) as (_ & -> & Eq). apply S4; [lia | lia | congruence].
    + pose proof (chain_below _ _ _ _ _ _ C p ltac:(lia)). pose proof (Up q ltac:(lia)). lia.
    + pose proof (chain_below _ _ _ _ _ _ C q ltac:(lia)). pose proof (Up p ltac:(lia)). lia.
    + apply T4; (done || lia).
  - eapply permutes_trans; [eapply permutes_mono; [| | exact S6]; lia | eapply permutes_mono; [| | exact T6]; lia].
Qed.

Lemma refined_shuffled h A V P a b g A1 P1 A2 V2 P2 : unsorted h A V P a b g -> shuffled h a b A P A1 P1 -> refined h A1 V P1 a b A2 V2 P2 -> refined h A V P a b A2 V2 P2.
Proof.
  intros HU (R1 & R2 & R3) [T1 T2 T3 T4 T5 T6]. destruct HU as [H1 (G1 & G2 & G3 & G4) H3 H4 H5].
  split; try done; [|by eapply permutes_trans]. intros q Hq Hn. destruct (T3 q Hq Hn) as (-> & -> & ->).
  split; [apply R3; lia |]. split; [apply R2; lia |]. apply (permutes_grp V P P1 a b g R2); [intros p Hp; apply G3; lia | lia].
Qed.

Lemma small_loop_ok h b g fuel : 1 <= h -> forall A V P k, unsorted h A V P k b g -> k < b -> b - k <= Z.of_nat fuel ->
  exists A' V' P', small_loop fuel A V k b h = Ret (A', V') /\ refined h A V P k b A' V' P'.
Proof.
  intros Hh. induction fuel as [|fuel IH]; intros A V P k HU Hk Hf; [lia |]. cbn [small_loop]. destruct (Z.leb_spec b k); [lia |].
  pose proof HU as [H1 H2 H3 H4 H5]. pose proof (rdy_a _ _ _ _ _ H3). pose proof (rdy_b _ _ _ _ _ H3).
  rewrite (key_reads h A V P k b) by (done || lia || apply H1). rewrite bind_ret.
  destruct (select_loop_ok h V k b (Z.to_nat (b - k - 1)) ltac:(lia) (gd_len _ _ _ H1) 1 1 (kv V P h k) A P H3) as (j & x & A1 & P1 & -> & HS & Hj & E1 & E2); try lia.
  { intros p Hp. by replace p with k by lia. }
  rewrite bind_ret. cbv iota beta. pose proof (unsorted_shuffled _ _ _ _ _ _ _ _ _ HU HS) as HU1.
  destruct (peel_keys h A1 V P1 k b g j x Hh HU1) as (A2 & V2 & -> & HS2); try lia; try done. rewrite bind_ret. cbv iota beta.
  destruct (decide (k + j < b)) as [Hlt|Hge].
  - destruct (IH A2 V2 P1 (k + j) (unsorted_rest _ _ _ _ _ _ _ _ _ _ _ HU1 HS2 Hlt) Hlt ltac:(lia)) as (A3 & V3 & P3 & -> & HS3). exists A3, V3, P3. split; [done |].
    eapply refined_shuffled; [exact HU | exact HS |]. by eapply refined_app; [lia | lia | |].
  - assert (k + j = b) as Eb by lia. exists A2, V2, P1. rewrite Eb in *. split; [destruct fuel; cbn [small_loop]; by rewrite Z.leb_refl |].
    by eapply refined_shuffled.
Qed.

(** ** Partitioning by a pivot *)

(** The number of positions of [a, a + m) with a property. *)
Fixpoint cnt (f : Z -> bool) (a : Z) (m : nat) : Z :=
  match m with
  | O => 0
  | S m' => (if f a then 1 else 0) + cnt f (a + 1) m'
  end.

Lemma cnt_range f m : forall a, 0 <= cnt f a m <= Z.of_nat m.
Proof. induction m as [|m IH]; intros a; cbn [cnt]; [lia |]. specialize (IH (a + 1)). destruct (f a); lia. Qed.

Lemma cnt_app f m m' : forall a, cnt f a (m + m') = cnt f a m + cnt f (a + Z.of_nat m) m'.
Proof.
  induction m as [|m IH]; intros a; cbn [cnt Nat.add]; [by rewrite Z.add_0_r |]. rewrite IH. replace (a + 1 + Z.of_nat m) with (a + Z.of_nat (S m)) by lia. lia.
Qed.

Lemma cnt_ext f f' m : forall a, (forall p, a <= p < a + Z.of_nat m -> f p = f' p) -> cnt f a m = cnt f' a m.
Proof. induction m as [|m IH]; intros a H; cbn [cnt]; [done |]. rewrite (H a) by lia. f_equal. apply IH. intros p Hp. apply H. lia. Qed.

Lemma cnt_all f m : forall a, (forall p, a <= p < a + Z.of_nat m -> f p = true) -> cnt f a m = Z.of_nat m.
Proof. induction m as [|m IH]; intros a H; cbn [cnt]; [done |]. rewrite (H a) by lia. rewrite IH by (intros p Hp; apply H; lia). lia. Qed.

Lemma cnt_none f m : forall a, (forall p, a <= p < a + Z.of_nat m -> f p = false) -> cnt f a m = 0.
Proof. induction m as [|m IH]; intros a H; cbn [cnt]; [done |]. rewrite (H a) by lia. rewrite IH by (intros p Hp; apply H; lia). lia. Qed.

(** A position counts for itself and an interval for its length. *)
Lemma cnt_interval f a b c d : a <= c <= d -> d <= b -> (forall p, c <= p < d -> f p = true) -> d - c <= cnt f a (Z.to_nat (b - a)).
Proof.
  intros H1 H2 H. replace (Z.to_nat (b - a)) with (Z.to_nat (c - a) + (Z.to_nat (d - c) + Z.to_nat (b - d)))%nat by lia. rewrite !cnt_app.
  pose proof (cnt_range f (Z.to_nat (c - a)) a). pose proof (cnt_range f (Z.to_nat (b - d)) (a + Z.of_nat (Z.to_nat (c - a)) + Z.of_nat (Z.to_nat (d - c)))).
  rewrite (cnt_all f (Z.to_nat (d - c))); [lia |]. intros p Hp. apply H. lia.
Qed.

Definition cntr (f : Z -> bool) (a b : Z) : Z := cnt f a (Z.to_nat (b - a)).

Lemma cntr_split f a c b : a <= c <= b -> cntr f a b = cntr f a c + cntr f c b.
Proof.
  intros H. unfold cntr. replace (Z.to_nat (b - a)) with (Z.to_nat (c - a) + Z.to_nat (b - c))%nat by lia. rewrite cnt_app.
  by replace (a + Z.of_nat (Z.to_nat (c - a))) with c by lia.
Qed.

Lemma cntr_one f a : cntr f a (a + 1) = if f a then 1 else 0.
Proof. unfold cntr. replace (Z.to_nat (a + 1 - a)) with 1%nat by lia. cbn [cnt]. lia. Qed.

Lemma cntr_ext f f' a b : (forall p, a <= p < b -> f p = f' p) -> cntr f a b = cntr f' a b.
Proof. intros H. apply cnt_ext. intros p Hp. apply H. lia. Qed.

Lemma cntr_swap f a b p q : a <= p < b -> a <= q < b ->
  cntr (fun r => if r =? q then f p else if r =? p then f q else f r) a b = cntr f a b.
Proof.
  assert (G : forall p q, a <= p < b -> a <= q < b -> p < q -> cntr (fun r => if r =? q then f p else if r =? p then f q else f r) a b = cntr f a b).
  { intros p' q' Hp Hq Hlt. set (f' := fun r => _).
    assert (S : forall g, cntr g a b = cntr g a p' + (if g p' then 1 else 0) + cntr g (p' + 1) q' + (if g q' then 1 else 0) + cntr g (q' + 1) b).
    { intros g. rewrite (cntr_split g a p' b), (cntr_split g p' (p' + 1) b), (cntr_split g (p' + 1) q' b), (cntr_split g q' (q' + 1) b), !cntr_one by lia. lia. }
    rewrite (S f'), (S f).
    assert (E : forall r, r <> p' -> r <> q' -> f' r = f r) by (intros r H1 H2; unfold f'; destruct (Z.eqb_spec r q'), (Z.eqb_spec r p'); done).
    rewrite (cntr_ext f' f a p'), (cntr_ext f' f (p' + 1) q'), (cntr_ext f' f (q' + 1) b) by (intros r Hr; apply E; lia).
    assert (f' p' = f q' /\ f' q' = f p') as [-> ->]; [|lia]. unfold f'. rewrite Z.eqb_refl. destruct (Z.eqb_spec p' q'); [lia |]. by rewrite Z.eqb_refl. }
  intros Hp Hq. destruct (Z.lt_total p q) as [H|[->|H]]; [by apply G | |].
  - apply cntr_ext. intros r Hr. by destruct (Z.eqb_spec r q) as [->|].
  - rewrite <- (G q p Hq Hp H). apply cntr_ext. intros r Hr. destruct (Z.eqb_spec r q), (Z.eqb_spec r p); subst; (done || lia).
Qed.

Lemma cntr_interval f a b c d : a <= c <= d -> d <= b -> (forall p, c <= p < d -> f p = true) -> d - c <= cntr f a b.
Proof. apply cnt_interval. Qed.

Lemma cntr_below f a b c : a <= c <= b -> cntr f a c <= cntr f a b /\ cntr f c b <= cntr f a b.
Proof.
  intros H. rewrite (cntr_split f a c b) by done. pose proof (cnt_range f (Z.to_nat (c - a)) a). pose proof (cnt_range f (Z.to_nat (b - c)) c). unfold cntr. lia.
Qed.

(** The three kinds of keys. *)
Definition lt_x (V P : list Z) (h x p : Z) : bool := kv V P h p <? x.
Definition eq_x (V P : list Z) (h x p : Z) : bool := kv V P h p =? x.
Definition gt_x (V P : list Z) (h x p : Z) : bool := x <? kv V P h p.

Lemma cnt_kinds V P h x m : forall a, cnt (lt_x V P h x) a m + cnt (eq_x V P h x) a m + cnt (gt_x V P h x) a m = Z.of_nat m.
Proof.
  induction m as [|m IH]; intros a; cbn [cnt]; [done |]. specialize (IH (a + 1)). unfold lt_x, eq_x, gt_x in *.
  destruct (Z.ltb_spec (kv V P h a) x), (Z.eqb_spec (kv V P h a) x), (Z.ltb_spec x (kv V P h a)); lia.
Qed.

(** The numbers of lower and of equal keys say where the parts meet. *)
Definition counted (V P : list Z) (h x a b jj kk : Z) : Prop :=
  cntr (lt_x V P h x) a b = jj - a /\ cntr (eq_x V P h x) a b = kk - jj /\ cntr (gt_x V P h x) a b = b - kk.

Lemma counted_swapped V P h x a b jj kk p q : 0 <= a -> b <= Z.of_nat (length P) -> a <= p < b -> a <= q < b ->
  counted V P h x a b jj kk -> counted V (swapped P p q) h x a b jj kk.
Proof.
  intros Ha Hb Hp Hq (C1 & C2 & C3).
  assert (E : forall f : Z -> bool, cntr (fun r => f (kv V (swapped P p q) h r)) a b = cntr (fun r => f (kv V P h r)) a b).
  { intros f. rewrite <- (cntr_swap (fun r => f (kv V P h r)) a b p q Hp Hq). apply cntr_ext. intros r Hr. rewrite kv_swapped by lia.
    by destruct (r =? q), (r =? p). }
  split; [|split].
  - rewrite <- C1. apply (E (fun v => v <? x)).
  - rewrite <- C2. apply (E (fun v => v =? x)).
  - rewrite <- C3. apply (E (fun v => x <? v)).
Qed.

Lemma count_keys_ok h A V P a b x : 0 <= h -> length V = S (length old) -> ready h A P a b -> forall m i jj kk, a <= i -> i + Z.of_nat m = b ->
  count_keys m A V h i x jj kk = Ret (jj + cnt (lt_x V P h x) i m, kk + cnt (eq_x V P h x) i m).
Proof.
  intros Hh HV HR. induction m as [|m IH]; intros i jj kk Hi Hb; cbn [count_keys cnt]; [by rewrite !Z.add_0_r |].
  rewrite (key_reads h A V P a b) by (done || lia). rewrite bind_ret. cbv zeta. rewrite IH by lia. unfold lt_x at 2, eq_x at 2.
  destruct (kv V P h i <? x), (kv V P h i =? x); do 2 f_equal; lia.
Qed.

Record zones (V P : list Z) (h x a i jj j kk k : Z) : Prop := mk_zones {
  zn_lt : forall p, a <= p < i -> kv V P h p < x;
  zn_eq : forall p, jj <= p < jj + j -> kv V P h p = x;
  zn_gt : forall p, kk <= p < kk + k -> x < kv V P h p
}.

Section Partition.
Context (h : Z) (V : list Z) (x a b jj kk : Z).
Context (Hh : 0 <= h) (HV : length V = S (length old)) (Hjj : a <= jj <= kk) (Hkk : kk <= b).

(** There is room for one more equal key behind [jj], for one more greater key
    behind [kk]. *)
Lemma room_eq P j i : counted V P h x a b jj kk -> a <= i -> 0 <= j -> i < jj -> jj + j <= kk -> kv V P h i = x ->
  (forall p, jj <= p < jj + j -> kv V P h p = x) -> jj + j < kk.
Proof.
  intros (_ & C & _) Hi Hj Hij Hjk Hx Heq. rewrite (cntr_split _ a jj b) in C by lia.
  pose proof (cntr_interval (eq_x V P h x) a jj i (i + 1) ltac:(lia) ltac:(lia) ltac:(intros p Hp; unfold eq_x; replace p with i by lia; by apply Z.eqb_eq)).
  pose proof (cntr_interval (eq_x V P h x) jj b jj (jj + j) ltac:(lia) ltac:(lia) ltac:(intros p Hp; unfold eq_x; by apply Z.eqb_eq, Heq)). lia.
Qed.

Lemma room_gt P k i : counted V P h x a b jj kk -> a <= i -> 0 <= k -> i < kk -> kk + k <= b -> x < kv V P h i ->
  (forall p, kk <= p < kk + k -> x < kv V P h p) -> kk + k < b.
Proof.
  intros (_ & _ & C) Hi Hk Hik Hkb Hx Hgt. rewrite (cntr_split _ a kk b) in C by lia.
  pose proof (cntr_interval (gt_x V P h x) a kk i (i + 1) ltac:(lia) ltac:(lia) ltac:(intros p Hp; unfold gt_x; replace p with i by lia; by apply Z.ltb_lt)).
  pose proof (cntr_interval (gt_x V P h x) kk b kk (kk + k) ltac:(lia) ltac:(lia) ltac:(intros p Hp; unfold gt_x; by apply Z.ltb_lt, Hgt)). lia.
Qed.

(** The lower keys are all in front of [jj] once those in front are lower. *)
Lemma no_lt P p : counted V P h x a b jj kk -> (forall q, a <= q < jj -> kv V P h q < x) -> jj <= p < b -> x <= kv V P h p.
Proof.
  intros (C & _ & _) Hlt Hp. destruct (Z.le_gt_cases x (kv V P h p)); [done |]. rewrite (cntr_split _ a jj b) in C by lia.
  pose proof (cntr_interval (lt_x V P h x) a jj a jj ltac:(lia) ltac:(lia) ltac:(intros q Hq; unfold lt_x; by apply Z.ltb_lt, Hlt)).
  pose proof (cntr_interval (lt_x V P h x) jj b p (p + 1) ltac:(lia) ltac:(lia) ltac:(intros q Hq; unfold lt_x; replace q with p by lia; by apply Z.ltb_lt)). lia.
Qed.

Lemma no_eq P p : counted V P h x a b jj kk -> (forall q, jj <= q < kk -> kv V P h q = x) -> kk <= p < b -> kv V P h p <> x.
Proof.
  intros (_ & C & _) Heq Hp E. rewrite (cntr_split _ a kk b) in C by lia.
  pose proof (cntr_interval (eq_x V P h x) a kk jj kk ltac:(lia) ltac:(lia) ltac:(intros q Hq; unfold eq_x; by apply Z.eqb_eq, Heq)).
  pose proof (cntr_interval (eq_x V P h x) kk b p (p + 1) ltac:(lia) ltac:(lia) ltac:(intros q Hq; unfold eq_x; replace q with p by lia; by apply Z.eqb_eq)). lia.
Qed.

(** A swap of a position in front with the next free one of its zone. *)
Lemma swap_step A P p q : ready h A P a b -> counted V P h x a b jj kk -> a <= p < b -> a <= q < b ->
  swap A p q = Ret (swapped A p q) /\ shuffled h a b A P (swapped A p q) (swapped P p q) /\ counted V (swapped P p q) h x a b jj kk /\
  forall r, a <= r < b -> kv V (swapped P p q) h r = if r =? q then kv V P h p else if r =? p then kv V P h q else kv V P h r.
Proof.
  intros HR HC Hp Hq. pose proof (rdy_a _ _ _ _ _ HR). pose proof (rdy_b _ _ _ _ _ HR). pose proof (perm_length P (rdy_perm _ _ _ _ _ HR)).
  destruct (swap_shuffled h a b A P p q HR Hp Hq) as [E S]. split; [done |]. split; [done |]. split; [apply counted_swapped; (done || lia) |].
  intros r Hr. apply kv_swapped; lia.
Qed.

Lemma low_loop_ok fuel : forall i j k A P, ready h A P a b -> counted V P h x a b jj kk -> zones V P h x a i jj j kk k ->
  a <= i <= jj -> 0 <= j -> jj + j <= kk -> 0 <= k -> kk + k <= b -> (jj - i) + (kk - jj - j) + (b - kk - k) <= Z.of_nat fuel ->
  exists j' k' A' P', low_loop fuel V h x jj kk i j k A = Ret (j', k', A') /\ shuffled h a b A P A' P' /\ counted V P' h x a b jj kk /\
    zones V P' h x a jj jj j' kk k' /\ 0 <= j' /\ jj + j' <= kk /\ 0 <= k' /\ kk + k' <= b.
Proof.
  induction fuel as [|fuel IH]; intros i j k A P HR HC HZ Hi Hj Hjk Hk Hkb Hf; cbn [low_loop]; destruct (Z.leb_spec jj i) as [Hge|Hlt].
  1, 3: exists j, k, A, P; split; [done |]; split; [by apply shuffled_refl |]; split; [done |]; replace jj with i at 1 by lia; done || (split; [|lia]; replace i with jj in HZ by lia; done).
  { lia. }
  rewrite (key_reads h A V P a b) by (done || lia). rewrite bind_ret. destruct HZ as [Z1 Z2 Z3].
  destruct (Z.ltb_spec (kv V P h i) x) as [Hl|Hl]; [|destruct (Z.eqb_spec (kv V P h i) x) as [He|He]].
  - apply IH; try done; try lia. split; try done. intros p Hp. destruct (Z.eq_dec p i) as [->|]; [done | apply Z1; lia].
  - pose proof (room_eq P j i HC ltac:(lia) Hj Hlt Hjk He Z2) as Hroom.
    destruct (swap_step A P i (jj + j) HR HC ltac:(lia) ltac:(lia)) as (-> & S1 & S2 & S3). rewrite bind_ret.
    destruct (IH i (j + 1) k _ _ (proj1 S1) S2) as (j' & k' & A' & P' & -> & S4 & R); try lia.
    + split; intros p Hp; rewrite S3 by lia; destruct (Z.eqb_spec p (jj + j)), (Z.eqb_spec p i); try lia; try done; [apply Z1 | apply Z2 | apply Z3]; lia.
    + exists j', k', A', P'. split; [done |]. split; [by eapply shuffled_trans | done].
  - pose proof (room_gt P k i HC ltac:(lia) Hk ltac:(lia) Hkb ltac:(lia) Z3) as Hroom.
    destruct (swap_step A P i (kk + k) HR HC ltac:(lia) ltac:(lia)) as (-> & S1 & S2 & S3). rewrite bind_ret.
    destruct (IH i j (k + 1) _ _ (proj1 S1) S2) as (j' & k' & A' & P' & -> & S4 & R); try lia.
    + split; intros p Hp; rewrite S3 by lia; destruct (Z.eqb_spec p (kk + k)), (Z.eqb_spec p i); try lia; try done; [apply Z1 | apply Z2 | apply Z3]; lia.
    + exists j', k', A', P'. split; [done |]. split; [by eapply shuffled_trans | done].
Qed.

Lemma mid_loop_ok fuel : forall j k A P, ready h A P a b -> counted V P h x a b jj kk -> zones V P h x a jj jj j kk k ->
  0 <= j -> jj + j <= kk -> 0 <= k -> kk + k <= b -> (kk - jj - j) + (b - kk - k) <= Z.of_nat fuel ->
  exists A' P', mid_loop fuel V h x jj kk j k A = Ret A' /\ shuffled h a b A P A' P' /\
    (forall p, a <= p < jj -> kv V P' h p < x) /\ (forall p, jj <= p < kk -> kv V P' h p = x) /\ (forall p, kk <= p < b -> x < kv V P' h p).
Proof.
  induction fuel as [|fuel IH]; intros j k A P HR HC HZ Hj Hjk Hk Hkb Hf; cbn [mid_loop]; destruct (Z.leb_spec kk (jj + j)) as [Hge|Hlt].
  1, 3: destruct HZ as [Z1 Z2 Z3]; exists A, P; split; [done |]; split; [by apply shuffled_refl |]; split; [done |];
    (assert (He : forall p, jj <= p < kk -> kv V P h p = x) by (intros p Hp; apply Z2; lia)); split; [done |]; intros p Hp;
    pose proof (no_lt P p HC Z1 ltac:(lia)); pose proof (no_eq P p HC He Hp); lia.
  { lia. }
  rewrite (key_reads h A V P a b) by (done || lia). rewrite bind_ret. destruct HZ as [Z1 Z2 Z3].
  destruct (Z.eqb_spec (kv V P h (jj + j)) x) as [He|He].
  - apply IH; try done; try lia. split; try done. intros p Hp. destruct (Z.eq_dec p (jj + j)) as [->|]; [done | apply Z2; lia].
  - pose proof (no_lt P (jj + j) HC Z1 ltac:(lia)) as Hnl.
    pose proof (room_gt P k (jj + j) HC ltac:(lia) Hk ltac:(lia) Hkb ltac:(lia) Z3) as Hroom.
    destruct (swap_step A P (jj + j) (kk + k) HR HC ltac:(lia) ltac:(lia)) as (-> & S1 & S2 & S3). rewrite bind_ret.
    destruct (IH j (k + 1) _ _ (proj1 S1) S2) as (A' & P' & -> & S4 & R); try lia.
    + split; intros p Hp; rewrite S3 by lia; destruct (Z.eqb_spec p (kk + k)), (Z.eqb_spec p (jj + j)); try lia; [apply Z1 | apply Z2 | apply Z3]; lia.
    + exists A', P'. split; [done |]. split; [by eapply shuffled_trans | done].
Qed.
End Partition.

(** ** Splitting *)
Lemma partition_ok h A V P a b g : 1 <= h -> unsorted h A V P a b g -> a < b ->
  exists x jj kk j k A1 A' P', key A V h (a + (b - a) / 2) = Ret x /\ count_keys (Z.to_nat (b - a)) A V h a x 0 0 = Ret (jj - a, kk - jj) /\
    low_loop (Z.to_nat (b - a)) V h x jj kk a 0 0 A = Ret (j, k, A1) /\ mid_loop (Z.to_nat (b - a)) V h x jj kk j k A1 = Ret A' /\
    shuffled h a b A P A' P' /\ a <= jj < kk /\ kk <= b /\
    (forall p, a <= p < jj -> kv V P' h p < x) /\ (forall p, jj <= p < kk -> kv V P' h p = x) /\ (forall p, kk <= p < b -> x < kv V P' h p).
Proof.
  intros Hh HU Hab. pose proof HU as [H1 H2 H3 H4 H5]. pose proof (gd_len _ _ _ H1) as HV.
  assert (Hm : a <= a + (b - a) / 2 < b) by (assert (0 <= (b - a) / 2) by (apply Z.div_pos; lia); assert ((b - a) / 2 < b - a) by (apply Z.div_lt; lia); lia).
  set (x := kv V P h (a + (b - a) / 2)). set (nl := cntr (lt_x V P h x) a b). set (ne := cntr (eq_x V P h x) a b).
  pose proof (cnt_range (lt_x V P h x) (Z.to_nat (b - a)) a) as Rl. pose proof (cnt_kinds V P h x (Z.to_nat (b - a)) a) as Hk.
  pose proof (cnt_range (gt_x V P h x) (Z.to_nat (b - a)) a) as Rg.
  assert (Hne : 1 <= ne).
  { pose proof (cntr_interval (eq_x V P h x) a b (a + (b - a) / 2) (a + (b - a) / 2 + 1) ltac:(lia) ltac:(lia)
      ltac:(intros p Hp; unfold eq_x; replace p with (a + (b - a) / 2) by lia; apply Z.eqb_refl)). unfold ne. lia. }
  fold (cntr (lt_x V P h x) a b) (cntr (eq_x V P h x) a b) (cntr (gt_x V P h x) a b) in Rl, Hk, Rg. fold nl ne in Rl, Hk.
  assert (HC : counted V P h x a b (a + nl) (a + nl + ne)) by (split; [fold nl; lia |]; split; [fold ne; lia | lia]).
  destruct (low_loop_ok h V x a b (a + nl) (a + nl + ne) ltac:(lia) HV ltac:(lia) ltac:(lia) (Z.to_nat (b - a)) a 0 0 A P H3 HC)
    as (j & k & A1 & P1 & E1 & S1 & C1 & Z1 & B1 & B2 & B3 & B4); try lia; [by split; intros; lia |].
  destruct (mid_loop_ok h V x a b (a + nl) (a + nl + ne) ltac:(lia) HV ltac:(lia) ltac:(lia) (Z.to_nat (b - a)) j k A1 P1 (proj1 S1) C1 Z1)
    as (A' & P' & E2 & S2 & Q1 & Q2 & Q3); try lia.
  exists x, (a + nl), (a + nl + ne), j, k, A1, A', P'. split; [by apply (key_reads h A V P a b); (done || lia) |].
  split; [rewrite (count_keys_ok h A V P a b) by (done || lia); fold (cntr (lt_x V P h x) a b) (cntr (eq_x V P h x) a b); fold nl ne; do 2 f_equal; lia |].
  split; [done |]. split; [done |]. split; [by eapply shuffled_trans |]. split; [lia |]. split; [lia |]. done.
Qed.

Lemma split_ok h g fuel : 1 <= h -> forall A V P a b, unsorted h A V P a b g -> a < b -> b - a <= Z.of_nat fuel ->
  exists A' V' P', split fuel A V a (b - a) h = Ret (A', V') /\ refined h A V P a b A' V' P'.
Proof.
  intros Hh. induction fuel as [|fuel IH]; intros A V P a b HU Hab Hf; [lia |]. cbn [split]. replace (a + (b - a)) with b by lia.
  destruct (Z.ltb_spec (b - a) 16); [by apply (small_loop_ok h b g); (done || lia) |].
  pose proof (rdy_a _ _ _ _ _ (us_ready _ _ _ _ _ _ _ HU)) as Ha. pose proof (rdy_b _ _ _ _ _ (us_ready _ _ _ _ _ _ _ HU)) as Hbn.
  destruct (partition_ok h A V P a b g Hh HU Hab) as (x & jj & kk & j & k & A0 & A1 & P1 & -> & E1 & E2 & E3 & HS & Hjj & Hkk & Q1 & Q2 & Q3).
  rewrite bind_ret, E1, bind_ret. cbv iota beta zeta. replace (jj - a + a) with jj by lia. replace (kk - jj + jj) with kk by lia.
  rewrite E2, bind_ret. cbv iota beta. rewrite E3, bind_ret. pose proof (unsorted_shuffled _ _ _ _ _ _ _ _ _ HU HS) as HU1.
  assert (K : forall p q, a <= p < b -> b <= q <= g -> suf_lt (rd P1 p) (rd P1 q)) by apply HU1.
  assert (KU : forall p q, a <= p < b -> a <= q < b -> kv V P1 h p < kv V P1 h q -> suf_lt (rd P1 p) (rd P1 q)) by (intros; by apply (unsorted_keys h A1 V P1 a b g p q Hh HU1)).
  assert (KE : forall p q, jj <= p < kk -> jj <= q < kk -> agree (h + h) (rd P1 p) (rd P1 q)).
  { intros p q Hp Hq. apply (unsorted_keys h A1 V P1 a b g p q Hh HU1); [lia | lia |]. by rewrite !Q2. }
  assert (KL : forall p q, jj <= p < kk -> kk <= q <= g -> suf_lt (rd P1 p) (rd P1 q)).
  { intros p q Hp Hq. destruct (decide (q < b)); [|apply K; lia]. apply KU; [lia | lia |]. rewrite (Q2 p) by done. apply Q3. lia. }
  assert (Hleft : exists A2 V2 P2, (if a <? jj then split fuel A1 V a (jj - a) h else Ret (A1, V)) = Ret (A2, V2) /\ refined h A1 V P1 a jj A2 V2 P2).
  { destruct (Z.ltb_spec a jj).
    - apply IH; [|lia | lia]. destruct HU1 as [U1 U2 U3 U4 U5]. split; [done | done | by eapply ready_mono; [exact U3 | lia | lia] | lia |].
      intros p q Hp Hq. destruct (decide (q < b)); [|apply K; lia]. apply KU; [lia | lia |].
      assert (kv V P1 h p < x) by (apply Q1; lia). destruct (decide (q < kk)); [rewrite (Q2 q) by lia; lia | specialize (Q3 q ltac:(lia)); lia].
    - exists A1, V, P1. replace jj with a by lia. split; [done |]. split; [apply HU1 | constructor | by intros q Hq Hn | intros; lia | apply HU1 | apply permutes_refl]. }
  destruct Hleft as (A2 & V2 & P2 & -> & S2). rewrite bind_ret. cbv iota beta.
  pose proof (unsorted_rest _ _ _ _ _ _ _ _ _ _ _ HU1 S2 ltac:(lia)) as HU2. pose proof HU2 as [_ (G1 & G2 & _) _ U4 _].
  assert (EP : forall q, jj <= q <= g -> rd P2 q = rd P1 q) by (intros q Hq; apply (so_outside _ _ _ _ _ _ _ _ _ S2); lia).
  destruct (peel h A2 V2 P2 jj b g (kk - jj) Hh HU2) as (A3 & V3 & -> & S3); try lia.
  { intros p q Hp Hq. rewrite !EP by lia. apply KL; lia. }
  { intros p q Hp Hq. rewrite !EP by lia. apply KE; lia. }
  rewrite bind_ret. cbv iota beta. replace (jj + (kk - jj)) with kk in S3 by lia.
  destruct (Z.ltb_spec kk b).
  - destruct (IH A3 V3 P2 kk b (unsorted_rest _ _ _ _ _ _ _ _ _ _ _ HU2 S3 ltac:(lia)) ltac:(lia) ltac:(lia)) as (A4 & V4 & P4 & -> & S4).
    exists A4, V4, P4. split; [done |]. eapply refined_shuffled; [exact HU | exact HS |].
    eapply refined_app; [lia | lia | exact S2 |]. by eapply refined_app; [lia | lia | exact S3 |].
  - assert (kk = b) as -> by lia. exists A3, V3, P2. split; [done |]. eapply refined_shuffled; [exact HU | exact HS |].
    by eapply refined_app; [lia | lia | exact S2 |].
Qed.

(** ** A pass

    The positions in front of [i] are done; the last [len] of them are sorted
    entries that are not yet joined to a run. *)
Record passed (h : Z) (A V P : list Z) (i len : Z) : Prop := mk_passed {
  pd_grouped : grouped h V P;
  pd_len : length A = S (length old);
  pd_range : 0 <= len <= i;
  pd_done : chain (h + h) A V P 0 (i - len);
  pd_run : forall q, i - len <= q < i -> grp V P q = q;
  pd_agree : forall p q, 0 <= p < i -> 0 <= q < i -> grp V P p = grp V P q -> agree (h + h) (rd P p) (rd P q);
  pd_todo : chain h A V P i (n + 1);
  pd_last : n < h -> len = i
}.

Lemma flush_run_ok h A V P i len : passed h A V P i len -> i <= n + 1 ->
  exists A', flush_run A i len = Ret A' /\ length A' = S (length old) /\ chain (h + h) A' V P 0 i /\ (forall q, i <= q -> rd A' q = rd A q) /\
    (0 < i -> len = i -> rd A' 0 = - i).
Proof.
  intros [G1 G2 G3 G4 G5 G6 G7 G8] Hi. unfold flush_run. destruct (Z.eqb_spec len 0) as [->|Hne].
  - exists A. split; [done |]. split; [done |]. rewrite Z.sub_0_r in G4. split; [done |]. split; [done | lia].
  - rewrite st_mem_ok by lia. eexists. split; [reflexivity |]. split; [by rewrite length_wr |]. split; [|split].
    + eapply chain_app.
      * eapply chain_ext; [|exact G4]. intros q Hq. rewrite rd_wr_ne by lia. done.
      * apply (chain_run _ _ _ _ (i - len) len); [lia | by rewrite rd_wr_eq by lia | intros q Hq; apply G5; lia |].
        replace (i - len + len) with i by lia. constructor.
    + intros q Hq. by rewrite rd_wr_ne by lia.
    + intros Hi0 ->. rewrite Z.sub_diag. by rewrite rd_wr_eq by lia.
Qed.

(** The end of a pass. *)
Definition after_pass (h : Z) (A V P : list Z) : Prop :=
  grouped (h + h) V P /\ length A = S (length old) /\ chain (h + h) A V P 0 (n + 1).

Lemma passed_group h A V P i len g : 1 <= h -> passed h A V P i len -> i <= g -> g < n + 1 ->
  (forall q, i <= q <= g -> rd A q = rd P q /\ grp V P q = g /\ rd P q + h <= n) -> chain h A V P (g + 1) (n + 1) ->
  exists A1 A2 V2 P2, flush_run A i len = Ret A1 /\ rd_mem V (rd A i) = Ret g /\ split (S (length old)) A1 V i (g + 1 - i) h = Ret (A2, V2) /\
    passed h A2 V2 P2 (g + 1) 0.
Proof.
  intros Hh HP Hig Hgn Hq Hc. pose proof HP as [G1 G2 G3 G4 G5 G6 G7 G8].
  destruct (flush_run_ok h A V P i len HP ltac:(lia)) as (A1 & E1 & L1 & C1 & F1 & _).
  assert (HU : unsorted h A1 V P i (g + 1) g).
  { split; [done | | | lia | intros; lia].
    - split; [lia |]. split; [lia |]. split; [intros p Hp; apply Hq; lia | intros p Hp; apply (chain_below _ _ _ _ _ _ C1); lia].
    - split; [lia | lia | done | apply G1 | |]; intros q Hq'; [rewrite F1 by lia|]; apply Hq; lia. }
  destruct (split_ok h g (S (length old)) Hh A1 V P i (g + 1) HU ltac:(lia) ltac:(lia)) as (A2 & V2 & P2 & E2 & [T1 T2 T3 T4 T5 T6]).
  exists A1, A2, V2, P2. split; [done |]. destruct (Hq i ltac:(lia)) as (Ei & Eg & _).
  split; [rewrite Ei; pose proof (perm_in P i (gd_perm _ _ _ G1) ltac:(lia)); rewrite rd_mem_ok by (rewrite (gd_len _ _ _ G1); lia); unfold grp in Eg; by rewrite Eg |].
  split; [done |].
  assert (Cd : chain (h + h) A2 V2 P2 0 i) by (eapply chain_ext; [|exact C1]; intros q Hq'; apply T3; lia).
  split; [done | done | lia | rewrite Z.sub_0_r; by eapply chain_app | intros q Hq'; lia | | |].
  - intros p q Hp Hq' E. assert (Up : forall r, i <= r < g + 1 -> i <= grp V2 P2 r) by (intros r Hr; pose proof (proj1 (gd_grp _ _ _ T1 r ltac:(lia))); lia).
    destruct (decide (p < i)), (decide (q < i)).
    + destruct (T3 p ltac:(lia) ltac:(lia)) as (_ & -> & Ep), (T3 q ltac:(lia) ltac:(lia)) as (_ & -> & Eq). apply G6; [lia | lia | congruence].
    + pose proof (chain_below _ _ _ _ _ _ Cd p ltac:(lia)). pose proof (Up q ltac:(lia)). lia.
    + pose proof (chain_below _ _ _ _ _ _ Cd q ltac:(lia)). pose proof (Up p ltac:(lia)). lia.
    + apply T4; (done || lia).
  - eapply chain_ext; [|exact Hc]. intros q Hq'. destruct (T3 q ltac:(lia) ltac:(lia)) as (-> & -> & ->). by rewrite F1 by lia.
  - intros Hn. destruct (Hq i ltac:(lia)) as (_ & _ & Hroom). pose proof (perm_in P i (gd_perm _ _ _ G1) ltac:(lia)). lia.
Qed.

Lemma pass_loop_ok h fuel : 1 <= h -> forall A V P i len, passed h A V P i len -> n + 1 - i <= Z.of_nat fuel ->
  exists A' V' P', pass_loop old fuel A V i len h = Ret (A', V') /\ after_pass h A' V' P' /\ (n < h -> rd A' 0 = - (n + 1)).
Proof.
  intros Hh. induction fuel as [|fuel IH]; intros A V P i len HP Hf; cbn [pass_loop]; pose proof HP as [G1 G2 G3 G4 G5 G6 G7 G8];
    pose proof (chain_le _ _ _ _ _ _ G7) as Hle; destruct (Z.leb_spec (n + 1) i) as [Hge|Hlt].
  1, 3: assert (i = n + 1) as -> by lia; destruct (flush_run_ok h A V P (n + 1) len HP ltac:(lia)) as (A1 & -> & L1 & C1 & _ & F2); rewrite bind_ret;
    exists A1, V, P; split; [done |]; split; [|intros Hn; apply F2; [lia | by apply G8]]; split; [|done];
    destruct G1 as [K1 K2 K3 K4 K5]; split; try done; intros p q Hp Hq E; apply G6; (done || lia).
  { lia. }
  rewrite rd_mem_ok, bind_ret by lia. inversion G7 as [|a m b Hm Hr Hq Hc|a g b Hg Hq Hc]; subst; [lia | |].
  - rewrite Hr. destruct (Z.ltb_spec (- m) 0); [|lia]. apply (IH A V P); [|lia]. replace (i - - m) with (i + m) by lia. replace (len - - m) with (len + m) by lia.
    pose proof (chain_le _ _ _ _ _ _ Hc).
    assert (Hrun : forall q, i + m - (len + m) <= q < i + m -> grp V P q = q) by (intros q Hq'; destruct (decide (q < i)); [apply G5; lia | apply Hq; lia]).
    split; [done | done | lia | by replace (i + m - (len + m)) with (i - len) by lia | done | | done | intros Hn; specialize (G8 Hn); lia].
    assert (Hlow : forall q, 0 <= q < i - len -> grp V P q < i - len) by (intros q Hq'; apply (chain_below _ _ _ _ _ _ G4); lia).
    intros p q Hp Hq' E. destruct (decide (p < i - len)), (decide (q < i - len)).
    + apply G6; (done || lia).
    + specialize (Hlow p ltac:(lia)). rewrite (Hrun q) in E by lia. lia.
    + specialize (Hlow q ltac:(lia)). rewrite (Hrun p) in E by lia. lia.
    + rewrite !Hrun in E by lia. subst q. by left.
  - pose proof (chain_le _ _ _ _ _ _ Hc). destruct (Hq i ltac:(lia)) as (Ei & _ & _). pose proof (perm_in P i (gd_perm _ _ _ G1) ltac:(lia)).
    destruct (Z.ltb_spec (rd A i) 0); [lia |].
    destruct (passed_group h A V P i len g Hh HP Hg ltac:(lia) Hq Hc) as (A1 & A2 & V2 & P2 & -> & -> & E3 & HP2). rewrite !bind_ret. cbv zeta. rewrite E3, bind_ret.
    cbv iota beta. replace (i + (g + 1 - i)) with (g + 1) by lia. apply (IH A2 V2 P2); [done | lia].
Qed.

(** ** Doubling *)
Lemma double_loop_ok fuel : forall A V P h, 1 <= h -> grouped h V P -> length A = S (length old) -> chain h A V P 0 (n + 1) ->
  (rd A 0 = - (n + 1) \/ (1 <= fuel)%nat /\ n < h * 2 ^ (Z.of_nat fuel - 1)) ->
  exists h' V' P', double_loop old fuel A V h = Ret V' /\ grouped h' V' P' /\ forall q, 0 <= q <= n -> grp V' P' q = q.
Proof.
  induction fuel as [|fuel IH]; intros A V P h Hh HG HA HC Hf; cbn [double_loop]; rewrite rd_mem_ok, bind_ret by lia;
    destruct (Z.eqb_spec (rd A 0) (- (n + 1))) as [E|Hne].
  1, 3: exists h, V, P; split; [done |]; split; [done |]; inversion HC as [|a m b Hm Hr Hq Hc|a g b Hg Hq Hc]; subst; [lia | intros q Hq'; apply Hq; lia |];
    destruct (Hq 0 ltac:(lia)) as (E0 & _ & _); pose proof (perm_in P 0 (gd_perm _ _ _ HG) ltac:(lia)); lia.
  { lia. }
  destruct Hf as [?|[_ Hf]]; [done |].
  assert (HP : passed h A V P 0 0) by (split; try done; [constructor | intros; lia | intros; lia]).
  destruct (pass_loop_ok h (S (length old)) Hh A V P 0 0 HP ltac:(lia)) as (A1 & V1 & P1 & -> & (K1 & K2 & K3) & K4). rewrite bind_ret. cbv iota beta.
  apply (IH A1 V1 P1 (h + h)); [lia | done | done | done |]. destruct (decide (n < h)) as [Hn|Hn]; [left; by apply K4 |]. right.
  destruct fuel as [|fuel]; [exfalso; simpl in Hf; lia |]. split; [lia |].
  replace (Z.of_nat (S (S fuel)) - 1) with (Z.of_nat (S fuel) - 1 + 1) in Hf by lia. rewrite Z.pow_add_r in Hf by lia. lia.
Qed.
End Suffixes.

(** ** Buckets *)
Fixpoint occ (l : bytes) (c : Z) : Z :=
  match l with
  | [] => 0
  | x :: l' => (if x =? c then 1 else 0) + occ l' c
  end.

(** The number of bytes below [c]. *)
Fixpoint below (l : bytes) (c : Z) : Z :=
  match l with
  | [] => 0
  | x :: l' => (if x <? c then 1 else 0) + below l' c
  end.

Lemma occ_nonneg l c : 0 <= occ l c.
Proof. induction l as [|x l IH]; simpl; [lia |]. destruct (x =? c); lia. Qed.

Lemma occ_app l l' c : occ (l ++ l') c = occ l c + occ l' c.
Proof. induction l as [|x l IH]; simpl; [done |]. rewrite IH. lia. Qed.

Lemma below_succ l c : below l (c + 1) = below l c + occ l c.
Proof. induction l as [|x l IH]; simpl; [done |]. rewrite IH. destruct (Z.ltb_spec x (c + 1)), (Z.ltb_spec x c), (Z.eqb_spec x c); lia. Qed.

Lemma below_mono l c d : c <= d -> below l c <= below l d.
Proof. intros H. induction l as [|x l IH]; simpl; [lia |]. destruct (Z.ltb_spec x c), (Z.ltb_spec x d); lia. Qed.

Lemma below_0 l : bytes_ok l -> below l 0 = 0.
Proof. induction 1 as [|x l Hx _ IH]; simpl; [done |]. unfold in_range in Hx. destruct (Z.ltb_spec x 0); lia. Qed.

Lemma below_256 l : bytes_ok l -> below l 256 = Z.of_nat (length l).
Proof. induction 1 as [|x l Hx _ IH]; cbn [below length]; [done |]. unfold in_range in Hx. destruct (Z.ltb_spec x 256); lia. Qed.

Lemma below_range l c : bytes_ok l -> 0 <= c <= 256 -> 0 <= below l c <= Z.of_nat (length l).
Proof. intros Hl Hc. pose proof (below_mono l 0 c ltac:(lia)). pose proof (below_mono l c 256 ltac:(lia)). rewrite below_0, below_256 in * by done. lia. Qed.

Lemma count_bytes_ok l : bytes_ok l -> forall b, length b = 256%nat ->
  exists b', count_bytes l b = Ret b' /\ length b' = 256%nat /\ forall c, 0 <= c < 256 -> rd b' c = rd b c + occ l c.
Proof.
  induction 1 as [|x l Hx _ IH]; intros b Hb; cbn [count_bytes].
  - exists b. split; [done |]. split; [done |]. intros c _. cbn [occ]. lia.
  - unfold in_range in Hx. rewrite rd_mem_ok, bind_ret by lia. destruct (IH (wr b x (rd b x + 1)) ltac:(by rewrite length_wr)) as (b' & -> & Hl & E).
    exists b'. split; [done |]. split; [done |]. intros c Hc. rewrite E by done. cbn [occ]. destruct (Z.eqb_spec x c) as [->|].
    + rewrite rd_wr_eq by lia. lia.
    + rewrite rd_wr_ne by lia. lia.
Qed.

Lemma bucket_starts_ok l b : bytes_ok l -> length b = 256%nat -> (forall c, 0 <= c < 256 -> rd b c = occ l c) ->
  length (bucket_starts b) = 256%nat /\ forall c, 0 <= c < 256 -> rd (bucket_starts b) c = below l c.
Proof.
  intros Hl Hb Hocc. unfold bucket_starts. cbv zeta. set (sums := for_ 255 1 _ b).
  assert (Hs : length sums = 256%nat /\ forall c, 0 <= c < 256 -> rd sums c = below l (c + 1)).
  { assert (H : (fun i b => length b = 256%nat /\ (forall c, 0 <= c < i -> rd b c = below l (c + 1)) /\ forall c, i <= c < 256 -> rd b c = occ l c) (1 + Z.of_nat 255) sums).
    - apply for_inv; cycle 1.
      + split; [done |]. split; [|intros c Hc; apply Hocc; lia]. intros c Hc. replace c with 0 by lia. rewrite Hocc by lia. rewrite below_succ, below_0 by done. lia.
      + intros k s Hk (L & E1 & E2). split; [by rewrite length_wr |]. split; intros c Hc.
        * destruct (Z.eq_dec c k) as [->|]; [|rewrite rd_wr_ne by lia; apply E1; lia]. rewrite rd_wr_eq by lia. rewrite E2, E1 by lia.
          replace (k - 1 + 1) with k by lia. rewrite below_succ. lia.
        * rewrite rd_wr_ne by lia. apply E2. lia.
    - destruct H as (L & E & _). split; [done |]. intros c Hc. apply E. lia. }
  destruct Hs as [Ls Es]. set (moved := for_ 255 0 _ sums).
  assert (Hm : length moved = 256%nat /\ forall c, 0 < c < 256 -> rd moved c = below l c).
  { assert (H : (fun k b => length b = 256%nat /\ (forall c, 255 - k < c < 256 -> rd b c = below l c) /\ forall c, 0 <= c <= 255 - k -> rd b c = below l (c + 1)) (0 + Z.of_nat 255) moved).
    - apply for_inv; cycle 1.
      + split; [done |]. split; [intros; lia |]. intros c Hc. apply Es. lia.
      + intros k s Hk (L & E1 & E2). split; [by rewrite length_wr |]. split; intros c Hc.
        * destruct (Z.eq_dec c (255 - k)) as [->|]; [|rewrite rd_wr_ne by lia; apply E1; lia]. rewrite rd_wr_eq by lia. rewrite E2 by lia. f_equal. lia.
        * rewrite rd_wr_ne by lia. apply E2. lia.
    - destruct H as (L & E & _). split; [done |]. intros c Hc. apply E. lia. }
  destruct Hm as [Lm Em]. split; [by rewrite length_wr |]. intros c Hc. destruct (Z.eq_dec c 0) as [->|].
  - rewrite rd_wr_eq by lia. by rewrite below_0.
  - rewrite rd_wr_ne by lia. apply Em. lia.
Qed.

Section Initial.
Context (old : bytes) (Hold : bytes_ok old).
Abbreviation n := (Z.of_nat (length old)).

(** The suffixes of [pre] have their places: those with first byte [c] right
    behind the smaller ones. *)
Record placed (pre : bytes) (b A : list Z) : Prop := mk_placed {
  pl_b : length b = 256%nat;
  pl_A : length A = S (length old);
  pl_top : forall c, 0 <= c < 256 -> rd b c = below old c + occ pre c;
  pl_in : forall c p, 0 <= c < 256 -> below old c < p <= below old c + occ pre c -> 0 <= rd A p < n /\ rd old (rd A p) = c;
  pl_all : forall s, 0 <= s < Z.of_nat (length pre) -> exists p, below old (rd old s) < p <= below old (rd old s) + occ pre (rd old s) /\ rd A p = s
}.

Lemma old_byte s : 0 <= s < n -> 0 <= rd old s < 256.
Proof. intros H. by apply (rd_range 8 old s ltac:(lia) Hold). Qed.

Lemma place_free pre c0 l c p : old = pre ++ c0 :: l -> 0 <= c < 256 -> 0 <= c0 < 256 -> below old c < p <= below old c + occ pre c ->
  p <> below old c0 + occ pre c0 + 1.
Proof.
  intros Ho Hc Hc0 Hp Ep. assert (Hocc : forall d, occ old d = occ pre d + (if c0 =? d then 1 else 0) + occ l d) by (intros d; rewrite Ho, occ_app; simpl; lia).
  pose proof (occ_nonneg l c). pose proof (occ_nonneg l c0). pose proof (occ_nonneg pre c0). pose proof (Hocc c) as E1. pose proof (Hocc c0) as E2. rewrite Z.eqb_refl in E2.
  destruct (Z.lt_total c c0) as [Hlt|[->|Hlt]]; [| lia |].
  - pose proof (below_mono old (c + 1) c0 ltac:(lia)). rewrite below_succ in *. destruct (c0 =? c); lia.
  - pose proof (below_mono old (c0 + 1) c ltac:(lia)). rewrite below_succ in *. lia.
Qed.

Lemma place_step pre c l b A : old = pre ++ c :: l -> placed pre b A -> 0 <= c < 256 -> rd old (Z.of_nat (length pre)) = c -> Z.of_nat (length pre) < n ->
  0 <= rd b c + 1 <= n /\ placed (pre ++ [c]) (wr b c (rd b c + 1)) (wr A (rd b c + 1) (Z.of_nat (length pre))).
Proof.
  intros Ho [P1 P2 P3 P4 P5] Hc Hrd Hlt. pose proof (P3 c Hc) as Eb. pose proof (occ_nonneg pre c).
  assert (Hocc : occ old c = occ pre c + 1 + occ l c) by (rewrite Ho, occ_app; simpl; rewrite Z.eqb_refl; lia). pose proof (occ_nonneg l c).
  pose proof (below_range old (c + 1) Hold ltac:(lia)) as Rb. pose proof (below_range old c Hold ltac:(lia)) as Rb'. rewrite below_succ in Rb. split; [lia |].
  assert (Eocc : forall d, occ (pre ++ [c]) d = occ pre d + (if c =? d then 1 else 0)) by (intros d; rewrite occ_app; simpl; lia).
  split; [by rewrite length_wr | by rewrite length_wr | | |].
  - intros d Hd. rewrite Eocc. destruct (Z.eqb_spec c d) as [->|]; [rewrite rd_wr_eq by lia; lia | rewrite rd_wr_ne by lia; rewrite P3 by done; lia].
  - intros d p Hd Hp. rewrite Eocc in Hp. destruct (Z.eq_dec p (rd b c + 1)) as [->|Hne].
    + rewrite rd_wr_eq by lia. split; [lia |]. rewrite Hrd. destruct (Z.eqb_spec c d) as [|Hcd]; [done |]. exfalso.
      apply (place_free pre c l d (rd b c + 1) Ho Hd Hc ltac:(lia)). lia.
    + rewrite rd_wr_ne by (pose proof (below_range old d Hold ltac:(lia)); lia). apply P4; [done |]. destruct (Z.eqb_spec c d) as [->|]; lia.
  - intros s Hs. rewrite length_app in Hs. simpl in Hs. destruct (Z.eq_dec s (Z.of_nat (length pre))) as [->|Hne].
    + exists (rd b c + 1). rewrite Hrd, Eocc, Z.eqb_refl. split; [lia |]. by rewrite rd_wr_eq by lia.
    + destruct (P5 s ltac:(lia)) as (p & Hp & Ep). exists p. pose proof (old_byte s ltac:(lia)) as Hob. rewrite Eocc. split; [destruct (c =? rd old s); lia |].
      pose proof (place_free pre c l (rd old s) p Ho Hob Hc Hp). rewrite rd_wr_ne by (pose proof (below_range old (rd old s) Hold ltac:(lia)); lia). done.
Qed.

Lemma place_loop_ok l : forall pre b A, old = pre ++ l -> placed pre b A ->
  exists b' A', place_loop l (Z.of_nat (length pre)) b A = Ret (b', A') /\ placed old b' A'.
Proof.
  induction l as [|c l IH]; intros pre b A Ho HP; cbn [place_loop].
  { exists b, A. split; [done |]. by rewrite app_nil_r in Ho; subst. }
  assert (Hlt : Z.of_nat (length pre) < n) by (rewrite Ho, length_app; simpl; lia).
  assert (Hrd : rd old (Z.of_nat (length pre)) = c) by (unfold rd; rewrite Nat2Z.id, Ho, app_nth2 by lia; by rewrite Nat.sub_diag).
  pose proof (old_byte (Z.of_nat (length pre)) ltac:(lia)) as Hc. rewrite Hrd in Hc. destruct (place_step pre c l b A Ho HP Hc Hrd Hlt) as [Hr HP'].
  rewrite rd_mem_ok, bind_ret by (rewrite (pl_b _ _ _ HP); lia). rewrite st_mem_ok, bind_ret by (rewrite (pl_A _ _ _ HP); lia).
  destruct (IH (pre ++ [c]) _ _ ltac:(by rewrite <- app_assoc) HP') as (b' & A' & E & HP2). exists b', A'. split; [|done].
  rewrite length_app in E. simpl in E. by replace (Z.of_nat (length pre) + 1) with (Z.of_nat (length pre + 1)) by lia.
Qed.

Lemma cover_perm P : length P = S (length old) -> (forall s, 0 <= s <= n -> s ∈ P) -> P ≡ₚ seqZ 0 (n + 1).
Proof.
  intros Hl H. symmetry. apply submseteq_length_Permutation.
  - apply NoDup_submseteq; [apply NoDup_seqZ |]. intros s Hs. apply elem_of_seqZ in Hs. apply H. lia.
  - rewrite Hl, length_seqZ. lia.
Qed.

(** The permutation by first bytes: the end of the file, then the buckets. *)
Lemma placed_perm b A : placed old b A -> wr A 0 n ≡ₚ seqZ 0 (n + 1).
Proof.
  intros [P1 P2 P3 P4 P5]. apply cover_perm; [by rewrite length_wr |]. intros s Hs. destruct (Z.eq_dec s n) as [->|Hne].
  - apply (list_elem_of_lookup_2 _ 0). rewrite <- (rd_wr_eq A 0 n) at 2 by lia. change 0%nat with (Z.to_nat 0). apply lookup_rd. rewrite length_wr. lia.
  - destruct (P5 s ltac:(lia)) as (p & Hp & <-). pose proof (old_byte (rd A p) ltac:(lia)).
    pose proof (below_range old (rd old (rd A p)) Hold ltac:(lia)). pose proof (below_range old (rd old (rd A p) + 1) Hold ltac:(lia)). rewrite below_succ in *.
    apply (list_elem_of_lookup_2 _ (Z.to_nat p)). rewrite <- (rd_wr_ne A 0 p n) by lia. apply lookup_rd. rewrite length_wr. lia.
Qed.

Lemma number_loop_ok b l : length b = 256%nat -> bytes_ok l -> forall i V, 0 <= i -> i + Z.of_nat (length l) <= Z.of_nat (length V) ->
  exists V', number_loop l i b V = Ret V' /\ length V' = length V /\ (forall q, 0 <= q < i -> rd V' q = rd V q) /\
    forall k, 0 <= k < Z.of_nat (length l) -> rd V' (i + k) = rd b (rd l k).
Proof.
  intros Hb. induction 1 as [|c l Hc _ IH]; intros i V Hi Hl; cbn [number_loop].
  { exists V. split; [done |]. split; [done |]. split; [done |]. intros k Hk. simpl in Hk. lia. }
  unfold in_range in Hc. simpl in Hl. rewrite rd_mem_ok, bind_ret by lia. rewrite st_mem_ok, bind_ret by lia.
  destruct (IH (i + 1) (wr V i (rd b c)) ltac:(lia) ltac:(rewrite length_wr; lia)) as (V' & -> & HV & E1 & E2). exists V'. split; [done |].
  rewrite length_wr in HV. split; [done |]. split; [intros q Hq; rewrite E1 by lia; by rewrite rd_wr_ne by lia |].
  intros k Hk. simpl in Hk. destruct (Z.eq_dec k 0) as [->|].
  - rewrite Z.add_0_r, E1 by lia. by rewrite rd_wr_eq by lia.
  - replace (i + k) with (i + 1 + (k - 1)) by lia. rewrite E2 by lia. f_equal. unfold rd. replace (Z.to_nat k) with (S (Z.to_nat (k - 1))) by lia. done.
Qed.

Lemma single_loop_ok b m : (forall c, 0 <= c < 256 -> rd b c = below old (c + 1)) -> forall i A, 1 <= i -> i + Z.of_nat m <= 256 -> length A = S (length old) ->
  exists A', single_loop m i b A = Ret A' /\ length A' = S (length old) /\
    (forall q, rd A q = -1 -> rd A' q = -1) /\
    (forall c, i <= c < i + Z.of_nat m -> occ old c = 1 -> rd A' (below old (c + 1)) = -1) /\
    (forall q, 0 <= q -> (forall c, i <= c < i + Z.of_nat m -> occ old c = 1 -> q <> below old (c + 1)) -> rd A' q = rd A q).
Proof.
  intros Hb. induction m as [|m IH]; intros i A Hi Hm HA; cbn [single_loop].
  { exists A. split; [done |]. split; [done |]. split; [done |]. split; [intros; lia | done]. }
  pose proof (below_range old (i + 1) Hold ltac:(lia)) as Hr. rewrite (Hb i), (Hb (i - 1)) by lia. replace (i - 1 + 1) with i by lia.
  rewrite below_succ. set (t := below old i + occ old i).
  assert (Hone : exists A1, (if t =? below old i + 1 then st_mem A t (-1) else Ret A) = Ret A1 /\ length A1 = S (length old) /\
    (occ old i = 1 -> rd A1 t = -1) /\ (forall q, rd A q = -1 -> rd A1 q = -1) /\ (forall q, 0 <= q -> (occ old i = 1 -> q <> t) -> rd A1 q = rd A q)).
  { rewrite below_succ in Hr. fold t in Hr. destruct (Z.eqb_spec t (below old i + 1)) as [E|E].
    - rewrite st_mem_ok by lia. eexists. split; [done |]. split; [by rewrite length_wr |]. split; [intros; by rewrite rd_wr_eq by lia |]. split.
      + intros q Hq. destruct (Nat.eq_dec (Z.to_nat q) (Z.to_nat t)) as [Eq|Nq].
        * unfold rd, wr. replace (Z.to_nat q) with (Z.to_nat t) by lia. change (rd (wr A t (-1)) t = -1). by rewrite rd_wr_eq by lia.
        * unfold rd, wr in *. rewrite nth_lookup, list_lookup_insert_ne by lia. by rewrite <- nth_lookup.
      + intros q Hq H. rewrite rd_wr_ne; [done | lia | done |]. intros E'. apply H; [unfold t in E; lia | done].
    - exists A. split; [done |]. split; [done |]. split; [unfold t in E; lia | done]. }
  destruct Hone as (A1 & -> & L1 & F1 & F2 & F3). rewrite bind_ret.
  destruct (IH (i + 1) A1 ltac:(lia) ltac:(lia) L1) as (A' & -> & L' & K1 & K2 & K3). exists A'. split; [done |]. split; [done |]. split; [intros q Hq; by apply K1, F2 |]. split.
  - intros c Hc Ho. destruct (Z.eq_dec c i) as [->|]; [rewrite below_succ; fold t; by apply K1, F1 | apply K2; [lia | done]].
  - intros q Hq H. rewrite K3; [apply F3; [done |] | done |].
    + intros Ho. unfold t. rewrite <- below_succ. apply H; [lia | done].
    + intros c Hc. apply H. lia.
Qed.

(** The bucket of a position. *)
Lemma bucket_of p : 0 < p <= n -> exists c, 0 <= c < 256 /\ below old c < p <= below old (c + 1).
Proof.
  intros Hp. assert (G : forall k, (k <= 256)%nat -> p <= below old (Z.of_nat k) -> exists c, 0 <= c < Z.of_nat k /\ below old c < p <= below old (c + 1)).
  { induction k as [|k IH]; intros Hk Hle; [simpl in Hle; rewrite below_0 in Hle by done; lia |].
    destruct (Z.le_gt_cases p (below old (Z.of_nat k))) as [H|H].
    - destruct (IH ltac:(lia) H) as (c & Hc & E). exists c. split; [lia | done].
    - exists (Z.of_nat k). split; [lia |]. split; [done |]. by replace (Z.of_nat k + 1) with (Z.of_nat (S k)) by lia. }
  destruct (G 256%nat ltac:(lia)) as (c & Hc & E); [simpl; rewrite below_256 by done; lia |]. by exists c.
Qed.

Section Numbered.
Context (b P V : list Z) (HP : P ≡ₚ seqZ 0 (n + 1)) (HV : length V = S (length old)).
Context (H0 : rd P 0 = n) (HVn : rd V n = 0) (HVs : forall s, 0 <= s < n -> rd V s = below old (rd old s + 1)).
Context (Hin : forall c p, 0 <= c < 256 -> below old c < p <= below old (c + 1) -> 0 <= rd P p < n /\ rd old (rd P p) = c).

Lemma grp_first : grp V P 0 = 0.
Proof. unfold grp. by rewrite H0. Qed.

Lemma grp_bucket c p : 0 <= c < 256 -> below old c < p <= below old (c + 1) -> grp V P p = below old (c + 1).
Proof. intros Hc Hp. destruct (Hin c p Hc Hp) as [H1 H2]. unfold grp. rewrite HVs by done. by rewrite H2. Qed.

Lemma initial_grouped : grouped old 1 V P.
Proof.
  assert (Hnn : forall p, 0 < p <= n -> exists c, 0 <= c < 256 /\ below old c < p <= below old (c + 1) /\ grp V P p = below old (c + 1) /\ 0 <= rd P p < n /\ rd old (rd P p) = c).
  { intros p Hp. destruct (bucket_of p Hp) as (c & Hc & E). exists c. split; [done |]. split; [done |]. split; [by apply grp_bucket | by apply Hin]. }
  split; [done | done | | |].
  - intros p Hp. destruct (Z.eq_dec p 0) as [->|]; [rewrite grp_first; split; [lia |]; intros q Hq; replace q with 0 by lia; apply grp_first |].
    destruct (Hnn p ltac:(lia)) as (c & Hc & Hb & -> & _). pose proof (below_range old (c + 1) Hold ltac:(lia)). split; [lia |]. intros q Hq. apply (grp_bucket c); [done | lia].
  - intros p q Hp Hq Hlt. destruct (Z.eq_dec q 0) as [->|].
    { rewrite grp_first in Hlt. destruct (Z.eq_dec p 0) as [->|]; [rewrite grp_first in Hlt; lia |]. destruct (Hnn p ltac:(lia)) as (c & Hc & Hb & E & _). lia || (pose proof (below_range old c Hold ltac:(lia)); lia). }
    destruct (Hnn q ltac:(lia)) as (d & Hd & Hbd & Eq & Hqn & Eqc). exists 0. split; [lia |]. split; [intros i Hi; lia |]. rewrite !Z.add_0_r.
    destruct (Z.eq_dec p 0) as [->|]; [left; lia |]. destruct (Hnn p ltac:(lia)) as (c & Hc & Hbc & Ep & Hpn & Epc). right. split; [lia |]. split; [lia |].
    rewrite Epc, Eqc. rewrite Ep, Eq in Hlt. destruct (Z.lt_ge_cases c d); [done |]. pose proof (below_mono old (d + 1) (c + 1) ltac:(lia)). lia.
  - intros p q Hp Hq Heq. destruct (Z.eq_dec p 0) as [->|], (Z.eq_dec q 0) as [->|]; [by left | | |].
    + destruct (Hnn q ltac:(lia)) as (d & Hd & Hbd & Eq & _). rewrite grp_first in Heq. pose proof (below_range old d Hold ltac:(lia)). lia.
    + destruct (Hnn p ltac:(lia)) as (d & Hd & Hbd & Eq & _). rewrite grp_first in Heq. pose proof (below_range old d Hold ltac:(lia)). lia.
    + destruct (Hnn p ltac:(lia)) as (c & Hc & Hbc & Ep & Hpn & Epc), (Hnn q ltac:(lia)) as (d & Hd & Hbd & Eq & Hqn & Eqc). right. intros i Hi. replace i with 0 by lia.
      rewrite !Z.add_0_r. split; [lia |]. split; [lia |]. rewrite Epc, Eqc. rewrite Ep, Eq in Heq. destruct (Z.lt_total c d) as [H|[H|H]]; [|done|].
      * pose proof (below_mono old (c + 1) d ltac:(lia)). lia.
      * pose proof (below_mono old (d + 1) c ltac:(lia)). lia.
Qed.

Lemma initial_chain A : rd A 0 = -1 -> (forall c, 1 <= c < 256 -> occ old c = 1 -> rd A (below old (c + 1)) = -1) ->
  (forall q, 0 < q -> (forall c, 1 <= c < 256 -> occ old c = 1 -> q <> below old (c + 1)) -> rd A q = rd P q) -> chain old 1 A V P 0 (n + 1).
Proof.
  intros A0 A1 A2. apply (chain_run _ _ _ _ _ 0 1); [lia | done | intros q Hq; replace q with 0 by lia; apply grp_first |].
  assert (G : forall k, (k <= 256)%nat -> chain old 1 A V P (below old (256 - Z.of_nat k) + 1) (n + 1)).
  { induction k as [|k IH]; intros Hk; [simpl; rewrite below_256 by done; constructor |]. specialize (IH ltac:(lia)).
    set (c := 256 - Z.of_nat (S k)) in *. replace (256 - Z.of_nat k) with (c + 1) in IH by lia. pose proof (below_range old c Hold ltac:(lia)). pose proof (below_succ old c) as Es.
    pose proof (occ_nonneg old c). destruct (Z.eq_dec (occ old c) 0) as [E0|E0]; [by replace (below old c) with (below old (c + 1)) by lia |].
    destruct (decide (occ old c = 1 /\ 1 <= c)) as [[E1 Hc1]|Hd].
    - apply (chain_run _ _ _ _ _ _ 1); [lia | | |].
      + replace (below old c + 1) with (below old (c + 1)) by lia. apply A1; (done || lia).
      + intros q Hq. replace q with (below old (c + 1)) by lia. apply (grp_bucket c); lia.
      + by replace (below old c + 1 + 1) with (below old (c + 1) + 1) by lia.
    - apply (chain_group _ _ _ _ _ _ (below old (c + 1))); [lia | | done]. intros q Hq.
      destruct (Hin c q ltac:(lia) ltac:(lia)) as [Hr _]. split; [|split; [apply (grp_bucket c); lia | lia]]. apply A2; [lia |]. intros d Hd1 Hd2 ->.
      destruct (Z.lt_total c d) as [Hlt|[<-|Hlt]]; [| apply Hd; split; [done | lia] |].
      + pose proof (below_mono old (c + 1) d ltac:(lia)). rewrite below_succ in Hq. lia.
      + pose proof (below_mono old (d + 1) c ltac:(lia)). lia. }
  specialize (G 256%nat ltac:(lia)). simpl in G. rewrite below_0 in G by done. done.
Qed.
End Numbered.
End Initial.

(** ** The suffix array *)
Lemma invert_loop_ok (old : bytes) V P m : P ≡ₚ seqZ 0 (Z.of_nat (length old) + 1) -> length V = S (length old) ->
  (forall q, 0 <= q <= Z.of_nat (length old) -> grp V P q = q) -> forall i A, 0 <= i -> i + Z.of_nat m = Z.of_nat (length old) + 1 -> length A = S (length old) ->
  exists A', invert_loop m i V A = Ret A' /\ length A' = S (length old) /\
    forall q, 0 <= q <= Z.of_nat (length old) -> rd A' q = if i <=? rd P q then rd P q else rd A q.
Proof.
  intros HP HV Hs. induction m as [|m IH]; intros i A Hi Hm HA; cbn [invert_loop].
  { exists A. split; [done |]. split; [done |]. intros q Hq. pose proof (perm_in old P q HP Hq). destruct (Z.leb_spec i (rd P q)); [lia | done]. }
  destruct (perm_surj old P i HP ltac:(lia)) as (q0 & Hq0 & E0). pose proof (Hs q0 Hq0) as Es. unfold grp in Es. rewrite E0 in Es.
  rewrite rd_mem_ok, Es, bind_ret by lia. rewrite st_mem_ok, bind_ret by lia.
  destruct (IH (i + 1) (wr A q0 i) ltac:(lia) ltac:(lia) ltac:(by rewrite length_wr)) as (A' & -> & L & E). exists A'. split; [done |]. split; [done |].
  intros q Hq. rewrite E by done. destruct (Z.eq_dec q q0) as [->|Hne].
  - rewrite E0. destruct (Z.leb_spec (i + 1) i); [lia |]. destruct (Z.leb_spec i i); [|lia]. by rewrite rd_wr_eq by lia.
  - assert (rd P q <> i) by (intros E'; apply Hne; apply (perm_inj old P q q0 HP); [done | done | congruence]).
    rewrite rd_wr_ne by lia. destruct (Z.leb_spec (i + 1) (rd P q)), (Z.leb_spec i (rd P q)); (done || lia).
Qed.

Lemma rd_ext (l l' : list Z) : length l = length l' -> (forall q, 0 <= q < Z.of_nat (length l) -> rd l q = rd l' q) -> l = l'.
Proof.
  intros Hl H. apply list_eq. intros i. destruct (decide (i < length l)%nat) as [Hi|Hi].
  - pose proof (lookup_rd l (Z.of_nat i) ltac:(lia)) as E1. pose proof (lookup_rd l' (Z.of_nat i) ltac:(lia)) as E2.
    rewrite Nat2Z.id in E1, E2. rewrite E1, E2. f_equal. apply H. lia.
  - rewrite !lookup_ge_None_2; [done | lia | lia].
Qed.

(** The suffixes of a file, its empty one included, in increasing order. *)
Definition suffix_array (old : bytes) (A : list Z) : Prop :=
  A ≡ₚ seqZ 0 (Z.of_nat (length old) + 1) /\ forall p q, 0 <= p < q -> q <= Z.of_nat (length old) -> suf_lt old (rd A p) (rd A q).

Lemma qsufsort_correct old junk junk' : bytes_ok old -> length junk = S (length old) -> length junk' = S (length old) ->
  exists A, qsufsort old junk junk' = Ret A /\ suffix_array old A.
Proof.
  intros Hold H1 H2. unfold qsufsort.
  destruct (count_bytes_ok old Hold (replicate 256 0) ltac:(by rewrite length_replicate)) as (b0 & -> & L0 & E0). rewrite bind_ret.
  destruct (bucket_starts_ok old b0 Hold L0) as [Ls Es]; [intros c Hc; rewrite E0 by done; by rewrite rd_replicate_0 |].
  destruct (place_loop_ok old Hold old [] (bucket_starts b0) junk eq_refl) as (b & A & E & HP).
  { split; [done | done | intros c Hc; rewrite Es by done; simpl; lia | intros c p Hc Hp; simpl in Hp; lia | intros s Hs; simpl in Hs; lia]. }
  change (Z.of_nat (length (@nil Z))) with 0 in E. rewrite E, bind_ret. cbv iota beta. pose proof HP as [P1 P2 P3 P4 P5].
  rewrite st_mem_ok, bind_ret by lia. pose proof (placed_perm old Hold b A HP) as Hperm. set (P := wr A 0 (Z.of_nat (length old))) in *.
  destruct (number_loop_ok b old P1 Hold 0 junk' ltac:(lia) ltac:(lia)) as (V0 & -> & LV & _ & EV). rewrite bind_ret. rewrite st_mem_ok, bind_ret by lia.
  set (V := wr V0 (Z.of_nat (length old)) 0). assert (LV' : length V = S (length old)) by (unfold V; rewrite length_wr; lia).
  assert (Hb : forall c, 0 <= c < 256 -> rd b c = below old (c + 1)) by (intros c Hc; rewrite P3, below_succ by done; done).
  assert (HVs : forall s, 0 <= s < Z.of_nat (length old) -> rd V s = below old (rd old s + 1)).
  { intros s Hs. unfold V. rewrite rd_wr_ne by lia. specialize (EV s Hs). rewrite Z.add_0_l in EV. rewrite EV. apply Hb. by apply (rd_range 8 old s ltac:(lia) Hold). }
  assert (Hin : forall c p, 0 <= c < 256 -> below old c < p <= below old (c + 1) -> 0 <= rd P p < Z.of_nat (length old) /\ rd old (rd P p) = c).
  { intros c p Hc Hp. pose proof (below_range old c Hold ltac:(lia)). unfold P. rewrite rd_wr_ne by lia. apply P4; [done |]. rewrite below_succ in Hp. lia. }
  assert (HP0 : rd P 0 = Z.of_nat (length old)) by (unfold P; by rewrite rd_wr_eq by lia). assert (HVn : rd V (Z.of_nat (length old)) = 0) by (unfold V; by rewrite rd_wr_eq by lia).
  destruct (single_loop_ok old Hold b 255 Hb 1 P ltac:(lia) ltac:(lia) ltac:(unfold P; by rewrite length_wr)) as (A1 & -> & LA1 & _ & K2 & K3). rewrite bind_ret.
  rewrite st_mem_ok, bind_ret by lia. pose proof (initial_grouped old Hold P V Hperm LV' HP0 HVn HVs Hin) as HG.
  assert (HC : chain old 1 (wr A1 0 (-1)) V P 0 (Z.of_nat (length old) + 1)).
  { apply (initial_chain old Hold P V LV' HP0 HVn HVs Hin); [by rewrite rd_wr_eq by lia | |].
    - intros c Hc Ho. pose proof (below_range old c Hold ltac:(lia)). rewrite rd_wr_ne by (rewrite ?below_succ; lia). apply K2; (done || lia).
    - intros q Hq H. rewrite rd_wr_ne by lia. apply K3; [lia |]. intros c Hc. apply H. lia. }
  destruct (double_loop_ok old (S (S (length old))) (wr A1 0 (-1)) V P 1 ltac:(lia) HG ltac:(by rewrite length_wr) HC) as (h' & V' & P' & -> & HG' & Hs).
  { right. split; [lia |]. rewrite Z.mul_1_l. pose proof (Z.pow_gt_lin_r 2 (Z.of_nat (S (S (length old))) - 1) ltac:(lia) ltac:(lia)). lia. }
  rewrite bind_ret. destruct (invert_loop_ok old V' P' (S (length old)) (gd_perm _ _ _ _ HG') (gd_len _ _ _ _ HG') Hs 0 (wr A1 0 (-1)) ltac:(lia) ltac:(lia) ltac:(by rewrite length_wr))
    as (A' & -> & LA & EA). exists A'. split; [done |].
  assert (A' = P') as ->.
  { apply rd_ext; [rewrite (perm_length old P' (gd_perm _ _ _ _ HG')); lia |]. intros q Hq. rewrite EA by lia. pose proof (perm_in old P' q (gd_perm _ _ _ _ HG') ltac:(lia)).
    destruct (Z.leb_spec 0 (rd P' q)); [done | lia]. }
  split; [apply HG' |]. intros p q Hp Hq. apply (gd_lt _ _ _ _ HG'); [lia | lia |]. rewrite !Hs by lia. lia.
Qed.
