(* ===== verification/BsDiff.v ===== *)
(** * bsdiff and bspatch together

    [bsdiff] of src/bootable/recovery/applypatch/bsdiff.c with its suffix sort,
    and the theorems on patches: a patch restores the new file, and a forged one
    makes the patcher write outside of its buffer. *)

From S2P Require Import Prelude.
From S2P Require Import CString.
From S2P Require Import Verifier.
From S2P Require Import BsPatch.
From S2P Require Import BsPatchSpec.
From S2P Require Import QSufSort.
From S2P Require Import QSufSortSpec.

(** The patch file and the suffix array, which the caller keeps. [IP] is the
    array of an earlier call with the same old file; [arrays] is what the two
    mallocs gave, whose results are not tested. *)
Definition bsdiff (bz_compress : bytes -> bytes) (pos0 : Z) (old new : bytes) (IP : option (list Z)) (arrays : option (list Z * list Z)) :
    outcome (bytes * list Z) :=
  I_ ← match IP with
       | Some I_ => Ret I_
       | None => match arrays with
                 | Some (junk, junk') => qsufsort old junk junk'
                 | None => Fault NullDeref
                 end
       end;
  patch ← bsdiff_with bz_compress old new pos0 I_;
  Ret (patch, I_).

(** What bzip2 documents: a decompressor stops at the end of the stream it was
    given and has then delivered the data; compression adds at most one percent
    and 600 bytes. *)
Class Bzip2 (bz_compress : bytes -> bytes) (bz_decompress : bytes -> bytes * bz_end) : Prop := {
  bz_roundtrip : forall d rest, bytes_ok d -> Z.of_nat (length d) < 2 ^ 40 -> bz_decompress (bz_compress d ++ rest) = (d, BzStreamEnd);
  bz_bound : forall d, Z.of_nat (length (bz_compress d)) <= Z.of_nat (length d) + Z.of_nat (length d) / 100 + 600
}.

Section Roundtrip.
Context (bz_compress : bytes -> bytes) (bz_decompress : bytes -> bytes * bz_end) {HB : Bzip2 bz_compress bz_decompress}.

(** The layout of a patch. *)
Definition patch_file (new_size : Z) (ctrl db eb : bytes) : bytes :=
  str "BSDIFF40" ++ offtout (Z.of_nat (length (bz_compress ctrl))) ++ offtout (Z.of_nat (length (bz_compress db))) ++ offtout new_size ++
  bz_compress ctrl ++ bz_compress db ++ bz_compress eb.

Lemma starts_with_app l : forall pre post, starts_with (pre ++ l ++ post) (Z.of_nat (length pre)) l = Ret true.
Proof.
  induction l as [|x l IH]; intros pre post; cbn [starts_with]; [done |].
  rewrite rd_mem_ok by (rewrite !length_app; simpl; lia). rewrite bind_ret. assert (rd (pre ++ (x :: l) ++ post) (Z.of_nat (length pre)) = x) as ->.
  { unfold rd. rewrite Nat2Z.id, app_nth2 by lia. by rewrite Nat.sub_diag. }
  rewrite Z.eqb_refl. specialize (IH (pre ++ [x]) post). rewrite length_app in IH. simpl in IH. rewrite <- app_assoc in IH. simpl in IH.
  replace (Z.of_nat (length pre) + 1) with (Z.of_nat (length pre + 1)) by lia. exact IH.
Qed.

Lemma bz_init_ok pre d post : bytes_ok d -> Z.of_nat (length d) < 2 ^ 40 -> Z.of_nat (length (bz_compress d)) < 2 ^ 32 ->
  bz_init bz_decompress (pre ++ bz_compress d ++ post) (Z.of_nat (length pre)) (Z.of_nat (length (bz_compress d))) = BzStream d BzStreamEnd false.
Proof.
  intros Hd Hs Hl. unfold bz_init. rewrite wrap_small by (unfold in_range; lia). rewrite !Nat2Z.id, drop_app_length, take_app_length.
  rewrite <- (app_nil_r (bz_compress d)) at 1. rewrite bz_roundtrip by done. rewrite length_app. f_equal. apply Z.ltb_ge. lia.
Qed.

Lemma bz_init_last pre d post avail : bytes_ok d -> Z.of_nat (length d) < 2 ^ 40 -> avail = Z.of_nat (length (bz_compress d ++ post)) -> avail < 2 ^ 32 ->
  bz_init bz_decompress (pre ++ bz_compress d ++ post) (Z.of_nat (length pre)) avail = BzStream d BzStreamEnd false.
Proof.
  intros Hd Hs -> Hl. unfold bz_init. rewrite wrap_small by (unfold in_range; lia). rewrite !Nat2Z.id, drop_app_length, firstn_all.
  rewrite bz_roundtrip by done. f_equal. apply Z.ltb_ge. lia.
Qed.

(** Opening a patch: the header is read back and the streams deliver the blocks. *)
Lemma open_patch malloc old pre post new_size ctrl db eb : bytes_ok ctrl -> bytes_ok db -> bytes_ok eb -> 0 <= new_size < 2 ^ 63 ->
  Z.of_nat (length ctrl) < 2 ^ 40 -> Z.of_nat (length db) < 2 ^ 40 -> Z.of_nat (length eb) < 2 ^ 40 ->
  Z.of_nat (length (bz_compress ctrl)) < 2 ^ 32 -> Z.of_nat (length (bz_compress db)) < 2 ^ 32 -> Z.of_nat (length (bz_compress eb ++ post)) < 2 ^ 32 ->
  ApplyBSDiffPatchMem bz_decompress malloc old (pre ++ patch_file new_size ctrl db eb ++ post) (Z.of_nat (length pre)) =
  match malloc new_size with
  | None => Ret None
  | Some new_data => patch_loop (S (length ctrl)) old new_data new_size 0 0 (BzStream ctrl BzStreamEnd false) (BzStream db BzStreamEnd false) (BzStream eb BzStreamEnd false)
  end.
Proof.
  intros Hc Hd He Hn Sc Sd Se Lc Ld Le. unfold ApplyBSDiffPatchMem, patch_file. set (cc := bz_compress ctrl) in *. set (cd := bz_compress db) in *. set (ce := bz_compress eb) in *.
  rewrite <- !app_assoc. rewrite starts_with_app, bind_ret. cbn [negb].
  set (rest := cc ++ cd ++ ce ++ post). set (nums := offtout (Z.of_nat (length cc)) ++ offtout (Z.of_nat (length cd)) ++ offtout new_size).
  assert (Ln : length nums = 24%nat) by (unfold nums; by rewrite !length_app, !offtout_length).
  assert (Em : pre ++ str "BSDIFF40" ++ offtout (Z.of_nat (length cc)) ++ offtout (Z.of_nat (length cd)) ++ offtout new_size ++ rest = (pre ++ str "BSDIFF40") ++ nums ++ rest)
    by (unfold nums; by rewrite <- !app_assoc).
  rewrite Em. assert (Lm : length (pre ++ str "BSDIFF40") = (length pre + 8)%nat) by (rewrite length_app; done).
  rewrite sub_bytes_ok, bind_ret by (rewrite ?length_app, ?Ln; simpl; lia). change (Z.to_nat 24) with 24%nat.
  rewrite drop_app_length' by (rewrite Lm; lia). rewrite take_app_length' by done. cbv zeta.
  assert (O1 : offtin nums = Z.of_nat (length cc)) by (unfold nums; rewrite offtin_app by apply offtout_length; apply offt_roundtrip; lia).
  assert (O2 : offtin (drop 8 nums) = Z.of_nat (length cd)) by (unfold nums; rewrite drop_app_length' by (symmetry; apply offtout_length); rewrite offtin_app by apply offtout_length; apply offt_roundtrip; lia).
  assert (O3 : offtin (drop 16 nums) = new_size) by (unfold nums; change 16%nat with (8 + 8)%nat; rewrite <- drop_drop, !drop_app_length' by (symmetry; apply offtout_length); apply offt_roundtrip; lia).
  rewrite O1, O2, O3. destruct (Z.ltb_spec (Z.of_nat (length cc)) 0); [lia |]. destruct (Z.ltb_spec (Z.of_nat (length cd)) 0); [lia |]. destruct (Z.ltb_spec new_size 0); [lia |]. cbn [orb].
  set (mem := (pre ++ str "BSDIFF40") ++ nums ++ rest).
  assert (M1 : mem = ((pre ++ str "BSDIFF40") ++ nums) ++ cc ++ cd ++ ce ++ post) by (unfold mem, rest; by rewrite <- !app_assoc).
  assert (M2 : mem = (((pre ++ str "BSDIFF40") ++ nums) ++ cc) ++ cd ++ ce ++ post) by (rewrite M1; by rewrite <- !app_assoc).
  assert (M3 : mem = ((((pre ++ str "BSDIFF40") ++ nums) ++ cc) ++ cd) ++ ce ++ post) by (rewrite M2; by rewrite <- !app_assoc).
  assert (I1 : bz_init bz_decompress mem (Z.of_nat (length pre) + 32) (Z.of_nat (length cc)) = BzStream ctrl BzStreamEnd false).
  { rewrite M1. replace (Z.of_nat (length pre) + 32) with (Z.of_nat (length ((pre ++ str "BSDIFF40") ++ nums))) by (rewrite length_app, Lm, Ln; lia). by apply bz_init_ok. }
  assert (I2 : bz_init bz_decompress mem (Z.of_nat (length pre) + 32 + Z.of_nat (length cc)) (Z.of_nat (length cd)) = BzStream db BzStreamEnd false).
  { rewrite M2. replace (Z.of_nat (length pre) + 32 + Z.of_nat (length cc)) with (Z.of_nat (length (((pre ++ str "BSDIFF40") ++ nums) ++ cc))) by (rewrite !length_app, Ln; simpl; lia). by apply bz_init_ok. }
  assert (I3 : bz_init bz_decompress mem (Z.of_nat (length pre) + 32 + Z.of_nat (length cc) + Z.of_nat (length cd))
    (Z.of_nat (length mem) - (Z.of_nat (length pre) + 32 + Z.of_nat (length cc) + Z.of_nat (length cd))) = BzStream eb BzStreamEnd false).
  { rewrite M3. set (p3 := (((pre ++ str "BSDIFF40") ++ nums) ++ cc) ++ cd).
    assert (Lp : Z.of_nat (length pre) + 32 + Z.of_nat (length cc) + Z.of_nat (length cd) = Z.of_nat (length p3)) by (unfold p3; rewrite !length_app, Ln; simpl; lia).
    rewrite Lp. rewrite (length_app p3). replace (Z.of_nat (length p3 + length (ce ++ post)) - Z.of_nat (length p3)) with (Z.of_nat (length (ce ++ post))) by lia. by apply bz_init_last. }
  by rewrite I1, I2, I3.
Qed.

Lemma encode_ok x : bytes_ok (offtout x).
Proof.
  unfold offtout. cbv zeta. rewrite offtout_loop_le. destruct (x <? 0); [|apply le_encode_ok].
  apply Forall_wr; [apply le_encode_ok |]. apply lor_in_range; [lia | | unfold in_range; lia]. apply rd_range; [lia | apply le_encode_ok].
Qed.

Lemma triples_ok ts : bytes_ok (concat (map encode_triple ts)).
Proof.
  induction ts as [|[[x y] z] ts IH]; [constructor |]. cbn [map concat encode_triple]. repeat (apply bytes_ok_app; split); (done || apply encode_ok).
Qed.

Lemma rebuilds_ok old new newpos oldpos ts db eb : bytes_ok new -> rebuilds old new newpos oldpos ts db eb -> bytes_ok db /\ bytes_ok eb /\
  Z.of_nat (length db) + Z.of_nat (length eb) = Z.of_nat (length new) - newpos.
Proof.
  intros Hn. induction 1 as [|newpos oldpos lf ex sk ts db eb H1 H2 H3 H4 H5 H6 _ (I1 & I2 & I3)]; [split; [constructor |]; split; [constructor | simpl; lia] |].
  split; [apply bytes_ok_app; split; [|done] |].
  - apply Forall_forall. intros x Hx. apply list_elem_of_lookup_1 in Hx as [i Hx]. apply lookup_zip_with_Some in Hx as (u & v & -> & _). apply wrap_range. lia.
  - split; [apply bytes_ok_app; split; [by apply part_ok | done] |]. rewrite !length_app, length_zip_with, !part_length by lia. lia.
Qed.

(** The main loop and the patcher, against any table of offsets. *)
Lemma diff_patch malloc old new pos0 I_ pre post : bytes_ok new -> Z.of_nat (length new) < 2 ^ 27 -> Z.of_nat (length old) < 2 ^ 61 -> offsets old I_ ->
  (forall k, 0 <= k -> exists b, malloc k = Some b /\ Z.of_nat (length b) = k) -> Z.of_nat (length post) < 2 ^ 31 ->
  exists patch, bsdiff_with bz_compress old new pos0 I_ = Ret patch /\
    ApplyBSDiffPatchMem bz_decompress malloc old (pre ++ patch ++ post) (Z.of_nat (length pre)) = Ret (Some new).
Proof.
  intros Hn Hns Hos HI Hm Hpost. unfold bsdiff_with.
  destruct (diff_main_ok old new I_ HI (S (length new)) 0 0 pos0 0 0 0 (Blocks [] [] [])) as (ts & db & eb & -> & Hr & Ht); try (simpl; lia).
  rewrite bind_ret. cbn [bl_ctrl bl_db bl_eb app]. cbv zeta. fold (patch_file (Z.of_nat (length new)) (concat (map encode_triple ts)) db eb).
  eexists. split; [reflexivity |]. destruct (rebuilds_ok old new 0 0 ts db eb Hn Hr) as (Hd & He & Hl).
  assert (Lt : forall l : list triple, length (concat (map encode_triple l)) = (24 * length l)%nat).
  { induction l as [|t l IH]; [done |]. cbn [map concat]. rewrite length_app, encode_triple_length, IH. simpl. lia. }
  assert (Hsmall : forall d, Z.of_nat (length d) <= 24 * 2 ^ 27 + 24 -> Z.of_nat (length (bz_compress d)) < 2 ^ 31 + 2 ^ 30 + 2 ^ 29).
  { intros d Hdl. pose proof (bz_bound (bz_decompress := bz_decompress) d) as Hb. dmlia. }
  assert (Hsmaller : forall d, Z.of_nat (length d) <= 2 ^ 27 -> Z.of_nat (length (bz_compress d)) < 2 ^ 28).
  { intros d Hdl. pose proof (bz_bound (bz_decompress := bz_decompress) d) as Hb. dmlia. }
  rewrite open_patch; [| apply triples_ok | done | done | lia | rewrite Lt; lia | lia | lia | | |].
  - destruct (Hm (Z.of_nat (length new)) ltac:(lia)) as (b & -> & Lb).
    rewrite <- (app_nil_r (concat (map encode_triple ts))) at 2. apply (patch_loop_ok old new Hn ltac:(lia) ltac:(lia) ts 0 0 db eb); [done | rewrite Lt; lia | lia].
  - specialize (Hsmall (concat (map encode_triple ts))). rewrite Lt in Hsmall. lia.
  - specialize (Hsmaller db). lia.
  - specialize (Hsmaller eb). rewrite length_app. lia.
Qed.
End Roundtrip.

(** ** Properties *)

(** C6. A patch restores the new file: for all files (the new one below 128
    MiB), bsdiff returns a patch, its loops end and stay inside their buffers,
    and applying the patch, also when it lies inside a larger file, gives the
    new file. *)
Theorem bsdiff_roundtrip bz_compress bz_decompress {HB : Bzip2 bz_compress bz_decompress} malloc pos0 old new junk junk' pre post :
  bytes_ok old -> bytes_ok new -> Z.of_nat (length new) < 2 ^ 27 -> Z.of_nat (length old) < 2 ^ 61 ->
  length junk = S (length old) -> length junk' = S (length old) ->
  (forall k, 0 <= k -> exists b, malloc k = Some b /\ Z.of_nat (length b) = k) -> Z.of_nat (length post) < 2 ^ 31 ->
  exists patch I_, bsdiff bz_compress pos0 old new None (Some (junk, junk')) = Ret (patch, I_) /\ suffix_array old I_ /\
    ApplyBSDiffPatchMem bz_decompress malloc old (pre ++ patch ++ post) (Z.of_nat (length pre)) = Ret (Some new).
Proof.
  intros Ho Hn Hns Hos H1 H2 Hm Hp. unfold bsdiff. destruct (qsufsort_correct old junk junk' Ho H1 H2) as (I_ & -> & HI). rewrite bind_ret.
  assert (Hoff : offsets old I_).
  { destruct HI as [HI _]. split; [by apply perm_length |]. apply Forall_forall. intros x Hx. rewrite HI, elem_of_seqZ in Hx. lia. }
  destruct (diff_patch bz_compress bz_decompress malloc old new pos0 I_ pre post Hn Hns Hos Hoff Hm Hp) as (patch & -> & E).
  rewrite bind_ret. by exists patch, I_.
Qed.

(** A codec that stores the length and the data. *)
Definition toy_compress (d : bytes) : bytes := le_encode 8 (Z.of_nat (length d)) ++ d.
Definition toy_decompress (s : bytes) : bytes * bz_end :=
  let d := take (Z.to_nat (le_decode (take 8 s))) (drop 8 s) in
  (d, if (Z.of_nat (length d) =? le_decode (take 8 s)) && (8 <=? length s)%nat then BzStreamEnd else BzStarved).

#[local] Instance toy_bzip2 : Bzip2 toy_compress toy_decompress.
Proof.
  split.
  - intros d rest _ Hl. unfold toy_decompress, toy_compress. rewrite <- app_assoc, take_app_length', drop_app_length' by (symmetry; apply le_encode_length).
    rewrite le_roundtrip by (unfold in_range; simpl; lia). rewrite Nat2Z.id, take_app_length, Z.eqb_refl, !length_app, le_encode_length. done.
  - intros d. unfold toy_compress. rewrite length_app, le_encode_length. assert (0 <= Z.of_nat (length d) / 100) by (apply Z.div_pos; lia). lia.
Qed.

Definition toy_malloc (k : Z) : option bytes := Some (replicate (Z.to_nat k) 7).

Lemma bsdiff_roundtrip_witness : exists patch I_,
  bsdiff toy_compress 0 (str "the old file") (str "the new and old file") None (Some (replicate 13 5, replicate 13 6)) = Ret (patch, I_) /\
  suffix_array (str "the old file") I_ /\ ApplyBSDiffPatchMem toy_decompress toy_malloc (str "the old file") (str "xx" ++ patch ++ str "yy") 2 = Ret (Some (str "the new and old file")).
Proof.
  apply (bsdiff_roundtrip toy_compress toy_decompress toy_malloc 0 (str "the old file") (str "the new and old file") (replicate 13 5) (replicate 13 6) (str "xx") (str "yy")); try done.
  - repeat constructor; done.
  - repeat constructor; done.
  - intros k Hk. eexists. split; [done |]. rewrite length_replicate. lia.
Defined.

(** C30. qsufsort ends on every file, stays inside its two arrays and leaves in
    the first one the suffix array: all suffixes, the empty one included, in
    lexicographic order. *)
Theorem qsufsort_sorts old junk junk' : bytes_ok old -> length junk = S (length old) -> length junk' = S (length old) ->
  exists A, qsufsort old junk junk' = Ret A /\ suffix_array old A.
Proof. apply qsufsort_correct. Qed.

Lemma qsufsort_sorts_witness : qsufsort (str "banana") (replicate 7 9) (replicate 7 9) = Ret [6; 5; 3; 1; 0; 4; 2] /\
  exists A, qsufsort (str "banana") (replicate 7 9) (replicate 7 9) = Ret A /\ suffix_array (str "banana") A.
Proof. split; [reflexivity | apply (qsufsort_sorts (str "banana")); [repeat constructor; done | done | done]]. Defined.

Lemma overflow_loop fuel old b e d new_size st : (2 <= fuel)%nat -> 2 <= new_size < 2 ^ 31 -> new_size <= Z.of_nat (length d) < 2 ^ 31 -> Z.of_nat (length b) = new_size ->
  patch_loop fuel old b new_size 0 0 (BzStream (concat (map encode_triple [(0, 1, 0); (2 ^ 63 - 1, 0, 0)])) st false) (BzStream d st false) (BzStream [e] st false) =
  Fault OutOfBounds.
Proof.
  intros Hf Hn Hd Hb. destruct fuel as [|[|fuel]]; [lia | lia |]. destruct b as [|b0 b]; [simpl in Hb; lia |].
  cbn [map concat]. rewrite app_nil_r. cbn [patch_loop]. destruct (Z.leb_spec new_size 0); [lia |].
  assert (Fc : forall t rest, FillBuffer (replicate 24 0) 0 24 (BzStream (encode_triple t ++ rest) st false) = Ret (0, encode_triple t, BzStream rest st false)).
  { intros t rest. pose proof (FillBuffer_ok [] (replicate 24 0) [] (encode_triple t) rest st false 24 ltac:(lia)) as F. rewrite encode_triple_length in F.
    specialize (F eq_refl eq_refl). by rewrite !app_nil_r in F. }
  rewrite Fc, bind_ret. cbv iota beta. change (negb (0 =? 0)) with false. cbv iota zeta.
  destruct (read_triple 0 1 0 ltac:(lia) ltac:(lia) ltac:(lia)) as (R1 & R2 & R3). rewrite R1, R2, R3.
  change ((0 <? 0) || (1 <? 0)) with false. cbv iota. change (i64 (0 + 0)) with 0. destruct (Z.ltb_spec new_size 0); [lia |].
  pose proof (FillBuffer_ok [] [] (b0 :: b) [] d st false 0 ltac:(lia) eq_refl eq_refl) as F0. cbn [app length] in F0. change (Z.of_nat 0) with 0 in F0. rewrite F0, bind_ret.
  cbv iota beta. change (negb (0 =? 0)) with false. cbv iota. change (Z.to_nat (Z.min 0 (2 ^ 31))) with 0%nat. cbn [add_old]. rewrite bind_ret.
  change (2 ^ 31 <=? 0) with false. cbv iota. change (i64 (0 + 1)) with 1. destruct (Z.ltb_spec new_size 1); [lia |].
  pose proof (FillBuffer_ok [] [b0] b [e] [] st false 1 ltac:(lia) eq_refl eq_refl) as F1. cbn [app length] in F1. change (Z.of_nat 0) with 0 in F1. rewrite F1, bind_ret.
  cbv iota beta. change (negb (0 =? 0)) with false. cbv iota. destruct (Z.leb_spec new_size 1); [lia |].
  pose proof (Fc (2 ^ 63 - 1, 0, 0) []) as F2. rewrite app_nil_r in F2. rewrite F2, bind_ret. cbv iota beta. change (negb (0 =? 0)) with false. cbv iota.
  destruct (read_triple (2 ^ 63 - 1) 0 0 ltac:(lia) ltac:(lia) ltac:(lia)) as (Q1 & Q2 & Q3). rewrite Q1, Q2, Q3.
  change ((2 ^ 63 - 1 <? 0) || (0 <? 0)) with false. cbv iota. change (i64 (1 + (2 ^ 63 - 1))) with (- 2 ^ 63). destruct (Z.ltb_spec new_size (- 2 ^ 63)); [lia |].
  assert (F3 : FillBuffer (e :: b) 1 (2 ^ 63 - 1) (BzStream d st false) = Fault OutOfBounds); [|by rewrite F3].
  unfold FillBuffer. change (u32 (i32 (2 ^ 63 - 1))) with (2 ^ 32 - 1). cbn [bz_out]. cbv zeta. rewrite (take_ge d) by lia. unfold put_bytes.
  destruct (Z.leb_spec 0 1); [|lia]. destruct (Z.leb_spec (1 + Z.of_nat (length d)) (Z.of_nat (length (e :: b)))); [simpl in *; lia | done].
Qed.

(** C37. The check of a control triple against the size of the new file can be
    passed by overflow: a forged patch with a second triple of 2^63 - 1 bytes
    makes the patcher write the diff stream past the end of its buffer. *)
Theorem bspatch_overflow bz_compress bz_decompress {HB : Bzip2 bz_compress bz_decompress} malloc old e d new_size :
  bytes_ok (e :: d) -> 2 <= new_size < 2 ^ 31 -> new_size <= Z.of_nat (length d) < 2 ^ 31 ->
  (forall k, 0 <= k -> exists b, malloc k = Some b /\ Z.of_nat (length b) = k) ->
  ApplyBSDiffPatchMem bz_decompress malloc old
    (patch_file bz_compress new_size (concat (map encode_triple [(0, 1, 0); (2 ^ 63 - 1, 0, 0)])) d [e]) 0 = Fault OutOfBounds.
Proof.
  intros Hok Hn Hd Hm. apply Forall_cons in Hok as [He Hdok].
  assert (Hb : forall x, Z.of_nat (length x) < 2 ^ 31 -> Z.of_nat (length (bz_compress x)) < 2 ^ 32) by (intros x Hx; pose proof (bz_bound (bz_decompress := bz_decompress) x); dmlia).
  assert (Lc : Z.of_nat (length (concat (map encode_triple [(0, 1, 0); (2 ^ 63 - 1, 0, 0)]))) = 48) by (cbn [map concat]; rewrite !length_app, !encode_triple_length; done).
  pose proof (open_patch bz_compress bz_decompress malloc old [] [] new_size (concat (map encode_triple [(0, 1, 0); (2 ^ 63 - 1, 0, 0)])) d [e] ltac:(apply triples_ok) Hdok
    ltac:(constructor; [done | constructor]) ltac:(lia) ltac:(lia) ltac:(lia) ltac:(done)
    ltac:(apply Hb; lia) ltac:(apply Hb; lia) ltac:(rewrite app_nil_r; apply Hb; done)) as E.
  rewrite app_nil_l, app_nil_r in E. change (Z.of_nat (length (@nil Z))) with 0 in E. rewrite E. destruct (Hm new_size ltac:(lia)) as (b & -> & Lb).
  apply overflow_loop; [cbn [map concat]; rewrite !length_app, !encode_triple_length; lia | done | done | done].
Qed.

Lemma bspatch_overflow_witness :
  ApplyBSDiffPatchMem toy_decompress toy_malloc (str "old") (patch_file toy_compress 2 (concat (map encode_triple [(0, 1, 0); (2 ^ 63 - 1, 0, 0)])) (str "overflow") (str "x")) 0 = Fault OutOfBounds.
Proof.
  apply (bspatch_overflow toy_compress toy_decompress toy_malloc (str "old") 120 (str "overflow") 2); [repeat constructor; done | lia | done |].
  intros k Hk. eexists. split; [done |]. rewrite length_replicate. lia.
Defined.
