(* ===== verification/ImgPatch.v ===== *)
(** * Patches of images made of compressed members

    Models src/bootable/recovery/applypatch/imgpatch.c and the readers of
    numbers of utils.c. zlib is a parameter: what inflating some bytes gives and
    whether the stream ended, and the outputs of the calls of deflate until the
    stream ends, for the size of the buffer it is given. *)

From S2P Require Import Prelude.
From S2P Require Import Sha.
From S2P Require Import CString.
From S2P Require Import Verifier.
From S2P Require Import BsPatch.

Definition CHUNK_NORMAL : Z := 0.
Definition CHUNK_DEFLATE : Z := 2.
Definition CHUNK_RAW : Z := 3.

Definition Read4 (mem : bytes) (p : Z) : outcome Z :=
  b ← sub_bytes mem p 4;
  Ret (i32 (Z.lor (Z.shiftl (rd b 3) 24) (Z.lor (Z.shiftl (rd b 2) 16) (Z.lor (Z.shiftl (rd b 1) 8) (rd b 0))))).

Definition Read8 (mem : bytes) (p : Z) : outcome Z :=
  b ← sub_bytes mem p 8;
  Ret (i64 (Z.lor (Z.shiftl (rd b 7) 56) (Z.lor (Z.shiftl (rd b 6) 48) (Z.lor (Z.shiftl (rd b 5) 40) (Z.lor (Z.shiftl (rd b 4) 32)
    (Z.lor (Z.shiftl (rd b 3) 24) (Z.lor (Z.shiftl (rd b 2) 16) (Z.lor (Z.shiftl (rd b 1) 8) (rd b 0))))))))).

(** The parameters of [deflateInit2]: level, method, windowBits, memLevel and
    strategy. *)
Record deflate_params := DeflateParams {
  level : Z;
  method : Z;
  windowBits : Z;
  memLevel : Z;
  strategy : Z
}.

Section ImagePatch.
Context (bz_decompress : bytes -> bytes * bz_end) (z_inflate : bytes -> bytes * bool).
Context (z_deflate : deflate_params -> bytes -> Z -> option (list bytes)).
Context {M : Type -> Type} `{MRet M, MBind M, Effects M}.
Context (malloc : Z -> option bytes) (old patch : bytes) (sink : bytes -> M Z) (bonus : option bytes).
Abbreviation patch_size := (Z.of_nat (length patch)).
Abbreviation size_t := u64.

Definition hash_more (ctx : option HASH_CTX) (data : bytes) : option HASH_CTX := (fun c => SHA_update c data) <$> ctx.

(** [do { ... } while (ret != Z_STREAM_END)] over the outputs of deflate. *)
Fixpoint sink_loop (outs : list bytes) (ctx : option HASH_CTX) : M (Z * option HASH_CTX) :=
  match outs with
  | [] => mret (0, ctx)
  | out :: outs' =>
      n ← sink out;
      if negb (n =? Z.of_nat (length out)) then mret (-1, ctx) else sink_loop outs' (hash_more ctx out)
  end.

(** The inflated source, with the bonus data at its end; [None] for a failure. *)
Definition expand_source (src_start src_len expanded_len : Z) (bonus_data : bytes) : outcome (option bytes) :=
  match malloc expanded_len with
  | None => Ret None
  | Some expanded_source =>
      let avail_in := u32 src_len in
      let rest := drop (Z.to_nat src_start) old in
      let '(out, ended) := z_inflate (take (Z.to_nat avail_in) rest) in
      let avail_out := u32 expanded_len - Z.of_nat (length out) in
      if avail_out <? 0 then Ret None else
      if negb ended then if Z.of_nat (length rest) <? avail_in then Fault OutOfBounds else Ret None else
      if negb (avail_out =? Z.of_nat (length bonus_data)) then Ret None else
      expanded_source ← put_bytes expanded_source 0 out;
      expanded_source ← put_bytes expanded_source (expanded_len - Z.of_nat (length bonus_data)) bonus_data;
      Ret (Some expanded_source)
  end.

(** A chunk that is inflated, patched and deflated again. *)
Definition deflate_chunk (i h : Z) (ctx : option HASH_CTX) : M (Z * option HASH_CTX) :=
  src_start ← perform (Read8 patch h);
  src_len ← perform (Read8 patch (h + 8));
  patch_offset ← perform (Read8 patch (h + 16));
  expanded_len ← perform (Read8 patch (h + 24));
  level ← perform (Read4 patch (h + 40));
  method ← perform (Read4 patch (h + 44));
  windowBits ← perform (Read4 patch (h + 48));
  memLevel ← perform (Read4 patch (h + 52));
  strategy ← perform (Read4 patch (h + 56));
  let bonus_data := if i =? 1 then default [] bonus else [] in
  expanded ← perform (expand_source (size_t src_start) (size_t src_len) (size_t expanded_len) bonus_data);
  match expanded with
  | None => mret (-1, ctx)
  | Some expanded_source =>
      target ← perform (ApplyBSDiffPatchMem bz_decompress malloc expanded_source patch patch_offset);
      match target with
      | None => mret (-1, ctx)
      | Some data =>
          let temp_size := if expanded_len <? 32768 then 32768 else expanded_len in
          if (expanded_len <? 32768) && bool_decide (malloc 32768 = None) then perform (Fault NullDeref) else
          match z_deflate (DeflateParams level method windowBits memLevel strategy) data temp_size with
          | None => perform Diverge
          | Some outs => sink_loop outs ctx
          end
      end
  end.

(** [for (i = 0; i < num_chunks; ++i)]: [n] chunks are left. The failure of a
    patch of a normal chunk is ignored; its source counts as read in full. A sink
    writes nothing for a negative length. *)
Fixpoint chunk_loop (n : nat) (i pos : Z) (ctx : option HASH_CTX) : M (Z * option HASH_CTX) :=
  match n with
  | O => mret (0, ctx)
  | S n' =>
      if patch_size <? pos + 4 then mret (-1, ctx) else
      type ← perform (Read4 patch pos);
      let pos := pos + 4 in
      if type =? CHUNK_NORMAL then
        if patch_size <? pos + 24 then mret (-1, ctx) else
        src_start ← perform (Read8 patch pos);
        src_len ← perform (Read8 patch (pos + 8));
        patch_offset ← perform (Read8 patch (pos + 16));
        src ← perform (sub_bytes old (size_t src_start) (size_t src_len));
        '(_, ctx) ← ApplyBSDiffPatch bz_decompress malloc src patch patch_offset sink ctx;
        chunk_loop n' (i + 1) (pos + 24) ctx
      else if type =? CHUNK_RAW then
        if patch_size <? pos + 4 then mret (-1, ctx) else
        data_len ← perform (Read4 patch pos);
        let pos := pos + 4 in
        if patch_size <? pos + data_len then mret (-1, ctx) else
        data ← perform (if (data_len <? 0) && bool_decide (ctx = None) then Ret [] else sub_bytes patch pos data_len);
        let ctx := hash_more ctx data in
        n ← sink data;
        if negb (n =? data_len) then mret (-1, ctx) else chunk_loop n' (i + 1) (pos + data_len) ctx
      else if type =? CHUNK_DEFLATE then
        if patch_size <? pos + 60 then mret (-1, ctx) else
        '(r, ctx) ← deflate_chunk i pos ctx;
        if negb (r =? 0) then mret (-1, ctx) else chunk_loop n' (i + 1) (pos + 60) ctx
      else mret (-1, ctx)
  end.

Definition ApplyImagePatch (ctx : option HASH_CTX) : M (Z * option HASH_CTX) :=
  if patch_size <? 12 then mret (-1, ctx) else
  magic ← perform (starts_with patch 0 (str "IMGDIFF2"));
  if negb (magic : bool) then mret (-1, ctx) else
  num_chunks ← perform (Read4 patch 8);
  chunk_loop (Z.to_nat num_chunks) 0 12 ctx.
End ImagePatch.
