(* ===== verification/ImgPatchSpec.v ===== *)
(** * The patchers, whatever the sink

    A patcher only passes on what the sink returns: runs of it with related
    sinks are related. The reference is the run that collects the output. *)

From S2P Require Import Prelude.
From S2P Require Import Sha.
From S2P Require Import CString.
From S2P Require Import Verifier.
From S2P Require Import BsPatch.
From S2P Require Import ImgPatch.

Section Related.
Context {M1 M2 : Type -> Type} `{MRet M1, MBind M1, Effects M1, MRet M2, MBind M2, Effects M2}.
Context (rel : forall A, M1 A -> M2 A -> Prop).
Arguments rel {A}.
Context (rel_ret : forall A (a : A), rel (mret a) (mret a)).
Context (rel_bind : forall A B (m1 : M1 A) (m2 : M2 A) (k1 : A -> M1 B) (k2 : A -> M2 B), rel m1 m2 -> (forall a, rel (k1 a) (k2 a)) -> rel (m1 ≫= k1) (m2 ≫= k2)).
Context (rel_perform : forall A (m : outcome A), rel (perform m) (perform m)).
Context (sink1 : bytes -> M1 Z) (sink2 : bytes -> M2 Z) (rel_sink : forall data, rel (sink1 data) (sink2 data)).
Context (bz_decompress : bytes -> bytes * bz_end) (z_inflate : bytes -> bytes * bool).
Context (z_deflate : deflate_params -> bytes -> Z -> option (list bytes)) (malloc : Z -> option bytes).

Ltac related_by callee :=
  repeat first
    [ done
    | callee
    | apply rel_ret | apply rel_perform | apply rel_sink
    | apply rel_bind; [|intros ?]
    | match goal with |- rel (match ?x with _ => _ end) _ => destruct x end ].

Lemma ApplyBSDiffPatch_rel old patch offset ctx :
  rel (ApplyBSDiffPatch bz_decompress malloc old patch offset sink1 ctx) (ApplyBSDiffPatch bz_decompress malloc old patch offset sink2 ctx).
Proof. unfold ApplyBSDiffPatch. related_by fail. Qed.

Lemma sink_loop_rel outs : forall ctx, rel (sink_loop sink1 outs ctx) (sink_loop sink2 outs ctx).
Proof. induction outs as [|out outs IH]; intros ctx; cbn [sink_loop]; related_by fail. Qed.

Lemma deflate_chunk_rel old patch bonus i h ctx :
  rel (deflate_chunk bz_decompress z_inflate z_deflate malloc old patch sink1 bonus i h ctx) (deflate_chunk bz_decompress z_inflate z_deflate malloc old patch sink2 bonus i h ctx).
Proof. unfold deflate_chunk. related_by ltac:(first [apply sink_loop_rel | progress (cbv zeta)]). Qed.

Lemma chunk_loop_rel old patch bonus n : forall i pos ctx,
  rel (chunk_loop bz_decompress z_inflate z_deflate malloc old patch sink1 bonus n i pos ctx) (chunk_loop bz_decompress z_inflate z_deflate malloc old patch sink2 bonus n i pos ctx).
Proof.
  induction n as [|n IH]; intros i pos ctx; cbn [chunk_loop]; related_by ltac:(first [apply ApplyBSDiffPatch_rel | apply deflate_chunk_rel | progress (cbv zeta)]).
Qed.

Lemma ApplyImagePatch_rel old patch bonus ctx :
  rel (ApplyImagePatch bz_decompress z_inflate z_deflate malloc old patch sink1 bonus ctx) (ApplyImagePatch bz_decompress z_inflate z_deflate malloc old patch sink2 bonus ctx).
Proof. unfold ApplyImagePatch. related_by ltac:(apply chunk_loop_rel). Qed.
End Related.

(** ** Collecting the output *)
Definition collectM (A : Type) : Type := bytes -> outcome (A * bytes).
#[global] Instance collectM_ret : MRet collectM := fun A a acc => Ret (a, acc).
#[global] Instance collectM_bind : MBind collectM := fun A B k m acc => '(a, acc) ← m acc; k a acc.
#[global] Instance collectM_effects : Effects collectM := fun A m acc => a ← m; Ret (a, acc).

Definition collect (data : bytes) : collectM Z := fun acc => Ret (Z.of_nat (length data), acc ++ data).
