(* ===== verification/BlockDev.v ===== *)
(** * The device and the stash directory under the block updater

    The system calls of src/bootable/recovery/updater/blockimg.c: a block device
    with a file position, and the directory of the stash files. Every call takes
    the next event of a script: it succeeds, it fails, or the power is lost in
    it, with any part of what it was writing on the medium. Data is on the
    medium once it was synced, and so is a rename; [unlink], [mkdir] and [rmdir]
    are taken to be on the medium when they return, although the code does not
    sync the directory behind them. *)

From S2P Require Import Prelude.

Inductive event :=
  | EvDone (n : nat)
  | EvFail
  | EvOff (kept : list bool).

(** The files of the stash directory, by name. *)
Abbreviation files := (@gmap (list Z) (@list_eq_dec Z numbers.Z.eq_dec) (@list_countable Z numbers.Z.eq_dec Z_countable) (list Z)).
Abbreviation stash := (option files).

Record world := World {
  w_dev : bytes;
  w_pos : Z;
  w_stash : stash;
  w_events : list event
}.

Definition set_dev (d : bytes) (pos : Z) (w : world) : world := World d pos (w_stash w) (w_events w).
Definition set_stash (s : stash) (w : world) : world := World (w_dev w) (w_pos w) s (w_events w).
Definition set_events (es : list event) (w : world) : world := World (w_dev w) (w_pos w) (w_stash w) es.

(** How a run of the updater ends: with a value; with the process gone, because
    the power was lost or the code called [exit]; with a fault; or never. A run
    leaves a world, and the list of the buffers whose digests it compared with
    expected ones. *)
Inductive ended (A : Type) :=
  | Done (a : A)
  | Gone
  | Crash (f : fault)
  | Hang.
Arguments Done {A} a.
Arguments Gone {A}.
Arguments Crash {A} f.
Arguments Hang {A}.

Definition updM (A : Type) : Type := world -> ended A * world * list bytes.

#[global] Instance updM_ret : MRet updM := fun A a w => (Done a, w, []).
#[global] Instance updM_bind : MBind updM := fun A B k m w =>
  match m w with
  | (Done a, w', l) => let '(r, w'', l') := k a w' in (r, w'', l ++ l')
  | (Gone, w', l) => (Gone, w', l)
  | (Crash f, w', l) => (Crash f, w', l)
  | (Hang, w', l) => (Hang, w', l)
  end.
#[global] Instance updM_effects : Effects updM := fun A m w =>
  (match m with Ret a => Done a | Fault f => Crash f | Diverge => Hang end, w, []).

Definition gone {A} : updM A := fun w => (Gone, w, []).
Definition look : updM world := fun w => (Done w, w, []).
Definition modify (f : world -> world) : updM unit := fun w => (Done tt, f w, []).
Definition compared (data : bytes) : updM unit := fun w => (Done tt, w, [data]).

(** A call with the effect [full] when it succeeds, and [torn] when the power is
    lost; whether it succeeds. *)
Definition act (full : world -> world) (torn : list bool -> world -> world) : updM bool := fun w =>
  match w_events w with
  | [] => (Done true, full w, [])
  | EvDone _ :: es => (Done true, full (set_events es w), [])
  | EvFail :: es => (Done false, set_events es w, [])
  | EvOff kept :: es => (Gone, torn kept (set_events es w), [])
  end.

(** A call that changes nothing. *)
Definition syscall : updM bool := act (fun w => w) (fun _ w => w).

(** A call that changes the directory of the stash, in one piece. *)
Definition change_dir (f : stash -> stash) : updM bool :=
  let full w := set_stash (f (w_stash w)) w in
  act full (fun kept w => if hd false kept then full w else w).

(** A call that changes the files in it: it fails when there is none. *)
Definition change (f : files -> files) : updM bool :=
  w ← look;
  ok ← change_dir (fmap f);
  mret (ok && bool_decide (is_Some (w_stash w))).

(** ** Transfers

    Of [len] bytes; [n] of them went through. A transfer that [sync]s ends with
    [fsync]: what an earlier call wrote may be lost as well when the power is. *)
Inductive transfer_end :=
  | TrDone
  | TrFailed (n : nat)
  | TrOff (kept : list bool).

Fixpoint transfer (sync : bool) (len n : nat) (es : list event) : transfer_end * list event :=
  match len, sync, es with
  | O, false, _ => (TrDone, es)
  | _, _, [] => (TrDone, [])
  | O, true, EvDone _ :: es' => (TrDone, es')
  | S _, _, EvDone k :: es' => transfer sync (len - k) (n + Nat.min k len) es'
  | _, _, EvFail :: es' => (TrFailed n, es')
  | _, _, EvOff kept :: es' => (TrOff kept, es')
  end.

(** Of the bytes of [new] those marked in [kept] replace the ones of [old]. *)
Fixpoint mix (kept : list bool) (new old : bytes) : bytes :=
  match new, old with
  | x :: new', y :: old' => (if hd false kept then x else y) :: mix (tl kept) new' old'
  | _, _ => old
  end.

(** [data] at [pos] of the device. *)
Definition store (dev : bytes) (pos : Z) (data : bytes) : bytes :=
  take (Z.to_nat pos) dev ++ data ++ drop (Z.to_nat pos + length data) dev.

Definition segment (dev : bytes) (pos : Z) (n : nat) : bytes := take n (drop (Z.to_nat pos) dev).

(** ** The device *)

(** [check_lseek] with [SEEK_SET] *)
Definition check_lseek (offset : Z) : updM bool :=
  ok ← syscall;
  if negb ok || (offset <? 0) then mret false
  else modify (fun w => set_dev (w_dev w) offset w) ≫= fun _ => mret true.

(** [None]: the call failed. At the end of the device [read] returns 0 and the
    loop does not end. *)
Definition read_all (size : Z) : updM (option bytes) := fun w =>
  let '(e, es) := transfer false (Z.to_nat size) 0 (w_events w) in
  let w := set_events es w in
  match e with
  | TrDone =>
      if w_pos w + size <=? Z.of_nat (length (w_dev w))
      then (Done (Some (segment (w_dev w) (w_pos w) (Z.to_nat size))), set_dev (w_dev w) (w_pos w + size) w, [])
      else if size =? 0 then (Done (Some []), w, []) else (Hang, w, [])
  | TrFailed n => (Done None, set_dev (w_dev w) (w_pos w + Z.of_nat n) w, [])
  | TrOff _ => (Gone, w, [])
  end.

(** A write stops at the end of the device. *)
Definition write_all (data : bytes) : updM bool := fun w =>
  let room := Z.to_nat (Z.of_nat (length (w_dev w)) - w_pos w) in
  let data' := take room data in
  let '(e, es) := transfer true (length data) 0 (w_events w) in
  let w := set_events es w in
  let put d := set_dev (store (w_dev w) (w_pos w) d) (w_pos w + Z.of_nat (length d)) w in
  match e with
  | TrDone => (Done (length data <=? room)%nat, put data', [])
  | TrFailed n => (Done false, put (take n data'), [])
  | TrOff kept => (Gone, put (mix kept data' (segment (w_dev w) (w_pos w) (length data'))), [])
  end.

(** [ioctl(fd, BLKDISCARD, {start, len})]: the contents are lost; [blank] is
    what is read from there afterwards. *)
Definition blkdiscard (blank : bytes) (start len : Z) : updM bool :=
  let data := take (Z.to_nat len) (blank ++ replicate (Z.to_nat len) 0) in
  let put d w := set_dev (store (w_dev w) start d) (w_pos w) w in
  w ← look;
  if Z.of_nat (length (w_dev w)) <? start + len then syscall ≫= fun _ => mret false
  else act (put data) (fun kept w => put (mix kept data (segment (w_dev w) start (length data))) w).

(** ** Stash files *)

(** [stat] of a file: its contents, of which the caller uses the size. *)
Definition stat_file (name : bytes) : updM (option bytes) :=
  ok ← syscall;
  if negb (ok : bool) then mret None else
  w ← look;
  mret (w_stash w ≫= fun s => s !! name).

(** [read_all] of a whole file whose contents are [data]. *)
Definition read_file (data : bytes) : updM bool := fun w =>
  let '(e, es) := transfer false (length data) 0 (w_events w) in
  match e with
  | TrDone => (Done true, set_events es w, [])
  | TrFailed _ => (Done false, set_events es w, [])
  | TrOff _ => (Gone, set_events es w, [])
  end.

(** [write_all] to a file that has just been created. *)
Definition write_file (name data : bytes) : updM bool := fun w =>
  let '(e, es) := transfer true (length data) 0 (w_events w) in
  let put d := set_stash (<[name := d]> <$> w_stash w) (set_events es w) in
  match e with
  | TrDone => (Done true, put data, [])
  | TrFailed n => (Done false, put (take n data), [])
  | TrOff kept => (Gone, put (mix kept data (replicate (length data) 0)), [])
  end.

Definition unlink (name : bytes) : updM bool := change (delete name).

(** A call after a change of the directory that is not yet on the medium: if
    the power is lost now, the directory may be as it was [before]. *)
Definition syscall_unsynced (before : stash) : updM bool :=
  act (fun w => w) (fun kept w => if hd false kept then w else set_stash before w).

(** [rename(from, to)], and the [open] and [fsync] of the directory. *)
Definition rename_sync (from to : bytes) : updM bool :=
  w ← look;
  ok ← change (fun s => match s !! from with Some d => <[to := d]> (delete from s) | None => s end);
  if negb (ok : bool) then mret false else
  ok ← syscall_unsynced (w_stash w);
  if negb (ok : bool) then mret false else syscall_unsynced (w_stash w).

(** ** The directory *)
Definition mkdir : updM bool := change_dir (fun _ => Some ∅).

(** It fails for a directory that is not empty. *)
Definition rmdir : updM bool :=
  w ← look;
  if bool_decide (w_stash w = Some ∅) then change_dir (fun _ => None) else syscall ≫= fun _ => mret false.
