(* ===== verification/BlockImg.v ===== *)
(** * Block image updates

    Models src/bootable/recovery/updater/blockimg.c, which turns the contents of
    a partition into those of a new one by the commands of a transfer list, in
    place and so that it can be taken up again after the power was lost. The
    stash directory of the device is the one of [world]. Messages and the
    progress output are not modelled. *)

From S2P Require Import Prelude.
From S2P Require Import Sha.
From S2P Require Import CString.
From S2P Require Import Strto.
From S2P Require Import BsPatch.
From S2P Require Import ImgPatch.
From S2P Require Import BlockDev.

Definition BLOCKSIZE : Z := 4096.

(** ** Words and numbers

    [strtok_r] with one delimiter: the token, and the pointer it leaves for the
    next call, null when the end of the string was met. *)
Fixpoint take_word (delim : Z) (s : bytes) : bytes * option bytes :=
  match s with
  | [] => ([], None)
  | c :: s' => if c =? delim then ([], Some s') else let '(t, r) := take_word delim s' in (c :: t, r)
  end.

Definition strtok_r (delim : Z) (s : option bytes) : option bytes * option bytes :=
  match s with
  | None => (None, None)
  | Some s =>
      match skip_delims (Z.eqb delim) s with
      | [] => (None, None)
      | s' => let '(t, r) := take_word delim s' in (Some t, r)
      end
  end.

(** [strtol(s, NULL, 0)] and [strtoul(s, NULL, 0)] of a pointer *)
Definition strtol_ptr (s : option bytes) : outcome Z :=
  match s with None => Fault NullDeref | Some s => Ret (cv_val (bionic_strtol s 0)) end.
Definition strtoul_ptr (s : option bytes) : outcome Z :=
  match s with None => Fault NullDeref | Some s => Ret (cv_val (bionic_strtoul s 0)) end.

(** ** Range sets *)
Record RangeSet := MkRangeSet {
  rs_count : Z;
  rs_size : Z;
  rs_pos : list Z
}.

(** The numbers, and their alternating sum. *)
Fixpoint range_loop (n : nat) (i size : Z) (save : option bytes) : outcome (list Z * Z) :=
  match n with
  | O => Ret ([], size)
  | S n' =>
      let '(tok, save) := strtok_r 44 save in
      v ← strtol_ptr tok;
      let x := i32 v in
      '(rest, size) ← range_loop n' (i + 1) (i32 (if i mod 2 =? 0 then size - x else size + x)) save;
      Ret (x :: rest, size)
  end.

(** [malloc]: sizes of [2^63] and more cannot be had; others fail as the script
    says. *)
Definition malloc_ok (size : Z) : updM bool := if 2 ^ 63 <=? size then mret false else syscall.

(** A size of -1 or -2 wraps to an allocation smaller than the header. *)
Definition parse_range (text : option bytes) : updM RangeSet :=
  match text with
  | None => perform (Fault NullDeref)
  | Some text =>
      let '(tok, save) := strtok_r 44 (Some text) in
      v ← perform (strtol_ptr tok);
      let num := i32 v in
      let size := u64 (8 + num * 4) in
      ok ← malloc_ok size;
      if negb (ok : bool) then gone else
      if size <? 8 then perform (Fault OutOfBounds) else
      '(pos, total) ← perform (range_loop (Z.to_nat num) 0 0 save);
      mret (MkRangeSet (Z.quot num 2) total pos)
  end.

(** The pairs of a range set. *)
Fixpoint pairs (n : nat) (pos : list Z) : list (Z * Z) :=
  match n, pos with
  | S n', a :: b :: pos' => (a, b) :: pairs n' pos'
  | _, _ => []
  end.
Definition rs_pairs (r : RangeSet) : list (Z * Z) := pairs (Z.to_nat (rs_count r)) (rs_pos r).

Definition range_overlaps (r1 r2 : RangeSet) : bool :=
  existsb (fun '(a, b) => existsb (fun '(c, d) => negb ((b <=? c) || (d <=? a))) (rs_pairs r2)) (rs_pairs r1).

(** [(pos[i*2+1] - pos[i*2]) * BLOCKSIZE], in int, as a size_t *)
Definition range_bytes (a b : Z) : Z := u64 (i32 (i32 (b - a) * BLOCKSIZE)).

Section Update.
Context (bz_decompress : bytes -> bytes * bz_end) (z_inflate : bytes -> bytes * bool).
Context (z_deflate : deflate_params -> bytes -> Z -> option (list bytes)).
(** What [malloc] gives to the patcher; what fresh memory holds; what discarded
    blocks read as; whether the target is a block device; the context on the
    stack of [SHA_hash]. *)
Context (malloc : Z -> option bytes) (junk blank : bytes) (is_blk : bool) (ctx0 : HASH_CTX).

(** ** Buffers *)
Definition uninit (size : Z) : bytes := take (Z.to_nat size) (junk ++ replicate (Z.to_nat size) 0).

(** [allocate]: a buffer of at least [size] bytes; a null pointer holds none. *)
Definition allocate (size : Z) (buffer : option bytes) : updM (option bytes) :=
  if size <=? Z.of_nat (length (default [] buffer)) then mret buffer else
  ok ← malloc_ok size;
  if (ok : bool) then mret (Some (uninit size)) else gone.

(** ** Blocks *)
Fixpoint read_blocks_loop (ps : list (Z * Z)) (p : Z) (buffer : bytes) : updM (Z * bytes) :=
  match ps with
  | [] => mret (0, buffer)
  | (a, b) :: ps' =>
      ok ← check_lseek (a * BLOCKSIZE);
      if negb (ok : bool) then mret (-1, buffer) else
      let size := range_bytes a b in
      perform (sub_bytes buffer p size) ≫= fun _ =>
      r ← read_all size;
      match r with
      | None => mret (-1, buffer)
      | Some data =>
          buffer ← perform (put_bytes buffer p data);
          read_blocks_loop ps' (p + size) buffer
      end
  end.

Definition ReadBlocks (src : RangeSet) (buffer : option bytes) : updM (Z * option bytes) :=
  match buffer with
  | None => mret (-1, None)
  | Some b => '(rc, b) ← read_blocks_loop (rs_pairs src) 0 b; mret (rc, Some b)
  end.

Fixpoint write_blocks_loop (ps : list (Z * Z)) (p : Z) (buffer : bytes) : updM Z :=
  match ps with
  | [] => mret 0
  | (a, b) :: ps' =>
      ok ← check_lseek (a * BLOCKSIZE);
      if negb (ok : bool) then mret (-1) else
      let size := range_bytes a b in
      data ← perform (sub_bytes buffer p size);
      ok ← write_all data;
      if negb (ok : bool) then mret (-1) else write_blocks_loop ps' (p + size) buffer
  end.

Definition WriteBlocks (tgt : RangeSet) (buffer : option bytes) : updM Z :=
  match buffer with
  | None => mret (-1)
  | Some b => write_blocks_loop (rs_pairs tgt) 0 b
  end.

(** [PrintSha1] of install.c *)
Fixpoint PrintSha1 (digest : bytes) : bytes :=
  match digest with
  | [] => []
  | x :: digest' => hex_digit (Z.land (Z.shiftr x 4) 0xf) :: hex_digit (Z.land x 0xf) :: PrintSha1 digest'
  end.

(** Whether the result is 0. [SHA_hash] takes the length as an int. *)
Definition VerifyBlocks (expected : bytes) (buffer : option bytes) (blocks : Z) : updM bool :=
  match buffer with
  | None => mret false
  | Some b =>
      data ← perform (sub_bytes b 0 (i32 (blocks * BLOCKSIZE)));
      digest ← perform (SHA_hash ctx0 data);
      compared data ≫= fun _ =>
      mret (bool_decide (expected = PrintSha1 digest))
  end.

(** [memmove(dest + (pos * BLOCKSIZE), source + (start * BLOCKSIZE), blocks * BLOCKSIZE)]
    for every range, the last one first; [None] for a source that is the
    destination. *)
Fixpoint move_ranges (ps : list (Z * Z)) (start : Z) (dest : bytes) (source : option bytes) : outcome bytes :=
  match ps with
  | [] => Ret dest
  | (a, b) :: ps' =>
      let blocks := i32 (b - a) in
      let start := i32 (start - blocks) in
      data ← sub_bytes (default dest source) (i32 (start * BLOCKSIZE)) (u64 (i32 (blocks * BLOCKSIZE)));
      dest ← put_bytes dest (i32 (a * BLOCKSIZE)) data;
      move_ranges ps' start dest source
  end.

Definition MoveRange (dest : option bytes) (locs : RangeSet) (source : option bytes) : outcome (option bytes) :=
  match rs_pairs locs, dest with
  | [], _ => Ret dest
  | _, None => Fault NullDeref
  | ps, Some d => d ← move_ranges (reverse ps) (rs_size locs) d source; Ret (Some d)
  end.

(** ** Stash files

    A file of the stash directory is named by its [id]; [None] for [base] when
    there is no directory. The allocation of a name can fail. *)
Definition partial (id : bytes) : bytes := id ++ str ".partial".

Definition GetStashFileName : updM bool := syscall.

(** [CacheSizeCheck] of applypatch.c: whether there is room is up to the
    script. *)
Definition CacheSizeCheck (size : Z) : updM bool := syscall.

Definition DeleteFile (name : bytes) : updM unit := unlink name ≫= fun _ => mret tt.

(** [EnumerateStash]: [f] for every file, in the order of the directory. *)
Fixpoint each_file {A} (f : bytes -> A -> updM A) (names : list bytes) (a : A) : updM A :=
  match names with
  | [] => mret a
  | name :: names' =>
      ok ← syscall;
      a ← (if (ok : bool) then f name a else mret a);
      each_file f names' a
  end.

Definition EnumerateStash {A} (f : bytes -> A -> updM A) (a : A) : updM A :=
  ok ← syscall;
  w ← look;
  match w_stash w with
  | Some s => if (ok : bool) then each_file f (map_to_list s).*1 a else mret a
  | None => mret a
  end.

(** [strstr(s, sub) != NULL] *)
Fixpoint strstr (sub s : bytes) : bool :=
  bool_decide (take (length sub) s = sub) || match s with [] => false | _ :: s' => strstr sub s' end.

Definition DeletePartial (name : bytes) : updM unit :=
  if strstr (str ".partial") name then DeleteFile name else mret tt.

(** The sum of the sizes is an int. *)
Definition UpdateFileSize (name : bytes) (size : Z) : updM Z :=
  st ← stat_file name;
  mret (match st with Some d => i32 (size + Z.of_nat (length d)) | None => size end).

Definition DeleteStash (base : option bytes) : updM unit :=
  match base with
  | None => mret tt
  | Some _ =>
      ok ← GetStashFileName;
      if negb (ok : bool) then mret tt else
      EnumerateStash (fun name _ => DeleteFile name) tt ≫= fun _ =>
      rmdir ≫= fun _ => mret tt
  end.

(** The result, the number of blocks and the buffer. *)
Definition LoadStash (base id : option bytes) (verify : bool) (buffer : option bytes) : updM (Z * Z * option bytes) :=
  match base, id with
  | Some _, Some id =>
      ok ← GetStashFileName;
      if negb (ok : bool) then mret (-1, 0, buffer) else
      st ← stat_file id;
      match st with
      | None => mret (-1, 0, buffer)
      | Some data =>
          let size := Z.of_nat (length data) in
          if negb (size mod BLOCKSIZE =? 0) then mret (-1, 0, buffer) else
          ok ← syscall;
          if negb (ok : bool) then mret (-1, 0, buffer) else
          buffer ← allocate size buffer;
          ok ← read_file data;
          if negb (ok : bool) then mret (-1, 0, buffer) else
          let buffer := (fun b => data ++ drop (length data) b) <$> buffer in
          let blocks := i32 (size / BLOCKSIZE) in
          same ← (if verify then VerifyBlocks id buffer blocks else mret true);
          if (same : bool) then mret (0, blocks, buffer)
          else DeleteFile id ≫= fun _ => mret (-1, blocks, buffer)
      end
  | _, _ => mret (-1, 0, buffer)
  end.

(** The result, and whether the file was there already; [exists_] when the
    caller asks for it. *)
Definition WriteStash (base : option bytes) (id : bytes) (blocks : Z) (buffer : option bytes) (checkspace exists_ : bool) : updM (Z * bool) :=
  match base, buffer with
  | Some _, Some b =>
      room ← (if checkspace then CacheSizeCheck (i32 (blocks * BLOCKSIZE)) else mret true);
      if negb (room : bool) then mret (-1, false) else
      ok1 ← GetStashFileName;
      ok2 ← GetStashFileName;
      if negb (ok1 && ok2) then mret (-1, false) else
      st ← (if exists_ then stat_file id else mret None);
      match st with
      | Some _ => mret (0, true)
      | None =>
          ok ← change (<[partial id := []]>);
          if negb (ok : bool) then mret (-1, false) else
          data ← perform (sub_bytes b 0 (u64 (i32 (blocks * BLOCKSIZE))));
          ok ← write_file (partial id) data;
          if negb (ok : bool) then mret (-1, false) else
          ok ← syscall;
          if negb (ok : bool) then mret (-1, false) else
          ok ← rename_sync (partial id) id;
          mret (if (ok : bool) then 0 else -1, false)
      end
  | _, _ => mret (-1, false)
  end.

(** -1, or 1 when the directory was made, else 0; and its base name. *)
Definition CreateStash (maxblocks : Z) (blockdev : bytes) : updM (Z * option bytes) :=
  digest ← perform (SHA_hash ctx0 blockdev);
  let base := PrintSha1 digest in
  ok ← GetStashFileName;
  if negb (ok : bool) then mret (-1, Some base) else
  ok ← syscall;
  if negb (ok : bool) then mret (-1, Some base) else
  w ← look;
  match w_stash w with
  | None =>
      ok ← mkdir;
      if negb (ok : bool) then mret (-1, Some base) else
      room ← CacheSizeCheck (i32 (maxblocks * BLOCKSIZE));
      mret (if (room : bool) then 1 else -1, Some base)
  | Some _ =>
      EnumerateStash (fun name _ => DeletePartial name) tt ≫= fun _ =>
      size ← EnumerateStash UpdateFileSize 0;
      let size := i32 (i32 (maxblocks * BLOCKSIZE) - size) in
      if 0 <? size then
        room ← CacheSizeCheck size;
        mret (if (room : bool) then 0 else -1, Some base)
      else mret (0, Some base)
  end.

Definition FreeStash (base id : option bytes) : updM Z :=
  match base, id with
  | Some _, Some id =>
      ok ← GetStashFileName;
      if negb (ok : bool) then mret (-1) else DeleteFile id ≫= fun _ => mret 0
  | _, _ => mret (-1)
  end.

(** ** Parameters of the commands

    [nti_data] is what the thread that unpacks the new data still has to hand
    over, in the pieces it does; [patch_start] is the patch data. *)
Record CommandParameters := Params {
  cmdname : bytes;
  cpos : option bytes;
  freestash : option bytes;
  stashbase : option bytes;
  canwrite : bool;
  createdstash : bool;
  foundwrites : bool;
  isunresumable : bool;
  version : Z;
  written : Z;
  nti_data : list bytes;
  buffer : option bytes;
  patch_start : bytes
}.

Definition set_cpos (c : option bytes) (p : CommandParameters) : CommandParameters :=
  Params (cmdname p) c (freestash p) (stashbase p) (canwrite p) (createdstash p) (foundwrites p) (isunresumable p) (version p) (written p) (nti_data p) (buffer p) (patch_start p).
Definition set_freestash (f : option bytes) (p : CommandParameters) : CommandParameters :=
  Params (cmdname p) (cpos p) f (stashbase p) (canwrite p) (createdstash p) (foundwrites p) (isunresumable p) (version p) (written p) (nti_data p) (buffer p) (patch_start p).
Definition set_foundwrites (p : CommandParameters) : CommandParameters :=
  Params (cmdname p) (cpos p) (freestash p) (stashbase p) (canwrite p) (createdstash p) true (isunresumable p) (version p) (written p) (nti_data p) (buffer p) (patch_start p).
Definition set_unresumable (p : CommandParameters) : CommandParameters :=
  Params (cmdname p) (cpos p) (freestash p) (stashbase p) (canwrite p) (createdstash p) (foundwrites p) true (version p) (written p) (nti_data p) (buffer p) (patch_start p).
Definition add_written (n : Z) (p : CommandParameters) : CommandParameters :=
  Params (cmdname p) (cpos p) (freestash p) (stashbase p) (canwrite p) (createdstash p) (foundwrites p) (isunresumable p) (version p) (i32 (written p + n)) (nti_data p) (buffer p) (patch_start p).
Definition set_nti (d : list bytes) (p : CommandParameters) : CommandParameters :=
  Params (cmdname p) (cpos p) (freestash p) (stashbase p) (canwrite p) (createdstash p) (foundwrites p) (isunresumable p) (version p) (written p) d (buffer p) (patch_start p).
Definition set_buffer (b : option bytes) (p : CommandParameters) : CommandParameters :=
  Params (cmdname p) (cpos p) (freestash p) (stashbase p) (canwrite p) (createdstash p) (foundwrites p) (isunresumable p) (version p) (written p) (nti_data p) b (patch_start p).

(** [strtok_r(NULL, " ", &params->cpos)] *)
Definition next_word (p : CommandParameters) : option bytes * CommandParameters :=
  let '(w, c) := strtok_r 32 (cpos p) in (w, set_cpos c p).

(** ** Loading the source *)

(** The result, the target (if [want]ed) and the number of source blocks. *)
Definition LoadSrcTgtVersion1 (want : bool) (p : CommandParameters) : updM (Z * option RangeSet * Z * CommandParameters) :=
  let '(word, p) := next_word p in
  src ← parse_range word;
  '(tgt, p) ← (if want then let '(word, p) := next_word p in t ← parse_range word; mret (Some t, p) else mret (None, p));
  b ← allocate (u64 (i32 (rs_size src * BLOCKSIZE))) (buffer p);
  '(rc, b) ← ReadBlocks src b;
  mret (rc, tgt, rs_size src, set_buffer b p).

(** [id:ranges] for every further word; a stash that cannot be loaded is
    passed over. Every turn takes a word. *)
Fixpoint stash_loop (fuel : nat) (stash : option bytes) (p : CommandParameters) : updM CommandParameters :=
  match fuel with
  | O => perform Diverge
  | S fuel' =>
      let '(word, p) := next_word p in
      match word with
      | None => mret p
      | Some word =>
          let '(id, colonsave) := strtok_r 58 (Some word) in
          '(rc, _, stash) ← LoadStash (stashbase p) id false stash;
          if rc =? -1 then stash_loop fuel' stash p else
          let '(ranges, _) := strtok_r 58 colonsave in
          locs ← parse_range ranges;
          b ← perform (MoveRange (buffer p) locs (Some (default [] stash)));
          stash_loop fuel' stash (set_buffer b p)
      end
  end.

(** The result, the target, the number of source blocks, and whether source and
    target overlap. *)
Definition LoadSrcTgtVersion2 (p : CommandParameters) : updM (Z * RangeSet * Z * bool * CommandParameters) :=
  let '(word, p) := next_word p in
  tgt ← parse_range word;
  let '(word, p) := next_word p in
  v ← perform (strtol_ptr word);
  let src_blocks := i32 v in
  b ← allocate (u64 (i32 (src_blocks * BLOCKSIZE))) (buffer p);
  let p := set_buffer b p in
  let '(word, p) := next_word p in
  match word with
  | None => perform (Fault NullDeref)
  | Some w =>
      let stashes p overlap := p ← stash_loop (S (length (default [] (cpos p)))) None p; mret (0, tgt, src_blocks, overlap, p) in
      if bool_decide (w = str "-") then stashes p false else
      src ← parse_range (Some w);
      '(rc, b) ← ReadBlocks src (buffer p);
      let p := set_buffer b p in
      let overlap := range_overlaps src tgt in
      if rc =? -1 then mret (-1, tgt, src_blocks, overlap, p) else
      let '(word, p) := next_word p in
      match word with
      | None => mret (0, tgt, src_blocks, overlap, p)
      | Some _ =>
          locs ← parse_range word;
          b ← perform (MoveRange (buffer p) locs None);
          stashes (set_buffer b p) overlap
      end
  end.

(** The checks of [LoadSrcTgtVersion3], with the digests of source and target.
    -1: the command cannot be performed; 1: it has been performed already; 0:
    the source blocks are in the buffer. *)
Definition load_checked (srchash tgthash : bytes) (p : CommandParameters) : updM (Z * option RangeSet * Z * CommandParameters) :=
  '(rc, tgt, src_blocks, overlap, p) ← LoadSrcTgtVersion2 p;
  if rc =? -1 then mret (-1, Some tgt, src_blocks, p) else
  let size := u64 (i32 (rs_size tgt * BLOCKSIZE)) in
  ok ← malloc_ok size;
  if negb (ok : bool) then mret (-1, Some tgt, src_blocks, p) else
  '(rc, tgtbuffer) ← ReadBlocks tgt (Some (uninit size));
  if rc =? -1 then mret (-1, Some tgt, src_blocks, p) else
  done ← VerifyBlocks tgthash tgtbuffer (rs_size tgt);
  if (done : bool) then mret (1, Some tgt, src_blocks, p) else
  same ← VerifyBlocks srchash (buffer p) src_blocks;
  if (same : bool) then
    if (overlap : bool) then
      '(rc, stash_exists) ← WriteStash (stashbase p) srchash src_blocks (buffer p) true true;
      if negb (rc =? 0) then mret (-1, Some tgt, src_blocks, p)
      else mret (0, Some tgt, src_blocks, if (stash_exists : bool) then p else set_freestash (Some srchash) p)
    else mret (0, Some tgt, src_blocks, p)
  else
    '(rc, p) ← (if (overlap : bool) then
                  '(rc, _, b) ← LoadStash (stashbase p) (Some srchash) true (buffer p); mret (rc, set_buffer b p)
                else mret (-1, p));
    if rc =? 0 then mret (0, Some tgt, src_blocks, p)
    else mret (-1, Some tgt, src_blocks, set_unresumable p).

Definition LoadSrcTgtVersion3 (onehash : bool) (p : CommandParameters) : updM (Z * option RangeSet * Z * CommandParameters) :=
  let '(srchash, p) := next_word p in
  match srchash with
  | None => mret (-1, None, 0, p)
  | Some srchash =>
      let '(tgthash, p) := if onehash then (Some srchash, p) else next_word p in
      match tgthash with
      | None => mret (-1, None, 0, p)
      | Some tgthash => load_checked srchash tgthash p
      end
  end.

Definition load_source (onehash : bool) (p : CommandParameters) : updM (Z * option RangeSet * Z * CommandParameters) :=
  if version p =? 1 then LoadSrcTgtVersion1 true p
  else if version p =? 2 then '(rc, tgt, blocks, _, p) ← LoadSrcTgtVersion2 p; mret (rc, Some tgt, blocks, p)
  else LoadSrcTgtVersion3 onehash p.

(** ** Writing to ranges *)
Record RangeSinkState := Rss {
  rss_tgt : RangeSet;
  p_block : Z;
  p_remain : Z
}.

(** The target from its first range on; [pos[1] - pos[0]] is read first. *)
Definition rss_start (tgt : RangeSet) : updM (option RangeSinkState) :=
  a ← perform (rd_mem (rs_pos tgt) 0);
  b ← perform (rd_mem (rs_pos tgt) 1);
  ok ← check_lseek (a * BLOCKSIZE);
  mret (if (ok : bool) then Some (Rss tgt 0 (range_bytes a b)) else None).

(** Every turn writes a byte or goes on to the next range. *)
Fixpoint range_sink_loop (fuel : nat) (data : bytes) (rss : RangeSinkState) (written : Z) : updM (Z * RangeSinkState) :=
  if (length data =? 0)%nat then mret (written, rss) else
  match fuel with
  | O => perform Diverge
  | S fuel' =>
      let write_now := Z.min (Z.of_nat (length data)) (p_remain rss) in
      ok ← write_all (take (Z.to_nat write_now) data);
      if negb (ok : bool) then mret (written, rss) else
      let data := drop (Z.to_nat write_now) data in
      let remain := p_remain rss - write_now in
      let written := written + write_now in
      if negb (remain =? 0) then range_sink_loop fuel' data (Rss (rss_tgt rss) (p_block rss) remain) written else
      let block := p_block rss + 1 in
      if block <? rs_count (rss_tgt rss) then
        a ← perform (rd_mem (rs_pos (rss_tgt rss)) (block * 2));
        b ← perform (rd_mem (rs_pos (rss_tgt rss)) (block * 2 + 1));
        let rss := Rss (rss_tgt rss) block (range_bytes a b) in
        ok ← check_lseek (a * BLOCKSIZE);
        if negb (ok : bool) then mret (written, rss) else range_sink_loop fuel' data rss written
      else mret (written, Rss (rss_tgt rss) block 0)
  end.

Definition RangeSinkWrite (data : bytes) (rss : RangeSinkState) : updM (Z * RangeSinkState) :=
  if p_remain rss <=? 0 then mret (0, rss)
  else range_sink_loop (length data + S (Z.to_nat (rs_count (rss_tgt rss)))) data rss 0.

(** The sink of a patcher: it keeps the state of the target. *)
Definition sinkM (A : Type) : Type := RangeSinkState -> updM (A * RangeSinkState).
#[local] Instance sinkM_ret : MRet sinkM := fun A a s => mret (a, s).
#[local] Instance sinkM_bind : MBind sinkM := fun A B k m s => '(a, s) ← m s; k a s.
#[local] Instance sinkM_effects : Effects sinkM := fun A m s => a ← perform m; mret (a, s).

(** ** New data

    [receive_new_data] for the pieces that are handed over until the target is
    full, while the main thread waits. When the data ends before, it waits for
    ever. Every turn but for failing writes takes data. *)
Fixpoint receive_loop (fuel : nat) (pieces : list bytes) (rss : RangeSinkState) : updM (list bytes) :=
  match fuel with
  | O => perform Diverge
  | S fuel' =>
      match pieces with
      | [] => perform Diverge
      | data :: pieces' =>
          if (length data =? 0)%nat then receive_loop fuel' pieces' rss else
          '(written, rss) ← RangeSinkWrite data rss;
          let rest := drop (Z.to_nat written) data :: pieces' in
          if p_block rss =? rs_count (rss_tgt rss) then mret rest else receive_loop fuel' rest rss
      end
  end.

Definition receive_new_data (pieces : list bytes) (rss : RangeSinkState) : updM (list bytes) :=
  w ← look;
  receive_loop (S (length (concat pieces) + length pieces + length (w_events w))) pieces rss.

(** ** Commands

    Each returns 0, or -1 to end the update. *)
Definition free_overlap (p : CommandParameters) : updM CommandParameters :=
  match freestash p with
  | Some id => FreeStash (stashbase p) (Some id) ≫= fun _ => mret (set_freestash None p)
  | None => mret p
  end.

Definition PerformCommandMove (p : CommandParameters) : updM (Z * CommandParameters) :=
  '(status, tgt, blocks, p) ← load_source true p;
  if status =? -1 then mret (-1, p) else
  let p := if status =? 0 then set_foundwrites p else p in
  match tgt with
  | None => perform (Fault NullDeref)
  | Some tgt =>
      rc ← (if canwrite p && (status =? 0) then WriteBlocks tgt (buffer p) else mret 0);
      if rc =? -1 then mret (-1, p) else
      p ← free_overlap p;
      mret (0, add_written (rs_size tgt) p)
  end.

Definition PerformCommandStash (p : CommandParameters) : updM (Z * CommandParameters) :=
  let usehash := 3 <=? version p in
  let '(id, p) := next_word p in
  match id with
  | None => mret (-1, p)
  | Some id =>
      '(rc, p) ← (if usehash then '(rc, _, b) ← LoadStash (stashbase p) (Some id) true (buffer p); mret (rc, set_buffer b p) else mret (-1, p));
      if rc =? 0 then mret (0, p) else
      '(rc, _, blocks, p) ← LoadSrcTgtVersion1 false p;
      if rc =? -1 then mret (-1, p) else
      same ← (if usehash then VerifyBlocks id (buffer p) blocks else mret true);
      if negb (same : bool) then mret (0, p) else
      '(rc, _) ← WriteStash (stashbase p) id blocks (buffer p) false false;
      mret (rc, p)
  end.

Definition PerformCommandFree (p : CommandParameters) : updM (Z * CommandParameters) :=
  if createdstash p || canwrite p then rc ← FreeStash (stashbase p) (cpos p); mret (rc, p) else mret (0, p).

(** [n] blocks of zeroes *)
Fixpoint zero_blocks (n : nat) (block : bytes) : updM bool :=
  match n with
  | O => mret true
  | S n' => ok ← write_all block; if (ok : bool) then zero_blocks n' block else mret false
  end.

Fixpoint zero_ranges (ps : list (Z * Z)) (block : bytes) : updM bool :=
  match ps with
  | [] => mret true
  | (a, b) :: ps' =>
      ok ← check_lseek (a * BLOCKSIZE);
      if negb (ok : bool) then mret false else
      ok ← zero_blocks (Z.to_nat (b - a)) block;
      if (ok : bool) then zero_ranges ps' block else mret false
  end.

Definition PerformCommandZero (p : CommandParameters) : updM (Z * CommandParameters) :=
  let '(range, p) := next_word p in
  match range with
  | None => mret (-1, p)
  | Some _ =>
      tgt ← parse_range range;
      b ← allocate BLOCKSIZE (buffer p);
      let zeroes := replicate (Z.to_nat BLOCKSIZE) 0 in
      let p := set_buffer ((fun b => zeroes ++ drop (Z.to_nat BLOCKSIZE) b) <$> b) p in
      ok ← (if canwrite p then zero_ranges (rs_pairs tgt) zeroes else mret true);
      if negb (ok : bool) then mret (-1, p) else
      mret (0, if bool_decide (head (cmdname p) = Some 122) then add_written (rs_size tgt) p else p)
  end.

Definition PerformCommandNew (p : CommandParameters) : updM (Z * CommandParameters) :=
  let '(range, p) := next_word p in
  match range with
  | None => mret (-1, p)
  | Some _ =>
      tgt ← parse_range range;
      if canwrite p then
        rss ← rss_start tgt;
        match rss with
        | None => mret (-1, p)
        | Some rss => rest ← receive_new_data (nti_data p) rss; mret (0, add_written (rs_size tgt) (set_nti rest p))
        end
      else mret (0, add_written (rs_size tgt) p)
  end.

(** The patch, whose failure is not noticed. *)
Definition patch_target (p : CommandParameters) (offset len blocks : Z) (tgt : RangeSet) : updM bool :=
  patch ← perform (sub_bytes (patch_start p) offset len);
  rss ← rss_start tgt;
  match rss with
  | None => mret false
  | Some rss =>
      src ← perform (sub_bytes (default [] (buffer p)) 0 (i32 (blocks * BLOCKSIZE)));
      (if bool_decide (head (cmdname p) = Some 105)
       then ApplyImagePatch bz_decompress z_inflate z_deflate (M := sinkM) malloc src patch RangeSinkWrite None None rss
       else ApplyBSDiffPatch bz_decompress (M := sinkM) malloc src patch 0 RangeSinkWrite None rss) ≫= fun _ => mret true
  end.

(** [strdup(params->cpos)] comes first. *)
Definition PerformCommandDiff (p : CommandParameters) : updM (Z * CommandParameters) :=
  if bool_decide (cpos p = None) then perform (Fault NullDeref) else
  let '(value, p) := next_word p in
  match value with
  | None => mret (-1, p)
  | Some _ =>
      offset ← perform (strtoul_ptr value);
      let '(value, p) := next_word p in
      match value with
      | None => mret (-1, p)
      | Some _ =>
          len ← perform (strtoul_ptr value);
          '(status, tgt, blocks, p) ← load_source false p;
          if status =? -1 then mret (-1, p) else
          let p := if status =? 0 then set_foundwrites p else p in
          match tgt with
          | None => perform (Fault NullDeref)
          | Some tgt =>
              ok ← (if canwrite p && (status =? 0) then patch_target p offset len blocks tgt else mret true);
              if negb (ok : bool) then mret (-1, p) else
              p ← free_overlap p;
              mret (0, add_written (rs_size tgt) p)
          end
      end
  end.

Fixpoint erase_loop (ps : list (Z * Z)) : updM bool :=
  match ps with
  | [] => mret true
  | (a, b) :: ps' =>
      ok ← blkdiscard blank (u64 (a * BLOCKSIZE)) (u64 (i32 (b - a) * BLOCKSIZE));
      if (ok : bool) then erase_loop ps' else mret false
  end.

Definition PerformCommandErase (p : CommandParameters) : updM (Z * CommandParameters) :=
  ok ← syscall;
  if negb (ok && is_blk) then mret (-1, p) else
  let '(range, p) := next_word p in
  match range with
  | None => mret (-1, p)
  | Some _ =>
      tgt ← parse_range range;
      ok ← (if canwrite p then erase_loop (rs_pairs tgt) else mret true);
      mret (if (ok : bool) then 0 else -1, p)
  end.

(** ** The transfer list *)
Definition Command : Type := bytes * option (CommandParameters -> updM (Z * CommandParameters)).

(** [mzHashTableLookup] with the names of the commands *)
Definition find_command (commands : list Command) (name : bytes) : option Command :=
  List.find (fun c => bool_decide (c.1 = name)) commands.

(** The lines after the head of the list; every turn takes one. The line is the
    text that [strtok_r] left with its first word cut off. *)
Fixpoint command_loop (fuel : nat) (commands : list Command) (linesave : option bytes) (p : CommandParameters) : updM (Z * CommandParameters) :=
  match fuel with
  | O => perform Diverge
  | S fuel' =>
      let '(line, linesave) := strtok_r 10 linesave in
      match line with
      | None => mret (0, p)
      | Some line =>
          let '(name, rest) := strtok_r 32 (Some line) in
          match name with
          | None => mret (-1, set_cpos rest p)
          | Some name =>
              let p := Params name rest (freestash p) (stashbase p) (canwrite p) (createdstash p) (foundwrites p) (isunresumable p) (version p) (written p) (nti_data p) (buffer p) (patch_start p) in
              match find_command commands name with
              | None => mret (-1, p)
              | Some (_, None) => command_loop fuel' commands linesave p
              | Some (_, Some f) =>
                  '(rc, p) ← f p;
                  if rc =? -1 then mret (-1, p) else command_loop fuel' commands linesave p
              end
          end
      end
  end.

(** What the script function is given: the device, the transfer list, the new
    data (in the pieces the archive library unpacks) and the patch data; [None]
    for a member the package does not have. *)
Record update_args := UpdateArgs {
  blockdev_filename : bytes;
  transfer_list_value : bytes;
  new_entry : option (list bytes);
  patch_entry : option bytes
}.

(** What follows the head of the list: all commands, and waiting for the thread
    that unpacks the new data. *)
Definition run_commands (commands : list Command) (linesave : option bytes) (p : CommandParameters) : updM (Z * CommandParameters) :=
  '(rc, p) ← command_loop (S (length (default [] linesave))) commands linesave p;
  if negb (rc =? 0) then mret (rc, p) else
  if canwrite p then
    if existsb (fun d => negb (length d =? 0)%nat) (nti_data p) then perform Diverge
    else DeleteStash (stashbase p) ≫= fun _ => mret (0, p)
  else mret (0, p).

(** The head: version, number of blocks, and the needs of the stash. *)
Definition read_list (commands : list Command) (args : update_args) (dryrun : bool) (new_data : list bytes) (patch : bytes) : updM (Z * CommandParameters) :=
  let start stashbase created version := Params [] None None stashbase (negb dryrun) created false false version 0 new_data None patch in
  let p0 := start None false 0 in
  let '(line, linesave) := strtok_r 10 (Some (cstring (transfer_list_value args))) in
  v ← perform (strtol_ptr line);
  let version := i32 v in
  if (version <? 1) || (3 <? version) then mret (-1, p0) else
  let '(line, linesave) := strtok_r 10 linesave in
  v ← perform (strtol_ptr line);
  let total_blocks := i32 v in
  if total_blocks <? 0 then mret (-1, p0) else
  if total_blocks =? 0 then mret (0, p0) else
  if version <? 2 then run_commands commands linesave (start None false version) else
  let '(_, linesave) := strtok_r 10 linesave in
  let '(line, linesave) := strtok_r 10 linesave in
  v ← perform (strtol_ptr line);
  let stash_max_blocks := i32 v in
  if stash_max_blocks <? 0 then mret (-1, p0) else
  '(res, base) ← CreateStash stash_max_blocks (blockdev_filename args);
  if res =? -1 then mret (-1, start base false version) else
  run_commands commands linesave (start base (res =? 1) version).

(** Whether the result is ["t"]. *)
Definition PerformBlockImageUpdate (commands : list Command) (args : update_args) (dryrun : bool) : updM bool :=
  match patch_entry args, new_entry args with
  | Some patch, Some new_data =>
      ok ← syscall;
      if negb (ok : bool) then mret false else
      ok ← (if dryrun then mret true else syscall);
      if negb (ok : bool) then mret false else
      ok ← malloc_ok (Z.of_nat (length (transfer_list_value args)) + 1);
      if negb (ok : bool) then mret false else
      '(rc, p) ← read_list commands args dryrun new_data patch;
      syscall ≫= fun _ =>
      (if isunresumable p || (negb (canwrite p) && createdstash p) then DeleteStash (stashbase p) else mret tt) ≫= fun _ =>
      mret (rc =? 0)
  | _, _ => mret false
  end.

Definition verify_commands : list Command :=
  [(str "bsdiff", Some PerformCommandDiff); (str "erase", None); (str "free", Some PerformCommandFree); (str "imgdiff", Some PerformCommandDiff);
   (str "move", Some PerformCommandMove); (str "new", None); (str "stash", Some PerformCommandStash); (str "zero", None)].

Definition BlockImageVerifyFn (args : update_args) : updM bool := PerformBlockImageUpdate verify_commands args true.

Definition update_commands : list Command :=
  [(str "bsdiff", Some PerformCommandDiff); (str "erase", Some PerformCommandErase); (str "free", Some PerformCommandFree); (str "imgdiff", Some PerformCommandDiff);
   (str "move", Some PerformCommandMove); (str "new", Some PerformCommandNew); (str "stash", Some PerformCommandStash); (str "zero", Some PerformCommandZero)].

Definition BlockImageUpdateFn (args : update_args) : updM bool := PerformBlockImageUpdate update_commands args false.

(** ** range_sha1 *)
Fixpoint sha_blocks (n : nat) (ctx : HASH_CTX) : updM (option HASH_CTX) :=
  match n with
  | O => mret (Some ctx)
  | S n' =>
      r ← read_all BLOCKSIZE;
      match r with
      | None => mret None
      | Some block => sha_blocks n' (SHA_update ctx block)
      end
  end.

Fixpoint sha_ranges (ps : list (Z * Z)) (ctx : HASH_CTX) : updM (option HASH_CTX) :=
  match ps with
  | [] => mret (Some ctx)
  | (a, b) :: ps' =>
      ok ← check_lseek (a * BLOCKSIZE);
      if negb (ok : bool) then mret None else
      r ← sha_blocks (Z.to_nat (b - a)) ctx;
      match r with
      | None => mret None
      | Some ctx => sha_ranges ps' ctx
      end
  end.

(** The digest in hexadecimal, or the empty string. *)
Definition RangeSha1Fn (ranges : bytes) : updM bytes :=
  ok ← syscall;
  if negb (ok : bool) then mret [] else
  rs ← parse_range (Some ranges);
  r ← sha_ranges (rs_pairs rs) (SHA_init ctx0);
  match r with
  | None => mret []
  | Some ctx =>
      ctx ← perform (SHA_final ctx);
      mret (PrintSha1 (take (Z.to_nat SHA_DIGEST_SIZE) (ctx_buf ctx)))
  end.
End Update.
