(* ===== verification/BlockRange.v ===== *)
(** * Reading and writing sets of ranges

    What a device holds at a list of byte ranges, and the device after they are
    written, in full or in part. *)

From S2P Require Import Prelude.
From S2P Require Import BlockDev.

Abbreviation span := (Z * Z)%type.

(** Increasing ranges that do not overlap, between [lo] and [hi]. *)
Fixpoint spans_ok (lo hi : Z) (sp : list span) : Prop :=
  match sp with
  | [] => True
  | (x, y) :: sp' => lo <= x < y /\ y <= hi /\ spans_ok y hi sp'
  end.

Fixpoint total (sp : list span) : Z :=
  match sp with
  | [] => 0
  | (x, y) :: sp' => (y - x) + total sp'
  end.

Definition covers (sp : list span) (i : nat) : Prop := Exists (fun '(x, y) => x <= Z.of_nat i < y) sp.

Fixpoint gather (d : bytes) (sp : list span) : bytes :=
  match sp with
  | [] => []
  | (x, y) :: sp' => segment d x (Z.to_nat (y - x)) ++ gather d sp'
  end.

(** The data goes to the ranges in their order, as far as it reaches. *)
Fixpoint scatter (d : bytes) (sp : list span) (data : bytes) : bytes :=
  match sp with
  | [] => d
  | (x, y) :: sp' => let n := Z.to_nat (y - x) in scatter (store d x (take n data)) sp' (drop n data)
  end.

(** What is left of the ranges behind their first [n] bytes. *)
Fixpoint beyond (n : Z) (sp : list span) : list span :=
  match sp with
  | [] => []
  | (x, y) :: sp' => if n <? y - x then (x + n, y) :: sp' else beyond (n - (y - x)) sp'
  end.

(** Every byte is the one of [d1] or the one of [d2]. *)
Definition between (d1 d2 d : bytes) : Prop := length d = length d1 /\ forall i : nat, d !! i = d1 !! i \/ d !! i = d2 !! i.

(** ** Single ranges *)
Lemma store_length d pos data : 0 <= pos -> pos + Z.of_nat (length data) <= Z.of_nat (length d) -> length (store d pos data) = length d.
Proof. intros. unfold store. rewrite !length_app, length_take, length_drop. lia. Qed.

Lemma store_in d pos data i : 0 <= pos -> pos + Z.of_nat (length data) <= Z.of_nat (length d) -> pos <= Z.of_nat i < pos + Z.of_nat (length data) ->
  store d pos data !! i = data !! (i - Z.to_nat pos)%nat.
Proof.
  intros. unfold store. rewrite lookup_app_r by (rewrite length_take; lia). rewrite length_take, lookup_app_l by lia. f_equal. lia.
Qed.

Lemma store_out d pos data i : 0 <= pos -> pos + Z.of_nat (length data) <= Z.of_nat (length d) -> ~ pos <= Z.of_nat i < pos + Z.of_nat (length data) ->
  store d pos data !! i = d !! i.
Proof.
  intros. unfold store. destruct (decide (i < Z.to_nat pos)%nat).
  - rewrite lookup_app_l by (rewrite length_take; lia). by rewrite lookup_take_lt by lia.
  - rewrite lookup_app_r by (rewrite length_take; lia). rewrite length_take, lookup_app_r by lia. rewrite lookup_drop. f_equal. lia.
Qed.

Lemma segment_length d x n : 0 <= x -> x + Z.of_nat n <= Z.of_nat (length d) -> length (segment d x n) = n.
Proof. intros. unfold segment. rewrite length_take, length_drop. lia. Qed.

Lemma segment_lookup d x n i : (i < n)%nat -> segment d x n !! i = d !! (Z.to_nat x + i)%nat.
Proof. intros. unfold segment. by rewrite lookup_take_lt, lookup_drop by lia. Qed.

Lemma segment_ext d d' x n : (forall i : nat, (Z.to_nat x <= i < Z.to_nat x + n)%nat -> d !! i = d' !! i) -> segment d x n = segment d' x n.
Proof.
  intros H. apply list_eq. intros i. destruct (decide (i < n)%nat).
  - rewrite !segment_lookup by done. apply H. lia.
  - unfold segment. by rewrite !lookup_take_ge by lia.
Qed.

Lemma mix_length kept : forall new old, length (mix kept new old) = length old.
Proof.
  intros new. revert kept. induction new as [|x new IH]; intros kept [|y old]; simpl; [done.. |]. by rewrite IH.
Qed.

Lemma mix_lookup kept new old i : length new = length old -> mix kept new old !! i = old !! i \/ mix kept new old !! i = new !! i.
Proof.
  revert kept old i. induction new as [|x new IH]; intros kept [|y old] i Hl; try done; [by left |]. cbn [mix].
  destruct i as [|i]; simpl; [destruct (hd false kept); by auto |]. apply IH. simpl in Hl. lia.
Qed.

(** ** Lists of ranges *)
Lemma spans_ok_lo lo lo' hi sp : lo' <= lo -> spans_ok lo hi sp -> spans_ok lo' hi sp.
Proof. destruct sp as [|[x y] sp]; simpl; [done |]. intros. intuition lia. Qed.

Lemma spans_ok_hi lo hi hi' sp : hi <= hi' -> spans_ok lo hi sp -> spans_ok lo hi' sp.
Proof. revert lo. induction sp as [|[x y] sp IH]; simpl; [done |]. intros lo H (? & ? & ?). split_and!; [lia.. |]. by apply IH. Qed.

Lemma covers_cons x y sp i : covers ((x, y) :: sp) i <-> x <= Z.of_nat i < y \/ covers sp i.
Proof. unfold covers. by rewrite Exists_cons. Qed.

Lemma covers_nil i : covers [] i <-> False.
Proof. unfold covers. by rewrite Exists_nil. Qed.

Lemma covers_range lo hi sp i : spans_ok lo hi sp -> covers sp i -> lo <= Z.of_nat i < hi.
Proof.
  revert lo. induction sp as [|[x y] sp IH]; simpl; intros lo H Hc; [by apply covers_nil in Hc |].
  destruct H as (? & ? & H). apply covers_cons in Hc as [|Hc]; [lia |]. specialize (IH _ H Hc). lia.
Qed.

#[global] Instance covers_dec sp i : Decision (covers sp i).
Proof. apply Exists_dec. intros [x y]. apply _. Defined.

Lemma total_nonneg lo hi sp : spans_ok lo hi sp -> 0 <= total sp.
Proof. revert lo. induction sp as [|[x y] sp IH]; simpl; intros lo H; [done |]. destruct H as (? & ? & H). specialize (IH _ H). lia. Qed.

Lemma total_bound lo hi sp : lo <= hi -> spans_ok lo hi sp -> total sp <= hi - lo.
Proof. revert lo. induction sp as [|[x y] sp IH]; simpl; intros lo Hl H; [lia |]. destruct H as (? & ? & H). specialize (IH y ltac:(lia) H). lia. Qed.

Section Device.
Context (n : Z).

Lemma gather_length lo d sp : 0 <= lo -> spans_ok lo n sp -> n <= Z.of_nat (length d) -> Z.of_nat (length (gather d sp)) = total sp.
Proof.
  intros Hlo H Hd. revert lo Hlo H. induction sp as [|[x y] sp IH]; simpl; intros lo Hlo H; [done |].
  destruct H as (? & ? & H). rewrite length_app, segment_length by lia. specialize (IH y ltac:(lia) H). lia.
Qed.

Lemma gather_ext lo d d' sp : 0 <= lo -> spans_ok lo n sp -> (forall i, covers sp i -> d !! i = d' !! i) -> gather d sp = gather d' sp.
Proof.
  intros Hlo H. revert lo Hlo H. induction sp as [|[x y] sp IH]; simpl; intros lo Hlo H E; [done |]. destruct H as (? & ? & H).
  f_equal; [|apply (IH y); [lia | done |]; intros; apply E, covers_cons; by right].
  apply segment_ext. intros i Hi. apply E, covers_cons. left. lia.
Qed.

Lemma scatter_length lo d sp data : 0 <= lo -> spans_ok lo n sp -> n <= Z.of_nat (length d) -> length (scatter d sp data) = length d.
Proof.
  intros Hlo H Hd. revert lo d data Hlo H Hd. induction sp as [|[x y] sp IH]; simpl; intros lo d data Hlo H Hd; [done |].
  destruct H as (? & ? & H). assert (length (store d x (take (Z.to_nat (y - x)) data)) = length d) as E by (apply store_length; rewrite ?length_take; lia).
  rewrite (IH y) by (rewrite ?E; first [lia | done]). done.
Qed.

Lemma scatter_out lo d sp data i : 0 <= lo -> spans_ok lo n sp -> n <= Z.of_nat (length d) -> ~ covers sp i -> scatter d sp data !! i = d !! i.
Proof.
  intros Hlo H Hd. revert lo d data Hlo H Hd. induction sp as [|[x y] sp IH]; simpl; intros lo d data Hlo H Hd Hc; [done |].
  destruct H as (? & ? & H). rewrite covers_cons in Hc. rewrite (IH y).
  - apply store_out; rewrite ?length_take; lia.
  - lia.
  - done.
  - rewrite store_length; rewrite ?length_take; lia.
  - tauto.
Qed.

(** Where the data reaches, the device does not matter. *)
Lemma scatter_in lo d d' sp data i : 0 <= lo -> spans_ok lo n sp -> n <= Z.of_nat (length d) -> n <= Z.of_nat (length d') ->
  total sp <= Z.of_nat (length data) -> covers sp i -> scatter d sp data !! i = scatter d' sp data !! i.
Proof.
  intros Hlo H Hd Hd'. revert lo d d' data Hlo H Hd Hd'. induction sp as [|[x y] sp IH]; cbn [spans_ok total scatter]; intros lo d d' data Hlo H Hd Hd' Ht Hc;
    [by apply covers_nil in Hc |].
  destruct H as (? & ? & H). pose proof (total_nonneg _ _ _ H). set (n' := Z.to_nat (y - x)). assert (Ln : length (take n' data) = n') by (rewrite length_take; lia).
  assert (L1 : length (store d x (take n' data)) = length d) by (apply store_length; lia).
  assert (L2 : length (store d' x (take n' data)) = length d') by (apply store_length; lia).
  destruct (decide (covers sp i)) as [Hc'|Hc'].
  - apply (IH y); [lia | done | lia | lia | rewrite length_drop; lia | done].
  - rewrite !(scatter_out y) by (done || lia). apply covers_cons in Hc as [Hc|]; [|done]. rewrite !store_in by lia. done.
Qed.

Lemma gather_scatter lo d sp data : 0 <= lo -> spans_ok lo n sp -> n <= Z.of_nat (length d) -> Z.of_nat (length data) = total sp ->
  gather (scatter d sp data) sp = data.
Proof.
  intros Hlo H Hd. revert lo d data Hlo H Hd. induction sp as [|[x y] sp IH]; cbn [spans_ok total scatter gather]; intros lo d data Hlo H Hd Ht.
  { destruct data; [done | simpl in Ht; lia]. }
  destruct H as (? & ? & H). pose proof (total_nonneg _ _ _ H). set (n' := Z.to_nat (y - x)). assert (Ln : length (take n' data) = n') by (rewrite length_take; lia).
  assert (L1 : length (store d x (take n' data)) = length d) by (apply store_length; lia).
  rewrite (IH y) by (first [lia | done | rewrite length_drop; lia]).
  trans (take n' data ++ drop n' data); [f_equal | apply take_drop]. apply list_eq. intros i. destruct (decide (i < n')%nat) as [Hi|Hi].
  - rewrite segment_lookup by done. rewrite (scatter_out y) by (first [lia | done | intros Hc; apply (covers_range _ _ _ _ H) in Hc; lia]).
    rewrite store_in by lia. f_equal. lia.
  - rewrite (lookup_ge_None_2 (take _ _)) by lia. unfold segment. by rewrite lookup_take_ge by lia.
Qed.

Lemma scatter_gather lo d sp : 0 <= lo -> spans_ok lo n sp -> n <= Z.of_nat (length d) -> scatter d sp (gather d sp) = d.
Proof.
  intros Hlo H Hd. revert lo Hlo H. induction sp as [|[x y] sp IH]; cbn [spans_ok scatter gather]; intros lo Hlo H; [done |]. destruct H as (? & ? & H).
  assert (Ls : length (segment d x (Z.to_nat (y - x))) = Z.to_nat (y - x)) by (apply segment_length; lia).
  rewrite (take_app_length' _ _ _ (eq_sym Ls)), (drop_app_length' _ _ _ (eq_sym Ls)). assert (store d x (segment d x (Z.to_nat (y - x))) = d) as ->; [|apply (IH y); [lia | done]].
  unfold store. rewrite Ls. unfold segment. rewrite <- drop_drop, (take_drop (Z.to_nat (y - x))), take_drop. done.
Qed.

(** ** In pieces *)
Lemma store_nil d x : store d x [] = d.
Proof. unfold store. simpl. rewrite Nat.add_0_r. apply take_drop. Qed.

Lemma scatter_nil d sp : scatter d sp [] = d.
Proof. revert d. induction sp as [|[x y] sp IH]; intros d; simpl; [done |]. by rewrite take_nil, drop_nil, store_nil. Qed.

Lemma store_store d x d1 d2 : 0 <= x -> x + Z.of_nat (length d1) <= Z.of_nat (length d) ->
  store (store d x d1) (x + Z.of_nat (length d1)) d2 = store d x (d1 ++ d2).
Proof.
  intros Hx Hl. unfold store. replace (Z.to_nat (x + Z.of_nat (length d1))) with (Z.to_nat x + length d1)%nat by lia.
  set (P := take (Z.to_nat x) d). set (R := drop (Z.to_nat x + length d1) d).
  assert (El : length (P ++ d1) = (Z.to_nat x + length d1)%nat) by (unfold P; rewrite length_app, length_take; lia).
  assert (take (Z.to_nat x + length d1) (P ++ d1 ++ R) = P ++ d1) as -> by (rewrite app_assoc; by apply take_app_length').
  assert (drop (Z.to_nat x + length d1 + length d2) (P ++ d1 ++ R) = drop (length d2) R) as ->
    by (rewrite app_assoc, <- drop_drop; f_equal; by apply drop_app_length').
  unfold R. rewrite drop_drop, length_app, <- !app_assoc, Nat.add_assoc. done.
Qed.

Lemma scatter_app lo d sp d1 d2 : 0 <= lo -> spans_ok lo n sp -> n <= Z.of_nat (length d) ->
  scatter d sp (d1 ++ d2) = scatter (scatter d sp d1) (beyond (Z.of_nat (length d1)) sp) d2.
Proof.
  intros Hlo H Hd. revert lo d d1 Hlo H Hd. induction sp as [|[x y] sp IH]; cbn [spans_ok scatter beyond]; intros lo d d1 Hlo H Hd; [done |].
  destruct H as (? & ? & H). set (k := Z.to_nat (y - x)). destruct (Z.ltb_spec (Z.of_nat (length d1)) (y - x)) as [Hs|Hs].
  - rewrite (take_ge d1), (drop_ge d1), scatter_nil by lia. cbn [scatter]. rewrite take_app, drop_app, (take_ge d1), (drop_ge d1) by lia.
    replace (Z.to_nat (y - (x + Z.of_nat (length d1)))) with (k - length d1)%nat by lia. by rewrite store_store by lia.
  - rewrite take_app_le, drop_app_le by lia. rewrite (IH y) by (first [lia | done | rewrite store_length; rewrite ?length_take; lia]).
    do 2 f_equal. rewrite length_drop. lia.
Qed.

Lemma beyond_ok lo sp k : 0 <= k -> spans_ok lo n sp -> spans_ok lo n (beyond k sp).
Proof.
  revert lo k. induction sp as [|[x y] sp IH]; simpl; intros lo k Hk H; [done |]. destruct H as (? & ? & H).
  destruct (Z.ltb_spec k (y - x)); [simpl; split_and!; try lia; done |]. apply (spans_ok_lo y); [lia |]. apply IH; [lia | done].
Qed.

Lemma beyond_total lo sp k : 0 <= k <= total sp -> spans_ok lo n sp -> total (beyond k sp) = total sp - k.
Proof.
  revert lo k. induction sp as [|[x y] sp IH]; simpl; intros lo k Hk H; [lia |]. destruct H as (? & ? & H).
  destruct (Z.ltb_spec k (y - x)); [simpl; lia |]. rewrite (IH y) by (lia || done). lia.
Qed.

Lemma scatter_app_spans lo d sp1 sp2 data : spans_ok lo n sp1 ->
  scatter d (sp1 ++ sp2) data = scatter (scatter d sp1 data) sp2 (drop (Z.to_nat (total sp1)) data).
Proof.
  revert lo d data. induction sp1 as [|[x y] sp1 IH]; intros lo d data H; [done |]. cbn [app scatter total spans_ok] in *.
  destruct H as (? & ? & H). pose proof (total_nonneg _ _ _ H). rewrite (IH y) by done. f_equal. rewrite drop_drop. f_equal. lia.
Qed.

Lemma bytes_ok_segment d x k : bytes_ok d -> bytes_ok (segment d x k).
Proof. intros. by apply Forall_take, Forall_drop. Qed.

Lemma bytes_ok_store d x data : bytes_ok d -> bytes_ok data -> bytes_ok (store d x data).
Proof. intros. unfold store. apply Forall_app; split; [by apply Forall_take |]. apply Forall_app; split; [done | by apply Forall_drop]. Qed.

Lemma bytes_ok_gather d sp : bytes_ok d -> bytes_ok (gather d sp).
Proof. intros H. induction sp as [|[x y] sp IH]; simpl; [constructor |]. apply Forall_app; split; [by apply bytes_ok_segment | done]. Qed.

Lemma bytes_ok_scatter sp : forall d data, bytes_ok d -> bytes_ok data -> bytes_ok (scatter d sp data).
Proof.
  induction sp as [|[x y] sp IH]; intros d data Hd Hdata; simpl; [done |]. apply IH; [|by apply Forall_drop]. apply bytes_ok_store; [done |]. by apply Forall_take.
Qed.

Lemma beyond_0 lo sp : spans_ok lo n sp -> beyond 0 sp = sp.
Proof. destruct sp as [|[x y] sp]; simpl; [done |]. intros (? & ? & ?). destruct (Z.ltb_spec 0 (y - x)); [|lia]. by rewrite Z.add_0_r. Qed.

Lemma beyond_past lo sp k : total sp <= k -> spans_ok lo n sp -> beyond k sp = [].
Proof.
  revert lo k. induction sp as [|[x y] sp IH]; simpl; intros lo k Hk H; [done |]. destruct H as (? & ? & H). pose proof (total_nonneg _ _ _ H).
  destruct (Z.ltb_spec k (y - x)); [lia |]. by apply (IH y); [lia |].
Qed.

Lemma beyond_twice lo sp j k : 0 <= j -> 0 <= k -> spans_ok lo n sp -> beyond k (beyond j sp) = beyond (j + k) sp.
Proof.
  revert lo j. induction sp as [|[x y] sp IH]; cbn [beyond spans_ok]; intros lo j Hj Hk H; [done |]. destruct H as (? & ? & H).
  destruct (Z.ltb_spec j (y - x)).
  - cbn [beyond]. destruct (Z.ltb_spec k (y - (x + j))), (Z.ltb_spec (j + k) (y - x)); try lia; [by rewrite Z.add_assoc |]. f_equal. lia.
  - rewrite (IH y) by (lia || done). destruct (Z.ltb_spec (j + k) (y - x)); [lia |]. f_equal. lia.
Qed.

Lemma scatter_take lo d sp data : spans_ok lo n sp -> scatter d sp (take (Z.to_nat (total sp)) data) = scatter d sp data.
Proof.
  revert lo d data. induction sp as [|[x y] sp IH]; cbn [spans_ok scatter total]; intros lo d data H; [done |]. destruct H as (? & ? & H).
  pose proof (total_nonneg _ _ _ H). rewrite take_take, Nat.min_l by lia. rewrite <- (IH y _ (drop _ data)) by done.
  rewrite skipn_firstn_comm. do 2 f_equal. lia.
Qed.

(** Putting the data of [s] in its places. *)
Lemma scatter_agrees lo d s sp data i : 0 <= lo -> spans_ok lo n sp -> n <= Z.of_nat (length d) -> n <= Z.of_nat (length s) ->
  take (Z.to_nat (total sp)) data = gather s sp -> covers sp i \/ d !! i = s !! i -> scatter d sp data !! i = s !! i.
Proof.
  intros Hlo H Hd Hs E Hi. rewrite <- (scatter_take lo), E by done. destruct (decide (covers sp i)) as [Hc|Hc].
  - rewrite (scatter_in lo d s) by (done || (pose proof (gather_length lo s sp Hlo H Hs); lia)). by rewrite (scatter_gather lo).
  - rewrite (scatter_out lo) by done. tauto.
Qed.

(** ** Torn writes *)
Lemma between_refl d d' : between d d' d.
Proof. split; [done |]. by left. Qed.

Lemma between_end d d' : length d' = length d -> between d d' d'.
Proof. split; [done |]. by right. Qed.

Lemma between_trans d d1 d2 f : between d f d1 -> between d1 f d2 -> between d f d2.
Proof.
  intros [L1 H1] [L2 H2]. split; [congruence |]. intros i. destruct (H2 i) as [-> | ->]; [apply H1 | by right].
Qed.

Lemma between_same d d' : between d d d' -> d' = d.
Proof. intros [L H]. apply list_eq. intros i. by destruct (H i). Qed.

Lemma between_weaken d f1 f d' : between d f f1 -> between d f1 d' -> between d f d'.
Proof. intros [L1 H1] [L2 H2]. split; [done |]. intros i. destruct (H2 i) as [-> | ->]; [by left | apply H1]. Qed.

Lemma between_mid d f d1 d2 d' : between d f d1 -> between d f d2 -> between d1 d2 d' -> between d f d'.
Proof. intros [L1 H1] [L2 H2] [L H]. split; [congruence |]. intros i. destruct (H i) as [-> | ->]; [apply H1 | apply H2]. Qed.

Lemma between_ok d f d' : bytes_ok d -> bytes_ok f -> between d f d' -> bytes_ok d'.
Proof.
  intros Hd Hf [L H]. apply Forall_lookup. intros i x E. destruct (H i) as [E'|E']; rewrite E' in E; [exact (Forall_lookup_1 _ _ _ _ Hd E) | exact (Forall_lookup_1 _ _ _ _ Hf E)].
Qed.

Lemma between_store d x data kept : 0 <= x -> x + Z.of_nat (length data) <= Z.of_nat (length d) ->
  between d (store d x data) (store d x (mix kept data (segment d x (length data)))).
Proof.
  intros Hx Hl. assert (Ls : length (segment d x (length data)) = length data) by (apply segment_length; lia).
  split; [apply store_length; rewrite ?mix_length; lia |]. intros i.
  destruct (decide (x <= Z.of_nat i < x + Z.of_nat (length data))) as [Hi|Hi]; [|left; apply store_out; rewrite ?mix_length; lia].
  rewrite !store_in by (rewrite ?mix_length; lia). destruct (mix_lookup kept data (segment d x (length data)) (i - Z.to_nat x)) as [-> | ->]; [done | | by right].
  left. rewrite segment_lookup by lia. f_equal. lia.
Qed.

(** A prefix of the data in place. *)
Lemma between_scatter lo d sp d1 d2 : 0 <= lo -> spans_ok lo n sp -> n <= Z.of_nat (length d) -> between d (scatter d sp (d1 ++ d2)) (scatter d sp d1).
Proof.
  intros Hlo H Hd. split; [by apply (scatter_length lo) |]. revert lo d d1 Hlo H Hd.
  induction sp as [|[x y] sp IH]; cbn [spans_ok scatter]; intros lo d d1 Hlo H Hd i; [by left |].
  destruct H as (? & ? & H). set (k := Z.to_nat (y - x)). destruct (decide (length d1 <= k)%nat) as [Hk|Hk].
  - rewrite (drop_ge d1), scatter_nil, (take_ge d1) by done. destruct (decide (x <= Z.of_nat i < x + Z.of_nat (length d1))) as [Hi|Hi].
    + right. rewrite (scatter_out y) by (first [lia | done | rewrite store_length; rewrite ?length_take; lia | intros Hc; apply (covers_range _ _ _ _ H) in Hc; lia]).
      rewrite !store_in by (rewrite ?length_take, ?length_app; lia). rewrite lookup_take_lt, lookup_app_l by lia. done.
    + left. apply store_out; lia.
  - rewrite take_app_le, drop_app_le by lia.
    destruct (IH y (store d x (take k d1)) (drop k d1) ltac:(lia) H ltac:(rewrite store_length; rewrite ?length_take; lia) i) as [E|E]; [|by right].
    destruct (decide (x <= Z.of_nat i < x + Z.of_nat k)) as [Hi|Hi].
    + right. rewrite E. symmetry. apply (scatter_out y); [lia | done | rewrite store_length; rewrite ?length_take; lia | intros Hc; apply (covers_range _ _ _ _ H) in Hc; lia].
    + left. rewrite E. apply store_out; rewrite ?length_take; lia.
Qed.

Lemma between_first lo d x y sp data : 0 <= lo -> spans_ok lo n ((x, y) :: sp) -> n <= Z.of_nat (length d) ->
  between d (scatter d ((x, y) :: sp) data) (store d x (take (Z.to_nat (y - x)) data)).
Proof.
  intros Hlo H Hd. set (k := Z.to_nat (y - x)).
  pose proof (between_scatter lo d ((x, y) :: sp) (take k data) (drop k data) Hlo H Hd) as Hb. rewrite take_drop in Hb.
  assert (E : scatter d ((x, y) :: sp) (take k data) = store d x (take k data)); [|by rewrite E in Hb].
  cbn [scatter]. fold k. by rewrite (take_ge (take k data)), (drop_ge (take k data)), scatter_nil by (rewrite length_take; lia).
Qed.

(** Writing again what was torn. *)
Lemma scatter_between lo d f sp data : 0 <= lo -> spans_ok lo n sp -> n <= Z.of_nat (length d) -> Z.of_nat (length data) = total sp ->
  between d (scatter d sp data) f -> scatter f sp data = scatter d sp data.
Proof.
  intros Hlo H Hd Ht [L Hb]. apply list_eq. intros i. destruct (decide (covers sp i)) as [Hc|Hc].
  - apply (scatter_in lo); (done || lia).
  - rewrite (scatter_out lo f), (scatter_out lo d) by (done || lia). destruct (Hb i) as [-> | ->]; [done |]. by apply (scatter_out lo).
Qed.
End Device.

Lemma spans_ok_snoc lo hi sp x y : spans_ok lo hi (sp ++ [(x, y)]) <-> spans_ok lo x sp /\ lo <= x < y /\ y <= hi.
Proof.
  revert lo. induction sp as [|[a b] sp IH]; intros lo; simpl; [tauto |]. rewrite IH. split.
  - intros (? & ? & ? & ? & ?). split_and!; try lia. done.
  - intros ((? & ? & ?) & ? & ?). split_and!; try lia. done.
Qed.

Lemma total_snoc sp x y : total (sp ++ [(x, y)]) = total sp + (y - x).
Proof. induction sp as [|[a b] sp IH]; simpl; lia. Qed.

Lemma scatter_store_comm lo d x data sp S : 0 <= lo -> spans_ok lo x sp -> 0 <= x -> x + Z.of_nat (length data) <= Z.of_nat (length d) ->
  total sp <= Z.of_nat (length S) -> scatter (store d x data) sp S = store (scatter d sp S) x data.
Proof.
  intros Hlo Hsp Hx Hl Ht. assert (L1 : length (store d x data) = length d) by (apply store_length; lia).
  assert (L2 : length (scatter d sp S) = length d) by (apply (scatter_length x lo); (done || lia)).
  apply list_eq. intros i. destruct (decide (x <= Z.of_nat i < x + Z.of_nat (length data))) as [Hi|Hi].
  - rewrite (scatter_out x lo) by (first [done | lia | intros Hc; apply (covers_range _ _ _ _ Hsp) in Hc; lia]). by rewrite !store_in by lia.
  - rewrite (store_out (scatter d sp S)) by lia. destruct (decide (covers sp i)) as [Hc|Hc].
    + apply (scatter_in x lo); (done || lia).
    + rewrite !(scatter_out x lo) by (done || lia). by rewrite store_out by lia.
Qed.
