(* ===== verification/BlockLogic.v ===== *)
(** * Reasoning about runs that may lose the power

    [runs m w Q G] says of a run of [m] from [w]: it ends, with a value and a
    world in [Q], or because the power was lost, with a medium in [G]. Two
    buffers with one digest void the promise. [off] says whether the power can
    be lost at all. *)

From S2P Require Import Prelude.
From S2P Require Import BlockDev.
From S2P Require Import BlockRange.

(** No call fails. *)
Definition calm (off : bool) (e : event) : Prop :=
  match e with
  | EvDone _ => True
  | EvFail => False
  | EvOff _ => off = true
  end.

Section Logic.
Context (off : bool) (bad : bytes -> Prop) {bad_dec : forall x, Decision (bad x)}.

Definition runs {A} (m : updM A) (w : world) (Q : A -> world -> Prop) (G : bytes -> stash -> Prop) : Prop :=
  let '(r, w', l) := m w in
  Exists bad l \/
  match r with
  | Done a => Q a w'
  | Gone => off = true /\ G (w_dev w') (w_stash w')
  | Crash _ | Hang => False
  end.

(** The device, its position and the stash of a world whose script is calm. *)
Definition at_ (w : world) (d : bytes) (p : Z) (s : stash) : Prop :=
  w_dev w = d /\ w_pos w = p /\ w_stash w = s /\ Forall (calm off) (w_events w).

(** ** Structure *)
Lemma runs_ret {A} (a : A) (w : world) (Q : A -> world -> Prop) G : Q a w -> runs (mret a) w Q G.
Proof. intros H. by right. Qed.

Lemma runs_bind {A B} (m : updM A) (k : A -> updM B) w Q G :
  runs m w (fun a w' => runs (k a) w' Q G) G -> runs (m ≫= k) w Q G.
Proof.
  unfold runs, mbind, updM_bind. destruct (m w) as [[[a| |f|] w'] l]; [|tauto..]. destruct (k a w') as [[r w''] l'].
  intros [H|[H|H]]; [left; apply Exists_app; by left | left; apply Exists_app; by right | by right].
Qed.

Lemma runs_perform {A} (m : outcome A) (a : A) (w : world) (Q : A -> world -> Prop) G : m = Ret a -> Q a w -> runs (perform m) w Q G.
Proof. intros -> H. by right. Qed.

Lemma runs_look (w : world) (Q : world -> world -> Prop) G : Q w w -> runs look w Q G.
Proof. intros H. by right. Qed.

Lemma runs_modify f (w : world) (Q : unit -> world -> Prop) G : Q tt (f w) -> runs (modify f) w Q G.
Proof. intros H. by right. Qed.

Lemma runs_compared data (w : world) (Q : unit -> world -> Prop) G : (~ bad data -> Q tt w) -> runs (compared data) w Q G.
Proof. intros H. destruct (decide (bad data)) as [Hb|Hb]; [left; by constructor | right; by apply H]. Qed.

Lemma runs_mono {A} (m : updM A) (w : world) (Q Q' : A -> world -> Prop) (G G' : bytes -> stash -> Prop) :
  runs m w Q G -> (forall a w', Q a w' -> Q' a w') -> (forall d s, G d s -> G' d s) -> runs m w Q' G'.
Proof. unfold runs. destruct (m w) as [[[a| |f|] w'] l]; intuition. Qed.

(** ** Calls *)
Lemma runs_act (full : world -> world) (torn : list bool -> world -> world) (w : world) (Q : bool -> world -> Prop) (G : bytes -> stash -> Prop) : Forall (calm off) (w_events w) ->
  (forall es, Forall (calm off) es -> Q true (full (set_events es w))) ->
  (forall kept es, G (w_dev (torn kept (set_events es w))) (w_stash (torn kept (set_events es w)))) ->
  runs (act full torn) w Q G.
Proof.
  intros Hc HQ HG. unfold runs, act. assert (Ew : set_events (w_events w) w = w) by (by destruct w).
  destruct (w_events w) as [|[n| |kept] es]; [right; rewrite <- Ew at 1; by apply HQ | right | |right]; inversion Hc as [|? ? Hh Ht]; subst.
  - by apply HQ.
  - done.
  - split; [exact Hh | apply HG].
Qed.

Lemma runs_syscall (w : world) (d : bytes) (p : Z) (s : stash) (Q : bool -> world -> Prop) (G : bytes -> stash -> Prop) : at_ (w : world) d p s -> G d s ->
  (forall w', at_ w' d p s -> Q true w') -> runs syscall w Q G.
Proof.
  intros (Hd & Hp & Hs & Hc) HG HQ. apply runs_act; [done | | intros; simpl; by rewrite Hd, Hs].
  intros es He. apply HQ. by repeat split.
Qed.

Lemma runs_change_dir (f : stash -> stash) (w : world) (d : bytes) (p : Z) (s : stash) (Q : bool -> world -> Prop) (G : bytes -> stash -> Prop) : at_ (w : world) d p s -> G d s -> G d (f s) ->
  (forall w', at_ w' d p (f s) -> Q true w') -> runs (change_dir f) w Q G.
Proof.
  intros (Hd & Hp & Hs & Hc) HG1 HG2 HQ. apply runs_act; [done | |].
  - intros es He. apply HQ. repeat split; [done | done | simpl; by rewrite Hs | done].
  - intros kept es. destruct (hd false kept); simpl; by rewrite Hd, Hs.
Qed.

Lemma runs_change (f : files -> files) (w : world) (d : bytes) (p : Z) (m : files) (Q : bool -> world -> Prop) (G : bytes -> stash -> Prop) : at_ (w : world) d p (Some m) -> G d (Some m) -> G d (Some (f m)) ->
  (forall w', at_ w' d p (Some (f m)) -> Q true w') -> runs (change f) w Q G.
Proof.
  intros Hw HG1 HG2 HQ. unfold change. apply runs_bind, runs_look, runs_bind. eapply runs_change_dir; [exact Hw | done | done |].
  intros w' Hw'. apply runs_ret. destruct Hw as (_ & _ & -> & _). simpl. by apply HQ.
Qed.

(** ** Transfers *)
Lemma transfer_calm sync es : forall len n, Forall (calm off) es ->
  (exists es', transfer sync len n es = (TrDone, es') /\ Forall (calm off) es') \/
  (off = true /\ exists kept es', transfer sync len n es = (TrOff kept, es')).
Proof.
  induction es as [|[k| |kept] es IH]; intros len n Hc.
  - left. exists []. by destruct len, sync.
  - inversion Hc; subst. destruct len as [|len].
    + destruct sync; [|left; eexists; split; [done |]; by constructor]. left. by exists es.
    + destruct sync; apply IH; done.
  - by inversion Hc as [|? ? Hf].
  - inversion Hc; subst. destruct len as [|len], sync; [by right; eauto | left; eexists; split; [done |]; by constructor | by right; eauto..].
Qed.

Lemma runs_lseek (o : Z) (w : world) (d : bytes) (p : Z) (s : stash) (Q : bool -> world -> Prop) (G : bytes -> stash -> Prop) : at_ (w : world) d p s -> G d s -> 0 <= o ->
  (forall w', at_ w' d o s -> Q true w') -> runs (check_lseek o) w Q G.
Proof.
  intros Hw HG Ho HQ. unfold check_lseek. apply runs_bind. eapply runs_syscall; [exact Hw | done |]. intros w' (Hd & Hp & Hs & Hc). simpl.
  destruct (Z.ltb_spec o 0); [lia |]. apply runs_bind, runs_modify, runs_ret, HQ. by repeat split.
Qed.

Lemma runs_read_all (size : Z) (w : world) (d : bytes) (p : Z) (s : stash) (Q : option bytes -> world -> Prop) (G : bytes -> stash -> Prop) : at_ (w : world) d p s -> G d s ->
  0 <= p -> 0 <= size -> p + size <= Z.of_nat (length d) ->
  (forall w', at_ w' d (p + size) s -> Q (Some (segment d p (Z.to_nat size))) w') -> runs (read_all size) w Q G.
Proof.
  intros (Hd & Hp & Hs & Hc) HG H1 H2 H3 HQ. unfold runs, read_all.
  destruct (transfer_calm false (w_events w) (Z.to_nat size) 0 Hc) as [(es & -> & He)|(Ho & kept & es & ->)]; simpl.
  - rewrite Hd, Hp. destruct (Z.leb_spec (p + size) (Z.of_nat (length d))); [|lia]. right. apply HQ. by repeat split.
  - right. simpl. by rewrite Hd, Hs.
Qed.

Lemma runs_write_all (data : bytes) (w : world) (d : bytes) (p : Z) (s : stash) (Q : bool -> world -> Prop) (G : bytes -> stash -> Prop) : at_ (w : world) d p s ->
  0 <= p -> p + Z.of_nat (length data) <= Z.of_nat (length d) -> (forall d', between d (store d p data) d' -> G d' s) ->
  (forall w', at_ w' (store d p data) (p + Z.of_nat (length data)) s -> Q true w') -> runs (write_all data) w Q G.
Proof.
  intros (Hd & Hp & Hs & Hc) H1 H2 HG HQ. unfold runs, write_all. rewrite (take_ge data) by (rewrite Hd, Hp; lia).
  destruct (transfer_calm true (w_events w) (length data) 0 Hc) as [(es & -> & He)|(Ho & kept & es & ->)]; simpl; right; simpl; rewrite Hd, Hp.
  - destruct (Nat.leb_spec (length data) (Z.to_nat (Z.of_nat (length d) - p))); [|lia]. apply HQ. by repeat split.
  - split; [done |]. rewrite Hs. apply HG. by apply between_store.
Qed.

Lemma runs_discard (blank : bytes) (start len : Z) (w : world) (d : bytes) (p : Z) (s : stash) (Q : bool -> world -> Prop) (G : bytes -> stash -> Prop) : at_ (w : world) d p s ->
  0 <= start -> 0 <= len -> start + len <= Z.of_nat (length d) ->
  let data := take (Z.to_nat len) (blank ++ replicate (Z.to_nat len) 0) in
  (forall d', between d (store d start data) d' -> G d' s) ->
  (forall w', at_ w' (store d start data) p s -> Q true w') -> runs (blkdiscard blank start len) w Q G.
Proof.
  intros (Hd & Hp & Hs & Hc) H1 H2 H3 data HG HQ. unfold blkdiscard. apply runs_bind, runs_look. rewrite Hd.
  destruct (Z.ltb_spec (Z.of_nat (length d)) (start + len)); [lia |].
  assert (Ld : length data = Z.to_nat len) by (unfold data; rewrite length_take, length_app, length_replicate; lia).
  apply runs_act; [done | |].
  - intros es He. apply HQ. repeat split; simpl; [by rewrite Hd | done..].
  - intros kept es. simpl. rewrite Hd, Hs. apply HG. apply between_store; [done |]. fold data. lia.
Qed.

(** ** Stash files *)
Lemma runs_stat (name : bytes) (w : world) (d : bytes) (p : Z) (s : stash) (Q : option bytes -> world -> Prop) (G : bytes -> stash -> Prop) : at_ (w : world) d p s -> G d s ->
  (forall w', at_ w' d p s -> Q (s ≫= fun m => m !! name) w') -> runs (stat_file name) w Q G.
Proof.
  intros Hw HG HQ. unfold stat_file. apply runs_bind. eapply runs_syscall; [exact Hw | done |]. intros w' Hw'. simpl.
  apply runs_bind, runs_look, runs_ret. destruct Hw' as (? & ? & E & ?). rewrite E. apply HQ. by repeat split.
Qed.

Lemma runs_read_file (data : bytes) (w : world) (d : bytes) (p : Z) (s : stash) (Q : bool -> world -> Prop) (G : bytes -> stash -> Prop) : at_ (w : world) d p s -> G d s ->
  (forall w', at_ w' d p s -> Q true w') -> runs (read_file data) w Q G.
Proof.
  intros (Hd & Hp & Hs & Hc) HG HQ. unfold runs, read_file.
  destruct (transfer_calm false (w_events w) (length data) 0 Hc) as [(es & -> & He)|(Ho & kept & es & ->)]; simpl; right; simpl.
  - apply HQ. by repeat split.
  - by rewrite Hd, Hs.
Qed.

Lemma runs_write_file (name data : bytes) (w : world) (d : bytes) (p : Z) (m : files) (Q : bool -> world -> Prop) (G : bytes -> stash -> Prop) : at_ (w : world) d p (Some m) ->
  (forall data', G d (Some (<[name := data']> m))) ->
  (forall w', at_ w' d p (Some (<[name := data]> m)) -> Q true w') -> runs (write_file name data) w Q G.
Proof.
  intros (Hd & Hp & Hs & Hc) HG HQ. unfold runs, write_file.
  destruct (transfer_calm true (w_events w) (length data) 0 Hc) as [(es & -> & He)|(Ho & kept & es & ->)]; simpl; right; simpl; rewrite Hs; simpl.
  - apply HQ. by repeat split.
  - rewrite Hd. split; [done |]. apply HG.
Qed.

Lemma runs_unsynced (before : stash) (w : world) (d : bytes) (p : Z) (s : stash) (Q : bool -> world -> Prop) (G : bytes -> stash -> Prop) : at_ (w : world) d p s -> G d s -> G d before ->
  (forall w', at_ w' d p s -> Q true w') -> runs (syscall_unsynced before) w Q G.
Proof.
  intros (Hd & Hp & Hs & Hc) HG1 HG2 HQ. apply runs_act; [done | |].
  - intros es He. apply HQ. by repeat split.
  - intros kept es. destruct (hd false kept); simpl; by rewrite ?Hd, ?Hs.
Qed.

Lemma runs_rename (from to data : bytes) (w : world) (d : bytes) (p : Z) (m : files) (Q : bool -> world -> Prop) (G : bytes -> stash -> Prop) : at_ (w : world) d p (Some m) -> m !! from = Some data ->
  G d (Some m) -> G d (Some (<[to := data]> (delete from m))) ->
  (forall w', at_ w' d p (Some (<[to := data]> (delete from m))) -> Q true w') -> runs (rename_sync from to) w Q G.
Proof.
  intros Hw Hf HG1 HG2 HQ. unfold rename_sync. apply runs_bind, runs_look, runs_bind.
  eapply runs_change; [exact Hw | done | by rewrite Hf |]. rewrite Hf. intros w1 Hw1. simpl. apply runs_bind.
  eapply runs_unsynced; [exact Hw1 | done | by destruct Hw as (_ & _ & -> & _) |]. intros w2 Hw2. simpl.
  eapply runs_unsynced; [exact Hw2 | done | by destruct Hw as (_ & _ & -> & _) | done].
Qed.
End Logic.
