(* ===== verification/BlockText.v ===== *)
(** * The text of transfer lists

    Words, lines, numbers, ranges and digests as
    src/build/tools/releasetools/blockimgdiff.py and rangelib.py write them, and
    how blockimg.c reads them back. *)

From S2P Require Import Prelude.
From S2P Require Import Sha.
From S2P Require Import ShaSpec.
From S2P Require Import CString.
From S2P Require Import Strto.
From S2P Require Import LoadKeys.
From S2P Require Import LoadKeysSpec.
From S2P Require Import BsPatch.
From S2P Require Import ImgPatch.
From S2P Require Import BlockDev.
From S2P Require Import BlockRange.
From S2P Require Import BlockLogic.
From S2P Require Import BlockImg.

(** ** Writing *)

(** [sep.join(ws)] *)
Fixpoint join (sep : Z) (ws : list bytes) : bytes :=
  match ws with
  | [] => []
  | [w] => w
  | w :: ws' => w ++ [sep] ++ join sep ws'
  end.

Fixpoint flatten (ps : list (Z * Z)) : list Z :=
  match ps with
  | [] => []
  | (a, b) :: ps' => a :: b :: flatten ps'
  end.

(** [str(len(self.data)) + "," + ",".join(str(i) for i in self.data)] *)
Definition to_string_raw (ps : list (Z * Z)) : bytes :=
  toString 10 (Z.of_nat (length (flatten ps))) ++ [44] ++ join 44 (map (toString 10) (flatten ps)).

(** Lines with their ends. *)
Definition lines_text (ls : list bytes) : bytes := concat (map (fun l => l ++ [10]) ls).

(** ** Tokens *)
Definition free_of (c : Z) (w : bytes) : Prop := Forall (fun x => x <> c) w.
Definition word_ok (w : bytes) : Prop := w <> [] /\ Forall (fun x => 32 < x < 256) w.

Lemma take_word_sep c w rest : free_of c w -> take_word c (w ++ c :: rest) = (w, Some rest).
Proof.
  induction 1 as [|x w Hx _ IH]; simpl; [by rewrite Z.eqb_refl |]. destruct (Z.eqb_spec x c); [done |]. by rewrite IH.
Qed.

Lemma take_word_end c w : free_of c w -> take_word c w = (w, None).
Proof. induction 1 as [|x w Hx _ IH]; simpl; [done |]. destruct (Z.eqb_spec x c); [done |]. by rewrite IH. Qed.

Lemma skip_delims_word c w rest : free_of c w -> w <> [] -> skip_delims (Z.eqb c) (w ++ rest) = w ++ rest.
Proof. destruct 1 as [|x w Hx _]; [done |]. intros _. simpl. destruct (Z.eqb_spec c x); [by subst | done]. Qed.

Lemma strtok_sep c w rest : free_of c w -> w <> [] -> strtok_r c (Some (w ++ c :: rest)) = (Some w, Some rest).
Proof.
  intros Hf Hn. unfold strtok_r. rewrite skip_delims_word by done. pose proof (take_word_sep c w rest Hf) as E.
  destruct w as [|x w]; [done |]. cbn [app] in *. by rewrite E.
Qed.

Lemma strtok_end c w : free_of c w -> w <> [] -> strtok_r c (Some w) = (Some w, None).
Proof.
  intros Hf Hn. unfold strtok_r. pose proof (skip_delims_word c w [] Hf Hn) as E. rewrite app_nil_r in E. rewrite E. pose proof (take_word_end c w Hf) as E'.
  destruct w as [|x w]; [done |]. by rewrite E'.
Qed.

Lemma word_free c w : word_ok w -> c <= 32 -> free_of c w.
Proof. intros [_ H] Hc. eapply Forall_impl; [exact H |]. simpl. lia. Qed.

(** What is left when the words [ws] are still to be read. *)
Definition rest_by (c : Z) (ws : list bytes) : option bytes := match ws with [] => None | _ => Some (join c ws) end.
Abbreviation rest_of := (rest_by 32).

Lemma strtok_by c w ws : free_of c w -> w <> [] -> strtok_r c (rest_by c (w :: ws)) = (Some w, rest_by c ws).
Proof. intros Hf Hn. destruct ws as [|w' ws]; simpl; [by apply strtok_end | by apply strtok_sep]. Qed.

Lemma strtok_word w ws : word_ok w -> strtok_r 32 (rest_of (w :: ws)) = (Some w, rest_of ws).
Proof. intros H. apply strtok_by; [by apply word_free | by destruct H]. Qed.

Definition line_ok (l : bytes) : Prop := l <> [] /\ Forall (fun x => 32 <= x < 256) l.

Lemma strtok_line l ls : line_ok l -> strtok_r 10 (Some (lines_text (l :: ls))) = (Some l, Some (lines_text ls)).
Proof.
  intros [Hn Hl]. unfold lines_text. cbn [map concat]. rewrite <- app_assoc. apply strtok_sep; [|done]. eapply Forall_impl; [exact Hl |]. simpl. lia.
Qed.

Lemma join_chars (P : Z -> Prop) sep ws : P sep -> Forall (Forall P) ws -> Forall P (join sep ws).
Proof.
  intros Hs. induction 1 as [|w ws Hw Hws IH]; [constructor |]. destruct ws as [|w' ws]; [done |]. cbn [join].
  apply Forall_app. split; [done |]. by constructor.
Qed.

Lemma join_line w ws : word_ok w -> Forall word_ok ws -> line_ok (join 32 (w :: ws)).
Proof.
  intros [Hn Hw] Hws. split; [destruct ws; simpl; [done |]; by destruct w |]. apply join_chars; [lia |].
  constructor; [eapply Forall_impl; [exact Hw |]; simpl; lia |]. eapply Forall_impl; [exact Hws |]. intros u [_ Hu]. eapply Forall_impl; [exact Hu |]. simpl. lia.
Qed.

Lemma cstring_id t : Forall (fun x => x <> 0) t -> cstring t = t.
Proof. induction 1 as [|x t Hx _ IH]; simpl; [done |]. destruct (Z.eqb_spec x 0); [done |]. by rewrite IH. Qed.

(** ** Numbers *)
Lemma toString_digits x : 0 <= x -> Forall (fun c => 48 <= c <= 57) (toString 10 x) /\ toString 10 x <> [] /\
  read_digits 10 0 (toString 10 x) = (x, []).
Proof.
  intros Hx. unfold toString.
  assert (Hb : 0 <= x < 2 ^ Z.of_nat (S (Z.to_nat (Z.log2 x)))).
  { split; [lia |]. rewrite Nat2Z.inj_succ, Z2Nat.id by apply Z.log2_nonneg. destruct (Z.eq_dec x 0) as [->|]; [done |].
    apply Z.log2_lt_pow2; lia. }
  destruct (radix_digits_ok 10 _ ltac:(by left) x Hb ltac:(lia)) as (H1 & H2 & _ & H4). split; [|done]. eapply Forall_impl; [exact H1 |].
  intros c Hc. simpl in Hc. unfold is_base_digit, digit_val in Hc.
  destruct (Z.leb_spec 48 c), (Z.leb_spec c 57), (Z.leb_spec 97 c), (Z.leb_spec c 122), (Z.leb_spec 65 c), (Z.leb_spec c 90); simpl in Hc; lia.
Qed.

Lemma toString_word x : 0 <= x -> word_ok (toString 10 x).
Proof. intros Hx. destruct (toString_digits x Hx) as (H1 & H2 & _). split; [done |]. eapply Forall_impl; [exact H1 |]. simpl. lia. Qed.

(** No leading zero. *)
Lemma radix_digits_head fuel : forall x, 0 < x < 2 ^ Z.of_nat fuel -> exists c t, radix_digits fuel 10 x = c :: t /\ 48 < c.
Proof.
  induction fuel as [|fuel IH]; intros x Hx; [simpl in Hx; lia |]. cbn [radix_digits]. destruct (Z.ltb_spec x 10).
  - exists (hex_digit x), []. split; [done |]. unfold hex_digit. destruct (Z.ltb_spec x 10); lia.
  - destruct (IH (x / 10)) as (c & t & -> & Hc).
    { split; [apply Z.div_str_pos; lia |]. apply Z.div_lt_upper_bound; [lia |]. rewrite Nat2Z.inj_succ, Z.pow_succ_r in Hx by lia. lia. }
    by exists c, (t ++ [hex_digit (x mod 10)]).
Qed.

Lemma toString_head x : 0 < x -> exists c t, toString 10 x = c :: t /\ 48 < c.
Proof.
  intros Hx. apply radix_digits_head. split; [lia |]. rewrite Nat2Z.inj_succ, Z2Nat.id by apply Z.log2_nonneg. apply Z.log2_lt_pow2; lia.
Qed.

Lemma toString_subject x : 0 <= x -> subject (toString 10 x) 0 = (false, if x =? 0 then 8 else 10, toString 10 x).
Proof.
  intros Hx. destruct (Z.eqb_spec x 0) as [->|Hn]; [done |]. destruct (toString_digits x Hx) as (Hd & _ & _).
  destruct (toString_head x ltac:(lia)) as (c & t & E & Hc). rewrite E in *. inversion Hd as [|? ? Hc' Ht]; subst. unfold subject.
  assert (skip_spaces (c :: t) = c :: t) as ->
    by (simpl; unfold isspace; destruct (Z.eqb_spec c 32), (Z.leb_spec 9 c), (Z.leb_spec c 13); simpl; (done || lia)).
  assert (read_sign (c :: t) = (false, c :: t)) as ->
    by (unfold read_sign; destruct (Z.eqb_spec c 45), (Z.eqb_spec c 43); (done || lia)).
  assert (has_0x (c :: t) = false) as -> by (unfold has_0x; destruct t; [done |]; destruct (Z.eqb_spec c 48); [lia | done]).
  simpl. destruct (Z.eqb_spec c 0); [lia |]. simpl. destruct (Z.eqb_spec c 48); [lia | done].
Qed.

Lemma toString_cstr x : 0 <= x -> cstr_ok (toString 10 x).
Proof. intros Hx. destruct (toString_digits x Hx) as (H & _). eapply Forall_impl; [exact H |]. simpl. lia. Qed.

Lemma toString_read x : 0 <= x -> read_digits (if x =? 0 then 8 else 10) 0 (toString 10 x) = (x, []).
Proof. intros Hx. destruct (Z.eqb_spec x 0) as [->|]; [done |]. by apply toString_digits. Qed.

Lemma strtol_toString x : 0 <= x < 2 ^ 63 -> strtol_ptr (Some (toString 10 x)) = Ret x.
Proof.
  intros Hx. unfold strtol_ptr, bionic_strtol. rewrite strto_signed_std, unread_val by (first [done | apply toString_cstr; lia | by left]).
  unfold std_signed. rewrite toString_subject, toString_read by lia. simpl. unfold clip, INT_MIN, INT_MAX, sign. f_equal.
  destruct (Z.ltb_spec (1 * x) (- 2 ^ (64 - 1))), (Z.ltb_spec (2 ^ (64 - 1) - 1) (1 * x)); lia.
Qed.

Lemma strtoul_toString x : 0 <= x < 2 ^ 63 -> strtoul_ptr (Some (toString 10 x)) = Ret x.
Proof.
  intros Hx. unfold strtoul_ptr, bionic_strtoul. rewrite strto_unsigned_std, unread_val by (first [done | apply toString_cstr; lia | by left]).
  unfold std_unsigned. rewrite toString_subject, toString_read by lia. simpl. unfold UINT_MAX. f_equal.
  destruct (Z.ltb_spec (2 ^ 64 - 1) x); lia.
Qed.

(** ** Ranges *)
Definition rangeset (ps : list (Z * Z)) : RangeSet := MkRangeSet (Z.of_nat (length ps)) (total ps) (flatten ps).

Lemma flatten_length ps : length (flatten ps) = (2 * length ps)%nat.
Proof. induction ps as [|[a b] ps IH]; simpl; [done |]. lia. Qed.

Lemma pairs_flatten ps : pairs (length ps) (flatten ps) = ps.
Proof. induction ps as [|[a b] ps IH]; simpl; [done |]. by rewrite IH. Qed.

Lemma rs_pairs_rangeset ps : rs_pairs (rangeset ps) = ps.
Proof. unfold rs_pairs, rangeset. simpl. rewrite Nat2Z.id. apply pairs_flatten. Qed.

Lemma spans_length lo hi ps : spans_ok lo hi ps -> Z.of_nat (length ps) <= total ps.
Proof. revert lo. induction ps as [|[a b] ps IH]; simpl; intros lo H; [done |]. destruct H as (? & ? & H). specialize (IH _ H). lia. Qed.

Lemma toString_comma x : 0 <= x -> free_of 44 (toString 10 x) /\ toString 10 x <> [].
Proof. intros Hx. destruct (toString_digits x Hx) as (H1 & H2 & _). split; [|done]. eapply Forall_impl; [exact H1 |]. simpl. lia. Qed.

Lemma range_step n i size x xs : 0 <= x < 2 ^ 31 ->
  range_loop (S n) i size (rest_by 44 (map (toString 10) (x :: xs))) =
  ('(rest, size) ← range_loop n (i + 1) (i32 (if i mod 2 =? 0 then size - x else size + x)) (rest_by 44 (map (toString 10) xs)); Ret (x :: rest, size)).
Proof.
  intros Hx. destruct (toString_comma x ltac:(lia)). cbn [range_loop map]. rewrite strtok_by by done. rewrite strtol_toString, bind_ret by lia.
  cbv zeta. by rewrite (swrap_small 32 x) by (unfold in_srange; lia).
Qed.

Lemma range_loop_ok lo hi ps : 0 <= lo -> hi <= 2 ^ 30 -> spans_ok lo hi ps -> forall i size, i mod 2 = 0 -> 0 <= size -> size + total ps < 2 ^ 31 ->
  range_loop (length (flatten ps)) i size (rest_by 44 (map (toString 10) (flatten ps))) = Ret (flatten ps, size + total ps).
Proof.
  intros Hlo Hhi. revert lo Hlo. induction ps as [|[a b] ps IH]; intros lo Hlo H i size Hi Hs Ht; [simpl; by rewrite Z.add_0_r |].
  cbn [spans_ok total] in *. destruct H as (? & ? & H). pose proof (total_nonneg _ _ _ H). cbn [flatten length].
  rewrite range_step by lia. rewrite Hi. simpl (0 =? 0). cbv iota. rewrite (swrap_small 32) by (unfold in_srange; lia).
  rewrite range_step by lia. replace ((i + 1) mod 2) with 1 by (rewrite Z.add_mod, Hi by lia; done). simpl (1 =? 0). cbv iota.
  rewrite (swrap_small 32) by (unfold in_srange; lia). rewrite (IH b).
  - simpl. do 2 f_equal. lia.
  - lia.
  - done.
  - rewrite <- Z.add_assoc, Z.add_mod, Hi by lia. done.
  - lia.
  - lia.
Qed.

Lemma to_string_raw_join ps : ps <> [] -> to_string_raw ps = join 44 (map (toString 10) (Z.of_nat (length (flatten ps)) :: flatten ps)).
Proof. destruct ps as [|[a b] ps]; done. Qed.

Lemma to_string_raw_word lo hi ps : 0 <= lo -> spans_ok lo hi ps -> word_ok (to_string_raw ps) /\ free_of 58 (to_string_raw ps).
Proof.
  intros Hlo H. assert (Hd : Forall (fun c => c = 44 \/ 48 <= c <= 57) (to_string_raw ps)).
  { unfold to_string_raw. apply Forall_app. split; [eapply Forall_impl; [apply toString_digits; lia |]; simpl; lia |]. constructor; [by left |].
    apply join_chars; [by left |]. apply Forall_map. assert (Hf : Forall (fun x => 0 <= x) (flatten ps)).
    { revert lo Hlo H. induction ps as [|[a b] ps IH]; simpl; intros lo Hlo H; [constructor |]. destruct H as (? & ? & H).
      constructor; [lia |]. constructor; [lia |]. by apply (IH b); [lia |]. }
    eapply Forall_impl; [exact Hf |]. intros x Hx. eapply Forall_impl; [by apply toString_digits |]. simpl. lia. }
  split; [split|].
  - unfold to_string_raw. destruct (toString_digits (Z.of_nat (length (flatten ps))) ltac:(lia)) as (_ & Hn & _). by destruct (toString 10 _).
  - eapply Forall_impl; [exact Hd |]. simpl. lia.
  - eapply Forall_impl; [exact Hd |]. simpl. lia.
Qed.

Section Parse.
Context (off : bool) (bad : bytes -> Prop) {bad_dec : forall x, Decision (bad x)}.
Abbreviation runs := (runs off bad).
Abbreviation at_ := (at_ off).

Lemma runs_malloc (size : Z) (w : world) (d : bytes) (p : Z) (s : stash) (Q : bool -> world -> Prop) G : at_ w d p s -> G d s -> size < 2 ^ 63 ->
  (forall w', at_ w' d p s -> Q true w') -> runs (malloc_ok size) w Q G.
Proof.
  intros Hw HG Hs HQ. unfold malloc_ok. destruct (Z.leb_spec (2 ^ 63) size); [lia |]. by eapply runs_syscall.
Qed.

Lemma runs_parse_range hi ps (w : world) (d : bytes) (p : Z) (s : stash) (Q : RangeSet -> world -> Prop) G : at_ w d p s -> G d s ->
  hi < 2 ^ 30 -> spans_ok 0 hi ps -> ps <> [] -> (forall w', at_ w' d p s -> Q (rangeset ps) w') ->
  runs (parse_range (Some (to_string_raw ps))) w Q G.
Proof.
  intros Hw HG Hhi Hps Hn HQ. destruct (decide (0 <= hi)) as [H0|H0]; [|destruct ps as [|[a b] ps]; [done | simpl in Hps; lia]].
  pose proof (total_bound _ _ _ H0 Hps). pose proof (spans_length _ _ _ Hps). pose proof (flatten_length ps).
  set (m := Z.of_nat (length (flatten ps))) in *. unfold parse_range.
  change (Some (to_string_raw ps)) with (Some (to_string_raw ps)). rewrite to_string_raw_join by done. fold m.
  destruct (toString_comma m ltac:(lia)).
  assert (strtok_r 44 (Some (join 44 (map (toString 10) (m :: flatten ps)))) = (Some (toString 10 m), rest_by 44 (map (toString 10) (flatten ps)))) as ->
    by (apply (strtok_by 44 (toString 10 m) (map (toString 10) (flatten ps))); done).
  apply runs_bind. eapply runs_perform; [apply strtol_toString; lia |]. cbv zeta. rewrite (swrap_small 32 m) by (unfold in_srange; lia).
  rewrite (wrap_small 64) by (unfold in_range; lia). apply runs_bind. eapply runs_malloc; [exact Hw | done | lia |]. intros w' Hw'. simpl negb. cbv iota.
  destruct (Z.ltb_spec (8 + m * 4) 8); [lia |]. apply runs_bind. eapply runs_perform.
  - replace (Z.to_nat m) with (length (flatten ps)) by lia. apply (range_loop_ok 0 hi); (done || lia).
  - apply runs_ret. assert (MkRangeSet (Z.quot m 2) (0 + total ps) (flatten ps) = rangeset ps) as ->; [|by apply HQ].
    unfold rangeset. f_equal. replace m with (Z.of_nat (length ps) * 2) by lia. by apply Z.quot_mul.
Qed.
End Parse.

(** ** Digests *)
Lemma PrintSha1_length l : length (PrintSha1 l) = (2 * length l)%nat.
Proof. induction l as [|x l IH]; simpl; [done |]. lia. Qed.

Lemma hex_digit_char x : 0 <= x < 16 -> 48 <= hex_digit x <= 102 /\ hex_digit x <> 58.
Proof. unfold hex_digit. destruct (Z.ltb_spec x 10); lia. Qed.

Lemma nibbles x : in_range 8 x -> Z.land (Z.shiftr x 4) 0xf = x / 16 /\ Z.land x 0xf = x mod 16 /\ 0 <= x / 16 < 16 /\ 0 <= x mod 16 < 16.
Proof.
  unfold in_range. intros Hx. change 0xf with (Z.ones 4). rewrite !Z.land_ones, Z.shiftr_div_pow2 by lia. change (2 ^ 4) with 16.
  assert (0 <= x / 16 < 16) by (split; [apply Z.div_pos; lia | apply Z.div_lt_upper_bound; lia]).
  pose proof (Z.mod_pos_bound x 16 ltac:(lia)). rewrite (Z.mod_small (x / 16)) by lia. done.
Qed.

Lemma PrintSha1_chars l : bytes_ok l -> Forall (fun c => 48 <= c <= 102 /\ c <> 58) (PrintSha1 l).
Proof.
  induction 1 as [|x l Hx _ IH]; cbn [PrintSha1]; [constructor |]. destruct (nibbles x Hx) as (-> & -> & ? & ?).
  constructor; [by apply hex_digit_char |]. constructor; [by apply hex_digit_char | done].
Qed.

Lemma hex_digit_inj x y : 0 <= x < 16 -> 0 <= y < 16 -> hex_digit x = hex_digit y -> x = y.
Proof. unfold hex_digit. destruct (Z.ltb_spec x 10), (Z.ltb_spec y 10); lia. Qed.

Lemma PrintSha1_inj l : bytes_ok l -> forall l', bytes_ok l' -> PrintSha1 l = PrintSha1 l' -> l = l'.
Proof.
  induction 1 as [|x l Hx _ IH]; intros [|y l'] Hl' E; try done. apply Forall_cons in Hl' as [Hy Hl']. cbn [PrintSha1] in E.
  destruct (nibbles x Hx) as (E1 & E2 & ? & ?), (nibbles y Hy) as (E3 & E4 & ? & ?). rewrite E1, E2, E3, E4 in E. injection E as Ea Eb Et.
  apply hex_digit_inj in Ea; [|done..]. apply hex_digit_inj in Eb; [|done..]. f_equal; [|by apply IH].
  rewrite (Z.div_mod x 16), (Z.div_mod y 16) by lia. by rewrite Ea, Eb.
Qed.
