(* ===== verification/BlockOps.v ===== *)
(** * The operations of the block updater

    Blocks, buffers and stash files: what each operation does when no call fails,
    and what is on the medium when the power is lost in it. *)

From S2P Require Import Prelude.
From S2P Require Import Sha.
From S2P Require Import ShaSpec.
From S2P Require Import CString.
From S2P Require Import LoadKeys.
From S2P Require Import BsPatch.
From S2P Require Import BsPatchSpec.
From S2P Require Import ImgPatch.
From S2P Require Import BlockDev.
From S2P Require Import BlockRange.
From S2P Require Import BlockLogic.
From S2P Require Import BlockImg.
From S2P Require Import BlockText.

(** Arithmetic on numbers of blocks. *)
Ltac blia := unfold BLOCKSIZE in *; lia.

(** ** Ranges of blocks as ranges of bytes *)
Definition bspans (ps : list (Z * Z)) : list span := map (fun '(a, b) => (a * BLOCKSIZE, b * BLOCKSIZE)) ps.

Lemma bspans_ok lo hi ps : spans_ok lo hi ps -> spans_ok (lo * BLOCKSIZE) (hi * BLOCKSIZE) (bspans ps).
Proof.
  revert lo. induction ps as [|[a b] ps IH]; simpl; intros lo H; [done |]. destruct H as (? & ? & H).
  split_and!; [blia | blia | blia |]. by apply IH.
Qed.

Lemma bspans_total ps : total (bspans ps) = total ps * BLOCKSIZE.
Proof. unfold BLOCKSIZE. induction ps as [|[a b] ps IH]; simpl; [done |]. unfold BLOCKSIZE in *. blia. Qed.

Lemma range_bytes_ok a b : 0 <= b - a < 2 ^ 19 -> range_bytes a b = (b - a) * BLOCKSIZE.
Proof.
  intros H. unfold range_bytes, BLOCKSIZE. rewrite (swrap_small 32 (b - a)) by (unfold in_srange; blia).
  rewrite swrap_small by (unfold in_srange; blia). apply wrap_small. unfold in_range. blia.
Qed.

Lemma put_bytes_store buf pos data : 0 <= pos -> pos + Z.of_nat (length data) <= Z.of_nat (length buf) -> put_bytes buf pos data = Ret (store buf pos data).
Proof.
  intros H1 H2. unfold put_bytes. destruct (Z.leb_spec 0 pos), (Z.leb_spec (pos + Z.of_nat (length data)) (Z.of_nat (length buf))); (done || blia).
Qed.

Lemma bytes_size x : 0 <= x < 2 ^ 19 -> u64 (i32 (x * BLOCKSIZE)) = x * BLOCKSIZE /\ i32 (x * BLOCKSIZE) = x * BLOCKSIZE.
Proof.
  intros H. unfold BLOCKSIZE. rewrite (swrap_small 32) by (unfold in_srange; blia). split; [|done]. apply wrap_small. unfold in_range. blia.
Qed.

(** ** Moving packed blocks to their places *)
Lemma bspans_snoc ps a b : bspans (ps ++ [(a, b)]) = bspans ps ++ [(a * BLOCKSIZE, b * BLOCKSIZE)].
Proof. unfold bspans. by rewrite map_app. Qed.

Lemma store_take d x data k : 0 <= x -> (k <= Z.to_nat x)%nat -> (Z.to_nat x <= length d)%nat -> take k (store d x data) = take k d.
Proof. intros Hx Hk Hl. unfold store. rewrite take_app_le by (rewrite length_take; lia). rewrite take_take. f_equal. lia. Qed.

Lemma move_ranges_ok nb S source ps : nb < 2 ^ 19 -> forall dest, spans_ok 0 nb ps -> nb * BLOCKSIZE <= Z.of_nat (length dest) ->
  total ps * BLOCKSIZE <= Z.of_nat (length S) ->
  take (Z.to_nat (total ps * BLOCKSIZE)) (default dest source) = take (Z.to_nat (total ps * BLOCKSIZE)) S ->
  move_ranges (reverse ps) (total ps) dest source = Ret (scatter dest (bspans ps) S).
Proof.
  intros Hnb. induction ps as [|[a b] ps IH] using rev_ind; intros dest Hps Hd HS Ht; [done |].
  rewrite reverse_snoc, total_snoc, bspans_snoc in *. apply spans_ok_snoc in Hps as (Hps & Hab & Hbn). cbn [move_ranges].
  pose proof (total_nonneg _ _ _ Hps). pose proof (total_bound 0 a ps ltac:(lia) Hps). cbv zeta.
  rewrite (swrap_small 32 (b - a)) by (unfold in_srange; lia). replace (total ps + (b - a) - (b - a)) with (total ps) by lia.
  rewrite (swrap_small 32 (total ps)) by (unfold in_srange; lia). destruct (bytes_size (b - a) ltac:(lia)) as [-> _].
  destruct (bytes_size (total ps) ltac:(lia)) as [_ ->]. destruct (bytes_size a ltac:(lia)) as [_ ->].
  set (k := Z.to_nat ((b - a) * BLOCKSIZE)). set (data := take k (drop (Z.to_nat (total ps * BLOCKSIZE)) S)).
  assert (Hlen : (total ps + (b - a)) * BLOCKSIZE <= Z.of_nat (length (default dest source))).
  { apply (f_equal length) in Ht. rewrite !length_take in Ht. blia. }
  rewrite sub_bytes_ok, bind_ret by blia. fold k.
  assert (take k (drop (Z.to_nat (total ps * BLOCKSIZE)) (default dest source)) = data) as ->.
  { unfold data. rewrite !take_drop_commute. f_equal.
    replace (Z.to_nat (total ps * BLOCKSIZE) + k)%nat with (Z.to_nat ((total ps + (b - a)) * BLOCKSIZE)) by blia. done. }
  assert (Ld : length data = k) by (unfold data; rewrite length_take, length_drop; blia).
  rewrite put_bytes_store, bind_ret by blia. rewrite IH.
  - f_equal. rewrite (scatter_app_spans (a * BLOCKSIZE) 0) by (apply (bspans_ok 0 a); done). cbn [scatter]. rewrite bspans_total, <- Z.mul_sub_distr_r. fold k data.
    apply (scatter_store_comm 0); [done | apply (bspans_ok 0 a); done | blia | blia | rewrite bspans_total; blia].
  - eapply spans_ok_hi; [|done]. lia.
  - rewrite store_length; blia.
  - blia.
  - assert (E : take (Z.to_nat (total ps * BLOCKSIZE)) (default dest source) = take (Z.to_nat (total ps * BLOCKSIZE)) S).
    { apply (f_equal (take (Z.to_nat (total ps * BLOCKSIZE)))) in Ht. rewrite !take_take in Ht.
      by rewrite !Nat.min_l in Ht by blia. }
    rewrite <- E. destruct source as [src|]; simpl; [done |]. apply store_take; blia.
Qed.

Lemma MoveRange_ok nb locs dest S source : nb < 2 ^ 19 -> spans_ok 0 nb locs -> nb * BLOCKSIZE <= Z.of_nat (length dest) ->
  total locs * BLOCKSIZE <= Z.of_nat (length S) -> default dest source = S ->
  MoveRange (Some dest) (rangeset locs) source = Ret (Some (scatter dest (bspans locs) S)).
Proof.
  intros Hnb Hl Hd HS <-. unfold MoveRange. rewrite rs_pairs_rangeset. destruct locs as [|l locs]; [done |].
  rewrite (move_ranges_ok nb (default dest source)) by done. done.
Qed.

(** ** Names of stash files *)
Definition hexid (x : bytes) : bytes := PrintSha1 (sha1 x).

(** The same files but for partial ones. *)
Definition sameids (m m' : files) : Prop := forall x, m !! hexid x = m' !! hexid x.

#[global] Instance sameids_equiv : Equivalence sameids.
Proof. split; [by intros m x | by intros m m' H x | intros m m' m'' H1 H2 x; by rewrite (H1 x)]. Qed.

Lemma hexid_inj x y : hexid x = hexid y -> sha1 x = sha1 y.
Proof. apply PrintSha1_inj; apply sha1_ok. Qed.

Lemma partial_hexid id x : partial id <> hexid x.
Proof.
  intros E. assert (H : 46 ∈ partial id) by (unfold partial; apply elem_of_app; right; apply list_elem_of_here).
  rewrite E in H. pose proof (PrintSha1_chars _ (sha1_ok x)) as Hc. rewrite Forall_forall in Hc. specialize (Hc _ H). lia.
Qed.

Lemma sameids_insert m m' k v : sameids m m' -> sameids (<[k := v]> m) (<[k := v]> m').
Proof. intros H x. destruct (decide (k = hexid x)) as [->|?]; [by rewrite !lookup_insert_eq | by rewrite !lookup_insert_ne]. Qed.
Lemma sameids_delete m m' k : sameids m m' -> sameids (delete k m) (delete k m').
Proof. intros H x. destruct (decide (k = hexid x)) as [->|?]; [by rewrite !lookup_delete_eq | by rewrite !lookup_delete_ne]. Qed.
Lemma sameids_partial m id v : sameids m (<[partial id := v]> m).
Proof. intros x. rewrite lookup_insert_ne; [done | apply partial_hexid]. Qed.
Lemma sameids_partial_delete m id : sameids m (delete (partial id) m).
Proof. intros x. rewrite lookup_delete_ne; [done | apply partial_hexid]. Qed.

Section Ops.
Context (off : bool) (bad : bytes -> Prop) {bad_dec : forall x, Decision (bad x)}.
Abbreviation runs := (runs off bad).
Abbreviation at_ := (at_ off).

(** ** Blocks *)
Lemma runs_read_loop nb ps : forall lo p buf (w : world) (d : bytes) (pos : Z) (s : stash) (Q : Z * bytes -> world -> Prop) G,
  at_ w d pos s -> G d s -> 0 <= lo -> spans_ok lo nb ps -> nb * BLOCKSIZE <= Z.of_nat (length d) -> total ps < 2 ^ 19 ->
  0 <= p -> p + total ps * BLOCKSIZE <= Z.of_nat (length buf) ->
  (forall w' pos', at_ w' d pos' s -> Q (0, store buf p (gather d (bspans ps))) w') -> runs (read_blocks_loop ps p buf) w Q G.
Proof.
  induction ps as [|[a b] ps IH]; intros lo p buf w d pos s Q G Hw HG Hlo Hps Hd Ht Hp Hb HQ; cbn [read_blocks_loop].
  { apply runs_ret. specialize (HQ w pos Hw). by rewrite store_nil in HQ. }
  cbn [spans_ok total] in *. destruct Hps as (? & ? & Hps). pose proof (total_nonneg _ _ _ Hps).
  apply runs_bind. eapply runs_lseek; [exact Hw | done | blia |]. intros w1 Hw1. simpl negb. cbv iota zeta. rewrite range_bytes_ok by blia.
  apply runs_bind. eapply runs_perform; [apply sub_bytes_ok; blia |]. apply runs_bind. eapply runs_read_all; [exact Hw1 | done | blia | blia | blia |].
  intros w2 Hw2. cbv iota. set (seg := segment d (a * BLOCKSIZE) (Z.to_nat ((b - a) * BLOCKSIZE))).
  assert (Ls : Z.of_nat (length seg) = (b - a) * BLOCKSIZE) by (unfold seg; rewrite segment_length; blia).
  apply runs_bind. eapply runs_perform; [apply put_bytes_store; blia |].
  eapply (IH b); [exact Hw2 | done | blia | done | done | blia | blia | rewrite store_length; blia |]. intros w3 pos3 Hw3.
  specialize (HQ w3 pos3 Hw3). cbn [bspans map gather] in HQ. rewrite <- Z.mul_sub_distr_r in HQ. fold seg (bspans ps) in HQ.
  replace (p + (b - a) * BLOCKSIZE) with (p + Z.of_nat (length seg)) by blia. by rewrite store_store by blia.
Qed.

Lemma runs_ReadBlocks nb ps buf (w : world) (d : bytes) (pos : Z) (s : stash) (Q : Z * option bytes -> world -> Prop) G :
  at_ w d pos s -> G d s -> spans_ok 0 nb ps -> nb * BLOCKSIZE <= Z.of_nat (length d) -> total ps < 2 ^ 19 ->
  total ps * BLOCKSIZE <= Z.of_nat (length buf) ->
  (forall w' pos', at_ w' d pos' s -> Q (0, Some (store buf 0 (gather d (bspans ps)))) w') -> runs (ReadBlocks (rangeset ps) (Some buf)) w Q G.
Proof.
  intros Hw HG Hps Hd Ht Hb HQ. unfold ReadBlocks. rewrite rs_pairs_rangeset. apply runs_bind.
  eapply (runs_read_loop nb ps 0); [exact Hw | done | done | done | done | done | done | blia |]. intros w' pos' Hw'. apply runs_ret. by eapply HQ.
Qed.

Lemma runs_write_loop nb ps : forall lo p buf (w : world) (d : bytes) (pos : Z) (s : stash) (Q : Z -> world -> Prop) (G : bytes -> stash -> Prop),
  at_ w d pos s -> 0 <= lo -> spans_ok lo nb ps -> nb * BLOCKSIZE <= Z.of_nat (length d) -> total ps < 2 ^ 19 ->
  0 <= p -> p + total ps * BLOCKSIZE <= Z.of_nat (length buf) ->
  (forall d', between d (scatter d (bspans ps) (drop (Z.to_nat p) buf)) d' -> G d' s) ->
  (forall w' pos', at_ w' (scatter d (bspans ps) (drop (Z.to_nat p) buf)) pos' s -> Q 0 w') -> runs (write_blocks_loop ps p buf) w Q G.
Proof.
  induction ps as [|[a b] ps IH]; intros lo p buf w d pos s Q G Hw Hlo Hps Hd Ht Hp Hb HG HQ; cbn [write_blocks_loop].
  { apply runs_ret. by apply (HQ w pos). }
  pose proof (bspans_ok _ _ _ Hps) as Hbs. cbn [spans_ok total] in *. destruct Hps as (? & ? & Hps). pose proof (total_nonneg _ _ _ Hps).
  apply runs_bind. eapply runs_lseek; [exact Hw | apply HG, between_refl | blia |]. intros w1 Hw1. simpl negb. cbv iota zeta. rewrite range_bytes_ok by blia.
  apply runs_bind. eapply runs_perform; [apply sub_bytes_ok; blia |]. set (k := Z.to_nat ((b - a) * BLOCKSIZE)). set (data := take k (drop (Z.to_nat p) buf)).
  assert (Ld : length data = k) by (unfold data; rewrite length_take, length_drop; blia).
  set (f := scatter d (bspans ((a, b) :: ps)) (drop (Z.to_nat p) buf)) in *.
  assert (Ef : f = scatter (store d (a * BLOCKSIZE) data) (bspans ps) (drop (Z.to_nat (p + (b - a) * BLOCKSIZE)) buf)).
  { unfold f. cbn [bspans map scatter]. rewrite <- Z.mul_sub_distr_r. fold k data. rewrite drop_drop. do 3 f_equal. blia. }
  assert (Hbw : between d f (store d (a * BLOCKSIZE) data)).
  { pose proof (between_first (nb * BLOCKSIZE) (lo * BLOCKSIZE) d _ _ (bspans ps) (drop (Z.to_nat p) buf) ltac:(blia) Hbs Hd) as Hx.
    by rewrite <- Z.mul_sub_distr_r in Hx. }
  apply runs_bind. eapply runs_write_all; [exact Hw1 | blia | blia | intros d' Hd'; apply HG; by eapply between_weaken |]. intros w2 Hw2. simpl negb. cbv iota.
  eapply (IH b); [exact Hw2 | blia | done | rewrite store_length; blia | blia | blia | blia | |].
  - rewrite <- Ef. intros d' Hd'. apply HG. by eapply between_trans.
  - rewrite <- Ef. done.
Qed.

Lemma runs_WriteBlocks nb ps buf (w : world) (d : bytes) (pos : Z) (s : stash) (Q : Z -> world -> Prop) (G : bytes -> stash -> Prop) :
  at_ w d pos s -> spans_ok 0 nb ps -> nb * BLOCKSIZE <= Z.of_nat (length d) -> total ps < 2 ^ 19 -> total ps * BLOCKSIZE <= Z.of_nat (length buf) ->
  (forall d', between d (scatter d (bspans ps) buf) d' -> G d' s) ->
  (forall w' pos', at_ w' (scatter d (bspans ps) buf) pos' s -> Q 0 w') -> runs (WriteBlocks (rangeset ps) (Some buf)) w Q G.
Proof.
  intros Hw Hps Hd Ht Hb HG HQ. unfold WriteBlocks. rewrite rs_pairs_rangeset.
  eapply (runs_write_loop nb ps 0); [exact Hw | done | done | done | done | done | blia | done | done].
Qed.

(** ** Buffers *)
Definition genuine (e : bytes) : Prop := bytes_ok e /\ forall x, bytes_ok x -> ~ bad x -> sha1 x = sha1 e -> x = e.

Context (junk : bytes) (ctx0 : HASH_CTX) (Hjunk : bytes_ok junk) (Hctx : ctx_shape ctx0).

Lemma uninit_ok size : 0 <= size -> bytes_ok (uninit junk size) /\ Z.of_nat (length (uninit junk size)) = size.
Proof.
  intros H. unfold uninit. split; [|rewrite length_take, length_app, length_replicate; lia].
  apply Forall_take, Forall_app_2; [done |]. apply Forall_replicate. unfold in_range. lia.
Qed.

Lemma runs_allocate size buf (w : world) (d : bytes) (pos : Z) (s : stash) (Q : option bytes -> world -> Prop) (G : bytes -> stash -> Prop) :
  at_ w d pos s -> G d s -> 0 < size < 2 ^ 63 -> bytes_ok (default [] buf) ->
  (forall w' b, at_ w' d pos s -> bytes_ok b -> size <= Z.of_nat (length b) -> Q (Some b) w') -> runs (allocate junk size buf) w Q G.
Proof.
  intros Hw HG Hs Hb HQ. unfold allocate. destruct (Z.leb_spec size (Z.of_nat (length (default [] buf)))) as [Hl|Hl].
  - apply runs_ret. destruct buf as [b|]; simpl in *; [by apply HQ | lia].
  - apply runs_bind. eapply runs_malloc; [exact Hw | done | lia |]. intros w' Hw'. simpl. apply runs_ret.
    destruct (uninit_ok size ltac:(lia)). apply HQ; (done || lia).
Qed.

Lemma runs_verify n e b (w : world) (Q : bool -> world -> Prop) (G : bytes -> stash -> Prop) :
  0 <= n < 2 ^ 19 -> n * BLOCKSIZE <= Z.of_nat (length b) -> bytes_ok b -> genuine e ->
  (forall r, r = bool_decide (take (Z.to_nat (n * BLOCKSIZE)) b = e) -> Q r w) -> runs (VerifyBlocks ctx0 (hexid e) (Some b) n) w Q G.
Proof.
  intros Hn Hl Hb [He Hg] HQ. unfold VerifyBlocks. destruct (bytes_size n Hn) as [_ ->].
  apply runs_bind. eapply runs_perform; [apply sub_bytes_ok; blia |]. rewrite drop_0. set (x := take _ b) in *.
  assert (Hx : bytes_ok x) by (by apply Forall_take).
  apply runs_bind. eapply runs_perform; [by apply SHA_hash_ref |]. apply runs_bind, (runs_compared off bad). intros Hbad. apply runs_ret, HQ.
  apply bool_decide_ext. split.
  - intros E. apply Hg; [done | done |]. by apply hexid_inj.
  - by intros ->.
Qed.

(** ** Stash files *)
Lemma runs_delete id (w : world) (d : bytes) (pos : Z) (m : files) (Q : unit -> world -> Prop) (G : bytes -> stash -> Prop) :
  at_ w d pos (Some m) -> G d (Some m) -> G d (Some (delete id m)) -> (forall w', at_ w' d pos (Some (delete id m)) -> Q tt w') -> runs (DeleteFile id) w Q G.
Proof.
  intros Hw HG1 HG2 HQ. unfold DeleteFile, unlink. apply runs_bind. eapply runs_change; [exact Hw | done | done |]. intros w' Hw'. by apply runs_ret, HQ.
Qed.

Lemma runs_FreeStash base id (w : world) (d : bytes) (pos : Z) (m : files) (Q : Z -> world -> Prop) (G : bytes -> stash -> Prop) :
  at_ w d pos (Some m) -> G d (Some m) -> G d (Some (delete id m)) -> (forall w', at_ w' d pos (Some (delete id m)) -> Q 0 w') ->
  runs (FreeStash (Some base) (Some id)) w Q G.
Proof.
  intros Hw HG1 HG2 HQ. unfold FreeStash. apply runs_bind. eapply runs_syscall; [exact Hw | done |]. intros w1 Hw1. simpl.
  apply runs_bind. eapply runs_delete; [exact Hw1 | done | done |]. intros w2 Hw2. by apply runs_ret, HQ.
Qed.

(** A file that is there is loaded; it is the one of its name. *)
Lemma runs_LoadStash base n e verify buf (w : world) (d : bytes) (pos : Z) (m : files) (Q : Z * Z * option bytes -> world -> Prop) (G : bytes -> stash -> Prop) :
  at_ w d pos (Some m) -> G d (Some m) -> bytes_ok (default [] buf) -> 0 < n < 2 ^ 19 -> Z.of_nat (length e) = n * BLOCKSIZE -> genuine e ->
  (forall c, m !! hexid e = Some c -> c = e) ->
  (m !! hexid e = None -> forall w', at_ w' d pos (Some m) -> Q (-1, 0, buf) w') ->
  (m !! hexid e = Some e -> forall w' b, at_ w' d pos (Some m) -> bytes_ok b -> n * BLOCKSIZE <= Z.of_nat (length b) -> take (Z.to_nat (n * BLOCKSIZE)) b = e -> Q (0, n, Some b) w') ->
  runs (LoadStash junk ctx0 (Some base) (Some (hexid e)) verify buf) w Q G.
Proof.
  intros Hw HG Hb Hn Hl He Hm HN HS. unfold LoadStash. apply runs_bind. eapply runs_syscall; [exact Hw | done |]. intros w1 Hw1. simpl.
  apply runs_bind. eapply runs_stat; [exact Hw1 | done |]. intros w2 Hw2. simpl. destruct (m !! hexid e) as [c|] eqn:Ec; [|by apply runs_ret, HN].
  rewrite (Hm c eq_refl) in *. rewrite Hl, Z.mod_mul, Z.div_mul by (unfold BLOCKSIZE; lia). simpl. rewrite (swrap_small 32 n) by (unfold in_srange; lia).
  apply runs_bind. eapply runs_syscall; [exact Hw2 | done |]. intros w3 Hw3. simpl.
  apply runs_bind. eapply runs_allocate; [exact Hw3 | done | blia | done |]. intros w4 b Hw4 Hbo Hbl.
  apply runs_bind. eapply runs_read_file; [exact Hw4 | done |]. intros w5 Hw5. simpl.
  set (b' := e ++ drop (length e) b). assert (Lb : n * BLOCKSIZE <= Z.of_nat (length b')) by (unfold b'; rewrite length_app; lia).
  assert (Et : take (Z.to_nat (n * BLOCKSIZE)) b' = e) by (unfold b'; apply take_app_length'; lia).
  assert (Hb' : bytes_ok b') by (apply Forall_app_2; [apply He | by apply Forall_drop]).
  apply runs_bind. destruct verify; [|by apply runs_ret, runs_ret, HS]. apply (runs_verify n); [lia | done | done | done |].
  intros r ->. rewrite Et, bool_decide_true by done. by apply runs_ret, HS.
Qed.

(** A file is written beside its name and moved there in one step. *)
Lemma runs_WriteStash base n e b checkspace exists_ (w : world) (d : bytes) (pos : Z) (m : files) (Q : Z * bool -> world -> Prop) (G : bytes -> stash -> Prop) :
  at_ w d pos (Some m) -> 0 <= n < 2 ^ 19 -> n * BLOCKSIZE <= Z.of_nat (length b) -> take (Z.to_nat (n * BLOCKSIZE)) b = e ->
  (forall m', sameids m m' \/ sameids (<[hexid e := e]> m) m' -> G d (Some m')) ->
  (exists_ = true -> is_Some (m !! hexid e) -> forall w', at_ w' d pos (Some m) -> Q (0, true) w') ->
  (exists_ = false \/ m !! hexid e = None -> forall w' m', sameids (<[hexid e := e]> m) m' -> at_ w' d pos (Some m') -> Q (0, false) w') ->
  runs (WriteStash (Some base) (hexid e) n (Some b) checkspace exists_) w Q G.
Proof.
  intros Hw Hn Hl He HG HE HN. assert (HG0 : G d (Some m)) by (apply HG; by left). unfold WriteStash.
  apply runs_bind. assert (runs (if checkspace then CacheSizeCheck (i32 (n * BLOCKSIZE)) else mret true) w (fun r w' => r = true /\ at_ w' d pos (Some m)) G) as H1.
  { destruct checkspace; [|by apply runs_ret]. eapply runs_syscall; [exact Hw | done | done]. }
  eapply runs_mono; [exact H1 | | done]. intros r w1 [-> Hw1]. simpl. apply runs_bind. eapply runs_syscall; [exact Hw1 | done |]. intros w2 Hw2.
  apply runs_bind. eapply runs_syscall; [exact Hw2 | done |]. intros w3 Hw3. simpl. apply runs_bind.
  assert (runs (if exists_ then stat_file (hexid e) else mret None) w3 (fun st w' => at_ w' d pos (Some m) /\ st = if exists_ then m !! hexid e else None) G) as H2.
  { destruct exists_; [|by apply runs_ret]. eapply runs_stat; [exact Hw3 | done | done]. }
  eapply runs_mono; [exact H2 | | done]. intros st w4 [Hw4 Est]. destruct st as [c|].
  { destruct exists_; [|done]. by apply runs_ret, HE. }
  assert (Hnew : exists_ = false \/ m !! hexid e = None) by (destruct exists_; auto). set (id := hexid e) in *.
  assert (HP : forall v, G d (Some (<[partial id := v]> m))) by (intros v; apply HG; left; apply sameids_partial).
  apply runs_bind. eapply runs_change; [exact Hw4 | done | apply HP |]. intros w5 Hw5. simpl. destruct (bytes_size n Hn) as [-> _].
  apply runs_bind. eapply runs_perform; [apply sub_bytes_ok; blia |]. rewrite drop_0, He.
  apply runs_bind. eapply runs_write_file; [exact Hw5 | intros v; rewrite insert_insert_eq; apply HP |]. rewrite insert_insert_eq. intros w6 Hw6. simpl.
  apply runs_bind. eapply runs_syscall; [exact Hw6 | apply HP |]. intros w7 Hw7. simpl. apply runs_bind.
  assert (Hs : sameids (<[id := e]> m) (<[id := e]> (delete (partial id) (<[partial id := e]> m)))).
  { apply sameids_insert. rewrite delete_insert_eq. apply sameids_partial_delete. }
  eapply runs_rename; [exact Hw7 | by rewrite lookup_insert_eq | apply HP | apply HG; by right |]. intros w8 Hw8. apply runs_ret. by eapply HN.
Qed.

(** ** The directory *)
Lemma runs_each {A} (P : list bytes -> A -> files -> Prop) (f : bytes -> A -> updM A) (d : bytes) (pos : Z) (Q : A -> world -> Prop) (G : bytes -> stash -> Prop) names :
  (forall name rest a m (w : world), at_ w d pos (Some m) -> P (name :: rest) a m -> runs (f name a) w (fun a' w' => exists m', at_ w' d pos (Some m') /\ P rest a' m') G) ->
  (forall names a m, P names a m -> G d (Some m)) -> (forall a m w', at_ w' d pos (Some m) -> P [] a m -> Q a w') ->
  forall a m (w : world), at_ w d pos (Some m) -> P names a m -> runs (each_file f names a) w Q G.
Proof.
  intros Hf HG HQ. induction names as [|name names IH]; intros a m w Hw HP; cbn [each_file]; [by apply runs_ret, (HQ a m) |].
  apply runs_bind. eapply runs_syscall; [exact Hw | by eapply HG |]. intros w1 Hw1. apply runs_bind.
  eapply runs_mono; [by eapply Hf | | done]. intros a' w2 (m2 & Hw2 & HP2). by eapply IH.
Qed.

Lemma runs_enumerate {A} (P : list bytes -> A -> files -> Prop) (f : bytes -> A -> updM A) a (w : world) (d : bytes) (pos : Z) (m : files) (Q : A -> world -> Prop) (G : bytes -> stash -> Prop) :
  at_ w d pos (Some m) -> P (map_to_list m).*1 a m ->
  (forall name rest a m (w : world), at_ w d pos (Some m) -> P (name :: rest) a m -> runs (f name a) w (fun a' w' => exists m', at_ w' d pos (Some m') /\ P rest a' m') G) ->
  (forall names a m, P names a m -> G d (Some m)) -> (forall a m w', at_ w' d pos (Some m) -> P [] a m -> Q a w') -> runs (EnumerateStash f a) w Q G.
Proof.
  intros Hw HP Hf HG HQ. unfold EnumerateStash. apply runs_bind. eapply runs_syscall; [exact Hw | by eapply HG |]. intros w1 Hw1.
  apply runs_bind, runs_look. assert (E : w_stash w1 = Some m) by apply Hw1. rewrite E. by eapply (runs_each P f).
Qed.

Lemma runs_DeleteStash base (w : world) (d : bytes) (pos : Z) (m : files) (Q : unit -> world -> Prop) (G : bytes -> stash -> Prop) : at_ w d pos (Some m) ->
  (forall m', m' ⊆ m -> G d (Some m')) -> G d None -> (forall w', at_ w' d pos None -> Q tt w') -> runs (DeleteStash (Some base)) w Q G.
Proof.
  intros Hw HG HN HQ. unfold DeleteStash. apply runs_bind. eapply runs_syscall; [exact Hw | by apply HG |]. intros w1 Hw1. simpl. apply runs_bind.
  set (P := fun (names : list bytes) (_ : unit) (m' : files) => m' ⊆ m /\ forall k, is_Some (m' !! k) -> k ∈ names).
  apply (runs_enumerate P (fun name _ => DeleteFile name) tt w1 d pos m); [done | | | intros names _ m' [H _]; by apply HG |].
  - split; [done |]. intros k [v Hv]. apply list_elem_of_fmap. exists (k, v). split; [done |]. by apply elem_of_map_to_list.
  - intros name rest _ m1 w2 Hw2 [H1 H2]. assert (H3 : delete name m1 ⊆ m) by (etrans; [apply delete_subseteq | done]).
    eapply runs_delete; [exact Hw2 | by apply HG | by apply HG |]. intros w3 Hw3. eexists. split; [exact Hw3 |]. split; [done |].
    intros k Hk. destruct (decide (name = k)) as [->|Hne]; [by rewrite lookup_delete_eq, is_Some_alt in Hk |].
    rewrite lookup_delete_ne in Hk by done. apply H2, elem_of_cons in Hk. destruct Hk as [->|Hk]; [done | exact Hk].
  - intros _ m1 w2 Hw2 [_ H2]. assert (m1 = ∅) as ->.
    { apply map_empty. intros k. destruct (m1 !! k) as [v|] eqn:E; [|done]. assert (Hx : k ∈ []) by (apply H2; eauto). by apply elem_of_nil in Hx. }
    apply runs_bind. unfold rmdir. apply runs_bind, runs_look. assert (E : w_stash w2 = Some ∅) by apply Hw2. rewrite bool_decide_true by done.
    eapply runs_change_dir; [exact Hw2 | apply HG, map_empty_subseteq | done |]. intros w3 Hw3. by apply runs_ret, HQ.
Qed.

Lemma strstr_dot sub s : 46 ∉ s -> head sub = Some 46 -> strstr sub s = false.
Proof.
  destruct sub as [|c sub]; [done |]. intros Hs [= ->]. induction s as [|x s IH]; cbn [strstr].
  - by rewrite bool_decide_false.
  - rewrite elem_of_cons in Hs. rewrite IH by tauto. rewrite bool_decide_false; [done |]. intros E. simpl in E. injection E as -> _. tauto.
Qed.

Lemma runs_CreateStash maxblocks blockdev base (w : world) (d : bytes) (pos : Z) (s : stash) (Q : Z * option bytes -> world -> Prop) (G : bytes -> stash -> Prop) :
  at_ w d pos s -> bytes_ok blockdev -> base = hexid blockdev ->
  (forall m, sameids (default ∅ s) m -> G d (Some m)) -> G d s ->
  (forall w' r m, at_ w' d pos (Some m) -> sameids (default ∅ s) m -> r = 0 \/ r = 1 -> Q (r, Some base) w') ->
  runs (CreateStash ctx0 maxblocks blockdev) w Q G.
Proof.
  intros Hw Hbd -> HG HG0 HQ. unfold CreateStash. apply runs_bind. eapply runs_perform; [by apply SHA_hash_ref |]. cbv zeta. fold (hexid blockdev).
  apply runs_bind. eapply runs_syscall; [exact Hw | done |]. intros w1 Hw1. simpl. apply runs_bind. eapply runs_syscall; [exact Hw1 | done |]. intros w2 Hw2. simpl.
  apply runs_bind, runs_look. assert (E : w_stash w2 = s) by apply Hw2. rewrite E. destruct s as [m|]; simpl in *.
  - apply runs_bind.
    apply (runs_enumerate (fun _ _ m' => sameids m m') _ tt w2 d pos m); [done | done | | by intros _ _ m' ?; apply HG |].
    + intros name rest [] m1 w3 Hw3 Hm1. unfold DeletePartial. destruct (strstr (str ".partial") name) eqn:Hs; [|apply runs_ret; eauto].
      assert (Hm2 : sameids m (delete name m1)).
      { etrans; [exact Hm1 |]. intros x. rewrite lookup_delete_ne; [done |]. intros ->. rewrite strstr_dot in Hs; [done | | done].
        intros H46. pose proof (PrintSha1_chars _ (sha1_ok x)) as Hc. rewrite Forall_forall in Hc. specialize (Hc _ H46). lia. }
      eapply runs_delete; [exact Hw3 | by apply HG | by apply HG |]. eauto.
    + intros _ m1 w3 Hw3 Hm1. apply runs_bind.
      apply (runs_enumerate (fun _ _ m' => sameids m m') _ 0 w3 d pos m1); [done | done | | by intros _ _ m' ?; apply HG |].
      * intros name rest sz m2 w4 Hw4 Hm2. unfold UpdateFileSize. apply runs_bind. eapply runs_stat; [exact Hw4 | by apply HG |]. intros w5 Hw5. apply runs_ret. eauto.
      * intros size m2 w4 Hw4 Hm2. cbv zeta. destruct (0 <? _); [|apply runs_ret; eapply HQ; eauto].
        apply runs_bind. eapply runs_syscall; [exact Hw4 | by apply HG |]. intros w5 Hw5. apply runs_ret. eapply HQ; eauto.
  - apply runs_bind. unfold mkdir. eapply runs_change_dir; [exact Hw2 | done | by apply HG |]. intros w3 Hw3. simpl.
    apply runs_bind. eapply runs_syscall; [exact Hw3 | by apply HG |]. intros w4 Hw4. apply runs_ret. eapply HQ; [exact Hw4 | done | by right].
Qed.
End Ops.
