(* ===== verification/BlockSink.v ===== *)
(** * Writing to the ranges of a target

    The sink of the patchers and of the new data, zeroing and erasing. *)

From S2P Require Import Prelude.
From S2P Require Import Sha.
From S2P Require Import CString.
From S2P Require Import BsPatch.
From S2P Require Import ImgPatch.
From S2P Require Import ImgPatchSpec.
From S2P Require Import BlockDev.
From S2P Require Import BlockRange.
From S2P Require Import BlockLogic.
From S2P Require Import BlockImg.
From S2P Require Import BlockText.
From S2P Require Import BlockOps.

(** The ranges [sp] are what is left of the target [ps], with the device at
    [pos]. *)
Definition rss_at (ps : list (Z * Z)) (rss : RangeSinkState) (pos : Z) (sp : list span) : Prop :=
  rss_tgt rss = rangeset ps /\
  match sp with
  | [] => p_block rss = Z.of_nat (length ps) /\ p_remain rss = 0
  | (x, y) :: rest => exists k a b, ps !! k = Some (a, b) /\ p_block rss = Z.of_nat k /\ pos = x /\ a * BLOCKSIZE <= x < y /\ y = b * BLOCKSIZE /\
      p_remain rss = y - x /\ rest = bspans (drop (S k) ps)
  end.

Lemma flatten_rd ps : forall k a b, ps !! k = Some (a, b) ->
  rd_mem (flatten ps) (Z.of_nat k * 2) = Ret a /\ rd_mem (flatten ps) (Z.of_nat k * 2 + 1) = Ret b.
Proof.
  induction ps as [|[a' b'] ps IH]; intros k a b H; [done |]. pose proof (lookup_lt_Some _ _ _ H) as Hk. simpl in Hk.
  pose proof (flatten_length ps) as Hl. destruct k as [|k].
  - injection H as -> ->. by rewrite !rd_mem_ok by (cbn [flatten length]; lia).
  - simpl in H. destruct (IH _ _ _ H) as [E1 E2]. rewrite rd_mem_ok in E1, E2 by lia. rewrite !rd_mem_ok by (cbn [flatten length]; lia).
    rewrite <- E1, <- E2. unfold rd. replace (Z.to_nat (Z.of_nat (S k) * 2)) with (S (S (Z.to_nat (Z.of_nat k * 2)))) by lia.
    by replace (Z.to_nat (Z.of_nat (S k) * 2 + 1)) with (S (S (Z.to_nat (Z.of_nat k * 2 + 1)))) by lia.
Qed.

Lemma spans_lookup lo hi ps k a b : spans_ok lo hi ps -> ps !! k = Some (a, b) -> lo <= a < b /\ b <= hi /\ b - a <= total ps /\ spans_ok b hi (drop (S k) ps).
Proof.
  revert lo k. induction ps as [|[x y] ps IH]; intros lo k Hs H; [done |]. simpl in Hs. destruct Hs as (? & ? & Hs). pose proof (total_nonneg _ _ _ Hs).
  destruct k as [|k]; simpl in *.
  - injection H as -> ->. rewrite drop_0. split_and!; (lia || done).
  - destruct (IH _ _ Hs H) as (? & ? & ? & ?). split_and!; (lia || done).
Qed.

Lemma ranges_cons (l : list (Z * Z)) : l <> [] -> exists a b l', l = (a, b) :: l'.
Proof. destruct l as [|[a b] l']; [done | eauto]. Qed.

Lemma sink_nil fuel rss written : range_sink_loop fuel [] rss written = mret (written, rss).
Proof. by destruct fuel. Qed.

Section Sinks.
Context (off : bool) (bad : bytes -> Prop) {bad_dec : forall x, Decision (bad x)}.
Abbreviation runs := (runs off bad).
Abbreviation at_ := (at_ off).
Context (nb : Z) (ps : list (Z * Z)) (Hps : spans_ok 0 nb ps) (Htot : total ps < 2 ^ 19).

Lemma runs_sink_loop fuel : forall lo data rss sp wr (w : world) (d : bytes) (pos : Z) (s : stash) (Q : Z * RangeSinkState -> world -> Prop) (G : bytes -> stash -> Prop),
  at_ w d pos s -> rss_at ps rss pos sp -> sp <> [] -> 0 <= lo -> spans_ok lo (nb * BLOCKSIZE) sp -> nb * BLOCKSIZE <= Z.of_nat (length d) -> (length data <= fuel)%nat ->
  (forall d', between d (scatter d sp data) d' -> G d' s) ->
  (forall w' pos' rss' n, n = Z.min (Z.of_nat (length data)) (total sp) -> at_ w' (scatter d sp data) pos' s -> rss_at ps rss' pos' (beyond n sp) -> Q (wr + n, rss') w') ->
  runs (range_sink_loop fuel data rss wr) w Q G.
Proof.
  induction fuel as [|fuel IH]; intros lo data rss sp wr w d pos s Q G Hw Hr Hne Hlo Hsp Hd Hf HG HQ; pose proof (total_nonneg _ _ _ Hsp) as Htn.
  all: destruct data as [|c data0]; [rewrite sink_nil; apply runs_ret; specialize (HQ w pos rss 0); rewrite scatter_nil, Z.add_0_r, (beyond_0 _ _ _ Hsp) in HQ;
    apply HQ; [simpl; lia | done | done] | simpl in Hf; try lia].
  set (data := c :: data0) in *. assert (Hlen : (0 < length data <= S fuel)%nat) by (simpl; lia).
  cbn [range_sink_loop]. destruct (Nat.eqb_spec (length data) 0) as [?|_]; [lia |]. destruct sp as [|[x y] rest]; [done |].
  destruct Hr as (Et & k & a & b & Hk & Eb & -> & Hax & Ey & Er & Erest). pose proof (spans_lookup _ _ _ _ _ _ Hps Hk) as (? & ? & ? & Hdr).
  cbv zeta. rewrite Er, Et, Eb. set (wn := Z.min (Z.of_nat (length data)) (y - x)).
  assert (Etk : take (Z.to_nat wn) data = take (Z.to_nat (y - x)) data).
  { destruct (Z.min_spec (Z.of_nat (length data)) (y - x)) as [[? E]|[? E]]; fold wn in E; rewrite E; [|done]. rewrite !take_ge by lia. done. }
  pose proof (between_first (nb * BLOCKSIZE) lo d x y rest data Hlo Hsp Hd) as Hb1. rewrite <- Etk in Hb1.
  cbn [scatter] in HQ, HG, Hb1. rewrite <- Etk in HQ, HG, Hb1. set (d1 := store d x (take (Z.to_nat wn) data)) in *.
  cbn [spans_ok total] in *. destruct Hsp as (? & ? & Hsp). pose proof (total_nonneg _ _ _ Hsp). assert (Lw : Z.of_nat (length (take (Z.to_nat wn) data)) = wn) by (rewrite length_take; lia).
  assert (Ld1 : length d1 = length d) by (apply store_length; lia).
  apply runs_bind. eapply runs_write_all; [exact Hw | lia | lia | intros d' Hd'; apply HG; by eapply between_weaken |]. rewrite Lw. fold d1. intros w1 Hw1. simpl negb. cbv iota.
  destruct (Z.eqb_spec (y - x - wn) 0) as [Hz|Hz]; simpl negb; cbv iota; cbn [rss_tgt p_block p_remain].
  2: { rewrite (drop_ge data), sink_nil by lia. rewrite (drop_ge data), scatter_nil in HQ by lia. apply runs_ret. eapply HQ; [lia | exact Hw1 |].
    cbn [beyond]. destruct (Z.ltb_spec wn (y - x)); [|lia]. split; [done |]. exists k, a, b. cbn [p_block p_remain]. split_and!; (done || lia). }
  replace (Z.to_nat (y - x)) with (Z.to_nat wn) in HQ, HG, Hb1 by lia. cbn [rangeset rs_count rs_pos].
  destruct (Z.ltb_spec (Z.of_nat k + 1) (Z.of_nat (length ps))) as [Hm|Hm].
  - destruct (lookup_lt_is_Some_2 ps (S k) ltac:(lia)) as [[a' b'] Hk']. destruct (flatten_rd _ _ _ _ Hk') as [E1 E2].
    replace (Z.of_nat k + 1) with (Z.of_nat (S k)) by lia. apply runs_bind. eapply runs_perform; [exact E1 |]. apply runs_bind. eapply runs_perform; [exact E2 |].
    pose proof (spans_lookup _ _ _ _ _ _ Hps Hk') as (? & ? & ? & _). rewrite (drop_S _ _ _ Hk') in Erest. cbn [bspans map] in Erest. fold (bspans (drop (S (S k)) ps)) in Erest.
    apply runs_bind. eapply runs_lseek; [exact Hw1 | by apply HG | blia |]. intros w2 Hw2. simpl negb. cbv iota. rewrite range_bytes_ok by lia.
    eapply (IH y _ _ rest); [exact Hw2 | | by rewrite Erest | lia | done | lia | rewrite length_drop; lia | intros d' Hd'; apply HG; by eapply between_trans |].
    + split; [done |]. rewrite Erest. exists (S k), a', b'. cbn [p_block p_remain]. split_and!; (done || blia).
    + intros w3 pos3 rss3 n En Hw3 Hr3. rewrite <- Z.add_assoc. eapply HQ; [|exact Hw3 |]; rewrite length_drop in En; [lia |].
      cbn [beyond]. destruct (Z.ltb_spec (wn + n) (y - x)); [lia |]. replace (wn + n - (y - x)) with n by lia. done.
  - apply runs_ret. assert (rest = []) as -> by (rewrite Erest, drop_ge by lia; done). cbn [total scatter] in *. eapply HQ; [|exact Hw1 |]; [lia |].
    cbn [beyond]. destruct (Z.ltb_spec wn (y - x)); [lia |]. split; [done |]. pose proof (lookup_lt_Some _ _ _ Hk). cbn [p_block p_remain]. split; lia.
Qed.

Lemma runs_RangeSinkWrite data rss sp (w : world) (d : bytes) (pos : Z) (s : stash) (Q : Z * RangeSinkState -> world -> Prop) (G : bytes -> stash -> Prop) :
  at_ w d pos s -> rss_at ps rss pos sp -> spans_ok 0 (nb * BLOCKSIZE) sp -> nb * BLOCKSIZE <= Z.of_nat (length d) ->
  (forall d', between d (scatter d sp data) d' -> G d' s) ->
  (forall w' pos' rss' n, n = Z.min (Z.of_nat (length data)) (total sp) -> at_ w' (scatter d sp data) pos' s -> rss_at ps rss' pos' (beyond n sp) -> Q (n, rss') w') ->
  runs (RangeSinkWrite data rss) w Q G.
Proof.
  intros Hw Hr Hsp Hd HG HQ. unfold RangeSinkWrite. destruct sp as [|[x y] sp].
  - pose proof Hr as (_ & ? & Hz). destruct (Z.leb_spec (p_remain rss) 0); [|lia]. apply runs_ret. eapply (HQ w pos); [simpl; lia | done | done].
  - pose proof Hr as (_ & k & a & b & _ & _ & _ & ? & _ & Hz & _). destruct (Z.leb_spec (p_remain rss) 0); [lia |].
    eapply (runs_sink_loop _ 0); [exact Hw | exact Hr | done | done | done | done | lia | done | done].
Qed.

Lemma runs_rss_start (w : world) (d : bytes) (pos : Z) (s : stash) (Q : option RangeSinkState -> world -> Prop) (G : bytes -> stash -> Prop) :
  ps <> [] -> at_ w d pos s -> G d s ->
  (forall w' pos' rss, at_ w' d pos' s -> rss_at ps rss pos' (bspans ps) -> Q (Some rss) w') -> runs (rss_start (rangeset ps)) w Q G.
Proof.
  intros Hne Hw HG HQ. destruct (ranges_cons ps Hne) as (a & b & ps' & E). assert (H0 : ps !! 0%nat = Some (a, b)) by (by rewrite E). destruct (flatten_rd _ _ _ _ H0) as [E1 E2].
  pose proof (spans_lookup _ _ _ _ _ _ Hps H0) as (? & ? & ? & _). unfold rss_start. apply runs_bind. eapply runs_perform; [exact E1 |].
  apply runs_bind. eapply runs_perform; [exact E2 |]. apply runs_bind. eapply runs_lseek; [exact Hw | done | blia |]. intros w1 Hw1. apply runs_ret.
  eapply HQ; [exact Hw1 |]. assert (bspans ps = (a * BLOCKSIZE, b * BLOCKSIZE) :: bspans (drop 1 ps)) as -> by (by rewrite E).
  split; [done |]. exists 0%nat, a, b. rewrite range_bytes_ok by lia. cbn [p_block p_remain].
  split_and!; (done || blia).
Qed.

(** ** New data *)
Lemma runs_receive fuel : forall pieces rss sp (w : world) (d : bytes) (pos : Z) (s : stash) (Q : list bytes -> world -> Prop) (G : bytes -> stash -> Prop),
  at_ w d pos s -> rss_at ps rss pos sp -> sp <> [] -> spans_ok 0 (nb * BLOCKSIZE) sp -> nb * BLOCKSIZE <= Z.of_nat (length d) ->
  total sp <= Z.of_nat (length (concat pieces)) -> (length (concat pieces) + length pieces < fuel)%nat ->
  (forall d', between d (scatter d sp (concat pieces)) d' -> G d' s) ->
  (forall w' pos' rest, at_ w' (scatter d sp (concat pieces)) pos' s -> concat rest = drop (Z.to_nat (total sp)) (concat pieces) -> Q rest w') ->
  runs (receive_loop fuel pieces rss) w Q G.
Proof.
  induction fuel as [|fuel IH]; intros pieces rss sp w d pos s Q G Hw Hr Hne Hsp Hd Ht Hf HG HQ; [lia |]. cbn [receive_loop].
  assert (Hpos : 0 < total sp).
  { destruct sp as [|[x y] sp]; [done |]. cbn [spans_ok total] in *. destruct Hsp as (? & ? & Hsp). pose proof (total_nonneg _ _ _ Hsp). lia. }
  destruct pieces as [|data pieces]; [simpl in Ht; lia |]. destruct (Nat.eqb_spec (length data) 0) as [Hl|Hl].
  { destruct data; [|done]. eapply IH; [exact Hw | exact Hr | done | done | done | done | simpl in Hf; lia | done | done]. }
  cbn [concat] in *. rewrite length_app in *. cbn [length] in Hf. apply runs_bind.
  assert (Eap : scatter d sp (data ++ concat pieces) = scatter (scatter d sp data) (beyond (Z.of_nat (length data)) sp) (concat pieces)) by (by apply (scatter_app (nb * BLOCKSIZE) 0)).
  pose proof (between_scatter (nb * BLOCKSIZE) 0 d sp data (concat pieces) ltac:(done) Hsp Hd) as Hb1.
  eapply runs_RangeSinkWrite; [exact Hw | exact Hr | done | done | intros d' Hd'; apply HG; by eapply between_weaken |].
  intros w1 pos1 rss1 n En Hw1 Hr1. cbv iota zeta. assert (Ha : spans_ok 0 (nb * BLOCKSIZE) (beyond n sp)) by (apply beyond_ok; [lia | done]).
  assert (Hat : total (beyond n sp) = total sp - n) by (apply (beyond_total (nb * BLOCKSIZE) 0); [lia | done]).
  destruct (beyond n sp) as [|xy sp'] eqn:Eadv.
  - destruct Hr1 as (-> & -> & _). cbn [rangeset rs_count]. rewrite Z.eqb_refl. simpl in Hat. apply runs_ret. eapply HQ.
    + rewrite Eap. assert (beyond (Z.of_nat (length data)) sp = []) as ->; [|exact Hw1].
      apply (beyond_past (nb * BLOCKSIZE) 0); [lia | done].
    + cbn [concat]. replace n with (total sp) by lia. by rewrite drop_app_le by lia.
  - assert (Hn : n = Z.of_nat (length data)).
    { destruct xy as [x y]. cbn [spans_ok total] in *. destruct Ha as (? & ? & Ha). pose proof (total_nonneg _ _ _ Ha). lia. }
    assert (p_block rss1 <> rs_count (rss_tgt rss1)) as Hbl.
    { destruct xy as [x y]. destruct Hr1 as (-> & k & a & b & Hk & -> & _). apply lookup_lt_Some in Hk. cbn [rangeset rs_count]. lia. }
    apply Z.eqb_neq in Hbl. rewrite Hbl. rewrite (drop_ge data) by lia. rewrite <- Hn, Eadv in Eap.
    eapply (IH _ _ (xy :: sp')); [exact Hw1 | exact Hr1 | done | done | rewrite (scatter_length (nb * BLOCKSIZE) 0); done | cbn [concat app]; lia | cbn [concat app length]; lia | |].
    + cbn [concat app]. rewrite <- Eap. intros d' Hd'. apply HG. by eapply between_trans.
    + cbn [concat app]. rewrite <- Eap. intros w2 pos2 rest2 Hw2 Er2. eapply HQ; [exact Hw2 |]. rewrite Er2, Hat, drop_app_ge by lia. f_equal. lia.
Qed.

(** ** Patches

    A patcher that writes [t] to a buffer writes it to the target. *)
Section Patching.
Context (d0 t : bytes) (s : stash) (G : bytes -> stash -> Prop).
Context (Hd0 : nb * BLOCKSIZE <= Z.of_nat (length d0)) (Ht : Z.of_nat (length t) = total (bspans ps)).
Context (HG : forall d', between d0 (scatter d0 (bspans ps) t) d' -> G d' s).

Definition sunk (acc : bytes) (w : world) (rss : RangeSinkState) : Prop :=
  exists pos, at_ w (scatter d0 (bspans ps) acc) pos s /\ rss_at ps rss pos (beyond (Z.of_nat (length acc)) (bspans ps)).

Definition sinks {A} (m1 : collectM A) (m2 : sinkM A) : Prop := forall acc a acc', m1 acc = Ret (a, acc') ->
  acc `prefix_of` acc' /\
  (acc' `prefix_of` t -> forall (w : world) rss, sunk acc w rss -> runs (m2 rss) w (fun '(a', rss') w' => a' = a /\ sunk acc' w' rss') G).

Lemma sinks_ret A (a : A) : sinks (mret a) (sinkM_ret A a).
Proof. intros acc a' acc' [= <- <-]. split; [done |]. intros _ w rss Hw. by apply runs_ret. Qed.

Lemma sinks_bind A B (m1 : collectM A) (m2 : sinkM A) (k1 : A -> collectM B) (k2 : A -> sinkM B) :
  sinks m1 m2 -> (forall a, sinks (k1 a) (k2 a)) -> sinks (m1 ≫= k1) (sinkM_bind A B k2 m2).
Proof.
  intros Hm Hk acc b acc' E. unfold mbind, collectM_bind in E. destruct (m1 acc) as [[a acc1]| |] eqn:E1; try done. simpl in E.
  destruct (Hm _ _ _ E1) as [Hp1 Hr1]. destruct (Hk a _ _ _ E) as [Hp2 Hr2]. split; [by etrans |]. intros Hp3 w rss Hw.
  apply runs_bind. eapply runs_mono; [apply Hr1; [by etrans | done] | | done]. intros [a' rss1] w1 [-> Hw1]. by apply Hr2.
Qed.

Lemma sinks_perform A (m : outcome A) : sinks (perform m) (sinkM_effects A m).
Proof.
  intros acc a acc' E. destruct m as [a0| |]; try done. injection E as <- <-. split; [done |]. intros _ w rss Hw.
  apply runs_bind. eapply runs_perform; [done |]. by apply runs_ret.
Qed.

Lemma sinks_sink data : sinks (collect data) (RangeSinkWrite data).
Proof.
  intros acc a acc' E. injection E as <- <-. split; [by apply prefix_app_r |]. intros [z Ez] w rss (pos & Hw & Hr).
  pose proof (bspans_ok _ _ _ Hps) as Hsp. apply (f_equal length) in Ez as El. rewrite !length_app in El.
  assert (Eap : forall y, scatter d0 (bspans ps) (acc ++ y) = scatter (scatter d0 (bspans ps) acc) (beyond (Z.of_nat (length acc)) (bspans ps)) y).
  { intros y. apply (scatter_app (nb * BLOCKSIZE) 0); done. }
  assert (Hb : forall y z', t = y ++ z' -> between d0 (scatter d0 (bspans ps) t) (scatter d0 (bspans ps) y)).
  { intros y z' ->. apply (between_scatter (nb * BLOCKSIZE) 0); done. }
  eapply runs_RangeSinkWrite; [exact Hw | exact Hr | apply beyond_ok; [lia | done] | rewrite (scatter_length (nb * BLOCKSIZE) 0); done | |].
  - rewrite <- Eap. intros d' Hd'. apply HG. eapply between_mid; [| |exact Hd']; [|by eapply Hb]. eapply Hb. by rewrite Ez, <- app_assoc.
  - rewrite <- Eap. intros w' pos' rss' n En Hw' Hr'. rewrite (beyond_total (nb * BLOCKSIZE) 0) in En by (done || lia). assert (n = Z.of_nat (length data)) as -> by lia.
    split; [done |]. exists pos'. split; [done |]. rewrite length_app, Nat2Z.inj_add, <- (beyond_twice (nb * BLOCKSIZE) 0); (done || lia).
Qed.
End Patching.

(** The output of the patcher of a diff command. *)
Definition diff_makes bz_decompress z_inflate z_deflate malloc (img : bool) (src patch t : bytes) : Prop :=
  exists r, (if img then ApplyImagePatch bz_decompress z_inflate z_deflate (M := collectM) malloc src patch collect None None
             else ApplyBSDiffPatch bz_decompress (M := collectM) malloc src patch 0 collect None) [] = Ret (r, t).

Lemma runs_patch_target bz_decompress z_inflate z_deflate malloc p n b offset len src t (w : world) (d : bytes) (pos : Z) (s : stash) (Q : bool -> world -> Prop) (G : bytes -> stash -> Prop) :
  at_ w d pos s -> nb * BLOCKSIZE <= Z.of_nat (length d) -> ps <> [] -> Z.of_nat (length t) = total (bspans ps) ->
  buffer p = Some b -> 0 <= n < 2 ^ 19 -> n * BLOCKSIZE <= Z.of_nat (length b) -> take (Z.to_nat (n * BLOCKSIZE)) b = src ->
  0 <= offset -> 0 <= len -> offset + len <= Z.of_nat (length (patch_start p)) ->
  diff_makes bz_decompress z_inflate z_deflate malloc (bool_decide (head (cmdname p) = Some 105)) src (take (Z.to_nat len) (drop (Z.to_nat offset) (patch_start p))) t ->
  (forall d', between d (scatter d (bspans ps) t) d' -> G d' s) ->
  (forall w' pos', at_ w' (scatter d (bspans ps) t) pos' s -> Q true w') ->
  runs (patch_target bz_decompress z_inflate z_deflate malloc p offset len n (rangeset ps)) w Q G.
Proof.
  intros Hw Hd Hne Ht Eb Hn Hl Es Ho Hln Hol [r Hr] HG HQ. unfold patch_target. pose proof (bspans_ok _ _ _ Hps) as Hsp.
  apply runs_bind. eapply runs_perform; [by apply sub_bytes_ok |]. 
  apply runs_bind. eapply runs_rss_start; [done | exact Hw | apply HG, between_refl |]. intros w1 pos1 rss1 Hw1 Hr1.
  apply runs_bind. rewrite Eb. destruct (bytes_size n Hn) as [_ ->]. eapply runs_perform; [apply (sub_bytes_ok b); blia |]. rewrite drop_0, Es.
  apply runs_bind. assert (Hw1' : sunk d s [] w1 rss1).
  { exists pos1. rewrite scatter_nil. simpl. by rewrite (beyond_0 (nb * BLOCKSIZE) 0). }
  assert (Hend : forall rss' w', sunk d s t w' rss' -> runs (mret true) w' Q G) by (intros rss2 w2 (pos2 & Hw2 & _); eapply runs_ret, HQ; exact Hw2).
  destruct (bool_decide (head (cmdname p) = Some 105)).
  - pose proof (ApplyImagePatch_rel (M1 := collectM) (M2 := sinkM) (@sinks d t s G) (sinks_ret d t s G) (sinks_bind d t s G) (sinks_perform d t s G) collect RangeSinkWrite
      (sinks_sink d t s G Hd Ht HG) bz_decompress z_inflate z_deflate malloc src (take (Z.to_nat len) (drop (Z.to_nat offset) (patch_start p))) None None) as Hs.
    destruct (Hs _ _ _ Hr) as [_ Hrun]. eapply runs_mono; [by apply Hrun | | done]. intros [a' rss'] w' [_ Hw']. by eapply Hend.
  - pose proof (ApplyBSDiffPatch_rel (M1 := collectM) (M2 := sinkM) (@sinks d t s G) (sinks_ret d t s G) (sinks_bind d t s G) (sinks_perform d t s G) collect RangeSinkWrite
      (sinks_sink d t s G Hd Ht HG) bz_decompress malloc src (take (Z.to_nat len) (drop (Z.to_nat offset) (patch_start p))) 0 None) as Hs.
    destruct (Hs _ _ _ Hr) as [_ Hrun]. eapply runs_mono; [by apply Hrun | | done]. intros [a' rss'] w' [_ Hw']. by eapply Hend.
Qed.
End Sinks.

(** ** Zeroing and erasing *)
Definition zeroes (ps : list (Z * Z)) : bytes := replicate (Z.to_nat (total ps * BLOCKSIZE)) 0.

(** What discarded blocks hold. *)
Definition blanks (blank : bytes) (ps : list (Z * Z)) : bytes :=
  concat (map (fun '(a, b) => let n := Z.to_nat ((b - a) * BLOCKSIZE) in take n (blank ++ replicate n 0)) ps).

Lemma zeroes_length ps lo hi : spans_ok lo hi ps -> Z.of_nat (length (zeroes ps)) = total (bspans ps).
Proof. intros H. pose proof (total_nonneg _ _ _ H). unfold zeroes. rewrite length_replicate, bspans_total. blia. Qed.

Lemma blanks_length blank ps : forall lo hi, spans_ok lo hi ps -> Z.of_nat (length (blanks blank ps)) = total (bspans ps).
Proof.
  unfold blanks. induction ps as [|[a b] ps IH]; intros lo hi H; [done |]. cbn [spans_ok map concat bspans total] in *. destruct H as (? & ? & H).
  rewrite length_app, length_take, length_app, length_replicate. fold (bspans ps). rewrite <- (IH b hi H). blia.
Qed.

Section Fill.
Context (off : bool) (bad : bytes -> Prop) {bad_dec : forall x, Decision (bad x)}.
Abbreviation runs := (runs off bad).
Abbreviation at_ := (at_ off).

Lemma runs_zero_blocks n : forall (w : world) (d : bytes) (x : Z) (s : stash) (Q : bool -> world -> Prop) (G : bytes -> stash -> Prop),
  at_ w d x s -> 0 <= x -> x + Z.of_nat n * BLOCKSIZE <= Z.of_nat (length d) ->
  let data := replicate (Z.to_nat (Z.of_nat n * BLOCKSIZE)) 0 in
  (forall d', between d (store d x data) d' -> G d' s) ->
  (forall w', at_ w' (store d x data) (x + Z.of_nat n * BLOCKSIZE) s -> Q true w') -> runs (zero_blocks n (replicate (Z.to_nat BLOCKSIZE) 0)) w Q G.
Proof.
  induction n as [|n IH]; intros w d x s Q G Hw Hx Hl data HG HQ; cbn [zero_blocks].
  { apply runs_ret, HQ. subst data. simpl. by rewrite store_nil, Z.add_0_r. }
  set (z1 := replicate (Z.to_nat BLOCKSIZE) 0). set (z2 := replicate (Z.to_nat (Z.of_nat n * BLOCKSIZE)) 0).
  assert (Ed : data = z1 ++ z2) by (unfold data, z1, z2; rewrite <- replicate_add; f_equal; blia).
  assert (L1 : Z.of_nat (length z1) = BLOCKSIZE) by (unfold z1; rewrite length_replicate; blia).
  assert (L2 : Z.of_nat (length z2) = Z.of_nat n * BLOCKSIZE) by (unfold z2; rewrite length_replicate; blia).
  assert (Hb : between d (store d x data) (store d x z1)).
  { pose proof (between_scatter (Z.of_nat (length d)) x d [(x, x + Z.of_nat (S n) * BLOCKSIZE)] z1 z2) as Hb. cbn [scatter spans_ok] in Hb.
    rewrite (take_ge (z1 ++ z2)), (take_ge z1), <- Ed in Hb by (rewrite ?length_app; blia). apply Hb; blia. }
  apply runs_bind. eapply runs_write_all; [exact Hw | done | blia | intros d' Hd'; apply HG; by eapply between_weaken |].
  intros w1 Hw1. cbv iota. rewrite L1 in Hw1. assert (E2 : store (store d x z1) (x + BLOCKSIZE) z2 = store d x data) by (rewrite Ed, <- L1; apply store_store; blia).
  eapply IH; [exact Hw1 | blia | rewrite store_length; blia | |]; fold z2; rewrite E2.
  - intros d' Hd'. apply HG. by eapply between_trans.
  - intros w2 Hw2. apply HQ. replace (x + Z.of_nat (S n) * BLOCKSIZE) with (x + BLOCKSIZE + Z.of_nat n * BLOCKSIZE) by blia. done.
Qed.

Lemma scatter_cons d a b ps z1 z2 : 0 <= a < b -> Z.of_nat (length z1) = (b - a) * BLOCKSIZE ->
  scatter d (bspans ((a, b) :: ps)) (z1 ++ z2) = scatter (store d (a * BLOCKSIZE) z1) (bspans ps) z2.
Proof.
  intros Hab L. cbn [bspans map scatter]. fold (bspans ps). rewrite (take_app_length' z1 z2), (drop_app_length' z1 z2) by blia. done.
Qed.

Lemma between_cons nb lo d a b ps z1 z2 : 0 <= lo -> spans_ok lo nb ((a, b) :: ps) -> nb * BLOCKSIZE <= Z.of_nat (length d) -> Z.of_nat (length z1) = (b - a) * BLOCKSIZE ->
  between d (scatter d (bspans ((a, b) :: ps)) (z1 ++ z2)) (store d (a * BLOCKSIZE) z1).
Proof.
  intros Hlo Hs Hd L. pose proof (bspans_ok _ _ _ Hs) as Hbs. cbn [spans_ok] in Hs.
  pose proof (between_first (nb * BLOCKSIZE) (lo * BLOCKSIZE) d (a * BLOCKSIZE) (b * BLOCKSIZE) (bspans ps) (z1 ++ z2) ltac:(blia) Hbs Hd) as H.
  by rewrite (take_app_length' z1 z2) in H by blia.
Qed.

Lemma runs_zero_ranges nb ps : forall lo (w : world) (d : bytes) (pos : Z) (s : stash) (Q : bool -> world -> Prop) (G : bytes -> stash -> Prop),
  at_ w d pos s -> 0 <= lo -> spans_ok lo nb ps -> nb * BLOCKSIZE <= Z.of_nat (length d) ->
  (forall d', between d (scatter d (bspans ps) (zeroes ps)) d' -> G d' s) ->
  (forall w' pos', at_ w' (scatter d (bspans ps) (zeroes ps)) pos' s -> Q true w') -> runs (zero_ranges ps (replicate (Z.to_nat BLOCKSIZE) 0)) w Q G.
Proof.
  induction ps as [|[a b] ps IH]; intros lo w d pos s Q G Hw Hlo Hps Hd HG HQ; cbn [zero_ranges]; [by eapply runs_ret, HQ |].
  pose proof Hps as (? & ? & Hps'). pose proof (total_nonneg _ _ _ Hps'). set (z1 := replicate (Z.to_nat ((b - a) * BLOCKSIZE)) 0).
  assert (L1 : Z.of_nat (length z1) = (b - a) * BLOCKSIZE) by (unfold z1; rewrite length_replicate; blia).
  assert (Ez : zeroes ((a, b) :: ps) = z1 ++ zeroes ps) by (unfold zeroes, z1; cbn [total]; rewrite <- replicate_add; f_equal; blia).
  rewrite Ez in *. pose proof (between_cons nb lo d a b ps z1 (zeroes ps) Hlo Hps Hd L1) as Hb. rewrite scatter_cons in HG, HQ, Hb by (done || lia).
  apply runs_bind. eapply runs_lseek; [exact Hw | apply HG, between_refl | blia |]. intros w1 Hw1. simpl negb. cbv iota.
  apply runs_bind. eapply runs_zero_blocks; [exact Hw1 | blia | blia | |]; rewrite Z2Nat.id by lia; fold z1.
  - intros d' Hd'. apply HG. by eapply between_weaken.
  - intros w2 Hw2. eapply (IH b); [exact Hw2 | lia | done | rewrite store_length; blia | intros d' Hd'; apply HG; by eapply between_trans | done].
Qed.

Lemma runs_erase_loop blank nb ps : forall lo (w : world) (d : bytes) (pos : Z) (s : stash) (Q : bool -> world -> Prop) (G : bytes -> stash -> Prop),
  at_ w d pos s -> 0 <= lo -> spans_ok lo nb ps -> nb < 2 ^ 30 -> nb * BLOCKSIZE <= Z.of_nat (length d) ->
  (forall d', between d (scatter d (bspans ps) (blanks blank ps)) d' -> G d' s) ->
  (forall w' pos', at_ w' (scatter d (bspans ps) (blanks blank ps)) pos' s -> Q true w') -> runs (erase_loop blank ps) w Q G.
Proof.
  induction ps as [|[a b] ps IH]; intros lo w d pos s Q G Hw Hlo Hps Hnb Hd HG HQ; cbn [erase_loop]; [by eapply runs_ret, HQ |].
  pose proof Hps as (? & ? & Hps'). set (z1 := take (Z.to_nat ((b - a) * BLOCKSIZE)) (blank ++ replicate (Z.to_nat ((b - a) * BLOCKSIZE)) 0)).
  assert (L1 : Z.of_nat (length z1) = (b - a) * BLOCKSIZE) by (unfold z1; rewrite length_take, length_app, length_replicate; blia).
  change (blanks blank ((a, b) :: ps)) with (z1 ++ blanks blank ps) in *.
  pose proof (between_cons nb lo d a b ps z1 (blanks blank ps) Hlo Hps Hd L1) as Hb. rewrite scatter_cons in HG, HQ, Hb by (done || lia).
  rewrite (wrap_small 64 (a * BLOCKSIZE)), (swrap_small 32 (b - a)), (wrap_small 64 ((b - a) * BLOCKSIZE)) by (unfold in_range, in_srange; blia).
  apply runs_bind. eapply runs_discard; [exact Hw | blia | blia | blia | |]; fold z1.
  - intros d' Hd'. apply HG. by eapply between_weaken.
  - intros w2 Hw2. eapply (IH b); [exact Hw2 | lia | done | done | rewrite store_length; blia | intros d' Hd'; apply HG; by eapply between_trans | done].
Qed.
End Fill.
