(* ===== verification/BlockLoad.v ===== *)
(** * Loading the source of a command

    The source blocks of a command come from the device and from stashes; when
    the command was interrupted, from the copy that it made of them. *)

From S2P Require Import Prelude.
From S2P Require Import Sha.
From S2P Require Import ShaSpec.
From S2P Require Import CString.
From S2P Require Import LoadKeys.
From S2P Require Import BlockDev.
From S2P Require Import BlockRange.
From S2P Require Import BlockLogic.
From S2P Require Import BlockImg.
From S2P Require Import BlockText.
From S2P Require Import BlockOps.

(** ** Texts of a source *)
Record source := Source {
  so_src : list (Z * Z);
  so_locs : list (Z * Z);
  so_refs : list (bytes * list (Z * Z))
}.

Definition ref_word (r : bytes * list (Z * Z)) : bytes := join 58 [hexid r.1; to_string_raw r.2].

(** The words of [WriteTransfers] of blockimgdiff.py. *)
Definition source_words (so : source) : list bytes :=
  match so_src so, so_refs so with
  | [], refs => str "-" :: map ref_word refs
  | src, [] => [to_string_raw src]
  | src, refs => to_string_raw src :: to_string_raw (so_locs so) :: map ref_word refs
  end.

(** Where the blocks from the device go. *)
Definition so_places (n : Z) (so : source) : list (Z * Z) :=
  match so_src so, so_refs so with
  | [], _ => []
  | _, [] => [(0, n)]
  | _, _ => so_locs so
  end.

(** The [n] blocks of [s] are made of blocks of a device of [nb] blocks and of stashes. *)
Record source_ok (nb n : Z) (s : bytes) (so : source) : Prop := {
  so_size : 0 < n < 2 ^ 19;
  so_length : Z.of_nat (length s) = n * BLOCKSIZE;
  so_dev : spans_ok 0 nb (so_src so);
  so_total : total (so_places n so) = total (so_src so);
  so_places_ok : spans_ok 0 n (so_places n so);
  so_locs_some : so_src so <> [] -> so_refs so <> [] -> so_locs so <> [];
  so_refs_ok : Forall (fun '(c, l) => spans_ok 0 n l /\ l <> [] /\ c = gather s (bspans l)) (so_refs so);
  so_all : forall i, (i < length s)%nat -> covers (bspans (so_places n so)) i \/ Exists (fun '(_, l) => covers (bspans l) i) (so_refs so)
}.

(** What the device and the stashes hold is what the source is made of. *)
Definition source_there (n : Z) (s : bytes) (so : source) (d : bytes) (m : files) : Prop :=
  gather d (bspans (so_src so)) = gather s (bspans (so_places n so)) /\ Forall (fun '(c, _) => m !! hexid c = Some c) (so_refs so).

Lemma hexid_word x : word_ok (hexid x) /\ free_of 58 (hexid x).
Proof.
  pose proof (PrintSha1_chars _ (sha1_ok x)) as Hc. fold (hexid x) in Hc. split; [split|].
  - intros E. apply (f_equal length) in E. unfold hexid in E. rewrite PrintSha1_length, sha1_length in E. done.
  - eapply Forall_impl; [exact Hc |]. simpl. lia.
  - eapply Forall_impl; [exact Hc |]. simpl. lia.
Qed.

Lemma ref_word_ok n c l : spans_ok 0 n l -> word_ok (ref_word (c, l)).
Proof.
  intros Hl. destruct (hexid_word c) as [[Hn Hw] _]. destruct (to_string_raw_word 0 n l ltac:(done) Hl) as [[_ Hr] _]. unfold ref_word. cbn [join fst snd]. split.
  - by destruct (hexid c).
  - apply Forall_app. split; [done |]. constructor; [lia | done].
Qed.

Lemma next_word_ok p x ws : cpos p = rest_of (x :: ws) -> word_ok x -> next_word p = (Some x, set_cpos (rest_of ws) p).
Proof. intros E H. unfold next_word. by rewrite E, strtok_word. Qed.

Lemma next_word_end p : cpos p = None -> next_word p = (None, set_cpos None p).
Proof. intros E. unfold next_word. by rewrite E. Qed.

Lemma join_length ws : Forall word_ok ws -> (length ws <= length (join 32 ws))%nat.
Proof.
  induction 1 as [|x ws [Hx _] Hws IH]; [done |]. destruct ws as [|y ws]; [destruct x; [done | simpl; lia] |].
  change (join 32 (x :: y :: ws)) with (x ++ 32 :: join 32 (y :: ws)). rewrite length_app. destruct x; [done |]. cbn [length] in *. lia.
Qed.

Section Load.
Context (off : bool) (bad : bytes -> Prop) {bad_dec : forall x, Decision (bad x)}.
Abbreviation runs := (runs off bad).
Abbreviation at_ := (at_ off).
Context (junk : bytes) (ctx0 : HASH_CTX) (Hjunk : bytes_ok junk) (Hctx : ctx_shape ctx0).
Context (base : bytes).

(** ** Stashes *)
Section Refs.
Context (n : Z) (s : bytes) (Hn : 0 < n < 2 ^ 19) (Hs : Z.of_nat (length s) = n * BLOCKSIZE).
Context (d : bytes) (pos : Z) (m : files) (G : bytes -> stash -> Prop) (HG : G d (Some m)).

Lemma gather_size l : spans_ok 0 n l -> l <> [] -> 0 < total l < 2 ^ 19 /\ Z.of_nat (length (gather s (bspans l))) = total l * BLOCKSIZE.
Proof.
  intros Hl Hne. pose proof (total_bound 0 n l ltac:(lia) Hl). pose proof (spans_length _ _ _ Hl). split; [destruct l; [done |]; simpl length in *; lia |].
  rewrite (gather_length (n * BLOCKSIZE) 0), bspans_total; [done | done | by apply (bspans_ok 0) | lia].
Qed.

Lemma runs_stash_loop refs : forall fuel st b p (w : world) (Q : CommandParameters -> world -> Prop),
  at_ w d pos (Some m) -> (length refs < fuel)%nat -> cpos p = rest_of (map ref_word refs) -> stashbase p = Some base ->
  Forall (fun '(c, l) => spans_ok 0 n l /\ l <> [] /\ c = gather s (bspans l)) refs ->
  Forall (fun '(c, _) => genuine bad c /\ forall c', m !! hexid c = Some c' -> c' = c) refs ->
  bytes_ok (default [] st) -> buffer p = Some b -> bytes_ok b -> n * BLOCKSIZE <= Z.of_nat (length b) ->
  (forall w' b', at_ w' d pos (Some m) -> bytes_ok b' -> n * BLOCKSIZE <= Z.of_nat (length b') ->
    (Forall (fun '(c, _) => m !! hexid c = Some c) refs -> forall i, b !! i = s !! i \/ Exists (fun '(_, l) => covers (bspans l) i) refs -> b' !! i = s !! i) ->
    Q (set_buffer (Some b') (set_cpos None p)) w') ->
  runs (stash_loop junk ctx0 fuel st p) w Q G.
Proof.
  induction refs as [|[c l] refs IH]; intros fuel st b p w Q Hw Hf Hc Hb Hr Hg Hst Eb Hbo Hbl HQ; (destruct fuel as [|fuel]; [simpl in Hf; lia |]); cbn [stash_loop].
  { rewrite next_word_end by done. apply runs_ret. specialize (HQ w b Hw Hbo Hbl). rewrite <- Eb in HQ. destruct p. apply HQ. intros _ i [?|H]; [done | by inversion H]. }
  apply Forall_cons in Hr as [(Hl & Hne & ->) Hr']. apply Forall_cons in Hg as [[Hgc Hm] Hg']. set (c := gather s (bspans l)) in *.
  rewrite (next_word_ok p (ref_word (c, l)) (map ref_word refs)) by (done || by apply (ref_word_ok n)). cbn [cpos set_cpos stashbase].
  destruct (hexid_word c) as [[Hh _] Hh58]. destruct (to_string_raw_word 0 n l ltac:(done) Hl) as [[Hrn _] Hr58].
  change (Some (ref_word (c, l))) with (rest_by 58 [hexid c; to_string_raw l]). rewrite strtok_by by done. rewrite Hb.
  destruct (gather_size l Hl Hne) as [Ht Hlc]. fold c in Hlc.
  set (p1 := set_cpos (rest_of (map ref_word refs)) p).
  apply runs_bind. eapply (runs_LoadStash off bad junk ctx0 Hjunk Hctx base (total l)); [exact Hw | done | done | lia | done | done | done | |].
  - intros Hnone w1 Hw1. cbv iota. change (-1 =? -1) with true. cbv iota.
    eapply (IH _ _ b p1); [exact Hw1 | simpl in Hf; lia | done | done | done | done | done | done | done | done |].
    intros w2 b2 Hw2 Hb2 Hl2 Hi2. apply HQ; [done | done | done |]. intros Hall. inversion Hall; subst. congruence.
  - intros Hsome w1 sb Hw1 Hsb Hsl Est. cbv iota. change (0 =? -1) with false. cbv iota. rewrite strtok_by by done.
    apply runs_bind. eapply (runs_parse_range off bad n l); [exact Hw1 | done | lia | done | done |]. intros w2 Hw2. apply runs_bind. change (buffer p1) with (buffer p). rewrite Eb.
    eapply runs_perform; [apply (MoveRange_ok n l b sb); (done || lia) |]. simpl.
    pose proof (bspans_ok _ _ _ Hl) as Hls. set (b1 := scatter b (bspans l) sb).
    assert (L1 : length b1 = length b) by (apply (scatter_length (n * BLOCKSIZE) 0); done).
    eapply (IH _ _ b1 (set_buffer (Some b1) p1)); [exact Hw2 | simpl in Hf; lia | done | done | done | done | done | done | by apply bytes_ok_scatter | lia |].
    intros w3 b3 Hw3 Hb3 Hl3 Hi3. apply HQ; [done | done | done |]. intros Hall i Hi. inversion Hall; subst. apply Hi3; [done |].
    assert (Hx : covers (bspans l) i \/ b !! i = s !! i -> b1 !! i = s !! i).
    { intros Hx. apply (scatter_agrees (n * BLOCKSIZE) 0); [done | done | done | lia | by rewrite bspans_total | done]. }
    destruct Hi as [Hi|Hi]; [left; tauto |]. inversion Hi; subst; [left; tauto | by right].
Qed.
End Refs.

(** ** Version 2: the source, and whether it overlaps with the target *)
Definition overlaps (so : source) (tgt : list (Z * Z)) : bool := range_overlaps (rangeset (so_src so)) (rangeset tgt).

Context (nb : Z) (Hnb : nb < 2 ^ 30) (n : Z) (s : bytes) (so : source) (Hso : source_ok nb n s so).
Context (tgt : list (Z * Z)) (Htgt : spans_ok 0 nb tgt) (Htgt0 : tgt <> []).
Context (d : bytes) (m : files) (Hd : nb * BLOCKSIZE <= Z.of_nat (length d)) (Hdo : bytes_ok d).
Context (Hrefs : Forall (fun '(c, _) => genuine bad c /\ forall c', m !! hexid c = Some c' -> c' = c) (so_refs so)).

(** The buffer holds the source if it could be had. *)
Definition loaded (b : bytes) : Prop :=
  bytes_ok b /\ n * BLOCKSIZE <= Z.of_nat (length b) /\ (source_there n s so d m -> take (Z.to_nat (n * BLOCKSIZE)) b = s).

Lemma loaded_by b : bytes_ok b -> n * BLOCKSIZE <= Z.of_nat (length b) ->
  (source_there n s so d m -> forall i, (i < length s)%nat -> b !! i = s !! i) -> loaded b.
Proof.
  intros Hb Hl Hi. pose proof (so_length _ _ _ _ Hso) as Ls. split_and!; [done | done |]. intros Ht. apply list_eq. intros i. destruct (decide (i < length s)%nat) as [H|H].
  - rewrite lookup_take_lt by blia. by apply Hi.
  - rewrite lookup_take_ge, lookup_ge_None_2 by lia. done.
Qed.

Lemma raw_not_dash ps : to_string_raw ps <> str "-".
Proof.
  unfold to_string_raw. destruct (toString_digits (Z.of_nat (length (flatten ps))) ltac:(lia)) as (Hd1 & Hn1 & _).
  destruct (toString 10 _) as [|c t]; [done |]. inversion Hd1; subst. intros [= -> _]. lia.
Qed.

Lemma src_total : total (so_src so) <= n /\ total (so_src so) < 2 ^ 19.
Proof. pose proof (so_size _ _ _ _ Hso). pose proof (total_bound 0 n _ ltac:(lia) (so_places_ok _ _ _ _ Hso)). rewrite (so_total _ _ _ _ Hso) in *. lia. Qed.

Lemma source_cases :
  (so_src so = [] /\ source_words so = str "-" :: map ref_word (so_refs so) /\ so_places n so = []) \/
  (so_src so <> [] /\ so_refs so = [] /\ source_words so = [to_string_raw (so_src so)] /\ so_places n so = [(0, n)]) \/
  (so_src so <> [] /\ so_refs so <> [] /\ source_words so = to_string_raw (so_src so) :: to_string_raw (so_locs so) :: map ref_word (so_refs so) /\ so_places n so = so_locs so).
Proof. clear Hrefs Hso. unfold source_words, so_places. destruct (so_src so); [by left |]. destruct (so_refs so); [right; by left | by right; right]. Qed.

Lemma ref_words_ok : Forall word_ok (map ref_word (so_refs so)).
Proof. apply Forall_map. eapply Forall_impl; [apply (so_refs_ok _ _ _ _ Hso) |]. intros [c l] (Hl & _ & _). by apply (ref_word_ok n). Qed.

Lemma src_word : word_ok (to_string_raw (so_src so)).
Proof. apply (to_string_raw_word 0 nb); [done |]. apply (so_dev _ _ _ _ Hso). Qed.

Lemma source_words_ok : Forall word_ok (source_words so).
Proof.
  pose proof src_word. pose proof ref_words_ok. pose proof (so_places_ok _ _ _ _ Hso) as Hpl.
  destruct source_cases as [(_ & -> & _)|[(_ & _ & -> & _)|(_ & _ & -> & E)]]; constructor; try done; [by vm_compute; repeat constructor |].
  constructor; [|done]. rewrite E in Hpl. by apply (to_string_raw_word 0 n).
Qed.

Lemma stashes_loaded fuel b p (w : world) (pos : Z) (Q : CommandParameters -> world -> Prop) (G : bytes -> stash -> Prop) :
  at_ w d pos (Some m) -> G d (Some m) -> fuel = S (length (default [] (cpos p))) -> cpos p = rest_of (map ref_word (so_refs so)) -> stashbase p = Some base ->
  buffer p = Some b -> bytes_ok b -> n * BLOCKSIZE <= Z.of_nat (length b) ->
  (source_there n s so d m -> forall i, covers (bspans (so_places n so)) i -> b !! i = s !! i) ->
  (forall w' b', at_ w' d pos (Some m) -> loaded b' -> Q (set_buffer (Some b') (set_cpos None p)) w') ->
  runs (stash_loop junk ctx0 fuel None p) w Q G.
Proof.
  intros Hw HG -> Hc Hb Eb Hbo Hbl Hi HQ. eapply (runs_stash_loop n s (so_size _ _ _ _ Hso) (so_length _ _ _ _ Hso) d pos m G HG (so_refs so));
    [exact Hw | | exact Hc | exact Hb | apply (so_refs_ok _ _ _ _ Hso) | exact Hrefs | constructor | exact Eb | exact Hbo | exact Hbl |].
  - rewrite Hc. pose proof (join_length _ ref_words_ok) as Hj. rewrite length_map in Hj. destruct (so_refs so); simpl in *; lia.
  - intros w' b' Hw' Hb' Hl' Hi'. apply HQ; [done |]. apply loaded_by; [done | done |]. intros Ht i Hil. apply Hi'; [apply Ht |].
    destruct (so_all _ _ _ _ Hso i Hil) as [Hc'|Hc']; [left; by apply Hi | by right].
Qed.

(** The blocks that were read, at the front of the buffer. *)
Lemma read_agrees b : total (so_src so) * BLOCKSIZE <= Z.of_nat (length b) -> source_there n s so d m ->
  let b1 := store b 0 (gather d (bspans (so_src so))) in
  take (Z.to_nat (total (bspans (so_places n so)))) b1 = gather s (bspans (so_places n so)).
Proof.
  intros Hl [E _] b1. pose proof (so_dev _ _ _ _ Hso) as Hdev. unfold b1, store. rewrite <- E, bspans_total, (so_total _ _ _ _ Hso), <- bspans_total. simpl.
  apply take_app_length'. rewrite <- (gather_length (nb * BLOCKSIZE) 0 d) by (done || by apply (bspans_ok 0)). lia.
Qed.

Lemma runs_Load2 p (w : world) (pos : Z) (Q : Z * RangeSet * Z * bool * CommandParameters -> world -> Prop) (G : bytes -> stash -> Prop) :
  at_ w d pos (Some m) -> G d (Some m) -> cpos p = rest_of (to_string_raw tgt :: toString 10 n :: source_words so) ->
  stashbase p = Some base -> bytes_ok (default [] (buffer p)) ->
  (forall w' pos' b c, at_ w' d pos' (Some m) -> loaded b -> Q (0, rangeset tgt, n, overlaps so tgt, set_buffer (Some b) (set_cpos c p)) w') ->
  runs (LoadSrcTgtVersion2 junk ctx0 p) w Q G.
Proof.
  intros Hw HG Hc Hb Hbo HQ. unfold LoadSrcTgtVersion2. pose proof (so_size _ _ _ _ Hso) as Hn. pose proof src_total as [Hst Hst'].
  rewrite (next_word_ok _ _ _ Hc) by (by apply (to_string_raw_word 0 nb)). apply runs_bind. eapply (runs_parse_range off bad nb tgt); [exact Hw | done | done | done | done |].
  intros w1 Hw1. rewrite (next_word_ok _ (toString 10 n) (source_words so)) by (done || (apply toString_word; lia)).
  apply runs_bind. eapply runs_perform; [apply strtol_toString; lia |]. cbv zeta. rewrite (swrap_small 32 n) by (unfold in_srange; lia).
  destruct (bytes_size n ltac:(lia)) as [-> _]. apply runs_bind. eapply (runs_allocate off bad junk Hjunk); [exact Hw1 | done | blia | done |].
  intros w2 b Hw2 Hb2 Hl2. pose proof source_words_ok as Hwo. pose proof (so_dev _ _ _ _ Hso) as Hdev. pose proof (so_places_ok _ _ _ _ Hso) as Hpl. pose proof (so_length _ _ _ _ Hso) as Hsl.
  set (b1 := store b 0 (gather d (bspans (so_src so)))). assert (Lg : Z.of_nat (length (gather d (bspans (so_src so)))) = total (so_src so) * BLOCKSIZE).
  { rewrite (gather_length (nb * BLOCKSIZE) 0), bspans_total; [done | done | by apply (bspans_ok 0) | done]. }
  assert (L1 : length b1 = length b) by (apply store_length; blia). assert (Hb1 : bytes_ok b1) by (apply bytes_ok_store; [done | by apply bytes_ok_gather]).
  pose proof source_cases as Hcases. destruct Hcases as [(Es & Ew & Ep)|Hcases]; [rewrite Ew in *|].
  { rewrite (next_word_ok _ (str "-") (map ref_word (so_refs so))) by (done || by inversion Hwo). cbv iota. rewrite bool_decide_true by done.
    apply runs_bind. eapply (stashes_loaded _ b); [exact Hw2 | done | done | done | done | done | done | done | rewrite Ep; intros _ i Hi; by apply covers_nil in Hi |].
    intros w3 b3 Hw3 Hl3. apply runs_ret. specialize (HQ w3 pos b3 None Hw3 Hl3). unfold overlaps in HQ. by rewrite Es in HQ. }
  assert (exists ws, source_words so = to_string_raw (so_src so) :: ws /\ so_src so <> []) as (ws & Ew & Hsne)
    by (destruct Hcases as [(? & _ & -> & _)|(? & _ & -> & _)]; eauto).
  rewrite Ew in Hc, Hwo |- *. rewrite (next_word_ok _ (to_string_raw (so_src so)) ws) by (done || apply src_word). cbv iota.
  rewrite bool_decide_false by apply raw_not_dash. apply runs_bind. eapply (runs_parse_range off bad nb (so_src so)); [exact Hw2 | done | done | done | done |]. intros w3 Hw3.
  apply runs_bind. eapply (runs_ReadBlocks off bad nb (so_src so)); [exact Hw3 | done | done | done | done | blia |]. fold b1. intros w4 pos4 Hw4. cbv iota. change (0 =? -1) with false. cbv iota.
  fold (overlaps so tgt).
  destruct Hcases as [(_ & Er & Ew' & Ep)|(_ & Er & Ew' & Ep)]; rewrite Ew in Ew'; injection Ew' as ->.
  - rewrite next_word_end by done. cbv iota. apply runs_ret. apply (HQ w4 pos4 b1 None Hw4). apply loaded_by; [done | lia |].
    intros Ht i Hi. pose proof (read_agrees b ltac:(blia) Ht) as E. cbv zeta in E. fold b1 in E. rewrite Ep in E. cbn [bspans map total gather] in E.
    apply (f_equal (fun l => l !! i)) in E. rewrite lookup_take_lt in E by blia. rewrite E, app_nil_r, segment_lookup by blia. f_equal.
  - rewrite (next_word_ok _ (to_string_raw (so_locs so)) (map ref_word (so_refs so))) by (done || by (apply Forall_cons in Hwo as [_ Hwo]; inversion Hwo)). cbv iota.
    rewrite Ep in Hpl. apply runs_bind. eapply (runs_parse_range off bad n (so_locs so)); [exact Hw4 | done | lia | done | by apply (so_locs_some _ _ _ _ Hso) |]. intros w5 Hw5.
    pose proof (so_total _ _ _ _ Hso) as Htot. rewrite Ep in Htot. apply runs_bind. eapply runs_perform; [apply (MoveRange_ok n (so_locs so) b1 b1 None); (done || blia) |].
    pose proof (bspans_ok _ _ _ Hpl) as Hpls. set (b2 := scatter b1 (bspans (so_locs so)) b1).
    assert (L2 : length b2 = length b1) by (apply (scatter_length (n * BLOCKSIZE) 0); (done || lia)).
    apply runs_bind. eapply (stashes_loaded _ b2); [exact Hw5 | done | done | done | done | done | by apply bytes_ok_scatter | lia | |].
    + intros Ht i Hi. pose proof (read_agrees b ltac:(blia) Ht) as E. cbv zeta in E. fold b1 in E. rewrite Ep in E, Hi.
      apply (scatter_agrees (n * BLOCKSIZE) 0); [done | done | lia | lia | done | by left].
    + intros w6 b6 Hw6 Hl6. apply runs_ret. by apply (HQ w6 pos4 b6 None).
Qed.

(** ** Version 3: checked against digests *)
Definition hash_words (onehash : bool) (t : bytes) : list bytes := if onehash then [hexid s] else [hexid s; hexid t].

(** The copy of a source that overlaps with the target. *)
Definition saved (m' : files) (fs : option bytes) : Prop :=
  (overlaps so tgt = false /\ m' = m /\ fs = None) \/
  (overlaps so tgt = true /\ m' = m /\ m !! hexid s = Some s /\ fs = None) \/
  (overlaps so tgt = true /\ m !! hexid s = None /\ sameids (<[hexid s := s]> m) m' /\ fs = Some (hexid s)).

Lemma set_freestash_none p : freestash p = None -> set_freestash None p = p.
Proof. destruct p. simpl. by intros ->. Qed.

Section Checked.
Context (t : bytes) (Hgs : genuine bad s) (Hgt : genuine bad t) (Htt : total tgt < 2 ^ 19) (Hlt : Z.of_nat (length t) = total tgt * BLOCKSIZE).
Context (Hms : forall c, m !! hexid s = Some c -> c = s).
Context (Hcan : gather d (bspans tgt) = t \/ source_there n s so d m \/ (overlaps so tgt = true /\ m !! hexid s = Some s)).
Context (p : CommandParameters) (Hb : stashbase p = Some base) (Hbo : bytes_ok (default [] (buffer p))) (Hfs : freestash p = None).
Context (Q : Z * option RangeSet * Z * CommandParameters -> world -> Prop) (G : bytes -> stash -> Prop).
Context (HG : forall m', sameids m m' \/ (overlaps so tgt = true /\ sameids (<[hexid s := s]> m) m') -> G d (Some m')).
Context (HQ1 : gather d (bspans tgt) = t -> forall (w' : world) pos' b c, at_ w' d pos' (Some m) -> bytes_ok b ->
  Q (1, Some (rangeset tgt), n, set_buffer (Some b) (set_cpos c p)) w').
Context (HQ0 : forall (w' : world) pos' b c m' fs, at_ w' d pos' (Some m') -> bytes_ok b -> n * BLOCKSIZE <= Z.of_nat (length b) -> take (Z.to_nat (n * BLOCKSIZE)) b = s -> saved m' fs ->
  Q (0, Some (rangeset tgt), n, set_freestash fs (set_buffer (Some b) (set_cpos c p))) w').

Lemma runs_load_checked (w : world) (pos : Z) ws : at_ w d pos (Some m) -> ws = to_string_raw tgt :: toString 10 n :: source_words so ->
  runs (load_checked junk ctx0 (hexid s) (hexid t) (set_cpos (rest_of ws) p)) w Q G.
Proof.
  intros Hw ->. assert (HG0 : G d (Some m)) by (apply HG; by left). pose proof (so_size _ _ _ _ Hso) as Hn.
  pose proof (spans_length _ _ _ Htgt) as Hlen. pose proof (bspans_ok _ _ _ Htgt) as Htb. destruct (bytes_size (total tgt) ltac:(lia)) as [Esz _].
  unfold load_checked. apply runs_bind. eapply runs_Load2; [exact Hw | done | done | done | done |]. intros w1 pos1 b c Hw1 (Hb1 & Hl1 & Hthere). cbv iota zeta.
  change (0 =? -1) with false. cbv iota. cbn [rangeset rs_size]. rewrite Esz. destruct (uninit_ok junk Hjunk (total tgt * BLOCKSIZE) ltac:(blia)) as [Huo Hul].
  apply runs_bind. eapply runs_malloc; [exact Hw1 | done | blia |]. intros w2 Hw2. simpl negb. cbv iota.
  apply runs_bind. eapply (runs_ReadBlocks off bad nb tgt); [exact Hw2 | done | done | done | done | lia |]. intros w3 pos3 Hw3. cbv iota. change (0 =? -1) with false. cbv iota.
  assert (Lg : Z.of_nat (length (gather d (bspans tgt))) = total tgt * BLOCKSIZE) by (rewrite (gather_length (nb * BLOCKSIZE) 0), bspans_total; done).
  apply runs_bind. eapply (runs_verify off bad ctx0 Hctx); [lia | rewrite store_length; lia | apply bytes_ok_store; [done | by apply bytes_ok_gather] | done |]. intros r Er.
  assert (take (Z.to_nat (total tgt * BLOCKSIZE)) (store (uninit junk (total tgt * BLOCKSIZE)) 0 (gather d (bspans tgt))) = gather d (bspans tgt)) as Et.
  { unfold store. simpl. apply take_app_length'. lia. }
  rewrite Et in Er. case_bool_decide as Hdone; subst r; [by eapply runs_ret, HQ1 |].
  apply runs_bind. eapply (runs_verify off bad ctx0 Hctx n s b); [lia | done | done | done |]. intros r Er. case_bool_decide as Hsame; subst r.
  - destruct (overlaps so tgt) eqn:Eov; [|apply runs_ret; specialize (HQ0 w3 pos3 b c m None); rewrite set_freestash_none in HQ0 by done; apply HQ0; try done; by left].
    apply runs_bind. cbn [stashbase set_buffer set_cpos]. rewrite Hb. eapply (runs_WriteStash off bad base n s b); [exact Hw3 | lia | done | done | intros m' Hm'; apply HG; tauto | |].
    + intros _ [c' Hc'] w4 Hw4. cbv iota. change (negb (0 =? 0)) with false. cbv iota. apply runs_ret. specialize (HQ0 w4 pos3 b c m None). rewrite set_freestash_none in HQ0 by done.
      apply HQ0; try done. right. left. split_and!; try done. by rewrite Hc', (Hms c').
    + intros [?|Hnone] w4 m4 Hm4 Hw4; [done |]. cbv iota. change (negb (0 =? 0)) with false. cbv iota. apply runs_ret. eapply HQ0; [exact Hw4 | done | done | done |].
      right. right. by split_and!.
  - assert (Hov : overlaps so tgt = true /\ m !! hexid s = Some s) by (destruct Hcan as [?|[?|?]]; [done | tauto | done]). destruct Hov as [Eov Hsome]. rewrite Eov.
    apply runs_bind, runs_bind. cbn [stashbase set_buffer set_cpos]. rewrite Hb.
    eapply (runs_LoadStash off bad junk ctx0 Hjunk Hctx base n s); [exact Hw3 | done | done | lia | apply (so_length _ _ _ _ Hso) | done | done | congruence |].
    intros _ w4 b4 Hw4 Hb4 Hl4 E4. cbv iota. apply runs_ret. cbv iota. change (0 =? 0) with true. cbv iota. apply runs_ret.
    specialize (HQ0 w4 pos3 b4 c m None). rewrite set_freestash_none in HQ0 by done. apply HQ0; try done. right. left. by split_and!.
Qed.
End Checked.

Lemma Load3_words onehash t p : (onehash = true -> t = s) -> cpos p = rest_of (hash_words onehash t ++ to_string_raw tgt :: toString 10 n :: source_words so) ->
  LoadSrcTgtVersion3 junk ctx0 onehash p = load_checked junk ctx0 (hexid s) (hexid t) (set_cpos (rest_of (to_string_raw tgt :: toString 10 n :: source_words so)) p).
Proof.
  intros Hone Hc. unfold LoadSrcTgtVersion3. destruct onehash; cbn [hash_words app] in Hc; rewrite (next_word_ok _ _ _ Hc) by apply hexid_word.
  - by rewrite Hone.
  - by rewrite (next_word_ok _ (hexid t) (to_string_raw tgt :: toString 10 n :: source_words so)) by (done || apply hexid_word).
Qed.
End Load.
