(* ===== verification/BlockCmd.v ===== *)
(** * The commands of a transfer list

    What each command does to the device and the stash, and what is there when
    it is interrupted. *)

From S2P Require Import Prelude.
From S2P Require Import Sha.
From S2P Require Import ShaSpec.
From S2P Require Import CString.
From S2P Require Import LoadKeys.
From S2P Require Import BsPatch.
From S2P Require Import ImgPatch.
From S2P Require Import BlockDev.
From S2P Require Import BlockRange.
From S2P Require Import BlockLogic.
From S2P Require Import BlockImg.
From S2P Require Import BlockText.
From S2P Require Import BlockOps.
From S2P Require Import BlockSink.
From S2P Require Import BlockLoad.

(** Between two commands of an update of version 3: [rest] is the new data that
    is still to come. *)
Record ready (base patch rest : bytes) (p : CommandParameters) : Prop := {
  rd_base : stashbase p = Some base;
  rd_write : canwrite p = true;
  rd_version : version p = 3;
  rd_resumable : isunresumable p = false;
  rd_free : freestash p = None;
  rd_new : concat (nti_data p) = rest;
  rd_patch : patch_start p = patch;
  rd_buffer : bytes_ok (default [] (buffer p))
}.

Section Commands.
Context (off : bool) (bad : bytes -> Prop) {bad_dec : forall x, Decision (bad x)}.
Abbreviation runs := (runs off bad).
Abbreviation at_ := (at_ off).
Context (junk : bytes) (ctx0 : HASH_CTX) (Hjunk : bytes_ok junk) (Hctx : ctx_shape ctx0).
Context (base patch : bytes) (nb : Z) (Hnb : nb < 2 ^ 30).

(** ** Commands that read a source and write a target *)
Section Transfer.
Context (n : Z) (s : bytes) (so : source) (Hso : source_ok nb n s so).
Context (tgt : list (Z * Z)) (Htgt : spans_ok 0 nb tgt) (Htgt0 : tgt <> []).
Context (d : bytes) (m : files) (Hd : nb * BLOCKSIZE <= Z.of_nat (length d)) (Hdo : bytes_ok d).
Context (Hrefs : Forall (fun '(c, _) => genuine bad c /\ forall c', m !! hexid c = Some c' -> c' = c) (so_refs so)).
Context (t : bytes) (Hgs : genuine bad s) (Hgt : genuine bad t) (Htt : total tgt < 2 ^ 19) (Hlt : Z.of_nat (length t) = total tgt * BLOCKSIZE).
Context (Hms : forall c, m !! hexid s = Some c -> c = s).
Context (Hcan : gather d (bspans tgt) = t \/ source_there n s so d m \/ (overlaps so tgt = true /\ m !! hexid s = Some s)).
Context (rest : bytes) (p : CommandParameters) (Hp : ready base patch rest p).
Context (Q : Z * CommandParameters -> world -> Prop) (G : bytes -> stash -> Prop).
Abbreviation F := (scatter d (bspans tgt) t).
Abbreviation copied m' := ((overlaps so tgt = false /\ m' = m) \/ (overlaps so tgt = true /\ sameids (<[hexid s := s]> m) m')).
Context (HG : forall m', sameids m m' -> G d (Some m')).
Context (HGw : forall d' m', between d F d' -> copied m' -> G d' (Some m')).
Context (HGf : forall m', sameids m m' -> G F (Some m')).
Context (HQ : forall (w' : world) pos' m' p', at_ w' F pos' (Some m') -> sameids m m' -> ready base patch rest p' -> Q (0, p') w').

Lemma saved_copied m' fs : saved s so tgt m m' fs -> copied m'.
Proof.
  intros [(E & -> & _)|[(E & -> & Em & _)|(E & _ & Em & _)]]; [by left | right | by right]. split; [done |]. intros x. by rewrite insert_id.
Qed.

Lemma target_there : gather d (bspans tgt) = t -> F = d.
Proof. intros <-. apply (scatter_gather (nb * BLOCKSIZE) 0); [done | by apply (bspans_ok 0) | done]. Qed.

(** The copy of the source is deleted if this command made it. *)
Lemma runs_freed m' fs b c fw k (w : world) (pos : Z) : at_ w F pos (Some m') -> saved s so tgt m m' fs -> bytes_ok (default [] b) ->
  let q := set_freestash fs (set_buffer b (set_cpos c p)) in
  runs (p ← free_overlap (if fw : bool then set_foundwrites q else q); mret (0, add_written k p)) w Q G.
Proof.
  intros Hw Hsv Hb q. destruct Hp as [H1 H2 H3 H4 H5 H6 H7 _]. apply runs_bind. unfold free_overlap.
  assert (Efs : freestash (if fw then set_foundwrites q else q) = fs) by (by destruct fw). rewrite Efs.
  assert (Hready : forall q', q' = (if fw then set_foundwrites q else q) -> ready base patch rest (add_written k (set_freestash None q'))).
  { intros q' ->. destruct fw; by constructor. }
  assert (Hnone : fs = None -> sameids m m').
  { intros ->. by destruct Hsv as [(_ & -> & _)|[(_ & -> & _)|(_ & _ & _ & ?)]]. }
  destruct Hsv as [(_ & _ & ->)|[(_ & _ & _ & ->)|(Eov & Em & Hm' & ->)]]; [apply runs_ret, runs_ret; eapply HQ; [exact Hw | by apply Hnone |] ..|].
  1-2: specialize (Hready _ eq_refl); rewrite set_freestash_none in Hready by done; exact Hready.
  apply runs_bind. assert (stashbase (if fw then set_foundwrites q else q) = Some base) as -> by (by destruct fw).
  assert (Hdel : sameids m (delete (hexid s) m')).
  { trans (delete (hexid s) (<[hexid s := s]> m)); [|by apply sameids_delete]. intros x. destruct (decide (hexid s = hexid x)) as [E|E]; [by rewrite <- E, lookup_delete_eq, Em | by rewrite lookup_delete_ne, lookup_insert_ne]. }
  eapply runs_FreeStash; [exact Hw | | by apply HGf |].
  - apply HGw; [apply between_end | by right]. apply (scatter_length (nb * BLOCKSIZE) 0); [done | by apply (bspans_ok 0) | done].
  - intros w1 Hw1. apply runs_ret, runs_ret. eapply HQ; [exact Hw1 | done | by apply Hready].
Qed.

(** The target was written before: nothing is done. *)
Lemma runs_skipped b c k (w : world) (pos : Z) : gather d (bspans tgt) = t -> at_ w d pos (Some m) -> bytes_ok b ->
  runs (p ← free_overlap (set_buffer (Some b) (set_cpos c p)); mret (0, add_written k p)) w Q G.
Proof.
  intros Ht Hw Hb. destruct Hp as [H1 H2 H3 H4 H5 H6 H7 _]. apply runs_bind. unfold free_overlap. cbn [freestash set_buffer set_cpos]. rewrite H5.
  apply runs_ret, runs_ret. rewrite <- (target_there Ht) in Hw. eapply HQ; [exact Hw | done |]. by constructor.
Qed.

Lemma runs_loaded onehash (Q' : Z * option RangeSet * Z * CommandParameters -> world -> Prop) q c0 (w : world) (pos : Z) :
  q = set_cpos c0 p -> (onehash = true -> t = s) -> c0 = rest_of (hash_words s onehash t ++ to_string_raw tgt :: toString 10 n :: source_words so) -> at_ w d pos (Some m) ->
  (gather d (bspans tgt) = t -> forall (w' : world) pos' b c, at_ w' d pos' (Some m) -> bytes_ok b -> Q' (1, Some (rangeset tgt), n, set_buffer (Some b) (set_cpos c p)) w') ->
  (forall (w' : world) pos' b c m' fs, at_ w' d pos' (Some m') -> bytes_ok b -> n * BLOCKSIZE <= Z.of_nat (length b) -> take (Z.to_nat (n * BLOCKSIZE)) b = s -> saved s so tgt m m' fs ->
    Q' (0, Some (rangeset tgt), n, set_freestash fs (set_buffer (Some b) (set_cpos c p))) w') ->
  runs (load_source junk ctx0 onehash q) w Q' G.
Proof.
  intros -> Hone Hc Hw HQ1 HQ0. destruct Hp as [H1 H2 H3 H4 H5 H6 H7 H8]. unfold load_source. cbn [version set_cpos]. rewrite H3. simpl.
  rewrite (Load3_words junk ctx0 n s so tgt onehash t) by done.
  eapply (runs_load_checked off bad junk ctx0 Hjunk Hctx base nb Hnb n s so Hso tgt Htgt Htgt0 d m Hd Hdo Hrefs t Hgs Hgt Htt Hlt Hms Hcan (set_cpos c0 p)); try done.
  - intros m' [Hm'|[Eov Hm']]; [by apply HG |]. apply HGw; [apply between_refl | by right].
Qed.

Lemma runs_Move (w : world) (pos : Z) : t = s -> cpos p = rest_of (hash_words s true t ++ to_string_raw tgt :: toString 10 n :: source_words so) -> at_ w d pos (Some m) ->
  runs (PerformCommandMove junk ctx0 p) w Q G.
Proof.
  intros Ets Hc Hw. unfold PerformCommandMove. apply runs_bind. eapply (runs_loaded true _ p (cpos p)); [by destruct p | done | exact Hc | exact Hw | |].
  - intros Ht w1 pos1 b c Hw1 Hb. cbv iota. change (1 =? -1) with false. change (1 =? 0) with false. cbv iota zeta. rewrite andb_false_r.
    apply runs_bind, runs_ret. change (0 =? -1) with false. cbv iota. by eapply runs_skipped.
  - intros w1 pos1 b c m1 fs Hw1 Hb Hl Es Hsv. cbv iota. change (0 =? -1) with false. change (0 =? 0) with true. cbv iota zeta.
    cbn [canwrite buffer set_foundwrites set_freestash set_buffer set_cpos]. rewrite (rd_write _ _ _ _ Hp). cbv iota.
    assert (EF : F = scatter d (bspans tgt) b).
    { rewrite <- (scatter_take (nb * BLOCKSIZE) 0 d (bspans tgt) b) by (by apply (bspans_ok 0)). rewrite bspans_total. f_equal. rewrite Ets in *.
      assert (total tgt = n) as -> by (pose proof (so_length _ _ _ _ Hso); blia). done. }
    apply runs_bind. eapply (runs_WriteBlocks off bad nb tgt); [exact Hw1 | done | done | done | | |].
    + pose proof (so_length _ _ _ _ Hso). rewrite Ets in *. lia.
    + rewrite <- EF. intros d' Hd'. apply HGw; [done | by eapply saved_copied].
    + rewrite <- EF. intros w2 pos2 Hw2. change (0 =? -1) with false. cbv iota. apply (runs_freed m1 fs (Some b) c true (rs_size (rangeset tgt)) w2 pos2); done.
Qed.

Lemma runs_Diff bz_decompress z_inflate z_deflate malloc offset len (w : world) (pos : Z) :
  0 <= offset -> 0 <= len -> offset + len <= Z.of_nat (length patch) -> Z.of_nat (length patch) < 2 ^ 63 ->
  diff_makes bz_decompress z_inflate z_deflate malloc (bool_decide (head (cmdname p) = Some 105)) s (take (Z.to_nat len) (drop (Z.to_nat offset) patch)) t ->
  cpos p = rest_of (toString 10 offset :: toString 10 len :: hash_words s false t ++ to_string_raw tgt :: toString 10 n :: source_words so) -> at_ w d pos (Some m) ->
  runs (PerformCommandDiff bz_decompress z_inflate z_deflate malloc junk ctx0 p) w Q G.
Proof.
  intros Ho Hln Hol Hpl Hmk Hc Hw. pose proof (so_size _ _ _ _ Hso). unfold PerformCommandDiff. rewrite bool_decide_false by (by rewrite Hc).
  rewrite (next_word_ok _ _ _ Hc) by (apply toString_word; lia). cbv iota. apply runs_bind. eapply runs_perform; [apply strtoul_toString; lia |].
  rewrite (next_word_ok _ (toString 10 len) (hash_words s false t ++ to_string_raw tgt :: toString 10 n :: source_words so)) by (done || (apply toString_word; lia)).
  cbv iota. apply runs_bind. eapply runs_perform; [apply strtoul_toString; lia |].
  apply runs_bind. eapply (runs_loaded false _ _ (rest_of (hash_words s false t ++ to_string_raw tgt :: toString 10 n :: source_words so))); [done | done | done | exact Hw | |].
  - intros Ht w1 pos1 b c Hw1 Hb. cbv iota. change (1 =? -1) with false. change (1 =? 0) with false. cbv iota zeta. rewrite andb_false_r.
    apply runs_bind, runs_ret. simpl negb. cbv iota. by eapply runs_skipped.
  - intros w1 pos1 b c m1 fs Hw1 Hb Hl Es Hsv. cbv iota. change (0 =? -1) with false. change (0 =? 0) with true. cbv iota zeta.
    cbn [canwrite set_foundwrites set_freestash set_buffer set_cpos]. rewrite (rd_write _ _ _ _ Hp). cbv iota.
    apply runs_bind. eapply (runs_patch_target off bad nb tgt Htgt Htt); [exact Hw1 | done | done | by rewrite bspans_total | done | lia | done | exact Es | done | done | | | |].
    + cbn [patch_start set_foundwrites set_freestash set_buffer set_cpos]. by rewrite (rd_patch _ _ _ _ Hp).
    + cbn [patch_start set_foundwrites set_freestash set_buffer set_cpos cmdname]. rewrite (rd_patch _ _ _ _ Hp). exact Hmk.
    + intros d' Hd'. apply HGw; [done | by eapply saved_copied].
    + intros w2 pos2 Hw2. simpl negb. cbv iota. apply (runs_freed m1 fs (Some b) c true (rs_size (rangeset tgt)) w2 pos2); done.
Qed.
End Transfer.

(** ** Stashing *)
Lemma runs_Load1 ps p (w : world) (d : bytes) (pos : Z) (s : stash) (Q : Z * option RangeSet * Z * CommandParameters -> world -> Prop) (G : bytes -> stash -> Prop) :
  at_ w d pos s -> G d s -> bytes_ok d -> nb * BLOCKSIZE <= Z.of_nat (length d) -> spans_ok 0 nb ps -> ps <> [] -> total ps < 2 ^ 19 -> cpos p = rest_of [to_string_raw ps] ->
  bytes_ok (default [] (buffer p)) ->
  (forall w' pos' b c, at_ w' d pos' s -> bytes_ok b -> total ps * BLOCKSIZE <= Z.of_nat (length b) -> take (Z.to_nat (total ps * BLOCKSIZE)) b = gather d (bspans ps) ->
    Q (0, None, total ps, set_buffer (Some b) (set_cpos c p)) w') ->
  runs (LoadSrcTgtVersion1 junk false p) w Q G.
Proof.
  intros Hw HG Hdo Hd Hps Hne Ht Hc Hb HQ. unfold LoadSrcTgtVersion1. rewrite (next_word_ok _ _ _ Hc) by (by apply (to_string_raw_word 0 nb)).
  apply runs_bind. eapply (runs_parse_range off bad nb ps); [exact Hw | done | done | done | done |]. intros w1 Hw1. apply runs_bind, runs_ret. cbv iota.
  pose proof (spans_length _ _ _ Hps) as Hl. assert (0 < total ps) by (destruct ps; [done | simpl length in Hl; lia]).
  cbn [rangeset rs_size]. destruct (bytes_size (total ps) ltac:(lia)) as [-> _].
  apply runs_bind. eapply (runs_allocate off bad junk Hjunk); [exact Hw1 | done | blia | done |]. intros w2 b Hw2 Hb2 Hl2.
  apply runs_bind. eapply (runs_ReadBlocks off bad nb ps); [exact Hw2 | done | done | done | done | lia |]. intros w3 pos3 Hw3. cbv iota. apply runs_ret.
  assert (Lg : Z.of_nat (length (gather d (bspans ps))) = total ps * BLOCKSIZE) by (rewrite (gather_length (nb * BLOCKSIZE) 0), bspans_total; [done | done | by apply (bspans_ok 0) | done]).
  eapply (HQ w3 pos3); [exact Hw3 | apply bytes_ok_store; [done | by apply bytes_ok_gather] | rewrite store_length; lia |].
  unfold store. simpl. apply take_app_length'. lia.
Qed.

Lemma runs_Stash ps c rest p (w : world) (d : bytes) (pos : Z) (m : files) (Q : Z * CommandParameters -> world -> Prop) (G : bytes -> stash -> Prop) :
  at_ w d pos (Some m) -> bytes_ok d -> nb * BLOCKSIZE <= Z.of_nat (length d) -> spans_ok 0 nb ps -> ps <> [] -> total ps < 2 ^ 19 ->
  genuine bad c -> Z.of_nat (length c) = total ps * BLOCKSIZE -> (forall c', m !! hexid c = Some c' -> c' = c) ->
  ready base patch rest p -> cpos p = rest_of [hexid c; to_string_raw ps] ->
  (forall m', sameids m m' \/ (gather d (bspans ps) = c /\ sameids (<[hexid c := c]> m) m') -> G d (Some m')) ->
  (forall w' pos' m' p', at_ w' d pos' (Some m') -> ready base patch rest p' ->
    (m' = m /\ (m !! hexid c = Some c \/ gather d (bspans ps) <> c)) \/ (gather d (bspans ps) = c /\ sameids (<[hexid c := c]> m) m') -> Q (0, p') w') ->
  runs (PerformCommandStash junk ctx0 p) w Q G.
Proof.
  intros Hw Hdo Hd Hps Hne Ht Hg Hlc Hm Hp Hc HG HQ. destruct Hp as [H1 H2 H3 H4 H5 H6 H7 H8]. assert (HG0 : G d (Some m)) by (apply HG; by left).
  pose proof (spans_length _ _ _ Hps) as Hl. assert (0 < total ps) by (destruct ps; [done | simpl length in Hl; lia]).
  unfold PerformCommandStash. rewrite H3. rewrite (next_word_ok _ _ _ Hc) by apply hexid_word. cbv iota zeta. change (3 <=? 3) with true. cbv iota.
  cbn [stashbase set_cpos buffer]. rewrite H1. apply runs_bind, runs_bind.
  eapply (runs_LoadStash off bad junk ctx0 Hjunk Hctx base (total ps) c); [exact Hw | done | done | lia | done | done | done | |].
  - intros Hnone w1 Hw1. cbv iota. apply runs_ret. cbv iota. change (-1 =? 0) with false. cbv iota.
    apply runs_bind. eapply runs_Load1; [exact Hw1 | done | done | done | done | done | done | done | done |]. intros w2 pos2 b c2 Hw2 Hb2 Hl2 Eb2. cbv iota.
    change (0 =? -1) with false. cbv iota. apply runs_bind. eapply (runs_verify off bad ctx0 Hctx (total ps) c b); [lia | done | done | done |]. intros r Er. rewrite Eb2 in Er.
    case_bool_decide as Hsame; subst r; simpl negb; cbv iota.
    + apply runs_bind. cbn [stashbase set_buffer set_cpos buffer]. rewrite H1.
      eapply (runs_WriteStash off bad base (total ps) c b); [exact Hw2 | lia | done | by rewrite Eb2 | intros m' Hm'; apply HG; tauto | done |].
      intros _ w3 m3 Hm3 Hw3. apply runs_ret. eapply HQ; [exact Hw3 | by constructor | by right].
    + apply runs_ret. eapply HQ; [exact Hw2 | by constructor | left; by split; [|right]].
  - intros Hsome w1 b Hw1 Hb1 Hl1 _. cbv iota. apply runs_ret. cbv iota. change (0 =? 0) with true. cbv iota. apply runs_ret.
    eapply HQ; [exact Hw1 | by constructor | left; by split; [|left]].
Qed.

Lemma runs_Free c rest p (w : world) (d : bytes) (pos : Z) (m : files) (Q : Z * CommandParameters -> world -> Prop) (G : bytes -> stash -> Prop) :
  at_ w d pos (Some m) -> ready base patch rest p -> cpos p = rest_of [hexid c] -> G d (Some m) -> G d (Some (delete (hexid c) m)) ->
  (forall w' p', at_ w' d pos (Some (delete (hexid c) m)) -> ready base patch rest p' -> Q (0, p') w') -> runs (PerformCommandFree p) w Q G.
Proof.
  intros Hw Hp Hc HG1 HG2 HQ. unfold PerformCommandFree. rewrite (rd_write _ _ _ _ Hp), orb_true_r, (rd_base _ _ _ _ Hp), Hc. cbn [rest_by join].
  apply runs_bind. eapply runs_FreeStash; [exact Hw | done | done |]. intros w1 Hw1. by apply runs_ret, HQ.
Qed.

(** ** Commands that only write *)
Section Write.
Context (ps : list (Z * Z)) (Hps : spans_ok 0 nb ps) (Hne : ps <> []) (Htot : total ps < 2 ^ 19).
Context (data rest rest' : bytes) (p : CommandParameters) (Hp : ready base patch rest p) (Hc : cpos p = rest_of [to_string_raw ps]).
Context (w : world) (d : bytes) (pos : Z) (s : stash) (Hw : at_ w d pos s) (Hd : nb * BLOCKSIZE <= Z.of_nat (length d)).
Context (Q : Z * CommandParameters -> world -> Prop) (G : bytes -> stash -> Prop).
Context (HG : forall d', between d (scatter d (bspans ps) data) d' -> G d' s).
Context (HQ : forall w' pos' p', at_ w' (scatter d (bspans ps) data) pos' s -> ready base patch rest' p' -> Q (0, p') w').

Lemma runs_Zero : data = zeroes ps -> rest' = rest -> runs (PerformCommandZero junk p) w Q G.
Proof.
  intros -> ->. destruct Hp as [H1 H2 H3 H4 H5 H6 H7 H8]. assert (HG0 : G d s) by (apply HG, between_refl). unfold PerformCommandZero.
  rewrite (next_word_ok _ _ _ Hc) by (by apply (to_string_raw_word 0 nb)). cbv iota. apply runs_bind.
  eapply (runs_parse_range off bad nb ps); [exact Hw | done | done | done | done |]. intros w1 Hw1.
  apply runs_bind. eapply (runs_allocate off bad junk Hjunk); [exact Hw1 | done | by unfold BLOCKSIZE | done |]. intros w2 b Hw2 Hb2 Hl2. cbv zeta.
  cbn [canwrite set_buffer set_cpos]. rewrite H2, rs_pairs_rangeset. apply runs_bind.
  eapply (runs_zero_ranges off bad nb ps 0); [exact Hw2 | done | done | done | done |]. intros w3 pos3 Hw3. simpl negb. cbv iota. apply runs_ret.
  eapply HQ; [exact Hw3 |]. assert (bytes_ok (replicate (Z.to_nat BLOCKSIZE) 0 ++ drop (Z.to_nat BLOCKSIZE) b)).
  { apply Forall_app. split; [apply Forall_replicate; unfold in_range; lia | by apply Forall_drop]. }
  destruct (bool_decide _); by constructor.
Qed.

Lemma runs_Erase blank : data = blanks blank ps -> rest' = rest -> runs (PerformCommandErase blank true p) w Q G.
Proof.
  intros -> ->. destruct Hp as [H1 H2 H3 H4 H5 H6 H7 H8]. assert (HG0 : G d s) by (apply HG, between_refl). unfold PerformCommandErase.
  apply runs_bind. eapply runs_syscall; [exact Hw | done |]. intros w0 Hw0. simpl negb. cbv iota.
  rewrite (next_word_ok _ _ _ Hc) by (by apply (to_string_raw_word 0 nb)). cbv iota. apply runs_bind.
  eapply (runs_parse_range off bad nb ps); [exact Hw0 | done | done | done | done |]. intros w1 Hw1.
  cbn [canwrite set_buffer set_cpos]. rewrite H2, rs_pairs_rangeset. apply runs_bind.
  eapply (runs_erase_loop off bad blank nb ps 0); [exact Hw1 | done | done | done | done | done |]. intros w3 pos3 Hw3. cbv iota. apply runs_ret.
  eapply HQ; [exact Hw3 |]. by constructor.
Qed.

Lemma runs_New : rest = data ++ rest' -> Z.of_nat (length data) = total ps * BLOCKSIZE -> runs (PerformCommandNew p) w Q G.
Proof.
  intros Er Hl. pose proof Hp as [H1 H2 H3 H4 H5 H6 H7 H8]. assert (HG0 : G d s) by (apply HG, between_refl). pose proof (bspans_ok _ _ _ Hps) as Hsp. unfold PerformCommandNew.
  rewrite (next_word_ok _ _ _ Hc) by (by apply (to_string_raw_word 0 nb)). cbv iota. apply runs_bind.
  eapply (runs_parse_range off bad nb ps); [exact Hw | done | done | done | done |]. intros w1 Hw1.
  cbn [canwrite set_cpos nti_data]. rewrite H2. apply runs_bind. eapply (runs_rss_start off bad nb ps Hps Htot); [done | exact Hw1 | done |]. intros w2 pos2 rss2 Hw2 Hr2. cbv iota.
  assert (Esc : scatter d (bspans ps) (concat (nti_data p)) = scatter d (bspans ps) data).
  { rewrite H6, Er, <- (scatter_take (nb * BLOCKSIZE) 0 d _ (data ++ rest')) by done. f_equal. rewrite bspans_total. apply take_app_length'. blia. }
  apply runs_bind. unfold receive_new_data. apply runs_bind, runs_look.
  eapply (runs_receive off bad nb ps Hps Htot); [exact Hw2 | exact Hr2 | by destruct ps as [|[? ?] ?] | done | done | | lia | by rewrite Esc |].
  - rewrite H6, Er, bspans_total, length_app. blia.
  - rewrite Esc. intros w3 pos3 rest3 Hw3 E3. apply runs_ret. eapply HQ; [exact Hw3 |]. constructor; try done.
    cbn [nti_data add_written set_nti]. rewrite E3, H6, Er, bspans_total. apply drop_app_length'. blia.
Qed.
End Write.
End Commands.
