(* ===== verification/BlockPlan.v ===== *)
(** * Plans of a block update

    A transfer list as the list of its commands, with the contents it is about:
    its text, the images it leads through, and what makes it one that can be
    interrupted anywhere. *)

From S2P Require Import Prelude.
From S2P Require Import Sha.
From S2P Require Import ShaSpec.
From S2P Require Import CString.
From S2P Require Import LoadKeys.
From S2P Require Import BsPatch.
From S2P Require Import ImgPatch.
From S2P Require Import BlockDev.
From S2P Require Import BlockRange.
From S2P Require Import BlockLogic.
From S2P Require Import BlockImg.
From S2P Require Import BlockText.
From S2P Require Import BlockOps.
From S2P Require Import BlockSink.
From S2P Require Import BlockLoad.

(** Contents are given where the list has their digests: [c] of a stash, [s] of
    a source, [t] of a target. *)
Inductive command :=
  | CStash (ps : list (Z * Z)) (c : bytes)
  | CFree (c : bytes)
  | CMove (tgt : list (Z * Z)) (so : source) (s : bytes)
  | CDiff (img : bool) (offset len : Z) (tgt : list (Z * Z)) (so : source) (s t : bytes)
  | CZero (tgt : list (Z * Z))
  | CNew (tgt : list (Z * Z)) (t : bytes)
  | CErase (tgt : list (Z * Z)).

Definition nblocks (s : bytes) : Z := Z.of_nat (length s) / BLOCKSIZE.

(** ** The text *)
Definition cmd_name (c : command) : bytes :=
  match c with
  | CStash _ _ => str "stash"
  | CFree _ => str "free"
  | CMove _ _ _ => str "move"
  | CDiff true _ _ _ _ _ _ => str "imgdiff"
  | CDiff false _ _ _ _ _ _ => str "bsdiff"
  | CZero _ => str "zero"
  | CNew _ _ => str "new"
  | CErase _ => str "erase"
  end.

Definition transfer_words (tgt : list (Z * Z)) (so : source) (s : bytes) : list bytes :=
  to_string_raw tgt :: toString 10 (nblocks s) :: source_words so.

Definition cmd_args (c : command) : list bytes :=
  match c with
  | CStash ps c => [hexid c; to_string_raw ps]
  | CFree c => [hexid c]
  | CMove tgt so s => hexid s :: transfer_words tgt so s
  | CDiff _ offset len tgt so s t => toString 10 offset :: toString 10 len :: hexid s :: hexid t :: transfer_words tgt so s
  | CZero tgt | CNew tgt _ | CErase tgt => [to_string_raw tgt]
  end.

Definition cmd_line (c : command) : bytes := join 32 (cmd_name c :: cmd_args c).

(** Version 3, the number of blocks, and the stash entries and blocks. *)
Definition plan_text (total_blocks entries max_blocks : Z) (cmds : list command) : bytes :=
  lines_text ([toString 10 3; toString 10 total_blocks; toString 10 entries; toString 10 max_blocks] ++ map cmd_line cmds).

(** ** What it does *)
Definition target (c : command) : list (Z * Z) :=
  match c with
  | CStash _ _ | CFree _ => []
  | CMove tgt _ _ | CDiff _ _ _ tgt _ _ _ | CZero tgt | CNew tgt _ | CErase tgt => tgt
  end.

Definition target_data (blank : bytes) (c : command) : bytes :=
  match c with
  | CStash _ _ | CFree _ => []
  | CMove _ _ s => s
  | CDiff _ _ _ _ _ _ t => t
  | CZero tgt => zeroes tgt
  | CNew _ t => t
  | CErase tgt => blanks blank tgt
  end.

Definition reads (c : command) : list (Z * Z) :=
  match c with
  | CStash ps _ => ps
  | CMove _ so _ | CDiff _ _ _ _ so _ _ => so_src so
  | _ => []
  end.

Definition uses (c : command) : list bytes :=
  match c with
  | CMove _ so _ | CDiff _ _ _ _ so _ _ => (so_refs so).*1
  | _ => []
  end.

(** The contents whose digests are in the text. *)
Definition contents (c : command) : list bytes :=
  match c with
  | CStash _ c | CFree c => [c]
  | CMove _ so s => s :: (so_refs so).*1
  | CDiff _ _ _ _ so s t => s :: t :: (so_refs so).*1
  | _ => []
  end.

(** The source, when source and target overlap. *)
Definition copies (c : command) : option bytes :=
  match c with
  | CMove tgt so s | CDiff _ _ _ tgt so s _ => if overlaps so tgt then Some s else None
  | _ => None
  end.

Definition new_data (c : command) : bytes := match c with CNew _ t => t | _ => [] end.

Section Plan.
Context (blank : bytes) (A : bytes) (cmds : list command).

Definition perform_command (img : bytes) (c : command) : bytes := scatter img (bspans (target c)) (target_data blank c).

(** The device after [k] commands. *)
Definition image (k : nat) : bytes := foldl perform_command A (take k cmds).

Definition expected : list bytes := concat (map contents cmds).

(** A buffer that has the digest of an expected one, and is another. *)
Definition collision (x : bytes) : Prop := Exists (fun e => sha1 x = sha1 e /\ x <> e) expected.

#[global] Instance collision_dec x : Decision (collision x).
Proof. unfold collision. apply _. Defined.

Context (bz_decompress : bytes -> bytes * bz_end) (z_inflate : bytes -> bytes * bool).
Context (z_deflate : deflate_params -> bytes -> Z -> option (list bytes)) (malloc : Z -> option bytes).
Context (nb : Z) (patch : bytes).

Definition ranges_ok (ps : list (Z * Z)) : Prop := spans_ok 0 nb ps /\ ps <> [] /\ total ps < 2 ^ 19.

Definition disjoint (ps qs : list (Z * Z)) : Prop := Forall (fun '(a, b) => Forall (fun '(c, d) => b <= c \/ d <= a) qs) ps.

(** The source is made of what the image [A] holds. *)
Definition source_from (so : source) (s : bytes) : Prop :=
  source_ok nb (nblocks s) s so /\ gather A (bspans (so_src so)) = gather s (bspans (so_places (nblocks s) so)).

Definition cmd_ok (c : command) : Prop :=
  match c with
  | CStash ps c => ranges_ok ps /\ gather A (bspans ps) = c
  | CFree c => True
  | CMove tgt so s => ranges_ok tgt /\ source_from so s /\ Z.of_nat (length s) = total tgt * BLOCKSIZE
  | CDiff img offset len tgt so s t => ranges_ok tgt /\ source_from so s /\ Z.of_nat (length t) = total tgt * BLOCKSIZE /\
      0 <= offset /\ 0 <= len /\ offset + len <= Z.of_nat (length patch) /\
      diff_makes bz_decompress z_inflate z_deflate malloc img s (take (Z.to_nat len) (drop (Z.to_nat offset) patch)) t
  | CZero tgt | CErase tgt => ranges_ok tgt
  | CNew tgt t => ranges_ok tgt /\ Z.of_nat (length t) = total tgt * BLOCKSIZE
  end.

(** A list that can be interrupted. [GenerateDigraph] and the order of the
    transfers of blockimgdiff.py establish that no block is written twice, that
    none is written before it is read, and that what a command uses was
    stashed. That nothing is used again once it was freed ([pl_not_freed]) is a
    condition the generator does not guarantee: it counts the uses of a digest
    and may stash and use the same blocks again after a free. And no two of the
    expected buffers have the same digest. *)
Record plan_ok : Prop := {
  pl_size : 0 < nb < 2 ^ 30 /\ nb * BLOCKSIZE = Z.of_nat (length A);
  pl_bytes : bytes_ok A /\ bytes_ok blank /\ Forall bytes_ok expected /\ Forall (fun c => bytes_ok (new_data c)) cmds;
  pl_patch : Z.of_nat (length patch) < 2 ^ 63;
  pl_commands : Forall cmd_ok cmds;
  pl_written_once : forall i j c c', (i < j)%nat -> cmds !! i = Some c -> cmds !! j = Some c' -> disjoint (target c) (target c');
  pl_read_first : forall i j c c', (i < j)%nat -> cmds !! i = Some c -> cmds !! j = Some c' -> disjoint (target c) (reads c');
  pl_stashed : forall j c x, cmds !! j = Some c -> x ∈ uses c -> exists i ps, (i < j)%nat /\ cmds !! i = Some (CStash ps x);
  pl_not_freed : forall i j x c, (i < j)%nat -> cmds !! i = Some (CFree x) -> cmds !! j = Some c -> (x ∉ uses c) /\ copies c <> Some x;
  pl_digests : forall x y, x ∈ expected -> y ∈ expected -> sha1 x = sha1 y -> x = y
}.

(** ** The medium between and in the commands

    [k] commands are complete; the [k]-th is perhaps in part. *)
Record inv (k : nat) (d : bytes) (m : files) : Prop := {
  iv_k : (k <= length cmds)%nat;
  iv_dev : between (image k) (image (S k)) d;
  iv_files : forall e c, e ∈ expected -> m !! hexid e = Some c -> c = e;
  iv_stash : forall i j ps x c, (i < k)%nat -> (k <= j)%nat -> cmds !! i = Some (CStash ps x) -> cmds !! j = Some c -> x ∈ uses c -> m !! hexid x = Some x;
  iv_copy : forall c s, cmds !! k = Some c -> copies c = Some s -> d = image k \/ m !! hexid s = Some s
}.
End Plan.

(** ** Ranges *)
Lemma bspans_covers ps i : covers (bspans ps) i <-> Exists (fun '(a, b) => a * BLOCKSIZE <= Z.of_nat i < b * BLOCKSIZE) ps.
Proof. unfold covers, bspans. rewrite Exists_map. split; intros H; (eapply Exists_impl; [exact H | by intros [a b]]). Qed.

Lemma disjoint_covers ps qs i : disjoint ps qs -> covers (bspans ps) i -> covers (bspans qs) i -> False.
Proof.
  rewrite !bspans_covers. intros Hd Hp Hq. apply Exists_exists in Hp as ([a b] & Hin & Hab). apply Exists_exists in Hq as ([c e] & Hin' & Hce).
  unfold disjoint in Hd. rewrite Forall_forall in Hd. specialize (Hd _ Hin). simpl in Hd. rewrite Forall_forall in Hd. specialize (Hd _ Hin'). simpl in Hd. blia.
Qed.

Lemma overlaps_disjoint so tgt : overlaps so tgt = false -> disjoint (so_src so) tgt.
Proof.
  unfold overlaps, range_overlaps, disjoint. rewrite !rs_pairs_rangeset. intros E. apply Forall_forall. intros [a b] Hin. apply Forall_forall. intros [c e] Hin'.
  assert (H : negb ((b <=? c) || (e <=? a)) <> true).
  { intros Hx. apply not_true_iff_false in E. apply E, existsb_exists. exists (a, b). split; [by apply list_elem_of_In |]. apply existsb_exists. exists (c, e). split; [by apply list_elem_of_In | done]. }
  destruct (Z.leb_spec b c), (Z.leb_spec e a); simpl in H; (lia || tauto).
Qed.

Section PlanFacts.
Context {blank A : bytes} {cmds : list command}.
Context {bz_decompress : bytes -> bytes * bz_end} {z_inflate : bytes -> bytes * bool}.
Context {z_deflate : deflate_params -> bytes -> Z -> option (list bytes)} {malloc : Z -> option bytes}.
Context {nb : Z} {patch : bytes}.
Abbreviation image := (image blank A cmds).
Abbreviation expected := (expected cmds).
Abbreviation collision := (collision cmds).
Abbreviation inv := (inv blank A cmds).
Abbreviation perform_command := (perform_command blank).
Abbreviation source_from := (source_from A nb).
Abbreviation cmd_ok := (cmd_ok A bz_decompress z_inflate z_deflate malloc nb patch).
Abbreviation plan_ok := (plan_ok blank A cmds bz_decompress z_inflate z_deflate malloc nb patch).

(** ** Images *)
Lemma image_S k c : cmds !! k = Some c -> image (S k) = perform_command (image k) c.
Proof. intros H. unfold image. by rewrite (take_S_r _ _ _ H), foldl_app. Qed.

Lemma image_end : image (S (length cmds)) = image (length cmds).
Proof. unfold image. by rewrite !take_ge by lia. Qed.

Context (HP : plan_ok).

Lemma cmd_at k c : cmds !! k = Some c -> cmd_ok c.
Proof. intros H. exact (Forall_lookup_1 _ _ _ _ (pl_commands _ _ _ _ _ _ _ _ _ HP) H). Qed.

Lemma target_ok k c : cmds !! k = Some c -> spans_ok 0 (nb * BLOCKSIZE) (bspans (target c)) /\ Z.of_nat (length (target_data blank c)) = total (bspans (target c)).
Proof.
  intros H. apply cmd_at in H. split.
  - apply (bspans_ok 0 nb). destruct c; simpl in *; try done; first [apply H | apply (proj1 H)].
  - rewrite bspans_total. destruct c; simpl in *; try done; try apply H; rewrite <- bspans_total; [eapply zeroes_length | eapply blanks_length]; apply H.
Qed.

Lemma image_length k : Z.of_nat (length (image k)) = nb * BLOCKSIZE.
Proof.
  rewrite (proj2 (pl_size _ _ _ _ _ _ _ _ _ HP)). f_equal. induction k as [|k IH]; [done |]. destruct (cmds !! k) as [c|] eqn:Ec.
  - rewrite (image_S _ _ Ec). destruct (target_ok _ _ Ec) as [Ht _]. unfold perform_command. rewrite (scatter_length (nb * BLOCKSIZE) 0); [done | done | done |].
    rewrite (proj2 (pl_size _ _ _ _ _ _ _ _ _ HP)). lia.
  - apply lookup_ge_None_1 in Ec. rewrite <- IH. unfold image. by rewrite !take_ge by lia.
Qed.

Lemma image_out k c i : cmds !! k = Some c -> ~ covers (bspans (target c)) i -> image (S k) !! i = image k !! i.
Proof.
  intros Hc Hi. destruct (target_ok _ _ Hc) as [Ht _]. rewrite (image_S _ _ Hc). apply (scatter_out (nb * BLOCKSIZE) 0); [done | done | | done]. by rewrite image_length.
Qed.

Lemma expected_in k c x : cmds !! k = Some c -> x ∈ contents c -> x ∈ expected.
Proof.
  intros Hc Hx. unfold expected. apply list_elem_of_In, in_concat. exists (contents c). split; [|by apply list_elem_of_In].
  apply in_map. apply list_elem_of_In. by apply list_elem_of_lookup_2 with k.
Qed.

Lemma expected_ok x : x ∈ expected -> bytes_ok x.
Proof. intros H. pose proof (pl_bytes _ _ _ _ _ _ _ _ _ HP) as (_ & _ & He & _). rewrite Forall_forall in He. by apply He. Qed.

Lemma expected_genuine x : x ∈ expected -> genuine collision x.
Proof.
  intros Hx. split; [by apply expected_ok |]. intros y _ Hy E. destruct (decide (y = x)) as [->|Hne]; [done |]. destruct Hy. apply Exists_exists. by exists x.
Qed.

Lemma target_bytes k c : cmds !! k = Some c -> bytes_ok (target_data blank c).
Proof.
  intros H. pose proof (pl_bytes _ _ _ _ _ _ _ _ _ HP) as (_ & Hb & _ & Hn). destruct c; simpl; try constructor.
  - eapply expected_ok, (expected_in k); [exact H |]. apply list_elem_of_here.
  - eapply expected_ok, (expected_in k); [exact H |]. right. apply list_elem_of_here.
  - apply Forall_replicate. unfold in_range. lia.
  - exact (Forall_lookup_1 _ _ _ _ Hn H).
  - unfold blanks. apply Forall_concat, Forall_map, Forall_forall. intros [a b] _. apply Forall_take, Forall_app. split; [done |]. apply Forall_replicate. unfold in_range. lia.
Qed.

Lemma image_bytes k : bytes_ok (image k).
Proof.
  induction k as [|k IH]; [apply (pl_bytes _ _ _ _ _ _ _ _ _ HP) |]. destruct (cmds !! k) as [c|] eqn:Ec.
  - rewrite (image_S _ _ Ec). apply bytes_ok_scatter; [done | by eapply target_bytes].
  - apply lookup_ge_None_1 in Ec. unfold image in *. by rewrite take_ge in IH |- * by lia.
Qed.

(** What was written stays. *)
Lemma image_target i k c : (i < k)%nat -> cmds !! i = Some c -> gather (image k) (bspans (target c)) = target_data blank c.
Proof.
  intros Hik Hc. destruct (target_ok _ _ Hc) as [Ht Hl]. induction k as [|k IH]; [lia |]. destruct (decide (i = k)) as [->|Hne].
  - rewrite (image_S _ _ Hc). apply (gather_scatter (nb * BLOCKSIZE) 0); [done | done | by rewrite image_length | done].
  - rewrite <- IH by lia. destruct (cmds !! k) as [c'|] eqn:Ec.
    + apply (gather_ext (nb * BLOCKSIZE) 0); [done | done |]. intros x Hx. apply (image_out k c'); [done |]. intros Hx'.
      eapply disjoint_covers; [|exact Hx | exact Hx']. eapply (pl_written_once _ _ _ _ _ _ _ _ _ HP i k); (done || lia).
    + apply lookup_ge_None_1 in Ec. unfold image. by rewrite !take_ge by lia.
Qed.

(** What a command reads is what the first image has there. *)
Lemma image_reads k j c ps : (k <= j)%nat -> cmds !! j = Some c -> reads c = ps -> spans_ok 0 nb ps -> gather (image k) (bspans ps) = gather A (bspans ps).
Proof.
  intros Hkj Hc <- Hps. pose proof (bspans_ok _ _ _ Hps) as Hsp. induction k as [|k IH]; [done |]. rewrite <- IH by lia.
  destruct (cmds !! k) as [c'|] eqn:Ec; [|apply lookup_ge_None_1 in Ec; apply lookup_lt_Some in Hc; lia].
  apply (gather_ext (nb * BLOCKSIZE) 0); [done | done |]. intros x Hx. apply (image_out k c'); [done |]. intros Hx'.
  eapply disjoint_covers; [|exact Hx' | exact Hx]. eapply (pl_read_first _ _ _ _ _ _ _ _ _ HP k j); (done || lia).
Qed.

Lemma uses_expected j c x : cmds !! j = Some c -> x ∈ uses c -> x ∈ expected.
Proof. intros Hc Hx. eapply expected_in; [exact Hc |]. (destruct c; simpl in *; try (by apply elem_of_nil in Hx)); [by right | by right; right]. Qed.

Lemma copies_expected j c x : cmds !! j = Some c -> copies c = Some x -> x ∈ expected.
Proof.
  intros Hc Hx. eapply expected_in; [exact Hc |]. destruct c as [| |tgt so s|img offset len tgt so s t| | |]; simpl in *; try done; destruct (overlaps so tgt); try done; injection Hx as ->; apply list_elem_of_here.
Qed.

Lemma inv_length k d m : inv k d m -> Z.of_nat (length d) = nb * BLOCKSIZE.
Proof. intros [_ [L _] _ _ _]. by rewrite L, image_length. Qed.

Lemma inv_bytes k d m : inv k d m -> bytes_ok d.
Proof. intros [_ H _ _ _]. eapply between_ok; [| |exact H]; apply image_bytes. Qed.

Lemma inv_same k d m m' : inv k d m -> sameids m m' -> inv k d m'.
Proof. intros [? ? ? ? ?] H. split; try done; setoid_rewrite <- (H _); done. Qed.

Lemma inv_insert k d m m' e : inv k d m -> e ∈ expected -> sameids (<[hexid e := e]> m) m' -> inv k d m'.
Proof.
  intros [? ? Hf Hs Hc] He H.
  assert (Hl : forall x, x ∈ expected -> m' !! hexid x = Some x \/ m' !! hexid x = m !! hexid x).
  { intros x Hx. rewrite <- (H x). destruct (decide (hexid e = hexid x)) as [E|E]; [left | right; by rewrite lookup_insert_ne].
    rewrite E, lookup_insert_eq. f_equal. by apply (pl_digests _ _ _ _ _ _ _ _ _ HP), hexid_inj. }
  split; try done.
  - intros x c Hx Hm. destruct (Hl x Hx) as [E|E]; [congruence |]. rewrite E in Hm. by apply Hf.
  - intros i j ps x c Hi Hj Hci Hcj Hx. destruct (Hl x) as [E|E]; [by eapply uses_expected | done |]. rewrite E. by eapply Hs.
  - intros c s Hk Hs'. destruct (Hl s) as [E|E]; [by eapply copies_expected | by right |]. rewrite E. by apply (Hc c).
Qed.

Lemma inv_delete i k d m x : inv k d m -> cmds !! i = Some (CFree x) -> (i < k)%nat -> inv k d (delete (hexid x) m).
Proof.
  intros [? ? Hf Hs Hc] Hi Hik. assert (Hx : x ∈ expected) by (eapply expected_in; [exact Hi | apply list_elem_of_here]).
  assert (Hne : forall y, y ∈ expected -> y <> x -> delete (hexid x) m !! hexid y = m !! hexid y).
  { intros y Hy Hyx. apply lookup_delete_ne. intros E. apply Hyx. apply (pl_digests _ _ _ _ _ _ _ _ _ HP); [done | done |]. by apply hexid_inj. }
  split; try done.
  - intros e c He Hm. apply lookup_delete_Some in Hm as [_ Hm]. by apply Hf.
  - intros i' j ps y c Hi' Hj Hci Hcj Hy. destruct (pl_not_freed _ _ _ _ _ _ _ _ _ HP i j x c ltac:(lia) Hi Hcj) as [Hu _].
    rewrite Hne; [by eapply Hs | by eapply uses_expected |]. intros ->. done.
  - intros c s Hk Hs'. destruct (pl_not_freed _ _ _ _ _ _ _ _ _ HP i k x c ltac:(lia) Hi Hk) as [_ Hu]. rewrite Hne; [by apply (Hc c) | by eapply copies_expected |]. intros ->. done.
Qed.

(** More of the command is on the device. *)
Lemma inv_torn k d m c d' : inv k d m -> cmds !! k = Some c -> between d (image (S k)) d' ->
  (forall s, copies c = Some s -> m !! hexid s = Some s) -> inv k d' m.
Proof.
  intros [? Hb Hf Hs Hc] Hk Hd' Hcp. split; try done; [by eapply between_trans |]. intros c' s E Hs'. right. rewrite Hk in E. injection E as <-. by apply Hcp.
Qed.

(** The command is complete. *)
Lemma inv_step k d m c : inv k d m -> cmds !! k = Some c -> (forall ps x, c = CStash ps x -> m !! hexid x = Some x) -> inv (S k) (image (S k)) m.
Proof.
  intros [? Hb Hf Hs Hc] Hk Hst. apply lookup_lt_Some in Hk as Hlt. split; try done; [apply between_refl | | by left].
  intros i j ps x c' Hi Hj Hci Hcj Hx. destruct (decide (i = k)) as [->|Hne]; [|eapply (Hs i j); (done || lia)].
  rewrite Hk in Hci. injection Hci as ->. by eapply Hst.
Qed.

(** ** What the device holds *)
Lemma inv_out k d m i : inv k d m -> (forall c, cmds !! k = Some c -> ~ covers (bspans (target c)) i) -> d !! i = image k !! i.
Proof.
  intros Hi Ho. destruct (iv_dev _ _ _ _ _ _ Hi) as [_ Hb]. destruct (cmds !! k) as [c|] eqn:Ec.
  - destruct (Hb i) as [->| ->]; [done |]. apply (image_out k c); [done |]. by apply Ho.
  - apply lookup_ge_None_1 in Ec. pose proof (iv_k _ _ _ _ _ _ Hi). assert (k = length cmds) as -> by lia. rewrite image_end in Hb. by destruct (Hb i).
Qed.

(** Completed commands find their work done. *)
Lemma inv_done i k d m c : inv k d m -> cmds !! i = Some c -> (i < k)%nat -> gather d (bspans (target c)) = target_data blank c.
Proof.
  intros Hi Hc Hik. rewrite <- (image_target i k c Hik Hc). destruct (target_ok _ _ Hc) as [Ht _].
  apply (gather_ext (nb * BLOCKSIZE) 0); [done | done |]. intros x Hx. apply (inv_out k d m); [done |]. intros c' Hc' Hx'.
  eapply disjoint_covers; [|exact Hx | exact Hx']. by eapply (pl_written_once _ _ _ _ _ _ _ _ _ HP i k).
Qed.

Lemma inv_rewrite i k d m c : inv k d m -> cmds !! i = Some c -> (i < k)%nat -> scatter d (bspans (target c)) (target_data blank c) = d.
Proof.
  intros Hi Hc Hik. rewrite <- (inv_done i k d m c Hi Hc Hik). destruct (target_ok _ _ Hc) as [Ht _].
  apply (scatter_gather (nb * BLOCKSIZE) 0); [done | done |]. rewrite (inv_length _ _ _ Hi). lia.
Qed.

(** The command at hand completes what was torn. *)
Lemma inv_complete k d m c : inv k d m -> cmds !! k = Some c -> scatter d (bspans (target c)) (target_data blank c) = image (S k).
Proof.
  intros Hi Hc. destruct (target_ok _ _ Hc) as [Ht Hl]. pose proof (iv_dev _ _ _ _ _ _ Hi) as Hb. rewrite (image_S _ _ Hc) in *.
  apply (scatter_between (nb * BLOCKSIZE) 0); [done | done | by rewrite image_length | done | done].
Qed.

(** Its source is there, on the device or as a copy. *)
Lemma inv_source k d m c tgt so s : inv k d m -> cmds !! k = Some c -> reads c = so_src so -> uses c = (so_refs so).*1 -> target c = tgt ->
  copies c = (if overlaps so tgt then Some s else None) -> source_from so s ->
  source_there (nblocks s) s so d m \/ (overlaps so tgt = true /\ m !! hexid s = Some s).
Proof.
  intros Hi Hc Er Eu Et Ec [Hso Hg].
  assert (Hrefs : Forall (fun '(x, _) => m !! hexid x = Some x) (so_refs so)).
  { apply Forall_forall. intros [x l] Hx. assert (Hu : x ∈ uses c) by (rewrite Eu; apply list_elem_of_fmap; by exists (x, l)).
    destruct (pl_stashed _ _ _ _ _ _ _ _ _ HP k c x Hc Hu) as (i & ps & Hik & Hst). eapply (iv_stash _ _ _ _ _ _ Hi i k); (done || lia). }
  assert (Hthere : d = image k \/ overlaps so tgt = false -> source_there (nblocks s) s so d m).
  { intros Hd. split; [|done]. rewrite <- Hg, <- (image_reads k k c (so_src so)); [|done | done | done | apply (so_dev _ _ _ _ Hso)].
    destruct Hd as [->|Hov]; [done |]. apply (gather_ext (nb * BLOCKSIZE) 0); [done | apply (bspans_ok 0), (so_dev _ _ _ _ Hso) |].
    intros x Hx. apply (inv_out k d m); [done |]. intros c' Hc' Hx'. rewrite Hc in Hc'. injection Hc' as <-. rewrite Et in Hx'.
    eapply disjoint_covers; [by apply overlaps_disjoint | exact Hx | exact Hx']. }
  destruct (overlaps so tgt) eqn:Eov; [|left; apply Hthere; by right]. destruct (iv_copy _ _ _ _ _ _ Hi c s Hc Ec) as [?|?]; [left; apply Hthere; by left | by right].
Qed.

(** ** A command again, or for the first time *)

(** Any part of its writes is harmless, when there is a copy of what they
    destroy. *)
Lemma inv_writing i k d m m' c d' : inv k d m -> cmds !! i = Some c -> (i <= k)%nat -> between d (scatter d (bspans (target c)) (target_data blank c)) d' ->
  (copies c = None /\ sameids m m') \/ (exists s, copies c = Some s /\ sameids (<[hexid s := s]> m) m') -> inv k d' m'.
Proof.
  intros Hi Hc Hik Hb Hm. assert (Hi' : inv k d m').
  { destruct Hm as [[_ Hm]|(s & Hs & Hm)]; [by eapply inv_same |]. eapply inv_insert; [exact Hi | by eapply copies_expected | exact Hm]. }
  destruct (decide (i = k)) as [->|Hne].
  - eapply inv_torn; [exact Hi' | exact Hc | |].
    + by rewrite (inv_complete k d m c Hi Hc) in Hb.
    + intros s Hs. destruct Hm as [[? _]|(s' & Hs' & Hm)]; [congruence |]. rewrite Hs in Hs'. injection Hs' as <-. by rewrite <- (Hm s), lookup_insert_eq.
  - rewrite (inv_rewrite i k d m c Hi Hc ltac:(lia)) in Hb. by apply between_same in Hb as ->.
Qed.

Lemma inv_written i k d m m' c : inv k d m -> cmds !! i = Some c -> (i <= k)%nat -> (forall ps x, c <> CStash ps x) -> sameids m m' ->
  exists k', (S i <= k')%nat /\ inv k' (scatter d (bspans (target c)) (target_data blank c)) m'.
Proof.
  intros Hi Hc Hik Hst Hm. pose proof (inv_same _ _ _ _ Hi Hm) as Hi'. destruct (decide (i = k)) as [->|Hne].
  - exists (S k). split; [done |]. rewrite (inv_complete k d m c Hi Hc). eapply inv_step; [exact Hi' | exact Hc |]. intros ps x E. by destruct (Hst ps x).
  - exists k. split; [lia |]. by rewrite (inv_rewrite i k d m c Hi Hc ltac:(lia)).
Qed.

(** A stash is made, or made again, as long as its blocks are there. *)
Lemma inv_stashed i k d m m' ps x : inv k d m -> cmds !! i = Some (CStash ps x) -> (i <= k)%nat ->
  (m' = m /\ (m !! hexid x = Some x \/ gather d (bspans ps) <> x)) \/ sameids (<[hexid x := x]> m) m' -> exists k', (S i <= k')%nat /\ inv k' d m'.
Proof.
  intros Hi Hc Hik Hm. pose proof (cmd_at _ _ Hc) as [(Hps & _) Hg]. assert (Hx : x ∈ expected) by (eapply expected_in; [exact Hc | apply list_elem_of_here]).
  assert (Hi' : inv k d m') by (destruct Hm as [[-> _]|Hm]; [done | by eapply inv_insert]).
  destruct (decide (i = k)) as [->|Hne]; [|exists k; split; [lia | done]]. exists (S k). split; [done |].
  assert (d = image (S k)) as ->.
  { pose proof (iv_dev _ _ _ _ _ _ Hi) as Hb. pose proof (image_S _ _ Hc) as E. cbn in E. rewrite E in *. by apply between_same in Hb. }
  eapply inv_step; [exact Hi' | exact Hc |]. intros ps' x' [= <- <-]. destruct Hm as [[-> [Hm|Hm]]|Hm]; [done | | by rewrite <- (Hm x), lookup_insert_eq].
  destruct Hm. rewrite <- Hg. pose proof (image_S _ _ Hc) as E. cbn in E. rewrite E. by apply (image_reads k k _ _ ltac:(lia) Hc).
Qed.

Lemma inv_freed i k d m x : inv k d m -> cmds !! i = Some (CFree x) -> (i <= k)%nat -> exists k', (S i <= k')%nat /\ inv k' d (delete (hexid x) m).
Proof.
  intros Hi Hc Hik. destruct (decide (i = k)) as [->|Hne].
  - exists (S k). split; [done |]. eapply inv_delete; [|exact Hc | lia].
    assert (d = image (S k)) as ->.
    { pose proof (iv_dev _ _ _ _ _ _ Hi) as Hb. pose proof (image_S _ _ Hc) as E. cbn in E. rewrite E in *. by apply between_same in Hb. }
    eapply inv_step; [exact Hi | exact Hc | done].
  - exists k. split; [lia |]. eapply inv_delete; [exact Hi | exact Hc | lia].
Qed.
End PlanFacts.
