(* ===== verification/BlockImgSpec.v ===== *)
(** * Block updates that are interrupted

    An update by a transfer list that lost the power any number of times, at
    any point, ends with the same device as one that did not. *)

From S2P Require Import Prelude.
From S2P Require Import Sha.
From S2P Require Import ShaSpec.
From S2P Require Import CString.
From S2P Require Import LoadKeys.
From S2P Require Import BsPatch.
From S2P Require Import ImgPatch.
From S2P Require Import BlockDev.
From S2P Require Import BlockRange.
From S2P Require Import BlockLogic.
From S2P Require Import BlockImg.
From S2P Require Import BlockText.
From S2P Require Import BlockOps.
From S2P Require Import BlockSink.
From S2P Require Import BlockLoad.
From S2P Require Import BlockCmd.
From S2P Require Import BlockPlan.

Section Resume.
Context {blank A : bytes} {cmds : list command}.
Context {bz_decompress : bytes -> bytes * bz_end} {z_inflate : bytes -> bytes * bool}.
Context {z_deflate : deflate_params -> bytes -> Z -> option (list bytes)} {malloc : Z -> option bytes}.
Context {nb : Z} {patch : bytes}.
Context (HP : plan_ok blank A cmds bz_decompress z_inflate z_deflate malloc nb patch).
Context (off : bool) (junk : bytes) (ctx0 : HASH_CTX) (Hjunk : bytes_ok junk) (Hctx : ctx_shape ctx0) (base : bytes).
Abbreviation runs := (runs off (collision cmds)).
Abbreviation at_ := (at_ off).
Abbreviation inv := (inv blank A cmds).
Abbreviation commands := (update_commands bz_decompress z_inflate z_deflate malloc junk blank true ctx0).

(** The medium after an attempt. *)
Definition resumable (d : bytes) (s : stash) : Prop := exists k, inv k d (default ∅ s).

(** The new data of the commands from [i] on. *)
Definition news (i : nat) : bytes := concat (map new_data (drop i cmds)).

Definition handler (c : command) : CommandParameters -> updM (Z * CommandParameters) :=
  match c with
  | CStash _ _ => PerformCommandStash junk ctx0
  | CFree _ => PerformCommandFree
  | CMove _ _ _ => PerformCommandMove junk ctx0
  | CDiff _ _ _ _ _ _ _ => PerformCommandDiff bz_decompress z_inflate z_deflate malloc junk ctx0
  | CZero _ => PerformCommandZero junk
  | CNew _ _ => PerformCommandNew
  | CErase _ => PerformCommandErase blank true
  end.

Lemma find_handler c : find_command commands (cmd_name c) = Some (cmd_name c, Some (handler c)).
Proof. by destruct c as [| | |[]| | |]. Qed.

Lemma news_S i c : cmds !! i = Some c -> news i = new_data c ++ news (S i).
Proof. intros H. unfold news. by rewrite (drop_S _ _ _ H). Qed.

(** ** One command *)
Section Command.
Context (i k : nat) (c : command) (d : bytes) (m : files) (Hc : cmds !! i = Some c) (Hik : (i <= k)%nat) (Hi : inv k d m).
Context (p : CommandParameters) (Hp : ready base patch (news i) p) (Hargs : cpos p = rest_of (cmd_args c)) (Hname : cmdname p = cmd_name c).
Context (w : world) (pos : Z) (Hw : at_ w d pos (Some m)).
Context (Q : Z * CommandParameters -> world -> Prop).
Context (HQ : forall (w' : world) pos' d' m' k' p', at_ w' d' pos' (Some m') -> inv k' d' m' -> (S i <= k')%nat -> ready base patch (news (S i)) p' -> Q (0, p') w').

Lemma dev_size : nb * BLOCKSIZE <= Z.of_nat (length d).
Proof. rewrite (inv_length HP _ _ _ Hi). lia. Qed.

Lemma news_skip : new_data c = [] -> news (S i) = news i.
Proof. intros E. by rewrite (news_S _ _ Hc), E. Qed.

Lemma dev_written d' : copies c = None -> between d (scatter d (bspans (target c)) (target_data blank c)) d' -> resumable d' (Some m).
Proof. intros Hcp Hb. exists k. eapply (inv_writing HP i k d m); [exact Hi | exact Hc | done | exact Hb | left; done]. Qed.

(** A file of a name that is expected holds what is expected. *)
Lemma file_known x c' : x ∈ expected cmds -> m !! hexid x = Some c' -> c' = x.
Proof. intros Hx Hm. by apply (iv_files _ _ _ _ _ _ Hi). Qed.

Lemma blocks_bound : nb < 2 ^ 30.
Proof. apply (pl_size _ _ _ _ _ _ _ _ _ HP). Qed.

(** Commands that only write. *)
Section Writes.
Context (tgt : list (Z * Z)) (Htgt : target c = tgt) (Hcp : copies c = None) (Hok : ranges_ok nb tgt) (Hst : forall ps x, c <> CStash ps x).

Lemma write_torn d' : between d (scatter d (bspans tgt) (target_data blank c)) d' -> resumable d' (Some m).
Proof. rewrite <- Htgt. by apply dev_written. Qed.

Lemma write_done (w' : world) pos' p' : at_ w' (scatter d (bspans tgt) (target_data blank c)) pos' (Some m) -> ready base patch (news (S i)) p' -> Q (0, p') w'.
Proof.
  intros Hw' Hp'. rewrite <- Htgt in Hw'. destruct (inv_written HP i k d m m c Hi Hc Hik Hst (reflexivity m)) as (k' & Hk' & Hi'). by eapply HQ.
Qed.
End Writes.

Lemma runs_zero_cmd tgt : c = CZero tgt -> runs (PerformCommandZero junk p) w Q resumable.
Proof.
  intros E. pose proof (cmd_at HP _ _ Hc) as Hok. rewrite E in Hok. destruct Hok as (Hs & Hn & Ht).
  eapply (runs_Zero off (collision cmds) junk Hjunk base patch nb blocks_bound tgt Hs Hn (zeroes tgt)); [exact Hp | by rewrite Hargs, E | exact Hw | apply dev_size | | | done | apply news_skip; by rewrite E].
  - intros d' Hd'. apply (write_torn tgt); by rewrite E.
  - intros w' pos' p' Hw' Hp'. eapply (write_done tgt); rewrite ?E; done.
Qed.

Lemma runs_erase_cmd tgt : c = CErase tgt -> runs (PerformCommandErase blank true p) w Q resumable.
Proof.
  intros E. pose proof (cmd_at HP _ _ Hc) as Hok. rewrite E in Hok. destruct Hok as (Hs & Hn & Ht).
  eapply (runs_Erase off (collision cmds) base patch nb blocks_bound tgt Hs Hn (blanks blank tgt)); [exact Hp | by rewrite Hargs, E | exact Hw | apply dev_size | | | done | apply news_skip; by rewrite E].
  - intros d' Hd'. apply (write_torn tgt); by rewrite E.
  - intros w' pos' p' Hw' Hp'. eapply (write_done tgt); rewrite ?E; done.
Qed.

Lemma runs_new_cmd tgt t : c = CNew tgt t -> runs (PerformCommandNew p) w Q resumable.
Proof.
  intros E. pose proof (cmd_at HP _ _ Hc) as Hok. rewrite E in Hok. destruct Hok as ((Hs & Hn & Ht) & Hl).
  eapply (runs_New off (collision cmds) base patch nb blocks_bound tgt Hs Hn Ht t); [exact Hp | by rewrite Hargs, E | exact Hw | apply dev_size | | | by rewrite (news_S _ _ Hc), E | done].
  - intros d' Hd'. apply (write_torn tgt); by rewrite E.
  - intros w' pos' p' Hw' Hp'. eapply (write_done tgt); rewrite ?E; done.
Qed.

Lemma runs_stash_cmd ps x : c = CStash ps x -> runs (PerformCommandStash junk ctx0 p) w Q resumable.
Proof.
  intros E. assert (Hc' := Hc). rewrite E in Hc'. destruct (cmd_at HP _ _ Hc') as ((Hs & Hn & Ht) & Hg).
  assert (Hx : x ∈ expected cmds) by (eapply expected_in; [exact Hc' | apply list_elem_of_here]).
  pose proof (bspans_ok _ _ _ Hs) as Hsp.
  eapply (runs_Stash off (collision cmds) junk ctx0 Hjunk Hctx base patch nb blocks_bound ps x);
    [exact Hw | by eapply (inv_bytes HP) | apply dev_size | done | done | done | by eapply (expected_genuine HP) | | intros c' Hm'; by apply file_known | exact Hp | by rewrite Hargs, E | |].
  - rewrite <- Hg, (gather_length (nb * BLOCKSIZE) 0), bspans_total; [done | done | done |]. by rewrite (proj2 (pl_size _ _ _ _ _ _ _ _ _ HP)).
  - intros m' [Hm'|[_ Hm']]; exists k; [by eapply inv_same | by eapply (inv_insert HP)].
  - intros w' pos' m' p' Hw' Hp' Hm'. destruct (inv_stashed HP i k d m m' ps x Hi Hc' Hik) as (k' & Hk' & Hi'); [tauto |].
    eapply HQ; [exact Hw' | exact Hi' | done |]. by rewrite news_skip by (by rewrite E).
Qed.

Lemma runs_free_cmd x : c = CFree x -> runs (PerformCommandFree p) w Q resumable.
Proof.
  intros E. assert (Hc' := Hc). rewrite E in Hc'. destruct (inv_freed HP i k d m x Hi Hc' Hik) as (k' & Hk' & Hi').
  eapply (runs_Free off (collision cmds) base patch x); [exact Hw | exact Hp | by rewrite Hargs, E | by exists k | by exists k' |].
  intros w' p' Hw' Hp'. eapply HQ; [exact Hw' | exact Hi' | done |]. by rewrite news_skip by (by rewrite E).
Qed.

(** Commands that read a source. *)
Section Transfers.
Context (tgt : list (Z * Z)) (so : source) (s t : bytes).
Context (Htgt : target c = tgt) (Hdata : target_data blank c = t) (Hrd : reads c = so_src so) (Hus : uses c = (so_refs so).*1).
Context (Hcp : copies c = if overlaps so tgt then Some s else None) (Hse : s ∈ expected cmds) (Hnew : new_data c = []).

Lemma transfer_refs : Forall (fun '(x, _) => genuine (collision cmds) x /\ forall c', m !! hexid x = Some c' -> c' = x) (so_refs so).
Proof.
  apply Forall_forall. intros [x l] Hx. assert (He : x ∈ expected cmds).
  { eapply uses_expected; [exact Hc |]. rewrite Hus. apply list_elem_of_fmap. by exists (x, l). }
  split; [by eapply (expected_genuine HP) |]. intros c' Hc'. by apply file_known.
Qed.

Lemma transfer_can : source_from A nb so s -> gather d (bspans tgt) = t \/ source_there (nblocks s) s so d m \/ (overlaps so tgt = true /\ m !! hexid s = Some s).
Proof.
  intros Hfrom. destruct (decide (i = k)) as [->|Hne].
  - right. by eapply (inv_source HP k d m c).
  - left. rewrite <- Htgt, <- Hdata. eapply (inv_done HP i k); [exact Hi | exact Hc | lia].
Qed.

Lemma transfer_torn d' m' : between d (scatter d (bspans tgt) t) d' ->
  (overlaps so tgt = false /\ m' = m) \/ (overlaps so tgt = true /\ sameids (<[hexid s := s]> m) m') -> resumable d' (Some m').
Proof.
  intros Hb Hm. exists k. eapply (inv_writing HP i k d m); [exact Hi | exact Hc | done | by rewrite Htgt, Hdata |]. rewrite Hcp.
  destruct Hm as [[-> ->]|[-> Hm]]; [by left | right; eauto].
Qed.

Lemma transfer_done m' : (forall ps x, c <> CStash ps x) -> sameids m m' -> exists k', (S i <= k')%nat /\ inv k' (scatter d (bspans tgt) t) m'.
Proof. intros Hst Hm. rewrite <- Htgt, <- Hdata. by eapply (inv_written HP). Qed.
End Transfers.

Lemma runs_move_cmd tgt so s : c = CMove tgt so s -> runs (PerformCommandMove junk ctx0 p) w Q resumable.
Proof.
  intros E. assert (Hc' := Hc). rewrite E in Hc'. destruct (cmd_at HP _ _ Hc') as ((Hs & Hn & Ht) & Hfrom & Hl).
  assert (Hse : s ∈ expected cmds) by (eapply expected_in; [exact Hc' | apply list_elem_of_here]).
  assert (Hd : forall m', sameids m m' -> exists k', (S i <= k')%nat /\ inv k' (scatter d (bspans tgt) s) m') by (intros m'; apply transfer_done; rewrite ?E; done).
  eapply (runs_Move off (collision cmds) junk ctx0 Hjunk Hctx base patch nb blocks_bound (nblocks s) s so (proj1 Hfrom) tgt Hs Hn d m dev_size
    (inv_bytes HP _ _ _ Hi) ltac:(apply transfer_refs; rewrite ?E; done) s (expected_genuine HP _ Hse) (expected_genuine HP _ Hse) Ht Hl (fun c' => file_known s c' Hse)
    ltac:(apply transfer_can; rewrite ?E; done) (news i) p Hp Q resumable).
  - intros m' Hm'. exists k. by eapply inv_same.
  - intros d' m' Hb Hm'. eapply (transfer_torn tgt so s s); rewrite ?E; done.
  - intros m' Hm'. destruct (Hd m' Hm') as (k' & _ & Hi'). by exists k'.
  - intros w' pos' m' p' Hw' Hm' Hp'. destruct (Hd m' Hm') as (k' & Hk' & Hi'). eapply HQ; [exact Hw' | exact Hi' | done |]. by rewrite news_skip by (by rewrite E).
  - done.
  - by rewrite Hargs, E.
  - exact Hw.
Qed.

Lemma runs_diff_cmd img offset len tgt so s t : c = CDiff img offset len tgt so s t ->
  runs (PerformCommandDiff bz_decompress z_inflate z_deflate malloc junk ctx0 p) w Q resumable.
Proof.
  intros E. assert (Hc' := Hc). rewrite E in Hc'. destruct (cmd_at HP _ _ Hc') as ((Hs & Hn & Ht) & Hfrom & Hl & Ho & Hln & Hol & Hmk).
  assert (Hse : s ∈ expected cmds) by (eapply expected_in; [exact Hc' | apply list_elem_of_here]).
  assert (Hte : t ∈ expected cmds) by (eapply expected_in; [exact Hc' | right; apply list_elem_of_here]).
  assert (Hd : forall m', sameids m m' -> exists k', (S i <= k')%nat /\ inv k' (scatter d (bspans tgt) t) m') by (intros m'; apply transfer_done; rewrite ?E; done).
  eapply (runs_Diff off (collision cmds) junk ctx0 Hjunk Hctx base patch nb blocks_bound (nblocks s) s so (proj1 Hfrom) tgt Hs Hn d m dev_size
    (inv_bytes HP _ _ _ Hi) ltac:(apply transfer_refs; rewrite ?E; done) t (expected_genuine HP _ Hse) (expected_genuine HP _ Hte) Ht Hl (fun c' => file_known s c' Hse)
    ltac:(apply transfer_can; rewrite ?E; done) (news i) p Hp Q resumable).
  - intros m' Hm'. exists k. by eapply inv_same.
  - intros d' m' Hb Hm'. eapply (transfer_torn tgt so s t); rewrite ?E; done.
  - intros m' Hm'. destruct (Hd m' Hm') as (k' & _ & Hi'). by exists k'.
  - intros w' pos' m' p' Hw' Hm' Hp'. destruct (Hd m' Hm') as (k' & Hk' & Hi'). eapply HQ; [exact Hw' | exact Hi' | done |]. by rewrite news_skip by (by rewrite E).
  - exact Ho.
  - exact Hln.
  - exact Hol.
  - apply (pl_patch _ _ _ _ _ _ _ _ _ HP).
  - rewrite Hname, E. assert (bool_decide (head (cmd_name (CDiff img offset len tgt so s t)) = Some 105) = img) as -> by (by destruct img). exact Hmk.
  - by rewrite Hargs, E.
  - exact Hw.
Qed.

Lemma runs_command : runs (handler c p) w Q resumable.
Proof.
  assert (H : forall c', c = c' -> runs (handler c' p) w Q resumable); [|by apply H].
  intros [ | | | | | | ] E; cbn [handler].
  - by eapply runs_stash_cmd.
  - by eapply runs_free_cmd.
  - by eapply runs_move_cmd.
  - by eapply runs_diff_cmd.
  - by eapply runs_zero_cmd.
  - by eapply runs_new_cmd.
  - by eapply runs_erase_cmd.
Qed.
End Command.

(** ** All commands *)
Lemma args_ok c : cmd_ok A bz_decompress z_inflate z_deflate malloc nb patch c -> Forall word_ok (cmd_args c).
Proof.
  intros Hok. assert (Hr : forall ps, ranges_ok nb ps -> word_ok (to_string_raw ps)) by (intros ps (Hs & _ & _); by apply (to_string_raw_word 0 nb)).
  assert (Hh : forall x, word_ok (hexid x)) by (intros x; apply hexid_word).
  assert (Ht : forall tgt so s, ranges_ok nb tgt -> source_from A nb so s -> Forall word_ok (transfer_words tgt so s)).
  { intros tgt so s Htgt [Hso _]. constructor; [by apply Hr |]. constructor; [|by eapply source_words_ok]. apply toString_word. pose proof (so_size _ _ _ _ Hso). lia. }
  destruct c; simpl in *; repeat match goal with |- Forall _ (_ :: _) => apply List.Forall_cons end; first [apply List.Forall_nil | apply Hh | apply Hr; apply Hok | apply Ht; apply Hok | apply toString_word; apply Hok].
Qed.

Lemma line_words c : cmd_ok A bz_decompress z_inflate z_deflate malloc nb patch c ->
  line_ok (cmd_line c) /\ strtok_r 32 (Some (cmd_line c)) = (Some (cmd_name c), rest_of (cmd_args c)).
Proof.
  intros Hok. assert (Hn : word_ok (cmd_name c)) by (destruct c as [| | |[]| | |]; (split; [done | vm_compute; by repeat constructor])). split.
  - apply join_line; [done | by apply args_ok].
  - by apply (strtok_word (cmd_name c) (cmd_args c)).
Qed.

Lemma lines_length ls : (length ls <= length (lines_text ls))%nat.
Proof. unfold lines_text. induction ls as [|l ls IH]; [done |]. cbn [map concat length]. rewrite !length_app. simpl. lia. Qed.

Lemma runs_loop cs : forall i fuel k p (w : world) d pos m (Q : Z * CommandParameters -> world -> Prop), drop i cmds = cs -> (i <= k)%nat -> (length cs < fuel)%nat ->
  inv k d m -> at_ w d pos (Some m) -> ready base patch (news i) p ->
  (forall (w' : world) pos' m' p', at_ w' (image blank A cmds (length cmds)) pos' (Some m') -> inv (length cmds) (image blank A cmds (length cmds)) m' -> ready base patch [] p' -> Q (0, p') w') ->
  runs (command_loop fuel commands (Some (lines_text (map cmd_line cs))) p) w Q resumable.
Proof.
  induction cs as [|c cs IH]; intros i fuel k p w d pos m Q Hdrop Hik Hf Hi Hw Hp HQ; (destruct fuel as [|fuel]; [simpl in Hf; lia |]); cbn [command_loop].
  - simpl. apply runs_ret. assert (Hn : (length cmds <= i)%nat) by (apply (f_equal length) in Hdrop; rewrite length_drop in Hdrop; simpl in Hdrop; lia).
    pose proof (iv_k _ _ _ _ _ _ Hi). assert (k = length cmds) as -> by lia. unfold news in Hp. rewrite Hdrop in Hp. simpl in Hp.
    pose proof (iv_dev _ _ _ _ _ _ Hi) as Hb. rewrite image_end in Hb. apply between_same in Hb as ->. by eapply HQ.
  - assert (Hc : cmds !! i = Some c) by (rewrite <- (Nat.add_0_r i), <- lookup_drop, Hdrop; done).
    destruct (line_words c (cmd_at HP _ _ Hc)) as [Hl Hwords]. cbn [map]. rewrite strtok_line by done. rewrite Hwords, find_handler.
    apply runs_bind. eapply (runs_command i k c d m Hc Hik Hi); [by destruct Hp; constructor | done | done | exact Hw |].
    intros w' pos' d' m' k' p' Hw' Hi' Hk' Hp'. cbv iota. change (0 =? -1) with false. cbv iota.
    eapply (IH (S i)); [|exact Hk' | simpl in Hf; lia | exact Hi' | exact Hw' | exact Hp' | exact HQ].
    by rewrite (drop_S _ _ _ Hc) in Hdrop; injection Hdrop.
Qed.

Lemma inv_subset d m m' : inv (length cmds) d m -> m' ⊆ m -> inv (length cmds) d m'.
Proof.
  intros [Hk Hb Hf _ _] Hs. split; [done | done | | |].
  - intros e c He Hm. apply (Hf e c He). by eapply lookup_weaken.
  - intros i j ps x c _ Hj _ Hc. apply lookup_lt_Some in Hc. lia.
  - intros c s Hc. apply lookup_lt_Some in Hc. lia.
Qed.

Lemma runs_all k p (w : world) d pos m (Q : Z * CommandParameters -> world -> Prop) : inv k d m -> at_ w d pos (Some m) -> ready base patch (news 0) p ->
  (forall (w' : world) pos' p', at_ w' (image blank A cmds (length cmds)) pos' None -> ready base patch [] p' -> Q (0, p') w') ->
  runs (run_commands commands (Some (lines_text (map cmd_line cmds))) p) w Q resumable.
Proof.
  intros Hi Hw Hp HQ. unfold run_commands. apply runs_bind.
  eapply (runs_loop cmds 0); [done | apply Nat.le_0_l | | exact Hi | exact Hw | exact Hp |].
  { pose proof (lines_length (map cmd_line cmds)) as Hl. rewrite length_map in Hl. simpl. lia. }
  intros w' pos' m' p' Hw' Hi' Hp'. cbv iota. simpl negb. cbv iota. rewrite (rd_write _ _ _ _ Hp').
  assert (existsb (fun x => negb (length x =? 0)%nat) (nti_data p') = false) as ->.
  { pose proof (rd_new _ _ _ _ Hp') as E. apply not_true_iff_false. intros Hx. apply existsb_exists in Hx as (x & Hx & Hl).
    apply concat_nil_Forall in E. rewrite List.Forall_forall in E. by rewrite (E x Hx) in Hl. }
  rewrite (rd_base _ _ _ _ Hp'). apply runs_bind. eapply runs_DeleteStash; [exact Hw' | | |].
  - intros m2 Hm2. exists (length cmds). by eapply inv_subset.
  - exists (length cmds). eapply inv_subset; [exact Hi' | apply map_empty_subseteq].
  - intros w2 Hw2. apply runs_ret. by eapply HQ.
Qed.

(** ** The script function *)
Record args_fit (args : update_args) (pieces : list bytes) : Prop := {
  af_text : exists total_blocks entries max_blocks, 0 < total_blocks < 2 ^ 31 /\ 0 <= entries < 2 ^ 31 /\ 0 <= max_blocks < 2 ^ 31 /\
    transfer_list_value args = plan_text total_blocks entries max_blocks cmds;
  af_length : Z.of_nat (length (transfer_list_value args)) < 2 ^ 62;
  af_dev : bytes_ok (blockdev_filename args);
  af_new : new_entry args = Some pieces;
  af_pieces : concat pieces = news 0;
  af_patch : patch_entry args = Some patch
}.

Lemma number_line x : 0 <= x -> line_ok (toString 10 x).
Proof. intros H. apply (join_line (toString 10 x) []); [by apply toString_word | constructor]. Qed.

Lemma plan_text_chars a b c : 0 <= a -> 0 <= b -> 0 <= c -> Forall (fun x => x <> 0) (plan_text a b c cmds).
Proof.
  intros Ha Hb Hc. unfold plan_text, lines_text. apply Forall_concat, Forall_map. assert (Hl : forall l, line_ok l -> Forall (fun x => x <> 0) (l ++ [10])).
  { intros l [_ H]. apply Forall_app. split; [eapply Forall_impl; [exact H |]; simpl; lia | by constructor]. }
  repeat (apply List.Forall_cons; [apply Hl, number_line; lia |]). apply Forall_map. eapply Forall_impl; [apply (pl_commands _ _ _ _ _ _ _ _ _ HP) |].
  intros x Hx. by apply Hl, line_words.
Qed.

Lemma runs_update args pieces (w : world) d pos s (Q : bool -> world -> Prop) : args_fit args pieces -> base = hexid (blockdev_filename args) ->
  at_ w d pos s -> resumable d s -> (forall (w' : world) pos', at_ w' (image blank A cmds (length cmds)) pos' None -> Q true w') ->
  runs (BlockImageUpdateFn bz_decompress z_inflate z_deflate malloc junk blank true ctx0 args) w Q resumable.
Proof.
  intros [(tb & en & mb & Htb & Hen & Hmb & Etext) Hlen Hdev Enew Hnew Epatch] Hbase Hw Hr HQ. pose proof Hr as [k Hi].
  unfold BlockImageUpdateFn, PerformBlockImageUpdate. rewrite Enew, Epatch.
  apply runs_bind. eapply runs_syscall; [exact Hw | done |]. intros w1 Hw1. simpl negb. cbv iota. apply runs_bind. eapply runs_syscall; [exact Hw1 | done |]. intros w2 Hw2. simpl negb. cbv iota.
  apply runs_bind. eapply runs_malloc; [exact Hw2 | done | lia |]. intros w3 Hw3. simpl negb. cbv iota. apply runs_bind. unfold read_list.
  assert (Ew : forall p (w' : world) pos', at_ w' (image blank A cmds (length cmds)) pos' None -> ready base patch [] p ->
    runs (syscall ≫= fun _ => (if isunresumable p || (negb (canwrite p) && createdstash p) then DeleteStash (stashbase p) else mret tt) ≫= fun _ => mret (0 =? 0)) w' Q resumable).
  { intros p w' pos' Hw' Hp'. apply runs_bind. eapply runs_syscall; [exact Hw' | |].
    - exists (length cmds). split; [done | | by intros e c _ ? | intros i j ps x c _ Hj _ Hc; apply lookup_lt_Some in Hc; lia | intros c x Hc; apply lookup_lt_Some in Hc; lia].
      rewrite image_end. apply between_refl.
    - intros w4 Hw4. rewrite (rd_resumable _ _ _ _ Hp'), (rd_write _ _ _ _ Hp'). simpl. apply runs_bind, runs_ret, runs_ret. by eapply HQ. }
  rewrite Etext, cstring_id by (apply plan_text_chars; lia). unfold plan_text. cbn [app]. rewrite strtok_line by (apply number_line; lia).
  apply runs_bind. eapply runs_perform; [apply strtol_toString; lia |]. cbv zeta. rewrite (swrap_small 32 3) by (unfold in_srange; lia). simpl orb. cbv iota.
  rewrite strtok_line by (apply number_line; lia). apply runs_bind. eapply runs_perform; [apply strtol_toString; lia |]. rewrite (swrap_small 32 tb) by (unfold in_srange; lia).
  destruct (Z.ltb_spec tb 0); [lia |]. destruct (Z.eqb_spec tb 0); [lia |]. change (3 <? 2) with false. cbv iota.
  rewrite strtok_line by (apply number_line; lia). rewrite strtok_line by (apply number_line; lia). apply runs_bind. eapply runs_perform; [apply strtol_toString; lia |].
  rewrite (swrap_small 32 mb) by (unfold in_srange; lia). destruct (Z.ltb_spec mb 0); [lia |].
  apply runs_bind. eapply (runs_CreateStash off (collision cmds) ctx0 Hctx mb _ base); [exact Hw3 | done | done | intros m Hm; exists k; by eapply inv_same | done |].
  intros w5 r m Hw5 Hm Hr01. assert ((r =? -1) = false) as -> by (destruct Hr01; subst; done). cbv iota.
  eapply (runs_all k _ _ d pos m); [by eapply inv_same | exact Hw5 | constructor; try done; apply List.Forall_nil |].
  intros w6 pos6 p6 Hw6 Hp6. cbv iota. by eapply Ew.
Qed.
End Resume.

(** ** Attempts

    Each starts with what the one before left on the medium, and ends when the
    power is lost, or by itself. *)
Fixpoint attempts (update : updM bool) (scripts : list (list event)) (d : bytes) (s : stash) (log : list bytes) : bytes * stash * list bytes :=
  match scripts with
  | [] => (d, s, log)
  | es :: scripts' => let '(_, w, l) := update (World d 0 s es) in attempts update scripts' (w_dev w) (w_stash w) (log ++ l)
  end.

Lemma attempts_resumable blank A cmds (update : updM bool) scripts : forall d s log,
  (forall es d s, Forall (calm true) es -> resumable (blank := blank) (A := A) (cmds := cmds) d s ->
    runs true (collision cmds) update (World d 0 s es) (fun _ w => resumable (blank := blank) (A := A) (cmds := cmds) (w_dev w) (w_stash w)) (resumable (blank := blank) (A := A) (cmds := cmds))) ->
  Forall (Forall (calm true)) scripts -> resumable (blank := blank) (A := A) (cmds := cmds) d s \/ Exists (collision cmds) log ->
  let '(d', s', log') := attempts update scripts d s log in resumable (blank := blank) (A := A) (cmds := cmds) d' s' \/ Exists (collision cmds) log'.
Proof.
  intros d s log Hrun Hes. revert d s log. induction Hes as [|es scripts He _ IH]; intros d s log H; cbn [attempts]; [done |].
  destruct (update (World d 0 s es)) as [[r w] l] eqn:E. apply IH. destruct H as [H|H]; [|right; apply Exists_app; by left].
  pose proof (Hrun es d s He H) as Hr. unfold runs in Hr. rewrite E in Hr. destruct Hr as [Hr|Hr]; [right; apply Exists_app; by right |].
  left. by destruct r; [done | apply Hr | ..].
Qed.


(** ** An example: two blocks move up by one, over one of them *)
Definition ex_block (x : Z) : bytes := replicate (Z.to_nat BLOCKSIZE) x.
Definition ex_image : bytes := (ex_block 1 ++ ex_block 2) ++ ex_block 3.
Definition ex_source : bytes := ex_block 1 ++ ex_block 2.
Definition ex_commands : list command := [CMove [(1, 3)] (Source [(0, 2)] [] []) ex_source; CNew [(0, 1)] (ex_block 9)].

Lemma ex_block_length x : Z.of_nat (length (ex_block x)) = BLOCKSIZE.
Proof. unfold ex_block. rewrite length_replicate. blia. Qed.

Lemma ex_source_length : Z.of_nat (length ex_source) = 2 * BLOCKSIZE.
Proof. unfold ex_source. rewrite length_app, Nat2Z.inj_add, !ex_block_length. blia. Qed.

Lemma ex_block_bytes x : 0 <= x < 256 -> bytes_ok (ex_block x).
Proof. intros H. apply Forall_replicate. unfold in_range. lia. Qed.

Lemma ex_image_bytes : bytes_ok ex_image.
Proof. unfold ex_image. repeat (apply Forall_app; split); apply ex_block_bytes; lia. Qed.

Lemma ex_source_blocks : nblocks ex_source = 2.
Proof. unfold nblocks. by rewrite ex_source_length, Z.div_mul. Qed.

Lemma ex_gather d : take (length ex_source) d = ex_source -> gather d (bspans [(0, 2)]) = ex_source.
Proof.
  intros H. cbn [bspans map gather]. rewrite app_nil_r. unfold segment. pose proof ex_source_length.
  replace (Z.to_nat (2 * BLOCKSIZE - 0 * BLOCKSIZE)) with (length ex_source) by blia. exact H.
Qed.

Lemma ex_source_from : source_from ex_image 3 (Source [(0, 2)] [] []) ex_source.
Proof.
  unfold source_from. rewrite ex_source_blocks. split; [split|]; simpl.
  - lia.
  - apply ex_source_length.
  - lia.
  - done.
  - lia.
  - done.
  - constructor.
  - intros i Hi. left. apply List.Exists_cons_hd. pose proof ex_source_length. blia.
  - trans ex_source; [apply (ex_gather ex_image), take_app_length | symmetry; apply (ex_gather ex_source); by apply take_ge].
Qed.

Lemma ex_expected x : x ∈ expected ex_commands -> x = ex_source.
Proof. intros H. apply elem_of_cons in H as [->|H]; [done | by apply elem_of_nil in H]. Qed.

Lemma ex_cmds_ok bz_decompress z_inflate z_deflate malloc : Forall (cmd_ok ex_image bz_decompress z_inflate z_deflate malloc 3 []) ex_commands.
Proof.
  constructor; [|constructor; [|constructor]]; cbn [cmd_ok].
  - split_and!; [split_and!; [simpl; lia | done | simpl; lia] | apply ex_source_from | apply ex_source_length].
  - split; [split_and!; [simpl; lia | done | simpl; lia] | rewrite ex_block_length; done].
Qed.

Lemma ex_plan_ok bz_decompress z_inflate z_deflate malloc : plan_ok [] ex_image ex_commands bz_decompress z_inflate z_deflate malloc 3 [].
Proof.
  split.
  - split; [lia |]. unfold ex_image. fold ex_source. rewrite length_app, Nat2Z.inj_add, ex_source_length, ex_block_length. blia.
  - split_and!; [apply ex_image_bytes | constructor | |].
    + apply Forall_forall. intros x Hx. rewrite (ex_expected x Hx). apply Forall_app. split; apply ex_block_bytes; lia.
    + constructor; [constructor | constructor; [apply ex_block_bytes; lia | constructor]].
  - simpl. lia.
  - apply ex_cmds_ok.
  - intros i j c c' Hij Hi Hj. destruct i as [|i], j as [|[|j]]; try done; try lia; injection Hj as <-; injection Hi as <-.
    apply Forall_singleton, Forall_singleton. by right.
  - intros i j c c' Hij Hi Hj. destruct i as [|i], j as [|[|j]]; try done; try lia; injection Hj as <-; injection Hi as <-.
    apply Forall_singleton. constructor.
  - intros j c x Hj Hx. destruct j as [|[|j]]; try done; injection Hj as <-; by apply elem_of_nil in Hx.
  - intros i j x c Hij Hi. destruct i as [|[|i]]; done.
  - intros x y Hx Hy _. by rewrite (ex_expected x Hx), (ex_expected y Hy).
Qed.

Definition ex_args : update_args := UpdateArgs (str "/dev/block/system") (plan_text 3 0 2 ex_commands) (Some [ex_block 9]) (Some []).

Lemma move_text_length s t : nblocks s = 2 -> Z.of_nat (length (plan_text 3 0 2 [CMove [(1, 3)] (Source [(0, 2)] [] []) s; CNew [(0, 1)] t])) <= 200.
Proof.
  intros Hs. assert (Hh : length (hexid s) = 40%nat) by (unfold hexid; by rewrite PrintSha1_length, sha1_length).
  unfold plan_text, lines_text, cmd_line. cbn [map app concat cmd_args cmd_name transfer_words source_words so_src so_refs join]. rewrite Hs.
  repeat (rewrite length_app || cbn [length]). rewrite Hh. by vm_compute.
Qed.

Lemma ex_args_fit : args_fit (cmds := ex_commands) (patch := []) ex_args [ex_block 9].
Proof.
  split; [exists 3, 0, 2; split_and!; (done || lia) | | | done | done | done].
  - cbn [transfer_list_value ex_args]. pose proof (move_text_length ex_source (ex_block 9) ex_source_blocks) as H. fold ex_commands in H. lia.
  - vm_compute. by repeat constructor.
Qed.

(** The power is lost in the second attempt as well, while the copy of the source
    is made. *)
Definition ex_scripts : list (list event) := [[EvDone 1; EvOff [true]]; replicate 20 (EvDone 9) ++ [EvOff [false; true]]].

