(* ===== verification/BlockVerify.v ===== *)
(** * Checking an update before it is made

    [BlockImageVerifyFn] reads the device and never writes it, whatever the
    transfer list says and whichever calls fail; [RangeSha1Fn] gives the digest
    of ranges of it. *)

From S2P Require Import Prelude.
From S2P Require Import Sha.
From S2P Require Import ShaSpec.
From S2P Require Import CString.
From S2P Require Import BsPatch.
From S2P Require Import ImgPatch.
From S2P Require Import BlockDev.
From S2P Require Import BlockRange.
From S2P Require Import BlockLogic.
From S2P Require Import BlockImg.
From S2P Require Import BlockText.
From S2P Require Import BlockOps.

(** The device stays as it is; the value, if there is one, is in [P]. *)
Definition keeps {A} (m : updM A) (P : A -> Prop) : Prop := forall w,
  let '(r, w', _) := m w in w_dev w' = w_dev w /\ match r with Done a => P a | _ => True end.

Create HintDb keeps.

Section Structure.
Context {A B : Type}.

Lemma kept_ret (a : A) (P : A -> Prop) : P a -> keeps (mret a) P.
Proof. intros H w. by split. Qed.

Lemma kept_perform (m : outcome A) : keeps (perform m) (fun _ => True).
Proof. intros w. by destruct m. Qed.

Lemma kept_stop (m : outcome A) (P : A -> Prop) : (forall a, m <> Ret a) -> keeps (perform m) P.
Proof. intros H w. destruct m as [a| |]; [by destruct (H a) | done..]. Qed.

Lemma kept_gone (P : A -> Prop) : keeps gone P.
Proof. intros w. by split. Qed.

Lemma kept_bind (m : updM A) (k : A -> updM B) (P : A -> Prop) (Q : B -> Prop) : keeps m P -> (forall a, P a -> keeps (k a) Q) -> keeps (m ≫= k) Q.
Proof.
  intros Hm Hk w. specialize (Hm w). unfold mbind, updM_bind. destruct (m w) as [[[a| | |] w'] l]; [|tauto..]. destruct Hm as [E Ha].
  specialize (Hk a Ha w'). destruct (k a w') as [[r w''] l']. destruct Hk as [-> H]. by split.
Qed.

Lemma kept_mono (m : updM A) (P Q : A -> Prop) : keeps m P -> (forall a, P a -> Q a) -> keeps m Q.
Proof. intros Hm H w. specialize (Hm w). destruct (m w) as [[[a| | |] w'] l]; [|done..]. destruct Hm. split; [done | by apply H]. Qed.
End Structure.

(** One step of the code under the predicate. *)
Ltac keep_step :=
  match goal with
  | |- keeps (mret ?a) ?P => is_evar P; exact (kept_ret a (fun _ => True) I)
  | |- keeps (mret _) _ => apply kept_ret; try done; try (by repeat case_match)
  | |- keeps gone _ => apply kept_gone
  | |- keeps (perform _) _ => first [apply kept_perform | by apply kept_stop]
  | |- keeps (@mbind _ _ (Z * CommandParameters)%type _ _ _) _ => eapply (kept_bind _ _ (fun '(_, p') => canwrite p' = false)); [|intros ? ?]
  | |- keeps (mbind _ _) _ => eapply kept_bind; [|intros ? ?]
  | |- keeps (match next_word _ with _ => _ end) _ => unfold next_word
  | |- keeps (match match ?x with _ => _ end with _ => _ end) _ => destruct x eqn:?
  | |- keeps (match ?x with _ => _ end) _ => destruct x eqn:?
  | |- _ => solve [eauto with keeps]
  end.
Ltac keep := repeat (cbv zeta; keep_step).

Lemma kept_act full torn : (forall w, w_dev (full w) = w_dev w) -> (forall k w, w_dev (torn k w) = w_dev w) -> keeps (act full torn) (fun _ => True).
Proof. intros Hf Ht w. unfold act. destruct (w_events w) as [|[n| |kept] es]; simpl; by rewrite ?Hf, ?Ht. Qed.

Lemma kept_syscall : keeps syscall (fun _ => True).
Proof. by apply kept_act. Qed.

Lemma kept_look : keeps look (fun _ => True).
Proof. intros w. by split. Qed.

Lemma kept_compared data : keeps (compared data) (fun _ => True).
Proof. intros w. by split. Qed.

Lemma kept_change_dir f : keeps (change_dir f) (fun _ => True).
Proof. apply kept_act; [done |]. intros kept w. by destruct (hd false kept). Qed.

Lemma kept_unsynced before : keeps (syscall_unsynced before) (fun _ => True).
Proof. apply kept_act; [done |]. intros kept w. by destruct (hd false kept). Qed.

Lemma kept_lseek o : keeps (check_lseek o) (fun _ => True).
Proof.
  unfold check_lseek. eapply kept_bind; [apply kept_syscall |]. intros ok _. destruct (_ || _); [by apply kept_ret |].
  eapply (kept_bind _ _ (fun _ => True)); [by intros w | intros; by apply kept_ret].
Qed.

Lemma kept_read_all size : keeps (read_all size) (fun _ => True).
Proof.
  intros w. unfold read_all. destruct (transfer _ _ _ _) as [[|n|kept] es]; simpl; [|done..]. destruct (_ <=? _); [done |]. by destruct (size =? 0).
Qed.

Lemma kept_read_file data : keeps (read_file data) (fun _ => True).
Proof. intros w. unfold read_file. by destruct (transfer _ _ _ _) as [[|n|kept] es]. Qed.

Lemma kept_write_file name data : keeps (write_file name data) (fun _ => True).
Proof. intros w. unfold write_file. by destruct (transfer _ _ _ _) as [[|n|kept] es]. Qed.

#[local] Hint Resolve kept_syscall kept_look kept_compared kept_change_dir kept_unsynced kept_lseek kept_read_all kept_read_file kept_write_file : keeps.

Lemma kept_change f : keeps (change f) (fun _ => True).
Proof. unfold change. keep. Qed.
#[local] Hint Resolve kept_change : keeps.

Lemma kept_rename from to : keeps (rename_sync from to) (fun _ => True).
Proof. unfold rename_sync. keep. Qed.

Lemma kept_stat name : keeps (stat_file name) (fun _ => True).
Proof. unfold stat_file. keep. Qed.

Lemma kept_rmdir : keeps rmdir (fun _ => True).
Proof. unfold rmdir. keep. Qed.

Lemma kept_malloc size : keeps (malloc_ok size) (fun _ => True).
Proof. unfold malloc_ok. keep. Qed.
#[local] Hint Resolve kept_rename kept_stat kept_rmdir kept_malloc : keeps.

Section Verify.
Context (bz_decompress : bytes -> bytes * bz_end) (z_inflate : bytes -> bytes * bool).
Context (z_deflate : deflate_params -> bytes -> Z -> option (list bytes)).
Context (malloc : Z -> option bytes) (junk blank : bytes) (is_blk : bool) (ctx0 : HASH_CTX).

(** ** Buffers and blocks *)
Lemma kept_parse_range text : keeps (parse_range text) (fun _ => True).
Proof. unfold parse_range. keep. Qed.

Lemma kept_allocate size b : keeps (allocate junk size b) (fun _ => True).
Proof. unfold allocate. keep. Qed.

Lemma kept_read_loop ps : forall p b, keeps (read_blocks_loop ps p b) (fun _ => True).
Proof. induction ps as [|[a b] ps IH]; intros p buf; cbn [read_blocks_loop]; keep. Qed.
#[local] Hint Resolve kept_parse_range kept_allocate kept_read_loop : keeps.

Lemma kept_ReadBlocks src b : keeps (ReadBlocks src b) (fun _ => True).
Proof. unfold ReadBlocks. keep. Qed.

Lemma kept_VerifyBlocks e b n : keeps (VerifyBlocks ctx0 e b n) (fun _ => True).
Proof. unfold VerifyBlocks. keep. Qed.
#[local] Hint Resolve kept_ReadBlocks kept_VerifyBlocks : keeps.

(** ** Stash files *)
Lemma kept_DeleteFile name : keeps (DeleteFile name) (fun _ => True).
Proof. unfold DeleteFile, unlink. keep. Qed.
#[local] Hint Resolve kept_DeleteFile : keeps.

Lemma kept_each {A} (f : bytes -> A -> updM A) names : (forall name a, keeps (f name a) (fun _ => True)) -> forall a, keeps (each_file f names a) (fun _ => True).
Proof. intros Hf. induction names as [|name names IH]; intros a; cbn [each_file]; keep. Qed.

Lemma kept_enumerate {A} (f : bytes -> A -> updM A) a : (forall name a, keeps (f name a) (fun _ => True)) -> keeps (EnumerateStash f a) (fun _ => True).
Proof. intros Hf. pose proof (fun names => kept_each f names Hf). unfold EnumerateStash. keep. Qed.

Lemma kept_DeleteStash base : keeps (DeleteStash base) (fun _ => True).
Proof. pose proof (kept_enumerate (fun name (_ : unit) => DeleteFile name)). unfold DeleteStash, GetStashFileName. keep. Qed.

Lemma kept_LoadStash base id verify b : keeps (LoadStash junk ctx0 base id verify b) (fun _ => True).
Proof. unfold LoadStash, GetStashFileName. keep. Qed.

Lemma kept_WriteStash base id n b checkspace ex : keeps (WriteStash base id n b checkspace ex) (fun _ => True).
Proof. unfold WriteStash, GetStashFileName, CacheSizeCheck. keep. Qed.

Lemma kept_FreeStash base id : keeps (FreeStash base id) (fun _ => True).
Proof. unfold FreeStash, GetStashFileName. keep. Qed.

Lemma kept_CreateStash n dev : keeps (CreateStash ctx0 n dev) (fun _ => True).
Proof.
  assert (keeps (EnumerateStash (fun name (_ : unit) => DeletePartial name) tt) (fun _ => True)) by (apply kept_enumerate; intros; unfold DeletePartial; keep).
  assert (keeps (EnumerateStash UpdateFileSize 0) (fun _ => True)) by (apply kept_enumerate; intros; unfold UpdateFileSize; keep).
  unfold CreateStash, GetStashFileName, CacheSizeCheck, mkdir. keep.
Qed.
#[local] Hint Resolve kept_DeleteStash kept_LoadStash kept_WriteStash kept_FreeStash kept_CreateStash : keeps.

(** ** Commands that may not write *)
Abbreviation dry p := (canwrite p = false).

Lemma kept_Load1 want p : dry p -> keeps (LoadSrcTgtVersion1 junk want p) (fun '(_, _, _, p') => dry p').
Proof.
  intros Hp. unfold LoadSrcTgtVersion1, next_word. destruct (strtok_r 32 (cpos p)) as [x c]. eapply kept_bind; [apply kept_parse_range |]. intros src _.
  eapply (kept_bind _ _ (fun '(_, p') => dry p')); [destruct want; keep |]. intros [tgt p'] Hp'. keep.
Qed.

Lemma kept_stash_loop fuel : forall st p, dry p -> keeps (stash_loop junk ctx0 fuel st p) (fun p' => dry p').
Proof.
  induction fuel as [|fuel IH]; intros st p Hp; cbn [stash_loop].
  - intros w. by split.
  - keep.
Qed.
#[local] Hint Resolve kept_Load1 kept_stash_loop : keeps.

Lemma kept_Load2 p : dry p -> keeps (LoadSrcTgtVersion2 junk ctx0 p) (fun '(_, _, _, _, p') => dry p').
Proof.
  intros Hp. unfold LoadSrcTgtVersion2, next_word. keep.
Qed.
#[local] Hint Resolve kept_Load2 : keeps.

Lemma kept_load_checked s t p : dry p -> keeps (load_checked junk ctx0 s t p) (fun '(_, _, _, p') => dry p').
Proof.
  intros Hp. unfold load_checked. eapply kept_bind; [by apply kept_Load2 |]. intros [[[[rc tgt] n] ov] p1] Hp1. keep.
Qed.
#[local] Hint Resolve kept_load_checked : keeps.

Lemma kept_load_source onehash p : dry p -> keeps (load_source junk ctx0 onehash p) (fun '(_, _, _, p') => dry p').
Proof. intros Hp. unfold load_source, LoadSrcTgtVersion3. keep. Qed.

Lemma kept_free_overlap p : dry p -> keeps (free_overlap p) (fun p' => dry p').
Proof. intros Hp. unfold free_overlap. keep. Qed.
#[local] Hint Resolve kept_load_source kept_free_overlap : keeps.

Lemma dry_found p (b : bool) : dry p -> dry (if b then set_foundwrites p else p).
Proof. by destruct b. Qed.

Lemma kept_Move p : dry p -> keeps (PerformCommandMove junk ctx0 p) (fun '(_, p') => dry p').
Proof.
  intros Hp. unfold PerformCommandMove. eapply kept_bind; [by apply kept_load_source |]. intros [[[st tgt] n] p1] Hp1. simpl in Hp1.
  destruct (st =? -1); [by apply kept_ret |]. pose proof (dry_found p1 (st =? 0) Hp1) as Hp2. cbv zeta. revert Hp2. generalize (if st =? 0 then set_foundwrites p1 else p1).
  intros p2 Hp2. rewrite Hp2. simpl andb. keep.
Qed.

Lemma kept_Stash p : dry p -> keeps (PerformCommandStash junk ctx0 p) (fun '(_, p') => dry p').
Proof. intros Hp. unfold PerformCommandStash. keep. Qed.

Lemma kept_Free p : dry p -> keeps (PerformCommandFree p) (fun '(_, p') => dry p').
Proof. intros Hp. unfold PerformCommandFree. keep. Qed.

Lemma kept_Diff p : dry p -> keeps (PerformCommandDiff bz_decompress z_inflate z_deflate malloc junk ctx0 p) (fun '(_, p') => dry p').
Proof.
  intros Hp. unfold PerformCommandDiff, next_word. destruct (bool_decide _); [by apply kept_stop |]. destruct (strtok_r 32 (cpos p)) as [[v1|] c1]; [|by apply kept_ret].
  eapply kept_bind; [apply kept_perform |]. intros offset _. destruct (strtok_r 32 _) as [[v2|] c2]; [|by apply kept_ret].
  eapply kept_bind; [apply kept_perform |]. intros len _. eapply kept_bind; [by apply kept_load_source |]. intros [[[st tgt] n] p1] Hp1. simpl in Hp1.
  destruct (st =? -1); [by apply kept_ret |]. pose proof (dry_found p1 (st =? 0) Hp1) as Hp2. cbv zeta. revert Hp2. generalize (if st =? 0 then set_foundwrites p1 else p1).
  intros p2 Hp2. rewrite Hp2. simpl andb. keep.
Qed.

(** ** The whole list *)
Definition keeper (c : Command) : Prop := match c.2 with Some f => forall p, dry p -> keeps (f p) (fun '(_, p') => dry p') | None => True end.

Lemma verify_keepers : Forall keeper (verify_commands bz_decompress z_inflate z_deflate malloc junk ctx0).
Proof.
  pose proof kept_Diff. pose proof kept_Move. pose proof kept_Stash. pose proof kept_Free. repeat (apply List.Forall_cons; [done |]). apply List.Forall_nil.
Qed.

Lemma find_keeper commands name c : Forall keeper commands -> find_command commands name = Some c -> keeper c.
Proof. intros Hc Hf. apply List.find_some in Hf as [Hin _]. rewrite List.Forall_forall in Hc. by apply Hc. Qed.

Lemma kept_command_loop commands fuel : Forall keeper commands -> forall ls p, dry p -> keeps (command_loop fuel commands ls p) (fun '(_, p') => dry p').
Proof.
  intros Hc. induction fuel as [|fuel IH]; intros ls p Hp; cbn [command_loop]; [by apply kept_stop |].
  destruct (strtok_r 10 ls) as [[line|] ls']; [|by apply kept_ret]. destruct (strtok_r 32 (Some line)) as [[name|] rest]; [|by apply kept_ret]. cbv zeta.
  destruct (find_command commands name) as [[n [f|]]|] eqn:Ef; [|by apply IH | by apply kept_ret]. pose proof (find_keeper _ _ _ Hc Ef) as Hk.
  eapply kept_bind; [by apply Hk |]. intros [rc p'] Hp'. destruct (rc =? -1); [by apply kept_ret | by apply IH].
Qed.
#[local] Hint Resolve kept_command_loop : keeps.

Lemma kept_run_commands commands ls p : Forall keeper commands -> dry p -> keeps (run_commands commands ls p) (fun '(_, p') => dry p').
Proof.
  intros Hc Hp. unfold run_commands. eapply kept_bind; [by apply kept_command_loop |]. intros [rc p'] Hp'. rewrite Hp'. keep.
Qed.
#[local] Hint Resolve kept_run_commands : keeps.

Lemma kept_read_list commands args new_data patch : Forall keeper commands -> keeps (read_list ctx0 commands args true new_data patch) (fun '(_, p') => dry p').
Proof. intros Hc. unfold read_list. keep. Qed.
#[local] Hint Resolve kept_read_list : keeps.

Lemma kept_dry_run commands args : Forall keeper commands -> keeps (PerformBlockImageUpdate ctx0 commands args true) (fun _ => True).
Proof. intros Hc. unfold PerformBlockImageUpdate. keep. Qed.
End Verify.

(** C31. Checking a block image update does not change the device, whatever the
    package, the transfer list and the stash hold, whichever calls fail, and
    however the check ends. *)
Theorem block_image_verify_keeps bz_decompress z_inflate z_deflate malloc junk ctx0 args w :
  let '(_, w', _) := BlockImageVerifyFn bz_decompress z_inflate z_deflate malloc junk ctx0 args w in w_dev w' = w_dev w.
Proof.
  pose proof (kept_dry_run ctx0 _ args (verify_keepers bz_decompress z_inflate z_deflate malloc junk ctx0) w) as H. unfold BlockImageVerifyFn.
  destruct (PerformBlockImageUpdate ctx0 _ args true w) as [[r w'] l]. apply H.
Qed.

(** ** Digests of ranges *)
Section RangeSha1.
Context (off : bool) (bad : bytes -> Prop).
Abbreviation runs := (runs off bad).
Abbreviation at_ := (at_ off).

Lemma segment_split d x (i j : nat) : 0 <= x -> segment d x (i + j) = segment d x i ++ segment d (x + Z.of_nat i) j.
Proof.
  intros Hx. unfold segment. replace (Z.to_nat (x + Z.of_nat i)) with (Z.to_nat x + i)%nat by lia. rewrite <- drop_drop. symmetry. apply take_take_drop.
Qed.

Lemma runs_sha_blocks n : forall ctx msg (w : world) (d : bytes) (x : Z) (s : stash) (Q : option HASH_CTX -> world -> Prop) (G : bytes -> stash -> Prop),
  at_ w d x s -> G d s -> bytes_ok d -> 0 <= x -> x + Z.of_nat n * BLOCKSIZE <= Z.of_nat (length d) -> sha1_streamed msg ctx ->
  (forall w' pos' ctx', at_ w' d pos' s -> sha1_streamed (msg ++ segment d x (Z.to_nat (Z.of_nat n * BLOCKSIZE))) ctx' -> Q (Some ctx') w') ->
  runs (sha_blocks n ctx) w Q G.
Proof.
  induction n as [|n IH]; intros ctx msg w d x s Q G Hw HG Hd Hx Hl Hst HQ; cbn [sha_blocks].
  { apply runs_ret. eapply HQ; [exact Hw |]. simpl. unfold segment. by rewrite take_0, app_nil_r. }
  apply runs_bind. eapply runs_read_all; [exact Hw | done | done | by unfold BLOCKSIZE | blia |]. intros w1 Hw1. cbv iota.
  set (a := Z.to_nat BLOCKSIZE). pose proof (SHA_update_streamed _ _ (segment d x a) Hst ltac:(by apply bytes_ok_segment)) as Hst1.
  eapply IH; [exact Hw1 | done | done | blia | blia | exact Hst1 |]. intros w2 pos2 ctx2 Hw2 Hst2. eapply HQ; [exact Hw2 |].
  assert (segment d x (Z.to_nat (Z.of_nat (S n) * BLOCKSIZE)) = segment d x a ++ segment d (x + BLOCKSIZE) (Z.to_nat (Z.of_nat n * BLOCKSIZE))) as ->; [|by rewrite app_assoc].
  replace (Z.to_nat (Z.of_nat (S n) * BLOCKSIZE)) with (a + Z.to_nat (Z.of_nat n * BLOCKSIZE))%nat by (unfold a; blia). rewrite segment_split by done.
  by replace (x + BLOCKSIZE) with (x + Z.of_nat a) by (unfold a; blia).
Qed.

Lemma runs_sha_ranges nb ps : forall lo ctx msg (w : world) (d : bytes) (pos : Z) (s : stash) (Q : option HASH_CTX -> world -> Prop) (G : bytes -> stash -> Prop),
  at_ w d pos s -> G d s -> bytes_ok d -> 0 <= lo -> spans_ok lo nb ps -> nb * BLOCKSIZE <= Z.of_nat (length d) -> sha1_streamed msg ctx ->
  (forall w' pos' ctx', at_ w' d pos' s -> sha1_streamed (msg ++ gather d (bspans ps)) ctx' -> Q (Some ctx') w') ->
  runs (sha_ranges ps ctx) w Q G.
Proof.
  induction ps as [|[a b] ps IH]; intros lo ctx msg w d pos s Q G Hw HG Hd Hlo Hps Hl Hst HQ; cbn [sha_ranges].
  { apply runs_ret. eapply HQ; [exact Hw |]. simpl. by rewrite app_nil_r. }
  cbn [spans_ok] in Hps. destruct Hps as (? & ? & Hps). apply runs_bind. eapply runs_lseek; [exact Hw | done | blia |]. intros w1 Hw1. simpl negb. cbv iota.
  apply runs_bind. eapply runs_sha_blocks; [exact Hw1 | done | done | blia | blia | exact Hst |]. intros w2 pos2 ctx2 Hw2 Hst2. cbv iota.
  eapply (IH b); [exact Hw2 | done | done | lia | done | done | exact Hst2 |]. intros w3 pos3 ctx3 Hw3 Hst3. eapply HQ; [exact Hw3 |].
  cbn [bspans map gather]. fold (bspans ps). rewrite <- Z.mul_sub_distr_r, app_assoc. rewrite Z2Nat.id in Hst3 by lia. exact Hst3.
Qed.
End RangeSha1.

(** The digest that [range_sha1] computes of the printed form of any list of
    ranges of the device, with reads of any lengths, is the SHA-1 digest of what
    the device holds there, in hexadecimal; the device is not changed. *)
Theorem range_sha1_digests ctx0 nb ps d pos s es : ctx_shape ctx0 -> bytes_ok d -> nb < 2 ^ 30 -> nb * BLOCKSIZE <= Z.of_nat (length d) -> spans_ok 0 nb ps -> ps <> [] ->
  Forall (calm false) es -> exists w l, RangeSha1Fn ctx0 (to_string_raw ps) (World d pos s es) = (Done (PrintSha1 (sha1 (gather d (bspans ps)))), w, l) /\ w_dev w = d.
Proof.
  intros Hctx Hd Hnb Hl Hps Hne Hes. assert (Hw : at_ false (World d pos s es) d pos s) by (by repeat split).
  assert (H : runs false (fun _ => False) (RangeSha1Fn ctx0 (to_string_raw ps)) (World d pos s es) (fun r w => r = hexid (gather d (bspans ps)) /\ w_dev w = d) (fun _ _ => True)).
  { unfold RangeSha1Fn. apply runs_bind. eapply runs_syscall; [exact Hw | done |]. intros w1 Hw1. simpl negb. cbv iota.
    apply runs_bind. eapply (runs_parse_range false _ nb ps); [exact Hw1 | done | done | done | done |]. intros w2 Hw2. rewrite rs_pairs_rangeset.
    apply runs_bind. eapply (runs_sha_ranges false _ nb ps 0); [exact Hw2 | done | done | done | done | done | by apply SHA_init_streamed |]. intros w3 pos3 ctx3 Hw3 Hst. cbv iota.
    destruct (SHA_final_streamed _ _ Hst) as (ctx4 & E4 & Hdig). apply runs_bind. eapply runs_perform; [exact E4 |]. apply runs_ret.
    change (Z.to_nat SHA_DIGEST_SIZE) with 20%nat. rewrite Hdig. split; [done | apply Hw3]. }
  unfold runs in H. destruct (RangeSha1Fn ctx0 (to_string_raw ps) (World d pos s es)) as [[r w] l]. destruct H as [H|H].
  - apply Exists_exists in H as (x & _ & []).
  - destruct r as [x| | |]; [|by destruct H | done | done]. destruct H as [-> H]. eauto.
Qed.

Lemma range_sha1_digests_witness : exists w l,
  RangeSha1Fn zero_ctx (to_string_raw [(0, 1); (2, 3)]) (World (replicate (Z.to_nat (3 * BLOCKSIZE)) 7) 0 None [EvDone 3; EvDone 100]) =
    (Done (PrintSha1 (sha1 (gather (replicate (Z.to_nat (3 * BLOCKSIZE)) 7) (bspans [(0, 1); (2, 3)])))), w, l) /\ w_dev w = replicate (Z.to_nat (3 * BLOCKSIZE)) 7.
Proof.
  apply (range_sha1_digests zero_ctx 3 [(0, 1); (2, 3)]).
  - apply zero_ctx_shape.
  - apply Forall_replicate. unfold in_range. lia.
  - lia.
  - rewrite length_replicate. unfold BLOCKSIZE. lia.
  - simpl. lia.
  - done.
  - repeat constructor.
Defined.
