(* ===== verification/MinzipHash.v ===== *)
(** * The hash table of minzip

    Models src/bootable/recovery/minzip/Hash.c and the iterators of Hash.h: an
    open-addressing table with linear probing and tombstones. An item is a
    pointer, a value of a type [D] with decidable equality; the outcome of an
    allocation is an argument. *)

From S2P Require Import Prelude.

Definition LOAD_NUMER : Z := 5.
Definition LOAD_DENOM : Z := 8.

(** [void* data]: null, [HASH_TOMBSTONE] or a pointer to an item. *)
Inductive slot (D : Type) :=
  | NULL
  | HASH_TOMBSTONE
  | Data (d : D).
Arguments NULL {D}.
Arguments HASH_TOMBSTONE {D}.
Arguments Data {D} d.

Record HashEntry (D : Type) := mk_HashEntry { hashValue : Z; data : slot D }.
Arguments mk_HashEntry {D} hashValue data.
Arguments hashValue {D} h.
Arguments data {D} h.

Record HashTable (D : Type) := mk_HashTable {
  tableSize : Z;
  numEntries : Z;
  numDeadEntries : Z;
  pEntries : list (HashEntry D)
}.
Arguments mk_HashTable {D} tableSize numEntries numDeadEntries pEntries.
Arguments tableSize {D} h.
Arguments numEntries {D} h.
Arguments numDeadEntries {D} h.
Arguments pEntries {D} h.

Definition mzHashSize (size : Z) : Z := u64 (u64 (size * LOAD_DENOM) / LOAD_NUMER + 1).

Definition roundUpPower2 (val : Z) : Z :=
  let val := u32 (val - 1) in
  let val := Z.lor val (Z.shiftr val 1) in
  let val := Z.lor val (Z.shiftr val 2) in
  let val := Z.lor val (Z.shiftr val 4) in
  let val := Z.lor val (Z.shiftr val 8) in
  let val := Z.lor val (Z.shiftr val 16) in
  u32 (val + 1).

Section Hash.
Context {D : Type} `{EqDecision D}.

(** The zeroed entries that [calloc] gives. *)
Definition calloc (n : Z) : list (HashEntry D) := replicate (Z.to_nat n) (mk_HashEntry 0 NULL).

(** [pEntries[i]]. *)
Definition entry_at (es : list (HashEntry D)) (i : Z) : outcome (HashEntry D) :=
  if i <? 0 then Fault OutOfBounds
  else match es !! Z.to_nat i with Some e => Ret e | None => Fault OutOfBounds end.

Definition is_item (s : slot D) : bool := match s with Data _ => true | _ => false end.
Definition is_tombstone (s : slot D) : bool := match s with HASH_TOMBSTONE => true | _ => false end.

Definition mzHashTableCreate (table_ok entries_ok : bool) (initialSize : Z) : outcome (option (HashTable D)) :=
  c_assert (0 <? initialSize);;
  if negb table_ok then Ret None
  else
    let tableSize := i32 (roundUpPower2 (u32 initialSize)) in
    if negb entries_ok then Ret None
    else Ret (Some (mk_HashTable tableSize 0 0 (calloc (u64 tableSize)))).

(** The items handed to [freeFunc], when there is one, are the second result. *)
Fixpoint clear_loop (n : nat) (i : Z) (freeFunc : bool) (es : list (HashEntry D)) (freed : list D)
  : outcome (list (HashEntry D) * list D) :=
  match n with
  | O => Ret (es, freed)
  | S n' =>
      e ← entry_at es i;
      let nuked := <[Z.to_nat i := mk_HashEntry (hashValue e) NULL]> es in
      match data e with
      | HASH_TOMBSTONE => clear_loop n' (i + 1) freeFunc nuked freed
      | Data d => clear_loop n' (i + 1) freeFunc nuked (if freeFunc then freed ++ [d] else freed)
      | NULL => clear_loop n' (i + 1) freeFunc es freed
      end
  end.

Definition mzHashTableClear (freeFunc : bool) (t : HashTable D) : outcome (HashTable D * list D) :=
  '(es, freed) ← clear_loop (Z.to_nat (tableSize t)) 0 freeFunc (pEntries t) [];
  Ret (mk_HashTable (tableSize t) 0 0 es, freed).

Definition mzHashTableFree (freeFunc : bool) (t : option (HashTable D)) : outcome (list D) :=
  match t with
  | None => Ret []
  | Some t => r ← mzHashTableClear freeFunc t; Ret (snd r)
  end.

Definition mzHashTableNumEntries (t : HashTable D) : Z := numEntries t.

Definition SIZEOF_HASHTABLE : Z := 32.
Definition SIZEOF_HASHENTRY : Z := 16.
Definition mzHashTableMemUsage (t : HashTable D) : Z := i32 (u64 (SIZEOF_HASHTABLE + u64 (u64 (tableSize t) * SIZEOF_HASHENTRY))).

Fixpoint tombs_loop (n : nat) (i count : Z) (es : list (HashEntry D)) : outcome Z :=
  match n with
  | O => Ret count
  | S n' =>
      e ← entry_at es i;
      tombs_loop n' (i + 1) (if is_tombstone (data e) then count + 1 else count) es
  end.

Definition countTombStones (t : HashTable D) : outcome Z := tombs_loop (Z.to_nat (tableSize t)) 0 0 (pEntries t).

(** [while (pNewEntries[newIdx].data != NULL) newIdx = (newIdx + 1) & (newSize-1);] *)
Fixpoint new_spot (fuel : nat) (es : list (HashEntry D)) (newSize newIdx : Z) : outcome Z :=
  match fuel with
  | O => Diverge
  | S fuel' =>
      e ← entry_at es newIdx;
      match data e with
      | NULL => Ret newIdx
      | _ => new_spot fuel' es newSize (Z.land (newIdx + 1) (newSize - 1))
      end
  end.

Fixpoint rehash_loop (n : nat) (i : Z) (old : list (HashEntry D)) (newSize : Z) (es : list (HashEntry D))
  : outcome (list (HashEntry D)) :=
  match n with
  | O => Ret es
  | S n' =>
      e ← entry_at old i;
      match data e with
      | Data d =>
          let hv := i32 (hashValue e) in
          newIdx ← new_spot (S (length es)) es newSize (Z.land hv (newSize - 1));
          rehash_loop n' (i + 1) old newSize (<[Z.to_nat newIdx := mk_HashEntry (u32 hv) (Data d)]> es)
      | _ => rehash_loop n' (i + 1) old newSize es
      end
  end.

(** The table, when the new entries could be allocated. *)
Definition resizeHash (entries_ok : bool) (t : HashTable D) (newSize : Z) : outcome (option (HashTable D)) :=
  dead ← countTombStones t;
  c_assert (dead =? numDeadEntries t);;
  if negb entries_ok then Ret None
  else
    es ← rehash_loop (Z.to_nat (tableSize t)) 0 (pEntries t) newSize (calloc newSize);
    let t' := mk_HashTable newSize (numEntries t) 0 es in
    dead ← countTombStones t';
    c_assert (dead =? 0);;
    Ret (Some t').

Section Probe.
Context (cmpFunc : D -> D -> outcome Z).

(** The test of the probing loop for a slot that is not null. *)
Definition is_match (e : HashEntry D) (itemHash : Z) (item : D) : outcome bool :=
  match data e with
  | Data d => if hashValue e =? itemHash then c ← cmpFunc d item; Ret (c =? 0) else Ret false
  | _ => Ret false
  end.

(** The probing loop: the index of the entry it stops at, and the number of
    entries it stepped over. The loop changes nothing, so one that has seen
    every entry never stops. *)
Fixpoint probe_loop (fuel : nat) (t : HashTable D) (itemHash : Z) (item : D) (pEntry count : Z) : outcome (Z * Z) :=
  match fuel with
  | O => Diverge
  | S fuel' =>
      e ← entry_at (pEntries t) pEntry;
      match data e with
      | NULL => Ret (pEntry, count)
      | _ =>
          m ← is_match e itemHash item;
          if (m : bool) then Ret (pEntry, count)
          else if pEntry + 1 =? tableSize t then
            if tableSize t =? 1 then Ret (pEntry + 1, count) else probe_loop fuel' t itemHash item 0 (count + 1)
          else probe_loop fuel' t itemHash item (pEntry + 1) (count + 1)
      end
  end.

(** The slot that the loop is given first. *)
Definition first_slot (t : HashTable D) (itemHash : Z) : Z := Z.land itemHash (u32 (tableSize t - 1)).

(** Stores the item in the entry the loop stopped at, and makes room. [abort]
    is [Fault AssertFailed]. *)
Definition add_entry (entries_ok : bool) (t : HashTable D) (pEntry itemHash : Z) (item : D) : outcome (HashTable D) :=
  let es := <[Z.to_nat pEntry := mk_HashEntry itemHash (Data item)]> (pEntries t) in
  let t := mk_HashTable (tableSize t) (i32 (numEntries t + 1)) (numDeadEntries t) es in
  t ← (if i32 (tableSize t * LOAD_NUMER) <? i32 (i32 (numEntries t + numDeadEntries t) * LOAD_DENOM) then
         r ← resizeHash entries_ok t (i32 (tableSize t * 2));
         match r with
         | Some t' => Ret t'
         | None => Fault AssertFailed
         end
       else Ret t);
  c_assert (numEntries t <? tableSize t);;
  Ret t.

Definition mzHashTableLookup (entries_ok : bool) (t : HashTable D) (itemHash : Z) (item : D) (doAdd : bool)
  : outcome (HashTable D * slot D) :=
  c_assert (0 <? tableSize t);;
  '(pEntry, _) ← probe_loop (S (Z.to_nat (tableSize t))) t itemHash item (first_slot t itemHash) 0;
  e ← entry_at (pEntries t) pEntry;
  match data e with
  | NULL =>
      if doAdd then t' ← add_entry entries_ok t pEntry itemHash item; Ret (t', Data item)
      else Ret (t, NULL)
  | s => Ret (t, s)
  end.

Definition countProbes (t : HashTable D) (itemHash : Z) (item : D) : outcome Z :=
  c_assert (0 <? tableSize t);;
  '(pEntry, count) ← probe_loop (S (Z.to_nat (tableSize t))) t itemHash item (first_slot t itemHash) 0;
  e ← entry_at (pEntries t) pEntry;
  match data e with
  | NULL => Ret (-1)
  | _ => Ret count
  end.

End Probe.

Fixpoint remove_loop (fuel : nat) (t : HashTable D) (item : D) (pEntry : Z) : outcome (HashTable D * bool) :=
  match fuel with
  | O => Diverge
  | S fuel' =>
      e ← entry_at (pEntries t) pEntry;
      match data e with
      | NULL => Ret (t, false)
      | s =>
          if match s with Data d => bool_decide (d = item) | _ => false end then
            let es := <[Z.to_nat pEntry := mk_HashEntry (hashValue e) HASH_TOMBSTONE]> (pEntries t) in
            Ret (mk_HashTable (tableSize t) (numEntries t - 1) (numDeadEntries t + 1) es, true)
          else if pEntry + 1 =? tableSize t then
            if tableSize t =? 1 then Ret (t, false) else remove_loop fuel' t item 0
          else remove_loop fuel' t item (pEntry + 1)
      end
  end.

Definition mzHashTableRemove (t : HashTable D) (itemHash : Z) (item : D) : outcome (HashTable D * bool) :=
  c_assert (0 <? tableSize t);;
  remove_loop (S (Z.to_nat (tableSize t))) t item (first_slot t itemHash).

(** The callback works on a state of type [A]. *)
Fixpoint foreach_loop {A} (n : nat) (i : Z) (func : D -> A -> outcome (Z * A)) (es : list (HashEntry D)) (arg : A)
  : outcome (Z * A) :=
  match n with
  | O => Ret (0, arg)
  | S n' =>
      e ← entry_at es i;
      match data e with
      | Data d =>
          '(val, arg) ← func d arg;
          if negb (val =? 0) then Ret (val, arg) else foreach_loop n' (i + 1) func es arg
      | _ => foreach_loop n' (i + 1) func es arg
      end
  end.

Definition mzHashForeach {A} (t : HashTable D) (func : D -> A -> outcome (Z * A)) (arg : A) : outcome (Z * A) :=
  foreach_loop (Z.to_nat (tableSize t)) 0 func (pEntries t) arg.

(** An iterator is its index [idx]. *)
Fixpoint iter_loop (n : nat) (i lim : Z) (es : list (HashEntry D)) : outcome Z :=
  match n with
  | O => Ret i
  | S n' =>
      if i <? lim then e ← entry_at es i; if is_item (data e) then Ret i else iter_loop n' (i + 1) lim es
      else Ret i
  end.

Definition mzHashIterNext (t : HashTable D) (idx : Z) : outcome Z :=
  iter_loop (Z.to_nat (tableSize t - idx)) (idx + 1) (tableSize t) (pEntries t).

Definition mzHashIterBegin (t : HashTable D) : outcome Z := mzHashIterNext t (-1).

Definition mzHashIterDone (t : HashTable D) (idx : Z) : bool := tableSize t <=? idx.

Definition mzHashIterData (t : HashTable D) (idx : Z) : outcome (slot D) :=
  c_assert ((0 <=? idx) && (idx <? tableSize t));;
  e ← entry_at (pEntries t) idx;
  Ret (data e).

(** The numbers the loop of [mzHashTableProbeCount] gathers, in its order:
    numEntries, minProbe, maxProbe, totalProbe. *)
Fixpoint probe_count_loop (fuel : nat) (cmpFunc : D -> D -> outcome Z) (calcFunc : D -> Z) (t : HashTable D) (iter : Z)
  (n minProbe maxProbe totalProbe : Z) : outcome (Z * Z * Z * Z) :=
  match fuel with
  | O => Diverge
  | S fuel' =>
      if mzHashIterDone t iter then Ret (n, minProbe, maxProbe, totalProbe)
      else
        s ← mzHashIterData t iter;
        match s with
        | Data d =>
            count ← countProbes cmpFunc t (calcFunc d) d;
            next ← mzHashIterNext t iter;
            probe_count_loop fuel' cmpFunc calcFunc t next (n + 1)
              (if count <? minProbe then count else minProbe) (if maxProbe <? count then count else maxProbe)
              (i32 (totalProbe + count))
        | _ => Fault AssertFailed
        end
  end.

Definition mzHashTableProbeCount (cmpFunc : D -> D -> outcome Z) (calcFunc : D -> Z) (t : HashTable D)
  : outcome (Z * Z * Z * Z) :=
  iter ← mzHashIterBegin t;
  probe_count_loop (S (Z.to_nat (tableSize t))) cmpFunc calcFunc t iter 0 (65536 * 32767) 0 0.

End Hash.
