(* ===== verification/MinzipHashSpec.v ===== *)
(** * The hash table of minzip is a finite map

    Proves of MinzipHash.v that a table whose probe chains have no gaps and that
    is at most five eighths full, which every operation keeps, refines a finite
    map: looking up, adding, removing, clearing and walking do to the table what
    they do to the map, and every probe ends. *)

From S2P Require Import Prelude.
From S2P Require Import MinzipHash.

(** ** Rounding up to a power of two *)

(** [y] has a bit where [x] has one within [n] places above. *)
Definition smeared (n x y : Z) : Prop :=
  0 <= y /\ forall i, 0 <= i -> Z.testbit y i = true <-> exists j, 0 <= j < n /\ Z.testbit x (i + j) = true.

Lemma smeared_start x : 0 <= x -> smeared 1 x x.
Proof.
  split; [done|]. intros i Hi. split.
  - intros Hb. exists 0. rewrite Z.add_0_r. split; [lia | done].
  - intros (j & Hj & Hb). replace (i + j) with i in Hb by lia. done.
Qed.

Lemma smeared_step n x y : 0 < n -> smeared n x y -> smeared (2 * n) x (Z.lor y (Z.shiftr y n)).
Proof.
  intros Hn [Hy Hs]. split; [apply Z.lor_nonneg; rewrite Z.shiftr_nonneg; lia|].
  intros i Hi. rewrite Z.lor_spec, Z.shiftr_spec, orb_true_iff, !Hs by lia. split.
  - intros [(j & Hj & Hb) | (j & Hj & Hb)]; [exists j; split; [lia | done]|].
    exists (n + j). split; [lia|]. by rewrite Z.add_assoc.
  - intros (j & Hj & Hb). destruct (Z_lt_dec j n); [left; exists j; split; [lia | done]|].
    right. exists (j - n). split; [lia|]. by replace (i + n + (j - n)) with (i + j) by lia.
Qed.

Lemma smeared_ones n x y : 0 < x -> Z.log2 x < n -> smeared n x y -> y + 1 = 2 ^ (Z.log2 x + 1).
Proof.
  intros Hx Hn [Hy Hs].
  assert (y = Z.ones (Z.log2 x + 1)) as ->; [|rewrite Z.ones_equiv; lia].
  pose proof (Z.log2_nonneg x).
  apply Z.bits_inj'. intros i Hi. destruct (Z_le_dec i (Z.log2 x)).
  - rewrite Z.ones_spec_low by lia. apply Hs; [done|]. exists (Z.log2 x - i). split; [lia|].
    replace (i + (Z.log2 x - i)) with (Z.log2 x) by lia. by apply Z.bit_log2.
  - rewrite Z.ones_spec_high by lia. apply not_true_iff_false. rewrite Hs by done.
    intros (j & Hj & Hb). rewrite Z.bits_above_log2 in Hb by lia. done.
Qed.

Lemma roundUpPower2_pow val : 1 <= val <= 2 ^ 31 ->
  exists k, 0 <= k <= 31 /\ roundUpPower2 val = 2 ^ k /\ val <= 2 ^ k < 2 * val.
Proof.
  intros Hv. unfold roundUpPower2. rewrite (wrap_small 32 (val - 1)) by (unfold in_range; lia).
  destruct (decide (val = 1)) as [->|]; [exists 0; vm_compute; intuition discriminate|].
  set (x := val - 1). assert (0 < x) as Hx by (unfold x; lia).
  pose proof (smeared_start x ltac:(lia)) as Hs.
  do 5 (apply smeared_step in Hs; [|lia]). change (2 * (2 * (2 * (2 * (2 * 1))))) with 32 in Hs.
  apply smeared_ones in Hs as E; [|done | apply Z.log2_lt_pow2; unfold x; lia].
  change (2 * 1) with 2 in E. change (2 * 2) with 4 in E. change (2 * 4) with 8 in E. change (2 * 8) with 16 in E.
  exists (Z.log2 x + 1). rewrite E. pose proof (Z.log2_nonneg x). pose proof (Z.log2_spec x Hx) as [H1 H2].
  assert (Z.log2 x < 31) by (apply Z.log2_lt_pow2; unfold x; lia).
  assert (2 ^ (Z.log2 x + 1) <= 2 ^ 31) by (apply Z.pow_le_mono_r; lia).
  unfold Z.succ in H2. rewrite Z.pow_add_r in * by lia. unfold x in *.
  repeat split; try lia. apply wrap_small. unfold in_range. lia.
Qed.

(** ** Tables *)

Section Spec.
Context {D : Type} `{EqDecision D}.
Implicit Types (es : list (HashEntry D)) (t : HashTable D) (e : HashEntry D) (d item : D).

(** The items of a table, with their hashes. *)
Definition item_of e : option (Z * D) := match data e with Data d => Some (hashValue e, d) | _ => None end.
Definition live es : list (Z * D) := omap item_of es.
Definition tombs es : nat := length (filter (fun e => is_tombstone (data e) = true) es).

(** The entry at a position of the table taken as a ring. *)
Definition ent es (p : Z) : HashEntry D :=
  default (mk_HashEntry 0 NULL) (es !! Z.to_nat (p mod Z.of_nat (length es))).

(** Between the place an item hashes to and the place it is at there is no gap. *)
Definition chained es : Prop :=
  forall p j, item_of (ent es p) <> None ->
  0 <= j < (p - hashValue (ent es p)) mod Z.of_nat (length es) ->
  data (ent es (hashValue (ent es p) + j)) <> NULL.

Record wf t : Prop := {
  wf_size : exists k, 0 <= k <= 28 /\ tableSize t = 2 ^ k;
  wf_length : Z.of_nat (length (pEntries t)) = tableSize t;
  wf_entries : numEntries t = Z.of_nat (length (live (pEntries t)));
  wf_dead : numDeadEntries t = Z.of_nat (tombs (pEntries t));
  wf_load : (numEntries t + numDeadEntries t) * LOAD_DENOM <= tableSize t * LOAD_NUMER;
  wf_chained : chained (pEntries t);
  wf_hash : Forall (fun x => in_range 32 (fst x)) (live (pEntries t))
}.

Lemma mod_of_pow k x : 0 <= k -> Z.land x (2 ^ k - 1) = x mod 2 ^ k.
Proof. apply land_ones_mod. Qed.

Lemma wf_pos t : wf t -> 0 < tableSize t <= 2 ^ 28.
Proof.
  intros [(k & Hk & E) _ _ _ _ _ _]. rewrite E.
  pose proof (Z.pow_pos_nonneg 2 k). pose proof (Z.pow_le_mono_r 2 k 28). lia.
Qed.

Lemma entry_at_ent es p : 0 <= p < Z.of_nat (length es) -> entry_at es p = Ret (ent es p).
Proof.
  intros Hp. unfold entry_at, ent. destruct (Z.ltb_spec p 0); [lia|]. rewrite Z.mod_small by lia.
  destruct (lookup_lt_is_Some_2 es (Z.to_nat p)) as [e ->]; [lia | done].
Qed.

Lemma ent_mod es p : ent es (p mod Z.of_nat (length es)) = ent es p.
Proof. unfold ent. by rewrite Zmod_mod. Qed.

Lemma ent_lookup es i e : es !! i = Some e -> ent es (Z.of_nat i) = e.
Proof.
  intros E. apply lookup_lt_Some in E as Hl. unfold ent. rewrite Z.mod_small, Nat2Z.id, E by lia. done.
Qed.

Lemma lookup_ent es p : 0 < Z.of_nat (length es) -> es !! Z.to_nat (p mod Z.of_nat (length es)) = Some (ent es p).
Proof.
  intros Hl. unfold ent. pose proof (Z.mod_pos_bound p (Z.of_nat (length es)) Hl).
  destruct (lookup_lt_is_Some_2 es (Z.to_nat (p mod Z.of_nat (length es)))) as [e ->]; [lia | done].
Qed.

Lemma elem_of_live es x : x ∈ live es <-> exists i e, es !! i = Some e /\ item_of e = Some x.
Proof.
  unfold live. rewrite list_elem_of_omap. split.
  - intros (e & He & Ex). apply list_elem_of_lookup in He as [i Hi]. eauto.
  - intros (i & e & Hi & Ex). exists e. split; [by eapply list_elem_of_lookup_2 | done].
Qed.

Lemma live_app es es' : live (es ++ es') = live es ++ live es'.
Proof. apply omap_app. Qed.

Lemma tombs_app es es' : tombs (es ++ es') = (tombs es + tombs es')%nat.
Proof. unfold tombs. by rewrite filter_app, length_app. Qed.

(** A list without a gap is made of items and tombstones. *)
Lemma count_full es : Forall (fun e => data e <> NULL) es -> (length (live es) + tombs es)%nat = length es.
Proof.
  induction 1 as [|e es He _ IH]; [done|].
  change (e :: es) with ([e] ++ es). rewrite live_app, tombs_app, !length_app, <- IH.
  unfold live, tombs, item_of. destruct e as [h [| |d]]; simpl in *; [done | |]; cbn; lia.
Qed.

Lemma has_gap es : (length (live es) + tombs es < length es)%nat ->
  exists i e, es !! i = Some e /\ data e = NULL.
Proof.
  intros Hlt. destruct (decide (Exists (fun e => is_item (data e) = false /\ is_tombstone (data e) = false) es)) as [Hx|Hx].
  - apply Exists_exists in Hx as (e & He & H1 & H2). apply list_elem_of_lookup in He as [i Hi].
    exists i, e. split; [done|]. by destruct (data e).
  - apply not_Exists_Forall in Hx; [|solve_decision].
    rewrite count_full in Hlt; [lia|]. eapply Forall_impl; [exact Hx|].
    intros e Hne E. apply Hne. by rewrite E.
Qed.

Lemma live_cons e es : live (e :: es) = option_list (item_of e) ++ live es.
Proof. unfold live. simpl. by destruct (item_of e). Qed.

Lemma tombs_cons e es : tombs (e :: es) = ((if is_tombstone (data e) then 1 else 0) + tombs es)%nat.
Proof. unfold tombs. rewrite filter_cons. destruct (is_tombstone (data e)); [by rewrite decide_True | by rewrite decide_False]. Qed.

Lemma insert_split es i e e' : es !! i = Some e ->
  exists l1 l2, es = l1 ++ e :: l2 /\ <[i := e']> es = l1 ++ e' :: l2.
Proof.
  intros Hi. exists (take i es), (drop (S i) es). split; [by rewrite take_drop_middle|].
  apply insert_take_drop. by eapply lookup_lt_Some.
Qed.

(** Changing an entry changes the items and tombstones by that entry. *)
Lemma live_insert es i e e' : es !! i = Some e ->
  option_list (item_of e) ++ live (<[i := e']> es) ≡ₚ option_list (item_of e') ++ live es.
Proof.
  intros Hi. destruct (insert_split es i e e' Hi) as (l1 & l2 & -> & ->).
  rewrite !live_app, !live_cons. solve_Permutation.
Qed.

Lemma tombs_insert es i e e' : es !! i = Some e ->
  ((if is_tombstone (data e) then 1 else 0) + tombs (<[i := e']> es) =
   (if is_tombstone (data e') then 1 else 0) + tombs es)%nat.
Proof.
  intros Hi. destruct (insert_split es i e e' Hi) as (l1 & l2 & -> & ->).
  rewrite !tombs_app, !tombs_cons. lia.
Qed.

(** ** Probing *)

Lemma least_step (P : nat -> bool) n : P n = true -> exists c, (c <= n)%nat /\ P c = true /\ forall j, (j < c)%nat -> P j = false.
Proof.
  revert P. induction n as [|n IH]; intros P Hn; [exists 0%nat; repeat split; [lia | done | lia]|].
  destruct (P 0%nat) eqn:E0; [exists 0%nat; repeat split; [lia | done | lia]|].
  destruct (IH (fun i => P (S i)) Hn) as (c & Hc & Pc & Hj).
  exists (S c). repeat split; [lia | done|]. intros [|j] Hlt; [done | apply Hj; lia].
Qed.

(** The step of the probing loops: the next entry of the ring. *)
Lemma next_ent es p : 0 <= p < Z.of_nat (length es) -> 1 < Z.of_nat (length es) ->
  (if p + 1 =? Z.of_nat (length es) then 0 else p + 1) = (p + 1) mod Z.of_nat (length es).
Proof.
  intros Hp Hl. destruct (Z.eqb_spec (p + 1) (Z.of_nat (length es))) as [->|]; [by rewrite Z.mod_same by lia|].
  rewrite Z.mod_small by lia. done.
Qed.

Lemma ent_add_mod es p j : ent es (p mod Z.of_nat (length es) + j) = ent es (p + j).
Proof. unfold ent. by rewrite Zplus_mod_idemp_l. Qed.

(** Walking round the ring from any place meets an entry that satisfies a test,
    when one does. *)
Lemma ring_first es (stop : HashEntry D -> bool) h q : 0 <= q < Z.of_nat (length es) -> stop (ent es q) = true ->
  exists c : nat, (c < length es)%nat /\ stop (ent es (h + Z.of_nat c)) = true /\
    forall j, 0 <= j < Z.of_nat c -> stop (ent es (h + j)) = false.
Proof.
  intros Hq Hs. set (n := Z.of_nat (length es)) in *.
  pose proof (Z.mod_pos_bound (q - h) n ltac:(lia)) as Hb.
  destruct (least_step (fun i => stop (ent es (h + Z.of_nat i))) (Z.to_nat ((q - h) mod n))) as (c & Hc & Pc & Hlt).
  { rewrite Z2Nat.id by lia. rewrite <- (ent_mod es). fold n. rewrite Zplus_mod_idemp_r.
    replace (h + (q - h)) with q by lia. by rewrite Z.mod_small. }
  exists c. split_and!; [unfold n in *; lia | done|].
  intros j Hj. specialize (Hlt (Z.to_nat j) ltac:(lia)). by rewrite Z2Nat.id in Hlt by lia.
Qed.

Lemma is_null_spec (s : slot D) : negb (is_item s || is_tombstone s) = true <-> s = NULL.
Proof. by destruct s. Qed.

Lemma is_null_false (s : slot D) : negb (is_item s || is_tombstone s) = false <-> s <> NULL.
Proof. by destruct s. Qed.

Section Run.
Context (cmpFunc : D -> D -> outcome Z) (t : HashTable D) (h : Z) (item : D).
Context (Hlen : Z.of_nat (length (pEntries t)) = tableSize t).
Abbreviation es := (pEntries t).

Definition goes_on (p : Z) : Prop := data (ent es p) <> NULL /\ is_match cmpFunc (ent es p) h item = Ret false.
Definition stops (p : Z) : Prop := data (ent es p) = NULL \/ is_match cmpFunc (ent es p) h item = Ret true.

Lemma probe_loop_run c : forall fuel p cnt, 0 <= p < tableSize t -> (c < fuel)%nat ->
  (forall j, 0 <= j < Z.of_nat c -> goes_on (p + j)) -> stops (p + Z.of_nat c) -> 1 < tableSize t \/ c = O ->
  probe_loop cmpFunc fuel t h item p cnt = Ret ((p + Z.of_nat c) mod tableSize t, cnt + Z.of_nat c).
Proof.
  induction c as [|c IH]; intros [|fuel] p cnt Hp Hf Hgo Hst Hsz; try lia; cbn [probe_loop];
    rewrite entry_at_ent by lia; cbn [mbind outcome_bind].
  - rewrite Z.add_0_r in *. rewrite Z.mod_small by lia. rewrite Z.add_0_r.
    destruct Hst as [-> | Hm]; [done|]. rewrite Hm. by destruct (data (ent es p)).
  - destruct (Hgo 0 ltac:(lia)) as [Hn Hm]. rewrite Z.add_0_r in Hn, Hm. rewrite Hm. cbn.
    pose proof (next_ent es p) as Hnx. rewrite Hlen in Hnx. specialize (Hnx Hp ltac:(lia)).
    assert (forall X : outcome (Z * Z), (match data (ent es p) with NULL => Ret (p, cnt) | _ => X end) = X) as ->
      by (intros; by destruct (data (ent es p))).
    pose proof (Z.mod_pos_bound (p + 1) (tableSize t) ltac:(lia)) as Hb.
    assert (forall j, ent es ((p + 1) mod tableSize t + j) = ent es (p + 1 + j)) as Hadd
      by (intros j; rewrite <- Hlen; apply ent_add_mod).
    specialize (IH fuel ((p + 1) mod tableSize t) (cnt + 1) Hb ltac:(lia)).
    assert (probe_loop cmpFunc fuel t h item ((p + 1) mod tableSize t) (cnt + 1) =
      Ret ((p + Z.of_nat (S c)) mod tableSize t, cnt + Z.of_nat (S c))) as Hr.
    { rewrite IH; [| |unfold stops; rewrite Hadd|lia].
      - rewrite Zplus_mod_idemp_l, Nat2Z.inj_succ. unfold Z.succ. do 2 f_equal; [f_equal|]; lia.
      - intros j Hj. unfold goes_on. rewrite Hadd. replace (p + 1 + j) with (p + (j + 1)) by lia. apply Hgo. lia.
      - replace (p + 1 + Z.of_nat c) with (p + Z.of_nat (S c)) by lia. exact Hst. }
    destruct (Z.eqb_spec (p + 1) (tableSize t)) as [Ee|Ne].
    + destruct (Z.eqb_spec (tableSize t) 1); [lia|]. rewrite Hnx. exact Hr.
    + rewrite Hnx. exact Hr.
Qed.
End Run.

Lemma wf_gap t : wf t -> exists q, 0 <= q < tableSize t /\ data (ent (pEntries t) q) = NULL.
Proof.
  intros Hwf. pose proof (wf_pos t Hwf). destruct Hwf as [_ Hl He Hd Hld _ _]. unfold LOAD_DENOM, LOAD_NUMER in Hld.
  destruct (has_gap (pEntries t)) as (i & e & Hi & Hn); [lia|].
  exists (Z.of_nat i). rewrite (ent_lookup _ i e Hi). apply lookup_lt_Some in Hi. split; [lia | done].
Qed.

Lemma first_slot_mod t h : wf t -> first_slot t h = h mod tableSize t.
Proof.
  intros Hwf. pose proof (wf_pos t Hwf). destruct (wf_size t Hwf) as (k & Hk & E). unfold first_slot.
  rewrite wrap_small by (unfold in_range; lia). rewrite E. apply mod_of_pow. lia.
Qed.

(** A table of one entry is empty. *)
Lemma wf_single t : wf t -> tableSize t = 1 -> data (ent (pEntries t) 0) = NULL.
Proof. intros Hwf E. destruct (wf_gap t Hwf) as (q & Hq & Hn). by replace q with 0 in Hn by lia. Qed.

Section Probes.
Context (cmpFunc : D -> D -> outcome Z) (t : HashTable D) (h : Z) (item : D) (hit : HashEntry D -> bool).
Abbreviation es := (pEntries t).
Context (Hwf : wf t).
Context (Hhit : forall p, data (ent es p) <> NULL -> is_match cmpFunc (ent es p) h item = Ret (hit (ent es p))).

(** The probe ends at the first gap or match after the place of the hash. *)
Lemma probe_total : exists c p, probe_loop cmpFunc (S (Z.to_nat (tableSize t))) t h item (first_slot t h) 0 = Ret (p, c) /\
  0 <= p < tableSize t /\ 0 <= c < tableSize t /\ p = (h + c) mod tableSize t /\
  (forall j, 0 <= j < c -> data (ent es (h + j)) <> NULL /\ hit (ent es (h + j)) = false) /\
  (data (ent es p) = NULL \/ data (ent es p) <> NULL /\ hit (ent es p) = true).
Proof.
  pose proof (wf_pos t Hwf) as Hpos. pose proof (wf_length t Hwf) as Hl.
  set (s := h mod tableSize t). assert (0 <= s < tableSize t) as Hs by (apply Z.mod_pos_bound; lia).
  assert (forall j, ent es (s + j) = ent es (h + j)) as Ha by (intros j; unfold s; rewrite <- Hl; apply ent_add_mod).
  destruct (wf_gap t Hwf) as (q & Hq & Hn).
  destruct (ring_first es (fun e => negb (is_item (data e) || is_tombstone (data e)) || hit e) h q) as (c & Hc & Pc & Hlt);
    [lia | by rewrite Hn|].
  assert (forall j, 0 <= j < Z.of_nat c -> data (ent es (h + j)) <> NULL /\ hit (ent es (h + j)) = false) as Hgo.
  { intros j Hj. specialize (Hlt j Hj). apply orb_false_iff in Hlt as [H1 H2]. by rewrite is_null_false in H1. }
  assert (data (ent es (h + Z.of_nat c)) = NULL \/ data (ent es (h + Z.of_nat c)) <> NULL /\ hit (ent es (h + Z.of_nat c)) = true) as Hst.
  { apply orb_true_iff in Pc as [H1 | H1]; [left; by apply is_null_spec|].
    destruct (decide (is_item (data (ent es (h + Z.of_nat c))) || is_tombstone (data (ent es (h + Z.of_nat c))) = true)) as [E|E];
      [right; split; [intros Hx; by rewrite Hx in E | done] | left; apply is_null_spec; by apply negb_true_iff, not_true_iff_false]. }
  exists (Z.of_nat c), ((h + Z.of_nat c) mod tableSize t).
  rewrite first_slot_mod by done. fold s.
  assert (ent es ((h + Z.of_nat c) mod tableSize t) = ent es (h + Z.of_nat c)) as -> by (rewrite <- Hl; apply ent_mod).
  split_and!; try done; try lia; try (apply Z.mod_pos_bound; lia).
  rewrite (probe_loop_run cmpFunc t h item Hl c); try done; try lia.
  - unfold s. by rewrite Zplus_mod_idemp_l.
  - intros j Hj. unfold goes_on. rewrite Ha. destruct (Hgo j Hj) as [Hd Hh]. split; [done|]. by rewrite Hhit, Hh.
  - unfold stops. rewrite Ha. destruct Hst as [|[Hd Hh]]; [by left | right; by rewrite Hhit, Hh].
Qed.

(** No item of the hash lies beyond the gap that ends the probe. *)
Lemma probe_misses c : 0 <= c < tableSize t ->
  (forall j, 0 <= j < c -> data (ent es (h + j)) <> NULL /\ hit (ent es (h + j)) = false) -> data (ent es (h + c)) = NULL ->
  forall p, item_of (ent es p) <> None -> hashValue (ent es p) = h -> hit (ent es p) = false.
Proof.
  intros Hc Hgo Hn p Hi Hh. pose proof (wf_pos t Hwf). pose proof (wf_length t Hwf) as Hl.
  pose proof (wf_chained t Hwf p) as Hch. rewrite Hh, Hl in Hch.
  set (j := (p - h) mod tableSize t) in *. assert (0 <= j < tableSize t) by (apply Z.mod_pos_bound; lia).
  assert (ent es (h + j) = ent es p) as Hj.
  { rewrite <- (ent_mod es (h + j)), Hl. unfold j. rewrite Zplus_mod_idemp_r. replace (h + (p - h)) with p by lia.
    rewrite <- Hl. apply ent_mod. }
  destruct (Z.lt_trichotomy j c) as [Hlt | [-> | Hgt]].
  - rewrite <- Hj. apply Hgo. lia.
  - rewrite <- Hj in Hi. unfold item_of in Hi. by rewrite Hn in Hi.
  - by destruct (Hch c Hi ltac:(lia)).
Qed.
End Probes.

(** ** Changing an entry *)

Lemma ent_insert es i e' p : (i < length es)%nat ->
  ent (<[i := e']> es) p = if decide (p mod Z.of_nat (length es) = Z.of_nat i) then e' else ent es p.
Proof.
  intros Hi. unfold ent. rewrite length_insert. pose proof (Z.mod_pos_bound p (Z.of_nat (length es)) ltac:(lia)).
  case_decide as Ep.
  - rewrite Ep, Nat2Z.id, list_lookup_insert_eq by done. done.
  - rewrite list_lookup_insert_ne by lia. done.
Qed.

(** Filling the gap that a probe from its hash found keeps the chains. *)
Lemma chained_fill es c h d : chained es -> 0 <= c < Z.of_nat (length es) ->
  (forall j, 0 <= j < c -> data (ent es (h + j)) <> NULL) ->
  chained (<[Z.to_nat ((h + c) mod Z.of_nat (length es)) := mk_HashEntry h (Data d)]> es).
Proof.
  intros Hch Hc Hgo p j. set (n := Z.of_nat (length es)) in *.
  pose proof (Z.mod_pos_bound (h + c) n ltac:(lia)) as Hb.
  assert (Z.to_nat ((h + c) mod n) < length es)%nat as Hi by (unfold n in *; lia).
  rewrite length_insert, !ent_insert, !Z2Nat.id by (done || lia). fold n.
  destruct (decide (p mod n = (h + c) mod n)) as [Ep|Ep]; simpl.
  - rewrite Zminus_mod, Ep, <- Zminus_mod. replace (h + c - h) with c by lia. rewrite Z.mod_small by lia.
    intros _ Hj. case_decide; [done|]. by apply Hgo.
  - intros Hit Hj. case_decide; [done|]. by apply Hch.
Qed.

(** Putting a tombstone keeps the chains. *)
Lemma chained_bury es i h : chained es -> (i < length es)%nat ->
  chained (<[i := mk_HashEntry h HASH_TOMBSTONE]> es).
Proof.
  intros Hch Hi p j. rewrite length_insert, !ent_insert by done. case_decide; [done|].
  intros Hit Hj. case_decide; [done|]. by apply Hch.
Qed.

Lemma fill_counts es i h h' d : es !! i = Some (mk_HashEntry h' NULL) ->
  live (<[i := mk_HashEntry h (Data d)]> es) ≡ₚ (h, d) :: live es /\ tombs (<[i := mk_HashEntry h (Data d)]> es) = tombs es.
Proof.
  intros Hi. split.
  - exact (live_insert es i _ (mk_HashEntry h (Data d)) Hi).
  - pose proof (tombs_insert es i _ (mk_HashEntry h (Data d)) Hi) as Ht. simpl in Ht. lia.
Qed.

Lemma bury_counts es i h d : es !! i = Some (mk_HashEntry h (Data d)) ->
  (h, d) :: live (<[i := mk_HashEntry h HASH_TOMBSTONE]> es) ≡ₚ live es /\
  tombs (<[i := mk_HashEntry h HASH_TOMBSTONE]> es) = S (tombs es).
Proof.
  intros Hi. split.
  - exact (live_insert es i _ (mk_HashEntry h HASH_TOMBSTONE) Hi).
  - pose proof (tombs_insert es i _ (mk_HashEntry h HASH_TOMBSTONE) Hi) as Ht. simpl in Ht. lia.
Qed.

(** ** Resizing *)

Lemma tombs_loop_run es n : forall i c, (i + n = length es)%nat ->
  tombs_loop n (Z.of_nat i) c es = Ret (c + Z.of_nat (tombs (drop i es))).
Proof.
  induction n as [|n IH]; intros i c Hn; simpl.
  - rewrite drop_ge by lia. change (tombs []) with 0%nat. f_equal. lia.
  - destruct (lookup_lt_is_Some_2 es i) as [e He]; [lia|].
    rewrite entry_at_ent, (ent_lookup es i e He) by lia. simpl.
    replace (Z.of_nat i + 1) with (Z.of_nat (S i)) by lia. rewrite IH by lia.
    rewrite (drop_S es e i He), tombs_cons. f_equal. destruct (is_tombstone (data e)); lia.
Qed.

Lemma countTombStones_tombs t : Z.of_nat (length (pEntries t)) = tableSize t ->
  countTombStones t = Ret (Z.of_nat (tombs (pEntries t))).
Proof. intros Hl. unfold countTombStones. rewrite (tombs_loop_run (pEntries t) _ 0) by lia. done. Qed.

Lemma new_spot_run es k c : Z.of_nat (length es) = 2 ^ k -> 0 <= k -> forall fuel p, 0 <= p < 2 ^ k -> (c < fuel)%nat ->
  (forall j, 0 <= j < Z.of_nat c -> data (ent es (p + j)) <> NULL) -> data (ent es (p + Z.of_nat c)) = NULL ->
  new_spot fuel es (2 ^ k) p = Ret ((p + Z.of_nat c) mod 2 ^ k).
Proof.
  intros Hl Hk. induction c as [|c IH]; intros [|fuel] p Hp Hf Hgo Hst; try lia; cbn [new_spot];
    rewrite entry_at_ent by lia; cbn.
  - rewrite Z.add_0_r in *. rewrite Hst, Z.mod_small by lia. done.
  - specialize (Hgo 0 ltac:(lia)) as Hn. rewrite Z.add_0_r in Hn.
    assert (forall X : outcome Z, (match data (ent es p) with NULL => Ret p | _ => X end) = X) as ->
      by (intros; by destruct (data (ent es p))).
    rewrite mod_of_pow by done. pose proof (Z.mod_pos_bound (p + 1) (2 ^ k) ltac:(lia)).
    assert (forall j, ent es ((p + 1) mod 2 ^ k + j) = ent es (p + 1 + j)) as Ha by (intros; rewrite <- Hl; apply ent_add_mod).
    rewrite IH; [rewrite Zplus_mod_idemp_l; do 2 f_equal; lia | done | lia | |].
    + intros j Hj. rewrite Ha. replace (p + 1 + j) with (p + (j + 1)) by lia. apply Hgo. lia.
    + rewrite Ha. replace (p + 1 + Z.of_nat c) with (p + Z.of_nat (S c)) by lia. done.
Qed.

(** A table being refilled: without tombstones, its chains without gaps. *)
Record refill es (k : Z) : Prop := {
  refill_length : Z.of_nat (length es) = 2 ^ k;
  refill_chained : chained es;
  refill_tombs : tombs es = 0%nat
}.

Lemma refill_calloc k : 0 <= k -> refill (calloc (2 ^ k)) k /\ live (calloc (D := D) (2 ^ k)) = [].
Proof.
  intros Hk. pose proof (Z.pow_pos_nonneg 2 k). unfold calloc.
  assert (forall n, live (replicate n (mk_HashEntry (D := D) 0 NULL)) = [] /\ tombs (replicate n (mk_HashEntry (D := D) 0 NULL)) = 0%nat) as Hr.
  { intros n. induction n as [|n [IH1 IH2]]; [done|]. simpl replicate. by rewrite live_cons, tombs_cons, IH1, IH2. }
  split; [split|]; try apply Hr; [rewrite length_replicate; lia|].
  intros p j Hi. exfalso. apply Hi. unfold ent.
  destruct (_ !! _) as [e|] eqn:E; [|done]. apply lookup_replicate in E as [-> _]. done.
Qed.

Lemma new_spot_first es k h : 0 <= k -> refill es k -> (length (live es) < length es)%nat ->
  exists c, 0 <= c < Z.of_nat (length es) /\ new_spot (S (length es)) es (2 ^ k) (h mod 2 ^ k) = Ret ((h + c) mod 2 ^ k) /\
    (forall j, 0 <= j < c -> data (ent es (h + j)) <> NULL) /\ data (ent es (h + c)) = NULL.
Proof.
  intros Hk [Hl _ Ht] Hgap. pose proof (Z.pow_pos_nonneg 2 k ltac:(lia) Hk) as Hpos.
  set (s := h mod 2 ^ k). assert (0 <= s < 2 ^ k) as Hs by (apply Z.mod_pos_bound; lia).
  assert (forall j, ent es (s + j) = ent es (h + j)) as Ha by (intros j; unfold s; rewrite <- Hl; apply ent_add_mod).
  destruct (has_gap es) as (q & e & Hq & Hn); [lia|]. apply lookup_lt_Some in Hq as Hql.
  destruct (ring_first es (fun e => negb (is_item (data e) || is_tombstone (data e))) h (Z.of_nat q)) as (c & Hc & Pc & Hlt);
    [lia | by rewrite (ent_lookup es q e Hq), Hn|].
  assert (forall j, 0 <= j < Z.of_nat c -> data (ent es (h + j)) <> NULL) as Hgo by (intros j Hj; apply is_null_false, Hlt; done).
  apply is_null_spec in Pc.
  exists (Z.of_nat c). split_and!; try done; try lia.
  rewrite (new_spot_run es k c Hl Hk); try done; try lia.
  - unfold s. by rewrite Zplus_mod_idemp_l.
  - intros j Hj. rewrite Ha. by apply Hgo.
  - by rewrite Ha.
Qed.

Lemma i32_mod_pow h k : 0 <= k <= 32 -> i32 h mod 2 ^ k = h mod 2 ^ k.
Proof.
  intros Hk. unfold swrap. pose proof (Z.pow_pos_nonneg 2 k ltac:(lia) ltac:(lia)).
  assert (2 ^ 32 = 2 ^ (32 - k) * 2 ^ k) as E by (rewrite <- Z.pow_add_r by lia; f_equal; lia).
  pose proof (Z.div_mod (h + 2 ^ (32 - 1)) (2 ^ 32) ltac:(lia)) as Hd.
  replace ((h + 2 ^ (32 - 1)) mod 2 ^ 32 - 2 ^ (32 - 1)) with (h + - ((h + 2 ^ (32 - 1)) / 2 ^ 32 * 2 ^ (32 - k)) * 2 ^ k)
    by (rewrite Z.mul_opp_l, <- Z.mul_assoc, <- E; lia).
  apply Z.mod_add. lia.
Qed.

Lemma refill_add es k h d : 0 <= k -> refill es k -> (length (live es) < length es)%nat ->
  exists i, new_spot (S (length es)) es (2 ^ k) (h mod 2 ^ k) = Ret i /\
    refill (<[Z.to_nat i := mk_HashEntry h (Data d)]> es) k /\
    live (<[Z.to_nat i := mk_HashEntry h (Data d)]> es) ≡ₚ (h, d) :: live es.
Proof.
  intros Hk Hr Hlt. destruct (new_spot_first es k h Hk Hr Hlt) as (c & Hc & Ei & Hgo & Hn).
  destruct Hr as [Hl Hch Ht]. exists ((h + c) mod 2 ^ k). split; [done|]. rewrite <- Hl.
  pose proof (lookup_ent es (h + c) ltac:(lia)) as Hlk. destruct (ent es (h + c)) as [h' s']. simpl in Hn. subst s'.
  destruct (fill_counts es _ h h' d Hlk) as [Hlive Htombs]. split; [split|done].
  - by rewrite length_insert.
  - by apply chained_fill.
  - by rewrite Htombs.
Qed.

Lemma rehash_loop_run old k n : 0 <= k <= 32 -> Forall (fun x => in_range 32 (fst x)) (live old) -> forall i es,
  (i + n = length old)%nat -> refill es k -> live es ≡ₚ live (take i old) -> Z.of_nat (length (live old)) < 2 ^ k ->
  exists es', rehash_loop n (Z.of_nat i) old (2 ^ k) es = Ret es' /\ refill es' k /\ live es' ≡ₚ live old.
Proof.
  intros Hk Hok. induction n as [|n IH]; intros i es Hn Hr Hlv Hlt; cbn [rehash_loop].
  - exists es. rewrite take_ge in Hlv by lia. done.
  - destruct (lookup_lt_is_Some_2 old i) as [e He]; [lia|].
    rewrite entry_at_ent, (ent_lookup old i e He) by lia. cbn [mbind outcome_bind].
    replace (Z.of_nat i + 1) with (Z.of_nat (S i)) by lia.
    pose proof (take_S_r old i e He) as HS.
    destruct (data e) as [| |d] eqn:Ed.
    1-2: apply IH; [lia | done | | done]; rewrite HS, live_app, live_cons, Hlv; unfold item_of; rewrite Ed; by rewrite app_nil_r.
    assert (item_of e = Some (hashValue e, d)) as Ei by (unfold item_of; by rewrite Ed).
    assert (in_range 32 (hashValue e)) as Hh.
    { rewrite Forall_forall in Hok. apply (Hok (hashValue e, d)). apply elem_of_live. eauto. }
    assert (length (live (take i old)) < length (live old))%nat as Hlen.
    { rewrite <- (take_drop_middle old i e He) at 2. rewrite live_app, live_cons, Ei, !length_app. simpl. lia. }
    rewrite mod_of_pow, i32_mod_pow by lia.
    destruct (refill_add es k (hashValue e) d) as (p & -> & Hr' & Hlv'); [lia | done | |].
    { apply Permutation_length in Hlv. pose proof (refill_length es k Hr). lia. }
    cbn [mbind outcome_bind]. rewrite wrap_swrap, (wrap_small 32 (hashValue e) Hh) by lia.
    apply IH; [lia | done | | done]. rewrite Hlv', HS, live_app, live_cons, Ei, Hlv. simpl. solve_Permutation.
Qed.

(** Resizing keeps the items and drops the tombstones. *)
Lemma resizeHash_keeps t k : Z.of_nat (length (pEntries t)) = tableSize t ->
  numDeadEntries t = Z.of_nat (tombs (pEntries t)) -> Forall (fun x => in_range 32 (fst x)) (live (pEntries t)) ->
  0 <= k <= 32 -> Z.of_nat (length (live (pEntries t))) < 2 ^ k ->
  exists es, resizeHash true t (2 ^ k) = Ret (Some (mk_HashTable (2 ^ k) (numEntries t) 0 es)) /\
    refill es k /\ live es ≡ₚ live (pEntries t).
Proof.
  intros Hl Hd Hok Hk Hlt. destruct (refill_calloc k ltac:(lia)) as [Hr0 Hl0].
  destruct (rehash_loop_run (pEntries t) k (length (pEntries t)) Hk Hok 0 (calloc (2 ^ k))) as (es & E & Hr & Hlv);
    [done | done | by rewrite Hl0 | done|].
  exists es. split; [|done]. unfold resizeHash.
  rewrite countTombStones_tombs by done. cbn [mbind outcome_bind]. rewrite Hd, Z.eqb_refl. cbn [c_assert mbind outcome_bind negb].
  replace (Z.to_nat (tableSize t)) with (length (pEntries t)) by lia. change (Z.of_nat 0) with 0 in E. rewrite E. cbn [mbind outcome_bind].
  rewrite countTombStones_tombs by (simpl; apply Hr). cbn [mbind outcome_bind pEntries]. by rewrite (refill_tombs es k Hr).
Qed.

(** ** Adding *)

(** An item can be added: the table stays five eighths full, or can be doubled. *)
Definition room (entries_ok : bool) t : Prop :=
  (numEntries t + numDeadEntries t + 1) * LOAD_DENOM <= tableSize t * LOAD_NUMER \/
  entries_ok = true /\ tableSize t <= 2 ^ 27.

Lemma i32_small x : - 2 ^ 31 <= x < 2 ^ 31 -> i32 x = x.
Proof. intros Hx. apply swrap_small; [done | exact Hx]. Qed.

Lemma add_entry_keeps ok t c h item : wf t -> in_range 32 h -> room ok t -> 0 <= c < tableSize t ->
  (forall j, 0 <= j < c -> data (ent (pEntries t) (h + j)) <> NULL) -> data (ent (pEntries t) (h + c)) = NULL ->
  exists t', add_entry ok t ((h + c) mod tableSize t) h item = Ret t' /\ wf t' /\
    live (pEntries t') ≡ₚ (h, item) :: live (pEntries t) /\ numDeadEntries t' <= numDeadEntries t /\
    ((numEntries t + numDeadEntries t + 1) * LOAD_DENOM <= tableSize t * LOAD_NUMER ->
     tableSize t' = tableSize t /\ numDeadEntries t' = numDeadEntries t).
Proof.
  intros Hwf Hh Hroom Hc Hgo Hn. pose proof (wf_pos t Hwf) as Hpos. destruct Hwf as [(k & Hk & Ek) Hl He Hd Hld Hch Hok].
  pose proof (lookup_ent (pEntries t) (h + c) ltac:(lia)) as Hlk.
  destruct (ent (pEntries t) (h + c)) as [h' s']. simpl in Hn. subst s'.
  destruct (fill_counts _ _ h h' item Hlk) as [Hlive Htombs].
  pose proof (chained_fill (pEntries t) c h item Hch ltac:(lia) Hgo) as Hch'. rewrite Hl in *.
  pose proof (length_insert (pEntries t) (Z.to_nat ((h + c) mod tableSize t)) (mk_HashEntry h (Data item))) as Hl'.
  unfold add_entry. set (es := <[_ := _]> (pEntries t)) in *. cbn [tableSize numEntries numDeadEntries].
  unfold room, LOAD_DENOM, LOAD_NUMER in *.
  assert (Z.of_nat (length (live es)) = numEntries t + 1) as Hle by (rewrite Hlive; simpl; lia).
  assert (Forall (fun x => in_range 32 (fst x)) (live es)) as Hok' by (rewrite Hlive; by constructor).
  rewrite (i32_small (numEntries t + 1)) by lia. rewrite (i32_small (numEntries t + 1 + numDeadEntries t)) by lia.
  rewrite !i32_small by lia.
  destruct (Z.ltb_spec (tableSize t * 5) ((numEntries t + 1 + numDeadEntries t) * 8)).
  - destruct Hroom as [Hr1|[-> H27]]; [lia|].
    assert (2 * tableSize t = 2 ^ (k + 1)) as E2 by (rewrite Z.pow_add_r by lia; lia).
    rewrite (Z.mul_comm (tableSize t) 2), E2.
    assert (k < 28) by (apply (Z.pow_lt_mono_r_iff 2); lia).
    destruct (resizeHash_keeps (mk_HashTable (tableSize t) (numEntries t + 1) (numDeadEntries t) es) (k + 1))
      as (es' & -> & [Rl Rc Rt] & Rlive); simpl; try done; try lia.
    destruct (Z.ltb_spec (numEntries t + 1) (2 ^ (k + 1))); [simpl | lia].
    eexists. split; [done|]. split; [|split; [by rewrite Rlive | split; simpl; lia]].
    split; cbn [tableSize numEntries numDeadEntries pEntries]; unfold LOAD_DENOM, LOAD_NUMER; rewrite ?Rt, ?Rlive; try done; try lia.
    exists (k + 1). split; [lia | done].
  - cbn. destruct (Z.ltb_spec (numEntries t + 1) (tableSize t)); [simpl | lia].
    eexists. split; [done|]. split; [|split; [done | split; [simpl; lia | split; done]]].
    split; simpl; try done; try lia. by exists k.
Qed.

(** ** The table as a finite map *)

Section Map.
Context {K : Type} `{Countable K} (hash : K -> Z) (key : D -> K).
Context (Hhash : forall k, in_range 32 (hash k)).

(** The table holds the items of the map [m], each under the hash of its key. *)
Record represents t (m : gmap K D) : Prop := {
  repr_wf : wf t;
  repr_live : live (pEntries t) ≡ₚ (fun x : K * D => (hash x.1, x.2)) <$> map_to_list m;
  repr_key : forall k d, m !! k = Some d -> key d = k
}.

Lemma represents_live t m h d : represents t m ->
  (h, d) ∈ live (pEntries t) <-> h = hash (key d) /\ m !! key d = Some d.
Proof.
  intros [_ Hl Hk]. rewrite Hl, list_elem_of_fmap. split.
  - intros ([k d'] & [= -> ->] & Hm). apply elem_of_map_to_list in Hm. by rewrite (Hk k d' Hm).
  - intros [-> Hm]. exists (key d, d). split; [done|]. by apply elem_of_map_to_list.
Qed.

Lemma represents_size t m : represents t m -> numEntries t = Z.of_nat (size m).
Proof. intros [Hwf Hl _]. rewrite (wf_entries t Hwf), Hl, length_fmap, length_map_to_list. done. Qed.

(** A comparison that tells, of an item of the map, whether it has the key. *)
Definition compares (cmpFunc : D -> D -> outcome Z) (m : gmap K D) item : Prop :=
  forall d, m !! key d = Some d -> exists c, cmpFunc d item = Ret c /\ (c = 0 <-> key d = key item).

Section Find.
Context (cmpFunc : D -> D -> outcome Z) (t : HashTable D) (m : gmap K D) (item : D).
Context (Hr : represents t m) (Hcmp : compares cmpFunc m item).
Abbreviation es := (pEntries t).

Definition has_key (k : K) (e : HashEntry D) : bool := match data e with Data d => bool_decide (key d = k) | _ => false end.

Lemma ent_item p d : data (ent es p) = Data d -> hashValue (ent es p) = hash (key d) /\ m !! key d = Some d.
Proof.
  intros E. pose proof (wf_pos t (repr_wf t m Hr)). pose proof (wf_length t (repr_wf t m Hr)).
  apply (represents_live t m _ _ Hr), elem_of_live. do 2 eexists. split; [apply (lookup_ent es p); lia|].
  unfold item_of. by rewrite E.
Qed.

Lemma is_match_key p : is_match cmpFunc (ent es p) (hash (key item)) item = Ret (has_key (key item) (ent es p)).
Proof.
  unfold is_match, has_key. destruct (data (ent es p)) as [| |d] eqn:E; [done..|].
  destruct (ent_item p d E) as [-> Hm]. destruct (Hcmp d Hm) as (c & Ec & Hc).
  destruct (Z.eqb_spec (hash (key d)) (hash (key item))) as [Eh|Nh].
  - rewrite Ec. cbn. f_equal. destruct (Z.eqb_spec c 0); case_bool_decide; tauto.
  - case_bool_decide as Ek; [|done]. by rewrite Ek in Nh.
Qed.

(** The probe ends at the item of the key, or at a gap when there is none. *)
Lemma probe_finds : exists c p,
  probe_loop cmpFunc (S (Z.to_nat (tableSize t))) t (hash (key item)) item (first_slot t (hash (key item))) 0 = Ret (p, c) /\
  entry_at es p = Ret (ent es p) /\ p = (hash (key item) + c) mod tableSize t /\ 0 <= c < tableSize t /\
  (forall j, 0 <= j < c -> data (ent es (hash (key item) + j)) <> NULL) /\
  data (ent es p) = match m !! key item with Some d => Data d | None => NULL end.
Proof.
  pose proof (repr_wf t m Hr) as Hwf. pose proof (wf_length t Hwf) as Hl.
  destruct (probe_total cmpFunc t (hash (key item)) item (has_key (key item)) Hwf (fun p _ => is_match_key p))
    as (c & p & Eq & Hp & Hc & Epc & Hgo & Hst).
  exists c, p. split_and!; try done; try lia; [apply entry_at_ent; lia | intros j Hj; by apply Hgo|].
  destruct Hst as [Hn | [Hd Hh]].
  - rewrite Hn. destruct (m !! key item) as [d|] eqn:Em; [|done]. exfalso.
    pose proof (repr_key t m Hr _ _ Em) as Ek.
    assert ((hash (key d), d) ∈ live es) as Hin by (apply (represents_live t m _ _ Hr); rewrite Ek; done).
    apply elem_of_live in Hin as (i & e & Hi & Hit). apply ent_lookup in Hi.
    assert (data e = Data d /\ hashValue e = hash (key d)) as [E1 E2]
      by (unfold item_of in Hit; destruct (data e); try done; by injection Hit as -> ->).
    assert (data (ent es (hash (key item) + c)) = NULL) as Hn' by (rewrite <- (ent_mod es), Hl, <- Epc; done).
    pose proof (probe_misses t (hash (key item)) (has_key (key item)) Hwf c Hc Hgo Hn' (Z.of_nat i)) as Hmiss.
    rewrite Hi in Hmiss. unfold has_key in Hmiss. rewrite E1 in Hmiss. rewrite bool_decide_true in Hmiss by done.
    discriminate Hmiss; [by rewrite Hit | by rewrite E2, Ek].
  - unfold has_key in Hh. destruct (data (ent es p)) as [| |d] eqn:E; [done..|].
    apply bool_decide_eq_true in Hh. destruct (ent_item p d E) as [_ Hm]. by rewrite Hh in Hm; rewrite Hm.
Qed.
End Find.

Lemma partial_alter_insert_absent (m : gmap K D) k item : m !! k = None ->
  partial_alter (fun o => Some (default item o)) k m = <[k := item]> m.
Proof.
  intros Em. apply map_eq. intros k'. destruct (decide (k' = k)) as [->|].
  - by rewrite lookup_partial_alter_eq, lookup_insert_eq, Em.
  - by rewrite lookup_partial_alter_ne, lookup_insert_ne by done.
Qed.

(** Looking up gives the item of the key; adding puts the item when there was
    none. *)
Lemma lookup_map cmpFunc ok t m item doAdd : represents t m -> compares cmpFunc m item ->
  (doAdd = true -> m !! key item = None -> room ok t) ->
  exists t', mzHashTableLookup cmpFunc ok t (hash (key item)) item doAdd =
      Ret (t', match m !! key item with Some d => Data d | None => if doAdd then Data item else NULL end) /\
    represents t' (if doAdd then partial_alter (fun o => Some (default item o)) (key item) m else m) /\
    numEntries t' + numDeadEntries t' <= numEntries t + numDeadEntries t + (if doAdd then 1 else 0) /\
    ((numEntries t + numDeadEntries t + 1) * LOAD_DENOM <= tableSize t * LOAD_NUMER ->
     tableSize t' = tableSize t /\ numDeadEntries t' = numDeadEntries t).
Proof.
  intros Hr Hcmp Hroom. pose proof (repr_wf t m Hr) as Hwf. pose proof (wf_pos t Hwf) as Hpos.
  destruct (probe_finds cmpFunc t m item Hr Hcmp) as (c & p & Hpr & Hat & Epc & Hc & Hgo & Hd).
  unfold mzHashTableLookup. destruct (Z.ltb_spec 0 (tableSize t)); [|lia].
  cbn [c_assert mbind outcome_bind]. rewrite Hpr. cbn [mbind outcome_bind]. rewrite Hat. cbn [mbind outcome_bind]. rewrite Hd.
  destruct (m !! key item) as [d|] eqn:Em.
  - exists t. split; [done|]. split; [|split; [destruct doAdd; lia | done]]. destruct doAdd; [|done].
    by rewrite partial_alter_id by (by rewrite Em).
  - destruct doAdd; [|exists t; split_and!; done || lia].
    assert (data (ent (pEntries t) (hash (key item) + c)) = NULL) as Hn
      by (rewrite <- (ent_mod (pEntries t)), (wf_length t Hwf), <- Epc; done).
    destruct (add_entry_keeps ok t c (hash (key item)) item) as (t' & E & Hwf' & Hlv & Hdd & Hsz); try done; [by apply Hroom|].
    rewrite Epc, E. cbn. exists t'. split; [done|]. split; [|split; [|done]].
    + split; [done | |].
      * rewrite partial_alter_insert_absent by done.
        rewrite map_to_list_insert by done. rewrite Hlv, (repr_live t m Hr). done.
      * intros k d. destruct (decide (k = key item)) as [->|].
        -- rewrite lookup_partial_alter_eq, Em. by intros [= <-].
        -- rewrite lookup_partial_alter_ne by done. apply (repr_key t m Hr).
    + rewrite (wf_entries t' Hwf'), (wf_entries t Hwf), Hlv. simpl. lia.
Qed.

(** Comparison of the pointers. *)
Definition ptr_cmp (d item : D) : outcome Z := Ret (if decide (d = item) then 0 else 1).

(** Removing walks as a lookup that compares pointers does. *)
Lemma remove_loop_probe t h item fuel :
  Z.of_nat (length (pEntries t)) = tableSize t ->
  (forall p, data (ent (pEntries t) p) = Data item -> hashValue (ent (pEntries t) p) = h) -> forall p cnt q c,
  0 <= p < tableSize t -> q < tableSize t -> probe_loop ptr_cmp fuel t h item p cnt = Ret (q, c) ->
  remove_loop fuel t item p = Ret match data (ent (pEntries t) q) with
    | NULL => (t, false)
    | _ => (mk_HashTable (tableSize t) (numEntries t - 1) (numDeadEntries t + 1)
             (<[Z.to_nat q := mk_HashEntry (hashValue (ent (pEntries t) q)) HASH_TOMBSTONE]> (pEntries t)), true)
    end.
Proof.
  intros Hl Hitem. induction fuel as [|fuel IH]; intros p cnt q c Hp Hq; [done|]. cbn [probe_loop remove_loop].
  rewrite entry_at_ent by lia. cbn [mbind outcome_bind]. unfold is_match.
  destruct (data (ent (pEntries t) p)) as [| |d] eqn:E.
  - intros [= <- <-]. by rewrite E.
  - cbn. destruct (Z.eqb_spec (p + 1) (tableSize t)); [|by apply IH; lia].
    destruct (tableSize t =? 1); [intros [= <- <-]; lia | apply IH; lia].
  - specialize (Hitem p). rewrite E in Hitem. case_bool_decide as Ed.
    + subst d. rewrite (Hitem eq_refl), Z.eqb_refl. unfold ptr_cmp. rewrite decide_True by done. cbn.
      intros [= <- <-]. rewrite E, (Hitem eq_refl). done.
    + assert (forall X : outcome bool, (if hashValue (ent (pEntries t) p) =? h then c ← ptr_cmp d item; Ret (c =? 0) else Ret false) = Ret false) as Hf
        by (intros _; destruct (_ =? _); [|done]; unfold ptr_cmp; by rewrite decide_False by done).
      rewrite (Hf (Ret true)). cbn [mbind outcome_bind]. destruct (Z.eqb_spec (p + 1) (tableSize t)); [|by apply IH; lia].
      destruct (tableSize t =? 1); [intros [= <- <-]; lia | apply IH; lia].
Qed.

Lemma represents_bury t m p item : represents t m -> 0 <= p < tableSize t ->
  data (ent (pEntries t) p) = Data item ->
  represents (mk_HashTable (tableSize t) (numEntries t - 1) (numDeadEntries t + 1)
    (<[Z.to_nat p := mk_HashEntry (hashValue (ent (pEntries t) p)) HASH_TOMBSTONE]> (pEntries t))) (delete (key item) m).
Proof.
  intros Hr Hp E. destruct (ent_item t m Hr p item E) as [Eh Em]. pose proof (wf_length t (repr_wf t m Hr)) as Hl.
  pose proof (lookup_ent (pEntries t) p ltac:(lia)) as Hlk. rewrite Hl, Z.mod_small in Hlk by lia.
  destruct (ent (pEntries t) p) as [h' s']. simpl in *. subst h' s'.
  destruct (bury_counts _ _ _ _ Hlk) as [Hlv Htm]. destruct (repr_wf t m Hr) as [Hk Hl0 He Hdd Hld Hch Hok].
  pose proof (Permutation_length Hlv) as Hln. simpl in Hln.
  split.
  - split; simpl; rewrite ?length_insert, ?Htm; try done; try lia.
    + apply chained_bury; [done|lia].
    + rewrite <- Hlv in Hok. by apply Forall_cons in Hok as [_ Hok].
  - apply (Permutation_cons_inv (a := (hash (key item), item))). rewrite Hlv, (repr_live t m Hr).
    rewrite <- (map_to_list_delete m (key item) item Em). done.
  - intros k d Hk'. apply lookup_delete_Some in Hk' as [_ Hk']. by apply (repr_key t m Hr).
Qed.

Lemma remove_map t m item : represents t m ->
  exists t', mzHashTableRemove t (hash (key item)) item = Ret (t', bool_decide (m !! key item = Some item)) /\
    represents t' (if decide (m !! key item = Some item) then delete (key item) m else m) /\
    numEntries t' + numDeadEntries t' = numEntries t + numDeadEntries t /\ tableSize t' = tableSize t.
Proof.
  intros Hr. pose proof (repr_wf t m Hr) as Hwf. pose proof (wf_pos t Hwf). pose proof (wf_length t Hwf) as Hl.
  set (hit := fun e : HashEntry D => match data e with Data d => bool_decide (d = item) | _ => false end).
  assert (forall p, data (ent (pEntries t) p) = Data item ->
    hashValue (ent (pEntries t) p) = hash (key item) /\ m !! key item = Some item) as Hit by (intros p; by apply ent_item).
  destruct (probe_total ptr_cmp t (hash (key item)) item hit Hwf) as (c & p & Eq & Hp & Hc & Epc & Hgo & Hst).
  { intros p _. unfold is_match, hit, ptr_cmp. specialize (Hit p). destruct (data (ent (pEntries t) p)) as [| |d]; [done..|].
    case_bool_decide; [subst d; destruct (Hit eq_refl) as [-> _]; by rewrite Z.eqb_refl, decide_True|].
    rewrite decide_False by done. by destruct (_ =? _). }
  unfold mzHashTableRemove. destruct (Z.ltb_spec 0 (tableSize t)); [|lia]. cbn [c_assert mbind outcome_bind].
  pose proof (Z.mod_pos_bound (hash (key item)) (tableSize t) ltac:(lia)) as Hb.
  rewrite <- first_slot_mod in Hb by done.
  rewrite (remove_loop_probe t (hash (key item)) item _ Hl (fun p E => proj1 (Hit p E)) _ _ _ _ Hb (proj2 Hp) Eq).
  destruct Hst as [Hn | [Hd Hh]].
  - rewrite Hn. assert (m !! key item <> Some item) as Hne.
    { intros Em. assert ((hash (key item), item) ∈ live (pEntries t)) as Hin by by apply (represents_live t m _ _ Hr).
      apply elem_of_live in Hin as (i & e & Hi & Ei). apply ent_lookup in Hi.
      assert (data (ent (pEntries t) (hash (key item) + c)) = NULL) as Hn'
        by (rewrite <- (ent_mod (pEntries t)), Hl, <- Epc; done).
      pose proof (probe_misses t (hash (key item)) hit Hwf c Hc Hgo Hn' (Z.of_nat i)) as Hmiss.
      rewrite Hi in Hmiss. unfold item_of, hit in *. destruct (data e); [done..|]. injection Ei as Eh ->.
      rewrite bool_decide_true in Hmiss by done. by discriminate Hmiss. }
    rewrite bool_decide_false, decide_False by done. by exists t.
  - unfold hit in Hh. destruct (data (ent (pEntries t) p)) as [| |d] eqn:E; [done..|].
    apply bool_decide_eq_true in Hh. subst d. destruct (Hit p E) as [Eh Em].
    rewrite bool_decide_true, decide_True by done. eexists. split; [done|].
    split; [by apply represents_bury | split; [simpl; lia | done]].
Qed.

(** ** Creating, clearing and walking *)

Lemma create_map n : 1 <= n <= 2 ^ 28 ->
  exists t, mzHashTableCreate true true n = Ret (Some t) /\ represents t ∅ /\
    numEntries t = 0 /\ numDeadEntries t = 0 /\ n <= tableSize t.
Proof.
  intros Hn. destruct (roundUpPower2_pow n ltac:(lia)) as (k & Hk & E & Hlo & Hhi).
  assert (k <= 28) as Hk28 by (destruct (Z_le_dec k 28); [done|]; pose proof (Z.pow_le_mono_r 2 29 k ltac:(lia) ltac:(lia)); lia).
  pose proof (Z.pow_le_mono_r 2 k 28 ltac:(lia) ltac:(lia)).
  unfold mzHashTableCreate. destruct (Z.ltb_spec 0 n); [|lia]. cbn [c_assert mbind outcome_bind negb].
  rewrite (wrap_small 32 n), E, i32_small, wrap_small by (unfold in_range; lia).
  destruct (refill_calloc k ltac:(lia)) as [[Hl Hch Ht] Hlv].
  eexists. split; [done|]. simpl. split_and!; try done. split; simpl.
  - split; simpl; try done; try (by rewrite Hlv); [exists k; split; [lia | done] | by rewrite Ht |].
    unfold LOAD_NUMER. lia.
  - rewrite Hlv. by rewrite map_to_list_empty.
  - intros k' d. by rewrite lookup_empty.
Qed.

Definition nuke e : HashEntry D := mk_HashEntry (hashValue e) NULL.

Lemma nuke_counts es : live (nuke <$> es) = [] /\ tombs (nuke <$> es) = 0%nat.
Proof. induction es as [|e es [IH1 IH2]]; [done|]. rewrite fmap_cons, live_cons, tombs_cons. by rewrite IH1, IH2. Qed.

Lemma clear_loop_run ff es n : forall i cur freed, (i + n = length es)%nat -> cur = (nuke <$> take i es) ++ drop i es ->
  clear_loop n (Z.of_nat i) ff cur freed =
  Ret (nuke <$> es, freed ++ (if ff : bool then snd <$> live (drop i es) else [])).
Proof.
  induction n as [|n IH]; intros i cur freed Hn ->; cbn [clear_loop].
  - rewrite drop_ge, take_ge, !app_nil_r by lia. simpl. destruct ff; by rewrite app_nil_r.
  - destruct (lookup_lt_is_Some_2 es i) as [e He]; [lia|].
    assert (length (nuke <$> take i es) = i) as Hli by (rewrite length_fmap, length_take; lia).
    assert (((nuke <$> take i es) ++ drop i es) !! i = Some e) as Hci
      by (rewrite lookup_app_r, Hli, Nat.sub_diag, lookup_drop, Nat.add_0_r by lia; done).
    rewrite entry_at_ent, (ent_lookup _ i e Hci) by (rewrite length_app, Hli, length_drop; lia). cbn [mbind outcome_bind].
    replace (Z.of_nat i + 1) with (Z.of_nat (S i)) by lia. rewrite Nat2Z.id.
    assert ((nuke <$> take (S i) es) ++ drop (S i) es = <[i := nuke e]> ((nuke <$> take i es) ++ drop i es)) as HS.
    { rewrite (take_S_r es i e He), (drop_S es e i He), fmap_app, <- app_assoc. simpl.
      by rewrite insert_app_r_alt, Hli, Nat.sub_diag by lia. }
    assert (live (drop i es) = option_list (item_of e) ++ live (drop (S i) es)) as -> by by rewrite (drop_S es e i He), live_cons.
    unfold item_of at 1. destruct (data e) as [| |d] eqn:Ed; simpl.
    + rewrite IH; [done | lia|]. rewrite HS. rewrite list_insert_id; [done|]. rewrite Hci. f_equal. destruct e; simpl in *; by subst.
    + rewrite IH; [done | lia | done].
    + rewrite IH; [|lia | done]. destruct ff; [|done]. by rewrite <- app_assoc.
Qed.

(** Clearing empties the table and hands every item to the free function. *)
Lemma clear_map ff t m : represents t m ->
  exists t' freed, mzHashTableClear ff t = Ret (t', freed) /\ represents t' ∅ /\
    freed ≡ₚ (if ff : bool then (map_to_list m).*2 else []) /\
    numEntries t' = 0 /\ numDeadEntries t' = 0 /\ tableSize t' = tableSize t.
Proof.
  intros Hr. pose proof (repr_wf t m Hr) as Hwf. pose proof (wf_pos t Hwf). destruct Hwf as [Hk Hl _ _ _ _ _].
  unfold mzHashTableClear. rewrite (clear_loop_run ff (pEntries t) _ 0 _ []) by (lia || done). cbn.
  destruct (nuke_counts (pEntries t)) as [Hlv Htm].
  do 2 eexists. split; [done|]. split_and!; try done.
  - split; simpl.
    + split; simpl; rewrite ?length_fmap, ?Hlv, ?Htm; try done; try (unfold LOAD_NUMER; lia).
      intros p j Hi. exfalso. apply Hi. unfold ent. rewrite list_lookup_fmap.
      by destruct (pEntries t !! _).
    + by rewrite Hlv, map_to_list_empty.
    + intros k d. by rewrite lookup_empty.
  - destruct ff; [|done]. rewrite drop_0, (repr_live t m Hr), <- list_fmap_compose. done.
Qed.

(** The calls of [mzHashForeach] on the items in turn. *)
Fixpoint each {A} (func : D -> A -> outcome (Z * A)) (l : list D) (arg : A) : outcome (Z * A) :=
  match l with
  | [] => Ret (0, arg)
  | d :: l' => '(val, arg) ← func d arg; if negb (val =? 0) then Ret (val, arg) else each func l' arg
  end.

Lemma foreach_loop_run {A} (func : D -> A -> outcome (Z * A)) es n : forall i arg, (i + n = length es)%nat ->
  foreach_loop n (Z.of_nat i) func es arg = each func (live (drop i es)).*2 arg.
Proof.
  induction n as [|n IH]; intros i arg Hn; cbn [foreach_loop]; [by rewrite drop_ge by lia|].
  destruct (lookup_lt_is_Some_2 es i) as [e He]; [lia|].
  rewrite entry_at_ent, (ent_lookup es i e He) by lia. cbn [mbind outcome_bind].
  replace (Z.of_nat i + 1) with (Z.of_nat (S i)) by lia.
  rewrite (drop_S es e i He), live_cons. unfold item_of. destruct (data e) as [| |d]; simpl; [apply IH; lia..|].
  destruct (func d arg) as [[v a]| |]; cbn; [|done..]. destruct (negb (v =? 0)); [done | apply IH; lia].
Qed.

Lemma foreach_map {A} (func : D -> A -> outcome (Z * A)) t m arg : represents t m ->
  exists l, mzHashForeach t func arg = each func l arg /\ l ≡ₚ (map_to_list m).*2.
Proof.
  intros Hr. exists (live (pEntries t)).*2. split.
  - unfold mzHashForeach. pose proof (wf_length t (repr_wf t m Hr)). by rewrite (foreach_loop_run func (pEntries t) _ 0) by lia.
  - by rewrite (repr_live t m Hr), <- list_fmap_compose.
Qed.

(** ** Sequences of operations *)

Inductive hash_op :=
  | Find (item : D)
  | Add (item : D)
  | Remove (item : D)
  | Clear.

Inductive hash_res :=
  | Item (s : slot D)
  | Done (b : bool).

Definition table_step (cmpFunc : D -> D -> outcome Z) (ok : bool) (t : HashTable D) (o : hash_op) : outcome (HashTable D * hash_res) :=
  match o with
  | Find item => '(t', s) ← mzHashTableLookup cmpFunc ok t (hash (key item)) item false; Ret (t', Item s)
  | Add item => '(t', s) ← mzHashTableLookup cmpFunc ok t (hash (key item)) item true; Ret (t', Item s)
  | Remove item => '(t', b) ← mzHashTableRemove t (hash (key item)) item; Ret (t', Done b)
  | Clear => '(t', _) ← mzHashTableClear false t; Ret (t', Done true)
  end.

Definition map_step (m : gmap K D) (o : hash_op) : gmap K D * hash_res :=
  match o with
  | Find item => (m, Item match m !! key item with Some d => Data d | None => NULL end)
  | Add item => match m !! key item with Some d => (m, Item (Data d)) | None => (<[key item := item]> m, Item (Data item)) end
  | Remove item => if decide (m !! key item = Some item) then (delete (key item) m, Done true) else (m, Done false)
  | Clear => (∅, Done true)
  end.

Fixpoint run_table (cmpFunc : D -> D -> outcome Z) (ok : bool) (t : HashTable D) (os : list hash_op)
  : outcome (HashTable D * list hash_res) :=
  match os with
  | [] => Ret (t, [])
  | o :: os' => '(t', r) ← table_step cmpFunc ok t o; '(t'', rs) ← run_table cmpFunc ok t' os'; Ret (t'', r :: rs)
  end.

Fixpoint run_map (m : gmap K D) (os : list hash_op) : gmap K D * list hash_res :=
  match os with
  | [] => (m, [])
  | o :: os' => let '(m', r) := map_step m o in let '(m'', rs) := run_map m' os' in (m'', r :: rs)
  end.

(** [b] items fit: without doubling the table, or by doubling it. *)
Definition fits (ok : bool) (b : Z) t : Prop :=
  b * LOAD_DENOM <= tableSize t * LOAD_NUMER \/ ok = true /\ b * LOAD_DENOM <= 2 ^ 28 * LOAD_NUMER.

Lemma fits_room ok b t : wf t -> fits ok b t -> numEntries t + numDeadEntries t + 1 <= b -> room ok t.
Proof.
  intros Hwf Hf Hb. pose proof (wf_pos t Hwf) as Hpos. destruct (wf_size t Hwf) as (k & Hk & E).
  unfold fits, room, LOAD_DENOM, LOAD_NUMER in *.
  destruct (Z_le_dec (tableSize t) (2 ^ 27)); [destruct Hf as [|[-> _]]; [left; lia | by right]|].
  assert (tableSize t = 2 ^ 28) by (rewrite E in *; replace k with 28; [done|]; apply Z.nle_gt, (Z.pow_lt_mono_r_iff 2) in n; lia).
  left. lia.
Qed.

Definition total_cmp (cmpFunc : D -> D -> outcome Z) : Prop :=
  forall d item, exists c, cmpFunc d item = Ret c /\ (c = 0 <-> key d = key item).

Lemma step_sim cmpFunc ok b t m o : total_cmp cmpFunc -> represents t m -> fits ok b t ->
  numEntries t + numDeadEntries t + 1 <= b ->
  exists t', table_step cmpFunc ok t o = Ret (t', snd (map_step m o)) /\ represents t' (fst (map_step m o)) /\
    fits ok b t' /\ numEntries t' + numDeadEntries t' <= numEntries t + numDeadEntries t + 1.
Proof.
  intros Hc Hr Hf Hb. pose proof (repr_wf t m Hr) as Hwf. pose proof (wf_entries t Hwf). pose proof (wf_dead t Hwf).
  destruct o as [item | item | item |]; simpl.
  - destruct (lookup_map cmpFunc ok t m item false Hr (fun d _ => Hc d item)) as (t' & -> & Hr' & Hn & Hsz); [done|].
    cbn. exists t'. split_and!; try done; [|lia]. destruct Hf as [Hf|]; [left | by right].
    destruct Hsz as [-> _]; [unfold LOAD_DENOM in *; lia | done].
  - destruct (lookup_map cmpFunc ok t m item true Hr (fun d _ => Hc d item)) as (t' & -> & Hr' & Hn & Hsz);
      [intros _ _; by apply (fits_room ok b)|].
    assert (fits ok b t') as Hf'.
    { destruct Hf as [Hf|]; [left | by right]. destruct Hsz as [-> _]; [unfold LOAD_DENOM in *; lia | done]. }
    cbn. exists t'. destruct (m !! key item) as [d|] eqn:Em; split_and!; try done; try lia.
    + by rewrite partial_alter_id in Hr' by (by rewrite Em).
    + by rewrite (partial_alter_insert_absent m (key item) item Em) in Hr'.
  - destruct (remove_map t m item Hr) as (t' & -> & Hr' & Hn & Hsz). cbn. exists t'.
    case_decide; [rewrite bool_decide_true by done | rewrite bool_decide_false by done]; unfold fits; rewrite Hsz;
      split_and!; done || lia.
  - destruct (clear_map false t m Hr) as (t' & fr & -> & Hr' & _ & E1 & E2 & Hsz). cbn. exists t'.
    unfold fits. rewrite Hsz. split_and!; done || lia.
Qed.

Lemma run_sim cmpFunc ok b os : total_cmp cmpFunc -> forall t m, represents t m -> fits ok b t ->
  numEntries t + numDeadEntries t + Z.of_nat (length os) <= b ->
  exists t', run_table cmpFunc ok t os = Ret (t', snd (run_map m os)) /\ represents t' (fst (run_map m os)).
Proof.
  intros Hc. induction os as [|o os IH]; intros t m Hr Hf Hb; [by exists t|]. simpl in Hb |- *.
  destruct (step_sim cmpFunc ok b t m o) as (t1 & -> & Hr1 & Hf1 & Hb1); try done; [lia|].
  destruct (map_step m o) as [m1 r]. simpl in *. destruct (IH t1 m1) as (t2 & -> & Hr2); try done; [lia|].
  destruct (run_map m1 os) as [m2 rs]. cbn. by exists t2.
Qed.

(** ** Counting probes *)

Lemma iter_loop_run es n : forall i, (i <= length es <= i + n)%nat ->
  exists j, iter_loop n (Z.of_nat i) (Z.of_nat (length es)) es = Ret (Z.of_nat j) /\ (i <= j <= length es)%nat /\
    live (drop i es) = live (drop j es) /\ (j < length es -> item_of (ent es (Z.of_nat j)) <> None)%nat.
Proof.
  induction n as [|n IH]; intros i Hn; cbn [iter_loop].
  - exists i. split_and!; try done; lia.
  - destruct (Z.ltb_spec (Z.of_nat i) (Z.of_nat (length es))); [|exists i; split_and!; try done; lia].
    destruct (lookup_lt_is_Some_2 es i) as [e He]; [lia|].
    rewrite entry_at_ent, (ent_lookup es i e He) by lia. cbn [mbind outcome_bind].
    destruct (data e) as [| |d] eqn:Ed; simpl.
    1-2: replace (Z.of_nat i + 1) with (Z.of_nat (S i)) by lia; destruct (IH (S i)) as (j & Ej & Hj & Hlv & Hit); [lia|];
      exists j; split_and!; [done | lia | lia | | done]; rewrite (drop_S es e i He), live_cons, Hlv; unfold item_of; by rewrite Ed.
    exists i. split_and!; try done; [lia|]. rewrite (ent_lookup es i e He). unfold item_of. by rewrite Ed.
Qed.

Lemma countProbes_found cmpFunc t m d : represents t m -> compares cmpFunc m d -> m !! key d = Some d ->
  exists c, countProbes cmpFunc t (hash (key d)) d = Ret c /\ 0 <= c < tableSize t.
Proof.
  intros Hr Hcmp Hm. pose proof (wf_pos t (repr_wf t m Hr)).
  destruct (probe_finds cmpFunc t m d Hr Hcmp) as (c & p & Hpr & Hat & _ & Hc & _ & Hd). exists c. split; [|done].
  unfold countProbes. destruct (Z.ltb_spec 0 (tableSize t)); [|lia].
  cbn [c_assert mbind outcome_bind]. rewrite Hpr. cbn [mbind outcome_bind]. rewrite Hat. cbn. by rewrite Hd, Hm.
Qed.

Lemma probe_count_loop_run cmpFunc t m : represents t m -> (forall d, compares cmpFunc m d) ->
  forall fuel j n mn mx tot, (length (pEntries t) - j < fuel)%nat -> (j <= length (pEntries t))%nat ->
  (j < length (pEntries t) -> item_of (ent (pEntries t) (Z.of_nat j)) <> None)%nat -> 0 <= mn -> 0 <= mx < tableSize t ->
  exists mn' mx' tot', probe_count_loop fuel cmpFunc (fun d => hash (key d)) t (Z.of_nat j) n mn mx tot =
      Ret (n + Z.of_nat (length (live (drop j (pEntries t)))), mn', mx', tot') /\ 0 <= mn' /\ 0 <= mx' < tableSize t.
Proof.
  intros Hr Hcmp. pose proof (wf_length t (repr_wf t m Hr)) as Hl.
  induction fuel as [|fuel IH]; intros j n mn mx tot Hf Hj Hit Hmn Hmx; [lia|]. cbn [probe_count_loop]. unfold mzHashIterDone.
  destruct (Z.leb_spec (tableSize t) (Z.of_nat j)).
  - rewrite drop_ge by lia. exists mn, mx, tot. rewrite Z.add_0_r. done.
  - destruct (lookup_lt_is_Some_2 (pEntries t) j) as [e He]; [lia|]. specialize (Hit ltac:(lia)).
    unfold mzHashIterData. destruct (Z.leb_spec 0 (Z.of_nat j)); [|lia]. destruct (Z.ltb_spec (Z.of_nat j) (tableSize t)); [|lia].
    cbn [andb c_assert mbind outcome_bind]. rewrite entry_at_ent by lia. cbn [mbind outcome_bind].
    destruct (data (ent (pEntries t) (Z.of_nat j))) as [| |d] eqn:Ed; [unfold item_of in Hit; by rewrite Ed in Hit..|].
    destruct (ent_item t m Hr _ d Ed) as [_ Hm].
    destruct (countProbes_found cmpFunc t m d Hr (Hcmp d) Hm) as (c & -> & Hc). cbn [mbind outcome_bind].
    unfold mzHashIterNext.
    destruct (iter_loop_run (pEntries t) (Z.to_nat (tableSize t - Z.of_nat j)) (S j)) as (j' & Ej & Hj' & Hlv & Hit'); [lia|].
    replace (Z.of_nat j + 1) with (Z.of_nat (S j)) by lia. rewrite Hl in Ej. rewrite Ej. cbn [mbind outcome_bind].
    destruct (IH j' (n + 1) (if c <? mn then c else mn) (if mx <? c then c else mx) (i32 (tot + c))) as (mn' & mx' & tot' & -> & Hn1 & Hn2);
      [lia | lia | done | destruct (_ <? _); lia | destruct (_ <? _); lia|].
    exists mn', mx', tot'. split; [|done]. rewrite (drop_S _ e j He), live_cons, Hlv.
    rewrite (ent_lookup _ j e He) in Ed. unfold item_of. rewrite Ed. simpl. do 4 f_equal. lia.
Qed.
Lemma probe_count_map cmpFunc t m : represents t m -> (forall d, compares cmpFunc m d) ->
  exists mn mx tot, mzHashTableProbeCount cmpFunc (fun d => hash (key d)) t = Ret (Z.of_nat (size m), mn, mx, tot) /\
    0 <= mn /\ 0 <= mx < tableSize t.
Proof.
  intros Hr Hcmp. pose proof (repr_wf t m Hr) as Hwf. pose proof (wf_pos t Hwf). pose proof (wf_length t Hwf) as Hl.
  unfold mzHashTableProbeCount, mzHashIterBegin, mzHashIterNext.
  destruct (iter_loop_run (pEntries t) (Z.to_nat (tableSize t - -1)) 0) as (j & Ej & Hj & Hlv & Hit); [lia|].
  change (-1 + 1) with (Z.of_nat 0). rewrite Hl in Ej. rewrite Ej. cbn [mbind outcome_bind].
  destruct (probe_count_loop_run cmpFunc t m Hr Hcmp (S (Z.to_nat (tableSize t))) j 0 (65536 * 32767) 0 0)
    as (mn & mx & tot & -> & Hmn & Hmx); [lia | lia | done | lia | lia|].
  exists mn, mx, tot. split; [|done]. rewrite <- Hlv, drop_0, (repr_live t m Hr), length_fmap, length_map_to_list. done.
Qed.
End Map.

End Spec.

(** The numbers of [nat] as items: the key is the number, hashed modulo 4 so
    that keys collide. *)
Definition toy_hash (k : nat) : Z := Z.of_nat (k mod 4).
Definition toy_cmp (d item : nat) : outcome Z := Ret (Z.of_nat d - Z.of_nat item).

Lemma toy_hash_range k : in_range 32 (toy_hash k).
Proof. unfold toy_hash, in_range. pose proof (Nat.mod_upper_bound k 4). lia. Qed.

Lemma toy_cmp_total : total_cmp (D := nat) id toy_cmp.
Proof. intros d item. eexists. split; [done|]. unfold id. lia. Qed.

(** Collects the items it is called with. *)
Definition collect {D} (d : D) (l : list D) : outcome (Z * list D) := Ret (0, l ++ [d]).

Lemma each_collect {D} (l acc : list D) : each collect l acc = Ret (0, acc ++ l).
Proof. revert acc. induction l as [|d l IH]; intros acc; simpl; [by rewrite app_nil_r|]. by rewrite IH, <- app_assoc. Qed.

(** C32. The hash table of minzip is a finite map. Any sequence of up to a hundred
    and sixty million lookups, additions, removals and clearings, on a table
    created for any number of items up to 2^28, gives the results that the same
    sequence gives on a finite map from keys to items; no probe runs for ever or
    leaves the table, no assertion fails, collisions, tombstones, wrapping
    around and resizing included; walking the table afterwards meets the items
    of the map, each once, and [mzHashTableProbeCount] finds them all. *)
Theorem hash_table_refines_map {D K} `{EqDecision D, Countable K} (hash : K -> Z) (key : D -> K)
    (cmpFunc : D -> D -> outcome Z) (n : Z) (os : list hash_op) :
  (forall k, in_range 32 (hash k)) -> total_cmp key cmpFunc ->
  1 <= n <= 2 ^ 28 -> Z.of_nat (length os) * 8 <= 2 ^ 28 * 5 ->
  let '(m, rs) := run_map key ∅ os in
  exists t0 t l mn mx tot, mzHashTableCreate true true n = Ret (Some t0) /\
    run_table hash key cmpFunc true t0 os = Ret (t, rs) /\
    mzHashTableNumEntries t = Z.of_nat (size m) /\
    mzHashForeach t collect [] = Ret (0, l) /\ l ≡ₚ (map_to_list m).*2 /\
    mzHashTableProbeCount cmpFunc (fun d => hash (key d)) t = Ret (Z.of_nat (size m), mn, mx, tot) /\
    0 <= mn /\ 0 <= mx < tableSize t.
Proof.
  intros Hh Hc Hn Hos. destruct (create_map hash key n Hn) as (t0 & E0 & Hr0 & H1 & H2 & Hsz).
  destruct (run_sim hash key Hh cmpFunc true (Z.of_nat (length os)) os Hc t0 ∅) as (t & Et & Hr); [done | by right | lia|].
  destruct (run_map key ∅ os) as [m rs]. simpl in *.
  destruct (foreach_map hash key collect t m [] Hr) as (l & El & Hl). rewrite each_collect in El.
  destruct (probe_count_map hash key cmpFunc t m Hr (fun d d' _ => Hc d' d)) as (mn & mx & tot & Ep & Hmn & Hmx).
  exists t0, t, l, mn, mx, tot. split_and!; try done; try lia. by apply (represents_size hash key t m).
Qed.

Lemma hash_table_refines_map_witness :
  let '(m, rs) := run_map (D := nat) (id : nat -> nat) ∅ [Add 1; Add 5; Remove 1; Find 5; Add 9; Find 1]%nat in
  exists t0 t l mn mx tot, mzHashTableCreate true true 3 = Ret (Some t0) /\
    run_table toy_hash id toy_cmp true t0 [Add 1; Add 5; Remove 1; Find 5; Add 9; Find 1]%nat = Ret (t, rs) /\
    mzHashTableNumEntries t = Z.of_nat (size m) /\
    mzHashForeach t collect [] = Ret (0, l) /\ l ≡ₚ (map_to_list m).*2 /\
    mzHashTableProbeCount toy_cmp (fun d => toy_hash (id d)) t = Ret (Z.of_nat (size m), mn, mx, tot) /\
    0 <= mn /\ 0 <= mx < tableSize t.
Proof.
  apply (hash_table_refines_map toy_hash id toy_cmp 3 [Add 1; Add 5; Remove 1; Find 5; Add 9; Find 1]%nat).
  - exact toy_hash_range.
  - exact toy_cmp_total.
  - lia.
  - simpl. lia.
Defined.

Lemma mzHashSize_bounds n : 0 <= n <= 2 ^ 27 -> 1 <= mzHashSize n <= 2 ^ 28 /\ n * LOAD_DENOM <= mzHashSize n * LOAD_NUMER.
Proof.
  intros Hn. unfold mzHashSize, LOAD_DENOM, LOAD_NUMER. rewrite (wrap_small 64 (n * 8)) by (unfold in_range; lia).
  rewrite wrap_small by (unfold in_range; dmlia). dmlia.
Qed.

(** A table created with the capacity that [mzHashSize] gives for [n] items
    is never reallocated by [n] operations: they succeed, with the results of
    the finite map, when no memory can be allocated. *)
Theorem mzHashSize_no_resize {D K} `{EqDecision D, Countable K} (hash : K -> Z) (key : D -> K)
    (cmpFunc : D -> D -> outcome Z) (os : list hash_op) :
  (forall k, in_range 32 (hash k)) -> total_cmp key cmpFunc -> Z.of_nat (length os) <= 2 ^ 27 ->
  exists t0 t, mzHashTableCreate true true (mzHashSize (Z.of_nat (length os))) = Ret (Some t0) /\
    run_table hash key cmpFunc false t0 os = Ret (t, snd (run_map key ∅ os)).
Proof.
  intros Hh Hc Hos. set (n := Z.of_nat (length os)) in *.
  destruct (mzHashSize_bounds n ltac:(lia)) as [Hb Hload].
  destruct (create_map hash key (mzHashSize n) Hb) as (t0 & E0 & Hr0 & H3 & H4 & Hsz).
  destruct (run_sim hash key Hh cmpFunc false n os Hc t0 ∅) as (t & Et & Hr); [done | | lia|].
  - left. unfold LOAD_DENOM, LOAD_NUMER in *. lia.
  - by exists t0, t.
Qed.

Lemma mzHashSize_no_resize_witness :
  exists t0 t, mzHashTableCreate true true (mzHashSize (Z.of_nat 3)) = Ret (Some t0) /\
    run_table toy_hash id toy_cmp false t0 [Add 1; Add 5; Find 1]%nat = Ret (t, snd (run_map id ∅ [Add 1; Add 5; Find 1]%nat)).
Proof.
  apply (mzHashSize_no_resize toy_hash id toy_cmp [Add 1; Add 5; Find 1]%nat).
  - exact toy_hash_range.
  - exact toy_cmp_total.
  - simpl. lia.
Defined.
