(* ===== verification/Zip.v ===== *)
(** * Zip archives in memory

    Models src/bootable/recovery/minzip/Zip.c as far as archives are opened,
    searched and their entries read, with Bits.h and Zip.h. An archive is the
    mapped bytes; a pointer into it is an offset, a pointer to an entry the index
    in [pEntries]. The address the archive is mapped at, the signedness of
    [char], the checked addition of safe_iop.h and zlib, which are not part of
    the tree's code, are parameters. *)

From S2P Require Import Prelude.
From S2P Require Import MinzipHash.

Definition CENSIG : Z := 0x02014b50.
Definition CENHDR : Z := 46.
Definition CENVEM : Z := 4.
Definition CENHOW : Z := 10.
Definition CENTIM : Z := 12.
Definition CENCRC : Z := 16.
Definition CENSIZ : Z := 20.
Definition CENLEN : Z := 24.
Definition CENNAM : Z := 28.
Definition CENEXT : Z := 30.
Definition CENCOM : Z := 32.
Definition CENATX : Z := 38.
Definition CENOFF : Z := 42.
Definition ENDSIG : Z := 0x06054b50.
Definition ENDHDR : Z := 22.
Definition ENDSUB : Z := 8.
Definition ENDOFF : Z := 16.
Definition LOCSIG : Z := 0x04034b50.
Definition LOCHDR : Z := 30.
Definition LOCNAM : Z := 26.
Definition LOCEXT : Z := 28.
Definition STORED : Z := 0.
Definition DEFLATED : Z := 8.
Definition CENVEM_UNIX : Z := Z.shiftl 3 8.
Definition PATH_MAX : Z := 4096.

Record ZipEntry := mk_ZipEntry {
  fileNameLen : Z;
  fileName : Z;
  offset : Z;
  compLen : Z;
  uncompLen : Z;
  compression : Z;
  modTime : Z;
  crc32 : Z;
  versionMadeBy : Z;
  externalFileAttributes : Z
}.

(** What a member of a structure points to: nothing, an object, or, in a
    structure that was not initialised, anything. *)
Inductive cptr (A : Type) :=
  | Null
  | Wild
  | Ptr (a : A).
Arguments Null {A}.
Arguments Wild {A}.
Arguments Ptr {A} a.

(** The items of the hash table: entries, and the name that is looked for. *)
Inductive zip_item :=
  | EntryPtr (i : Z)
  | NamePtr (s : bytes).

#[global] Instance zip_item_eq_dec : EqDecision zip_item.
Proof. solve_decision. Defined.

Record ZipArchive := mk_ZipArchive {
  numZipEntries : Z;
  zipEntries : cptr (list ZipEntry);
  pHash : cptr (HashTable zip_item);
  addr : bytes
}.
Abbreviation arch_length a := (Z.of_nat (length (addr a))).

Definition get2LE (mem : bytes) (p : Z) : outcome Z :=
  b0 ← rd_mem mem p;
  b1 ← rd_mem mem (p + 1);
  Ret (Z.lor b0 (Z.shiftl b1 8)).

Definition get4LE (mem : bytes) (p : Z) : outcome Z :=
  b0 ← rd_mem mem p;
  b1 ← rd_mem mem (p + 1);
  b2 ← rd_mem mem (p + 2);
  b3 ← rd_mem mem (p + 3);
  Ret (Z.lor (Z.lor (Z.lor b0 (Z.shiftl b1 8)) (Z.shiftl b2 16)) (Z.shiftl b3 24)).

(** [memcmp] and [strncmp] of the C library. *)
Fixpoint memcmp (n : nat) (mem1 : bytes) (p1 : Z) (mem2 : bytes) (p2 : Z) : outcome Z :=
  match n with
  | O => Ret 0
  | S n' =>
      a ← rd_mem mem1 p1;
      b ← rd_mem mem2 p2;
      if a =? b then memcmp n' mem1 (p1 + 1) mem2 (p2 + 1) else Ret (a - b)
  end.

Fixpoint strncmp (n : nat) (mem1 : bytes) (p1 : Z) (mem2 : bytes) (p2 : Z) : outcome Z :=
  match n with
  | O => Ret 0
  | S n' =>
      a ← rd_mem mem1 p1;
      b ← rd_mem mem2 p2;
      if negb (a =? b) then Ret (a - b)
      else if a =? 0 then Ret 0 else strncmp n' mem1 (p1 + 1) mem2 (p2 + 1)
  end.

(** A string in memory of its own. *)
Definition c_str (s : bytes) : bytes := s ++ [0].
Definition strlen (s : bytes) : Z := Z.of_nat (length s).

(** [pEntries[i]]. *)
Definition zip_entry (es : list ZipEntry) (i : Z) : outcome ZipEntry :=
  if i <? 0 then Fault OutOfBounds
  else match es !! Z.to_nat i with Some e => Ret e | None => Fault OutOfBounds end.

Definition item_entry (es : list ZipEntry) (p : zip_item) : outcome ZipEntry :=
  match p with EntryPtr i => zip_entry es i | NamePtr _ => Fault OutOfBounds end.

(** The comparison callbacks of the hash table. *)
Definition hashcmpZipEntry (mem : bytes) (es : list ZipEntry) (ventry1 ventry2 : zip_item) : outcome Z :=
  entry1 ← item_entry es ventry1;
  entry2 ← item_entry es ventry2;
  if negb (fileNameLen entry1 =? fileNameLen entry2) then Ret (i32 (u32 (fileNameLen entry1 - fileNameLen entry2)))
  else memcmp (Z.to_nat (fileNameLen entry1)) mem (fileName entry1) mem (fileName entry2).

Definition hashcmpZipName (mem : bytes) (es : list ZipEntry) (ventry vname : zip_item) : outcome Z :=
  entry ← item_entry es ventry;
  match vname with
  | NamePtr name =>
      let nameLen := u32 (strlen name) in
      if negb (fileNameLen entry =? nameLen) then Ret (i32 (u32 (fileNameLen entry - nameLen)))
      else memcmp (Z.to_nat nameLen) mem (fileName entry) (c_str name) 0
  | EntryPtr _ => Fault OutOfBounds
  end.

Section Zip.
Context (char_signed : bool).

(** The value of a [char]. *)
Definition char_val (c : Z) : Z := if char_signed then swrap 8 c else c.

Fixpoint name_hash_loop (n : nat) (mem : bytes) (name hash : Z) : outcome Z :=
  match n with
  | O => Ret hash
  | S n' => c ← rd_mem mem name; name_hash_loop n' mem (name + 1) (u32 (hash * 31 + char_val c))
  end.

Definition computeHash (mem : bytes) (name nameLen : Z) : outcome Z := name_hash_loop (Z.to_nat nameLen) mem name 2.

(** [resize_ok]: the outcome of the allocation when the table is resized. *)
Definition addEntryToHashTable (resize_ok : bool) (mem : bytes) (es : list ZipEntry) (t : HashTable zip_item) (i : Z)
  : outcome (HashTable zip_item) :=
  pEntry ← zip_entry es i;
  itemHash ← computeHash mem (fileName pEntry) (fileNameLen pEntry);
  '(t', found) ← mzHashTableLookup (hashcmpZipEntry mem es) resize_ok t itemHash (EntryPtr i) true;
  Ret t'.

Fixpoint valid_loop (n : nat) (mem : bytes) (p : Z) : outcome bool :=
  match n with
  | O => Ret true
  | S n' =>
      c ← rd_mem mem p;
      if (char_val c <? 32) || (127 <=? char_val c) then Ret false else valid_loop n' mem (p + 1)
  end.

Definition validFilename (mem : bytes) (name nameLen : Z) : outcome bool :=
  if PATH_MAX <=? nameLen then Ret false else valid_loop (Z.to_nat nameLen) mem name.

(** [while (ptr >= addr) { ... ptr--; }] *)
Fixpoint find_eocd (n : nat) (mem : bytes) (ptr : Z) : outcome (option Z) :=
  match n with
  | O => Ret None
  | S n' =>
      b ← rd_mem mem ptr;
      v ← (if b =? Z.land ENDSIG 0xff then get4LE mem ptr else Ret 0);
      if (b =? Z.land ENDSIG 0xff) && (v =? ENDSIG) then Ret (Some ptr) else find_eocd n' mem (ptr - 1)
  end.

(** The binary search for the place of a name: the value of [high] after it. *)
Fixpoint search_loop (fuel : nat) (mem : bytes) (es : list ZipEntry) (name nameLen low high : Z) : outcome Z :=
  match fuel with
  | O => Diverge
  | S fuel' =>
      if high <? low then Ret high
      else
        let mid := low + (high - low) / 2 in
        e ← zip_entry es mid;
        let diffLen := if fileNameLen e <? nameLen then fileNameLen e else nameLen in
        diff ← strncmp (Z.to_nat diffLen) mem (fileName e) mem name;
        let diff := if diff =? 0 then i32 (u32 (fileNameLen e - nameLen)) else diff in
        if diff <? 0 then search_loop fuel' mem es name nameLen (mid + 1) high
        else if 0 <? diff then search_loop fuel' mem es name nameLen low (mid - 1)
        else Ret mid
  end.

(** [memmove(es + dst, es + src, n * sizeof(ZipEntry))] *)
Definition memmove_entries (es : list ZipEntry) (dst src n : Z) : outcome (list ZipEntry) :=
  if (0 <=? dst) && (0 <=? src) && (0 <=? n) && (dst + n <=? Z.of_nat (length es)) && (src + n <=? Z.of_nat (length es))
  then Ret (take (Z.to_nat dst) es ++ take (Z.to_nat n) (drop (Z.to_nat src) es) ++ drop (Z.to_nat (dst + n)) es)
  else Fault OutOfBounds.

(** The place of the new entry, after room was made for it. *)
Definition make_room (mem : bytes) (es : list ZipEntry) (i name nameLen : Z) : outcome (list ZipEntry * Z) :=
  if 0 <? i then
    high ← search_loop (S (Z.to_nat i)) mem es name nameLen 0 (i - 1);
    let target := high + 1 in
    c_assert (target <=? i);;
    if negb (target =? i) then es' ← memmove_entries es (target + 1) target (i - target); Ret (es', target)
    else Ret (es, target)
  else Ret (es, 0).

Definition store_entry (es : list ZipEntry) (i : Z) (e : ZipEntry) : outcome (list ZipEntry) :=
  if (0 <=? i) && (i <? Z.of_nat (length es)) then Ret (<[Z.to_nat i := e]> es) else Fault OutOfBounds.

(** safe_iop's [safe_add]: [a + b], unless the type, unsigned or signed of 64
    bits, does not hold it. *)
Context (safe_add : bool -> Z -> Z -> option Z).
(** The address the archive is mapped at. *)
Context (base : Z).

(** The data of an entry: its offset, when its local header and its data lie in
    the archive. *)
Definition local_data (mem : bytes) (localHdrOffset compLen : Z) : outcome (option Z) :=
  match safe_add false base localHdrOffset with
  | None => Ret None
  | Some localHdr =>
      if u64 (base + Z.of_nat (length mem)) <? u64 (localHdr + LOCHDR) then Ret None
      else
        sig ← get4LE mem (localHdr - base);
        if negb (sig =? LOCSIG) then Ret None
        else
          nam ← get2LE mem (localHdr - base + LOCNAM);
          ext ← get2LE mem (localHdr - base + LOCEXT);
          let offset := u32 (localHdrOffset + LOCHDR + nam + ext) in
          match safe_add true offset compLen with
          | None => Ret None
          | Some _ => if Z.of_nat (length mem) <? u64 (offset + compLen) then Ret None else Ret (Some offset)
          end
  end.

(** One round of the loop over the central directory: the entries, with the
    [i]th put in its place, and the next record; [None] for [goto bail]. What a
    failed round leaves in the entries is freed unread. *)
Definition read_entry (mem : bytes) (es : list ZipEntry) (i ptr : Z) : outcome (option (list ZipEntry * Z)) :=
  if Z.of_nat (length mem) <? ptr + CENHDR then Ret None
  else
    sig ← get4LE mem ptr;
    if negb (sig =? CENSIG) then Ret None
    else
      localHdrOffset ← get4LE mem (ptr + CENOFF);
      nameLen ← get2LE mem (ptr + CENNAM);
      extraLen ← get2LE mem (ptr + CENEXT);
      commentLen ← get2LE mem (ptr + CENCOM);
      let name := ptr + CENHDR in
      if Z.of_nat (length mem) <? name + nameLen then Ret None
      else
        valid ← validFilename mem name nameLen;
        if negb valid then Ret None
        else
          '(es, target) ← make_room mem es i name nameLen;
          compLen ← get4LE mem (ptr + CENSIZ);
          uncompLen ← get4LE mem (ptr + CENLEN);
          compression ← get2LE mem (ptr + CENHOW);
          modTime ← get4LE mem (ptr + CENTIM);
          crc32 ← get4LE mem (ptr + CENCRC);
          versionMadeBy ← get2LE mem (ptr + CENVEM);
          let host := Z.land versionMadeBy 0xff00 in
          if negb (host =? 0) && negb (host =? CENVEM_UNIX) then Ret None
          else
            externalFileAttributes ← get4LE mem (ptr + CENATX);
            data ← local_data mem localHdrOffset compLen;
            match data with
            | None => Ret None
            | Some offset =>
                es ← store_entry es target (mk_ZipEntry nameLen name offset compLen uncompLen compression modTime crc32
                  versionMadeBy externalFileAttributes);
                Ret (Some (es, ptr + (CENHDR + nameLen + extraLen + commentLen)))
            end.

Fixpoint read_entries (n : nat) (mem : bytes) (es : list ZipEntry) (i ptr : Z) : outcome (option (list ZipEntry)) :=
  match n with
  | O => Ret (Some es)
  | S n' =>
      r ← read_entry mem es i ptr;
      match r with
      | None => Ret None
      | Some (es', ptr') => read_entries n' mem es' (i + 1) ptr'
      end
  end.

Fixpoint hash_entries (n : nat) (resize_ok : bool) (mem : bytes) (es : list ZipEntry) (i : Z) (t : HashTable zip_item)
  : outcome (HashTable zip_item) :=
  match n with
  | O => Ret t
  | S n' => t' ← addEntryToHashTable resize_ok mem es t i; hash_entries n' resize_ok mem es (i + 1) t'
  end.

Definition zeroZipEntry : ZipEntry := mk_ZipEntry 0 0 0 0 0 0 0 0 0 0.

(** [mzHashTableFree(pArchive->pHash)], where no free function was set. *)
Definition free_hash (p : cptr (HashTable zip_item)) : outcome unit :=
  match p with
  | Null => Ret tt
  | Wild => Fault UseAfterFree
  | Ptr t => _ ← mzHashTableFree false (Some t); Ret tt
  end.

(** [bail:] without a result: the table is freed. *)
Definition parse_bail (a : ZipArchive) : outcome (bool * ZipArchive) :=
  free_hash (pHash a);;
  Ret (false, mk_ZipArchive (numZipEntries a) (zipEntries a) Null (addr a)).

(** The outcomes of the allocations of an archive. *)
Record zip_allocs := ZipAllocs {
  entries_ok : bool;
  table_ok : bool;
  slots_ok : bool;
  resize_ok : bool
}.

(** The structures for the entries, the loops over them and the end of
    [parseZipArchive]. *)
Definition parse_entries (al : zip_allocs) (mem : bytes) (numEntries cdOffset : Z) : outcome (bool * ZipArchive) :=
  let es := if entries_ok al then Ptr (replicate (Z.to_nat numEntries) zeroZipEntry) else Null in
  t ← mzHashTableCreate (table_ok al) (slots_ok al) (mzHashSize numEntries);
  let a := mk_ZipArchive numEntries es match t with Some t => Ptr t | None => Null end mem in
  match es, t with
  | Ptr es, Some t =>
      r ← read_entries (Z.to_nat numEntries) mem es 0 cdOffset;
      match r with
      | None => parse_bail a
      | Some es =>
          t ← hash_entries (Z.to_nat numEntries) (resize_ok al) mem es 0 t;
          Ret (true, mk_ZipArchive numEntries (Ptr es) (Ptr t) mem)
      end
  | _, _ => parse_bail a
  end.

Definition parseZipArchive (al : zip_allocs) (a : ZipArchive) : outcome (bool * ZipArchive) :=
  let mem := addr a in
  val ← get4LE mem 0;
  if val =? ENDSIG then parse_bail a
  else if negb (val =? LOCSIG) then parse_bail a
  else
    eocd ← find_eocd (S (Z.to_nat (arch_length a - ENDHDR))) mem (arch_length a - ENDHDR);
    match eocd with
    | None => parse_bail a
    | Some ptr =>
        numEntries ← get2LE mem (ptr + ENDSUB);
        cdOffset ← get4LE mem (ptr + ENDOFF);
        if (numEntries =? 0) || (arch_length a <=? cdOffset) then parse_bail a
        else parse_entries al mem numEntries cdOffset
    end.

Definition mzCloseZipArchive (a : ZipArchive) : outcome ZipArchive :=
  match zipEntries a with
  | Wild => Fault UseAfterFree
  | _ => free_hash (pHash a);; Ret (mk_ZipArchive (numZipEntries a) Null Null (addr a))
  end.

Definition mzOpenZipArchive (al : zip_allocs) (mem : bytes) (pArchive : ZipArchive) : outcome (Z * ZipArchive) :=
  if Z.of_nat (length mem) <? ENDHDR then a ← mzCloseZipArchive pArchive; Ret (-1, a)
  else
    '(ok, a) ← parseZipArchive al (mk_ZipArchive (numZipEntries pArchive) (zipEntries pArchive) (pHash pArchive) mem);
    if (ok : bool) then Ret (0, a) else a' ← mzCloseZipArchive a; Ret (-1, a').

Definition mzFindZipEntry (a : ZipArchive) (entryName : bytes) : outcome (slot zip_item) :=
  itemHash ← computeHash (c_str entryName) 0 (i32 (strlen entryName));
  match pHash a, zipEntries a with
  | Ptr t, Ptr es =>
      '(_, found) ← mzHashTableLookup (hashcmpZipName (addr a) es) false t itemHash (NamePtr entryName) false;
      Ret found
  | _, _ => Fault NullDeref
  end.

End Zip.
