(* ===== verification/ZipSpec.v ===== *)
(** * What opening and searching a Zip archive gives

    Proves of Zip.v that opening an archive never leaves it, whatever its bytes,
    and gives the entries of its central directory, which [zip_directory] reads
    off the bytes, ordered by name; that looking up a name gives the first entry
    of that name in the directory; and what happens when the archive structure
    was not initialised. *)

From S2P Require Import Prelude.
From S2P Require Import MinzipHash.
From S2P Require Import MinzipHashSpec.
From S2P Require Import Zip.

(** Takes the branch of a test on numbers that holds. *)
Ltac guard_holds :=
  match goal with
  | |- context [if ?b then _ else _] =>
      replace b with true by (symmetry; rewrite ?andb_true_iff, ?Z.leb_le, ?Z.ltb_lt; lia)
  end.

(** ** Numbers in memory *)

Definition le16 (mem : bytes) (p : Z) : Z := rd mem p + rd mem (p + 1) * 2 ^ 8.
Definition le32 (mem : bytes) (p : Z) : Z :=
  rd mem p + rd mem (p + 1) * 2 ^ 8 + rd mem (p + 2) * 2 ^ 16 + rd mem (p + 3) * 2 ^ 24.

Lemma rd_byte mem p : bytes_ok mem -> 0 <= rd mem p < 2 ^ 8.
Proof. intros Hb. exact (rd_range 8 mem p ltac:(lia) Hb). Qed.

Lemma le16_range mem p : bytes_ok mem -> 0 <= le16 mem p < 2 ^ 16.
Proof. intros Hb. unfold le16. pose proof (rd_byte mem p Hb). pose proof (rd_byte mem (p + 1) Hb). lia. Qed.

Lemma le32_range mem p : bytes_ok mem -> 0 <= le32 mem p < 2 ^ 32.
Proof.
  intros Hb. unfold le32. pose proof (rd_byte mem p Hb). pose proof (rd_byte mem (p + 1) Hb).
  pose proof (rd_byte mem (p + 2) Hb). pose proof (rd_byte mem (p + 3) Hb). lia.
Qed.

Lemma get2LE_ok mem p : bytes_ok mem -> 0 <= p -> p + 2 <= Z.of_nat (length mem) -> get2LE mem p = Ret (le16 mem p).
Proof.
  intros Hb Hp Hl. unfold get2LE. rewrite !rd_mem_ok by lia. cbn [mbind outcome_bind]. unfold le16.
  pose proof (rd_byte mem p Hb). by rewrite lor_shiftl_add by lia.
Qed.

Lemma get4LE_ok mem p : bytes_ok mem -> 0 <= p -> p + 4 <= Z.of_nat (length mem) -> get4LE mem p = Ret (le32 mem p).
Proof.
  intros Hb Hp Hl. unfold get4LE. rewrite !rd_mem_ok by lia. cbn [mbind outcome_bind]. unfold le32.
  pose proof (rd_byte mem p Hb). pose proof (rd_byte mem (p + 1) Hb). pose proof (rd_byte mem (p + 2) Hb).
  rewrite (lor_shiftl_add (rd mem p)), (lor_shiftl_add (_ + _ * 2 ^ 8)), lor_shiftl_add by lia. done.
Qed.

(** [x :: r] is what lies in memory from [p] on. *)
Lemma rd_mem_cons mem p x r : 0 <= p -> drop (Z.to_nat p) mem = x :: r ->
  rd_mem mem p = Ret x /\ drop (Z.to_nat (p + 1)) mem = r.
Proof.
  intros Hp E. assert (mem !! Z.to_nat p = Some x) as Hx by (rewrite <- (Nat.add_0_r (Z.to_nat p)), <- lookup_drop, E; done).
  apply lookup_lt_Some in Hx as Hl. rewrite rd_mem_ok by lia. rewrite (rd_lookup mem p x Hx). split; [done|].
  replace (Z.to_nat (p + 1)) with (Z.to_nat p + 1)%nat by lia. by rewrite <- drop_drop, E.
Qed.

(** ** Names *)

(** The order of names: by the first byte that differs, a prefix first. *)
Fixpoint lex (a b : bytes) : comparison :=
  match a, b with
  | [], [] => Eq
  | [], _ :: _ => Lt
  | _ :: _, [] => Gt
  | x :: a', y :: b' => match x ?= y with Eq => lex a' b' | c => c end
  end.

Lemma lex_refl a : lex a a = Eq.
Proof. induction a as [|x a IH]; [done|]. simpl. by rewrite Z.compare_refl. Qed.

Lemma lex_eq a b : lex a b = Eq -> a = b.
Proof.
  revert b. induction a as [|x a IH]; intros [|y b]; simpl; try done.
  destruct (Z.compare_spec x y) as [->| |]; try done. intros E. by rewrite (IH b E).
Qed.

Lemma lex_antisym a b : lex b a = CompOpp (lex a b).
Proof.
  revert b. induction a as [|x a IH]; intros [|y b]; simpl; try done.
  rewrite (Z.compare_antisym x y). destruct (x ?= y); simpl; done || apply IH.
Qed.

Lemma lex_trans a b c : lex a b <> Gt -> lex b c <> Gt -> lex a c <> Gt.
Proof.
  revert b c. induction a as [|x a IH]; intros [|y b] [|z c]; simpl; try done.
  destruct (Z.compare_spec x y), (Z.compare_spec y z), (Z.compare_spec x z); subst; try done; try lia. apply IH.
Qed.

Lemma lex_lt_trans a b c : lex a b = Lt -> lex b c <> Gt -> lex a c = Lt.
Proof.
  intros H1 H2. destruct (lex a c) eqn:E; [|done|].
  - apply lex_eq in E. subst c. rewrite lex_antisym, H1 in H2. done.
  - by destruct (lex_trans a b c); [rewrite H1 | |].
Qed.

Lemma lex_le_lt_trans a b c : lex a b <> Gt -> lex b c = Lt -> lex a c = Lt.
Proof.
  intros H1 H2. destruct (lex a c) eqn:E; [|done|].
  - apply lex_eq in E. subst c. rewrite lex_antisym, H2 in H1. done.
  - by destruct (lex_trans a b c); [|rewrite H2 |].
Qed.

Lemma lex_gt_le_trans a b c : lex a c = Gt -> lex a b <> Gt -> lex b c = Gt.
Proof.
  intros H1 H2. rewrite lex_antisym, (lex_lt_trans c a b); [done | | done]. by rewrite lex_antisym, H1.
Qed.

(** What a difference in C says of the order. *)
Definition sign_of (d : Z) : comparison := d ?= 0.

Lemma strncmp_lex a : forall b mem1 p1 mem2 p2 r1 r2, 0 <= p1 -> 0 <= p2 ->
  drop (Z.to_nat p1) mem1 = a ++ r1 -> drop (Z.to_nat p2) mem2 = b ++ r2 -> Forall (fun c => 0 < c) a ->
  exists d, strncmp (length a `min` length b) mem1 p1 mem2 p2 = Ret d /\
    lex a b = (if d =? 0 then Z.of_nat (length a) ?= Z.of_nat (length b) else sign_of d).
Proof.
  induction a as [|x a IH]; intros b mem1 p1 mem2 p2 r1 r2 Hp1 Hp2 E1 E2 Ha.
  { exists 0. split; [done|]. by destruct b. }
  destruct b as [|y b]; [exists 0; done|].
  apply Forall_cons in Ha as [Hx Ha].
  destruct (rd_mem_cons _ _ _ _ Hp1 E1) as [Ex E1']. destruct (rd_mem_cons _ _ _ _ Hp2 E2) as [Ey E2'].
  cbn [length Nat.min strncmp]. rewrite Ex, Ey. cbn [mbind outcome_bind]. simpl lex. unfold sign_of.
  destruct (Z.eqb_spec x y) as [->|Hne]; cbn [negb].
  - rewrite Z.compare_refl. destruct (Z.eqb_spec y 0); [lia|].
    destruct (IH b mem1 (p1 + 1) mem2 (p2 + 1) r1 r2) as (d & -> & ->); try done; try lia.
    exists d. split; [done|]. unfold sign_of. by rewrite !Nat2Z.inj_succ, <- Zcompare_succ_compat.
  - exists (x - y). split; [done|]. destruct (Z.eqb_spec (x - y) 0); [lia|].
    rewrite <- Z.compare_sub. destruct (Z.compare_spec x y); done || lia.
Qed.

Definition name_at (mem : bytes) (p n : Z) : bytes := take (Z.to_nat n) (drop (Z.to_nat p) mem).
Definition name_of (mem : bytes) (e : ZipEntry) : bytes := name_at mem (fileName e) (fileNameLen e).

Definition printable (s : bytes) : Prop := Forall (fun c => 32 <= c < 127) s.

(** A valid name in the archive. *)
Record name_ok (mem : bytes) (p n : Z) : Prop := {
  name_start : 0 <= p;
  name_len : 0 <= n < PATH_MAX;
  name_end : p + n <= Z.of_nat (length mem);
  name_printable : printable (name_at mem p n)
}.

Lemma name_at_length mem p n : name_ok mem p n -> Z.of_nat (length (name_at mem p n)) = n.
Proof. intros [H1 H2 H3 _]. unfold name_at. rewrite length_take, length_drop. lia. Qed.

Lemma name_at_drop mem p n : drop (Z.to_nat p) mem = name_at mem p n ++ drop (Z.to_nat n) (drop (Z.to_nat p) mem).
Proof. unfold name_at. by rewrite take_drop. Qed.

Lemma printable_pos s : printable s -> Forall (fun c => 0 < c) s.
Proof. intros Hs. eapply Forall_impl; [exact Hs|]. intros c. simpl. lia. Qed.

Lemma len_diff a b : 0 <= a < PATH_MAX -> 0 <= b < PATH_MAX -> i32 (u32 (a - b)) = a - b.
Proof.
  unfold PATH_MAX. intros Ha Hb. unfold wrap, swrap. change (2 ^ (32 - 1)) with (2 ^ 31).
  dmlia.
Qed.

(** The comparison of the binary search. *)
Lemma names_compare mem p n q k : name_ok mem p n -> name_ok mem q k ->
  exists d, strncmp (Z.to_nat (if n <? k then n else k)) mem p mem q = Ret d /\
    lex (name_at mem p n) (name_at mem q k) = sign_of (if d =? 0 then i32 (u32 (n - k)) else d).
Proof.
  intros Hp Hq. pose proof (name_at_length _ _ _ Hp) as Lp. pose proof (name_at_length _ _ _ Hq) as Lq.
  destruct (strncmp_lex (name_at mem p n) (name_at mem q k) mem p mem q _ _ (name_start _ _ _ Hp) (name_start _ _ _ Hq)
    (name_at_drop mem p n) (name_at_drop mem q k) (printable_pos _ (name_printable _ _ _ Hp))) as (d & Ed & El).
  exists d. split.
  - rewrite <- Ed. f_equal. destruct (Z.ltb_spec n k); lia.
  - rewrite El, Lp, Lq. destruct (d =? 0); [|done]. unfold sign_of.
    rewrite len_diff by (apply Hp || apply Hq). by rewrite Z.compare_sub.
Qed.

Definition entry_ok (mem : bytes) (e : ZipEntry) : Prop := name_ok mem (fileName e) (fileNameLen e).

Lemma zip_entry_ok es i e : es !! i = Some e -> zip_entry es (Z.of_nat i) = Ret e.
Proof. intros E. unfold zip_entry. destruct (Z.ltb_spec (Z.of_nat i) 0); [lia|]. by rewrite Nat2Z.id, E. Qed.

(** Entries ordered by name. *)
Definition by_name (mem : bytes) (e1 e2 : ZipEntry) : Prop := lex (name_of mem e1) (name_of mem e2) <> Gt.
Definition name_sorted (mem : bytes) (es : list ZipEntry) : Prop := StronglySorted (by_name mem) es.

Lemma sorted_lookup mem es i j e1 e2 : name_sorted mem es -> (i < j)%nat -> es !! i = Some e1 -> es !! j = Some e2 -> by_name mem e1 e2.
Proof.
  intros Hs. revert i j. induction Hs as [|e es Hs IH Hf]; intros i j Hij E1 E2; [by rewrite lookup_nil in E1|].
  destruct j as [|j]; [lia|]. destruct i as [|i]; simpl in *.
  - injection E1 as <-. rewrite Forall_lookup in Hf. by eapply Hf.
  - apply (IH i j); done || lia.
Qed.

Section Search.
Context (mem : bytes) (es rest : list ZipEntry) (name nameLen : Z).
Context (Hes : Forall (entry_ok mem) es) (Hsorted : name_sorted mem es) (Hname : name_ok mem name nameLen).
Abbreviation nm := (name_at mem name nameLen).

(** The place the search gives: what is before is not after the name, what is
    behind is not before it, and an equal name is before. *)
Definition place_ok (h : Z) : Prop := exists l1 l2, es = l1 ++ l2 /\ Z.of_nat (length l1) = h + 1 /\
  Forall (fun e => lex (name_of mem e) nm <> Gt) l1 /\ Forall (fun e => lex (name_of mem e) nm <> Lt) l2 /\
  (Exists (fun e => name_of mem e = nm) l2 -> Exists (fun e => name_of mem e = nm) l1).

Lemma place_equal mid e : es !! mid = Some e -> name_of mem e = nm -> place_ok (Z.of_nat mid).
Proof.
  intros He En. apply lookup_lt_Some in He as Hl. exists (take (S mid) es), (drop (S mid) es).
  rewrite take_drop, length_take. split_and!; [done | lia | | |].
  - apply Forall_lookup. intros i e' He'. apply lookup_take_Some in He' as [He' Hi]. rewrite <- En.
    destruct (decide (i = mid)) as [->|]; [rewrite He in He'; injection He' as <-; by rewrite lex_refl|].
    apply (sorted_lookup mem es i mid); done || lia.
  - apply Forall_lookup. intros i e' He'. rewrite lookup_drop in He'. rewrite <- En, lex_antisym.
    pose proof (sorted_lookup mem es mid (S mid + i) e e' Hsorted ltac:(lia) He He') as Hb. unfold by_name in Hb.
    by destruct (lex (name_of mem e) (name_of mem e')).
  - intros _. apply Exists_exists. exists e. split; [|done]. apply (list_elem_of_lookup_2 _ mid).
    by rewrite lookup_take_lt by lia.
Qed.

Lemma search_loop_run fuel : forall low high : nat, (high - low < fuel)%nat -> (low <= high <= length es)%nat ->
  Forall (fun e => lex (name_of mem e) nm = Lt) (take low es) -> Forall (fun e => lex (name_of mem e) nm = Gt) (drop high es) ->
  exists h, search_loop fuel mem (es ++ rest) name nameLen (Z.of_nat low) (Z.of_nat high - 1) = Ret h /\ place_ok h.
Proof.
  induction fuel as [|fuel IH]; intros low high Hf Hlh Hlo Hhi; [lia|]. cbn [search_loop].
  destruct (Z.ltb_spec (Z.of_nat high - 1) (Z.of_nat low)) as [Hend|Hgo].
  - exists (Z.of_nat high - 1). split; [done|]. assert (low = high) as -> by lia.
    exists (take high es), (drop high es). rewrite take_drop, length_take. split_and!; [done | lia | | |].
    + eapply Forall_impl; [exact Hlo|]. by intros e ->.
    + eapply Forall_impl; [exact Hhi|]. by intros e ->.
    + intros Hx. exfalso. apply Exists_exists in Hx as (e & He & En). rewrite Forall_forall in Hhi.
      specialize (Hhi e He). by rewrite En, lex_refl in Hhi.
  - set (mid := Z.to_nat (Z.of_nat low + (Z.of_nat high - 1 - Z.of_nat low) / 2)).
    assert (Z.of_nat low + (Z.of_nat high - 1 - Z.of_nat low) / 2 = Z.of_nat mid) as Em by (unfold mid; dmlia).
    assert (low <= mid < high)%nat as Hmid by (unfold mid; dmlia). clearbody mid. rewrite Em.
    destruct (lookup_lt_is_Some_2 es mid) as [e He]; [lia|].
    rewrite (zip_entry_ok (es ++ rest) mid e) by (by apply lookup_app_l_Some). cbn [mbind outcome_bind].
    assert (entry_ok mem e) as Hok by (rewrite Forall_lookup in Hes; by apply (Hes mid)).
    destruct (names_compare mem _ _ _ _ Hok Hname) as (d & -> & El). cbn [mbind outcome_bind].
    fold (name_of mem e) in El. set (d' := if d =? 0 then _ else d) in *. unfold sign_of in El.
    destruct (Z.ltb_spec d' 0) as [Hd|Hd]; [|destruct (Z.ltb_spec 0 d') as [Hd2|Hd2]].
    + replace (Z.of_nat mid + 1) with (Z.of_nat (S mid)) by lia. apply IH; try done; try lia.
      apply Forall_lookup. intros i e' He'. apply lookup_take_Some in He' as [He' Hi].
      apply (lex_le_lt_trans _ (name_of mem e)); [|by rewrite El; apply Z.compare_lt_iff].
      change (by_name mem e' e).
      destruct (decide (i = mid)) as [->|]; [rewrite He in He'; injection He' as <-; unfold by_name; by rewrite lex_refl|].
      apply (sorted_lookup mem es i mid); done || lia.
    + apply IH; try done; try lia.
      apply Forall_lookup. intros i e' He'. rewrite lookup_drop in He'.
      apply (lex_gt_le_trans (name_of mem e)); [by rewrite El; apply Z.compare_gt_iff|].
      change (by_name mem e e').
      destruct (decide (i = 0)%nat) as [->|];
        [rewrite Nat.add_0_r in He'; rewrite He in He'; injection He' as <-; unfold by_name; by rewrite lex_refl|].
      apply (sorted_lookup mem es mid (mid + i)); done || lia.
    + assert (lex (name_of mem e) nm = Eq) as Eq by (rewrite El; replace d' with 0 by lia; done).
      exists (Z.of_nat mid). split; [done|]. apply (place_equal mid e He). by apply lex_eq.
Qed.
End Search.

Lemma memmove_shift (l1 l2 rest : list ZipEntry) r d n k : d = Z.of_nat (length l1) + 1 -> n = Z.of_nat (length l2) -> k = d + n ->
  take (Z.to_nat d) ((l1 ++ l2) ++ r :: rest) ++ take (Z.to_nat n) (drop (Z.to_nat (Z.of_nat (length l1))) ((l1 ++ l2) ++ r :: rest))
    ++ drop (Z.to_nat k) ((l1 ++ l2) ++ r :: rest) = l1 ++ take 1 (l2 ++ r :: rest) ++ l2 ++ rest.
Proof.
  intros -> -> ->. rewrite <- (app_assoc l1 l2).
  replace (Z.to_nat (Z.of_nat (length l1) + 1)) with (length l1 + 1)%nat by lia. rewrite take_app_add, <- app_assoc. do 2 f_equal.
  rewrite !Nat2Z.id, drop_app_length, take_app_length. f_equal.
  rewrite !drop_app_ge by lia. by replace (Z.to_nat _ - length l1 - length l2)%nat with 1%nat by lia.
Qed.

Lemma make_room_run mem pre r rest name nameLen : Forall (entry_ok mem) pre -> name_sorted mem pre -> name_ok mem name nameLen ->
  exists es l1 l2, make_room mem (pre ++ r :: rest) (Z.of_nat (length pre)) name nameLen = Ret (es, Z.of_nat (length l1)) /\
    (forall e, store_entry es (Z.of_nat (length l1)) e = Ret (l1 ++ e :: l2 ++ rest)) /\ pre = l1 ++ l2 /\
    Forall (fun e => lex (name_of mem e) (name_at mem name nameLen) <> Gt) l1 /\
    Forall (fun e => lex (name_of mem e) (name_at mem name nameLen) <> Lt) l2 /\
    (Exists (fun e => name_of mem e = name_at mem name nameLen) l2 -> Exists (fun e => name_of mem e = name_at mem name nameLen) l1).
Proof.
  intros Hes Hs Hn. unfold make_room. destruct (Z.ltb_spec 0 (Z.of_nat (length pre))) as [Hi|Hi].
  - destruct (search_loop_run mem pre (r :: rest) name nameLen Hes Hs Hn (S (Z.to_nat (Z.of_nat (length pre)))) 0 (length pre))
      as (h & E & l1 & l2 & -> & Hl & H1 & H2 & H3); [lia | lia | constructor | rewrite drop_ge by lia; constructor|].
    change (Z.of_nat 0) with 0 in E. rewrite E. cbn [mbind outcome_bind]. rewrite <- Hl, length_app.
    rewrite c_assert_true by (apply Z.leb_le; lia). cbn [mbind outcome_bind].
    destruct (Z.eqb_spec (Z.of_nat (length l1)) (Z.of_nat (length l1 + length l2))) as [Hz|Hz]; cbn [negb].
    + destruct l2; [|simpl in Hz; lia]. exists (l1 ++ r :: rest), l1, []. rewrite !app_nil_r. split_and!; try done.
      intros e. unfold store_entry. rewrite length_app. simpl.
      guard_holds.
      by rewrite Nat2Z.id, insert_app_r_alt, Nat.sub_diag by lia.
    + unfold memmove_entries. rewrite !length_app. cbn [length].
      guard_holds. cbn [mbind outcome_bind].
      exists (l1 ++ take 1 (l2 ++ r :: rest) ++ l2 ++ rest), l1, l2. split_and!; try done.
      * rewrite memmove_shift by lia. done.
      * intros e. unfold store_entry. rewrite !length_app, length_take, length_app. simpl.
        guard_holds.
        rewrite Nat2Z.id, insert_app_r_alt, Nat.sub_diag by lia. destruct l2 as [|x l2]; done.
  - destruct pre; [|simpl in Hi; lia]. exists (r :: rest), [], []. simpl. split_and!; done.
Qed.

(** ** The directory of an archive

    What the bytes say, without pointers, searching or sorting. *)

Definition valid_name (s : bytes) : bool :=
  (Z.of_nat (length s) <? PATH_MAX) && forallb (fun c => (32 <=? c) && (c <? 127)) s.

(** Where the data of an entry starts, given the offset of its local header. *)
Definition data_at (mem : bytes) (hdr clen : Z) : option Z :=
  if hdr + LOCHDR <=? Z.of_nat (length mem) then
    if le32 mem hdr =? LOCSIG then
      let off := u32 (hdr + LOCHDR + le16 mem (hdr + LOCNAM) + le16 mem (hdr + LOCEXT)) in
      if off + clen <=? Z.of_nat (length mem) then Some off else None
    else None
  else None.

(** The record of the central directory at [p], and the next one. *)
Definition cd_record (mem : bytes) (p : Z) : option (ZipEntry * Z) :=
  if p + CENHDR <=? Z.of_nat (length mem) then
    let nameLen := le16 mem (p + CENNAM) in
    let host := Z.land (le16 mem (p + CENVEM)) 0xff00 in
    if (le32 mem p =? CENSIG) && (p + CENHDR + nameLen <=? Z.of_nat (length mem)) &&
       valid_name (name_at mem (p + CENHDR) nameLen) && ((host =? 0) || (host =? CENVEM_UNIX))
    then
      off ← data_at mem (le32 mem (p + CENOFF)) (le32 mem (p + CENSIZ));
      Some (mk_ZipEntry nameLen (p + CENHDR) off (le32 mem (p + CENSIZ)) (le32 mem (p + CENLEN)) (le16 mem (p + CENHOW))
              (le32 mem (p + CENTIM)) (le32 mem (p + CENCRC)) (le16 mem (p + CENVEM)) (le32 mem (p + CENATX)),
            p + (CENHDR + nameLen + le16 mem (p + CENEXT) + le16 mem (p + CENCOM)))
    else None
  else None.

Fixpoint cd_records (n : nat) (mem : bytes) (p : Z) : option (list ZipEntry) :=
  match n with
  | O => Some []
  | S n' => '(e, p') ← cd_record mem p; es ← cd_records n' mem p'; Some (e :: es)
  end.

(** The last place for an end record that has its signature. *)
Fixpoint last_eocd (n : nat) (mem : bytes) : option Z :=
  match n with
  | O => None
  | S n' => if le32 mem (Z.of_nat n') =? ENDSIG then Some (Z.of_nat n') else last_eocd n' mem
  end.

Definition zip_directory (mem : bytes) : option (list ZipEntry) :=
  if (ENDHDR <=? Z.of_nat (length mem)) && (le32 mem 0 =? LOCSIG) then
    p ← last_eocd (Z.to_nat (Z.of_nat (length mem) - ENDHDR + 1)) mem;
    let n := le16 mem (p + ENDSUB) in
    let cd := le32 mem (p + ENDOFF) in
    if (0 <? n) && (cd <? Z.of_nat (length mem)) then cd_records (Z.to_nat n) mem cd else None
  else None.

(** An entry that lies in the archive, its name and its data. *)
Definition in_archive (mem : bytes) (e : ZipEntry) : Prop :=
  entry_ok mem e /\ CENHDR <= fileName e /\ 0 <= offset e /\ 0 <= compLen e /\ offset e + compLen e <= Z.of_nat (length mem).

(** safe_iop's addition gives the sum when the type holds it. *)
Definition safe_add_ok (safe_add : bool -> Z -> Z -> option Z) : Prop := forall a b,
  safe_add false a b = (if decide (in_range 64 (a + b)) then Some (a + b) else None) /\
  safe_add true a b = (if decide (in_srange 64 (a + b)) then Some (a + b) else None).

(** The first entry of a name. *)
Fixpoint first_named (mem : bytes) (nm : bytes) (es : list ZipEntry) : option ZipEntry :=
  match es with
  | [] => None
  | e :: es' => if decide (name_of mem e = nm) then Some e else first_named mem nm es'
  end.

Lemma first_named_app mem nm l1 l2 :
  first_named mem nm (l1 ++ l2) = match first_named mem nm l1 with Some e => Some e | None => first_named mem nm l2 end.
Proof. induction l1 as [|e l1 IH]; [done|]. simpl. by case_decide. Qed.

Lemma first_named_Exists mem nm l : Exists (fun e => name_of mem e = nm) l <-> first_named mem nm l <> None.
Proof.
  induction l as [|e l IH]; simpl; [by rewrite Exists_nil|]. rewrite Exists_cons, IH. case_decide; [|tauto].
  split; [done | by left].
Qed.

(** What the entries are to the records of the directory read so far. *)
Record gathers (mem : bytes) (es cd : list ZipEntry) : Prop := {
  gathers_perm : es ≡ₚ cd;
  gathers_sorted : name_sorted mem es;
  gathers_in : Forall (in_archive mem) es;
  gathers_first : forall nm, first_named mem nm es = first_named mem nm cd
}.

Lemma sorted_insert mem l1 e l2 : name_sorted mem (l1 ++ l2) -> Forall (fun x => by_name mem x e) l1 -> Forall (fun x => by_name mem e x) l2 ->
  name_sorted mem (l1 ++ e :: l2).
Proof.
  unfold name_sorted. induction l1 as [|x l1 IH]; simpl; intros Hs H1 H2; [by constructor|].
  apply StronglySorted_inv in Hs as [Hs Hx]. apply Forall_cons in H1 as [H1x H1].
  constructor; [by apply IH|]. apply Forall_app in Hx as [Hx1 Hx2]. apply Forall_app. split; [done | by constructor].
Qed.

Lemma gathers_insert mem l1 e l2 cd : gathers mem (l1 ++ l2) cd -> in_archive mem e ->
  Forall (fun x => by_name mem x e) l1 -> Forall (fun x => by_name mem e x) l2 ->
  (Exists (fun x => name_of mem x = name_of mem e) l2 -> Exists (fun x => name_of mem x = name_of mem e) l1) ->
  gathers mem (l1 ++ e :: l2) (cd ++ [e]).
Proof.
  intros [Hp Hs Hi Hf] He H1 H2 H3. split.
  - rewrite <- Hp. solve_Permutation.
  - by apply sorted_insert.
  - apply Forall_app in Hi as [Hi1 Hi2]. apply Forall_app. split; [done | by constructor].
  - intros nm. specialize (Hf nm). rewrite !first_named_app in *. simpl. rewrite <- Hf. rewrite !first_named_Exists in H3.
    case_decide as En; [subst nm|].
    + destruct (first_named mem (name_of mem e) l1), (first_named mem (name_of mem e) l2); try done. by destruct H3.
    + destruct (first_named mem nm l1); [done|]. by destruct (first_named mem nm l2).
Qed.

Section Parse.
Context (char_signed : bool) (safe_add : bool -> Z -> Z -> option Z) (base : Z) (mem : bytes).
Context (Hsafe : safe_add_ok safe_add) (Hmem : bytes_ok mem) (Hbase : 0 <= base) (Hend : base + Z.of_nat (length mem) <= 2 ^ 63).
Abbreviation len := (Z.of_nat (length mem)).

Lemma char_val_valid c : in_range 8 c ->
  (char_val char_signed c <? 32) || (127 <=? char_val char_signed c) = negb ((32 <=? c) && (c <? 127)).
Proof.
  clear. unfold in_range, char_val, swrap. intros Hc. change (2 ^ (8 - 1)) with 128. change (2 ^ 8) with 256 in *.
  assert ((c + 128) mod 256 - 128 = if c <? 128 then c else c - 256) as E by (destruct (Z.ltb_spec c 128); dmlia).
  destruct char_signed; rewrite ?E;
    destruct (Z.ltb_spec c 128), (Z.leb_spec 32 c), (Z.ltb_spec c 127); simpl; try lia;
    rewrite ?orb_true_iff, ?orb_false_iff, ?Z.ltb_lt, ?Z.ltb_ge, ?Z.leb_le, ?Z.leb_gt; lia.
Qed.

Lemma valid_loop_run s : forall p r, 0 <= p -> drop (Z.to_nat p) mem = s ++ r ->
  valid_loop char_signed (length s) mem p = Ret (forallb (fun c => (32 <=? c) && (c <? 127)) s).
Proof.
  induction s as [|c s IH]; intros p r Hp E; [done|]. destruct (rd_mem_cons _ _ _ _ Hp E) as [Ec E'].
  cbn [length valid_loop]. rewrite Ec. cbn [mbind outcome_bind].
  assert (in_range 8 c) as Hc.
  { pose proof (Forall_drop (in_range 8) (Z.to_nat p) mem Hmem) as Hd. rewrite E in Hd. by apply Forall_cons in Hd as [? _]. }
  rewrite char_val_valid by done. simpl. destruct ((32 <=? c) && (c <? 127)); simpl; [|done]. apply (IH (p + 1) r); [lia | done].
Qed.

Lemma validFilename_run p n : 0 <= p -> 0 <= n -> p + n <= len ->
  validFilename char_signed mem p n = Ret (valid_name (name_at mem p n)).
Proof.
  intros Hp Hn Hl. unfold validFilename, valid_name.
  assert (length (name_at mem p n) = Z.to_nat n) as Ln by (unfold name_at; rewrite length_take, length_drop; lia).
  rewrite Ln, Z2Nat.id by lia. destruct (Z.leb_spec PATH_MAX n), (Z.ltb_spec n PATH_MAX); try lia; [done|].
  rewrite <- Ln, (valid_loop_run _ p _ Hp (name_at_drop mem p n)). done.
Qed.

Lemma valid_name_printable s : valid_name s = true -> Z.of_nat (length s) < PATH_MAX /\ printable s.
Proof.
  unfold valid_name, printable. rewrite andb_true_iff, Z.ltb_lt, forallb_forall, Forall_forall. intros [H1 H2].
  split; [done|]. intros c Hc. specialize (H2 c). rewrite <- list_elem_of_In in H2. specialize (H2 Hc). lia.
Qed.

Lemma local_data_run hdr clen : 0 <= hdr < 2 ^ 32 -> 0 <= clen < 2 ^ 32 ->
  local_data safe_add base mem hdr clen = Ret (data_at mem hdr clen).
Proof.
  intros Hh Hc. unfold local_data, data_at. destruct (Hsafe base hdr) as [-> _].
  rewrite decide_True by (unfold in_range; lia). unfold LOCHDR, LOCNAM, LOCEXT.
  rewrite !wrap_small by (unfold in_range; lia). replace (base + hdr - base) with hdr by lia.
  destruct (Z.ltb_spec (base + len) (base + hdr + 30)), (Z.leb_spec (hdr + 30) len); try lia; [done|].
  rewrite get4LE_ok by (done || lia). cbn [mbind outcome_bind].
  destruct (le32 mem hdr =? LOCSIG); cbn [negb]; [|done].
  rewrite !get2LE_ok by (done || lia). cbn [mbind outcome_bind].
  set (off := u32 _). assert (0 <= off < 2 ^ 32) as Ho by (apply wrap_range; lia).
  destruct (Hsafe off clen) as [_ ->]. rewrite decide_True by (unfold in_srange; lia).
  rewrite wrap_small by (unfold in_range; lia).
  destruct (Z.ltb_spec len (off + clen)), (Z.leb_spec (off + clen) len); done || lia.
Qed.

Lemma cd_record_in p e p' : 0 <= p -> cd_record mem p = Some (e, p') ->
  in_archive mem e /\ fileName e = p + CENHDR /\ fileNameLen e = le16 mem (p + CENNAM) /\ p < p'.
Proof.
  intros Hp. unfold cd_record. destruct (Z.leb_spec (p + CENHDR) len); [|done].
  destruct ((le32 mem p =? CENSIG) && _ && _ && _) eqn:Eb; [|done].
  apply andb_true_iff in Eb as [Eb _]. apply andb_true_iff in Eb as [Eb Ev]. apply andb_true_iff in Eb as [_ El].
  apply Z.leb_le in El. apply valid_name_printable in Ev as [Ev1 Ev2].
  pose proof (le16_range mem (p + CENNAM) Hmem). pose proof (le16_range mem (p + CENEXT) Hmem).
  pose proof (le16_range mem (p + CENCOM) Hmem). pose proof (le32_range mem (p + CENSIZ) Hmem).
  destruct (data_at mem _ _) as [off|] eqn:Ed; [|done]. cbn. intros [= <- <-]. simpl.
  assert (Z.of_nat (length (name_at mem (p + CENHDR) (le16 mem (p + CENNAM)))) = le16 mem (p + CENNAM)) as Ln
    by (unfold name_at; rewrite length_take, length_drop; unfold CENHDR in *; lia).
  assert (0 <= off /\ off + le32 mem (p + CENSIZ) <= len) as Hoff.
  { unfold data_at in Ed. destruct (_ <=? len); [|done]. destruct (_ =? LOCSIG); [|done].
    destruct (Z.leb_spec (u32 (le32 mem (p + CENOFF) + LOCHDR + le16 mem (le32 mem (p + CENOFF) + LOCNAM) + le16 mem (le32 mem (p + CENOFF) + LOCEXT)) + le32 mem (p + CENSIZ)) len);
      [|done]. injection Ed as <-. split; [apply wrap_range; lia | done]. }
  unfold CENHDR in *. split_and!; try done; try lia. unfold in_archive, entry_ok, CENHDR. simpl.
  split_and!; try lia. split; simpl; done || lia.
Qed.

(** One round of the loop puts the record in its place. *)
Lemma read_entry_run pre r rest p : Forall (entry_ok mem) pre -> name_sorted mem pre -> 0 <= p ->
  match cd_record mem p with
  | None => read_entry char_signed safe_add base mem (pre ++ r :: rest) (Z.of_nat (length pre)) p = Ret None
  | Some (e, p') => exists l1 l2, pre = l1 ++ l2 /\
      read_entry char_signed safe_add base mem (pre ++ r :: rest) (Z.of_nat (length pre)) p = Ret (Some (l1 ++ e :: l2 ++ rest, p')) /\
      Forall (fun x => by_name mem x e) l1 /\ Forall (fun x => by_name mem e x) l2 /\
      (Exists (fun x => name_of mem x = name_of mem e) l2 -> Exists (fun x => name_of mem x = name_of mem e) l1)
  end.
Proof.
  intros Hpre Hs Hp. pose proof (cd_record_in p) as Hin. unfold cd_record, read_entry in *.
  destruct (Z.ltb_spec len (p + CENHDR)), (Z.leb_spec (p + CENHDR) len); try lia; [done|].
  unfold CENHDR, CENOFF, CENNAM, CENEXT, CENCOM, CENSIZ, CENLEN, CENHOW, CENTIM, CENCRC, CENVEM, CENATX in *.
  rewrite !get4LE_ok by (done || lia). cbn [mbind outcome_bind].
  destruct (le32 mem p =? CENSIG); cbn [negb andb]; [|done].
  rewrite !get2LE_ok by (done || lia). cbn [mbind outcome_bind].
  pose proof (le16_range mem (p + 28) Hmem). pose proof (le32_range mem (p + 42) Hmem). pose proof (le32_range mem (p + 20) Hmem).
  destruct (Z.ltb_spec len (p + 46 + le16 mem (p + 28))), (Z.leb_spec (p + 46 + le16 mem (p + 28)) len); try lia; [done|].
  rewrite validFilename_run by lia. cbn [mbind outcome_bind andb].
  destruct (valid_name (name_at mem (p + 46) (le16 mem (p + 28)))) eqn:Ev; cbn [negb andb]; [|done].
  apply valid_name_printable in Ev as [Ev1 Ev2].
  assert (name_ok mem (p + 46) (le16 mem (p + 28))) as Hn.
  { assert (Z.of_nat (length (name_at mem (p + 46) (le16 mem (p + 28)))) = le16 mem (p + 28)) as Ln
      by (unfold name_at; rewrite length_take, length_drop; lia). split; done || lia. }
  destruct (make_room_run mem pre r rest (p + 46) (le16 mem (p + 28)) Hpre Hs Hn) as (es & l1 & l2 & -> & Hst & E12 & H1' & H2' & H3').
  cbn [mbind outcome_bind]. rewrite ?get4LE_ok, ?get2LE_ok by (done || lia). cbn [mbind outcome_bind].
  set (host := Z.land _ _) in *.
  assert (negb (host =? 0) && negb (host =? CENVEM_UNIX) = negb ((host =? 0) || (host =? CENVEM_UNIX))) as -> by (by destruct (host =? 0)).
  destruct ((host =? 0) || (host =? CENVEM_UNIX)); cbn [negb]; [|done].
  rewrite local_data_run by done. cbn [mbind outcome_bind].
  destruct (data_at mem _ _) as [off|]; [|done]. cbn [mbind option_bind]. rewrite Hst. cbn [mbind outcome_bind].
  exists l1, l2. split_and!; try done.
  eapply Forall_impl; [exact H2'|]. intros x Hx. unfold by_name. rewrite lex_antisym.
  change (CompOpp (lex (name_of mem x) (name_at mem (p + 46) (le16 mem (p + 28)))) <> Gt).
  simpl in Hx. by destruct (lex (name_of mem x) _).
Qed.

Lemma read_entries_run n : forall pre cd p, gathers mem pre cd -> 0 <= p ->
  match cd_records n mem p with
  | None => read_entries char_signed safe_add base n mem (pre ++ replicate n zeroZipEntry) (Z.of_nat (length pre)) p = Ret None
  | Some es => exists es', read_entries char_signed safe_add base n mem (pre ++ replicate n zeroZipEntry) (Z.of_nat (length pre)) p = Ret (Some es') /\
      gathers mem es' (cd ++ es)
  end.
Proof.
  induction n as [|n IH]; intros pre cd p Hg Hp; [exists pre; simpl; by rewrite !app_nil_r|]. cbn [cd_records read_entries replicate].
  assert (Forall (entry_ok mem) pre) as Hok by (eapply Forall_impl; [apply Hg|]; by intros e [He _]).
  pose proof (read_entry_run pre zeroZipEntry (replicate n zeroZipEntry) p Hok (gathers_sorted _ _ _ Hg) Hp) as Hre.
  destruct (cd_record mem p) as [[e p']|] eqn:Er; [|rewrite Hre; done]. cbn [mbind option_bind].
  destruct (cd_record_in p e p' Hp Er) as (Hin & _ & _ & Hlt).
  destruct Hre as (l1 & l2 & E12 & -> & H1 & H2 & H3). cbn [mbind outcome_bind].
  rewrite E12 in Hg. pose proof (gathers_insert mem l1 e l2 cd Hg Hin H1 H2 H3) as Hg'.
  specialize (IH (l1 ++ e :: l2) (cd ++ [e]) p' Hg' ltac:(lia)).
  rewrite <- app_assoc in IH. cbn [app] in IH.
  replace (Z.of_nat (length (l1 ++ e :: l2))) with (Z.of_nat (length pre) + 1) in IH
    by (rewrite E12, !length_app; simpl; lia).
  destruct (cd_records n mem p') as [es|]; [|done]. destruct IH as (es' & E' & Hg2). exists es'. split; [done|].
  by rewrite <- app_assoc in Hg2.
Qed.

Lemma cd_records_length n : forall p es, cd_records n mem p = Some es -> length es = n.
Proof.
  clear. induction n as [|n IH]; intros p es; [by intros [= <-]|]. cbn [cd_records].
  destruct (cd_record mem p) as [[e p']|]; [|done]. cbn. destruct (cd_records n mem p') as [es'|] eqn:E; [|done]. cbn.
  intros [= <-]. simpl. by rewrite (IH p' es').
Qed.

Lemma find_eocd_run n : (n <= Z.to_nat (len - ENDHDR + 1))%nat -> ENDHDR <= len ->
  find_eocd n mem (Z.of_nat n - 1) = Ret (last_eocd n mem).
Proof.
  unfold ENDHDR. induction n as [|n IH]; intros Hn Hl; [done|]. cbn [find_eocd last_eocd].
  replace (Z.of_nat (S n) - 1) with (Z.of_nat n) by lia. rewrite rd_mem_ok by lia. cbn [mbind outcome_bind].
  specialize (IH ltac:(lia) Hl).
  destruct (Z.eqb_spec (rd mem (Z.of_nat n)) (Z.land ENDSIG 0xff)) as [Eb|Nb]; cbn [andb].
  - rewrite get4LE_ok by (done || lia). cbn [mbind outcome_bind]. by destruct (_ =? ENDSIG).
  - cbn [mbind outcome_bind]. destruct (Z.eqb_spec (le32 mem (Z.of_nat n)) ENDSIG) as [El|]; [|done].
    exfalso. apply Nb. unfold le32 in El. change (Z.land ENDSIG 0xff) with 0x50. change ENDSIG with 0x06054b50 in El.
    pose proof (rd_byte mem (Z.of_nat n) Hmem). lia.
Qed.
End Parse.

(** ** The table of names *)

Lemma memcmp_run a : forall b mem1 p1 mem2 p2 r1 r2, 0 <= p1 -> 0 <= p2 -> length a = length b ->
  drop (Z.to_nat p1) mem1 = a ++ r1 -> drop (Z.to_nat p2) mem2 = b ++ r2 ->
  exists d, memcmp (length a) mem1 p1 mem2 p2 = Ret d /\ (d = 0 <-> a = b).
Proof.
  induction a as [|x a IH]; intros [|y b] mem1 p1 mem2 p2 r1 r2 Hp1 Hp2 Hl E1 E2; try done; [by exists 0|].
  destruct (rd_mem_cons _ _ _ _ Hp1 E1) as [Ex E1']. destruct (rd_mem_cons _ _ _ _ Hp2 E2) as [Ey E2'].
  cbn [length memcmp]. rewrite Ex, Ey. cbn [mbind outcome_bind]. destruct (Z.eqb_spec x y) as [->|Hne].
  - injection Hl as Hl. destruct (IH b mem1 (p1 + 1) mem2 (p2 + 1) r1 r2) as (d & -> & Hd); try done; try lia.
    exists d. split; [done|]. rewrite Hd. split; [by intros -> | by intros [= ->]].
  - exists (x - y). split; [done|]. split; [lia | by intros [= -> _]].
Qed.

(** The hash of a name. *)
Definition hash_of (char_signed : bool) (s : bytes) : Z := fold_left (fun h c => u32 (h * 31 + char_val char_signed c)) s 2.

Lemma hash_of_range cs s : in_range 32 (hash_of cs s).
Proof.
  unfold hash_of. assert (in_range 32 2) as H by (unfold in_range; lia). revert H. generalize 2.
  induction s as [|c s IH]; intros h Hh; [done|]. simpl. apply IH. apply wrap_range. lia.
Qed.

Lemma name_hash_loop_run cs s : forall mem p r h, 0 <= p -> drop (Z.to_nat p) mem = s ++ r ->
  name_hash_loop cs (length s) mem p h = Ret (fold_left (fun h c => u32 (h * 31 + char_val cs c)) s h).
Proof.
  induction s as [|c s IH]; intros mem p r h Hp E; [done|]. destruct (rd_mem_cons _ _ _ _ Hp E) as [Ec E'].
  cbn [length name_hash_loop]. rewrite Ec. cbn [mbind outcome_bind fold_left]. apply (IH mem (p + 1) r); [lia | done].
Qed.

Section Names.
Context (char_signed : bool) (mem : bytes) (es : list ZipEntry) (Hes : Forall (entry_ok mem) es).

(** The name of an item of the table. *)
Definition item_name (d : zip_item) : bytes :=
  match d with
  | EntryPtr i => match es !! Z.to_nat i with Some e => name_of mem e | None => [] end
  | NamePtr s => s
  end.

(** The map after the first [n] entries: a name is mapped to its first entry. *)
Definition indexed (n : nat) (m : gmap bytes zip_item) : Prop := forall k d,
  m !! k = Some d <-> exists i e, d = EntryPtr (Z.of_nat i) /\ (i < n)%nat /\ es !! i = Some e /\ name_of mem e = k /\
    forall j e', (j < i)%nat -> es !! j = Some e' -> name_of mem e' <> k.

Lemma indexed_item n m d : indexed n m -> m !! item_name d = Some d ->
  exists i e, d = EntryPtr (Z.of_nat i) /\ es !! i = Some e /\ item_name d = name_of mem e.
Proof. intros Hx Hm. apply Hx in Hm as (i & e & -> & Hi & He & En & _). exists i, e. done. Qed.

Lemma entry_name_ok i e : es !! i = Some e -> entry_ok mem e.
Proof. intros He. rewrite Forall_lookup in Hes. by apply (Hes i). Qed.

Lemma item_name_entry i e : es !! i = Some e -> item_name (EntryPtr (Z.of_nat i)) = name_of mem e.
Proof. intros He. simpl. by rewrite Nat2Z.id, He. Qed.

(** Names of different lengths differ, in the table as in the code. *)
Lemma memcmp_names e (s mem2 : bytes) p2 r2 k : entry_ok mem e -> 0 <= p2 -> drop (Z.to_nat p2) mem2 = s ++ r2 ->
  k = Z.of_nat (length s) -> k < 2 ^ 31 ->
  exists c, (if negb (fileNameLen e =? k) then Ret (i32 (u32 (fileNameLen e - k))) else memcmp (Z.to_nat k) mem (fileName e) mem2 p2) = Ret c /\
    (c = 0 <-> name_of mem e = s).
Proof.
  intros He Hp E -> Hk. pose proof (name_at_length _ _ _ He) as Hl. fold (name_of mem e) in Hl.
  pose proof (name_len _ _ _ He) as Hr. unfold PATH_MAX in Hr.
  destruct (Z.eqb_spec (fileNameLen e) (Z.of_nat (length s))) as [El|Nl]; cbn [negb].
  - destruct (memcmp_run (name_of mem e) s mem (fileName e) mem2 p2 _ _ (name_start _ _ _ He) Hp ltac:(lia)
      (name_at_drop mem (fileName e) (fileNameLen e)) E) as (d & Ed & Hd).
    exists d. rewrite Nat2Z.id. replace (length s) with (length (name_of mem e)) by lia. done.
  - eexists. split; [done|]. assert (i32 (u32 (fileNameLen e - Z.of_nat (length s))) <> 0) as Hnz.
    { unfold wrap, swrap. change (2 ^ (32 - 1)) with (2 ^ 31). dmlia. }
    split; [done|]. intros E'. rewrite E' in Hl. lia.
Qed.

Lemma compares_entry n m i e : indexed n m -> es !! i = Some e ->
  compares item_name (hashcmpZipEntry mem es) m (EntryPtr (Z.of_nat i)).
Proof.
  intros Hx He d Hm. destruct (indexed_item n m d Hx Hm) as (j & e' & -> & He' & En').
  unfold hashcmpZipEntry, item_entry. rewrite (zip_entry_ok _ _ _ He), (zip_entry_ok _ _ _ He'). cbn [mbind outcome_bind].
  rewrite En', (item_name_entry i e He).
  pose proof (entry_name_ok i e He) as Hok. pose proof (name_at_length _ _ _ Hok) as Hl. fold (name_of mem e) in Hl.
  pose proof (name_len _ _ _ Hok) as Hlen. unfold PATH_MAX in Hlen.
  destruct (memcmp_names e' (name_of mem e) mem (fileName e) _ (fileNameLen e) (entry_name_ok j e' He') (name_start _ _ _ Hok)
    (name_at_drop mem (fileName e) (fileNameLen e))) as (c & Ec & Hc); [lia | lia|].
  exists c. split; [|done]. rewrite <- Ec. destruct (Z.eqb_spec (fileNameLen e') (fileNameLen e)) as [->|]; done.
Qed.

Lemma compares_name n m s : indexed n m -> Z.of_nat (length s) < 2 ^ 31 ->
  compares item_name (hashcmpZipName mem es) m (NamePtr s).
Proof.
  intros Hx Hs d Hm. destruct (indexed_item n m d Hx Hm) as (j & e' & -> & He' & En').
  unfold hashcmpZipName, item_entry. rewrite (zip_entry_ok _ _ _ He'). cbn [mbind outcome_bind]. rewrite En'.
  unfold strlen. rewrite (wrap_small 32) by (unfold in_range; lia).
  apply (memcmp_names e' s (c_str s) 0 [0]); try done. by apply (entry_name_ok j).
Qed.

Lemma indexed_step n m e : indexed n m -> es !! n = Some e ->
  indexed (S n) (partial_alter (fun o => Some (default (EntryPtr (Z.of_nat n)) o)) (name_of mem e) m).
Proof.
  intros Hx He k d. destruct (decide (k = name_of mem e)) as [->|Hk].
  - rewrite lookup_partial_alter_eq. destruct (m !! name_of mem e) as [d0|] eqn:Em; simpl.
    + pose proof (proj1 (Hx _ _) Em) as (i & e' & -> & Hi & He' & En & Hf). split.
      * intros [= <-]. exists i, e'. split_and!; done || lia.
      * intros (j & e2 & -> & Hj & He2 & En2 & Hf2). destruct (Nat.lt_trichotomy i j) as [|[->|]]; [|done|].
        -- by destruct (Hf2 i e').
        -- by destruct (Hf j e2).
    + assert (forall j e', (j < n)%nat -> es !! j = Some e' -> name_of mem e' <> name_of mem e) as Hno.
      { intros j. induction j as [j IHj] using lt_wf_ind. intros e' Hj He' En.
        assert (m !! name_of mem e = Some (EntryPtr (Z.of_nat j))) as Hm; [|by rewrite Hm in Em].
        apply Hx. exists j, e'. split_and!; try done. intros j' e2 Hj' He2. apply (IHj j'); done || lia. }
      split.
      * intros [= <-]. exists n, e. split_and!; try done; lia.
      * intros (j & e2 & -> & Hj & He2 & En2 & Hf2). destruct (decide (j = n)) as [->|]; [done|].
        exfalso. apply (Hno j e2); done || lia.
  - rewrite lookup_partial_alter_ne by done. rewrite (Hx k d). split; intros (i & e' & -> & Hi & He' & En & Hf).
    + exists i, e'. split_and!; done || lia.
    + exists i, e'. split_and!; try done. destruct (decide (i = n)) as [->|]; [|lia]. rewrite He in He'. by injection He' as <-.
Qed.

Lemma indexed_first m nm : indexed (length es) m ->
  match m !! nm with
  | Some d => exists i e, d = EntryPtr (Z.of_nat i) /\ es !! i = Some e /\ first_named mem nm es = Some e
  | None => first_named mem nm es = None
  end.
Proof.
  intros Hx. assert (forall i e, es !! i = Some e -> name_of mem e = nm -> (forall j e', (j < i)%nat -> es !! j = Some e' -> name_of mem e' <> nm) ->
    first_named mem nm es = Some e) as Hfirst.
  { clear. induction es as [|e0 l IH]; intros i e He En Hf; [by rewrite lookup_nil in He|]. simpl.
    destruct i as [|i]; [injection He as <-; by rewrite decide_True|].
    rewrite decide_False by (apply (Hf 0%nat); [lia | done]). apply (IH i); try done.
    intros j e' Hj He'. apply (Hf (S j)); [lia | done]. }
  destruct (m !! nm) as [d|] eqn:Em.
  - apply Hx in Em as (i & e & -> & Hi & He & En & Hf). exists i, e. split_and!; try done. by apply (Hfirst i).
  - destruct (first_named mem nm es) as [e|] eqn:Ef; [|done]. exfalso.
    assert (exists i e, es !! i = Some e /\ name_of mem e = nm /\ forall j e', (j < i)%nat -> es !! j = Some e' -> name_of mem e' <> nm) as (i & e' & He & En & Hf).
    { clear -Ef. revert Ef. induction es as [|e0 l IH]; [done|]. simpl. case_decide as En.
      - intros _. exists 0%nat, e0. split_and!; try done. lia.
      - intros Ef. destruct (IH Ef) as (i & e' & He & En' & Hf). exists (S i), e'. split_and!; try done.
        intros [|j] e2 Hj He2; [by injection He2 as <- | apply (Hf j); [lia | done]]. }
    apply lookup_lt_Some in He as Hi. assert (m !! nm = Some (EntryPtr (Z.of_nat i))) as Hm; [|by rewrite Hm in Em].
    apply Hx. by exists i, e'.
Qed.

Abbreviation name_hash := (hash_of char_signed).

Lemma hash_entries_run ok n : forall i t m, (i + n = length es)%nat -> represents name_hash item_name t m -> indexed i m ->
  numEntries t + numDeadEntries t <= Z.of_nat i -> Z.of_nat (length es) * LOAD_DENOM <= tableSize t * LOAD_NUMER ->
  exists t' m', hash_entries char_signed n ok mem es (Z.of_nat i) t = Ret t' /\ represents name_hash item_name t' m' /\ indexed (length es) m'.
Proof.
  induction n as [|n IH]; intros i t m Hn Hr Hx Hcnt Hsz; cbn [hash_entries].
  - exists t, m. split_and!; try done. by replace (length es) with i by lia.
  - destruct (lookup_lt_is_Some_2 es i) as [e He]; [lia|]. unfold addEntryToHashTable.
    rewrite (zip_entry_ok _ _ _ He). cbn [mbind outcome_bind].
    pose proof (entry_name_ok i e He) as Hok. pose proof (name_at_length _ _ _ Hok) as Hl. fold (name_of mem e) in Hl.
    unfold computeHash. replace (Z.to_nat (fileNameLen e)) with (length (name_of mem e)) by lia.
    rewrite (name_hash_loop_run char_signed (name_of mem e) mem (fileName e) _ 2 (name_start _ _ _ Hok) (name_at_drop mem (fileName e) (fileNameLen e))).
    cbn [mbind outcome_bind]. fold (hash_of char_signed (name_of mem e)).
    destruct (lookup_map name_hash item_name (hash_of_range char_signed) (hashcmpZipEntry mem es) ok t m (EntryPtr (Z.of_nat i)) true Hr (compares_entry i m i e Hx He))
      as (t' & E & Hr' & Hc' & Hs'); [intros _ _; left; unfold LOAD_DENOM in *; lia|].
    rewrite (item_name_entry i e He) in *. rewrite E. cbn [mbind outcome_bind].
    destruct Hs' as [Es _]; [unfold LOAD_DENOM in *; lia|].
    replace (Z.of_nat i + 1) with (Z.of_nat (S i)) by lia.
    eapply IH; [lia | exact Hr' | by apply indexed_step | lia | by rewrite Es].
Qed.
End Names.

(** ** Opening and searching *)

Definition zeroArchive : ZipArchive := mk_ZipArchive 0 Null Null [].

(** An archive that was closed: nothing is left allocated. *)
Definition closed (a : ZipArchive) : Prop := zipEntries a = Null /\ pHash a = Null.

Lemma find_entry char_signed mem es n t m nm : Forall (entry_ok mem) es -> represents (hash_of char_signed) (item_name mem es) t m ->
  indexed mem es (length es) m -> Z.of_nat (length nm) < 2 ^ 31 ->
  exists r, mzFindZipEntry char_signed (mk_ZipArchive n (Ptr es) (Ptr t) mem) nm = Ret r /\
    match first_named mem nm es with
    | Some e => exists i, r = Data (EntryPtr (Z.of_nat i)) /\ es !! i = Some e
    | None => r = NULL
    end.
Proof.
  intros Hes Hr Hx Hn. unfold mzFindZipEntry, computeHash, strlen. rewrite i32_small, Nat2Z.id by lia.
  rewrite (name_hash_loop_run char_signed nm (c_str nm) 0 [0] 2 ltac:(lia) eq_refl). cbn [mbind outcome_bind pHash zipEntries addr].
  destruct (lookup_map (hash_of char_signed) (item_name mem es) (hash_of_range char_signed) (hashcmpZipName mem es) false t m (NamePtr nm) false Hr
    (compares_name mem es Hes (length es) m nm Hx Hn)) as (t' & E & _); [done|].
  simpl item_name in E. fold (hash_of char_signed nm). rewrite E. cbn [mbind outcome_bind]. eexists. split; [done|].
  pose proof (indexed_first mem es m nm Hx) as Hf. destruct (m !! nm) as [d|].
  - destruct Hf as (i & e & -> & He & ->). by exists i.
  - by rewrite Hf.
Qed.

Section Open.
Context (char_signed : bool) (safe_add : bool -> Z -> Z -> option Z) (base : Z) (mem : bytes) (al : zip_allocs).
Context (Hsafe : safe_add_ok safe_add) (Hmem : bytes_ok mem) (Hbase : 0 <= base) (Hend : base + Z.of_nat (length mem) <= 2 ^ 63).
Abbreviation open_zip := (mzOpenZipArchive char_signed safe_add base al mem zeroArchive).

Lemma free_hash_ok t m : represents (hash_of char_signed) (item_name mem []) t m -> free_hash (Ptr t) = Ret tt.
Proof. clear. intros Hr. simpl. destruct (clear_map _ _ false t m Hr) as (t' & fr & -> & _). done. Qed.

(** A parse that failed and freed its table. *)
Definition bailed (r : outcome (bool * ZipArchive)) : Prop := exists n es, r = Ret (false, mk_ZipArchive n es Null mem) /\ es <> Wild.

Lemma parse_bail_run n es h : free_hash h = Ret tt -> es <> Wild -> bailed (parse_bail (mk_ZipArchive n es h mem)).
Proof. clear. intros Hh Hes. unfold parse_bail. simpl. rewrite Hh. cbn. by exists n, es. Qed.

(** What an archive with the directory [cd] is. *)
Definition archive_of (cd : list ZipEntry) (a : ZipArchive) : Prop := exists es t,
  a = mk_ZipArchive (Z.of_nat (length cd)) (Ptr es) (Ptr t) mem /\
  es ≡ₚ cd /\ name_sorted mem es /\ Forall (in_archive mem) es /\
  forall nm, Z.of_nat (length nm) < 2 ^ 31 -> exists r, mzFindZipEntry char_signed a nm = Ret r /\
    match first_named mem nm cd with
    | Some e => exists i, r = Data (EntryPtr (Z.of_nat i)) /\ es !! i = Some e
    | None => r = NULL
    end.

Lemma parse_entries_run n cd : 0 < n < 2 ^ 16 -> 0 <= cd ->
  match cd_records (Z.to_nat n) mem cd, entries_ok al && table_ok al && slots_ok al with
  | Some es, true => exists a, parse_entries char_signed safe_add base al mem n cd = Ret (true, a) /\ archive_of es a
  | _, _ => bailed (parse_entries char_signed safe_add base al mem n cd)
  end.
Proof.
  intros Hn Hcd. destruct (mzHashSize_bounds n ltac:(lia)) as [Hb Hload]. unfold parse_entries.
  destruct (create_map (hash_of char_signed) (item_name mem []) _ Hb) as (t0 & Et & Hr & _).
  destruct (entries_ok al && table_ok al && slots_ok al) eqn:Eal.
  - apply andb_true_iff in Eal as [Eal ->]. apply andb_true_iff in Eal as [-> ->]. rewrite Et. cbn [mbind outcome_bind].
    assert (gathers mem [] []) as Hg0 by (split; try done; constructor).
    pose proof (read_entries_run char_signed safe_add base mem Hsafe Hmem Hbase Hend (Z.to_nat n) [] [] cd Hg0 Hcd) as Hre.
    cbn [length app] in Hre. change (Z.of_nat 0) with 0 in Hre.
    destruct (cd_records (Z.to_nat n) mem cd) as [recs|] eqn:Ec.
    + destruct Hre as (es & Ee & [Gp Gs Gi Gf]). simpl in Ee, Gp, Gf. rewrite Ee. cbn [mbind outcome_bind].
      assert (length es = Z.to_nat n) as Hl by (rewrite Gp; by eapply cd_records_length).
      assert (Forall (entry_ok mem) es) as Hok by (eapply Forall_impl; [exact Gi|]; by intros e [He _]).
      destruct (create_map (hash_of char_signed) (item_name mem es) _ Hb) as (t1 & Et1 & Hr1 & H1 & H2 & H3).
      rewrite Et in Et1. injection Et1 as <-.
      destruct (hash_entries_run char_signed mem es Hok (resize_ok al) (Z.to_nat n) 0 t0 ∅) as (t' & m' & Eh & Hr' & Hx');
        [lia | done | | lia | rewrite Hl; unfold LOAD_NUMER in *; lia|].
      { intros k d. rewrite lookup_empty. split; [done|]. intros (i & e & _ & Hi & _). lia. }
      change (Z.of_nat 0) with 0 in Eh. rewrite Eh. cbn [mbind outcome_bind]. eexists. split; [done|]. exists es, t'.
      assert (length recs = Z.to_nat n) as Hlr by (by eapply cd_records_length).
      split_and!; try done; [f_equal; lia|]. intros nm Hnm.
      destruct (find_entry char_signed mem es n t' m' nm Hok Hr' Hx' Hnm) as (r & Er & Hm). exists r. by rewrite Gf in Hm.
    + rewrite Hre. cbn [mbind outcome_bind]. apply parse_bail_run; [by eapply free_hash_ok | done].
  - assert (bailed (let es := if entries_ok al then Ptr (replicate (Z.to_nat n) zeroZipEntry) else Null in
      t ← mzHashTableCreate (table_ok al) (slots_ok al) (mzHashSize n);
      match es, t with Ptr es', Some t' => Fault NullDeref | _, _ =>
        parse_bail (mk_ZipArchive n es match t with Some t => Ptr t | None => Null end mem) end)) as Hbail.
    { clear Hsafe. revert Et. unfold mzHashTableCreate. destruct (Z.ltb_spec 0 (mzHashSize n)); [|lia]. cbn [c_assert mbind outcome_bind negb].
      intros [= <-]. destruct (entries_ok al), (table_ok al), (slots_ok al); try done; cbn [negb mbind outcome_bind];
        (apply parse_bail_run; [|done]); try done. by eapply free_hash_ok. }
    clear -Hbail. revert Hbail. cbv zeta.
    destruct (mzHashTableCreate _ _ _) as [[t|]| |]; cbn [mbind outcome_bind]; destruct (entries_ok al);
      intros Hbail; try (destruct (cd_records _ _ _)); try done; by destruct Hbail as (? & ? & ? & ?).
Qed.

Lemma parseZipArchive_run : ENDHDR <= Z.of_nat (length mem) ->
  match zip_directory mem, entries_ok al && table_ok al && slots_ok al with
  | Some cd, true => exists a, parseZipArchive char_signed safe_add base al (mk_ZipArchive 0 Null Null mem) = Ret (true, a) /\ archive_of cd a
  | _, _ => bailed (parseZipArchive char_signed safe_add base al (mk_ZipArchive 0 Null Null mem))
  end.
Proof.
  intros Hl. unfold zip_directory, parseZipArchive. cbn [addr]. unfold ENDHDR in Hl.
  rewrite get4LE_ok by (done || lia). cbn [mbind outcome_bind]. destruct (Z.leb_spec ENDHDR (Z.of_nat (length mem))); [|unfold ENDHDR in *; lia].
  assert (bailed (parse_bail (mk_ZipArchive 0 Null Null mem))) as Hbail by (by apply parse_bail_run).
  destruct (Z.eqb_spec (le32 mem 0) ENDSIG) as [->|]; [done|].
  destruct (le32 mem 0 =? LOCSIG); cbn [negb andb]; [|done].
  set (k := Z.to_nat (Z.of_nat (length mem) - ENDHDR + 1)).
  replace (S (Z.to_nat (Z.of_nat (length mem) - ENDHDR))) with k by (unfold k, ENDHDR in *; lia).
  replace (Z.of_nat (length mem) - ENDHDR) with (Z.of_nat k - 1) by (unfold k, ENDHDR in *; lia).
  rewrite find_eocd_run by done. cbn [mbind outcome_bind].
  destruct (last_eocd k mem) as [p|] eqn:Ep; [|done]. cbn [mbind option_bind].
  assert (0 <= p /\ p + ENDHDR <= Z.of_nat (length mem)) as [Hp Hpe].
  { assert (0 <= p < Z.of_nat k) as Hk; [|unfold k, ENDHDR in *; lia].
    clear -Ep. induction k as [|k IH]; [done|]. simpl in Ep. destruct (_ =? ENDSIG); [injection Ep as <-; lia|].
    specialize (IH Ep). lia. }
  unfold ENDSUB, ENDOFF, ENDHDR in *. rewrite get2LE_ok, get4LE_ok by (done || lia). cbn [mbind outcome_bind].
  pose proof (le16_range mem (p + 8) Hmem). pose proof (le32_range mem (p + 16) Hmem).
  destruct (Z.eqb_spec (le16 mem (p + 8)) 0) as [->|Hnz]; [done|].
  destruct (Z.ltb_spec 0 (le16 mem (p + 8))); [|lia]. cbn [orb andb].
  destruct (Z.leb_spec (Z.of_nat (length mem)) (le32 mem (p + 16))), (Z.ltb_spec (le32 mem (p + 16)) (Z.of_nat (length mem))); try lia; [done|].
  apply parse_entries_run; lia.
Qed.
End Open.

(** A checked addition, and an archive of one stored file: [a], with the byte 33. *)
Definition checked_add (s : bool) (a b : Z) : option Z :=
  if s then if decide (in_srange 64 (a + b)) then Some (a + b) else None
  else if decide (in_range 64 (a + b)) then Some (a + b) else None.

Lemma checked_add_ok : safe_add_ok checked_add.
Proof. by intros a b. Qed.

Definition demo_zip : bytes :=
  [0x50; 0x4b; 3; 4; 10; 0; 0; 0; 0; 0; 0; 0; 0; 0; 0; 0; 0; 0; 1; 0; 0; 0; 1; 0; 0; 0; 1; 0; 0; 0; 97; 33] ++
  [0x50; 0x4b; 1; 2; 10; 3; 10; 0; 0; 0; 0; 0; 0; 0; 0; 0; 0; 0; 0; 0; 1; 0; 0; 0; 1; 0; 0; 0; 1; 0; 0; 0; 0; 0; 0; 0; 0; 0; 0; 0; 0; 0; 0; 0; 0; 0; 97] ++
  [0x50; 0x4b; 5; 6; 0; 0; 0; 0; 1; 0; 1; 0; 47; 0; 0; 0; 32; 0; 0; 0; 0; 0].

Lemma demo_zip_ok : bytes_ok demo_zip.
Proof. apply (bool_decide_unpack _). reflexivity. Qed.

Definition demo_entries : list ZipEntry := [mk_ZipEntry 1 78 31 1 1 0 0 0 0x30a 0].

Lemma demo_zip_directory : zip_directory demo_zip = Some demo_entries.
Proof. reflexivity. Qed.

Lemma demo_zip_end : 4096 + Z.of_nat (length demo_zip) <= 2 ^ 63.
Proof. apply Z.leb_le. reflexivity. Qed.

Lemma open_run char_signed safe_add base mem al :
  safe_add_ok safe_add -> bytes_ok mem -> 0 <= base -> base + Z.of_nat (length mem) <= 2 ^ 63 ->
  match zip_directory mem, entries_ok al && table_ok al && slots_ok al with
  | Some cd, true => exists a, mzOpenZipArchive char_signed safe_add base al mem zeroArchive = Ret (0, a) /\ archive_of char_signed mem cd a
  | _, _ => exists a, mzOpenZipArchive char_signed safe_add base al mem zeroArchive = Ret (-1, a) /\ closed a
  end.
Proof.
  intros Hsafe Hmem Hbase Hend. unfold mzOpenZipArchive, zeroArchive. cbn [numZipEntries zipEntries pHash].
  destruct (Z.ltb_spec (Z.of_nat (length mem)) ENDHDR) as [Hl|Hl].
  - unfold zip_directory. destruct (Z.leb_spec ENDHDR (Z.of_nat (length mem))); [lia|]. by eexists.
  - pose proof (parseZipArchive_run char_signed safe_add base mem al Hsafe Hmem Hbase Hend Hl) as Hp.
    assert (forall r, bailed mem r -> exists a, ('(ok, a) ← r; if (ok : bool) then Ret (0, a) else a' ← mzCloseZipArchive a; Ret (-1, a'))
      = Ret (-1, a) /\ closed a) as Hbail.
    { intros r (n & es & -> & Hes). cbn. unfold mzCloseZipArchive. simpl. destruct es; [by eexists | done | by eexists]. }
    destruct (zip_directory mem) as [cd|]; [destruct (entries_ok al && table_ok al && slots_ok al)|]; [|by apply Hbail..].
    destruct Hp as (a & -> & Ha). cbn. by exists a.
Qed.

(** C8. Opening an archive, on any bytes and whatever allocations fail, never
    reads outside of it, fails an assertion or runs for ever. When the bytes
    hold a directory, as [zip_directory] reads it, and memory is there, the
    archive holds the records of the directory ordered by name, names and
    compressed data inside the archive, and looking up any name gives the first
    record of that name in the directory, or nothing when there is none.
    Otherwise opening fails with -1 and leaves nothing allocated. *)
Theorem mzOpenZipArchive_correct char_signed safe_add base mem al :
  safe_add_ok safe_add -> bytes_ok mem -> 0 <= base -> base + Z.of_nat (length mem) <= 2 ^ 63 ->
  match zip_directory mem, entries_ok al && table_ok al && slots_ok al with
  | Some cd, true => exists a, mzOpenZipArchive char_signed safe_add base al mem zeroArchive = Ret (0, a) /\ archive_of char_signed mem cd a
  | _, _ => exists a, mzOpenZipArchive char_signed safe_add base al mem zeroArchive = Ret (-1, a) /\ closed a
  end.
Proof. apply open_run. Qed.

Lemma mzOpenZipArchive_correct_witness :
  exists a, mzOpenZipArchive true checked_add 4096 (ZipAllocs true true true true) demo_zip zeroArchive = Ret (0, a) /\
    archive_of true demo_zip demo_entries a.
Proof.
  pose proof (mzOpenZipArchive_correct true checked_add 4096 demo_zip (ZipAllocs true true true true) checked_add_ok
    demo_zip_ok ltac:(lia) demo_zip_end) as H.
  rewrite demo_zip_directory in H. exact H.
Defined.

(** C40. A [ZipArchive] that was not initialised, as the callers in install.cpp
    and updater.c declare it, makes opening anything that is not an archive, for
    which [mzOpenZipArchive] should return -1, free pointers that were never
    set: the failing exits free [pHash] and [pEntries] before anything was
    stored in them. *)
Theorem mzOpenZipArchive_uninitialised char_signed safe_add base al mem n old :
  bytes_ok mem -> Z.of_nat (length mem) < ENDHDR \/ le32 mem 0 <> LOCSIG ->
  mzOpenZipArchive char_signed safe_add base al mem (mk_ZipArchive n Wild Wild old) = Fault UseAfterFree.
Proof.
  intros Hmem Hor. unfold mzOpenZipArchive.
  destruct (Z.ltb_spec (Z.of_nat (length mem)) ENDHDR) as [Hl|Hl]; [done|].
  destruct Hor as [|Hne]; [lia|]. unfold parseZipArchive. cbn [addr]. unfold ENDHDR in Hl.
  rewrite get4LE_ok by (done || lia). cbn [mbind outcome_bind].
  destruct (le32 mem 0 =? ENDSIG); [done|]. destruct (Z.eqb_spec (le32 mem 0) LOCSIG); done.
Qed.

Lemma mzOpenZipArchive_uninitialised_witness :
  mzOpenZipArchive true checked_add 4096 (ZipAllocs true true true true) [0x7f; 69; 76; 70] (mk_ZipArchive 0 Wild Wild []) = Fault UseAfterFree.
Proof.
  apply mzOpenZipArchive_uninitialised.
  - apply (bool_decide_unpack _). reflexivity.
  - left. reflexivity.
Defined.
