(* ===== verification/ZipExtract.v ===== *)
(** * Reading and extracting the entries of a Zip archive

    Models the rest of src/bootable/recovery/minzip/Zip.c, the functions that
    hand the contents of an entry to a callback, and [dirCreateHierarchy] of
    DirUtil.c. zlib is a parameter: a stream for some compressed bytes, and what
    a call of [inflate] does, given the space in the output buffer. The kernel
    is a parameter as well: the answer to a system call, given the calls before
    it; the model keeps the calls in a log. *)

From S2P Require Import Prelude.
From S2P Require Import CString.
From S2P Require Import MinzipHash.
From S2P Require Import Zip.

Definition Z_OK : Z := 0.
Definition Z_STREAM_END : Z := 1.
Definition PROC_BUF : Z := 32 * 1024.

(** [data] and [dataLen] of a callback are a place in some memory and a length;
    the cookie is a state. *)
Definition ProcessFunction (A : Type) : Type := bytes -> Z -> Z -> A -> outcome (bool * A).

Definition processStoredEntry {A} (a : ZipArchive) (e : ZipEntry) (f : ProcessFunction A) (cookie : A) : outcome (bool * A) :=
  f (addr a) (offset e) (i32 (uncompLen e)) cookie.

Section Zlib.
Context {zstream : Type} (inflateInit2 : bytes -> option zstream) (inflate : zstream -> Z -> Z * bytes * zstream).

(** The loop of [processDeflatedEntry]: [procBuf] is what was put in the buffer,
    the result the bytes put out, or [None] after a failure. *)
Fixpoint inflate_loop {A} (fuel : nat) (z : zstream) (procBuf : bytes) (total_out : Z) (f : ProcessFunction A) (cookie : A)
  : outcome (option Z * A) :=
  match fuel with
  | O => Diverge
  | S fuel' =>
      let '(zerr, out, z') := inflate z (PROC_BUF - Z.of_nat (length procBuf)) in
      if negb (zerr =? Z_OK) && negb (zerr =? Z_STREAM_END) then Ret (None, cookie)
      else
        let procBuf := procBuf ++ out in
        let total_out := total_out + Z.of_nat (length out) in
        let procSize := Z.of_nat (length procBuf) in
        if (procSize =? PROC_BUF) || ((zerr =? Z_STREAM_END) && negb (procSize =? 0)) then
          '(ret, cookie) ← f procBuf 0 procSize cookie;
          if negb ret then Ret (None, cookie)
          else if zerr =? Z_OK then inflate_loop fuel' z' [] total_out f cookie
          else Ret (Some total_out, cookie)
        else if zerr =? Z_OK then inflate_loop fuel' z' procBuf total_out f cookie
        else Ret (Some total_out, cookie)
  end.

Definition processDeflatedEntry {A} (fuel : nat) (a : ZipArchive) (e : ZipEntry) (f : ProcessFunction A) (cookie : A)
  : outcome (bool * A) :=
  input ← sub_bytes (addr a) (offset e) (compLen e);
  match inflateInit2 input with
  | None => Ret (false, cookie)
  | Some z =>
      '(result, cookie) ← inflate_loop fuel z [] 0 f cookie;
      Ret (match result with Some n => n =? uncompLen e | None => false end, cookie)
  end.

Definition mzProcessZipEntryContents {A} (fuel : nat) (a : ZipArchive) (e : ZipEntry) (f : ProcessFunction A) (cookie : A)
  : outcome (bool * A) :=
  if compression e =? STORED then processStoredEntry a e f cookie
  else if compression e =? DEFLATED then processDeflatedEntry fuel a e f cookie
  else Ret (false, cookie).

(** The rest of a buffer that is filled from [cp_pos] on. *)
Record CopyProcessArgs := mk_CopyProcessArgs { cp_mem : bytes; cp_pos : Z; cp_len : Z }.

(** [memcpy] of [n] bytes into a buffer. *)
Definition copy_to (dst : bytes) (pos : Z) (src : bytes) (off n : Z) : outcome bytes :=
  b ← sub_bytes src off n;
  if (0 <=? pos) && (pos + n <=? Z.of_nat (length dst))
  then Ret (take (Z.to_nat pos) dst ++ b ++ drop (Z.to_nat (pos + n)) dst)
  else Fault OutOfBounds.

Definition copyProcessFunction : ProcessFunction CopyProcessArgs := fun data off dataLen args =>
  if dataLen <=? cp_len args then
    m ← copy_to (cp_mem args) (cp_pos args) data off (u64 dataLen);
    Ret (true, mk_CopyProcessArgs m (cp_pos args + dataLen) (cp_len args - dataLen))
  else Ret (false, args).

Definition mzReadZipEntry (fuel : nat) (a : ZipArchive) (e : ZipEntry) (buf : bytes) (bufLen : Z) : outcome (bool * bytes) :=
  '(ret, args) ← mzProcessZipEntryContents fuel a e copyProcessFunction (mk_CopyProcessArgs buf 0 bufLen);
  Ret (ret, cp_mem args).

(** The buffer is as large as its caller made it; [cp_len] is only counted. *)
Definition bufferProcessFunction : ProcessFunction CopyProcessArgs := fun data off dataLen bec =>
  m ← copy_to (cp_mem bec) (cp_pos bec) data off (u64 dataLen);
  Ret (true, mk_CopyProcessArgs m (cp_pos bec + dataLen) (cp_len bec - dataLen)).

Definition mzExtractZipEntryToBuffer (fuel : nat) (a : ZipArchive) (e : ZipEntry) (buffer : bytes) : outcome (bool * bytes) :=
  '(ret, bec) ← mzProcessZipEntryContents fuel a e bufferProcessFunction (mk_CopyProcessArgs buffer 0 (uncompLen e));
  Ret (ret && (cp_len bec =? 0), cp_mem bec).
End Zlib.

(** ** System calls *)

Inductive sysev :=
  | Malloc (n : Z)
  | Stat (path : bytes)
  | Mkdir (path : bytes) (mode : Z)
  | Utime (path : bytes)
  | Open (path : bytes) (mode : Z)
  | Write (data : bytes)
  | Fsync
  | Close
  | SelabelLookup (path : bytes) (mode : Z)
  | SetFsCreateCon
  | ResetFsCreateCon
  | Callback (path : bytes).

(** The calls made so far, with their results. *)
Definition syslog : Type := list (sysev * Z).

Definition sysM (A : Type) : Type := syslog -> outcome (A * syslog).
#[global] Instance sysM_ret : MRet sysM := fun A x log => Ret (x, log).
#[global] Instance sysM_bind : MBind sysM := fun A B k m log =>
  match m log with
  | Ret (x, log') => k x log'
  | Fault f => Fault f
  | Diverge => Diverge
  end.
#[global] Instance sysM_effects : Effects sysM := fun A o log =>
  match o with
  | Ret x => Ret (x, log)
  | Fault f => Fault f
  | Diverge => Diverge
  end.

Definition slash : Z := 47.
Definition UNZIP_DIRMODE : Z := 493.
Definition UNZIP_FILEMODE : Z := 420.

Inductive DirStatus := DMISSING | DDIR | DILLEGAL.

Section Calls.
(** What the kernel answers, given the calls before. *)
Context (kernel : syslog -> sysev -> Z).

Definition sys (e : sysev) : sysM Z := fun log => let r := kernel log e in Ret (r, log ++ [(e, r)]).

(** [stat] answers 0 for a directory, 1 for anything else that is there, 2 for
    ENOENT and another number for another error. *)
Definition getPathDirStatus (path : bytes) : sysM DirStatus :=
  r ← sys (Stat path);
  mret (if r =? 0 then DDIR else if r =? 2 then DMISSING else DILLEGAL).

(** The last slash after the first byte, or 0. *)
Fixpoint last_slash (n : nat) (path : bytes) : outcome Z :=
  match n with
  | O => Ret 0
  | S n' => c ← rd_mem path (Z.of_nat n); if c =? slash then Ret (Z.of_nat n) else last_slash n' path
  end.

(** The loops over the slashes before a component and over the component. *)
Fixpoint skip_slashes (fuel : nat) (cpath : bytes) (p : Z) : outcome Z :=
  match fuel with
  | O => Diverge
  | S fuel' => c ← rd_mem cpath p; if negb (c =? 0) && (c =? slash) then skip_slashes fuel' cpath (p + 1) else Ret p
  end.

Fixpoint next_slash (fuel : nat) (cpath : bytes) (p : Z) : outcome Z :=
  match fuel with
  | O => Diverge
  | S fuel' => c ← rd_mem cpath p; if negb (c =? slash) then next_slash fuel' cpath (p + 1) else Ret p
  end.

(** The calls that label what is created at a path, when there is a handle. *)
Definition set_context (sehnd : bool) (path : bytes) (mode : Z) : sysM bool :=
  if sehnd then
    secontext ← sys (SelabelLookup path mode);
    _ ← sys SetFsCreateCon;
    mret (negb (secontext =? 0))
  else mret false.

Definition reset_context (secontext : bool) : sysM unit := if secontext then _ ← sys ResetFsCreateCon; mret tt else mret tt.

(** One level of the path: 0, or -1 for a failure. *)
Definition make_level (timestamp sehnd : bool) (mode : Z) (path : bytes) : sysM Z :=
  ds ← getPathDirStatus path;
  match ds with
  | DILLEGAL => mret (-1)
  | DDIR => mret 0
  | DMISSING =>
      secontext ← set_context sehnd path mode;
      err ← sys (Mkdir path mode);
      _ ← reset_context secontext;
      if negb (err =? 0) then mret (-1)
      else if (timestamp : bool) then r ← sys (Utime path); mret (if negb (r =? 0) then -1 else 0)
      else mret 0
  end.

Fixpoint walk_levels (fuel : nat) (timestamp sehnd : bool) (mode : Z) (cpath : bytes) (p : Z) : sysM Z :=
  match fuel with
  | O => perform Diverge
  | S fuel' =>
      p ← perform (skip_slashes (S (length cpath)) (c_str cpath) p);
      c ← perform (rd_mem (c_str cpath) p);
      if c =? 0 then mret 0
      else
        p ← perform (next_slash (S (length cpath)) (c_str cpath) p);
        r ← make_level timestamp sehnd mode (take (Z.to_nat p) cpath);
        if negb (r =? 0) then mret (-1) else walk_levels fuel' timestamp sehnd mode cpath p
  end.

Definition dirCreateHierarchy (path : bytes) (mode : Z) (timestamp stripFileName sehnd : bool) : sysM Z :=
  if strlen path =? 0 then mret (-1)
  else
    m ← sys (Malloc (strlen path + 2));
    if m =? 0 then mret (-1)
    else
      c ← perform (if stripFileName then last_slash (length path - 1) path else Ret 0);
      if stripFileName && (c =? 0) then mret (-1)
      else
        let cpath := if stripFileName then take (Z.to_nat (c + 1)) path else path ++ [slash] in
        ds ← getPathDirStatus cpath;
        match ds with
        | DDIR => mret 0
        | DILLEGAL => mret (-1)
        | DMISSING => walk_levels (S (length cpath)) timestamp sehnd mode cpath 0
        end.

(** The loop of [writeProcessFunction]. Each round writes a byte or more, so
    [dataLen] rounds are enough. *)
Fixpoint write_out_loop (fuel : nat) (data : bytes) (off soFar dataLen : Z) : sysM bool :=
  match fuel with
  | O => perform Diverge
  | S fuel' =>
      b ← perform (sub_bytes data (off + soFar) (u64 (dataLen - soFar)));
      n ← sys (Write b);
      if n <=? 0 then mret false
      else if soFar + n =? dataLen then mret true
      else if dataLen <? soFar + n then mret false
      else write_out_loop fuel' data off (soFar + n) dataLen
  end.

Definition writeProcessFunction : ProcessFunction syslog := fun data off dataLen =>
  if dataLen =? 0 then (mret true : sysM bool) else write_out_loop (S (Z.to_nat dataLen)) data off 0 dataLen.

Definition mzIsZipEntrySymlink (e : ZipEntry) : bool :=
  if Z.land (versionMadeBy e) 0xff00 =? CENVEM_UNIX
  then Z.land (Z.shiftr (externalFileAttributes e) 16) 0xf000 =? 0xa000 else false.

(** What [realloc] gives behind the old contents. *)
Context (junk : nat -> Z).

Record MzPathHelper := mk_MzPathHelper {
  targetDirLen : Z;
  zipDirLen : Z;
  pathBuf : option bytes
}.

Definition bufLen (h : MzPathHelper) : Z := match pathBuf h with Some b => Z.of_nat (length b) | None => 0 end.

Definition realloc_buf (buf : option bytes) (n : nat) : bytes :=
  let old := default [] buf in take n old ++ (junk <$> seq (length old) (n - length old)).

(** The room for a path. *)
Definition grow_path (h : MzPathHelper) (needLen : Z) : sysM (option bytes) :=
  if bufLen h <? needLen then
    m ← sys (Malloc (needLen * 2));
    mret (if m =? 0 then None else Some (realloc_buf (pathBuf h) (Z.to_nat (needLen * 2))))
  else mret (pathBuf h).

(** The buffer with the target directory and a slash, and its length. *)
Definition start_path (targetDir : bytes) (len : Z) (buf : bytes) : outcome (bytes * Z) :=
  buf ← copy_to buf 0 (c_str targetDir) 0 len;
  last ← (if len =? 0 then Ret 0 else rd_mem buf (len - 1));
  if (len =? 0) || negb (last =? slash) then buf ← st_mem buf len slash; Ret (buf, len + 1)
  else Ret (buf, len).

(** The target path of an entry, and the helper with it in its buffer. *)
Definition targetEntryPath (targetDir : bytes) (a : ZipArchive) (h : MzPathHelper) (e : ZipEntry) : sysM (option bytes * MzPathHelper) :=
  let firstTime := match pathBuf h with None => true | _ => false end in
  let needLen := i32 (targetDirLen h + 1 + fileNameLen e - zipDirLen h + 1) in
  b ← grow_path h needLen;
  match b with
  | None => mret (None, h)
  | Some buf =>
      '(buf, len) ← perform (if (firstTime : bool) then start_path targetDir (targetDirLen h) buf else Ret (buf, targetDirLen h));
      let n := fileNameLen e - zipDirLen h in
      buf ← perform (copy_to buf len (addr a) (fileName e + zipDirLen h) n);
      buf ← perform (st_mem buf (len + n) 0);
      mret (Some (cstring buf), mk_MzPathHelper len (zipDirLen h) (Some buf))
  end.

Section Recursive.
Context {zstream : Type} (inflateInit2 : bytes -> option zstream) (inflate : zstream -> Z -> Z * bytes * zstream).
Context (fuel : nat) (a : ZipArchive) (targetDir : bytes) (timestamp callback sehnd : bool).

Definition mzExtractZipEntryToFile (e : ZipEntry) : sysM bool := fun log =>
  mzProcessZipEntryContents inflateInit2 inflate fuel a e writeProcessFunction log.

(** What follows an entry. *)
Inductive extract_result := Next | Break (ok : bool).

(** Creates, fills and closes the file of an entry. The failures after the file
    was opened set the inner [ok], so that the function's own is still true. *)
Definition extract_file (e : ZipEntry) (targetFile : bytes) : sysM extract_result :=
  ret ← dirCreateHierarchy targetFile UNZIP_DIRMODE timestamp true sehnd;
  if negb (ret =? 0) then mret (Break false)
  else
    secontext ← set_context sehnd targetFile UNZIP_FILEMODE;
    fd ← sys (Open targetFile UNZIP_FILEMODE);
    _ ← reset_context secontext;
    if fd <? 0 then mret (Break false)
    else
      ok ← mzExtractZipEntryToFile e;
      ok ← (if (ok : bool) then r ← sys Fsync; mret (r =? 0) else mret false);
      c ← sys Close;
      let ok := if negb (c =? 0) then false else ok in
      if negb ok then mret (Break true)
      else if (timestamp : bool) then r ← sys (Utime targetFile); mret (if negb (r =? 0) then Break true else Next)
      else mret Next.

(** An entry whose name starts with the directory. [fileNameLen] is unsigned. *)
Definition extract_entry (h : MzPathHelper) (e : ZipEntry) : sysM (extract_result * MzPathHelper) :=
  '(targetFile, h) ← targetEntryPath targetDir a h e;
  match targetFile with
  | None => mret (Break false, h)
  | Some targetFile =>
      last ← perform (rd_mem (addr a) (fileName e + u32 (fileNameLen e - 1)));
      r ← (if negb (last =? slash) then extract_file e targetFile else mret Next);
      match r with
      | Break ok => mret (Break ok, h)
      | Next => _ ← (if (callback : bool) then sys (Callback targetFile) else mret 0); mret (Next, h)
      end
  end.

Fixpoint extract_loop (n : nat) (i : Z) (es : list ZipEntry) (zpath : bytes) (seenMatch : bool) (h : MzPathHelper) : sysM bool :=
  match n with
  | O => mret true
  | S n' =>
      e ← perform (zip_entry es i);
      d ← perform (if fileNameLen e <? strlen zpath then Ret 1 else strncmp (length zpath) (addr a) (fileName e) (c_str zpath) 0);
      if negb (d =? 0) then
        if (seenMatch : bool) then mret true else extract_loop n' (i + 1) es zpath seenMatch h
      else
        '(r, h) ← extract_entry h e;
        match r with
        | Break ok => mret ok
        | Next => extract_loop n' (i + 1) es zpath true h
        end
  end.

Definition mzExtractRecursive (zipDir : bytes) : sysM bool :=
  if match zipDir with c :: _ => c =? slash | [] => false end then mret false
  else if negb match targetDir with c :: _ => c =? slash | [] => false end then mret false
  else
    m ← sys (Malloc (strlen zipDir + 2));
    if m =? 0 then mret false
    else
      let zpath := match last zipDir with Some c => if negb (c =? slash) then zipDir ++ [slash] else zipDir | None => [] end in
      match zipEntries a with
      | Ptr es => extract_loop (Z.to_nat (numZipEntries a)) 0 es zpath false (mk_MzPathHelper (strlen targetDir) (strlen zpath) None)
      | _ => if numZipEntries a =? 0 then mret true else perform (Fault NullDeref)
      end.
End Recursive.
End Calls.
