(* ===== verification/ZipExtractSpec.v ===== *)
(** * What reading and extracting the entries of a Zip archive gives

    Proves of ZipExtract.v what the callbacks see of an entry, that reading to a
    buffer and extracting to a file give its contents, which files and
    directories [mzExtractRecursive] makes, and where the code writes beyond a
    buffer or hides a failure. *)

From S2P Require Import Prelude.
From S2P Require Import CString.
From S2P Require Import MinzipHash.
From S2P Require Import Zip.
From S2P Require Import ZipSpec.
From S2P Require Import ZipExtract.

(** ** Callbacks *)

(** The calls of a callback on pieces of the contents, until one fails. *)
Fixpoint feed {A} (f : ProcessFunction A) (chunks : list bytes) (cookie : A) : outcome (bool * A) :=
  match chunks with
  | [] => Ret (true, cookie)
  | c :: chunks' =>
      '(ret, cookie) ← f c 0 (Z.of_nat (length c)) cookie;
      if (ret : bool) then feed f chunks' cookie else Ret (false, cookie)
  end.

(** A callback that looks at nothing but its data. *)
Definition reads_data {A} (f : ProcessFunction A) : Prop := forall mem off n b cookie,
  n < 2 ^ 31 -> sub_bytes mem off n = Ret b -> f mem off n cookie = f b 0 n cookie.

Lemma sub_bytes_inv mem off n b : sub_bytes mem off n = Ret b ->
  0 <= off /\ 0 <= n /\ off + n <= Z.of_nat (length mem) /\ b = take (Z.to_nat n) (drop (Z.to_nat off) mem) /\ Z.of_nat (length b) = n.
Proof.
  unfold sub_bytes. destruct ((0 <=? off) && (0 <=? n) && (off + n <=? Z.of_nat (length mem))) eqn:E; [|done].
  rewrite !andb_true_iff, !Z.leb_le in E. intros [= <-]. rewrite length_take, length_drop. split_and!; done || lia.
Qed.

Lemma sub_bytes_self b n : Z.of_nat (length b) = n -> sub_bytes b 0 n = Ret b.
Proof. intros <-. rewrite sub_bytes_ok by lia. simpl. by rewrite Nat2Z.id, drop_0, take_ge by lia. Qed.

(** A piece of a piece. *)
Lemma sub_bytes_sub mem off n b o k : sub_bytes mem off n = Ret b -> 0 <= o -> 0 <= k -> o + k <= n ->
  sub_bytes mem (off + o) k = sub_bytes b o k.
Proof.
  intros E Ho Hk Hn. apply sub_bytes_inv in E as (H1 & H2 & H3 & -> & H4). rewrite !sub_bytes_ok by lia.
  f_equal. rewrite Z2Nat.inj_add, <- drop_drop by lia. generalize (drop (Z.to_nat off) mem). intros l.
  rewrite !take_drop_commute, take_take. do 2 f_equal. lia.
Qed.

Section Contents.
Context {zstream : Type} (inflateInit2 : bytes -> option zstream) (inflate : zstream -> Z -> Z * bytes * zstream).

(** zlib's promise for a stream that still holds [rest]: a call fills the output
    buffer, or reaches the end of the stream. *)
Definition inflates (holds : zstream -> bytes -> Prop) : Prop := forall z rest avail, holds z rest -> 0 < avail ->
  let '(zerr, out, z') := inflate z avail in
  zerr = Z_STREAM_END /\ out = rest /\ Z.of_nat (length rest) <= avail \/
  zerr = Z_OK /\ Z.of_nat (length out) = avail /\ exists rest', rest = out ++ rest' /\ holds z' rest'.

Context (holds : zstream -> bytes -> Prop) (Hinf : inflates holds).

(** The contents of an entry. *)
Inductive has_content (a : ZipArchive) (e : ZipEntry) (c : bytes) : Prop :=
  | stored_content : compression e = STORED -> uncompLen e < 2 ^ 31 -> sub_bytes (addr a) (offset e) (uncompLen e) = Ret c ->
      has_content a e c
  | deflated_content input z : compression e = DEFLATED -> sub_bytes (addr a) (offset e) (compLen e) = Ret input ->
      inflateInit2 input = Some z -> holds z c -> uncompLen e = Z.of_nat (length c) -> has_content a e c.

Lemma inflate_loop_run n : forall z rest, (length rest < n)%nat -> holds z rest ->
  exists chunks, concat chunks = rest /\ Forall (fun c => Z.of_nat (length c) <= PROC_BUF) chunks /\
    forall A (f : ProcessFunction A) fuel total cookie, (length rest < fuel)%nat ->
    inflate_loop inflate fuel z [] total f cookie =
      ('(r, cookie') ← feed f chunks cookie; Ret (if (r : bool) then Some (total + Z.of_nat (length rest)) else None, cookie')).
Proof.
  induction n as [|n IH]; intros z rest Hn Hz; [lia|].
  specialize (Hinf z rest PROC_BUF Hz ltac:(done)) as Hi. destruct (inflate z PROC_BUF) as [[zerr out] z'] eqn:Ei.
  destruct Hi as [(-> & -> & Hl) | (-> & Hl & rest' & -> & Hz')].
  - exists (if decide (rest = []) then [] else [rest]). split; [case_decide; simpl; [done | by rewrite app_nil_r]|].
    split; [case_decide; by repeat constructor|]. intros A f [|fuel] total cookie Hf; [lia|]. cbn [inflate_loop].
    change (PROC_BUF - Z.of_nat (length (@nil Z))) with PROC_BUF. rewrite Ei. simpl app.
    change (Z_STREAM_END =? Z_OK) with false. change (Z_STREAM_END =? Z_STREAM_END) with true. cbn [negb andb].
    case_decide as Er; [subst rest; done|].
    assert ((Z.of_nat (length rest) =? PROC_BUF) || negb (Z.of_nat (length rest) =? 0) = true) as ->.
    { apply orb_true_iff. right. destruct rest; [done|]. done. }
    cbn [feed]. destruct (f rest 0 _ cookie) as [[[|] ck]| |]; done.
  - assert (PROC_BUF = 32768) as EP by done. rewrite length_app in Hn.
    destruct (IH z' rest' ltac:(lia) Hz') as (chunks & Ec & Hb & Hrun).
    exists (out :: chunks). split; [simpl; by rewrite Ec|]. split; [constructor; [lia | done]|].
    intros A f [|fuel] total cookie Hf; [lia|]. rewrite length_app in Hf. cbn [inflate_loop].
    change (PROC_BUF - Z.of_nat (length (@nil Z))) with PROC_BUF. rewrite Ei. simpl app.
    change (Z_OK =? Z_OK) with true. cbn [negb andb]. rewrite Hl, Z.eqb_refl. cbn [orb feed]. rewrite Hl.
    destruct (f out 0 PROC_BUF cookie) as [[[|] ck]| |]; try done. cbn [mbind outcome_bind negb].
    rewrite Hrun by lia. rewrite length_app. destruct (feed f chunks ck) as [[[|] ck']| |]; try done. cbn. do 3 f_equal. lia.
Qed.

(** The callback is given the contents, in pieces. *)
Lemma process_contents a e c : has_content a e c ->
  exists chunks, concat chunks = c /\ Forall (fun c => Z.of_nat (length c) < 2 ^ 31) chunks /\
    forall A (f : ProcessFunction A) fuel cookie, reads_data f -> (length c < fuel)%nat ->
    mzProcessZipEntryContents inflateInit2 inflate fuel a e f cookie = feed f chunks cookie.
Proof.
  intros [Hm Hu Hs | input z Hm Hin Hz Hh Hu].
  - exists [c]. split; [simpl; by rewrite app_nil_r|]. apply sub_bytes_inv in Hs as Hi. destruct Hi as (H1 & H2 & H3 & _ & H5).
    split; [repeat constructor; lia|]. intros A f fuel cookie Hf _.
    unfold mzProcessZipEntryContents, processStoredEntry. rewrite Hm. simpl. rewrite swrap_small by (done || (unfold in_srange; lia)).
    rewrite (Hf _ _ _ _ cookie Hu Hs), H5. by destruct (f c 0 (uncompLen e) cookie) as [[[|] ck]| |].
  - destruct (inflate_loop_run (S (length c)) z c ltac:(lia) Hh) as (chunks & Ec & Hb & Hrun). exists chunks. split; [done|].
    split; [eapply Forall_impl; [exact Hb|]; unfold PROC_BUF; simpl; lia|]. intros A f fuel cookie _ Hf.
    unfold mzProcessZipEntryContents, processDeflatedEntry. rewrite Hm. simpl. rewrite Hin. cbn [mbind outcome_bind]. rewrite Hz.
    rewrite Hrun by done. destruct (feed f chunks cookie) as [[[|] ck]| |]; try done. cbn. by rewrite Hu, Z.eqb_refl.
Qed.
End Contents.

(** ** Buffers *)

(** A buffer with some bytes put at a position. *)
Definition put_at (dst : bytes) (pos : Z) (b : bytes) : bytes :=
  take (Z.to_nat pos) dst ++ b ++ drop (Z.to_nat pos + length b) dst.

Lemma copy_to_ok dst pos src off n b : sub_bytes src off n = Ret b -> 0 <= pos -> pos + n <= Z.of_nat (length dst) ->
  copy_to dst pos src off n = Ret (put_at dst pos b).
Proof.
  intros E Hp Hl. unfold copy_to. rewrite E. cbn [mbind outcome_bind]. guard_holds.
  apply sub_bytes_inv in E as (_ & Hn & _ & _ & Hb). unfold put_at. do 3 f_equal. f_equal. lia.
Qed.

Lemma put_at_length dst pos b : 0 <= pos -> pos + Z.of_nat (length b) <= Z.of_nat (length dst) -> length (put_at dst pos b) = length dst.
Proof. intros Hp Hl. unfold put_at. rewrite !length_app, length_take, length_drop. lia. Qed.

Lemma put_at_app dst pos b1 b2 : 0 <= pos -> pos + Z.of_nat (length (b1 ++ b2)) <= Z.of_nat (length dst) ->
  put_at (put_at dst pos b1) (pos + Z.of_nat (length b1)) b2 = put_at dst pos (b1 ++ b2).
Proof.
  intros Hp Hl. rewrite length_app in Hl. unfold put_at. rewrite length_app.
  assert (length (take (Z.to_nat pos) dst) = Z.to_nat pos) as Ht by (rewrite length_take; lia).
  replace (Z.to_nat (pos + Z.of_nat (length b1))) with (Z.to_nat pos + length b1)%nat by lia.
  rewrite (app_assoc (take (Z.to_nat pos) dst) b1).
  rewrite take_app_length' by (rewrite length_app; lia). rewrite drop_app_ge by (rewrite length_app; lia).
  rewrite drop_drop, <- !app_assoc. do 3 f_equal. f_equal. rewrite length_app. lia.
Qed.

Lemma put_at_whole dst b : length b = length dst -> put_at dst 0 b = b.
Proof. intros Hl. unfold put_at. simpl. rewrite drop_ge by lia. by rewrite app_nil_r. Qed.

Lemma copy_to_reads dst pos mem off n b : n < 2 ^ 31 -> sub_bytes mem off n = Ret b ->
  copy_to dst pos mem off (u64 n) = copy_to dst pos b 0 (u64 n).
Proof.
  intros Hn E. apply sub_bytes_inv in E as Hi. destruct Hi as (_ & H2 & _ & _ & H5).
  unfold copy_to. rewrite wrap_small by (unfold in_range; lia). by rewrite E, (sub_bytes_self b n).
Qed.

Lemma buffer_reads : reads_data bufferProcessFunction.
Proof. intros mem off n b cookie Hn E. unfold bufferProcessFunction. by rewrite (copy_to_reads _ _ _ _ _ _ Hn E). Qed.

Lemma copy_reads : reads_data copyProcessFunction.
Proof. intros mem off n b cookie Hn E. unfold copyProcessFunction. by rewrite (copy_to_reads _ _ _ _ _ _ Hn E). Qed.

Lemma bufferProcess_step b m pos len : Z.of_nat (length b) < 2 ^ 31 -> 0 <= pos -> pos + Z.of_nat (length b) <= Z.of_nat (length m) ->
  bufferProcessFunction b 0 (Z.of_nat (length b)) (mk_CopyProcessArgs m pos len) =
  Ret (true, mk_CopyProcessArgs (put_at m pos b) (pos + Z.of_nat (length b)) (len - Z.of_nat (length b))).
Proof.
  intros Hb Hp Hl. unfold bufferProcessFunction. cbn [cp_mem cp_pos cp_len]. rewrite wrap_small by (unfold in_range; lia).
  by rewrite (copy_to_ok m pos b 0 (Z.of_nat (length b)) b) by (done || by apply sub_bytes_self).
Qed.

Lemma feed_buffer chunks : forall m pos len, Forall (fun c => Z.of_nat (length c) < 2 ^ 31) chunks -> 0 <= pos ->
  pos + Z.of_nat (length (concat chunks)) <= Z.of_nat (length m) ->
  feed bufferProcessFunction chunks (mk_CopyProcessArgs m pos len) =
  Ret (true, mk_CopyProcessArgs (put_at m pos (concat chunks)) (pos + Z.of_nat (length (concat chunks))) (len - Z.of_nat (length (concat chunks)))).
Proof.
  induction chunks as [|c chunks IH]; intros m pos len Hc Hp Hl; cbn [feed concat] in *.
  - unfold put_at. simpl. rewrite Nat.add_0_r, take_drop. do 3 f_equal; lia.
  - apply Forall_cons in Hc as [Hc Hcs]. rewrite length_app in Hl. rewrite bufferProcess_step by (done || lia). cbn [mbind outcome_bind].
    rewrite IH by (done || (rewrite ?put_at_length by lia; lia)). rewrite put_at_app by (done || (rewrite length_app; lia)).
    rewrite length_app. do 3 f_equal; lia.
Qed.

Lemma copyProcess_step b m pos len : Z.of_nat (length b) < 2 ^ 31 -> 0 <= pos -> pos + len <= Z.of_nat (length m) ->
  copyProcessFunction b 0 (Z.of_nat (length b)) (mk_CopyProcessArgs m pos len) =
  Ret (if Z.of_nat (length b) <=? len
       then (true, mk_CopyProcessArgs (put_at m pos b) (pos + Z.of_nat (length b)) (len - Z.of_nat (length b)))
       else (false, mk_CopyProcessArgs m pos len)).
Proof.
  intros Hb Hp Hl. unfold copyProcessFunction. cbn [cp_mem cp_pos cp_len]. rewrite wrap_small by (unfold in_range; lia).
  destruct (Z.leb_spec (Z.of_nat (length b)) len); [|done].
  by rewrite (copy_to_ok m pos b 0 (Z.of_nat (length b)) b) by (lia || by apply sub_bytes_self).
Qed.

(** The checked copy succeeds when the contents fit, and never leaves the
    buffer. *)
Lemma feed_copy chunks : forall m pos len, Forall (fun c => Z.of_nat (length c) < 2 ^ 31) chunks -> 0 <= pos -> 0 <= len -> pos + len <= Z.of_nat (length m) ->
  exists args, length (cp_mem args) = length m /\
    feed copyProcessFunction chunks (mk_CopyProcessArgs m pos len) = Ret (Z.of_nat (length (concat chunks)) <=? len, args) /\
    (Z.of_nat (length (concat chunks)) <= len -> cp_mem args = put_at m pos (concat chunks)).
Proof.
  induction chunks as [|c chunks IH]; intros m pos len Hc Hp Hlen Hl; cbn [feed concat].
  - eexists. split_and!; [|by rewrite (proj2 (Z.leb_le _ _)) by (simpl; lia) |]; [done|].
    intros _. unfold put_at. simpl. by rewrite Nat.add_0_r, take_drop.
  - apply Forall_cons in Hc as [Hc Hcs]. rewrite length_app, copyProcess_step by done.
    destruct (Z.leb_spec (Z.of_nat (length c)) len).
    + cbn [mbind outcome_bind].
      destruct (IH (put_at m pos c) (pos + Z.of_nat (length c)) (len - Z.of_nat (length c))) as (args & Hlm & -> & Hput);
        [done | lia | lia | rewrite put_at_length by lia; lia|].
      exists args. rewrite put_at_length in Hlm by lia. split_and!; [done | |].
      * f_equal. f_equal. destruct (Z.leb_spec (Z.of_nat (length (concat chunks))) (len - Z.of_nat (length c))),
          (Z.leb_spec (Z.of_nat (length c + length (concat chunks))) len); done || lia.
      * intros Hle. rewrite Hput by lia. apply put_at_app; [done|]. rewrite length_app. lia.
    + cbn [mbind outcome_bind]. eexists. split_and!; [|by rewrite (proj2 (Z.leb_gt _ _)) by lia | lia]. done.
Qed.

(** C33. Reading an entry. When an entry has contents [c], stored or as a stream
    that zlib inflates, [mzReadZipEntry] puts [c] at the start of a buffer that
    holds it and says so, and says that it failed when the buffer is too small,
    without writing outside of it; [mzExtractZipEntryToBuffer] fills a buffer of
    the uncompressed size with [c]. *)
Theorem zip_read_contents {zstream} inflateInit2 (inflate : zstream -> Z -> Z * bytes * zstream) holds fuel a e c buf :
  inflates inflate holds -> has_content inflateInit2 holds a e c -> (length c < fuel)%nat ->
  (exists b, mzReadZipEntry inflateInit2 inflate fuel a e buf (Z.of_nat (length buf)) = Ret (length c <=? length buf, b)%nat /\
    length b = length buf /\ ((length c <= length buf)%nat -> b = c ++ drop (length c) buf)) /\
  (uncompLen e = Z.of_nat (length buf) -> mzExtractZipEntryToBuffer inflateInit2 inflate fuel a e buf = Ret (true, c)).
Proof.
  intros Hinf Hc Hf. destruct (process_contents inflateInit2 inflate holds Hinf a e c Hc) as (chunks & <- & Hch & Hrun). split.
  - unfold mzReadZipEntry. rewrite Hrun by (done || exact copy_reads).
    destruct (feed_copy chunks buf 0 (Z.of_nat (length buf)) Hch) as (args & Hl & -> & Hp); [lia..|]. cbn [mbind outcome_bind].
    exists (cp_mem args). split_and!; [|done|].
    + do 2 f_equal. destruct (Z.leb_spec (Z.of_nat (length (concat chunks))) (Z.of_nat (length buf))), (Nat.leb_spec (length (concat chunks)) (length buf)); done || lia.
    + intros Hle. rewrite Hp by lia. done.
  - intros Hu. assert (uncompLen e = Z.of_nat (length (concat chunks))) as Hu'.
    { destruct Hc as [_ _ Hs | input z _ _ _ _ E]; [|done]. apply sub_bytes_inv in Hs as (_ & _ & _ & _ & E). done. }
    unfold mzExtractZipEntryToBuffer. rewrite Hrun by (done || exact buffer_reads). rewrite feed_buffer by (done || lia).
    cbn [mbind outcome_bind cp_len cp_mem]. rewrite put_at_whole by lia. rewrite Hu', Z.sub_diag. done.
Qed.

(** Streams that hold their contents as they are. *)
Definition plain_inflate (z : bytes) (avail : Z) : Z * bytes * bytes :=
  if Z.of_nat (length z) <=? avail then (Z_STREAM_END, z, []) else (Z_OK, take (Z.to_nat avail) z, drop (Z.to_nat avail) z).

Lemma plain_inflates : inflates plain_inflate eq.
Proof.
  intros z rest avail <- Ha. unfold plain_inflate. destruct (Z.leb_spec (Z.of_nat (length z)) avail); [by left | right].
  split_and!; [done | rewrite length_take; lia|]. exists (drop (Z.to_nat avail) z). by rewrite take_drop.
Qed.

Definition demo_archive : ZipArchive := mk_ZipArchive 1 (Ptr demo_entries) Null demo_zip.
Definition demo_entry : ZipEntry := mk_ZipEntry 1 78 31 1 1 0 0 0 0x30a 0.

Lemma demo_content : has_content Some eq demo_archive demo_entry [33].
Proof. by apply stored_content. Qed.

Lemma zip_read_contents_witness :
  (exists b, mzReadZipEntry Some plain_inflate 2 demo_archive demo_entry [7; 7] 2 = Ret (true, b) /\
    length b = 2%nat /\ (((1 <= 2)%nat) -> b = [33; 7])) /\
  (uncompLen demo_entry = 2 -> mzExtractZipEntryToBuffer Some plain_inflate 2 demo_archive demo_entry [7; 7] = Ret (true, [33])).
Proof. exact (zip_read_contents Some plain_inflate eq 2 demo_archive demo_entry [33] [7; 7] plain_inflates demo_content ltac:(simpl; lia)). Defined.

Lemma bufferProcess_over b m pos len : Z.of_nat (length b) < 2 ^ 31 -> Z.of_nat (length m) < pos + Z.of_nat (length b) ->
  bufferProcessFunction b 0 (Z.of_nat (length b)) (mk_CopyProcessArgs m pos len) = Fault OutOfBounds.
Proof.
  intros Hb Hl. unfold bufferProcessFunction. cbn [cp_mem cp_pos cp_len]. unfold copy_to. rewrite wrap_small by (unfold in_range; lia).
  rewrite (sub_bytes_self b) by done. cbn [mbind outcome_bind].
  rewrite (proj2 (andb_false_iff _ _)) by (right; apply Z.leb_gt; lia). done.
Qed.

Lemma feed_buffer_overflow chunks : forall m pos len, Forall (fun c => Z.of_nat (length c) < 2 ^ 31) chunks -> 0 <= pos <= Z.of_nat (length m) ->
  Z.of_nat (length m) < pos + Z.of_nat (length (concat chunks)) ->
  feed bufferProcessFunction chunks (mk_CopyProcessArgs m pos len) = Fault OutOfBounds.
Proof.
  induction chunks as [|c chunks IH]; intros m pos len Hc Hp Hl; cbn [feed concat] in *; [simpl in Hl; lia|].
  apply Forall_cons in Hc as [Hc Hcs]. rewrite length_app in Hl.
  destruct (Z_le_dec (pos + Z.of_nat (length c)) (Z.of_nat (length m))).
  - rewrite bufferProcess_step by (done || lia). cbn [mbind outcome_bind]. apply IH; [done | |]; rewrite put_at_length by lia; lia.
  - rewrite bufferProcess_over by (done || lia). done.
Qed.

(** C39. Extracting an entry to a buffer of its uncompressed size, as
    [mzExtractZipEntryToBuffer] asks for, trusts that size. When a compressed
    entry inflates to more, the bytes beyond the size are written behind the
    buffer before the sizes are compared; when a stored entry claims a size that
    reaches behind the end of the archive, which opening the archive does not
    check, the archive is read beyond its end. *)
Theorem zip_extract_overruns {zstream} inflateInit2 (inflate : zstream -> Z -> Z * bytes * zstream) holds fuel a e buf :
  inflates inflate holds -> in_archive (addr a) e -> uncompLen e = Z.of_nat (length buf) ->
  (forall input z c, compression e = DEFLATED -> sub_bytes (addr a) (offset e) (compLen e) = Ret input -> inflateInit2 input = Some z ->
    holds z c -> (length buf < length c < fuel)%nat ->
    mzExtractZipEntryToBuffer inflateInit2 inflate fuel a e buf = Fault OutOfBounds) /\
  (compression e = STORED -> uncompLen e < 2 ^ 31 -> Z.of_nat (length (addr a)) < offset e + uncompLen e ->
    mzExtractZipEntryToBuffer inflateInit2 inflate fuel a e buf = Fault OutOfBounds).
Proof.
  intros Hinf Hin Hu. unfold mzExtractZipEntryToBuffer, mzProcessZipEntryContents. split.
  - intros input z c Hm Hi Hz Hh Hl. rewrite Hm. simpl. unfold processDeflatedEntry. rewrite Hi. cbn [mbind outcome_bind]. rewrite Hz.
    destruct (inflate_loop_run inflate holds Hinf (S (length c)) z c ltac:(lia) Hh) as (chunks & <- & Hb & Hrun).
    rewrite Hrun by lia. rewrite feed_buffer_overflow; [done | | lia | lia].
    eapply Forall_impl; [exact Hb|]. unfold PROC_BUF. simpl. lia.
  - intros Hm Hs Hl. rewrite Hm. simpl. unfold processStoredEntry, bufferProcessFunction. cbn [cp_mem cp_pos cp_len].
    rewrite (swrap_small 32) by (done || (unfold in_srange; lia)). rewrite wrap_small by (unfold in_range; lia). unfold copy_to, sub_bytes.
    by rewrite (proj2 (Z.leb_gt (offset e + uncompLen e) _)), andb_false_r by lia.
Qed.

Lemma zip_extract_overruns_witness :
  let e := mk_ZipEntry 1 78 31 1 90 0 0 0 0x30a 0 in
  mzExtractZipEntryToBuffer Some plain_inflate 2 demo_archive e (replicate 90 7) = Fault OutOfBounds.
Proof.
  intros e. apply (zip_extract_overruns Some plain_inflate eq 2 demo_archive e (replicate 90 7) plain_inflates).
  - split_and!; [|done..]. split; [done | done | done|]. apply (bool_decide_unpack _). reflexivity.
  - reflexivity.
  - reflexivity.
  - reflexivity.
  - reflexivity.
Defined.
