(* ===== verification/ZipTreeSpec.v ===== *)
(** * Which files and directories extracting an archive makes

    Proves of [dirCreateHierarchy] and [mzExtractRecursive] of ZipExtract.v which
    system calls they make: the levels of a path from the root, and for every
    entry under the directory, and no other, a file of its contents; and that
    [mzExtractRecursive] reports success when a file could not be written. *)

From S2P Require Import Prelude.
From S2P Require Import CString.
From S2P Require Import MinzipHash.
From S2P Require Import Zip.
From S2P Require Import ZipSpec.
From S2P Require Import ZipExtract.
From S2P Require Import ZipExtractSpec.

(** ** Paths *)

(** The levels of a path that ends after a slash: what is before a slash that
    ends a component, from the [p]th byte on. *)
Definition level_ends (cpath : bytes) (i : nat) : Prop :=
  cpath !! i = Some slash /\ exists c, cpath !! pred i = Some c /\ c <> slash /\ i <> 0%nat.

Lemma rd_c_str s i : 0 <= i <= Z.of_nat (length s) -> rd_mem (c_str s) i = Ret (default 0 (s !! Z.to_nat i)).
Proof.
  intros Hi. unfold c_str. rewrite rd_mem_ok by (rewrite length_app; simpl; lia). f_equal.
  destruct (s !! Z.to_nat i) as [x|] eqn:E; simpl.
  - apply rd_lookup. by apply lookup_app_l_Some.
  - apply lookup_ge_None in E. apply rd_lookup. rewrite lookup_app_r by lia.
    by replace (Z.to_nat i - length s)%nat with 0%nat by lia.
Qed.

Section Slashes.
Context (s : bytes) (Hs : cstr_ok s) (Hlast : last s = Some slash).

Lemma nonzero i c : s !! i = Some c -> (c =? 0) = false.
Proof.
  intros E. apply Z.eqb_neq. unfold cstr_ok in Hs. rewrite Forall_lookup in Hs.
  specialize (Hs i c E). lia.
Qed.

Lemma skip_slashes_run fuel : forall p, (p <= length s)%nat -> (length s - p < fuel)%nat ->
  exists q, skip_slashes fuel (c_str s) (Z.of_nat p) = Ret (Z.of_nat q) /\ (p <= q <= length s)%nat /\
    (forall i, (p <= i < q)%nat -> s !! i = Some slash) /\ s !! q <> Some slash.
Proof.
  induction fuel as [|fuel IH]; intros p Hp Hf; [lia|]. cbn [skip_slashes]. rewrite rd_c_str, Nat2Z.id by lia. cbn [mbind outcome_bind].
  destruct (s !! p) as [c|] eqn:E; simpl.
  - rewrite (nonzero p c E). cbn [negb andb]. destruct (Z.eqb_spec c slash) as [->|Hne].
    + apply lookup_lt_Some in E as Hl. replace (Z.of_nat p + 1) with (Z.of_nat (S p)) by lia.
      destruct (IH (S p)) as (q & Eq & Hq & Hi & Hn); [lia | lia|]. exists q. split_and!; try done; try lia.
      intros i Hi'. destruct (decide (i = p)) as [->|]; [done | apply Hi; lia].
    + exists p. split_and!; try done; try lia. by intros [= ->]%(eq_trans (eq_sym E)).
  - exists p. split_and!; try done; try lia. by rewrite E.
Qed.

Lemma next_slash_run fuel : forall p, (p < length s)%nat -> (length s - p < fuel)%nat ->
  exists q, next_slash fuel (c_str s) (Z.of_nat p) = Ret (Z.of_nat q) /\ (p <= q < length s)%nat /\
    (forall i, (p <= i < q)%nat -> s !! i <> Some slash) /\ s !! q = Some slash.
Proof.
  induction fuel as [|fuel IH]; intros p Hp Hf; [lia|]. cbn [next_slash]. rewrite rd_c_str, Nat2Z.id by lia. cbn [mbind outcome_bind].
  destruct (lookup_lt_is_Some_2 s p Hp) as [c E]. rewrite E. simpl. destruct (Z.eqb_spec c slash) as [->|Hne]; cbn [negb].
  - exists p. split_and!; try done; lia.
  - rewrite last_lookup in Hlast.
    assert (S p < length s)%nat as Hp'.
    { destruct (decide (S p = length s)) as [Hx|]; [|lia]. rewrite <- Hx in Hlast. simpl in Hlast. rewrite E in Hlast. by injection Hlast. }
    replace (Z.of_nat p + 1) with (Z.of_nat (S p)) by lia. destruct (IH (S p)) as (q & Eq & Hq & Hi & Hn); [lia | lia|].
    exists q. split_and!; try done; try lia. intros i Hi'.
    destruct (decide (i = p)) as [->|]; [rewrite E; by intros [= ->] | apply Hi; lia].
Qed.
End Slashes.

(** ** System calls *)

Lemma sysM_bind_run {A B} (m : sysM A) (k : A -> sysM B) log x ev1 y ev2 :
  m log = Ret (x, log ++ ev1) -> k x (log ++ ev1) = Ret (y, (log ++ ev1) ++ ev2) -> (m ≫= k) log = Ret (y, log ++ ev1 ++ ev2).
Proof. intros E1 E2. unfold mbind, sysM_bind. by rewrite E1, E2, app_assoc. Qed.

Lemma sysM_perform {A B} (o : outcome A) (k : A -> sysM B) log x : o = Ret x -> (perform o ≫= k) log = k x log.
Proof. by intros ->. Qed.

Lemma sys_run kernel e log : sys kernel e log = Ret (kernel log e, log ++ [(e, kernel log e)]).
Proof. done. Qed.

(** The files that the calls of a log leave: each opened file with what was
    written to it. *)
Definition file_step (fs : list (bytes * bytes)) (x : sysev * Z) : list (bytes * bytes) :=
  match x with
  | (Open path _, r) => if 0 <=? r then fs ++ [(path, [])] else fs
  | (Write b, r) => match last fs with
                    | Some (path, c) => removelast fs ++ [(path, c ++ take (Z.to_nat r) b)]
                    | None => fs
                    end
  | _ => fs
  end.
Definition files_of (log : syslog) : list (bytes * bytes) := fold_left file_step log [].

(** Calls that do not touch a file. *)
Definition quiet (ev : syslog) : Prop := Forall (fun x => match x.1 with Open _ _ | Write _ => False | _ => True end) ev.

Lemma quiet_app ev1 ev2 : quiet (ev1 ++ ev2) <-> quiet ev1 /\ quiet ev2.
Proof. apply Forall_app. Qed.

Lemma quiet_files ev fs : quiet ev -> fold_left file_step ev fs = fs.
Proof. unfold quiet. intros Hq. revert fs. induction Hq as [|[e r] ev He _ IH]; intros fs; [done|]. simpl. rewrite IH. by destruct e; simpl in He. Qed.

(** A kernel with room for everything: what is missing can be made, and every
    call succeeds; of writing it says nothing. *)
Definition generous (kernel : syslog -> sysev -> Z) : Prop := forall log e,
  match e with
  | Malloc _ => kernel log e <> 0
  | Stat _ => kernel log e = 0 \/ kernel log e = 2
  | Mkdir _ _ | Utime _ | Fsync | Close => kernel log e = 0
  | Open _ _ => 0 <= kernel log e
  | _ => True
  end.

(** A write takes at least one byte, or fails. *)
Definition accepts_writes (kernel : syslog -> sysev -> Z) : Prop :=
  forall log b, b <> [] -> 0 < kernel log (Write b) <= Z.of_nat (length b).
Definition refuses_writes (kernel : syslog -> sysev -> Z) : Prop := forall log b, kernel log (Write b) <= 0.

Section Dirs.
Context (kernel : syslog -> sysev -> Z) (timestamp sehnd : bool) (mode : Z).

Lemma set_context_run path md log : exists r ev, set_context kernel sehnd path md log = Ret (r, log ++ ev) /\ quiet ev.
Proof.
  unfold set_context. destruct sehnd; [|exists false, []; split; [by rewrite app_nil_r | constructor]].
  do 2 eexists. split; [unfold mbind, sysM_bind; rewrite !sys_run; unfold mret, sysM_ret; by rewrite <- app_assoc|]. by repeat constructor.
Qed.

Lemma reset_context_run b log : exists ev, reset_context kernel b log = Ret (tt, log ++ ev) /\ quiet ev.
Proof.
  unfold reset_context. destruct b; [|exists []; split; [by rewrite app_nil_r | constructor]].
  eexists. split; [done|]. by repeat constructor.
Qed.

(** A directory is there: it was found, or was made. *)
Definition dir_there (ev : syslog) (path : bytes) : Prop := (Stat path, 0) ∈ ev \/ (Mkdir path mode, 0) ∈ ev.

Lemma dir_there_app ev1 ev2 path : dir_there ev1 path \/ dir_there ev2 path -> dir_there (ev1 ++ ev2) path.
Proof. unfold dir_there. rewrite !elem_of_app. tauto. Qed.

Lemma make_level_run path log : exists r ev, make_level kernel timestamp sehnd mode path log = Ret (r, log ++ ev) /\ quiet ev /\
  (r = 0 -> dir_there ev path) /\ (generous kernel -> r = 0).
Proof.
  unfold make_level, getPathDirStatus. unfold mbind, sysM_bind, mret, sysM_ret. rewrite sys_run.
  set (r0 := kernel log (Stat path)).
  assert (quiet [(Stat path, r0)]) as Hq0 by by repeat constructor.
  destruct (Z.eqb_spec r0 0) as [E0|N0].
  { exists 0, [(Stat path, r0)]. split_and!; try done. intros _. left. rewrite E0. by apply list_elem_of_singleton. }
  destruct (Z.eqb_spec r0 2) as [E2|N2].
  2: { exists (-1), [(Stat path, r0)]. split_and!; try done. intros Hg. specialize (Hg log (Stat path)). simpl in Hg. fold r0 in Hg. lia. }
  destruct (set_context_run path mode (log ++ [(Stat path, r0)])) as (sc & ev1 & -> & Hq1). rewrite sys_run.
  set (err := kernel _ (Mkdir path mode)).
  destruct (reset_context_run sc (((log ++ [(Stat path, r0)]) ++ ev1) ++ [(Mkdir path mode, err)])) as (ev2 & -> & Hq2).
  assert (generous kernel -> err = 0) as Hg1 by (intros Hg; apply (Hg _ (Mkdir path mode))).
  assert (quiet ([(Stat path, r0)] ++ ev1 ++ [(Mkdir path mode, err)] ++ ev2)) as Hq
    by (rewrite !quiet_app; split_and!; try done; by repeat constructor).
  assert (err = 0 -> dir_there ([(Stat path, r0)] ++ ev1 ++ [(Mkdir path mode, err)] ++ ev2) path) as Hd.
  { intros ->. right. rewrite !elem_of_app, !list_elem_of_singleton. tauto. }
  destruct (Z.eqb_spec err 0) as [Ee|Ne]; cbn [negb].
  - destruct timestamp.
    + rewrite sys_run. set (ru := kernel _ (Utime path)).
      exists (if negb (ru =? 0) then -1 else 0), (([(Stat path, r0)] ++ ev1 ++ [(Mkdir path mode, err)] ++ ev2) ++ [(Utime path, ru)]).
      split_and!.
      * by rewrite <- !app_assoc.
      * rewrite quiet_app. split; [done | by repeat constructor].
      * intros _. apply dir_there_app. left. by apply Hd.
      * intros Hg. assert (ru = 0) as -> by apply (Hg _ (Utime path)). done.
    + exists 0, ([(Stat path, r0)] ++ ev1 ++ [(Mkdir path mode, err)] ++ ev2). split_and!; try done; [by rewrite <- !app_assoc | intros _; by apply Hd].
  - exists (-1), ([(Stat path, r0)] ++ ev1 ++ [(Mkdir path mode, err)] ++ ev2). split_and!; try done; [by rewrite <- !app_assoc|].
    intros Hg. by apply Hg1 in Hg.
Qed.

Lemma walk_levels_run cpath : cstr_ok cpath -> last cpath = Some slash -> forall fuel p log,
  (p <= length cpath)%nat -> (length cpath - p < fuel)%nat -> p = 0%nat \/ cpath !! p = Some slash ->
  exists r ev, walk_levels kernel fuel timestamp sehnd mode cpath (Z.of_nat p) log = Ret (r, log ++ ev) /\ quiet ev /\
    (r = 0 -> forall i, (p < i)%nat -> level_ends cpath i -> dir_there ev (take i cpath)) /\ (generous kernel -> r = 0).
Proof.
  intros Hok Hlast. induction fuel as [|fuel IH]; intros p log Hp Hf Hst; [lia|]. cbn [walk_levels].
  destruct (skip_slashes_run cpath Hok (S (length cpath)) p Hp ltac:(lia)) as (p1 & E1 & Hp1 & Hs1 & Hn1).
  rewrite (sysM_perform _ _ _ _ E1), (sysM_perform _ _ _ _ (rd_c_str cpath (Z.of_nat p1) ltac:(lia))), Nat2Z.id.
  destruct (cpath !! p1) as [c|] eqn:Ec.
  - change (default 0 (Some c)) with c. apply lookup_lt_Some in Ec as Hl1. rewrite (nonzero cpath Hok p1 c Ec).
    destruct (next_slash_run cpath Hlast (S (length cpath)) p1 Hl1 ltac:(lia)) as (q & E2 & Hq & Hs2 & Hn2).
    rewrite (sysM_perform _ _ _ _ E2), Nat2Z.id.
    assert (p1 < q)%nat as Hlt by (destruct (decide (q = p1)) as [->|]; [by rewrite Ec in Hn2 | lia]).
    destruct (make_level_run (take q cpath) log) as (r & ev & E & Hqt & Hd & Hg).
    destruct (Z.eqb_spec r 0) as [Er|Nr].
    + destruct (IH q (log ++ ev) ltac:(lia) ltac:(lia) (or_intror Hn2)) as (r' & ev' & E' & Hqt' & Hd' & Hg').
      exists r', (ev ++ ev'). split_and!.
      * eapply sysM_bind_run; [exact E|]. rewrite Er. simpl. exact E'.
      * by rewrite quiet_app.
      * intros Hr i Hi Hlv. apply dir_there_app. destruct (Nat.lt_trichotomy i q) as [Hiq|[->|Hiq]]; [|left; by apply Hd | right; by apply Hd'].
        exfalso. destruct Hlv as (Hi1 & c' & Hi2 & Hc' & Hi0). destruct (decide (i < p1)%nat).
        -- specialize (Hs1 (pred i) ltac:(lia)). congruence.
        -- by apply (Hs2 i); [lia|].
      * done.
    + exists (-1), (ev ++ []). split_and!; [|by rewrite app_nil_r | done | intros Hgk; by apply Hg in Hgk].
      eapply sysM_bind_run; [exact E|]. destruct (Z.eqb_spec r 0); [done|]. simpl. by rewrite app_nil_r.
  - exists 0, []. split_and!; [by rewrite app_nil_r | constructor | | done].
    intros _ i Hi (Hi1 & c' & Hi2 & Hc' & Hi0). exfalso. apply lookup_ge_None in Ec. apply lookup_lt_Some in Hi1 as Hil.
    assert (cpath !! pred i = Some slash) as Hx by (apply Hs1; lia). congruence.
Qed.

Lemma last_slash_run path n : (n < length path)%nat ->
  exists c, last_slash n path = Ret (Z.of_nat c) /\ (c <= n)%nat /\ (c <> 0%nat -> path !! c = Some slash) /\
    forall i, (c < i <= n)%nat -> path !! i <> Some slash.
Proof.
  clear. induction n as [|n IH]; intros Hn; [exists 0%nat; split_and!; done || lia|]. cbn [last_slash].
  rewrite rd_mem_ok by lia. cbn [mbind outcome_bind]. destruct (lookup_lt_is_Some_2 path (S n) Hn) as [x Ex].
  rewrite (rd_lookup path (Z.of_nat (S n)) x) by (by rewrite Nat2Z.id).
  destruct (Z.eqb_spec x slash) as [->|Hne]; [exists (S n); split_and!; done || lia|].
  destruct (IH ltac:(lia)) as (c & E & Hc & Hs & Hi). exists c. split_and!; try done; try lia.
  intros i Hi'. destruct (decide (i = S n)) as [->|]; [rewrite Ex; by intros [= ->] | apply Hi; lia].
Qed.

(** The directory that is to be made for a path: the path itself, or, when its
    file name is stripped, what is before the file name, unless that is the
    root. *)
Definition dir_of (strip : bool) (path d : bytes) : Prop :=
  if strip then exists f, path = d ++ f /\ last d = Some slash /\ (slash ∉ f) /\ (2 <= length d)%nat
  else d = path ++ [slash] /\ path <> [].

Lemma strip_dir path c : (c < length path)%nat -> path !! c = Some slash -> c <> 0%nat ->
  (forall i, (c < i <= length path - 1)%nat -> path !! i <> Some slash) -> dir_of true path (take (S c) path).
Proof.
  clear. intros Hc Es Hnz Hi. exists (drop (S c) path). split_and!.
  - by rewrite take_drop.
  - rewrite last_lookup, length_take. replace (pred (S c `min` length path)) with c by lia. by rewrite lookup_take_lt by lia.
  - intros Hin. apply list_elem_of_lookup in Hin as [j Hj]. rewrite lookup_drop in Hj. apply lookup_lt_Some in Hj as Hl.
    by apply (Hi (S c + j)%nat); [lia|].
  - rewrite length_take. lia.
Qed.

Lemma strip_dir_unique path d c : dir_of true path d -> (c <= length path - 1)%nat ->
  (forall i, (c < i <= length path - 1)%nat -> path !! i <> Some slash) -> c <> 0%nat.
Proof.
  clear. intros (f & -> & Hl & Hf & Hd) Hc Hi ->. rewrite last_lookup in Hl.
  apply (Hi (pred (length d))); [rewrite length_app; lia|]. rewrite lookup_app_l by lia. done.
Qed.

Lemma dirCreateHierarchy_run strip path log : cstr_ok path ->
  exists r ev, dirCreateHierarchy kernel path mode timestamp strip sehnd log = Ret (r, log ++ ev) /\ quiet ev /\
    (r = 0 -> exists d, dir_of strip path d /\
       ((Stat d, 0) ∈ ev \/ forall i, level_ends d i -> dir_there ev (take i d))) /\
    (generous kernel -> (exists d, dir_of strip path d) -> r = 0).
Proof.
  intros Hok. unfold dirCreateHierarchy, strlen.
  destruct (Z.eqb_spec (Z.of_nat (length path)) 0) as [E0|N0].
  { exists (-1), []. split_and!; [by rewrite app_nil_r | constructor | done|]. intros _ (d & Hd). destruct path; [|simpl in E0; lia].
    destruct strip; [|by destruct Hd]. destruct Hd as (f & Ef & _ & _ & Hl). destruct d; [simpl in Hl; lia | done]. }
  unfold mbind at 1, sysM_bind at 1. rewrite sys_run. set (m := kernel log _). set (ev0 := [(Malloc _, m)]).
  assert (quiet ev0) as Hq0 by by repeat constructor.
  destruct (Z.eqb_spec m 0) as [Em|Nm].
  { exists (-1), ev0. split_and!; try done. intros Hg. specialize (Hg log (Malloc (Z.of_nat (length path) + 2))). simpl in Hg. done. }
  destruct (last_slash_run path (length path - 1)) as (c & Ec & Hc & Hsl & Hi); [lia|].
  rewrite (sysM_perform _ _ _ (if strip then Z.of_nat c else 0)) by (by destruct strip).
  destruct (strip && ((if strip then Z.of_nat c else 0) =? 0)) eqn:Eb.
  { exists (-1), ev0. split_and!; try done. intros _ (d & Hd). destruct strip; [|done]. simpl in Eb. apply Z.eqb_eq in Eb.
    exfalso. apply (strip_dir_unique path d c Hd); [lia | done | lia]. }
  set (d := if strip then take (Z.to_nat ((if strip then Z.of_nat c else 0) + 1)) path else path ++ [slash]).
  assert (dir_of strip path d) as Hd.
  { unfold d. destruct strip; [|split; [done | by intros ->]]. simpl in Eb. apply Z.eqb_neq in Eb.
    replace (Z.to_nat (Z.of_nat c + 1)) with (S c) by lia. apply strip_dir; [lia | apply Hsl; lia | lia | done]. }
  assert (cstr_ok d) as Hdok.
  { unfold d. destruct strip; [by apply cstr_ok_take|]. apply Forall_app. split; [done | repeat constructor; unfold slash; lia]. }
  assert (last d = Some slash) as Hdl by (destruct strip; [by destruct Hd as (? & _ & ? & _) | unfold d; by rewrite last_snoc]).
  unfold getPathDirStatus, mbind, sysM_bind, mret, sysM_ret. rewrite sys_run. set (rs := kernel _ (Stat d)).
  assert (quiet (ev0 ++ [(Stat d, rs)])) as Hq1 by (rewrite quiet_app; split; [done | by repeat constructor]).
  destruct (Z.eqb_spec rs 0) as [Es|Ns].
  { exists 0, (ev0 ++ [(Stat d, rs)]). split_and!; try done; [by rewrite app_assoc|]. intros _. exists d. split; [done|]. left.
    rewrite Es, elem_of_app, !list_elem_of_singleton. by right. }
  destruct (Z.eqb_spec rs 2) as [E2|N2].
  - destruct (walk_levels_run d Hdok Hdl (S (length d)) 0 ((log ++ ev0) ++ [(Stat d, rs)])) as (r & ev & E & Hq & Hlv & Hg);
      [lia | lia | by left|].
    exists r, ((ev0 ++ [(Stat d, rs)]) ++ ev). split_and!.
    + change (Z.of_nat 0) with 0 in E. rewrite E. by rewrite <- !app_assoc.
    + by rewrite quiet_app.
    + intros Hr. exists d. split; [done|]. right. intros i Hli. apply dir_there_app. right. apply Hlv; [done | | done].
      destruct Hli as (_ & ? & _ & _ & ?). lia.
    + by intros Hgk _; apply Hg.
  - exists (-1), (ev0 ++ [(Stat d, rs)]). split_and!; try done; [by rewrite app_assoc|].
    intros Hg _. specialize (Hg (log ++ ev0) (Stat d)). simpl in Hg. fold rs in Hg. lia.
Qed.
End Dirs.

(** ** Files *)

Lemma file_step_write fs path c b r : file_step (fs ++ [(path, c)]) (Write b, r) = fs ++ [(path, c ++ take (Z.to_nat r) b)].
Proof. simpl. by rewrite last_snoc, removelast_last. Qed.

Section Files.
Context (kernel : syslog -> sysev -> Z).

(** Writing appends the data to the open file. *)
Definition appends (ev : syslog) (b : bytes) : Prop :=
  forall fs path c, fold_left file_step ev (fs ++ [(path, c)]) = fs ++ [(path, c ++ b)].

Lemma appends_nil : appends [] [].
Proof. intros fs path c. simpl. by rewrite app_nil_r. Qed.

Lemma appends_app ev1 ev2 b1 b2 : appends ev1 b1 -> appends ev2 b2 -> appends (ev1 ++ ev2) (b1 ++ b2).
Proof. intros H1 H2 fs path c. by rewrite fold_left_app, H1, H2, app_assoc. Qed.

Lemma write_reads : reads_data (writeProcessFunction kernel).
Proof.
  intros mem off n b cookie Hn E. unfold writeProcessFunction. destruct (Z.eqb_spec n 0) as [|Hnz]; [done|].
  apply sub_bytes_inv in E as Hi. destruct Hi as (H1 & H2 & H3 & H4 & H5).
  enough (forall fuel soFar log, 0 <= soFar < n ->
    write_out_loop kernel fuel mem off soFar n log = write_out_loop kernel fuel b 0 soFar n log) as Hw by (apply Hw; lia).
  clear -Hn E H5. induction fuel as [|fuel IH]; intros soFar log Hs; [done|]. cbn [write_out_loop].
  rewrite wrap_small by (unfold in_range; lia). rewrite (sub_bytes_sub mem off n b soFar (n - soFar) E), Z.add_0_l by lia.
  destruct (sub_bytes b soFar (n - soFar)) as [d| |]; [|done..]. unfold perform, sysM_effects, mbind, sysM_bind.
  rewrite !sys_run. destruct (_ <=? 0) eqn:E0; [done|]. destruct (_ =? n) eqn:E1; [done|]. destruct (n <? _) eqn:E2; [done|].
  apply IH. apply Z.leb_gt in E0. apply Z.eqb_neq in E1. apply Z.ltb_ge in E2. lia.
Qed.

Section Accepted.
Context (Hgen : accepts_writes kernel).

Lemma write_out_loop_run data n : Z.of_nat (length data) < 2 ^ 31 -> forall fuel soFar log, (length data - n < fuel)%nat ->
  soFar = Z.of_nat n -> (n < length data)%nat ->
  exists ev, write_out_loop kernel fuel data 0 soFar (Z.of_nat (length data)) log = Ret (true, log ++ ev) /\ appends ev (drop n data).
Proof.
  intros Hl fuel. revert n. induction fuel as [|fuel IH]; intros n soFar log Hf -> Hn; [lia|]. cbn [write_out_loop].
  rewrite wrap_small by (unfold in_range; lia). rewrite (sysM_perform _ _ _ (drop n data)).
  2: { rewrite sub_bytes_ok by lia. rewrite take_ge by (rewrite length_drop; lia). do 2 f_equal. lia. }
  unfold mbind, sysM_bind. rewrite sys_run. set (k := kernel log (Write (drop n data))).
  assert (0 < k <= Z.of_nat (length (drop n data))) as Hk.
  { apply (Hgen log (drop n data)). intros E. apply (f_equal length) in E. rewrite length_drop in E. simpl in E. lia. }
  rewrite length_drop in Hk. destruct (Z.leb_spec k 0); [lia|].
  assert (appends [(Write (drop n data), k)] (take (Z.to_nat k) (drop n data))) as Ha
    by (intros fs path c; exact (file_step_write _ _ _ _ _)).
  destruct (Z.eqb_spec (Z.of_nat n + k) (Z.of_nat (length data))) as [Ee|Ne].
  - eexists. split; [done|]. rewrite take_ge in Ha by (rewrite length_drop; lia). done.
  - destruct (Z.ltb_spec (Z.of_nat (length data)) (Z.of_nat n + k)); [lia|].
    destruct (IH (n + Z.to_nat k)%nat (Z.of_nat n + k) (log ++ [(Write (drop n data), k)])) as (ev & -> & Hev); [lia | lia | lia|].
    eexists. split; [by rewrite <- app_assoc|].
    pose proof (appends_app _ _ _ _ Ha Hev) as Hx. by rewrite <- drop_drop, take_drop in Hx.
Qed.

Lemma writeProcess_run c log : Z.of_nat (length c) < 2 ^ 31 ->
  exists ev, writeProcessFunction kernel c 0 (Z.of_nat (length c)) log = Ret (true, log ++ ev) /\ appends ev c.
Proof.
  intros Hc. unfold writeProcessFunction. destruct (Z.eqb_spec (Z.of_nat (length c)) 0) as [E|N].
  - destruct c; [|simpl in E; lia]. exists []. rewrite app_nil_r. split; [done | exact appends_nil].
  - destruct (write_out_loop_run c 0 Hc (S (Z.to_nat (Z.of_nat (length c)))) 0 log) as (ev & -> & Hev); [lia | done | lia|].
    exists ev. done.
Qed.

Lemma feed_write chunks : forall log, Forall (fun c => Z.of_nat (length c) < 2 ^ 31) chunks ->
  exists ev, feed (writeProcessFunction kernel) chunks log = Ret (true, log ++ ev) /\ appends ev (concat chunks).
Proof.
  induction chunks as [|c chunks IH]; intros log Hc; cbn [feed concat]; [exists []; rewrite app_nil_r; split; [done | exact appends_nil]|].
  apply Forall_cons in Hc as [Hc Hcs]. destruct (writeProcess_run c log Hc) as (ev & -> & Hev). cbn [mbind outcome_bind].
  destruct (IH (log ++ ev) Hcs) as (ev' & -> & Hev'). exists (ev ++ ev').
  rewrite <- app_assoc. split; [done|]. by apply appends_app.
Qed.
End Accepted.

(** Where every write fails, nothing gets into the file. *)
Lemma feed_refused chunks : refuses_writes kernel -> forall log, Forall (fun c => Z.of_nat (length c) < 2 ^ 31) chunks ->
  exists ev, feed (writeProcessFunction kernel) chunks log = Ret (bool_decide (concat chunks = []), log ++ ev) /\ appends ev [].
Proof.
  intros Href. induction chunks as [|c chunks IH]; intros log Hc; cbn [feed concat]; [exists []; rewrite app_nil_r; split; [done | exact appends_nil]|].
  apply Forall_cons in Hc as [Hc Hcs]. destruct c as [|x c].
  { destruct (IH log Hcs) as (ev & E & Ha). by exists ev. }
  specialize (Href log (x :: c)). set (r := kernel log (Write (x :: c))) in *.
  assert (writeProcessFunction kernel (x :: c) 0 (Z.of_nat (length (x :: c))) log = Ret (false, log ++ [(Write (x :: c), r)])) as ->.
  { unfold writeProcessFunction. destruct (Z.eqb_spec (Z.of_nat (length (x :: c))) 0); [simpl in *; lia|]. cbn [write_out_loop].
    rewrite wrap_small by (unfold in_range; lia). rewrite (sysM_perform _ _ _ (x :: c)) by (rewrite Z.sub_0_r; by apply sub_bytes_self).
    unfold mbind, sysM_bind. rewrite sys_run. fold r. destruct (Z.leb_spec r 0); [done | lia]. }
  cbn [mbind outcome_bind]. exists [(Write (x :: c), r)]. split; [done|].
  intros fs path w. pose proof (file_step_write fs path w (x :: c) r) as E. replace (Z.to_nat r) with 0%nat in E by lia. exact E.
Qed.
End Files.

(** ** Target paths *)

(** A directory with a slash at its end. *)
Definition with_slash (d : bytes) : bytes :=
  match last d with Some c => if c =? slash then d else d ++ [slash] | None => [slash] end.

Lemma wr_app (l1 l2 : bytes) x y : wr (l1 ++ x :: l2) (Z.of_nat (length l1)) y = l1 ++ y :: l2.
Proof. unfold wr. rewrite Nat2Z.id, insert_app_r_alt, Nat.sub_diag by lia. done. Qed.

Lemma put_at_prefix p b t t' : length b = length t -> put_at (p ++ t ++ t') (Z.of_nat (length p)) b = p ++ b ++ t'.
Proof.
  intros Hb. unfold put_at. rewrite Nat2Z.id, take_app_length. do 2 f_equal. rewrite app_assoc, drop_app_ge by (rewrite length_app; lia).
  rewrite length_app, Hb, Nat.sub_diag. done.
Qed.

Lemma split_at (l : bytes) n : (n <= length l)%nat -> exists t t', l = t ++ t' /\ length t = n.
Proof. intros Hn. exists (take n l), (drop n l). rewrite take_drop, length_take. split; [done | lia]. Qed.

Lemma start_path_run targetDir buf : targetDir <> [] -> (length targetDir < length buf)%nat ->
  exists t, start_path targetDir (strlen targetDir) buf = Ret (with_slash targetDir ++ t, strlen (with_slash targetDir)) /\
    length (with_slash targetDir ++ t) = length buf.
Proof.
  intros Hne Hl. unfold start_path, strlen. destruct (split_at buf (length targetDir)) as (t & t' & -> & Ht); [lia|].
  rewrite (copy_to_ok _ 0 _ 0 _ targetDir) by (lia || by (rewrite sub_bytes_ok by (unfold c_str; rewrite ?length_app; simpl; lia);
    rewrite Nat2Z.id, drop_0; unfold c_str; by rewrite take_app_length)).
  cbn [mbind outcome_bind]. pose proof (put_at_prefix [] targetDir t t' (eq_sym Ht)) as Ep. cbn [app length] in Ep.
  change (Z.of_nat 0) with 0 in Ep. rewrite Ep.
  destruct (exists_last Hne) as (d & c & E).
  assert (rd_mem (targetDir ++ t') (Z.of_nat (length targetDir) - 1) = Ret c) as ->.
  { rewrite rd_mem_ok by (rewrite E, !length_app; simpl; lia). f_equal. apply rd_lookup. apply lookup_app_l_Some.
    rewrite E, length_app. simpl. replace (Z.to_nat _) with (length d) by lia. by rewrite lookup_app_r, Nat.sub_diag by lia. }
  destruct (Z.eqb_spec (Z.of_nat (length targetDir)) 0) as [E0|_]; [destruct targetDir; [done | simpl in E0; lia]|].
  cbn [mbind outcome_bind orb]. unfold with_slash. replace (last targetDir) with (Some c) by (by rewrite E, last_snoc).
  destruct (c =? slash); cbn [negb].
  - exists t'. split; [done|]. rewrite !length_app. lia.
  - rewrite length_app in Hl. destruct t' as [|x t']; [simpl in Hl; lia|]. exists t'.
    rewrite st_mem_ok by (rewrite length_app; simpl; lia). cbn [mbind outcome_bind]. rewrite wr_app, <- app_assoc. split; [|rewrite !length_app; simpl; lia].
    rewrite length_app. simpl. do 2 f_equal. lia.
Qed.

Section Target.
Context (kernel : syslog -> sysev -> Z) (junk : nat -> Z) (targetDir zpath : bytes) (a : ZipArchive).
Context (Hdir : cstr_ok targetDir) (Hne : targetDir <> []) (Hlen : Z.of_nat (length targetDir) < 2 ^ 30).
Abbreviation dir := (with_slash targetDir).

(** The helper before the first path, and with the directory in its buffer. *)
Definition helper_ok (h : MzPathHelper) : Prop := zipDirLen h = strlen zpath /\
  (pathBuf h = None /\ targetDirLen h = strlen targetDir \/
   exists t, pathBuf h = Some (dir ++ t) /\ targetDirLen h = strlen dir).

Definition target_of (e : ZipEntry) : bytes := dir ++ drop (length zpath) (name_of (addr a) e).

Lemma with_slash_ok : cstr_ok dir /\ (length targetDir <= length dir <= length targetDir + 1)%nat.
Proof.
  unfold with_slash. destruct (last targetDir) as [c|] eqn:E; [|apply last_None in E; done].
  destruct (c =? slash); [split; [done | lia]|]. rewrite length_app. split; [|simpl; lia].
  apply Forall_app. split; [done|]. repeat constructor; unfold slash; lia.
Qed.

(** The buffer that [grow_path] gives holds what is needed, behind the directory
    when that is already there. *)
Lemma grow_path_run h need log : helper_ok h -> 0 < need < 2 ^ 31 -> generous kernel ->
  exists buf ev, grow_path kernel junk h need log = Ret (Some buf, log ++ ev) /\ quiet ev /\ need <= Z.of_nat (length buf) /\
    forall t, pathBuf h = Some (dir ++ t) -> exists t', buf = dir ++ t'.
Proof.
  intros [_ Hb] Hn Hg. unfold grow_path, bufLen.
  destruct (Z.ltb_spec (match pathBuf h with Some b => Z.of_nat (length b) | None => 0 end) need) as [Hlt|Hge].
  - unfold mbind, sysM_bind. rewrite sys_run. set (m := kernel log _).
    assert (m <> 0) as Hm by apply (Hg log (Malloc (need * 2))). apply Z.eqb_neq in Hm. rewrite Hm.
    do 2 eexists. split; [done|]. split; [by repeat constructor|]. unfold realloc_buf.
    assert (Z.of_nat (length (default [] (pathBuf h))) < need) as Hl by (destruct (pathBuf h); simpl in *; lia).
    split; [rewrite length_app, length_take, length_fmap, length_seq; lia|].
    intros t Et. rewrite Et in *. simpl in *. rewrite length_app in Hl.
    rewrite take_ge by (rewrite length_app; lia). rewrite <- app_assoc. eauto.
  - destruct (pathBuf h) as [buf|] eqn:Eb; [|lia]. exists buf, []. split; [by rewrite app_nil_r|]. split; [constructor|].
    split; [done|]. intros t [= ->]. eauto.
Qed.

Lemma targetEntryPath_run h e log : helper_ok h -> entry_ok (addr a) e -> strlen zpath <= fileNameLen e -> generous kernel ->
  exists h' ev, targetEntryPath kernel junk targetDir a h e log = Ret ((Some (target_of e), h'), log ++ ev) /\ quiet ev /\ helper_ok h'.
Proof.
  intros Hh He Hz Hg. pose proof with_slash_ok as [Hdok Hdl]. pose proof (name_at_length _ _ _ He) as Hnl. fold (name_of (addr a) e) in Hnl.
  destruct He as [Hs Hl He' Hp]. unfold PATH_MAX, strlen in *.
  assert (Z.of_nat (length targetDir) <= targetDirLen h <= strlen dir) as Htl.
  { destruct Hh as [_ [[_ ->]|(t & _ & ->)]]; unfold strlen; lia. }
  pose proof (proj1 Hh) as Ezl. unfold strlen in *. set (n := fileNameLen e - zipDirLen h).
  set (need := targetDirLen h + 1 + fileNameLen e - zipDirLen h + 1).
  destruct (grow_path_run h need log Hh) as (buf & ev & Eg & Hq & Hbl & Hpre); [unfold need; lia | done|].
  unfold targetEntryPath. fold need. rewrite (swrap_small 32 need) by (done || (unfold in_srange, need; lia)).
  unfold mbind at 1, sysM_bind at 1. rewrite Eg.
  assert (exists t, (if match pathBuf h with None => true | _ => false end then start_path targetDir (targetDirLen h) buf else Ret (buf, targetDirLen h))
    = Ret (dir ++ t, Z.of_nat (length dir)) /\ length (dir ++ t) = length buf) as (t & Es & Ebl).
  { destruct Hh as [_ [[-> ->]|(t & Eb & Et)]].
    - apply start_path_run; [done | unfold need, strlen in *; lia].
    - rewrite Eb. destruct (Hpre t Eb) as [t' ->]. exists t'. by rewrite Et. }
  rewrite (sysM_perform _ _ _ _ Es). cbv beta iota.
  assert (n + 1 <= Z.of_nat (length t)) as Hroom by (rewrite length_app in Ebl; unfold n, need in *; lia).
  destruct (split_at t (Z.to_nat n)) as (t1 & t2 & -> & Ht1); [lia|]. rewrite length_app in Hroom.
  destruct t2 as [|x t2]; [simpl in Hroom; lia|].
  assert (sub_bytes (addr a) (fileName e + zipDirLen h) n = Ret (drop (length zpath) (name_of (addr a) e))) as Esub.
  { rewrite sub_bytes_ok by (unfold n; lia). f_equal. unfold name_of, name_at.
    rewrite Z2Nat.inj_add, <- drop_drop by lia. rewrite take_drop_commute. f_equal; [lia|]. f_equal. unfold n. lia. }
  assert (length (drop (length zpath) (name_of (addr a) e)) = length t1) as Hrl by (rewrite length_drop; unfold n in *; lia).
  assert (copy_to (dir ++ t1 ++ x :: t2) (Z.of_nat (length dir)) (addr a) (fileName e + zipDirLen h) n
    = Ret (target_of e ++ x :: t2)) as Ec.
  { rewrite (copy_to_ok _ _ _ _ _ _ Esub), put_at_prefix by (done || lia || (rewrite !length_app; simpl; lia)).
    unfold target_of. by rewrite <- app_assoc. }
  rewrite (sysM_perform _ _ _ _ Ec).
  rewrite (sysM_perform _ _ _ (target_of e ++ 0 :: t2)).
  2: { replace (Z.of_nat (length dir) + (fileNameLen e - zipDirLen h)) with (Z.of_nat (length (target_of e))) by (unfold target_of; rewrite length_app; unfold n in *; lia).
       rewrite st_mem_ok by (rewrite (length_app (target_of e)); cbn [length]; lia). by rewrite wr_app. }
  exists (mk_MzPathHelper (Z.of_nat (length dir)) (zipDirLen h) (Some (target_of e ++ 0 :: t2))), ev. split_and!; [|done|].
  - unfold mret, sysM_ret. rewrite cstring_app; [done|]. apply Forall_app. split; [done|].
    apply Forall_drop. eapply Forall_impl; [exact Hp|]. simpl. lia.
  - split; [done|]. right. exists (drop (length zpath) (name_of (addr a) e) ++ 0 :: t2). simpl. split; [|done].
    unfold target_of. by rewrite <- app_assoc.
Qed.
End Target.

(** ** Extracting *)

(** The entries under a directory lie together in the order of names. *)
Lemma lex_prefix_convex z : forall a b c, take (length z) a = z -> lex a b <> Gt -> lex b c <> Gt -> take (length z) c = z -> take (length z) b = z.
Proof.
  induction z as [|x z IH]; intros a b c Ha Hab Hbc Hc; [done|].
  destruct a as [|a0 a]; [done|]. destruct c as [|c0 c]; [done|]. simpl in Ha, Hc. injection Ha as -> Ha. injection Hc as -> Hc.
  destruct b as [|b0 b]; [done|]. simpl in *.
  destruct (Z.compare_spec x b0) as [->| |]; [|destruct (Z.compare_spec b0 x); done || lia|done].
  rewrite Z.compare_refl in Hbc. f_equal. by apply (IH a b c).
Qed.

Section Extract.
Context {zstream : Type} (inflateInit2 : bytes -> option zstream) (inflate : zstream -> Z -> Z * bytes * zstream).
Context (kernel : syslog -> sysev -> Z) (junk : nat -> Z) (fuel : nat) (a : ZipArchive) (targetDir zpath : bytes) (timestamp callback sehnd : bool).
Context (Hdir : cstr_ok targetDir) (Hdeep : (2 <= length targetDir)%nat) (Hlen : Z.of_nat (length targetDir) < 2 ^ 30).
Context (Hgen : generous kernel).
Abbreviation target e := (target_of targetDir zpath a e).

Lemma targetDir_ne : targetDir <> [].
Proof. clear -Hdeep. intros ->. simpl in Hdeep. lia. Qed.

(** Files are made in a directory that is not the root. *)
Lemma target_dir_of e : entry_ok (addr a) e -> cstr_ok (target e) /\ exists d, dir_of true (target e) d.
Proof.
  intros [_ _ _ Hp]. pose proof (with_slash_ok targetDir Hdir targetDir_ne) as [Hok Hl]. split.
  - apply Forall_app. split; [done|]. apply Forall_drop. eapply Forall_impl; [exact Hp|]. simpl. lia.
  - assert (target e !! pred (length (with_slash targetDir)) = Some slash) as Hsl.
    { unfold target_of. rewrite lookup_app_l by lia. rewrite <- last_lookup. unfold with_slash.
      destruct (last targetDir) as [c|] eqn:E; [|done]. destruct (Z.eqb_spec c slash) as [->|]; [done | by rewrite last_snoc]. }
    apply lookup_lt_Some in Hsl as Hlt.
    destruct (last_slash_run (target e) (length (target e) - 1)) as (c & _ & Hc & Hs & Hi); [lia|].
    assert (c <> 0%nat) as Hnz by (intros ->; apply (Hi (pred (length (with_slash targetDir)))); [lia | done]).
    exists (take (S c) (target e)). apply strip_dir; try done; [lia | by apply Hs].
Qed.

(** What writing the contents of an entry to its file does. *)
Definition file_run (e : ZipEntry) (ok : bool) (w : bytes) : Prop := forall log, exists ev,
  mzExtractZipEntryToFile kernel inflateInit2 inflate fuel a e log = Ret (ok, log ++ ev) /\ appends ev w.

Lemma extract_file_run e ok w log : entry_ok (addr a) e -> file_run e ok w ->
  exists ev, extract_file kernel inflateInit2 inflate fuel a timestamp sehnd e (target e) log =
      Ret (if ok then Next else Break true, log ++ ev) /\
    forall fs, fold_left file_step ev fs = fs ++ [(target e, w)].
Proof.
  intros He Hf. destruct (target_dir_of e He) as [Hok Hd]. unfold extract_file.
  destruct (dirCreateHierarchy_run kernel timestamp sehnd UNZIP_DIRMODE true (target e) log Hok) as (r & ev1 & E1 & Hq1 & _ & Hr).
  rewrite (Hr Hgen Hd) in E1.
  destruct (set_context_run kernel sehnd (target e) UNZIP_FILEMODE (log ++ ev1)) as (sc & ev2 & E2 & Hq2).
  set (log2 := (log ++ ev1) ++ ev2) in *. set (fd := kernel log2 (Open (target e) UNZIP_FILEMODE)).
  assert (0 <= fd) as Hfd by apply (Hgen log2 (Open (target e) UNZIP_FILEMODE)).
  destruct (reset_context_run kernel sc (log2 ++ [(Open (target e) UNZIP_FILEMODE, fd)])) as (ev3 & E3 & Hq3).
  set (log3 := (log2 ++ _) ++ ev3) in *. destruct (Hf log3) as (ev4 & E4 & Ha).
  assert (forall fs, fold_left file_step (ev1 ++ ev2 ++ [(Open (target e) UNZIP_FILEMODE, fd)] ++ ev3 ++ ev4) fs = fs ++ [(target e, w)]) as Hfiles.
  { intros fs. rewrite !fold_left_app, (quiet_files ev1), (quiet_files ev2) by done. cbn [fold_left file_step].
    destruct (Z.leb_spec 0 fd); [|lia]. rewrite (quiet_files ev3) by done. apply Ha. }
  assert (forall tail ev', quiet tail -> ev' = (ev1 ++ ev2 ++ [(Open (target e) UNZIP_FILEMODE, fd)] ++ ev3 ++ ev4) ++ tail ->
    forall fs, fold_left file_step ev' fs = fs ++ [(target e, w)]) as Htail
    by (intros tail ev' Hqt -> fs; rewrite fold_left_app, Hfiles; by apply quiet_files).
  unfold mbind, sysM_bind, mret, sysM_ret. rewrite E1. cbn [negb Z.eqb]. rewrite E2, sys_run. fold fd. rewrite E3.
  destruct (Z.ltb_spec fd 0); [lia|]. fold log3. rewrite E4.
  assert (forall l, kernel l Fsync = 0) as Hfs by (intros l; apply (Hgen l Fsync)).
  assert (forall l, kernel l Close = 0) as Hcl by (intros l; apply (Hgen l Close)).
  assert (forall l, kernel l (Utime (target e)) = 0) as Hut by (intros l; apply (Hgen l (Utime (target e)))).
  destruct ok; cbv beta iota; rewrite !sys_run, ?Hfs, ?Hcl; cbn [negb Z.eqb].
  - destruct timestamp; [rewrite sys_run, Hut; cbn [negb Z.eqb]|]; eexists; (split; [unfold log3, log2; rewrite <- !app_assoc; reflexivity|]);
      eapply Htail; [|rewrite <- !app_assoc; reflexivity| |rewrite <- !app_assoc; reflexivity]; by repeat constructor.
  - eexists. split; [unfold log3, log2; rewrite <- !app_assoc; reflexivity|].
    eapply Htail; [|rewrite <- !app_assoc; reflexivity]. by repeat constructor.
Qed.

(** The entries under the directory, and those that stand for directories. *)
Definition under (e : ZipEntry) : bool := bool_decide (take (length zpath) (name_of (addr a) e) = zpath).
Definition is_dir (e : ZipEntry) : bool := bool_decide (last (name_of (addr a) e) = Some slash).

Lemma is_dir_read e : entry_ok (addr a) e -> 0 < fileNameLen e ->
  rd_mem (addr a) (fileName e + u32 (fileNameLen e - 1)) = Ret (rd (addr a) (fileName e + fileNameLen e - 1)) /\
  (rd (addr a) (fileName e + fileNameLen e - 1) =? slash) = is_dir e.
Proof.
  intros He Hn. pose proof (name_at_length _ _ _ He) as Hl. fold (name_of (addr a) e) in Hl.
  destruct He as [Hp Hb Hend _]. unfold PATH_MAX in Hb. set (i := fileName e + fileNameLen e - 1).
  assert (last (name_of (addr a) e) = Some (rd (addr a) i)) as Hlast.
  { rewrite last_lookup. unfold name_of, name_at in *. rewrite lookup_take_lt by lia. rewrite lookup_drop.
    replace (Z.to_nat (fileName e) + pred _)%nat with (Z.to_nat i) by lia.
    destruct (lookup_lt_is_Some_2 (addr a) (Z.to_nat i)) as [c Hc]; [lia|]. by rewrite Hc, (rd_lookup _ _ _ Hc). }
  rewrite wrap_small by (unfold in_range; lia). unfold is_dir. rewrite Hlast.
  replace (fileName e + (fileNameLen e - 1)) with i by lia. split; [apply rd_mem_ok; lia|].
  destruct (Z.eqb_spec (rd (addr a) i) slash) as [->|Hne]; [by rewrite bool_decide_true | rewrite bool_decide_false; congruence].
Qed.

Lemma extract_entry_run h e ok w log : helper_ok targetDir zpath h -> in_archive (addr a) e -> strlen zpath <= fileNameLen e ->
  0 < fileNameLen e -> (is_dir e = false -> file_run e ok w) ->
  exists h' ev, extract_entry kernel junk inflateInit2 inflate fuel a targetDir timestamp callback sehnd h e log =
      Ret ((if is_dir e then Next else if ok then Next else Break true, h'), log ++ ev) /\ helper_ok targetDir zpath h' /\
    forall fs, fold_left file_step ev fs = fs ++ (if is_dir e then [] else [(target e, w)]).
Proof.
  intros Hh (He & Hfn & _) Hz Hpos Hf. unfold extract_entry. destruct (is_dir_read e He Hpos) as [Hread Hdir'].
  destruct (targetEntryPath_run kernel junk targetDir zpath a Hdir targetDir_ne Hlen h e log Hh He Hz Hgen) as (h' & ev1 & E1 & Hq1 & Hh').
  unfold mbind at 1, sysM_bind at 1. rewrite E1. cbv beta iota.
  rewrite (sysM_perform _ _ _ _ Hread), Hdir'. destruct (is_dir e) eqn:Ed; cbn [negb].
  - destruct callback; unfold mbind, sysM_bind, mret, sysM_ret; rewrite ?sys_run; do 2 eexists;
      (split; [rewrite <- ?app_assoc; reflexivity|]); (split; [done|]); intros fs; rewrite app_nil_r, ?fold_left_app;
      rewrite (quiet_files ev1) by done; done.
  - destruct (extract_file_run e ok w (log ++ ev1) He (Hf eq_refl)) as (ev2 & E2 & Hfs).
    unfold mbind, sysM_bind, mret, sysM_ret. rewrite E2.
    destruct ok; [destruct callback; rewrite ?sys_run|]; do 2 eexists;
      (split; [rewrite <- ?app_assoc; reflexivity|]); (split; [done|]); intros fs; rewrite ?fold_left_app, (quiet_files ev1), Hfs by done; done.
Qed.

(** The comparison with the directory. *)
Lemma under_run e : entry_ok (addr a) e -> cstr_ok zpath ->
  exists d, (if fileNameLen e <? strlen zpath then Ret 1 else strncmp (length zpath) (addr a) (fileName e) (c_str zpath) 0) = Ret d /\
    (d =? 0) = under e /\ (under e = true -> strlen zpath <= fileNameLen e).
Proof.
  intros He Hz. pose proof (name_at_length _ _ _ He) as Hl. fold (name_of (addr a) e) in Hl. unfold under, strlen.
  destruct (Z.ltb_spec (fileNameLen e) (Z.of_nat (length zpath))) as [Hlt|Hge].
  - exists 1. split_and!; [done | |].
    + rewrite bool_decide_false; [done|]. intros E. apply (f_equal length) in E. rewrite length_take in E. lia.
    + rewrite bool_decide_eq_true. intros E. apply (f_equal length) in E. rewrite length_take in E. lia.
  - set (p := take (length zpath) (name_of (addr a) e)).
    assert (length p = length zpath) as Hp by (unfold p; rewrite length_take; lia).
    assert (Forall (fun c => 0 < c) p) as Hpos by (apply Forall_take, printable_pos, (name_printable _ _ _ He)).
    assert (drop (Z.to_nat (fileName e)) (addr a) = p ++ drop (length zpath) (drop (Z.to_nat (fileName e)) (addr a))) as Ed.
    { unfold p, name_of, name_at. rewrite take_take. replace (length zpath `min` _)%nat with (length zpath) by lia. by rewrite take_drop. }
    destruct (strncmp_lex p zpath (addr a) (fileName e) (c_str zpath) 0 _ [0] (name_start _ _ _ He) ltac:(lia) Ed eq_refl Hpos) as (d & Es & Ex).
    rewrite Hp, Nat.min_id in Es. exists d. split; [done|]. split; [|intros _; lia].
    rewrite Hp, Z.compare_refl in Ex. fold p. destruct (Z.eqb_spec d 0) as [->|Hd].
    + rewrite bool_decide_true; [done | by apply lex_eq].
    + rewrite bool_decide_false; [done|]. intros Epz. rewrite Epz, lex_refl in Ex. unfold sign_of in Ex. symmetry in Ex. apply Z.compare_eq in Ex. done.
Qed.

(** The files of the entries under the directory, up to the first that fails. *)
Fixpoint made_files (out : ZipEntry -> bool * bytes) (es : list ZipEntry) : list (bytes * bytes) :=
  match es with
  | [] => []
  | e :: es' =>
      if under e && negb (is_dir e) then (target e, (out e).2) :: (if (out e).1 then made_files out es' else [])
      else made_files out es'
  end.

Lemma made_files_none out es : Forall (fun e => under e = false) es -> made_files out es = [].
Proof. induction 1 as [|e es He _ IH]; [done|]. simpl. by rewrite He. Qed.

Lemma extract_loop_run out es : cstr_ok zpath -> Forall (in_archive (addr a)) es -> name_sorted (addr a) es ->
  Forall (fun e => under e = true -> 0 < fileNameLen e) es ->
  Forall (fun e => under e = true -> is_dir e = false -> file_run e (out e).1 (out e).2) es ->
  forall n i seen h log, (i + n = length es)%nat -> helper_ok targetDir zpath h ->
  (seen = true -> exists j e, (j < i)%nat /\ es !! j = Some e /\ under e = true) ->
  exists ev, extract_loop kernel junk inflateInit2 inflate fuel a targetDir timestamp callback sehnd n (Z.of_nat i) es zpath seen h log =
      Ret (true, log ++ ev) /\ forall fs, fold_left file_step ev fs = fs ++ made_files out (drop i es).
Proof.
  intros Hz Hin Hs Hnamed Hout. induction n as [|n IH]; intros i seen h log Hn Hh Hseen; cbn [extract_loop].
  { exists []. rewrite drop_ge, !app_nil_r by lia. split; [done|]. intros fs. by rewrite app_nil_r. }
  destruct (lookup_lt_is_Some_2 es i) as [e He]; [lia|]. rewrite (sysM_perform _ _ _ _ (zip_entry_ok es i e He)).
  assert (in_archive (addr a) e) as Hie by (rewrite Forall_lookup in Hin; by apply (Hin i)).
  destruct (under_run e (proj1 Hie) Hz) as (d & Ed & Edu & Hzl). rewrite (sysM_perform _ _ _ _ Ed), Edu.
  rewrite (drop_S es e i He). cbn [made_files]. replace (Z.of_nat i + 1) with (Z.of_nat (S i)) by lia.
  destruct (under e) eqn:Eu; cbn [negb andb].
  - assert (is_dir e = false -> file_run e (out e).1 (out e).2) as Hf by (rewrite Forall_lookup in Hout; by apply (Hout i e)).
    assert (0 < fileNameLen e) as Hpos by (rewrite Forall_lookup in Hnamed; by apply (Hnamed i e)).
    destruct (extract_entry_run h e (out e).1 (out e).2 log Hh Hie (Hzl eq_refl) Hpos Hf) as (h' & ev1 & E1 & Hh' & Hfs).
    unfold mbind, sysM_bind. rewrite E1. cbv beta iota.
    destruct (IH (S i) true h' (log ++ ev1)) as (ev2 & E2 & Hfs2); [lia | done | intros _; exists i, e; split_and!; done || lia|].
    destruct (is_dir e) eqn:Edir; cbn [negb].
    + rewrite E2. exists (ev1 ++ ev2). rewrite app_assoc. split; [done|]. intros fs. by rewrite fold_left_app, Hfs, app_nil_r, Hfs2.
    + destruct (out e).1.
      * rewrite E2. exists (ev1 ++ ev2). rewrite app_assoc. split; [done|]. intros fs. by rewrite fold_left_app, Hfs, Hfs2, <- app_assoc.
      * exists ev1. split; [done|]. intros fs. by rewrite Hfs.
  - destruct seen eqn:Es.
    + exists []. rewrite app_nil_r. split; [done|]. intros fs. simpl. rewrite made_files_none, app_nil_r; [done|].
      apply Forall_lookup. intros k e3 Hk. rewrite lookup_drop in Hk. destruct (Hseen eq_refl) as (j & e1 & Hj & He1 & Hu1).
      destruct (under e3) eqn:E3; [|done]. exfalso. apply bool_decide_eq_true in Hu1, E3. apply bool_decide_eq_false in Eu. apply Eu.
      apply (lex_prefix_convex zpath (name_of (addr a) e1) _ (name_of (addr a) e3)); try done.
      * apply (sorted_lookup (addr a) es j i); done || lia.
      * apply (sorted_lookup (addr a) es i (S i + k)); done || lia.
    + by apply IH; [lia | |].
Qed.
End Extract.

(** The directory of the archive that is looked for: with a slash at its end,
    unless it is the whole archive. *)
Definition zip_path (zipDir : bytes) : bytes := match zipDir with [] => [] | _ => with_slash zipDir end.

Lemma zip_path_ok zipDir : cstr_ok zipDir -> cstr_ok (zip_path zipDir).
Proof. intros Hz. destruct zipDir as [|x z]; [done|]. by apply with_slash_ok. Qed.

(** A directory of the archive and where it is extracted to. *)
Definition dirs_ok (zipDir targetDir : bytes) : Prop := cstr_ok zipDir /\ head zipDir <> Some slash /\
  cstr_ok targetDir /\ head targetDir = Some slash /\ (2 <= length targetDir)%nat /\ Z.of_nat (length targetDir) < 2 ^ 30.

Lemma mzExtractRecursive_run {zstream} inflateInit2 (inflate : zstream -> Z -> Z * bytes * zstream) kernel junk fuel
    n es t mem zipDir targetDir timestamp callback sehnd out :
  let a := mk_ZipArchive n (Ptr es) t mem in let zpath := zip_path zipDir in
  n = Z.of_nat (length es) -> dirs_ok zipDir targetDir -> generous kernel -> Forall (in_archive mem) es -> name_sorted mem es ->
  Forall (fun e => under a zpath e = true -> 0 < fileNameLen e) es ->
  Forall (fun e => under a zpath e = true -> is_dir a e = false -> file_run inflateInit2 inflate kernel fuel a e (out e).1 (out e).2) es ->
  exists log, mzExtractRecursive kernel junk inflateInit2 inflate fuel a targetDir timestamp callback sehnd zipDir [] = Ret (true, log) /\
    files_of log = made_files a targetDir zpath out es.
Proof.
  intros a zpath Hn (Hz & Hrel & Hd & Habs & Hdeep & Hlen) Hg Hin Hs Hnamed Hout. unfold mzExtractRecursive.
  replace (match zipDir with c :: _ => c =? slash | [] => false end) with false
    by (destruct zipDir; [done|]; simpl in Hrel; symmetry; apply Z.eqb_neq; congruence).
  replace (match targetDir with c :: _ => c =? slash | [] => false end) with true
    by (destruct targetDir; [done|]; simpl in Habs; injection Habs as ->; done).
  cbn [negb]. unfold mbind, sysM_bind. rewrite sys_run. set (m := kernel [] _).
  assert (m <> 0) as Hm by apply (Hg [] (Malloc (strlen zipDir + 2))). apply Z.eqb_neq in Hm. rewrite Hm.
  assert (match last zipDir with Some c => if negb (c =? slash) then zipDir ++ [slash] else zipDir | None => [] end = zpath) as ->.
  { unfold zpath, zip_path, with_slash. destruct zipDir as [|x z]; [done|]. destruct (last (x :: z)) as [c|] eqn:E; [by destruct (c =? slash)|].
    by apply last_None in E. }
  cbn [zipEntries a numZipEntries]. rewrite Hn.
  destruct (extract_loop_run inflateInit2 inflate kernel junk fuel a targetDir zpath timestamp callback sehnd Hd Hdeep Hlen Hg out es
    (zip_path_ok zipDir Hz) Hin Hs Hnamed Hout (length es) 0 false (mk_MzPathHelper (strlen targetDir) (strlen zpath) None) ([] ++ [(Malloc (strlen zipDir + 2), m)]))
    as (ev & E & Hfs); [done | split; [done | by left] | done|].
  rewrite Nat2Z.id. change (Z.of_nat 0) with 0 in E. rewrite E. eexists. split; [done|].
  unfold files_of. rewrite fold_left_app. simpl. by rewrite Hfs, drop_0.
Qed.

Lemma made_files_all a targetDir zpath content es :
  made_files a targetDir zpath (fun e => (true, content e)) es =
  (fun e => (target_of targetDir zpath a e, content e)) <$> filter (fun e => under a zpath e = true /\ is_dir a e = false) es.
Proof.
  induction es as [|e es IH]; [done|]. simpl. rewrite filter_cons.
  destruct (under a zpath e) eqn:Eu, (is_dir a e) eqn:Ed; cbn [andb negb];
    first [rewrite decide_True by done; simpl; by rewrite IH | rewrite decide_False by (by intros []); exact IH].
Qed.

(** C9. Extracting a directory of an archive. Of an archive that was opened and
    in which no entry under the directory has an empty name, on a system where
    calls succeed, however little each write takes and whichever directories
    are missing, [mzExtractRecursive] reports success and creates
    one file for every entry under the directory that is not itself a
    directory, and no other file: under the target directory, at the rest of
    the entry's name, with the contents of the entry. The loop that stops at the
    first entry outside of the directory misses none. *)
Theorem mzExtractRecursive_extracts {zstream} inflateInit2 (inflate : zstream -> Z -> Z * bytes * zstream) holds kernel junk fuel
    char_signed mem cd a zipDir targetDir timestamp callback sehnd content :
  inflates inflate holds -> generous kernel -> accepts_writes kernel -> dirs_ok zipDir targetDir -> archive_of char_signed mem cd a ->
  Forall (fun e => under a (zip_path zipDir) e = true -> 0 < fileNameLen e) cd ->
  Forall (fun e => under a (zip_path zipDir) e = true -> is_dir a e = false ->
    has_content inflateInit2 holds a e (content e) /\ (length (content e) < fuel)%nat) cd ->
  exists es log, es ≡ₚ cd /\ name_sorted mem es /\
    mzExtractRecursive kernel junk inflateInit2 inflate fuel a targetDir timestamp callback sehnd zipDir [] = Ret (true, log) /\
    files_of log = (fun e => (target_of targetDir (zip_path zipDir) a e, content e)) <$>
      filter (fun e => under a (zip_path zipDir) e = true /\ is_dir a e = false) es.
Proof.
  intros Hinf Hg Hw Hdirs (es & t & -> & Hp & Hs & Hin & _) Hnamed Hc. exists es.
  destruct (mzExtractRecursive_run inflateInit2 inflate kernel junk fuel (Z.of_nat (length cd)) es (Ptr t) mem zipDir targetDir timestamp callback sehnd
    (fun e => (true, content e))) as (log & E & Hf); [by rewrite Hp | done | done | done | done | by rewrite Hp | |].
  - rewrite <- Hp in Hc. eapply Forall_impl; [exact Hc|]. intros e He Hu Hd log. destruct (He Hu Hd) as [Hce Hfe].
    destruct (process_contents inflateInit2 inflate holds Hinf _ e _ Hce) as (chunks & Ec & Hch & Hrun).
    unfold mzExtractZipEntryToFile. rewrite Hrun by (done || exact (write_reads kernel)).
    destruct (feed_write kernel Hw chunks log Hch) as (ev & -> & Ha). exists ev. by rewrite Ec in Ha.
  - exists log. rewrite Hf, made_files_all. done.
Qed.

(** A system on which every call succeeds, or every call but writing. *)
Definition easy_kernel (full : bool) (log : syslog) (e : sysev) : Z :=
  match e with
  | Malloc _ => 1
  | Stat _ => 2
  | Write b => if full then -1 else Z.of_nat (length b)
  | _ => 0
  end.

Lemma easy_generous full : generous (easy_kernel full).
Proof. intros log e. destruct e; simpl; try done. by right. Qed.

Lemma easy_accepts : accepts_writes (easy_kernel false).
Proof. intros log b Hb. simpl. destruct b; [done | simpl; lia]. Qed.

Lemma easy_refuses : refuses_writes (easy_kernel true).
Proof. intros log b. simpl. lia. Qed.

Lemma demo_opens : exists a, archive_of true demo_zip demo_entries a.
Proof.
  pose proof (open_run true checked_add 4096 demo_zip (ZipAllocs true true true true) checked_add_ok
    demo_zip_ok ltac:(lia) demo_zip_end) as H.
  rewrite demo_zip_directory in H. destruct H as (a & _ & Ha). by exists a.
Qed.

Definition demo_target : bytes := str "/tmp".

Lemma demo_dirs : dirs_ok [] demo_target.
Proof. split_and!; try done; [constructor | apply (bool_decide_unpack _); reflexivity | simpl; lia]. Qed.

Lemma demo_named (P : ZipEntry -> Prop) : Forall (fun e => P e -> 0 < fileNameLen e) demo_entries.
Proof. constructor; [|constructor]. intros _. reflexivity. Qed.

Lemma demo_contents a : addr a = demo_zip ->
  Forall (fun e => under a (zip_path []) e = true -> is_dir a e = false -> has_content Some eq a e [33] /\ (length [33] < 2)%nat) demo_entries.
Proof.
  intros Ha. constructor; [|constructor]. intros _ _. split; [|simpl; lia]. by apply stored_content; rewrite ?Ha.
Qed.

Lemma mzExtractRecursive_extracts_witness : exists a es log, es ≡ₚ demo_entries /\ name_sorted demo_zip es /\
  mzExtractRecursive (easy_kernel false) (fun _ => 0) Some plain_inflate 2 a demo_target true true true [] [] = Ret (true, log) /\
  files_of log = (fun e => (target_of demo_target (zip_path []) a e, [33])) <$>
    filter (fun e => under a (zip_path []) e = true /\ is_dir a e = false) es.
Proof.
  destruct demo_opens as [a Ha]. exists a.
  apply (mzExtractRecursive_extracts Some plain_inflate eq (easy_kernel false) (fun _ => 0) 2 true demo_zip demo_entries a [] demo_target true true true (fun _ => [33])
    plain_inflates (easy_generous false) easy_accepts demo_dirs Ha (demo_named _)).
  apply demo_contents. by destruct Ha as (es & t & -> & _).
Defined.

(** An entry with an empty name is the first one in the order. *)
Lemma empty_name_first mem es : name_sorted mem es -> Forall (in_archive mem) es ->
  Exists (fun e => fileNameLen e = 0) es -> exists e es', es = e :: es' /\ in_archive mem e /\ fileNameLen e = 0.
Proof.
  intros Hs Hin Hx. destruct es as [|e es]; [by apply Exists_nil in Hx|]. exists e, es. split; [done|].
  apply Forall_cons in Hin as [He Hin]. split; [done|]. apply Exists_cons in Hx as [Hx|Hx]; [done|].
  apply Exists_exists in Hx as (e1 & He1 & H0). apply StronglySorted_inv in Hs as [_ Hs].
  rewrite Forall_forall in Hs. specialize (Hs e1 He1). unfold by_name in Hs.
  pose proof (name_at_length _ _ _ (proj1 He)) as Hl. fold (name_of mem e) in Hl.
  assert (name_of mem e1 = []) as E1 by (unfold name_of, name_at; by rewrite H0).
  rewrite E1 in Hs. destruct (name_of mem e); [done | by destruct Hs].
Qed.

(** An entry without a name. Extracting a whole archive that has one reads the
    byte at index -1 of the name, as an unsigned index, 4 GiB behind it. *)
Lemma mzExtractRecursive_empty_name {zstream} inflateInit2 (inflate : zstream -> Z -> Z * bytes * zstream) kernel junk fuel
    char_signed mem cd a targetDir timestamp callback sehnd :
  generous kernel -> dirs_ok [] targetDir -> archive_of char_signed mem cd a -> Z.of_nat (length mem) < 2 ^ 32 ->
  Exists (fun e => fileNameLen e = 0) cd ->
  mzExtractRecursive kernel junk inflateInit2 inflate fuel a targetDir timestamp callback sehnd [] [] = Fault OutOfBounds.
Proof.
  intros Hg (_ & _ & Hd & Habs & Hdeep & Hlen) (es & t & -> & Hp & Hs & Hin & _) Hmem Hx. rewrite <- Hp in Hx.
  destruct (empty_name_first mem es Hs Hin Hx) as (e & es' & -> & He & H0). unfold mzExtractRecursive.
  replace (match targetDir with c :: _ => c =? slash | [] => false end) with true
    by (destruct targetDir; [done|]; simpl in Habs; injection Habs as ->; done).
  cbn [negb]. unfold mbind at 1, sysM_bind at 1. rewrite sys_run. set (m := kernel [] _).
  assert (m <> 0) as Hm by apply (Hg [] (Malloc (strlen [] + 2))). apply Z.eqb_neq in Hm. rewrite Hm.
  cbn [last zipEntries numZipEntries]. rewrite <- Hp, Nat2Z.id. cbn [length extract_loop].
  rewrite (sysM_perform _ _ _ _ (zip_entry_ok (e :: es') 0 e eq_refl)), H0. cbn [strlen length].
  rewrite (sysM_perform _ _ _ 0 eq_refl). cbn [negb Z.eqb]. unfold mbind at 1, sysM_bind at 1. unfold extract_entry.
  set (a := mk_ZipArchive _ _ _ _). set (h := mk_MzPathHelper _ _ _).
  assert (targetDir <> []) as Hne by (by intros ->; simpl in Hdeep; lia).
  destruct (targetEntryPath_run kernel junk targetDir [] a Hd Hne Hlen h e ([] ++ [(Malloc (strlen [] + 2), m)])
    ltac:(split; [done | by left]) (proj1 He) ltac:(by rewrite H0) Hg) as (h' & ev & E & _).
  unfold mbind at 1, sysM_bind at 1. rewrite E. cbv beta iota.
  unfold rd_mem. rewrite H0. change (u32 (0 - 1)) with (2 ^ 32 - 1). cbn [addr a].
  destruct He as (_ & Hfn & _). unfold CENHDR in Hfn.
  destruct (Z.ltb_spec (fileName e + (2 ^ 32 - 1)) (Z.of_nat (length mem))); [lia | by rewrite andb_false_r].
Qed.

Lemma made_files_empty a targetDir zpath content es :
  let fs := made_files a targetDir zpath (fun e => (bool_decide (content e = @nil Z), [])) es in
  Forall (fun f => f.2 = []) fs /\ (Exists (fun e => under a zpath e = true /\ is_dir a e = false) es -> fs <> []).
Proof.
  induction es as [|e es [IH1 IH2]]; simpl; [split; [constructor | by rewrite Exists_nil]|]. rewrite Exists_cons.
  destruct (under a zpath e) eqn:Eu, (is_dir a e) eqn:Ed; cbn [andb negb]; (split; [|intros Hx]); try done;
    try (apply IH2; destruct Hx as [[]|]; done).
  constructor; [done|]. case_bool_decide; [done | constructor].
Qed.

(** C38. A failure that is not reported. On a system where everything but writing
    succeeds, say a full one, and with entries that have names and contents,
    [mzExtractRecursive] returns true, although it stops at the first entry with
    contents and every file it has created is empty: the failure is stored in a
    second variable [ok] that hides the one the function returns. *)
Theorem mzExtractRecursive_hides_failure {zstream} inflateInit2 (inflate : zstream -> Z -> Z * bytes * zstream) holds kernel junk fuel
    char_signed mem cd a zipDir targetDir timestamp callback sehnd content :
  inflates inflate holds -> generous kernel -> refuses_writes kernel -> dirs_ok zipDir targetDir -> archive_of char_signed mem cd a ->
  Forall (fun e => under a (zip_path zipDir) e = true -> 0 < fileNameLen e) cd ->
  Forall (fun e => under a (zip_path zipDir) e = true -> is_dir a e = false ->
    has_content inflateInit2 holds a e (content e) /\ (length (content e) < fuel)%nat) cd ->
  Exists (fun e => under a (zip_path zipDir) e = true /\ is_dir a e = false) cd ->
  exists log, mzExtractRecursive kernel junk inflateInit2 inflate fuel a targetDir timestamp callback sehnd zipDir [] = Ret (true, log) /\
    files_of log <> [] /\ Forall (fun f => f.2 = []) (files_of log).
Proof.
  intros Hinf Hg Hw Hdirs (es & t & -> & Hp & Hs & Hin & _) Hnamed Hc Hx.
  destruct (mzExtractRecursive_run inflateInit2 inflate kernel junk fuel (Z.of_nat (length cd)) es (Ptr t) mem zipDir targetDir timestamp callback sehnd
    (fun e => (bool_decide (content e = []), []))) as (log & E & Hf); [by rewrite Hp | done | done | done | done | by rewrite Hp | |].
  - rewrite <- Hp in Hc. eapply Forall_impl; [exact Hc|]. intros e He Hu Hd log. destruct (He Hu Hd) as [Hce Hfe].
    destruct (process_contents inflateInit2 inflate holds Hinf _ e _ Hce) as (chunks & Ec & Hch & Hrun).
    unfold mzExtractZipEntryToFile. rewrite Hrun by (done || exact (write_reads kernel)).
    destruct (feed_refused kernel chunks Hw log Hch) as (ev & -> & Ha). exists ev. by rewrite Ec.
  - exists log. rewrite Hf. rewrite <- Hp in Hx.
    destruct (made_files_empty (mk_ZipArchive (Z.of_nat (length cd)) (Ptr es) (Ptr t) mem) targetDir (zip_path zipDir) content es) as [H1 H2].
    split_and!; [done | by apply H2 | done].
Qed.

Lemma mzExtractRecursive_hides_failure_witness : exists a log,
  mzExtractRecursive (easy_kernel true) (fun _ => 0) Some plain_inflate 2 a demo_target true true true [] [] = Ret (true, log) /\
  files_of log <> [] /\ Forall (fun f => f.2 = []) (files_of log).
Proof.
  destruct demo_opens as [a Ha]. exists a.
  apply (mzExtractRecursive_hides_failure Some plain_inflate eq (easy_kernel true) (fun _ => 0) 2 true demo_zip demo_entries a [] demo_target true true true (fun _ => [33])
    plain_inflates (easy_generous true) easy_refuses demo_dirs Ha (demo_named _)).
  - apply demo_contents. by destruct Ha as (es & t & -> & _).
  - apply Exists_cons_hd. destruct Ha as (es & t & -> & _). split; reflexivity.
Defined.

(** C34. Making the directories of a path. Whatever the system answers,
    [dirCreateHierarchy] ends without leaving the path; when it returns 0, there
    is a directory to make, and it was found as a whole, or each of its levels
    was found or made; it opens and writes no file; and where the missing levels
    can be made it does return 0, unless the path is empty or a file of the root
    directory. *)
Theorem dirCreateHierarchy_makes kernel path mode timestamp strip sehnd log : cstr_ok path ->
  exists r ev, dirCreateHierarchy kernel path mode timestamp strip sehnd log = Ret (r, log ++ ev) /\ quiet ev /\
    (r = 0 -> exists d, dir_of strip path d /\
       ((Stat d, 0) ∈ ev \/ forall i, level_ends d i -> (Stat (take i d), 0) ∈ ev \/ (Mkdir (take i d) mode, 0) ∈ ev)) /\
    (generous kernel -> (exists d, dir_of strip path d) -> r = 0).
Proof. intros Hp. exact (dirCreateHierarchy_run kernel timestamp sehnd mode strip path log Hp). Qed.

Lemma dirCreateHierarchy_makes_witness :
  exists r ev, dirCreateHierarchy (easy_kernel false) (str "/a/b/c") UNZIP_DIRMODE true true true [] = Ret (r, [] ++ ev) /\ quiet ev /\
    (r = 0 -> exists d, dir_of true (str "/a/b/c") d /\
       ((Stat d, 0) ∈ ev \/ forall i, level_ends d i -> (Stat (take i d), 0) ∈ ev \/ (Mkdir (take i d) UNZIP_DIRMODE, 0) ∈ ev)) /\
    (generous (easy_kernel false) -> (exists d, dir_of true (str "/a/b/c") d) -> r = 0).
Proof. apply (dirCreateHierarchy_makes (easy_kernel false) (str "/a/b/c") UNZIP_DIRMODE true true true []). apply (bool_decide_unpack _). reflexivity. Defined.
